(* ===== verification/_CoqProject ===== *)
-Q . S2P
Prelude.v
Types.v
Text.v
Bytes.v
CircuitBreaker.v
Predictive.v
SelectionRegistry.v
LoadBalancing.v
RateLimit.v
Errors.v
Feedback.v
Executor.v
Race.v
ProxyRace.v
SseFraming.v
ComboTree.v
Modality.v
Affinity.v
Decision.v
Router.v
ThinkExtractor.v
ThinkResponse.v
ModelIds.v
QuotaPools.v
Quotas.v
Cooldowns.v
UsageJournal.v
Admission.v
ClientIp.v
StreamNormalizer.v
MessageThreads.v
PiiSession.v
Replacer.v
Resolution.v
Snapshot.v
SnapshotCache.v
AccessControl.v
ComboEdit.v
ProxyPool.v
AudioDuration.v
Amounts.v
Pricing.v
UsageRows.v
UsageBilling.v
DeltaScan.v
Accumulator.v
StreamFold.v
Framing.v
Protobuf.v
DevinWire.v
DevinFrames.v
DevinStream.v
DevinAnswer.v
EventStream.v
KiroStream.v
DevinTurn.v
DevinRequest.v
PngMask.v
AnthropicBridge.v
ResponsesBridge.v
AnthropicStream.v
InlineTools.v
InlineParsers.v
