(* ===== verification/Prelude.v ===== *)
(** * openproxy: a verification library

    openproxy is a gateway in front of many LLM providers.  A request names a
    model or a combo, an ordered list of targets (provider, account, model);
    the gateway checks the caller's key, resolves the name, orders the
    targets, tries them one after the other or several at once, retries and
    fails over, streams the answer of one of them to the client, and remembers
    what each attempt taught it and what it cost.  This library models that
    core and proves what makes it correct.

    ** How the parts work together

    The address a request counts under is taken from its connection or from
    the headers of a trusted proxy.  Its API key is authenticated and checked
    against the model; the name is resolved to a plan, from a snapshot of the
    database held in memory or by SQL, and the key's restrictions are applied
    to the plan's targets.  The window and in-flight limits of the key come
    first.  The routing stage then loads the combo, lets the load balancer
    order the targets, replaces nested combos by their targets, spreads
    targets over accounts, puts healthy ones first and drops those that cannot
    take the request's media; in decision mode the session's target and a
    decision model reorder them; the quota stage drops exhausted accounts and
    keeps protected ones in reserve.

    The executor walks the result.  Before it runs a target it asks the
    predictive limiter for a slot; around each execution the result is fed
    back to the circuit breaker, to the limiter, to the registry, to the
    cooldowns and to the account's rows.  A failed target is retried in place
    as the retry policy and the class of the error allow, over other proxies
    where a proxy race is configured, then the walk goes on.  A combo may race
    its first targets: several lanes execute at once and the first to claim
    the client's stream owns it.

    The bytes a provider sends are cut into server-sent events by the framing
    buffer; deltas are normalised, the reasoning between think tags is taken
    out of the text, and the placeholders that replaced personal data in the
    request are turned back into the originals.  For providers with threads a
    conversation is continued by its new messages only.  Upstreams with a
    format of their own (Anthropic, Devin, Kiro) are translated into chunks of
    a chat completion, tool calls written into the text are taken out of it,
    and clients of the Messages and the Responses API get the chunks as events
    of theirs; a client that does not stream gets the stream folded into one
    answer.  What a request used goes through a journal with group commit into
    the usage tables.

    ** Which file models what (paths under src/crates)

    Shared:
    - Prelude: saturating and wrapping machine integers, insertion sort over
      a comparator (what a stable [sort_by] computes), reachability, and the
      lemmas on lists and maps the components share.
    - Types: openproxy-types/src/combos.rs, config.rs, providers.rs,
      client_profile.rs, the fields the routing core reads.
    - Text: [str] operations (search, trimming, integer parsing, ASCII
      folding) and [serde_json::Value]; Bytes: the same on lists of bytes.
    - Errors: [CoreError] (openproxy-types/src/error.rs), its classification
      (error_classification.rs in openproxy-types and openproxy-pipeline, the
      CodeBuddy codes of openproxy-adapters), [PipelineResult] and retry.rs.

    Admission of a request:
    - ClientIp: openproxy-server/src/client_ip.rs.
    - Resolution: openproxy-core/src/routing/mod.rs over the tables of the
      database, with the queries of openproxy-db/src/models/crud.rs,
      combos/crud.rs, combos/targets.rs and combos/mapping.rs.
    - ComboEdit: the writing half of openproxy-db/src/combos (crud.rs,
      targets.rs, settings.rs), with the constraints of the schema.
    - Snapshot, SnapshotCache: openproxy-core/src/routing/snapshot.rs, the
      snapshot and the version checks of the cache that serves it.
    - AccessControl: openproxy-core/src/api_keys/matching.rs and
      openproxy-server/src/middleware/auth.rs and routing.rs.
    - RateLimit: openproxy-core/src/rate_limit.rs, the request window with its
      evictions and the in-flight limiter with its guards.

    Routing:
    - Router: openproxy-pipeline/src/stages/router.rs, from a request to the
      targets the executor gets and back to the session's pin.
    - LoadBalancing: openproxy-pipeline/src/load_balancing.rs, every strategy
      and priority mode; SelectionRegistry:
      openproxy-types/src/selection_registry.rs, what they read.
    - ComboTree: openproxy-db/src/combos/resolve.rs and the flattening of
      openproxy-pipeline/src/execution.rs, over a record [ComboDb] of the
      database's answers.
    - Modality: openproxy-pipeline/src/stages/modality.rs, [ModalityFlags]
      and the text of a message (openproxy-types/src/models.rs, message.rs).
    - Affinity: openproxy-pipeline/src/session_affinity.rs, [get] in its two
      accesses.  Decision: openproxy-pipeline/src/stages/decision.rs, over the
      answer of the decision model.
    - ModelIds: openproxy-types/src/model_normalize.rs.  QuotaPools:
      openproxy-types/src/quota.rs, what a reading of a provider's quota says.
      Quotas: openproxy-pipeline/src/quotas.rs, the quota stage.

    Execution:
    - Executor: openproxy-pipeline/src/stages/executor.rs and its submodules
      helpers.rs, retry.rs and race.rs, over the explicit state [World].
    - Race: openproxy-pipeline/src/race_sink.rs and racing.rs; ProxyRace:
      proxy_race.rs.  Lanes, workers and waiters are automata that interleave
      in any order over the shared fields of the race.
    - CircuitBreaker: openproxy-pipeline/src/circuit_breaker.rs.
      [CircuitBreakerRegistry] is a map from key to [AccountBreaker]; one
      definition per method; [is_healthy] in its two critical sections.
    - Predictive: openproxy-pipeline/src/predictive_rate_limit.rs.  The
      automaton of one target ([TargetPredictiveState]) and the 256 shards.
    - Feedback: openproxy-pipeline/src/stages/target_breaker.rs, the feedback
      block of stages/target.rs and [update_selection_registry] of
      usage_tracker.rs.  Cooldowns: openproxy-db/src/cooldowns.rs.
    - ProxyPool: openproxy-db/src/free_proxies.rs, the rotation of
      openproxy-pipeline/src/dispatcher/rotation.rs and the writing half of
      openproxy-proxy-pool/src/free_proxies/crud.rs.

    The answer and its cost:
    - SseFraming: openproxy-pipeline/src/sse/framing.rs.  StreamNormalizer:
      streaming_state/normalizer.rs.
    - ThinkExtractor, ThinkResponse: openproxy-pipeline/src/think_extractor.rs,
      for streams and for whole responses.
    - PiiSession: openproxy-pipeline/src/pii/session.rs and the card checks of
      pii/engine/validators.rs.  Replacer: pii/replacer.rs and contact.rs.
    - DeltaScan, Accumulator: openproxy-pipeline/src/sse_accumulator, the
      scanner of a payload's delta and the recorded copy of a stream, with
      [merge_usage] of sse/anthropic/usage.rs.  StreamFold: the lines of an
      OpenAI stream (sse/mod.rs, sse/openai.rs), their fold into one answer
      (sse/stream_to_value.rs), the usage of a stream
      (streaming_state/processor.rs) and what is sent of a translated chunk
      (streaming_state/translated.rs).
    - InlineTools, InlineParsers: openproxy-pipeline/src/inline_tools, the
      stream extractor (stream.rs) over the class [InlineToolParser] and the
      parser of JSON calls (hermes_json.rs), an instance of it.
    - MessageThreads: openproxy-pipeline/src/message_threads.rs.
    - UsageJournal: openproxy-db/src/usage_journal.rs, usage_writer.rs and the
      replay of openproxy-pipeline/src/worker.rs.  Admission:
      openproxy-pipeline/src/worker/coordinator.rs, producers and leader as
      interleaved steps.
    - Pricing: openproxy-db/src/pricing.rs; UsageRows: cost.rs next to it, with
      the retry of error.rs and [UsageInput] of openproxy-types/src/usage.rs.
      Amounts has the lemmas on nonnegative floating point.  UsageBilling
      composes the journal with the usage rows.
    - AudioDuration: openproxy-core/src/audio_duration.rs, what a submitted
      audio file is billed for.  PngMask: openproxy-core/src/images/png_mask.rs,
      the mask of an image to edit.

    Formats of upstreams and clients:
    - Framing: draining a buffer of frames, shared by the two binary streams.
    - Protobuf: openproxy-adapters/src/adapters/devin/protoc.rs.  DevinWire:
      wire.rs next to it, the Connect envelope, gzip, tool call ids and session
      counters.  DevinFrames: response.rs, the fields of a response frame.
    - DevinStream: openproxy-pipeline/src/sse/devin.rs and
      streaming_state/devin.rs, frames into chunks and the Devin loop of
      streaming/pipeline.rs.  DevinAnswer: the fold into one answer, and the
      client that puts the sent payloads together.
    - DevinTurn, DevinRequest: turn.rs, signature.rs, tools.rs and the request
      of wire.rs in openproxy-adapters/src/adapters/devin.
    - EventStream, KiroStream: openproxy-adapters/src/adapters/kiro
      (eventstream.rs, fold.rs) and openproxy-pipeline/src/sse/kiro.rs.
    - AnthropicStream: openproxy-pipeline/src/sse/anthropic and
      translation/anthropic/response.rs, the events of an Anthropic upstream.
    - AnthropicBridge: openproxy-pipeline/src/translation/sse.rs;
      ResponsesBridge: translation/responses_sse.  The streams for clients of
      the Messages API and of the Responses API.

    ** What the theorems show

    The theorems are the properties of the components; further facts about
    them are lemmas.

    - Executor: no upstream work starts once a byte of the stream is
      committed; the walk always returns, with an explicit bound on the
      executions; what it returns comes from a call or reports the client's
      disconnection, "no healthy targets" for a combo with targets included;
      targets that lost the race are not run again.
    - Race, ProxyRace: one lane owns the stream in every interleaving; a
      failed race has tried every target; the waiter is never stranded; a
      stored success can nevertheless be missed (an interleaving is
      exhibited).
    - Resolution, Snapshot, SnapshotCache: resolution from the snapshot equals
      resolution by SQL.  The lemmas exhibit the tables on which the two paths
      differ, say when the cache serves what it holds, and exhibit a foreign
      commit it does not see while its probe is locked.
    - ComboEdit: every history of edits keeps ids and names distinct, every
      reference (combo, provider, model, account, sub-combo, prefix) alive,
      what is listed readable and combos free of cycles of up to six; the
      search for cycles finds exactly the chains within its depth (a cycle of
      seven is exhibited); reordering takes effect.
    - AccessControl: a route needs a valid key and contains only what the key
      permits, where the pattern checks are characterised exactly; a nested
      combo escapes the check (a request is exhibited).
    - ClientIp: which header decides the address: none of an untrusted peer;
      behind a trusted one X-Real-IP, else the entries the proxies appended to
      the first X-Forwarded-For line (what a second line does is exhibited).
    - Affinity, Decision, Router: routing loses no target and puts healthy
      ones first; decision routing only moves targets to the front; a
      continued conversation keeps its target unless an answer of the decision
      model names another one clearly or names one of bad reputation.
    - ComboTree: flattening always answers, fails exactly on cyclic, too deep
      or unreadable nestings and otherwise yields the depth-first targets; the
      limit of a combo is the least of its models'.
    - Modality: the gate keeps exactly the targets that declare the media some
      part of the request carries.
    - QuotaPools, Quotas: what a quota reading means and which targets the
      quota stage keeps, in which order.
    - LoadBalancing, SelectionRegistry: every strategy permutes the targets;
      round robin is fair, weighted choice proportional, the other modes sort
      by what they say; pruning is invisible to the windowed readings.
    - CircuitBreaker: the invariant of the reachable registries, the abstract
      health function the lock-split check refines, an open circuit stays
      open for its penalty, and the threshold is exact.
    - Feedback: which results may open a circuit and which must, that one
      in-flight slot is returned whatever happens, and that preventive combos
      never retry in place.
    - Predictive: sharding refines one flat map, evaluation agrees with
      acquisition, penalties are bounded and respected, penalised targets
      recover, a window admits at most the learned burst.
    - ProxyPool: a provider with proxies goes through a live one, a proxy
      that failed rests over any operations that do not shorten its cooldown,
      for requests and for races, and no operation leaves a dangling binding or two
      accounts of a provider on one proxy.
    - RateLimit, Cooldowns, Errors: exact budgets, bounded memory, throttles
      that survive a flood of keys; exact and capped backoff; delays within
      the jitter.
    - SseFraming, ThinkExtractor, ThinkResponse, StreamNormalizer: framing and
      extraction do not depend on how a stream is cut (the content only while
      no close tag stands outside a block), whole responses are cut like
      streams, tool arguments add up.
    - PiiSession, Replacer: every placeholder leads back to its original as
      long as no name starts with "bearer ", no spelling is restored on a
      guess, and a stream restores placeholders only and, wherever it is cut,
      all of those that stand alone and are not overlapped.
    - DeltaScan, Accumulator, StreamFold: the byte scanner reads a delta as its
      structure has it and decodes every legal string exactly; the recorded
      copy is the text of the stream or a marked prefix of it, within its
      budget; usage keeps the largest counts in any order; a stream folded into
      one answer loses nothing that fits (what is lost past the budget, and
      reasoning decoded twice, are exhibited).
    - InlineTools, InlineParsers: however a text with tool calls in it is cut,
      the client gets its texts and the calls of its blocks.
    - DevinWire, DevinFrames, DevinTurn, DevinRequest: frames do not depend on
      how bytes are cut, are read as they were written, and a request reads
      back field by field with a temperature above zero; prompts alternate and
      results answer earlier calls.
    - DevinAnswer, KiroStream, AnthropicStream: what a client puts together
      from the payloads sent, before the normalizer, is the answer of the
      frames, and for Devin and Kiro also the folded one (the usage of a Devin
      answer depends on streaming, which is exhibited).
    - AnthropicBridge, ResponsesBridge: a client that checks every event
      follows an answer whose parts come in order, and ends with its text and
      with the calls joined by their index; the orders it cannot follow are
      exhibited.
    - MessageThreads: a continuation sends exactly the new messages.
    - UsageJournal, Admission: every admitted entry is applied exactly once
      and in order, and no producer waits for ever.
    - Pricing, UsageRows, UsageBilling: every applied entry is one row with
      the cost of its model's price; costs are never negative or NaN; rows read
      back as they were published; a price that comes late gives the cost it
      would have given at once (failed requests and cached tokens, where it
      does not, are exhibited).
    - AudioDuration: only a file that nests boxes deeper than the stack makes
      the probe fail, and the durations WAV, FLAC and MP4 files record are the
      ones read.  PngMask: the mask of an 8-bit non-interlaced image marks
      exactly the pixels that are not opaque.

    ** Parameters

    Code outside the repository is a parameter: serde_json's decoder
    ([json_of], [accounts_of_json], [decode_job]) and printer
    ([json_to_string], [number_string]), the hashers ([finish], [hash_str]),
    rand ([Rng] with the laws [RngOk]), the iteration order of a concurrent or
    hash map ([DashIter], [iter]), chrono's parsers and bounds
    ([parse_timestamp], [max_utc]), the float parser ([parse_f64]), Unicode
    tables ([unicode_upper], [unicode_alnum]), the Aho-Corasick automaton
    ([build] of Replacer, with [matches_sound] and, where placeholders must be
    found, [find_iter_laws]), SQLite's [datetime] and its answers where the
    query is not modelled ([ComboDb], [record_row], [mark_winner_usage_row]),
    rusqlite's error texts ([conversion]) and the decision model ([ask]), the
    regex crate ([replace_all]), the order of a query without one
    ([PriceOrder]), the serde probes of stream lines ([sse_probe],
    [tool_probe], [error_probe]) and [from_utf8_lossy], with its documented
    identity on valid UTF-8; gzip and zlib ([inflate],
    [decompress_to_vec_zlib]), base64 (with its round
    trip), SHA-256, UUIDs, crc32, the serde probes of the translated streams
    and of the bridges, and for InlineTools a decoder that reads back what is
    printed.  The tables of models.rs and the XML parser of inline tool calls
    are arguments too, the latter through the promise of its trait.
    tokio's [Notify] is modelled by its documented epochs.

    The executor is proved against a record [Upstream] of what it calls (the
    execution of one target, the races, the clock, sleeping, the client's
    watch channel) over an arbitrary environment, so its theorems hold for
    any behaviour of the upstreams; Race and Feedback model the parts of
    those calls that touch the routing state.

    ** Fuel and bounds

    [retry_loop] has fuel 256: the retry counter is a [u8] that grows in every
    turn and stops the loop at its bound; [executor_terminates] shows the fuel
    is never exhausted.  [drain] has one more than the length of the buffer,
    as every frame consumes a byte; [trim_by], the think extractor's loops and
    [scan] have the length of their text, of which each turn consumes a part.
    [extract_biz_code] has the depth limit of the source, 6.  The recursion
    over nested combos, also in the pre-flight copy, has fuel 7: its depth
    check stops it at depth 6, and the lemmas show that it never runs out.
    [replay_pending] has one more than the length of the journal, as every
    page applies or ends.  [resolve_collision] has one more than the size of
    the reverse map, enough while fewer than 10^5 numbers are taken; [show]
    has the 20 digits of a [u64].  The loops of AudioDuration have one more
    than the length of the file, of which every turn passes a part; its
    search for nested boxes has the depth of the stack, a parameter.
    [decode_loop] and [scan_fields] have the length of their text, of which
    every turn consumes a byte, and [find_delta_loop] one more.  A varint has
    ten groups, as in the source; [parse_fields], the deframers, [chunks_loop],
    [scan_text] and [find_open] have one more than the length of their bytes,
    [parse_signature] and [trim_start_matches] their length.  A quota
    evaluation reads the clock once.

    ** What is not modelled

    The HTTP side of the adapters, the translation of requests and of whole
    answers, compression, the regular expressions that detect personal data and
    their stage, the extraction of tool calls from a whole answer and the XML
    parser of theirs, the worker's task loop, credentials, discovery, OAuth,
    analytics, notifications, the scraping of proxies, the admin handlers and
    the other writing queries: network, SQL and JSON rewriting around this core.
    Failures of reading queries are modelled where a row does not decode; the
    hooks of SQLite and the interleaving of commits with the building of a
    snapshot are not modelled.  The interleavings of Race are those of any
    scheduler, also ones a mutex held over two steps rules out, and a leader of
    the group commit commits and replies in one step.  Floating point occurs in
    the reputation score, the exploration draw, quotas, costs and the decision
    answers, with the standard library's IEEE model.  Logging is left out.

    ** Plan

    What is left: credentials, the progress of hidden reasoning, the XML parser
    of inline tool calls and the translation of requests. *)

From stdpp Require Export base list gmap strings fin_maps sorting.
From Stdlib Require Export ZArith Lia.

#[global] Open Scope Z_scope.

(** ** Machine integers

    A Rust unsigned integer is a [Z]; the operations below are the ones the
    sources use.  [wrap_*] is what plain [+], [-] and [as] do in the release
    profile (Cargo.toml sets no [overflow-checks]); [sat_*] are the
    [saturating_*] methods, parameterised by the maximum of the type. *)

Definition u8_max : Z := 255.
Definition u16_max : Z := 65535.
Definition u32_max : Z := 4294967295.
Definition u64_max : Z := 18446744073709551615.
Definition i64_max : Z := 9223372036854775807.
Definition i64_min : Z := -9223372036854775808.

Definition sat_add (m a b : Z) : Z := Z.min m (a + b).
Definition sat_sub (a b : Z) : Z := Z.max 0 (a - b).
Definition sat_mul (m a b : Z) : Z := Z.min m (a * b).
Definition wrap_add (m a b : Z) : Z := (a + b) mod (m + 1).
Definition wrap_mul (m a b : Z) : Z := (a * b) mod (m + 1).

(** [Iterator::find_map]. *)
Definition find_map {A B} (f : A -> option B) (l : list A) : option B := head (omap f l).

Lemma find_map_Some {A B} (f : A -> option B) l y : find_map f l = Some y -> exists x, x ∈ l /\ f x = Some y.
Proof.
  unfold find_map. induction l as [|x l IH]; [done|]. cbn. destruct (f x) as [y'|] eqn:E; cbn.
  - intros [= ->]. exists x. split; [left|done].
  - intros (z & Hz & Hf)%IH. exists z. split; [by right|done].
Qed.

(** Disjoint bits: an or is a sum. *)
Lemma lor_shiftl_add a b n : 0 <= n -> 0 <= b < 2 ^ n -> Z.lor (Z.shiftl a n) b = a * 2 ^ n + b.
Proof.
  intros Hn Hb. rewrite Z.shiftl_mul_pow2 by lia. symmetry. apply Z.add_nocarry_lor. apply Z.bits_inj'. intros k Hk.
  rewrite Z.land_spec, Z.bits_0. destruct (Z_lt_le_dec k n).
  - by rewrite Z.mul_pow2_bits_low by lia.
  - destruct (Z.eq_dec b 0) as [->|]; [by rewrite Z.bits_0, andb_false_r|].
    rewrite (Z.bits_above_log2 b k); [by rewrite andb_false_r|lia|]. apply Z.log2_lt_pow2; [lia|].
    apply Z.lt_le_trans with (2 ^ n); [lia|]. apply Z.pow_le_mono_r; lia.
Qed.

(** [x as i64] for an unsigned [x] of 64 bits. *)
Definition as_i64 (x : Z) : Z := if x <=? i64_max then x else x - (u64_max + 1).

(** [x as u64] for a signed [x] of 64 bits. *)
Definition as_u64 (x : Z) : Z := x mod (u64_max + 1).

(** [i64::saturating_add]. *)
Definition sat_add_i64 (a b : Z) : Z := Z.max i64_min (Z.min i64_max (a + b)).

(** [saturating_pow], by the exponent. *)
Definition sat_pow (m b : Z) (n : Z) : Z := Z.min m (b ^ n).

Definition in_u (m x : Z) : Prop := 0 <= x <= m.

(** ** Orderings, as [std::cmp::Ordering] *)

Definition cmp_then (a b : comparison) : comparison :=
  match a with Eq => b | _ => a end.

(** ** Stable sorting

    [slice::sort_by] is a stable sort by a comparator.  Insertion sort with
    [x] placed before the first element it is not greater than, scanning from
    the left after inserting the tail, is the reference stable sort: the
    result of any stable sort by a total preorder is this list. *)

Fixpoint insert_by {A} (cmp : A -> A -> comparison) (x : A) (l : list A) : list A :=
  match l with
  | [] => [x]
  | y :: l' => match cmp x y with
               | Gt => y :: insert_by cmp x l'
               | _ => x :: y :: l'
               end
  end.

Fixpoint sort_by {A} (cmp : A -> A -> comparison) (l : list A) : list A :=
  match l with
  | [] => []
  | x :: l' => insert_by cmp x (sort_by cmp l')
  end.

(** What [sort_by] asks of its comparator (std docs: a total order). *)
Class TotalPreorder {A} (cmp : A -> A -> comparison) : Prop := {
  tp_antisym : forall x y, cmp y x = CompOpp (cmp x y);
  tp_trans : forall x y z, cmp x y <> Gt -> cmp y z <> Gt -> cmp x z <> Gt
}.

(** ** Slice rotations *)

(** [v.rotate_left(k)] for [k <= len]. *)
Definition rotate_left {A} (k : nat) (l : list A) : list A := drop k l ++ take k l.

(** [v[..=idx].rotate_right(1)]: the element at [idx] moves to the head and
    the elements before it shift right by one. *)
Definition rotate_prefix {A} (idx : nat) (l : list A) : list A :=
  match l !! idx with
  | Some x => x :: take idx l ++ drop (S idx) l
  | None => l
  end.

(** ** Automation *)

Create HintDb openproxy.

Ltac zbool :=
  repeat match goal with
  | H : (_ <? _) = true |- _ => apply Z.ltb_lt in H
  | H : (_ <? _) = false |- _ => apply Z.ltb_ge in H
  | H : (_ <=? _) = true |- _ => apply Z.leb_le in H
  | H : (_ <=? _) = false |- _ => apply Z.leb_gt in H
  | H : (_ =? _) = true |- _ => apply Z.eqb_eq in H
  | H : (_ =? _) = false |- _ => apply Z.eqb_neq in H
  | H : (_ && _)%bool = true |- _ => apply andb_true_iff in H; destruct H
  | H : (_ || _)%bool = false |- _ => apply orb_false_iff in H; destruct H
  | H : negb _ = true |- _ => apply negb_true_iff in H
  | H : negb _ = false |- _ => apply negb_false_iff in H
  end.

(** Split the boolean tests of the goal and of the context, then [lia]. *)
Ltac zcase :=
  repeat match goal with
  | |- context [?a <? ?b] => destruct (Z.ltb_spec a b)
  | |- context [?a <=? ?b] => destruct (Z.leb_spec a b)
  | |- context [?a =? ?b] => destruct (Z.eqb_spec a b)
  | H : context [?a <? ?b] |- _ => destruct (Z.ltb_spec a b)
  | H : context [?a <=? ?b] |- _ => destruct (Z.leb_spec a b)
  | H : context [?a =? ?b] |- _ => destruct (Z.eqb_spec a b)
  end.

Ltac msolve :=
  unfold sat_add, sat_sub, sat_mul, in_u, u8_max, u16_max, u32_max, u64_max in *; lia.

(** Concrete comparisons, by evaluation. *)
Ltac zvm := repeat split; vm_compute; first [reflexivity | congruence].

#[export] Hint Extern 5 => msolve : openproxy.

(** ** Shared lemmas *)

Lemma insert_by_perm {A} (cmp : A -> A -> comparison) x l :
  insert_by cmp x l ≡ₚ x :: l.
Proof.
  induction l as [|y l IH]; simpl; [done|].
  destruct (cmp x y); [done..|]. rewrite IH. apply Permutation_swap.
Qed.

Lemma sort_by_perm {A} (cmp : A -> A -> comparison) l : sort_by cmp l ≡ₚ l.
Proof.
  induction l as [|x l IH]; simpl; [done|]. by rewrite insert_by_perm, IH.
Qed.

Lemma rotate_left_perm {A} k (l : list A) : rotate_left k l ≡ₚ l.
Proof. unfold rotate_left. by rewrite Permutation_app_comm, take_drop. Qed.

Lemma rotate_prefix_perm {A} i (l : list A) : rotate_prefix i l ≡ₚ l.
Proof.
  unfold rotate_prefix. destruct (l !! i) as [x|] eqn:E; [|done].
  rewrite <- (take_drop_middle l i x E) at 3. by rewrite Permutation_middle.
Qed.

#[export] Hint Resolve insert_by_perm sort_by_perm rotate_left_perm rotate_prefix_perm : openproxy.

Section sorting.
Context {A : Type} (cmp : A -> A -> comparison) `{!TotalPreorder cmp}.

Lemma tp_not_gt x y : cmp x y = Gt -> cmp y x <> Gt.
Proof. rewrite (tp_antisym (cmp:=cmp) x y). by intros ->. Qed.

Lemma insert_by_sorted x l :
  StronglySorted (fun a b => cmp a b <> Gt) l ->
  StronglySorted (fun a b => cmp a b <> Gt) (insert_by cmp x l).
Proof.
  induction 1 as [|y l Hs IH Hall]; simpl; [repeat constructor|].
  destruct (cmp x y) eqn:E.
  1, 2: constructor; [by constructor|]; constructor; [congruence|];
    eapply Forall_impl; [apply Hall|]; simpl; intros z Hz;
    apply (tp_trans (cmp:=cmp) x y z); congruence.
  constructor; [done|].
  rewrite insert_by_perm. constructor; [by apply tp_not_gt|done].
Qed.

Lemma sort_by_sorted l : StronglySorted (fun a b => cmp a b <> Gt) (sort_by cmp l).
Proof. induction l; simpl; [constructor|]. by apply insert_by_sorted. Qed.

(** Stability: the elements that compare equal to [z] keep their order. *)
Lemma insert_by_stable z x l :
  StronglySorted (fun a b => cmp a b <> Gt) l ->
  filter (fun y => cmp z y = Eq) (insert_by cmp x l)
  = filter (fun y => cmp z y = Eq) (x :: l).
Proof.
  induction 1 as [|y l Hs IH Hall]; simpl; [done|].
  destruct (cmp x y) eqn:E; [done..|].
  rewrite (filter_cons _ y), IH. rewrite !filter_cons.
  repeat case_decide; try done. exfalso.
  assert (cmp x z = Eq) as Hxz by (rewrite (tp_antisym (cmp:=cmp) z x); by rewrite H0).
  assert (cmp x y <> Gt); [|done].
  eapply (tp_trans (cmp:=cmp) x z y); congruence.
Qed.

Lemma sort_by_stable z l :
  filter (fun y => cmp z y = Eq) (sort_by cmp l) = filter (fun y => cmp z y = Eq) l.
Proof.
  induction l as [|x l IH]; simpl; [done|].
  rewrite insert_by_stable by apply sort_by_sorted.
  rewrite !filter_cons, IH. done.
Qed.

(** [WHERE] and [ORDER BY] commute. *)
Lemma filter_insert_by (P : A -> Prop) `{!forall x, Decision (P x)} x l :
  StronglySorted (fun a b => cmp a b <> Gt) l ->
  filter P (insert_by cmp x l) = if decide (P x) then insert_by cmp x (filter P l) else filter P l.
Proof.
  induction 1 as [|y l Hs IH Hall]; simpl; [by rewrite filter_cons|].
  destruct (cmp x y) eqn:E.
  3: { rewrite (filter_cons _ y), IH, (filter_cons _ y). repeat case_decide; simpl; by rewrite ?E. }
  all: rewrite (filter_cons _ x); case_decide; [|done]; rewrite filter_cons; case_decide; simpl; [by rewrite E|].
  all: assert (Forall (fun z => cmp x z <> Gt) (filter P l)) as Hle
    by (rewrite Forall_forall in Hall |- *; intros z [_ Hz]%list_elem_of_filter;
        apply (tp_trans (cmp:=cmp) x y z); [congruence|by apply Hall]).
  all: destruct Hle as [|z l' Hz _]; simpl; [done|]; by destruct (cmp x z).
Qed.

Lemma filter_sort_by (P : A -> Prop) `{!forall x, Decision (P x)} l :
  filter P (sort_by cmp l) = sort_by cmp (filter P l).
Proof.
  induction l as [|x l IH]; simpl; [done|].
  rewrite filter_insert_by by apply sort_by_sorted. rewrite IH, filter_cons. by case_decide.
Qed.
End sorting.

Lemma insert_by_ext {A} (c1 c2 : A -> A -> comparison) x l :
  (forall y, y ∈ l -> c1 x y = c2 x y) -> insert_by c1 x l = insert_by c2 x l.
Proof.
  induction l as [|y l IH]; intros H; simpl; [done|].
  rewrite H by set_solver. destruct (c2 x y); [done..|]. by rewrite IH by set_solver.
Qed.

Lemma sort_by_ext {A} (c1 c2 : A -> A -> comparison) l :
  (forall x y, x ∈ l -> y ∈ l -> c1 x y = c2 x y) -> sort_by c1 l = sort_by c2 l.
Proof.
  induction l as [|x l IH]; intros H; simpl; [done|].
  rewrite IH by (intros; apply H; set_solver).
  apply insert_by_ext. intros y. rewrite sort_by_perm. intros; apply H; set_solver.
Qed.

(** Comparing by an integer key, and by one comparator after another. *)
#[export] Instance by_key_total {A} (f : A -> Z) : TotalPreorder (fun a b => f a ?= f b).
Proof.
  split; intros.
  - apply Z.compare_antisym.
  - destruct (Z.compare_spec (f x) (f y)), (Z.compare_spec (f y) (f z)), (Z.compare_spec (f x) (f z));
      try done; lia.
Qed.

Lemma cmp_then_total {A} (c1 c2 : A -> A -> comparison) :
  TotalPreorder c1 -> TotalPreorder c2 -> TotalPreorder (fun a b => cmp_then (c1 a b) (c2 a b)).
Proof.
  intros H1 H2. split; intros x y.
  - rewrite (tp_antisym (cmp:=c1) x y), (tp_antisym (cmp:=c2) x y).
    unfold cmp_then. by destruct (c1 x y), (c2 x y).
  - intros z. unfold cmp_then.
    pose proof (tp_antisym (cmp:=c1) x y) as Axy. pose proof (tp_antisym (cmp:=c1) y z) as Ayz.
    pose proof (tp_antisym (cmp:=c1) x z) as Axz.
    pose proof (tp_trans (cmp:=c1) x y z) as T. pose proof (tp_trans (cmp:=c1) z x y) as T1.
    pose proof (tp_trans (cmp:=c1) y z x) as T2. pose proof (tp_trans (cmp:=c2) x y z) as T3.
    destruct (c1 x y), (c1 y z), (c1 x z); simpl in *; try done; intros;
      try (by apply T3); exfalso.
    all: rewrite ?Axy, ?Ayz, ?Axz in *; simpl in *; try (by apply T); try (by apply T1); try (by apply T2).
Qed.

(** ** Filters and lookups by key *)

Lemma filter_fmap {A B} (f : A -> B) (P : B -> Prop) `{!forall x, Decision (P x)} (l : list A) :
  filter P (f <$> l) = f <$> filter (fun x => P (f x)) l.
Proof. induction l as [|x l IH]; csimpl; [done|]. rewrite !filter_cons, IH. by case_decide. Qed.

Lemma filter_nil_iff {A} (P : A -> Prop) `{!forall x, Decision (P x)} (l : list A) :
  filter P l = [] <-> forall x, x ∈ l -> ~ P x.
Proof.
  split.
  - intros Hn x Hx HP. assert (x ∈ filter P l) as Hf by (by apply list_elem_of_filter).
    rewrite Hn in Hf. by apply not_elem_of_nil in Hf.
  - induction l as [|x l IH]; intros Hn; [done|]. rewrite filter_cons, decide_False by (apply Hn; by left).
    apply IH. intros y Hy. apply Hn. by right.
Qed.

Lemma filter_iff_in {A} (P Q : A -> Prop) `{!forall x, Decision (P x)} `{!forall x, Decision (Q x)} (l : list A) :
  (forall x, x ∈ l -> P x <-> Q x) -> filter P l = filter Q l.
Proof.
  induction l as [|x l IH]; intros HPQ; [done|]. rewrite !filter_cons, IH by set_solver.
  assert (P x <-> Q x) by (apply HPQ; set_solver). repeat case_decide; tauto.
Qed.

Lemma head_filter_Some {A} (P : A -> Prop) `{!forall x, Decision (P x)} l x :
  head (filter P l) = Some x -> P x /\ x ∈ l.
Proof.
  intros Hh. apply (list_elem_of_filter P l x). destruct (filter P l); [done|]. simplify_eq/=. apply list_elem_of_here.
Qed.

Lemma head_filter_None {A} (P : A -> Prop) `{!forall x, Decision (P x)} l :
  head (filter P l) = None -> forall x, x ∈ l -> ~ P x.
Proof.
  intros Hh x Hx HP. assert (x ∈ filter P l) as Hin by by apply list_elem_of_filter.
  destruct (filter P l); [by apply elem_of_nil in Hin|done].
Qed.

Lemma head_filter_key {A K} `{EqDecision K} (f : A -> K) (l : list A) k x :
  NoDup (f <$> l) -> head (filter (fun y => f y = k) l) = Some x <-> x ∈ l /\ f x = k.
Proof.
  induction l as [|y l IH]; simpl; intros Hnd; [set_solver|].
  inversion_clear Hnd as [|? ? Hy Hl]. rewrite filter_cons. case_decide as Hk; simpl.
  - split; [naive_solver set_solver|]. intros [[->|Hx]%elem_of_cons Hf]; [done|].
    destruct Hy. rewrite Hk, <- Hf. by apply list_elem_of_fmap_2.
  - rewrite IH by done. set_solver.
Qed.

Lemma rotate_prefix_head {A} i (l : list A) x :
  l !! i = Some x -> head (rotate_prefix i l) = Some x.
Proof. unfold rotate_prefix. by intros ->. Qed.

(** ** Reachability by a step relation *)

Section reach.
Context {S : Type} (step : S -> S -> Prop).

Lemma rtc_invariant (P : S -> Prop) s s' :
  (forall x y, P x -> step x y -> P y) -> P s -> rtc step s s' -> P s'.
Proof. intros Hstep Hs Hr. induction Hr; eauto. Qed.
End reach.
