(* ===== verification/Types.v ===== *)
(** * Shared data types

    The structs and enums of openproxy-types that several components read:
    typed ids (newtypes over [i64], here [Z]), combos and combo targets, the
    rate-limit scope and the cooldown mode. *)

From S2P Require Import Prelude.
From Stdlib Require Export SpecFloat.

(** ** Enums *)

Inductive Strategy := Priority | RoundRobin | Shuffle.

Inductive PriorityMode := Strict | Lkgp | Weighted | LeastUsed | P2c | DecisionMode.

Inductive RateLimitScope := ScopeAccount | ScopeModel.

Inductive CooldownMode := CooldownFlat | CooldownExponential | CooldownNone.

Inductive ClientProfile :=
  | ClaudeCode | Codex | Cline | Kilocode | Kiro | Minimax
  | CommandCode | CodeBuddy | Opencode | Antigravity.

#[export] Instance Strategy_eq_dec : EqDecision Strategy.
Proof. solve_decision. Defined.
#[export] Instance PriorityMode_eq_dec : EqDecision PriorityMode.
Proof. solve_decision. Defined.
#[export] Instance RateLimitScope_eq_dec : EqDecision RateLimitScope.
Proof. solve_decision. Defined.
#[export] Instance CooldownMode_eq_dec : EqDecision CooldownMode.
Proof. solve_decision. Defined.
#[export] Instance ClientProfile_eq_dec : EqDecision ClientProfile.
Proof. solve_decision. Defined.

(** ** binary64

    A Rust [f64] is a [spec_float] of precision 53 and maximal exponent 1024
    (Stdlib's executable IEEE-754 specification). *)

Definition f64 : Type := spec_float.
Definition f64_prec : Z := 53.
Definition f64_emax : Z := 1024.
Definition f64_mul : f64 -> f64 -> f64 := SFmul f64_prec f64_emax.
Definition f64_div : f64 -> f64 -> f64 := SFdiv f64_prec f64_emax.
Definition f64_add : f64 -> f64 -> f64 := SFadd f64_prec f64_emax.
Definition f64_sub : f64 -> f64 -> f64 := SFsub f64_prec f64_emax.
Definition f64_ltb : f64 -> f64 -> bool := SFltb.
Definition f64_leb : f64 -> f64 -> bool := SFleb.

(** [n as f64] for an integer [n], rounded to nearest even. *)
Definition f64_of_Z (n : Z) : f64 := binary_normalize f64_prec f64_emax n 0 false.

Definition f64_is_nan (x : f64) : bool :=
  match x with S754_nan => true | _ => false end.

(** [f64::clamp]: raise below [lo], lower above [hi], NaN is returned as is. *)
Definition f64_clamp (lo hi x : f64) : f64 :=
  let x := if f64_ltb x lo then lo else x in
  if f64_ltb hi x then hi else x.

(** ** Structs *)

Record Combo := mkCombo {
  c_id : Z;
  c_name : string;
  c_strategy : Strategy;
  c_race_size : Z;
  c_preventive_rate_limit : bool;
  c_created_at : string;
  c_context_window : option Z;
  c_max_output_tokens : option Z;
  c_priority_mode : PriorityMode;
  c_cooldown_mode : CooldownMode;
  c_cooldown_base_secs : option Z;
  c_cooldown_max_secs : option Z;
  c_cooldown_factor : option Z;
  c_lkgp_exploration_rate : option f64;
  c_selection_window_secs : option Z;
  c_decision_model : option string;
  c_decision_timeout_ms : option Z;
  c_modality_gate : option bool;
  c_sanitize_response : option bool;
  c_real_model_id : option string
}.

Record ComboTarget := mkTarget {
  t_id : Z;
  t_combo_id : Z;
  t_provider_id : string;
  t_account_id : option Z;
  t_model_row_id : option Z;
  t_sub_combo_id : option Z;
  t_priority_order : Z;
  t_weight : Z;
  t_active : bool;
  t_rate_limit_scope : RateLimitScope;
  t_cooldown_mode : option CooldownMode;
  t_cooldown_base_secs : option Z;
  t_cooldown_max_secs : option Z;
  t_cooldown_factor : option Z;
  t_thinking_effort : option string;
  t_description : option string;
  t_selected_accounts : option (list Z);
  t_client_profile : option ClientProfile;
  t_inherited_target_id : option Z
}.

(** [impl Default for ComboTarget] and [impl Default for Combo]. *)
Definition default_target : ComboTarget :=
  mkTarget 0 0 "" None None None 0 1 true ScopeAccount
    None None None None None None None None None.

Definition default_combo : Combo :=
  mkCombo 0 "" Priority 1 false "" None None Strict CooldownFlat
    None None None None None None None None None None.

#[export] Instance ComboTarget_eq_dec : EqDecision ComboTarget.
Proof. solve_decision. Defined.

(** [TargetExecutionId] and its two constructors. *)
Record TargetExecutionId := mkExecId { e_target_id : Z; e_account_id : option Z }.

#[export] Instance TargetExecutionId_eq_dec : EqDecision TargetExecutionId.
Proof. solve_decision. Defined.

Definition exec_id_from_target (t : ComboTarget) : TargetExecutionId :=
  mkExecId (t_id t) (t_account_id t).

Definition exec_id_matches_target (e : TargetExecutionId) (t : ComboTarget) : bool :=
  bool_decide (e_target_id e = t_id t)
  && (bool_decide (e_account_id e = None) || bool_decide (e_account_id e = t_account_id t)).
