(* ===== verification/Text.v ===== *)
(** * Strings and JSON values

    What the sources use of [str] and of [serde_json::Value].  A Rust [str] is
    its UTF-8 bytes, here a [string] of 8-bit characters; searching and ASCII
    case folding work on bytes.  Parsing text into a [Json] is serde_json's
    and stays a parameter of the definitions that use it. *)

From Stdlib Require Import Ascii String.
From S2P Require Import Prelude.

Definition byte_of (c : ascii) : Z := Z.of_nat (nat_of_ascii c).

(** [str::starts_with] and [str::contains] for a string pattern. *)
Definition starts_with (p s : string) : bool := String.prefix p s.

Fixpoint contains (p s : string) : bool :=
  starts_with p s || match s with String _ s' => contains p s' | EmptyString => false end.

Definition contains_any (ps : list string) (s : string) : bool := existsb (fun p => contains p s) ps.

(** [str::to_ascii_lowercase]. *)
Definition ascii_lower (c : ascii) : ascii :=
  if (65 <=? byte_of c) && (byte_of c <=? 90) then ascii_of_nat (Z.to_nat (byte_of c + 32)) else c.

Fixpoint to_ascii_lowercase (s : string) : string :=
  match s with
  | EmptyString => EmptyString
  | String c s' => String (ascii_lower c) (to_ascii_lowercase s')
  end.

(** [str::split(c)]. *)
Fixpoint split_char (c : ascii) (s : string) : list string :=
  match s with
  | EmptyString => [EmptyString]
  | String x s' =>
      if Ascii.eqb x c then EmptyString :: split_char c s'
      else match split_char c s' with
           | h :: t => String x h :: t
           | [] => [String x EmptyString]
           end
  end.

(** ** Trimming

    [char::is_whitespace] is the Unicode property White_Space: 25 code points,
    given here by their UTF-8 encodings. *)

Definition ascii_ws (b : Z) : bool := ((9 <=? b) && (b <=? 13)) || (b =? 32).

(** The number of bytes of the whitespace character a byte list starts with. *)
Definition ws_len (bs : list Z) : nat :=
  match bs with
  | 194 :: b :: _ => if (b =? 133) || (b =? 160) then 2%nat else 0%nat
  | 225 :: 154 :: 128 :: _ => 3%nat
  | 226 :: 128 :: b :: _ =>
      if ((128 <=? b) && (b <=? 138)) || (b =? 168) || (b =? 169) || (b =? 175) then 3%nat else 0%nat
  | 226 :: 129 :: 159 :: _ => 3%nat
  | 227 :: 128 :: 128 :: _ => 3%nat
  | b :: _ => if ascii_ws b then 1%nat else 0%nat
  | [] => 0%nat
  end.

(** The same at the end of a string, on its reversed bytes. *)
Definition ws_len_rev (bs : list Z) : nat :=
  match bs with
  | b3 :: b2 :: b1 :: _ =>
      if (ws_len [b3] =? 1)%nat then 1%nat
      else if (ws_len [b2; b3] =? 2)%nat then 2%nat
      else if (ws_len [b1; b2; b3] =? 3)%nat then 3%nat else 0%nat
  | [b2; b1] => if (ws_len [b2] =? 1)%nat then 1%nat
      else if (ws_len [b1; b2] =? 2)%nat then 2%nat else 0%nat
  | [b] => ws_len [b]
  | [] => 0%nat
  end.

Fixpoint trim_by (len : list Z -> nat) (fuel : nat) (bs : list Z) : list Z :=
  match fuel with
  | O => bs
  | S f => match len bs with O => bs | n => trim_by len f (drop n bs) end
  end.

Definition bytes_of (s : string) : list Z := byte_of <$> list_ascii_of_string s.
Definition of_bytes (bs : list Z) : string :=
  string_of_list_ascii ((fun b => ascii_of_nat (Z.to_nat b)) <$> bs).

Definition trim_bytes (bs : list Z) : list Z :=
  let bs := trim_by ws_len (length bs) bs in
  reverse (trim_by ws_len_rev (length bs) (reverse bs)).

Definition trim (s : string) : string := of_bytes (trim_bytes (bytes_of s)).

(** ** Integer parsing

    [str::parse] for an unsigned type of maximum [m]: an optional [+], then
    decimal digits, failing on an empty string or on overflow. *)

Definition digit_of (b : Z) : option Z := if (48 <=? b) && (b <=? 57) then Some (b - 48) else None.

Fixpoint parse_digits (m acc : Z) (bs : list Z) : option Z :=
  match bs with
  | [] => Some acc
  | b :: bs' =>
      match digit_of b with
      | Some d => if acc * 10 + d <=? m then parse_digits m (acc * 10 + d) bs' else None
      | None => None
      end
  end.

Definition parse_unsigned (m : Z) (s : string) : option Z :=
  match bytes_of s with
  | [] => None
  | [43] => None
  | 43 :: bs => parse_digits m 0 bs
  | bs => parse_digits m 0 bs
  end.

(** [str::parse::<i64>]. *)
Definition parse_i64 (s : string) : option Z :=
  match bytes_of s with
  | [45] => None
  | 45 :: bs => Z.opp <$> parse_digits (- i64_min) 0 bs
  | _ => parse_unsigned i64_max s
  end.

(** ** JSON values: [serde_json::Value] *)

Inductive Json :=
  | JNull
  | JBool (b : bool)
  | JInt (n : Z)
  | JFloat (repr : string)
  | JStr (s : string)
  | JArr (l : list Json)
  | JObj (m : list (string * Json)).

(** [Value::get(key)]: a field of an object, nothing on other values. *)
Fixpoint assoc_get (k : string) (m : list (string * Json)) : option Json :=
  match m with
  | [] => None
  | (k', v) :: m' => if String.eqb k' k then Some v else assoc_get k m'
  end.

Definition json_get (k : string) (v : Json) : option Json :=
  match v with JObj m => assoc_get k m | _ => None end.

Definition as_str (v : Json) : option string := match v with JStr s => Some s | _ => None end.

(** [Value::as_i64]: integers that fit. *)
Definition json_as_i64 (v : Json) : option Z :=
  match v with
  | JInt n => if (i64_min <=? n) && (n <=? i64_max) then Some n else None
  | _ => None
  end.

(** ** Lemmas *)

Lemma parse_digits_bound m acc bs n : parse_digits m acc bs = Some n -> acc <= m -> n <= m.
Proof.
  revert acc. induction bs as [|b bs IH]; simpl; intros acc H Hacc; [naive_solver|].
  destruct (digit_of b); [|done]. destruct (Z.leb_spec (acc * 10 + z) m); [|done]. eauto.
Qed.

Lemma parse_digits_nonneg m acc bs n : parse_digits m acc bs = Some n -> 0 <= acc -> 0 <= n.
Proof.
  revert acc. induction bs as [|b bs IH]; simpl; intros acc H Hacc; [naive_solver|].
  unfold digit_of in H. destruct ((48 <=? b) && (b <=? 57)) eqn:E; [|done]. zbool.
  destruct (Z.leb_spec (acc * 10 + (b - 48)) m); [|done]. eapply IH; [done|]. lia.
Qed.

Lemma parse_unsigned_nonneg m s n : parse_unsigned m s = Some n -> 0 <= n.
Proof.
  unfold parse_unsigned. intros H. repeat case_match; try done; by eapply parse_digits_nonneg.
Qed.
