(* ===== verification/Bytes.v ===== *)
(** * Byte strings

    A [str] of the source is its UTF-8 bytes.  The operations of the standard
    library on strings that several components use, and their laws. *)

From Stdlib Require Import String Ascii.
From S2P Require Import Prelude Text.

Notation str := (list Z).

(** [u8::to_ascii_lowercase] and [\[u8\]::eq_ignore_ascii_case]. *)
Definition lower (b : Z) : Z := if (65 <=? b) && (b <=? 90) then b + 32 else b.

Fixpoint eq_ignore_ascii_case (a b : str) : bool :=
  match a, b with
  | [], [] => true
  | x :: a', y :: b' => (lower x =? lower y) && eq_ignore_ascii_case a' b'
  | _, _ => false
  end.

(** [str::find(c)] for an ASCII character. *)
Fixpoint find_byte (c : Z) (s : str) : option nat :=
  match s with
  | [] => None
  | b :: s' => if b =? c then Some 0%nat else S <$> find_byte c s'
  end.

Definition contains_byte (c : Z) (s : str) : bool := existsb (Z.eqb c) s.

(** [str::split_once(c)]. *)
Fixpoint split_once (c : Z) (s : str) : option (str * str) :=
  match s with
  | [] => None
  | b :: s' => if b =? c then Some ([], s')
               else match split_once c s' with Some (x, y) => Some (b :: x, y) | None => None end
  end.

(** [str::split(c)]. *)
Fixpoint split_byte (c : Z) (s : str) : list str :=
  match s with
  | [] => [[]]
  | b :: s' => if b =? c then [] :: split_byte c s'
               else match split_byte c s' with h :: t => (b :: h) :: t | [] => [[b]] end
  end.

Definition strip_prefix (p s : str) : option str :=
  if bool_decide (p `prefix_of` s) then Some (drop (length p) s) else None.

(** [str::find] of a non-empty pattern. *)
Fixpoint find_sub (pat s : str) : option nat :=
  if bool_decide (pat `prefix_of` s) then Some 0%nat
  else match s with [] => None | _ :: s' => S <$> find_sub pat s' end.

(** [str::contains] of a string pattern, on bytes. *)
Fixpoint contains_bytes (p s : str) : bool :=
  bool_decide (p `prefix_of` s) || match s with _ :: s' => contains_bytes p s' | [] => false end.

Definition DQUOTE : Z := 34.

Definition quoted (s : string) : str := DQUOTE :: bytes_of s ++ [DQUOTE].

(** Well-formed UTF-8 (Unicode, table 3-7): what the type [str] guarantees. *)
Definition cont_byte (b : Z) : bool := (128 <=? b) && (b <=? 191).

Fixpoint utf8_valid (s : str) : bool :=
  match s with
  | [] => true
  | b1 :: s1 =>
      if (0 <=? b1) && (b1 <=? 127) then utf8_valid s1
      else match s1 with
           | [] => false
           | b2 :: s2 =>
               if (194 <=? b1) && (b1 <=? 223) then cont_byte b2 && utf8_valid s2
               else match s2 with
                    | [] => false
                    | b3 :: s3 =>
                        if (224 <=? b1) && (b1 <=? 239) then
                          cont_byte b2 && cont_byte b3
                          && (negb (b1 =? 224) || (160 <=? b2)) && (negb (b1 =? 237) || (b2 <=? 159))
                          && utf8_valid s3
                        else match s3 with
                             | [] => false
                             | b4 :: s4 =>
                                 (240 <=? b1) && (b1 <=? 244) && cont_byte b2 && cont_byte b3 && cont_byte b4
                                 && (negb (b1 =? 240) || (144 <=? b2)) && (negb (b1 =? 244) || (b2 <=? 143))
                                 && utf8_valid s4
                             end
                    end
           end
  end.

(** [uN::from_be_bytes], [uN::from_le_bytes] and their inverses. *)
Definition be_of (s : list Z) : Z := foldl (fun acc x => acc * 256 + x) 0 s.
Definition le_of (s : list Z) : Z := foldr (fun x acc => x + 256 * acc) 0 s.

Fixpoint le_bytes (n : nat) (v : Z) : str :=
  match n with O => [] | S n' => v mod 256 :: le_bytes n' (v / 256) end.
Definition be_bytes (n : nat) (v : Z) : str := reverse (le_bytes n v).

(** A list of bytes. *)
Definition byte_list (s : str) : Prop := Forall (fun b => 0 <= b < 256) s.

(** ** Laws *)

Lemma be_of_nonneg s : Forall (fun x => 0 <= x < 256) s -> 0 <= be_of s.
Proof.
  unfold be_of. intros Hs. enough (forall acc, 0 <= acc -> 0 <= foldl (fun acc x => acc * 256 + x) acc s) by (apply H; lia).
  induction Hs as [|x s Hx _ IH]; intros acc Hacc; cbn; [done|]. apply IH. lia.
Qed.

Lemma le_of_nonneg s : Forall (fun x => 0 <= x < 256) s -> 0 <= le_of s.
Proof. unfold le_of. induction 1 as [|x s Hx _ IH]; cbn [foldr] in *; lia. Qed.

Lemma length_le_bytes n v : length (le_bytes n v) = n.
Proof. revert v. induction n as [|n IH]; intros v; simpl; [done|by rewrite IH]. Qed.

Lemma length_be_bytes n v : length (be_bytes n v) = n.
Proof. unfold be_bytes. by rewrite length_reverse, length_le_bytes. Qed.

Lemma le_of_le_bytes n v : 0 <= v < 256 ^ Z.of_nat n -> le_of (le_bytes n v) = v.
Proof.
  revert v. induction n as [|n IH]; intros v Hv; [simpl in *; lia|].
  rewrite Nat2Z.inj_succ, Z.pow_succ_r in Hv by lia. cbn [le_bytes]. unfold le_of in *. cbn [foldr].
  rewrite IH by (split; [apply Z.div_pos; lia|apply Z.div_lt_upper_bound; lia]).
  pose proof (Z.div_mod v 256). lia.
Qed.

Lemma be_of_snoc s x : be_of (s ++ [x]) = be_of s * 256 + x.
Proof. unfold be_of. by rewrite foldl_app. Qed.

Lemma be_of_reverse s : be_of (reverse s) = le_of s.
Proof.
  induction s as [|x s IH]; [done|]. rewrite reverse_cons, be_of_snoc, IH. unfold le_of. simpl. lia.
Qed.

Lemma be_of_be_bytes n v : 0 <= v < 256 ^ Z.of_nat n -> be_of (be_bytes n v) = v.
Proof. intros H. unfold be_bytes. rewrite be_of_reverse. by apply le_of_le_bytes. Qed.

Lemma le_bytes_ok n v : byte_list (le_bytes n v).
Proof.
  revert v. induction n as [|n IH]; intros v; constructor; [|apply IH]. apply Z.mod_pos_bound. lia.
Qed.

Lemma be_bytes_ok n v : byte_list (be_bytes n v).
Proof. apply Forall_reverse, le_bytes_ok. Qed.

Lemma eq_ic_length a b : eq_ignore_ascii_case a b = true -> length a = length b.
Proof.
  revert b. induction a as [|x a IH]; intros [|y b]; simpl; try done.
  intros [_ H]%andb_true_iff. f_equal. by apply IH.
Qed.

Lemma eq_ic_sym a b : eq_ignore_ascii_case a b = eq_ignore_ascii_case b a.
Proof.
  revert b. induction a as [|x a IH]; intros [|y b]; simpl; try done. by rewrite IH, Z.eqb_sym.
Qed.

Lemma eq_ic_spec a b : eq_ignore_ascii_case a b = true <-> lower <$> a = lower <$> b.
Proof.
  revert b. induction a as [|x a IH]; intros [|y b]; csimpl; try done.
  rewrite andb_true_iff, IH, Z.eqb_eq. split; [intros [-> ->]; done|by intros [= -> ->]].
Qed.

Lemma split_byte_app c a b : split_byte c (a ++ c :: b) = split_byte c a ++ split_byte c b.
Proof.
  induction a as [|x a IH]; simpl; [by rewrite Z.eqb_refl|].
  destruct (x =? c); [by rewrite IH|]. rewrite IH.
  assert (split_byte c a <> []) by (destruct a as [|y a]; simpl; [done|]; destruct (y =? c); [done|]; by destruct (split_byte c a)).
  by destruct (split_byte c a).
Qed.

Lemma strip_prefix_spec p s r : strip_prefix p s = Some r <-> s = p ++ r.
Proof.
  unfold strip_prefix. split.
  - case_bool_decide as H; [|done]. intros [= <-]. destruct H as [k ->]. by rewrite drop_app_length.
  - intros ->. rewrite bool_decide_true by (by exists r). by rewrite drop_app_length.
Qed.

Lemma utf8_bytes s : utf8_valid s = true -> byte_list s.
Proof.
  remember (length s) as n eqn:Hn. revert s Hn. induction (lt_wf n) as [n _ IH]; intros s -> H.
  assert (forall r, (length r < length s)%nat -> utf8_valid r = true -> byte_list r) as Hr by (intros; by eapply IH).
  clear IH. unfold byte_list, cont_byte in *.
  destruct s as [|b1 s1]; [constructor|]. cbn [utf8_valid] in H.
  destruct ((0 <=? b1) && (b1 <=? 127)) eqn:E1; [constructor; [lia|]; apply Hr; [simpl; lia|done]|].
  destruct s1 as [|b2 s2]; [done|]. unfold cont_byte in H.
  destruct ((194 <=? b1) && (b1 <=? 223)) eqn:E2.
  { apply andb_true_iff in H as [Hc H]. repeat (constructor; [lia|]). apply Hr; [simpl; lia|done]. }
  destruct s2 as [|b3 s3]; [done|]. destruct ((224 <=? b1) && (b1 <=? 239)) eqn:E3.
  { apply andb_true_iff in H as [Hc H]. repeat (constructor; [lia|]). apply Hr; [simpl; lia|done]. }
  destruct s3 as [|b4 s4]; [done|]. apply andb_true_iff in H as [Hc H].
  repeat (constructor; [lia|]). apply Hr; [simpl; lia|done].
Qed.

(** ** [String::from_utf8_lossy]

    [core::str::lossy::Utf8Chunks]: the longest valid prefix, then the longest
    start of a character that the next byte does not continue, and so on; each
    such start becomes one U+FFFD. *)

Definition second_byte_ok (b1 b2 : Z) : bool :=
  if b1 =? 224 then (160 <=? b2) && (b2 <=? 191)
  else if b1 =? 237 then (128 <=? b2) && (b2 <=? 159)
  else if b1 =? 240 then (144 <=? b2) && (b2 <=? 191)
  else if b1 =? 244 then (128 <=? b2) && (b2 <=? 143)
  else cont_byte b2.

(** One character, or one invalid sequence: whether it is valid, its bytes and
    the rest. *)
Definition utf8_chunk (b1 : Z) (s : str) : bool * str * str :=
  if (0 <=? b1) && (b1 <=? 127) then (true, [b1], s)
  else if (194 <=? b1) && (b1 <=? 223) then
    match s with b2 :: s' => if cont_byte b2 then (true, [b1; b2], s') else (false, [b1], s) | [] => (false, [b1], s) end
  else if (224 <=? b1) && (b1 <=? 239) then
    match s with
    | b2 :: s' =>
        if second_byte_ok b1 b2 then
          match s' with
          | b3 :: s'' => if cont_byte b3 then (true, [b1; b2; b3], s'') else (false, [b1; b2], s')
          | [] => (false, [b1; b2], s')
          end
        else (false, [b1], s)
    | [] => (false, [b1], s)
    end
  else if (240 <=? b1) && (b1 <=? 244) then
    match s with
    | b2 :: s' =>
        if second_byte_ok b1 b2 then
          match s' with
          | b3 :: s'' =>
              if cont_byte b3 then
                match s'' with
                | b4 :: s3 => if cont_byte b4 then (true, [b1; b2; b3; b4], s3) else (false, [b1; b2; b3], s'')
                | [] => (false, [b1; b2; b3], s'')
                end
              else (false, [b1; b2], s')
          | [] => (false, [b1; b2], s')
          end
        else (false, [b1], s)
    | [] => (false, [b1], s)
    end
  else (false, [b1], s).

Definition REPLACEMENT : str := [239; 191; 189].

Fixpoint lossy_loop (fuel : nat) (s : str) : str :=
  match fuel, s with
  | S f, b :: s' =>
      let '(ok, c, r) := utf8_chunk b s' in (if ok then c else REPLACEMENT) ++ lossy_loop f r
  | _, _ => []
  end.

Definition utf8_lossy (s : str) : str := lossy_loop (length s) s.

Lemma utf8_chunk_spec b s ok c r : utf8_chunk b s = (ok, c, r) ->
  b :: s = c ++ r /\ (length r <= length s)%nat /\
  (ok = true -> forall t, utf8_valid (c ++ t) = utf8_valid t) /\ (ok = false -> utf8_valid (b :: s) = false).
Proof.
  unfold utf8_chunk, second_byte_ok.
  repeat case_match; intros [= <- <- <-]; (split; [done|]); (split; [simpl; lia|]); split; intros Hok; try discriminate Hok;
    unfold cont_byte in *; cbn [utf8_valid app]; unfold cont_byte.
  all: try (intros t; repeat case_match; lia || reflexivity || (exfalso; lia)).
  all: try (intros t; repeat case_match; try lia; destruct (utf8_valid t); lia).
  all: repeat case_match; lia.
Qed.

Lemma lossy_loop_id n s : (length s <= n)%nat -> utf8_valid s = true -> lossy_loop n s = s.
Proof.
  revert s. induction n as [|n IH]; intros [|b s] Hn Hv; try done; [simpl in Hn; lia|]. cbn [lossy_loop].
  destruct (utf8_chunk b s) as [[ok c] r] eqn:E. apply utf8_chunk_spec in E as (He & Hl & Hok & Hbad).
  destruct ok; [|by rewrite Hbad in Hv]. rewrite He in Hv. rewrite Hok in Hv by done.
  rewrite IH; [done|simpl in Hn; lia|done].
Qed.

Lemma lossy_loop_valid n s : utf8_valid (lossy_loop n s) = true.
Proof.
  revert s. induction n as [|n IH]; intros [|b s]; try done. cbn [lossy_loop].
  destruct (utf8_chunk b s) as [[ok c] r] eqn:E. apply utf8_chunk_spec in E as (He & Hl & Hok & _).
  destruct ok; [by rewrite Hok|]. cbn. apply IH.
Qed.

(** Valid text is kept, and the result is always text. *)
Lemma utf8_lossy_id s : utf8_valid s = true -> utf8_lossy s = s.
Proof. by apply lossy_loop_id. Qed.

Lemma utf8_lossy_valid s : utf8_valid (utf8_lossy s) = true.
Proof. apply lossy_loop_valid. Qed.

(** Valid text before does not change what follows. *)
Lemma utf8_valid_app a b : utf8_valid a = true -> utf8_valid (a ++ b) = utf8_valid b.
Proof.
  remember (length a) as n eqn:Hn. revert a Hn. induction (lt_wf n) as [n _ IH]; intros a -> H.
  destruct a as [|x a]; [done|]. destruct (utf8_chunk x a) as [[ok c] r] eqn:E.
  apply utf8_chunk_spec in E as (He & Hl & Hok & Hbad). destruct ok; [|by rewrite Hbad in H].
  rewrite He in H |- *. rewrite Hok in H by done. rewrite <- app_assoc, Hok by done.
  eapply IH; [|done|done]. simpl. lia.
Qed.

Lemma bytes_of_of_bytes s : byte_list s -> bytes_of (of_bytes s) = s.
Proof.
  intros H. unfold bytes_of, of_bytes. rewrite list_ascii_of_string_of_list_ascii, <- list_fmap_compose.
  induction H as [|b s Hb _ IH]; [done|]. rewrite fmap_cons, IH. f_equal. cbn. unfold byte_of.
  rewrite nat_ascii_embedding by lia. lia.
Qed.
