(* ===== verification/CircuitBreaker.v ===== *)
(** * The circuit breaker

    Model of openproxy-pipeline/src/circuit_breaker.rs: a registry of breakers
    keyed by account or by (account, model), opened after [threshold]
    consecutive failures and closed again once [unhealthy_duration] is over.

    Time.  [Instant]s are nanoseconds since the first use of the process
    clock; [now_ms] is their whole milliseconds, as [now_ms()] computes them.

    Atomicity.  Every method takes the registry lock once, except
    [is_healthy], which may drop the read lock and take the write lock: it is
    two operations here ([is_healthy_read], [is_healthy_write]), between which
    a trace may place any other operation. *)

From S2P Require Import Prelude Types.

(** ** Data *)

Inductive CircuitBreakerKey :=
  | KAccount (a : Z)
  | KModel (a m : Z).

#[export] Instance CircuitBreakerKey_eq_dec : EqDecision CircuitBreakerKey.
Proof. solve_decision. Defined.

#[export] Instance CircuitBreakerKey_countable : Countable CircuitBreakerKey.
Proof.
  refine (inj_countable'
    (fun k => match k with KAccount a => inl a | KModel a m => inr (a, m) end)
    (fun s => match s with inl a => KAccount a | inr (a, m) => KModel a m end) _).
  by intros [].
Defined.

Inductive Health := Healthy | Degraded | Unhealthy.

#[export] Instance Health_eq_dec : EqDecision Health.
Proof. solve_decision. Defined.

Record AccountBreaker := mkBreaker {
  unhealthy_until : option Z;
  last_activity_ms : Z;
  consecutive_failures : Z;
  state : Health
}.

Record FailureOutcome := mkOutcome {
  fo_health : Health;
  fo_just_opened : bool;
  fo_consecutive_failures : Z;
  fo_threshold : Z
}.

Record CircuitBreakerConfig := mkBreakerConfig {
  failure_threshold : Z;
  unhealthy_duration_ms : Z
}.

Record CircuitBreakerRegistry := mkRegistry {
  inner : gmap CircuitBreakerKey AccountBreaker;
  threshold : Z;
  unhealthy_duration : Z
}.

(** ** Operations *)

Definition ns_per_ms : Z := 1000000.

Definition now_ms (now : Z) : Z := now / ns_per_ms.

Definition key_from_target (aid : Z) (scope : RateLimitScope) (model_row_id : option Z)
    : CircuitBreakerKey :=
  if bool_decide (scope = ScopeModel) then KModel aid (default 0 model_row_id)
  else KAccount aid.

Definition cb_new (config : CircuitBreakerConfig) : CircuitBreakerRegistry :=
  mkRegistry ∅ (failure_threshold config) (unhealthy_duration_ms config * ns_per_ms).

Definition set_inner (m : gmap CircuitBreakerKey AccountBreaker) (r : CircuitBreakerRegistry)
    : CircuitBreakerRegistry :=
  mkRegistry m (threshold r) (unhealthy_duration r).

(** [last_activity_ms.store(now_ms())]. *)
Definition touch (now : Z) (b : AccountBreaker) : AccountBreaker :=
  mkBreaker (unhealthy_until b) (now_ms now) (consecutive_failures b) (state b).

Definition expired (now : Z) (b : AccountBreaker) : bool :=
  bool_decide (state b = Unhealthy)
  && match unhealthy_until b with Some until => until <=? now | None => false end.

(** The read-locked part of [is_healthy]; [None] means that the breaker has
    expired and the method goes on to take the write lock. *)
Definition is_healthy_read (k : CircuitBreakerKey) (now : Z) (r : CircuitBreakerRegistry)
    : CircuitBreakerRegistry * option Health :=
  match inner r !! k with
  | None => (r, Some Healthy)
  | Some b =>
      if bool_decide (state b = Healthy) then
        (set_inner (<[k := touch now b]> (inner r)) r, Some Healthy)
      else if negb (expired now b) then
        (set_inner (<[k := touch now b]> (inner r)) r, Some (state b))
      else (r, None)
  end.

(** The write-locked part, which checks the expiry again. *)
Definition is_healthy_write (k : CircuitBreakerKey) (now : Z) (r : CircuitBreakerRegistry)
    : CircuitBreakerRegistry * Health :=
  match inner r !! k with
  | None => (r, Healthy)
  | Some b =>
      let b1 := if expired now b then mkBreaker None (last_activity_ms b) 0 Healthy else b in
      (set_inner (<[k := touch now b1]> (inner r)) r, state b1)
  end.

(** [is_healthy] with no other thread between its two parts. *)
Definition is_healthy (k : CircuitBreakerKey) (now now' : Z) (r : CircuitBreakerRegistry)
    : CircuitBreakerRegistry * Health :=
  match is_healthy_read k now r with
  | (r', Some h) => (r', h)
  | (r', None) => is_healthy_write k now' r'
  end.

Definition is_target_healthy (t : ComboTarget) (now now' : Z) (r : CircuitBreakerRegistry)
    : CircuitBreakerRegistry * bool :=
  match t_account_id t with
  | Some aid =>
      let k := key_from_target aid (t_rate_limit_scope t) (t_model_row_id t) in
      let '(r', h) := is_healthy k now now' r in (r', bool_decide (h = Healthy))
  | None => (r, true)
  end.

Definition cb_record_success (k : CircuitBreakerKey) (now : Z) (r : CircuitBreakerRegistry)
    : CircuitBreakerRegistry :=
  match inner r !! k with
  | Some _ => set_inner (<[k := mkBreaker None (now_ms now) 0 Healthy]> (inner r)) r
  | None => r
  end.

Definition record_failure_outcome (k : CircuitBreakerKey) (now : Z) (r : CircuitBreakerRegistry)
    : CircuitBreakerRegistry * FailureOutcome :=
  let b := default (mkBreaker None (now_ms now) 0 Healthy) (inner r !! k) in
  let failures := sat_add u8_max (consecutive_failures b) 1 in
  let just_opened := (threshold r <=? failures) && negb (bool_decide (state b = Unhealthy)) in
  let b' := mkBreaker
              (if just_opened then Some (now + unhealthy_duration r) else unhealthy_until b)
              (now_ms now) failures
              (if just_opened then Unhealthy else state b) in
  (set_inner (<[k := b']> (inner r)) r,
   mkOutcome (state b') just_opened failures (threshold r)).

Definition cb_record_failure (k : CircuitBreakerKey) (now : Z) (r : CircuitBreakerRegistry)
    : CircuitBreakerRegistry * Health :=
  let '(r', o) := record_failure_outcome k now r in (r', fo_health o).

Definition force_unhealthy (k : CircuitBreakerKey) (now : Z) (r : CircuitBreakerRegistry)
    : CircuitBreakerRegistry :=
  set_inner (<[k := mkBreaker (Some (now + unhealthy_duration r)) (now_ms now)
                      (threshold r) Unhealthy]> (inner r)) r.

(** The closure of [prune_idle]'s [retain]. *)
Definition prune_keep (cutoff now : Z) (b : AccountBreaker) : bool :=
  (bool_decide (state b = Unhealthy)
   && match unhealthy_until b with Some until => now <? until | None => false end)
  || (cutoff <=? last_activity_ms b).

Definition prune_idle (max_idle : Z) (now : Z) (r : CircuitBreakerRegistry)
    : CircuitBreakerRegistry * nat :=
  let cutoff := sat_sub (now_ms now) (max_idle / ns_per_ms) in
  (set_inner (filter (fun kb => prune_keep cutoff now kb.2 = true) (inner r)) r,
   size (filter (fun kb => prune_keep cutoff now kb.2 = false) (inner r))).

Definition cb_len (r : CircuitBreakerRegistry) : nat := size (inner r).

Definition cb_is_empty (r : CircuitBreakerRegistry) : bool := bool_decide (inner r = ∅).

(** ** Interleaved executions

    The lock-atomic operations, each at the instant it runs. *)

Inductive cb_op :=
  | OpRead (k : CircuitBreakerKey)
  | OpWrite (k : CircuitBreakerKey)
  | OpSuccess (k : CircuitBreakerKey)
  | OpFailure (k : CircuitBreakerKey)
  | OpForce (k : CircuitBreakerKey)
  | OpPrune (max_idle : Z).

Definition cb_apply (now : Z) (o : cb_op) (r : CircuitBreakerRegistry) : CircuitBreakerRegistry :=
  match o with
  | OpRead k => (is_healthy_read k now r).1
  | OpWrite k => (is_healthy_write k now r).1
  | OpSuccess k => cb_record_success k now r
  | OpFailure k => (record_failure_outcome k now r).1
  | OpForce k => force_unhealthy k now r
  | OpPrune d => (prune_idle d now r).1
  end.

Fixpoint cb_run (tr : list (Z * cb_op)) (r : CircuitBreakerRegistry) : CircuitBreakerRegistry :=
  match tr with
  | [] => r
  | (now, o) :: tr' => cb_run tr' (cb_apply now o r)
  end.

(** [n] failures of [k] in a row, at the given instants, with their outcomes. *)
Fixpoint fail_all (k : CircuitBreakerKey) (times : list Z) (r : CircuitBreakerRegistry)
    : CircuitBreakerRegistry * list FailureOutcome :=
  match times with
  | [] => (r, [])
  | now :: times' =>
      let '(r1, o) := record_failure_outcome k now r in
      let '(r2, os) := fail_all k times' r1 in (r2, o :: os)
  end.

(** ** Abstract specification

    What a breaker promises: at every instant a key is [Healthy] unless it is
    open and its penalty is not over. *)

Definition health_at (k : CircuitBreakerKey) (now : Z) (r : CircuitBreakerRegistry) : Health :=
  match inner r !! k with
  | None => Healthy
  | Some b => if expired now b then Healthy else state b
  end.

(** The well-formedness of an entry. *)
Definition breaker_wf (thr : Z) (b : AccountBreaker) : Prop :=
  in_u u8_max (consecutive_failures b)
  /\ state b <> Degraded
  /\ (state b = Unhealthy <-> is_Some (unhealthy_until b))
  /\ (state b = Healthy -> consecutive_failures b < thr).

Definition registry_wf (r : CircuitBreakerRegistry) : Prop :=
  map_Forall (fun _ b => breaker_wf (threshold r) b) (inner r).

(** ** Lemmas *)

Lemma touch_wf thr now b : breaker_wf thr b -> breaker_wf thr (touch now b).
Proof. done. Qed.

Lemma expired_touch now now' b : expired now (touch now' b) = expired now b.
Proof. done. Qed.

Lemma expired_mono now now' b : now <= now' -> expired now b = true -> expired now' b = true.
Proof.
  unfold expired. intros Hle. rewrite !andb_true_iff. intros [? H]. split; [done|].
  destruct (unhealthy_until b); [|done]. zcase; try done; lia.
Qed.

Lemma reset_wf thr now : 0 < thr -> breaker_wf thr (mkBreaker None (now_ms now) 0 Healthy).
Proof.
  intros ?. repeat split; simpl; try done; try (by unfold in_u, u8_max; lia).
Qed.

#[local] Hint Resolve touch_wf reset_wf : openproxy.

Lemma cb_apply_params now o r :
  threshold (cb_apply now o r) = threshold r
  /\ unhealthy_duration (cb_apply now o r) = unhealthy_duration r.
Proof.
  destruct o as [k|k|k|k|k|d]; simpl;
    unfold is_healthy_read, is_healthy_write, cb_record_success; try done;
    destruct (inner r !! k); try done; repeat case_match; done.
Qed.

Lemma registry_wf_insert k b r :
  registry_wf r -> breaker_wf (threshold r) b ->
  registry_wf (set_inner (<[k := b]> (inner r)) r).
Proof. intros Hr Hb. unfold registry_wf; simpl. by apply map_Forall_insert_2. Qed.

Lemma failure_wf k now r :
  1 <= threshold r <= u8_max -> registry_wf r ->
  registry_wf (record_failure_outcome k now r).1.
Proof.
  intros Hthr Hr. apply registry_wf_insert; [done|].
  assert (breaker_wf (threshold r) (default (mkBreaker None (now_ms now) 0 Healthy) (inner r !! k)))
    as (Hu & Hd & Hi & Hh).
  { destruct (inner r !! k) eqn:E; simpl; [by eapply Hr|]. apply reset_wf; lia. }
  revert Hu Hd Hi Hh. generalize (default (mkBreaker None (now_ms now) 0 Healthy) (inner r !! k)).
  intros [u la c s] Hu Hd Hi Hh; simpl in *. unfold sat_add, in_u, u8_max in *.
  destruct (Z.leb_spec (threshold r) (Z.min 255 (c + 1))), s; simpl; try done;
    unfold breaker_wf; simpl; split_and!; try done; unfold in_u, u8_max; intros; lia.
Qed.

Lemma cb_apply_wf now o r :
  1 <= threshold r <= u8_max -> registry_wf r -> registry_wf (cb_apply now o r).
Proof.
  intros Hthr Hr. destruct o as [k|k|k|k|k|d]; simpl.
  - unfold is_healthy_read. destruct (inner r !! k) as [b|] eqn:E; [|done].
    repeat case_match; simpl; try done;
      apply registry_wf_insert; [done| |done|]; apply touch_wf; by eapply Hr.
  - unfold is_healthy_write. destruct (inner r !! k) as [b|] eqn:E; [|done].
    apply registry_wf_insert; [done|]. case_match; [apply reset_wf; lia|].
    apply touch_wf; by eapply Hr.
  - unfold cb_record_success. destruct (inner r !! k); [|done].
    apply registry_wf_insert; [done|]. apply reset_wf; lia.
  - by apply failure_wf.
  - apply registry_wf_insert; [done|]. unfold u8_max in *.
    repeat split; simpl; try done; unfold in_u, u8_max; lia.
  - intros k b Hkb. simpl in Hkb. apply map_lookup_filter_Some in Hkb as [Hkb _].
    by eapply Hr.
Qed.

Lemma cb_run_wf tr r :
  1 <= threshold r <= u8_max -> registry_wf r -> registry_wf (cb_run tr r).
Proof.
  revert r. induction tr as [|[now o] tr IH]; intros r Hthr Hr; [done|]. simpl.
  apply IH; [by rewrite (proj1 (cb_apply_params _ _ _))|by apply cb_apply_wf].
Qed.

(** The key [k] is open, until [u] at least. *)
Definition open_until (k : CircuitBreakerKey) (u : Z) (r : CircuitBreakerRegistry) : Prop :=
  exists b u', inner r !! k = Some b /\ state b = Unhealthy
               /\ unhealthy_until b = Some u' /\ u <= u'.

Lemma open_until_other k k' u b r :
  k <> k' -> open_until k u r -> open_until k u (set_inner (<[k' := b]> (inner r)) r).
Proof.
  intros Hne (b0 & u' & ? & ? & ?). exists b0, u'.
  unfold set_inner; simpl. by rewrite lookup_insert_ne by done.
Qed.

Lemma open_until_same k u u' b r :
  state b = Unhealthy -> unhealthy_until b = Some u' -> u <= u' ->
  open_until k u (set_inner (<[k := b]> (inner r)) r).
Proof. intros. exists b, u'. unfold set_inner; simpl. by rewrite lookup_insert_eq. Qed.

Lemma open_not_expired k u now b r :
  open_until k u r -> inner r !! k = Some b -> now < u -> expired now b = false.
Proof.
  intros (b' & u' & Hb & Hs & Hu & Hle) Hb' Hlt. simplify_eq.
  unfold expired. rewrite Hs, Hu. simpl. apply Z.leb_gt. lia.
Qed.

Lemma open_until_step k u now o r :
  now < u <= now + unhealthy_duration r -> o <> OpSuccess k ->
  open_until k u r -> open_until k u (cb_apply now o r).
Proof.
  intros Hnow Hno Ho.
  destruct (Ho) as (b & u' & Hb & Hs & Hu & Hle).
  assert (forall k' b', inner r !! k' = Some b' ->
    open_until k u (set_inner (<[k' := touch now b']> (inner r)) r)) as Htouch.
  { intros k' b' Hb'. destruct (decide (k = k')) as [<-|?]; [|by apply open_until_other].
    simplify_eq. by eapply open_until_same. }
  destruct o as [k'|k'|k'|k'|k'|d]; simpl.
  - unfold is_healthy_read. destruct (inner r !! k') as [b'|] eqn:E; [|done].
    repeat case_match; simpl; eauto.
  - unfold is_healthy_write. destruct (inner r !! k') as [b'|] eqn:E; [|done]. simpl.
    destruct (decide (k = k')) as [<-|?]; [|by apply open_until_other].
    rewrite (open_not_expired k u now b' r) by (done || lia). eauto.
  - unfold cb_record_success. destruct (inner r !! k'); [|done].
    apply open_until_other; [congruence|done].
  - destruct (decide (k = k')) as [<-|?]; [|by apply open_until_other].
    unfold record_failure_outcome. rewrite Hb; simpl. rewrite Hs, Hu; simpl.
    rewrite andb_false_r. by eapply open_until_same.
  - destruct (decide (k = k')) as [<-|?]; [|by apply open_until_other].
    eapply open_until_same; simpl; [done..|lia].
  - exists b, u'. simpl. split_and!; try done. apply map_lookup_filter_Some. split; [done|].
    simpl. unfold prune_keep. rewrite Hs, Hu. simpl. apply orb_true_iff. left. apply Z.ltb_lt. lia.
Qed.

Lemma open_until_run k u tr r :
  Forall (fun to => to.1 < u <= to.1 + unhealthy_duration r /\ to.2 <> OpSuccess k) tr ->
  open_until k u r -> open_until k u (cb_run tr r).
Proof.
  revert r. induction tr as [|[now o] tr IH]; intros r Hall Ho; [done|]. simpl.
  apply Forall_cons_1 in Hall as [[? ?] Hall].
  apply IH; [by rewrite (proj2 (cb_apply_params _ _ _))|by apply open_until_step].
Qed.

Lemma open_until_read k u now r :
  now < u -> open_until k u r ->
  (is_healthy_read k now r).2 = Some Unhealthy.
Proof.
  intros Hlt Ho. destruct (Ho) as (b & u' & Hb & Hs & Hu & Hle).
  unfold is_healthy_read. rewrite Hb.
  rewrite (open_not_expired k u now b r) by done. by rewrite Hs.
Qed.

Lemma outcome_open_until k now r :
  fo_just_opened (record_failure_outcome k now r).2 = true ->
  open_until k (now + unhealthy_duration r) (record_failure_outcome k now r).1.
Proof.
  unfold record_failure_outcome; simpl. intros ->.
  by eapply open_until_same.
Qed.

Lemma health_at_insert_other k k' now b r :
  k <> k' -> health_at k' now (set_inner (<[k := b]> (inner r)) r) = health_at k' now r.
Proof. intros. unfold health_at; simpl. by rewrite lookup_insert_ne. Qed.

Lemma health_at_insert_same k now b r :
  health_at k now (set_inner (<[k := b]> (inner r)) r)
  = if expired now b then Healthy else state b.
Proof. unfold health_at; simpl. by rewrite lookup_insert_eq. Qed.

(** A key whose breaker is closed with [c] failures counted. *)
Definition closed_with (k : CircuitBreakerKey) (c : Z) (r : CircuitBreakerRegistry) : Prop :=
  match inner r !! k with
  | None => c = 0
  | Some b => state b = Healthy /\ consecutive_failures b = c
  end.

Lemma read_health k now r h : (is_healthy_read k now r).2 = Some h -> h = health_at k now r.
Proof.
  unfold is_healthy_read, health_at. destruct (inner r !! k) as [b|] eqn:E; [|naive_solver].
  case_bool_decide as Hs; simpl.
  { unfold expired. rewrite Hs. naive_solver. }
  destruct (expired now b); simpl; naive_solver.
Qed.

Lemma write_health k now r : (is_healthy_write k now r).2 = health_at k now r.
Proof.
  unfold is_healthy_write, health_at. destruct (inner r !! k) as [b|] eqn:E; [|done]. simpl.
  by destruct (expired now b).
Qed.

(** Health checks are invisible. *)
Lemma read_invisible k now r k' now' : health_at k' now' (is_healthy_read k now r).1 = health_at k' now' r.
Proof.
  unfold is_healthy_read. destruct (inner r !! k) as [b|] eqn:E; [|done].
  assert (health_at k' now' (set_inner (<[k:=touch now b]> (inner r)) r) = health_at k' now' r).
  { destruct (decide (k = k')) as [<-|?]; [|by apply health_at_insert_other].
    rewrite health_at_insert_same. unfold health_at. by rewrite E. }
  by repeat case_match.
Qed.

Lemma write_invisible k now r k' now' :
  now <= now' -> health_at k' now' (is_healthy_write k now r).1 = health_at k' now' r.
Proof.
  intros Hle. unfold is_healthy_write. destruct (inner r !! k) as [b|] eqn:E; [|done]. simpl.
  destruct (decide (k = k')) as [<-|?]; [|by apply health_at_insert_other].
  rewrite health_at_insert_same. unfold health_at. rewrite E.
  destruct (expired now b) eqn:Ex; [|done].
  by rewrite (expired_mono now now' b) by done.
Qed.

(** The whole check: the health at the instant of its first part. *)
Lemma is_healthy_spec k now now' r :
  now <= now' ->
  (is_healthy k now now' r).2 = health_at k now r
  /\ forall k' later, now' <= later -> health_at k' later (is_healthy k now now' r).1 = health_at k' later r.
Proof.
  intros Hle. unfold is_healthy.
  pose proof (read_health k now r) as Hr. pose proof (read_invisible k now r) as Hi.
  assert ((is_healthy_read k now r).2 = None -> (is_healthy_read k now r).1 = r
          /\ health_at k now' r = health_at k now r) as Hn.
  { unfold is_healthy_read, health_at. destruct (inner r !! k) as [b|]; [|done].
    case_bool_decide; [done|]. destruct (expired now b) eqn:E; [|done]. simpl. intros _.
    by rewrite (expired_mono now now' b) by done. }
  destruct (is_healthy_read k now r) as [r1 [h|]]; simpl in *; [naive_solver|].
  destruct (Hn eq_refl) as [-> He]. rewrite write_health. split; [done|].
  intros. by apply write_invisible.
Qed.

Lemma fail_closed k c now r :
  closed_with k c r -> 0 <= c < threshold r -> threshold r <= u8_max ->
  let '(r', o) := record_failure_outcome k now r in
  fo_consecutive_failures o = c + 1
  /\ fo_just_opened o = (threshold r =? c + 1)
  /\ fo_health o = (if threshold r =? c + 1 then Unhealthy else Healthy)
  /\ (c + 1 < threshold r -> closed_with k (c + 1) r')
  /\ threshold r' = threshold r.
Proof.
  intros Hc Hr Hu. unfold record_failure_outcome, closed_with in *.
  destruct (inner r !! k) as [[u la f s]|] eqn:E; simpl in *.
  1: destruct Hc as [-> ->]. 2: subst c.
  all: rewrite lookup_insert_eq; simpl; unfold sat_add, u8_max in *;
    rewrite Z.min_r by lia;
    destruct (Z.leb_spec (threshold r) (c + 1)) || destruct (Z.leb_spec (threshold r) (0 + 1));
    zcase; simpl; split_and!; try done; lia.
Qed.

(** ** Properties *)

(** From an empty registry, whatever the interleaving of lock-atomic
    operations and whatever the instants, every breaker is well formed: its
    counter fits a [u8], it is never [Degraded], it has an expiry exactly when
    it is open, and a closed breaker has counted fewer failures than the
    threshold. *)
Lemma breaker_invariant cfg tr :
  1 <= failure_threshold cfg <= u8_max -> registry_wf (cb_run tr (cb_new cfg)).
Proof. intros Hthr. apply cb_run_wf; [done|]. apply map_Forall_empty. Qed.

Lemma breaker_invariant_witness :
  registry_wf (cb_run [(1, OpFailure (KAccount 7)); (2, OpRead (KAccount 7)); (3, OpForce (KModel 7 1))]
    (cb_new (mkBreakerConfig 2 1000))).
Proof. apply breaker_invariant. zvm. Defined.

(** C40. Once a failure opens the circuit of [k] at instant [t], [is_healthy]
    keeps answering [Unhealthy] until [t + unhealthy_duration], whatever
    health checks, failures, forced openings and prunings (of any keys) other
    threads interleave; only a recorded success of [k] may close it earlier. *)
Theorem open_circuit_stays_open k t r tr now now' :
  fo_just_opened (record_failure_outcome k t r).2 = true ->
  Forall (fun to => t <= to.1 < t + unhealthy_duration r /\ to.2 <> OpSuccess k) tr ->
  t <= now < t + unhealthy_duration r ->
  (is_healthy k now now' (cb_run tr (record_failure_outcome k t r).1)).2 = Unhealthy.
Proof.
  intros Ho Htr Hnow. apply outcome_open_until in Ho.
  pose proof (proj2 (cb_apply_params t (OpFailure k) r)) as Hd; simpl in Hd.
  eapply (open_until_run k (t + unhealthy_duration r) tr) in Ho.
  - unfold is_healthy. apply (open_until_read k _ now) in Ho; [|lia].
    destruct (is_healthy_read _ _ _) as [r' [h|]]; by simplify_eq/=.
  - eapply Forall_impl; [done|]. intros [t' o]; simpl. intros [? ?]. split; [lia|done].
Qed.

Lemma open_circuit_stays_open_witness :
  (is_healthy (KAccount 7) 10 11
    (cb_run [(5, OpFailure (KAccount 7)); (6, OpSuccess (KAccount 8)); (7, OpPrune 0)]
      (record_failure_outcome (KAccount 7) 1 (cb_new (mkBreakerConfig 1 1000))).1)).2 = Unhealthy.
Proof.
  apply open_circuit_stays_open; [vm_compute; reflexivity| |zvm].
  repeat constructor; try discriminate; zvm.
Defined.

(** The lock-split [is_healthy] refines the abstract specification
    [health_at]: what either of its parts returns is the health at that
    instant, and health checks and prunings are invisible - they change no
    key's health at any later instant. *)
Lemma health_checks_refine_spec k now r :
  registry_wf r ->
  (forall h, (is_healthy_read k now r).2 = Some h -> h = health_at k now r)
  /\ (is_healthy_write k now r).2 = health_at k now r
  /\ forall o k' now', (o = OpRead k \/ o = OpWrite k \/ exists d, o = OpPrune d) -> now <= now' ->
       health_at k' now' (cb_apply now o r) = health_at k' now' r.
Proof.
  intros Hr. split_and!.
  - apply read_health.
  - apply write_health.
  - intros o k' now' Ho Hle. destruct Ho as [->|[->|[d ->]]]; simpl.
    + apply read_invisible.
    + by apply write_invisible.
    + unfold health_at; simpl. rewrite map_lookup_filter.
      destruct (inner r !! k') as [b|] eqn:E; [|done]. simpl.
      case_guard as Hk; simpl; [done|]. apply not_true_is_false in Hk.
      unfold prune_keep in Hk. apply orb_false_iff in Hk as [Hk _].
      destruct (Hr _ _ E) as (_ & Hd & Hi & _).
      assert (state b = Unhealthy -> expired now b = true) as Hx.
      { intros Hs. unfold expired. rewrite Hs in Hk |- *. simpl in *.
        destruct (unhealthy_until b); [zcase; done || lia|]. by apply Hi in Hs as [??]. }
      destruct (expired now' b) eqn:Ex; [done|].
      destruct (state b); try done. by rewrite (expired_mono now now') in Ex by auto.
Qed.

Lemma health_checks_refine_spec_witness :
  let r := cb_run [(1, OpFailure (KAccount 7))] (cb_new (mkBreakerConfig 1 1000)) in
  (is_healthy_write (KAccount 7) 5 r).2 = health_at (KAccount 7) 5 r.
Proof.
  intros r. apply (health_checks_refine_spec (KAccount 7) 5 r).
  apply cb_run_wf; [zvm|apply map_Forall_empty].
Defined.

(** From a closed breaker, exactly the [threshold]-th consecutive failure
    opens the circuit: the earlier ones report [Healthy] and count up. *)
Lemma threshold_failures_open k times r :
  inner r !! k = None -> 1 <= threshold r <= u8_max ->
  Z.of_nat (length times) = threshold r ->
  map (fun o => (fo_consecutive_failures o, fo_just_opened o, fo_health o)) (fail_all k times r).2
  = map (fun i => (Z.of_nat i, (threshold r =? Z.of_nat i)%Z,
                   if threshold r =? Z.of_nat i then Unhealthy else Healthy))
        (seq 1 (length times)).
Proof.
  intros Hk Hthr Hlen.
  enough (forall c r', closed_with k (Z.of_nat c) r' -> threshold r' = threshold r ->
    (c + length times <= Z.to_nat (threshold r))%nat ->
    map (fun o => (fo_consecutive_failures o, fo_just_opened o, fo_health o)) (fail_all k times r').2
    = map (fun i => (Z.of_nat i, (threshold r =? Z.of_nat i)%Z,
                     if threshold r =? Z.of_nat i then Unhealthy else Healthy))
          (seq (S c) (length times))) as Hgen.
  { apply (Hgen 0%nat r); [unfold closed_with; by rewrite Hk|done|lia]. }
  clear Hk Hlen. induction times as [|t times IH]; intros c r' Hc Hr' Hle; [done|].
  cbn [fail_all seq length] in *. pose proof (fail_closed k (Z.of_nat c) t r' Hc) as Hf.
  destruct (record_failure_outcome k t r') as [r1 o].
  destruct Hf as (H1 & H2 & H3 & H4 & H5); [lia|lia|].
  specialize (IH (S c) r1). destruct (fail_all k times r1) as [r2 os] eqn:Ef.
  cbn [map snd] in *. replace (Z.of_nat (S c)) with (Z.of_nat c + 1) in * by lia.
  rewrite H1, H2, H3, Hr'. f_equal.
  destruct times as [|t' times]; [simpl in Ef; by simplify_eq|].
  apply IH; [apply H4|congruence|]; simpl in *; lia.
Qed.

Lemma threshold_failures_open_witness :
  map (fun o => (fo_consecutive_failures o, fo_just_opened o, fo_health o))
    (fail_all (KAccount 7) [1; 2; 3] (cb_new (mkBreakerConfig 3 1000))).2
  = map (fun i => (Z.of_nat i, (3 =? Z.of_nat i)%Z, if 3 =? Z.of_nat i then Unhealthy else Healthy))
        (seq 1 3).
Proof. apply threshold_failures_open; [reflexivity|zvm|reflexivity]. Defined.
