(* ===== verification/Predictive.v ===== *)
(** * The predictive rate limiter

    Model of openproxy-pipeline/src/predictive_rate_limit.rs: per target an
    adaptive window of admissions (additive increase, drop on 429) with a
    Closed / Open / HalfOpen automaton, kept in 256 lock-protected shards.

    Times are epoch milliseconds ([u64]).  Fields keep their machine width:
    plain additions wrap at it, [saturating_*] saturate.  A shard lock is held
    for the whole of each operation, so operations are atomic. *)

From S2P Require Import Prelude Types.

(** ** Constants *)

Definition SHARD_COUNT : nat := 256.
Definition DEFAULT_BURST_CAPACITY : Z := 1000.
Definition DEFAULT_WINDOW_DURATION_MS : Z := 60000.
Definition PROBE_SUCCESS_THRESHOLD : Z := 2.
Definition MIN_RECOVERED_BURST : Z := 2.
Definition MEMORY_DECAY_IDLE_MS : Z := 15 * 60 * 1000.
Definition MAX_OPEN_PENALTY_MS : Z := 10 * 60 * 1000.
Definition MIN_RATE_LIMITED_PENALTY_MS : Z := 3000.
Definition PROBE_LEASE_MS : Z := 30000.

(** ** Data *)

Inductive TargetRateState := Closed | Open | HalfOpen.

#[export] Instance TargetRateState_eq_dec : EqDecision TargetRateState.
Proof. solve_decision. Defined.

Record TargetPredictiveState := mkTps {
  window_start_ms : Z;
  reset_at_ms : Z;
  last_429_at_ms : Z;
  last_success_at_ms : Z;
  last_error_fingerprint : Z;
  window_duration_ms : Z;
  learned_burst : Z;
  window_count : Z;
  in_flight : Z;
  success_streak : Z;
  tps_consecutive_failures : Z;
  consecutive_same_fingerprint : Z;
  tps_state : TargetRateState
}.

Definition tps_default : TargetPredictiveState :=
  mkTps 0 0 0 0 0 DEFAULT_WINDOW_DURATION_MS DEFAULT_BURST_CAPACITY 0 0 0 0 0 Closed.

Inductive TargetReadiness :=
  | Ready
  | Probe
  | Saturated (burst count reset_in_ms : Z).

Definition is_saturated (x : TargetReadiness) : bool :=
  match x with Saturated _ _ _ => true | _ => false end.

(** Field updates. *)
Definition set_window (start count : Z) (s : TargetPredictiveState) : TargetPredictiveState :=
  mkTps start (reset_at_ms s) (last_429_at_ms s) (last_success_at_ms s)
    (last_error_fingerprint s) (window_duration_ms s) (learned_burst s) count (in_flight s)
    (success_streak s) (tps_consecutive_failures s) (consecutive_same_fingerprint s) (tps_state s).

Definition set_learned_burst (b : Z) (s : TargetPredictiveState) : TargetPredictiveState :=
  mkTps (window_start_ms s) (reset_at_ms s) (last_429_at_ms s) (last_success_at_ms s)
    (last_error_fingerprint s) (window_duration_ms s) b (window_count s) (in_flight s)
    (success_streak s) (tps_consecutive_failures s) (consecutive_same_fingerprint s) (tps_state s).

Definition set_state (st : TargetRateState) (s : TargetPredictiveState) : TargetPredictiveState :=
  mkTps (window_start_ms s) (reset_at_ms s) (last_429_at_ms s) (last_success_at_ms s)
    (last_error_fingerprint s) (window_duration_ms s) (learned_burst s) (window_count s)
    (in_flight s) (success_streak s) (tps_consecutive_failures s)
    (consecutive_same_fingerprint s) st.

Definition set_reset_at (t : Z) (s : TargetPredictiveState) : TargetPredictiveState :=
  mkTps (window_start_ms s) t (last_429_at_ms s) (last_success_at_ms s)
    (last_error_fingerprint s) (window_duration_ms s) (learned_burst s) (window_count s)
    (in_flight s) (success_streak s) (tps_consecutive_failures s)
    (consecutive_same_fingerprint s) (tps_state s).

Definition set_last_429 (t : Z) (s : TargetPredictiveState) : TargetPredictiveState :=
  mkTps (window_start_ms s) (reset_at_ms s) t (last_success_at_ms s)
    (last_error_fingerprint s) (window_duration_ms s) (learned_burst s) (window_count s)
    (in_flight s) (success_streak s) (tps_consecutive_failures s)
    (consecutive_same_fingerprint s) (tps_state s).

Definition set_in_flight (n : Z) (s : TargetPredictiveState) : TargetPredictiveState :=
  mkTps (window_start_ms s) (reset_at_ms s) (last_429_at_ms s) (last_success_at_ms s)
    (last_error_fingerprint s) (window_duration_ms s) (learned_burst s) (window_count s)
    n (success_streak s) (tps_consecutive_failures s) (consecutive_same_fingerprint s) (tps_state s).

Definition set_streak (n : Z) (s : TargetPredictiveState) : TargetPredictiveState :=
  mkTps (window_start_ms s) (reset_at_ms s) (last_429_at_ms s) (last_success_at_ms s)
    (last_error_fingerprint s) (window_duration_ms s) (learned_burst s) (window_count s)
    (in_flight s) n (tps_consecutive_failures s) (consecutive_same_fingerprint s) (tps_state s).

Definition set_duration (d : Z) (s : TargetPredictiveState) : TargetPredictiveState :=
  mkTps (window_start_ms s) (reset_at_ms s) (last_429_at_ms s) (last_success_at_ms s)
    (last_error_fingerprint s) d (learned_burst s) (window_count s) (in_flight s)
    (success_streak s) (tps_consecutive_failures s) (consecutive_same_fingerprint s) (tps_state s).

Definition set_failures (fails same fp : Z) (s : TargetPredictiveState) : TargetPredictiveState :=
  mkTps (window_start_ms s) (reset_at_ms s) (last_429_at_ms s) (last_success_at_ms s)
    fp (window_duration_ms s) (learned_burst s) (window_count s) (in_flight s)
    (success_streak s) fails same (tps_state s).

Definition set_last_success (t : Z) (s : TargetPredictiveState) : TargetPredictiveState :=
  mkTps (window_start_ms s) (reset_at_ms s) (last_429_at_ms s) t
    (last_error_fingerprint s) (window_duration_ms s) (learned_burst s) (window_count s)
    (in_flight s) (success_streak s) (tps_consecutive_failures s)
    (consecutive_same_fingerprint s) (tps_state s).

(** ** Operations on one target *)

(** [self.window_start_ms + u64::from(self.window_duration_ms)]. *)
Definition window_end (s : TargetPredictiveState) : Z :=
  wrap_add u64_max (window_start_ms s) (window_duration_ms s).

Definition advance_window_if_expired (now : Z) (s : TargetPredictiveState)
    : TargetPredictiveState :=
  let s := if window_start_ms s =? 0 then set_window now (window_count s) s else s in
  if window_end s <=? now then
    let s :=
      if bool_decide (tps_state s = Closed) && (0 <? window_count s)
         && (learned_burst s <? DEFAULT_BURST_CAPACITY)
      then set_learned_burst
             (Z.min (sat_add u16_max (learned_burst s) 2) DEFAULT_BURST_CAPACITY) s
      else s in
    set_window now 0 s
  else s.

Definition try_transition_half_open (now : Z) (s : TargetPredictiveState)
    : TargetPredictiveState :=
  if bool_decide (tps_state s = Open) && (reset_at_ms s <=? now)
  then set_window (window_start_ms s) 0 (set_state HalfOpen s)
  else s.

Definition apply_memory_decay_if_idle (now : Z) (s : TargetPredictiveState)
    : TargetPredictiveState :=
  if (0 <? last_429_at_ms s) && bool_decide (tps_state s = Closed)
     && (learned_burst s <? DEFAULT_BURST_CAPACITY)
     && (MEMORY_DECAY_IDLE_MS <? sat_sub now (last_429_at_ms s))
  then set_last_429 now
         (set_learned_burst
            (Z.min (sat_add u16_max (learned_burst s) 5) DEFAULT_BURST_CAPACITY) s)
  else s.

Definition refresh (now : Z) (s : TargetPredictiveState) : TargetPredictiveState :=
  apply_memory_decay_if_idle now
    (try_transition_half_open now (advance_window_if_expired now s)).

Definition probe_lease_free (now : Z) (s : TargetPredictiveState) : bool :=
  (in_flight s =? 0) || (sat_add u64_max (reset_at_ms s) PROBE_LEASE_MS <=? now).

Definition saturated_readiness (reset_in_ms : Z) (s : TargetPredictiveState) : TargetReadiness :=
  Saturated (learned_burst s) (window_count s) reset_in_ms.

Definition evaluate (now : Z) (s : TargetPredictiveState) : TargetReadiness :=
  match tps_state s with
  | Open => saturated_readiness (sat_sub (reset_at_ms s) now) s
  | HalfOpen =>
      if probe_lease_free now s then Probe
      else saturated_readiness (sat_sub (reset_at_ms s) now) s
  | Closed =>
      if learned_burst s <=? window_count s
      then saturated_readiness (sat_sub (window_end s) now) s
      else Ready
  end.

(** The reservation: one more request in flight and in the window. *)
Definition reserve (s : TargetPredictiveState) : TargetPredictiveState :=
  set_in_flight (wrap_add u16_max (in_flight s) 1)
    (set_window (window_start_ms s) (wrap_add u16_max (window_count s) 1) s).

Definition try_acquire (now : Z) (s : TargetPredictiveState) : TargetPredictiveState * bool :=
  match tps_state s with
  | Open => (s, false)
  | HalfOpen => if probe_lease_free now s then (reserve s, true) else (s, false)
  | Closed => if window_count s <? learned_burst s then (reserve s, true) else (s, false)
  end.

Definition recover_from_success (s : TargetPredictiveState) : TargetPredictiveState :=
  if bool_decide (tps_state s = Closed) then s
  else set_learned_burst
         (Z.max (Z.max (learned_burst s) (window_count s)) MIN_RECOVERED_BURST)
         (set_reset_at 0 (set_state Closed s)).

Definition update_window_duration (reset_window_secs : option Z) (s : TargetPredictiveState)
    : TargetPredictiveState :=
  match reset_window_secs with
  | Some reset_s => set_duration (Z.max (sat_mul u64_max reset_s 1000 mod (u32_max + 1)) 1000) s
  | None => s
  end.

Definition calibrate_from_remaining_header (remaining_header : option Z)
    (s : TargetPredictiveState) : TargetPredictiveState :=
  match remaining_header with
  | Some rem =>
      if rem =? 0 then set_learned_burst (window_count s) s
      else set_learned_burst
             (Z.max (learned_burst s)
                (sat_add u16_max (window_count s) (Z.min rem u16_max))) s
  | None => s
  end.

Definition advance_elastic_streak (s : TargetPredictiveState) : TargetPredictiveState :=
  let s := set_streak (wrap_add u16_max (success_streak s) 1) s in
  if PROBE_SUCCESS_THRESHOLD <=? success_streak s
  then set_streak 0 (set_learned_burst (sat_add u16_max (learned_burst s) 1) s)
  else s.

Definition apply_success (remaining_header reset_window_secs : option Z) (now : Z)
    (s : TargetPredictiveState) : TargetPredictiveState :=
  let s := set_in_flight (sat_sub (in_flight s) 1) s in
  let s := set_last_success now s in
  let s := set_failures 0 0 0 s in
  let s := recover_from_success s in
  let s := update_window_duration reset_window_secs s in
  let s := calibrate_from_remaining_header remaining_header s in
  advance_elastic_streak s.

Definition should_retry (fingerprint local_retry_count : Z) (s : TargetPredictiveState) : bool :=
  if bool_decide (tps_state s = Open) then false
  else if (1 <=? local_retry_count) && negb (fingerprint =? 0)
          && (fingerprint =? last_error_fingerprint s) then false
  else if (2 <=? tps_consecutive_failures s) && (1 <=? local_retry_count) then false
  else true.

Definition error_penalty_ms (failures : Z) : Z :=
  let consecutive := Z.min failures 8 in
  let multiplier := Z.shiftl 1 (Z.min (sat_sub consecutive 1) 3) in
  Z.min (sat_mul u64_max 15000 multiplier) 120000.

Definition report_upstream_error_with_fingerprint (fingerprint now : Z)
    (s : TargetPredictiveState) : TargetPredictiveState :=
  let s := set_in_flight (sat_sub (in_flight s) 1) s in
  let s := set_state Open (set_streak 0 s) in
  let failures := sat_add u8_max (tps_consecutive_failures s) 1 in
  let s :=
    if negb (fingerprint =? 0) && (fingerprint =? last_error_fingerprint s)
    then set_failures failures (sat_add u8_max (consecutive_same_fingerprint s) 1)
           (last_error_fingerprint s) s
    else set_failures failures 1 fingerprint s in
  set_reset_at (wrap_add u64_max now (error_penalty_ms failures)) s.

Definition rate_limited_penalty_ms (retry_after_secs : option Z) : Z :=
  match retry_after_secs with
  | None => DEFAULT_WINDOW_DURATION_MS
  | Some s => Z.min MAX_OPEN_PENALTY_MS
                (Z.max MIN_RATE_LIMITED_PENALTY_MS (sat_mul u64_max s 1000))
  end.

(** The body of [report_rate_limited_key] on the entry. *)
Definition apply_rate_limited (retry_after_secs : option Z) (now : Z)
    (s : TargetPredictiveState) : TargetPredictiveState :=
  let s := set_in_flight (sat_sub (in_flight s) 1) s in
  let s := set_streak 0 (set_last_429 now s) in
  let s := set_failures (sat_add u8_max (tps_consecutive_failures s) 1)
             (consecutive_same_fingerprint s) (last_error_fingerprint s) s in
  let s := set_learned_burst (Z.max 1 (sat_sub (window_count s) 1)) s in
  let s := set_state Open s in
  set_reset_at (wrap_add u64_max now (rate_limited_penalty_ms retry_after_secs)) s.

(** The predicate of [prune_stale]'s [retain]: entries for which it holds go. *)
Definition is_idle (now max_idle_ms : Z) (s : TargetPredictiveState) : bool :=
  bool_decide (tps_state s = Closed) && (in_flight s =? 0)
  && ((window_start_ms s =? 0) || (max_idle_ms <? sat_sub now (window_start_ms s)))
  && ((last_429_at_ms s =? 0) || (max_idle_ms <? sat_sub now (last_429_at_ms s)))
  && ((last_success_at_ms s =? 0) || (max_idle_ms <? sat_sub now (last_success_at_ms s))).

(** ** The sharded limiter *)

Record PredictiveRateLimiter := mkLimiter {
  shards : list (gmap Z TargetPredictiveState)
}.

Definition limiter_new : PredictiveRateLimiter := mkLimiter (replicate SHARD_COUNT ∅).

(** [(key as usize) & (SHARD_COUNT - 1)]. *)
Definition shard_idx (key : Z) : nat := Z.to_nat (Z.land key (Z.of_nat SHARD_COUNT - 1)).

Definition shard_for (key : Z) (l : PredictiveRateLimiter) : gmap Z TargetPredictiveState :=
  default ∅ (shards l !! shard_idx key).

Definition set_shard (key : Z) (m : gmap Z TargetPredictiveState) (l : PredictiveRateLimiter)
    : PredictiveRateLimiter :=
  mkLimiter (<[shard_idx key := m]> (shards l)).

(** [map.entry(key).or_default()], updated by [f]. *)
Definition update_key (key : Z) (f : TargetPredictiveState -> TargetPredictiveState)
    (l : PredictiveRateLimiter) : PredictiveRateLimiter :=
  let m := shard_for key l in
  set_shard key (<[key := f (default tps_default (m !! key))]> m) l.

Definition evaluate_key (key now : Z) (l : PredictiveRateLimiter) : TargetReadiness :=
  match shard_for key l !! key with
  | Some s => evaluate now (refresh now s)
  | None => Ready
  end.

Definition acquire_key (key now : Z) (l : PredictiveRateLimiter) : PredictiveRateLimiter * bool :=
  let s := refresh now (default tps_default (shard_for key l !! key)) in
  (update_key key (fun s => (try_acquire now (refresh now s)).1) l, (try_acquire now s).2).

Definition should_retry_key (key fingerprint local_retry_count now : Z)
    (l : PredictiveRateLimiter) : PredictiveRateLimiter * bool :=
  let s := refresh now (default tps_default (shard_for key l !! key)) in
  (update_key key (refresh now) l, should_retry fingerprint local_retry_count s).

Definition release_in_flight_key (key : Z) (l : PredictiveRateLimiter) : PredictiveRateLimiter :=
  let m := shard_for key l in
  match m !! key with
  | Some s => set_shard key (<[key := set_in_flight (sat_sub (in_flight s) 1) s]> m) l
  | None => l
  end.

Definition report_success_key (key : Z) (remaining_header reset_window_secs : option Z) (now : Z)
    (l : PredictiveRateLimiter) : PredictiveRateLimiter :=
  update_key key (apply_success remaining_header reset_window_secs now) l.

Definition report_rate_limited_key (key : Z) (retry_after_secs : option Z) (now : Z)
    (l : PredictiveRateLimiter) : PredictiveRateLimiter :=
  update_key key (apply_rate_limited retry_after_secs now) l.

Definition report_upstream_error_with_fingerprint_key (key fingerprint now : Z)
    (l : PredictiveRateLimiter) : PredictiveRateLimiter :=
  update_key key (report_upstream_error_with_fingerprint fingerprint now) l.

Definition report_upstream_error_key (key now : Z) (l : PredictiveRateLimiter)
    : PredictiveRateLimiter :=
  report_upstream_error_with_fingerprint_key key 0 now l.

Definition prune_shard (max_idle_ms now : Z) (m : gmap Z TargetPredictiveState)
    : gmap Z TargetPredictiveState :=
  filter (fun kv => is_idle now max_idle_ms kv.2 = false) m.

Definition prl_prune_stale (max_idle_ms now : Z) (l : PredictiveRateLimiter)
    : PredictiveRateLimiter * nat :=
  (mkLimiter (prune_shard max_idle_ms now <$> shards l),
   sum_list ((fun m => size (filter (fun kv => is_idle now max_idle_ms kv.2 = true) m))
               <$> shards l)).

#[global] Arguments refresh : simpl never.
#[global] Arguments try_acquire : simpl never.
#[global] Arguments limiter_new : simpl never.
#[global] Arguments shard_for : simpl never.

(** ** Keys

    [DefaultHasher] is the standard library's unspecified 64-bit hash: the
    parameter [finish] of what was written into the hasher. *)

Inductive hash_item := HInt (z : Z) | HStr (s : string).

Section keys.
Context (finish : list hash_item -> Z).

Definition compute_key_parts (provider_id : string) (account_id model_row_id : option Z)
    (scope : RateLimitScope) : Z :=
  match account_id with
  | Some aid =>
      finish (HInt aid ::
        (if bool_decide (scope = ScopeModel) then [HInt (default 0 model_row_id)] else []))
  | None => finish [HStr provider_id; HInt (default 0 model_row_id)]
  end.

Definition compute_target_key (t : ComboTarget) : Z :=
  compute_key_parts (t_provider_id t) (t_account_id t) (t_model_row_id t) (t_rate_limit_scope t).

Definition compute_key (combo_id target_id : Z) : Z := finish [HInt combo_id; HInt target_id].

(** The methods that take a combo and a target id. *)
Definition evaluate_target (combo_id target_id now : Z) (l : PredictiveRateLimiter) : TargetReadiness :=
  evaluate_key (compute_key combo_id target_id) now l.

Definition acquire_target (combo_id target_id now : Z) (l : PredictiveRateLimiter)
    : PredictiveRateLimiter * bool :=
  acquire_key (compute_key combo_id target_id) now l.

Definition should_retry_by_ids (combo_id target_id fingerprint local_retry_count now : Z)
    (l : PredictiveRateLimiter) : PredictiveRateLimiter * bool :=
  should_retry_key (compute_key combo_id target_id) fingerprint local_retry_count now l.

Definition release_in_flight (combo_id target_id : Z) (l : PredictiveRateLimiter)
    : PredictiveRateLimiter :=
  release_in_flight_key (compute_key combo_id target_id) l.

Definition report_success (combo_id target_id : Z) (remaining_header reset_window_secs : option Z)
    (now : Z) (l : PredictiveRateLimiter) : PredictiveRateLimiter :=
  report_success_key (compute_key combo_id target_id) remaining_header reset_window_secs now l.

Definition report_rate_limited (combo_id target_id : Z) (retry_after_secs : option Z) (now : Z)
    (l : PredictiveRateLimiter) : PredictiveRateLimiter :=
  report_rate_limited_key (compute_key combo_id target_id) retry_after_secs now l.

Definition report_upstream_error_by_ids (combo_id target_id fingerprint now : Z)
    (l : PredictiveRateLimiter) : PredictiveRateLimiter :=
  report_upstream_error_with_fingerprint_key (compute_key combo_id target_id) fingerprint now l.

Definition report_upstream_error (combo_id target_id now : Z) (l : PredictiveRateLimiter)
    : PredictiveRateLimiter :=
  report_upstream_error_by_ids combo_id target_id 0 now l.
End keys.

(** ** Executions on one target

    The operations a shard entry sees besides the reports of a result. *)

Inductive tps_op := TAcquire | TRetry | TRelease.

Definition tps_apply (now : Z) (o : tps_op) (s : TargetPredictiveState)
    : TargetPredictiveState * bool :=
  match o with
  | TAcquire => try_acquire now (refresh now s)
  | TRetry => (refresh now s, false)
  | TRelease => (set_in_flight (sat_sub (in_flight s) 1) s, false)
  end.

(** Runs the operations; the list tells which ones admitted a request. *)
Fixpoint tps_run (tr : list (Z * tps_op)) (s : TargetPredictiveState)
    : TargetPredictiveState * list bool :=
  match tr with
  | [] => (s, [])
  | (now, o) :: tr' =>
      let '(s1, b) := tps_apply now o s in
      let '(s2, bs) := tps_run tr' s1 in (s2, b :: bs)
  end.

Definition admitted (bs : list bool) : Z := Z.of_nat (length (filter (fun b => b = true) bs)).

(** ** Abstract specification: one map for all keys *)

Inductive prl_op :=
  | PEvaluate (key now : Z)
  | PAcquire (key now : Z)
  | PShouldRetry (key fingerprint local_retry_count now : Z)
  | PRelease (key : Z)
  | PSuccess (key : Z) (remaining reset_window : option Z) (now : Z)
  | PRateLimited (key : Z) (retry_after : option Z) (now : Z)
  | PError (key fingerprint now : Z)
  | PPrune (max_idle_ms now : Z).

Inductive prl_resp := RUnit | RBool (b : bool) | RReady (r : TargetReadiness) | RCount (n : nat).

Definition prl_apply (o : prl_op) (l : PredictiveRateLimiter) : PredictiveRateLimiter * prl_resp :=
  match o with
  | PEvaluate k now => (l, RReady (evaluate_key k now l))
  | PAcquire k now => let '(l', b) := acquire_key k now l in (l', RBool b)
  | PShouldRetry k fp n now => let '(l', b) := should_retry_key k fp n now l in (l', RBool b)
  | PRelease k => (release_in_flight_key k l, RUnit)
  | PSuccess k rem rst now => (report_success_key k rem rst now l, RUnit)
  | PRateLimited k ra now => (report_rate_limited_key k ra now l, RUnit)
  | PError k fp now => (report_upstream_error_with_fingerprint_key k fp now l, RUnit)
  | PPrune d now => let '(l', n) := prl_prune_stale d now l in (l', RCount n)
  end.

Definition flat_update (k : Z) (f : TargetPredictiveState -> TargetPredictiveState)
    (m : gmap Z TargetPredictiveState) : gmap Z TargetPredictiveState :=
  <[k := f (default tps_default (m !! k))]> m.

Definition flat_apply (o : prl_op) (m : gmap Z TargetPredictiveState)
    : gmap Z TargetPredictiveState * prl_resp :=
  match o with
  | PEvaluate k now =>
      (m, RReady (match m !! k with Some s => evaluate now (refresh now s) | None => Ready end))
  | PAcquire k now =>
      let s := refresh now (default tps_default (m !! k)) in
      (flat_update k (fun s => (try_acquire now (refresh now s)).1) m, RBool (try_acquire now s).2)
  | PShouldRetry k fp n now =>
      let s := refresh now (default tps_default (m !! k)) in
      (flat_update k (refresh now) m, RBool (should_retry fp n s))
  | PRelease k => (alter (fun s => set_in_flight (sat_sub (in_flight s) 1) s) k m, RUnit)
  | PSuccess k rem rst now => (flat_update k (apply_success rem rst now) m, RUnit)
  | PRateLimited k ra now => (flat_update k (apply_rate_limited ra now) m, RUnit)
  | PError k fp now => (flat_update k (report_upstream_error_with_fingerprint fp now) m, RUnit)
  | PPrune d now =>
      (prune_shard d now m,
       RCount (size (filter (fun kv => is_idle now d kv.2 = true) m)))
  end.

Fixpoint prl_run (tr : list prl_op) (l : PredictiveRateLimiter)
    : PredictiveRateLimiter * list prl_resp :=
  match tr with
  | [] => (l, [])
  | o :: tr' => let '(l1, r) := prl_apply o l in let '(l2, rs) := prl_run tr' l1 in (l2, r :: rs)
  end.

Fixpoint flat_run (tr : list prl_op) (m : gmap Z TargetPredictiveState)
    : gmap Z TargetPredictiveState * list prl_resp :=
  match tr with
  | [] => (m, [])
  | o :: tr' => let '(m1, r) := flat_apply o m in let '(m2, rs) := flat_run tr' m1 in (m2, r :: rs)
  end.

(** Every key lives in the shard of its low byte, and nowhere else. *)
Definition limiter_rel (l : PredictiveRateLimiter) (m : gmap Z TargetPredictiveState) : Prop :=
  length (shards l) = SHARD_COUNT
  /\ forall i sh, shards l !! i = Some sh ->
       forall k, sh !! k = if decide (shard_idx k = i) then m !! k else None.

(** ** Lemmas: sharding *)

Lemma shard_idx_lt k : (shard_idx k < SHARD_COUNT)%nat.
Proof.
  unfold shard_idx, SHARD_COUNT. change (Z.of_nat 256 - 1) with (Z.ones 8).
  rewrite Z.land_ones by lia. pose proof (Z.mod_pos_bound k (2 ^ 8)). lia.
Qed.

Lemma limiter_rel_shard l m k :
  limiter_rel l m -> exists sh, shards l !! shard_idx k = Some sh /\ shard_for k l = sh
                                /\ sh !! k = m !! k.
Proof.
  intros [Hlen Hrel]. destruct (lookup_lt_is_Some_2 (shards l) (shard_idx k)) as [sh Hsh].
  { rewrite Hlen. apply shard_idx_lt. }
  exists sh. unfold shard_for. rewrite Hsh. split_and!; [done..|].
  rewrite (Hrel _ _ Hsh). by rewrite decide_True.
Qed.

Lemma shard_for_lookup l m k : limiter_rel l m -> shard_for k l !! k = m !! k.
Proof. intros H. by destruct (limiter_rel_shard l m k H) as (sh & _ & -> & ?). Qed.

Lemma set_shard_rel l m k v :
  limiter_rel l m -> limiter_rel (set_shard k (<[k := v]> (shard_for k l)) l) (<[k := v]> m).
Proof.
  intros Hr. destruct (limiter_rel_shard l m k Hr) as (sh & Hsh & -> & _).
  destruct Hr as [Hlen Hrel]. split; simpl; [by rewrite length_insert|].
  intros i sh' Hi k'. rewrite list_lookup_insert in Hi.
  case_decide as Hc.
  - destruct Hc as [<- _]. simplify_eq. rewrite !lookup_insert. case_decide as Hkk.
    + subst. by rewrite decide_True.
    + by rewrite (Hrel _ _ Hsh).
  - rewrite (Hrel _ _ Hi). case_decide as Hi'; [|done]. rewrite lookup_insert_ne; [done|].
    intros ->. apply Hc. split; [done|]. rewrite Hlen. apply shard_idx_lt.
Qed.

Lemma update_key_rel l m k f :
  limiter_rel l m -> limiter_rel (update_key k f l) (flat_update k f m).
Proof.
  intros Hr. unfold update_key, flat_update. rewrite (shard_for_lookup l m k Hr).
  by apply set_shard_rel.
Qed.

Lemma sum_sizes (shs : list (gmap Z TargetPredictiveState)) (j : nat)
    (m : gmap Z TargetPredictiveState) :
  (forall i sh, shs !! i = Some sh ->
     forall k, sh !! k = if decide (shard_idx k = j + i)%nat then m !! k else None) ->
  (forall k, is_Some (m !! k) -> (j <= shard_idx k < j + length shs)%nat) ->
  sum_list (size <$> shs) = size m.
Proof.
  revert j m. induction shs as [|sh shs IH]; intros j m Hrel Hdom.
  { assert (m = ∅) as ->; [|done]. apply map_empty. intros k.
    destruct (m !! k) eqn:E; [|done]. specialize (Hdom k). rewrite E in Hdom.
    destruct Hdom; [done|]. simpl in *. lia. }
  rewrite fmap_cons.
  change (sum_list (size sh :: (size <$> shs))) with (size sh + sum_list (size <$> shs))%nat.
  set (m' := filter (fun kv : Z * _ => shard_idx kv.1 <> j) m).
  assert (forall k, m' !! k = if decide (shard_idx k = j) then None else m !! k) as Hm'.
  { intros k. unfold m'. rewrite map_lookup_filter. destruct (m !! k); simpl; [|by case_decide].
    case_guard; case_decide; done. }
  assert (forall k, sh !! k = if decide (shard_idx k = j) then m !! k else None) as Hsh.
  { intros k. rewrite (Hrel 0%nat sh) by done. by rewrite Nat.add_0_r. }
  rewrite (IH (S j) m').
  - rewrite <- map_size_disj_union.
    + f_equal. apply map_eq. intros k. rewrite lookup_union, Hsh, Hm'.
      case_decide; [by destruct (m !! k)|by destruct (m !! k)].
    + apply map_disjoint_spec. intros k x y. rewrite Hsh, Hm'. by case_decide.
  - intros i sh' Hi k. rewrite (Hrel (S i) sh') by done. rewrite Hm'.
    replace (j + S i)%nat with (S j + i)%nat by lia.
    case_decide; [|done]. rewrite decide_False by lia. done.
  - intros k. rewrite Hm'. case_decide as Hk; [by intros [??]|].
    intros Hs. apply Hdom in Hs. simpl in Hs. lia.
Qed.

Lemma filter_rel P `{!forall kv : Z * TargetPredictiveState, Decision (P kv)} l m :
  limiter_rel l m -> limiter_rel (mkLimiter (filter P <$> shards l)) (filter P m).
Proof.
  intros [Hlen Hrel]. split; simpl; [by rewrite length_fmap|].
  intros i sh Hi k. apply list_lookup_fmap_Some in Hi as (sh0 & -> & Hi).
  rewrite !map_lookup_filter, (Hrel _ _ Hi). by case_decide.
Qed.

Lemma prune_count_rel (P : Z * TargetPredictiveState -> Prop) `{!forall kv, Decision (P kv)} l m :
  limiter_rel l m ->
  sum_list ((fun sh => size (filter P sh)) <$> shards l) = size (filter P m).
Proof.
  intros Hr. pose proof (filter_rel P l m Hr) as [Hlen Hrel]; simpl in *.
  rewrite <- (sum_sizes (filter P <$> shards l) 0).
  - by rewrite <- list_fmap_compose.
  - done.
  - intros k _. rewrite Hlen. pose proof (shard_idx_lt k). lia.
Qed.

Lemma prl_apply_rel o l m :
  limiter_rel l m ->
  limiter_rel (prl_apply o l).1 (flat_apply o m).1 /\ (prl_apply o l).2 = (flat_apply o m).2.
Proof.
  intros Hr. pose proof (fun k => shard_for_lookup l m k Hr) as Hk.
  destruct o as [k now|k now|k fp n now|k|k rem rst now|k ra now|k fp now|d now];
    cbn [prl_apply flat_apply acquire_key should_retry_key prl_prune_stale fst snd].
  - unfold evaluate_key. by rewrite Hk.
  - rewrite Hk. split; [by apply update_key_rel|done].
  - rewrite Hk. split; [by apply update_key_rel|done].
  - split; [|done]. unfold release_in_flight_key. rewrite Hk.
    destruct (m !! k) as [s|] eqn:E.
    + replace (alter _ k m)
        with (<[k := set_in_flight (sat_sub (in_flight s) 1) s]> m).
      { by apply set_shard_rel. }
      apply map_eq. intros k'. rewrite lookup_insert, lookup_alter. case_decide; [|done].
      subst. by rewrite E.
    + replace (alter _ k m) with m; [done|].
      apply map_eq. intros k'. rewrite lookup_alter. case_decide; [|done]. subst. by rewrite E.
  - split; [by apply update_key_rel|done].
  - split; [by apply update_key_rel|done].
  - split; [by apply update_key_rel|done].
  - split; [by apply filter_rel|]. f_equal. by apply prune_count_rel.
Qed.

Lemma limiter_new_rel : limiter_rel limiter_new ∅.
Proof.
  split; [done|]. intros i sh Hi k. cbn [shards limiter_new] in Hi. apply lookup_replicate in Hi as [-> _].
  rewrite !lookup_empty. by case_decide.
Qed.

(** ** Lemmas: the automaton of one target *)

(** What [refresh] leaves alone. *)
Lemma advance_window_frame now s :
  let s' := advance_window_if_expired now s in
  tps_state s' = tps_state s /\ reset_at_ms s' = reset_at_ms s /\ in_flight s' = in_flight s
  /\ last_429_at_ms s' = last_429_at_ms s /\ window_duration_ms s' = window_duration_ms s.
Proof. unfold advance_window_if_expired. simpl. repeat case_match; done. Qed.

Lemma refresh_open now s :
  tps_state s = Open -> now < reset_at_ms s ->
  tps_state (refresh now s) = Open /\ reset_at_ms (refresh now s) = reset_at_ms s.
Proof.
  intros Hs Hlt. destruct (advance_window_frame now s) as (Hst & Hrs & _).
  unfold refresh, try_transition_half_open. rewrite Hst, Hs, Hrs. simpl.
  destruct (Z.leb_spec (reset_at_ms s) now); [lia|].
  unfold apply_memory_decay_if_idle. rewrite Hst, Hs. simpl.
  rewrite andb_false_r. simpl. split; congruence.
Qed.

Lemma refresh_half_open now s :
  tps_state s = HalfOpen \/ (tps_state s = Open /\ reset_at_ms s <= now) ->
  tps_state (refresh now s) = HalfOpen /\ reset_at_ms (refresh now s) = reset_at_ms s
  /\ in_flight (refresh now s) = in_flight s.
Proof.
  intros Hs. destruct (advance_window_frame now s) as (Hst & Hrs & Hin & _).
  assert (tps_state (try_transition_half_open now (advance_window_if_expired now s)) = HalfOpen
    /\ reset_at_ms (try_transition_half_open now (advance_window_if_expired now s)) = reset_at_ms s
    /\ in_flight (try_transition_half_open now (advance_window_if_expired now s)) = in_flight s)
    as (H1 & H2 & H3).
  { unfold try_transition_half_open. rewrite Hst, Hrs. destruct Hs as [Hs|[Hs Hle]]; rewrite Hs; simpl.
    { rewrite Hst, Hs. done. }
    destruct (Z.leb_spec (reset_at_ms s) now); [done|lia]. }
  unfold refresh, apply_memory_decay_if_idle. rewrite H1. simpl.
  rewrite andb_false_r. done.
Qed.

(** A target under penalty until [r]. *)
Definition blocked_until (r : Z) (s : TargetPredictiveState) : Prop :=
  tps_state s = Open /\ reset_at_ms s = r.

Lemma blocked_step r now o s :
  now < r -> blocked_until r s ->
  blocked_until r (tps_apply now o s).1 /\ (tps_apply now o s).2 = false.
Proof.
  intros Hlt [Hs Hr]. destruct o; simpl; [| |done].
  all: destruct (refresh_open now s) as [H1 H2]; [done|lia|].
  - unfold try_acquire. rewrite H1. split; [|done]. split; [done|]. simpl. lia.
  - split; [|done]. split; [done|lia].
Qed.

Lemma blocked_run r tr s :
  Forall (fun to => to.1 < r) tr -> blocked_until r s ->
  blocked_until r (tps_run tr s).1 /\ Forall (eq false) (tps_run tr s).2.
Proof.
  revert s. induction tr as [|[now o] tr IH]; intros s Htr Hs; [done|].
  apply Forall_cons_1 in Htr as [Hlt Htr]. simpl in *.
  destruct (blocked_step r now o s Hlt Hs) as [H1 H2].
  destruct (tps_apply now o s) as [s1 b]; simpl in *. subst b.
  destruct (IH s1 Htr H1). destruct (tps_run tr s1); simpl in *.
  split; [done|by constructor].
Qed.

Lemma rate_limited_penalty_bounds ra :
  match ra with Some s => 0 <= s | None => True end ->
  MIN_RATE_LIMITED_PENALTY_MS <= rate_limited_penalty_ms ra <= MAX_OPEN_PENALTY_MS.
Proof.
  unfold rate_limited_penalty_ms, MIN_RATE_LIMITED_PENALTY_MS, MAX_OPEN_PENALTY_MS,
    DEFAULT_WINDOW_DURATION_MS. destruct ra; lia.
Qed.

Lemma error_penalty_bounds n : 0 <= n <= u8_max -> 15000 <= error_penalty_ms n <= 120000.
Proof.
  intros Hn. unfold error_penalty_ms.
  assert (0 <= Z.min (sat_sub (Z.min n 8) 1) 3 <= 3) as H by (unfold sat_sub; lia).
  revert H. generalize (Z.min (sat_sub (Z.min n 8) 1) 3). intros m Hm.
  assert (m = 0 \/ m = 1 \/ m = 2 \/ m = 3) as [->|[->|[->| ->]]] by lia;
    vm_compute; split; congruence.
Qed.

Lemma refresh_window s now :
  tps_state s = Closed -> window_start_ms s <> 0 -> now < window_end s ->
  let s' := refresh now s in
  tps_state s' = Closed /\ window_start_ms s' = window_start_ms s
  /\ window_duration_ms s' = window_duration_ms s
  /\ window_count s' = window_count s
  /\ learned_burst s <= learned_burst s' <= Z.max (learned_burst s) DEFAULT_BURST_CAPACITY.
Proof.
  intros Hs Hw Hlt. unfold refresh.
  assert (advance_window_if_expired now s = s) as ->.
  { unfold advance_window_if_expired. destruct (Z.eqb_spec (window_start_ms s) 0); [done|].
    destruct (Z.leb_spec (window_end s) now); [lia|done]. }
  assert (try_transition_half_open now s = s) as ->.
  { unfold try_transition_half_open. by rewrite Hs. }
  unfold apply_memory_decay_if_idle, DEFAULT_BURST_CAPACITY in *.
  destruct (_ && _) eqn:E; simpl; split_and!; try done; try lia.
  all: zbool; unfold sat_add, u16_max; lia.
Qed.

(** The state inside one window: admissions so far are within the budget. *)
Definition in_window (s0 s : TargetPredictiveState) : Prop :=
  tps_state s = Closed /\ window_start_ms s = window_start_ms s0
  /\ window_duration_ms s = window_duration_ms s0
  /\ learned_burst s <= Z.max (learned_burst s0) DEFAULT_BURST_CAPACITY
  /\ 0 <= window_count s <= learned_burst s /\ learned_burst s <= u16_max.

Lemma in_window_step s0 s now o :
  window_start_ms s0 <> 0 -> learned_burst s0 <= u16_max -> now < window_end s0 ->
  in_window s0 s ->
  in_window s0 (tps_apply now o s).1
  /\ window_count (tps_apply now o s).1
     = window_count s + (if (tps_apply now o s).2 then 1 else 0).
Proof.
  intros Hw Hb Hlt (H1 & H2 & H3 & H4 & H5 & H6).
  assert (window_end s = window_end s0) as He by (unfold window_end; by rewrite H2, H3).
  destruct (refresh_window s now) as (R1 & R2 & R3 & R4 & R5); [done|congruence|lia|].
  destruct o; simpl; unfold in_window.
  - unfold try_acquire. rewrite R1.
    destruct (Z.ltb_spec (window_count (refresh now s)) (learned_burst (refresh now s))); simpl.
    + unfold wrap_add, u16_max, DEFAULT_BURST_CAPACITY in *. rewrite R4 in *.
      rewrite Z.mod_small by lia. split_and!; try congruence; lia.
    + unfold u16_max, DEFAULT_BURST_CAPACITY in *. rewrite R4 in *. split_and!; try congruence; lia.
  - unfold u16_max, DEFAULT_BURST_CAPACITY in *. rewrite R4 in *. split_and!; try congruence; lia.
  - simpl. split_and!; try done; lia.
Qed.

Lemma admitted_cons b bs : admitted (b :: bs) = (if b then 1 else 0) + admitted bs.
Proof.
  unfold admitted.
  destruct b; [rewrite filter_cons_True by done|rewrite filter_cons_False by done]; simpl; lia.
Qed.

Lemma in_window_run s0 tr s :
  window_start_ms s0 <> 0 -> learned_burst s0 <= u16_max ->
  Forall (fun to => to.1 < window_end s0) tr -> in_window s0 s ->
  in_window s0 (tps_run tr s).1
  /\ window_count (tps_run tr s).1 = window_count s + admitted (tps_run tr s).2.
Proof.
  intros Hw Hb. revert s. induction tr as [|[now o] tr IH]; intros s Htr Hs.
  { split; [done|]. unfold admitted. simpl. lia. }
  apply Forall_cons_1 in Htr as [Hlt Htr]. simpl in *.
  destruct (in_window_step s0 s now o Hw Hb Hlt Hs) as [H1 H2].
  destruct (tps_apply now o s) as [s1 b]; simpl in *.
  destruct (IH s1 Htr H1) as [H3 H4]. destruct (tps_run tr s1) as [s2 bs]; simpl in *.
  split; [done|]. rewrite admitted_cons. lia.
Qed.

(** A closed target whose learned budget is zero. *)
Definition starved (s : TargetPredictiveState) : Prop :=
  tps_state s = Closed /\ learned_burst s = 0 /\ window_count s = 0 /\ last_429_at_ms s = 0.

Lemma starved_refresh now s : starved s -> starved (refresh now s).
Proof.
  intros (H1 & H2 & H3 & H4).
  assert (starved (advance_window_if_expired now s)) as (A1 & A2 & A3 & A4).
  { unfold advance_window_if_expired. destruct (window_start_ms s =? 0); simpl;
      rewrite H1, H3; simpl; case_match; done. }
  unfold refresh, try_transition_half_open. rewrite A1. simpl.
  unfold apply_memory_decay_if_idle. rewrite A4. done.
Qed.

Lemma starved_step now o s :
  starved s -> starved (tps_apply now o s).1 /\ (tps_apply now o s).2 = false.
Proof.
  intros Hs. pose proof (starved_refresh now s Hs) as Hr.
  destruct o; simpl; [|done..].
  destruct (Hr) as (R1 & R2 & R3 & R4). unfold try_acquire. by rewrite R1, R2, R3.
Qed.

Lemma starved_run tr s :
  starved s -> starved (tps_run tr s).1 /\ Forall (eq false) (tps_run tr s).2.
Proof.
  revert s. induction tr as [|[now o] tr IH]; intros s Hs; [done|]. simpl.
  destruct (starved_step now o s Hs) as [H1 H2].
  destruct (tps_apply now o s) as [s1 b]; simpl in *. subst b.
  destruct (IH s1 H1). destruct (tps_run tr s1); simpl in *. split; [done|by constructor].
Qed.

(** ** Properties *)

(** The 256-way sharding is invisible: from an empty limiter, every
    sequence of operations (prunings and their counts included) returns what
    one map for all keys would return. *)
Lemma sharding_refines_flat_map tr :
  (prl_run tr limiter_new).2 = (flat_run tr ∅).2.
Proof.
  enough (forall l m, limiter_rel l m -> (prl_run tr l).2 = (flat_run tr m).2) as H
    by apply H, limiter_new_rel.
  induction tr as [|o tr IH]; intros l m Hr; [done|]. simpl.
  destruct (prl_apply_rel o l m Hr) as [Hr' Hres].
  destruct (prl_apply o l) as [l1 r1], (flat_apply o m) as [m1 r1']; simpl in *.
  specialize (IH l1 m1 Hr'). destruct (prl_run tr l1), (flat_run tr m1); simpl in *. congruence.
Qed.

(** [evaluate_key] (which works on a copy) predicts [acquire_key]: it
    reports saturation exactly when the acquisition would be refused. *)
Lemma evaluate_agrees_with_acquire key now l :
  is_saturated (evaluate_key key now l) = negb (acquire_key key now l).2.
Proof.
  unfold evaluate_key, acquire_key. cbn [snd].
  destruct (shard_for key l !! key) as [s|]; simpl.
  - generalize (refresh now s). clear s. intros s. unfold evaluate, try_acquire.
    destruct (tps_state s); simpl; [|done|by destruct (probe_lease_free now s)].
    destruct (Z.leb_spec (learned_burst s) (window_count s)),
      (Z.ltb_spec (window_count s) (learned_burst s)); done || lia.
  - assert (tps_state (refresh now tps_default) = Closed
      /\ window_count (refresh now tps_default) = 0
      /\ learned_burst (refresh now tps_default) = DEFAULT_BURST_CAPACITY) as (H1 & H2 & H3).
    { unfold refresh, advance_window_if_expired. cbn [window_start_ms tps_default Z.eqb].
      by destruct (_ <=? now). }
    unfold try_acquire. by rewrite H1, H2, H3.
Qed.

(** A 429 closes the door: the penalty is between 3 s and 10 min whatever
    [Retry-After] says (15 s to 120 s for other errors), and until it is over
    no sequence of acquisitions, retry checks and releases admits a request. *)
Lemma penalty_bounded_and_respected s now ra fp tr :
  0 <= now -> now + MAX_OPEN_PENALTY_MS <= u64_max ->
  match ra with Some x => 0 <= x | None => True end ->
  0 <= tps_consecutive_failures s <= u8_max ->
  let s429 := apply_rate_limited ra now s in
  let serr := report_upstream_error_with_fingerprint fp now s in
  (now + 3000 <= reset_at_ms s429 <= now + 600000)
  /\ (now + 15000 <= reset_at_ms serr <= now + 120000)
  /\ (forall s', s' = s429 \/ s' = serr -> Forall (fun to => to.1 < reset_at_ms s') tr ->
        Forall (eq false) (tps_run tr s').2).
Proof.
  intros Hn Hu Hra Hf s429 serr. pose proof (rate_limited_penalty_bounds ra Hra) as Hp.
  pose proof (error_penalty_bounds (sat_add u8_max (tps_consecutive_failures s) 1)) as He.
  unfold MAX_OPEN_PENALTY_MS, MIN_RATE_LIMITED_PENALTY_MS in *.
  assert (blocked_until (now + rate_limited_penalty_ms ra) s429) as H429.
  { split; [done|]. simpl. apply Z.mod_small. unfold u64_max in *. lia. }
  assert (blocked_until (now + error_penalty_ms (sat_add u8_max (tps_consecutive_failures s) 1)) serr)
    as Herr.
  { split.
    - subst serr. unfold report_upstream_error_with_fingerprint. cbv zeta. by destruct (_ && _).
    - cbn [serr report_upstream_error_with_fingerprint set_reset_at reset_at_ms].
      apply Z.mod_small. unfold sat_add, u8_max, u64_max in *. lia. }
  assert (0 <= sat_add u8_max (tps_consecutive_failures s) 1 <= u8_max) as Hr
    by (unfold sat_add, u8_max in *; lia).
  destruct H429 as [S1 S2], Herr as [E1 E2]. split_and!; try lia.
  intros s' [->| ->] Htr; eapply blocked_run; done.
Qed.

Lemma penalty_bounded_and_respected_witness :
  1000 + 3000 <= reset_at_ms (apply_rate_limited (Some 7) 1000 tps_default) <= 1000 + 600000.
Proof.
  apply (penalty_bounded_and_respected tps_default 1000 (Some 7) 0 [(2000, TAcquire)]); zvm.
Defined.

(** A penalised target always comes back: once the penalty and the probe
    lease are over, the next acquisition is admitted, even if the requests
    still counted in flight were leaked. *)
Lemma penalised_target_recovers s now :
  tps_state s <> Closed -> 0 <= reset_at_ms s <= u64_max -> now <= u64_max ->
  reset_at_ms s + PROBE_LEASE_MS <= now ->
  (tps_apply now TAcquire s).2 = true.
Proof.
  intros Hs Hr Hn Hle. unfold PROBE_LEASE_MS in *.
  destruct (refresh_half_open now s) as (H1 & H2 & _).
  { destruct (tps_state s); [done|right; split; [done|lia]|by left]. }
  simpl. unfold try_acquire. rewrite H1.
  assert (probe_lease_free now (refresh now s) = true) as ->; [|done].
  unfold probe_lease_free. rewrite H2. apply orb_true_iff. right. apply Z.leb_le.
  unfold sat_add, PROBE_LEASE_MS. lia.
Qed.

Lemma penalised_target_recovers_witness :
  (tps_apply 10000000 TAcquire (apply_rate_limited (Some 7) 1000 tps_default)).2 = true.
Proof. apply penalised_target_recovers; [discriminate|zvm..]. Defined.

(** In a closed window the number of admitted requests stays within the
    learned budget: what was already counted plus the admissions is the
    window counter, which never exceeds the learned burst. *)
Lemma window_admissions_bounded s tr :
  tps_state s = Closed -> window_start_ms s <> 0 ->
  0 <= window_count s <= learned_burst s -> learned_burst s <= u16_max ->
  Forall (fun to => to.1 < window_end s) tr ->
  window_count s + admitted (tps_run tr s).2
  <= learned_burst (tps_run tr s).1
  <= Z.max (learned_burst s) DEFAULT_BURST_CAPACITY.
Proof.
  intros Hs Hw Hc Hb Htr.
  assert (in_window s s) as Hin.
  { unfold in_window, DEFAULT_BURST_CAPACITY. split_and!; try done; lia. }
  destruct (in_window_run s tr s Hw Hb Htr Hin) as [(_ & _ & _ & H4 & H5 & _) H].
  unfold DEFAULT_BURST_CAPACITY in *. lia.
Qed.

Lemma window_admissions_bounded_witness :
  let s := refresh 1000 tps_default in
  let tr := [(1001, TAcquire); (1002, TRelease); (1003, TAcquire)] in
  window_count s + admitted (tps_run tr s).2 <= learned_burst (tps_run tr s).1.
Proof.
  intros s tr. apply (window_admissions_bounded s tr); [reflexivity|discriminate|zvm|zvm|].
  repeat constructor; zvm.
Defined.

(** (Starvation.)  When the first report for a target is a success whose
    rate-limit header says [remaining: 0], the learned burst becomes the
    empty window's count, zero, and from then on no acquisition is ever
    admitted: neither time nor attempts raise the budget again. *)
Lemma zero_remaining_starves rst now tr :
  Forall (eq false) (tps_run tr (apply_success (Some 0) rst now tps_default)).2.
Proof.
  apply starved_run. unfold apply_success, starved.
  destruct rst; simpl; done.
Qed.

(** (Probe flood.)  After the probe lease of a HalfOpen target is over,
    every acquisition is admitted, however many probes are in flight: the
    lease is never renewed, so the single-probe discipline is lost until a
    result arrives. *)
Lemma expired_lease_admits_all s times :
  tps_state s = HalfOpen -> 0 <= reset_at_ms s -> 
  Forall (fun t => reset_at_ms s + PROBE_LEASE_MS <= t <= u64_max) times ->
  Forall (eq true) (tps_run (map (fun t => (t, TAcquire)) times) s).2.
Proof.
  intros Hs Hr. revert s Hs Hr. induction times as [|t times IH]; intros s Hs Hr Ht; [constructor|].
  apply Forall_cons_1 in Ht as [Ht Htt]. unfold PROBE_LEASE_MS in *.
  destruct (refresh_half_open t s) as (H1 & H2 & _); [by left|].
  assert (probe_lease_free t (refresh t s) = true) as Hp.
  { unfold probe_lease_free. rewrite H2. apply orb_true_iff. right. apply Z.leb_le.
    unfold sat_add, PROBE_LEASE_MS. lia. }
  simpl. unfold try_acquire. rewrite H1, Hp.
  specialize (IH (reserve (refresh t s))). destruct (tps_run _ (reserve (refresh t s))).
  simpl in *. constructor; [done|]. apply IH; [done|by rewrite H2|by rewrite H2].
Qed.

Lemma expired_lease_admits_all_witness :
  Forall (eq true) (tps_run (map (fun t => (t, TAcquire)) [10000000; 10000000; 10000001])
    (set_state HalfOpen tps_default)).2.
Proof. apply expired_lease_admits_all; [reflexivity|zvm|repeat constructor; zvm]. Defined.
