(* ===== verification/SelectionRegistry.v ===== *)
(** * The selection registry

    Model of openproxy-types/src/selection_registry.rs: per combo target the
    timestamps and counters of its traffic, read by the load balancer through
    sliding windows.

    [now] is [time::now_ms()], monotonic milliseconds since start plus one, so
    never zero.  An update closure runs several relaxed atomic operations on
    one entry; here it is one step. *)

From S2P Require Import Prelude Types.

(** ** Data *)

Record SelectionRegistryEntry := mkSelEntry {
  last_success_ms : Z;
  last_activity_ms : Z;
  request_count : Z;
  success_count : Z;
  failure_count : Z;
  timeout_count : Z;
  total_latency_ms : Z;
  latency_samples : Z
}.

Record SelectionRegistry := mkSelRegistry { sel_inner : gmap Z SelectionRegistryEntry }.

Record TargetReputationMetrics := mkMetrics {
  m_success_count : Z;
  m_failure_count : Z;
  m_timeout_count : Z;
  m_latency_samples : Z;
  m_total_latency_ms : Z;
  m_last_success_ms : Z;
  m_last_activity_ms : Z
}.

Definition entry_default : SelectionRegistryEntry := mkSelEntry 0 0 0 0 0 0 0 0.

Definition sel_new : SelectionRegistry := mkSelRegistry ∅.

(** ** Operations *)

Definition update_entry (target_id : Z)
    (update : SelectionRegistryEntry -> SelectionRegistryEntry) (r : SelectionRegistry)
    : SelectionRegistry :=
  match sel_inner r !! target_id with
  | Some e => mkSelRegistry (<[target_id := update e]> (sel_inner r))
  | None => mkSelRegistry (<[target_id := update entry_default]> (sel_inner r))
  end.

(** [AtomicU64::fetch_add], which wraps. *)
Definition fetch_add (v n : Z) : Z := wrap_add u64_max v n.

Definition record_success_with_latency (target_id latency_ms now : Z) (r : SelectionRegistry)
    : SelectionRegistry :=
  update_entry target_id (fun e =>
    mkSelEntry now now (fetch_add (request_count e) 1) (fetch_add (success_count e) 1)
      (failure_count e) (timeout_count e)
      (if 0 <? latency_ms then fetch_add (total_latency_ms e) latency_ms else total_latency_ms e)
      (if 0 <? latency_ms then fetch_add (latency_samples e) 1 else latency_samples e)) r.

Definition sel_record_success (target_id now : Z) (r : SelectionRegistry) : SelectionRegistry :=
  record_success_with_latency target_id 0 now r.

Definition record_failure_with_kind (target_id : Z) (is_timeout : bool) (now : Z)
    (r : SelectionRegistry) : SelectionRegistry :=
  update_entry target_id (fun e =>
    mkSelEntry 0 now (fetch_add (request_count e) 1) (success_count e)
      (fetch_add (failure_count e) 1)
      (if is_timeout then fetch_add (timeout_count e) 1 else timeout_count e)
      (total_latency_ms e) (latency_samples e)) r.

Definition sel_record_failure (target_id now : Z) (r : SelectionRegistry) : SelectionRegistry :=
  record_failure_with_kind target_id false now r.

Definition record_request (target_id now : Z) (r : SelectionRegistry) : SelectionRegistry :=
  update_entry target_id (fun e =>
    mkSelEntry (last_success_ms e) now (sat_add u64_max (request_count e) 1) (success_count e)
      (failure_count e) (timeout_count e) (total_latency_ms e) (latency_samples e)) r.

Definition target_metrics (target_id : Z) (r : SelectionRegistry) : TargetReputationMetrics :=
  match sel_inner r !! target_id with
  | Some e => mkMetrics (success_count e) (failure_count e) (timeout_count e)
                (latency_samples e) (total_latency_ms e) (last_success_ms e) (last_activity_ms e)
  | None => mkMetrics 0 0 0 0 0 0 0
  end.

Definition last_success_within (target_id window_secs now : Z) (r : SelectionRegistry) : Z :=
  match sel_inner r !! target_id with
  | Some e =>
      if (0 <? last_success_ms e)
         && (sat_sub now (last_success_ms e) <=? sat_mul u64_max window_secs 1000)
      then last_success_ms e else 0
  | None => 0
  end.

Definition last_activity_within (target_id window_secs now : Z) (r : SelectionRegistry) : Z :=
  match sel_inner r !! target_id with
  | Some e =>
      if (0 <? last_activity_ms e)
         && (sat_sub now (last_activity_ms e) <=? sat_mul u64_max window_secs 1000)
      then last_activity_ms e else 0
  | None => 0
  end.

Definition resolve_entry_reference_ms (e : SelectionRegistryEntry) : Z :=
  if 0 <? last_success_ms e then last_success_ms e else last_activity_ms e.

Definition get_entry_request_count (e : SelectionRegistryEntry) (window_secs now : Z) : Z :=
  if request_count e =? 0 then 0
  else let reference_ms := resolve_entry_reference_ms e in
       if reference_ms =? 0 then request_count e
       else if sat_sub now reference_ms <=? sat_mul u64_max window_secs 1000
            then request_count e else 0.

Definition request_count_within (target_id window_secs now : Z) (r : SelectionRegistry) : Z :=
  match sel_inner r !! target_id with
  | Some e => get_entry_request_count e window_secs now
  | None => 0
  end.

Definition prune_stale_keep (cutoff : Z) (e : SelectionRegistryEntry) : bool :=
  let last_active := Z.max (last_success_ms e) (last_activity_ms e) in
  (0 <? last_active) && (cutoff <=? last_active).

Definition sel_prune_stale (max_age_ms now : Z) (r : SelectionRegistry)
    : SelectionRegistry * nat :=
  let cutoff := sat_sub now max_age_ms in
  let m := filter (fun kv => prune_stale_keep cutoff kv.2 = true) (sel_inner r) in
  (mkSelRegistry m, (size (sel_inner r) - size m)%nat).

Definition sel_len (r : SelectionRegistry) : nat := size (sel_inner r).

(** [reputation_score]: successes over outcomes, damped by timeouts, by a
    failure in the last minute and by latency above ten seconds. *)
Definition f64_lit (num den : Z) : f64 := f64_div (f64_of_Z num) (f64_of_Z den).

Definition timeout_factor (timeouts total : Z) : f64 :=
  if 0 <? timeouts then
    let timeout_ratio := f64_div (f64_of_Z timeouts) (f64_of_Z total) in
    f64_clamp (f64_lit 2 10) (f64_of_Z 1)
      (f64_sub (f64_of_Z 1) (f64_mul (f64_lit 1 2) timeout_ratio))
  else f64_of_Z 1.

Definition recency_penalty (last_success last_activity now : Z) : f64 :=
  if (last_success <? last_activity) && (sat_sub now last_activity <? 60000)
  then f64_lit 6 10 else f64_of_Z 1.

Definition latency_factor (total_latency samples : Z) : f64 :=
  if samples =? 0 then f64_of_Z 1
  else let avg_ms := total_latency / samples in
       if 10000 <? avg_ms then
         f64_clamp (f64_lit 2 10) (f64_of_Z 1)
           (f64_sub (f64_of_Z 1) (f64_div (f64_of_Z (avg_ms - 10000)) (f64_of_Z 50000)))
       else f64_of_Z 1.

Definition reputation_score (target_id window_secs now : Z) (r : SelectionRegistry) : f64 :=
  match sel_inner r !! target_id with
  | None => f64_of_Z 1
  | Some e =>
      if last_activity_ms e =? 0 then f64_of_Z 1
      else if sat_mul u64_max window_secs 1000 <? sat_sub now (last_activity_ms e)
      then f64_of_Z 1
      else
        let total := sat_add u64_max (success_count e) (failure_count e) in
        if total =? 0 then f64_of_Z 1
        else
          let success_rate := f64_div (f64_of_Z (success_count e)) (f64_of_Z total) in
          f64_clamp (f64_lit 5 100) (f64_of_Z 1)
            (f64_mul
               (f64_mul
                  (f64_mul success_rate (timeout_factor (timeout_count e) total))
                  (recency_penalty (last_success_ms e) (last_activity_ms e) now))
               (latency_factor (total_latency_ms e) (latency_samples e)))
  end.

(** ** Executions *)

Inductive sel_op :=
  | SSuccess (target_id latency_ms : Z)
  | SFailure (target_id : Z) (is_timeout : bool)
  | SRequest (target_id : Z)
  | SPrune (max_age_ms : Z).

Definition sel_apply (now : Z) (o : sel_op) (r : SelectionRegistry) : SelectionRegistry :=
  match o with
  | SSuccess t l => record_success_with_latency t l now r
  | SFailure t k => record_failure_with_kind t k now r
  | SRequest t => record_request t now r
  | SPrune d => (sel_prune_stale d now r).1
  end.

Fixpoint sel_run (tr : list (Z * sel_op)) (r : SelectionRegistry) : SelectionRegistry :=
  match tr with
  | [] => r
  | (now, o) :: tr' => sel_run tr' (sel_apply now o r)
  end.

(** Every entry records an activity, and its last success is not later. *)
Definition sel_wf (r : SelectionRegistry) : Prop :=
  map_Forall (fun _ e => 0 < last_activity_ms e /\ 0 <= last_success_ms e <= last_activity_ms e)
    (sel_inner r).

(** ** Lemmas *)

Lemma update_entry_lookup t t' f r :
  sel_inner (update_entry t f r) !! t'
  = if decide (t = t') then Some (f (default entry_default (sel_inner r !! t)))
    else sel_inner r !! t'.
Proof.
  unfold update_entry. destruct (sel_inner r !! t) eqn:E; simpl; rewrite lookup_insert;
    case_decide; done.
Qed.

Lemma update_entry_wf t f r :
  (0 < last_activity_ms (f (default entry_default (sel_inner r !! t)))
   /\ 0 <= last_success_ms (f (default entry_default (sel_inner r !! t)))
      <= last_activity_ms (f (default entry_default (sel_inner r !! t)))) ->
  sel_wf r -> sel_wf (update_entry t f r).
Proof.
  intros Hf Hr t' e. rewrite update_entry_lookup. case_decide; [|apply Hr].
  intros [= <-]. done.
Qed.

(** Activity recorded so far is not in the future. *)
Definition sel_before (now : Z) (r : SelectionRegistry) : Prop :=
  map_Forall (fun _ e => last_activity_ms e <= now) (sel_inner r).

Lemma sel_apply_wf now o r :
  0 < now -> sel_before now r -> sel_wf r -> sel_wf (sel_apply now o r) /\ sel_before now (sel_apply now o r).
Proof.
  intros Hnow Hb Hr. destruct o as [t l|t k|t|d]; simpl.
  4: { split; intros k e [He _]%map_lookup_filter_Some; [by eapply Hr|by eapply Hb]. }
  all: split; [apply update_entry_wf; [simpl; try lia|done]|].
  3: { destruct (sel_inner r !! t) as [e|] eqn:E; simpl; [|lia].
       destruct (Hr _ _ E). pose proof (Hb _ _ E); simpl in *. lia. }
  all: intros t' e; unfold record_success_with_latency, record_failure_with_kind, record_request;
    rewrite update_entry_lookup; case_decide; [intros [= <-]; simpl; lia|apply Hb].
Qed.

Lemma sel_before_mono now now' r : now <= now' -> sel_before now r -> sel_before now' r.
Proof. intros Hle Hb. eapply map_Forall_impl; [done|]. simpl. lia. Qed.

(** The instants of a trace are positive and do not go back. *)
Fixpoint clocked (now : Z) (tr : list (Z * sel_op)) : Prop :=
  match tr with
  | [] => True
  | (t, _) :: tr' => now <= t /\ clocked t tr'
  end.

Lemma sel_run_wf tr now r :
  0 < now -> clocked now tr -> sel_before now r -> sel_wf r -> sel_wf (sel_run tr r).
Proof.
  revert now r. induction tr as [|[t o] tr IH]; intros now r Hn Hc Hb Hr; [done|].
  destruct Hc as [Ht Hc]. simpl.
  destruct (sel_apply_wf t o r) as [H1 H2]; [lia|by eapply sel_before_mono|done|].
  eapply (IH t); [lia|done..].
Qed.

Lemma prune_drops_stale e now now' d w :
  0 < last_activity_ms e -> 0 <= last_success_ms e <= last_activity_ms e ->
  0 <= w -> sat_mul u64_max w 1000 <= d -> now <= now' ->
  prune_stale_keep (sat_sub now d) e = false ->
  sat_mul u64_max w 1000 < sat_sub now' (last_activity_ms e).
Proof.
  intros Ha Hs Hw Hd Hle Hk. unfold prune_stale_keep in Hk.
  assert (0 <= sat_mul u64_max w 1000) by (unfold sat_mul, u64_max; lia).
  revert Hk. zcase; simpl; try done; unfold sat_sub in *; lia.
Qed.

(** ** Properties *)

(** Pruning is invisible to the load balancer: in every registry reached
    under a monotonic clock, dropping the entries older than [max_age] changes
    none of the windowed readings, now or later, for any window of at most
    [max_age]. *)
Lemma prune_stale_invisible tr t0 now now' d w t :
  0 < t0 -> clocked t0 tr -> now <= now' -> 0 <= w -> sat_mul u64_max w 1000 <= d ->
  let r := sel_run tr sel_new in
  let r' := (sel_prune_stale d now r).1 in
  last_success_within t w now' r' = last_success_within t w now' r
  /\ last_activity_within t w now' r' = last_activity_within t w now' r
  /\ request_count_within t w now' r' = request_count_within t w now' r.
Proof.
  intros Ht Hc Hle Hw Hd r r'.
  assert (sel_wf r) as Hr.
  { eapply (sel_run_wf tr t0); [done..| |]; apply map_Forall_empty. }
  unfold last_success_within, last_activity_within, request_count_within.
  subst r'. simpl. rewrite map_lookup_filter.
  destruct (sel_inner r !! t) as [e|] eqn:E; simpl; [|done].
  case_guard as Hk; simpl; [done|]. apply not_true_is_false in Hk.
  destruct (Hr _ _ E) as [Ha Hs].
  pose proof (prune_drops_stale e now now' d w Ha Hs Hw Hd Hle Hk) as Hlt.
  unfold get_entry_request_count, resolve_entry_reference_ms.
  split_and!; zcase; simpl; try done; unfold sat_sub in *; lia.
Qed.

Lemma prune_stale_invisible_witness :
  let r := sel_run [(1, SSuccess 4 20); (9, SFailure 5 true)] sel_new in
  last_success_within 4 1 100 (sel_prune_stale 5000 50 r).1 = last_success_within 4 1 100 r.
Proof. apply (prune_stale_invisible _ 1 50 100 5000 1 4); zvm. Defined.

(** What the "last known good" reading means: after a success at [now]
    it is [now] exactly while the window lasts, and after a failure it is zero
    for every window, however recent the last success was; other targets'
    readings do not move. *)
Lemma last_success_reading t t' w lat k now now' r :
  0 < now -> 0 <= w ->
  last_success_within t w now' (record_success_with_latency t lat now r)
  = (if sat_sub now' now <=? sat_mul u64_max w 1000 then now else 0)
  /\ last_success_within t w now' (record_failure_with_kind t k now r) = 0
  /\ (t <> t' ->
      last_success_within t' w now' (record_success_with_latency t lat now r)
      = last_success_within t' w now' r
      /\ last_success_within t' w now' (record_failure_with_kind t k now r)
        = last_success_within t' w now' r).
Proof.
  intros Hn Hw. unfold last_success_within, record_success_with_latency, record_failure_with_kind.
  rewrite !update_entry_lookup, !decide_True by done. simpl. split_and!.
  - destruct (Z.ltb_spec 0 now); [done|lia].
  - done.
  - intros Hne. by rewrite !decide_False by done.
Qed.
