(* ===== verification/LoadBalancing.v ===== *)
(** * Load balancing

    Model of openproxy-pipeline/src/load_balancing.rs: the order in which the
    targets of a combo are tried.  The rand crate is an interface ([Rng]): the
    draws are the fields, what the crate documents of them is [RngOk].  The
    clock is read once per call ([now]). *)

From S2P Require Import Prelude Types SelectionRegistry.

(** ** The random number generator *)

(** [rng_range i n] is the [i]-th draw of the call, from [0..n]; [rng_f64] the
    draw of [random::<f64>()]; [rng_shuffle] is [SliceRandom::shuffle]. *)
Record Rng := mkRng {
  rng_range : nat -> Z -> Z;
  rng_f64 : f64;
  rng_shuffle : list ComboTarget -> list ComboTarget
}.

Class RngOk (g : Rng) : Prop := {
  rng_range_ok : forall i n, 0 < n -> 0 <= rng_range g i n < n;
  rng_shuffle_ok : forall l, rng_shuffle g l ≡ₚ l
}.

(** ** Operations *)

Definition DEFAULT_SELECTION_WINDOW_SECS : Z := 3600.
Definition DEFAULT_LKGP_EXPLORATION_RATE : f64 := f64_lit 1 10.

(** The round-robin counters, one per combo. *)
Definition execute_round_robin (targets : list ComboTarget) (combo_id : Z)
    (rr_counters : gmap Z Z) : list ComboTarget * gmap Z Z :=
  let n := length targets in
  if bool_decide (n = 0%nat) then (targets, rr_counters)
  else
    let val := default 0 (rr_counters !! combo_id) in
    let shift := Z.to_nat (val mod Z.of_nat n) in
    (rotate_left shift targets, <[combo_id := fetch_add val 1]> rr_counters).

Definition window_of (combo : Combo) : Z :=
  default DEFAULT_SELECTION_WINDOW_SECS (c_selection_window_secs combo).

(** [iter().enumerate().filter(p).map(|(i, _)| i)]. *)
Definition indices_where (p : ComboTarget -> bool) (targets : list ComboTarget) : list nat :=
  omap (fun it : nat * ComboTarget => if p it.2 then Some it.1 else None)
    (zip (seq 0 (length targets)) targets).

(** [v[rng.random_range(0..v.len())]]; the callers guarantee [v] non-empty. *)
Definition pick_from (g : Rng) (i : nat) (l : list nat) : nat :=
  nth (Z.to_nat (rng_range g i (Z.of_nat (length l)))) l 0%nat.

Definition sample_lkgp_exploration_target (targets : list ComboTarget) (window_secs now : Z)
    (registry : SelectionRegistry) (g : Rng) : nat :=
  let untried := indices_where
    (fun t => request_count_within (t_id t) window_secs now registry =? 0) targets in
  if negb (bool_decide (untried = [])) then pick_from g 0 untried
  else
    let cold := indices_where
      (fun t => last_success_within (t_id t) window_secs now registry =? 0) targets in
    if negb (bool_decide (cold = [])) then pick_from g 0 cold
    else Z.to_nat (rng_range g 0 (Z.of_nat (length targets))).

Definition compare_lkgp_targets (window_secs now : Z) (registry : SelectionRegistry)
    (a b : ComboTarget) : comparison :=
  let la := last_success_within (t_id a) window_secs now registry in
  let lb := last_success_within (t_id b) window_secs now registry in
  if negb (la =? lb) then Z.compare lb la
  else
    let fa := last_activity_within (t_id a) window_secs now registry in
    let fb := last_activity_within (t_id b) window_secs now registry in
    match 0 <? fa, 0 <? fb with
    | false, true => Lt
    | true, false => Gt
    | _, _ => Z.compare (t_priority_order a) (t_priority_order b)
    end.

Definition resolve_lkgp (targets : list ComboTarget) (combo : Combo) (now : Z)
    (registry : SelectionRegistry) (g : Rng) : list ComboTarget :=
  let exploration_rate :=
    f64_clamp (f64_of_Z 0) (f64_of_Z 1)
      (default DEFAULT_LKGP_EXPLORATION_RATE (c_lkgp_exploration_rate combo)) in
  let window_secs := window_of combo in
  if f64_ltb (f64_of_Z 0) exploration_rate && f64_ltb (rng_f64 g) exploration_rate
     && negb (bool_decide (targets = []))
  then rotate_prefix (sample_lkgp_exploration_target targets window_secs now registry g) targets
  else sort_by (compare_lkgp_targets window_secs now registry) targets.

Fixpoint pick_weighted_index_from (i : nat) (weights : list Z) (pick : Z) : nat :=
  match weights with
  | [] => 0%nat
  | w :: ws => if pick <? w then i else pick_weighted_index_from (S i) ws (pick - w)
  end.

Definition pick_weighted_index (weights : list Z) (pick : Z) : nat :=
  pick_weighted_index_from 0 weights pick.

Definition target_effective_weight (t : ComboTarget) : Z :=
  if t_weight t <=? 0 then 1 else t_weight t.

Definition sum_Z (l : list Z) : Z := foldr Z.add 0 l.

Definition resolve_weighted (targets : list ComboTarget) (g : Rng) : list ComboTarget :=
  if bool_decide (targets = []) then targets
  else
    let weights := map target_effective_weight targets in
    let total := sum_Z weights in
    if total =? 0 then targets
    else rotate_prefix (pick_weighted_index weights (rng_range g 0 total)) targets.

Definition compare_least_used (window_secs now : Z) (registry : SelectionRegistry)
    (a b : ComboTarget) : comparison :=
  cmp_then
    (Z.compare (request_count_within (t_id a) window_secs now registry)
               (request_count_within (t_id b) window_secs now registry))
    (Z.compare (t_priority_order a) (t_priority_order b)).

Definition resolve_least_used (targets : list ComboTarget) (window_secs now : Z)
    (registry : SelectionRegistry) : list ComboTarget :=
  sort_by (compare_least_used window_secs now registry) targets.

Definition count_at (targets : list ComboTarget) (i : nat) (window_secs now : Z)
    (registry : SelectionRegistry) : Z :=
  match targets !! i with
  | Some t => request_count_within (t_id t) window_secs now registry
  | None => 0
  end.

Definition p2c_pair (n : nat) (g : Rng) : nat * nat :=
  let i := Z.to_nat (rng_range g 0 (Z.of_nat n)) in
  let j := Z.to_nat (rng_range g 1 (Z.of_nat n)) in
  (i, if bool_decide (i = j) then ((j + 1) mod n)%nat else j).

Definition resolve_p2c (targets : list ComboTarget) (window_secs now : Z)
    (registry : SelectionRegistry) (g : Rng) : list ComboTarget :=
  if bool_decide (length targets < 2)%nat then targets
  else
    let '(i, j) := p2c_pair (length targets) g in
    let ci := count_at targets i window_secs now registry in
    let cj := count_at targets j window_secs now registry in
    rotate_prefix (if ci <=? cj then i else j) targets.

Definition execute_priority_strategy (targets : list ComboTarget) (combo : Combo) (now : Z)
    (registry : SelectionRegistry) (g : Rng) : list ComboTarget :=
  match c_priority_mode combo with
  | Strict | DecisionMode => targets
  | Lkgp => resolve_lkgp targets combo now registry g
  | Weighted => resolve_weighted targets g
  | LeastUsed => resolve_least_used targets (window_of combo) now registry
  | P2c => resolve_p2c targets (window_of combo) now registry g
  end.

Definition execute_load_balancing (targets : list ComboTarget) (combo : Combo)
    (rr_counters : gmap Z Z) (now : Z) (registry : SelectionRegistry) (g : Rng)
    : list ComboTarget * gmap Z Z :=
  if bool_decide (length targets <= 1)%nat then (targets, rr_counters)
  else match c_strategy combo with
       | RoundRobin => execute_round_robin targets (c_id combo) rr_counters
       | Shuffle => (rng_shuffle g targets, rr_counters)
       | Priority => (execute_priority_strategy targets combo now registry g, rr_counters)
       end.

(** [n] consecutive requests to a combo with a fixed target list. *)
Fixpoint balance_calls (n : nat) (targets : list ComboTarget) (combo : Combo)
    (rr_counters : gmap Z Z) (now : Z) (registry : SelectionRegistry) (g : Rng)
    : list (list ComboTarget) :=
  match n with
  | O => []
  | S n' =>
      let '(r, rr) := execute_load_balancing targets combo rr_counters now registry g in
      r :: balance_calls n' targets combo rr now registry g
  end.

(** ** Lemmas *)

(** [compare_lkgp_targets] is a lexicographic order: newest success first,
    then the targets with no recorded activity, then by priority. *)
Lemma compare_lkgp_spec w now reg a b :
  compare_lkgp_targets w now reg a b
  = cmp_then (Z.compare (last_success_within (t_id b) w now reg)
                        (last_success_within (t_id a) w now reg))
      (cmp_then (Z.compare (Z.b2z (0 <? last_activity_within (t_id a) w now reg))
                           (Z.b2z (0 <? last_activity_within (t_id b) w now reg)))
         (Z.compare (t_priority_order a) (t_priority_order b))).
Proof.
  unfold compare_lkgp_targets, cmp_then.
  destruct (Z.eqb_spec (last_success_within (t_id a) w now reg)
              (last_success_within (t_id b) w now reg)) as [->|Hne]; simpl.
  - rewrite Z.compare_refl.
    by destruct (0 <? last_activity_within (t_id a) w now reg),
      (0 <? last_activity_within (t_id b) w now reg).
  - destruct (Z.compare_spec (last_success_within (t_id b) w now reg)
                (last_success_within (t_id a) w now reg)); [congruence|done..].
Qed.

(** Lexicographic composition of two total preorders given by keys. *)
Lemma cmp_then_not_gt (x y : Z) c :
  cmp_then (x ?= y) c <> Gt <-> x < y \/ (x = y /\ c <> Gt).
Proof. unfold cmp_then. destruct (Z.compare_spec x y); naive_solver lia. Qed.

Lemma cmp_then_antisym (x y : Z) c c' :
  c' = CompOpp c -> cmp_then (y ?= x) c' = CompOpp (cmp_then (x ?= y) c).
Proof. intros ->. rewrite (Z.compare_antisym x y). by destruct (x ?= y). Qed.

#[export] Instance compare_lkgp_total w now reg : TotalPreorder (compare_lkgp_targets w now reg).
Proof.
  split.
  - intros x y. rewrite !compare_lkgp_spec.
    apply cmp_then_antisym, cmp_then_antisym, Z.compare_antisym.
  - intros x y z. rewrite !compare_lkgp_spec, !cmp_then_not_gt, !Z.compare_le_iff. lia.
Qed.

#[export] Instance compare_least_used_total w now reg : TotalPreorder (compare_least_used w now reg).
Proof.
  split; unfold compare_least_used.
  - intros x y. apply cmp_then_antisym, Z.compare_antisym.
  - intros x y z. rewrite !cmp_then_not_gt, !Z.compare_le_iff. lia.
Qed.

Lemma execute_priority_perm targets combo now reg g :
  execute_priority_strategy targets combo now reg g ≡ₚ targets.
Proof.
  unfold execute_priority_strategy, resolve_lkgp, resolve_weighted, resolve_least_used, resolve_p2c.
  repeat case_match; auto with openproxy.
Qed.

Lemma balance_counter targets combo rr now reg g :
  (2 <= length targets)%nat -> c_strategy combo = RoundRobin ->
  execute_load_balancing targets combo rr now reg g
  = (rotate_left (Z.to_nat (default 0 (rr !! c_id combo) mod Z.of_nat (length targets))) targets,
     <[c_id combo := fetch_add (default 0 (rr !! c_id combo)) 1]> rr).
Proof.
  intros Hlen Hs. unfold execute_load_balancing, execute_round_robin. rewrite Hs.
  rewrite !bool_decide_false by lia. done.
Qed.

Lemma rotate_left_head {A} (l : list A) k :
  (k < length l)%nat -> head (rotate_left k l) = l !! k.
Proof.
  intros Hk. unfold rotate_left. destruct (lookup_lt_is_Some_2 l k Hk) as [x Hx].
  rewrite (drop_S l x k Hx). by rewrite Hx.
Qed.

Lemma balance_calls_heads n targets combo rr now reg g v :
  (2 <= length targets)%nat -> c_strategy combo = RoundRobin ->
  default 0 (rr !! c_id combo) = v -> 0 <= v -> v + Z.of_nat n <= u64_max + 1 ->
  map head (balance_calls n targets combo rr now reg g)
  = map (fun i => targets !! Z.to_nat ((v + Z.of_nat i) mod Z.of_nat (length targets))) (seq 0 n).
Proof.
  intros Hlen Hs. revert rr v. induction n as [|n IH]; intros rr v Hv H0 Hn; [done|].
  cbn [balance_calls]. rewrite balance_counter by done. cbn [map seq]. f_equal.
  - rewrite Hv, Z.add_0_r. apply rotate_left_head.
    pose proof (Z.mod_pos_bound v (Z.of_nat (length targets))). lia.
  - destruct (decide (n = 0%nat)) as [->|Hn0]; [done|].
    rewrite (IH _ (v + 1)).
    + rewrite <- seq_shift, map_map. apply map_ext. intros i. do 3 f_equal. lia.
    + rewrite lookup_insert_eq. simpl. rewrite Hv. unfold fetch_add, wrap_add.
      rewrite Z.mod_small; [done|]. lia.
    + lia.
    + lia.
Qed.

Lemma rotate_left_lookup {A} (l : list A) (k i : nat) :
  (k < length l)%nat -> (i < length l)%nat ->
  rotate_left k l !! i = l !! ((k + i) mod length l)%nat.
Proof.
  intros Hk Hi. unfold rotate_left.
  destruct (decide (k + i < length l)%nat) as [Hlt|Hge].
  - rewrite lookup_app_l by (rewrite length_drop; lia).
    rewrite lookup_drop. by rewrite Nat.mod_small.
  - rewrite lookup_app_r by (rewrite length_drop; lia).
    rewrite length_drop, lookup_take_lt by lia. f_equal.
    replace (k + i)%nat with (k + i - length l + 1 * length l)%nat by lia.
    rewrite Nat.Div0.mod_add, Nat.mod_small; lia.
Qed.

Lemma heads_rotate (l : list ComboTarget) (v : Z) :
  l <> [] -> 0 <= v ->
  map (fun i => l !! Z.to_nat ((v + Z.of_nat i) mod Z.of_nat (length l))) (seq 0 (length l))
  = Some <$> rotate_left (Z.to_nat (v mod Z.of_nat (length l))) l.
Proof.
  intros Hne Hv. assert (0 < length l)%nat as Hpos by (destruct l; [done|simpl; lia]).
  assert (length (rotate_left (Z.to_nat (v mod Z.of_nat (length l))) l) = length l) as Hlen
    by by rewrite rotate_left_perm.
  apply list_eq. intros i. rewrite (list_lookup_fmap Some).
  destruct (decide (i < length l)%nat) as [Hi|Hi].
  - rewrite rotate_left_lookup; [| |done].
    2: { pose proof (Z.mod_pos_bound v (Z.of_nat (length l))). lia. }
    change (map ?f ?l) with (f <$> l). rewrite list_lookup_fmap, lookup_seq_lt by done. simpl.
    assert (Z.to_nat ((v + Z.of_nat i) mod Z.of_nat (length l))
            = ((Z.to_nat (v mod Z.of_nat (length l)) + i) mod length l)%nat) as <-.
    { rewrite <- (Z.add_mod_idemp_l v) by lia.
      pose proof (Z.mod_pos_bound v (Z.of_nat (length l)) ltac:(lia)).
      rewrite <- (Nat2Z.id (_ mod _)%nat), Nat2Z.inj_mod, Nat2Z.inj_add, Z2Nat.id by lia. done. }
    set (j := Z.to_nat _). assert (j < length l)%nat as Hj.
    { subst j. pose proof (Z.mod_pos_bound (v + Z.of_nat i) (Z.of_nat (length l))). lia. }
    destruct (lookup_lt_is_Some_2 l j Hj) as [x Hx]. by rewrite Hx.
  - rewrite (lookup_ge_None_2 (rotate_left _ _)) by (rewrite Hlen; lia). simpl.
    apply lookup_ge_None_2. rewrite length_map, length_seq. lia.
Qed.

Lemma pick_weighted_interval k ws p :
  Forall (fun w => 0 <= w) ws -> 0 <= p < sum_Z ws ->
  exists i, pick_weighted_index_from k ws p = (k + i)%nat /\ (i < length ws)%nat
    /\ sum_Z (take i ws) <= p < sum_Z (take (S i) ws).
Proof.
  revert k p. induction ws as [|w ws IH]; intros k p Hall Hp; simpl in *; [lia|].
  apply Forall_cons_1 in Hall as [Hw Hall].
  destruct (Z.ltb_spec p w).
  - exists 0%nat. rewrite take_0. simpl. split_and!; lia.
  - destruct (IH (S k) (p - w) Hall) as (i & H1 & H2 & H3); [lia|].
    exists (S i). rewrite H1. simpl in *. split_and!; try lia.
Qed.

Lemma sum_take_mono ws i j :
  Forall (fun w => 0 <= w) ws -> (i <= j)%nat -> sum_Z (take i ws) <= sum_Z (take j ws).
Proof.
  intros Hall. revert i j. induction Hall as [|w ws Hw Hall IH]; intros i j Hij.
  { by rewrite !take_nil. }
  destruct i, j; simpl; try lia.
  - specialize (IH 0%nat j ltac:(lia)). rewrite take_0 in IH. simpl in IH. lia.
  - specialize (IH i j ltac:(lia)). lia.
Qed.

Lemma indices_where_spec p targets i :
  i ∈ indices_where p targets -> exists t, targets !! i = Some t /\ p t = true.
Proof.
  unfold indices_where. rewrite list_elem_of_omap. intros ([j t] & Hin & Hp). simpl in Hp.
  destruct (p t) eqn:E; simplify_eq. exists t. split; [|done].
  apply list_elem_of_lookup in Hin as [n Hn].
  rewrite lookup_zip_with in Hn.
  destruct (seq 0 (length targets) !! n) eqn:E1; simpl in Hn; [|done].
  destruct (targets !! n) eqn:E2; simpl in Hn; [|done]. simplify_eq.
  apply lookup_seq in E1 as [-> _]. done.
Qed.

Lemma pick_from_in g n l : RngOk g -> l <> [] -> pick_from g n l ∈ l.
Proof.
  intros Hg Hl. unfold pick_from.
  assert (0 < length l)%nat by (destruct l; [done|simpl; lia]).
  pose proof (rng_range_ok n (Z.of_nat (length l)) ltac:(lia)).
  apply list_elem_of_In, nth_In. lia.
Qed.

Lemma weights_nonneg targets :
  Forall (fun w => 0 < w) (map target_effective_weight targets).
Proof.
  apply Forall_map. apply Forall_true. intros t. unfold target_effective_weight. zcase; lia.
Qed.

Lemma head_sorted {A} (R : A -> A -> Prop) (l : list A) x h :
  StronglySorted R l -> head l = Some h -> x ∈ l -> x = h \/ R h x.
Proof.
  intros Hs Hh Hx. destruct l as [|y l]; [done|]. simplify_eq/=.
  apply StronglySorted_inv in Hs as [_ Hall]. apply elem_of_cons in Hx as [->|Hx]; [by left|].
  right. by eapply Forall_forall in Hall.
Qed.

(** A generator that always draws the least value. *)
Definition fixed_rng : Rng := mkRng (fun _ _ => 0) (f64_of_Z 0) (fun l => l).

#[export] Instance fixed_rng_ok : RngOk fixed_rng.
Proof. split; simpl; [lia|done]. Qed.

Definition two_targets : list ComboTarget :=
  [default_target; mkTarget 9 0 "p" (Some 3) (Some 4) None 1 5 true ScopeModel
     None None None None None None None None None].

(** ** Properties *)

(** Whatever the strategy, the random draws and the registry, load
    balancing only reorders: every target is tried exactly as often as it is
    listed. *)
Lemma load_balancing_permutes targets combo rr now reg g :
  RngOk g -> (execute_load_balancing targets combo rr now reg g).1 ≡ₚ targets.
Proof.
  intros Hg. unfold execute_load_balancing, execute_round_robin.
  case_bool_decide; [done|]. destruct (c_strategy combo); simpl.
  - apply execute_priority_perm.
  - case_bool_decide; simpl; auto with openproxy.
  - apply rng_shuffle_ok.
Qed.

Lemma load_balancing_permutes_witness :
  (execute_load_balancing two_targets default_combo ∅ 1 sel_new fixed_rng).1 ≡ₚ two_targets.
Proof. apply load_balancing_permutes, fixed_rng_ok. Defined.

(** Round robin is fair: over as many consecutive requests as there are
    targets, each target comes first exactly once, in list order from where
    the counter stood (as long as the 64-bit counter does not wrap). *)
Lemma round_robin_fair targets combo rr now reg g :
  (2 <= length targets)%nat -> c_strategy combo = RoundRobin ->
  let v := default 0 (rr !! c_id combo) in
  0 <= v -> v + Z.of_nat (length targets) <= u64_max + 1 ->
  map head (balance_calls (length targets) targets combo rr now reg g)
  = Some <$> rotate_left (Z.to_nat (v mod Z.of_nat (length targets))) targets.
Proof.
  intros Hlen Hs v Hv Hmax. rewrite (balance_calls_heads _ _ _ _ _ _ _ v) by done.
  apply heads_rotate; [destruct targets; simpl in *; [lia|done]|done].
Qed.

Lemma round_robin_fair_witness :
  let combo := mkCombo 3 "" RoundRobin 1 false "" None None Strict CooldownFlat
                 None None None None None None None None None None in
  map head (balance_calls 2 two_targets combo (<[3 := 7]> ∅) 1 sel_new fixed_rng)
  = Some <$> rotate_left 1 two_targets.
Proof.
  intros combo. etransitivity.
  - apply (round_robin_fair two_targets combo (<[3 := 7]> ∅) 1 sel_new fixed_rng);
      [simpl; lia|reflexivity|zvm|zvm].
  - vm_compute. reflexivity.
Defined.

(** The weighted choice is proportional: the [i]-th target comes first
    exactly for the draws in the interval that starts at the sum of the
    earlier effective weights and is as long as its own (non-positive weights
    count as 1). *)
Lemma weighted_choice_proportional targets g i t :
  RngOk g -> targets !! i = Some t ->
  let ws := map target_effective_weight targets in
  let draw := rng_range g 0 (sum_Z ws) in
  sum_Z (take i ws) <= draw < sum_Z (take i ws) + target_effective_weight t ->
  resolve_weighted targets g = t :: take i targets ++ drop (S i) targets.
Proof.
  intros Hg Hi ws draw Hd.
  pose proof (weights_nonneg targets) as Hpos.
  assert (Forall (fun w => 0 <= w) ws) as Hall by (eapply Forall_impl; [done|simpl; lia]).
  assert (ws !! i = Some (target_effective_weight t)) as Hwi.
  { unfold ws. change (map ?f ?l) with (f <$> l). by rewrite list_lookup_fmap, Hi. }
  assert (sum_Z (take (S i) ws) = sum_Z (take i ws) + target_effective_weight t) as HS.
  { rewrite (take_S_r ws i _ Hwi). unfold sum_Z. rewrite foldr_app. simpl.
    clear. induction (take i ws); simpl; lia. }
  assert (0 <= sum_Z (take i ws)) as H0.
  { pose proof (sum_take_mono ws 0 i Hall ltac:(lia)) as Hm. by rewrite take_0 in Hm. }
  assert (sum_Z (take (S i) ws) <= sum_Z ws) as Htot.
  { rewrite <- (take_ge ws (length ws + S i)) at 2 by lia. apply sum_take_mono; [done|lia]. }
  unfold resolve_weighted. rewrite bool_decide_false by (by intros ->).
  change (map target_effective_weight targets) with ws.
  destruct (Z.eqb_spec (sum_Z ws) 0) as [Hz|_]; [lia|].
  destruct (pick_weighted_interval 0 ws draw Hall) as (j & Hj & Hlt & Hint); [lia|].
  unfold pick_weighted_index. fold draw. rewrite Hj. simpl.
  assert (j = i) as ->.
  { destruct (Nat.lt_trichotomy j i) as [Hl|[He|Hl]]; [|done|].
    - pose proof (sum_take_mono ws (S j) i Hall ltac:(lia)). lia.
    - pose proof (sum_take_mono ws (S i) j Hall ltac:(lia)). lia. }
  unfold rotate_prefix. by rewrite Hi.
Qed.

Lemma weighted_choice_proportional_witness :
  resolve_weighted two_targets fixed_rng = two_targets.
Proof.
  apply (weighted_choice_proportional two_targets fixed_rng 0 default_target);
    [apply fixed_rng_ok|reflexivity|zvm].
Defined.

(** Last-known-good-provider: unless the exploration draw fires, the
    targets come out sorted by newest success, untried before failed, then by
    priority, stably; in particular no target has a newer success than the
    first one. *)
Lemma lkgp_exploits_newest_success targets combo now reg g :
  f64_ltb (rng_f64 g)
    (f64_clamp (f64_of_Z 0) (f64_of_Z 1)
       (default DEFAULT_LKGP_EXPLORATION_RATE (c_lkgp_exploration_rate combo))) = false ->
  let w := window_of combo in
  let out := resolve_lkgp targets combo now reg g in
  out ≡ₚ targets
  /\ StronglySorted (fun a b => compare_lkgp_targets w now reg a b <> Gt) out
  /\ (forall z, filter (fun y => compare_lkgp_targets w now reg z y = Eq) out
                = filter (fun y => compare_lkgp_targets w now reg z y = Eq) targets)
  /\ (forall h t, head out = Some h -> t ∈ targets ->
        last_success_within (t_id t) w now reg <= last_success_within (t_id h) w now reg).
Proof.
  intros Hrate w out.
  assert (out = sort_by (compare_lkgp_targets w now reg) targets) as Hout.
  { unfold out, resolve_lkgp. by rewrite Hrate, andb_false_r. }
  rewrite Hout. split_and!.
  - apply sort_by_perm.
  - apply sort_by_sorted, _.
  - intros z. apply sort_by_stable, _.
  - intros h t Hh Ht.
    destruct (head_sorted _ _ t h (sort_by_sorted (compare_lkgp_targets w now reg) targets))
      as [->|Hle]; [done|by rewrite sort_by_perm|lia|].
    rewrite compare_lkgp_spec, cmp_then_not_gt in Hle. lia.
Qed.

Lemma lkgp_exploits_newest_success_witness :
  let combo := mkCombo 3 "" Priority 1 false "" None None Lkgp CooldownFlat
                 None None None (Some (f64_of_Z 0)) None None None None None None in
  resolve_lkgp two_targets combo 10 (sel_record_success 9 5 sel_new) fixed_rng ≡ₚ two_targets.
Proof. intros combo. apply lkgp_exploits_newest_success. vm_compute. reflexivity. Defined.

(** Least-used sorts by recent request count, then by priority, and
    power-of-two-choices puts first the less used of two distinct targets;
    both leave the other targets in order. *)
Lemma usage_modes_prefer_less_used targets w now reg g :
  RngOk g -> (2 <= length targets)%nat ->
  (StronglySorted (fun a b => compare_least_used w now reg a b <> Gt)
     (resolve_least_used targets w now reg)
   /\ resolve_least_used targets w now reg ≡ₚ targets)
  /\ exists i j ti tj, i <> j /\ targets !! i = Some ti /\ targets !! j = Some tj
       /\ request_count_within (t_id ti) w now reg <= request_count_within (t_id tj) w now reg
       /\ resolve_p2c targets w now reg g = ti :: take i targets ++ drop (S i) targets.
Proof.
  intros Hg Hlen. split; [split; [apply sort_by_sorted, _|apply sort_by_perm]|].
  unfold resolve_p2c. rewrite bool_decide_false by lia.
  destruct (p2c_pair (length targets) g) as [i j] eqn:Hp.
  unfold p2c_pair in Hp.
  pose proof (rng_range_ok 0 (Z.of_nat (length targets)) ltac:(lia)) as H0.
  pose proof (rng_range_ok 1 (Z.of_nat (length targets)) ltac:(lia)) as H1.
  assert (i <> j /\ (i < length targets)%nat /\ (j < length targets)%nat) as (Hij & Hi & Hj).
  { simplify_eq/=. case_bool_decide as Hc; [|lia].
    pose proof (Nat.mod_upper_bound (Z.to_nat (rng_range g 1 (Z.of_nat (length targets))) + 1)
      (length targets) ltac:(lia)).
    split_and!; [|lia..]. rewrite Hc.
    set (k := Z.to_nat (rng_range g 1 (Z.of_nat (length targets)))) in *.
    destruct (decide (k + 1 < length targets)%nat) as [Hl|Hl]; [rewrite Nat.mod_small by lia; lia|].
    assert (k + 1 = length targets)%nat as Hk by lia. rewrite Hk, Nat.Div0.mod_same. lia. }
  destruct (lookup_lt_is_Some_2 _ _ Hi) as [ti Hti], (lookup_lt_is_Some_2 _ _ Hj) as [tj Htj].
  unfold count_at. rewrite Hti, Htj. unfold rotate_prefix.
  destruct (Z.leb_spec (request_count_within (t_id ti) w now reg)
              (request_count_within (t_id tj) w now reg)).
  - exists i, j, ti, tj. by rewrite Hti.
  - exists j, i, tj, ti. rewrite Htj. split_and!; done || lia.
Qed.

Lemma usage_modes_prefer_less_used_witness :
  resolve_least_used two_targets 60 10 (sel_record_success 9 5 sel_new) ≡ₚ two_targets.
Proof.
  apply (usage_modes_prefer_less_used two_targets 60 10 (sel_record_success 9 5 sel_new) fixed_rng);
    [apply fixed_rng_ok|simpl; lia].
Defined.
