(* ===== verification/RateLimit.v ===== *)
(** * Request rate and concurrency limits

    Model of openproxy-core/src/rate_limit.rs: the per-key request window
    ([SlidingWindowRateLimiter]) with its memory bound, and the cap on
    concurrently running requests per key ([InFlightLimiter]).

    Instants and durations are nanoseconds.  [DashMap::iter] visits the
    entries in an unspecified order: it is an interface ([DashIter]). *)

From S2P Require Import Prelude.

(** ** Data *)

Inductive IpAddr := V4 (a : Z) | V6 (a : Z).

Inductive RateLimitKey := RKey (id : Z) | RIp (ip : IpAddr).

#[export] Instance IpAddr_eq_dec : EqDecision IpAddr.
Proof. solve_decision. Defined.
#[export] Instance RateLimitKey_eq_dec : EqDecision RateLimitKey.
Proof. solve_decision. Defined.

#[export] Instance RateLimitKey_countable : Countable RateLimitKey.
Proof.
  refine (inj_countable'
    (fun k => match k with RKey i => inl i | RIp (V4 a) => inr (inl a) | RIp (V6 a) => inr (inr a) end)
    (fun s => match s with inl i => RKey i | inr (inl a) => RIp (V4 a) | inr (inr a) => RIp (V6 a) end) _).
  by intros [|[]].
Defined.

Record RateLimitConfig := mkRlConfig {
  max_requests : Z;
  window : Z;
  max_capacity : nat
}.

(** [count] and [window_start] per key. *)
Abbreviation rl_windows := (gmap RateLimitKey (Z * Z)).

Class DashIter := {
  dash_iter : rl_windows -> list (RateLimitKey * (Z * Z));
  dash_iter_perm : forall m, dash_iter m ≡ₚ map_to_list m
}.

(** ** The window limiter *)

Section window_limiter.
Context `{DashIter} (cfg : RateLimitConfig).

(** [sort_unstable_by_key(|a| a.0)], then [take(n)], then [remove] each. *)
Definition remove_first (n : nat) (l : list (Z * RateLimitKey)) (m : rl_windows) : rl_windows :=
  foldr (fun e m => delete e.2 m) m (take n (sort_by (fun a b => Z.compare a.1 b.1) l)).

Definition evict_lowest_count_windows (n : nat) (m : rl_windows) : rl_windows :=
  let lowest := map (fun e : RateLimitKey * (Z * Z) => (e.2.1, e.1))
    (filter (fun e => e.2.1 < max_requests cfg) (dash_iter m)) in
  remove_first n lowest m.

Definition evict_oldest_throttled_windows (n : nat) (now : Z) (m : rl_windows) : rl_windows :=
  let oldest := map (fun e : RateLimitKey * (Z * Z) => (sat_sub now e.2.2, e.1)) (dash_iter m) in
  remove_first n oldest m.

Definition cleanup (now : Z) (m : rl_windows) : rl_windows :=
  filter (fun e => sat_sub now e.2.2 < window cfg) m.

(** The overflow branch of [check]: make room for one more key. *)
Definition make_room (now : Z) (m : rl_windows) : rl_windows :=
  if bool_decide (max_capacity cfg <= size m)%nat then
    let m := cleanup now m in
    if bool_decide (max_capacity cfg <= size m)%nat then
      let m := evict_lowest_count_windows (Z.to_nat 10000) m in
      if bool_decide (max_capacity cfg <= size m)%nat
      then evict_oldest_throttled_windows (Z.to_nat 1000) now m
      else m
    else m
  else m.

Definition rl_check (key : RateLimitKey) (now : Z) (m : rl_windows) : rl_windows * bool :=
  match m !! key with
  | Some (count, start) =>
      if window cfg <=? sat_sub now start then (<[key := (1, now)]> m, true)
      else if count <? max_requests cfg then (<[key := (count + 1, start)]> m, true)
      else (m, false)
  | None => (<[key := (1, now)]> (make_room now m), true)
  end.

(** A sequence of requests, each at its instant, with the verdicts. *)
Fixpoint rl_run (tr : list (Z * RateLimitKey)) (m : rl_windows) : rl_windows * list bool :=
  match tr with
  | [] => (m, [])
  | (now, k) :: tr' =>
      let '(m1, b) := rl_check k now m in
      let '(m2, bs) := rl_run tr' m1 in (m2, b :: bs)
  end.

(** ** Lemmas *)

(** The keys removed by [remove_first]. *)
Definition victims (n : nat) (l : list (Z * RateLimitKey)) : list RateLimitKey :=
  (take n (sort_by (fun a b => Z.compare a.1 b.1) l)).*2.

Lemma remove_first_lookup n l m k :
  remove_first n l m !! k = if bool_decide (k ∈ victims n l) then None else m !! k.
Proof.
  unfold remove_first, victims.
  generalize (take n (sort_by (fun a b => Z.compare a.1 b.1) l)).
  intros es. induction es as [|[c k'] es IH].
  { rewrite bool_decide_false; [done|]. set_solver. }
  cbn [foldr]. rewrite lookup_delete, fmap_cons. cbn [snd].
  destruct (decide (k' = k)) as [->|Hne].
  - rewrite bool_decide_true; [done|]. set_solver.
  - rewrite IH. destruct (decide (k ∈ es.*2)).
    + rewrite !bool_decide_true; [done|set_solver..].
    + rewrite !bool_decide_false; [done|set_solver..].
Qed.

Lemma remove_first_subseteq n l m : remove_first n l m ⊆ m.
Proof.
  apply map_subseteq_spec. intros k x. rewrite remove_first_lookup. by case_bool_decide.
Qed.

Lemma elem_of_dash_iter m k v : (k, v) ∈ dash_iter m <-> m !! k = Some v.
Proof. rewrite dash_iter_perm. apply elem_of_map_to_list. Qed.

Lemma victims_in n l k : k ∈ victims n l -> exists c, (c, k) ∈ l.
Proof.
  intros ((c & k') & -> & Hin)%list_elem_of_fmap. exists c.
  rewrite <- (sort_by_perm (fun a b : Z * RateLimitKey => Z.compare a.1 b.1) l).
  apply elem_of_take in Hin as (i & Hi & _). by eapply list_elem_of_lookup_2.
Qed.

Lemma victims_nonempty n l : (0 < n)%nat -> l <> [] -> exists k, k ∈ victims n l.
Proof.
  intros Hn Hl. unfold victims.
  pose proof (sort_by_perm (fun a b : Z * RateLimitKey => Z.compare a.1 b.1) l) as Hp.
  destruct (sort_by _ l) as [|[c k] es]; [by apply Permutation_nil_l in Hp|].
  exists k. destruct n; [lia|]. simpl. set_solver.
Qed.

(** The removed entries have the smallest sort keys. *)
Lemma victims_smallest n l c c' k k' :
  NoDup (l.*2) -> (c, k) ∈ l -> (c', k') ∈ l -> k ∈ victims n l -> k' ∉ victims n l -> c <= c'.
Proof.
  intros Hnd Hk Hk' Hin Hout. unfold victims in *.
  set (cmp := fun a b : Z * RateLimitKey => Z.compare a.1 b.1) in *.
  assert (TotalPreorder cmp) as Htp.
  { split; unfold cmp; [intros; apply Z.compare_antisym|].
    intros x y z. rewrite !Z.compare_le_iff. lia. }
  pose proof (sort_by_perm cmp l) as Hp. pose proof (sort_by_sorted cmp l) as Hs.
  rewrite <- (take_drop n (sort_by cmp l)) in Hp, Hs.
  assert (NoDup ((take n (sort_by cmp l) ++ drop n (sort_by cmp l)).*2)) as Hnd' by by rewrite Hp.
  rewrite fmap_app in Hnd'. apply NoDup_app in Hnd' as (_ & Hdis & _).
  rewrite <- Hp in Hk, Hk'. apply elem_of_app in Hk as [Hk|Hk].
  2: { exfalso. eapply Hdis; [done|]. by apply (list_elem_of_fmap_2 snd) in Hk. }
  apply elem_of_app in Hk' as [Hk'|Hk'].
  { exfalso. apply Hout. by apply (list_elem_of_fmap_2 snd) in Hk'. }
  pose proof (StronglySorted_app_1_elem_of _ _ _ _ _ Hs Hk Hk') as Hle.
  unfold cmp in Hle; simpl in Hle. by rewrite Z.compare_le_iff in Hle.
Qed.

Definition throttled (v : Z * Z) : Prop := max_requests cfg <= v.1.

#[global] Instance throttled_dec v : Decision (throttled v).
Proof. unfold throttled. apply _. Defined.

Lemma evict_lowest_keeps n m k v :
  m !! k = Some v -> throttled v -> evict_lowest_count_windows n m !! k = Some v.
Proof.
  intros Hk Hv. unfold evict_lowest_count_windows. rewrite remove_first_lookup.
  case_bool_decide as Hin; [|done]. exfalso. apply victims_in in Hin as [c Hin].
  apply list_elem_of_fmap in Hin as ([k' v'] & Heq & Hin). simplify_eq/=.
  apply list_elem_of_filter in Hin as [Hlt Hin]. apply elem_of_dash_iter in Hin.
  simplify_eq. unfold throttled in Hv. simpl in *. lia.
Qed.

Lemma size_strict (m m' : rl_windows) k :
  m' ⊆ m -> is_Some (m !! k) -> m' !! k = None -> (size m' < size m)%nat.
Proof.
  intros Hsub [x Hk] Hk'. apply map_subset_size. split; [done|]. intros Hsub'.
  eapply map_subseteq_spec in Hsub'; [|done]. congruence.
Qed.

Lemma victims_size n l m :
  (0 < n)%nat -> l <> [] -> (forall c k, (c, k) ∈ l -> is_Some (m !! k)) ->
  (size (remove_first n l m) < size m)%nat.
Proof.
  intros Hn Hl Hin. destruct (victims_nonempty n l Hn Hl) as [k Hk].
  destruct (victims_in _ _ _ Hk) as [c Hc].
  apply (size_strict m _ k); [apply remove_first_subseteq|by eapply Hin|].
  rewrite remove_first_lookup. by rewrite bool_decide_true.
Qed.

Lemma evict_lowest_size n m k v :
  (0 < n)%nat -> m !! k = Some v -> ~ throttled v ->
  (size (evict_lowest_count_windows n m) < size m)%nat.
Proof.
  intros Hn Hk Hv. apply victims_size; [done| |].
  - intros Hnil. assert ((v.1, k) ∈ (nil : list (Z * RateLimitKey))) as Hbad; [|by inversion Hbad].
    rewrite <- Hnil. apply list_elem_of_fmap. exists (k, v). split; [done|].
    apply list_elem_of_filter. split; [unfold throttled in Hv; simpl; lia|by apply elem_of_dash_iter].
  - intros c k' Hin. apply list_elem_of_fmap in Hin as ([k'' v'] & Heq & Hin). simplify_eq/=.
    apply list_elem_of_filter in Hin as [_ Hin]. apply elem_of_dash_iter in Hin. eauto.
Qed.

Lemma evict_oldest_size n now m :
  (0 < n)%nat -> (0 < size m)%nat -> (size (evict_oldest_throttled_windows n now m) < size m)%nat.
Proof.
  intros Hn Hm. apply victims_size; [done| |].
  - intros Hnil. apply fmap_nil_inv in Hnil. pose proof (dash_iter_perm m) as Hp.
    rewrite Hnil in Hp. apply Permutation_nil_l in Hp. symmetry in Hp.
    apply map_to_list_empty_iff in Hp. subst.
    rewrite map_size_empty in Hm. lia.
  - intros c k Hin. apply list_elem_of_fmap in Hin as ([k' v'] & Heq & Hin). simplify_eq/=.
    apply elem_of_dash_iter in Hin. eauto.
Qed.

Lemma cleanup_subseteq now m : cleanup now m ⊆ m.
Proof. apply map_filter_subseteq. Qed.

Lemma make_room_subseteq now m : make_room now m ⊆ m.
Proof.
  unfold make_room, evict_lowest_count_windows, evict_oldest_throttled_windows.
  repeat case_bool_decide; try done;
    repeat (etrans; [apply remove_first_subseteq|]); apply cleanup_subseteq.
Qed.

Lemma make_room_size now m :
  (1 <= max_capacity cfg)%nat -> (size m <= max_capacity cfg)%nat ->
  (size (make_room now m) < max_capacity cfg)%nat.
Proof.
  intros Hcap Hm. unfold make_room. case_bool_decide; [|lia]. case_bool_decide as Hc; [|lia].
  case_bool_decide as He; [|lia].
  pose proof (map_subseteq_size _ _ (cleanup_subseteq now m)).
  pose proof (map_subseteq_size _ _
    (remove_first_subseteq (Z.to_nat 10000) (map (fun e : RateLimitKey * (Z * Z) => (e.2.1, e.1))
      (filter (fun e => e.2.1 < max_requests cfg) (dash_iter (cleanup now m)))) (cleanup now m))) as Hs.
  fold (evict_lowest_count_windows (Z.to_nat 10000) (cleanup now m)) in Hs.
  eapply Nat.lt_le_trans; [apply evict_oldest_size; [lia|]|]; lia.
Qed.

Lemma rl_check_size k now m :
  (1 <= max_capacity cfg)%nat -> (size m <= max_capacity cfg)%nat ->
  (size (rl_check k now m).1 <= max_capacity cfg)%nat.
Proof.
  intros Hcap Hm. unfold rl_check. destruct (m !! k) as [[c s]|] eqn:E.
  - repeat case_match; simpl; rewrite ?map_size_insert, ?E; simpl; lia.
  - simpl. pose proof (make_room_size now m Hcap Hm). rewrite map_size_insert.
    destruct (make_room now m !! k); simpl; lia.
Qed.

(** Entries that back a throttle survive making room for another key, unless
    the map is full of them. *)
Lemma make_room_keeps now m k c s :
  (size m <= max_capacity cfg)%nat -> m !! k = Some (c, s) -> max_requests cfg <= c ->
  sat_sub now s < window cfg ->
  (size (filter (fun e => throttled e.2) m) < max_capacity cfg)%nat ->
  make_room now m !! k = Some (c, s).
Proof.
  intros Hm Hk Hc Hw Ht. unfold make_room. case_bool_decide; [|done].
  assert (cleanup now m !! k = Some (c, s)) as Hk1.
  { apply map_lookup_filter_Some. by split. }
  case_bool_decide as Hc1; [|done].
  assert (exists k' v', cleanup now m !! k' = Some v' /\ ~ throttled v') as (k' & v' & Hk' & Hv').
  { destruct (decide (map_Forall (fun _ v => throttled v) (cleanup now m))) as [Hall|Hne].
    - exfalso. assert (cleanup now m ⊆ filter (fun e => throttled e.2) m) as Hsub.
      { apply map_subseteq_spec. intros k' v' Hk'. apply map_lookup_filter_Some.
        split; [|by eapply Hall]. by apply map_lookup_filter_Some in Hk' as [? _]. }
      apply map_subseteq_size in Hsub. lia.
    - apply map_not_Forall in Hne as (k' & v' & ? & ?); [|apply _]. eauto. }
  pose proof (evict_lowest_size (Z.to_nat 10000) _ _ _ ltac:(lia) Hk' Hv').
  pose proof (map_subseteq_size _ _ (cleanup_subseteq now m)).
  rewrite bool_decide_false by lia. by apply evict_lowest_keeps.
Qed.

Lemma flood_step now m k k' c s :
  2 <= max_requests cfg -> (1 <= max_capacity cfg)%nat ->
  (size m <= max_capacity cfg)%nat -> m !! k = Some (c, s) -> max_requests cfg <= c ->
  sat_sub now s < window cfg ->
  (size (filter (fun e => throttled e.2) m) < max_capacity cfg)%nat ->
  m !! k' = None ->
  let m' := (rl_check k' now m).1 in
  (size m' <= max_capacity cfg)%nat /\ m' !! k = Some (c, s)
  /\ (size (filter (fun e => throttled e.2) m') < max_capacity cfg)%nat
  /\ dom m' ⊆ dom m ∪ {[k']}.
Proof.
  intros Hmax Hcap Hm Hk Hc Hw Ht Hk'. split_and!.
  - by apply rl_check_size.
  - unfold rl_check. rewrite Hk'. simpl. rewrite lookup_insert_ne by congruence.
    by apply make_room_keeps.
  - unfold rl_check. rewrite Hk'. simpl. eapply Nat.le_lt_trans; [|done].
    apply map_subseteq_size, map_subseteq_spec. intros x v Hx.
    apply map_lookup_filter_Some in Hx as [Hx Hv]. apply map_lookup_filter_Some. split; [|done].
    apply lookup_insert_Some in Hx as [[-> <-]|[_ Hx]].
    + unfold throttled in Hv. simpl in Hv. lia.
    + eapply map_subseteq_spec; [apply make_room_subseteq|done].
  - unfold rl_check. rewrite Hk'. simpl. rewrite dom_insert_L.
    pose proof (subseteq_dom _ _ (make_room_subseteq now m)). set_solver.
Qed.

Lemma flood_run tr m k c s :
  2 <= max_requests cfg -> (1 <= max_capacity cfg)%nat ->
  (size m <= max_capacity cfg)%nat -> m !! k = Some (c, s) -> max_requests cfg <= c ->
  (size (filter (fun e => throttled e.2) m) < max_capacity cfg)%nat ->
  NoDup (tr.*2) -> Forall (fun e => m !! e.2 = None /\ sat_sub e.1 s < window cfg) tr ->
  (rl_run tr m).1 !! k = Some (c, s).
Proof.
  intros Hmax Hcap. revert m. induction tr as [|[now k'] tr IH]; intros m Hm Hk Hc Ht Hnd Hall; [done|].
  rewrite fmap_cons in Hnd. apply NoDup_cons in Hnd as [Hnin Hnd].
  apply Forall_cons_1 in Hall as [[Hk' Hw] Hall]. simpl in *.
  destruct (flood_step now m k k' c s) as (H1 & H2 & H3 & H4); [done..|].
  destruct (rl_check k' now m) as [m1 b]; simpl in *.
  specialize (IH m1 H1 H2 Hc H3 Hnd). destruct (rl_run tr m1) as [m2 bs]; simpl in *.
  apply IH. apply Forall_forall. intros [t x] Hx. simpl.
  eapply Forall_forall in Hall as [Hx1 Hx2]; [|exact Hx]. simpl in *. split; [|done].
  apply not_elem_of_dom. intros Hd. apply H4 in Hd. apply elem_of_union in Hd as [Hd|Hd].
  - by apply not_elem_of_dom in Hd.
  - apply Hnin. apply elem_of_singleton in Hd as ->. by apply (list_elem_of_fmap_2 snd) in Hx.
Qed.

Lemma rl_check_throttled k now m c s :
  m !! k = Some (c, s) -> max_requests cfg <= c -> sat_sub now s < window cfg ->
  rl_check k now m = (m, false).
Proof.
  intros Hk Hc Hw. unfold rl_check. rewrite Hk.
  destruct (Z.leb_spec (window cfg) (sat_sub now s)); [lia|].
  destruct (Z.ltb_spec c (max_requests cfg)); [lia|done].
Qed.

(** Requests of [k] in a trace, and how many of them were granted. *)
Definition asked (k : RateLimitKey) (tr : list (Z * RateLimitKey)) : Z :=
  Z.of_nat (length (filter (fun e => e.2 = k) tr)).

Fixpoint granted (k : RateLimitKey) (tr : list (Z * RateLimitKey)) (bs : list bool) : Z :=
  match tr, bs with
  | (_, k') :: tr', b :: bs' => (if bool_decide (k' = k) && b then 1 else 0) + granted k tr' bs'
  | _, _ => 0
  end.

Lemma asked_cons k t k' tr :
  asked k ((t, k') :: tr) = (if bool_decide (k' = k) then 1 else 0) + asked k tr.
Proof.
  unfold asked. rewrite filter_cons. simpl.
  destruct (decide (k' = k)); [rewrite bool_decide_true by done|rewrite bool_decide_false by done];
    simpl length; lia.
Qed.

Lemma asked_nonneg k tr : 0 <= asked k tr.
Proof. unfold asked. lia. Qed.

Lemma budget_run k tr m c s :
  m !! k = Some (c, s) -> c <= max_requests cfg ->
  (size m + length tr <= max_capacity cfg)%nat ->
  Forall (fun e => sat_sub e.1 s < window cfg) tr ->
  granted k tr (rl_run tr m).2 = Z.min (asked k tr) (max_requests cfg - c).
Proof.
  revert m c. induction tr as [|[now k'] tr IH]; intros m c Hk Hc Hsz Hall.
  { unfold asked; simpl. lia. }
  apply Forall_cons_1 in Hall as [Hw Hall]. cbn [length fst snd] in *.
  cbn [rl_run]. rewrite asked_cons. pose proof (asked_nonneg k tr).
  destruct (decide (k' = k)) as [->|Hne].
  - rewrite bool_decide_true by done. unfold rl_check. rewrite Hk.
    destruct (Z.leb_spec (window cfg) (sat_sub now s)); [lia|].
    destruct (Z.ltb_spec c (max_requests cfg)).
    + specialize (IH (<[k := (c + 1, s)]> m) (c + 1)).
      destruct (rl_run tr (<[k := (c + 1, s)]> m)) as [m2 bs]; cbn [granted snd] in *.
      rewrite bool_decide_true by done. cbn [andb]. rewrite IH; [lia|by rewrite lookup_insert_eq|lia| |done].
      rewrite map_size_insert, Hk. simpl. lia.
    + specialize (IH m c Hk Hc ltac:(lia) Hall). destruct (rl_run tr m) as [m2 bs]; cbn [granted snd] in *.
      rewrite andb_false_r. rewrite IH. lia.
  - rewrite bool_decide_false by done.
    assert (exists m1 b, rl_check k' now m = (m1, b) /\ m1 !! k = Some (c, s)
              /\ (size m1 <= S (size m))%nat) as (m1 & b & -> & Hk1 & Hs1).
    { unfold rl_check. destruct (m !! k') as [[c' s']|] eqn:E.
      - repeat case_match; eexists _, _; split; try done; rewrite ?lookup_insert_ne by done;
          split; try done; rewrite ?map_size_insert, ?E; simpl; lia.
      - eexists _, _. split; [done|].
        unfold make_room. rewrite bool_decide_false by lia.
        rewrite lookup_insert_ne by done. split; [done|]. rewrite map_size_insert, E. simpl. lia. }
    specialize (IH m1 c Hk1 Hc ltac:(lia) Hall).
    destruct (rl_run tr m1) as [m2 bs]; cbn [granted snd] in *.
    rewrite bool_decide_false by done. cbn [andb]. rewrite IH. lia.
Qed.

Lemma rl_run_size tr m :
  (1 <= max_capacity cfg)%nat -> (size m <= max_capacity cfg)%nat ->
  (size (rl_run tr m).1 <= max_capacity cfg)%nat.
Proof.
  intros Hcap. revert m. induction tr as [|[now k] tr IH]; intros m Hm; simpl; [done|].
  pose proof (rl_check_size k now m Hcap Hm) as Hs.
  destruct (rl_check k now m) as [m1 b]; simpl in *. specialize (IH m1 Hs).
  by destruct (rl_run tr m1).
Qed.

Lemma aged_nodup now m :
  NoDup ((map (fun e : RateLimitKey * (Z * Z) => (sat_sub now e.2.2, e.1)) (dash_iter m)).*2).
Proof.
  rewrite <- list_fmap_compose.
  rewrite (list_fmap_ext _ fst) by done. rewrite dash_iter_perm. apply NoDup_fst_map_to_list.
Qed.
End window_limiter.

(** ** The concurrency limiter *)

Record InFlightLimiter := mkInFlight { ifl_max : Z; ifl_map : gmap RateLimitKey Z }.

Definition ifl_new (max_concurrent_per_key : Z) : InFlightLimiter :=
  mkInFlight (Z.max max_concurrent_per_key 1) ∅.

Definition ifl_active (l : InFlightLimiter) (k : RateLimitKey) : Z :=
  default 0 (ifl_map l !! k).

(** [Some] is the guard, identified by its key. *)
Definition ifl_try_acquire (k : RateLimitKey) (l : InFlightLimiter)
    : InFlightLimiter * option RateLimitKey :=
  let m := if bool_decide (100000 <= Z.of_nat (size (ifl_map l)))
           then filter (fun e => 0 < e.2) (ifl_map l) else ifl_map l in
  match m !! k with
  | Some c =>
      if ifl_max l <=? c then (mkInFlight (ifl_max l) m, None)
      else (mkInFlight (ifl_max l) (<[k := c + 1]> m), Some k)
  | None => (mkInFlight (ifl_max l) (<[k := 1]> m), Some k)
  end.

(** [Drop for InFlightGuard]. *)
Definition ifl_drop (k : RateLimitKey) (l : InFlightLimiter) : InFlightLimiter :=
  match ifl_map l !! k with
  | Some c => if c <=? 1 then mkInFlight (ifl_max l) (delete k (ifl_map l))
              else mkInFlight (ifl_max l) (<[k := c - 1]> (ifl_map l))
  | None => l
  end.

(** The limiter with the guards its callers hold.  A guard is dropped once
    (ownership), so a drop step consumes one that is held. *)
Inductive ifl_step : InFlightLimiter * list RateLimitKey -> InFlightLimiter * list RateLimitKey -> Prop :=
  | ifl_step_acquire l gs k l' k' :
      ifl_try_acquire k l = (l', Some k') -> ifl_step (l, gs) (l', k' :: gs)
  | ifl_step_refused l gs k l' :
      ifl_try_acquire k l = (l', None) -> ifl_step (l, gs) (l', gs)
  | ifl_step_drop l gs1 k gs2 :
      ifl_step (l, gs1 ++ k :: gs2) (ifl_drop k l, gs1 ++ gs2).

(** Guards held for [k]. *)
Definition held (k : RateLimitKey) (gs : list RateLimitKey) : Z :=
  Z.of_nat (length (filter (fun x => x = k) gs)).

Definition ifl_inv (s : InFlightLimiter * list RateLimitKey) : Prop :=
  1 <= ifl_max s.1 /\ forall k, ifl_map s.1 !! k = (if bool_decide (0 < held k s.2) then Some (held k s.2) else None)
           /\ held k s.2 <= ifl_max s.1.

Lemma held_cons k k' gs : held k (k' :: gs) = (if bool_decide (k' = k) then 1 else 0) + held k gs.
Proof.
  unfold held. rewrite filter_cons. destruct (decide (k' = k)) as [H|H].
  - rewrite bool_decide_true by done. simpl length. lia.
  - rewrite bool_decide_false by done. lia.
Qed.

Lemma held_middle k gs1 k' gs2 : held k (gs1 ++ k' :: gs2) = held k (k' :: gs1 ++ gs2).
Proof. unfold held. f_equal. apply Permutation_length. by rewrite Permutation_middle. Qed.

Lemma held_nonneg k gs : 0 <= held k gs.
Proof. unfold held. lia. Qed.

(** Under the invariant the overflow sweep removes nothing. *)
Lemma ifl_sweep_id l gs : ifl_inv (l, gs) -> filter (fun e => 0 < e.2) (ifl_map l) = ifl_map l.
Proof.
  intros [_ Hinv]. apply map_filter_id. intros k c Hk. simpl in *.
  destruct (Hinv k) as [Hl _]. simpl in Hl. rewrite Hk in Hl. case_bool_decide; naive_solver.
Qed.

Lemma ifl_acquire_spec l gs k :
  ifl_inv (l, gs) ->
  ifl_try_acquire k l =
    if bool_decide (held k gs < ifl_max l)
    then (mkInFlight (ifl_max l) (<[k := held k gs + 1]> (ifl_map l)), Some k)
    else (l, None).
Proof.
  intros Hinv. unfold ifl_try_acquire.
  assert ((if bool_decide (100000 <= Z.of_nat (size (ifl_map l)))
           then filter (fun e => 0 < e.2) (ifl_map l) else ifl_map l) = ifl_map l) as ->
    by (case_bool_decide; [by eapply ifl_sweep_id|done]).
  destruct Hinv as [Hmax Hinv]. destruct (Hinv k) as [Hk Hle]. simpl in *. rewrite Hk.
  pose proof (held_nonneg k gs). case_bool_decide as Hpos.
  - destruct (Z.leb_spec (ifl_max l) (held k gs)).
    + rewrite bool_decide_false by lia. by destruct l.
    + by rewrite bool_decide_true by lia.
  - assert (held k gs = 0) as -> by lia. rewrite bool_decide_true by lia. done.
Qed.

Lemma ifl_step_inv s s' : ifl_inv s -> ifl_step s s' -> ifl_inv s'.
Proof.
  intros Hinv Hstep. destruct Hstep as [l gs k l' k' Hacq|l gs k l' Hacq|l gs1 k gs2].
  - rewrite (ifl_acquire_spec _ _ _ Hinv) in Hacq. case_bool_decide; simplify_eq.
    destruct Hinv as [Hmax Hinv]. split; [done|]. intros x. destruct (Hinv x) as [Hx Hle]. simpl in *.
    rewrite held_cons. pose proof (held_nonneg x gs). destruct (decide (k' = x)) as [->|Hne].
    + rewrite lookup_insert_eq, (bool_decide_true (x = x)) by done.
      rewrite bool_decide_true by lia. split; [f_equal|]; lia.
    + rewrite lookup_insert_ne, (bool_decide_false (k' = x)) by done. rewrite Z.add_0_l. by split.
  - rewrite (ifl_acquire_spec _ _ _ Hinv) in Hacq. case_bool_decide; by simplify_eq.
  - destruct Hinv as [Hmax Hinv]. simpl in *.
    assert (forall x, held x (gs1 ++ k :: gs2) = (if bool_decide (k = x) then 1 else 0) + held x (gs1 ++ gs2))
      as Hh by (intros x; by rewrite held_middle, held_cons).
    unfold ifl_drop. destruct (Hinv k) as [Hk Hle]. rewrite Hk.
    specialize (Hh k) as Hhk. rewrite bool_decide_true in Hhk by done.
    pose proof (held_nonneg k (gs1 ++ gs2)). rewrite bool_decide_true by lia.
    split; [by destruct (held k (gs1 ++ k :: gs2) <=? 1)|]. intros x. destruct (Hinv x) as [Hx Hlx]. simpl in *.
    rewrite Hh in Hx, Hlx. pose proof (held_nonneg x (gs1 ++ gs2)).
    destruct (decide (k = x)) as [->|Hne].
    + clear Hx. rewrite (bool_decide_true (x = x)) in Hlx by done.
      destruct (Z.leb_spec (held x (gs1 ++ x :: gs2)) 1); simpl; (split; [|lia]).
      * rewrite lookup_delete_eq, bool_decide_false by lia. done.
      * rewrite lookup_insert_eq, bool_decide_true by lia. f_equal. lia.
    + rewrite (bool_decide_false (k = x)), Z.add_0_l in Hx, Hlx by done.
      destruct (held k (gs1 ++ k :: gs2) <=? 1); simpl; (split; [|lia]); [by rewrite lookup_delete_ne|by rewrite lookup_insert_ne].
Qed.

Lemma ifl_init_inv n : ifl_inv (ifl_new n, []).
Proof.
  split; simpl; [lia|]. intros k. rewrite lookup_empty. unfold held. simpl. split; [done|lia].
Qed.

(** One possible iteration order. *)
Definition map_order : DashIter := {| dash_iter := fun m => map_to_list m; dash_iter_perm := fun _ => reflexivity _ |}.

Definition small_cfg : RateLimitConfig := mkRlConfig 2 1000 3.

(** ** Properties *)

(** memory bound.  Whatever requests arrive, at whatever instants, the
    window limiter never holds more than [max_capacity] keys (for a capacity
    of at least one), starting from an empty map. *)
Lemma limiter_memory_bounded `{DashIter} cfg tr :
  (1 <= max_capacity cfg)%nat -> (size (rl_run cfg tr ∅).1 <= max_capacity cfg)%nat.
Proof. intros Hcap. apply rl_run_size; [done|]. rewrite map_size_empty. lia. Qed.

Lemma limiter_memory_bounded_witness :
  (size (@rl_run map_order small_cfg ([(0, RKey 1); (0, RKey 2); (1, RKey 3); (2, RKey 4); (3, RKey 5)])%Z ∅).1 <= 3)%nat.
Proof. apply (@limiter_memory_bounded map_order small_cfg). simpl. lia. Defined.

(** A flood of fresh keys does not lift a throttle.  If [k] has used up
    its window and the map is not made of throttled keys alone, then after
    any number of requests of pairwise distinct unseen keys, the evictions
    they cause included, [k] is still refused within its window. *)
Lemma throttle_survives_flood `{DashIter} cfg tr m k c s now :
  2 <= max_requests cfg -> (1 <= max_capacity cfg)%nat ->
  (size m <= max_capacity cfg)%nat -> m !! k = Some (c, s) -> max_requests cfg <= c ->
  (size (filter (fun e => throttled cfg e.2) m) < max_capacity cfg)%nat ->
  NoDup (tr.*2) -> Forall (fun e => m !! e.2 = None /\ sat_sub e.1 s < window cfg) tr ->
  sat_sub now s < window cfg ->
  (rl_check cfg k now (rl_run cfg tr m).1).2 = false.
Proof.
  intros Hmax Hcap Hm Hk Hc Ht Hnd Hall Hw.
  erewrite rl_check_throttled; [done|by apply flood_run|done|done].
Qed.

Lemma throttle_survives_flood_witness :
  (@rl_check map_order small_cfg (RKey 1) 9
    (@rl_run map_order small_cfg [(3, RKey 2); (4, RKey 3); (5, RIp (V4 6)); (6, RIp (V6 7))]
       (<[RKey 1 := (2, 0)]> ∅)).1).2 = false.
Proof.
  apply (@throttle_survives_flood map_order small_cfg _ _ (RKey 1) 2 0 9).
  - zvm.
  - simpl; lia.
  - vm_compute; lia.
  - apply lookup_insert_eq.
  - zvm.
  - vm_compute; lia.
  - simpl. repeat (constructor; [set_solver|]). constructor.
  - repeat constructor; zvm.
  - zvm.
Defined.

(** the budget is exact.  In a window of [k] with [c] requests counted,
    any interleaving of requests inside that window grants [k] exactly
    [max_requests - c] of what it asks for, or all of it when it asks for
    less (while the map does not overflow). *)
Lemma window_budget_exact `{DashIter} cfg k tr m c s :
  m !! k = Some (c, s) -> c <= max_requests cfg ->
  (size m + length tr <= max_capacity cfg)%nat ->
  Forall (fun e => sat_sub e.1 s < window cfg) tr ->
  granted k tr (rl_run cfg tr m).2 = Z.min (asked k tr) (max_requests cfg - c).
Proof. apply budget_run. Qed.

Lemma window_budget_exact_witness :
  let tr := [(3, RKey 1); (4, RKey 2); (5, RKey 1)] in
  granted (RKey 1) tr (@rl_run map_order (mkRlConfig 2 1000 9) tr (<[RKey 1 := (1, 0)]> ∅)).2 = 1.
Proof.
  intros tr.
  apply (@window_budget_exact map_order (mkRlConfig 2 1000 9) (RKey 1) tr (<[RKey 1 := (1, 0)]> ∅) 1 0).
  - apply lookup_insert_eq.
  - zvm.
  - vm_compute; lia.
  - repeat constructor; zvm.
Defined.

(** the last-resort eviction drops the newest windows.  Of two live
    windows one of which is dropped and the other kept, the dropped one
    started no earlier: the sort is ascending by age. *)
Lemma last_resort_evicts_newest `{DashIter} n now m k k' c c' s s' :
  m !! k = Some (c, s) -> m !! k' = Some (c', s') -> s <= now -> s' <= now ->
  evict_oldest_throttled_windows n now m !! k = None ->
  evict_oldest_throttled_windows n now m !! k' = Some (c', s') ->
  s' <= s.
Proof.
  intros Hk Hk' Hs Hs'. unfold evict_oldest_throttled_windows. rewrite !remove_first_lookup, Hk, Hk'.
  case_bool_decide as H1; [|done]. case_bool_decide as H2; [done|]. intros _ _.
  eapply (victims_smallest n _ (sat_sub now s) (sat_sub now s')) in H2;
    [unfold sat_sub in H2; lia|apply aged_nodup| | |exact H1].
  - apply list_elem_of_fmap. exists (k, (c, s)). by rewrite elem_of_dash_iter.
  - apply list_elem_of_fmap. exists (k', (c', s')). by rewrite elem_of_dash_iter.
Qed.

Lemma last_resort_evicts_newest_witness :
  let m := <[RKey 1 := (2, 10)]> (<[RKey 2 := (2, 90)]> ∅) in
  @evict_oldest_throttled_windows map_order 1 100 m !! RKey 2 = None /\ 10 <= 90.
Proof.
  intros m. assert (@evict_oldest_throttled_windows map_order 1 100 m !! RKey 2 = None) as H
    by (vm_compute; reflexivity).
  split; [exact H|].
  apply (@last_resort_evicts_newest map_order 1 100 m (RKey 2) (RKey 1) 2 2 90 10);
    [vm_compute; reflexivity|vm_compute; reflexivity|zvm|zvm|exact H|vm_compute; reflexivity].
Defined.

(** concurrency cap.  In every state reachable by acquisitions and guard
    drops, in any order, the counter of a key equals the number of guards
    held for it, that number never exceeds the cap, and the next acquisition
    succeeds exactly when it is below the cap. *)
Lemma in_flight_counts_guards n l gs k :
  rtc ifl_step (ifl_new n, []) (l, gs) ->
  ifl_active l k = held k gs
  /\ held k gs <= Z.max n 1
  /\ ((ifl_try_acquire k l).2 = Some k <-> held k gs < Z.max n 1).
Proof.
  intros Hr.
  assert (ifl_inv (l, gs)) as Hinv by (eapply rtc_invariant; [apply ifl_step_inv|apply ifl_init_inv|done]).
  assert (ifl_max l = Z.max n 1) as Hmax.
  { apply (rtc_invariant ifl_step (fun s => ifl_inv s /\ ifl_max s.1 = Z.max n 1)) in Hr; [by apply Hr| |].
    - intros x y [Hx Hm] Hs. split; [by eapply ifl_step_inv|].
      destruct Hs as [? ? ? ? ? Ha|? ? ? ? Ha|]; simpl in *.
      1, 2: rewrite (ifl_acquire_spec _ _ _ Hx) in Ha; case_bool_decide; by simplify_eq.
      unfold ifl_drop. by repeat case_match.
    - split; [apply ifl_init_inv|done]. }
  rewrite (ifl_acquire_spec _ _ _ Hinv), Hmax. destruct Hinv as [_ Hinv].
  destruct (Hinv k) as [Hk Hle]. simpl in *. unfold ifl_active. rewrite Hk.
  pose proof (held_nonneg k gs). rewrite Hmax in Hle.
  split; [case_bool_decide; simpl; lia|]. split; [done|].
  clear Hk. case_bool_decide; simpl; split; intros; (done || lia).
Qed.

Lemma in_flight_counts_guards_witness :
  ifl_active (ifl_try_acquire (RKey 1) (ifl_new 1)).1 (RKey 1) = held (RKey 1) [RKey 1].
Proof.
  apply (in_flight_counts_guards 1 _ [RKey 1] (RKey 1)). eapply rtc_l; [|apply rtc_refl].
  apply (ifl_step_acquire _ _ (RKey 1)). vm_compute. reflexivity.
Defined.
