(* ===== verification/Errors.v ===== *)
(** * Errors, their classification and the retry policy

    Models openproxy-types/src/error.rs ([CoreError]), the classification of
    upstream failures (openproxy-types/src/error_classification.rs,
    openproxy-pipeline/src/error_classification.rs, the CodeBuddy codes of
    openproxy-adapters/src/adapters/codebuddy/mod.rs, the two predicates of
    openproxy-pipeline/src/pipeline.rs) and openproxy-pipeline/src/retry.rs.

    [serde_json::from_str] is the parameter [json_of] of the definitions that
    read a body as JSON. *)

From Stdlib Require Import Ascii String.
From S2P Require Import Prelude Types Text.

(** ** [CoreError] *)

Inductive CancelReason := ClientDisconnected | WatchdogTimeout.

Inductive UpstreamErrorClass :=
  | Generic | ValidationRequired | PermissionDenied | ResourceExhausted
  | MalformedToolCall | InvalidPayload.

#[export] Instance CancelReason_eq_dec : EqDecision CancelReason.
Proof. solve_decision. Defined.
#[export] Instance UpstreamErrorClass_eq_dec : EqDecision UpstreamErrorClass.
Proof. solve_decision. Defined.

(** [Database] also carries an optional boxed source, which no code reads. *)
Inductive CoreError :=
  | Config (m : string)
  | Database (message : string)
  | Migration (version : Z) (message : string)
  | ProviderNotFound (p : string)
  | AccountNotFound (id : Z)
  | ComboNotFound (id : Z)
  | ModelNotFound (provider model : string)
  | NoHealthyTargets (combo : Z)
  | UpstreamTimeout (phase : string) (ms : Z)
  | UpstreamError (status : Z) (provider model body : string) (proxy_rotated : bool)
      (class : UpstreamErrorClass) (hard_skip : bool)
  | UpstreamConnection (m : string)
  | RateLimited (provider : string) (retry_after_ms : Z) (proxy_rotated : bool)
  | Parse (m : string)
  | Cancelled (r : CancelReason)
  | RaceLost
  | Auth (m : string)
  | Validation (m : string)
  | Internal (m : string)
  | ServiceUnavailable (m : string)
  | NotFound (what id : string)
  | JournalCapacityExhausted.

#[export] Instance CoreError_eq_dec : EqDecision CoreError.
Proof. solve_decision. Defined.

Definition is_hard_skip_class (c : UpstreamErrorClass) : bool :=
  match c with Generic => false | _ => true end.

Definition upstream_error (status : Z) (provider model body : string) (proxy_rotated : bool)
    : CoreError :=
  UpstreamError status provider model body proxy_rotated Generic false.

Definition upstream_error_classified (status : Z) (provider model body : string)
    (proxy_rotated : bool) (class : UpstreamErrorClass) : CoreError :=
  UpstreamError status provider model body proxy_rotated class (is_hard_skip_class class).

Definition is_proxy_rotated (e : CoreError) : bool :=
  match e with
  | UpstreamError _ _ _ _ r _ _ | RateLimited _ _ r => r
  | _ => false
  end.

Definition is_hard_skip (e : CoreError) : bool :=
  match e with UpstreamError _ _ _ _ _ _ h => h | _ => false end.

Definition upstream_error_class (e : CoreError) : option UpstreamErrorClass :=
  match e with UpstreamError _ _ _ _ _ c _ => Some c | _ => None end.

Definition http_status (e : CoreError) : Z :=
  match e with
  | Auth _ => 401
  | Validation _ => 400
  | ProviderNotFound _ | AccountNotFound _ | ComboNotFound _ | ModelNotFound _ _ | NotFound _ _ => 404
  | RateLimited _ _ _ => 429
  | UpstreamError status _ _ _ _ _ _ => status
  | UpstreamTimeout _ _ => 529
  | UpstreamConnection _ | NoHealthyTargets _ => 502
  | Cancelled ClientDisconnected | RaceLost => 499
  | Cancelled WatchdogTimeout => 504
  | ServiceUnavailable _ | JournalCapacityExhausted => 503
  | _ => 500
  end.

Definition cancel_reason_str (r : CancelReason) : string :=
  match r with
  | ClientDisconnected => "client_disconnected"
  | WatchdogTimeout => "watchdog_timeout"
  end.

Definition code (e : CoreError) : string :=
  match e with
  | Auth _ => "auth"
  | Validation _ => "validation"
  | ProviderNotFound _ => "provider_not_found"
  | AccountNotFound _ => "account_not_found"
  | ComboNotFound _ => "combo_not_found"
  | ModelNotFound _ _ => "model_not_found"
  | NoHealthyTargets _ => "no_healthy_targets"
  | UpstreamTimeout _ _ => "upstream_timeout"
  | UpstreamConnection _ => "upstream_connection"
  | UpstreamError _ _ _ _ _ _ _ => "upstream_error"
  | RateLimited _ _ _ => "rate_limited"
  | Parse _ => "parse_error"
  | Cancelled r => cancel_reason_str r
  | RaceLost => "race_lost"
  | Database _ => "database"
  | Migration _ _ => "migration"
  | Config _ => "config"
  | Internal _ => "internal"
  | ServiceUnavailable _ => "service_unavailable"
  | NotFound _ _ => "not_found"
  | JournalCapacityExhausted => "journal_capacity_exhausted"
  end.

(** [str::split_once] by a string: around its first occurrence. *)
Fixpoint split_once (p s : string) : option (string * string) :=
  if starts_with p s
  then Some (EmptyString, String.substring (String.length p) (String.length s - String.length p) s)
  else match s with
       | EmptyString => None
       | String c s' =>
           match split_once p s' with
           | Some (a, b) => Some (String c a, b)
           | None => None
           end
       end.

Definition from_code_and_message (code message : string) : option CoreError :=
  let see := "<see message>"%string in
  if String.eqb code "journal_capacity_exhausted" then Some JournalCapacityExhausted
  else if String.eqb code "auth" then Some (Auth message)
  else if String.eqb code "validation" then Some (Validation message)
  else if String.eqb code "provider_not_found" then Some (ProviderNotFound message)
  else if String.eqb code "account_not_found" then AccountNotFound <$> parse_i64 (trim message)
  else if String.eqb code "combo_not_found" then ComboNotFound <$> parse_i64 (trim message)
  else if String.eqb code "model_not_found" then Some (ModelNotFound see message)
  else if String.eqb code "no_healthy_targets" then NoHealthyTargets <$> parse_i64 (trim message)
  else if String.eqb code "upstream_timeout" then Some (UpstreamTimeout "<unknown>" 0)
  else if String.eqb code "upstream_connection" then Some (UpstreamConnection message)
  else if String.eqb code "upstream_error" then Some (upstream_error 0 see see message false)
  else if String.eqb code "rate_limited" then Some (RateLimited see 0 false)
  else if String.eqb code "parse_error" then Some (Parse message)
  else if String.eqb code "client_disconnected" then Some (Cancelled ClientDisconnected)
  else if String.eqb code "watchdog_timeout" then Some (Cancelled WatchdogTimeout)
  else if String.eqb code "race_lost" then Some RaceLost
  else if String.eqb code "database" then Some (Database message)
  else if String.eqb code "migration" then Some (Migration 0 message)
  else if String.eqb code "config" then Some (Config message)
  else if String.eqb code "internal" then Some (Internal message)
  else if String.eqb code "service_unavailable" then Some (ServiceUnavailable message)
  else if String.eqb code "not_found" then
    let '(what, id) :=
      match split_once " not found: " message with
      | Some p => p
      | None => match split_once ":" message with
                | Some p => p
                | None => ("resource"%string, message)
                end
      end in
    Some (NotFound (trim what) (trim id))
  else None.

(** ** Classification of upstream errors *)

Inductive CodeBuddyErrorCode :=
  | NonStreamNotSupported | FirstMessageNotSystemPrompt
  | CraftRateLimit | CraftRateTPSLimit | CraftRateTPMLimit | CraftRateTPHLimit | CraftRateTPDLimit
  | CraftRateRPSLimit | CraftRateRPMLimit | CraftRateRPHLimit | CraftRateRPDLimit
  | UsageLimitExceeded | ConversationChatTooMany | RateLimitError
  | UsageLimitExceededEnterprise | UsageLimitExceededTencent | UsageLimitEnterpriseExhausted
  | UsageLimitLicenseExpired | UsageLimitEnterpriseNotActivated | UsageLimitUserNotActivated
  | UsageLimitUserExhausted | UsageLimitNoTokenBudget
  | ConversationLimitExceeded | WebSearchRateLimit | ContextTooLong
  | AuthForbidden1 | ModelBehaviorError | AuthForbidden2.

#[export] Instance CodeBuddyErrorCode_eq_dec : EqDecision CodeBuddyErrorCode.
Proof. solve_decision. Defined.

Definition codebuddy_from_code (code : Z) : option CodeBuddyErrorCode :=
  match code with
  | 6000 => Some CraftRateLimit | 6001 => Some CraftRateTPSLimit | 6002 => Some CraftRateTPMLimit
  | 6003 => Some CraftRateTPHLimit | 6004 => Some CraftRateTPDLimit | 6005 => Some CraftRateRPSLimit
  | 6006 => Some CraftRateRPMLimit | 6007 => Some CraftRateRPHLimit | 6008 => Some CraftRateRPDLimit
  | 14001 => Some UsageLimitExceeded | 14002 => Some ConversationChatTooMany
  | 14003 => Some RateLimitError | 14012 => Some UsageLimitExceededEnterprise
  | 14013 => Some UsageLimitExceededTencent | 14014 => Some UsageLimitEnterpriseExhausted
  | 14015 => Some UsageLimitLicenseExpired | 14016 => Some UsageLimitEnterpriseNotActivated
  | 14017 => Some UsageLimitUserNotActivated | 14018 => Some UsageLimitUserExhausted
  | 14019 => Some UsageLimitNoTokenBudget | 10105 => Some ConversationLimitExceeded
  | 15001 => Some WebSearchRateLimit | 11101 => Some NonStreamNotSupported
  | 11128 => Some FirstMessageNotSystemPrompt | 11115 => Some ContextTooLong
  | 11140 => Some AuthForbidden1 | 11141 => Some ModelBehaviorError | 11142 => Some AuthForbidden2
  | _ => None
  end.

Definition is_rate_limit (c : CodeBuddyErrorCode) : bool :=
  match c with
  | CraftRateLimit | CraftRateTPSLimit | CraftRateTPMLimit | CraftRateTPHLimit | CraftRateTPDLimit
  | CraftRateRPSLimit | CraftRateRPMLimit | CraftRateRPHLimit | CraftRateRPDLimit
  | RateLimitError | WebSearchRateLimit => true
  | _ => false
  end.

Definition is_credits_exhausted (c : CodeBuddyErrorCode) : bool :=
  match c with
  | UsageLimitExceeded | ConversationChatTooMany | UsageLimitExceededEnterprise
  | UsageLimitExceededTencent | UsageLimitEnterpriseExhausted | UsageLimitUserExhausted
  | UsageLimitNoTokenBudget => true
  | _ => false
  end.

Definition is_auth_error (c : CodeBuddyErrorCode) : bool :=
  match c with
  | UsageLimitLicenseExpired | UsageLimitEnterpriseNotActivated | UsageLimitUserNotActivated
  | AuthForbidden1 | AuthForbidden2 => true
  | _ => false
  end.

Definition to_upstream_error_class (c : CodeBuddyErrorCode) : UpstreamErrorClass :=
  if is_rate_limit c || is_credits_exhausted c then ResourceExhausted
  else if is_auth_error c then PermissionDenied
  else if bool_decide (c = ContextTooLong) || bool_decide (c = NonStreamNotSupported)
  then InvalidPayload
  else if bool_decide (c = FirstMessageNotSystemPrompt) then ValidationRequired
  else Generic.

(** The first key of [keys] that yields a code. *)
Definition biz_code_at (v : Json) (key : string) : option Z :=
  match json_get key v with
  | None => None
  | Some x =>
      match json_as_i64 x with
      | Some num => if (1000 <=? num) && (num <=? u32_max) then Some num else None
      | None =>
          match as_str x with
          | Some s => match parse_unsigned u32_max s with
                      | Some num => if 1000 <=? num then Some num else None
                      | None => None
                      end
          | None => None
          end
      end
  end.

Fixpoint first_some {A B} (f : A -> option B) (l : list A) : option B :=
  match l with
  | [] => None
  | x :: l' => match f x with Some y => Some y | None => first_some f l' end
  end.

Fixpoint extract_biz_code (max_depth : nat) (v : Json) : option Z :=
  match max_depth with
  | O => None
  | S d =>
      match first_some (biz_code_at v) ["code"; "errcode"]%string with
      | Some n => Some n
      | None =>
          first_some (fun key => match json_get key v with
                                 | Some child => extract_biz_code d child
                                 | None => None
                                 end) ["data"; "error"; "response"]%string
      end
  end.

Section classification.
Context (json_of : string -> option Json).

Definition parse_codebuddy_error_code (body : string) : option Z :=
  match json_of body with Some v => extract_biz_code 6 v | None => None end.

Definition invalid_payload_markers : list string :=
  ["base64"; "input_invalid"; "invalid value"; "invalid_request_error"; "invalid_argument";
   "malformed"; "decoding failed"; "input required"; "extra data:"; "unterminated string";
   "expecting ',' delimiter"; "expecting value"; "must be valid json"; "must be a valid json";
   "validation:"; "invalid json"; "jsondecodeerror"]%string.

Definition classify_upstream_error (status : Z) (body : string) : UpstreamErrorClass :=
  let codebuddy :=
    match parse_codebuddy_error_code body with
    | Some code => match codebuddy_from_code code with
                   | Some c => to_upstream_error_class c
                   | None => Generic
                   end
    | None => Generic
    end in
  if negb (bool_decide (codebuddy = Generic)) then codebuddy
  else if contains_any ["UsageLimitEnterpriseExhausted"; "UsageLimitUserExhausted"; "UsageLimitExceeded"]%string body
  then ResourceExhausted
  else if contains_any ["UsageLimitLicenseExpired"; "UsageLimitEnterpriseNotActivated";
                        "UsageLimitUserNotActivated"]%string body
  then PermissionDenied
  else
    let lower := to_ascii_lowercase body in
    if (status =? 400) && contains_any ["2013"; "function name or parameters is empty"]%string body
    then MalformedToolCall
    else if (status =? 400)
            && contains_any ["model is unavailable"; "upstream request failed"; "is not supported"]%string lower
    then ResourceExhausted
    else if (status =? 400) && negb (String.eqb body "") && contains_any invalid_payload_markers lower
    then InvalidPayload
    else if (status =? 403) && contains "VALIDATION_REQUIRED" body then ValidationRequired
    else if (status =? 403) && contains_any ["PERMISSION_DENIED"; "API_KEY_INVALID"]%string body
    then PermissionDenied
    else if (status =? 429) && contains "RESOURCE_EXHAUSTED" body then ResourceExhausted
    else Generic.

Definition is_hard_skip_error (e : CoreError) : bool :=
  match e with
  | UpstreamError status _ _ body _ _ hard_skip =>
      hard_skip || is_hard_skip_class (classify_upstream_error status body)
  | _ => false
  end.
End classification.

(** pipeline.rs: does the failure speak of the upstream's health, and is it
    about the model rather than the account. *)
Definition is_upstream_health_issue (e : CoreError) : bool :=
  match e with
  | UpstreamTimeout phase _ => negb (String.eqb phase "idle_chunk")
  | UpstreamConnection _ => true
  | RateLimited _ _ _ => true
  | UpstreamError status _ _ body _ _ _ =>
      if (500 <=? status) || (status =? 429) then true
      else if status =? 400 then
        contains_any ["model is unavailable"; "upstream request failed"; "is not supported"]%string
          (to_ascii_lowercase body)
      else false
  | _ => false
  end.

Definition is_model_wide_failure (t : ComboTarget) (e : CoreError) : bool :=
  match e with
  | ModelNotFound _ _ => true
  | RateLimited _ _ _ => bool_decide (t_rate_limit_scope t = ScopeModel)
  | UpstreamError status _ _ body _ _ _ =>
      if status =? 429 then bool_decide (t_rate_limit_scope t = ScopeModel)
      else if status =? 404 then true
      else if status =? 400 then
        contains_any ["model is unavailable"; "is not supported"; "does not exist";
                      "model not found"; "invalid model"]%string (to_ascii_lowercase body)
      else false
  | _ => false
  end.

(** ** The retry policy *)

Record RetryPolicy := mkRetryPolicy {
  max_attempts : Z;
  backoff_base_ms : Z;
  backoff_factor : Z;
  backoff_jitter_pct : Z;
  idle_chunk_retryable : bool
}.

(** The amplitude of the jitter, then the delay for a jitter drawn from
    [-amp..=amp].  The caller passes attempts from 1. *)
Definition backoff_ms (p : RetryPolicy) (attempt : Z) : Z :=
  sat_mul u64_max (backoff_base_ms p) (sat_pow u64_max (backoff_factor p) (attempt - 1)).

Definition jitter_amp (p : RetryPolicy) (attempt : Z) : Z :=
  sat_mul u64_max (backoff_ms p attempt) (backoff_jitter_pct p) / 100.

Definition delay_after_attempt (p : RetryPolicy) (attempt jitter : Z) : option Z :=
  if max_attempts p <=? attempt then None
  else Some (Z.max (sat_add_i64 (as_i64 (backoff_ms p attempt)) jitter) 0).

Definition is_timeout_retryable (phase : string) (idle_chunk_retryable : bool) : bool :=
  if String.eqb phase "idle_chunk" then idle_chunk_retryable else true.

(** [Display] of [UpstreamConnection]. *)
Definition connection_error_text (m : string) : string :=
  String.append "upstream connection error: " m.

Definition is_retryable (e : CoreError) (idle_chunk_retryable : bool) : bool :=
  match e with
  | UpstreamError status provider _ _ _ _ hard_skip =>
      if String.eqb provider "zai" then false
      else if hard_skip then false
      else negb (status =? 429) && negb (status =? 400)
  | UpstreamTimeout phase _ => is_timeout_retryable phase idle_chunk_retryable
  | UpstreamConnection m => negb (starts_with "client disconnected" (connection_error_text m))
  | RateLimited _ _ proxy_rotated => proxy_rotated
  | Cancelled _ | RaceLost => false
  | _ => true
  end.

(** ** [PipelineResult] (pipeline.rs)

    The response is kept as its JSON value; the usage tuple is the request
    id, the attempt and the combo target id. *)
Record PipelineResult := mkResult {
  pr_status_code : Z;
  pr_error : option CoreError;
  pr_final_response : option Json;
  pr_attempts : Z;
  pr_usage_tuple : option (string * Z * Z)
}.

(** [Pipeline::failure] and [Pipeline::client_disconnected_result]. *)
Definition failure (e : CoreError) (attempts : Z) : PipelineResult :=
  mkResult (http_status e) (Some e) None attempts None.

Definition client_disconnected_result (attempts : Z) (reason : CancelReason) : PipelineResult :=
  failure (Cancelled reason) attempts.

(** ** Lemmas *)

Definition policy_wf (p : RetryPolicy) : Prop :=
  in_u u8_max (max_attempts p) /\ in_u u64_max (backoff_base_ms p) /\ in_u u8_max (backoff_factor p)
  /\ in_u u8_max (backoff_jitter_pct p).

Lemma backoff_range p a : policy_wf p -> 1 <= a -> in_u u64_max (backoff_ms p a).
Proof.
  intros (_ & Hb & Hf & _) Ha. unfold backoff_ms, sat_mul, sat_pow, in_u in *.
  assert (0 <= backoff_factor p ^ (a - 1)) by (apply Z.pow_nonneg; lia).
  unfold u64_max in *. nia.
Qed.

Lemma jitter_range p a : policy_wf p -> 1 <= a -> 0 <= jitter_amp p a <= u64_max / 100.
Proof.
  intros Hp Ha. pose proof (backoff_range p a Hp Ha) as Hb. destruct Hp as (_ & _ & _ & Hj).
  unfold jitter_amp, sat_mul, in_u in *. split.
  - apply Z.div_pos; [|lia]. unfold u64_max in *. nia.
  - apply Z.div_le_mono; lia.
Qed.

Lemma from_code_is_code c m e : from_code_and_message c m = Some e -> code e = c.
Proof.
  unfold from_code_and_message.
  repeat match goal with
  | |- (if String.eqb c ?k then _ else _) = _ -> _ => destruct (String.eqb_spec c k) as [->|?]
  end; try (by intros [= <-]); try (by destruct (parse_i64 _); intros [= <-]).
  destruct (split_once " not found: " m) as [[]|]; [by intros [= <-]|].
  by destruct (split_once ":" m) as [[]|]; intros [= <-].
Qed.

(** The guard on disconnections in [is_retryable] never holds: it looks at
    the start of the displayed error, which is its own prefix. *)
Lemma connection_always_retryable m idle : is_retryable (UpstreamConnection m) idle = true.
Proof. done. Qed.

(** ** Properties *)

(** Retry delays: there is one exactly while attempts are left; the
    jitter range is never empty and fits an [i64]; and while the exponential
    backoff itself fits an [i64], the delay stays within the jitter amplitude
    of it, at most [backoff_jitter_pct] percent of the backoff. *)
Lemma retry_delay_bounds p a j :
  policy_wf p -> 1 <= a -> - jitter_amp p a <= j <= jitter_amp p a ->
  0 <= jitter_amp p a <= i64_max
  /\ (delay_after_attempt p a j = None <-> max_attempts p <= a)
  /\ forall d, delay_after_attempt p a j = Some d ->
       0 <= d <= i64_max
       /\ (backoff_ms p a <= i64_max ->
           backoff_ms p a - jitter_amp p a <= d <= backoff_ms p a + jitter_amp p a
           /\ 100 * jitter_amp p a <= backoff_ms p a * backoff_jitter_pct p).
Proof.
  intros Hp Ha Hj. pose proof (backoff_range p a Hp Ha) as Hb. pose proof (jitter_range p a Hp Ha) as Hr.
  assert (u64_max / 100 <= i64_max) by (vm_compute; congruence).
  assert (100 * jitter_amp p a <= backoff_ms p a * backoff_jitter_pct p) as Hpct.
  { unfold jitter_amp at 1, sat_mul.
    pose proof (Z.mul_div_le (Z.min u64_max (backoff_ms p a * backoff_jitter_pct p)) 100). lia. }
  split; [lia|]. split.
  - unfold delay_after_attempt. destruct (Z.leb_spec (max_attempts p) a); split; (done || lia).
  - unfold delay_after_attempt. destruct (Z.leb_spec (max_attempts p) a); [done|]. intros d [= <-].
    unfold sat_add_i64, as_i64, i64_max, i64_min, in_u, u64_max in *.
    destruct (Z.leb_spec (backoff_ms p a) 9223372036854775807); split; try lia.
Qed.

(** Errors survive being stored as a code and a message: rebuilding from
    an error's own code, with whatever message, gives an error with the same
    code and, upstream errors apart, the same HTTP status; it fails only for
    the variants that carry an id, when the message is not a number. *)
Lemma error_code_roundtrip e m :
  match from_code_and_message (code e) m with
  | Some e' => code e' = code e
               /\ match e with UpstreamError _ _ _ _ _ _ _ => True | _ => http_status e' = http_status e end
  | None => match e with AccountNotFound _ | ComboNotFound _ | NoHealthyTargets _ => True | _ => False end
            /\ parse_i64 (trim m) = None
  end.
Proof.
  destruct e as [| | | | | | | | | | | | |[]| | | | | | |]; cbn [code cancel_reason_str];
    unfold from_code_and_message; simpl; try done;
    try (destruct (parse_i64 (trim m)); simpl; done).
  by destruct (split_once " not found: " m) as [[]|]; [|destruct (split_once ":" m) as [[]|]].
Qed.
