(* ===== verification/Feedback.v ===== *)
(** * What a result teaches the routing state

    Models openproxy-pipeline/src/stages/target_breaker.rs: after each target
    execution the result is fed to the circuit breaker, to the predictive
    limiter and to the account's rows, and
    [UsageRecordBuilder::update_selection_registry] of usage_tracker.rs.

    Database writes are spawned, fire-and-forget; they are recorded as values
    of [db_effect] in the order they are spawned.  Instants are nanoseconds
    for the breaker, milliseconds for the limiter and epoch seconds for the
    rows (without the bounds of chrono's calendar). *)

From Stdlib Require Import Ascii String.
From S2P Require Import Prelude Types Text Errors CircuitBreaker Predictive SelectionRegistry.

Inductive DevinQuotaKind := Daily | Weekly.

Inductive db_effect :=
  | SetHealthUnhealthy (aid : Z) (reason : string)
  | MarkLimited (aid : Z) (model_id : string) (until : Z)
  | NotifyCircuitOpen (aid failures threshold : Z)
  | SetRateLimitedUntil (aid until : Z)
  | ClearRateLimitedUntil (aid : Z).

Definition should_mark_live_limited (e : CoreError) : bool :=
  match e with
  | UpstreamError status _ _ body _ _ _ => (status =? 429) && contains "RESOURCE_EXHAUSTED" body
  | _ => false
  end.

Definition mark_live_limited_inner (now_s aid : Z) (model_id : string) (e : CoreError)
    : list db_effect :=
  if should_mark_live_limited e then [MarkLimited aid model_id (now_s + 300)] else [].

(** The bytes of the first [n] characters: a UTF-8 continuation byte
    (128..191) belongs to the character before it. *)
Fixpoint take_chars (n : nat) (bs : list Z) : list Z :=
  match bs with
  | [] => []
  | b :: bs' =>
      if (128 <=? b) && (b <=? 191) then b :: take_chars n bs'
      else match n with O => [] | S n' => b :: take_chars n' bs' end
  end.

Section feedback.
Context (json_of : string -> option Json).

Definition extract_error_summary (body : string) : option string :=
  let from_json :=
    match json_of body with
    | Some val =>
        let nested := match json_get "error" val with
                      | Some e => json_get "message" e
                      | None => None
                      end in
        match (match nested with Some m => Some m | None => json_get "message" val end) with
        | Some m => as_str m
        | None => None
        end
    | None => None
    end in
  match from_json with
  | Some msg => Some (trim msg)
  | None =>
      let trimmed := trim body in
      if String.eqb trimmed "" then None else Some (of_bytes (take_chars 120 (bytes_of trimmed)))
  end.

Definition terminal_patterns : list string :=
  ["insufficient balance"; "insufficient_quota"; "insufficient_balance";
   "credit balance is too low"; "billing_hard_limit_reached"; "account_deactivated"]%string.

Definition detect_account_terminal_error (e : CoreError) : option string :=
  match e with
  | UpstreamError status _ _ body _ _ _ =>
      let or_else := fun m => Some (default m (extract_error_summary body)) in
      let lower := to_ascii_lowercase body in
      if status =? 402 then or_else "Payment Required (insufficient balance)"%string
      else if status =? 401 then or_else "Unauthorized (invalid or revoked API key)"%string
      else if contains_any terminal_patterns lower
      then or_else "Insufficient balance or quota exhausted"%string
      else if contains "invalid_api_key" lower || contains "incorrect api key" lower
      then or_else "Invalid or expired API key"%string
      else None
  | _ => None
  end.

(** The terminal reason that the breaker acts on: not for provider [zai]. *)
Definition terminal_reason (t : ComboTarget) (r : PipelineResult) : option string :=
  if String.eqb (t_provider_id t) "zai" then None
  else match pr_error r with Some e => detect_account_terminal_error e | None => None end.

Definition update_circuit_breaker_on_result (idle_chunk_retryable : bool) (t : ComboTarget)
    (model_id : string) (r : PipelineResult) (now now_s : Z) (cb : CircuitBreakerRegistry)
    : CircuitBreakerRegistry * list db_effect :=
  match t_account_id t with
  | None => (cb, [])
  | Some aid =>
      let key := key_from_target aid (t_rate_limit_scope t) (t_model_row_id t) in
      match terminal_reason t r with
      | Some reason => (force_unhealthy key now cb, [SetHealthUnhealthy aid reason])
      | None =>
          let live := match pr_error r with
                      | Some e => mark_live_limited_inner now_s aid model_id e
                      | None => []
                      end in
          match pr_error r with
          | Some e =>
              if bool_decide (e = Cancelled ClientDisconnected) then (cb, live)
              else if is_hard_skip e then (cb_record_success key now cb, live)
              else if is_retryable e idle_chunk_retryable then
                let '(cb', o) := record_failure_outcome key now cb in
                (cb', live ++ if fo_just_opened o
                              then [NotifyCircuitOpen aid (fo_consecutive_failures o) (fo_threshold o)]
                              else [])
              else (cb_record_success key now cb, live)
          | None => (cb_record_success key now cb, live)
          end
      end
  end.

(** [compute_error_fingerprint]: what is fed to [DefaultHasher], whose result
    is the parameter [finish].  The prefix of at most 64 bytes ends at a
    character boundary; the last arm hashes the variant's discriminant. *)
Definition floor_char_prefix (n : nat) (bs : list Z) : list Z :=
  match bs !! n with
  | Some b => if (128 <=? b) && (b <=? 191)
              then let fix back (k : nat) :=
                     match k with
                     | O => O
                     | S k' => match bs !! k' with
                               | Some c => if (128 <=? c) && (c <=? 191) then back k' else k'
                               | None => O
                               end
                     end in take (back n) bs
              else take n bs
  | None => bs
  end.

Definition text_prefix (s : string) : string := of_bytes (floor_char_prefix 64 (bytes_of s)).

Definition fingerprint_parts (discriminant : CoreError -> Z) (e : CoreError) : list hash_item :=
  HInt (http_status e) ::
  match e with
  | UpstreamError status _ _ body _ _ _ => [HInt status; HStr (text_prefix body)]
  | UpstreamConnection m => [HStr (text_prefix m)]
  | UpstreamTimeout phase _ => [HStr phase]
  | _ => [HInt (discriminant e)]
  end.

Context (finish : list hash_item -> Z) (discriminant : CoreError -> Z).

Definition compute_error_fingerprint (e : CoreError) : Z := finish (fingerprint_parts discriminant e).

Definition record_predictive_limiter_upstream_error (key : Z) (r : PipelineResult) (now : Z)
    (l : PredictiveRateLimiter) : PredictiveRateLimiter :=
  if pr_status_code r =? 429 then report_rate_limited_key key None now l
  else
    let fingerprint := match pr_error r with Some e => compute_error_fingerprint e | None => 0 end in
    report_upstream_error_with_fingerprint_key key fingerprint now l.

Definition update_predictive_limiter_on_result (t : ComboTarget) (r : PipelineResult) (now : Z)
    (l : PredictiveRateLimiter) : PredictiveRateLimiter :=
  let key := compute_target_key finish t in
  match pr_error r with
  | None => report_success_key key None None now l
  | Some (Cancelled _) | Some RaceLost => release_in_flight_key key l
  | Some (RateLimited _ retry_after_ms _) =>
      report_rate_limited_key key (Some (retry_after_ms / 1000)) now l
  | Some _ => record_predictive_limiter_upstream_error key r now l
  end.

(** Devin's daily and weekly quota messages. *)
Definition devin_error_body_message (body : string) : string :=
  let p := "devin upstream error ("%string in
  if starts_with p body then
    match split_once "): " (String.substring (String.length p) (String.length body) body) with
    | Some (_, msg) => msg
    | None => body
    end
  else body.

Definition classify_devin_quota_exhaustion (msg : string) : option DevinQuotaKind :=
  let lower := to_ascii_lowercase msg in
  if negb (contains "quota" lower && contains "exhausted" lower) then None
  else if contains "weekly" lower then Some Weekly
  else if contains "daily" lower then Some Daily
  else None.

Definition devin_quota_exhaustion_kind (e : CoreError) (status_code : Z) (provider_id : string)
    : option DevinQuotaKind :=
  match e with
  | UpstreamError _ _ _ body _ _ _ =>
      if negb (status_code =? 429) || negb (String.eqb provider_id "devin") then None
      else classify_devin_quota_exhaustion (devin_error_body_message body)
  | _ => None
  end.

(** The stored resets of the session and of the week, in epoch seconds, with
    rows that cannot be read or parsed as [None]. *)
Context (quota_reset_at : Z -> option Z * option Z).

Definition devin_quota_reset_until (aid : Z) (kind : DevinQuotaKind) (now_s : Z) : option Z :=
  let reset := match kind with Daily => (quota_reset_at aid).1 | Weekly => (quota_reset_at aid).2 end in
  match reset with
  | Some reset_at =>
      let delay := reset_at - now_s in
      if (0 <? delay) && (delay <=? 8 * 24 * 3600) then Some reset_at else None
  | None => None
  end.

Definition update_account_rate_limited_until_on_result (t : ComboTarget) (r : PipelineResult)
    (now_s : Z) : list db_effect :=
  match t_account_id t with
  | None => []
  | Some aid =>
      match pr_error r with
      | Some e =>
          let devin_quota := devin_quota_exhaustion_kind e (pr_status_code r) (t_provider_id t) in
          let retry_secs := match e with
                            | RateLimited _ retry_after_ms _ => Some (Z.max (retry_after_ms / 1000) 5)
                            | _ => if pr_status_code r =? 429 then Some 60 else None
                            end in
          match retry_secs with
          | Some secs =>
              let quota := match devin_quota with
                           | Some kind => devin_quota_reset_until aid kind now_s
                           | None => None
                           end in
              [SetRateLimitedUntil aid (default (now_s + as_i64 secs) quota)]
          | None => []
          end
      | None => [ClearRateLimitedUntil aid]
      end
  end.

(** The tail of the target stage (target.rs): the three updates in order. *)
Definition feed_back (idle_chunk_retryable : bool) (t : ComboTarget) (model_id : string)
    (r : PipelineResult) (now now_millis now_s : Z) (s : CircuitBreakerRegistry * PredictiveRateLimiter)
    : (CircuitBreakerRegistry * PredictiveRateLimiter) * list db_effect :=
  let '(cb, fx) := update_circuit_breaker_on_result idle_chunk_retryable t model_id r now now_s s.1 in
  let l := update_predictive_limiter_on_result t r now_millis s.2 in
  ((cb, l), fx ++ update_account_rate_limited_until_on_result t r now_s).
End feedback.

(** usage_tracker.rs *)
Definition is_timeout_error (e : CoreError) : bool :=
  match e with
  | UpstreamTimeout _ _ | Cancelled WatchdogTimeout => true
  | _ => false
  end.

Definition update_selection_registry (target_id total_ms : Z) (err : option CoreError) (now : Z)
    (reg : SelectionRegistry) : SelectionRegistry :=
  match err with
  | None => record_success_with_latency target_id total_ms now reg
  | Some e => record_failure_with_kind target_id (is_timeout_error e) now reg
  end.

(** ** Lemmas *)

Lemma health_after_success k k' now now' r :
  health_at k' now' (cb_record_success k now r)
  = if decide (k = k') then Healthy else health_at k' now' r.
Proof.
  unfold cb_record_success, health_at. destruct (inner r !! k) as [b|] eqn:E; simpl.
  - rewrite lookup_insert. case_decide as Hk; [|done]. by destruct (expired now' _).
  - case_decide; [by subst; rewrite E|done].
Qed.

Lemma health_after_force k now now' r :
  now' < now + unhealthy_duration r -> health_at k now' (force_unhealthy k now r) = Unhealthy.
Proof.
  intros Hlt. unfold health_at, force_unhealthy; simpl. rewrite lookup_insert_eq.
  unfold expired; simpl. by destruct (Z.leb_spec (now + unhealthy_duration r) now'); [lia|].
Qed.

(** Updates of the limiter, seen through the one-map specification. *)
Lemma update_key_lookup l m k f k' :
  limiter_rel l m ->
  shard_for k' (update_key k f l) !! k'
  = if decide (k = k') then Some (f (default tps_default (m !! k))) else m !! k'.
Proof.
  intros Hr. rewrite (shard_for_lookup _ _ _ (update_key_rel l m k f Hr)).
  unfold flat_update. rewrite lookup_insert. by case_decide; [subst|].
Qed.

Lemma release_key_lookup l m k k' :
  limiter_rel l m ->
  shard_for k' (release_in_flight_key k l) !! k'
  = if decide (k = k') then (fun s => set_in_flight (sat_sub (in_flight s) 1) s) <$> m !! k
    else m !! k'.
Proof.
  intros Hr. destruct (prl_apply_rel (PRelease k) l m Hr) as [Hr' _]; simpl in Hr'.
  rewrite (shard_for_lookup _ _ _ Hr'), lookup_alter. by case_decide; [subst|].
Qed.

(** Every report gives back exactly one slot. *)
Lemma apply_success_slot rem rst now s :
  in_flight (apply_success rem rst now s) = sat_sub (in_flight s) 1.
Proof.
  unfold apply_success, advance_elastic_streak, calibrate_from_remaining_header,
    update_window_duration, recover_from_success. by repeat case_match.
Qed.

Lemma report_error_slot fp now s :
  in_flight (report_upstream_error_with_fingerprint fp now s) = sat_sub (in_flight s) 1.
Proof. unfold report_upstream_error_with_fingerprint. by case_match. Qed.

(** [should_retry_key] while the target is blocked. *)
Lemma blocked_no_retry l m k s fp n now r :
  limiter_rel l m -> m !! k = Some s -> blocked_until r s -> now < r ->
  (should_retry_key k fp n now l).2 = false.
Proof.
  intros Hr Hk [Ho Hres] Hlt. unfold should_retry_key; simpl.
  rewrite (shard_for_lookup l m k Hr), Hk; simpl.
  destruct (refresh_open now s) as [Hs _]; [done|lia|]. unfold should_retry. by rewrite Hs.
Qed.

(** A concrete target, results and parameters. *)
Definition no_json : string -> option Json := fun _ => None.
Definition sum_hash : list hash_item -> Z :=
  foldr (fun h acc => match h with HInt z => z | HStr s => Z.of_nat (String.length s) end + 31 * acc) 7.
Definition some_target : ComboTarget :=
  mkTarget 9 0 "p" (Some 3) (Some 4) None 1 5 true ScopeModel
    None None None None None None None None None.
Definition error_result (status : Z) (body : string) : PipelineResult :=
  failure (upstream_error status "p" "m" body false) 1.

(** ** Properties *)

(** Request-shaped failures never open a circuit.  When the result is a
    success, or its error is no terminal account fault and is either flagged
    hard-skip or not retryable, feeding it back makes no healthy key
    unhealthy, at any instant, and the target's own key ends healthy unless
    the client cancelled. *)
Lemma request_faults_never_open json idle t mid r now now_s cb :
  terminal_reason json t r = None ->
  match pr_error r with Some e => is_hard_skip e = true \/ is_retryable e idle = false | None => True end ->
  let cb' := (update_circuit_breaker_on_result json idle t mid r now now_s cb).1 in
  (forall k now', health_at k now' cb = Healthy -> health_at k now' cb' = Healthy)
  /\ (forall aid now', t_account_id t = Some aid -> pr_error r <> Some (Cancelled ClientDisconnected) ->
        health_at (key_from_target aid (t_rate_limit_scope t) (t_model_row_id t)) now' cb' = Healthy).
Proof.
  intros Ht He. unfold update_circuit_breaker_on_result. rewrite Ht.
  destruct (t_account_id t) as [aid|]; [|done]. simpl.
  set (key := key_from_target aid _ _).
  assert (forall cb', cb' = cb_record_success key now cb ->
    (forall k now', health_at k now' cb = Healthy -> health_at k now' cb' = Healthy)
    /\ (forall aid' now', Some aid = Some aid' -> pr_error r <> Some (Cancelled ClientDisconnected) ->
        health_at (key_from_target aid' (t_rate_limit_scope t) (t_model_row_id t)) now' cb' = Healthy))
    as Hsucc.
  { intros cb' ->. split; intros *; rewrite health_after_success.
    - intros Hh. by case_decide.
    - intros [= <-] _. by rewrite decide_True. }
  destruct (pr_error r) as [e|]; [|by apply Hsucc].
  case_bool_decide as Hc; [subst; split; [done|naive_solver]|].
  destruct He as [He|He]; rewrite He; [|destruct (is_hard_skip e)]; by apply Hsucc.
Qed.

Lemma request_faults_never_open_witness :
  let cb := cb_new (mkBreakerConfig 1 1000) in
  health_at (KModel 3 4) 6
    (update_circuit_breaker_on_result no_json true some_target "m" (error_result 400 "bad") 5 0 cb).1 = Healthy.
Proof.
  intros cb. apply (request_faults_never_open no_json true some_target "m" (error_result 400 "bad") 5 0 cb).
  - vm_compute. reflexivity.
  - right. vm_compute. reflexivity.
  - vm_compute. reflexivity.
  - discriminate.
Defined.

(** A terminal account fault parks the account at once.  For a target
    with an account outside provider [zai], a 401 or a 402 always is one; and
    whatever is one opens the circuit of the target's key for the whole
    penalty, whatever its failure count was, and marks the account's row. *)
Lemma terminal_fault_parks_account json idle t mid r now now_s cb aid e :
  t_account_id t = Some aid -> t_provider_id t <> "zai"%string -> pr_error r = Some e ->
  (http_status e = 401 \/ http_status e = 402) /\ is_Some (upstream_error_class e)
  \/ is_Some (detect_account_terminal_error json e) ->
  let out := update_circuit_breaker_on_result json idle t mid r now now_s cb in
  (exists reason, out.2 = [SetHealthUnhealthy aid reason])
  /\ forall now', now' < now + unhealthy_duration cb ->
       health_at (key_from_target aid (t_rate_limit_scope t) (t_model_row_id t)) now' out.1 = Unhealthy.
Proof.
  intros Ha Hz He Hcause.
  assert (is_Some (detect_account_terminal_error json e)) as [reason Hr].
  { destruct Hcause as [[Hs Hc]|Hd]; [|done]. destruct e; try (by destruct Hc). simpl in *.
    destruct Hs as [->| ->]; simpl; eauto. }
  unfold update_circuit_breaker_on_result, terminal_reason. rewrite Ha, He.
  destruct (String.eqb_spec (t_provider_id t) "zai"); [done|]. rewrite Hr. simpl.
  split; [eauto|]. intros now' Hlt. by apply health_after_force.
Qed.

Lemma terminal_fault_parks_account_witness :
  let cb := cb_new (mkBreakerConfig 5 1000) in
  health_at (KModel 3 4) 6
    (update_circuit_breaker_on_result no_json true some_target "m" (error_result 402 "") 5 0 cb).1 = Unhealthy.
Proof.
  intros cb.
  apply (terminal_fault_parks_account no_json true some_target "m" (error_result 402 "") 5 0 cb 3
    (upstream_error 402 "p" "m" "" false)); [reflexivity|discriminate|reflexivity| |zvm].
  left. split; [by right|by eexists].
Defined.

(** A result gives back exactly one in-flight slot.  Whatever the result
    is, feeding it back takes one from the in-flight count of the target's
    key (down to zero) and leaves every other key as it was. *)
Lemma feedback_returns_one_slot finish disc t r now l m s :
  limiter_rel l m ->
  let key := compute_target_key finish t in
  m !! key = Some s ->
  let l' := update_predictive_limiter_on_result finish disc t r now l in
  (exists s', shard_for key l' !! key = Some s' /\ in_flight s' = sat_sub (in_flight s) 1)
  /\ forall k, k <> key -> shard_for k l' !! k = shard_for k l !! k.
Proof.
  intros Hr key Hk. cbn zeta.
  assert (forall f, (forall s, in_flight (f s) = sat_sub (in_flight s) 1) ->
    (exists s', shard_for key (update_key key f l) !! key = Some s' /\ in_flight s' = sat_sub (in_flight s) 1)
    /\ forall k, k <> key -> shard_for k (update_key key f l) !! k = shard_for k l !! k) as Hup.
  { intros f Hf. split.
    - rewrite (update_key_lookup l m key f key Hr), decide_True, Hk by done. simpl. eauto.
    - intros k Hne. rewrite (update_key_lookup l m key f k Hr), decide_False by done.
      by rewrite (shard_for_lookup l m k Hr). }
  assert ((exists s', shard_for key (release_in_flight_key key l) !! key = Some s'
             /\ in_flight s' = sat_sub (in_flight s) 1)
    /\ forall k, k <> key -> shard_for k (release_in_flight_key key l) !! k = shard_for k l !! k) as Hrel.
  { split.
    - rewrite (release_key_lookup l m key key Hr), decide_True, Hk by done. simpl. eauto.
    - intros k Hne. rewrite (release_key_lookup l m key k Hr), decide_False by done.
      by rewrite (shard_for_lookup l m k Hr). }
  unfold update_predictive_limiter_on_result, record_predictive_limiter_upstream_error. fold key.
  destruct (pr_error r) as [e|]; [|apply Hup; intros; apply apply_success_slot].
  destruct e; try apply Hrel; try (apply Hup; done);
    (destruct (pr_status_code r =? 429); apply Hup; [done|intros; apply report_error_slot]).
Qed.

Lemma feedback_returns_one_slot_witness :
  let key := compute_target_key sum_hash some_target in
  let l := (acquire_key key 1000 limiter_new).1 in
  exists s', shard_for key (update_predictive_limiter_on_result sum_hash (fun _ => 0) some_target
                              (error_result 500 "x") 2000 l) !! key = Some s' /\ in_flight s' = 0.
Proof.
  intros key l.
  apply (feedback_returns_one_slot sum_hash (fun _ => 0) some_target (error_result 500 "x") 2000 l
    (flat_apply (PAcquire key 1000) ∅).1 (reserve (refresh 1000 tps_default))).
  - apply (prl_apply_rel (PAcquire key 1000)), limiter_new_rel.
  - vm_compute. reflexivity.
Defined.

(** In a preventive combo a failed target is not retried in place: once
    an error other than a cancellation has been fed back, [should_retry_key]
    refuses for the target's key during the next 3 seconds, whatever the
    fingerprint and the number of local retries. *)
Lemma preventive_retry_refused finish disc t r e now l m fp n now' :
  limiter_rel l m -> pr_error r = Some e -> (forall c, e <> Cancelled c) -> e <> RaceLost ->
  (forall p ms b, e = RateLimited p ms b -> 0 <= ms) ->
  (forall s, m !! compute_target_key finish t = Some s -> 0 <= tps_consecutive_failures s) ->
  0 <= now -> now + MAX_OPEN_PENALTY_MS <= u64_max -> now <= now' < now + MIN_RATE_LIMITED_PENALTY_MS ->
  let l' := update_predictive_limiter_on_result finish disc t r now l in
  (should_retry_key (compute_target_key finish t) fp n now' l').2 = false.
Proof.
  intros Hr He Hc Hl Hms Hf Hnow Hmax Hlt. cbn zeta. set (key := compute_target_key finish t) in *.
  assert (forall f p, (p = f (default tps_default (m !! key))) -> tps_state p = Open ->
    now + MIN_RATE_LIMITED_PENALTY_MS <= reset_at_ms p ->
    (should_retry_key key fp n now' (update_key key f l)).2 = false) as Hup.
  { intros f p -> Ho Hres. eapply (blocked_no_retry _ (flat_update key f m) key);
      [by apply update_key_rel|by apply lookup_insert_eq|by split|lia]. }
  assert (forall ra, match ra with Some s => 0 <= s | None => True end ->
    (should_retry_key key fp n now' (report_rate_limited_key key ra now l)).2 = false) as Hrl.
  { intros ra Hra. eapply Hup; [done|done|]. simpl. pose proof (rate_limited_penalty_bounds ra Hra).
    unfold wrap_add. rewrite Z.mod_small; [lia|].
    unfold u64_max, MAX_OPEN_PENALTY_MS, MIN_RATE_LIMITED_PENALTY_MS in *. lia. }
  assert (forall fp', (should_retry_key key fp n now'
    (report_upstream_error_with_fingerprint_key key fp' now l)).2 = false) as Herr.
  { intros fp'. eapply Hup; [done| |]; unfold report_upstream_error_with_fingerprint; [by case_match|].
    cbn [reset_at_ms set_reset_at]. set (s0 := default tps_default (m !! key)).
    assert (0 <= tps_consecutive_failures s0)
      by (unfold s0; destruct (m !! key) eqn:E; simpl; [by eapply Hf|done]).
    destruct (error_penalty_bounds (sat_add u8_max (tps_consecutive_failures s0) 1));
      [unfold sat_add, u8_max; lia|].
    cbn [tps_consecutive_failures set_state set_streak set_in_flight] in *.
    unfold wrap_add. rewrite Z.mod_small; unfold u64_max, MAX_OPEN_PENALTY_MS, MIN_RATE_LIMITED_PENALTY_MS in *; lia. }
  unfold update_predictive_limiter_on_result, record_predictive_limiter_upstream_error. rewrite He. fold key.
  destruct e; try (by destruct (Hc _ eq_refl)); try done;
    try (destruct (pr_status_code r =? 429); [by apply Hrl|apply Herr]).
  apply Hrl. apply Z.div_pos; [by eapply Hms|lia].
Qed.

Lemma preventive_retry_refused_witness :
  (should_retry_key (compute_target_key sum_hash some_target) 5 1 2001
    (update_predictive_limiter_on_result sum_hash (fun _ => 0) some_target (error_result 500 "x") 2000 limiter_new)).2
  = false.
Proof.
  apply (preventive_retry_refused sum_hash (fun _ => 0) some_target (error_result 500 "x")
    (upstream_error 500 "p" "m" "x" false) 2000 limiter_new ∅);
    [apply limiter_new_rel|reflexivity|discriminate|discriminate|discriminate|discriminate|zvm..].
Defined.
