(* ===== verification/Executor.v ===== *)
(** * The upstream executor

    Models openproxy-pipeline/src/stages/executor.rs with its submodules
    helpers.rs, race.rs and retry.rs: the walk over a combo's targets, the
    local retries of one target, the initial race and the incremental proxy
    race.

    What the walk calls is a parameter: the execution of one target
    ([execute_single], itself a chain of stages), the races, the provider
    row, the candidate proxies, the clock, the client's watch channel and
    [tokio::time::sleep].  They work on an arbitrary environment [env]; only
    an execution or a race may set the stream's commit bit. *)

From Stdlib Require Import Ascii String.
From S2P Require Import Prelude Types Text Errors Predictive Feedback.

#[export] Instance TargetExecutionId_countable : Countable TargetExecutionId.
Proof.
  refine (inj_countable' (fun e => (e_target_id e, e_account_id e)) (fun p => mkExecId p.1 p.2) _).
  by intros [].
Defined.

(** combos.rs: [is_cooldown_disabled] of a combo and of a target. *)
Definition combo_cooldown_disabled (c : Combo) : bool :=
  bool_decide (c_cooldown_mode c = CooldownNone) || bool_decide (c_cooldown_base_secs c = Some 0).

Definition is_cooldown_forced_disabled (t : ComboTarget) : bool :=
  bool_decide (t_cooldown_mode t = Some CooldownNone) || bool_decide (t_cooldown_base_secs t = Some 0).

Definition is_cooldown_disabled (c : Combo) (t : ComboTarget) : bool :=
  is_cooldown_forced_disabled t
  || (bool_decide (t_cooldown_mode t = None) && combo_cooldown_disabled c).

(** ** Pure decisions (helpers.rs, retry.rs) *)

Definition is_max_request_timeout (e : CoreError) : bool :=
  match e with
  | UpstreamTimeout phase _ => contains "total" phase || String.eqb phase "total_ms"
  | Cancelled WatchdogTimeout => true
  | UpstreamError 504 _ _ body _ _ _ => contains "total" body || contains "timeout" body
  | _ => false
  end.

Definition error_matches_part (e : CoreError) (part : string) : bool :=
  match e with
  | RateLimited _ _ _ => String.eqb part "429" || String.eqb part "rate_limited"
  | UpstreamError status _ _ _ _ _ _ =>
      match parse_unsigned u16_max part with Some s => s =? status | None => false end
  | UpstreamConnection _ | UpstreamTimeout _ _ =>
      String.eqb part "connect_error" || String.eqb part "timeout"
  | _ => false
  end.

Definition matches_proxy_rotation_errors (e : CoreError) (rotation_errors_csv : string) : bool :=
  is_proxy_rotated e
  || existsb (fun part => error_matches_part e (trim part)) (split_char "," rotation_errors_csv).

Definition should_retry_target (e : CoreError) (retry_count : Z) (policy : RetryPolicy)
    (idle_chunk_retryable : bool) : bool :=
  if negb (is_retryable e idle_chunk_retryable) then false
  else
    let max := if is_proxy_rotated e then Z.max (max_attempts policy) 150 else max_attempts policy in
    retry_count <? max.

Definition resolve_base_retry_delay (policy : RetryPolicy) (retry_count : Z) (proxy_rotated : bool)
    (jitter : Z) : option Z :=
  match delay_after_attempt policy retry_count jitter with
  | Some d => Some d
  | None => if proxy_rotated then Some 0 else None
  end.

Definition calculate_upstream_delay (e : CoreError) (base_delay : Z) : Z :=
  match e with
  | RateLimited _ _ true | UpstreamError 429 _ _ _ true _ _ => 0
  | RateLimited _ retry_after_ms false => Z.max retry_after_ms base_delay
  | _ => base_delay
  end.

Definition compute_retry_delay (policy : RetryPolicy) (retry_count : Z) (e : CoreError) (jitter : Z)
    : option Z :=
  match resolve_base_retry_delay policy retry_count (is_proxy_rotated e) jitter with
  | Some base_delay => Some (calculate_upstream_delay e base_delay)
  | None => None
  end.

Definition check_retry_delay (policy : RetryPolicy) (retry_count : Z) (e : CoreError) (jitter : Z)
    : option Z :=
  match compute_retry_delay policy retry_count e jitter with
  | Some delay => if 15 <? delay / 1000 then None else Some delay
  | None => None
  end.

Definition target_has_failed (failed : gset TargetExecutionId) (t : ComboTarget) : bool :=
  bool_decide (exec_id_from_target t ∈ failed) || bool_decide (mkExecId (t_id t) None ∈ failed).

(** ** State *)

Record TargetRetryState := mkRetryState {
  rs_policy : RetryPolicy;
  target_local_retry_count : Z;
  can_incremental_race : bool;
  proxy_rotation_errors : string;
  rs_consecutive_failures : Z;
  incremental_batch_size : Z;
  rs_race_size : Z;
  rs_total_targets : Z
}.

Inductive RetryStep :=
  | StepDone (r : PipelineResult)
  | StepNext (r : PipelineResult)
  | StepAbort
  | StepClientDisconnected (r : PipelineResult).

Inductive TargetStepResult :=
  | StepSuccess (r : PipelineResult)
  | StepDisconnected (r : PipelineResult)
  | StepFailed (r : PipelineResult).

Inductive TargetLoopOutcome :=
  | LoopFinish (r : PipelineResult)
  | LoopContinue (r : option PipelineResult)
  | LoopSkip.

Record RaceOutcome := mkRaceOutcome {
  ro_result : PipelineResult;
  ro_failed_targets : gset TargetExecutionId;
  ro_failed_models : gset Z
}.

Inductive InitialRaceOutcome :=
  | RaceFinished (r : PipelineResult)
  | RaceExhausted (last_result : option PipelineResult) (failed : gset TargetExecutionId)
      (failed_models : gset Z).

(** What the walk did upstream, with the commit bit it started from. *)
Inductive CallKind :=
  | CallSingle (t : ComboTarget) (attempt : Z)
  | CallProxyRace (t : ComboTarget) (attempt : Z)
  | CallRace (n : Z).

Record Call := mkCall { call_kind : CallKind; call_committed : bool; call_result : PipelineResult }.

Inductive ThreadOp := ThreadInvalidate | ThreadMarkStateless.

(** The part of the state that upstream executions may change. *)
Record Sys (env : Type) := mkSys { sy_env : env; sy_committed : bool; sy_limiter : PredictiveRateLimiter }.
Arguments mkSys {env} _ _ _.
Arguments sy_env {env} _.
Arguments sy_committed {env} _.
Arguments sy_limiter {env} _.

(** The whole state: [w_marked] are the usage rows marked as the client's
    response, [w_skipped] the rows of preventive skips, [w_walk_log] the
    targets of the walk log with their attempts. *)
Record World (env : Type) := mkWorld {
  w_sys : Sys env;
  w_calls : list Call;
  w_marked : list (option (string * Z * Z));
  w_skipped : list (Z * Z);
  w_walk_log : list (Z * Z);
  w_threads : list ThreadOp
}.
Arguments mkWorld {env} _ _ _ _ _ _.
Arguments w_sys {env} _.
Arguments w_calls {env} _.
Arguments w_marked {env} _.
Arguments w_skipped {env} _.
Arguments w_walk_log {env} _.
Arguments w_threads {env} _.

(** What the executor is given. *)
Record Upstream (env : Type) := mkUpstream {
  execute_single : Sys env -> Combo -> ComboTarget -> Z -> Z -> Z -> Sys env * PipelineResult;
  run_race : Sys env -> Combo -> list ComboTarget -> Z -> Sys env * RaceOutcome;
  run_proxy_race : Sys env -> Combo -> ComboTarget -> list (string * string) -> Z -> Sys env * PipelineResult;
  get_provider : env -> string -> option (bool * string * string);
  get_candidate_proxies : env -> string -> Z -> list (string * string);
  client_disconnected : env -> option CancelReason;
  clock_ms : env -> Z;
  draw_jitter : env -> Z -> Z;
  sleep : env -> PredictiveRateLimiter -> Z -> env * PredictiveRateLimiter
}.
Arguments execute_single {env} _ _ _ _ _ _ _.
Arguments run_race {env} _ _ _ _ _.
Arguments run_proxy_race {env} _ _ _ _ _ _.
Arguments get_provider {env} _ _ _.
Arguments get_candidate_proxies {env} _ _ _ _.
Arguments client_disconnected {env} _ _.
Arguments clock_ms {env} _ _.
Arguments draw_jitter {env} _ _ _.
Arguments sleep {env} _ _ _ _.

(** The configuration the executor reads. *)
Record ExecConfig := mkExecConfig {
  x_retries : RetryPolicy;
  x_idle_chunk_retryable : bool;
  x_max_race_size : Z;
  x_ctx_attempt : Z
}.

(** ** Operations *)

Section executor.
Context {env : Type} (up : Upstream env) (cfg : ExecConfig).
Context (finish : list hash_item -> Z) (discriminant : CoreError -> Z).

Implicit Types w : World env.

Definition w_env w : env := sy_env (w_sys w).

(** [ctx.req.has_stream_output()]. *)
Definition has_stream_output w : bool := sy_committed (w_sys w).

Definition log_call (s : Sys env) (c : Call) w : World env :=
  mkWorld s (c :: w_calls w) (w_marked w) (w_skipped w) (w_walk_log w) (w_threads w).

Definition set_limiter (l : PredictiveRateLimiter) w : World env :=
  mkWorld (mkSys (w_env w) (sy_committed (w_sys w)) l)
    (w_calls w) (w_marked w) (w_skipped w) (w_walk_log w) (w_threads w).

Definition mark_client_response (u : option (string * Z * Z)) w : World env :=
  mkWorld (w_sys w) (w_calls w) (u :: w_marked w) (w_skipped w) (w_walk_log w) (w_threads w).

Definition record_predictive_skipped_row (t : ComboTarget) (attempt : Z) w : World env :=
  mkWorld (w_sys w) (w_calls w) (w_marked w) ((t_id t, attempt) :: w_skipped w) (w_walk_log w) (w_threads w).

Definition push_walk_log (t : ComboTarget) (attempts : Z) w : World env :=
  mkWorld (w_sys w) (w_calls w) (w_marked w) (w_skipped w) ((t_id t, attempts) :: w_walk_log w) (w_threads w).

Definition push_thread_op (o : ThreadOp) w : World env :=
  mkWorld (w_sys w) (w_calls w) (w_marked w) (w_skipped w) (w_walk_log w) (o :: w_threads w).

Definition check_client_cancellation w : option PipelineResult :=
  match client_disconnected up (w_env w) with
  | Some ClientDisconnected => Some (client_disconnected_result (x_ctx_attempt cfg) ClientDisconnected)
  | _ => None
  end.

Definition resolve_target_proxy_mode (t : ComboTarget) w : bool * string :=
  match get_provider up (w_env w) (t_provider_id t) with
  | None => (false, ""%string)
  | Some (use_proxies, rotation_mode, rotation_errors) =>
      let incremental := String.eqb rotation_mode "incremental_race" || String.eqb rotation_mode "incremental" in
      (use_proxies && incremental && bool_decide (t_account_id t = None), rotation_errors)
  end.

Definition retry_state_new (t : ComboTarget) (race_size total_targets : Z) w : TargetRetryState :=
  let '(can_race, errors) := resolve_target_proxy_mode t w in
  mkRetryState (x_retries cfg) 1 can_race errors 0 2 race_size total_targets.

Definition set_retry (count failures batch : Z) (st : TargetRetryState) : TargetRetryState :=
  mkRetryState (rs_policy st) count (can_incremental_race st) (proxy_rotation_errors st)
    failures batch (rs_race_size st) (rs_total_targets st).

Definition track_failure (e : CoreError) (st : TargetRetryState) : TargetRetryState :=
  set_retry (target_local_retry_count st)
    (if matches_proxy_rotation_errors e (proxy_rotation_errors st)
     then sat_add u8_max (rs_consecutive_failures st) 1 else 0)
    (incremental_batch_size st) st.

Definition execute_single_target (combo : Combo) (t : ComboTarget) (attempt race_size total_targets : Z) w
    : World env * PipelineResult :=
  let '(s, r) := execute_single up (w_sys w) combo t attempt (race_size mod 256) (total_targets mod 256) in
  (log_call s (mkCall (CallSingle t attempt) (has_stream_output w) r) w, r).

(** race.rs: [try_incremental_proxy_race]. *)
Definition try_incremental_proxy_race (combo : Combo) (t : ComboTarget) (st : TargetRetryState)
    (overall : Z) w : option (World env * TargetRetryState * Z * PipelineResult) :=
  let proxies := get_candidate_proxies up (w_env w) (t_provider_id t) (incremental_batch_size st) in
  if bool_decide (length proxies < 2)%nat then None
  else
    let overall := sat_add u8_max overall 1 in
    let count := sat_add u8_max (target_local_retry_count st) (Z.of_nat (length proxies) mod 256) in
    let '(s, r) := run_proxy_race up (w_sys w) combo t proxies overall in
    let w := log_call s (mkCall (CallProxyRace t overall) (has_stream_output w) r) w in
    let batch := match pr_error r with
                 | Some _ => Z.min (incremental_batch_size st * 2) 16
                 | None => incremental_batch_size st
                 end in
    Some (w, set_retry count (rs_consecutive_failures st) batch st, overall, r).

Definition try_trigger_incremental_race_fallback (combo : Combo) (t : ComboTarget)
    (st : TargetRetryState) (overall : Z) w : option (World env * TargetRetryState * Z * RetryStep) :=
  if negb (can_incremental_race st) || (rs_consecutive_failures st <? 3) then None
  else match try_incremental_proxy_race combo t st overall w with
       | Some (w, st, overall, r) =>
           Some (w, st, overall, match pr_error r with None => StepDone r | Some _ => StepNext r end)
       | None => None
       end.

Definition compute_and_wait_retry_delay (combo : Combo) (t : ComboTarget) (st : TargetRetryState)
    (e : CoreError) (overall : Z) w : option (World env * TargetRetryState * Z * PipelineResult) :=
  let jitter := draw_jitter up (w_env w) (jitter_amp (rs_policy st) (target_local_retry_count st)) in
  match check_retry_delay (rs_policy st) (target_local_retry_count st) e jitter with
  | None => None
  | Some delay =>
      let '(en, l) := sleep up (w_env w) (sy_limiter (w_sys w)) delay in
      let w := mkWorld (mkSys en (sy_committed (w_sys w)) l)
                 (w_calls w) (w_marked w) (w_skipped w) (w_walk_log w) (w_threads w) in
      let st := set_retry (sat_add u8_max (target_local_retry_count st) 1)
                  (rs_consecutive_failures st) (incremental_batch_size st) st in
      let overall := sat_add u8_max overall 1 in
      let '(w, r) := execute_single_target combo t overall (rs_race_size st) (rs_total_targets st) w in
      Some (w, st, overall, r)
  end.

Definition perform_retry_iteration (combo : Combo) (t : ComboTarget) (st : TargetRetryState)
    (e : CoreError) (overall : Z) w : World env * TargetRetryState * Z * RetryStep :=
  if (1 <? rs_total_targets st) && is_max_request_timeout e then (w, st, overall, StepAbort)
  else if negb (should_retry_target e (target_local_retry_count st) (rs_policy st) (x_idle_chunk_retryable cfg))
  then (w, st, overall, StepAbort)
  else
    let '(w, go) :=
      if c_preventive_rate_limit combo then
        let '(l, ok) := should_retry_key (compute_target_key finish t)
                          (compute_error_fingerprint finish discriminant e)
                          (target_local_retry_count st) (clock_ms up (w_env w)) (sy_limiter (w_sys w)) in
        (set_limiter l w, ok)
      else (w, true) in
    if negb go then (w, st, overall, StepAbort)
    else
      let st := track_failure e st in
      match check_client_cancellation w with
      | Some disc => (w, st, overall, StepClientDisconnected disc)
      | None =>
          match try_trigger_incremental_race_fallback combo t st overall w with
          | Some res => res
          | None =>
              match compute_and_wait_retry_delay combo t st e overall w with
              | Some (w, st, overall, r) => (w, st, overall, StepNext r)
              | None => (w, st, overall, StepAbort)
              end
          end
      end.

(** The [while] of [run_target_with_retries].  [inl] leaves the loop with a
    result, [inr] returns the client's disconnection; [None] is out of fuel. *)
Fixpoint retry_loop (fuel : nat) (combo : Combo) (t : ComboTarget) (st : TargetRetryState)
    (result : PipelineResult) (overall : Z) w
    : option (World env * TargetRetryState * Z * (PipelineResult + PipelineResult)) :=
  match pr_error result with
  | None => Some (w, st, overall, inl result)
  | Some e =>
      if has_stream_output w then Some (w, st, overall, inl result)
      else match fuel with
           | O => None
           | S fuel' =>
               match perform_retry_iteration combo t st e overall w with
               | (w, st, overall, StepDone r) => Some (w, st, overall, inl r)
               | (w, st, overall, StepNext r) => retry_loop fuel' combo t st r overall w
               | (w, st, overall, StepAbort) => Some (w, st, overall, inl result)
               | (w, st, overall, StepClientDisconnected d) => Some (w, st, overall, inr d)
               end
           end
  end.

(** [finalize_target_result] with [log_target_failure]'s entry. *)
Definition finalize_target_result (t : ComboTarget) (r : PipelineResult) (count : Z) w
    : World env * TargetStepResult :=
  match pr_error r with
  | None => (mark_client_response (pr_usage_tuple r) w, StepSuccess r)
  | Some _ => (push_walk_log t count w, StepFailed r)
  end.

(** The count is below 256 and grows with each turn. *)
Definition retry_fuel : nat := 256.

Definition run_target_with_retries (combo : Combo) (t : ComboTarget) (race_size total_targets overall : Z) w
    : option (World env * Z * TargetStepResult) :=
  let st := retry_state_new t race_size total_targets w in
  let '(w, r) := execute_single_target combo t overall race_size total_targets w in
  match retry_loop retry_fuel combo t st r overall w with
  | None => None
  | Some (w, st, overall, inr disc) => Some (w, overall, StepDisconnected disc)
  | Some (w, st, overall, inl r) =>
      let '(w, step) := finalize_target_result t r (target_local_retry_count st) w in
      Some (w, overall, step)
  end.

Definition should_skip_preventive_target (l : PredictiveRateLimiter) (combo : Combo) (t : ComboTarget)
    (remaining : list ComboTarget) (now : Z) : bool :=
  if negb (c_preventive_rate_limit combo) || is_cooldown_disabled combo t then false
  else
    is_saturated (evaluate_key (compute_target_key finish t) now l)
    && existsb (fun alt => is_cooldown_disabled combo alt
                           || negb (is_saturated (evaluate_key (compute_target_key finish alt) now l)))
         remaining.

Definition step_result (s : TargetStepResult) : PipelineResult :=
  match s with StepSuccess r | StepDisconnected r | StepFailed r => r end.

Definition execute_single_target_step (combo : Combo) (t : ComboTarget) (remaining : list ComboTarget)
    (race_size total_targets overall : Z) w : option (World env * Z * TargetLoopOutcome) :=
  match check_client_cancellation w with
  | Some disc => Some (w, overall, LoopFinish disc)
  | None =>
      let now := clock_ms up (w_env w) in
      if should_skip_preventive_target (sy_limiter (w_sys w)) combo t remaining now then
        Some (record_predictive_skipped_row t overall w, sat_add u8_max overall 1, LoopSkip)
      else
        let w := if c_preventive_rate_limit combo
                 then set_limiter (acquire_key (compute_target_key finish t) now (sy_limiter (w_sys w))).1 w
                 else w in
        match run_target_with_retries combo t race_size total_targets overall w with
        | None => None
        | Some (w, overall, step) =>
            let overall := sat_add u8_max overall 1 in
            let outcome :=
              if has_stream_output w then LoopFinish (step_result step)
              else match step with
                   | StepSuccess r => LoopFinish r
                   | StepDisconnected r =>
                       if bool_decide (pr_error r = Some (Cancelled ClientDisconnected))
                          || bool_decide (remaining = [])
                       then LoopFinish r else LoopContinue (Some r)
                   | StepFailed r => LoopContinue (Some r)
                   end in
            Some (w, overall, outcome)
        end
  end.

Definition check_and_handle_thread_errors (t : ComboTarget) (e : CoreError) w : World env :=
  if negb (String.eqb (t_provider_id t) "claude-code") then w
  else match e with
       | UpstreamError status _ _ body _ _ _ =>
           if (status =? 404)
              || contains_any ["thread_not_found"; "thread_fingerprint_mismatch";
                               "thread_already_continued"; "previous_message_id_invalid"]%string body
           then push_thread_op ThreadInvalidate w
           else if contains "thread_unsupported_request" body then push_thread_op ThreadMarkStateless w
           else w
       | _ => w
       end.

(** The three sets the walk keeps: executions, models, and provider-model
    pairs that failed in this request. *)
Record Failed := mkFailed {
  f_targets : gset TargetExecutionId;
  f_models : gset Z;
  f_provider_models : gset (string * Z)
}.

(** Whether the walk passes over [t]; [before] are the targets ahead of it. *)
Definition skip_failed (f : Failed) (before : list ComboTarget) (t : ComboTarget) : bool :=
  target_has_failed (f_targets f) t
  || match t_model_row_id t with
     | None => false
     | Some m =>
         let same_target_rotation := existsb (fun prev => t_id prev =? t_id t) before in
         let untried_account :=
           match t_account_id t with
           | Some aid => negb (existsb (fun ft => bool_decide (e_account_id ft = Some aid))
                                 (elements (f_targets f)))
           | None => false
           end in
         negb same_target_rotation
         && (bool_decide (m ∈ f_models f)
             || (negb untried_account && bool_decide ((t_provider_id t, m) ∈ f_provider_models f)))
     end.

(** What a failed step adds to the sets; [after] are the targets behind [t]. *)
Definition note_failure (t : ComboTarget) (after : list ComboTarget) (e : CoreError) (f : Failed) : Failed :=
  if negb (is_upstream_health_issue e || is_hard_skip e) then f
  else
    let targets := {[exec_id_from_target t]} ∪ f_targets f in
    match t_model_row_id t with
    | None => mkFailed targets (f_models f) (f_provider_models f)
    | Some m =>
        let remaining_accounts :=
          existsb (fun next => (t_id next =? t_id t) && negb (target_has_failed targets next)) after in
        if remaining_accounts then mkFailed targets (f_models f) (f_provider_models f)
        else
          let payload :=
            match e with UpstreamError 400 _ _ _ _ _ _ => true | _ => false end
            || bool_decide (upstream_error_class e = Some InvalidPayload)
            || bool_decide (upstream_error_class e = Some MalformedToolCall) in
          mkFailed targets
            (if is_model_wide_failure t e then {[m]} ∪ f_models f else f_models f)
            (if payload then {[(t_provider_id t, m)]} ∪ f_provider_models f else f_provider_models f)
    end.

Definition finalize_exhausted_combo (combo_id : Z) (last_result : option PipelineResult) w
    : World env * (PipelineResult + CoreError) :=
  match last_result with
  | Some r => match pr_error r with
              | Some _ => (mark_client_response (pr_usage_tuple r) w, inl r)
              | None => (w, inr (NoHealthyTargets combo_id))
              end
  | None => (w, inr (NoHealthyTargets combo_id))
  end.

(** The [for] of [execute_sequential_targets], at the suffix [after]. *)
Fixpoint sequential_loop (combo : Combo) (race_size total : Z) (before after : list ComboTarget)
    (f : Failed) (last_result : option PipelineResult) (overall : Z) w
    : option (World env * (PipelineResult + CoreError)) :=
  match after with
  | [] => Some (finalize_exhausted_combo (c_id combo) last_result w)
  | t :: rest =>
      if skip_failed f before t
      then sequential_loop combo race_size total (before ++ [t]) rest f last_result overall w
      else
        match execute_single_target_step combo t rest race_size total overall w with
        | None => None
        | Some (w, overall, LoopFinish r) => Some (w, inl r)
        | Some (w, overall, LoopSkip) =>
            sequential_loop combo race_size total (before ++ [t]) rest f last_result overall w
        | Some (w, overall, LoopContinue res) =>
            let err := match res with Some r => pr_error r | None => None end in
            let w := match err with Some e => check_and_handle_thread_errors t e w | None => w end in
            let f := match err with Some e => note_failure t rest e f | None => f end in
            sequential_loop combo race_size total (before ++ [t]) rest f res overall w
        end
  end.

Definition execute_sequential_targets (combo : Combo) (to_run : list ComboTarget) (race_size : Z)
    (last_result : option PipelineResult) (failed : gset TargetExecutionId) (failed_models : gset Z) w
    : option (World env * (PipelineResult + CoreError)) :=
  let overall := sat_add u8_max (Z.of_nat (size failed) mod 256) 1 in
  sequential_loop combo race_size (Z.of_nat (length to_run)) [] to_run
    (mkFailed failed failed_models ∅) last_result overall w.

Definition race_width (combo : Combo) (to_run : list ComboTarget) : Z :=
  Z.min (Z.min (c_race_size combo) (Z.of_nat (length to_run))) (x_max_race_size cfg).

Definition extract_execution_plan (combo : option Combo) (to_run : list ComboTarget)
    : (Combo * list ComboTarget * Z) + CoreError :=
  match combo with
  | None => inr (Validation "No combo resolved")
  | Some combo =>
      if bool_decide (to_run = []) then inr (NoHealthyTargets (c_id combo))
      else inl (combo, to_run, race_width combo to_run)
  end.

Definition try_initial_race (combo : Combo) (to_run : list ComboTarget) w
    : World env * option RaceOutcome :=
  if (c_race_size combo <=? 1) || bool_decide (length to_run < 2)%nat then (w, None)
  else
    let race_n := race_width combo to_run in
    let '(s, o) := run_race up (w_sys w) combo (take (Z.to_nat race_n) to_run) (race_n mod 256) in
    let w := log_call s (mkCall (CallRace race_n) (has_stream_output w) (ro_result o)) w in
    match pr_error (ro_result o) with
    | None => (mark_client_response (pr_usage_tuple (ro_result o)) w, Some o)
    | Some _ => (w, Some o)
    end.

Definition evaluate_initial_race (combo : Combo) (to_run : list ComboTarget) w
    : World env * InitialRaceOutcome :=
  match try_initial_race combo to_run w with
  | (w, Some o) =>
      if bool_decide (pr_error (ro_result o) = None) || has_stream_output w
      then (w, RaceFinished (ro_result o))
      else (w, RaceExhausted (Some (ro_result o)) (ro_failed_targets o) (ro_failed_models o))
  | (w, None) => (w, RaceExhausted None ∅ ∅)
  end.

(** [UpstreamExecutorStage::execute]. *)
Definition executor_execute (combo : option Combo) (targets : list ComboTarget) w
    : option (World env * (PipelineResult + CoreError)) :=
  match extract_execution_plan combo targets with
  | inr e => Some (w, inr e)
  | inl (combo, to_run, race_size) =>
      match evaluate_initial_race combo to_run w with
      | (w, RaceFinished r) => Some (w, inl r)
      | (w, RaceExhausted last failed failed_models) =>
          execute_sequential_targets combo to_run race_size last failed failed_models w
      end
  end.

(** ** Lemmas *)

(** What a part of the walk adds to the call log: calls that satisfy [P],
    each started before any byte was committed. *)
Definition extends (P : Call -> Prop) w w' : Prop :=
  exists cs, w_calls w' = cs ++ w_calls w
             /\ Forall (fun c => call_committed c = false /\ P c) cs.

(** A result is genuine if a logged call returned it or if it reports the
    client's disconnection. *)
Definition answered w (r : PipelineResult) : Prop :=
  r ∈ call_result <$> w_calls w
  \/ r = client_disconnected_result (x_ctx_attempt cfg) ClientDisconnected.

Lemma extends_refl P w w' : w_calls w' = w_calls w -> extends P w w'.
Proof. intros Heq. exists []. by rewrite Heq. Qed.

Lemma extends_trans P w1 w2 w3 : extends P w1 w2 -> extends P w2 w3 -> extends P w1 w3.
Proof.
  intros (c1 & H1 & F1) (c2 & H2 & F2). exists (c2 ++ c1).
  rewrite H2, H1, app_assoc. split; [done|by apply Forall_app].
Qed.

Lemma extends_impl (P Q : Call -> Prop) w w' :
  (forall c, P c -> Q c) -> extends P w w' -> extends Q w w'.
Proof.
  intros Himp (cs & Hc & HF). exists cs. split; [done|]. eapply Forall_impl; [done|]. naive_solver.
Qed.

Lemma extends_eq_l P w1 w1' w2 : w_calls w1 = w_calls w1' -> extends P w1 w2 -> extends P w1' w2.
Proof. intros Heq (cs & H1 & H2). exists cs. by rewrite <- Heq. Qed.

Lemma answered_extends P w w' r : extends P w w' -> answered w r -> answered w' r.
Proof.
  intros (cs & Hc & _) [Hr|Hr]; [left|by right]. rewrite Hc, fmap_app. apply elem_of_app. by right.
Qed.

(** Calls made on behalf of the target [t]. *)
Definition call_of (t : ComboTarget) (c : Call) : Prop :=
  match call_kind c with CallSingle t' _ | CallProxyRace t' _ => t' = t | CallRace _ => False end.

Lemma execute_single_target_spec combo t a rsz tot w :
  has_stream_output w = false ->
  let '(w', r) := execute_single_target combo t a rsz tot w in
  extends (call_of t) w w' /\ answered w' r
  /\ length (w_calls w') = S (length (w_calls w)).
Proof.
  intros Hc. unfold execute_single_target.
  destruct (execute_single up _ _ _ _ _ _) as [s r]. split_and!; simpl; [|left; set_solver|done].
  eexists [_]. split; [done|]. by constructor.
Qed.

Lemma proxy_race_spec combo t st ov w :
  has_stream_output w = false ->
  match try_trigger_incremental_race_fallback combo t st ov w with
  | Some (w', st', ov', step) =>
      extends (call_of t) w w' /\ length (w_calls w') = S (length (w_calls w))
      /\ match step with StepDone r | StepNext r => answered w' r | _ => False end
      /\ target_local_retry_count st'
         = sat_add u8_max (target_local_retry_count st)
             (Z.of_nat (length (get_candidate_proxies up (w_env w) (t_provider_id t)
                                  (incremental_batch_size st))) mod 256)
      /\ (2 <= length (get_candidate_proxies up (w_env w) (t_provider_id t)
                         (incremental_batch_size st)))%nat
      /\ rs_policy st' = rs_policy st
      /\ incremental_batch_size st' = match step with
           | StepNext _ => Z.min (incremental_batch_size st * 2) 16
           | _ => incremental_batch_size st end
  | None => True
  end.
Proof.
  intros Hc. unfold try_trigger_incremental_race_fallback, try_incremental_proxy_race.
  destruct (negb _ || _); [done|]. case_bool_decide as Hlen; [done|].
  destruct (run_proxy_race up _ _ _ _ _) as [s r]; simpl. split_and!.
  - eexists [_]. split; [done|]. by constructor.
  - done.
  - destruct (pr_error r); left; set_solver.
  - done.
  - lia.
  - done.
  - by destruct (pr_error r).
Qed.

Lemma wait_retry_spec combo t st e ov w :
  has_stream_output w = false ->
  match compute_and_wait_retry_delay combo t st e ov w with
  | Some (w', st', ov', r) =>
      extends (call_of t) w w' /\ length (w_calls w') = S (length (w_calls w)) /\ answered w' r
      /\ target_local_retry_count st' = sat_add u8_max (target_local_retry_count st) 1
      /\ rs_policy st' = rs_policy st
      /\ incremental_batch_size st' = incremental_batch_size st
  | None => True
  end.
Proof.
  intros Hc. unfold compute_and_wait_retry_delay.
  destruct (check_retry_delay _ _ _ _) as [d|]; [|done]. destruct (sleep up _ _ _) as [en l].
  pose proof (execute_single_target_spec combo t (sat_add u8_max ov 1)
    (rs_race_size st) (rs_total_targets st)
    (mkWorld (mkSys en (sy_committed (w_sys w)) l)
       (w_calls w) (w_marked w) (w_skipped w) (w_walk_log w) (w_threads w)) Hc) as Hs.
  simpl in *. destruct (execute_single_target _ _ _ _ _ _) as [w' r].
  destruct Hs as (H1 & H2 & H3). split_and!; done.
Qed.

(** What the loop's termination rests on: a sane policy, and a repository
    that honours the limit it is given. *)
Definition upstream_ok : Prop :=
  policy_wf (x_retries cfg)
  /\ forall en p n, 0 <= n -> Z.of_nat (length (get_candidate_proxies up en p n)) <= n.

Definition retry_wf (st : TargetRetryState) : Prop :=
  1 <= target_local_retry_count st <= u8_max /\ 2 <= incremental_batch_size st <= 16
  /\ rs_policy st = x_retries cfg.

(** The most executions one target gets. *)
Definition attempt_bound : Z := Z.max (max_attempts (x_retries cfg)) 150.

Lemma should_retry_bound e st :
  retry_wf st ->
  should_retry_target e (target_local_retry_count st) (rs_policy st) (x_idle_chunk_retryable cfg) = true ->
  target_local_retry_count st < attempt_bound.
Proof.
  intros (_ & _ & Hp) H. unfold should_retry_target in H. rewrite Hp in H. unfold attempt_bound.
  destruct (negb _); [done|]. zbool. destruct (is_proxy_rotated e); lia.
Qed.

Lemma check_client_cancellation_spec w d :
  check_client_cancellation w = Some d ->
  d = client_disconnected_result (x_ctx_attempt cfg) ClientDisconnected.
Proof. unfold check_client_cancellation. destruct (client_disconnected _ _) as [[]|]; naive_solver. Qed.

Lemma perform_retry_spec combo t st e ov w :
  upstream_ok -> retry_wf st -> has_stream_output w = false ->
  let '(w', st', ov', step) := perform_retry_iteration combo t st e ov w in
  extends (call_of t) w w'
  /\ match step with
     | StepDone r => answered w' r /\ length (w_calls w') = S (length (w_calls w))
                     /\ target_local_retry_count st < attempt_bound
     | StepNext r => answered w' r /\ length (w_calls w') = S (length (w_calls w)) /\ retry_wf st'
                     /\ target_local_retry_count st < attempt_bound
                     /\ target_local_retry_count st < target_local_retry_count st'
     | StepAbort => w_calls w' = w_calls w
     | StepClientDisconnected d =>
         w_calls w' = w_calls w
         /\ d = client_disconnected_result (x_ctx_attempt cfg) ClientDisconnected
     end.
Proof.
  intros [Hpol Hcand] Hwf Hc. unfold perform_retry_iteration.
  destruct (_ && _); [by split; [apply extends_refl|]|].
  destruct (should_retry_target _ _ _ _) eqn:Hs; simpl; [|by split; [apply extends_refl|]].
  apply should_retry_bound in Hs; [|done].
  set (wg := if c_preventive_rate_limit combo then _ else _).
  assert (w_calls wg.1 = w_calls w /\ has_stream_output wg.1 = false) as [Hcalls Hc1].
  { unfold wg. by destruct (c_preventive_rate_limit combo). }
  destruct wg as [w1 go]; simpl in *. destruct go; simpl; [|by split; [apply extends_refl|]].
  set (st1 := track_failure e st).
  assert (target_local_retry_count st1 = target_local_retry_count st
    /\ incremental_batch_size st1 = incremental_batch_size st /\ rs_policy st1 = rs_policy st)
    as (E1 & E2 & E3) by done.
  assert (attempt_bound <= u8_max) as HM.
  { unfold attempt_bound. destruct Hpol as [Hm _]. unfold in_u, u8_max in *. lia. }
  destruct Hwf as (W1 & W2 & W3).
  destruct (check_client_cancellation w1) as [d|] eqn:Hd.
  { split; [by apply extends_refl|]. split; [done|by eapply check_client_cancellation_spec]. }
  pose proof (proxy_race_spec combo t st1 ov w1 Hc1) as Hp.
  destruct (try_trigger_incremental_race_fallback _ _ _ _ _) as [[[[w2 st2] ov2] step]|].
  { destruct Hp as (P1 & P2 & P3 & P4 & P5 & P6 & P7). apply (extends_eq_l _ w1 w) in P1; [|done].
    specialize (Hcand (w_env w1) (t_provider_id t) (incremental_batch_size st1) ltac:(lia)).
    revert Hcand P4 P5. generalize (length (get_candidate_proxies up (w_env w1) (t_provider_id t)
      (incremental_batch_size st1))). intros len Hcand P4 P5. rewrite E2 in Hcand.
    rewrite Z.mod_small in P4 by lia. rewrite Hcalls in P2. split; [done|].
    destruct step; try done; split_and!; try done; unfold retry_wf in *; rewrite ?P4, ?P6, ?P7, ?E1, ?E2, ?E3;
      unfold sat_add, u8_max in *; split_and?; try done; lia. }
  clear Hp. pose proof (wait_retry_spec combo t st1 e ov w1 Hc1) as Hq.
  destruct (compute_and_wait_retry_delay _ _ _ _ _ _) as [[[[w2 st2] ov2] r]|];
    [|by split; [apply extends_refl|]].
  destruct Hq as (Q1 & Q2 & Q3 & Q4 & Q5 & Q6). apply (extends_eq_l _ w1 w) in Q1; [|done].
  rewrite Hcalls in Q2. split; [done|]. split_and!; try done; unfold retry_wf in *;
    rewrite ?Q4, ?Q5, ?Q6, ?E1, ?E2, ?E3; unfold sat_add, u8_max in *; split_and?; try done; lia.
Qed.

Definition result_of (x : PipelineResult + PipelineResult) : PipelineResult :=
  match x with inl r | inr r => r end.

Lemma retry_loop_spec fuel combo t st r ov w :
  upstream_ok -> retry_wf st -> answered w r ->
  u8_max - target_local_retry_count st < Z.of_nat fuel ->
  exists w' st' ov' x,
    retry_loop fuel combo t st r ov w = Some (w', st', ov', x)
    /\ extends (call_of t) w w' /\ answered w' (result_of x)
    /\ Z.of_nat (length (w_calls w'))
       <= Z.of_nat (length (w_calls w)) + Z.max 0 (attempt_bound - target_local_retry_count st)
    /\ match x with inr d => d = client_disconnected_result (x_ctx_attempt cfg) ClientDisconnected
       | inl _ => True end.
Proof.
  intros Hok. revert st r ov w. induction fuel as [|fuel IH]; intros st r ov w Hwf Ha Hf.
  { destruct Hwf as [? _]. lia. }
  cbn [retry_loop]. destruct (pr_error r) as [e|].
  2: { eexists _, _, _, _. split; [done|]. split_and!; [by apply extends_refl|done|lia|done]. }
  destruct (has_stream_output w) eqn:Hc.
  { eexists _, _, _, _. split; [done|]. split_and!; [by apply extends_refl|done|lia|done]. }
  pose proof (perform_retry_spec combo t st e ov w Hok Hwf Hc) as Hp.
  destruct (perform_retry_iteration _ _ _ _ _ _) as [[[w1 st1] ov1] step].
  destruct Hp as [Hext Hp]. destruct step as [r1|r1| |d].
  - destruct Hp as (P1 & P2 & P3). eexists _, _, _, _. split; [done|]. split_and!; [done..|lia|done].
  - destruct Hp as (P1 & P2 & P3 & P4 & P5).
    destruct (IH st1 r1 ov1 w1) as (w' & st' & ov' & x & -> & H1 & H2 & H3 & H4); [done..|lia|].
    eexists _, _, _, _. split; [done|]. split_and!; [by eapply extends_trans|done|lia|done].
  - eexists _, _, _, _. split; [done|].
    split_and!; [done|by eapply answered_extends|rewrite Hp; lia|done].
  - destruct Hp as [P1 ->]. eexists _, _, _, _. split; [done|].
    split_and!; [done|by right|rewrite P1; lia|done].
Qed.

Lemma retry_state_new_wf t rsz tot w : upstream_ok -> retry_wf (retry_state_new t rsz tot w).
Proof.
  intros _. unfold retry_state_new. destruct (resolve_target_proxy_mode t w). by split_and!.
Qed.

(** A step that did not finish the walk carries an error. *)
Definition step_ok (s : TargetStepResult) : Prop :=
  match s with
  | StepSuccess r => pr_error r = None
  | StepFailed r => pr_error r <> None
  | StepDisconnected r => r = client_disconnected_result (x_ctx_attempt cfg) ClientDisconnected
  end.

Lemma run_target_spec combo t rsz tot ov w :
  upstream_ok -> has_stream_output w = false ->
  exists w' ov' step,
    run_target_with_retries combo t rsz tot ov w = Some (w', ov', step)
    /\ extends (call_of t) w w' /\ answered w' (step_result step) /\ step_ok step
    /\ (S (length (w_calls w)) <= length (w_calls w'))%nat
    /\ Z.of_nat (length (w_calls w')) <= Z.of_nat (length (w_calls w)) + attempt_bound.
Proof.
  intros Hok Hc. unfold run_target_with_retries.
  pose proof (execute_single_target_spec combo t ov rsz tot w Hc) as Hs.
  destruct (execute_single_target _ _ _ _ _ _) as [w1 r1]. destruct Hs as (S1 & S2 & S3).
  pose proof (retry_state_new_wf t rsz tot w Hok) as Hwf.
  assert (target_local_retry_count (retry_state_new t rsz tot w) = 1) as Hcnt.
  { unfold retry_state_new. by destruct (resolve_target_proxy_mode t w). }
  destruct (retry_loop_spec retry_fuel combo t (retry_state_new t rsz tot w) r1 ov w1)
    as (w2 & st2 & ov2 & x & -> & H1 & H2 & H3 & H4); [done..| |].
  { rewrite Hcnt. unfold retry_fuel, u8_max. lia. }
  rewrite Hcnt in H3. pose proof (extends_trans _ _ _ _ S1 H1) as Hext.
  assert (150 <= attempt_bound) by (unfold attempt_bound; lia).
  assert (length (w_calls w1) <= length (w_calls w2))%nat.
  { destruct H1 as (cs & -> & _). rewrite length_app. lia. }
  destruct x as [r2|d]; simpl in *.
  - unfold finalize_target_result. destruct (pr_error r2) eqn:He; simpl;
      (eexists _, _, _; split; [done|]; split_and!; simpl; [done|done|congruence|lia|lia]).
  - eexists _, _, _. split; [done|]. split_and!; simpl; [done|done|done|lia|lia].
Qed.

Lemma step_spec combo t rest rsz tot ov w :
  upstream_ok -> has_stream_output w = false ->
  exists w' ov' o,
    execute_single_target_step combo t rest rsz tot ov w = Some (w', ov', o)
    /\ extends (call_of t) w w'
    /\ Z.of_nat (length (w_calls w')) <= Z.of_nat (length (w_calls w)) + attempt_bound
    /\ match o with
       | LoopFinish r => answered w' r
       | LoopContinue res => has_stream_output w' = false
           /\ (S (length (w_calls w)) <= length (w_calls w'))%nat
           /\ exists r, res = Some r /\ answered w' r /\ pr_error r <> None
       | LoopSkip => has_stream_output w' = false /\ rest <> []
       end.
Proof.
  intros Hok Hc. unfold execute_single_target_step.
  assert (150 <= attempt_bound) by (unfold attempt_bound; lia).
  destruct (check_client_cancellation w) as [d|] eqn:Hd.
  { apply check_client_cancellation_spec in Hd as ->. eexists _, _, _. split; [done|].
    split_and!; [by apply extends_refl|lia|by right]. }
  destruct (should_skip_preventive_target _ _ _ _ _) eqn:Hskip.
  { eexists _, _, _. split; [done|]. split_and!; [by apply extends_refl|simpl; lia|done|].
    intros ->. unfold should_skip_preventive_target in Hskip. simpl in Hskip.
    rewrite andb_false_r in Hskip. by destruct (_ || _). }
  set (w1 := if c_preventive_rate_limit combo then _ else w).
  assert (w_calls w1 = w_calls w /\ has_stream_output w1 = false) as [Hw1 Hc1]
    by (unfold w1; by destruct (c_preventive_rate_limit combo)).
  destruct (run_target_spec combo t rsz tot ov w1 Hok Hc1)
    as (w2 & ov2 & step & -> & H1 & H2 & H3 & H4 & H5).
  rewrite Hw1 in H4, H5. apply (extends_eq_l _ w1 w) in H1; [|done].
  eexists _, _, _. split; [done|]. split; [done|]. split; [done|].
  destruct (has_stream_output w2) eqn:Hc2; [done|].
  destruct step as [r|r|r]; simpl in *; [done| |by split_and!; eauto].
  subst r. by rewrite bool_decide_true.
Qed.

Lemma target_has_failed_mono (F F' : gset TargetExecutionId) t :
  F ⊆ F' -> target_has_failed F t = true -> target_has_failed F' t = true.
Proof.
  intros HF. unfold target_has_failed. rewrite !orb_true_iff, !bool_decide_eq_true. set_solver.
Qed.

Lemma note_failure_mono t rest e f : f_targets f ⊆ f_targets (note_failure t rest e f).
Proof. unfold note_failure. repeat case_match; simpl; set_solver. Qed.

Lemma thread_errors_frame t e w :
  w_calls (check_and_handle_thread_errors t e w) = w_calls w
  /\ has_stream_output (check_and_handle_thread_errors t e w) = has_stream_output w.
Proof. unfold check_and_handle_thread_errors. by repeat case_match. Qed.

(** Calls on targets of [ts] outside [F]. *)
Definition call_among (F : gset TargetExecutionId) (ts : list ComboTarget) (c : Call) : Prop :=
  exists t, t ∈ ts /\ target_has_failed F t = false /\ call_of t c.

Lemma call_among_cons F t ts c : call_among F ts c -> call_among F (t :: ts) c.
Proof. intros (t' & ? & ?). exists t'. split; [set_solver|done]. Qed.

(** An answer is certain once an error is at hand, or when nothing has failed
    yet and there is a target to run. *)
Definition must_answer (f : Failed) (last : option PipelineResult) (ts : list ComboTarget) : Prop :=
  (exists r, last = Some r /\ pr_error r <> None) \/ (f = mkFailed ∅ ∅ ∅ /\ ts <> []).

Definition loop_ok (combo : Combo) (f : Failed) (last : option PipelineResult) (F : gset TargetExecutionId)
    (ts : list ComboTarget) w (out : option (World env * (PipelineResult + CoreError))) : Prop :=
  exists w' res,
    out = Some (w', res)
    /\ extends (call_among F ts) w w'
    /\ Z.of_nat (length (w_calls w'))
       <= Z.of_nat (length (w_calls w)) + Z.of_nat (length ts) * attempt_bound
    /\ (must_answer f last ts -> exists r, res = inl r)
    /\ match res with inl r => answered w' r | inr e => e = NoHealthyTargets (c_id combo) end.

(** The walk goes on behind [t]. *)
Lemma loop_ok_cons combo f f' last last' F t ts w w1 out :
  extends (call_among F (t :: ts)) w w1 ->
  Z.of_nat (length (w_calls w1)) <= Z.of_nat (length (w_calls w)) + attempt_bound ->
  (must_answer f last (t :: ts) -> must_answer f' last' ts) ->
  loop_ok combo f' last' F ts w1 out -> loop_ok combo f last F (t :: ts) w out.
Proof.
  intros He Hl Hm (w' & res & -> & H1 & H2 & H3 & H4). exists w', res. split; [done|].
  split_and!; [|simpl length; lia|naive_solver|done].
  eapply extends_trans; [done|]. eapply extends_impl; [|done]. apply call_among_cons.
Qed.

Lemma skip_failed_none before t : skip_failed (mkFailed ∅ ∅ ∅) before t = false.
Proof.
  unfold skip_failed, target_has_failed. simpl.
  rewrite !bool_decide_false by set_solver. simpl. destruct (t_model_row_id t); [|done].
  rewrite !bool_decide_false by set_solver. by rewrite andb_false_r, andb_false_r.
Qed.

Lemma sequential_spec combo rsz tot F before ts f last ov w :
  upstream_ok -> has_stream_output w = false -> F ⊆ f_targets f ->
  (forall r, last = Some r -> answered w r) ->
  loop_ok combo f last F ts w (sequential_loop combo rsz tot before ts f last ov w).
Proof.
  intros Hok. revert before f last ov w.
  assert (150 <= attempt_bound) by (unfold attempt_bound; lia).
  induction ts as [|t ts IH]; intros before f last ov w Hc HF Hlast.
  { unfold sequential_loop, finalize_exhausted_combo.
    destruct last as [r|]; [destruct (pr_error r) eqn:He|]; eexists _, _; (split; [done|]);
      (split_and!; [by apply extends_refl|simpl; lia| |done || by apply Hlast]);
      unfold must_answer; naive_solver. }
  cbn [sequential_loop]. destruct (skip_failed f before t) eqn:Hsk.
  { eapply loop_ok_cons; [by apply extends_refl|lia| |by apply IH].
    intros [?|[-> _]]; [by left|]. by rewrite skip_failed_none in Hsk. }
  assert (target_has_failed F t = false) as Hnf.
  { destruct (target_has_failed F t) eqn:E; [|done].
    apply (target_has_failed_mono F (f_targets f)) in E; [|done].
    unfold skip_failed in Hsk. by rewrite E in Hsk. }
  destruct (step_spec combo t ts rsz tot ov w Hok Hc) as (w1 & ov1 & o & -> & H1 & H2 & H3).
  assert (extends (call_among F (t :: ts)) w w1) as He.
  { eapply extends_impl; [|exact H1]. intros c Hcall. exists t. split; [set_solver|done]. }
  destruct o as [r|res|].
  - exists w1, (inl r). split; [done|]. split_and!; [done|simpl length; lia|eauto|done].
  - destruct H3 as (Hc1 & _ & r & -> & Ha & Hne). destruct (pr_error r) as [e|] eqn:Her; [|done].
    destruct (thread_errors_frame t e w1) as [Hth1 Hth2].
    eapply loop_ok_cons; [|rewrite Hth1; exact H2| |apply IH].
    + eapply extends_trans; [done|]. by apply extends_refl.
    + intros _. left. exists r. by rewrite Her.
    + by rewrite Hth2.
    + etrans; [done|]. apply note_failure_mono.
    + intros r' [= <-]. unfold answered. by rewrite Hth1.
  - destruct H3 as [Hc1 Hne]. eapply loop_ok_cons; [done|done| |apply IH; [done..|]].
    + intros [?|[-> _]]; [by left|by right].
    + intros r' Hr'. eapply answered_extends; [done|by apply Hlast].
Qed.

(** Calls of the executor as a whole: a race, or on a target of the combo. *)
Definition any_call (ts : list ComboTarget) (c : Call) : Prop :=
  match call_kind c with CallRace _ => True | CallSingle t _ | CallProxyRace t _ => t ∈ ts end.

Lemma initial_race_spec combo ts w :
  has_stream_output w = false ->
  let '(w', o) := evaluate_initial_race combo ts w in
  extends (any_call ts) w w' /\ (length (w_calls w') <= S (length (w_calls w)))%nat
  /\ match o with
     | RaceFinished r => answered w' r
     | RaceExhausted last failed failed_models =>
         has_stream_output w' = false
         /\ ((last = None /\ failed = ∅ /\ failed_models = ∅)
             \/ exists r, last = Some r /\ answered w' r /\ pr_error r <> None)
     end.
Proof.
  intros Hc. unfold evaluate_initial_race, try_initial_race.
  destruct (_ || _). { split_and!; [by apply extends_refl|lia|done|by left]. }
  destruct (run_race up _ _ _ _) as [s o].
  set (w1 := log_call s (mkCall (CallRace (race_width combo ts)) (has_stream_output w) (ro_result o)) w).
  assert (extends (any_call ts) w w1 /\ length (w_calls w1) = S (length (w_calls w))
    /\ answered w1 (ro_result o)) as (H1 & H2 & H3).
  { split_and!; [|done|left; set_solver]. eexists [_]. split; [done|]. by constructor. }
  destruct (pr_error (ro_result o)) as [e|] eqn:He.
  - rewrite bool_decide_false by congruence. simpl. destruct (sy_committed s) eqn:Hs; simpl.
    + unfold has_stream_output. cbn [w1 w_sys log_call]. rewrite Hs.
      split_and!; [done|by rewrite H2|done].
    + unfold has_stream_output. cbn [w1 w_sys log_call]. rewrite Hs.
      split_and!; [done|by rewrite H2|done|]. right. eexists. split_and!; [done|done|congruence].
  - rewrite bool_decide_true by done. simpl. split_and!; [done|by rewrite <- H2|done].
Qed.

Lemma executor_spec combo ts w :
  upstream_ok -> has_stream_output w = false ->
  exists w' res,
    executor_execute combo ts w = Some (w', res)
    /\ extends (any_call ts) w w'
    /\ Z.of_nat (length (w_calls w'))
       <= Z.of_nat (length (w_calls w)) + 1 + Z.of_nat (length ts) * attempt_bound
    /\ match res with
       | inl r => answered w' r
       | inr e => combo = None \/ ts = []
       end.
Proof.
  intros Hok Hc. unfold executor_execute, extract_execution_plan.
  assert (150 <= attempt_bound) by (unfold attempt_bound; lia).
  destruct combo as [combo|].
  2: { eexists _, _. split; [done|]. split_and!; [by apply extends_refl|lia|by left]. }
  case_bool_decide as Hts.
  { eexists _, _. split; [done|]. split_and!; [by apply extends_refl|lia|by right]. }
  pose proof (initial_race_spec combo ts w Hc) as Hr.
  destruct (evaluate_initial_race combo ts w) as [w1 o]. destruct Hr as (R1 & R2 & R3).
  destruct o as [r|last failed fm].
  { eexists _, _. split; [done|]. split_and!; [done|lia|done]. }
  destruct R3 as [Hc1 Hlast]. unfold execute_sequential_targets.
  destruct (sequential_spec combo (race_width combo ts) (Z.of_nat (length ts)) failed [] ts
    (mkFailed failed fm ∅) last (sat_add u8_max (Z.of_nat (size failed) mod 256) 1) w1)
    as (w2 & res & -> & H1 & H2 & H3 & H4); [done..| |].
  { naive_solver. }
  eexists _, _. split; [done|]. split_and!; [|lia|].
  - eapply extends_trans; [done|]. eapply extends_impl; [|exact H1].
    intros c (t & Ht & _ & Hcall). unfold call_of, any_call in *. by destruct (call_kind c); subst.
  - destruct res as [r|e]; [done|]. exfalso.
    destruct H3 as [r Hr]; [|done]. unfold must_answer.
    destruct Hlast as [(-> & -> & ->)|(r & -> & _ & Hne)]; [by right|left; eauto].
Qed.
End executor.

(** A concrete upstream: the first attempt of a request fails to connect,
    later ones succeed. *)
Definition demo_upstream : Upstream unit :=
  mkUpstream unit
    (fun s _ _ attempt _ _ =>
       (s, if attempt =? 1 then failure (UpstreamConnection "refused") 1 else mkResult 200 None None attempt None))
    (fun s combo _ n => (s, mkRaceOutcome (failure (NoHealthyTargets (c_id combo)) n) ∅ ∅))
    (fun s combo _ _ n => (s, failure (NoHealthyTargets (c_id combo)) n))
    (fun _ _ => None) (fun _ _ _ => []) (fun _ => None) (fun _ => 5000) (fun _ _ => 0) (fun e l _ => (e, l)).
Definition demo_config : ExecConfig := mkExecConfig (mkRetryPolicy 3 100 2 10 false) false 4 1.
Definition demo_world : World unit := mkWorld (mkSys tt false limiter_new) [] [] [] [] [].

Lemma demo_upstream_ok : upstream_ok demo_upstream demo_config.
Proof. split; [zvm|]. simpl. lia. Qed.

(** ** Properties *)

(** C2. The executor terminates and its work is bounded: for every combo,
    target list and upstream behaviour it returns, after at most one race and
    at most [max (max_attempts, 150)] executions per target.  (The repository
    must honour the limit it is given, and the policy fit its types.) *)
Theorem executor_terminates {env} (up : Upstream env) cfg finish disc combo ts w :
  upstream_ok up cfg -> has_stream_output w = false ->
  exists w' res,
    executor_execute up cfg finish disc combo ts w = Some (w', res)
    /\ Z.of_nat (length (w_calls w'))
       <= Z.of_nat (length (w_calls w)) + 1 + Z.of_nat (length ts) * Z.max (max_attempts (x_retries cfg)) 150.
Proof.
  intros Hok Hc. destruct (executor_spec up cfg finish disc combo ts w Hok Hc) as (w' & res & H1 & _ & H2 & _).
  eauto.
Qed.

Lemma executor_terminates_witness :
  exists w' res,
    executor_execute demo_upstream demo_config sum_hash (fun _ => 0) (Some default_combo) [some_target; default_target]
      demo_world = Some (w', res)
    /\ Z.of_nat (length (w_calls w')) <= 301.
Proof. apply (executor_terminates demo_upstream demo_config); [apply demo_upstream_ok|reflexivity]. Defined.

(** C1. One generation per response: every execution, race and proxy race
    that the executor starts, on any retry or failover path, starts before
    any byte of the stream has been committed to the client. *)
Theorem no_generation_after_commit {env} (up : Upstream env) cfg finish disc combo ts w w' res :
  upstream_ok up cfg -> has_stream_output w = false -> w_calls w = [] ->
  executor_execute up cfg finish disc combo ts w = Some (w', res) ->
  Forall (fun c => call_committed c = false) (w_calls w').
Proof.
  intros Hok Hc Hnil Hx.
  destruct (executor_spec up cfg finish disc combo ts w Hok Hc) as (w1 & res1 & H1 & (cs & Hcs & HF) & _).
  rewrite H1 in Hx. simplify_eq. rewrite Hcs, Hnil, app_nil_r. eapply Forall_impl; [done|]. naive_solver.
Qed.

Lemma no_generation_after_commit_witness :
  exists w' res,
    executor_execute demo_upstream demo_config sum_hash (fun _ => 0) (Some default_combo) [some_target; default_target]
      demo_world = Some (w', res)
    /\ Forall (fun c => call_committed c = false) (w_calls w') /\ length (w_calls w') = 2%nat.
Proof.
  eexists _, _. split; [vm_compute; reflexivity|]. split; [|reflexivity].
  eapply (no_generation_after_commit demo_upstream demo_config sum_hash (fun _ => 0) (Some default_combo)
    [some_target; default_target] demo_world);
    [apply demo_upstream_ok|reflexivity|reflexivity|vm_compute; reflexivity].
Defined.

(** Whether an answer of the executor, or a result of a call, says that no
    target is healthy. *)
Definition is_no_healthy (e : CoreError) : bool :=
  match e with NoHealthyTargets _ => true | _ => false end.

Definition result_no_healthy (r : PipelineResult) : bool :=
  match pr_error r with Some e => is_no_healthy e | None => false end.

Definition answer_no_healthy (res : PipelineResult + CoreError) : bool :=
  match res with inl r => result_no_healthy r | inr e => is_no_healthy e end.

(** C3. Answers are genuine: a result the executor returns was returned by
    one of its calls -- an execution, a race or a proxy race as a whole -- or
    reports the client's disconnection, and it raises an error of its own
    only when it was given no combo or no target. So a combo with targets is
    answered "no healthy targets" only if one of the calls itself gave that
    answer, as a race that is lost does (its default result). *)
Theorem executor_answers {env} (up : Upstream env) cfg finish disc combo ts w w' res :
  upstream_ok up cfg -> has_stream_output w = false ->
  executor_execute up cfg finish disc combo ts w = Some (w', res) ->
  match res with
  | inl r => r ∈ call_result <$> w_calls w'
             \/ r = client_disconnected_result (x_ctx_attempt cfg) ClientDisconnected
  | inr _ => combo = None \/ ts = []
  end
  /\ (is_Some combo -> ts <> [] -> answer_no_healthy res = true ->
      exists c, c ∈ w_calls w' /\ result_no_healthy (call_result c) = true).
Proof.
  intros Hok Hc Hx.
  destruct (executor_spec up cfg finish disc combo ts w Hok Hc) as (w1 & res1 & H1 & _ & _ & H2).
  rewrite H1 in Hx. simplify_eq. split; [done|]. intros [c0 ->] Hts Hn.
  destruct res as [r|e]; [|naive_solver]. destruct H2 as [H2| ->]; [|done].
  apply list_elem_of_fmap in H2 as (c & -> & ?). eauto.
Qed.

Lemma executor_answers_witness :
  exists w' r,
    executor_execute demo_upstream demo_config sum_hash (fun _ => 0) (Some default_combo) [some_target; default_target]
      demo_world = Some (w', inl r)
    /\ (r ∈ call_result <$> w_calls w' \/ r = client_disconnected_result 1 ClientDisconnected)
    /\ (is_Some (Some default_combo) -> [some_target; default_target] <> [] -> answer_no_healthy (inl r) = true ->
        exists c, c ∈ w_calls w' /\ result_no_healthy (call_result c) = true).
Proof.
  eexists _, _. split; [vm_compute; reflexivity|].
  eapply (executor_answers demo_upstream demo_config sum_hash (fun _ => 0) (Some default_combo)
    [some_target; default_target] demo_world _ (inl _));
    [apply demo_upstream_ok|reflexivity|vm_compute; reflexivity].
Defined.

(** What failed in the race is not run again: the sequential walk makes
    no call on a target whose execution is in the set of failed ones it was
    given. *)
Lemma race_losers_not_rerun {env} (up : Upstream env) cfg finish disc combo ts rsz last failed fm w w' res :
  upstream_ok up cfg -> has_stream_output w = false ->
  (forall r, last = Some r -> r ∈ call_result <$> w_calls w) ->
  execute_sequential_targets up cfg finish disc combo ts rsz last failed fm w = Some (w', res) ->
  exists cs, w_calls w' = cs ++ w_calls w
    /\ Forall (fun c => match call_kind c with
                        | CallSingle t _ | CallProxyRace t _ => t ∈ ts /\ target_has_failed failed t = false
                        | CallRace _ => False
                        end) cs.
Proof.
  intros Hok Hc Hlast Hx. unfold execute_sequential_targets in Hx.
  destruct (sequential_spec up cfg finish disc combo rsz (Z.of_nat (length ts)) failed [] ts
    (mkFailed failed fm ∅) last (sat_add u8_max (Z.of_nat (size failed) mod 256) 1) w Hok Hc)
    as (w1 & res1 & H1 & (cs & Hcs & HF) & _); [done|by left; apply Hlast|].
  rewrite H1 in Hx. simplify_eq. exists cs. split; [done|].
  eapply Forall_impl; [exact HF|]. intros c [_ (t & Ht & Hf & Hk)]. unfold call_of in Hk.
  destruct (call_kind c); by subst.
Qed.

Lemma race_losers_not_rerun_witness :
  exists w' res,
    execute_sequential_targets demo_upstream demo_config sum_hash (fun _ => 0) default_combo
      [some_target; default_target] 1 None {[exec_id_from_target some_target]} ∅ demo_world = Some (w', res)
    /\ exists cs, w_calls w' = cs ++ []
        /\ Forall (fun c => match call_kind c with
                            | CallSingle t _ | CallProxyRace t _ =>
                                t ∈ [some_target; default_target]
                                /\ target_has_failed {[exec_id_from_target some_target]} t = false
                            | CallRace _ => False
                            end) cs.
Proof.
  eexists _, _. split; [vm_compute; reflexivity|].
  eapply (race_losers_not_rerun demo_upstream demo_config sum_hash (fun _ => 0) default_combo
    [some_target; default_target] 1 None {[exec_id_from_target some_target]} ∅ demo_world);
    [apply demo_upstream_ok|reflexivity|discriminate|vm_compute; reflexivity].
Defined.
