(* ===== verification/Race.v ===== *)
(** * Racing lanes over one client stream

    Models openproxy-pipeline/src/race_sink.rs and racing.rs: several workers
    (lanes) execute targets of a shared queue at once, the first one to claim
    the sink owns the client's stream, and the caller waits for a result.

    The lanes and the waiter interleave: every atomic access, every critical
    section of a mutex and every cancellation is one step.  What a lane does
    inside [execute_single] is an input of the step: it sends any chunk
    through its handle, or returns any result.  [has_output] reads two
    atomics; a lane evaluates it between its own calls, when neither can
    change under a winner, so it is one step.  The three locks that record a
    failed target are one step too: nobody reads them before all lanes are
    done. *)

From S2P Require Import Prelude Types Errors Executor.

(** ** State *)

(** What a claim is for: sending a chunk, or the lane's final result. *)
Inductive claim_for :=
  | ForSend (chunk : list Z)
  | ForResult (r : PipelineResult).

Inductive lane_pc :=
  | LTop
  | LPop
  | LPopped (t : ComboTarget)
  | LRun (t : ComboTarget)
  | LClaim (t : ComboTarget) (k : claim_for)
  | LCas (t : ComboTarget) (k : claim_for)
  | LCancel (t : ComboTarget) (k : claim_for) (j : nat)
  | LReserve (t : ComboTarget) (chunk : list Z)
  | LCommit (t : ComboTarget) (chunk : list Z)
  | LSend (t : ComboTarget) (chunk : list Z)
  | LReturned (t : ComboTarget) (r : PipelineResult)
  | LStore (t : ComboTarget) (r : PipelineResult)
  | LFailed (t : ComboTarget) (r : PipelineResult)
  | LDone
  | LNotify
  | LExit.

Inductive waiter_pc :=
  | WCheck
  | WLoad
  | WPark
  | WCancel (taken : option (nat * PipelineResult)) (j : nat)
  | WOk (lane : nat) (r : PipelineResult)
  | WErr (e : CoreError).

(** The sink ([winner], [worker_tokens], the channel with its commit bit) and
    the shared fields of [RaceContext].  The channel's contents and the stored
    result carry the lane they come from. *)
Record shared := mkShared {
  sk_winner : nat;
  sk_tokens : list bool;
  sk_committed : bool;
  sk_rx_open : bool;
  sk_out : list (nat * list Z);
  rx_queue : list ComboTarget;
  rx_winner : option (nat * PipelineResult);
  rx_last_err : option CoreError;
  rx_failed_targets : gset TargetExecutionId;
  rx_failed_models : gset Z;
  rx_running : nat;
  rx_permit : bool
}.

Record race := mkRace { rc_shared : shared; rc_lanes : list lane_pc; rc_waiter : waiter_pc }.

Definition set_winner (x : nat) (s : shared) : shared :=
  mkShared x (sk_tokens s) (sk_committed s) (sk_rx_open s) (sk_out s) (rx_queue s) (rx_winner s)
    (rx_last_err s) (rx_failed_targets s) (rx_failed_models s) (rx_running s) (rx_permit s).

Definition cancel_token (j : nat) (s : shared) : shared :=
  mkShared (sk_winner s) (<[j := true]> (sk_tokens s)) (sk_committed s) (sk_rx_open s) (sk_out s)
    (rx_queue s) (rx_winner s) (rx_last_err s) (rx_failed_targets s) (rx_failed_models s)
    (rx_running s) (rx_permit s).

Definition set_committed (s : shared) : shared :=
  mkShared (sk_winner s) (sk_tokens s) true (sk_rx_open s) (sk_out s) (rx_queue s) (rx_winner s)
    (rx_last_err s) (rx_failed_targets s) (rx_failed_models s) (rx_running s) (rx_permit s).

Definition push_out (i : nat) (chunk : list Z) (s : shared) : shared :=
  mkShared (sk_winner s) (sk_tokens s) (sk_committed s) (sk_rx_open s) (sk_out s ++ [(i, chunk)])
    (rx_queue s) (rx_winner s) (rx_last_err s) (rx_failed_targets s) (rx_failed_models s)
    (rx_running s) (rx_permit s).

Definition close_rx (s : shared) : shared :=
  mkShared (sk_winner s) (sk_tokens s) (sk_committed s) false (sk_out s) (rx_queue s) (rx_winner s)
    (rx_last_err s) (rx_failed_targets s) (rx_failed_models s) (rx_running s) (rx_permit s).

Definition set_queue (q : list ComboTarget) (s : shared) : shared :=
  mkShared (sk_winner s) (sk_tokens s) (sk_committed s) (sk_rx_open s) (sk_out s) q (rx_winner s)
    (rx_last_err s) (rx_failed_targets s) (rx_failed_models s) (rx_running s) (rx_permit s).

Definition set_result (r : option (nat * PipelineResult)) (s : shared) : shared :=
  mkShared (sk_winner s) (sk_tokens s) (sk_committed s) (sk_rx_open s) (sk_out s) (rx_queue s) r
    (rx_last_err s) (rx_failed_targets s) (rx_failed_models s) (rx_running s) (rx_permit s).

Definition set_running (n : nat) (s : shared) : shared :=
  mkShared (sk_winner s) (sk_tokens s) (sk_committed s) (sk_rx_open s) (sk_out s) (rx_queue s)
    (rx_winner s) (rx_last_err s) (rx_failed_targets s) (rx_failed_models s) n (rx_permit s).

Definition set_permit (b : bool) (s : shared) : shared :=
  mkShared (sk_winner s) (sk_tokens s) (sk_committed s) (sk_rx_open s) (sk_out s) (rx_queue s)
    (rx_winner s) (rx_last_err s) (rx_failed_targets s) (rx_failed_models s) (rx_running s) b.

Definition note_lane_failure (t : ComboTarget) (r : PipelineResult) (s : shared) : shared :=
  match pr_error r with
  | None => s
  | Some e =>
      mkShared (sk_winner s) (sk_tokens s) (sk_committed s) (sk_rx_open s) (sk_out s) (rx_queue s)
        (rx_winner s) (Some e) ({[exec_id_from_target t]} ∪ rx_failed_targets s)
        (match t_model_row_id t with
         | Some m => if is_model_wide_failure t e then {[m]} ∪ rx_failed_models s else rx_failed_models s
         | None => rx_failed_models s
         end) (rx_running s) (rx_permit s)
  end.

(** ** Steps of a lane *)

(** What the environment decides at a step. *)
Inductive lane_input :=
  | Tick
  | Send (chunk : list Z)
  | Return (r : PipelineResult).

Definition token_cancelled (i : nat) (s : shared) : bool := default false (sk_tokens s !! i).

(** [has_output] of the handle of lane [i]. *)
Definition has_output (i : nat) (s : shared) : bool :=
  (sk_winner s =? S i)%nat && sk_committed s.

(** After [claim_winner] returned [Ok], respectively [Lost]. *)
Definition claimed (t : ComboTarget) (k : claim_for) : lane_pc :=
  match k with ForSend c => LReserve t c | ForResult r => LStore t r end.

Definition lost (t : ComboTarget) (k : claim_for) : lane_pc :=
  match k with ForSend _ => LRun t | ForResult r => LFailed t r end.

(** [claim_winner] up to its load: [None] goes on to register, otherwise
    whether this lane is the owner. *)
Definition claim_winner (i : nat) (s : shared) : option bool :=
  if (sk_winner s =? 0)%nat then None else Some (sk_winner s =? S i)%nat.

(** The compare-exchange of [try_register_winner]. *)
Inductive registered := Registered | AlreadyOwner | Loser.

Definition try_register_winner (i : nat) (s : shared) : shared * registered :=
  if (sk_winner s =? 0)%nat then (set_winner (S i) s, Registered)
  else (s, if (sk_winner s =? S i)%nat then AlreadyOwner else Loser).

(** One turn of [cancel_other_workers]. *)
Definition cancel_other_worker (i j : nat) (s : shared) : shared :=
  if (j =? i)%nat then s else cancel_token j s.

(** [DirectSink::send] once it holds a permit: the commit, then the send. *)
Definition sink_commit (chunk : list Z) (s : shared) : shared :=
  if bool_decide (chunk = []) then s else set_committed s.

Definition sink_send (i : nat) (chunk : list Z) (s : shared) : shared := push_out i chunk s.

(** [fetch_sub] of [notify_worker_done]; the last lane notifies. *)
Definition worker_done (s : shared) : shared * lane_pc :=
  (set_running (pred (rx_running s)) s, if (rx_running s =? 1)%nat then LNotify else LExit).

Definition lane_next (i : nat) (s : shared) (pc : lane_pc) (x : lane_input) : option (shared * lane_pc) :=
  match pc, x with
  | LTop, Tick => Some (s, if token_cancelled i s then LDone else LPop)
  | LPop, Tick =>
      match rx_queue s with
      | [] => Some (s, LDone)
      | t :: q => Some (set_queue q s, LPopped t)
      end
  | LPopped t, Tick => Some (s, if token_cancelled i s then LDone else LRun t)
  | LRun t, Send c => Some (s, LClaim t (ForSend c))
  | LRun t, Return r => Some (s, LReturned t r)
  | LClaim t k, Tick =>
      Some (s, match claim_winner i s with
               | None => LCas t k
               | Some true => claimed t k
               | Some false => lost t k
               end)
  | LCas t k, Tick =>
      match try_register_winner i s with
      | (s', Registered) => Some (s', LCancel t k 0)
      | (s', AlreadyOwner) => Some (s', claimed t k)
      | (s', Loser) => Some (s', lost t k)
      end
  | LCancel t k j, Tick =>
      if (j <? length (sk_tokens s))%nat
      then Some (cancel_other_worker i j s, LCancel t k (S j))
      else Some (s, claimed t k)
  | LReserve t c, Tick => Some (s, if sk_rx_open s then LCommit t c else LRun t)
  | LCommit t c, Tick => Some (sink_commit c s, LSend t c)
  | LSend t c, Tick => Some (sink_send i c s, LRun t)
  | LReturned t r, Tick =>
      Some (s, if bool_decide (pr_error r = None) || has_output i s
               then LClaim t (ForResult r) else LFailed t r)
  | LStore t r, Tick =>
      Some (match rx_winner s with None => set_result (Some (i, r)) s | Some _ => s end, LDone)
  | LFailed t r, Tick => Some (note_lane_failure t r s, LTop)
  | LDone, Tick => Some (worker_done s)
  | LNotify, Tick => Some (set_permit true s, LExit)
  | _, _ => None
  end.

(** ** Steps of the waiter: [wait_for_race_winner] *)

Definition waiter_next (default_err : CoreError) (s : shared) (pc : waiter_pc) : option (shared * waiter_pc) :=
  match pc with
  | WCheck =>
      match rx_winner s with
      | Some r => Some (set_result None s, WCancel (Some r) 0)
      | None => Some (s, WLoad)
      end
  | WLoad => Some (s, if (rx_running s =? 0)%nat then WCancel None 0 else WPark)
  | WPark => if rx_permit s then Some (set_permit false s, WCheck) else None
  | WCancel taken j =>
      if (j <? length (sk_tokens s))%nat then Some (cancel_token j s, WCancel taken (S j))
      else match taken with
           | Some (i, r) => Some (s, WOk i r)
           | None => Some (s, WErr (default default_err (rx_last_err s)))
           end
  | WOk _ _ | WErr _ => None
  end.

(** ** Executions *)

Inductive event :=
  | ELane (i : nat) (x : lane_input)
  | EWaiter
  | ECloseRx.

Definition race_next (default_err : CoreError) (e : event) (r : race) : option race :=
  match e with
  | ELane i x =>
      match rc_lanes r !! i with
      | Some pc => match lane_next i (rc_shared r) pc x with
                   | Some (s, pc') => Some (mkRace s (<[i := pc']> (rc_lanes r)) (rc_waiter r))
                   | None => None
                   end
      | None => None
      end
  | EWaiter => match waiter_next default_err (rc_shared r) (rc_waiter r) with
               | Some (s, pc') => Some (mkRace s (rc_lanes r) pc')
               | None => None
               end
  | ECloseRx => Some (mkRace (close_rx (rc_shared r)) (rc_lanes r) (rc_waiter r))
  end.

Inductive race_step (default_err : CoreError) (r r' : race) : Prop :=
  | race_step_event e : race_next default_err e r = Some r' -> race_step default_err r r'.

(** [run_race] once it has started its lanes: [race_size.min(to_run.len())]
    of them, over a sink that has committed nothing. *)
Definition num_workers (race_size : Z) (to_run : list ComboTarget) : Z :=
  Z.min race_size (Z.of_nat (length to_run) mod 256).

Definition race_init (race_size : Z) (to_run : list ComboTarget) : race :=
  let n := Z.to_nat (num_workers race_size to_run) in
  mkRace (mkShared 0 (replicate n false) false true [] to_run None None ∅ ∅ n false)
    (replicate n LTop) WCheck.

(** [run_race]'s answer for a finished waiter. *)
Definition race_outcome (race_size : Z) (r : race) : option RaceOutcome :=
  match rc_waiter r with
  | WOk _ res => Some (mkRaceOutcome res ∅ ∅)
  | WErr e => Some (mkRaceOutcome (failure e race_size)
                      (rx_failed_targets (rc_shared r)) (rx_failed_models (rc_shared r)))
  | _ => None
  end.

(** The early returns of [run_race]: no worker, or no direct sink. *)
Definition run_race_guard (combo_id race_size : Z) (to_run : list ComboTarget) (direct_sink : bool)
    : option RaceOutcome :=
  let refuse e := Some (mkRaceOutcome (mkResult 502 (Some e) None 0 None) ∅ ∅) in
  if num_workers race_size to_run =? 0 then refuse (NoHealthyTargets combo_id)
  else if negb direct_sink then refuse (Internal "run_race: missing direct stream sink")
  else None.

(** A schedule, for concrete executions. *)
Fixpoint run_schedule (default_err : CoreError) (es : list event) (r : race) : option race :=
  match es with
  | [] => Some r
  | e :: es' => match race_next default_err e r with
                | Some r' => run_schedule default_err es' r'
                | None => None
                end
  end.

(** ** The ownership invariant *)

(** Program points behind a successful claim. *)
Definition owns (pc : lane_pc) : bool :=
  match pc with
  | LCancel _ _ _ | LReserve _ _ | LCommit _ _ | LSend _ _ | LStore _ _ => true
  | _ => false
  end.

Definition taken_lane (w : waiter_pc) : option nat :=
  match w with
  | WCancel (Some (i, _)) _ | WOk i _ => Some i
  | _ => None
  end.

(** The waiter has begun to cancel every lane. *)
Definition finishing (w : waiter_pc) : bool :=
  match w with WCancel _ _ | WOk _ _ | WErr _ => true | _ => false end.

Record own_inv (r : race) : Prop := {
  oi_lanes : forall i pc, rc_lanes r !! i = Some pc -> owns pc = true -> sk_winner (rc_shared r) = S i;
  oi_out : forall i c, (i, c) ∈ sk_out (rc_shared r) -> sk_winner (rc_shared r) = S i;
  oi_result : forall i x, rx_winner (rc_shared r) = Some (i, x) -> sk_winner (rc_shared r) = S i;
  oi_taken : forall i, taken_lane (rc_waiter r) = Some i -> sk_winner (rc_shared r) = S i;
  oi_committed : sk_committed (rc_shared r) = true -> sk_winner (rc_shared r) <> 0%nat;
  oi_tokens : finishing (rc_waiter r) = false ->
    forall j, sk_tokens (rc_shared r) !! j = Some true ->
      sk_winner (rc_shared r) <> 0%nat /\ sk_winner (rc_shared r) <> S j
}.

(** What a lane's step does to the fields the invariant reads. *)
Definition lane_frame (i : nat) (s s' : shared) (pc' : lane_pc) : Prop :=
  (sk_winner s' = sk_winner s \/ (sk_winner s = 0%nat /\ sk_winner s' = S i))
  /\ (owns pc' = true -> sk_winner s' = S i)
  /\ (sk_out s' = sk_out s \/ exists c, sk_out s' = sk_out s ++ [(i, c)] /\ sk_winner s = S i)
  /\ (rx_winner s' = rx_winner s
      \/ exists y, rx_winner s' = Some (i, y) /\ sk_winner s = S i)
  /\ (sk_committed s' = sk_committed s \/ sk_winner s = S i)
  /\ (sk_tokens s' = sk_tokens s
      \/ exists j, j <> i /\ sk_tokens s' = <[j := true]> (sk_tokens s) /\ sk_winner s = S i).

Lemma lane_next_frame i s pc x s' pc' :
  lane_next i s pc x = Some (s', pc') ->
  (owns pc = true -> sk_winner s = S i) -> lane_frame i s s' pc'.
Proof.
  intros Hn Ho. unfold lane_frame. destruct pc, x; simpl in Hn; try done.
  all: unfold claim_winner, try_register_winner, cancel_other_worker, sink_commit, sink_send, worker_done in Hn.
  all: repeat match type of Hn with
       | context [(?a =? ?b)%nat] => destruct (Nat.eqb_spec a b)
       | context [(?a <? ?b)%nat] => destruct (Nat.ltb_spec a b)
       | context [match rx_queue ?z with _ => _ end] => destruct (rx_queue z)
       end; simplify_eq/=.
  all: try (specialize (Ho eq_refl)).
  all: repeat match goal with
       | |- context [if token_cancelled ?a ?z then _ else _] => destruct (token_cancelled a z)
       | |- context [if sk_rx_open ?z then _ else _] => destruct (sk_rx_open z)
       | |- context [if bool_decide ?P then _ else _] => case_bool_decide
       | |- context [if ?b then LClaim _ _ else _] => destruct b
       | |- context [match rx_winner ?z with _ => _ end] => destruct (rx_winner z) as [[]|] eqn:?
       | k : claim_for |- _ => destruct k
       end; simpl.
  all: try (unfold note_lane_failure; destruct (pr_error _); simpl).
  all: split_and!; simpl;
    solve [done | by left | by right | right; eexists; split_and!; done
          | right; eexists; split_and!; [|done|]; done].
Qed.

Lemma own_inv_frame r i s pc' :
  own_inv r -> lane_frame i (rc_shared r) s pc' ->
  own_inv (mkRace s (<[i := pc']> (rc_lanes r)) (rc_waiter r)).
Proof.
  intros [Hl Ho Hr Ht Hc Hk] (F1 & F2 & F3 & F4 & F5 & F6).
  assert (forall j, sk_winner (rc_shared r) = S j -> sk_winner s = S j) as Hkeep
    by (intros j Hj; destruct F1 as [F1|[F1 _]]; lia).
  split; simpl.
  - intros j pcj Hj Hown. apply list_lookup_insert_Some in Hj as [(-> & <- & _)|(_ & Hj)]; [by apply F2|].
    by eapply Hkeep, Hl.
  - intros j c Hj. destruct F3 as [->|(c' & -> & Hw)] in Hj; [by eapply Hkeep, Ho|].
    apply elem_of_app in Hj as [Hj|Hj]; [by eapply Hkeep, Ho|].
    apply list_elem_of_singleton in Hj. simplify_eq. by apply Hkeep.
  - intros j y Hj. destruct F4 as [->|(y' & -> & Hw)] in Hj; [by eapply Hkeep, Hr|].
    simplify_eq. by apply Hkeep.
  - intros j Hj. by apply Hkeep, Ht.
  - intros Hcom. destruct F5 as [F5|Hw]; [|apply Hkeep in Hw; lia].
    rewrite F5 in Hcom. apply Hc in Hcom. destruct F1 as [->|[? _]]; [done|lia].
  - intros Hf j Hj. specialize (Hk Hf). destruct F6 as [F6|(j' & Hne & F6 & Hw)]; rewrite F6 in Hj.
    + destruct (Hk j Hj) as [K1 K2]. destruct F1 as [->|[? _]]; [done|lia].
    + apply Hkeep in Hw. apply list_lookup_insert_Some in Hj as [(<- & _ & _)|(_ & Hj)]; [lia|].
      destruct (Hk j Hj) as [K1 K2]. destruct F1 as [->|[? _]]; [done|lia].
Qed.

Lemma own_inv_lane r i x s pc pc' :
  own_inv r -> rc_lanes r !! i = Some pc -> lane_next i (rc_shared r) pc x = Some (s, pc') ->
  own_inv (mkRace s (<[i := pc']> (rc_lanes r)) (rc_waiter r)).
Proof.
  intros Hinv Hi Hn. apply own_inv_frame; [done|]. eapply lane_next_frame; [done|]. by apply (oi_lanes r Hinv).
Qed.

Lemma own_inv_waiter e0 r s pc' :
  own_inv r -> waiter_next e0 (rc_shared r) (rc_waiter r) = Some (s, pc') ->
  own_inv (mkRace s (rc_lanes r) pc').
Proof.
  intros [Hl Ho Hr Ht Hc Hk] Hn. destruct r as [sh lanes w]; simpl in *.
  destruct w as [| | |[[i y]|] j|i y|e]; simpl in Hn.
  - destruct (rx_winner sh) as [[i y]|] eqn:E; simplify_eq/=; split; simpl; try done; [|congruence].
    intros i' [= <-]. by eapply Hr.
  - destruct (_ =? _)%nat; simplify_eq; split; simpl; done.
  - destruct (rx_permit sh); simplify_eq; split; simpl; done.
  - destruct (_ <? _)%nat; simplify_eq; split; simpl; try done.
  - destruct (_ <? _)%nat; simplify_eq; split; simpl; try done.
  - done.
  - done.
Qed.

Lemma own_inv_step e0 r r' : own_inv r -> race_step e0 r r' -> own_inv r'.
Proof.
  intros Hinv [e He]. destruct e as [i x| |]; simpl in He.
  - destruct (rc_lanes r !! i) as [pc|] eqn:Hi; [|done].
    destruct (lane_next _ _ _ _) as [[s pc']|] eqn:Hn; simplify_eq. by eapply own_inv_lane.
  - destruct (waiter_next _ _ _) as [[s pc']|] eqn:Hn; simplify_eq. by eapply own_inv_waiter.
  - simplify_eq. destruct Hinv. by split.
Qed.

Lemma own_inv_init n ts : own_inv (race_init n ts).
Proof.
  split; simpl; try done.
  - intros i pc Hi. apply lookup_replicate in Hi as [-> _]. done.
  - set_solver.
  - intros _ j Hj. apply lookup_replicate in Hj as [? _]. done.
Qed.

(** ** The completion invariant *)

(** Lanes that still count as running. *)
Definition live (pc : lane_pc) : bool :=
  match pc with LNotify | LExit => false | _ => true end.

Definition live_count (l : list lane_pc) : nat := length (filter (fun pc => live pc = true) l).

Lemma live_count_insert l i pc pc' :
  l !! i = Some pc ->
  (live_count (<[i := pc']> l) + (if live pc then 1 else 0) = live_count l + (if live pc' then 1 else 0))%nat.
Proof.
  revert i. induction l as [|y l IH]; intros i Hi; [done|]. unfold live_count in *.
  destruct i as [|i]; simpl in *.
  - simplify_eq. rewrite !filter_cons. destruct (live pc), (live pc'); simpl; lia.
  - specialize (IH i Hi). rewrite !filter_cons. destruct (live y); simpl; lia.
Qed.

Lemma live_zero l i pc : live_count l = 0%nat -> l !! i = Some pc -> live pc = false.
Proof.
  intros Hz Hi. destruct (live pc) eqn:E; [|done]. exfalso.
  apply length_zero_iff_nil in Hz. assert (pc ∈ filter (fun p => live p = true) l) as Hin.
  { apply list_elem_of_filter. split; [done|]. by eapply list_elem_of_lookup_2. }
  rewrite Hz in Hin. set_solver.
Qed.

(** Lanes that are past their loop. *)
Definition past (pc : lane_pc) : bool :=
  match pc with LDone | LNotify | LExit => true | _ => false end.

(** The waiter saw no running lane. *)
Definition gave_up (w : waiter_pc) : bool :=
  match w with WCancel None _ | WErr _ => true | _ => false end.

Record done_inv (r : race) : Prop := {
  di_count : rx_running (rc_shared r) = live_count (rc_lanes r);
  di_park : rc_waiter r = WPark -> rx_running (rc_shared r) = 0%nat ->
    rx_permit (rc_shared r) = true \/ exists i, rc_lanes r !! i = Some LNotify;
  di_drained : sk_winner (rc_shared r) = 0%nat -> finishing (rc_waiter r) = false ->
    forall i pc, rc_lanes r !! i = Some pc -> past pc = true -> rx_queue (rc_shared r) = [];
  di_gave_up : gave_up (rc_waiter r) = true ->
    rx_running (rc_shared r) = 0%nat
    /\ (sk_winner (rc_shared r) = 0%nat -> rx_queue (rc_shared r) = [] \/ rc_lanes r = [])
}.

Lemma lane_next_count i s pc x s' pc' :
  lane_next i s pc x = Some (s', pc') ->
  (pc = LDone /\ rx_running s' = pred (rx_running s) /\ rx_permit s' = rx_permit s
     /\ pc' = (if (rx_running s =? 1)%nat then LNotify else LExit))
  \/ (pc = LNotify /\ pc' = LExit /\ rx_running s' = rx_running s /\ rx_permit s' = true)
  \/ (live pc = true /\ live pc' = true /\ rx_running s' = rx_running s /\ rx_permit s' = rx_permit s).
Proof.
  intros Hn. destruct pc, x; simpl in Hn; try done.
  all: unfold claim_winner, try_register_winner, cancel_other_worker, sink_commit, sink_send, worker_done in Hn.
  all: repeat match type of Hn with
       | context [(?a =? ?b)%nat] => destruct (Nat.eqb_spec a b)
       | context [(?a <? ?b)%nat] => destruct (Nat.ltb_spec a b)
       | context [match rx_queue ?z with _ => _ end] => destruct (rx_queue z)
       end; simplify_eq/=.
  all: repeat match goal with
       | |- context [if ?b then _ else _] => destruct b
       | |- context [match rx_winner ?z with _ => _ end] => destruct (rx_winner z)
       | k : claim_for |- _ => destruct k
       end; simpl; unfold note_lane_failure; try (destruct (pr_error _)); simpl; auto 8.
Qed.

Lemma lane_next_queue i s pc x s' pc' :
  lane_next i s pc x = Some (s', pc') ->
  (rx_queue s = [] -> rx_queue s' = [])
  /\ (past pc' = true -> past pc = true \/ token_cancelled i s = true \/ rx_queue s' = []
                        \/ owns pc = true).
Proof.
  intros Hn. destruct pc, x; simpl in Hn; try done.
  all: unfold claim_winner, try_register_winner, cancel_other_worker, sink_commit, sink_send, worker_done in Hn.
  all: repeat match type of Hn with
       | context [(?a =? ?b)%nat] => destruct (Nat.eqb_spec a b)
       | context [(?a <? ?b)%nat] => destruct (Nat.ltb_spec a b)
       | context [match rx_queue ?z with _ => _ end] => destruct (rx_queue z) eqn:?
       end; simplify_eq/=.
  all: repeat match goal with
       | |- context [if ?b then _ else _] => destruct b eqn:?
       | |- context [match rx_winner ?z with _ => _ end] => destruct (rx_winner z)
       | k : claim_for |- _ => destruct k
       end; simpl; unfold note_lane_failure; try (destruct (pr_error _)); simpl;
       split; intros; (congruence || auto).
Qed.

Lemma done_inv_lane r i x s pc pc' :
  own_inv r -> done_inv r -> rc_lanes r !! i = Some pc ->
  lane_next i (rc_shared r) pc x = Some (s, pc') ->
  done_inv (mkRace s (<[i := pc']> (rc_lanes r)) (rc_waiter r)).
Proof.
  intros Hown [Hcnt Hpark Hdr Hgu] Hi Hn.
  pose proof (live_count_insert _ _ _ pc' Hi) as Hins.
  destruct (lane_next_queue _ _ _ _ _ _ Hn) as [Hq Hpast].
  destruct (lane_next_frame _ _ _ _ _ _ Hn (oi_lanes r Hown i pc Hi)) as (F1 & _).
  assert (i < length (rc_lanes r))%nat as Hlt by by eapply lookup_lt_Some.
  assert (rx_running s = live_count (<[i := pc']> (rc_lanes r))) as Hcnt'.
  { destruct (lane_next_count _ _ _ _ _ _ Hn) as [(-> & -> & _ & Hpc)|[(-> & -> & -> & _)|(Hl & Hl' & -> & _)]].
    - assert (live pc' = false) as Hl by (rewrite Hpc; by case_match). rewrite Hl in Hins. simpl in Hins. lia.
    - simpl in Hins. lia.
    - rewrite Hl, Hl' in Hins. lia. }
  split; simpl; [done| | |].
  - intros Hw H0. destruct (lane_next_count _ _ _ _ _ _ Hn) as [(-> & Hr & Hp & Hpc)|[(-> & -> & Hr & Hp)|(Hl & Hl' & Hr & Hp)]].
    + destruct (Nat.eqb_spec (rx_running (rc_shared r)) 1).
      * right. exists i. subst. by apply list_lookup_insert_eq.
      * simpl in Hins. assert (live pc' = false) as E by (by rewrite Hpc). rewrite E in Hins. lia.
    + by left.
    + rewrite Hcnt' in H0. apply (live_zero _ i pc') in H0; [congruence|].
      by apply list_lookup_insert_eq.
  - intros H0 Hf. assert (sk_winner (rc_shared r) = 0%nat) as H0' by (destruct F1 as [<-|[? ?]]; [done|lia]).
    specialize (Hdr H0' Hf). intros j pcj Hj Hp.
    apply list_lookup_insert_Some in Hj as [(-> & <- & _)|(_ & Hj)]; [|by eapply Hq, Hdr].
    destruct (Hpast Hp) as [Hp'|[Htok|[?|Ho]]]; [by eapply Hq, Hdr| |done|].
    + unfold token_cancelled in Htok. destruct (sk_tokens _ !! j) as [b|] eqn:E; simpl in Htok; [|done]. subst b.
      by destruct (oi_tokens r Hown Hf j E).
    + by rewrite (oi_lanes r Hown j pc Hi Ho) in H0'.
  - intros Hg. destruct (Hgu Hg) as [Hr Hq0]. rewrite Hcnt in Hr.
    pose proof (live_zero _ _ _ Hr Hi) as Hl. split; [|].
    + rewrite Hcnt'. rewrite Hl in Hins. destruct pc, x; simpl in Hn, Hl; try done. simplify_eq/=. lia.
    + destruct pc, x; simpl in Hn, Hl; try done. simplify_eq/=. intros H0.
      destruct (Hq0 H0) as [?|Hnil]; [by left|]. by rewrite Hnil in Hi.
Qed.

Lemma done_inv_waiter e0 r s pc' :
  done_inv r -> waiter_next e0 (rc_shared r) (rc_waiter r) = Some (s, pc') ->
  done_inv (mkRace s (rc_lanes r) pc').
Proof.
  intros [Hcnt Hpark Hdr Hgu] Hn. destruct r as [sh lanes w]; simpl in *.
  destruct w as [| | |[[i y]|] j|i y|e]; simpl in Hn.
  - destruct (rx_winner sh) as [[i y]|] eqn:E; simplify_eq/=; by split.
  - destruct (Nat.eqb_spec (rx_running sh) 0) as [H0|H0]; simplify_eq; split; simpl; try done.
    intros _. split; [done|]. intros Hw. destruct lanes as [|pc lanes]; [by right|left].
    eapply (Hdr Hw eq_refl 0%nat pc); [done|].
    assert (live pc = false) as Hl by (eapply (live_zero (pc :: lanes) 0); [congruence|done]). by destruct pc.
  - destruct (rx_permit sh); simplify_eq; by split.
  - destruct (_ <? _)%nat; simplify_eq; by split.
  - destruct (_ <? _)%nat; simplify_eq; by split.
  - done.
  - done.
Qed.

Definition race_inv (r : race) : Prop := own_inv r /\ done_inv r.

Lemma race_inv_step e0 r r' : race_inv r -> race_step e0 r r' -> race_inv r'.
Proof.
  intros [Hown Hdone] Hs. split; [by eapply own_inv_step|].
  destruct Hs as [e He]. destruct e as [i x| |]; simpl in He.
  - destruct (rc_lanes r !! i) as [pc|] eqn:Hi; [|done].
    destruct (lane_next _ _ _ _) as [[s pc']|] eqn:Hn; simplify_eq. by eapply done_inv_lane.
  - destruct (waiter_next _ _ _) as [[s pc']|] eqn:Hn; simplify_eq. by eapply done_inv_waiter.
  - simplify_eq. destruct Hdone. by split.
Qed.

Lemma race_inv_reachable e0 n ts r : rtc (race_step e0) (race_init n ts) r -> race_inv r.
Proof.
  apply rtc_invariant; [apply race_inv_step|]. split; [apply own_inv_init|].
  split; simpl; try done.
  - unfold live_count. generalize (Z.to_nat (num_workers n ts)). intros m.
    induction m as [|m IH]; [done|]. simpl. by rewrite <- IH.
  - intros _ _ i pc Hi. apply lookup_replicate in Hi as [-> _]. done.
Qed.

(** ** Progress of the waiter *)

Lemma race_step_rtc e0 e r r' r'' :
  race_next e0 e r = Some r' -> rtc (race_step e0) r' r'' -> rtc (race_step e0) r r''.
Proof. intros H. apply rtc_l. by exists e. Qed.

Lemma run_schedule_rtc e0 es r r' : run_schedule e0 es r = Some r' -> rtc (race_step e0) r r'.
Proof.
  revert r. induction es as [|e es IH]; intros r H; simpl in H; [by simplify_eq|].
  destruct (race_next e0 e r) eqn:E; [|done]. eapply race_step_rtc; [done|]. by apply IH.
Qed.

Definition waiter_finished (r : race) : Prop :=
  match rc_waiter r with WOk _ _ | WErr _ => True | _ => False end.

(** A step of the waiter alone. *)
Definition waiter_run (e0 : CoreError) (r r' : race) : Prop := race_next e0 EWaiter r = Some r'.

Lemma waiter_run_steps e0 r r' : rtc (waiter_run e0) r r' -> rtc (race_step e0) r r'.
Proof. induction 1 as [|x y z H _ IH]; [done|]. by eapply race_step_rtc. Qed.

Lemma waiter_run_l e0 r r' r'' :
  race_next e0 EWaiter r = Some r' -> rtc (waiter_run e0) r' r'' -> rtc (waiter_run e0) r r''.
Proof. intros H. by apply rtc_l. Qed.

Lemma cancel_loop_finishes e0 s lanes taken j :
  exists r', rtc (waiter_run e0) (mkRace s lanes (WCancel taken j)) r' /\ waiter_finished r'.
Proof.
  remember (length (sk_tokens s) - j)%nat as m eqn:Hm. revert s j Hm. induction m as [|m IH]; intros s j Hm.
  - destruct taken as [[i x]|]; (eexists; split;
      [eapply waiter_run_l; [|reflexivity]; simpl;
       by destruct (Nat.ltb_spec j (length (sk_tokens s))); [lia|]|done]).
  - destruct (IH (cancel_token j s) (S j)) as (r' & Hr' & Hf).
    { simpl. rewrite length_insert. lia. }
    exists r'. split; [|done]. eapply waiter_run_l; [|exact Hr']. simpl.
    destruct (Nat.ltb_spec j (length (sk_tokens s))); [done|lia].
Qed.

Lemma check_finishes e0 s lanes :
  rx_running s = 0%nat ->
  exists r', rtc (waiter_run e0) (mkRace s lanes WCheck) r' /\ waiter_finished r'.
Proof.
  intros H0. destruct (rx_winner s) as [x|] eqn:E.
  - destruct (cancel_loop_finishes e0 (set_result None s) lanes (Some x) 0) as (r' & ? & ?).
    exists r'. split; [|done]. eapply waiter_run_l; [simpl; by rewrite E|done].
  - destruct (cancel_loop_finishes e0 s lanes None 0) as (r' & ? & ?).
    exists r'. split; [|done]. eapply waiter_run_l; [simpl; by rewrite E|].
    eapply waiter_run_l; [simpl; by rewrite H0|done].
Qed.

(** With no lane left to wait for, and a wake-up in store if it is parked, the
    waiter runs to its answer. *)
Lemma waiter_finishes e0 r :
  rx_running (rc_shared r) = 0%nat -> (rc_waiter r = WPark -> rx_permit (rc_shared r) = true) ->
  exists r', rtc (waiter_run e0) r r' /\ waiter_finished r'.
Proof.
  destruct r as [s lanes w]; simpl. intros H0 Hpark. destruct w as [| | |taken j|i x|e].
  - by apply check_finishes.
  - destruct (cancel_loop_finishes e0 s lanes None 0) as (r' & ? & ?). exists r'. split; [|done].
    eapply waiter_run_l; [simpl; by rewrite H0|done].
  - destruct (check_finishes e0 (set_permit false s) lanes) as (r' & ? & ?); [done|].
    exists r'. split; [|done]. eapply waiter_run_l; [simpl; by rewrite Hpark|done].
  - apply cancel_loop_finishes.
  - by eexists.
  - by eexists.
Qed.

Lemma exited_count l : Forall (eq LExit) l -> live_count l = 0%nat.
Proof. induction 1 as [|pc l <- _ IH]; [done|]. unfold live_count in *. by rewrite filter_cons. Qed.

(** A concrete race: lane 0 streams a chunk, lane 1 is cancelled. *)
Definition demo_ok : PipelineResult := mkResult 200 None None 1 None.
Definition demo_schedule : list event :=
  replicate 3 (ELane 0 Tick) ++ [ELane 0 (Send [104])] ++ replicate 8 (ELane 0 Tick).
Definition demo_race : race :=
  default (race_init 2 [default_target; default_target])
    (run_schedule RaceLost demo_schedule (race_init 2 [default_target; default_target])).

(** Both lanes fail, and the waiter reports it. *)
Definition demo_failed_schedule : list event :=
  let fail i := replicate 3 (ELane i Tick) ++ [ELane i (Return (failure RaceLost 1))]
                ++ replicate 2 (ELane i Tick) in
  fail 0%nat ++ fail 1%nat ++ replicate 3 (ELane 0 Tick) ++ replicate 4 (ELane 1 Tick)
  ++ replicate 5 EWaiter.
Definition demo_failed : race :=
  default (race_init 2 [default_target; default_target])
    (run_schedule RaceLost demo_failed_schedule (race_init 2 [default_target; default_target])).

(** ** Properties *)

(** C10. One lane owns the stream.  In every reachable state all chunks in
    the client's channel come from one lane; a result that is stored, or that
    the waiter took, comes from that lane too; and until the waiter winds the
    race up, the owner's token is not cancelled. *)
Theorem race_single_owner e0 n ts r :
  rtc (race_step e0) (race_init n ts) r ->
  (forall i c j d, (i, c) ∈ sk_out (rc_shared r) -> (j, d) ∈ sk_out (rc_shared r) -> i = j)
  /\ (forall i c j x, (i, c) ∈ sk_out (rc_shared r) ->
        rx_winner (rc_shared r) = Some (j, x) \/ rc_waiter r = WOk j x -> i = j)
  /\ (finishing (rc_waiter r) = false -> forall i c, (i, c) ∈ sk_out (rc_shared r) ->
        token_cancelled i (rc_shared r) = false).
Proof.
  intros [[Hl Ho Hr Ht Hc Hk] _]%race_inv_reachable. split_and!.
  - intros i c j d Hi Hj. apply Ho in Hi, Hj. lia.
  - intros i c j x Hi%Ho [Hj%Hr|Hj]; [lia|].
    assert (sk_winner (rc_shared r) = S j) by (apply Ht; by rewrite Hj). lia.
  - intros Hf i c Hi%Ho. unfold token_cancelled. destruct (_ !! i) as [[]|] eqn:E; [|done..].
    by destruct (Hk Hf i E).
Qed.

Lemma race_single_owner_witness : token_cancelled 0 (rc_shared demo_race) = false.
Proof.
  apply (race_single_owner RaceLost 2 [default_target; default_target] demo_race) with (c := [104]).
  - apply (run_schedule_rtc _ demo_schedule). vm_compute. reflexivity.
  - vm_compute. reflexivity.
  - vm_compute. apply list_elem_of_singleton. reflexivity.
Defined.

(** A race that ends without a winner has tried everything: when the
    waiter reports an error and no lane ever claimed the sink, the queue of
    targets is empty. *)
Lemma failed_race_tried_all e0 n ts r e :
  1 <= num_workers n ts ->
  rtc (race_step e0) (race_init n ts) r ->
  rc_waiter r = WErr e -> sk_winner (rc_shared r) = 0%nat -> rx_queue (rc_shared r) = [].
Proof.
  intros Hn Hr He Hw.
  assert (length (rc_lanes r) = Z.to_nat (num_workers n ts)) as Hlen.
  { apply (rtc_invariant (race_step e0) (fun r => length (rc_lanes r) = Z.to_nat (num_workers n ts))) in Hr;
      [done| |by simpl; rewrite length_replicate].
    intros x y Hx [ev Hev]. destruct ev; simpl in Hev; repeat case_match; simplify_eq/=; rewrite ?length_insert; done. }
  apply race_inv_reachable in Hr as [_ [_ _ _ Hg]]. rewrite He in Hg.
  destruct (Hg eq_refl) as [_ [?|Hnil]]; [done|done|]. rewrite Hnil in Hlen. simpl in Hlen. lia.
Qed.

Lemma failed_race_tried_all_witness : rx_queue (rc_shared demo_failed) = [].
Proof.
  apply (failed_race_tried_all RaceLost 2 [default_target; default_target] demo_failed RaceLost).
  - zvm.
  - apply (run_schedule_rtc _ demo_failed_schedule). vm_compute. reflexivity.
  - vm_compute. reflexivity.
  - vm_compute. reflexivity.
Defined.

(** C12. The waiter is never stranded: from every reachable state in which
    all lanes have exited, it can run to its answer (no wake-up is lost). *)
Theorem race_waiter_not_stranded e0 n ts r :
  rtc (race_step e0) (race_init n ts) r -> Forall (eq LExit) (rc_lanes r) ->
  exists r', rtc (race_step e0) r r' /\ waiter_finished r'.
Proof.
  intros [_ [Hcnt Hpark _ _]]%race_inv_reachable Hex.
  assert (rx_running (rc_shared r) = 0%nat) as H0 by (rewrite Hcnt; by apply exited_count).
  destruct (waiter_finishes e0 r H0) as (r' & Hr' & Hf); [|exists r'; split; [by apply waiter_run_steps|done]].
  intros Hw. destruct (Hpark Hw H0) as [?|[i Hi]]; [done|]. by eapply Forall_lookup_1 in Hex; [|exact Hi].
Qed.

Lemma race_waiter_not_stranded_witness :
  exists r', rtc (race_step RaceLost) demo_failed r' /\ waiter_finished r'.
Proof.
  apply (race_waiter_not_stranded RaceLost 2 [default_target; default_target]).
  - apply (run_schedule_rtc _ demo_failed_schedule). vm_compute. reflexivity.
  - vm_compute. repeat constructor.
Defined.

(** An execution in which the waiter looks for a result before the lanes
    have run, and for running lanes after they are done. *)
Definition lost_result_schedule (ok : PipelineResult) : list event :=
  [EWaiter] ++ replicate 3 (ELane 0 Tick) ++ [ELane 0 (Return ok)] ++ replicate 8 (ELane 0 Tick)
  ++ replicate 3 (ELane 1 Tick) ++ replicate 4 EWaiter.

(** C13. A successful result can be lost: the waiter checks the stored result
    and the number of running lanes in two steps, and there is a reachable
    state in which it has answered with an error although a lane's success is
    stored. *)
Theorem race_result_can_be_lost e0 t1 t2 ok :
  pr_error ok = None ->
  exists r, rtc (race_step e0) (race_init 2 [t1; t2]) r
    /\ rc_waiter r = WErr e0 /\ rx_winner (rc_shared r) = Some (0%nat, ok).
Proof.
  destruct ok as [st err fr at_ ut]. simpl. intros ->. eexists. split.
  - apply (run_schedule_rtc _ (lost_result_schedule (mkResult st None fr at_ ut))). vm_compute. reflexivity.
  - done.
Qed.

Lemma race_result_can_be_lost_witness :
  exists r, rtc (race_step RaceLost) (race_init 2 [default_target; default_target]) r
    /\ rc_waiter r = WErr RaceLost /\ rx_winner (rc_shared r) = Some (0%nat, demo_ok).
Proof. apply race_result_can_be_lost. reflexivity. Defined.
