(* ===== verification/ProxyRace.v ===== *)
(** * Racing proxies for one target

    Models openproxy-pipeline/src/proxy_race.rs: one worker per candidate
    proxy executes the same target once, over the sink of [Race.v], and the
    caller waits with the same [wait_for_race_winner].

    A worker differs from a lane of the target race in three places: it runs
    its one target and then ends, a failure is recorded as the last error
    only, and a winner stores its result, leaves and notifies while it holds
    the lock of the result, so the waiter cannot look at it in between. *)

From Stdlib Require Import String.
From S2P Require Import Prelude Types Errors Executor Race.

(** ** State *)

(** [PWon] and [PWonNotify]: the winner under the lock of [winner], before
    [fetch_sub] and before [notify_one]. *)
Inductive proxy_pc := PLane (pc : lane_pc) | PWon | PWonNotify.

Record proxy_race := mkProxyRace { px_shared : shared; px_lanes : list proxy_pc; px_waiter : waiter_pc }.

Definition holds_lock (pc : proxy_pc) : bool := match pc with PLane _ => false | _ => true end.

(** The write of [last_err] by a worker that did not win. *)
Definition note_proxy_failure (r : PipelineResult) (s : shared) : shared :=
  match pr_error r with
  | None => s
  | Some e =>
      mkShared (sk_winner s) (sk_tokens s) (sk_committed s) (sk_rx_open s) (sk_out s) (rx_queue s)
        (rx_winner s) (Some e) (rx_failed_targets s) (rx_failed_models s) (rx_running s) (rx_permit s)
  end.

(** [execute_proxy_worker]; the work on the sink is that of a lane. *)
Definition proxy_worker_next (target : ComboTarget) (i : nat) (s : shared) (pc : proxy_pc) (x : lane_input)
    : option (shared * proxy_pc) :=
  match pc with
  | PLane LTop =>
      match x with
      | Tick => Some (s, PLane (if token_cancelled i s then LDone else LRun target))
      | _ => None
      end
  | PLane LPop | PLane (LPopped _) => None
  | PLane (LStore _ r) =>
      match x with
      | Tick => Some (match rx_winner s with None => set_result (Some (i, r)) s | Some _ => s end, PWon)
      | _ => None
      end
  | PLane (LFailed _ r) =>
      match x with Tick => Some (note_proxy_failure r s, PLane LDone) | _ => None end
  | PWon => match x with Tick => Some (set_running (pred (rx_running s)) s, PWonNotify) | _ => None end
  | PWonNotify => match x with Tick => Some (set_permit true s, PLane LExit) | _ => None end
  | PLane pc => '(s, pc') ← lane_next i s pc x; Some (s, PLane pc')
  end.

Definition proxy_race_next (target : ComboTarget) (default_err : CoreError) (e : event) (r : proxy_race)
    : option proxy_race :=
  match e with
  | ELane i x =>
      pc ← px_lanes r !! i;
      '(s, pc') ← proxy_worker_next target i (px_shared r) pc x;
      Some (mkProxyRace s (<[i := pc']> (px_lanes r)) (px_waiter r))
  | EWaiter =>
      if match px_waiter r with WCheck => existsb holds_lock (px_lanes r) | _ => false end then None
      else '(s, pc') ← waiter_next default_err (px_shared r) (px_waiter r);
           Some (mkProxyRace s (px_lanes r) pc')
  | ECloseRx => Some (mkProxyRace (close_rx (px_shared r)) (px_lanes r) (px_waiter r))
  end.

Inductive proxy_step (target : ComboTarget) (default_err : CoreError) (r r' : proxy_race) : Prop :=
  | proxy_step_event e : proxy_race_next target default_err e r = Some r' -> proxy_step target default_err r r'.

Definition proxy_race_init (candidate_proxies : list string) : proxy_race :=
  let n := length candidate_proxies in
  mkProxyRace (mkShared 0 (replicate n false) false true [] [] None None ∅ ∅ n false)
    (replicate n (PLane LTop)) WCheck.

(** What [run_proxy_race] answers, and the proxy it makes the provider's
    current one. *)
Definition proxy_race_outcome (attempt : Z) (candidate_proxies : list string) (r : proxy_race)
    : option (PipelineResult * option string) :=
  match px_waiter r with
  | WOk i result =>
      Some (result, match pr_error result with None => candidate_proxies !! i | Some _ => None end)
  | WErr e => Some (failure e attempt, None)
  | _ => None
  end.

(** The early return of [run_proxy_race]. *)
Definition proxy_race_guard (combo_id attempt : Z) (candidate_proxies : list string) : option PipelineResult :=
  match candidate_proxies with
  | [] => Some (mkResult 502 (Some (NoHealthyTargets combo_id)) None attempt None)
  | _ => None
  end.

Fixpoint run_proxy_schedule (target : ComboTarget) (default_err : CoreError) (es : list event) (r : proxy_race)
    : option proxy_race :=
  match es with
  | [] => Some r
  | e :: es' => r' ← proxy_race_next target default_err e r; run_proxy_schedule target default_err es' r'
  end.

(** ** The race behind it *)

(** A proxy race as a state of the target race. *)
Definition erase_pc (pc : proxy_pc) : lane_pc :=
  match pc with PLane pc => pc | PWon => LDone | PWonNotify => LNotify end.

Definition erase (r : proxy_race) : race :=
  mkRace (px_shared r) (erase_pc <$> px_lanes r) (px_waiter r).

Lemma worker_frame target i s pc x s' pc' :
  proxy_worker_next target i s pc x = Some (s', pc') ->
  (owns (erase_pc pc) = true -> sk_winner s = S i) -> lane_frame i s s' (erase_pc pc').
Proof.
  assert (forall lpc, ('(s0, lpc') ← lane_next i s lpc x; Some (s0, PLane lpc')) = Some (s', pc') ->
            (owns lpc = true -> sk_winner s = S i) -> lane_frame i s s' (erase_pc pc')) as Hlane.
  { intros lpc H Ho. destruct (lane_next i s lpc x) as [[s0 lpc']|] eqn:E; [|done]. cbn in H. simplify_eq.
    by eapply lane_next_frame. }
  destruct pc as [lpc| |]; [destruct lpc; try (by apply Hlane)| |]; cbn [proxy_worker_next];
    try done; destruct x; try done; intros [= <- <-] Ho; unfold lane_frame; simpl.
  - destruct (token_cancelled i s); split_and!; auto.
  - specialize (Ho eq_refl). destruct (rx_winner s) eqn:E; simpl; split_and!; auto. right. eauto.
  - unfold note_proxy_failure. destruct (pr_error r); simpl; split_and!; auto.
  - split_and!; auto.
  - split_and!; auto.
Qed.

Lemma own_inv_proxy target e0 r r' : own_inv (erase r) -> proxy_step target e0 r r' -> own_inv (erase r').
Proof.
  intros Hinv [e He]. destruct e as [i x| |]; cbn [proxy_race_next] in He.
  - destruct (px_lanes r !! i) as [pc|] eqn:Hi; [|done]. cbn in He.
    destruct (proxy_worker_next target i (px_shared r) pc x) as [[s pc']|] eqn:Hn; [|done]. cbn in He. simplify_eq.
    unfold erase. cbn [px_shared px_lanes px_waiter]. rewrite list_fmap_insert.
    apply (own_inv_frame (erase r)); [done|]. eapply worker_frame; [done|].
    apply (oi_lanes _ Hinv i). simpl. by rewrite list_lookup_fmap, Hi.
  - destruct (match px_waiter r with WCheck => _ | _ => false end); [done|]. destruct (waiter_next _ _ _) as [[s pc']|] eqn:Hn; [|done]. cbn in He. simplify_eq.
    by apply (own_inv_waiter e0 (erase r)).
  - simplify_eq. destruct Hinv. by split.
Qed.

Lemma own_inv_proxy_init proxies : own_inv (erase (proxy_race_init proxies)).
Proof.
  split; simpl; try done.
  - intros i pc Hi. rewrite fmap_replicate in Hi. apply lookup_replicate in Hi as [-> _]. done.
  - set_solver.
  - intros _ j Hj. apply lookup_replicate in Hj as [? _]. done.
Qed.

(** ** Completion *)

(** The count of running workers is right, and a parked waiter with nobody
    left to wait for has its wake-up under way. *)
Definition proxy_done_inv (r : proxy_race) : Prop :=
  rx_running (px_shared r) = live_count (erase_pc <$> px_lanes r)
  /\ (px_waiter r = WPark -> rx_running (px_shared r) = 0%nat ->
      rx_permit (px_shared r) = true \/ LNotify ∈ erase_pc <$> px_lanes r).

Lemma worker_count target i s pc x s' pc' :
  proxy_worker_next target i s pc x = Some (s', pc') ->
  let l := live (erase_pc pc) in let l' := live (erase_pc pc') in
  (l = true /\ l' = false /\ rx_running s' = pred (rx_running s) /\ rx_permit s' = rx_permit s
     /\ (erase_pc pc' = LNotify \/ rx_running s <> 1%nat))
  \/ (l = false /\ l' = false /\ rx_running s' = rx_running s /\ rx_permit s' = true)
  \/ (l = true /\ l' = true /\ rx_running s' = rx_running s /\ rx_permit s' = rx_permit s).
Proof.
  assert (forall lpc, ('(s0, lpc') ← lane_next i s lpc x; Some (s0, PLane lpc')) = Some (s', pc') ->
    (live lpc = true /\ live (erase_pc pc') = false /\ rx_running s' = pred (rx_running s) /\ rx_permit s' = rx_permit s
      /\ (erase_pc pc' = LNotify \/ rx_running s <> 1%nat))
    \/ (live lpc = false /\ live (erase_pc pc') = false /\ rx_running s' = rx_running s /\ rx_permit s' = true)
    \/ (live lpc = true /\ live (erase_pc pc') = true /\ rx_running s' = rx_running s /\ rx_permit s' = rx_permit s)) as Hlane.
  { intros lpc H. destruct (lane_next i s lpc x) as [[s0 lpc']|] eqn:E; [|done]. cbn in H. simplify_eq. simpl.
    destruct (lane_next_count _ _ _ _ _ _ E) as [(-> & ? & ? & ->)|[(-> & -> & ? & ?)|(? & ? & ? & ?)]]; [left|right; left; done|right; right; done].
    destruct (Nat.eqb_spec (rx_running s) 1); split_and!; auto. }
  cbv zeta. destruct pc as [lpc| |]; [destruct lpc; try (by apply Hlane)| |]; cbn [proxy_worker_next];
    try done; destruct x; try done; intros [= <- <-]; simpl.
  - right; right. by destruct (token_cancelled i s).
  - right; right. by destruct (rx_winner s).
  - right; right. unfold note_proxy_failure. by destruct (pr_error r).
  - left. split_and!; auto.
  - by right; left.
Qed.

Lemma proxy_done_step target e0 r r' : proxy_done_inv r -> proxy_step target e0 r r' -> proxy_done_inv r'.
Proof.
  intros [Hcnt Hpark] [e He]. destruct e as [i x| |]; cbn [proxy_race_next] in He.
  - destruct (px_lanes r !! i) as [pc|] eqn:Hi; [|done]. cbn in He.
    destruct (proxy_worker_next target i (px_shared r) pc x) as [[s pc']|] eqn:Hn; [|done]. cbn in He. simplify_eq.
    assert ((erase_pc <$> px_lanes r) !! i = Some (erase_pc pc)) as Hi' by (by rewrite list_lookup_fmap, Hi).
    pose proof (live_count_insert _ _ _ (erase_pc pc') Hi') as Hins.
    pose proof (worker_count _ _ _ _ _ _ _ Hn) as Hw. cbv zeta in Hw.
    assert (i < length (erase_pc <$> px_lanes r))%nat as Hlt by (by eapply lookup_lt_Some).
    unfold proxy_done_inv. cbn [px_shared px_lanes px_waiter]. rewrite list_fmap_insert.
    assert (rx_running s = live_count (<[i := erase_pc pc']> (erase_pc <$> px_lanes r))) as Hcnt'.
    { destruct Hw as [(Hl & Hl' & -> & _)|[(Hl & Hl' & -> & _)|(Hl & Hl' & -> & _)]]; rewrite Hl, Hl' in Hins; lia. }
    split; [done|]. intros Hwt H0.
    destruct Hw as [(Hl & Hl' & Hr & Hp & Hlast)|[(Hl & Hl' & Hr & Hp)|(Hl & Hl' & Hr & Hp)]].
    + destruct Hlast as [Heq|Hne].
      * right. rewrite Heq. eapply list_elem_of_lookup_2. by apply list_lookup_insert_eq.
      * rewrite Hl, Hl' in Hins. lia.
    + by left.
    + rewrite Hcnt' in H0. apply (live_zero _ i (erase_pc pc')) in H0; [congruence|]. by apply list_lookup_insert_eq.
  - destruct (match px_waiter r with WCheck => _ | _ => false end); [done|].
    destruct (waiter_next _ _ _) as [[s pc']|] eqn:Hn; [|done]. cbn in He. simplify_eq.
    destruct r as [sh lanes w]; simpl in *.
    destruct w as [| | |[[i y]|] j|i y|e]; simpl in Hn; repeat case_match; simplify_eq; try done; split; simpl; try done.
    intros _ H0. by rewrite H0 in *.
  - simplify_eq. by split.
Qed.

Definition proxy_inv (r : proxy_race) : Prop := own_inv (erase r) /\ proxy_done_inv r.

Lemma proxy_inv_reachable target e0 proxies r :
  rtc (proxy_step target e0) (proxy_race_init proxies) r -> proxy_inv r.
Proof.
  apply rtc_invariant.
  - intros x y [Ho Hd] Hs. split; [by eapply own_inv_proxy|by eapply proxy_done_step].
  - split; [apply own_inv_proxy_init|]. split; [|done]. simpl. rewrite fmap_replicate. simpl.
    induction (length proxies) as [|n IH]; [done|]. simpl. unfold live_count in *. rewrite filter_cons. simpl. by rewrite <-IH.
Qed.

Lemma proxy_step_rtc target e0 e r r' r'' :
  proxy_race_next target e0 e r = Some r' -> rtc (proxy_step target e0) r' r'' -> rtc (proxy_step target e0) r r''.
Proof. intros H. apply rtc_l. by exists e. Qed.

Lemma run_proxy_schedule_rtc target e0 es r r' :
  run_proxy_schedule target e0 es r = Some r' -> rtc (proxy_step target e0) r r'.
Proof.
  revert r. induction es as [|e es IH]; intros r H; cbn [run_proxy_schedule] in H; [by simplify_eq|].
  destruct (proxy_race_next target e0 e r) eqn:E; [|done]. eapply proxy_step_rtc; [done|]. by apply IH.
Qed.

(** While no winner holds the lock, the waiter's steps are those of the
    target race. *)
Lemma waiter_steps target e0 r r' :
  Forall (eq (PLane LExit)) (px_lanes r) -> race_next e0 EWaiter (erase r) = Some r' ->
  exists q, proxy_race_next target e0 EWaiter r = Some q /\ erase q = r' /\ px_lanes q = px_lanes r.
Proof.
  intros Hex H. cbn [race_next erase rc_shared rc_waiter rc_lanes] in H. cbn [proxy_race_next].
  assert (existsb holds_lock (px_lanes r) = false) as Hlock.
  { clear H. induction Hex as [|pc l <- _ IH]; [done|]. by simpl. }
  rewrite Hlock. replace (match px_waiter r with WCheck => false | _ => false end) with false by (by destruct (px_waiter r)).
  destruct (waiter_next e0 (px_shared r) (px_waiter r)) as [[s pc']|]; [|done]. simplify_eq. by eexists.
Qed.

Lemma waiter_run_proxy target e0 r r' :
  Forall (eq (PLane LExit)) (px_lanes r) -> rtc (waiter_run e0) (erase r) r' ->
  exists q, rtc (proxy_step target e0) r q /\ erase q = r'.
Proof.
  intros Hex H. remember (erase r) as er eqn:Er. revert r Hex Er.
  induction H as [x|x y z H _ IH]; intros r Hex ->; [by exists r|].
  destruct (waiter_steps target e0 r y Hex H) as (q & Hq & <- & Hl).
  destruct (IH q) as (q' & Hq' & <-); [by rewrite Hl|done|]. exists q'. split; [|done]. by eapply proxy_step_rtc.
Qed.

(** ** Theorems *)

(** C11. A proxy race has one owner and always ends.  In every interleaving of
    the workers all chunks the client gets come from one proxy; a result that
    is stored or returned comes from it too, and only the proxy of a success is
    made the provider's current one; and once the workers have left, the caller
    can run to its answer. *)
Theorem proxy_race_sound target e0 proxies attempt r :
  rtc (proxy_step target e0) (proxy_race_init proxies) r ->
  (forall i c j d, (i, c) ∈ sk_out (px_shared r) -> (j, d) ∈ sk_out (px_shared r) -> i = j)
  /\ (forall i c j x, (i, c) ∈ sk_out (px_shared r) ->
        rx_winner (px_shared r) = Some (j, x) \/ px_waiter r = WOk j x -> i = j)
  /\ (forall result id, proxy_race_outcome attempt proxies r = Some (result, Some id) ->
        pr_error result = None /\ (forall i c, (i, c) ∈ sk_out (px_shared r) -> proxies !! i = Some id))
  /\ (Forall (eq (PLane LExit)) (px_lanes r) ->
        exists r', rtc (proxy_step target e0) r r' /\ is_Some (proxy_race_outcome attempt proxies r')).
Proof.
  intros [[_ Ho Hr Ht _ _] [Hcnt Hpark]]%proxy_inv_reachable. simpl in *.
  assert (forall i c j x, (i, c) ∈ sk_out (px_shared r) ->
            rx_winner (px_shared r) = Some (j, x) \/ px_waiter r = WOk j x -> i = j) as Hown.
  { intros i c j x Hi%Ho [Hj%Hr|Hj]; [lia|]. assert (sk_winner (px_shared r) = S j) by (apply Ht; by rewrite Hj). lia. }
  split_and!; [|done| |].
  - intros i c j d Hi%Ho Hj%Ho. lia.
  - intros result id H. unfold proxy_race_outcome in H. destruct (px_waiter r) as [| | | |j x|e] eqn:Ew; try done.
    simplify_eq. destruct (pr_error result); [done|]. split; [done|]. intros i c Hi.
    by rewrite (Hown i c j result Hi) by (by right).
  - intros Hex. assert (Forall (eq LExit) (erase_pc <$> px_lanes r)) as Hex'
      by (apply Forall_fmap; eapply Forall_impl; [done|]; by intros ? <-).
    destruct (waiter_finishes e0 (erase r)) as (r' & Hr' & Hf).
    + simpl. rewrite Hcnt. by apply exited_count.
    + simpl. intros Hw. destruct (Hpark Hw) as [?|Hn]; [by rewrite Hcnt; apply exited_count|done|].
      rewrite Forall_forall in Hex'. by apply Hex' in Hn.
    + destruct (waiter_run_proxy target e0 r r' Hex Hr') as (q & Hq & <-). exists q. split; [done|].
      unfold waiter_finished in Hf. simpl in Hf. unfold proxy_race_outcome. by destruct (px_waiter q).
Qed.

(** Proxy "a" answers first; proxy "b" loses the claim. *)
Definition demo_proxies : list string := ["a"; "b"]%string.
Definition demo_proxy_schedule : list event :=
  [ELane 0 Tick; ELane 1 Tick; ELane 0 (Send [104])] ++ replicate 8 (ELane 0 Tick)
  ++ [ELane 0 (Return demo_ok)] ++ replicate 5 (ELane 0 Tick)
  ++ [ELane 1 (Return demo_ok)] ++ replicate 5 (ELane 1 Tick) ++ replicate 4 EWaiter.
Definition demo_proxy_race : proxy_race :=
  default (proxy_race_init demo_proxies)
    (run_proxy_schedule default_target RaceLost demo_proxy_schedule (proxy_race_init demo_proxies)).

Lemma proxy_race_sound_witness :
  pr_error demo_ok = None /\ (forall i c, (i, c) ∈ sk_out (px_shared demo_proxy_race) -> demo_proxies !! i = Some "a"%string).
Proof.
  apply (proxy_race_sound default_target RaceLost demo_proxies 1 demo_proxy_race).
  - apply (run_proxy_schedule_rtc _ _ demo_proxy_schedule). vm_compute. reflexivity.
  - vm_compute. reflexivity.
Defined.
