(* ===== verification/SseFraming.v ===== *)
(** * Framing of server-sent events

    Models openproxy-pipeline/src/sse/framing.rs: [SseParser] buffers
    transport chunks and yields lines, or whole OpenAI frames, without
    rescanning what it has already searched. *)

From S2P Require Import Prelude Errors.

Definition bytes : Type := list Z.

Definition NL : Z := 10.
Definition CR : Z := 13.

Record SseParser := mkParser { buffer : bytes; max_line_bytes : Z; scanned : nat }.

Definition parser_new (max : Z) : SseParser := mkParser [] max 0.

(** [push_bytes]; [None] is the memory guard's error. *)
Definition push_bytes (chunk : bytes) (p : SseParser) : option SseParser :=
  let len := sat_add u64_max (Z.of_nat (length (buffer p))) (Z.of_nat (length chunk)) in
  if max_line_bytes p <? len then None
  else Some (mkParser (match buffer p with
                       | [] => chunk
                       | _ :: _ => buffer p ++ chunk
                       end) (max_line_bytes p) (scanned p)).

(** [memchr(b'\n', _)]. *)
Fixpoint memchr_nl (b : bytes) : option nat :=
  match b with
  | [] => None
  | x :: b' => if x =? NL then Some 0%nat else S <$> memchr_nl b'
  end.

Definition newline (p : SseParser) : SseParser * option nat :=
  if bool_decide (length (buffer p) < scanned p)%nat then (p, None)
  else match memchr_nl (drop (scanned p) (buffer p)) with
       | Some relative => (mkParser (buffer p) (max_line_bytes p) 0, Some (scanned p + relative)%nat)
       | None => (mkParser (buffer p) (max_line_bytes p) (length (buffer p)), None)
       end.

Definition next_line (p : SseParser) : SseParser * option bytes :=
  match newline p with
  | (p, Some pos) =>
      (mkParser (drop (S pos) (buffer p)) (max_line_bytes p) (scanned p), Some (take pos (buffer p)))
  | (p, None) => (p, None)
  end.

Definition next_openai_frame (p : SseParser) : SseParser * option bytes :=
  match newline p with
  | (p, Some pos) =>
      let line_end := S pos in
      let delimiter := match drop line_end (buffer p) with
                       | 10 :: _ => 1%nat
                       | 13 :: 10 :: _ => 2%nat
                       | _ => 0%nat
                       end in
      (mkParser (drop (line_end + delimiter) (buffer p)) (max_line_bytes p) (scanned p),
       Some (take (line_end + delimiter) (buffer p)))
  | (p, None) => (p, None)
  end.

(** ** The reading loop

    Each transport chunk is pushed, then the parser is asked for pieces until
    it has none; a guard error ends the stream. *)

Fixpoint drain (next : SseParser -> SseParser * option bytes) (fuel : nat) (p : SseParser)
    : SseParser * list bytes :=
  match fuel with
  | O => (p, [])
  | S f => match next p with
           | (p, Some piece) => let '(p, pieces) := drain next f p in (p, piece :: pieces)
           | (p, None) => (p, [])
           end
  end.

Fixpoint feed (next : SseParser -> SseParser * option bytes) (chunks : list bytes) (p : SseParser)
    : option (SseParser * list bytes) :=
  match chunks with
  | [] => Some (p, [])
  | c :: chunks' =>
      match push_bytes c p with
      | None => None
      | Some p =>
          let '(p, pieces) := drain next (S (length (buffer p))) p in
          match feed next chunks' p with
          | Some (p, pieces') => Some (p, pieces ++ pieces')
          | None => None
          end
      end
  end.

(** ** Abstract specification: the lines of a byte string and what is left *)

Fixpoint split_lines (b : bytes) : list bytes * bytes :=
  match b with
  | [] => ([], [])
  | x :: b' =>
      let '(ls, rest) := split_lines b' in
      if x =? NL then ([] :: ls, rest)
      else match ls with
           | l :: ls' => ((x :: l) :: ls', rest)
           | [] => ([], x :: rest)
           end
  end.

(** ** Lemmas *)

(** The searched prefix lies in the buffer and has no line end. *)
Definition parser_wf (p : SseParser) : Prop :=
  (scanned p <= length (buffer p))%nat /\ NL ∉ take (scanned p) (buffer p).

Lemma memchr_none b : memchr_nl b = None <-> NL ∉ b.
Proof.
  induction b as [|x b IH]; simpl; [set_solver|]. destruct (Z.eqb_spec x NL) as [->|Hne].
  - split; [done|]. set_solver.
  - destruct (memchr_nl b); simpl; split; [done| |set_solver|done]. set_solver.
Qed.

Lemma memchr_app a b : NL ∉ a -> memchr_nl (a ++ b) = Nat.add (length a) <$> memchr_nl b.
Proof.
  induction a as [|x a IH]; intros Ha; simpl; [by destruct (memchr_nl b)|].
  destruct (Z.eqb_spec x NL) as [->|Hne]; [set_solver|].
  rewrite IH by set_solver. by destruct (memchr_nl b).
Qed.

(** The scan that resumes finds what a scan from the start would find. *)
Lemma newline_naive p :
  parser_wf p ->
  newline p = match memchr_nl (buffer p) with
              | Some pos => (mkParser (buffer p) (max_line_bytes p) 0, Some pos)
              | None => (mkParser (buffer p) (max_line_bytes p) (length (buffer p)), None)
              end.
Proof.
  intros [Hle Hno]. unfold newline. rewrite bool_decide_false by lia.
  assert (memchr_nl (buffer p) = Nat.add (scanned p) <$> memchr_nl (drop (scanned p) (buffer p))) as ->.
  { rewrite <- (take_drop (scanned p) (buffer p)) at 1. rewrite memchr_app by done.
    by rewrite length_take_le by done. }
  by destruct (memchr_nl (drop _ _)).
Qed.

Lemma memchr_split_lines b :
  split_lines b = match memchr_nl b with
                  | Some pos => let '(ls, rest) := split_lines (drop (S pos) b) in (take pos b :: ls, rest)
                  | None => ([], b)
                  end.
Proof.
  induction b as [|x b IH]; [done|]. cbn [split_lines memchr_nl].
  destruct (Z.eqb_spec x NL) as [->|Hne]; [simpl; rewrite drop_0; by destruct (split_lines b)|].
  rewrite IH. destruct (memchr_nl b) as [pos|]; simpl; [|done]. by destruct (split_lines (drop (S pos) b)).
Qed.

Lemma memchr_lt b pos : memchr_nl b = Some pos -> (pos < length b)%nat /\ b !! pos = Some NL /\ NL ∉ take pos b.
Proof.
  revert pos. induction b as [|x b IH]; intros pos H; simpl in *; [done|].
  destruct (Z.eqb_spec x NL) as [->|Hne]; [simplify_eq; split_and!; simpl; [lia|done|set_solver]|].
  destruct (memchr_nl b) as [q|]; simpl in H; simplify_eq. destruct (IH q eq_refl) as (? & ? & ?).
  split_and!; simpl; [lia|done|set_solver].
Qed.

Lemma split_lines_app a b :
  split_lines (a ++ b)
  = let '(l1, r1) := split_lines a in let '(l2, r2) := split_lines (r1 ++ b) in (l1 ++ l2, r2).
Proof.
  induction a as [|x a IH]; simpl; [by destruct (split_lines b)|].
  rewrite IH. destruct (split_lines a) as [l1 r1]. destruct (split_lines (r1 ++ b)) as [l2 r2] eqn:E.
  destruct (Z.eqb_spec x NL) as [->|Hne]; [by rewrite E|].
  destruct l1 as [|l l1]; simpl; [|by rewrite E].
  rewrite E. destruct (Z.eqb_spec x NL); [done|]. by destruct l2.
Qed.

(** What is left has no line. *)
Lemma split_lines_rest b ls rest :
  split_lines b = (ls, rest) -> split_lines rest = ([], rest) /\ (length rest <= length b)%nat.
Proof.
  revert ls rest. induction b as [|x b IH]; intros ls rest Es; simpl in *; [by simplify_eq|].
  destruct (split_lines b) as [l0 r0]. destruct (IH l0 r0 eq_refl) as [I1 I2].
  destruct (Z.eqb_spec x NL); [simplify_eq; split; [done|lia]|].
  destruct l0; simplify_eq; [|split; [done|lia]]. simpl. rewrite I1.
  destruct (Z.eqb_spec x NL); [done|]. split; [done|lia].
Qed.

(** A piece taken at the first line end leaves a well-formed parser. *)
Lemma fresh_wf b max : parser_wf (mkParser b max 0).
Proof. split; simpl; [lia|]. set_solver. Qed.

Lemma scanned_wf b max : NL ∉ b -> parser_wf (mkParser b max (length b)).
Proof. intros H. split; simpl; [lia|]. by rewrite firstn_all. Qed.

Lemma drain_lines fuel p :
  parser_wf p -> (length (buffer p) < fuel)%nat ->
  exists sc, drain next_line fuel p
    = (mkParser (split_lines (buffer p)).2 (max_line_bytes p) sc, (split_lines (buffer p)).1)
    /\ parser_wf (mkParser (split_lines (buffer p)).2 (max_line_bytes p) sc).
Proof.
  revert p. induction fuel as [|fuel IH]; intros p Hwf Hf; [lia|].
  cbn [drain]. unfold next_line at 1. rewrite newline_naive by done. rewrite (memchr_split_lines (buffer p)).
  destruct (memchr_nl (buffer p)) as [pos|] eqn:E.
  - destruct (memchr_lt _ _ E) as (Hlt & _ & _). cbn [buffer max_line_bytes scanned].
    destruct (IH (mkParser (drop (S pos) (buffer p)) (max_line_bytes p) 0)) as (sc & -> & Hw);
      [apply fresh_wf|simpl; rewrite length_drop; lia|].
    simpl in *. exists sc. by destruct (split_lines (drop (S pos) (buffer p))).
  - exists (length (buffer p)). split; [done|]. simpl. apply scanned_wf. by apply memchr_none.
Qed.

(** A frame: a line with its end, and the blank line behind it if it is
    already there. *)
Definition is_frame (f : bytes) : Prop :=
  exists line d, f = line ++ NL :: d /\ NL ∉ line /\ (d = [] \/ d = [NL] \/ d = [CR; NL]).

Lemma frame_split b pos (k : nat) :
  memchr_nl b = Some pos ->
  k = match drop (S pos) b with 10 :: _ => 1%nat | 13 :: 10 :: _ => 2%nat | _ => 0%nat end ->
  is_frame (take (S pos + k) b) /\ (S pos + k <= length b)%nat.
Proof.
  intros E Hk. destruct (memchr_lt _ _ E) as (Hlt & Hpos & Hno).
  assert (take (S pos + k) b = take pos b ++ NL :: take k (drop (S pos) b)) as ->.
  { rewrite <- (take_drop_middle b pos NL Hpos) at 1.
    rewrite take_app, length_take_le by lia. rewrite take_take.
    replace (S pos + k - pos)%nat with (S k) by lia. by rewrite Nat.min_r by lia. }
  assert (S pos + k <= length b /\ (take k (drop (S pos) b) = []
    \/ take k (drop (S pos) b) = [NL] \/ take k (drop (S pos) b) = [CR; NL]))%nat as [Hle Hd].
  { assert (length (drop (S pos) b) = length b - S pos)%nat as Hl by apply length_drop. subst k. revert Hl.
    destruct (drop (S pos) b) as [|x l]; simpl; intros Hl; [split; [lia|by left]|].
    repeat case_match; subst; simpl in *; split; try lia; auto. }
  split; [|done]. by eexists _, _.
Qed.

Lemma drain_frames fuel p :
  parser_wf p -> (length (buffer p) < fuel)%nat ->
  let '(p', fs) := drain next_openai_frame fuel p in
  parser_wf p' /\ concat fs ++ buffer p' = buffer p /\ NL ∉ buffer p' /\ Forall is_frame fs
  /\ max_line_bytes p' = max_line_bytes p.
Proof.
  revert p. induction fuel as [|fuel IH]; intros p Hwf Hf; [lia|].
  cbn [drain]. unfold next_openai_frame at 1. rewrite newline_naive by done.
  destruct (memchr_nl (buffer p)) as [pos|] eqn:E; cbn [buffer max_line_bytes scanned].
  - set (k := match drop (S pos) (buffer p) with 10 :: _ => 1%nat | 13 :: 10 :: _ => 2%nat | _ => 0%nat end).
    destruct (frame_split (buffer p) pos k E eq_refl) as [Hfr Hle].
    specialize (IH (mkParser (drop (S pos + k) (buffer p)) (max_line_bytes p) 0)).
    destruct (drain next_openai_frame fuel _) as [p' fs].
    destruct IH as (H1 & H2 & H3 & H4 & H5); [apply fresh_wf|cbn [buffer]; rewrite length_drop; lia|].
    cbn [buffer max_line_bytes] in *.
    split_and!; [done| |done|by constructor|done].
    rewrite concat_cons, <- app_assoc, H2. apply take_drop.
  - split_and!; [apply scanned_wf; by apply memchr_none|done|by apply memchr_none|done|done].
Qed.

Lemma push_spec c p :
  0 <= max_line_bytes p < u64_max -> parser_wf p ->
  match push_bytes c p with
  | Some p' => buffer p' = buffer p ++ c /\ max_line_bytes p' = max_line_bytes p /\ parser_wf p'
               /\ Z.of_nat (length (buffer p')) <= max_line_bytes p
  | None => max_line_bytes p < Z.of_nat (length (buffer p ++ c))
  end.
Proof.
  intros Hmax [Hle Hno]. unfold push_bytes, sat_add.
  destruct (Z.ltb_spec (max_line_bytes p)
    (Z.min u64_max (Z.of_nat (length (buffer p)) + Z.of_nat (length c)))) as [Hgt|Hle'].
  { rewrite length_app. lia. }
  assert (match buffer p with [] => c | _ :: _ => buffer p ++ c end = buffer p ++ c) as Heq
    by by destruct (buffer p).
  split_and!; simpl; rewrite ?Heq, ?length_app; try done; [|lia].
  split; simpl; [rewrite length_app; lia|]. by rewrite take_app_le.
Qed.

(** ** Properties *)

(** Line framing does not depend on how the transport fragments the
    stream: whatever the chunks, the lines yielded are those of the whole
    byte string, and the unfinished one is left in the buffer, which stays
    within its bound; only a stream longer than the bound can be refused. *)
Lemma line_framing_chunk_invariant max chunks :
  0 <= max < u64_max ->
  match feed next_line chunks (parser_new max) with
  | Some (p, lines) => split_lines (concat chunks) = (lines, buffer p)
                       /\ Z.of_nat (length (buffer p)) <= max
  | None => max < Z.of_nat (length (concat chunks))
  end.
Proof.
  intros Hmax.
  enough (forall p, max_line_bytes p = max -> parser_wf p -> Z.of_nat (length (buffer p)) <= max ->
    (split_lines (buffer p)).1 = [] ->
    match feed next_line chunks p with
    | Some (p', lines) => split_lines (buffer p ++ concat chunks) = (lines, buffer p')
                          /\ Z.of_nat (length (buffer p')) <= max
    | None => max < Z.of_nat (length (buffer p ++ concat chunks))
    end) as H by (apply (H (parser_new max)); [done|apply fresh_wf|simpl; lia|done]).
  induction chunks as [|c chunks IH]; intros p Hp Hwf Hlen Hnil; cbn [feed].
  { rewrite app_nil_r. split; [|done]. rewrite memchr_split_lines in *.
    destruct (memchr_nl (buffer p)); [by destruct (split_lines _)|done]. }
  pose proof (push_spec c p ltac:(lia) Hwf) as Hpush. rewrite concat_cons.
  destruct (push_bytes c p) as [p1|]; [|rewrite !length_app in *; lia].
  destruct Hpush as (B1 & B2 & B3 & B4).
  destruct (drain_lines (S (length (buffer p1))) p1 B3 ltac:(lia)) as (sc & -> & Hw).
  pose proof (split_lines_app (buffer p1) (concat chunks)) as Happ. rewrite B1 in Happ at 1.
  rewrite <- app_assoc in Happ.
  destruct (split_lines (buffer p1)) as [ls rest] eqn:Es. cbn [fst snd] in *.
  destruct (split_lines_rest _ _ _ Es) as [Hrest Hrl].
  specialize (IH (mkParser rest (max_line_bytes p1) sc)). cbn [buffer max_line_bytes] in IH.
  rewrite B2 in *. specialize (IH Hp Hw ltac:(lia)). rewrite Hrest in IH. specialize (IH eq_refl).
  destruct (feed next_line chunks _) as [[p2 ls2]|].
  - destruct IH as [I1 I2]. rewrite Happ, I1. done.
  - rewrite B1 in Hrl. rewrite !length_app in *. lia.
Qed.

(** The unfinished line is the beginning of the next one. *)
Lemma split_lines_prefix b x :
  split_lines b = ([], b) ->
  let '(ls, rest) := split_lines (b ++ x) in match ls with l :: _ => b `prefix_of` l | [] => b `prefix_of` rest end.
Proof.
  induction b as [|y b IH]; cbn; intros H; [destruct (split_lines x) as [[|] ]; apply prefix_nil|].
  destruct (split_lines b) as [l0 r0] eqn:E. destruct (Z.eqb_spec y NL); [done|]. destruct l0; [|done]. injection H as ->.
  specialize (IH eq_refl). destruct (split_lines (b ++ x)) as [[|l ls] rest]; by apply prefix_cons.
Qed.

(** A stream of whole lines of up to [k] bytes is never refused if each chunk leaves room for a line. *)
Lemma feed_fits max k chunks lines : 0 <= max < u64_max -> 0 <= k -> split_lines (concat chunks) = (lines, []) ->
  Forall (fun l => Z.of_nat (length l) <= k) lines -> Forall (fun c => k + Z.of_nat (length c) <= max) chunks ->
  exists p, feed next_line chunks (parser_new max) = Some (p, lines).
Proof.
  intros Hmax Hk Hs Hl Hc.
  enough (forall p, max_line_bytes p = max -> parser_wf p -> split_lines (buffer p) = ([], buffer p) ->
    split_lines (buffer p ++ concat chunks) = (lines, []) -> exists p', feed next_line chunks p = Some (p', lines)) as H
    by (apply (H (parser_new max)); [done|apply fresh_wf|done|done]).
  clear Hs. revert lines Hl. induction Hc as [|c chunks Hc1 Hc IH]; intros lines Hl p Hp Hwf Hnil Hs; cbn [feed].
  { cbn in Hs. rewrite app_nil_r, Hnil in Hs. simplify_eq. by eexists. }
  rewrite concat_cons in Hs. pose proof (split_lines_prefix (buffer p) (c ++ concat chunks) Hnil) as Hpre. rewrite Hs in Hpre.
  assert (Z.of_nat (length (buffer p)) <= k) as Hlen.
  { destruct lines as [|l lines]; [apply prefix_nil_inv in Hpre; rewrite Hpre; cbn; lia|].
    apply Forall_cons in Hl as [Hl1 _]. apply prefix_length in Hpre. lia. }
  pose proof (push_spec c p ltac:(lia) Hwf) as Hpush.
  destruct (push_bytes c p) as [p1|]; [|rewrite length_app in Hpush; lia].
  destruct Hpush as (B1 & B2 & B3 & B4).
  destruct (drain_lines (S (length (buffer p1))) p1 B3 ltac:(lia)) as (sc & -> & Hw).
  rewrite app_assoc, <- B1, split_lines_app in Hs. destruct (split_lines (buffer p1)) as [ls rest] eqn:Es. cbn [fst snd] in *.
  destruct (split_lines_rest _ _ _ Es) as [Hrest _]. destruct (split_lines (rest ++ concat chunks)) as [l2 r2] eqn:E2. simplify_eq.
  apply Forall_app in Hl as [_ Hl2].
  destruct (IH l2 Hl2 (mkParser rest (max_line_bytes p1) sc)) as [p' ->]; [done|done|done|done|]. by eexists.
Qed.

Lemma line_framing_chunk_invariant_witness :
  split_lines (concat [[100; 97]; [10; 10; 98]]) = ([[100; 97]; []], [98]).
Proof.
  assert (0 <= 64 < u64_max) as Hm by zvm.
  pose proof (line_framing_chunk_invariant 64 [[100; 97]; [10; 10; 98]] Hm) as H.
  vm_compute in H. vm_compute. exact (proj1 H).
Defined.

(** Passthrough frames are lossless: whatever the chunks, the frames
    yielded, followed by the buffer, are exactly the bytes received; each is
    one line with its end and at most the blank line behind it, and no
    complete line is held back. *)
Lemma openai_frames_lossless max chunks p frames :
  0 <= max < u64_max ->
  feed next_openai_frame chunks (parser_new max) = Some (p, frames) ->
  concat frames ++ buffer p = concat chunks /\ Forall is_frame frames /\ NL ∉ buffer p.
Proof.
  intros Hmax.
  enough (forall p0, max_line_bytes p0 = max -> parser_wf p0 -> NL ∉ buffer p0 ->
    feed next_openai_frame chunks p0 = Some (p, frames) ->
    concat frames ++ buffer p = buffer p0 ++ concat chunks /\ Forall is_frame frames /\ NL ∉ buffer p) as H
    by (apply (H (parser_new max)); [done|apply fresh_wf|set_solver]).
  revert frames. induction chunks as [|c chunks IH]; intros frames p0 Hp Hwf Hno Hfeed; cbn [feed] in Hfeed.
  { simplify_eq. by rewrite app_nil_r. }
  pose proof (push_spec c p0 ltac:(lia) Hwf) as Hpush. rewrite concat_cons.
  destruct (push_bytes c p0) as [p1|]; [|done]. destruct Hpush as (B1 & B2 & B3 & _).
  pose proof (drain_frames (S (length (buffer p1))) p1 B3 ltac:(lia)) as Hd.
  destruct (drain next_openai_frame _ p1) as [p2 fs]. destruct Hd as (D1 & D2 & D3 & D4 & D5).
  destruct (feed next_openai_frame chunks p2) as [[p3 fs2]|] eqn:Ef; simplify_eq.
  destruct (IH fs2 p2) as (I1 & I2 & I3); [congruence|done..|].
  split_and!; [|by apply Forall_app|done].
  by rewrite concat_app, <- app_assoc, I1, app_assoc, D2, B1, app_assoc.
Qed.

Lemma openai_frames_lossless_witness :
  Forall is_frame [[100; 97; 10; 10]; [98; 10]].
Proof.
  apply (openai_frames_lossless 64 [[100; 97]; [10; 10; 98]; [10; 99]]
    (mkParser [99] 64 1) [[100; 97; 10; 10]; [98; 10]]); [zvm|vm_compute; reflexivity].
Defined.
