(* ===== verification/ComboTree.v ===== *)
(** * Combos inside combos

    Models openproxy-db/src/combos/resolve.rs and [flatten_sub_combos] of
    openproxy-pipeline/src/execution.rs: a combo's target may itself be a
    combo; resolution replaces it by that combo's targets, down to
    [MAX_SUB_COMBO_DEPTH] levels, refusing cycles, and then expands a target
    without an account into one target per account of its provider.

    What SQLite answers to each query is a parameter, the record [ComboDb].
    The recursion carries fuel; the depth check makes seven levels enough. *)

From Stdlib Require Import Ascii String.
From stdpp Require Import pretty.
From S2P Require Import Prelude Types Text Errors.

Definition MAX_SUB_COMBO_DEPTH : Z := 5.

(** ** Results and the loops over them *)

Definition Result (A : Type) : Type := (A + CoreError)%type.

(** A [for] loop whose body may fail or, under fuel, not answer. *)
Fixpoint for_each {A S} (body : S -> A -> option (Result S)) (s : S) (l : list A)
    : option (Result S) :=
  match l with
  | [] => Some (inl s)
  | x :: l' =>
      match body s x with
      | Some (inl s') => for_each body s' l'
      | r => r
      end
  end.

(** ** Queries *)

(** A row of [combo_target_model_sub_select]. *)
Record TargetRow := mkTargetRow {
  tr_model_row_id : option Z;
  tr_sub_combo_id : option Z;
  tr_context_length : option Z;
  tr_model_id : string;
  tr_max_output_tokens : option Z
}.

(** The answers of the database: the targets of a combo in order, its rows
    for the limits, its two overrides, the account ids of a provider with a
    health status (leaving out rate-limited ones or not), whether an account
    is active, and whether a provider has accounts. *)
Record ComboDb := mkComboDb {
  list_targets : Z -> Result (list ComboTarget);
  target_rows : Z -> Result (list TargetRow);
  context_window_of : Z -> Result (option Z);
  max_output_tokens_of : Z -> Result (option Z);
  query_accounts_by_health : string -> string -> bool -> Result (list Z);
  account_is_active : Z -> option bool;
  has_any_accounts : string -> option bool
}.

(** ** Updates of a target *)

Definition set_effort (e : option string) (t : ComboTarget) : ComboTarget :=
  mkTarget (t_id t) (t_combo_id t) (t_provider_id t) (t_account_id t) (t_model_row_id t)
    (t_sub_combo_id t) (t_priority_order t) (t_weight t) (t_active t) (t_rate_limit_scope t)
    (t_cooldown_mode t) (t_cooldown_base_secs t) (t_cooldown_max_secs t) (t_cooldown_factor t)
    e (t_description t) (t_selected_accounts t) (t_client_profile t) (t_inherited_target_id t).

Definition set_description (d : option string) (t : ComboTarget) : ComboTarget :=
  mkTarget (t_id t) (t_combo_id t) (t_provider_id t) (t_account_id t) (t_model_row_id t)
    (t_sub_combo_id t) (t_priority_order t) (t_weight t) (t_active t) (t_rate_limit_scope t)
    (t_cooldown_mode t) (t_cooldown_base_secs t) (t_cooldown_max_secs t) (t_cooldown_factor t)
    (t_thinking_effort t) d (t_selected_accounts t) (t_client_profile t) (t_inherited_target_id t).

Definition set_inherited (i : option Z) (t : ComboTarget) : ComboTarget :=
  mkTarget (t_id t) (t_combo_id t) (t_provider_id t) (t_account_id t) (t_model_row_id t)
    (t_sub_combo_id t) (t_priority_order t) (t_weight t) (t_active t) (t_rate_limit_scope t)
    (t_cooldown_mode t) (t_cooldown_base_secs t) (t_cooldown_max_secs t) (t_cooldown_factor t)
    (t_thinking_effort t) (t_description t) (t_selected_accounts t) (t_client_profile t) i.

Definition set_account (a : option Z) (t : ComboTarget) : ComboTarget :=
  mkTarget (t_id t) (t_combo_id t) (t_provider_id t) a (t_model_row_id t)
    (t_sub_combo_id t) (t_priority_order t) (t_weight t) (t_active t) (t_rate_limit_scope t)
    (t_cooldown_mode t) (t_cooldown_base_secs t) (t_cooldown_max_secs t) (t_cooldown_factor t)
    (t_thinking_effort t) (t_description t) (t_selected_accounts t) (t_client_profile t)
    (t_inherited_target_id t).

Section tree.
Context (db : ComboDb).

(** ** Resolution *)

Definition validate_recursion_depth (cid : Z) (visited : list Z) (depth : Z) : Result (list Z) :=
  if MAX_SUB_COMBO_DEPTH <? depth then
    inr (Validation ("max sub-combo depth (" +:+ pretty MAX_SUB_COMBO_DEPTH +:+ ") exceeded"))
  else if bool_decide (cid ∈ visited) then
    inr (Validation ("cyclic combo detected at id " +:+ pretty cid))
  else inl (visited ++ [cid]).

(** What a target of a sub-combo takes over from the target [t] it replaces. *)
Definition inherit (t st : ComboTarget) : ComboTarget :=
  let st := match t_thinking_effort t with Some e => set_effort (Some e) st | None => st end in
  match t_inherited_target_id st with
  | None => set_inherited (Some (default (t_id t) (t_inherited_target_id t))) st
  | Some _ => st
  end.

(** The loop's body; its state is [visited] and the targets so far. *)
Definition resolve_target (rec : Z -> list Z -> option (Result (list Z * list ComboTarget)))
    (s : list Z * list ComboTarget) (t : ComboTarget) : option (Result (list Z * list ComboTarget)) :=
  match t_sub_combo_id t with
  | Some sub_id =>
      match rec sub_id s.1 with
      | Some (inl (visited, sub)) => Some (inl (visited, s.2 ++ (inherit t <$> sub)))
      | r => r
      end
  | None => Some (inl (s.1, s.2 ++ [t]))
  end.

Fixpoint resolve_combo_to_targets (fuel : nat) (cid : Z) (visited : list Z) (depth : Z)
    : option (Result (list Z * list ComboTarget)) :=
  match fuel with
  | O => None
  | S fuel' =>
      match validate_recursion_depth cid visited depth with
      | inr e => Some (inr e)
      | inl visited =>
          match list_targets db cid with
          | inr e => Some (inr e)
          | inl targets =>
              match for_each (resolve_target (fun sub v => resolve_combo_to_targets fuel' sub v (depth + 1)))
                      (visited, []) targets with
              | Some (inl (visited, flat)) => Some (inl (removelast visited, flat))
              | r => r
              end
          end
      end
  end.

(** The depth runs from 0 to 6, where the check stops it. *)
Definition tree_fuel : nat := 7.

(** ** Limits of a combo

    The context window and the maximal output are computed by two copies of
    the same code: [limit_override] is the combo's own setting, [limit_leaf]
    what a model declares or what its name suggests. *)

Record Limit := mkLimit {
  limit_override : Z -> Result (option Z);
  limit_leaf : TargetRow -> option Z
}.

(** [str::to_lowercase], as far as a search for ASCII text can see: besides
    the ASCII letters only the Kelvin sign and the dotted capital I have ASCII
    letters in their lower case. *)
Fixpoint lower_bytes (bs : list Z) : list Z :=
  match bs with
  | [] => []
  | 226 :: (132 :: (170 :: bs'')) => 107 :: lower_bytes bs''
  | 196 :: (176 :: bs'') => 105 :: 204 :: 135 :: lower_bytes bs''
  | b :: bs' => (if (65 <=? b) && (b <=? 90) then b + 32 else b) :: lower_bytes bs'
  end.

Definition to_lower_cow (s : string) : string :=
  if existsb (fun b => (65 <=? b) && (b <=? 90)) (bytes_of s)
  then of_bytes (lower_bytes (bytes_of s)) else s.

Definition find_substring_match (haystack : string) (table : list (string * Z)) : option Z :=
  snd <$> head (filter (fun kv => contains kv.1 haystack = true) table).

Definition infer_context_length (model_id : string) : option Z :=
  find_substring_match (to_lower_cow model_id)
    [("claude-3", 200000); ("claude-sonnet-4", 200000); ("claude-opus-4", 200000);
     ("claude-opus-3", 200000); ("gemini-2.5-pro", 1048576); ("gemini-2.5-flash", 1048576);
     ("gemini-2", 1048576); ("gemini-1.5-pro", 2097152); ("gemini-1.5-flash", 1048576);
     ("gpt-4o", 128000); ("gpt-4-turbo", 128000); ("gpt-4-32k", 32000); ("o1", 200000);
     ("o3", 200000); ("deepseek-chat", 64000); ("deepseek-reasoner", 64000);
     ("llama-3.1-405b", 131072); ("llama-3.1-70b", 131072); ("llama-3.1-8b", 131072);
     ("llama-3.3-70b", 131072); ("qwen2.5", 32768); ("qwen-max", 32768);
     ("mistral-large", 128000)]%string.

Definition infer_max_output_tokens (model_id : string) : option Z :=
  find_substring_match (to_lower_cow model_id)
    [("claude-3", 8192); ("claude-sonnet-4", 8192); ("claude-opus-4", 32000); ("gpt-4o", 16384);
     ("o1", 100000); ("o3", 100000); ("gemini-2.5", 65536); ("deepseek", 32768)]%string.

Definition positive (o : option Z) : option Z :=
  match o with Some c => if 0 <? c then Some c else None | None => None end.

(** The leaf case of [resolve_target_context_window]. *)
Definition declared_or_inferred (infer : string -> option Z) (declared : option Z) (model_id : string)
    : option Z :=
  match positive declared with
  | Some c => Some c
  | None => if String.eqb model_id "" then None else infer model_id
  end.

Definition context_window_limit : Limit :=
  mkLimit (context_window_of db) (fun row =>
    match tr_model_row_id row with
    | Some _ => declared_or_inferred infer_context_length (tr_context_length row) (tr_model_id row)
    | None => None
    end).

Definition max_output_limit : Limit :=
  mkLimit (max_output_tokens_of db) (fun row =>
    match tr_model_row_id row with
    | Some _ => declared_or_inferred infer_max_output_tokens (tr_max_output_tokens row) (tr_model_id row)
    | None => None
    end).

Definition opt_min (acc w : option Z) : option Z :=
  match w with
  | Some w => Some (match acc with Some m => Z.min m w | None => w end)
  | None => acc
  end.

(** One row of [aggregate_target_context_windows]. *)
Definition aggregate_row (l : Limit) (rec : Z -> list Z -> option (Result (list Z * option Z)))
    (s : list Z * option Z) (row : TargetRow) : option (Result (list Z * option Z)) :=
  match tr_sub_combo_id row with
  | Some sub_id =>
      match rec sub_id s.1 with
      | Some (inl (visited, w)) => Some (inl (visited, opt_min s.2 (positive w)))
      | r => r
      end
  | None => Some (inl (s.1, opt_min s.2 (positive (limit_leaf l row))))
  end.

Fixpoint compute_effective_recursive (l : Limit) (fuel : nat) (cid : Z) (visited : list Z) (depth : Z)
    : option (Result (list Z * option Z)) :=
  match fuel with
  | O => None
  | S fuel' =>
      match validate_recursion_depth cid visited depth with
      | inr e => Some (inr e)
      | inl visited =>
          match limit_override l cid with
          | inr e => Some (inr e)
          | inl own =>
              match target_rows db cid with
              | inr e => Some (inr e)
              | inl rows =>
                  match for_each (aggregate_row l (fun sub v => compute_effective_recursive l fuel' sub v (depth + 1)))
                          (visited, None) rows with
                  | Some (inl (visited, natural)) =>
                      Some (inl (removelast visited, match own with Some o => Some o | None => natural end))
                  | r => r
                  end
              end
          end
      end
  end.

Definition compute_effective_context_window (cid : Z) : option (Result (list Z * option Z)) :=
  compute_effective_recursive context_window_limit tree_fuel cid [] 0.

Definition compute_effective_max_output_tokens (cid : Z) : option (Result (list Z * option Z)) :=
  compute_effective_recursive max_output_limit tree_fuel cid [] 0.

(** ** Account rotation *)

(** The ids of one health status, the rate-limited ones only if there is no
    other. *)
Definition accounts_of_status (provider status : string) : Result (list Z) :=
  match query_accounts_by_health db provider status true with
  | inl [] => query_accounts_by_health db provider status false
  | r => r
  end.

Definition fetch_accounts_by_health_priority (provider : string) : Result (list Z) :=
  match accounts_of_status provider "healthy" with
  | inr e => inr e
  | inl healthy =>
      match accounts_of_status provider "degraded" with
      | inr e => inr e
      | inl degraded =>
          match accounts_of_status provider "unhealthy" with
          | inr e => inr e
          | inl unhealthy => inl (healthy ++ degraded ++ unhealthy)
          end
      end
  end.

Definition expand_single_target_rotation (t : ComboTarget) : Result (list ComboTarget) :=
  match t_sub_combo_id t, t_account_id t with
  | Some _, _ => inl [t]
  | None, Some aid => inl (if default true (account_is_active db aid) then [t] else [])
  | None, None =>
      match fetch_accounts_by_health_priority (t_provider_id t) with
      | inr e => inr e
      | inl prioritized =>
          let candidates := match t_selected_accounts t with
                            | Some allowed => filter (fun id => id ∈ allowed) prioritized
                            | None => prioritized
                            end in
          match candidates with
          | [] => inl (if bool_decide (is_Some (t_selected_accounts t)) then []
                       else if default false (has_any_accounts db (t_provider_id t)) then [] else [t])
          | _ => inl ((fun a => set_account (Some a) t) <$> candidates)
          end
      end
  end.

Fixpoint expand_account_rotation (targets : list ComboTarget) : Result (list ComboTarget) :=
  match targets with
  | [] => inl []
  | t :: ts =>
      match expand_single_target_rotation t with
      | inr e => inr e
      | inl out =>
          match expand_account_rotation ts with
          | inr e => inr e
          | inl rest => inl (out ++ rest)
          end
      end
  end.

(** ** Flattening (execution.rs) *)

(** What a flattened target takes over from the root combo's target. *)
Definition inherit_root (t st : ComboTarget) : ComboTarget :=
  let st := match t_description t, t_description st with
            | Some d, None => set_description (Some d) st
            | _, _ => st
            end in
  match t_thinking_effort t with Some e => set_effort (Some e) st | None => st end.

Definition flatten_target (s : list Z * list ComboTarget) (t : ComboTarget)
    : option (Result (list Z * list ComboTarget)) :=
  match t_sub_combo_id t with
  | Some sub_id =>
      match resolve_combo_to_targets tree_fuel sub_id s.1 0 with
      | Some (inl (visited, sub)) => Some (inl (visited, s.2 ++ (inherit_root t <$> sub)))
      | r => r
      end
  | None => Some (inl (s.1, s.2 ++ [t]))
  end.

Definition flatten_sub_combos (root : Z) (targets : list ComboTarget) : option (Result (list ComboTarget)) :=
  match for_each flatten_target ([root], []) targets with
  | Some (inl (_, out)) => Some (expand_account_rotation out)
  | Some (inr e) => Some (inr e)
  | None => None
  end.

Definition flatten_targets (root : Z) (targets : list ComboTarget) : option (Result (list ComboTarget)) :=
  if existsb (fun t => bool_decide (is_Some (t_sub_combo_id t))) targets
  then flatten_sub_combos root targets else Some (inl targets).

End tree.

(** ** Specification

    [chain f n c d]: [n] steps lead from combo [c] down to combo [d], where
    [f] lists the sub-combos of a combo. *)

Inductive chain (f : Z -> Result (list Z)) : nat -> Z -> Z -> Prop :=
  | chain_nil c : chain f 0 c c
  | chain_cons n c l s d : f c = inl l -> s ∈ l -> chain f n s d -> chain f (S n) c d.

(** Below [c] every chain is short enough, meets no combo of [visited] and
    finds its rows. *)
Definition well_nested (f : Z -> Result (list Z)) (visited : list Z) (depth c : Z) : Prop :=
  forall n d, chain f n c d ->
    depth + Z.of_nat n <= MAX_SUB_COMBO_DEPTH /\ d ∉ visited /\ exists l, f d = inl l.

Definition sub_combos (db : ComboDb) (c : Z) : Result (list Z) :=
  match list_targets db c with inl ts => inl (omap t_sub_combo_id ts) | inr e => inr e end.

(** The targets below [c], depth first. *)
Fixpoint leaves (db : ComboDb) (n : nat) (c : Z) : list ComboTarget :=
  match n, list_targets db c with
  | S n', inl ts =>
      concat ((fun t => match t_sub_combo_id t with
                        | Some s => inherit t <$> leaves db n' s
                        | None => [t]
                        end) <$> ts)
  | _, _ => []
  end.

(** The sub-combos the limits go through. *)
Definition row_combos (db : ComboDb) (l : Limit) (c : Z) : Result (list Z) :=
  match limit_override l c, target_rows db c with
  | inl _, inl rows => inl (omap tr_sub_combo_id rows)
  | inr e, _ | inl _, inr e => inr e
  end.

(** The limit of a combo: its own setting, or else the least positive limit
    of its rows, where a sub-combo counts with its own limit. *)
Fixpoint limit_of (db : ComboDb) (l : Limit) (n : nat) (c : Z) : option Z :=
  match n, limit_override l c, target_rows db c with
  | S _, inl (Some o), _ => Some o
  | S n', inl None, inl rows =>
      foldl opt_min None
        ((fun row => positive match tr_sub_combo_id row with
                              | Some s => limit_of db l n' s
                              | None => limit_leaf l row
                              end) <$> rows)
  | _, _, _ => None
  end.

(** The model rows below [c]. *)
Fixpoint leaf_rows (db : ComboDb) (n : nat) (c : Z) : list TargetRow :=
  match n, target_rows db c with
  | S n', inl rows =>
      concat ((fun row => match tr_sub_combo_id row with
                          | Some s => leaf_rows db n' s
                          | None => [row]
                          end) <$> rows)
  | _, _ => []
  end.

(** ** Lemmas *)

Lemma for_each_spec {A S} (body : S -> A -> option (Result S)) (next : S -> A -> S)
    (good : A -> Prop) (inv : S -> Prop) s l :
  inv s ->
  (forall s x, inv s -> x ∈ l -> exists r, body s x = Some r
     /\ match r with inl s' => s' = next s x /\ inv s' /\ good x | inr _ => ~ good x end) ->
  exists r, for_each body s l = Some r
    /\ match r with inl s' => s' = foldl next s l /\ Forall good l | inr _ => ~ Forall good l end.
Proof.
  revert s. induction l as [|x l IH]; intros s Hs Hb; simpl.
  { eexists. split; [done|]. by simpl. }
  destruct (Hb s x Hs) as (r & -> & Hr); [left|].
  destruct r as [s'|e].
  - destruct Hr as (-> & Hinv & Hg).
    destruct (IH (next s x) Hinv) as (r & -> & Hr). { intros. apply Hb; [done|]. by right. }
    exists r. split; [done|]. destruct r; [|by rewrite Forall_cons; naive_solver].
    destruct Hr as [-> Hr]. by rewrite Forall_cons.
  - exists (inr e). split; [done|]. by rewrite Forall_cons; naive_solver.
Qed.

Lemma chain_app f m n a b c : chain f m a b -> chain f n b c -> chain f (m + n) a c.
Proof. induction 1; simpl; [done|]. intros. eapply chain_cons; eauto. Qed.

(** A combo below itself has arbitrarily long chains. *)
Lemma chain_pump f n c k : chain f (S n) c c -> chain f (k * S n) c c.
Proof. intros Hc. induction k as [|k IH]; simpl; [constructor|]. by apply (chain_app f (S n) _ c c). Qed.

Lemma well_nested_step f vis depth c :
  well_nested f vis depth c
  <-> depth <= MAX_SUB_COMBO_DEPTH /\ c ∉ vis
      /\ exists l, f c = inl l /\ Forall (well_nested f (vis ++ [c]) (depth + 1)) l.
Proof.
  split.
  - intros Hw. destruct (Hw 0%nat c ltac:(constructor)) as (Hd & Hc & l & Hl).
    split_and!; [lia|done|]. exists l. split; [done|]. apply Forall_forall. intros s Hs n d Hch.
    assert (chain f (S n) c d) as Hch' by (by eapply chain_cons).
    destruct (Hw _ _ Hch') as (H1 & H2 & H3). split_and!; [lia| |done].
    rewrite elem_of_app, list_elem_of_singleton. intros [?| ->]; [done|].
    pose proof (chain_pump f n c (Z.to_nat (MAX_SUB_COMBO_DEPTH + 1 - depth)) Hch') as Hp.
    destruct (Hw _ _ Hp) as (Hlt & _). nia.
  - intros (Hd & Hc & l & Hl & Hall) n d Hch. inversion Hch as [|n' c' l' s d' Hf Hs Hch']; subst.
    + split_and!; [lia|done|by exists l].
    + assert (l' = l) as -> by congruence. rewrite Forall_forall in Hall. destruct (Hall s Hs n' d Hch') as (? & Hv & ?).
      split_and!; [lia| |done]. rewrite elem_of_app in Hv. tauto.
Qed.

Lemma validate_spec cid vis d :
  match validate_recursion_depth cid vis d with
  | inl v => v = vis ++ [cid] /\ d <= MAX_SUB_COMBO_DEPTH /\ cid ∉ vis
  | inr _ => ~ (d <= MAX_SUB_COMBO_DEPTH /\ cid ∉ vis)
  end.
Proof.
  unfold validate_recursion_depth. destruct (Z.ltb_spec MAX_SUB_COMBO_DEPTH d); [lia|].
  case_bool_decide; [tauto|]. split_and!; [done|lia|done].
Qed.

Lemma removelast_snoc {A} (l : list A) x : removelast (l ++ [x]) = l.
Proof. apply removelast_last. Qed.

(** The loop's effect on its state, for the reference [leaves]. *)
Definition resolve_next (db : ComboDb) (n : nat) (s : list Z * list ComboTarget) (t : ComboTarget) :=
  (s.1, s.2 ++ match t_sub_combo_id t with
               | Some sub => inherit t <$> leaves db n sub
               | None => [t]
               end).

Lemma foldl_collect {A B} (f : A -> list B) v acc l :
  foldl (fun s t => (s.1, s.2 ++ f t)) ((v, acc) : list Z * list B) l = (v, acc ++ concat (f <$> l)).
Proof.
  revert acc. induction l as [|x l IH]; intros acc; simpl; [by rewrite app_nil_r|].
  by rewrite IH, <- app_assoc.
Qed.

(** Every target of [ts] that is a combo satisfies [P]. *)
Definition subs_ok (P : Z -> Prop) (t : ComboTarget) : Prop :=
  match t_sub_combo_id t with Some s => P s | None => True end.

Lemma subs_ok_omap P ts : Forall (subs_ok P) ts <-> Forall P (omap t_sub_combo_id ts).
Proof.
  induction ts as [|t ts IH]; simpl; [by rewrite !Forall_nil|].
  rewrite Forall_cons, IH. unfold subs_ok at 1. destruct (t_sub_combo_id t); simpl.
  - by rewrite Forall_cons.
  - tauto.
Qed.

Lemma resolve_spec db fuel cid vis d n :
  d = MAX_SUB_COMBO_DEPTH + 1 - Z.of_nat n -> (n < fuel)%nat ->
  exists r, resolve_combo_to_targets db fuel cid vis d = Some r
    /\ match r with
       | inl (v, ts) => v = vis /\ ts = leaves db n cid /\ well_nested (sub_combos db) vis d cid
       | inr _ => ~ well_nested (sub_combos db) vis d cid
       end.
Proof.
  revert cid vis d n. induction fuel as [|fuel IH]; intros cid vis d n Hd Hn; [lia|]. simpl.
  pose proof (validate_spec cid vis d) as Hv.
  destruct (validate_recursion_depth cid vis d) as [v|e].
  2: { exists (inr e). split; [done|]. rewrite well_nested_step. tauto. }
  destruct Hv as (-> & Hdm & Hc). destruct n as [|n]; [lia|].
  destruct (list_targets db cid) as [ts|e] eqn:Hts.
  2: { exists (inr e). split; [done|]. rewrite well_nested_step. unfold sub_combos at 1. rewrite Hts. naive_solver. }
  assert (well_nested (sub_combos db) vis d cid
          <-> Forall (subs_ok (well_nested (sub_combos db) (vis ++ [cid]) (d + 1))) ts) as Hw.
  { rewrite well_nested_step, subs_ok_omap. unfold sub_combos at 1. rewrite Hts. split; [naive_solver|].
    intros. split_and!; [lia|done|by eexists]. }
  destruct (for_each_spec (resolve_target (fun sub v => resolve_combo_to_targets db fuel sub v (d + 1)))
              (resolve_next db n) (subs_ok (well_nested (sub_combos db) (vis ++ [cid]) (d + 1)))
              (fun s => s.1 = vis ++ [cid]) (vis ++ [cid], []) ts) as (r & -> & Hr); [done| |].
  - intros [v acc] t Hinv Ht; simpl in Hinv; subst v. unfold resolve_target, resolve_next, subs_ok; simpl.
    destruct (t_sub_combo_id t) as [sub|]; [|by eexists].
    destruct (IH sub (vis ++ [cid]) (d + 1) n) as (r & -> & Hr); [lia..|].
    destruct r as [[v ts']|e]; [|by eexists]. destruct Hr as (-> & -> & Hg). by eexists.
  - destruct r as [s|e]; [|exists (inr e); split; [done|]; by rewrite Hw].
    destruct Hr as [-> Hg]. unfold resolve_next. rewrite foldl_collect; simpl.
    eexists. split; [done|]. rewrite removelast_snoc, Hw. split_and!; [done| |done].
    by rewrite Hts.
Qed.

Lemma inherit_sub t st : t_sub_combo_id (inherit t st) = t_sub_combo_id st.
Proof.
  unfold inherit. destruct (t_thinking_effort t); simpl; by destruct (t_inherited_target_id st).
Qed.

Lemma inherit_root_sub t st : t_sub_combo_id (inherit_root t st) = t_sub_combo_id st.
Proof.
  unfold inherit_root. destruct (t_description t), (t_thinking_effort t), (t_description st); done.
Qed.

Definition flat (t : ComboTarget) : Prop := t_sub_combo_id t = None.

Lemma leaves_flat db n cid : Forall flat (leaves db n cid).
Proof.
  revert cid. induction n as [|n IH]; intros cid; simpl; [constructor|].
  destruct (list_targets db cid) as [ts|]; [|constructor].
  apply Forall_concat, Forall_fmap, Forall_true. intros t; simpl.
  destruct (t_sub_combo_id t) as [s|] eqn:E; [|by repeat constructor].
  apply Forall_fmap. eapply Forall_impl; [apply (IH s)|]. intros st. unfold flat; simpl.
  by rewrite inherit_sub.
Qed.

(** The targets of a root combo with its sub-combos replaced. *)
Definition root_leaves (db : ComboDb) (ts : list ComboTarget) : list ComboTarget :=
  concat ((fun t => match t_sub_combo_id t with
                    | Some s => inherit_root t <$> leaves db 6 s
                    | None => [t]
                    end) <$> ts).

Lemma root_leaves_flat db ts : Forall flat (root_leaves db ts).
Proof.
  apply Forall_concat, Forall_fmap, Forall_true. intros t; unfold compose.
  destruct (t_sub_combo_id t) as [s|] eqn:E; [|by apply Forall_singleton].
  apply Forall_fmap. eapply Forall_impl; [apply leaves_flat|]. intros st. unfold flat, compose.
  by rewrite inherit_root_sub.
Qed.

(** What account rotation may make of a flat target [t]: nothing but [t]
    itself, with its account active or its provider without accounts, or [t]
    on an account of its provider that the target's selection allows. *)
Definition rotated (db : ComboDb) (t t' : ComboTarget) : Prop :=
  (t' = t /\ match t_account_id t with
             | Some a => account_is_active db a <> Some false
             | None => t_selected_accounts t = None /\ has_any_accounts db (t_provider_id t) <> Some true
             end)
  \/ (t_account_id t = None
      /\ exists a l, fetch_accounts_by_health_priority db (t_provider_id t) = inl l
           /\ a ∈ l /\ t' = set_account (Some a) t
           /\ match t_selected_accounts t with Some allowed => a ∈ allowed | None => True end).

Lemma expand_single_spec db t out :
  flat t -> expand_single_target_rotation db t = inl out -> Forall (rotated db t) out.
Proof.
  unfold flat, expand_single_target_rotation, rotated. intros -> H.
  destruct (t_account_id t) as [aid|].
  { destruct (account_is_active db aid) as [[]|]; simplify_eq/=; first [by apply Forall_nil | apply Forall_singleton; by left]. }
  destruct (fetch_accounts_by_health_priority db _) as [l|]; [|done].
  destruct (t_selected_accounts t) as [allowed|] eqn:Hs.
  - destruct (filter _ l) as [|a r] eqn:Hf.
    { rewrite bool_decide_true in H by eauto. simplify_eq. constructor. }
    assert (out = (fun b => set_account (Some b) t) <$> a :: r) as -> by (by simplify_eq).
    rewrite <- Hf. apply Forall_fmap, Forall_forall.
    intros x Hx%list_elem_of_filter. right. naive_solver.
  - destruct l as [|a r].
    { rewrite bool_decide_false in H by (by intros [? ?]).
      destruct (has_any_accounts db _) as [[]|]; simplify_eq/=; first [by apply Forall_nil | apply Forall_singleton; by left]. }
    assert (out = (fun b => set_account (Some b) t) <$> a :: r) as -> by (by simplify_eq).
    apply Forall_fmap, Forall_forall. intros x Hx.
    right. split; [done|]. by eexists _, _.
Qed.

Lemma expand_spec db ts out :
  Forall flat ts -> expand_account_rotation db ts = inl out ->
  Forall (fun t' => exists t, t ∈ ts /\ rotated db t t') out.
Proof.
  revert out. induction ts as [|t ts IH]; simpl; intros out Hf H; [simplify_eq; constructor|].
  apply Forall_cons in Hf as [Ht Hf].
  destruct (expand_single_target_rotation db t) as [o|] eqn:E; [|done].
  destruct (expand_account_rotation db ts) as [rest|]; [|done]. injection H as <-.
  apply Forall_app. split.
  - eapply Forall_impl; [by eapply expand_single_spec|]. intros t' Ht'. exists t. split; [left|done].
  - eapply Forall_impl; [by apply IH|]. intros t' (t0 & Hin & Hr). exists t0. split; [by right|done].
Qed.

Lemma rotated_flat db t t' : flat t -> rotated db t t' -> flat t'.
Proof. unfold flat, rotated. intros Hf [[-> _]|(_ & a & l & _ & _ & -> & _)]; done. Qed.

Definition flatten_next (db : ComboDb) (s : list Z * list ComboTarget) (t : ComboTarget) :=
  (s.1, s.2 ++ match t_sub_combo_id t with
               | Some sub => inherit_root t <$> leaves db 6 sub
               | None => [t]
               end).

Lemma flatten_loop_spec db root ts :
  exists r, for_each (flatten_target db) ([root], []) ts = Some r
    /\ match r with
       | inl s => s.2 = root_leaves db ts
                  /\ Forall (subs_ok (well_nested (sub_combos db) [root] 0)) ts
       | inr _ => ~ Forall (subs_ok (well_nested (sub_combos db) [root] 0)) ts
       end.
Proof.
  destruct (for_each_spec (flatten_target db) (flatten_next db)
              (subs_ok (well_nested (sub_combos db) [root] 0)) (fun s => s.1 = [root]) ([root], []) ts)
    as (r & -> & Hr); [done| |].
  - intros [v acc] t Hv Ht; simpl in Hv; subst v. unfold flatten_target, flatten_next, subs_ok; cbn [fst snd].
    destruct (t_sub_combo_id t) as [s|]; [|by eexists].
    destruct (resolve_spec db tree_fuel s [root] 0 6) as (r & -> & Hr); [done|unfold tree_fuel; lia|].
    destruct r as [[v sub]|e]; [|by eexists]. destruct Hr as (-> & -> & Hg). by eexists.
  - exists r. split; [done|]. destruct r as [s|e]; [|done]. destruct Hr as [-> Hg].
    unfold flatten_next. by rewrite foldl_collect.
Qed.

Definition row_ok (P : Z -> Prop) (row : TargetRow) : Prop :=
  match tr_sub_combo_id row with Some s => P s | None => True end.

Lemma row_ok_omap P rows : Forall (row_ok P) rows <-> Forall P (omap tr_sub_combo_id rows).
Proof.
  induction rows as [|t ts IH]; simpl; [by rewrite !Forall_nil|].
  rewrite Forall_cons, IH. unfold row_ok at 1. destruct (tr_sub_combo_id t); simpl.
  - by rewrite Forall_cons.
  - tauto.
Qed.

Lemma foldl_min (f : TargetRow -> option Z) v acc l :
  foldl (fun s row => (s.1, opt_min s.2 (f row))) ((v, acc) : list Z * option Z) l
  = (v, foldl opt_min acc (f <$> l)).
Proof. revert acc. induction l as [|x l IH]; intros acc; simpl; [done|]. apply IH. Qed.

Definition aggregate_next (db : ComboDb) (l : Limit) (n : nat) (s : list Z * option Z) (row : TargetRow) :=
  (s.1, opt_min s.2 (positive match tr_sub_combo_id row with
                              | Some sub => limit_of db l n sub
                              | None => limit_leaf l row
                              end)).

Lemma effective_spec db l fuel cid vis d n :
  d = MAX_SUB_COMBO_DEPTH + 1 - Z.of_nat n -> (n < fuel)%nat ->
  exists r, compute_effective_recursive db l fuel cid vis d = Some r
    /\ match r with
       | inl (v, w) => v = vis /\ w = limit_of db l n cid /\ well_nested (row_combos db l) vis d cid
       | inr _ => ~ well_nested (row_combos db l) vis d cid
       end.
Proof.
  revert cid vis d n. induction fuel as [|fuel IH]; intros cid vis d n Hd Hn; [lia|]. simpl.
  pose proof (validate_spec cid vis d) as Hv.
  destruct (validate_recursion_depth cid vis d) as [v|e].
  2: { exists (inr e). split; [done|]. rewrite well_nested_step. tauto. }
  destruct Hv as (-> & Hdm & Hc). destruct n as [|n]; [lia|].
  destruct (limit_override l cid) as [own|e] eqn:Ho.
  2: { exists (inr e). split; [done|]. rewrite well_nested_step. unfold row_combos at 1. rewrite Ho. naive_solver. }
  destruct (target_rows db cid) as [rows|e] eqn:Hrows.
  2: { exists (inr e). split; [done|]. rewrite well_nested_step. unfold row_combos at 1. rewrite Ho, Hrows. naive_solver. }
  assert (well_nested (row_combos db l) vis d cid
          <-> Forall (row_ok (well_nested (row_combos db l) (vis ++ [cid]) (d + 1))) rows) as Hw.
  { rewrite well_nested_step, row_ok_omap. unfold row_combos at 1. rewrite Ho, Hrows. split; [naive_solver|].
    intros. split_and!; [lia|done|by eexists]. }
  destruct (for_each_spec (aggregate_row l (fun sub v => compute_effective_recursive db l fuel sub v (d + 1)))
              (aggregate_next db l n) (row_ok (well_nested (row_combos db l) (vis ++ [cid]) (d + 1)))
              (fun s => s.1 = vis ++ [cid]) (vis ++ [cid], None) rows) as (r & -> & Hr); [done| |].
  - intros [v acc] t Hinv Ht; simpl in Hinv; subst v. unfold aggregate_row, aggregate_next, row_ok; simpl.
    destruct (tr_sub_combo_id t) as [sub|]; [|by eexists].
    destruct (IH sub (vis ++ [cid]) (d + 1) n) as (r & -> & Hr); [lia..|].
    destruct r as [[v ts']|e]; [|by eexists]. destruct Hr as (-> & -> & Hg). by eexists.
  - destruct r as [s|e]; [|exists (inr e); split; [done|]; by rewrite Hw].
    destruct Hr as [-> Hg]. unfold aggregate_next. rewrite foldl_min; simpl.
    eexists. split; [done|]. rewrite removelast_snoc, Hw. split_and!; [done| |done].
    rewrite Ho, Hrows. by destruct own.
Qed.

Lemma opt_min_none w : opt_min None w = w.
Proof. by destruct w. Qed.

Lemma opt_min_assoc a b c : opt_min (opt_min a b) c = opt_min a (opt_min b c).
Proof. destruct a, b, c; simpl; f_equal; lia. Qed.

Lemma foldl_opt_min acc ws : foldl opt_min acc ws = opt_min acc (foldl opt_min None ws).
Proof.
  revert acc. induction ws as [|w ws IH]; intros acc; simpl; [done|].
  rewrite (IH (opt_min acc w)), (IH (opt_min None w)), opt_min_assoc. by destruct w.
Qed.

Lemma positive_idem o : positive (positive o) = positive o.
Proof. destruct o as [c|]; simpl; [|done]. destruct (Z.ltb_spec 0 c) as [H|H]; simpl; [|done]. zcase; [done|lia]. Qed.

Lemma positive_opt_min a b : positive a = a -> positive b = b -> positive (opt_min a b) = opt_min a b.
Proof. destruct a, b; simpl; intros; zcase; simplify_eq; try done; lia. Qed.

Lemma positive_foldl ws :
  Forall (fun w => positive w = w) ws -> positive (foldl opt_min None ws) = foldl opt_min None ws.
Proof.
  induction 1 as [|w ws Hw _ IH]; simpl; [done|]. rewrite foldl_opt_min.
  apply positive_opt_min; [by destruct w|done].
Qed.

(** The minimum over the flattened rows, computed level by level. *)
Definition least (l : Limit) (rows : list TargetRow) : option Z :=
  foldl opt_min None ((fun row => positive (limit_leaf l row)) <$> rows).

Lemma least_positive l rows : positive (least l rows) = least l rows.
Proof. apply positive_foldl, Forall_fmap, Forall_true. intros. apply positive_idem. Qed.

Lemma least_app l rows1 rows2 : least l (rows1 ++ rows2) = opt_min (least l rows1) (least l rows2).
Proof. unfold least. by rewrite fmap_app, foldl_app, foldl_opt_min. Qed.

Lemma limit_of_least db l n c :
  (forall c, limit_override l c = inl None) -> limit_of db l n c = least l (leaf_rows db n c).
Proof.
  intros Hno. revert c. induction n as [|n IH]; intros c; simpl; rewrite ?Hno; [done|].
  destruct (target_rows db c) as [rows|]; [|done].
  induction rows as [|row rows IHr]; csimpl; [done|].
  rewrite least_app, <- IHr. etrans; [apply foldl_opt_min|]. f_equal.
  destruct (tr_sub_combo_id row) as [s|]; [|done]. by rewrite IH, least_positive, opt_min_none.
Qed.

(** ** Properties *)

(** C21. Flattening a combo always answers.  It succeeds exactly if below each
    sub-combo every chain of combos is at most [MAX_SUB_COMBO_DEPTH] long and
    never comes back to the root (so the nesting has no cycle) and the
    database answers; then the result is the depth-first list of targets,
    each one kept on its active account or spread over the allowed accounts
    of its provider, and no sub-combo is left in it. *)
Theorem flattening_is_exact db root ts :
  exists r, flatten_sub_combos db root ts = Some r
    /\ match r with
       | inl out =>
           Forall (subs_ok (well_nested (sub_combos db) [root] 0)) ts
           /\ expand_account_rotation db (root_leaves db ts) = inl out
           /\ Forall (fun t' => t_sub_combo_id t' = None
                                /\ exists t, t ∈ root_leaves db ts /\ rotated db t t') out
       | inr e =>
           ~ Forall (subs_ok (well_nested (sub_combos db) [root] 0)) ts
           \/ expand_account_rotation db (root_leaves db ts) = inr e
       end.
Proof.
  unfold flatten_sub_combos. destruct (flatten_loop_spec db root ts) as (r & -> & Hr).
  destruct r as [[v out]|e]; [|exists (inr e); tauto]. destruct Hr as [Hout Hg]; simpl in Hout; subst out.
  eexists. split; [done|].
  destruct (expand_account_rotation db (root_leaves db ts)) as [out|e] eqn:E; [|by right].
  split_and!; [done..|].
  eapply Forall_impl; [eapply expand_spec; [apply root_leaves_flat|done]|].
  intros t' (t & Hin & Hr). split; [|by exists t].
  eapply rotated_flat; [|done]. pose proof (root_leaves_flat db ts) as HF.
  rewrite Forall_forall in HF. by apply HF.
Qed.

(** The context window (and likewise the output limit) of a combo is
    always computed.  It fails exactly on nestings that are cyclic, deeper
    than [MAX_SUB_COMBO_DEPTH] or unreadable; otherwise it is the combo's own
    setting if there is one, and where no combo below has a setting it is the
    least positive limit of all the models below. *)
Lemma effective_limit_is_least db l cid :
  exists r, compute_effective_recursive db l tree_fuel cid [] 0 = Some r
    /\ match r with
       | inl (_, w) =>
           well_nested (row_combos db l) [] 0 cid
           /\ (forall o, limit_override l cid = inl (Some o) -> w = Some o)
           /\ ((forall c, limit_override l c = inl None) -> w = least l (leaf_rows db 6 cid))
       | inr _ => ~ well_nested (row_combos db l) [] 0 cid
       end.
Proof.
  destruct (effective_spec db l tree_fuel cid [] 0 6) as (r & Hr & Hs); [done|unfold tree_fuel; lia|].
  exists r. split; [done|]. destruct r as [[v w]|e]; [|done]. destruct Hs as (_ & -> & Hw).
  split_and!; [done| |by apply limit_of_least].
  intros o Ho. simpl. by rewrite Ho.
Qed.
