(* ===== verification/Modality.v ===== *)
(** * Requests and the modality gate

    Models what routing reads of a chat request (openproxy-types/src/message.rs,
    the text of a message) and the input-modality gate of
    openproxy-pipeline/src/stages/modality.rs with [ModalityFlags] of
    openproxy-types/src/models.rs: a request that carries media only goes to
    targets whose model declares those media.

    [Value::to_string] of serde_json is the parameter [json_to_string]. *)

From Stdlib Require Import Ascii String.
From S2P Require Import Prelude Types Text.

(** ** Requests *)

Record OpenAIMessage := mkMessage { m_role : string; m_content : option Json }.

Record OpenAIRequest := mkOpenAIRequest {
  q_messages : list OpenAIMessage;
  q_user : option string
}.

(** The fields of a model row that routing reads. *)
Record Model := mkModel {
  md_model_id : string;
  md_active : bool;
  md_context_length : option Z;
  md_input_modalities_json : option string
}.

Record ResolvedTarget := mkResolved { rt_target : ComboTarget; rt_model : Model }.

Section text.
Context (json_to_string : Json -> string).

Definition str_field (k : string) (v : Json) : option string :=
  match json_get k v with Some f => as_str f | None => None end.

Definition has_field (k : string) (v : Json) : bool := bool_decide (is_Some (json_get k v)).

Definition media_types : list string :=
  ["image_url"; "input_image"; "image"; "input_audio"; "audio"; "input_video"; "video_url"; "video";
   "file"; "input_file"; "document"]%string.

Definition extract_content_part_text (part : Json) : string :=
  match str_field "text" part, str_field "content" part,
        str_field "thinking" part, str_field "reasoning" part with
  | Some s, _, _, _ | None, Some s, _, _ | None, None, Some s, _ | None, None, None, Some s => s
  | None, None, None, None =>
      if match str_field "type" part with
         | Some ty => existsb (String.eqb ty) media_types
         | None => false
         end
         || has_field "image_url" part || has_field "video_url" part
         || has_field "input_audio" part || has_field "file" part
      then ""%string
      else match part with
           | JStr s => s
           | JNull => ""%string
           | _ => json_to_string part
           end
  end.

Definition extract_text_cow (m : OpenAIMessage) : string :=
  match m_content m with
  | Some (JStr s) => s
  | Some (JArr parts) => String.concat "" (extract_content_part_text <$> parts)
  | Some JNull | None => ""%string
  | Some v => json_to_string v
  end.

End text.

(** ** [ModalityFlags] *)

Definition FLAG_TEXT : Z := 1.
Definition FLAG_IMAGE : Z := 2.
Definition FLAG_AUDIO : Z := 4.
Definition FLAG_VIDEO : Z := 8.

(** [if b { flags |= f }]. *)
Definition or_if (b : bool) (f flags : Z) : Z := if b then Z.lor flags f else flags.

Definition parse_from_json (json : option string) : Z :=
  match json with
  | None => FLAG_TEXT
  | Some s =>
      let flags := or_if (contains "video" s) FLAG_VIDEO
                     (or_if (contains "audio" s) FLAG_AUDIO
                        (or_if (contains "image" s) FLAG_IMAGE
                           (or_if (contains "text" s) FLAG_TEXT 0))) in
      if flags =? 0 then FLAG_TEXT else flags
  end.

Definition input_modalities (m : Model) : Z := parse_from_json (md_input_modalities_json m).

(** ** What a request needs *)

Record RequiredModalities := mkRequired {
  rq_image : bool;
  rq_video : bool;
  rq_audio : bool;
  rq_file : bool
}.

Definition required_any (r : RequiredModalities) : bool :=
  rq_image r || rq_video r || rq_audio r || rq_file r.

Definition required_flags (r : RequiredModalities) : Z :=
  or_if (rq_audio r) FLAG_AUDIO (or_if (rq_video r) FLAG_VIDEO (or_if (rq_image r) FLAG_IMAGE 0)).

(** [flags &= !IMAGE] on a [u8]: 253 is the complement of 2. *)
Definition satisfied_by (r : RequiredModalities) (declared : Z) (raw_json : option string) : bool :=
  let flags := required_flags r in
  let flags :=
    if rq_file r then
      if match raw_json with Some s => contains_any ["pdf"; "file"; "document"]%string s | None => false end
      then Z.land flags 253 else Z.lor flags FLAG_IMAGE
    else flags in
  Z.land declared flags =? flags.

Definition part_kind_in (kinds : list string) (part : Json) : bool :=
  match str_field "type" part with Some k => existsb (String.eqb k) kinds | None => false end.

Definition accumulate_part (part : Json) (r : RequiredModalities) : RequiredModalities :=
  mkRequired
    (rq_image r || part_kind_in ["image_url"; "input_image"; "image"]%string part
     || has_field "image_url" part || has_field "input_image" part)
    (rq_video r || part_kind_in ["input_video"; "video_url"; "video"]%string part
     || has_field "video_url" part || has_field "input_video" part)
    (rq_audio r || part_kind_in ["input_audio"; "audio"]%string part
     || has_field "input_audio" part || has_field "audio_url" part)
    (rq_file r || part_kind_in ["file"; "input_file"; "document"]%string part
     || has_field "file" part || has_field "file_id" part).

Definition message_parts (m : OpenAIMessage) : list Json :=
  match m_content m with
  | Some (JArr parts) => parts
  | Some (JObj o) => [JObj o]
  | _ => []
  end.

Definition request_required_modalities (req : OpenAIRequest) : RequiredModalities :=
  foldl (fun r m => foldl (fun r p => accumulate_part p r) r (message_parts m))
    (mkRequired false false false false) (q_messages req).

(** ** The gate *)

Record ModalityRoutingConfig := mkModalityConfig {
  mr_enabled : bool;
  mr_fallback_to_text_only : bool
}.

Definition target_accepts (r : RequiredModalities) (t : ResolvedTarget) : bool :=
  match md_input_modalities_json (rt_model t) with
  | None => true
  | Some raw => satisfied_by r (input_modalities (rt_model t)) (Some raw)
  end.

Definition effective_config (global : ModalityRoutingConfig) (combo_override : option bool)
    : ModalityRoutingConfig :=
  match combo_override with
  | Some enabled => mkModalityConfig enabled (mr_fallback_to_text_only global)
  | None => global
  end.

Definition filter_targets_for_modalities (targets : list ResolvedTarget) (r : RequiredModalities)
    (config : ModalityRoutingConfig) : list ResolvedTarget :=
  if negb (mr_enabled config) || negb (required_any r) then targets
  else
    let kept := filter (fun t => target_accepts r t = true) targets in
    match kept with
    | [] => if mr_fallback_to_text_only config then targets else []
    | _ => kept
    end.

(** ** Specification *)

(** The parts of a request, in order. *)
Definition request_parts (req : OpenAIRequest) : list Json :=
  concat (message_parts <$> q_messages req).

(** What a catalog entry must say for a request: the words of its media,
    where a document asks for a document word or else for images. *)
Definition declares (r : RequiredModalities) (raw : string) : bool :=
  implb (rq_video r) (contains "video" raw)
  && implb (rq_audio r) (contains "audio" raw)
  && (if rq_file r
      then contains_any ["pdf"; "file"; "document"]%string raw || contains "image" raw
      else implb (rq_image r) (contains "image" raw)).

(** ** Lemmas *)

(** The bit masks say what the words say. *)
Lemma satisfied_by_declares r raw :
  satisfied_by r (parse_from_json (Some raw)) (Some raw) = declares r raw.
Proof.
  unfold satisfied_by, declares, parse_from_json, required_flags.
  generalize (contains_any ["pdf"; "file"; "document"]%string raw); intros doc.
  destruct r as [i v a f]; simpl.
  by destruct (contains "video" raw), (contains "audio" raw), (contains "image" raw),
    (contains "text" raw), doc, i, v, a, f.
Qed.

Lemma foldl_accumulate parts r :
  let r' := foldl (fun r p => accumulate_part p r) r parts in
  rq_image r' = rq_image r || existsb (fun p => rq_image (accumulate_part p (mkRequired false false false false))) parts
  /\ rq_video r' = rq_video r || existsb (fun p => rq_video (accumulate_part p (mkRequired false false false false))) parts
  /\ rq_audio r' = rq_audio r || existsb (fun p => rq_audio (accumulate_part p (mkRequired false false false false))) parts
  /\ rq_file r' = rq_file r || existsb (fun p => rq_file (accumulate_part p (mkRequired false false false false))) parts.
Proof.
  revert r. induction parts as [|p parts IH]; intros r; simpl; [by rewrite !orb_false_r|].
  destruct (IH (accumulate_part p r)) as (-> & -> & -> & ->). simpl.
  by rewrite !orb_assoc.
Qed.

Lemma required_of_parts req :
  request_required_modalities req
  = foldl (fun r p => accumulate_part p r) (mkRequired false false false false) (request_parts req).
Proof.
  unfold request_required_modalities, request_parts.
  generalize (mkRequired false false false false).
  induction (q_messages req) as [|m ms IH]; intros r; csimpl; [done|]. by rewrite foldl_app, IH.
Qed.

Definition no_media : RequiredModalities := mkRequired false false false false.

(** Which media one content part asks for. *)
Definition part_media (p : Json) : RequiredModalities := accumulate_part p no_media.

Definition capable (r : RequiredModalities) (t : ResolvedTarget) : bool :=
  match md_input_modalities_json (rt_model t) with None => true | Some raw => declares r raw end.

Lemma target_accepts_capable r t : target_accepts r t = capable r t.
Proof.
  unfold target_accepts, capable, input_modalities. destruct (md_input_modalities_json _) as [raw|] eqn:E; [|done].
  apply satisfied_by_declares.
Qed.

Lemma existsb_orb {A} (f g : A -> bool) l :
  existsb (fun x => f x || g x) l = existsb f l || existsb g l.
Proof.
  induction l as [|x l IH]; simpl; [done|]. rewrite IH.
  by destruct (f x), (g x), (existsb f l), (existsb g l).
Qed.

Lemma filter_nil_existsb {A} (f : A -> bool) l :
  filter (fun x => f x = true) l = [] <-> existsb f l = false.
Proof.
  induction l as [|x l IH]; simpl; [done|]. rewrite filter_cons.
  destruct (f x); simpl; [naive_solver|done].
Qed.

(** ** Properties *)

(** The modality gate is exact: whatever the form of the content, a
    medium is required if and only if some part of some message carries it;
    with the gate on and media required, the targets kept are exactly those
    that declare no modalities or whose catalog entry names the required
    ones, in their order; when there is none, all targets are kept or none,
    as configured; in all other cases nothing is dropped. *)
Lemma modality_gate_exact req targets config :
  let r := request_required_modalities req in
  r = mkRequired (existsb (fun p => rq_image (part_media p)) (request_parts req))
                 (existsb (fun p => rq_video (part_media p)) (request_parts req))
                 (existsb (fun p => rq_audio (part_media p)) (request_parts req))
                 (existsb (fun p => rq_file (part_media p)) (request_parts req))
  /\ filter_targets_for_modalities targets r config
     = if mr_enabled config && existsb (fun p => required_any (part_media p)) (request_parts req)
          && (existsb (capable r) targets || negb (mr_fallback_to_text_only config))
       then filter (fun t => capable r t = true) targets else targets.
Proof.
  intros r.
  assert (r = mkRequired (existsb (fun p => rq_image (part_media p)) (request_parts req))
                (existsb (fun p => rq_video (part_media p)) (request_parts req))
                (existsb (fun p => rq_audio (part_media p)) (request_parts req))
                (existsb (fun p => rq_file (part_media p)) (request_parts req))) as Hr.
  { unfold r. rewrite required_of_parts. destruct (foldl_accumulate (request_parts req) no_media) as (H1 & H2 & H3 & H4).
    unfold no_media in *. destruct (foldl _ _ _); simpl in *. by subst. }
  split; [done|].
  assert (required_any r = existsb (fun p => required_any (part_media p)) (request_parts req)) as Ha.
  { rewrite Hr at 1. unfold required_any; simpl. by rewrite !existsb_orb. }
  unfold filter_targets_for_modalities. rewrite Ha.
  destruct (mr_enabled config); [|done]. destruct (existsb (fun p => required_any (part_media p)) (request_parts req)); [|done]. simpl.
  rewrite (list_filter_iff (fun t => target_accepts r t = true) (fun t => capable r t = true))
    by (intros; by rewrite target_accepts_capable).
  pose proof (filter_nil_existsb (capable r) targets) as Hn.
  destruct (existsb (capable r) targets); simpl.
  - destruct (filter _ targets); [|done]. naive_solver.
  - rewrite (proj2 Hn) by done. by destruct (mr_fallback_to_text_only config).
Qed.
