(* ===== verification/Affinity.v ===== *)
(** * Session affinity

    Models openproxy-pipeline/src/session_affinity.rs: which target a
    conversation was last served by, for fifteen minutes after its last use.

    Instants are nanoseconds.  A [DashMap] entry is locked for each access;
    [get] makes two: it looks the entry up and, unless that is a hit, removes
    the key ([get_lookup], [get_remove]), and other operations may run
    between them.  [DefaultHasher] on a string is the parameter [hash_str]. *)

From Stdlib Require Import Ascii String.
From S2P Require Import Prelude Types Text Modality.

Definition DEFAULT_SESSION_AFFINITY_TTL : Z := 900 * 1000000000.

(** A key is a session hash with a combo. *)
Notation SessionAffinityKey := (Z * Z)%type.

Record SessionAffinityEntry := mkAffinity { af_target_id : Z; af_expires_at : Z }.

Notation SessionAffinityRegistry := (gmap SessionAffinityKey SessionAffinityEntry).

Implicit Types r : SessionAffinityRegistry.
Implicit Types k : SessionAffinityKey.

(** ** Sessions of a request *)

Section session.
Context (json_to_string : Json -> string) (hash_str : string -> Z).

Definition non_blank (s : string) : option string :=
  let s := trim s in if String.eqb s "" then None else Some s.

Definition extract_session_hash (headers : gmap string string) (req : OpenAIRequest) : option Z :=
  hash_str <$>
    match find_map (fun h => headers !! h ≫= non_blank)
            ["x-session-id"; "x-conversation-id"; "x-thread-id"]%string with
    | Some s => Some s
    | None =>
        match q_user req ≫= non_blank with
        | Some s => Some s
        | None => find_map (fun m => if String.eqb (m_role m) "user"
                                       then non_blank (extract_text_cow json_to_string m) else None)
                    (q_messages req)
        end
    end.

End session.

Definition eq_ignore_ascii_case (a b : string) : bool :=
  String.eqb (to_ascii_lowercase a) (to_ascii_lowercase b).

Definition should_reset (headers : gmap string string) : bool :=
  match headers !! "x-openproxy-reset-affinity"%string with
  | Some v => eq_ignore_ascii_case v "true" || String.eqb v "1"
  | None => false
  end
  || match headers !! "x-route"%string with
     | Some v => eq_ignore_ascii_case v "force" || eq_ignore_ascii_case v "reset"
     | None => false
     end.

(** ** Operations *)

Definition af_new : SessionAffinityRegistry := ∅.

Definition get_lookup k (now : Z) r : SessionAffinityRegistry * option Z :=
  match r !! k with
  | Some e =>
      if now <? af_expires_at e
      then (<[k := mkAffinity (af_target_id e) (now + DEFAULT_SESSION_AFFINITY_TTL)]> r, Some (af_target_id e))
      else (r, None)
  | None => (r, None)
  end.

Definition get_remove k r : SessionAffinityRegistry := delete k r.

(** [get] with no other thread between its two parts. *)
Definition af_get k (now : Z) r : SessionAffinityRegistry * option Z :=
  match get_lookup k now r with
  | (r', Some t) => (r', Some t)
  | (r', None) => (get_remove k r', None)
  end.

Definition af_set k (target_id now : Z) r : SessionAffinityRegistry :=
  <[k := mkAffinity target_id (now + DEFAULT_SESSION_AFFINITY_TTL)]> r.

Definition af_invalidate k r : SessionAffinityRegistry := delete k r.

Definition af_prune (now : Z) r : SessionAffinityRegistry * nat :=
  (filter (fun kv => now <? af_expires_at kv.2 = true) r,
   size (filter (fun kv => now <? af_expires_at kv.2 = false) r)).

(** ** Interleaved executions *)

Inductive af_op :=
  | AfLookup k
  | AfRemove k
  | AfSet k (target_id : Z)
  | AfInvalidate k
  | AfPrune.

Definition af_apply (now : Z) (o : af_op) r : SessionAffinityRegistry :=
  match o with
  | AfLookup k => (get_lookup k now r).1
  | AfRemove k => get_remove k r
  | AfSet k t => af_set k t now r
  | AfInvalidate k => af_invalidate k r
  | AfPrune => (af_prune now r).1
  end.

Fixpoint af_run (tr : list (Z * af_op)) r : SessionAffinityRegistry :=
  match tr with
  | [] => r
  | (now, o) :: tr' => af_run tr' (af_apply now o r)
  end.

(** ** Specification: the pin of a session at an instant *)

Definition pin_at k (now : Z) r : option Z :=
  match r !! k with
  | Some e => if now <? af_expires_at e then Some (af_target_id e) else None
  | None => None
  end.

(** Operations that may end or move the pin of [k]. *)
Definition af_touches k (o : af_op) : Prop :=
  match o with
  | AfRemove k' | AfSet k' _ | AfInvalidate k' => k' = k
  | AfLookup _ | AfPrune => False
  end.

(** ** Lemmas *)

Lemma get_lookup_pin k now r : (get_lookup k now r).2 = pin_at k now r.
Proof. unfold get_lookup, pin_at. destruct (r !! k) as [e|]; [|done]. by destruct (now <? _). Qed.

(** The pin of [k] holds [t] at least until [u]. *)
Definition pinned_until k (t u : Z) r : Prop :=
  exists e, r !! k = Some e /\ af_target_id e = t /\ u <= af_expires_at e.

Lemma pinned_until_pin k t u now r : pinned_until k t u r -> now < u -> pin_at k now r = Some t.
Proof. intros (e & He & <- & Hu) Hn. unfold pin_at. rewrite He. zcase; [done|lia]. Qed.

Lemma pinned_until_step k t u now o r :
  pinned_until k t u r -> now < u <= now + DEFAULT_SESSION_AFFINITY_TTL -> ~ af_touches k o ->
  pinned_until k t u (af_apply now o r).
Proof.
  intros (e & He & Ht & Hu) Hn Ho. unfold pinned_until. destruct o as [k'|k'|k' t'|k'|]; simpl in *.
  - unfold get_lookup. destruct (decide (k' = k)) as [->|Hk].
    + rewrite He. destruct (Z.ltb_spec now (af_expires_at e)); [|lia]. simpl.
      exists (mkAffinity (af_target_id e) (now + DEFAULT_SESSION_AFFINITY_TTL)).
      rewrite lookup_insert_eq. split_and!; [done..|]. simpl. lia.
    + exists e. by repeat case_match; simpl; rewrite ?lookup_insert_ne by done.
  - exists e. unfold get_remove. by rewrite lookup_delete_ne.
  - exists e. unfold af_set. by rewrite lookup_insert_ne.
  - exists e. unfold af_invalidate. by rewrite lookup_delete_ne.
  - exists e. split; [|done]. apply map_lookup_filter_Some. split; [done|]. simpl. zcase; [done|lia].
Qed.

Lemma pinned_until_run k t t0 now tr r :
  pinned_until k t (t0 + DEFAULT_SESSION_AFFINITY_TTL) r ->
  now < t0 + DEFAULT_SESSION_AFFINITY_TTL ->
  Forall (fun o => t0 <= o.1 <= now /\ ~ af_touches k o.2) tr ->
  pinned_until k t (t0 + DEFAULT_SESSION_AFFINITY_TTL) (af_run tr r).
Proof.
  intros Hp Hn Htr. revert r Hp.
  induction Htr as [|[i o] tr [Hi Ho] _ IH]; intros r Hp; simpl in *; [done|].
  apply IH, pinned_until_step; [done|lia|done].
Qed.

Lemma find_map_app {A B} (f : A -> option B) l1 l2 x :
  find_map f l1 = Some x -> find_map f (l1 ++ l2) = Some x.
Proof. unfold find_map. rewrite omap_app. by destruct (omap f l1). Qed.

(** A pin lasts and identifies its session.  After a pin is set, in every
    interleaving of lookups, prunings and operations on other sessions, each
    lookup of the key within the time to live finds the pinned target and
    pins it anew for the whole time to live; a lookup answers only what the
    registry holds and nothing after the time to live.  And a conversation
    keeps its session hash as it grows: messages appended to a request that
    has a hash do not change it. *)
Lemma session_pin_lasts json_to_string hash_str k t t0 now tr r headers user ms ms' h :
  t0 <= now < t0 + DEFAULT_SESSION_AFFINITY_TTL ->
  Forall (fun o => t0 <= o.1 <= now /\ ~ af_touches k o.2) tr ->
  extract_session_hash json_to_string hash_str headers (mkOpenAIRequest ms user) = Some h ->
  let r' := af_run tr (af_set k t t0 r) in
  (af_get k now r').2 = Some t
  /\ (forall later, pin_at k later (af_get k now r').1
                    = if later <? now + DEFAULT_SESSION_AFFINITY_TTL then Some t else None)
  /\ extract_session_hash json_to_string hash_str headers (mkOpenAIRequest (ms ++ ms') user) = Some h.
Proof.
  intros Hn Htr Hh r'.
  assert (pinned_until k t (t0 + DEFAULT_SESSION_AFFINITY_TTL) r') as Hp.
  { apply pinned_until_run with now; [|lia|done]. eexists. unfold af_set. rewrite lookup_insert_eq.
    split_and!; [done..|]. simpl. lia. }
  pose proof (get_lookup_pin k now r') as Hg.
  rewrite (pinned_until_pin k t _ now r' Hp) in Hg by lia.
  assert ((get_lookup k now r').1 !! k = Some (mkAffinity t (now + DEFAULT_SESSION_AFFINITY_TTL))) as Hl.
  { unfold get_lookup in *. destruct (r' !! k) as [e|]; [|done]. destruct (now <? _); [|done].
    simplify_eq/=. by rewrite lookup_insert_eq. }
  unfold af_get. destruct (get_lookup k now r') as [r1 o]; simpl in *. subst o. split_and!; [done| |].
  - intros later. unfold pin_at. simpl. by rewrite Hl.
  - unfold extract_session_hash in *; simpl in *. repeat case_match; try done.
    all: apply fmap_Some in Hh as (s & Hs & ->).
    all: try (by simplify_eq). by rewrite (find_map_app _ _ _ _ Hs).
Qed.

(** A lookup that finds an expired pin removes the key in a second step:
    a pin another request sets in between is lost at once. *)
Lemma stale_lookup_drops_new_pin k t t' t0 now r :
  t0 + DEFAULT_SESSION_AFFINITY_TTL <= now ->
  let r1 := af_run [(now, AfLookup k); (now, AfSet k t')] (af_set k t t0 r) in
  (get_lookup k now (af_set k t t0 r)).2 = None
  /\ pin_at k now r1 = Some t'
  /\ forall later, pin_at k later (af_run [(now, AfRemove k)] r1) = None.
Proof.
  intros Hn r1. unfold r1, pin_at; simpl. unfold get_lookup, af_set, get_remove. rewrite lookup_insert_eq; simpl.
  destruct (Z.ltb_spec now (t0 + DEFAULT_SESSION_AFFINITY_TTL)); [lia|]. simpl. rewrite lookup_insert_eq.
  split_and!; [done| |intros; by rewrite lookup_delete_eq].
  simpl. unfold DEFAULT_SESSION_AFFINITY_TTL. zcase; [done|lia].
Qed.
