(* ===== verification/Decision.v ===== *)
(** * Decision routing

    Models openproxy-pipeline/src/stages/decision.rs: a combo in decision mode
    asks a small classification model which target suits the prompt, weighs
    the answer by the targets' reputation and puts the chosen target first; a
    session's current target keeps its place unless the answer is clear.

    The question itself ([execute_system_one_decision], a network call) is the
    parameter [ask]: the prompt text, the candidates and the pinned target to
    an answer, no answer or an error.  The query for cooling targets is the
    parameter [cooldowns].  The registry's clock is read once. *)

From Stdlib Require Import Ascii String.
From stdpp Require Import pretty.
From S2P Require Import Prelude Types Text Errors Predictive SelectionRegistry LoadBalancing Feedback.
From S2P Require Import Executor ComboTree Modality.

Definition MAX_PROMPT_CHARS : Z := 2000.
Definition ELASTIC_HYSTERESIS_MARGIN : f64 := f64_lit 5 100.
Definition ELASTIC_CONFIDENCE_THRESHOLD : f64 := f64_lit 5 100.

(** The fields of [SystemOneAnswer] that routing reads. *)
Record Answer := mkAnswer {
  an_choice : option string;
  an_confidence : option f64;
  an_probabilities : option (gmap string f64)
}.

(** The entries routing adds to the walk log. *)
Inductive DecisionLog :=
  | LogRerank (best orig : string)
  | LogGuard (alt orig : string)
  | LogKeep (id : string)
  | LogHysteresis (pinned : Z)
  | LogSwitch (id : string).

Definition set_priority (p : Z) (t : ComboTarget) : ComboTarget :=
  mkTarget (t_id t) (t_combo_id t) (t_provider_id t) (t_account_id t) (t_model_row_id t)
    (t_sub_combo_id t) p (t_weight t) (t_active t) (t_rate_limit_scope t)
    (t_cooldown_mode t) (t_cooldown_base_secs t) (t_cooldown_max_secs t) (t_cooldown_factor t)
    (t_thinking_effort t) (t_description t) (t_selected_accounts t) (t_client_profile t)
    (t_inherited_target_id t).

Definition set_rt_priority (p : Z) (rt : ResolvedTarget) : ResolvedTarget :=
  mkResolved (set_priority p (rt_target rt)) (rt_model rt).

Definition rt_id (rt : ResolvedTarget) : Z := t_id (rt_target rt).

(** [target.id.0.to_string()]. *)
Definition id_str (rt : ResolvedTarget) : string := pretty (rt_id rt).

(** [iter().map(|rt| rt.target.priority_order).min().unwrap_or(1)]. *)
Definition min_prio (l : list ResolvedTarget) : Z :=
  match (fun rt => t_priority_order (rt_target rt)) <$> l with
  | [] => 1
  | p :: ps => foldl Z.min p ps
  end.

Definition i32_min : Z := -2147483648.

(** Position of the first match. *)
Definition position {A} (f : A -> bool) (l : list A) : option nat :=
  fst <$> list_find (fun x => f x = true) l.

(** Move the target at [pos] to the front with a priority below [prio]. *)
Definition promote (pos : nat) (prio : Z) (l : list ResolvedTarget) : list ResolvedTarget :=
  match l !! pos with
  | Some w => set_rt_priority (Z.max i32_min (prio - 1)) w :: take pos l ++ drop (S pos) l
  | None => l
  end.

(** ** The prompt *)

Section decision.
Context (json_to_string : Json -> string) (finish : list hash_item -> Z).

Definition char_count (s : string) : Z :=
  Z.of_nat (length (filter (fun b => (128 <=? b) && (b <=? 191) = false) (bytes_of s))).

Fixpoint prompt_loop (max_chars : Z) (state : string) (rev_messages : list OpenAIMessage) : string :=
  match rev_messages with
  | [] => state
  | m :: ms =>
      let trimmed := trim (extract_text_cow json_to_string m) in
      if String.eqb trimmed "" then prompt_loop max_chars state ms
      else
        let state := if String.eqb state "" then trimmed
                     else (trimmed +:+ String (ascii_of_nat 10) state)%string in
        if max_chars <=? char_count state then state else prompt_loop max_chars state ms
  end.

Definition extract_prompt_state (req : OpenAIRequest) (max_chars : Z) : string :=
  let state := prompt_loop max_chars "" (reverse (q_messages req)) in
  if max_chars <? Z.of_nat (String.length state)
  then of_bytes (floor_char_prefix (Z.to_nat max_chars) (bytes_of state)) else state.

(** ** Candidates *)

Definition cooling (combo : Combo) (active_cooldowns : gset Z) (rt : ResolvedTarget) : bool :=
  negb (is_cooldown_disabled combo (rt_target rt)) && bool_decide (rt_id rt ∈ active_cooldowns).

Definition rt_active (rt : ResolvedTarget) : bool := t_active (rt_target rt) && md_active (rt_model rt).

Definition rt_saturated (l : PredictiveRateLimiter) (now : Z) (rt : ResolvedTarget) : bool :=
  is_saturated (evaluate_key (compute_target_key finish (rt_target rt)) now l).

Definition has_any_predictive_healthy (targets : list ResolvedTarget) (combo : Combo)
    (active_cooldowns : gset Z) (l : PredictiveRateLimiter) (now : Z) : bool :=
  c_preventive_rate_limit combo
  && existsb (fun rt => rt_active rt && negb (cooling combo active_cooldowns rt)
                        && (is_cooldown_disabled combo (rt_target rt) || negb (rt_saturated l now rt)))
       targets.

(** Whether a target passes the three exclusions of the filter. *)
Definition decision_eligible (targets : list ResolvedTarget) (combo : Combo) (active_cooldowns : gset Z)
    (l : PredictiveRateLimiter) (now : Z) (rt : ResolvedTarget) : bool :=
  rt_active rt && negb (cooling combo active_cooldowns rt)
  && negb (c_preventive_rate_limit combo && negb (is_cooldown_disabled combo (rt_target rt))
           && has_any_predictive_healthy targets combo active_cooldowns l now
           && rt_saturated l now rt).

Fixpoint described (seen : gset string) (targets : list ResolvedTarget) : list (string * string) :=
  match targets with
  | [] => []
  | rt :: ts =>
      match t_description (rt_target rt) with
      | None => described seen ts
      | Some d =>
          let desc := trim d in
          if negb (String.eqb desc "") && negb (bool_decide (desc ∈ seen))
          then (id_str rt, desc) :: described ({[desc]} ∪ seen) ts
          else described seen ts
      end
  end.

Definition filter_decision_candidates (targets : list ResolvedTarget) (combo : Combo)
    (active_cooldowns : gset Z) (l : PredictiveRateLimiter) (now : Z) : list (string * string) :=
  described ∅ (filter (fun rt => decision_eligible targets combo active_cooldowns l now rt = true) targets).

(** ** Reading an answer *)

Context (registry : SelectionRegistry) (sel_now : Z).

Definition window_secs (combo : Combo) : Z :=
  default DEFAULT_SELECTION_WINDOW_SECS (c_selection_window_secs combo).

Definition reputation (combo : Combo) (target_id : Z) : f64 :=
  reputation_score target_id (window_secs combo) sel_now registry.

(** The best product of probability and reputation; the loop keeps the best
    id and its score. *)
Definition rerank (combo : Combo) (probs : gmap string f64) (choice : string)
    (targets : list ResolvedTarget) : string :=
  fst (foldl (fun best rt =>
                match probs !! id_str rt with
                | Some p =>
                    let score := f64_mul p (reputation combo (rt_id rt)) in
                    if f64_ltb best.2 score then (id_str rt, score) else best
                | None => best
                end) (choice, f64_of_Z (-1)) targets).

(** Without probabilities: a badly reputed choice yields to the first target
    of good reputation. *)
Definition reputation_guard (combo : Combo) (choice : string) (targets : list ResolvedTarget)
    : option string :=
  let chosen := default 0 (parse_i64 choice) in
  if f64_ltb (reputation combo chosen) (f64_lit 40 100)
  then id_str <$> head (filter (fun rt => negb (rt_id rt =? chosen)
                                          && f64_leb (f64_lit 70 100) (reputation combo (rt_id rt)) = true)
                          targets)
  else None.

Definition effective_choice (combo : Combo) (a : Answer) (choice : string) (targets : list ResolvedTarget)
    : string * list DecisionLog :=
  match an_probabilities a with
  | Some probs =>
      let best := rerank combo probs choice targets in
      (best, if String.eqb best choice then [] else [LogRerank best choice])
  | None =>
      match reputation_guard combo choice targets with
      | Some alt => (alt, [LogGuard alt choice])
      | None => (choice, [])
      end
  end.

(** The hysteresis that protects a pinned target. *)
Definition should_switch (a : Answer) (choice : string) (pinned : Z) : bool :=
  match an_probabilities a with
  | Some probs =>
      let prob id := default (f64_of_Z 0) (probs !! id) in
      negb (f64_ltb (f64_sub (prob choice) (prob (pretty pinned))) ELASTIC_HYSTERESIS_MARGIN)
  | None =>
      match an_confidence a with
      | Some c => negb (f64_ltb c ELASTIC_CONFIDENCE_THRESHOLD)
      | None => true
      end
  end.

Definition est_tokens (req : OpenAIRequest) : Z :=
  foldl Z.add 0 ((fun m => Z.of_nat (String.length (extract_text_cow json_to_string m))) <$> q_messages req) / 3.

(** [est_tokens > ctx_len * 85 / 100] in [i64]. *)
Definition exceeds_context (req : OpenAIRequest) (m : Model) : bool :=
  match md_context_length m with
  | Some ctx_len => Z.quot (as_i64 ((ctx_len * 85) mod (u64_max + 1))) 100 <? est_tokens req
  | None => false
  end.

(** What an answer with a choice does to the targets. *)
Definition apply_answer (combo : Combo) (a : Answer) (choice : string) (pinned : option Z)
    (req : OpenAIRequest) (targets : list ResolvedTarget) : list ResolvedTarget * list DecisionLog :=
  let '(eff, log) := effective_choice combo a choice targets in
  match position (fun rt => String.eqb (id_str rt) eff) targets with
  | None => (targets, log)
  | Some pos =>
      match targets !! pos with
      | None => (targets, log)
      | Some rt =>
          if bool_decide (pinned = Some (rt_id rt)) then (targets, log ++ [LogKeep eff])
          else if match pinned with Some p => negb (should_switch a eff p) | None => false end
          then (targets, log ++ [LogHysteresis (default 0 pinned)])
          else if exceeds_context req (rt_model rt) then (targets, log)
          else (promote pos (min_prio (take pos targets ++ drop (S pos) targets)) targets,
                log ++ [LogSwitch eff])
      end
  end.

(** ** The stage *)

Context (ask : string -> list (string * string) -> option Z -> Result (option Answer)).
Context (cooldowns : Z -> Result (gset Z)).

Definition active_cooldowns_of (combo : Combo) : gset Z :=
  if combo_cooldown_disabled combo then ∅
  else match cooldowns (c_id combo) with inl s => s | inr _ => ∅ end.

Definition pinned_is_available (combo : Combo) (active_cooldowns : gset Z) (targets : list ResolvedTarget)
    (pid : Z) : bool :=
  existsb (fun rt => (rt_id rt =? pid) && rt_active rt
                     && (is_cooldown_disabled combo (rt_target rt) || negb (bool_decide (pid ∈ active_cooldowns))))
    targets.

(** The pin that counts, and the targets with it in front. *)
Definition promote_pinned (combo : Combo) (active_cooldowns : gset Z) (current_pinned : option Z)
    (targets : list ResolvedTarget) : option Z * list ResolvedTarget :=
  match current_pinned with
  | Some pid =>
      if pinned_is_available combo active_cooldowns targets pid then
        match position (fun rt => rt_id rt =? pid) targets with
        | Some pos => (Some pid, promote pos (min_prio targets) targets)
        | None => (Some pid, targets)
        end
      else (None, targets)
  | None => (None, targets)
  end.

Definition apply_decision_routing (combo : Combo) (req : OpenAIRequest) (limiter : PredictiveRateLimiter)
    (now : Z) (current_pinned : option Z) (targets : list ResolvedTarget)
    : list ResolvedTarget * list DecisionLog :=
  if bool_decide (length targets < 2)%nat then (targets, [])
  else
    let active := active_cooldowns_of combo in
    let '(pinned, targets) := promote_pinned combo active current_pinned targets in
    let candidates := filter_decision_candidates targets combo active limiter now in
    if bool_decide (length candidates < 2)%nat then (targets, [])
    else
      let state_text := extract_prompt_state req MAX_PROMPT_CHARS in
      if String.eqb state_text "" then (targets, [])
      else match ask state_text candidates pinned with
           | inl (Some a) =>
               match an_choice a with
               | Some choice => apply_answer combo a choice pinned req targets
               | None => (targets, [])
               end
           | _ => (targets, [])
           end.

End decision.

(** ** Lemmas *)

(** A target up to its priority. *)
Definition erase (rt : ResolvedTarget) : ResolvedTarget := set_rt_priority 0 rt.

Lemma promote_erase pos p l : erase <$> promote pos p l = rotate_prefix pos (erase <$> l).
Proof.
  unfold promote, rotate_prefix. rewrite list_lookup_fmap. destruct (l !! pos) as [w|]; simpl; [|done].
  by rewrite fmap_app, fmap_take, fmap_drop.
Qed.

Lemma promote_head pos p l w : l !! pos = Some w -> rt_id <$> head (promote pos p l) = Some (rt_id w).
Proof. unfold promote. by intros ->. Qed.

Lemma position_Some {A} (f : A -> bool) l i :
  position f l = Some i -> exists x, l !! i = Some x /\ f x = true.
Proof.
  unfold position. intros ([j x] & Hf & Hj)%fmap_Some. simpl in Hj; subst j.
  apply list_find_Some in Hf as (Hx & Hp & _). by exists x.
Qed.

Lemma position_None {A} (f : A -> bool) l : position f l = None -> existsb f l = false.
Proof.
  unfold position. intros Hn. apply fmap_None, list_find_None in Hn.
  apply not_true_is_false. intros (x & Hin & Hx)%existsb_exists.
  rewrite Forall_forall in Hn. by apply (Hn x); [apply list_elem_of_In|].
Qed.

Lemma pinned_available_position combo act targets pid :
  pinned_is_available combo act targets pid = true -> exists pos, position (fun rt => rt_id rt =? pid) targets = Some pos.
Proof.
  intros Ha. destruct (position _ targets) as [pos|] eqn:E; [by exists pos|].
  apply position_None in E. unfold pinned_is_available in Ha.
  apply existsb_exists in Ha as (rt & Hin & Hrt). zbool.
  assert (existsb (fun rt => rt_id rt =? pid) targets = true) as Hx; [|congruence].
  apply existsb_exists. exists rt. split; [done|]. by apply Z.eqb_eq.
Qed.

(** Targets reached by moving at most [n] of them to the front, one after
    the other, up to priorities. *)
Definition moved_at_most (n : nat) (l l' : list ResolvedTarget) : Prop :=
  exists ps, (length ps <= n)%nat
    /\ erase <$> l' = foldl (fun l p => rotate_prefix p l) (erase <$> l) ps.

Lemma moved_refl n l : moved_at_most n l l.
Proof. exists []. split; [simpl; lia|done]. Qed.

Lemma moved_promote n pos p l l' : moved_at_most n l l' -> moved_at_most (S n) l (promote pos p l').
Proof.
  intros (ps & Hl & Hf). exists (ps ++ [pos]). rewrite length_app, foldl_app, promote_erase, Hf.
  split; [simpl; lia|done].
Qed.

Lemma moved_le n m l l' : (n <= m)%nat -> moved_at_most n l l' -> moved_at_most m l l'.
Proof. intros Hle (ps & Hl & Hf). exists ps. split; [lia|done]. Qed.

Lemma moved_perm n l l' : moved_at_most n l l' -> (erase <$> l') ≡ₚ (erase <$> l).
Proof.
  intros (ps & _ & ->). generalize (erase <$> l). induction ps as [|p ps IH]; intros k; simpl; [done|].
  by rewrite IH, rotate_prefix_perm.
Qed.

Section facts.
Context (js : Json -> string) (finish : list hash_item -> Z) (reg : SelectionRegistry) (sel_now : Z).

Lemma promote_pinned_spec combo act pin targets :
  let '(pin', targets') := promote_pinned combo act pin targets in
  moved_at_most 1 targets targets'
  /\ (forall pid, pin = Some pid -> pinned_is_available combo act targets pid = true ->
        pin' = Some pid /\ rt_id <$> head targets' = Some pid).
Proof.
  unfold promote_pinned. destruct pin as [pid|]; [|split; [apply moved_refl|done]].
  destruct (pinned_is_available combo act targets pid) eqn:Ha; [|split; [apply moved_refl|congruence]].
  destruct (pinned_available_position _ _ _ _ Ha) as [pos Hpos]. rewrite Hpos.
  split; [apply moved_promote, moved_refl|]. intros ? [= <-] _. split; [done|].
  apply position_Some in Hpos as (w & Hw & He%Z.eqb_eq). by rewrite (promote_head _ _ _ _ Hw), He.
Qed.

(** An answer moves at most one target, and past a pin only as the
    hysteresis and the context length allow. *)
Lemma apply_answer_spec combo a choice pin req targets :
  let out := (apply_answer js reg sel_now combo a choice pin req targets).1 in
  moved_at_most 1 targets out
  /\ (out = targets
      \/ exists rt, rt ∈ targets
           /\ id_str rt = (effective_choice reg sel_now combo a choice targets).1
           /\ rt_id <$> head out = Some (rt_id rt)
           /\ exceeds_context js req (rt_model rt) = false
           /\ forall p, pin = Some p -> rt_id rt <> p /\ should_switch a (id_str rt) p = true).
Proof.
  unfold apply_answer. destruct (effective_choice _ _ _ _ _ _) as [eff log]; simpl.
  destruct (position _ targets) as [pos|] eqn:Hp; [|split; [apply moved_refl|by left]].
  apply position_Some in Hp as (rt & Hrt & Heff%String.eqb_eq). rewrite Hrt.
  case_bool_decide as Hpin; [split; [apply moved_refl|by left]|].
  destruct (match pin with Some p => _ | None => _ end) eqn:Hs; [split; [apply moved_refl|by left]|].
  destruct (exceeds_context js req (rt_model rt)) eqn:Hx; [split; [apply moved_refl|by left]|]. simpl.
  split; [apply moved_promote, moved_refl|]. right. exists rt. split_and!; try done.
  - by eapply list_elem_of_lookup_2.
  - by apply promote_head.
  - intros p ->. rewrite Heff. split; [congruence|]. by apply negb_false_iff.
Qed.
End facts.

(** Why an answer that says [choice] may make [rt] the target of a session
    pinned to [pid]: with probabilities, it gives [rt] at least the hysteresis
    margin more than [pid] and [rt] is its choice or one it has a probability
    for; without, it is confident enough (or says nothing of it) and names [rt],
    or the target it names - [pid] or another one - is of bad reputation and
    [rt] of good. *)
Definition answer_moves (reg : SelectionRegistry) (sel_now : Z) (combo : Combo) (a : Answer) (choice : string)
    (pid : Z) (rt : ResolvedTarget) : Prop :=
  match an_probabilities a with
  | Some probs =>
      let prob id := default (f64_of_Z 0) (probs !! id) in
      f64_ltb (f64_sub (prob (id_str rt)) (prob (pretty pid))) ELASTIC_HYSTERESIS_MARGIN = false
      /\ (id_str rt = choice \/ is_Some (probs !! id_str rt))
  | None =>
      (forall c, an_confidence a = Some c -> f64_ltb c ELASTIC_CONFIDENCE_THRESHOLD = false)
      /\ (id_str rt = choice
          \/ let named := default 0 (parse_i64 choice) in
             f64_ltb (reputation reg sel_now combo named) (f64_lit 40 100) = true /\ rt_id rt <> named
             /\ f64_leb (f64_lit 70 100) (reputation reg sel_now combo (rt_id rt)) = true)
  end.

(** An answer to the question of the request that moves the session from [pid]
    to another target, in front of [out], whose context the conversation fits. *)
Definition moved_by_answer (js : Json -> string) (reg : SelectionRegistry) (sel_now : Z)
    (ask : string -> list (string * string) -> option Z -> Result (option Answer))
    (combo : Combo) (req : OpenAIRequest) (pid : Z) (out : list ResolvedTarget) : Prop :=
  exists cands a choice rt,
    (2 <= length cands)%nat
    /\ ask (extract_prompt_state js req MAX_PROMPT_CHARS) cands (Some pid) = inl (Some a) /\ an_choice a = Some choice
    /\ rt_id <$> head out = Some (rt_id rt) /\ rt_id rt <> pid
    /\ answer_moves reg sel_now combo a choice pid rt
    /\ exceeds_context js req (rt_model rt) = false.

Lemma rerank_id reg sel_now combo probs choice targets :
  let best := rerank reg sel_now combo probs choice targets in best = choice \/ is_Some (probs !! best).
Proof.
  unfold rerank. cbv zeta.
  assert (forall acc : string * f64, acc.1 = choice \/ is_Some (probs !! acc.1) ->
    let r := foldl (fun best rt => match probs !! id_str rt with
                | Some p => let score := f64_mul p (reputation reg sel_now combo (rt_id rt)) in
                            if f64_ltb best.2 score then (id_str rt, score) else best
                | None => best end) acc targets in r.1 = choice \/ is_Some (probs !! r.1)) as H.
  { induction targets as [|rt ts IH]; intros acc Hacc; simpl; [done|]. apply IH.
    destruct (probs !! id_str rt) as [q|] eqn:E; [|done]. destruct (f64_ltb _ _); [|done]. right. by eexists. }
  apply H. by left.
Qed.

Lemma switch_moves reg sel_now combo a choice pid rt targets :
  rt_id rt <> pid -> rt ∈ targets -> id_str rt = (effective_choice reg sel_now combo a choice targets).1 ->
  should_switch a (id_str rt) pid = true -> answer_moves reg sel_now combo a choice pid rt.
Proof.
  intros Hne Hin Heff Hsw. unfold answer_moves, effective_choice, should_switch in *.
  destruct (an_probabilities a) as [probs|].
  - split; [by apply negb_true_iff in Hsw|]. simpl in Heff. rewrite Heff. apply rerank_id.
  - split. { intros c Hc. rewrite Hc in Hsw. by apply negb_true_iff in Hsw. }
    unfold reputation_guard in Heff. destruct (f64_ltb (reputation reg sel_now combo _) _) eqn:Er; [|by left].
    destruct (head _) as [alt|] eqn:Eh; [|by left]. simpl in Heff. right.
    apply head_Some_elem_of, list_elem_of_filter in Eh as [[Hn%negb_true_iff%Z.eqb_neq Hr]%andb_true_iff _].
    assert (rt_id rt = rt_id alt) as -> by (by apply (inj pretty)). done.
Qed.

Lemma decision_spec js finish reg sel_now ask cooldowns combo req limiter now pin targets :
  (2 <= length targets)%nat ->
  let out := (apply_decision_routing js finish reg sel_now ask cooldowns combo req limiter now pin targets).1 in
  moved_at_most 2 targets out
  /\ forall pid, pin = Some pid ->
       pinned_is_available combo (active_cooldowns_of cooldowns combo) targets pid = true ->
       rt_id <$> head out = Some pid \/ moved_by_answer js reg sel_now ask combo req pid out.
Proof.
  intros Hlen. unfold apply_decision_routing. rewrite bool_decide_false by lia.
  pose proof (promote_pinned_spec combo (active_cooldowns_of cooldowns combo) pin targets) as Hpp.
  destruct (promote_pinned combo _ pin targets) as [pin' ts]. destruct Hpp as [Hm Hhead].
  assert (moved_at_most 2 targets ts) as Hm2 by (by apply (moved_le 1); [lia|]).
  case_bool_decide as Hcands; [naive_solver|]. destruct (String.eqb _ ""); [naive_solver|].
  destruct (ask _ _ pin') as [[a|]|e] eqn:Hask; [|naive_solver..].
  destruct (an_choice a) as [choice|] eqn:Hc; [|naive_solver].
  destruct (apply_answer_spec js reg sel_now combo a choice pin' req ts) as [Hma Hout].
  split.
  - destruct Hm as (ps & Hl & Hf), Hma as (ps' & Hl' & Hf'). exists (ps ++ ps').
    rewrite length_app, foldl_app, <- Hf. split; [lia|done].
  - intros pid Hpin Hav. destruct (Hhead pid Hpin Hav) as [-> Hh].
    destruct Hout as [->|(rt & Hin & Heff & Hid & Hx & Hsw)]; [by left|]. right.
    destruct (Hsw pid eq_refl) as [Hne Hs]. eexists _, a, choice, rt.
    split_and!; [|exact Hask|done|done|done|by eapply switch_moves|done]. lia.
Qed.

(** ** Properties *)

(** Decision routing only moves targets to the front: it loses, adds and
    changes none of them (their priorities apart).  And it holds on to the
    session's target: if the pinned target is available, it comes first in
    the result, whatever fails, unless an answer moves the session
    ([answer_moves]) to another target whose context the conversation fits. *)
Lemma decision_keeps_session js finish reg sel_now ask cooldowns combo req limiter now pin targets :
  (2 <= length targets)%nat ->
  let out := (apply_decision_routing js finish reg sel_now ask cooldowns combo req limiter now pin targets).1 in
  moved_at_most 2 targets out
  /\ (erase <$> out) ≡ₚ (erase <$> targets)
  /\ forall pid, pin = Some pid ->
       pinned_is_available combo (active_cooldowns_of cooldowns combo) targets pid = true ->
       rt_id <$> head out = Some pid
       \/ moved_by_answer js reg sel_now ask combo req pid out.
Proof.
  intros Hlen out.
  destruct (decision_spec js finish reg sel_now ask cooldowns combo req limiter now pin targets Hlen) as [Hm Hp].
  split_and!; [done|by eapply moved_perm|done].
Qed.

Definition demo_resolved (id : Z) (d : string) : ResolvedTarget :=
  mkResolved (set_description (Some d)
    (mkTarget id 0 "p" None None None 0 1 true ScopeAccount None None None None None None None None None))
    (mkModel "m" true None None).

Lemma decision_keeps_session_witness :
  rt_id <$> head (apply_decision_routing (fun _ => ""%string) (fun _ => 0) (sel_new) 1
      (fun _ _ _ => inr (Internal "timeout")) (fun _ => inl ∅) default_combo
      (mkOpenAIRequest [mkMessage "user" (Some (JStr "hi"))] None) limiter_new 0 (Some 2)
      [demo_resolved 1 "fast"; demo_resolved 2 "strong"]).1 = Some 2.
Proof.
  destruct (decision_keeps_session (fun _ => ""%string) (fun _ => 0) sel_new 1
    (fun _ _ _ => inr (Internal "timeout")) (fun _ => inl ∅) default_combo
    (mkOpenAIRequest [mkMessage "user" (Some (JStr "hi"))] None) limiter_new 0 (Some 2)
    [demo_resolved 1 "fast"; demo_resolved 2 "strong"]) as (_ & _ & H); [simpl; lia|].
  destruct (H 2 eq_refl) as [Hh|(? & ? & ? & ? & ? & ? & _)]; [vm_compute; reflexivity|exact Hh|done].
Defined.
