(* ===== verification/Router.v ===== *)
(** * The routing stage

    Models openproxy-pipeline/src/stages/router.rs with the parts of
    execution.rs it calls: from a request to the ordered list of targets the
    executor gets.  The combo is loaded, its targets are balanced, rotated
    over accounts and flattened, healthy ones are put first, those that cannot
    take the request's media are dropped, and in decision mode the session's
    target and the decision model reorder them; after a success the session is
    pinned to the target that served it.

    Parameters: the database ([ComboDb], the combo rows), the resolution of
    credentials, the random generator, the decision query, the clocks and the
    following stages ([next]). *)

From Stdlib Require Import Ascii String.
From S2P Require Import Prelude Types Text Errors CircuitBreaker Predictive SelectionRegistry LoadBalancing.
From S2P Require Import ComboTree Modality Affinity Decision.

(** ** State *)

Inductive RouterLog :=
  | LogAffinity (target_id : Z)
  | LogDecision (d : DecisionLog).

(** The shared state of the pipeline a routing stage touches, with the walk
    log of the request's context. *)
Record RouterState := mkRouterState {
  rs_breaker : CircuitBreakerRegistry;
  rs_limiter : PredictiveRateLimiter;
  rs_registry : SelectionRegistry;
  rs_affinity : SessionAffinityRegistry;
  rs_counters : gmap Z Z;
  rs_log : list RouterLog
}.

(** What a request brings. *)
Record PipelineRequest := mkPipelineRequest {
  pq_combo_id : Z;
  pq_combo_override : option Combo;
  pq_targets_override : option (list ComboTarget);
  pq_headers : gmap string string;
  pq_openai : OpenAIRequest
}.

Record RouterEnv := mkRouterEnv {
  re_db : ComboDb;
  re_get_combo : Z -> Result (option Combo);
  re_resolve_full : list ComboTarget -> list ResolvedTarget;
  re_rng : Rng;
  re_ask : string -> list (string * string) -> option Z -> Result (option Answer);
  re_cooldowns : Z -> Result (gset Z);
  re_clock : nat -> Z;
  re_affinity_now : Z;
  re_affinity_set_now : Z;
  re_limiter_now : Z;
  re_registry_now : Z;
  re_modality_routing : ModalityRoutingConfig;
  re_attempt : Z
}.

Definition set_breaker (cb : CircuitBreakerRegistry) (s : RouterState) : RouterState :=
  mkRouterState cb (rs_limiter s) (rs_registry s) (rs_affinity s) (rs_counters s) (rs_log s).
Definition set_counters (rr : gmap Z Z) (s : RouterState) : RouterState :=
  mkRouterState (rs_breaker s) (rs_limiter s) (rs_registry s) (rs_affinity s) rr (rs_log s).
Definition set_affinity (a : SessionAffinityRegistry) (s : RouterState) : RouterState :=
  mkRouterState (rs_breaker s) (rs_limiter s) (rs_registry s) a (rs_counters s) (rs_log s).
Definition push_log (l : list RouterLog) (s : RouterState) : RouterState :=
  mkRouterState (rs_breaker s) (rs_limiter s) (rs_registry s) (rs_affinity s) (rs_counters s) (rs_log s ++ l).

Section router.
Context (json_to_string : Json -> string) (hash_str : string -> Z) (finish : list hash_item -> Z).
Context (en : RouterEnv).
Context (next : RouterState -> list ResolvedTarget -> RouterState * list ResolvedTarget * Result PipelineResult).

Definition load_combo (req : PipelineRequest) : Result Combo :=
  match pq_combo_override req with
  | Some combo => inl combo
  | None =>
      match re_get_combo en (pq_combo_id req) with
      | inl (Some combo) => inl combo
      | inl None => inr (ComboNotFound (pq_combo_id req))
      | inr e => inr e
      end
  end.

(** [resolve_targets_blocking], with [resolve_target_order_with_mode]. *)
Definition resolve_targets (combo : Combo) (overrides : option (list ComboTarget)) (s : RouterState)
    : RouterState * Result (list ComboTarget) :=
  let balance ts := execute_load_balancing ts combo (rs_counters s) (re_registry_now en) (rs_registry s) (re_rng en) in
  match overrides with
  | Some ts => let '(ts, rr) := balance ts in (set_counters rr s, expand_account_rotation (re_db en) ts)
  | None =>
      match list_targets (re_db en) (c_id combo) with
      | inr e => (s, inr e)
      | inl ts => let '(ts, rr) := balance ts in (set_counters rr s, expand_account_rotation (re_db en) ts)
      end
  end.

Definition resolve_initial_targets (combo : Combo) (overrides : option (list ComboTarget)) (s : RouterState)
    : option (RouterState * Result (list ComboTarget)) :=
  match resolve_targets combo overrides s with
  | (s, inr e) => Some (s, inr e)
  | (s, inl ts) =>
      match flatten_targets (re_db en) (c_id combo) ts with
      | Some r => Some (s, r)
      | None => None
      end
  end.

(** [Iterator::partition] by [is_target_healthy]; the [i]-th check reads the
    clock twice. *)
Fixpoint partition_loop (clock : nat -> Z) (i : nat) (ts : list ComboTarget) (cb : CircuitBreakerRegistry)
    : CircuitBreakerRegistry * list ComboTarget * list ComboTarget :=
  match ts with
  | [] => (cb, [], [])
  | t :: ts' =>
      let '(cb, ok) := is_target_healthy t (clock (2 * i)%nat) (clock (2 * i + 1)%nat) cb in
      let '(cb, eligible, parked) := partition_loop clock (S i) ts' cb in
      if ok then (cb, t :: eligible, parked) else (cb, eligible, t :: parked)
  end.

Definition partition_healthy_targets (clock : nat -> Z) (ts : list ComboTarget) (cb : CircuitBreakerRegistry)
    : CircuitBreakerRegistry * list ComboTarget :=
  let '(cb, eligible, parked) := partition_loop clock 0 ts cb in
  (cb, if bool_decide (eligible = []) && negb (bool_decide (parked = [])) then parked
       else if negb (bool_decide (parked = [])) then eligible ++ parked
       else eligible).

(** [auto_populate_empty_combo] of repository.rs adds nothing. *)
Definition auto_populate_empty_combo (combo_id : Z) : Result Z := inl 0.

Definition do_auto_populate (combo_id : Z) : Result Z :=
  match list_targets (re_db en) combo_id with
  | inr e => inr e
  | inl [] => auto_populate_empty_combo combo_id
  | inl _ => inl 0
  end.

Definition try_repopulate_targets (combo : Combo) (overrides : option (list ComboTarget)) (s : RouterState)
    : option (RouterState * Result (list ComboTarget)) :=
  if negb (re_attempt en =? 1) then Some (s, inl [])
  else match do_auto_populate (c_id combo) with
       | inr e => Some (s, inr e)
       | inl added =>
           if added =? 0 then Some (s, inl [])
           else match resolve_initial_targets combo overrides s with
                | Some (s, inl ts) =>
                    let '(cb, eligible, _) := partition_loop (re_clock en) 0 ts (rs_breaker s) in
                    Some (set_breaker cb s, inl eligible)
                | r => r
                end
       end.

(** The targets to resolve: healthy first, or an attempt to repopulate. *)
Definition eligible_targets (combo : Combo) (overrides : option (list ComboTarget)) (s : RouterState)
    : option (RouterState * Result (list ComboTarget)) :=
  match resolve_initial_targets combo overrides s with
  | Some (s, inl ts) =>
      let '(cb, eligible) := partition_healthy_targets (re_clock en) ts (rs_breaker s) in
      let s := set_breaker cb s in
      if bool_decide (eligible = []) then try_repopulate_targets combo overrides s
      else Some (s, inl eligible)
  | r => r
  end.

(** The modality gate as the stage applies it. *)
Definition gate (combo : Combo) (req : PipelineRequest) (resolved : list ResolvedTarget) : list ResolvedTarget :=
  let required := request_required_modalities (pq_openai req) in
  if required_any required
  then filter_targets_for_modalities resolved required
         (effective_config (re_modality_routing en) (c_modality_gate combo))
  else resolved.

(** The pin of the session, if it still names one of the targets. *)
Definition current_pin (key : option SessionAffinityKey) (reset : bool) (resolved : list ResolvedTarget)
    (s : RouterState) : RouterState * option Z :=
  match key with
  | Some key =>
      if reset then (s, None)
      else match af_get key (re_affinity_now en) (rs_affinity s) with
           | (a, Some pinned) =>
               if existsb (fun rt => rt_id rt =? pinned) resolved
               then (push_log [LogAffinity pinned] (set_affinity a s), Some pinned)
               else (set_affinity (af_invalidate key a) s, None)
           | (a, None) => (set_affinity a s, None)
           end
  | None => (s, None)
  end.

Definition session_key (combo : Combo) (req : PipelineRequest) : option SessionAffinityKey :=
  (fun h => (h, c_id combo)) <$> extract_session_hash json_to_string hash_str (pq_headers req) (pq_openai req).

(** Decision mode: the pin, then [apply_decision_routing]. *)
Definition decision_step (combo : Combo) (req : PipelineRequest) (resolved : list ResolvedTarget)
    (s : RouterState) : RouterState * list ResolvedTarget :=
  let '(s, pin) := current_pin (session_key combo req) (should_reset (pq_headers req)) resolved s in
  let '(out, log) := apply_decision_routing json_to_string finish (rs_registry s) (re_registry_now en)
                       (re_ask en) (re_cooldowns en) combo (pq_openai req) (rs_limiter s)
                       (re_limiter_now en) pin resolved in
  (push_log (LogDecision <$> log) s, out).

(** After the following stages: pin the session to the target that served. *)
Definition pin_session (combo : Combo) (req : PipelineRequest) (targets_after : list ResolvedTarget)
    (res : PipelineResult) (s : RouterState) : RouterState :=
  if bool_decide (pr_error res = None) && (200 <=? pr_status_code res) && (pr_status_code res <=? 299) then
    match session_key combo req,
          match pr_usage_tuple res with
          | Some (_, _, tid) => Some tid
          | None => rt_id <$> head targets_after
          end with
    | Some key, Some tid => set_affinity (af_set key tid (re_affinity_set_now en) (rs_affinity s)) s
    | _, _ => s
    end
  else s.

(** What the stage hands to the following ones, or its error. *)
Definition route (req : PipelineRequest) (s : RouterState)
    : option (RouterState * Result (Combo * list ResolvedTarget)) :=
  match load_combo req with
  | inr e => Some (s, inr e)
  | inl combo =>
      match eligible_targets combo (pq_targets_override req) s with
      | None => None
      | Some (s, inr e) => Some (s, inr e)
      | Some (s, inl eligible) =>
          let no_targets := Some (s, inr (NoHealthyTargets (c_id combo))) in
          if bool_decide (eligible = []) then no_targets
          else
            let resolved := re_resolve_full en eligible in
            if bool_decide (resolved = []) then no_targets
            else
              let resolved := gate combo req resolved in
              if bool_decide (resolved = []) then no_targets
              else if bool_decide (c_priority_mode combo = DecisionMode)
              then let '(s, out) := decision_step combo req resolved s in Some (s, inl (combo, out))
              else Some (s, inl (combo, resolved))
      end
  end.

(** [RouterStage::execute]. *)
Definition router_execute (req : PipelineRequest) (s : RouterState)
    : option (RouterState * Result PipelineResult) :=
  match route req s with
  | None => None
  | Some (s, inr e) => Some (s, inr e)
  | Some (s, inl (combo, targets)) =>
      match next s targets with
      | (s, _, inr e) => Some (s, inr e)
      | (s, targets_after, inl res) =>
          Some (if bool_decide (c_priority_mode combo = DecisionMode)
                then pin_session combo req targets_after res s else s, inl res)
      end
  end.

End router.

(** ** Specification *)

Definition target_health (now : Z) (cb : CircuitBreakerRegistry) (t : ComboTarget) : bool :=
  match t_account_id t with
  | Some aid => bool_decide (health_at (key_from_target aid (t_rate_limit_scope t) (t_model_row_id t)) now cb = Healthy)
  | None => true
  end.

(** The targets with their health at the instant each is looked at. *)
Definition annotate (clock : nat -> Z) (i : nat) (cb : CircuitBreakerRegistry) (ts : list ComboTarget)
    : list (bool * ComboTarget) :=
  imap (fun j t => (target_health (clock (2 * (i + j))%nat) cb t, t)) ts.

Definition healthy_first (clock : nat -> Z) (cb : CircuitBreakerRegistry) (ts : list ComboTarget)
    : list ComboTarget :=
  let l := annotate clock 0 cb ts in
  (snd <$> filter (fun x => x.1 = true) l) ++ (snd <$> filter (fun x => x.1 = false) l).

Definition monotone (clock : nat -> Z) : Prop := forall i j, (i <= j)%nat -> clock i <= clock j.

(** ** Lemmas *)

Lemma is_target_healthy_spec t now now' cb :
  now <= now' ->
  (is_target_healthy t now now' cb).2 = target_health now cb t
  /\ forall k later, now' <= later -> health_at k later (is_target_healthy t now now' cb).1 = health_at k later cb.
Proof.
  intros Hle. unfold is_target_healthy, target_health. destruct (t_account_id t) as [aid|]; [|done].
  destruct (is_healthy_spec (key_from_target aid (t_rate_limit_scope t) (t_model_row_id t)) now now' cb Hle)
    as [Hh Hi]. destruct (is_healthy _ _ _ _) as [cb' h]; simpl in *. by subst h.
Qed.

Lemma annotate_ext clock i cb cb' ts :
  (forall k later, clock (2 * i)%nat <= later -> health_at k later cb' = health_at k later cb) -> monotone clock ->
  annotate clock i cb' ts = annotate clock i cb ts.
Proof.
  intros Hx Hm. unfold annotate. apply imap_ext. intros j t _. f_equal.
  unfold target_health. destruct (t_account_id t); [|done]. rewrite Hx; [done|]. apply Hm. lia.
Qed.

Lemma annotate_cons clock i cb t ts :
  annotate clock i cb (t :: ts) = (target_health (clock (2 * i)%nat) cb t, t) :: annotate clock (S i) cb ts.
Proof.
  unfold annotate. rewrite imap_cons. rewrite (Nat.add_0_r i). f_equal. apply imap_ext. intros j x _.
  unfold compose. by replace (i + S j)%nat with (S i + j)%nat by lia.
Qed.

Lemma partition_loop_spec clock i ts cb :
  monotone clock ->
  let '(cb', eligible, parked) := partition_loop clock i ts cb in
  eligible = snd <$> filter (fun x => x.1 = true) (annotate clock i cb ts)
  /\ parked = snd <$> filter (fun x => x.1 = false) (annotate clock i cb ts).
Proof.
  intros Hm. revert i cb. induction ts as [|t ts IH]; intros i cb; [done|].
  cbn [partition_loop].
  assert (clock (2 * i)%nat <= clock (2 * i + 1)%nat) as Hle by (apply Hm; lia).
  destruct (is_target_healthy_spec t _ _ cb Hle) as [Hh Hi].
  destruct (is_target_healthy t _ _ cb) as [cb1 ok]; cbn [fst snd] in Hh, Hi.
  specialize (IH (S i) cb1). rewrite (annotate_ext clock (S i) cb cb1) in IH; [| |done].
  2: { intros k later Hl. apply Hi. etrans; [|apply Hl]. apply Hm. lia. }
  rewrite annotate_cons, !filter_cons, <- Hh; cbn [fst snd].
  destruct (partition_loop clock (S i) ts cb1) as [[cb2 eligible] parked]. destruct IH as [-> ->].
  by destruct ok.
Qed.

Lemma partition_spec clock ts cb :
  monotone clock -> (partition_healthy_targets clock ts cb).2 = healthy_first clock cb ts.
Proof.
  intros Hm. unfold partition_healthy_targets, healthy_first.
  pose proof (partition_loop_spec clock 0 ts cb Hm) as Hp.
  destruct (partition_loop clock 0 ts cb) as [[cb' e] p]. destruct Hp as [-> ->]. simpl.
  destruct (snd <$> filter (fun x => x.1 = false) _) as [|p ps]; [|by case_bool_decide as He; [rewrite He|]].
  rewrite app_nil_r. by case_bool_decide.
Qed.

Lemma healthy_first_perm clock cb ts : healthy_first clock cb ts ≡ₚ ts.
Proof.
  unfold healthy_first. rewrite <- fmap_app.
  assert (snd <$> annotate clock 0 cb ts = ts) as Hs.
  { unfold annotate. rewrite fmap_imap. unfold compose; simpl. etrans; [apply (imap_const id)|apply list_fmap_id]. }
  rewrite <- Hs at 3. apply fmap_Permutation. clear Hs.
  induction (annotate clock 0 cb ts) as [|[[] t] l IH]; [done| |]; rewrite !filter_cons; simpl.
  - by rewrite IH.
  - rewrite <- Permutation_middle. by rewrite IH.
Qed.

(** The rotation and flattening always answer. *)
Lemma resolve_initial_total en combo ov s : exists s' r, resolve_initial_targets en combo ov s = Some (s', r)
  /\ rs_breaker s' = rs_breaker s /\ rs_affinity s' = rs_affinity s.
Proof.
  unfold resolve_initial_targets.
  assert (rs_breaker (resolve_targets en combo ov s).1 = rs_breaker s
          /\ rs_affinity (resolve_targets en combo ov s).1 = rs_affinity s) as Hs.
  { unfold resolve_targets. destruct ov as [ts|]; [|destruct (list_targets _ _) as [ts|]; [|done]].
    all: by destruct (execute_load_balancing _ _ _ _ _ _). }
  destruct (resolve_targets en combo ov s) as [s1 [ts|e]]; simpl in Hs; [|by eauto].
  unfold flatten_targets. destruct (existsb _ ts); [|by eauto].
  unfold flatten_sub_combos. destruct (flatten_loop_spec (re_db en) (c_id combo) ts) as (r & -> & _).
  destruct r as [[]|]; by eauto.
Qed.

Lemma repopulate_empty en combo ov s : exists r, try_repopulate_targets en combo ov s = Some (s, r)
  /\ forall ts, r = inl ts -> ts = [].
Proof.
  unfold try_repopulate_targets, do_auto_populate, auto_populate_empty_combo.
  destruct (re_attempt en =? 1); simpl; [|eexists; split; [done|naive_solver]].
  destruct (list_targets _ _) as [[]|]; simpl; eexists; (split; [done|naive_solver]).
Qed.

Section facts.
Context (js : Json -> string) (hash_str : string -> Z) (finish : list hash_item -> Z) (en : RouterEnv).

Lemma current_pin_frame key reset resolved s :
  rs_breaker (current_pin en key reset resolved s).1 = rs_breaker s
  /\ rs_registry (current_pin en key reset resolved s).1 = rs_registry s
  /\ rs_limiter (current_pin en key reset resolved s).1 = rs_limiter s.
Proof.
  unfold current_pin. destruct key as [key|]; [|done]. destruct reset; [done|].
  destruct (af_get _ _ _) as [a [p|]]; [|done]. by destruct (existsb _ _).
Qed.

(** Decision mode keeps the targets, up to priorities. *)
Lemma apply_decision_perm reg now ask cd combo req l i pin ts :
  (erase <$> (apply_decision_routing js finish reg now ask cd combo req l i pin ts).1) ≡ₚ (erase <$> ts).
Proof.
  unfold apply_decision_routing. case_bool_decide; [done|].
  pose proof (promote_pinned_spec combo (active_cooldowns_of cd combo) pin ts) as Hpp.
  destruct (promote_pinned _ _ _ _) as [pin' ts']. destruct Hpp as [Hm%moved_perm _].
  case_bool_decide; [done|]. destruct (String.eqb _ ""); [done|].
  destruct (ask _ _ _) as [[a|]|]; [|done..]. destruct (an_choice a); [|done].
  destruct (apply_answer_spec js reg now combo a s pin' req ts') as [Ha%moved_perm _]. by rewrite Ha.
Qed.
End facts.

(** ** Properties *)


Definition demo_target (id : Z) (account : option Z) : ComboTarget :=
  mkTarget id 1 "p" account None None id 1 true ScopeAccount None None None None None (Some "d") None None None.

Definition demo_db : ComboDb :=
  mkComboDb (fun c => inl (if c =? 1 then [demo_target 1 (Some 7); demo_target 2 (Some 8)] else []))
    (fun _ => inl []) (fun _ => inl None) (fun _ => inl None) (fun _ _ _ => inl []) (fun _ => Some true)
    (fun _ => Some true).

Definition demo_env : RouterEnv :=
  mkRouterEnv demo_db (fun c => inl (if c =? 1 then Some default_combo else None))
    (fmap (fun t => mkResolved t (mkModel "m" true None None))) fixed_rng
    (fun _ _ _ => inr (Internal "timeout")) (fun _ => inl ∅) (fun i => Z.of_nat i) 10 20 0 1
    (mkModalityConfig true true) 1.

Definition demo_state : RouterState :=
  mkRouterState (force_unhealthy (KAccount 7) 0 (cb_new (mkBreakerConfig 3 1000))) limiter_new sel_new ∅ ∅ [].

Definition demo_request (ms : list OpenAIMessage) : PipelineRequest :=
  mkPipelineRequest 1 (Some (mkCombo 1 "c" Priority 1 false "" None None DecisionMode CooldownFlat
    None None None None None None None None None None)) None ∅ (mkOpenAIRequest ms None).


(** The unhealthy account comes last. *)
Example demo_route_order :
  match route (fun _ => ""%string) (fun _ => 5) (fun _ => 0) demo_env (demo_request []) demo_state with
  | Some (_, inl (_, out)) => rt_id <$> out = [2; 1]
  | _ => False
  end.
Proof. vm_compute. reflexivity. Qed.


