(* ===== verification/ThinkExtractor.v ===== *)
(** * Extraction of reasoning blocks

    Models openproxy-pipeline/src/think_extractor.rs: blocks between
    [<think>] tags move out of [content] into [reasoning_content], for a whole
    response ([extract_think_from_content]) and for a stream of deltas whose
    tags may span chunks ([ThinkStreamExtractor]).

    A [str] is its UTF-8 bytes; the slices of the source are at character
    boundaries, which [safe_slice_to] and [safe_slice_from] look for. *)

From Stdlib Require Import String.
From S2P Require Import Prelude Text Bytes.

Definition LT : Z := 60.
Definition GT : Z := 62.

Definition THINK_OPEN_TAGS : list str :=
  bytes_of <$> ["<think>"; "<thinking>"; "<reasoning>"; "<thought>"]%string.
Definition THINK_CLOSE_TAGS : list str :=
  bytes_of <$> ["</think>"; "</thinking>"; "</reasoning>"; "</thought>"]%string.

(** ** Bytes and slices *)

(** [windows(n).position(..)]. *)
Fixpoint window_position (haystack needle : str) : option nat :=
  if (length haystack <? length needle)%nat then None
  else if eq_ignore_ascii_case (take (length needle) haystack) needle then Some 0%nat
  else match haystack with
       | [] => None
       | _ :: haystack' => S <$> window_position haystack' needle
       end.

Definition find_ignore_ascii_case (haystack needle : str) : option nat :=
  match needle with
  | [] => Some 0%nat
  | _ => if (length haystack <? length needle)%nat then None else window_position haystack needle
  end.

(** A continuation byte is one of the form [10xxxxxx]; [is_char_boundary]. *)
Definition is_cont (b : Z) : bool := Z.land b 192 =? 128.

Definition is_char_boundary (s : str) (i : nat) : bool :=
  if (i =? 0)%nat then true
  else match s !! i with
       | Some b => negb (is_cont b)
       | None => (i =? length s)%nat
       end.

Fixpoint boundary_below (s : str) (e : nat) : nat :=
  match e with
  | O => O
  | S e' => if is_char_boundary s e then e else boundary_below s e'
  end.

Definition safe_slice_to (s : str) (end_ : nat) : str :=
  take (boundary_below s (Nat.min end_ (length s))) s.

Fixpoint boundary_above (s : str) (gap i : nat) : nat :=
  match gap with
  | O => i
  | S gap' => if is_char_boundary s i then i else boundary_above s gap' (S i)
  end.

Definition safe_slice_from (s : str) (start : nat) : str :=
  let i := Nat.min start (length s) in
  drop (boundary_above s (length s - i) i) s.

(** ** The tags of a text *)

(** [min_by_key] keeps the first of equal minima. *)
Fixpoint min_by_pos (l : list (nat * str)) : option (nat * str) :=
  match l with
  | [] => None
  | x :: l' => match min_by_pos l' with
               | Some y => if (fst y <? fst x)%nat then Some y else Some x
               | None => Some x
               end
  end.

Definition find_earliest_tag (s : str) (tags : list str) : option (nat * str) :=
  min_by_pos (omap (fun tag => (fun pos => (pos, tag)) <$> find_ignore_ascii_case s tag) tags).

(** The loop over [THINK_OPEN_TAGS] with the close tag of the same index. *)
Definition find_matching_close_tag (after_open : str) : option str :=
  let fix go (opens closes : list str) : option str :=
    match opens, closes with
    | o :: opens', c :: closes' =>
        if (length o <=? length after_open)%nat && eq_ignore_ascii_case (take (length o) after_open) o
        then Some c else go opens' closes'
    | _, _ => None
    end in
  go THINK_OPEN_TAGS THINK_CLOSE_TAGS.

(** [position(|ot| tag.eq_ignore_ascii_case(ot)).map(|i| THINK_CLOSE_TAGS[i])]. *)
Definition close_tag_of (tag : str) : option str :=
  let fix go (opens closes : list str) : option str :=
    match opens, closes with
    | o :: opens', c :: closes' => if eq_ignore_ascii_case tag o then Some c else go opens' closes'
    | _, _ => None
    end in
  go THINK_OPEN_TAGS THINK_CLOSE_TAGS.

(** ** A whole response *)

Record ExtractedThink := mkExtracted { et_content : str; et_reasoning : str }.

Definition has_reasoning (e : ExtractedThink) : bool :=
  match et_reasoning e with [] => false | _ => true end.

Definition parse_think_segment (remaining : str) (tag_idx : nat) : str * str * str :=
  let content_before := safe_slice_to remaining tag_idx in
  let after_open := safe_slice_from remaining tag_idx in
  let close_tag := find_matching_close_tag after_open in
  let after_tag_content :=
    safe_slice_from after_open
      (match find_byte GT after_open with Some p => S p | None => length after_open end) in
  match close_tag with
  | Some ct =>
      match find_ignore_ascii_case after_tag_content ct with
      | Some pos => (content_before, safe_slice_to after_tag_content pos,
                     safe_slice_from after_tag_content (pos + length ct))
      | None => (content_before, after_tag_content, [])
      end
  | None => (content_before, after_tag_content, [])
  end.

Definition append_think_segment_reasoning (reasoning think_text : str) : str :=
  match trim_bytes think_text with
  | [] => reasoning
  | trimmed => match reasoning with
               | [] => trimmed
               | _ => reasoning ++ 10 :: trimmed
               end
  end.

(** The inner [while] of [strip_orphaned_close_tags] for one tag; a turn that
    goes on removes the tag, so the length of the text bounds the turns. *)
Fixpoint strip_close_tag (fuel : nat) (open_tag close_tag result : str) : str :=
  match fuel with
  | O => result
  | S f =>
      match find_ignore_ascii_case result close_tag with
      | None => result
      | Some pos =>
          match find_ignore_ascii_case (safe_slice_to result pos) open_tag with
          | Some _ => result
          | None => strip_close_tag f open_tag close_tag (take pos result ++ drop (pos + length close_tag) result)
          end
      end
  end.

Definition strip_orphaned_close_tags (content : str) : str :=
  if negb (contains_byte LT content) then content
  else foldl (fun result tags => strip_close_tag (S (length result)) tags.1 tags.2 result)
             content (zip THINK_OPEN_TAGS THINK_CLOSE_TAGS).

(** [trim_start_matches('\n')]. *)
Fixpoint trim_start_nl (s : str) : str :=
  match s with
  | b :: s' => if b =? 10 then trim_start_nl s' else s
  | [] => []
  end.

(** The [while] loop; every turn consumes an opening tag. *)
Fixpoint extract_loop (fuel : nat) (result : ExtractedThink) (remaining : str) : ExtractedThink :=
  match fuel with
  | O => result
  | S f =>
      match find_earliest_tag remaining THINK_OPEN_TAGS with
      | Some (tag_idx, _) =>
          let '(content_before, think_text, rest) := parse_think_segment remaining tag_idx in
          extract_loop f (mkExtracted (et_content result ++ content_before)
                            (append_think_segment_reasoning (et_reasoning result) think_text)) rest
      | None => mkExtracted (et_content result ++ remaining) (et_reasoning result)
      end
  end.

Definition extract_think_from_content (content : str) : ExtractedThink :=
  let result := extract_loop (S (length content)) (mkExtracted [] []) content in
  mkExtracted (trim_start_nl (strip_orphaned_close_tags (et_content result))) (et_reasoning result).

(** ** A stream of deltas *)

Record ThinkStreamExtractor := mkThink {
  inside_think : bool;
  tag_buffer : str;
  close_tag : option str
}.

Definition think_new : ThinkStreamExtractor := mkThink false [] None.

Definition is_partial_open_tag_tail (tail : str) : bool :=
  existsb (fun tag =>
    bool_decide (tail `prefix_of` tag)
    || ((length tail <=? length tag)%nat && eq_ignore_ascii_case (take (length tail) tag) tail))
    THINK_OPEN_TAGS.

(** The search over [(1..=check_len).rev()]: the longest tail first. *)
Fixpoint split_search (ok : str -> bool) (input : str) (partial_len : nat) : nat :=
  match partial_len with
  | O => length input
  | S p =>
      let split_byte := (length input - partial_len)%nat in
      if is_char_boundary input split_byte && ok (drop split_byte input) then split_byte
      else split_search ok input p
  end.

Definition find_safe_split_point (input : str) : nat :=
  if negb (contains_byte LT input) then length input
  else
    let max_tag_len := max_list (length <$> THINK_OPEN_TAGS) in
    let check_len := Nat.min (max_tag_len - 1) (length input) in
    split_search is_partial_open_tag_tail input check_len.

Definition find_safe_split_point_close (input close_tag : str) : nat :=
  if negb (contains_byte LT input) then length input
  else
    let check_len := Nat.min (length close_tag - 1) (length input) in
    split_search (fun tail => eq_ignore_ascii_case (take (length tail) close_tag) tail) input check_len.

Definition process_fast_path (self : ThinkStreamExtractor) (delta : str) : str * str :=
  if inside_think self then ([], delta) else (delta, []).

(** The two mutually recursive passes: each call consumes a tag. *)
Fixpoint process_outside_think (fuel : nat) (self : ThinkStreamExtractor) (input : str)
    : ThinkStreamExtractor * (str * str) :=
  match fuel with
  | O => (self, ([], []))
  | S f =>
      match find_earliest_tag input THINK_OPEN_TAGS with
      | None =>
          let safe_len := find_safe_split_point input in
          let content := safe_slice_to input safe_len in
          (mkThink (inside_think self) (safe_slice_from input safe_len) (close_tag self),
           (strip_orphaned_close_tags content, []))
      | Some (tag_pos, tag_str) =>
          let content_before := safe_slice_to input tag_pos in
          let after_tag := safe_slice_from input tag_pos in
          let self := mkThink true (tag_buffer self) (close_tag_of tag_str) in
          (* [after_tag.get(tag_str.len()..).unwrap_or("")] *)
          let after_tag_content :=
            if (length tag_str <=? length after_tag)%nat && is_char_boundary after_tag (length tag_str)
            then drop (length tag_str) after_tag else [] in
          match after_tag_content with
          | [] => (self, (content_before, []))
          | _ =>
              let '(self, (more_content, reasoning)) := process_inside_think f self after_tag_content in
              (self, (content_before ++ more_content, reasoning))
          end
      end
  end
with process_inside_think (fuel : nat) (self : ThinkStreamExtractor) (input : str)
    : ThinkStreamExtractor * (str * str) :=
  match fuel with
  | O => (self, ([], []))
  | S f =>
      match close_tag self with
      | None => (mkThink false (tag_buffer self) (close_tag self), (input, []))
      | Some ct =>
          match find_ignore_ascii_case input ct with
          | Some pos =>
              let reasoning := safe_slice_to input pos in
              let after_close := safe_slice_from input (pos + length ct) in
              let self := mkThink false (tag_buffer self) None in
              match after_close with
              | [] => (self, ([], reasoning))
              | _ =>
                  let '(self, (more_content, more_reasoning)) := process_outside_think f self after_close in
                  (self, (more_content, reasoning ++ more_reasoning))
              end
          | None =>
              let safe_len := find_safe_split_point_close input ct in
              (mkThink (inside_think self) (safe_slice_from input safe_len) (close_tag self),
               ([], safe_slice_to input safe_len))
          end
      end
  end.

Definition process (self : ThinkStreamExtractor) (delta : str) : ThinkStreamExtractor * (str * str) :=
  match delta with
  | [] => (self, ([], []))
  | _ =>
      match tag_buffer self, contains_byte LT delta with
      | [], false => (self, process_fast_path self delta)
      | _, _ =>
          let input := tag_buffer self ++ delta in
          let self := mkThink (inside_think self) [] (close_tag self) in
          if inside_think self then process_inside_think (S (length input)) self input
          else process_outside_think (S (length input)) self input
      end
  end.

Definition flush (self : ThinkStreamExtractor) : ThinkStreamExtractor * (str * str) :=
  let self' := mkThink (inside_think self) [] (close_tag self) in
  match tag_buffer self with
  | [] => (self', ([], []))
  | buffered => if inside_think self then (self', ([], buffered)) else (self', (buffered, []))
  end.

Definition has_active_state_or_tag (self : ThinkStreamExtractor) (text : str) : bool :=
  inside_think self || match tag_buffer self with [] => false | _ => true end || contains_byte LT text.

(** The reading of a stream: every delta, then the flush. *)
Fixpoint stream (self : ThinkStreamExtractor) (deltas : list str) : str * str :=
  match deltas with
  | [] => (flush self).2
  | d :: deltas' =>
      let '(self, (c, r)) := process self d in
      let '(c', r') := stream self deltas' in (c ++ c', r ++ r')
  end.

(** ** Abstract specification

    The text is read once from the left.  Outside a block the first opening
    tag starts one, inside a block the first tag that closes it ends it; the
    segments in between alternate between answer and reasoning. *)

(** [s] starts with the tag [t], letter case aside. *)
Definition starts_ic (t s : str) : bool :=
  (length t <=? length s)%nat && eq_ignore_ascii_case (take (length t) s) t.

Fixpoint first_tag (tags : list str) (s : str) : option (nat * str) :=
  match List.find (fun t => starts_ic t s) tags with
  | Some t => Some (0%nat, t)
  | None => match s with
            | [] => None
            | _ :: s' => (fun '(p, t) => (S p, t)) <$> first_tag tags s'
            end
  end.

(** A mode is the close tag awaited, [None] outside a block. *)
Definition tags_of (mode : option str) : list str :=
  match mode with None => THINK_OPEN_TAGS | Some ct => [ct] end.

Definition next_mode (mode : option str) (t : str) : option str :=
  match mode with None => close_tag_of t | Some _ => None end.

Definition is_block (mode : option str) : bool :=
  match mode with Some _ => true | None => false end.

Fixpoint segs (fuel : nat) (mode : option str) (s : str) : list (bool * str) :=
  match fuel with
  | O => []
  | S f => match first_tag (tags_of mode) s with
           | None => [(is_block mode, s)]
           | Some (p, t) => (is_block mode, take p s) :: segs f (next_mode mode t) (drop (p + length t) s)
           end
  end.

Definition segments (mode : option str) (s : str) : list (bool * str) := segs (S (length s)) mode s.

Definition texts (block : bool) (l : list (bool * str)) : list str :=
  snd <$> filter (fun seg => seg.1 = block) l.

Definition joined (block : bool) (l : list (bool * str)) : str := concat (texts block l).

(** No close tag stands outside a block. *)
Definition no_stray_close (l : list (bool * str)) : Prop :=
  Forall (fun x => first_tag THINK_CLOSE_TAGS x = None) (texts false l).

(** ** Lemmas: case folding and prefixes *)

Lemma starts_ic_spec t s :
  starts_ic t s = true <-> exists m r, s = m ++ r /\ lower <$> m = lower <$> t.
Proof.
  unfold starts_ic. rewrite andb_true_iff, Nat.leb_le, eq_ic_spec. split.
  - intros [Hl He]. exists (take (length t) s), (drop (length t) s). by rewrite take_drop.
  - intros (m & r & -> & He). assert (length m = length t) as Hl.
    { apply (f_equal length) in He. by rewrite !length_fmap in He. }
    rewrite length_app. split; [lia|]. by rewrite take_app_length' by done.
Qed.

Lemma lower_lt b : lower b = LT <-> b = LT.
Proof. unfold lower, LT. zcase; simpl; lia. Qed.

Lemma lower_gt b : lower b = GT <-> b = GT.
Proof. unfold lower, GT. zcase; simpl; lia. Qed.

(** ** Lemmas: boundaries *)

Definition head_ok (s : str) : Prop := match s with [] => True | b :: _ => is_cont b = false end.

(** Cuts before the first byte and behind an ASCII byte are boundaries. *)
Definition cut_safe (s : str) : Prop :=
  forall a b, s = a ++ b -> (a = [] \/ exists a' c, a = a' ++ [c] /\ 0 <= c <= 127) -> head_ok b.

Lemma cut_safe_suffix a b : cut_safe (a ++ b) -> head_ok b -> cut_safe b.
Proof.
  intros Hs Hh c d -> [->|(c' & x & -> & Hx)]; [done|].
  apply (Hs (a ++ c' ++ [x])); [by rewrite <- !app_assoc|]. right. exists (a ++ c'), x.
  by rewrite app_assoc.
Qed.

Lemma cut_safe_prefix a b : cut_safe (a ++ b) -> cut_safe a.
Proof.
  intros Hs c d -> Hc. assert (head_ok (d ++ b)) as H by (by apply (Hs c); [rewrite app_assoc|]).
  by destruct d.
Qed.

Lemma cut_safe_nil : cut_safe [].
Proof. intros a b E _. by destruct a; simplify_eq/=. Qed.

Lemma cut_safe_head s : cut_safe s -> head_ok s.
Proof. intros H. by apply (H [] s); [|left]. Qed.

Lemma cut_safe_app a b : cut_safe a -> cut_safe b -> cut_safe (a ++ b).
Proof.
  intros Ha Hb c d E Hc. apply app_eq_inv in E as [(k & -> & ->)|(k & -> & ->)].
  - pose proof (cut_safe_head _ Hb). specialize (Ha c k eq_refl Hc). by destruct k.
  - destruct k as [|x k _] using rev_ind; [by apply cut_safe_head|].
    apply (Hb (k ++ [x]) d eq_refl). destruct Hc as [Hc|(a' & y & Hc & Hy)].
    + destruct a, k; done.
    + right. rewrite app_assoc in Hc. apply app_inj_tail in Hc as [_ ->]. eauto.
Qed.

Lemma cut_safe_after a c b : cut_safe (a ++ c :: b) -> 0 <= c <= 127 -> cut_safe b.
Proof.
  intros Hs Hc. replace (a ++ c :: b) with ((a ++ [c]) ++ b) in Hs by by rewrite <- app_assoc.
  apply (cut_safe_suffix (a ++ [c])); [done|]. apply (Hs (a ++ [c]) b eq_refl). right. eauto.
Qed.

Lemma is_cont_range b : 0 <= b <= 255 -> is_cont b = (128 <=? b) && (b <=? 191).
Proof.
  intros Hb.
  assert (Forall (fun b => is_cont b = (128 <=? b) && (b <=? 191)) (seqZ 0 256)) as H.
  { apply (bool_decide_unpack _). vm_compute. exact I. }
  rewrite Forall_forall in H. apply H. apply elem_of_seqZ. lia.
Qed.

(** A character: a lead byte and its continuations. *)
Lemma cut_safe_char b1 (cs s : str) :
  Forall (fun c => cont_byte c = true) cs -> 0 <= b1 <= 127 \/ 192 <= b1 <= 255 ->
  (cs = [] \/ 128 <= b1) -> cut_safe s -> cut_safe (b1 :: cs ++ s).
Proof.
  intros Hcs Hr Hlead Hs. change (b1 :: cs ++ s) with ((b1 :: cs) ++ s). apply cut_safe_app; [|done].
  intros a b E [->|(a' & c & -> & Hc)].
  { simpl in E. subst. simpl. rewrite is_cont_range by lia. zcase; simpl; lia. }
  destruct a' as [|y a']; simplify_eq/=; [destruct Hlead as [->|?]; [done|lia]|].
  rewrite Forall_forall in Hcs. specialize (Hcs c ltac:(set_solver)). unfold cont_byte in Hcs. zbool. lia.
Qed.

Lemma utf8_cut_safe s : utf8_valid s = true -> cut_safe s.
Proof.
  remember (length s) as n eqn:Hn. assert (length s <= n)%nat as Hle by lia. clear Hn. revert s Hle.
  induction n as [|n IH]; intros s Hle Hv; destruct s as [|b1 s1]; simpl in Hle; try lia.
  1, 2: apply cut_safe_nil.
  cbn [utf8_valid] in Hv. destruct ((0 <=? b1) && (b1 <=? 127)) eqn:E1.
  { zbool. apply (cut_safe_char b1 []); [done|lia|by left|]. apply IH; [lia|done]. }
  destruct s1 as [|b2 s2]; [done|]. cbn [length] in Hle.
  destruct ((194 <=? b1) && (b1 <=? 223)) eqn:E2.
  { apply andb_true_iff in Hv as [? ?]. zbool.
    apply (cut_safe_char b1 [b2]); [by repeat constructor|lia|right; lia|]. apply IH; [lia|done]. }
  destruct s2 as [|b3 s3]; [done|]. cbn [length] in Hle.
  destruct ((224 <=? b1) && (b1 <=? 239)) eqn:E3.
  { rewrite !andb_true_iff in Hv. destruct Hv as [[[[? ?] _] _] ?]. zbool.
    apply (cut_safe_char b1 [b2; b3]); [by repeat constructor|lia|right; lia|]. apply IH; [lia|done]. }
  destruct s3 as [|b4 s4]; [done|]. cbn [length] in Hle.
  rewrite !andb_true_iff in Hv. destruct Hv as [[[[[[[? ?] ?] ?] ?] _] _] ?]. zbool.
  apply (cut_safe_char b1 [b2; b3; b4]); [by repeat constructor|lia|right; lia|]. apply IH; [lia|done].
Qed.

Lemma boundary_at a b : head_ok b -> is_char_boundary (a ++ b) (length a) = true.
Proof.
  intros Hh. unfold is_char_boundary. case_match; [done|].
  destruct b as [|x b].
  - rewrite app_nil_r. rewrite lookup_ge_None_2 by lia. by rewrite Nat.eqb_refl.
  - rewrite lookup_app_r, Nat.sub_diag by lia. simpl in *. by rewrite Hh.
Qed.

Lemma boundary_below_at s e : is_char_boundary s e = true -> boundary_below s e = e.
Proof. destruct e; [done|]. cbn [boundary_below]. by intros ->. Qed.

Lemma boundary_above_at s gap i : is_char_boundary s i = true -> boundary_above s gap i = i.
Proof. destruct gap; [done|]. cbn [boundary_above]. by intros ->. Qed.

Lemma slice_to_at a b : head_ok b -> safe_slice_to (a ++ b) (length a) = a.
Proof.
  intros Hh. unfold safe_slice_to. rewrite length_app, Nat.min_l by lia.
  rewrite boundary_below_at by by apply boundary_at. by rewrite take_app_length.
Qed.

Lemma slice_from_at a b : head_ok b -> safe_slice_from (a ++ b) (length a) = b.
Proof.
  intros Hh. unfold safe_slice_from. rewrite length_app, Nat.min_l by lia.
  rewrite boundary_above_at by by apply boundary_at. by rewrite drop_app_length.
Qed.

(** ** Lemmas: tags *)

(** A tag opens with its only [<] and ends with its only [>]. *)
Definition tag_ok (t : str) : Prop := exists u, t = LT :: u ++ [GT] /\ LT ∉ u /\ GT ∉ u.

Definition mode_ok (mode : option str) : Prop :=
  match mode with Some ct => ct ∈ THINK_CLOSE_TAGS | None => True end.

Lemma known_tags_ok : Forall tag_ok (THINK_OPEN_TAGS ++ THINK_CLOSE_TAGS).
Proof.
  assert (forall u, LT ∉ u -> GT ∉ u -> tag_ok (LT :: u ++ [GT])) as H by (intros u Hu ?; by exists u).
  repeat constructor; match goal with |- tag_ok ?t =>
    let t' := eval vm_compute in (removelast (tail t)) in apply (H t'); vm_compute; set_solver end.
Qed.

Lemma tags_of_ok mode t : mode_ok mode -> t ∈ tags_of mode -> tag_ok t.
Proof.
  pose proof known_tags_ok as H. apply Forall_app in H as [Ho Hc]. rewrite Forall_forall in Ho, Hc.
  destruct mode as [ct|]; simpl; [|auto]. intros Hct ->%list_elem_of_singleton. auto.
Qed.

Lemma next_mode_ok mode t : mode_ok mode -> t ∈ tags_of mode -> mode_ok (next_mode mode t).
Proof.
  destruct mode as [ct|]; [done|]. intros _ Ht. revert t Ht.
  apply (proj1 (Forall_forall (fun t => mode_ok (next_mode None t)) (tags_of None))).
  repeat constructor; vm_compute; set_solver.
Qed.

(** No tag of a set is a prefix of another one. *)
Lemma tags_prefix_free mode t t' s :
  t ∈ tags_of mode -> t' ∈ tags_of mode -> starts_ic t s = true -> starts_ic t' s = true -> t = t'.
Proof.
  destruct mode as [ct|]; [by intros ->%list_elem_of_singleton ->%list_elem_of_singleton|].
  intros Ht Ht' H H'.
  assert (Forall (fun t => Forall (fun t' => starts_ic t t' = true -> t = t') (tags_of None)) (tags_of None))
    as Hpf by (apply (bool_decide_unpack _); vm_compute; exact I).
  assert (forall t t', t ∈ tags_of None -> t' ∈ tags_of None -> starts_ic t t' = true -> t = t') as Huse.
  { intros u u' Hu Hu'. rewrite Forall_forall in Hpf. specialize (Hpf u Hu). rewrite Forall_forall in Hpf. auto. }
  apply starts_ic_spec in H as (m & r & -> & Hm), H' as (m' & r' & E & Hm').
  assert (length m = length t /\ length m' = length t') as [Hl Hl'].
  { apply (f_equal length) in Hm, Hm'. by rewrite !length_fmap in *. }
  apply app_eq_inv in E as [(k & -> & ->)|(k & -> & ->)].
  - symmetry. apply Huse; [done..|]. apply starts_ic_spec. rewrite fmap_app in Hm.
    exists (take (length t') t), (drop (length t') t). rewrite take_drop. split; [done|].
    rewrite <- Hm'. rewrite fmap_take, <- Hm, take_app_length'; [done|]. by rewrite length_fmap.
  - apply Huse; [done..|]. apply starts_ic_spec. rewrite fmap_app in Hm'.
    exists (take (length t) t'), (drop (length t) t'). rewrite take_drop. split; [done|].
    rewrite <- Hm. rewrite fmap_take, <- Hm', take_app_length'; [done|]. by rewrite length_fmap.
Qed.

Lemma find_tag_None (tags : list str) s :
  List.find (fun t => starts_ic t s) tags = None <-> forall t, t ∈ tags -> starts_ic t s = false.
Proof.
  split.
  - intros H t Ht. eapply find_none in H; [done|]. by apply list_elem_of_In.
  - intros H. destruct (List.find _ _) as [t|] eqn:E; [|done]. apply find_some in E as [Hin E].
    apply list_elem_of_In in Hin. rewrite H in E; done.
Qed.

Lemma first_tag_None tags s :
  first_tag tags s = None <-> forall a b t, s = a ++ b -> t ∈ tags -> starts_ic t b = false.
Proof.
  induction s as [|x s IH]; cbn [first_tag].
  - destruct (List.find _ _) as [t|] eqn:E.
    + split; [done|]. intros H. apply find_some in E as [Hin E]. apply list_elem_of_In in Hin.
      rewrite (H [] [] t) in E; done.
    + rewrite find_tag_None in E. split; [|done]. intros _ a b t Hab Ht. destruct a, b; try done. auto.
  - destruct (List.find _ _) as [t|] eqn:E.
    + split; [done|]. intros H. apply find_some in E as [Hin E]. apply list_elem_of_In in Hin.
      rewrite (H [] (x :: s) t) in E; done.
    + rewrite find_tag_None in E. rewrite fmap_None, IH. split.
      * intros H a b t Hab Ht. destruct a as [|y a]; simplify_eq/=; eauto.
      * intros H a b t -> Ht. by apply (H (x :: a) b t).
Qed.

(** The first tag of a text: nothing starts before it. *)
Definition first_at (tags : list str) (a m b t : str) : Prop :=
  lower <$> m = lower <$> t /\ t ∈ tags
  /\ forall a1 a2 t', a = a1 ++ a2 -> a2 <> [] -> t' ∈ tags -> starts_ic t' (a2 ++ m ++ b) = false.

Lemma first_tag_Some tags s p t :
  first_tag tags s = Some (p, t) ->
  exists a m b, s = a ++ m ++ b /\ p = length a /\ first_at tags a m b t.
Proof.
  revert p. induction s as [|x s IH]; intros p; cbn [first_tag]; destruct (List.find _ _) as [u|] eqn:E.
  1, 3: intros [= <- ->]; apply find_some in E as [Hin E]; apply list_elem_of_In in Hin;
    apply starts_ic_spec in E as (m & r & E & Hm); exists [], m, r; split_and!; [done..|];
    split_and!; [done..|]; intros a1 a2 t' Hnil; by destruct a1, a2.
  - done.
  - destruct (first_tag tags s) as [[p' t']|]; [|done]. simpl. intros [= <- ->].
    destruct (IH p' eq_refl) as (a & m & b & -> & -> & Hm & Ht & Hfst).
    exists (x :: a), m, b. split_and!; [done..|]. split_and!; [done..|].
    intros [|y a1] a2 t' Ha Hne Ht'; simplify_eq/=; [|eauto].
    rewrite find_tag_None in E. auto.
Qed.

Lemma first_tag_at mode a m b t :
  first_at (tags_of mode) a m b t -> first_tag (tags_of mode) (a ++ m ++ b) = Some (length a, t).
Proof.
  intros (Hm & Ht & Hfst). induction a as [|x a IH].
  - assert (starts_ic t (m ++ b) = true) as Hs by (apply starts_ic_spec; eauto).
    assert (List.find (fun t => starts_ic t (m ++ b)) (tags_of mode) = Some t) as Hf.
    { destruct (List.find _ _) as [u|] eqn:E.
      - apply find_some in E as [Hin E]. apply list_elem_of_In in Hin. f_equal.
        by apply (tags_prefix_free mode _ _ (m ++ b)).
      - rewrite find_tag_None in E. rewrite E in Hs; done. }
    simpl. by destruct (m ++ b); cbn [first_tag]; rewrite Hf.
  - cbn [app first_tag]. rewrite (proj2 (find_tag_None _ _)).
    + rewrite IH; [done|]. intros a1 a2 t' Ha. apply (Hfst (x :: a1)). by rewrite Ha.
    + intros t' Ht'. by apply (Hfst [] (x :: a)).
Qed.

Lemma tag_match_shape m t :
  tag_ok t -> lower <$> m = lower <$> t -> tag_ok m.
Proof.
  intros (u & -> & Hu & Hu') Hm. destruct m as [|x m]; csimpl in Hm; [done|].
  injection Hm as Hx Hm. apply lower_lt in Hx as ->.
  rewrite fmap_app in Hm. apply fmap_app_inv in Hm as (v & w & Hv & Hw & ->).
  destruct w as [|g [|]]; csimpl in Hw; try done. injection Hw as Hg. symmetry in Hg. apply lower_gt in Hg as ->.
  assert (forall c, lower c = c -> (forall y, lower y = c -> y = c) -> c ∉ u -> c ∉ v) as Hno.
  { intros c Hc Hinj Hcu Hin. apply Hcu.
    assert (lower c ∈ lower <$> v) as H by (by apply list_elem_of_fmap_2). rewrite <- Hv, Hc in H.
    apply list_elem_of_fmap_1 in H as (y & Hy & Hyu). by rewrite <- (Hinj y (eq_sym Hy)). }
  exists v. split_and!; [done|..]; apply Hno; try done; intros y; [apply lower_lt|apply lower_gt].
Qed.

(** More text behind does not change the first tag. *)
Lemma first_at_app mode a m b t x :
  mode_ok mode -> first_at (tags_of mode) a m b t -> first_at (tags_of mode) a m (b ++ x) t.
Proof.
  intros Hmode (Hm & Ht & Hfst). split_and!; [done..|]. intros a1 a2 t' Ha Hne Ht'.
  apply not_true_is_false. intros Hs. apply starts_ic_spec in Hs as (m' & r & E & Hm').
  destruct (tag_match_shape m t (tags_of_ok mode t Hmode Ht) Hm) as (u & -> & _).
  destruct (tag_match_shape m' t' (tags_of_ok mode t' Hmode Ht') Hm') as (u' & -> & Hu' & _).
  replace (a2 ++ (LT :: u ++ [GT]) ++ b ++ x) with ((a2 ++ (LT :: u ++ [GT]) ++ b) ++ x) in E
    by by rewrite <- !app_assoc.
  apply app_eq_inv in E as [(k & E & ->)|(k & E & ->)].
  - assert (starts_ic t' (a2 ++ (LT :: u ++ [GT]) ++ b) = true) as H; [|by rewrite (Hfst a1) in H].
    rewrite E. apply starts_ic_spec. eauto.
  - destruct a2 as [|y a2]; [done|]. injection E as _ E.
    assert (LT ∈ u' ++ [GT]) as [H|H]%elem_of_app; [rewrite E; set_solver|done|set_solver].
Qed.

(** The tags of [mode] that start in a text and may end behind it. *)
Definition partial_tag (mode : option str) (tail : str) : Prop :=
  exists t w, t ∈ tags_of mode /\ lower <$> t = (lower <$> tail) ++ w.

Lemma no_start_before mode (a c : str) t x :
  first_tag (tags_of mode) (a ++ c) = None -> t ∈ tags_of mode ->
  starts_ic t (c ++ x) = true -> partial_tag mode c.
Proof.
  intros Hno Ht Hs. apply starts_ic_spec in Hs as (m & r & E & Hm).
  apply app_eq_inv in E as [(k & -> & ->)|(k & -> & ->)].
  - rewrite first_tag_None in Hno. specialize (Hno a (m ++ k) t eq_refl Ht).
    assert (starts_ic t (m ++ k) = true) as H by (apply starts_ic_spec; eauto). by rewrite Hno in H.
  - exists t, (lower <$> k). by rewrite <- Hm, fmap_app.
Qed.

(** Text with no tag and no beginning of one can be given away. *)
Lemma first_tag_skip mode (a c x : str) :
  first_tag (tags_of mode) (a ++ c) = None ->
  (forall a1 a2, a = a1 ++ a2 -> a2 <> [] -> ~ partial_tag mode (a2 ++ c)) ->
  first_tag (tags_of mode) (a ++ c ++ x)
  = (fun '(p, t) => (length a + p, t)%nat) <$> first_tag (tags_of mode) (c ++ x).
Proof.
  intros Hno Hpart. induction a as [|y a IH].
  { simpl. by destruct (first_tag _ (c ++ x)) as [[p t]|]. }
  cbn [app first_tag]. rewrite (proj2 (find_tag_None _ _)).
  - rewrite IH.
    + by destruct (first_tag _ (c ++ x)) as [[p t]|].
    + rewrite first_tag_None in *. intros a1 b t E. apply (Hno (y :: a1)). by simpl; rewrite E.
    + intros a1 a2 E. apply (Hpart (y :: a1)). by rewrite E.
  - intros t Ht. apply not_true_is_false. intros Hs. apply (Hpart [] (y :: a)); [done..|].
    apply (no_start_before mode [] (y :: a ++ c) t x); [done..|].
    simpl. by rewrite <- app_assoc.
Qed.

Lemma first_tag_lt mode s p t :
  mode_ok mode -> first_tag (tags_of mode) s = Some (p, t) ->
  (p + length t <= length s)%nat /\ (0 < length t)%nat /\ t ∈ tags_of mode.
Proof.
  intros Hmode (a & m & b & -> & -> & Hm & Ht & _)%first_tag_Some.
  destruct (tags_of_ok mode t Hmode Ht) as (u & -> & _).
  apply (f_equal length) in Hm. rewrite !length_fmap in Hm. rewrite !length_app. simpl in *.
  split_and!; [lia..|done].
Qed.

Lemma segs_fuel f mode s :
  mode_ok mode -> (length s < f)%nat -> segs f mode s = segments mode s.
Proof.
  unfold segments. revert mode s.
  enough (forall f g mode s, mode_ok mode -> (length s < f)%nat -> (length s < g)%nat ->
    segs f mode s = segs g mode s) as H by (intros; apply H; [done|lia..]).
  clear f. induction f as [|f IH]; intros g mode s Hmode Hf Hg; [lia|]. destruct g as [|g]; [lia|].
  cbn [segs]. destruct (first_tag _ s) as [[p t]|] eqn:E; [|done].
  destruct (first_tag_lt _ _ _ _ Hmode E) as (H1 & H2 & H3). f_equal.
  apply IH; [by apply next_mode_ok|rewrite length_drop; lia..].
Qed.

Lemma segments_unfold mode s :
  mode_ok mode ->
  segments mode s = match first_tag (tags_of mode) s with
                    | None => [(is_block mode, s)]
                    | Some (p, t) => (is_block mode, take p s)
                                     :: segments (next_mode mode t) (drop (p + length t) s)
                    end.
Proof.
  intros Hmode. unfold segments at 1. cbn [segs].
  destruct (first_tag _ s) as [[p t]|] eqn:E; [|done].
  destruct (first_tag_lt _ _ _ _ Hmode E) as (H1 & H2 & H3). f_equal.
  apply segs_fuel; [by apply next_mode_ok|rewrite length_drop; lia].
Qed.

(** The segments of a text that starts with a segment and its tag. *)
Lemma segments_tag mode a m b t x :
  mode_ok mode -> first_at (tags_of mode) a m b t ->
  segments mode ((a ++ m ++ b) ++ x) = (is_block mode, a) :: segments (next_mode mode t) (b ++ x).
Proof.
  intros Hmode Hfst. rewrite <- !app_assoc. rewrite segments_unfold by done.
  rewrite (first_tag_at mode a m (b ++ x) t) by by apply first_at_app.
  assert (length m = length t) as Hl.
  { destruct Hfst as (Hm & _). apply (f_equal length) in Hm. by rewrite !length_fmap in Hm. }
  rewrite take_app_length. do 2 f_equal. rewrite app_assoc, drop_app_length'; [done|].
  rewrite length_app. lia.
Qed.

Definition prepend (a : str) (l : list (bool * str)) : list (bool * str) :=
  match l with (k, x) :: l' => (k, a ++ x) :: l' | [] => [] end.

Lemma segments_skip mode (a c x : str) :
  mode_ok mode -> first_tag (tags_of mode) (a ++ c) = None ->
  (forall a1 a2, a = a1 ++ a2 -> a2 <> [] -> ~ partial_tag mode (a2 ++ c)) ->
  segments mode (a ++ c ++ x) = prepend a (segments mode (c ++ x)).
Proof.
  intros Hmode Hno Hpart. rewrite !(segments_unfold mode) by done. rewrite first_tag_skip by done.
  destruct (first_tag _ (c ++ x)) as [[p t]|]; simpl; [|done].
  rewrite take_app, take_ge by lia. rewrite drop_app, drop_ge by lia. simpl.
  repeat f_equal; lia.
Qed.

(** ** Lemmas: the searches of the source find the first tag *)

Lemma window_short s n : (length s < length n)%nat -> window_position s n = None.
Proof. intros H. destruct s; cbn [window_position]; by rewrite (proj2 (Nat.ltb_lt _ _) H). Qed.

Lemma find_ic_eq s n :
  n <> [] ->
  find_ignore_ascii_case s n
  = if starts_ic n s then Some 0%nat
    else match s with [] => None | _ :: s' => S <$> find_ignore_ascii_case s' n end.
Proof.
  intros Hn.
  assert (forall s, find_ignore_ascii_case s n = window_position s n) as Hw.
  { intros s0. unfold find_ignore_ascii_case. destruct n as [|x n]; [done|].
    destruct (Nat.ltb_spec (length s0) (length (x :: n))); [by rewrite window_short|done]. }
  rewrite !Hw. unfold starts_ic.
  destruct (Nat.ltb_spec (length s) (length n)) as [Hlt|Hge].
  - rewrite window_short, (proj2 (Nat.leb_gt _ _) Hlt) by done. simpl.
    destruct s as [|y s]; [done|]. rewrite Hw, window_short; [done|]. simpl in Hlt. lia.
  - rewrite (proj2 (Nat.leb_le _ _) Hge). simpl.
    destruct s as [|y s]; cbn [window_position]; rewrite (proj2 (Nat.ltb_ge _ _) Hge); [done|]. by rewrite Hw.
Qed.

Lemma earliest_zero tags s t :
  Forall (fun t => t <> []) tags -> List.find (fun t => starts_ic t s) tags = Some t ->
  find_earliest_tag s tags = Some (0%nat, t).
Proof.
  unfold find_earliest_tag. intros Hne. induction Hne as [|u tags Hu Hne IH]; intros E; simpl in E; [done|].
  csimpl. rewrite find_ic_eq by done. destruct (starts_ic u s).
  - simplify_eq/=. by destruct (min_by_pos _) as [[[|q] v]|].
  - specialize (IH E). destruct s as [|y s]; csimpl; [done|].
    destruct (find_ignore_ascii_case s u); csimpl; [|done]. by rewrite IH.
Qed.

Lemma min_by_pos_shift l :
  min_by_pos ((fun '(p, t) => (S p, t)) <$> l) = (fun '(p, t) => (S p, t)) <$> min_by_pos l.
Proof.
  induction l as [|[p t] l IH]; [done|]. csimpl. rewrite IH.
  destruct (min_by_pos l) as [[q u]|]; simpl; [|done]. change (S q <? S p)%nat with (q <? p)%nat.
  by destruct (q <? p)%nat.
Qed.

Lemma find_earliest_first tags s :
  Forall (fun t => t <> []) tags -> find_earliest_tag s tags = first_tag tags s.
Proof.
  intros Hne. induction s as [|x s IH]; cbn [first_tag];
    destruct (List.find (fun t => starts_ic t _) tags) as [t|] eqn:E; try by apply earliest_zero.
  1, 2: unfold find_earliest_tag in *.
  - clear -E Hne. induction Hne as [|u tags Hu Hne IHt]; [done|]. csimpl. simpl in E.
    rewrite find_ic_eq by done. destruct (starts_ic u []); [done|]. simpl. auto.
  - rewrite <- IH. clear IH. rewrite <- min_by_pos_shift. f_equal. clear -E Hne.
    induction Hne as [|u tags Hu Hne IHt]; [done|]. csimpl. simpl in E.
    rewrite find_ic_eq by done. destruct (starts_ic u (x :: s)); [done|].
    destruct (find_ignore_ascii_case s u); csimpl; rewrite IHt by done; done.
Qed.

Lemma find_ic_first s ct : ct <> [] -> find_ignore_ascii_case s ct = fst <$> first_tag [ct] s.
Proof.
  intros Hct. induction s as [|x s IH]; rewrite find_ic_eq by done; cbn [first_tag List.find];
    destruct (starts_ic ct _); try done.
  rewrite IH. by destruct (first_tag [ct] s) as [[p t]|].
Qed.

Lemma split_search_spec ok input n :
  (n <= length input)%nat ->
  let k := split_search ok input n in
  (k <= length input)%nat
  /\ (k = length input \/ (k < length input)%nat /\ ok (drop k input) = true)
  /\ forall i, (length input - n <= i < k)%nat ->
       is_char_boundary input i && ok (drop i input) = false.
Proof.
  induction n as [|n IH]; intros Hn; cbn [split_search].
  { split_and!; [lia|by left|lia]. }
  case_match eqn:E.
  - apply andb_true_iff in E as [_ E]. split_and!; [lia|right; split; [lia|done]|lia].
  - destruct (IH ltac:(lia)) as (H1 & H2 & H3). split_and!; [done..|].
    intros i Hi. destruct (decide (i = length input - S n)%nat) as [->|]; [done|]. apply H3. lia.
Qed.

Lemma partial_open_ok tail : is_partial_open_tag_tail tail = true <-> partial_tag None tail.
Proof.
  unfold is_partial_open_tag_tail, partial_tag. rewrite existsb_exists. split.
  - intros (t & Hin & H). apply list_elem_of_In in Hin. exists t. apply orb_true_iff in H as [H|H].
    + apply bool_decide_eq_true in H as [w ->]. exists (lower <$> w). by rewrite fmap_app.
    + apply andb_true_iff in H as [_ H]. apply eq_ic_spec in H. exists (lower <$> drop (length tail) t).
      split; [done|]. by rewrite <- H, <- fmap_app, take_drop.
  - intros (t & w & Hin & H). apply list_elem_of_In in Hin. exists t. split; [done|]. apply orb_true_iff. right.
    assert (length tail <= length t)%nat as Hl.
    { apply (f_equal length) in H. rewrite length_app, !length_fmap in H. lia. }
    apply andb_true_iff. split; [by apply Nat.leb_le|]. apply eq_ic_spec.
    rewrite fmap_take, H, take_app_length'; [done|]. by rewrite length_fmap.
Qed.

Lemma partial_close_ok ct tail :
  eq_ignore_ascii_case (take (length tail) ct) tail = true <-> partial_tag (Some ct) tail.
Proof.
  unfold partial_tag. simpl. rewrite eq_ic_spec. split.
  - intros H. exists ct, (lower <$> drop (length tail) ct). split; [set_solver|].
    by rewrite <- H, <- fmap_app, take_drop.
  - intros (t & w & ->%list_elem_of_singleton & H).
    rewrite fmap_take, H, take_app_length'; [done|]. by rewrite length_fmap.
Qed.

Lemma partial_head mode tail :
  mode_ok mode -> partial_tag mode tail -> tail <> [] -> exists tail', tail = LT :: tail'.
Proof.
  intros Hmode (t & w & Ht & H) Hne. destruct (tags_of_ok _ _ Hmode Ht) as (u & -> & _).
  destruct tail as [|x tail]; [done|]. csimpl in H. injection H as Hx _. symmetry in Hx.
  apply lower_lt in Hx as ->. eauto.
Qed.

(** What a split point cuts off: text that holds no tag and no beginning of
    one, before a tail that is held back. *)
Lemma split_point_safe mode ok n input :
  mode_ok mode -> (forall tail, ok tail = true <-> partial_tag mode tail) ->
  (forall t, t ∈ tags_of mode -> (length t <= S n)%nat) ->
  first_tag (tags_of mode) input = None ->
  exists a c, input = a ++ c /\ head_ok c
    /\ (if negb (contains_byte LT input) then length input
        else split_search ok input (Nat.min n (length input))) = length a
    /\ forall a1 a2, a = a1 ++ a2 -> a2 <> [] -> ~ partial_tag mode (a2 ++ c).
Proof.
  intros Hmode Hok Hn Hno. destruct (contains_byte LT input) eqn:Hlt; simpl.
  - destruct (split_search_spec ok input (Nat.min n (length input)) ltac:(lia)) as (H1 & H2 & H3).
    set (k := split_search ok input _) in *.
    exists (take k input), (drop k input). rewrite take_drop, length_take_le by done.
    split_and!; [done| |done|].
    + destruct H2 as [->|[Hk H2]]; [by rewrite drop_all|].
      apply Hok in H2. destruct (partial_head mode _ Hmode H2) as (tail & ->); [|done].
      intros E. apply (f_equal length) in E. rewrite length_drop in E. simpl in E. lia.
    + intros a1 a2 Ha Hne Hpart.
      assert (input = a1 ++ a2 ++ drop k input) as Hin by (rewrite app_assoc, <- Ha; by rewrite take_drop).
      set (tail := a2 ++ drop k input) in *.
      assert (length a1 + length a2 = k)%nat as Hlen.
      { rewrite <- length_app, <- Ha, length_take_le by done. done. }
      assert (0 < length a2)%nat by (destruct a2; simpl; [done|lia]).
      destruct (partial_head mode tail Hmode Hpart) as (tl & Htl); [by destruct a2|].
      assert (drop (length a1) input = tail) as Hdrop by (rewrite Hin; by rewrite drop_app_length).
      assert (length tail <= n)%nat as Htn.
      { destruct Hpart as (t & w & Ht & Hw). specialize (Hn t Ht).
        assert (length t = length tail + length w)%nat as Hl.
        { apply (f_equal length) in Hw. by rewrite length_app, !length_fmap in Hw. }
        destruct w as [|? w]; [|simpl in Hl; lia]. exfalso. rewrite first_tag_None in Hno.
        specialize (Hno a1 tail t Hin Ht). assert (starts_ic t tail = true) as Hs; [|by rewrite Hno in Hs].
        apply starts_ic_spec. exists tail, []. rewrite app_nil_r in *. split; [done|by rewrite Hw]. }
      assert (length input = length a1 + length tail)%nat as Hli by (rewrite Hin at 1; by rewrite length_app).
      specialize (H3 (length a1) ltac:(lia)). rewrite Hdrop in H3.
      rewrite (proj2 (Hok tail) Hpart), andb_true_r in H3. rewrite Hin, boundary_at in H3; [done|by rewrite Htl].
  - exists input, []. rewrite app_nil_r. split_and!; [done..|].
    intros a1 a2 Ha Hne Hpart. rewrite app_nil_r in Hpart.
    destruct (partial_head mode a2 Hmode Hpart Hne) as (tl & ->).
    assert (contains_byte LT input = true); [|congruence].
    rewrite Ha. unfold contains_byte. by rewrite existsb_app, orb_true_r.
Qed.

(** ** Lemmas: one pass over the input *)

Lemma joined_cons k k' a l : joined k ((k', a) :: l) = (if Bool.eqb k' k then a else []) ++ joined k l.
Proof. unfold joined, texts. rewrite filter_cons. simpl. by destruct k, k'. Qed.

Lemma no_stray_cons k a l :
  no_stray_close ((k, a) :: l)
  <-> (k = false -> first_tag THINK_CLOSE_TAGS a = None) /\ no_stray_close l.
Proof.
  unfold no_stray_close, texts. rewrite filter_cons. simpl. destruct k; simpl.
  - naive_solver.
  - rewrite Forall_cons. naive_solver.
Qed.

Lemma first_tag_None_app tags (a b : str) :
  first_tag tags (a ++ b) = None -> first_tag tags a = None /\ first_tag tags b = None.
Proof.
  rewrite !first_tag_None. intros H. split.
  - intros a1 a2 t -> Ht. apply not_true_is_false. intros (m & r & -> & Hm)%starts_ic_spec.
    assert (starts_ic t ((m ++ r) ++ b) = true) as Hs.
    { apply starts_ic_spec. exists m, (r ++ b). by rewrite app_assoc. }
    rewrite (H a1 _ t) in Hs; [done|by rewrite !app_assoc|done].
  - intros b1 b2 t -> Ht. by apply (H (a ++ b1) b2 t); [rewrite app_assoc|].
Qed.

Lemma strip_no_close x : first_tag THINK_CLOSE_TAGS x = None -> strip_orphaned_close_tags x = x.
Proof.
  intros Hno. assert (forall c o f, c ∈ THINK_CLOSE_TAGS -> strip_close_tag f o c x = x) as Hid.
  { intros c o [|f] Hc; cbn [strip_close_tag]; [done|].
    rewrite find_ic_first.
    - assert (first_tag [c] x = None) as ->; [|done]. rewrite first_tag_None in *.
      intros a b t E ->%list_elem_of_singleton. eauto.
    - intros ->. pose proof known_tags_ok as H. apply Forall_app in H as [_ H]. rewrite Forall_forall in H.
      destruct (H [] Hc) as (u & ? & _). done. }
  unfold strip_orphaned_close_tags. case_match; [done|].
  unfold THINK_OPEN_TAGS, THINK_CLOSE_TAGS. cbn [zip zip_with foldl fmap list_fmap fst snd].
  rewrite !Hid; [done|..]; apply list_elem_of_In; simpl; tauto.
Qed.

(** A pass over [input] in [mode] that gave [c] and [r] and keeps [buf]:
    whatever text [x] follows, [c] and [r] are what the segments start with
    and the rest is read from [buf] on. *)
Definition pass_ok (mode : option str) (input : str) (mode' : option str) (buf c r : str) : Prop :=
  mode_ok mode' /\ cut_safe buf /\ first_tag (tags_of mode') buf = None /\ forall x,
    let l := segments mode (input ++ x) in
    let l' := segments mode' (buf ++ x) in
    joined true l = r ++ joined true l'
    /\ (no_stray_close l -> joined false l = c ++ joined false l' /\ no_stray_close l').

Lemma pass_split mode (a c : str) :
  mode_ok mode -> cut_safe (a ++ c) -> head_ok c -> first_tag (tags_of mode) (a ++ c) = None ->
  (forall a1 a2, a = a1 ++ a2 -> a2 <> [] -> ~ partial_tag mode (a2 ++ c)) ->
  pass_ok mode (a ++ c) mode c
    (if is_block mode then [] else strip_orphaned_close_tags a) (if is_block mode then a else []).
Proof.
  intros Hmode Hcut Hh Hno Hpart.
  split_and!; [done|by apply (cut_safe_suffix a)|by eapply first_tag_None_app|]. intros x. simpl.
  rewrite <- app_assoc. rewrite segments_skip by done.
  rewrite (segments_unfold mode (c ++ x)) by done.
  assert (forall (y : str) l, let l0 := (is_block mode, a ++ y) :: l in let l1 := (is_block mode, y) :: l in
    joined true l0 = (if is_block mode then a else []) ++ joined true l1
    /\ (no_stray_close l0 -> joined false l0
        = (if is_block mode then [] else strip_orphaned_close_tags a) ++ joined false l1 /\ no_stray_close l1))
    as Hgen.
  { intros y l. simpl. rewrite !joined_cons, !no_stray_cons. destruct (is_block mode); simpl.
    - rewrite <- app_assoc. naive_solver.
    - split; [done|]. intros [H1 H2]. destruct (first_tag_None_app _ _ _ (H1 eq_refl)).
      rewrite strip_no_close by done. rewrite <- app_assoc. naive_solver. }
  destruct (first_tag (tags_of mode) (c ++ x)) as [[p t]|]; simpl; apply Hgen.
Qed.

Lemma pass_tag mode a m b t mode' buf c r :
  mode_ok mode -> first_at (tags_of mode) a m b t ->
  pass_ok (next_mode mode t) b mode' buf c r ->
  pass_ok mode (a ++ m ++ b) mode' buf
    ((if is_block mode then [] else a) ++ c) ((if is_block mode then a else []) ++ r).
Proof.
  intros Hmode Hfst (H1 & H2 & H0 & H3). split_and!; [done..|]. intros x. simpl.
  rewrite (segments_tag mode a m b t x) by done. destruct (H3 x) as [H4 H5].
  rewrite !joined_cons, no_stray_cons, H4. destruct (is_block mode); simpl.
  - rewrite <- app_assoc. split; [done|]. intros [_ H]. by apply H5.
  - split; [done|]. intros [_ H]. destruct (H5 H) as [-> ?]. by rewrite <- app_assoc.
Qed.

(** Nothing is left behind the tag. *)
Lemma pass_nil mode : mode_ok mode -> pass_ok mode [] mode [] [] [].
Proof.
  intros H. split_and!; [done|apply cut_safe_nil| |done]. apply first_tag_None. intros a b t E Ht.
  destruct a, b; try done. destruct (tags_of_ok _ _ H Ht) as (u & -> & _). done.
Qed.

Lemma first_at_cut mode a m b t :
  mode_ok mode -> first_at (tags_of mode) a m b t -> cut_safe (a ++ m ++ b) ->
  head_ok (m ++ b) /\ cut_safe b /\ cut_safe (m ++ b) /\ length m = length t.
Proof.
  intros Hmode (Hm & Ht & _) Hcut.
  assert (length m = length t) by (apply (f_equal length) in Hm; by rewrite !length_fmap in Hm).
  destruct (tag_match_shape m t (tags_of_ok _ _ Hmode Ht) Hm) as (u & -> & _).
  assert (head_ok ((LT :: u ++ [GT]) ++ b)) as Hh by done.
  split_and!; [done| |by apply (cut_safe_suffix a)|done].
  apply (cut_safe_after (a ++ LT :: u) GT); [|unfold GT; lia].
  rewrite <- app_assoc in *. simpl in *. by rewrite <- app_assoc in Hcut.
Qed.

(** The state between deltas: inside a block exactly when a close tag is awaited. *)
Definition think_wf (self : ThinkStreamExtractor) : Prop :=
  inside_think self = is_block (close_tag self) /\ mode_ok (close_tag self).

Definition pass_of (self : ThinkStreamExtractor) (input : str)
    (out : ThinkStreamExtractor * (str * str)) : Prop :=
  think_wf out.1 /\ pass_ok (close_tag self) input (close_tag out.1) (tag_buffer out.1) out.2.1 out.2.2.

Lemma open_split_safe input :
  first_tag (tags_of None) input = None ->
  exists a c, input = a ++ c /\ head_ok c /\ find_safe_split_point input = length a
    /\ forall a1 a2, a = a1 ++ a2 -> a2 <> [] -> ~ partial_tag None (a2 ++ c).
Proof.
  intros Hno. apply (split_point_safe None is_partial_open_tag_tail 10); [done|apply partial_open_ok| |done].
  apply Forall_forall. by repeat constructor; vm_compute; repeat constructor.
Qed.

Lemma close_split_safe ct input :
  ct ∈ THINK_CLOSE_TAGS -> first_tag [ct] input = None ->
  exists a c, input = a ++ c /\ head_ok c /\ find_safe_split_point_close input ct = length a
    /\ forall a1 a2, a = a1 ++ a2 -> a2 <> [] -> ~ partial_tag (Some ct) (a2 ++ c).
Proof.
  intros Hct Hno. apply (split_point_safe (Some ct)); [done|apply partial_close_ok| |done].
  intros t ->%list_elem_of_singleton. lia.
Qed.

Lemma close_tag_known t : t ∈ THINK_OPEN_TAGS -> exists ct, close_tag_of t = Some ct.
Proof.
  revert t. apply (proj1 (Forall_forall (fun t => exists ct, close_tag_of t = Some ct) THINK_OPEN_TAGS)).
  by repeat constructor; eexists; vm_compute.
Qed.

Definition passes_with (side : bool) (f : nat)
    (run : ThinkStreamExtractor -> str -> ThinkStreamExtractor * (str * str)) : Prop :=
  forall self input, think_wf self -> inside_think self = side -> tag_buffer self = [] ->
    cut_safe input -> (length input < f)%nat -> pass_of self input (run self input).

Lemma outside_pass f :
  passes_with true f (process_inside_think f) -> passes_with false (S f) (process_outside_think (S f)).
Proof.
  intros IHi [ins buf ct] input [Hins Hmode] Hside Hbuf Hcut Hlen; simpl in Hins, Hmode, Hside, Hbuf; subst buf ins.
  destruct ct as [ct|]; [done|]. cbn [process_outside_think].
  rewrite find_earliest_first by (repeat constructor; by vm_compute).
  destruct (first_tag THINK_OPEN_TAGS input) as [[p t]|] eqn:E.
  - pose proof (first_tag_lt None _ _ _ Hmode E) as (_ & Hpos & Ht).
    apply (first_tag_Some (tags_of None)) in E as (a & m & b & -> & -> & Hfst).
    destruct (first_at_cut None a m b t Hmode Hfst Hcut) as (Hh & Hb & _ & Hl).
    rewrite slice_to_at, slice_from_at by done.
    rewrite <- Hl, (proj2 (Nat.leb_le _ _)) by (rewrite length_app; lia).
    rewrite boundary_at by by apply cut_safe_head. rewrite drop_app_length. cbn [andb tag_buffer].
    pose proof (next_mode_ok None t Hmode Ht) as Hnext.
    destruct (close_tag_known t Ht) as [ct Ect]. simpl in Hnext. rewrite Ect in *.
    destruct b as [|y b].
    { split; [done|]. simpl. rewrite <- (app_nil_r a) at 2.
      apply (pass_tag None a m [] t (Some ct) [] [] []); [done..|]. simpl. rewrite Ect. by apply pass_nil. }
    specialize (IHi (mkThink true [] (Some ct)) (y :: b)).
    destruct (process_inside_think f _ (y :: b)) as [self' [mc r]].
    destruct IHi as [Hw Hp]; [done..| |]; [rewrite !length_app in Hlen; lia|].
    split; [done|]. simpl in *. apply (pass_tag None a m (y :: b) t); [done..|]. simpl. by rewrite Ect.
  - destruct (open_split_safe input E) as (a & c & -> & Hc & -> & Hpart).
    rewrite slice_to_at, slice_from_at by done. split; [done|]. by apply (pass_split None).
Qed.

Lemma inside_pass f :
  passes_with false f (process_outside_think f) -> passes_with true (S f) (process_inside_think (S f)).
Proof.
  intros IHo [ins buf ct] input [Hins Hmode] Hside Hbuf Hcut Hlen; simpl in Hins, Hmode, Hside, Hbuf; subst buf ins.
  destruct ct as [ct|]; [|done]. cbn [process_inside_think close_tag tag_buffer].
  destruct (tags_of_ok (Some ct) ct Hmode ltac:(set_solver)) as (u & Hu & _).
  rewrite find_ic_first by by rewrite Hu. destruct (first_tag [ct] input) as [[p t]|] eqn:E; simpl.
  - apply (first_tag_Some (tags_of (Some ct))) in E as (a & m & b & -> & -> & Hfst).
    destruct (first_at_cut (Some ct) a m b t Hmode Hfst Hcut) as (Hh & Hb & _ & Hl).
    assert (t = ct) as -> by (destruct Hfst as (_ & Ht & _); by apply list_elem_of_singleton in Ht).
    rewrite slice_to_at by done. rewrite <- Hl, <- length_app, app_assoc.
    rewrite slice_from_at by by apply cut_safe_head. rewrite <- app_assoc.
    destruct b as [|y b].
    { split; [done|]. simpl. rewrite <- (app_nil_r a) at 2.
      apply (pass_tag (Some ct) a m [] ct None [] [] []); [done..|]. by apply pass_nil. }
    specialize (IHo (mkThink false [] None) (y :: b)).
    destruct (process_outside_think f _ (y :: b)) as [self' [mc mr]].
    destruct IHo as [Hw Hp]; [done..| |]; [rewrite Hu in Hl; simpl in Hl; rewrite !length_app in Hlen; lia|].
    split; [done|]. simpl in *. by apply (pass_tag (Some ct) a m (y :: b) ct).
  - destruct (close_split_safe ct input Hmode E) as (a & c & -> & Hc & -> & Hpart).
    rewrite slice_to_at, slice_from_at by done. split; [done|]. by apply (pass_split (Some ct)).
Qed.

Lemma process_passes f :
  passes_with false f (process_outside_think f) /\ passes_with true f (process_inside_think f).
Proof.
  induction f as [|f [IHo IHi]]; [split; intros ? ? ? ? ? ? ?; lia|].
  split; [by apply outside_pass|by apply inside_pass].
Qed.

(** ** Lemmas: the stream *)

(** What holds between two deltas. *)
Definition think_inv (self : ThinkStreamExtractor) : Prop :=
  think_wf self /\ cut_safe (tag_buffer self)
  /\ first_tag (tags_of (close_tag self)) (tag_buffer self) = None.

Lemma fast_pass self delta :
  think_wf self -> tag_buffer self = [] -> cut_safe delta -> contains_byte LT delta = false ->
  pass_of self delta (self, process_fast_path self delta).
Proof.
  intros [Hins Hmode] Hbuf Hcut Hlt. split; [done|]. simpl. rewrite Hbuf.
  assert (forall a b t, delta = a ++ b -> t ∈ tags_of (close_tag self) -> b <> [] -> ~ partial_tag (close_tag self) b)
    as Hpart.
  { intros a b t -> Ht Hb Hp. destruct (partial_head _ _ Hmode Hp Hb) as (tl & ->).
    unfold contains_byte in Hlt. by rewrite existsb_app, orb_true_r in Hlt. }
  destruct (pass_nil (close_tag self) Hmode) as (_ & _ & Hnil & _).
  assert (first_tag (tags_of (close_tag self)) delta = None) as Hno.
  { apply first_tag_None. intros a b t E Ht. apply not_true_is_false. intros (m & r & -> & Hm)%starts_ic_spec.
    destruct (tag_match_shape m t (tags_of_ok _ _ Hmode Ht) Hm) as (u & -> & _).
    unfold contains_byte in Hlt. by rewrite E, existsb_app, orb_true_r in Hlt. }
  assert (exists t, t ∈ tags_of (close_tag self)) as [t Ht].
  { destruct (close_tag self) as [ct|]; [exists ct; set_solver|]. eexists. by left. }
  pose proof (pass_split (close_tag self) delta [] Hmode) as H. rewrite !app_nil_r in H.
  specialize (H Hcut I Hno). unfold process_fast_path. rewrite Hins.
  assert (strip_orphaned_close_tags delta = delta) as Hstrip
    by (unfold strip_orphaned_close_tags; by rewrite Hlt).
  rewrite Hstrip in H. destruct (is_block (close_tag self)); apply H; intros a1 a2 E Hne; rewrite app_nil_r; eauto.
Qed.

Lemma process_pass self delta :
  think_inv self -> cut_safe delta ->
  let out := process self delta in
  think_inv out.1
  /\ pass_ok (close_tag self) (tag_buffer self ++ delta) (close_tag out.1) (tag_buffer out.1) out.2.1 out.2.2.
Proof.
  intros (Hwf & Hcut & Hno) Hd. simpl.
  assert (pass_of self (tag_buffer self ++ delta) (process self delta)) as [H1 H2];
    [|split; [|done]; by destruct H2 as (? & ? & ? & _)].
  unfold process. destruct delta as [|d delta].
  { split; [done|]. rewrite app_nil_r. destruct Hwf. by split_and!. }
  assert (forall input, input = tag_buffer self ++ d :: delta ->
    pass_of self input (if inside_think self
      then process_inside_think (S (length input)) (mkThink (inside_think self) [] (close_tag self)) input
      else process_outside_think (S (length input)) (mkThink (inside_think self) [] (close_tag self)) input)) as Hrun.
  { intros input ->. destruct (process_passes (S (length (tag_buffer self ++ d :: delta)))) as [Ho Hi].
    destruct (inside_think self) eqn:Ei.
    - apply (Hi (mkThink true [] (close_tag self))); [|done|done|by apply cut_safe_app|lia].
      destruct Hwf. by rewrite Ei in *.
    - apply (Ho (mkThink false [] (close_tag self))); [|done|done|by apply cut_safe_app|lia].
      destruct Hwf. by rewrite Ei in *. }
  destruct (tag_buffer self) as [|b buf] eqn:Eb; [|by apply Hrun].
  destruct (contains_byte LT (d :: delta)) eqn:Elt; [by apply Hrun|]. by apply fast_pass.
Qed.

Lemma stream_spec self deltas :
  think_inv self -> Forall (fun d => cut_safe d) deltas ->
  let l := segments (close_tag self) (tag_buffer self ++ concat deltas) in
  (stream self deltas).2 = joined true l
  /\ (no_stray_close l -> (stream self deltas).1 = joined false l).
Proof.
  intros Hinv Hd. revert self Hinv. induction Hd as [|d deltas Hd _ IH]; intros self Hinv.
  - destruct Hinv as ([Hins Hmode] & _ & Hno). simpl. rewrite app_nil_r, segments_unfold, Hno by done.
    rewrite !joined_cons. unfold flush. rewrite Hins.
    destruct (tag_buffer self), (is_block (close_tag self)); simpl; by rewrite ?app_nil_r.
  - pose proof (process_pass self d Hinv Hd) as Hp. cbn [stream concat].
    destruct (process self d) as [self' [c r]]. destruct Hp as [Hinv' (_ & _ & _ & Hp)]. simpl in Hp.
    specialize (IH self' Hinv'). destruct (stream self' deltas) as [c' r']. simpl in *.
    destruct (Hp (concat deltas)) as [H1 H2]. rewrite <- app_assoc in H1, H2. rewrite H1.
    destruct IH as [-> I2]. split; [done|]. intros Hn. destruct (H2 Hn) as [-> Hn']. by rewrite I2.
Qed.

Lemma think_new_inv : think_inv think_new.
Proof. split_and!; [done|apply cut_safe_nil|done]. Qed.

(** ** Lemmas: the whole response *)

Lemma matching_close_tag m b t :
  t ∈ THINK_OPEN_TAGS -> lower <$> m = lower <$> t ->
  find_matching_close_tag (m ++ b) = close_tag_of t.
Proof.
  intros Ht Hm. assert (starts_ic t (m ++ b) = true) as Hs by (apply starts_ic_spec; eauto).
  assert (forall o, o ∈ THINK_OPEN_TAGS -> starts_ic o (m ++ b) = eq_ignore_ascii_case t o) as Heq.
  { intros o Ho. destruct (eq_ignore_ascii_case t o) eqn:E.
    - apply eq_ic_spec in E. apply starts_ic_spec. exists m, b. by rewrite Hm.
    - apply not_true_is_false. intros Ho'. rewrite (tags_prefix_free None t o (m ++ b)) in E by done.
      by rewrite (proj2 (eq_ic_spec o o)) in E. }
  unfold starts_ic in Heq. unfold find_matching_close_tag, close_tag_of, THINK_OPEN_TAGS, THINK_CLOSE_TAGS in *.
  cbn [fmap list_fmap] in *. rewrite !Heq by (apply list_elem_of_In; simpl; tauto). done.
Qed.

Lemma find_byte_at c (u b : str) : c ∉ u -> find_byte c (u ++ c :: b) = Some (length u).
Proof.
  induction u as [|x u IH]; intros Hu; simpl; [by rewrite Z.eqb_refl|].
  destruct (Z.eqb_spec x c); [set_solver|]. by rewrite IH by set_solver.
Qed.

Lemma parse_segment_at a m b t ct :
  cut_safe (a ++ m ++ b) -> first_at (tags_of None) a m b t -> close_tag_of t = Some ct ->
  parse_think_segment (a ++ m ++ b) (length a)
  = match first_tag [ct] b with
    | Some (p, _) => (a, take p b, drop (p + length ct) b)
    | None => (a, b, [])
    end.
Proof.
  intros Hcut Hfst Ect. destruct (first_at_cut None a m b t I Hfst Hcut) as (Hh & Hb & _ & Hl).
  destruct Hfst as (Hm & Ht & _). unfold parse_think_segment.
  rewrite slice_to_at, slice_from_at by done. rewrite (matching_close_tag m b t), Ect by done.
  pose proof (next_mode_ok None t I Ht) as Hmode. simpl in Hmode. rewrite Ect in Hmode.
  destruct (tag_match_shape m t (tags_of_ok None t I Ht) Hm) as (u & Eu & _ & Hgt).
  assert (find_byte GT (m ++ b) = Some (S (length u))) as ->.
  { rewrite Eu. replace ((LT :: u ++ [GT]) ++ b) with ((LT :: u) ++ GT :: b)
      by (simpl; by rewrite <- app_assoc).
    rewrite find_byte_at; [done|]. rewrite elem_of_cons. intros [?|?]; [done|done]. }
  assert (S (S (length u)) = length m) as -> by (rewrite Eu; simpl; rewrite length_app; simpl; lia).
  rewrite slice_from_at by by apply cut_safe_head.
  destruct (tags_of_ok (Some ct) ct Hmode ltac:(set_solver)) as (u' & Hu' & _).
  rewrite find_ic_first by by rewrite Hu'. destruct (first_tag [ct] b) as [[p t']|] eqn:E; [|done].
  apply (first_tag_Some (tags_of (Some ct))) in E as (a' & m' & b' & -> & -> & Hfst').
  destruct (first_at_cut (Some ct) a' m' b' t' Hmode Hfst' Hb) as (Hh' & Hb' & _ & Hl').
  assert (t' = ct) as -> by (destruct Hfst' as (_ & Ht' & _); by apply list_elem_of_singleton in Ht').
  simpl. rewrite slice_to_at, take_app_length by done. rewrite <- Hl', <- length_app, app_assoc.
  rewrite slice_from_at by by apply cut_safe_head. by rewrite drop_app_length.
Qed.

Lemma segments_nil : segments None [] = [(false, [])].
Proof. reflexivity. Qed.

Lemma extract_loop_spec f result s :
  cut_safe s -> (length s < f)%nat ->
  extract_loop f result s
  = mkExtracted (et_content result ++ joined false (segments None s))
      (foldl append_think_segment_reasoning (et_reasoning result) (texts true (segments None s))).
Proof.
  revert result s. induction f as [|f IH]; intros result s Hcut Hlen; [lia|]. cbn [extract_loop].
  rewrite find_earliest_first by (repeat constructor; by vm_compute).
  rewrite segments_unfold by done. cbn [tags_of].
  destruct (first_tag THINK_OPEN_TAGS s) as [[p t]|] eqn:E; [|by rewrite joined_cons; simpl; rewrite app_nil_r].
  pose proof (first_tag_lt None _ _ _ I E) as (Hle & Hpos & Ht).
  apply (first_tag_Some (tags_of None)) in E as (a & m & b & -> & -> & Hfst).
  destruct (close_tag_known t Ht) as [ct Ect]. rewrite (parse_segment_at a m b t ct) by done.
  destruct (first_at_cut None a m b t I Hfst Hcut) as (_ & Hb & _ & Hl).
  rewrite take_app_length, app_assoc, drop_app_length' by (rewrite length_app; lia).
  pose proof (next_mode_ok None t I Ht) as Hmode. cbn [next_mode] in *. rewrite Ect in *.
  rewrite (segments_unfold (Some ct) b) by done. cbn [tags_of next_mode is_block].
  destruct (first_tag [ct] b) as [[q t']|] eqn:E'.
  - apply (first_tag_Some (tags_of (Some ct))) in E' as (a' & m' & b' & -> & -> & Hfst').
    destruct (first_at_cut (Some ct) a' m' b' t' Hmode Hfst' Hb) as (_ & Hb' & _ & Hl').
    assert (t' = ct) as -> by (destruct Hfst' as (_ & Ht' & _); by apply list_elem_of_singleton in Ht').
    rewrite take_app_length, app_assoc, drop_app_length' by (rewrite length_app; lia).
    rewrite IH; [|done|rewrite !length_app in *; lia]. simpl. rewrite !joined_cons. simpl.
    by rewrite <- app_assoc.
  - rewrite IH; [|apply cut_safe_nil|rewrite !length_app in *; simpl; lia].
    rewrite segments_nil, !joined_cons. simpl. by rewrite !app_nil_r.
Qed.

(** ** Properties *)

(** C6. The stream extractor does not depend on how the provider cuts its
    deltas, tags spanning any number of them included.  The reasoning it emits
    is the text of the blocks of the whole answer, whatever the answer; when no
    close tag stands outside a block the content it emits is all the text outside
    them, and nothing is lost or held back at the end.  With a stray close tag
    outside a block the content does depend on the cuts
    ([stray_close_depends_on_chunks]). *)
Theorem think_stream_chunk_invariant deltas :
  Forall (fun d => utf8_valid d = true) deltas ->
  let l := segments None (concat deltas) in
  (stream think_new deltas).2 = joined true l
  /\ (no_stray_close l -> (stream think_new deltas).1 = joined false l).
Proof.
  intros Hd. apply (stream_spec think_new deltas think_new_inv).
  eapply Forall_impl; [apply Hd|]. simpl. intros d. apply utf8_cut_safe.
Qed.

Lemma think_stream_chunk_invariant_witness :
  stream think_new (bytes_of <$> ["Hi <Th"; "INK>a<b"; "</thi"; "nk> there"; "!"]%string)
  = (bytes_of "Hi  there!", bytes_of "a<b").
Proof.
  pose proof (think_stream_chunk_invariant (bytes_of <$> ["Hi <Th"; "INK>a<b"; "</thi"; "nk> there"; "!"]%string)) as H.
  destruct H as [H1 H2]; [repeat constructor; by vm_compute|].
  apply injective_projections; [|exact H1].
  apply H2. repeat constructor; by vm_compute.
Defined.

(** The extractor for a whole response cuts the text at the same places
    as the stream extractor: its reasoning is the trimmed text of the blocks,
    one per line, and its content the text outside the blocks less stray close
    tags and leading line ends. *)
Lemma whole_response_same_blocks s :
  utf8_valid s = true ->
  let l := segments None s in
  extract_think_from_content s
  = mkExtracted (trim_start_nl (strip_orphaned_close_tags (joined false l)))
      (foldl append_think_segment_reasoning [] (texts true l)).
Proof.
  intros Hs. unfold extract_think_from_content.
  by rewrite extract_loop_spec by (apply utf8_cut_safe, Hs || lia).
Qed.

Lemma whole_response_same_blocks_witness :
  extract_think_from_content (bytes_of "<think>A</think>B<THOUGHT> C </thought>D</think>")
  = mkExtracted (bytes_of "BD") (bytes_of "A" ++ 10 :: bytes_of "C").
Proof.
  rewrite (whole_response_same_blocks (bytes_of "<think>A</think>B<THOUGHT> C </thought>D</think>"));
    vm_compute; reflexivity.
Defined.

(** A stray close tag that a chunk boundary splits reaches the client; in one
    chunk it is removed. *)
Example stray_close_depends_on_chunks :
  stream think_new (bytes_of <$> ["a</think>b"]%string) = (bytes_of "ab", [])
  /\ stream think_new (bytes_of <$> ["a</thi"; "nk>b"]%string) = (bytes_of "a</think>b", []).
Proof. by vm_compute. Qed.
