(* ===== verification/ThinkResponse.v ===== *)
(** * Reasoning in a complete response

    Models the callers of the block extractor in
    openproxy-pipeline/src/think_extractor.rs: [process_choice_think] on the
    typed message of a choice and [extract_think_from_response_value] on the
    JSON document, which keeps the fields the typed form does not know. *)

From Stdlib Require Import String.
From S2P Require Import Prelude Text Bytes ThinkExtractor.

(** [Map::insert] of serde_json, a [BTreeMap]: the keys stay sorted. *)
Fixpoint json_insert (k : string) (v : Json) (m : list (string * Json)) : list (string * Json) :=
  match m with
  | [] => [(k, v)]
  | (k', v') :: m' =>
      if String.eqb k' k then (k, v) :: m'
      else if String.ltb k k' then (k, v) :: m
      else (k', v') :: json_insert k v m'
  end.

(** The fields of an assistant message the extraction reads and writes. *)
Record ChoiceMessage := mkChoiceMessage {
  cm_role : string;
  cm_content : option Json;
  cm_extra : list (string * Json)
}.

Definition BLOCKED : string := "DANGEROUS_ACTIVITY_BLOCKED".
Definition PROCESSED : string := "Task processed successfully.".

Definition non_empty (s : string) : bool := negb (String.eqb s "").

(** [.get(k).and_then(|v| v.as_str()).unwrap_or("")]. *)
Definition str_or_empty (k : string) (m : list (string * Json)) : string :=
  match assoc_get k m with Some v => default ""%string (as_str v) | None => ""%string end.

(** [extract_think_from_content] on a string, its parts as strings. *)
Definition extract_str (content : string) : string * string :=
  let e := extract_think_from_content (bytes_of content) in
  (of_bytes (et_content e), of_bytes (et_reasoning e)).

Definition apply_extracted_reasoning (m : ChoiceMessage) (reasoning : string) : ChoiceMessage :=
  if non_empty (str_or_empty "reasoning_content" (cm_extra m)) then m
  else mkChoiceMessage (cm_role m) (cm_content m)
         (json_insert "reasoning_content" (JStr reasoning) (cm_extra m)).

Definition process_choice_think (m : ChoiceMessage) : ChoiceMessage :=
  if negb (String.eqb (cm_role m) "assistant") then m
  else
    let m :=
      match cm_content m with
      | Some (JStr content_str) =>
          if String.eqb (trim content_str) BLOCKED
             && non_empty (str_or_empty "reasoning_content" (cm_extra m))
          then mkChoiceMessage (cm_role m) (Some (JStr PROCESSED)) (cm_extra m)
          else m
      | _ => m
      end in
    match cm_content m with
    | Some (JStr content_str) =>
        let '(content, reasoning) := extract_str content_str in
        let has_reasoning := non_empty reasoning in
        let content_changed := negb (String.eqb content content_str) in
        if negb has_reasoning && negb content_changed then m
        else
          let m := if content_changed
                   then mkChoiceMessage (cm_role m) (Some (JStr content)) (cm_extra m) else m in
          if has_reasoning then apply_extracted_reasoning m reasoning else m
    | _ => m
    end.

Definition extract_think_from_response (choices : list ChoiceMessage) : list ChoiceMessage :=
  process_choice_think <$> choices.

(** The body of the loop over [choices], on the object of one [message]. *)
Definition think_message_value (message : list (string * Json)) : list (string * Json) :=
  if bool_decide (assoc_get "role" message ≫= as_str = Some "assistant"%string) then
    let message :=
      match assoc_get "content" message ≫= as_str with
      | Some content =>
          if String.eqb (trim content) BLOCKED && non_empty (str_or_empty "reasoning_content" message)
          then json_insert "content" (JStr PROCESSED) message else message
      | None => message
      end in
    match assoc_get "content" message ≫= as_str with
    | None => message
    | Some content =>
        let '(ex_content, ex_reasoning) := extract_str content in
        let has_reasoning := non_empty ex_reasoning in
        if negb has_reasoning && String.eqb ex_content content then message
        else
          let message := if negb (String.eqb ex_content content)
                         then json_insert "content" (JStr ex_content) message else message in
          if has_reasoning then
            let has_existing :=
              match assoc_get "reasoning_content" message ≫= as_str with
              | Some s => non_empty s
              | None => false
              end in
            if has_existing then message
            else json_insert "reasoning_content" (JStr ex_reasoning) message
          else message
    end
  else message.

(** [get_mut(key)] and a write through it. *)
Fixpoint update_field (k : string) (f : Json -> Json) (m : list (string * Json)) : list (string * Json) :=
  match m with
  | [] => []
  | (k', v) :: m' => if String.eqb k' k then (k', f v) :: m' else (k', v) :: update_field k f m'
  end.

Definition update_obj (k : string) (f : Json -> Json) (v : Json) : Json :=
  match v with JObj m => JObj (update_field k f m) | _ => v end.

Definition extract_think_from_response_value (val : Json) : Json :=
  update_obj "choices"
    (fun choices => match choices with
                    | JArr cs =>
                        JArr (update_obj "message"
                                (fun message => match message with
                                                | JObj m => JObj (think_message_value m)
                                                | _ => message
                                                end) <$> cs)
                    | _ => choices
                    end) val.

(** ** Lemmas *)

Lemma json_get_insert k v m : assoc_get k (json_insert k v m) = Some v.
Proof.
  induction m as [|[k' v'] m IH]; simpl; [by rewrite String.eqb_refl|].
  destruct (String.eqb_spec k' k); simpl; [by rewrite String.eqb_refl|].
  destruct (String.ltb k k'); simpl; [by rewrite String.eqb_refl|].
  by destruct (String.eqb_spec k' k).
Qed.

Lemma json_get_insert_ne k k0 v m : k <> k0 -> assoc_get k0 (json_insert k v m) = assoc_get k0 m.
Proof.
  intros Hne. induction m as [|[k' v'] m IH]; simpl; [by destruct (String.eqb_spec k k0)|].
  destruct (String.eqb_spec k' k) as [->|]; simpl; [by destruct (String.eqb_spec k k0)|].
  destruct (String.ltb k k'); simpl; [by destruct (String.eqb_spec k k0)|].
  by destruct (String.eqb_spec k' k0).
Qed.

(** Two messages with the same content and reasoning, and the same of any
    other field. *)
Definition same_message (m : ChoiceMessage) (o : list (string * Json)) : Prop :=
  assoc_get "role" o ≫= as_str = Some (cm_role m)
  /\ assoc_get "content" o = cm_content m
  /\ forall k, k <> "role"%string -> k <> "content"%string -> assoc_get k o = assoc_get k (cm_extra m).

Lemma same_content c m o :
  same_message m o ->
  same_message (mkChoiceMessage (cm_role m) (Some c) (cm_extra m)) (json_insert "content" c o).
Proof.
  intros (H1 & H2 & H3). split_and!; simpl.
  - by rewrite json_get_insert_ne.
  - apply json_get_insert.
  - intros k Hr Hc. rewrite json_get_insert_ne by done. auto.
Qed.

Lemma same_extra r m o :
  same_message m o ->
  same_message (mkChoiceMessage (cm_role m) (cm_content m)
                  (json_insert "reasoning_content" r (cm_extra m)))
    (json_insert "reasoning_content" r o).
Proof.
  intros (H1 & H2 & H3). split_and!; simpl.
  1, 2: by rewrite json_get_insert_ne.
  intros k Hr Hc. destruct (decide (k = "reasoning_content"%string)) as [->|Hk].
  - by rewrite !json_get_insert.
  - rewrite !json_get_insert_ne by done. auto.
Qed.

Lemma same_reasoning m o :
  same_message m o -> assoc_get "reasoning_content" o = assoc_get "reasoning_content" (cm_extra m).
Proof. intros (_ & _ & H). by apply H. Qed.

Lemma existing_reasoning o :
  match assoc_get "reasoning_content" o ≫= as_str with Some s => non_empty s | None => false end
  = non_empty (str_or_empty "reasoning_content" o).
Proof. unfold str_or_empty. destruct (assoc_get _ o) as [v|]; simpl; [|done]. by destruct (as_str v). Qed.

Lemma str_content o : assoc_get "content" o ≫= as_str
  = match assoc_get "content" o with Some (JStr s) => Some s | _ => None end.
Proof. by destruct (assoc_get "content" o) as [[]|]. Qed.

Lemma str_or_empty_same m o :
  same_message m o -> str_or_empty "reasoning_content" o = str_or_empty "reasoning_content" (cm_extra m).
Proof. intros H. unfold str_or_empty. by rewrite (same_reasoning m o). Qed.

(** The placeholder of a falsely blocked answer. *)
Lemma blocked_same m o :
  same_message m o ->
  same_message
    (match cm_content m with
     | Some (JStr c) =>
         if String.eqb (trim c) BLOCKED && non_empty (str_or_empty "reasoning_content" (cm_extra m))
         then mkChoiceMessage (cm_role m) (Some (JStr PROCESSED)) (cm_extra m) else m
     | _ => m
     end)
    (match assoc_get "content" o ≫= as_str with
     | Some c =>
         if String.eqb (trim c) BLOCKED && non_empty (str_or_empty "reasoning_content" o)
         then json_insert "content" (JStr PROCESSED) o else o
     | None => o
     end).
Proof.
  intros Hs. rewrite str_content. rewrite (proj1 (proj2 Hs)).
  destruct (cm_content m) as [[]|] eqn:E; try done.
  rewrite (str_or_empty_same m o) by done. case_match; [by apply same_content|done].
Qed.

(** ** Properties *)

(** The typed and the JSON form of the extraction agree: on a message
    with the same fields they leave the same content, the same reasoning and
    the same other fields. *)
Lemma typed_and_json_extraction_agree m o :
  same_message m o -> same_message (process_choice_think m) (think_message_value o).
Proof.
  intros Hs. unfold process_choice_think, think_message_value.
  destruct (String.eqb_spec (cm_role m) "assistant") as [Er|Er]; cbn [negb].
  - rewrite bool_decide_true by (destruct Hs as [-> _]; by rewrite Er).
    pose proof (blocked_same m o Hs) as Hb. revert Hb.
    generalize (match cm_content m with
     | Some (JStr c) =>
         if String.eqb (trim c) BLOCKED && non_empty (str_or_empty "reasoning_content" (cm_extra m))
         then mkChoiceMessage (cm_role m) (Some (JStr PROCESSED)) (cm_extra m) else m
     | _ => m
     end) as m1. intros m1.
    generalize (match assoc_get "content" o ≫= as_str with
     | Some c =>
         if String.eqb (trim c) BLOCKED && non_empty (str_or_empty "reasoning_content" o)
         then json_insert "content" (JStr PROCESSED) o else o
     | None => o
     end) as o1. intros o1 Hb.
    rewrite str_content. rewrite (proj1 (proj2 Hb)).
    destruct (cm_content m1) as [[| | | |c| |]|]; try done.
    destruct (extract_str c) as [ec er]. rewrite negb_involutive.
    destruct (negb (non_empty er) && String.eqb ec c); [done|].
    set (m2 := if negb _ then _ else _ : ChoiceMessage). set (o2 := if negb _ then _ else _).
    assert (same_message m2 o2) as H2 by (unfold m2, o2; destruct (String.eqb ec c); [done|by apply same_content]).
    destruct (non_empty er); [|done]. rewrite existing_reasoning.
    unfold apply_extracted_reasoning. rewrite (str_or_empty_same m2 o2) by done.
    case_match; [done|by apply same_extra].
  - rewrite bool_decide_false; [done|]. destruct Hs as [-> _]. congruence.
Qed.

Lemma typed_and_json_extraction_agree_witness :
  assoc_get "content"
    (think_message_value [("content", JStr "<think>x</think>4"); ("role", JStr "assistant")])%string
  = Some (JStr "4").
Proof.
  pose proof (typed_and_json_extraction_agree
    (mkChoiceMessage "assistant" (Some (JStr "<think>x</think>4")) [])
    [("content", JStr "<think>x</think>4"); ("role", JStr "assistant")]%string) as H.
  destruct H as (_ & H & _); [|rewrite H; vm_compute; reflexivity].
  split_and!; [reflexivity..|]. intros k H1 H2. cbn [assoc_get cm_extra].
  destruct (String.eqb_spec "content" k) as [<-|]; [done|]. by destruct (String.eqb_spec "role" k) as [<-|].
Defined.

(** Reasoning the provider already reports is kept. *)
Lemma native_reasoning_wins m :
  non_empty (str_or_empty "reasoning_content" (cm_extra m)) = true ->
  cm_extra (process_choice_think m) = cm_extra m.
Proof.
  intros Hn. unfold process_choice_think, apply_extracted_reasoning. destruct m as [role content extra].
  cbn [cm_role cm_content cm_extra] in *. destruct (negb _); [done|].
  destruct content as [[| | | |c| |]|]; try done. rewrite Hn, andb_true_r.
  destruct (String.eqb (trim c) BLOCKED); cbn [cm_role cm_content cm_extra];
    destruct (extract_str _) as [ec er]; destruct (_ && _); try done;
    destruct (negb (String.eqb ec _)); cbn [cm_extra]; rewrite Hn; by destruct (non_empty er).
Qed.
