(* ===== verification/ModelIds.v ===== *)
(** * Model identifiers

    Models openproxy-types/src/model_normalize.rs: the same model goes by
    many names (a provider prefix, a date, a variant suffix), and quota
    details, prices and catalogues are matched on the normalised one. *)

From Stdlib Require Import String.
From S2P Require Import Prelude Text Bytes ThinkExtractor.

Definition MODEL_SUFFIXES : list str :=
  bytes_of <$> ["-free-trial"; "-free"; ":free"; "-low"; "-high"; "-medium"; "-tiered"; "-thinking";
                "-agent"; "-preset"; "-fast"; "-turbo"; ":thinking"; ":online"; ":extended"; ":nitro"]%string.

(** [str::strip_suffix] for a string pattern. *)
Definition strip_suffix (suffix s : str) : option str :=
  let n := (length s - length suffix)%nat in
  if (length suffix <=? length s)%nat && bool_decide (drop n s = suffix) then Some (take n s) else None.

(** [str::trim_end_matches]: the suffix as often as it is there. *)
Fixpoint trim_end_fuel (fuel : nat) (suffix s : str) : str :=
  match fuel with
  | O => s
  | S f => match strip_suffix suffix s with Some s' => trim_end_fuel f suffix s' | None => s end
  end.

Definition trim_end_matches (suffix s : str) : str := trim_end_fuel (length s) suffix s.

(** The text behind the last [c], [rsplit_once(c).map_or(id, |(_, rest)| rest)]. *)
Fixpoint after_last (c : Z) (s : str) : option str :=
  match s with
  | [] => None
  | b :: s' => match after_last c s' with
               | Some r => Some r
               | None => if b =? c then Some s' else None
               end
  end.

(** [rsplit_once] for a two-byte pattern: the parts around its last place. *)
Fixpoint rsplit_once2 (c1 c2 : Z) (s : str) : option (str * str) :=
  match s with
  | [] => None
  | b :: s' =>
      match rsplit_once2 c1 c2 s' with
      | Some (prefix, rest) => Some (b :: prefix, rest)
      | None => match s' with
                | b2 :: rest => if (b =? c1) && (b2 =? c2) then Some ([], rest) else None
                | [] => None
                end
      end
  end.

(** [u8::is_ascii_digit], and [replace] of one character by another. *)
Definition is_ascii_digit (b : Z) : bool := (48 <=? b) && (b <=? 57).

Definition replace_byte (c d : Z) (s : str) : str := (fun b => if b =? c then d else b) <$> s.

Definition DASH : Z := 45.
Definition COLON : Z := 58.
Definition SLASH : Z := 47.
Definition UNDERSCORE : Z := 95.
Definition DOT : Z := 46.

(** [candidate_normalized_forms]: suffixes removed one after the other. *)
Definition next_candidate (current : str) : option str :=
  head (omap (fun s => match strip_suffix s current with
                       | Some rem => if bool_decide (rem <> []) && bool_decide (rem <> current)
                                     then Some rem else None
                       | None => None
                       end) MODEL_SUFFIXES).

Fixpoint candidates_fuel (fuel : nat) (current : str) : list str :=
  match fuel with
  | O => []
  | S f => match next_candidate current with
           | Some stripped => stripped :: candidates_fuel f stripped
           | None => []
           end
  end.

Definition candidate_normalized_forms (model : str) : list str := candidates_fuel (length model) model.

Definition strip_fixed_suffix (s : str) (suffix_len : nat) (predicate : str -> bool) : option str :=
  if (length s <=? suffix_len)%nat then None
  else
    let idx := (length s - suffix_len)%nat in
    if negb (is_char_boundary s idx) then None
    else if predicate (drop idx s) then Some (take idx s) else None.

Definition byte_at (s : str) (i : nat) (c : Z) : bool := bool_decide (s !! i = Some c).

Definition is_dash_date_suffix (suffix : str) : bool :=
  if negb (length suffix =? 11)%nat then false
  else byte_at suffix 0 DASH && byte_at suffix 5 DASH && byte_at suffix 8 DASH
       && forallb is_ascii_digit (take 4 (drop 1 suffix) ++ take 2 (drop 6 suffix) ++ take 2 (drop 9 suffix)).

Definition strip_date_suffix (s : str) : option str := strip_fixed_suffix s 11 is_dash_date_suffix.

Definition strip_4digit_suffix (s : str) : option str :=
  strip_fixed_suffix s 5 (fun suffix =>
    byte_at suffix 0 DASH && forallb is_ascii_digit (take 4 (drop 1 suffix))).

Definition strip_version_suffix (s : str) : option str :=
  match rsplit_once2 DASH 118 s with
  | Some (prefix, rest) =>
      if negb (bool_decide (rest = [])) && forallb is_ascii_digit rest then Some prefix else None
  | None => None
  end.

Definition strip_compact_yyyymmdd (s : str) : option str :=
  strip_fixed_suffix s 9 (fun suffix =>
    if negb (byte_at suffix 0 DASH) then false
    else
      let digits := drop 1 suffix in
      if negb (length digits =? 8)%nat || negb (forallb is_ascii_digit digits) then false
      else bool_decide (take 2 digits = bytes_of "19") || bool_decide (take 2 digits = bytes_of "20")).

Definition strip_all_dynamic_suffixes (s : str) : str :=
  foldl (fun cur stripper => default cur (stripper cur)) s
    [strip_date_suffix; strip_compact_yyyymmdd; strip_4digit_suffix; strip_version_suffix].

Definition normalize_family (s : str) : str :=
  if bool_decide (bytes_of "gemini-" `prefix_of` s) && contains_byte UNDERSCORE s
  then replace_byte UNDERSCORE DOT s else s.

Definition normalize_model_id (id : str) : str :=
  let s := default id (after_last SLASH id) in
  let s := foldl (fun s suffix => trim_end_matches suffix s) s MODEL_SUFFIXES in
  let replaced := if contains_byte COLON s then replace_byte COLON DASH s else s in
  normalize_family (strip_all_dynamic_suffixes replaced).

(** ** Lemmas *)

Lemma strip_suffix_spec suffix s rem : strip_suffix suffix s = Some rem <-> s = rem ++ suffix.
Proof.
  unfold strip_suffix. split.
  - intros H. case_match eqn:E; [|done]. simplify_eq. apply andb_true_iff in E as [_ E].
    apply bool_decide_eq_true in E. rewrite <- E at 2. by rewrite take_drop.
  - intros ->. rewrite length_app. rewrite (proj2 (Nat.leb_le _ _)) by lia.
    replace (length rem + length suffix - length suffix)%nat with (length rem) by lia.
    by rewrite drop_app_length, take_app_length, bool_decide_true.
Qed.

Lemma after_last_app c p s : after_last c (p ++ c :: s) = Some (default s (after_last c s)).
Proof.
  induction p as [|b p IH]; simpl; [|by rewrite IH].
  rewrite Z.eqb_refl. by destruct (after_last c s).
Qed.

(** A provider prefix does not matter. *)
Lemma normalize_ignores_provider p id : normalize_model_id (p ++ SLASH :: id) = normalize_model_id id.
Proof. unfold normalize_model_id. by rewrite after_last_app. Qed.

Lemma next_candidate_shorter current c :
  next_candidate current = Some c -> c <> [] /\ exists s, s ∈ MODEL_SUFFIXES /\ current = c ++ s.
Proof.
  unfold next_candidate. intros H. apply head_Some_elem_of in H. apply list_elem_of_omap in H as (s & Hs & H).
  destruct (strip_suffix s current) as [rem|] eqn:E; [|done]. apply strip_suffix_spec in E.
  case_match eqn:Eb; [|done]. simplify_eq. apply andb_true_iff in Eb as [Eb _].
  apply bool_decide_eq_true in Eb. eauto.
Qed.

Example normalize_demo :
  normalize_model_id (bytes_of "anthropic/claude-3-5-sonnet-20241022") = bytes_of "claude-3-5-sonnet"
  /\ normalize_model_id (bytes_of "gemini-2_5-pro:free") = bytes_of "gemini-2.5-pro"
  /\ candidate_normalized_forms (bytes_of "m-low-free") = [bytes_of "m-low"; bytes_of "m"].
Proof. by vm_compute. Qed.
