(* ===== verification/QuotaPools.v ===== *)
(** * Quota pools

    Models the Z.ai entitlements of openproxy-types/src/quota.rs: an account
    may hold starter buckets and a paid plan at once, each a [QuotaPool] that
    is usable, known to be spent, or unreadable.  [zai_remaining_fraction]
    picks the pool that pays for a model.

    chrono's date parser is the parameter [parse_timestamp], the seconds since
    the epoch of a date it accepts. *)

From Stdlib Require Import String.
From S2P Require Import Prelude Types Text Bytes ThinkExtractor.

Inductive QuotaSource := AutoclawStarter | ZcodeStarter | CodingPlan.

Inductive QuotaPoolStatus := PoolActive | PoolAbsent | PoolExhausted | PoolExpired | PoolUnavailable.

#[export] Instance QuotaSource_eq_dec : EqDecision QuotaSource.
Proof. solve_decision. Defined.
#[export] Instance QuotaPoolStatus_eq_dec : EqDecision QuotaPoolStatus.
Proof. solve_decision. Defined.

Definition source_as_str (s : QuotaSource) : string :=
  match s with
  | AutoclawStarter => "autoclaw_starter"
  | ZcodeStarter => "zcode_starter"
  | CodingPlan => "coding_plan"
  end.

Definition source_parse (s : string) : option QuotaSource :=
  if String.eqb s "autoclaw_starter" then Some AutoclawStarter
  else if String.eqb s "zcode_starter" then Some ZcodeStarter
  else if String.eqb s "coding_plan" then Some CodingPlan
  else None.

Definition pool_status_as_str (s : QuotaPoolStatus) : string :=
  match s with
  | PoolActive => "active"
  | PoolAbsent => "absent"
  | PoolExhausted => "exhausted"
  | PoolExpired => "expired"
  | PoolUnavailable => "unavailable"
  end.

Definition pool_status_parse (s : string) : option QuotaPoolStatus :=
  if String.eqb s "active" then Some PoolActive
  else if String.eqb s "absent" then Some PoolAbsent
  else if String.eqb s "exhausted" then Some PoolExhausted
  else if String.eqb s "expired" then Some PoolExpired
  else if String.eqb s "unavailable" then Some PoolUnavailable
  else None.

(** The fields the decisions read. *)
Record QuotaPool := mkPool {
  qp_source : QuotaSource;
  qp_status : QuotaPoolStatus;
  qp_used : option Z;
  qp_limit : option Z;
  qp_remaining : option Z;
  qp_expires_at : option string;
  qp_starts_at : option string;
  qp_model_ids : list string;
  qp_fetch_error : option string;
  qp_last_fetched_at : string
}.

(** [str::eq_ignore_ascii_case]. *)
Definition str_eq_ic (a b : string) : bool := eq_ignore_ascii_case (bytes_of a) (bytes_of b).

Definition some_and (f : Z -> bool) (o : option Z) : bool :=
  match o with Some x => f x | None => false end.

Definition matches_model (p : QuotaPool) (model : string) : bool :=
  if String.eqb (trim model) "" then false
  else match qp_model_ids p with
       | [] => bool_decide (qp_source p = CodingPlan)
       | ids => existsb (fun id => str_eq_ic id (trim model)) ids
       end.

Definition has_known_exhaustion (p : QuotaPool) : bool :=
  match qp_limit p, qp_used p with
  | Some limit, Some used => (0 <? limit) && (limit <=? used)
  | _, _ => false
  end
  || some_and (fun r => r <=? 0) (qp_remaining p).

Definition claims_positive_budget (p : QuotaPool) : bool :=
  some_and (fun r => 0 <? r) (qp_remaining p)
  || (some_and (fun l => 0 <? l) (qp_limit p) && bool_decide (is_Some (qp_used p)))
  || bool_decide (qp_source p = CodingPlan).

(** [i64::saturating_sub]. *)
Definition sat_sub_i64 (a b : Z) : Z := Z.max i64_min (Z.min i64_max (a - b)).

Definition usable_fraction (p : QuotaPool) : f64 :=
  match qp_limit p with
  | Some limit =>
      if 0 <? limit then
        let remaining := match qp_remaining p with
                         | Some r => r
                         | None => match qp_used p with
                                   | Some used => Z.max 0 (sat_sub_i64 limit used)
                                   | None => limit
                                   end
                         end in
        f64_clamp (f64_of_Z 0) (f64_of_Z 1)
          (f64_div (f64_of_Z (Z.max 0 (Z.min limit remaining))) (f64_of_Z limit))
      else f64_of_Z 1
  | None => f64_of_Z 1
  end.

Section pools.
Context (parse_timestamp : string -> option Z).

Definition parse_epoch (raw : string) : option Z :=
  let trimmed := trim raw in
  if String.eqb trimmed "" then None
  else match parse_unsigned u64_max trimmed with
       | Some secs => Some secs
       | None =>
           match parse_i64 trimmed with
           | Some secs => if 0 <=? secs then Some secs else None
           | None => match parse_timestamp trimmed with
                     | Some secs => if 0 <=? secs then Some secs else None
                     | None => None
                     end
           end
       end.

Definition within_validity_window (p : QuotaPool) (now_secs : Z) : bool :=
  match qp_starts_at p with
  | Some starts => match parse_epoch starts with Some s => s <=? now_secs | None => false end
  | None => true
  end
  && match qp_expires_at p with
     | Some expires => match parse_epoch expires with Some e => now_secs <? e | None => false end
     | None => true
     end.

(** A timestamp that is absent, read, or present but unreadable. *)
Definition read_epoch (raw : option string) : option (option Z) :=
  match raw with
  | Some r => match parse_epoch r with Some v => Some (Some v) | None => None end
  | None => Some None
  end.

Definition is_known_ineligible_for_model (p : QuotaPool) (now_secs : Z) (model : string) : bool :=
  match qp_status p with
  | PoolAbsent | PoolExhausted | PoolExpired => true
  | _ =>
      if bool_decide (is_Some (qp_fetch_error p)) || bool_decide (qp_status p = PoolUnavailable) then false
      else if negb (bool_decide (qp_source p = CodingPlan)) && bool_decide (qp_model_ids p = []) then false
      else if negb (matches_model p model) then true
      else match read_epoch (qp_starts_at p) with
           | None => false
           | Some starts =>
               match read_epoch (qp_expires_at p) with
               | None => false
               | Some expires =>
                   some_and (fun v => now_secs <? v) starts
                   || some_and (fun v => v <=? now_secs) expires
                   || has_known_exhaustion p
               end
           end
  end.

Definition is_usable_for_model (p : QuotaPool) (now_secs : Z) (model : string) : bool :=
  if negb (matches_model p model) then false
  else if negb (bool_decide (qp_status p = PoolActive)) || bool_decide (is_Some (qp_fetch_error p)) then false
  else if negb (within_validity_window p now_secs) then false
  else if some_and (fun r => r <=? 0) (qp_remaining p) then false
  else if negb (claims_positive_budget p) then false
  else negb (has_known_exhaustion p).

Definition reports_exhaustion_for_model (p : QuotaPool) (now_secs : Z) (model : string) : bool :=
  if negb (matches_model p model) || bool_decide (is_Some (qp_fetch_error p)) then false
  else match qp_status p with
       | PoolAbsent | PoolExhausted | PoolExpired => true
       | PoolActive => within_validity_window p now_secs && has_known_exhaustion p
       | PoolUnavailable => false
       end.

Definition is_starter (p : QuotaPool) : bool :=
  bool_decide (qp_source p = AutoclawStarter) || bool_decide (qp_source p = ZcodeStarter).

(** The guard in front of the paid plan. *)
Definition plan_withheld (pools : list QuotaPool) (model : string) (now_secs : Z) : bool :=
  (negb (existsb (fun p => bool_decide (qp_source p = AutoclawStarter)) pools)
   && negb (existsb (fun p => bool_decide (qp_source p = ZcodeStarter)) pools))
  || existsb (fun p => is_starter p && negb (is_known_ineligible_for_model p now_secs model)) pools.

Definition unreadable_for_model (p : QuotaPool) (model : string) : bool :=
  (matches_model p model
   || (negb (bool_decide (qp_source p = CodingPlan)) && bool_decide (qp_model_ids p = [])))
  && (bool_decide (is_Some (qp_fetch_error p)) || bool_decide (qp_status p = PoolUnavailable)).

Definition sources : list QuotaSource := [AutoclawStarter; ZcodeStarter; CodingPlan].

(** The first loop: [Some r] is a [return r] inside it. *)
Fixpoint usable_source (pools : list QuotaPool) (model : string) (now_secs : Z) (ss : list QuotaSource)
    : option (option f64) :=
  match ss with
  | [] => None
  | source :: ss' =>
      if bool_decide (source = CodingPlan) && plan_withheld pools model now_secs then Some None
      else match List.find (fun p => bool_decide (qp_source p = source)
                                     && is_usable_for_model p now_secs model) pools with
           | Some pool => Some (Some (usable_fraction pool))
           | None => usable_source pools model now_secs ss'
           end
  end.

Definition zai_remaining_fraction (pools : list QuotaPool) (model : string) (now_secs : Z) : option f64 :=
  match usable_source pools model now_secs sources with
  | Some r => r
  | None =>
      if existsb (fun p => unreadable_for_model p model) pools then None
      else if existsb (fun source => existsb (fun p => bool_decide (qp_source p = source)
                                      && reports_exhaustion_for_model p now_secs model) pools) sources
      then Some (f64_of_Z 0)
      else None
  end.

(** ** Lemmas *)

Lemma usable_facts p now model :
  is_usable_for_model p now model = true ->
  matches_model p model = true /\ qp_status p = PoolActive /\ qp_fetch_error p = None
  /\ within_validity_window p now = true /\ has_known_exhaustion p = false.
Proof.
  unfold is_usable_for_model. intros H.
  repeat (case_match; simplify_eq/=; try done). zbool.
  destruct (qp_fetch_error p); split_and!; try done.
  all: repeat case_bool_decide; naive_solver.
Qed.

(** A pool that serves a model is never a reason to go on to another source. *)
Lemma usable_not_ineligible p now model :
  is_usable_for_model p now model = true -> is_known_ineligible_for_model p now model = false.
Proof.
  intros Hu. destruct (usable_facts _ _ _ Hu) as (Hm & Hs & He & Hw & Hx).
  unfold is_known_ineligible_for_model. rewrite Hs, He, Hm, Hx. simpl.
  case_match; [done|]. unfold within_validity_window, read_epoch in *.
  destruct (qp_starts_at p) as [s|]; [destruct (parse_epoch s); [|done]|];
  (destruct (qp_expires_at p) as [e|]; [destruct (parse_epoch e); [|done]|]); simpl in *; zbool; zcase; simpl; lia || done.
Qed.

Lemma usable_not_exhausted p now model :
  is_usable_for_model p now model = true -> reports_exhaustion_for_model p now model = false.
Proof.
  intros Hu. destruct (usable_facts _ _ _ Hu) as (Hm & Hs & He & Hw & Hx).
  unfold reports_exhaustion_for_model. rewrite Hs, He, Hm, Hx. simpl. by rewrite andb_false_r.
Qed.

Lemma existsb_false {A} (f : A -> bool) l : existsb f l = false <-> forall x, x ∈ l -> f x = false.
Proof.
  rewrite <- not_true_iff_false, existsb_exists. split.
  - intros H x Hx. apply not_true_is_false. intros Hf. apply H. exists x. by rewrite <- list_elem_of_In.
  - intros H (x & Hx & Hf). rewrite <- list_elem_of_In in Hx. by rewrite H in Hf.
Qed.

Lemma existsb_elem {A} (f : A -> bool) l : existsb f l = true <-> exists x, x ∈ l /\ f x = true.
Proof. rewrite existsb_exists. by setoid_rewrite list_elem_of_In. Qed.

Lemma find_pool f (pools : list QuotaPool) :
  match List.find f pools with
  | Some p => p ∈ pools /\ f p = true
  | None => forall p, p ∈ pools -> f p = false
  end.
Proof.
  destruct (List.find f pools) as [p|] eqn:E.
  - apply find_some in E. by rewrite list_elem_of_In.
  - intros p Hp. by apply (find_none _ _ E), list_elem_of_In.
Qed.

Lemma plan_not_withheld pools model now :
  plan_withheld pools model now = false ->
  (exists s, s ∈ pools /\ is_starter s = true)
  /\ forall s, s ∈ pools -> is_starter s = true -> is_known_ineligible_for_model s now model = true.
Proof.
  unfold plan_withheld. rewrite orb_false_iff, andb_false_iff, !negb_false_iff, !existsb_elem, existsb_false.
  intros [Hs Hi]. split.
  - destruct Hs as [(s & Hin & H)|(s & Hin & H)]; exists s; split; try done;
      unfold is_starter; rewrite H; [done|by rewrite orb_true_r].
  - intros s Hin Hst. specialize (Hi s Hin). rewrite Hst in Hi. by apply negb_false_iff in Hi.
Qed.

(** What the first loop returns. *)
Lemma usable_source_spec pools model now :
  match usable_source pools model now sources with
  | Some (Some f) =>
      exists p, p ∈ pools /\ is_usable_for_model p now model = true /\ f = usable_fraction p
        /\ (is_starter p = true
            \/ qp_source p = CodingPlan /\ plan_withheld pools model now = false)
  | Some None => plan_withheld pools model now = true
                 /\ forall p, p ∈ pools -> is_starter p = true -> is_usable_for_model p now model = false
  | None => plan_withheld pools model now = false
            /\ forall p, p ∈ pools -> is_usable_for_model p now model = false
  end.
Proof.
  unfold sources. cbn [usable_source]. simpl.
  pose proof (find_pool (fun p => bool_decide (qp_source p = AutoclawStarter) && is_usable_for_model p now model) pools) as H1.
  destruct (List.find _ pools) as [p|].
  { destruct H1 as [Hin H]. zbool. exists p. split_and!; try done. left. unfold is_starter. by rewrite H. }
  pose proof (find_pool (fun p => bool_decide (qp_source p = ZcodeStarter) && is_usable_for_model p now model) pools) as H2.
  destruct (List.find _ pools) as [p|].
  { destruct H2 as [Hin H]. zbool. exists p. split_and!; try done. left. unfold is_starter. by rewrite H, orb_true_r. }
  assert (forall p, p ∈ pools -> is_starter p = true -> is_usable_for_model p now model = false) as Hst.
  { intros p Hin Hs. specialize (H1 p Hin). specialize (H2 p Hin). unfold is_starter in Hs. simpl in *.
    apply orb_true_iff in Hs as [Hs|Hs]; rewrite Hs in *; done. }
  destruct (plan_withheld pools model now) eqn:Ew; [done|].
  pose proof (find_pool (fun p => bool_decide (qp_source p = CodingPlan) && is_usable_for_model p now model) pools) as H3.
  destruct (List.find _ pools) as [p|].
  { destruct H3 as [Hin H]. zbool. exists p. split_and!; try done. right. by case_bool_decide. }
  split; [done|]. intros p Hin. destruct (is_starter p) eqn:Es; [auto|]. specialize (H3 p Hin).
  unfold is_starter in Es. destruct (qp_source p); try done.
Qed.

(** ** Properties *)

(** What the reading of the pools means.  A positive reading is the
    fraction of a pool that is readable, in its validity window and not spent;
    the paid plan is read only when a starter bucket is on record and every
    one of them is known not to serve the model.  The reading zero means that
    some pool is known to be spent, that none is usable and that none of those
    that may cover the model is unreadable.  And while a starter bucket is
    usable the reading comes from a starter bucket. *)
Lemma quota_reading_sound pools model now :
  (forall f, zai_remaining_fraction pools model now = Some f ->
     (exists p, p ∈ pools /\ is_usable_for_model p now model = true /\ f = usable_fraction p
        /\ (is_starter p = true
            \/ qp_source p = CodingPlan
               /\ (exists s, s ∈ pools /\ is_starter s = true)
               /\ (forall s, s ∈ pools -> is_starter s = true ->
                     is_known_ineligible_for_model s now model = true)))
     \/ f = f64_of_Z 0
        /\ (exists p, p ∈ pools /\ reports_exhaustion_for_model p now model = true)
        /\ (forall p, p ∈ pools -> is_usable_for_model p now model = false
                                  /\ unreadable_for_model p model = false))
  /\ ((exists p, p ∈ pools /\ is_starter p = true /\ is_usable_for_model p now model = true) ->
      exists p, p ∈ pools /\ is_starter p = true /\ is_usable_for_model p now model = true
                /\ zai_remaining_fraction pools model now = Some (usable_fraction p)).
Proof.
  pose proof (usable_source_spec pools model now) as Hu. unfold zai_remaining_fraction. split.
  - intros f. destruct (usable_source pools model now sources) as [[g|]|]; [|done|].
    + intros [= ->]. left. destruct Hu as (p & Hin & Hus & Hf & Hsrc). exists p. split_and!; try done.
      destruct Hsrc as [?|[? ?]]; [by left|right]. split; [done|]. by apply plan_not_withheld.
    + destruct (existsb (fun p => unreadable_for_model p model) pools) eqn:Eun; [done|].
      destruct (existsb _ sources) eqn:Ex; [|done]. intros [= <-]. right. split; [done|].
      rewrite existsb_false in Eun. apply existsb_elem in Ex as (src & _ & (p & Hin & Hp)%existsb_elem). zbool.
      split; [eauto|]. intros q Hq. split; [by apply Hu|auto].
  - intros (p & Hin & Hst & Hus). destruct (usable_source pools model now sources) as [[g|]|].
    + destruct Hu as (q & Hq & Huq & -> & [Hsq|[_ Hw]]); [eauto 6|].
      destruct (plan_not_withheld _ _ _ Hw) as [_ Hi]. specialize (Hi p Hin Hst). by rewrite usable_not_ineligible in Hi.
    + destruct Hu as [_ Hu]. by rewrite Hu in Hus.
    + destruct Hu as [_ Hu]. by rewrite Hu in Hus.
Qed.

End pools.

(** A starter bucket spent, a paid plan at three quarters. *)
Example starter_spent_plan_read :
  let starter := mkPool ZcodeStarter PoolActive (Some 10) (Some 10) None None None ["glm"%string] None "0" in
  let plan := mkPool CodingPlan PoolActive (Some 1) (Some 4) None None None [] None "0" in
  zai_remaining_fraction (fun _ => None) [starter; plan] "GLM" 100 = Some (f64_div (f64_of_Z 3) (f64_of_Z 4))
  /\ zai_remaining_fraction (fun _ => None) [plan] "GLM" 100 = None.
Proof. by vm_compute. Qed.
