(* ===== verification/Quotas.v ===== *)
(** * Quota routing

    Models openproxy-pipeline/src/quotas.rs and the stage of
    openproxy-pipeline/src/stages/quota.rs that stands between routing and
    execution: targets whose account has no quota left are dropped, those
    below the protection threshold yield to those above it, and among the
    accounts of one target the preferred and fuller ones come first.

    Reading a decimal as a float and reading JSON are the parameters
    [parse_f64] and [json_of]; the account rows are the parameter [get_account]. *)

From Stdlib Require Import String.
From S2P Require Import Prelude Types Text Errors LoadBalancing ComboTree Modality.
From S2P Require Import Bytes ThinkExtractor QuotaPools ModelIds.

Inductive QuotaStatus := Available | Protected | Exhausted.

#[export] Instance QuotaStatus_eq_dec : EqDecision QuotaStatus.
Proof. solve_decision. Defined.

Record ModelQuotaDetail := mkDetail {
  d_model_id : string;
  d_session_used : Z;
  d_session_limit : Z;
  d_remaining_fraction : f64
}.

(** The columns of an account row that quotas read. *)
Record QuotaAccount := mkQuotaAccount {
  qa_provider_id : string;
  qa_priority : Z;
  qa_extra_config_json : option string;
  qa_session_used : option Z;
  qa_session_limit : option Z;
  qa_weekly_used : option Z;
  qa_weekly_limit : option Z;
  qa_model_details : option (list ModelQuotaDetail);
  qa_pools : option (list QuotaPool);
  qa_oauth_provider_specific : option string
}.

(** [f64::min]: a NaN gives way to the other argument. *)
Definition f64_min (a b : f64) : f64 :=
  if f64_is_nan a then b else if f64_is_nan b then a else if f64_ltb b a then b else a.

Definition first_some {A} (l : list (option A)) : option A := head (omap id l).

(** ** Per-model details *)

Definition find_model_quota_detail (account : QuotaAccount) (candidates : list string)
    : option ModelQuotaDetail :=
  match qa_model_details account with
  | None => None
  | Some details =>
      match first_some ((fun c => List.find (fun d => str_eq_ic c (d_model_id d)) details) <$> candidates) with
      | Some d => Some d
      | None =>
          first_some ((fun c =>
            let norm_req := normalize_model_id (bytes_of c) in
            List.find (fun d => eq_ignore_ascii_case norm_req (normalize_model_id (bytes_of (d_model_id d))))
              details) <$> candidates)
      end
  end.

Definition monthly_window_detail (details : list ModelQuotaDetail) : option ModelQuotaDetail :=
  List.find (fun d => String.eqb (d_model_id d) "Monthly Limit" || String.eqb (d_model_id d) "Monthly Window")
    details.

Definition is_monthly_window_exhausted (account : QuotaAccount) : bool :=
  match qa_model_details account with
  | None => false
  | Some details =>
      match monthly_window_detail details with
      | Some d => f64_leb (d_remaining_fraction d) (f64_of_Z 0)
                  || ((0 <? d_session_limit d) && (d_session_limit d <=? d_session_used d))
      | None => false
      end
  end.

(** ** Credit balances *)

Section quotas.
Context (parse_f64 : string -> option f64) (json_of : string -> option Json).
Context (parse_timestamp : string -> option Z).

(** [replace(',', "")]. *)
Definition drop_commas (s : string) : string := of_bytes (filter (fun b => b <> 44) (bytes_of s)).

Definition parse_number_value (val : Json) : option f64 :=
  match val with
  | JInt n => Some (f64_of_Z n)
  | JFloat r => parse_f64 r
  | JStr s => parse_f64 (drop_commas (trim s))
  | _ => None
  end.

Definition first_field (ks : list string) (v : Json) : option Json :=
  first_some ((fun k => json_get k v) <$> ks).

Definition parse_credits_and_total_from_json (raw : string) : option (f64 * option f64) :=
  match json_of raw with
  | None => None
  | Some v =>
      match first_field ["credit_balance"; "credits"; "op_credit_balance"; "remains"; "remaining_amount";
                         "total_remaining_amount"]%string v with
      | None => None
      | Some rem_val =>
          match parse_number_value rem_val with
          | None => None
          | Some rem =>
              Some (rem, first_field ["total_amount"; "total_credits"; "initial_credits"; "credit_limit";
                                      "total_limit"; "total"]%string v ≫= parse_number_value)
          end
      end
  end.

Definition get_credit_balance_info (account : QuotaAccount) : option (f64 * option f64) :=
  match qa_oauth_provider_specific account ≫= parse_credits_and_total_from_json with
  | Some r => Some r
  | None => qa_extra_config_json account ≫= parse_credits_and_total_from_json
  end.

Definition MINIMAX_DEFAULT_CREDIT_BASELINE : f64 := f64_of_Z 1000000.

Definition unit_clamp (x : f64) : f64 := f64_clamp (f64_of_Z 0) (f64_of_Z 1) x.

(** The early returns, in the order of the source. *)
Definition get_credit_balance_fraction (account : QuotaAccount) : option f64 :=
  match get_credit_balance_info account with
  | None => None
  | Some (rem, total_opt) =>
      first_some
        [ (if f64_leb rem (f64_of_Z 0) then Some (f64_of_Z 0) else None);
          (match total_opt with
           | Some total => if f64_ltb (f64_of_Z 0) total then Some (unit_clamp (f64_div rem total)) else None
           | None => None
           end);
          (match qa_session_limit account with
           | Some limit => if 0 <? limit then Some (unit_clamp (f64_div rem (f64_of_Z limit))) else None
           | None => None
           end);
          (if str_eq_ic (qa_provider_id account) "minimax"
           then Some (unit_clamp (f64_div rem MINIMAX_DEFAULT_CREDIT_BASELINE)) else None);
          (if f64_leb rem (f64_of_Z 1) then Some (unit_clamp rem) else None) ]
  end.

Definition is_credit_balance_exhausted (account : QuotaAccount) : bool :=
  match get_credit_balance_info account with
  | Some (rem, _) => f64_leb rem (f64_of_Z 0)
  | None => false
  end.

(** ** The verdict on an account *)

Definition quota_window_exhausted (used limit : option Z) : bool :=
  match used, limit with Some used, Some limit => limit <=? used | _, _ => false end.

Definition check_quota_windows_exhausted (account : QuotaAccount) (candidates : list string) : bool :=
  match find_model_quota_detail account candidates with
  | Some _ => is_credit_balance_exhausted account
  | None =>
      quota_window_exhausted (qa_session_used account) (qa_session_limit account)
      || quota_window_exhausted (qa_weekly_used account) (qa_weekly_limit account)
      || is_monthly_window_exhausted account
      || is_credit_balance_exhausted account
  end.

Definition calculate_remaining_fraction (used limit : option Z) : option f64 :=
  match used, limit with
  | Some used, Some limit =>
      if 0 <? limit then Some (f64_div (f64_of_Z (sat_sub_i64 limit used)) (f64_of_Z limit)) else None
  | _, _ => None
  end.

Definition reduce_min (l : list f64) : option f64 :=
  match l with [] => None | x :: l' => Some (foldl f64_min x l') end.

Definition get_account_remaining_fraction (now : Z) (account : QuotaAccount) (candidates : list string) : f64 :=
  match (if String.eqb (qa_provider_id account) "zai" then qa_pools account else None) with
  | Some pools =>
      default (f64_of_Z 1)
        (zai_remaining_fraction parse_timestamp pools (default ""%string (head candidates)) now)
  | None =>
      if is_credit_balance_exhausted account then f64_of_Z 0
      else
        match find_model_quota_detail account candidates with
        | Some detail =>
            f64_min (d_remaining_fraction detail)
              (default (f64_of_Z 1) (get_credit_balance_fraction account))
        | None =>
            let session_or_weekly :=
              match calculate_remaining_fraction (qa_session_used account) (qa_session_limit account) with
              | Some f => Some f
              | None => calculate_remaining_fraction (qa_weekly_used account) (qa_weekly_limit account)
              end in
            let monthly := d_remaining_fraction <$> (qa_model_details account ≫= monthly_window_detail) in
            default (f64_of_Z 1)
              (reduce_min (omap id [get_credit_balance_fraction account; session_or_weekly; monthly]))
        end
  end.

Definition threshold_fraction (threshold_percentage : Z) : f64 :=
  f64_div (f64_of_Z threshold_percentage) (f64_of_Z 100).

Definition pool_is_stale (now : Z) (pool : QuotaPool) : bool :=
  match parse_unsigned u64_max (qp_last_fetched_at pool) with
  | None => true
  | Some fetched => (now <? fetched) || (60 <? sat_sub now fetched)
  end.

Definition evaluate_account_quota (quota_protection_enabled : bool) (threshold_percentage now : Z)
    (account : QuotaAccount) (candidates : list string) : QuotaStatus :=
  if String.eqb (qa_provider_id account) "zai" then
    match qa_pools account with
    | None | Some [] => Available
    | Some pools =>
        if negb (existsb (fun p => bool_decide (qp_source p = ZcodeStarter)) pools)
           || negb (existsb (fun p => bool_decide (qp_source p = CodingPlan)) pools)
           || existsb (pool_is_stale now) pools
        then Available
        else
          match zai_remaining_fraction parse_timestamp pools (default ""%string (head candidates)) now with
          | Some value =>
              if f64_leb value (f64_of_Z 0) then Exhausted
              else if quota_protection_enabled && f64_leb value (threshold_fraction threshold_percentage)
              then Protected else Available
          | None => Available
          end
    end
  else if check_quota_windows_exhausted account candidates then Exhausted
  else
    let remaining := get_account_remaining_fraction now account candidates in
    if f64_leb remaining (f64_of_Z 0) then Exhausted
    else if quota_protection_enabled && f64_leb remaining (threshold_fraction threshold_percentage)
    then Protected else Available.

(** ** Routing *)

Record TargetWithQuota := mkTwq {
  tq_target : ResolvedTarget;
  tq_status : QuotaStatus;
  tq_remaining : f64;
  tq_priority : Z;
  tq_position : nat
}.

Context (get_account : Z -> option (option QuotaAccount)) (now : Z).

Definition enrich_target_with_quota (enabled : bool) (threshold : Z) (requested_model : string)
    (t : ResolvedTarget) (target_position : nat) : TargetWithQuota :=
  let unknown := mkTwq t Available (f64_of_Z 1) 0 target_position in
  match t_account_id (rt_target t) with
  | None => unknown
  | Some aid =>
      match get_account aid with
      | Some (Some account) =>
          let resolved_model := md_model_id (rt_model t) in
          let candidates := if str_eq_ic resolved_model requested_model then [resolved_model]
                            else [resolved_model; requested_model] in
          mkTwq t (evaluate_account_quota enabled threshold now account candidates)
            (get_account_remaining_fraction now account candidates) (qa_priority account) target_position
      | _ => unknown
      end
  end.

Definition compare_targets_with_quota (a b : TargetWithQuota) : comparison :=
  cmp_then (Nat.compare (tq_position a) (tq_position b))
    (cmp_then (Z.compare (tq_priority a) (tq_priority b))
       (default Eq (SFcompare (tq_remaining b) (tq_remaining a)))).

(** The loop that numbers the target ids in the order of their first place. *)
Definition number_targets (targets : list ResolvedTarget) : gmap Z nat * nat :=
  foldl (fun '(positions, next_pos) t =>
           match positions !! t_id (rt_target t) with
           | Some _ => (positions, next_pos)
           | None => (<[t_id (rt_target t) := next_pos]> positions, S next_pos)
           end) (∅, 0%nat) targets.

Definition process_targets (enabled : bool) (threshold : Z) (targets : list ResolvedTarget)
    (requested_model : string) : list TargetWithQuota :=
  let positions := (number_targets targets).1 in
  (fun t => enrich_target_with_quota enabled threshold requested_model t
              (default 0%nat (positions !! t_id (rt_target t)))) <$> targets.

Definition keep_by_status (processed : list TargetWithQuota) : list TargetWithQuota :=
  let non_exhausted := filter (fun t => tq_status t <> Exhausted) processed in
  if existsb (fun t => bool_decide (tq_status t = Available)) non_exhausted
  then filter (fun t => tq_status t = Available) non_exhausted
  else non_exhausted.

Definition apply_quota_routing (enabled : bool) (threshold : Z) (targets : list ResolvedTarget)
    (requested_model : string) : list ResolvedTarget :=
  tq_target <$> sort_by compare_targets_with_quota
                  (keep_by_status (process_targets enabled threshold targets requested_model)).

(** The stage: the targets given to the next one, or the error. *)
Definition quota_stage (enabled : bool) (threshold : Z) (combo : option Combo)
    (eligible : list ResolvedTarget) (requested_model : string) : Result (list ResolvedTarget) :=
  match eligible with
  | [] => inl []
  | _ =>
      let filtered := apply_quota_routing enabled threshold eligible requested_model in
      match filtered, combo with
      | [], Some combo => inr (NoHealthyTargets (c_id combo))
      | _, _ => inl filtered
      end
  end.

(** ** Specification *)

(** The place where an id occurs first. *)
Fixpoint first_index (i : Z) (ids : list Z) : nat :=
  match ids with [] => 0%nat | x :: ids' => if bool_decide (x = i) then 0%nat else S (first_index i ids') end.

Definition target_ids (targets : list ResolvedTarget) : list Z := (fun t => t_id (rt_target t)) <$> targets.

(** What routing knows of a target, its place aside. *)
Definition verdict (enabled : bool) (threshold : Z) (model : string) (t : ResolvedTarget) : TargetWithQuota :=
  enrich_target_with_quota enabled threshold model t 0.

Definition is_status (s : QuotaStatus) (v : TargetWithQuota) : bool := bool_decide (tq_status v = s).

(** Kept: not exhausted, and not merely protected while another is available. *)
Definition kept (enabled : bool) (threshold : Z) (model : string) (targets : list ResolvedTarget)
    (t : ResolvedTarget) : bool :=
  let v := verdict enabled threshold model in
  negb (is_status Exhausted (v t))
  && (is_status Available (v t) || negb (existsb (fun u => is_status Available (v u)) targets)).

(** [a] may come before [b]: its id is named earlier or, for two accounts of
    one target, its account is preferred or, on a tie, not emptier. *)
Definition quota_before (enabled : bool) (threshold : Z) (model : string) (targets : list ResolvedTarget)
    (a b : ResolvedTarget) : Prop :=
  let v := verdict enabled threshold model in
  let place t := first_index (t_id (rt_target t)) (target_ids targets) in
  (place a < place b)%nat
  \/ place a = place b /\ (tq_priority (v a) < tq_priority (v b)
      \/ tq_priority (v a) = tq_priority (v b)
         /\ SFcompare (tq_remaining (v b)) (tq_remaining (v a)) <> Some Gt).

(** ** Lemmas: the order of finite floats *)

(** Sign and class, then exponent, then mantissa. *)
Definition f64_key (x : f64) : Z * Z * Z :=
  match x with
  | S754_zero _ | S754_nan => (0, 0, 0)
  | S754_infinity s => (if s then -2 else 2, 0, 0)
  | S754_finite s m e => if s then (-1, - e, Z.neg m) else (1, e, Z.pos m)
  end.

Definition key_compare (a b : Z * Z * Z) : comparison :=
  cmp_then (a.1.1 ?= b.1.1) (cmp_then (a.1.2 ?= b.1.2) (a.2 ?= b.2)).

Lemma SFcompare_key x y :
  f64_is_nan x = false -> f64_is_nan y = false ->
  SFcompare x y = Some (key_compare (f64_key x) (f64_key y)).
Proof.
  intros Hx Hy. destruct x as [s|s| |s m e], y as [s'|s'| |s' m' e']; try done;
    destruct s; try done; destruct s'; try done; simpl; f_equal; unfold key_compare; simpl.
  - rewrite Z.compare_opp, (Z.compare_antisym e e'). by destruct (e ?= e').
  - by destruct (e ?= e').
Qed.

Lemma key_compare_refl k : key_compare k k = Eq.
Proof. unfold key_compare. by rewrite !Z.compare_refl. Qed.

(** The comparator on keys, which is total. *)
Definition compare_by_key (a b : TargetWithQuota) : comparison :=
  cmp_then (Z.of_nat (tq_position a) ?= Z.of_nat (tq_position b))
    (cmp_then (tq_priority a ?= tq_priority b)
       (key_compare (f64_key (tq_remaining b)) (f64_key (tq_remaining a)))).

#[local] Instance compare_by_key_total : TotalPreorder compare_by_key.
Proof.
  split; unfold compare_by_key, key_compare.
  - intros x y. do 4 apply cmp_then_antisym. apply Z.compare_antisym.
  - intros x y z. rewrite !cmp_then_not_gt, !Z.compare_le_iff. lia.
Qed.

Lemma compare_no_nan a b :
  f64_is_nan (tq_remaining a) = false -> f64_is_nan (tq_remaining b) = false ->
  compare_targets_with_quota a b = compare_by_key a b.
Proof.
  intros Ha Hb. unfold compare_targets_with_quota, compare_by_key. rewrite SFcompare_key by done.
  simpl. by rewrite Nat2Z.inj_compare.
Qed.

(** ** Lemmas: positions *)

Lemma first_index_in i ids ids' : i ∈ ids -> first_index i (ids ++ ids') = first_index i ids.
Proof.
  induction ids as [|x ids IH]; intros Hi; simpl; [by apply not_elem_of_nil in Hi|].
  case_bool_decide; [done|]. f_equal. apply IH. set_solver.
Qed.

Lemma first_index_out i ids ids' : i ∉ ids -> first_index i (ids ++ ids') = (length ids + first_index i ids')%nat.
Proof.
  induction ids as [|x ids IH]; intros Hi; simpl; [done|]. rewrite bool_decide_false by set_solver.
  f_equal. apply IH. set_solver.
Qed.

Lemma first_index_lt i ids : i ∈ ids -> (first_index i ids < length ids)%nat.
Proof.
  induction ids as [|x ids IH]; intros Hi; simpl; [by apply not_elem_of_nil in Hi|].
  case_bool_decide; [lia|]. assert (first_index i ids < length ids)%nat by (apply IH; set_solver). lia.
Qed.

Lemma number_targets_spec targets :
  let '(positions, next) := number_targets targets in
  (forall i, is_Some (positions !! i) <-> i ∈ target_ids targets)
  /\ (forall i p, positions !! i = Some p -> (p < next)%nat)
  /\ (forall i j p q, positions !! i = Some p -> positions !! j = Some q ->
       (p < q)%nat <-> (first_index i (target_ids targets) < first_index j (target_ids targets))%nat).
Proof.
  induction targets as [|t targets IH] using rev_ind.
  { simpl. split_and!; [|by intros ? ? ?|by intros ? ? ? ? ?].
    intros i. rewrite lookup_empty. split; [by intros []|by intros ?%not_elem_of_nil]. }
  unfold number_targets, target_ids in *. rewrite foldl_snoc, fmap_app. csimpl.
  destruct (foldl _ _ targets) as [pos next]. destruct IH as (H1 & H2 & H3).
  set (ids := (fun t => t_id (rt_target t)) <$> targets) in *. set (k := t_id (rt_target t)) in *.
  destruct (pos !! k) as [pk|] eqn:Ek.
  - assert (k ∈ ids) as Hk by (apply H1; eauto). split_and!; [|done|].
    + intros i. rewrite H1, elem_of_app, list_elem_of_singleton. naive_solver.
    + intros i j p q Hi Hj. rewrite !first_index_in by (apply H1; eauto). by apply H3.
  - assert (k ∉ ids) as Hk by (rewrite <- H1, Ek; by intros []). split_and!.
    + intros i. rewrite elem_of_app, list_elem_of_singleton. destruct (decide (i = k)) as [->|Hne].
      * rewrite lookup_insert_eq. naive_solver.
      * rewrite lookup_insert_ne by done. rewrite H1. naive_solver.
    + intros i p. destruct (decide (i = k)) as [->|Hne].
      * rewrite lookup_insert_eq. intros [= <-]. lia.
      * rewrite lookup_insert_ne by done. intros Hp. specialize (H2 i p Hp). lia.
    + assert (first_index k (ids ++ [k]) = length ids) as Hkl.
      { rewrite first_index_out by done. simpl. rewrite bool_decide_true by done. lia. }
      assert (forall i p, i <> k -> pos !! i = Some p ->
        (p < next)%nat /\ first_index i (ids ++ [k]) = first_index i ids /\ (first_index i ids < length ids)%nat) as Hold.
      { intros i p Hne Hp. assert (i ∈ ids) by (apply H1; eauto).
        split_and!; [eauto|by apply first_index_in|by apply first_index_lt]. }
      intros i j p q. destruct (decide (i = k)) as [->|Hi], (decide (j = k)) as [->|Hj];
        rewrite ?lookup_insert_eq, ?(lookup_insert_ne _ k i), ?(lookup_insert_ne _ k j) by done;
        intros Hp Hq; simplify_eq; rewrite ?Hkl; [lia|..].
      * destruct (Hold j q Hj Hq) as (? & -> & ?). lia.
      * destruct (Hold i p Hi Hp) as (? & -> & ?). lia.
      * destruct (Hold i p Hi Hp) as (? & -> & ?), (Hold j q Hj Hq) as (? & -> & ?). by apply H3.
Qed.

(** The number of a target's place orders as its first index does. *)
Lemma place_order targets a b :
  a ∈ targets -> b ∈ targets ->
  let pos t := default 0%nat ((number_targets targets).1 !! t_id (rt_target t)) in
  let place t := first_index (t_id (rt_target t)) (target_ids targets) in
  ((pos a < pos b)%nat <-> (place a < place b)%nat) /\ (pos a = pos b <-> place a = place b).
Proof.
  intros Ha Hb. pose proof (number_targets_spec targets) as H. simpl.
  destruct (number_targets targets) as [positions next]. destruct H as (H1 & _ & H3). simpl.
  assert (forall t, t ∈ targets -> exists p, positions !! t_id (rt_target t) = Some p) as Hin.
  { intros t Ht. apply H1. by apply (list_elem_of_fmap_2 (fun t => t_id (rt_target t))). }
  destruct (Hin a Ha) as [p Hp], (Hin b Hb) as [q Hq]. rewrite Hp, Hq. simpl.
  pose proof (H3 _ _ _ _ Hp Hq). pose proof (H3 _ _ _ _ Hq Hp). lia.
Qed.

Lemma enrich_verdict e th m t pos :
  enrich_target_with_quota e th m t pos
  = mkTwq t (tq_status (verdict e th m t)) (tq_remaining (verdict e th m t))
      (tq_priority (verdict e th m t)) pos.
Proof.
  unfold verdict, enrich_target_with_quota. destruct (t_account_id _); [|done]. by destruct (get_account _) as [[]|].
Qed.

Lemma keep_by_status_spec e th m targets :
  let f t := enrich_target_with_quota e th m t
               (default 0%nat ((number_targets targets).1 !! t_id (rt_target t))) in
  keep_by_status (process_targets e th targets m) = f <$> filter (fun t => kept e th m targets t = true) targets.
Proof.
  intros f. unfold keep_by_status, process_targets. fold f.
  assert (forall t s, bool_decide (tq_status (f t) = s) = is_status s (verdict e th m t)) as Hst.
  { intros t s. unfold f. rewrite enrich_verdict. done. }
  assert (existsb (fun t => bool_decide (tq_status t = Available)) (filter (fun t => tq_status t <> Exhausted) (f <$> targets))
          = existsb (fun u => is_status Available (verdict e th m u)) targets) as ->.
  { apply eq_true_iff_eq. rewrite !existsb_elem. split.
    - intros (x & Hx & Ha). apply list_elem_of_filter in Hx as [_ (u & -> & Hu)%list_elem_of_fmap_1].
      exists u. split; [done|]. by rewrite <- Hst.
    - intros (u & Hu & Ha). rewrite <- Hst in Ha. exists (f u). split; [|done].
      apply list_elem_of_filter. split; [|by apply list_elem_of_fmap_2].
      apply bool_decide_eq_true in Ha. by rewrite Ha. }
  assert (forall b : bool, (if b then filter (fun t => tq_status t = Available)
                              (filter (fun t => tq_status t <> Exhausted) (f <$> targets))
                     else filter (fun t => tq_status t <> Exhausted) (f <$> targets))
    = f <$> filter (fun t => negb (is_status Exhausted (verdict e th m t))
                      && (is_status Available (verdict e th m t) || negb b) = true) targets) as Hgen;
    [|apply Hgen].
  intros [].
  - rewrite list_filter_filter, filter_fmap. f_equal. apply list_filter_iff. intros t. rewrite <- !Hst.
    destruct (tq_status (f t)); naive_solver.
  - rewrite filter_fmap. f_equal. apply list_filter_iff. intros t. rewrite <- !Hst.
    destruct (tq_status (f t)); naive_solver.
Qed.

Lemma StronglySorted_fmap {A B} (f : A -> B) (R : relation A) (Q : relation B) l :
  (forall x y, x ∈ l -> y ∈ l -> R x y -> Q (f x) (f y)) -> StronglySorted R l -> StronglySorted Q (f <$> l).
Proof.
  intros H Hs. induction Hs as [|x l Hs IH Hall]; csimpl; constructor.
  - apply IH. intros y z Hy Hz. apply H; by right.
  - apply Forall_forall. intros y (z & -> & Hz)%list_elem_of_fmap_1. rewrite Forall_forall in Hall.
    apply H; [by left|by right|auto].
Qed.

Lemma quota_routing_perm e th m targets :
  apply_quota_routing e th targets m ≡ₚ filter (fun t => kept e th m targets t = true) targets.
Proof.
  unfold apply_quota_routing. rewrite keep_by_status_spec, sort_by_perm, <- list_fmap_compose.
  rewrite (list_fmap_ext _ id); [by rewrite list_fmap_id|]. intros i t _. simpl. by rewrite enrich_verdict.
Qed.

(** Nothing is kept exactly when every account is exhausted. *)
Lemma kept_none_iff e th m targets :
  (forall t, t ∈ targets -> kept e th m targets t <> true)
  <-> forall t, t ∈ targets -> tq_status (verdict e th m t) = Exhausted.
Proof.
  unfold kept, is_status. cbv zeta. split; intros H t Ht.
  - destruct (existsb (fun u => bool_decide (tq_status (verdict e th m u) = Available)) targets) eqn:Ex.
    + apply existsb_elem in Ex as (u & Hu & Ha). exfalso. apply (H u Hu). apply bool_decide_eq_true in Ha.
      by rewrite Ha.
    + specialize (H t Ht). cbn [negb] in H. rewrite orb_true_r, andb_true_r in H. case_bool_decide; naive_solver.
  - rewrite (H t Ht). done.
Qed.

(** The stage fails exactly when the accounts of all its targets are exhausted. *)
Lemma quota_stage_fails e th combo eligible m :
  quota_stage e th (Some combo) eligible m = inr (NoHealthyTargets (c_id combo))
  <-> eligible <> [] /\ forall t, t ∈ eligible -> tq_status (verdict e th m t) = Exhausted.
Proof.
  unfold quota_stage. destruct eligible as [|t0 l]; [naive_solver|].
  rewrite <- kept_none_iff, <- filter_nil_iff.
  pose proof (quota_routing_perm e th m (t0 :: l)) as Hp.
  destruct (apply_quota_routing e th (t0 :: l) m) as [|x out] eqn:E.
  - apply Permutation_nil_l in Hp. naive_solver.
  - split; [done|]. intros [_ Hf]. rewrite Hf in Hp. by apply Permutation_nil_r in Hp.
Qed.

(** ** Properties *)

(** C15. Quota routing keeps exactly the targets whose account is not
    exhausted, leaving out protected ones while an available one remains; the
    targets stay in the order routing chose, and the accounts of one target
    come by priority and then by what is left of their quota. *)
Theorem quota_routing_exact e th m targets :
  (forall t, t ∈ targets -> f64_is_nan (tq_remaining (verdict e th m t)) = false) ->
  let out := apply_quota_routing e th targets m in
  out ≡ₚ filter (fun t => kept e th m targets t = true) targets
  /\ StronglySorted (quota_before e th m targets) out.
Proof.
  intros Hnan out. split; [apply quota_routing_perm|].
  unfold out, apply_quota_routing. rewrite keep_by_status_spec.
  set (f := fun t => enrich_target_with_quota e th m t _).
  set (l := filter _ targets).
  assert (forall t, t ∈ l -> t ∈ targets) as Hl by (intros t [_ ?]%list_elem_of_filter; done).
  assert (forall t, tq_target (f t) = t) as Hid by (intros t; unfold f; by rewrite enrich_verdict).
  rewrite (sort_by_ext _ compare_by_key).
  - eapply StronglySorted_fmap; [|apply sort_by_sorted, _].
    intros x y Hx Hy. rewrite sort_by_perm in Hx, Hy.
    apply list_elem_of_fmap_1 in Hx as (a & -> & Ha), Hy as (b & -> & Hb). rewrite !Hid.
    destruct (place_order targets a b (Hl a Ha) (Hl b Hb)) as [P1 P2]. simpl in P1, P2.
    unfold compare_by_key, quota_before. rewrite !cmp_then_not_gt.
    unfold f. rewrite !(enrich_verdict e th m). cbn [tq_position tq_priority tq_remaining].
    rewrite SFcompare_key by auto. rewrite <- P1, <- P2. intros [?|[? [?|[? ?]]]]; [left; lia|right; split; [lia|]..].
    + by left.
    + right. split; [done|]. congruence.
  - intros x y (a & -> & Ha)%list_elem_of_fmap_1 (b & -> & Hb)%list_elem_of_fmap_1.
    apply compare_no_nan; unfold f; rewrite enrich_verdict; simpl; auto.
Qed.

End quotas.

(** Two accounts of one target, the first spent, and a second target. *)
Definition quota_demo_target (id account : Z) : ResolvedTarget :=
  mkResolved (mkTarget id 1 "p" (Some account) None None id 1 true ScopeAccount
                None None None None None None None None None) (mkModel "m" true None None).

Definition quota_demo_account (a : Z) : option (option QuotaAccount) :=
  Some (Some (mkQuotaAccount "p" a None (Some (if a =? 7 then 10 else 1)) (Some 10) None None None None None)).

Lemma quota_routing_exact_witness :
  apply_quota_routing (fun _ => None) (fun _ => None) (fun _ => None) quota_demo_account 0 false 0
    [quota_demo_target 1 7; quota_demo_target 2 9; quota_demo_target 1 8] "m"
  ≡ₚ [quota_demo_target 2 9; quota_demo_target 1 8].
Proof.
  destruct (quota_routing_exact (fun _ => None) (fun _ => None) (fun _ => None) quota_demo_account 0 false 0 "m"
    [quota_demo_target 1 7; quota_demo_target 2 9; quota_demo_target 1 8]) as [H _].
  - apply Forall_forall. repeat constructor; vm_compute; reflexivity.
  - exact H.
Defined.

(** The order keeps target 1 first although its preferred account is spent. *)
Example quota_order_demo :
  apply_quota_routing (fun _ => None) (fun _ => None) (fun _ => None) quota_demo_account 0 false 0
    [quota_demo_target 1 7; quota_demo_target 2 9; quota_demo_target 1 8] "m"
  = [quota_demo_target 1 8; quota_demo_target 2 9].
Proof. by vm_compute. Qed.
