(* ===== verification/Cooldowns.v ===== *)
(** * Cooldowns of targets

    Models openproxy-db/src/cooldowns.rs: the table [target_cooldowns], a row
    per target that failed lately, with its exponential backoff, and the table
    [provider_proxy_cooldowns].  Times are whole seconds; [max_utc] is the last
    second a chrono date can hold, behind which adding a duration panics. *)

From Stdlib Require Import String.
From S2P Require Import Prelude Types.

Record Cooldown := mkCooldown {
  cd_until : Z;
  cd_reason : option string;
  cd_failure_count : Z;
  cd_updated_at : Z
}.

(** The tables the cooldowns live in, with the ids of [combo_targets]. *)
Record CooldownDb := mkCooldownDb {
  cd_targets : gmap Z Cooldown;
  cd_proxies : gmap (string * string) Z;
  cd_known_targets : gset Z
}.

(** The longest [chrono::Duration] in seconds, [i64::MAX / 1000]. *)
Definition max_delta_secs : Z := 9223372036854775.

Section cooldowns.
Context (max_utc : Z).

(** [Utc::now() + Duration::seconds(secs)]; [None] is the panic. *)
Definition date_add (now secs : Z) : option Z :=
  if (Z.abs secs <=? max_delta_secs) && (now + secs <=? max_utc) then Some (now + secs) else None.

(** The length of the next cooldown of a target that failed [current_count]
    times in a row. *)
Definition cooldown_secs (mode : CooldownMode) (base_secs max_secs factor current_count : Z) : Z :=
  match mode with
  | CooldownNone => 0
  | CooldownFlat => base_secs
  | CooldownExponential =>
      let exp_secs := sat_mul u64_max base_secs (sat_pow u64_max factor current_count) in
      if max_secs <? exp_secs then max_secs else exp_secs
  end.

Definition failure_count_of (db : CooldownDb) (target : Z) : Z :=
  match cd_targets db !! target with Some c => cd_failure_count c | None => 0 end.

Definition record_cooldown (now target : Z) (reason : string) (mode : CooldownMode)
    (base_secs max_secs factor : Z) (db : CooldownDb) : option CooldownDb :=
  if bool_decide (mode = CooldownNone) || (base_secs =? 0) then Some db
  else if negb (bool_decide (target ∈ cd_known_targets db)) then Some db
  else
    let current_count := failure_count_of db target in
    let new_count := wrap_add u32_max current_count 1 in
    match date_add now (as_i64 (cooldown_secs mode base_secs max_secs factor current_count)) with
    | Some until =>
        Some (mkCooldownDb (<[target := mkCooldown until (Some reason) new_count now]> (cd_targets db))
                (cd_proxies db) (cd_known_targets db))
    | None => None
    end.

Definition clear_cooldown (target : Z) (db : CooldownDb) : CooldownDb :=
  mkCooldownDb (delete target (cd_targets db)) (cd_proxies db) (cd_known_targets db).

(** [DELETE .. WHERE datetime(cooldown_until) <= datetime(now)]. *)
Definition prune_expired (now : Z) (db : CooldownDb) : CooldownDb :=
  mkCooldownDb (filter (fun kv => now < cd_until kv.2) (cd_targets db)) (cd_proxies db) (cd_known_targets db).

Definition get_for_target (target : Z) (db : CooldownDb) : option Cooldown := cd_targets db !! target.

(** [from_std] fails on a duration beyond chrono's, where 900 s are used. *)
Definition add_provider_proxy_cooldown (now : Z) (provider proxy : string) (duration : Z) (db : CooldownDb)
    : option CooldownDb :=
  let secs := if duration <=? max_delta_secs then duration else 900 in
  match date_add now secs with
  | Some until => Some (mkCooldownDb (cd_targets db) (<[(provider, proxy) := until]> (cd_proxies db))
                          (cd_known_targets db))
  | None => None
  end.

Definition is_provider_proxy_in_cooldown (now : Z) (provider proxy : string) (db : CooldownDb) : bool :=
  match cd_proxies db !! (provider, proxy) with Some until => now <? until | None => false end.

(** A run of failures of one target at the given times. *)
Fixpoint record_failures (times : list Z) (target : Z) (reason : string) (mode : CooldownMode)
    (base_secs max_secs factor : Z) (db : CooldownDb) : option CooldownDb :=
  match times with
  | [] => Some db
  | now :: times' =>
      match record_cooldown now target reason mode base_secs max_secs factor db with
      | Some db => record_failures times' target reason mode base_secs max_secs factor db
      | None => None
      end
  end.

(** ** Lemmas *)

Lemma cooldown_secs_exact base max factor n :
  0 <= base <= u64_max -> 0 <= max <= u64_max -> 0 <= factor -> 0 <= n ->
  cooldown_secs CooldownExponential base max factor n = Z.min max (base * factor ^ n).
Proof.
  intros Hb Hm Hf Hn. unfold cooldown_secs, sat_mul, sat_pow.
  assert (0 <= factor ^ n) by (by apply Z.pow_nonneg).
  assert (Z.min u64_max (base * Z.min u64_max (factor ^ n)) = Z.min u64_max (base * factor ^ n)) as ->.
  { destruct (Z.le_gt_cases (factor ^ n) u64_max); [by rewrite (Z.min_r u64_max (factor ^ n)) by done|].
    rewrite (Z.min_l u64_max (factor ^ n)) by lia. destruct (Z.eq_dec base 0) as [->|]; [done|].
    rewrite !Z.min_l by nia. done. }
  destruct (Z.ltb_spec max (Z.min u64_max (base * factor ^ n))); lia.
Qed.

Lemma record_failures_snoc times now target reason mode base max factor db :
  record_failures (times ++ [now]) target reason mode base max factor db
  = match record_failures times target reason mode base max factor db with
    | Some db => record_cooldown now target reason mode base max factor db
    | None => None
    end.
Proof.
  revert db. induction times as [|t times IH]; intros db; simpl.
  - by destruct (record_cooldown _ _ _ _ _ _ _ db).
  - destruct (record_cooldown t _ _ _ _ _ _ db); [apply IH|done].
Qed.

Lemma record_known now target reason mode base max factor db db' :
  record_cooldown now target reason mode base max factor db = Some db' ->
  cd_known_targets db' = cd_known_targets db.
Proof. unfold record_cooldown. intros H. repeat (case_match; try done); by simplify_eq. Qed.

Lemma failures_known times target reason mode base max factor db db' :
  record_failures times target reason mode base max factor db = Some db' ->
  cd_known_targets db' = cd_known_targets db.
Proof.
  revert db. induction times as [|t times IH]; intros db H; simpl in H; [by simplify_eq|].
  destruct (record_cooldown _ _ _ _ _ _ _ db) as [db1|] eqn:E; [|done].
  rewrite (IH _ H). by eapply record_known.
Qed.

Lemma date_add_in_range now secs :
  0 <= secs -> now + secs <= max_utc -> secs <= max_delta_secs -> date_add now secs = Some (now + secs).
Proof.
  intros H1 H2 H3. unfold date_add. rewrite (proj2 (Z.leb_le _ _)) by lia.
  by rewrite (proj2 (Z.leb_le _ _)) by lia.
Qed.

(** One more failure of a known target. *)
Lemma record_exponential now target reason base max factor db :
  0 < base <= u64_max -> 0 <= max <= max_delta_secs -> 0 <= factor -> target ∈ cd_known_targets db ->
  now + max <= max_utc -> 0 <= failure_count_of db target < u32_max ->
  let n := failure_count_of db target in
  record_cooldown now target reason CooldownExponential base max factor db
  = Some (mkCooldownDb (<[target := mkCooldown (now + Z.min max (base * factor ^ n)) (Some reason) (n + 1) now]>
                          (cd_targets db)) (cd_proxies db) (cd_known_targets db)).
Proof.
  intros Hb Hm Hf Hk Hnow Hn n. unfold record_cooldown. fold n.
  fold n in Hn. clearbody n.
  rewrite (proj2 (Z.eqb_neq base 0)) by lia. rewrite (bool_decide_true (target ∈ _)) by done.
  assert (0 <= factor ^ n) by (apply Z.pow_nonneg; lia).
  rewrite cooldown_secs_exact by (unfold u64_max, max_delta_secs in *; lia).
  unfold as_i64. rewrite (proj2 (Z.leb_le _ _)) by (unfold i64_max, max_delta_secs in *; lia).
  rewrite date_add_in_range by nia. unfold wrap_add. by rewrite Z.mod_small by (unfold u32_max in *; lia).
Qed.

(** ** Properties *)

(** Exponential backoff is exact and capped: the n-th failure in a row of
    a target that was clean cools it for the base times the factor to the
    power n - 1, at most the maximum; no step overflows or panics. *)
Lemma cooldown_backoff_exact times now target reason base max factor db :
  0 < base <= u64_max -> 0 <= max <= max_delta_secs -> 0 <= factor ->
  target ∈ cd_known_targets db -> cd_targets db !! target = None ->
  Forall (fun t => t + max <= max_utc) (times ++ [now]) -> Z.of_nat (length times) < u32_max ->
  exists db', record_failures (times ++ [now]) target reason CooldownExponential base max factor db = Some db'
    /\ cd_targets db' !! target
       = Some (mkCooldown (now + Z.min max (base * factor ^ Z.of_nat (length times))) (Some reason)
                 (Z.of_nat (length times) + 1) now).
Proof.
  intros Hb Hm Hf Hk Hclean. revert now. induction times as [|t times IH] using rev_ind; intros now Ht Hn.
  - apply Forall_cons in Ht as [Ht _]. assert (failure_count_of db target = 0) as H0
      by (unfold failure_count_of; by rewrite Hclean).
    eexists. cbn [app record_failures]. rewrite record_exponential, H0 by (rewrite ?H0; done || (unfold u32_max; lia)).
    split; [done|]. simpl. by rewrite lookup_insert_eq.
  - rewrite length_app in *. cbn [length] in *.
    rewrite Nat2Z.inj_add in *. apply Forall_app in Ht as [Ht [Hnow _]%Forall_cons].
    destruct (IH t Ht ltac:(lia)) as (db1 & E1 & L1). rewrite record_failures_snoc, E1.
    assert (failure_count_of db1 target = Z.of_nat (length times) + 1) as H1
      by (unfold failure_count_of; by rewrite L1).
    eexists. rewrite record_exponential, H1
      by (rewrite ?H1, ?(failures_known _ _ _ _ _ _ _ _ _ E1); done || lia).
    split; [done|]. simpl. by rewrite lookup_insert_eq.
Qed.

(** A success forgets the failures, and a cleared target is not cooling. *)
Lemma clear_forgets target db :
  failure_count_of (clear_cooldown target db) target = 0 /\ get_for_target target (clear_cooldown target db) = None.
Proof. unfold failure_count_of, get_for_target, clear_cooldown. simpl. by rewrite lookup_delete_eq. Qed.

Lemma prune_keeps_cooling now target db :
  get_for_target target (prune_expired now db)
  = match get_for_target target db with
    | Some c => if now <? cd_until c then Some c else None
    | None => None
    end.
Proof.
  unfold get_for_target, prune_expired. simpl. rewrite map_lookup_filter.
  destruct (cd_targets db !! target) as [c|]; simpl; [|done]. destruct (Z.ltb_spec now (cd_until c)).
  - by rewrite option_guard_True.
  - rewrite option_guard_False; [done|]. simpl. lia.
Qed.

End cooldowns.

Definition demo_cooldowns : CooldownDb := mkCooldownDb ∅ ∅ {[7]}.

Lemma cooldown_backoff_exact_witness :
  exists db', record_failures 8210266876799 ([10; 20] ++ [30]) 7 "e" CooldownExponential 5 60 3 demo_cooldowns
              = Some db'
    /\ cd_targets db' !! 7
       = Some (mkCooldown (30 + Z.min 60 (5 * 3 ^ Z.of_nat (length [10; 20]))) (Some "e"%string)
                 (Z.of_nat (length [10; 20]) + 1) 30).
Proof.
  refine (cooldown_backoff_exact 8210266876799 [10; 20] 30 7 "e" 5 60 3 demo_cooldowns _ _ _ _ _ _ _).
  1, 2, 3, 7: zvm.
  - unfold demo_cooldowns. cbn [cd_known_targets]. apply elem_of_singleton. reflexivity.
  - reflexivity.
  - repeat constructor; zvm.
Defined.
