(* ===== verification/UsageJournal.v ===== *)
(** * The usage journal and its worker

    Models openproxy-db/src/usage_journal.rs and usage_writer.rs and the replay
    of openproxy-pipeline/src/worker.rs: what a request cost is first appended
    to a durable queue and later applied to the usage tables, each entry in
    the transaction that also removes it from the queue.

    The usage tables [T] with the two writes into them ([record_row],
    [mark_winner_usage_row]) and the decoder of a payload are parameters; a
    write may fail in any way, and a transaction that fails leaves the database
    as it was.  [db_admitted] and [db_effects] are history variables: what was
    ever appended and what was ever applied. *)

From Stdlib Require Import String.
From S2P Require Import Prelude Types Errors ComboTree Cooldowns.

Definition MAX_PENDING_JOBS : Z := 100000.
Definition REPLAY_BATCH : nat := 256.

Section journal.
Context {UsageInput Row T : Type}.

Inductive BackgroundJob :=
  | JournalWake
  | RecordUsage (input : UsageInput)
  | RecordAttempt (input : UsageInput) (target_id combo_id : Z) (error_msg : option string)
      (is_upstream_health_issue : bool) (mode : CooldownMode) (base_secs max_secs factor : Z)
  | MarkClientResponse (request_id : string) (attempt target_id : Z).

Record Db := mkDb {
  db_journal : list (Z * string);
  db_next_id : Z;
  db_tables : T;
  db_cooldowns : CooldownDb;
  db_admitted : list (Z * string);
  db_effects : list (Z * BackgroundJob)
}.

Definition db_new (t : T) (c : CooldownDb) : Db := mkDb [] 1 t c [] [].

(** ** The queue *)

Definition depth (db : Db) : Z := Z.of_nat (length (db_journal db)).

(** [INSERT INTO usage_journal(payload)] with [AUTOINCREMENT]. *)
Definition insert_payload (payload : string) (db : Db) : Db * Z :=
  let id := db_next_id db in
  (mkDb (db_journal db ++ [(id, payload)]) (id + 1) (db_tables db) (db_cooldowns db)
     (db_admitted db ++ [(id, payload)]) (db_effects db), id).

Definition append (payload : string) (db : Db) : Db * Result Z :=
  if MAX_PENDING_JOBS <=? depth db then (db, inr JournalCapacityExhausted)
  else let '(db, id) := insert_payload payload db in (db, inl id).

Fixpoint append_loop (free index : Z) (payloads : list string) (db : Db) : Db * list (Result Z) :=
  match payloads with
  | [] => (db, [])
  | payload :: payloads' =>
      if free <=? index then
        let '(db, results) := append_loop free (index + 1) payloads' db in
        (db, inr JournalCapacityExhausted :: results)
      else
        let '(db, id) := insert_payload payload db in
        let '(db, results) := append_loop free (index + 1) payloads' db in
        (db, inl id :: results)
  end.

Definition append_batch (payloads : list string) (db : Db) : Db * list (Result Z) :=
  append_loop (sat_sub MAX_PENDING_JOBS (depth db)) 0 payloads db.

(** [SELECT .. ORDER BY id LIMIT]: the journal is kept in the order of its ids. *)
Definition pending (limit : nat) (db : Db) : list (Z * string) := take limit (db_journal db).

Definition acknowledge (id : Z) (db : Db) : Db :=
  mkDb (filter (fun e => e.1 <> id) (db_journal db)) (db_next_id db) (db_tables db) (db_cooldowns db)
    (db_admitted db) (db_effects db).

Definition journal_contains (id : Z) (db : Db) : bool := existsb (fun e => e.1 =? id) (db_journal db).

(** ** Applying an entry *)

(** A transaction: its result and the state to commit, an error, or a panic. *)
Inductive Tx (A : Type) := Commits (a : A) | Fails (e : CoreError) | Panics.
#[global] Arguments Commits {A} a.
#[global] Arguments Fails {A} e.
#[global] Arguments Panics {A}.

Definition tx_bind {A B} (m : Tx A) (f : A -> Tx B) : Tx B :=
  match m with Commits a => f a | Fails e => Fails e | Panics => Panics end.

Notation "x <-? m ;; k" := (tx_bind m (fun x => k)) (at level 100, m at next level, right associativity).

Definition of_result {A} (r : Result A) : Tx A :=
  match r with inl a => Commits a | inr e => Fails e end.

Context (record_row : UsageInput -> T -> Result (T * Row)).
Context (mark_winner_usage_row : string -> Z -> Z -> T -> Result T).
Context (decode_job : string -> option BackgroundJob).
Context (now max_utc : Z).

Record AttemptCooldown := mkAttempt {
  ac_target_id : Z;
  ac_combo_id : Z;
  ac_error : option string;
  ac_health_issue : bool;
  ac_mode : CooldownMode;
  ac_base_secs : Z;
  ac_max_secs : Z;
  ac_factor : Z
}.

Definition with_tables (t : T) (db : Db) : Db :=
  mkDb (db_journal db) (db_next_id db) t (db_cooldowns db) (db_admitted db) (db_effects db).

Definition with_cooldowns (c : CooldownDb) (db : Db) : Db :=
  mkDb (db_journal db) (db_next_id db) (db_tables db) c (db_admitted db) (db_effects db).

Definition log_effect (id : Z) (job : BackgroundJob) (db : Db) : Db :=
  mkDb (db_journal db) (db_next_id db) (db_tables db) (db_cooldowns db) (db_admitted db)
    (db_effects db ++ [(id, job)]).

(** The cooldown of an attempt: a success clears it, a fault of the upstream
    lengthens it, anything else leaves it; combo -1 has none. *)
Definition apply_cooldown (params : AttemptCooldown) (db : Db) : Tx Db :=
  if ac_combo_id params =? -1 then Commits db
  else match ac_error params with
       | None => Commits (with_cooldowns (clear_cooldown (ac_target_id params) (db_cooldowns db)) db)
       | Some reason =>
           if ac_health_issue params then
             match record_cooldown max_utc now (ac_target_id params) reason (ac_mode params)
                     (ac_base_secs params) (ac_max_secs params) (ac_factor params) (db_cooldowns db) with
             | Some c => Commits (with_cooldowns c db)
             | None => Panics
             end
           else Commits db
       end.

Definition record_in_transaction (input : UsageInput) (cooldown : option AttemptCooldown)
    (journal_id : Z) (job : BackgroundJob) (db : Db) : Tx (Db * option Row) :=
  if negb (journal_contains journal_id db) then Commits (db, None)
  else
    r <-? of_result (record_row input (db_tables db)) ;;
    let db := with_tables r.1 db in
    db <-? match cooldown with Some params => apply_cooldown params db | None => Commits db end ;;
    Commits (acknowledge journal_id (log_effect journal_id job db), Some r.2).

Definition apply_entry (job : BackgroundJob) (journal_id : Z) (db : Db) : Tx (Db * option Row) :=
  match job with
  | JournalWake => Fails (Internal "wake cannot be journaled")
  | RecordUsage input => record_in_transaction input None journal_id job db
  | RecordAttempt input target_id combo_id error_msg issue mode base_secs max_secs factor =>
      record_in_transaction input
        (Some (mkAttempt target_id combo_id error_msg issue mode base_secs max_secs factor)) journal_id job db
  | MarkClientResponse request_id attempt target_id =>
      if journal_contains journal_id db then
        t <-? of_result (mark_winner_usage_row request_id attempt target_id (db_tables db)) ;;
        Commits (acknowledge journal_id (log_effect journal_id job (with_tables t db)), None)
      else Commits (db, None)
  end.

Definition decode (payload : string) : Tx BackgroundJob :=
  match decode_job payload with
  | Some job => Commits job
  | None => Fails (Internal "invalid usage journal entry")
  end.

(** One transaction over a page: any failure undoes all of it. *)
Fixpoint apply_batch (entries : list (Z * string)) (db : Db) : Tx (Db * list Row) :=
  match entries with
  | [] => Commits (db, [])
  | (id, payload) :: entries' =>
      job <-? decode payload ;;
      r <-? apply_entry job id db ;;
      r' <-? apply_batch entries' r.1 ;;
      Commits (r'.1, option_list r.2 ++ r'.2)
  end.

(** ** Replay *)

(** What a replay leaves: the database, the rows published and the number of
    entries it reported as drained. *)
Record Replayed := mkReplayed { rp_db : Db; rp_rows : list Row; rp_acked : nat; rp_result : Tx unit }.

Definition add_replay (rows : list Row) (n : nat) (r : Replayed) : Replayed :=
  mkReplayed (rp_db r) (rows ++ rp_rows r) (n + rp_acked r) (rp_result r).

(** The [for] loop of [replay_one_by_one]; [next] is the call behind it. *)
Fixpoint replay_one_by_one (next : Db -> option Replayed) (entries : list (Z * string)) (db : Db)
    : option Replayed :=
  match entries with
  | [] => next db
  | e :: entries' =>
      match apply_batch [e] db with
      | Commits (db, rows) => add_replay rows 1 <$> replay_one_by_one next entries' db
      | Fails err => Some (mkReplayed db [] 0 (Fails err))
      | Panics => Some (mkReplayed db [] 0 Panics)
      end
  end.

(** [None] is running out of fuel. *)
Fixpoint replay_pending (fuel : nat) (db : Db) : option Replayed :=
  match fuel with
  | O => None
  | S f =>
      match pending REPLAY_BATCH db with
      | [] => Some (mkReplayed db [] 0 (Commits tt))
      | entries =>
          match apply_batch entries db with
          | Commits (db, rows) => add_replay rows (length entries) <$> replay_pending f db
          | Fails err =>
              if (1 <? length entries)%nat then replay_one_by_one (replay_pending f) entries db
              else Some (mkReplayed db [] 0 (Fails err))
          | Panics => Some (mkReplayed db [] 0 Panics)
          end
      end
  end.

(** ** Specification: the entries one after the other, up to the first that fails *)

Definition replay_done (db : Db) : option Replayed := Some (mkReplayed db [] 0 (Commits tt)).

Definition replay_in_order (db : Db) : option Replayed := replay_one_by_one replay_done (db_journal db) db.

(** Sequential calls of [append]. *)
Fixpoint append_each (payloads : list string) (db : Db) : Db * list (Result Z) :=
  match payloads with
  | [] => (db, [])
  | payload :: payloads' =>
      let '(db, r) := append payload db in
      let '(db, rs) := append_each payloads' db in (db, r :: rs)
  end.

(** ** Lemmas: a transaction *)

Lemma batch_cons e es db :
  apply_batch (e :: es) db
  = (r <-? apply_batch [e] db ;; r' <-? apply_batch es r.1 ;; Commits (r'.1, r.2 ++ r'.2)).
Proof.
  destruct e as [id p]. simpl. destruct (decode p) as [job| |]; simpl; [|done..].
  destruct (apply_entry job id db) as [[db1 row]| |]; simpl; [|done..]. by rewrite app_nil_r.
Qed.

Lemma add_replay_add rows n rows' n' r :
  add_replay rows n (add_replay rows' n' r) = add_replay (rows ++ rows') (n + n') r.
Proof. unfold add_replay. simpl. by rewrite app_assoc, Nat.add_assoc. Qed.

Lemma add_replay_nil r : add_replay [] 0 r = r.
Proof. by destruct r. Qed.

Lemma page_commits page next db db' rows :
  apply_batch page db = Commits (db', rows) ->
  replay_one_by_one next page db = add_replay rows (length page) <$> next db'.
Proof.
  revert db rows. induction page as [|e page IH]; intros db rows H.
  - simpl in *. simplify_eq. destruct (next db'); simpl; [|done]. by rewrite add_replay_nil.
  - rewrite batch_cons in H. cbn [replay_one_by_one].
    destruct (apply_batch [e] db) as [[db1 r1]| |]; simpl in H; [|done..].
    destruct (apply_batch page db1) as [[db2 r2]| |] eqn:E2; simpl in H; [|done..]. simplify_eq.
    rewrite (IH _ _ E2). destruct (next db'); simpl; [|done]. by rewrite add_replay_add.
Qed.

(** A page that does not commit stops the walk, whatever would follow. *)
Lemma page_stops page db :
  match apply_batch page db with
  | Commits _ => True
  | Fails e => exists r, rp_result r = Fails e /\ forall next, replay_one_by_one next page db = Some r
  | Panics => exists r, rp_result r = Panics /\ forall next, replay_one_by_one next page db = Some r
  end.
Proof.
  revert db. induction page as [|e page IH]; intros db; [done|].
  rewrite batch_cons. cbn [replay_one_by_one].
  destruct (apply_batch [e] db) as [[db1 r1]| |]; simpl; [|by eexists (mkReplayed db [] 0 _)..].
  specialize (IH db1). destruct (apply_batch page db1) as [[db2 r2]| |]; simpl; [done| |].
  all: destruct IH as (r & Hr & Hall); exists (add_replay r1 1 r); split; [done|]; intros next; by rewrite Hall.
Qed.

Lemma one_by_one_app next a b db :
  replay_one_by_one next (a ++ b) db = replay_one_by_one (replay_one_by_one next b) a db.
Proof.
  revert db. induction a as [|e a IH]; intros db; [done|]. cbn [app replay_one_by_one].
  destruct (apply_batch [e] db) as [[db1 r1]| |]; [by rewrite IH|done..].
Qed.

(** ** Lemmas: what an entry does to the queue *)

(** Either the entry was not pending and nothing happens, or its effect is
    logged and it leaves the queue. *)
Lemma apply_entry_spec job id db db' row :
  apply_entry job id db = Commits (db', row) ->
  db_admitted db' = db_admitted db /\ db_next_id db' = db_next_id db
  /\ (journal_contains id db = false /\ db' = db
      \/ journal_contains id db = true /\ db_journal db' = filter (fun e => e.1 <> id) (db_journal db)
         /\ db_effects db' = db_effects db ++ [(id, job)]).
Proof.
  assert (forall input cd, record_in_transaction input cd id job db = Commits (db', row) ->
    db_admitted db' = db_admitted db /\ db_next_id db' = db_next_id db
    /\ (journal_contains id db = false /\ db' = db
        \/ journal_contains id db = true /\ db_journal db' = filter (fun e => e.1 <> id) (db_journal db)
           /\ db_effects db' = db_effects db ++ [(id, job)])) as Hrec.
  { intros input cd. unfold record_in_transaction. destruct (journal_contains id db) eqn:Ec; simpl.
    2: { intros [= <- <-]. naive_solver. }
    destruct (record_row input (db_tables db)) as [[t r]|]; simpl; [|done].
    assert (forall d, match cd with Some params => apply_cooldown params (with_tables t db)
                      | None => Commits (with_tables t db) end = Commits d ->
      db_journal d = db_journal db /\ db_admitted d = db_admitted db /\ db_next_id d = db_next_id db
      /\ db_effects d = db_effects db) as Hcd.
    { intros d Hd. destruct cd as [params|]; [|by simplify_eq].
      unfold apply_cooldown in Hd. repeat (case_match; simplify_eq/=; try done). }
    destruct (match cd with Some _ => _ | None => _ end) as [d| |]; simpl; [|done..].
    destruct (Hcd d eq_refl) as (H1 & H2 & H3 & H4). intros [= <- <-]. simpl. rewrite H1, H4. naive_solver. }
  destruct job; simpl; try done; try apply Hrec.
  destruct (journal_contains id db) eqn:Ec; [|intros [= <- <-]; naive_solver].
  destruct (mark_winner_usage_row _ _ _ _); simpl; [|done]. intros [= <- <-]. simpl. naive_solver.
Qed.

Lemma journal_contains_elem id db : journal_contains id db = true <-> id ∈ (db_journal db).*1.
Proof.
  unfold journal_contains. rewrite existsb_exists. setoid_rewrite <- list_elem_of_In. rewrite list_elem_of_fmap.
  split; [intros (e & He & Hid); zbool; eauto|intros (e & -> & He); exists e; by rewrite Z.eqb_refl].
Qed.

Lemma filter_ne_tail id p (rest : list (Z * string)) :
  NoDup ((id, p) :: rest).*1 -> filter (fun e : Z * string => e.1 <> id) ((id, p) :: rest) = rest.
Proof.
  csimpl. intros [Hn _]%NoDup_cons. rewrite filter_cons, decide_False by (simpl; tauto).
  induction rest as [|[i q] rest IH]; [done|]. csimpl in Hn. rewrite filter_cons, decide_True by set_solver.
  f_equal. apply IH. set_solver.
Qed.

(** A page from the front of the queue leaves the rest of it. *)
Lemma page_leaves_rest page rest db db' rows :
  NoDup (db_journal db).*1 -> db_journal db = page ++ rest ->
  apply_batch page db = Commits (db', rows) -> db_journal db' = rest /\ NoDup (db_journal db').*1.
Proof.
  revert db rows. induction page as [|[id p] page IH]; intros db rows Hnd Hj H.
  { simpl in H. simplify_eq. by rewrite Hj in *. }
  rewrite batch_cons in H. simpl in H. destruct (decode p) as [job| |]; simpl in H; [|done..].
  destruct (apply_entry job id db) as [[db1 row]| |] eqn:E1; simpl in H; [|done..].
  destruct (apply_batch page db1) as [[db2 r2]| |] eqn:E2; simpl in H; [|done..]. simplify_eq.
  apply apply_entry_spec in E1 as (_ & _ & [[Hc _]|(_ & Hj1 & _)]).
  { apply not_true_iff_false in Hc. exfalso. apply Hc, journal_contains_elem. rewrite Hj. csimpl. by left. }
  rewrite Hj in Hj1, Hnd. simpl in Hj1, Hnd. rewrite filter_ne_tail in Hj1 by done.
  eapply IH; [|done|done]. rewrite Hj1. by apply NoDup_cons in Hnd as [_ ?].
Qed.

(** ** Lemmas: appending *)

Lemma append_loop_each free index payloads db :
  (index < free -> free - index = MAX_PENDING_JOBS - depth db) ->
  (free <= index -> MAX_PENDING_JOBS <= depth db) ->
  append_loop free index payloads db = append_each payloads db.
Proof using Type.
  revert index db. induction payloads as [|p payloads IH]; intros index db H1 H2; [done|].
  cbn [append_loop append_each]. unfold append.
  destruct (Z.leb_spec free index), (Z.leb_spec MAX_PENDING_JOBS (depth db)); [|lia..|].
  - rewrite IH by lia. done.
  - unfold insert_payload. rewrite IH; [done|..]; unfold depth in *; simpl; rewrite length_app; simpl; lia.
Qed.

(** ** The history of the journal

    A page that is applied was read from the journal at some time; other
    workers may have applied part of it since. *)

Definition journal_inv (db : Db) : Prop :=
  NoDup (db_admitted db).*1
  /\ Forall (fun e => e.1 < db_next_id db) (db_admitted db)
  /\ db_journal db = filter (fun e => e.1 ∉ (db_effects db).*1) (db_admitted db)
  /\ NoDup (db_effects db).*1
  /\ Forall (fun e => exists p, (e.1, p) ∈ db_admitted db /\ decode_job p = Some e.2) (db_effects db)
  /\ depth db <= MAX_PENDING_JOBS.

Lemma inv_new t c : journal_inv (db_new t c).
Proof using decode_job. split_and!; simpl; try constructor. done. Qed.

Lemma inv_insert payload db :
  journal_inv db -> depth db < MAX_PENDING_JOBS -> journal_inv (insert_payload payload db).1.
Proof using decode_job.
  clear record_row mark_winner_usage_row.
  intros (H1 & H2 & H3 & H4 & H5 & H6) Hd. unfold insert_payload. simpl. set (n := db_next_id db) in *.
  assert (n ∉ (db_admitted db).*1) as Hfresh.
  { intros ([i p] & -> & Hin)%list_elem_of_fmap. rewrite Forall_forall in H2. specialize (H2 _ Hin). simpl in *. lia. }
  assert (n ∉ (db_effects db).*1) as Hneff.
  { intros ([i j] & Hi & Hin)%list_elem_of_fmap. rewrite Forall_forall in H5.
    destruct (H5 _ Hin) as (p & Hp & _). apply Hfresh. rewrite Hi. simpl in *.
    by apply (list_elem_of_fmap_2 fst) in Hp. }
  split_and!; simpl.
  - rewrite fmap_app. apply NoDup_app. split_and!; [done|set_solver|]. csimpl. apply NoDup_singleton.
  - apply Forall_app. split; [|repeat constructor; simpl; lia].
    eapply Forall_impl; [apply H2|]. simpl. intros e He. lia.
  - rewrite filter_app, <- H3. f_equal. rewrite filter_cons, decide_True by done. done.
  - done.
  - eapply Forall_impl; [apply H5|]. simpl. intros e (p & Hp & Hd'). exists p. set_solver.
  - unfold depth in *. simpl. rewrite length_app. simpl. lia.
Qed.

Lemma inv_append_each payloads db : journal_inv db -> journal_inv (append_each payloads db).1.
Proof using decode_job.
  clear record_row mark_winner_usage_row.
  revert db. induction payloads as [|p payloads IH]; intros db Hi; [done|]. cbn [append_each]. unfold append.
  destruct (Z.leb_spec MAX_PENDING_JOBS (depth db)).
  - specialize (IH db Hi). by destruct (append_each payloads db).
  - pose proof (inv_insert p db Hi ltac:(lia)) as Hi'. destruct (insert_payload p db) as [db1 id]. simpl in Hi'.
    specialize (IH db1 Hi'). by destruct (append_each payloads db1).
Qed.

Lemma inv_apply_entry job id p db db' row :
  journal_inv db -> (id, p) ∈ db_admitted db -> decode_job p = Some job ->
  apply_entry job id db = Commits (db', row) -> journal_inv db'.
Proof.
  intros Hinv Hin Hdec H. pose proof Hinv as (H1 & H2 & H3 & H4 & H5 & H6).
  apply apply_entry_spec in H as (Ha & Hn & [[_ ->]|(Hc & Hj & He)]); [done|].
  apply journal_contains_elem in Hc as Hpend. rewrite H3 in Hpend.
  apply list_elem_of_fmap in Hpend as ([i q] & Hi & [Hneff _]%list_elem_of_filter). simpl in *. subst i.
  split_and!; rewrite ?Ha, ?Hn; try done.
  - rewrite Hj, He, H3, list_filter_filter. apply list_filter_iff. intros e. rewrite fmap_app. csimpl. set_solver.
  - rewrite He, fmap_app. csimpl. apply NoDup_app. split_and!; [done|set_solver|apply NoDup_singleton].
  - rewrite He. apply Forall_app. split; [done|]. constructor; [|constructor]. simpl. eauto.
  - unfold depth in *. rewrite Hj. pose proof (length_filter (fun e => e.1 <> id) (db_journal db)). lia.
Qed.

Lemma inv_apply_batch entries db db' rows :
  journal_inv db -> Forall (fun e => e ∈ db_admitted db) entries ->
  apply_batch entries db = Commits (db', rows) -> journal_inv db' /\ db_admitted db' = db_admitted db.
Proof.
  revert db rows. induction entries as [|[id p] entries IH]; intros db rows Hi Hin H; [by simplify_eq/=|].
  apply Forall_cons in Hin as [Hp Hin]. simpl in H. unfold decode in H.
  destruct (decode_job p) as [job|] eqn:Ed; simpl in H; [|done].
  destruct (apply_entry job id db) as [[db1 row]| |] eqn:E1; simpl in H; [|done..].
  destruct (apply_batch entries db1) as [[db2 r2]| |] eqn:E2; simpl in H; [|done..]. simplify_eq.
  pose proof (inv_apply_entry _ _ _ _ _ _ Hi Hp Ed E1) as Hi1.
  apply apply_entry_spec in E1 as (Ha & _). rewrite <- Ha in Hin. rewrite <- Ha. by eapply IH.
Qed.

(** ** Lemmas: replay *)

Lemma in_order_spec entries db :
  NoDup (db_journal db).*1 -> db_journal db = entries ->
  exists r, replay_one_by_one replay_done entries db = Some r
    /\ db_journal (rp_db r) = drop (rp_acked r) entries
    /\ (rp_result r = Commits tt -> rp_acked r = length entries).
Proof.
  revert db. induction entries as [|e entries IH]; intros db Hnd Hj.
  { eexists. split_and!; [done|done|done]. }
  cbn [replay_one_by_one]. destruct (apply_batch [e] db) as [[db1 r1]| |] eqn:E.
  - destruct (page_leaves_rest [e] entries db db1 r1 Hnd Hj E) as [Hj1 Hnd1].
    destruct (IH db1 Hnd1 Hj1) as (r & -> & Hd & Hr). exists (add_replay r1 1 r).
    split_and!; [done|done|]. simpl. intros H. f_equal. auto.
  - eexists. split_and!; [done|done|done].
  - eexists. split_and!; [done|done|done].
Qed.

Lemma replay_pending_in_order fuel db r :
  NoDup (db_journal db).*1 -> (length (db_journal db) < fuel)%nat ->
  replay_in_order db = Some r -> rp_result r <> Panics -> replay_pending fuel db = Some r.
Proof.
  revert db r. induction fuel as [|fuel IH]; intros db r Hnd Hf Hr Hp; [lia|]. cbn [replay_pending].
  assert (exists page rest, pending REPLAY_BATCH db = page /\ db_journal db = page ++ rest
    /\ (page = [] -> rest = [])) as (page & rest & -> & Hj & Hnil).
  { exists (take REPLAY_BATCH (db_journal db)), (drop REPLAY_BATCH (db_journal db)).
    split_and!; [done|by rewrite take_drop|]. intros H. by destruct (db_journal db). }
  unfold replay_in_order in Hr. rewrite Hj, one_by_one_app in Hr.
  assert (match page with [] => replay_done db | _ :: _ => Some r end = Some r) as Hmt.
  { destruct page; [|done]. by rewrite Hnil in Hr. }
  destruct page as [|e page']; [done|]. clear Hmt Hnil. remember (e :: page') as page eqn:Ep.
  pose proof (page_stops page db) as Hstop. destruct (apply_batch page db) as [[db' rows]| |] eqn:Eb.
  - destruct (page_leaves_rest page rest db db' rows Hnd Hj Eb) as [Hj' Hnd'].
    rewrite (page_commits _ _ _ _ _ Eb) in Hr.
    destruct (replay_one_by_one replay_done rest db') as [r'|] eqn:Er; [|done]. simpl in Hr. simplify_eq.
    rewrite (IH db' r'); [done|done| |done|done].
    rewrite Hj, length_app in Hf. simpl in Hf. lia.
  - destruct Hstop as (r' & Hr' & Hall). rewrite Hall in Hr. injection Hr as ->.
    destruct (Nat.ltb_spec 1 (length page)) as [|Hle]; [apply Hall|].
    specialize (Hall replay_done). subst page. destruct page' as [|? ?]; [|simpl in Hle; lia].
    cbn [replay_one_by_one] in Hall. by rewrite Eb in Hall.
  - destruct Hstop as (r' & Hr' & Hall). rewrite Hall in Hr. by injection Hr as ->.
Qed.
End journal.

(** ** Properties *)

Section history.
Context {UsageInput Row T : Type}.
Context (record_row : UsageInput -> T -> Result (T * Row)).
Context (mark_winner_usage_row : string -> Z -> Z -> T -> Result T).
Context (decode_job : string -> option (@BackgroundJob UsageInput)).
Context (max_utc : Z).

(** The transactions that touch the journal, at any time and by any worker. *)
Inductive journal_step : @Db UsageInput T -> @Db UsageInput T -> Prop :=
  | step_append payload db : journal_step db (append payload db).1
  | step_append_batch payloads db : journal_step db (append_batch payloads db).1
  | step_apply now entries db db' rows :
      Forall (fun e => e ∈ db_admitted db) entries ->
      apply_batch record_row mark_winner_usage_row decode_job now max_utc entries db = Commits (db', rows) ->
      journal_step db db'.

Lemma append_batch_each payloads (db : @Db UsageInput T) : append_batch payloads db = append_each payloads db.
Proof. apply append_loop_each; unfold sat_sub; lia. Qed.

Lemma journal_reachable t c db : rtc journal_step (db_new t c) db -> journal_inv decode_job db.
Proof.
  intros Hr. eapply (rtc_invariant journal_step (journal_inv decode_job)); [|apply inv_new|exact Hr].
  intros x y Hi Hs. destruct Hs as [payload x|payloads x|now entries x y rows Hin Hb].
  - pose proof (inv_append_each decode_job [payload] x Hi) as Ha. simpl in Ha. by destruct (append payload x).
  - rewrite append_batch_each. by apply inv_append_each.
  - by eapply inv_apply_batch.
Qed.

(** C4. Usage is recorded exactly once: in every interleaving of producers
    and workers, with stale pages and failed transactions, the queue holds in
    order exactly the admitted entries that were not yet applied, no entry is
    applied twice, what was applied is what was admitted under that id, and
    the queue stays within its capacity. *)
Theorem journal_exactly_once t c db :
  rtc journal_step (db_new t c) db ->
  db_journal db = filter (fun e => e.1 ∉ (db_effects db).*1) (db_admitted db)
  /\ NoDup (db_effects db).*1 /\ NoDup (db_admitted db).*1
  /\ (forall id job, (id, job) ∈ db_effects db -> exists p, (id, p) ∈ db_admitted db /\ decode_job p = Some job)
  /\ depth db <= MAX_PENDING_JOBS.
Proof.
  intros Hr. destruct (journal_reachable t c db Hr) as (H1 & H2 & H3 & H4 & H5 & H6).
  split_and!; try done. intros id job Hin. rewrite Forall_forall in H5. by apply (H5 (id, job)).
Qed.

(** A batch of appends is the sequence of single appends: the same
    queue, the same ids and the same refusals beyond the capacity, and the
    ids of what was admitted are new and increasing. *)
Lemma append_batch_is_sequential payloads (db : @Db UsageInput T) :
  append_batch payloads db = append_each payloads db
  /\ exists k, (k <= length payloads)%nat
       /\ (append_batch payloads db).2
          = ((fun i => inl (db_next_id db + Z.of_nat i)) <$> seq 0 k)
            ++ replicate (length payloads - k) (inr JournalCapacityExhausted).
Proof.
  split; [apply append_batch_each|]. rewrite append_batch_each. revert db.
  induction payloads as [|p payloads IH]; intros db; [by exists 0%nat|]. cbn [append_each]. unfold append.
  destruct (Z.leb_spec MAX_PENDING_JOBS (depth db)).
  - exists 0%nat. split; [simpl; lia|].
    assert ((append_each payloads db).2 = replicate (length payloads) (inr JournalCapacityExhausted)) as E0.
    { clear IH. induction payloads as [|q payloads IHp]; [done|]. cbn [append_each]. unfold append.
      rewrite (proj2 (Z.leb_le _ _)) by done. destruct (append_each payloads db). simpl in *. by rewrite IHp. }
    destruct (append_each payloads db). simpl in *. by rewrite E0.
  - unfold insert_payload. specialize (IH (insert_payload p db).1) as (k & Hk & E). unfold insert_payload in E.
    simpl in E. destruct (append_each payloads _) as [db2 rs]. simpl in *. exists (S k). split; [lia|].
    rewrite E. cbn [seq fmap list_fmap]. rewrite Z.add_0_r. simpl. f_equal. f_equal.
    rewrite <- seq_shift, <- list_fmap_compose. apply list_fmap_ext. intros i x _. simpl. f_equal. lia.
Qed.

(** Replay works page by page but means the same as applying the entries
    one after the other: it ends, it takes entries off the front only, it
    stops at the first one that fails, which stays first, and success means an
    empty queue. *)
Lemma replay_applies_in_order now (db : @Db UsageInput T) :
  NoDup (db_journal db).*1 ->
  exists r, replay_in_order record_row mark_winner_usage_row decode_job now max_utc db = Some r
    /\ db_journal (rp_db r) = drop (rp_acked r) (db_journal db)
    /\ (rp_result r = Commits tt -> db_journal (rp_db r) = [])
    /\ (rp_result r <> Panics ->
        replay_pending record_row mark_winner_usage_row decode_job now max_utc (S (length (db_journal db))) db
        = Some r).
Proof.
  intros Hnd.
  destruct (in_order_spec record_row mark_winner_usage_row decode_job now max_utc (db_journal db) db Hnd eq_refl)
    as (r & Hr & Hd & Hc).
  exists r. split_and!; [done|done| |].
  - intros H. rewrite Hd, Hc by done. by rewrite drop_all.
  - intros Hp. apply replay_pending_in_order; [done|lia|done|done].
Qed.
End history.

(** A queue of two good entries and a bad one behind them. *)
Definition demo_record (i : Z) (t : list Z) : Result (list Z * Z) := inl (t ++ [i], i).
Definition demo_mark (_ : string) (_ _ : Z) (t : list Z) : Result (list Z) := inl t.
Definition demo_decode (p : string) : option (@BackgroundJob Z) :=
  if String.eqb p "a" then Some (RecordUsage 1) else if String.eqb p "b" then Some (RecordUsage 2) else None.
Definition journal_demo_db : @Db Z (list Z) :=
  (append_batch ["a"; "b"; "x"]%string (db_new [] (mkCooldownDb ∅ ∅ ∅))).1.

Lemma journal_exactly_once_witness :
  db_journal journal_demo_db = [(1, "a"); (2, "b"); (3, "x")]%string /\ depth journal_demo_db <= MAX_PENDING_JOBS.
Proof.
  assert (rtc (journal_step demo_record demo_mark demo_decode 100) (db_new [] (mkCooldownDb ∅ ∅ ∅)) journal_demo_db) as Hr
    by (apply rtc_once, step_append_batch).
  destruct (journal_exactly_once demo_record demo_mark demo_decode 100 [] (mkCooldownDb ∅ ∅ ∅) journal_demo_db Hr)
    as (_ & _ & _ & _ & H).
  split; [vm_compute; reflexivity|exact H].
Defined.

Lemma replay_applies_in_order_witness :
  exists r, replay_in_order demo_record demo_mark demo_decode 0 100 journal_demo_db = Some r
    /\ db_journal (rp_db r) = drop (rp_acked r) (db_journal journal_demo_db).
Proof.
  destruct (replay_applies_in_order demo_record demo_mark demo_decode 100 0 journal_demo_db) as (r & H1 & H2 & _).
  - apply (bool_decide_unpack _). vm_compute. exact I.
  - exists r. split; [exact H1|exact H2].
Defined.

Example replay_demo :
  (fun r => (db_tables (rp_db r), db_journal (rp_db r), rp_rows r, rp_acked r))
    <$> replay_pending demo_record demo_mark demo_decode 0 100 4 journal_demo_db
  = Some ([1; 2], [(3, "x"%string)], [1; 2], 2%nat).
Proof. by vm_compute. Qed.
