(* ===== verification/Admission.v ===== *)
(** * Admission to the usage journal

    Models openproxy-pipeline/src/worker/coordinator.rs: producers that want a
    usage job in the journal queue up and share transactions (the first one of
    an idle queue starts a leader that commits for all), and wait for the
    worker to drain the journal when it is full.

    Producers, the leader and the worker interleave in any order.  A step is
    what one of them does under one lock or between two awaits.  All requests
    are for one connection, as in production.  [notified()] of a tokio
    [Notify] is the number of [notify_waiters] calls so far: it resolves once
    that number has grown, polled or not (tokio's documentation of
    [notify_waiters]). *)

From Stdlib Require Import String.
From S2P Require Import Prelude Types Errors ComboTree Cooldowns UsageJournal.

Definition MAX_ADMISSION_BATCH : nat := 512.

(** Where a producer is in [enqueue_with_backpressure]. *)
Inductive Producer :=
  | PStart
  | PSubscribed (epoch : nat)
  | PAwaiting (epoch : nat)
  | PParked (epoch : nat)
  | PDone (id : Z)
  | PFailed (err : CoreError).

(** The task that holds the leader role, if there is one. *)
Inductive Leader := LNone | LReady | LHolding (batch : list nat).

Inductive Worker := WIdle | WDrained (count : nat).

Section admission.
Context {UsageInput Row T : Type}.
Context (record_row : UsageInput -> T -> Result (T * Row)).
Context (mark_winner_usage_row : string -> Z -> Z -> T -> Result T).
Context (decode_job : string -> option (@BackgroundJob UsageInput)).
Context (max_utc : Z) (payload : nat -> string).

Record Sys := mkSys {
  s_db : @Db UsageInput T;
  s_pending : list nat;
  s_leader_active : bool;
  s_leader : Leader;
  s_worker : Worker;
  s_epoch : nat;
  s_closed : bool;
  s_producers : gmap nat Producer
}.

Definition sys_new (db : @Db UsageInput T) : Sys := mkSys db [] false LNone WIdle 0 false ∅.

Definition set_producer (p : nat) (st : Producer) (s : Sys) : Sys :=
  mkSys (s_db s) (s_pending s) (s_leader_active s) (s_leader s) (s_worker s) (s_epoch s) (s_closed s)
    (<[p := st]> (s_producers s)).

Definition closed_error : CoreError := Internal "usage worker is closed; record was not accepted".
Definition dropped_error : CoreError := Internal "usage admission leader dropped the request".

(** ** Producers *)

(** The head of the loop: leave when the worker is gone, else subscribe. *)
Definition subscribe (p : nat) (s : Sys) : Sys :=
  set_producer p (if s_closed s then PFailed closed_error else PSubscribed (s_epoch s)) s.

(** The critical section of [admit_payload]: queue up, and start a leader if there is
    none. *)
Definition admit_payload (p epoch : nat) (s : Sys) : Sys :=
  let lead := negb (s_leader_active s) in
  mkSys (s_db s) (s_pending s ++ [p]) true (if lead then LReady else s_leader s) (s_worker s) (s_epoch s)
    (s_closed s) (<[p := PAwaiting epoch]> (s_producers s)).

(** What a producer does with the reply of its leader. *)
Definition on_reply (epoch : nat) (r : Result Z) : Producer :=
  match r with
  | inl id => PDone id
  | inr JournalCapacityExhausted => PParked epoch
  | inr err => PFailed err
  end.

Definition reply (p : nat) (r : Result Z) (ps : gmap nat Producer) : gmap nat Producer :=
  match ps !! p with
  | Some (PAwaiting epoch) => <[p := on_reply epoch r]> ps
  | _ => ps
  end.

Fixpoint reply_all (batch : list nat) (rs : list (Result Z)) (ps : gmap nat Producer) : gmap nat Producer :=
  match batch, rs with
  | p :: batch', r :: rs' => reply_all batch' rs' (reply p r ps)
  | _, _ => ps
  end.

(** The [select!] of a parked producer: the closing of the channel first. *)
Definition wake (p epoch : nat) (s : Sys) : option Sys :=
  if s_closed s then Some (set_producer p (PFailed closed_error) s)
  else if (epoch <? s_epoch s)%nat then Some (set_producer p PStart s) else None.

(** ** The leader *)

(** The critical section at the head of [drain]. *)
Definition leader_take (s : Sys) : Sys :=
  match s_pending s with
  | [] => mkSys (s_db s) [] false LNone (s_worker s) (s_epoch s) (s_closed s) (s_producers s)
  | pending =>
      mkSys (s_db s) (drop MAX_ADMISSION_BATCH pending) (s_leader_active s)
        (LHolding (take MAX_ADMISSION_BATCH pending)) (s_worker s) (s_epoch s) (s_closed s) (s_producers s)
  end.

Definition leader_commit (batch : list nat) (s : Sys) : Sys :=
  let '(db, results) := append_batch (payload <$> batch) (s_db s) in
  mkSys db (s_pending s) (s_leader_active s) LReady (s_worker s) (s_epoch s) (s_closed s)
    (reply_all batch results (s_producers s)).

(** The transaction failed: every member of the batch gets the error. *)
Definition leader_commit_fails (batch : list nat) (err : CoreError) (s : Sys) : Sys :=
  mkSys (s_db s) (s_pending s) (s_leader_active s) LReady (s_worker s) (s_epoch s) (s_closed s)
    (reply_all batch (replicate (length batch) (inr err)) (s_producers s)).

Definition held (l : Leader) : list nat := match l with LHolding batch => batch | _ => [] end.

(** [Drop] of a leader that did not leave cleanly: the role is released and
    the reply channels of the batch and of the queue are dropped. *)
Definition leader_drop (s : Sys) : Sys :=
  let lost := held (s_leader s) ++ s_pending s in
  mkSys (s_db s) [] false LNone (s_worker s) (s_epoch s) (s_closed s)
    (reply_all lost (replicate (length lost) (inr dropped_error)) (s_producers s)).

(** ** The worker *)

Definition with_db (db : @Db UsageInput T) (w : Worker) (s : Sys) : Sys :=
  mkSys db (s_pending s) (s_leader_active s) (s_leader s) w (s_epoch s) (s_closed s) (s_producers s).

(** [notify_drained], behind the commit. *)
Definition notify_drained (count : nat) (s : Sys) : Sys :=
  mkSys (s_db s) (s_pending s) (s_leader_active s) (s_leader s) WIdle
    (if (0 <? count)%nat then S (s_epoch s) else s_epoch s) (s_closed s) (s_producers s).

(** [rx.close()] and [notify_closed]. *)
Definition close (s : Sys) : Sys :=
  mkSys (s_db s) (s_pending s) (s_leader_active s) (s_leader s) (s_worker s) (S (s_epoch s)) true (s_producers s).

Inductive admission_step : Sys -> Sys -> Prop :=
  | a_arrive p s : s_producers s !! p = None -> admission_step s (set_producer p PStart s)
  | a_subscribe p s : s_producers s !! p = Some PStart -> admission_step s (subscribe p s)
  | a_admit p e s : s_producers s !! p = Some (PSubscribed e) -> admission_step s (admit_payload p e s)
  | a_wake p e s s' : s_producers s !! p = Some (PParked e) -> wake p e s = Some s' -> admission_step s s'
  | a_take s : s_leader s = LReady -> admission_step s (leader_take s)
  | a_commit batch s : s_leader s = LHolding batch -> admission_step s (leader_commit batch s)
  | a_commit_fails batch err s :
      s_leader s = LHolding batch -> err <> JournalCapacityExhausted ->
      admission_step s (leader_commit_fails batch err s)
  | a_drop s : s_leader s <> LNone -> admission_step s (leader_drop s)
  | a_drain now entries db' rows s :
      s_worker s = WIdle -> entries <> [] -> Forall (fun e => e ∈ db_admitted (s_db s)) entries ->
      apply_batch record_row mark_winner_usage_row decode_job now max_utc entries (s_db s) = Commits (db', rows) ->
      admission_step s (with_db db' (WDrained (length entries)) s)
  | a_notify count s : s_worker s = WDrained count -> admission_step s (notify_drained count s)
  | a_worker_append pl s : admission_step s (with_db (append pl (s_db s)).1 (s_worker s) s)
  | a_close s : admission_step s (close s).

(** ** The invariant *)

(** The epoch a producer subscribed in. *)
Definition epoch_of (st : Producer) : option nat :=
  match st with PSubscribed e | PAwaiting e | PParked e => Some e | _ => None end.

Definition admission_inv (s : Sys) : Prop :=
  (* one leader exactly while the flag is up, and none leaves a queue behind *)
  (s_leader_active s = true <-> s_leader s <> LNone)
  /\ (s_leader_active s = false -> s_pending s = [])
  (* whoever awaits a reply is with the leader or in its queue, once *)
  /\ (forall p, p ∈ held (s_leader s) ++ s_pending s <-> exists e, s_producers s !! p = Some (PAwaiting e))
  /\ NoDup (held (s_leader s) ++ s_pending s)
  (* whoever is parked and not yet woken waits for a full journal *)
  /\ (forall p e, s_producers s !! p = Some (PParked e) -> (s_epoch s <= e)%nat -> s_closed s = false ->
       MAX_PENDING_JOBS <= depth (s_db s) \/ exists n, s_worker s = WDrained n /\ (0 < n)%nat)
  (* whoever was accepted has its row *)
  /\ (forall p id, s_producers s !! p = Some (PDone id) -> (id, payload p) ∈ db_admitted (s_db s))
  /\ (forall n, s_worker s = WDrained n -> (0 < n)%nat)
  (* nobody subscribed in the future *)
  /\ (forall p st e, s_producers s !! p = Some st -> epoch_of st = Some e -> (e <= s_epoch s)%nat).

(** ** Lemmas: appending a batch *)

Lemma append_each_spec payloads (db : @Db UsageInput T) :
  let out := append_each payloads db in
  length out.2 = length payloads
  /\ depth db <= depth out.1
  /\ (forall e, e ∈ db_admitted db -> e ∈ db_admitted out.1)
  /\ (forall i id pl, out.2 !! i = Some (inl id) -> payloads !! i = Some pl -> (id, pl) ∈ db_admitted out.1)
  /\ (forall i err, out.2 !! i = Some (inr err) ->
       err = JournalCapacityExhausted /\ MAX_PENDING_JOBS <= depth out.1).
Proof using Type.
  clear. revert db. induction payloads as [|pl payloads IH]; intros db; [done|].
  cbn [append_each]. unfold append. destruct (Z.leb_spec MAX_PENDING_JOBS (depth db)) as [Hfull|Hfree].
  - specialize (IH db). destruct (append_each payloads db) as [db' rs]. destruct IH as (I1 & I2 & I3 & I4 & I5).
    simpl in *. split_and!; [by rewrite I1|done|done| |].
    + intros [|i] id pl'; simpl; [done|]. apply I4.
    + intros [|i] err; simpl; [|apply I5]. intros [= <-]. split; [done|lia].
  - pose proof (IH (insert_payload pl db).1) as IH'. unfold insert_payload in *. simpl in IH'.
    destruct (append_each payloads _) as [db' rs]. destruct IH' as (I1 & I2 & I3 & I4 & I5). simpl in *.
    split_and!; [by rewrite I1| | | |].
    + unfold depth in *. simpl in I2. rewrite length_app in I2. simpl in I2. lia.
    + intros e He. apply I3. set_solver.
    + intros [|i] id pl'; simpl; [|apply I4]. intros [= <-] [= <-]. apply I3. set_solver.
    + intros [|i] err; simpl; [done|apply I5].
Qed.

(** ** Lemmas: replies *)

Lemma reply_ne p q r ps : p <> q -> reply q r ps !! p = ps !! p.
Proof. intros H. unfold reply. destruct (ps !! q) as [[]|]; try done. by rewrite lookup_insert_ne. Qed.

Lemma reply_all_other p batch rs ps : p ∉ batch -> reply_all batch rs ps !! p = ps !! p.
Proof.
  revert rs ps. induction batch as [|q batch IH]; intros [|r rs] ps Hp; try done. simpl.
  rewrite IH by set_solver. apply reply_ne. set_solver.
Qed.

(** After the replies a producer is as before, or it was answered. *)
Lemma reply_all_spec batch rs ps p st :
  NoDup batch -> length rs = length batch ->
  (forall q, q ∈ batch -> exists e, ps !! q = Some (PAwaiting e)) ->
  reply_all batch rs ps !! p = Some st ->
  (p ∉ batch /\ ps !! p = Some st)
  \/ exists i e r, batch !! i = Some p /\ rs !! i = Some r /\ ps !! p = Some (PAwaiting e) /\ st = on_reply e r.
Proof.
  revert rs ps. induction batch as [|q batch IH]; intros [|r rs] ps Hnd Hlen Haw Hst; try done.
  { left. split; [set_solver|done]. }
  apply NoDup_cons in Hnd as [Hq Hnd]. simpl in Hst. destruct (decide (p = q)) as [->|Hne].
  - rewrite reply_all_other in Hst by done. destruct (Haw q ltac:(by left)) as [e He].
    unfold reply in Hst. rewrite He, lookup_insert_eq in Hst. simplify_eq. right. by exists 0%nat, e, r.
  - apply IH in Hst; [|done|by injection Hlen|].
    + rewrite reply_ne in Hst by done. destruct Hst as [[? ?]|(i & e & r' & ? & ? & ? & ?)].
      * left. split; [set_solver|done].
      * right. by exists (S i), e, r'.
    + intros q' Hq'. rewrite reply_ne by (intros ->; done). apply Haw. by right.
Qed.

Lemma on_reply_not_awaiting e r e' : on_reply e r <> PAwaiting e'.
Proof. destruct r as [|[]]; done. Qed.

(** The replies to a part of those who await leave exactly the others waiting. *)
Lemma reply_all_awaiting batch rest rs ps p :
  NoDup (batch ++ rest) -> length rs = length batch ->
  (forall q, q ∈ batch ++ rest <-> exists e, ps !! q = Some (PAwaiting e)) ->
  p ∈ rest <-> exists e, reply_all batch rs ps !! p = Some (PAwaiting e).
Proof.
  intros (Hnd & Hdis & _)%NoDup_app Hlen Haw.
  assert (forall q, q ∈ batch -> exists e, ps !! q = Some (PAwaiting e)) as Hb by (intros q Hq; apply Haw; set_solver).
  split.
  - intros Hp. rewrite reply_all_other by (intros Hin; by apply (Hdis p)). apply Haw. set_solver.
  - intros [e He].
    destruct (reply_all_spec batch rs ps p _ Hnd Hlen Hb He) as [[Hp He']|(i & e' & r & _ & _ & _ & He')].
    + assert (p ∈ batch ++ rest) as Hin by (apply Haw; eauto). set_solver.
    + by apply eq_sym, on_reply_not_awaiting in He'.
Qed.

(** ** Lemmas: the steps preserve the invariant *)

Lemma inv_sys_new db : admission_inv (sys_new db).
Proof. split_and!; simpl; try done; [set_solver|by constructor|..]; intros; by rewrite lookup_empty in *. Qed.

(** A step of a producer that neither awaits nor parks. *)
Lemma inv_set_producer p st s :
  admission_inv s -> (forall e, s_producers s !! p <> Some (PAwaiting e)) ->
  (forall e, st <> PAwaiting e) -> (forall e, st <> PParked e) -> (forall id, st <> PDone id) ->
  (forall e, epoch_of st = Some e -> (e <= s_epoch s)%nat) ->
  admission_inv (set_producer p st s).
Proof.
  intros (H1 & H2 & H3 & H4 & H5 & H6 & H7 & H8) Hold Ha Hp Hd He. split_and!; simpl; try done.
  - intros q. rewrite H3. destruct (decide (q = p)) as [->|Hne].
    + rewrite lookup_insert_eq. naive_solver.
    + by rewrite lookup_insert_ne.
  - intros q e. destruct (decide (q = p)) as [->|Hne].
    + rewrite lookup_insert_eq. naive_solver.
    + rewrite lookup_insert_ne by done. apply H5.
  - intros q id. destruct (decide (q = p)) as [->|Hne].
    + rewrite lookup_insert_eq. naive_solver.
    + rewrite lookup_insert_ne by done. apply H6.
  - intros q st' e. destruct (decide (q = p)) as [->|Hne].
    + rewrite lookup_insert_eq. intros [= <-]. apply He.
    + rewrite lookup_insert_ne by done. apply H8.
Qed.

Lemma inv_admit p e s :
  admission_inv s -> s_producers s !! p = Some (PSubscribed e) -> admission_inv (admit_payload p e s).
Proof.
  intros (H1 & H2 & H3 & H4 & H5 & H6 & H7 & H8) Hp.
  assert (p ∉ held (s_leader s) ++ s_pending s) as Hfresh by (rewrite H3; intros [e' ?]; congruence).
  assert (held (if negb (s_leader_active s) then LReady else s_leader s) = held (s_leader s)) as Hheld.
  { destruct (s_leader_active s); [done|]. simpl. destruct (s_leader s) eqn:E; try done.
    exfalso. assert (false = true) by (by apply H1). done. }
  unfold admit_payload. split_and!; simpl; rewrite ?Hheld; try done.
  - split; [|done]. intros _. destruct (s_leader_active s) eqn:E; simpl; [by apply H1|done].
  - intros q. rewrite app_assoc, elem_of_app, H3, list_elem_of_singleton. destruct (decide (q = p)) as [->|Hne].
    + rewrite lookup_insert_eq. naive_solver.
    + rewrite lookup_insert_ne by done. naive_solver.
  - rewrite app_assoc. apply NoDup_app. split_and!; [done|set_solver|apply NoDup_singleton].
  - intros q e'. destruct (decide (q = p)) as [->|Hne]; [by rewrite lookup_insert_eq|].
    rewrite lookup_insert_ne by done. apply H5.
  - intros q id. destruct (decide (q = p)) as [->|Hne]; [by rewrite lookup_insert_eq|].
    rewrite lookup_insert_ne by done. apply H6.
  - intros q st e'. destruct (decide (q = p)) as [->|Hne].
    + rewrite lookup_insert_eq. intros [= <-] [= <-]. by apply (H8 p (PSubscribed e)).
    + rewrite lookup_insert_ne by done. apply H8.
Qed.

Lemma inv_take s : admission_inv s -> s_leader s = LReady -> admission_inv (leader_take s).
Proof.
  intros (H1 & H2 & H3 & H4 & H5 & H6 & H7 & H8) Hl. unfold leader_take. rewrite Hl in *. simpl in *.
  destruct (s_pending s) as [|q pending] eqn:Ep.
  - split_and!; simpl; try done.
  - split_and!; cbn [held s_leader s_pending s_leader_active s_producers s_db s_worker s_epoch s_closed];
      rewrite ?take_drop; try done.
    + split; [done|]. intros _. by apply H1.
    + intros Ha. exfalso. assert (s_leader_active s = true) by (by apply H1). congruence.
    + intros p. cbn [app]. rewrite take_drop. apply H3.
    + cbn [app]. by rewrite take_drop.
Qed.

(** Replies to [batch]; [rest] goes on waiting in the new queue. *)
Lemma inv_reply batch rest rs db la l s :
  admission_inv s -> held (s_leader s) ++ s_pending s = batch ++ rest -> length rs = length batch ->
  held l = [] -> (la = true <-> l <> LNone) -> (la = false -> rest = []) ->
  depth (s_db s) <= depth db -> (forall e, e ∈ db_admitted (s_db s) -> e ∈ db_admitted db) ->
  (forall i p id, batch !! i = Some p -> rs !! i = Some (inl id) -> (id, payload p) ∈ db_admitted db) ->
  (forall i, rs !! i = Some (inr JournalCapacityExhausted) -> MAX_PENDING_JOBS <= depth db) ->
  admission_inv (mkSys db rest la l (s_worker s) (s_epoch s) (s_closed s) (reply_all batch rs (s_producers s))).
Proof.
  intros (H1 & H2 & H3 & H4 & H5 & H6 & H7 & H8) Hsplit Hlen Hheld Hla Hrest Hdep Hadm Hok Herr.
  rewrite Hsplit in *. pose proof (proj1 (NoDup_app _ _) H4) as (Hnd & _ & Hndr).
  assert (forall q, q ∈ batch -> exists e, s_producers s !! q = Some (PAwaiting e)) as Haw.
  { intros q Hq. apply H3. set_solver. }
  split_and!; simpl; rewrite ?Hheld; try done.
  - intros p. simpl. by apply reply_all_awaiting.
  - intros p e Hp He Hc. apply reply_all_spec in Hp as [[_ Hp]|(i & e' & r & Hb & Hr & _ & Hp)]; try done.
    + destruct (H5 p e Hp He Hc) as [?|?]; [left; lia|by right].
    + destruct r as [id|err]; [done|]. destruct err; simplify_eq/=. left. by eapply Herr.
  - intros p id Hp. apply reply_all_spec in Hp as [[_ Hp]|(i & e' & r & Hb & Hr & _ & Hp)]; try done.
    + eauto.
    + destruct r as [id'|err]; [|by destruct err]. simplify_eq/=. eauto.
  - intros p st e Hp He. apply reply_all_spec in Hp as [[_ Hp]|(i & e' & r & Hb & Hr & Hp & ->)]; try done; [eauto|].
    apply (H8 p (PAwaiting e')); [done|]. destruct r as [id|err]; [done|]. by destruct err.
Qed.

Lemma inv_commit batch s :
  admission_inv s -> s_leader s = LHolding batch -> admission_inv (leader_commit batch s).
Proof.
  intros Hinv Hl. unfold leader_commit. rewrite append_batch_each.
  destruct (append_each_spec (payload <$> batch) (s_db s)) as (I1 & I2 & I3 & I4 & I5).
  destruct (append_each (payload <$> batch) (s_db s)) as [db rs]. simpl in *. rewrite length_fmap in I1.
  assert (s_leader_active s = true) as Hact by (apply Hinv; by rewrite Hl).
  apply (inv_reply batch (s_pending s)); try done.
  - by rewrite Hl.
  - by rewrite Hact.
  - intros i p id Hp Hr. eapply I4; [done|]. by rewrite list_lookup_fmap, Hp.
  - intros i Hr. by apply I5 in Hr as [_ ?].
Qed.

Lemma inv_commit_fails batch err s :
  admission_inv s -> s_leader s = LHolding batch -> err <> JournalCapacityExhausted ->
  admission_inv (leader_commit_fails batch err s).
Proof.
  intros Hinv Hl Herr. assert (s_leader_active s = true) as Hact by (apply Hinv; by rewrite Hl).
  apply (inv_reply batch (s_pending s)); try done.
  - by rewrite Hl.
  - by rewrite length_replicate.
  - by rewrite Hact.
  - intros i p id _ [? _]%lookup_replicate. done.
  - intros i [? _]%lookup_replicate. congruence.
Qed.

Lemma inv_drop s : admission_inv s -> admission_inv (leader_drop s).
Proof.
  intros Hinv. apply (inv_reply (held (s_leader s) ++ s_pending s) []); try done.
  - by rewrite app_nil_r.
  - by rewrite length_replicate.
  - intros i p id _ [? _]%lookup_replicate. done.
  - intros i [? _]%lookup_replicate. done.
Qed.

Lemma apply_batch_admitted now entries (db db' : @Db UsageInput T) rows :
  apply_batch record_row mark_winner_usage_row decode_job now max_utc entries db = Commits (db', rows) ->
  db_admitted db' = db_admitted db.
Proof.
  revert db rows. induction entries as [|[id p] entries IH]; intros db rows H; [by simplify_eq/=|].
  simpl in H. destruct (decode decode_job p) as [job| |]; simpl in H; [|done..].
  destruct (apply_entry _ _ _ _ job id db) as [[db1 row]| |] eqn:E1; simpl in H; [|done..].
  destruct (apply_batch _ _ _ _ _ entries db1) as [[db2 r2]| |] eqn:E2; simpl in H; [|done..]. simplify_eq.
  apply (apply_entry_spec _ _ decode_job) in E1 as [<- _]. by eapply IH.
Qed.

(** A change of the journal by the worker. *)
Lemma inv_with_db db w s :
  admission_inv s -> (forall e, e ∈ db_admitted (s_db s) -> e ∈ db_admitted db) ->
  (forall n, w = WDrained n -> (0 < n)%nat) ->
  (depth (s_db s) <= depth db /\ w = s_worker s \/ exists n, w = WDrained n) ->
  admission_inv (with_db db w s).
Proof.
  intros (H1 & H2 & H3 & H4 & H5 & H6 & H7 & H8) Hadm Hw Hcase. split_and!; simpl; try done.
  - intros p e Hp He Hc. destruct Hcase as [[Hd ->]|[n ->]]; [|right; eauto].
    destruct (H5 p e Hp He Hc) as [?|?]; [left; lia|by right].
  - eauto.
Qed.

Lemma inv_notify count s :
  admission_inv s -> s_worker s = WDrained count -> admission_inv (notify_drained count s).
Proof.
  intros (H1 & H2 & H3 & H4 & H5 & H6 & H7 & H8) Hw. unfold notify_drained.
  rewrite (proj2 (Nat.ltb_lt _ _)) by (by apply H7). split_and!; simpl; try done.
  - intros p e Hp He _. specialize (H8 p (PParked e) e Hp eq_refl). lia.
  - intros p st e Hp He. specialize (H8 p st e Hp He). lia.
Qed.

Lemma inv_close s : admission_inv s -> admission_inv (close s).
Proof.
  intros (H1 & H2 & H3 & H4 & H5 & H6 & H7 & H8). split_and!; simpl; try done.
  intros p st e Hp He. specialize (H8 p st e Hp He). lia.
Qed.

Lemma admission_step_inv s s' : admission_inv s -> admission_step s s' -> admission_inv s'.
Proof.
  intros Hinv Hs. pose proof Hinv as (_ & _ & _ & _ & _ & _ & H7 & _).
  destruct Hs as [p s Hp|p s Hp|p e s Hp|p e s s' Hp Hw|s Hl|batch s Hl|batch err s Hl Herr|s Hl
    |now entries db' rows s Hw Hne Hin Hb|count s Hw|pl s|s].
  - apply inv_set_producer; try done. intros e. congruence.
  - apply inv_set_producer; try done; [intros e; congruence|..]; destruct (s_closed s); try done.
    intros e [= <-]. lia.
  - by apply inv_admit.
  - unfold wake in Hw. destruct (s_closed s); [|destruct (_ <? _)%nat]; simplify_eq;
      apply inv_set_producer; try done; intros e'; congruence.
  - by apply inv_take.
  - by apply inv_commit.
  - by apply inv_commit_fails.
  - by apply inv_drop.
  - apply inv_with_db; try done.
    + by rewrite (apply_batch_admitted _ _ _ _ _ Hb).
    + intros n [= <-]. destruct entries; [done|simpl; lia].
    + right. eauto.
  - by apply inv_notify.
  - destruct (append_each_spec [pl] (s_db s)) as (_ & Hd & Ha & _). simpl in Hd, Ha.
    destruct (append pl (s_db s)) as [db r]. simpl in *. apply inv_with_db; try done. by left.
  - by apply inv_close.
Qed.

(** ** Properties *)

(** C9. Group commit strands nobody.  In every interleaving there is a leader
    exactly while the role is taken and an idle queue is empty; a producer that
    awaits its reply is in the leader's batch or in its queue, and only once;
    one that was told its id has its row in the journal; and one that is
    parked on a full journal, though drains may have happened since it asked,
    has been woken, or the journal is still full, or the worker that drained it
    is about to notify. *)
Theorem admission_strands_nobody db s :
  rtc admission_step (sys_new db) s ->
  (s_leader_active s = true <-> s_leader s <> LNone)
  /\ (s_leader_active s = false -> s_pending s = [])
  /\ NoDup (held (s_leader s) ++ s_pending s)
  /\ (forall p e, s_producers s !! p = Some (PAwaiting e) ->
       s_leader s <> LNone /\ p ∈ held (s_leader s) ++ s_pending s)
  /\ (forall p id, s_producers s !! p = Some (PDone id) -> (id, payload p) ∈ db_admitted (s_db s))
  /\ (forall p e, s_producers s !! p = Some (PParked e) ->
       is_Some (wake p e s) \/ MAX_PENDING_JOBS <= depth (s_db s)
       \/ exists n, s_worker s = WDrained n /\ (0 < n)%nat).
Proof.
  intros Hr. assert (admission_inv s) as (H1 & H2 & H3 & H4 & H5 & H6 & H7 & H8).
  { eapply (rtc_invariant admission_step admission_inv); [|apply inv_sys_new|exact Hr].
    intros x y. apply admission_step_inv. }
  split_and!; try done.
  - intros p e Hp. assert (p ∈ held (s_leader s) ++ s_pending s) as Hin by (apply H3; eauto).
    split; [|done]. intros Hl. destruct (s_leader_active s) eqn:Ea; [by apply H1|].
    rewrite Hl, H2 in Hin by done. simpl in Hin. by apply not_elem_of_nil in Hin.
  - intros p e Hp. unfold wake. destruct (s_closed s) eqn:Ec; [left; eauto|].
    destruct (Nat.ltb_spec e (s_epoch s)); [left; eauto|right]. by apply (H5 p e).
Qed.
End admission.

(** One producer that arrives at an idle queue leads, commits and gets its id. *)
Definition admission_demo : @Sys Z (list Z) :=
  leader_commit (fun _ => "a"%string) [0%nat]
    (leader_take (admit_payload 0 0 (subscribe 0 (set_producer 0 PStart (sys_new journal_demo_db))))).

Lemma admission_strands_nobody_witness :
  s_producers admission_demo !! 0%nat = Some (PDone 4) /\ (4, "a"%string) ∈ db_admitted (s_db admission_demo).
Proof.
  assert (rtc (admission_step demo_record demo_mark demo_decode 100 (fun _ => "a"%string))
            (sys_new journal_demo_db) admission_demo) as Hr.
  { eapply rtc_l; [apply (a_arrive _ _ _ _ _ 0); vm_compute; reflexivity|].
    eapply rtc_l; [apply (a_subscribe _ _ _ _ _ 0); vm_compute; reflexivity|].
    eapply rtc_l; [apply (a_admit _ _ _ _ _ 0 0); vm_compute; reflexivity|].
    eapply rtc_l; [apply a_take; vm_compute; reflexivity|].
    eapply rtc_l; [apply (a_commit _ _ _ _ _ [0%nat]); vm_compute; reflexivity|]. apply rtc_refl. }
  destruct (admission_strands_nobody demo_record demo_mark demo_decode 100 (fun _ => "a"%string) journal_demo_db
    admission_demo Hr) as (_ & _ & _ & _ & H & _).
  assert (s_producers admission_demo !! 0%nat = Some (PDone 4)) as Hp by (vm_compute; reflexivity).
  split; [exact Hp|exact (H 0%nat 4 Hp)].
Defined.
