(* ===== verification/ClientIp.v ===== *)
(** * The address of a client

    Models openproxy-server/src/client_ip.rs: which address a request is
    accounted to when it arrives through reverse proxies, with the CIDR test
    and std's address parsers it relies on.  Header values are bytes. *)

From Stdlib Require Import String.
From S2P Require Import Prelude Text Bytes ThinkExtractor ModelIds.

(** [IpAddr], each family by the integer of its bytes. *)
Inductive IpAddr := V4 (a : Z) | V6 (a : Z).

#[export] Instance IpAddr_eq_dec : EqDecision IpAddr.
Proof. solve_decision. Defined.

(** ** std's parsers

    A parser takes a value off the front of the text or fails, leaving the
    text as it was. *)

Definition Parser (A : Type) : Type := str -> option (A * str).

Definition read_given_char (c : Z) : Parser unit :=
  fun s => match s with b :: s' => if b =? c then Some (tt, s') else None | [] => None end.

Definition to_digit (radix b : Z) : option Z :=
  let d := if is_ascii_digit b then b - 48
           else if (97 <=? lower b) && (lower b <=? 122) then lower b - 87 else radix in
  if d <? radix then Some d else None.

(** [read_number]: the digits, at most [max_digits] of them and within the
    type's maximum [m]; a leading zero is refused unless allowed. *)
Fixpoint read_digits (radix m : Z) (acc : Z) (count : nat) (s : str) : option (Z * nat * str) :=
  match s with
  | [] => Some (acc, count, s)
  | b :: s' =>
      match to_digit radix b with
      | Some d => if acc * radix + d <=? m then read_digits radix m (acc * radix + d) (S count) s' else None
      | None => Some (acc, count, s)
      end
  end.

Definition read_number (radix m : Z) (max_digits : option nat) (allow_zero_prefix : bool) : Parser Z :=
  fun s =>
    match read_digits radix m 0 0 s with
    | Some (v, count, rest) =>
        if (count =? 0)%nat || match max_digits with Some k => (k <? count)%nat | None => false end
           || (negb allow_zero_prefix && byte_at s 0 48 && (1 <? count)%nat)
        then None else Some (v, rest)
    | None => None
    end.

(** [read_separator]: the separator in front of all but the first item. *)
Definition read_separator {A} (sep : Z) (index : nat) (inner : Parser A) : Parser A :=
  fun s => match index with
           | O => inner s
           | S _ => match read_given_char sep s with Some (_, s') => inner s' | None => None end
           end.

Definition read_octet (index : nat) : Parser Z :=
  read_separator DOT index (read_number 10 255 (Some 3%nat) false).

Definition read_ipv4_addr : Parser Z :=
  fun s =>
    '(a, s) ← read_octet 0 s;
    '(b, s) ← read_octet 1 s;
    '(c, s) ← read_octet 2 s;
    '(d, s) ← read_octet 3 s;
    Some (((a * 256 + b) * 256 + c) * 256 + d, s).

(** [read_groups]: up to [limit] groups, the last two of which may be an IPv4
    address; the groups, whether they end in one, and the rest. *)
Fixpoint read_groups (limit i : nat) (s : str) : list Z * bool * str :=
  match limit with
  | O => ([], false, s)
  | S limit' =>
      let group :=
        match read_separator COLON i (read_number 16 65535 (Some 4%nat) true) s with
        | Some (g, s') => let '(gs, v4, rest) := read_groups limit' (S i) s' in (g :: gs, v4, rest)
        | None => ([], false, s)
        end in
      match limit' with
      | S _ => match read_separator COLON i read_ipv4_addr s with
               | Some (a, s') => ([a / 65536; a mod 65536], true, s')
               | None => group
               end
      | O => group
      end
  end.

Definition join_groups (gs : list Z) : Z := foldl (fun acc g => acc * 65536 + g) 0 gs.

Definition read_ipv6_addr : Parser Z :=
  fun s =>
    let '(head, head_ipv4, s) := read_groups 8 0 s in
    if (length head =? 8)%nat then Some (join_groups head, s)
    else if head_ipv4 then None
    else
      '(_, s) ← read_given_char COLON s;
      '(_, s) ← read_given_char COLON s;
      let '(tail, _, s) := read_groups (8 - (length head + 1)) 0 s in
      Some (join_groups (head ++ replicate (8 - length head - length tail) 0 ++ tail), s).

Definition read_ip_addr : Parser IpAddr :=
  fun s => match read_ipv4_addr s with
           | Some (a, s') => Some (V4 a, s')
           | None => match read_ipv6_addr s with Some (a, s') => Some (V6 a, s') | None => None end
           end.

Definition read_port : Parser Z :=
  fun s => '(_, s) ← read_given_char COLON s; read_number 10 65535 None true s.

(** [SocketAddr]: the address of a v4 or of a bracketed v6 with its port. *)
Definition read_socket_ip : Parser IpAddr :=
  fun s =>
    match ('(a, s1) ← read_ipv4_addr s; '(_, s1) ← read_port s1; Some (V4 a, s1)) with
    | Some r => Some r
    | None =>
        '(_, s) ← read_given_char 91 s;
        '(a, s) ← read_ipv6_addr s;
        let s := match ('(_, s1) ← read_given_char 37 s; read_number 10 u32_max None true s1) with
                 | Some (_, s1) => s1
                 | None => s
                 end in
        '(_, s) ← read_given_char 93 s;
        '(_, s) ← read_port s;
        Some (V6 a, s)
    end.

(** [str::parse]: the whole text. *)
Definition parse_whole {A} (p : Parser A) (s : str) : option A :=
  match p s with Some (a, []) => Some a | _ => None end.

(** ** CIDR ranges *)

Definition u128_max : Z := 340282366920938463463374607431768211455.

(** [!0 << (w - prefix_len)] on [w] bits, 0 for an empty prefix. *)
Definition mask_of (w all prefix_len : Z) : Z :=
  if prefix_len =? 0 then 0 else Z.land all (Z.shiftl all (w - prefix_len)).

Definition is_ip_in_cidr (ip : IpAddr) (cidr : str) : bool :=
  let cidr := trim_bytes cidr in
  match split_once SLASH cidr with
  | None => bool_decide (parse_whole read_ip_addr cidr = Some ip)
  | Some (net_str, prefix_str) =>
      match parse_unsigned u8_max (of_bytes prefix_str) with
      | None => false
      | Some prefix_len =>
          match ip, parse_whole read_ip_addr net_str with
          | V4 ip4, Some (V4 net4) =>
              (prefix_len <=? 32)
              && (Z.land ip4 (mask_of 32 u32_max prefix_len) =? Z.land net4 (mask_of 32 u32_max prefix_len))
          | V6 ip6, Some (V6 net6) =>
              (prefix_len <=? 128)
              && (Z.land ip6 (mask_of 128 u128_max prefix_len) =? Z.land net6 (mask_of 128 u128_max prefix_len))
          | _, _ => false
          end
      end
  end.

Definition is_trusted_proxy (ip : IpAddr) (trusted_proxies : list str) : bool :=
  existsb (is_ip_in_cidr ip) trusted_proxies.

(** ** The headers *)

(** [trim_matches(c)]. *)
Fixpoint trim_start_byte (c : Z) (s : str) : str :=
  match s with b :: s' => if b =? c then trim_start_byte c s' else s | [] => [] end.

Definition trim_matches (c : Z) (s : str) : str :=
  reverse (trim_start_byte c (reverse (trim_start_byte c s))).

Definition parse_ip_or_bracketed (val : str) : option IpAddr :=
  let val := trim_matches 34 (trim_bytes val) in
  match val with
  | [] => None
  | b :: rest =>
      match (if b =? 91 then split_once 93 rest else None) with
      | Some (ipv6_str, _) => parse_whole read_ip_addr ipv6_str
      | None => match parse_whole read_socket_ip val with
                | Some ip => Some ip
                | None => parse_whole read_ip_addr val
                end
      end
  end.

(** [HeaderMap::get]: the first value of a name; [to_str]: visible ASCII. *)
Definition header_get (k : string) (headers : list (string * str)) : option str :=
  snd <$> List.find (fun h => String.eqb h.1 k) headers.

Definition to_str (v : str) : option str :=
  if forallb (fun b => ((32 <=? b) && (b <? 127)) || (b =? 9)) v then Some v else None.

Definition rightmost_untrusted (entries : list (option IpAddr)) (trusted_proxies : list str) : option IpAddr :=
  head (omap (fun entry => match entry with
                           | Some ip => if is_trusted_proxy ip trusted_proxies then None else Some ip
                           | None => None
                           end) (reverse entries)).

Definition xff_entries (xff : str) : list (option IpAddr) := parse_ip_or_bracketed <$> split_byte 44 xff.

Definition forwarded_entries (forwarded : str) : list (option IpAddr) :=
  Some <$> omap (fun section =>
                   head (omap (fun part => strip_prefix (bytes_of "for=") (trim_bytes part) ≫= parse_ip_or_bracketed)
                              (split_byte 59 section)))
                (split_byte 44 forwarded).

Definition resolve_client_ip (headers : list (string * str)) (peer_ip : option IpAddr)
    (trusted_proxies : list str) : option IpAddr :=
  let is_trusted := match peer_ip with Some ip => is_trusted_proxy ip trusted_proxies | None => false end in
  if is_trusted then
    match (header_get "x-real-ip" headers ≫= to_str) ≫= parse_ip_or_bracketed with
    | Some real_ip => Some real_ip
    | None =>
        match (xff ← header_get "x-forwarded-for" headers ≫= to_str;
               rightmost_untrusted (xff_entries xff) trusted_proxies) with
        | Some ip => Some ip
        | None =>
            match (fwd ← header_get "forwarded" headers ≫= to_str;
                   rightmost_untrusted (forwarded_entries fwd) trusted_proxies) with
            | Some ip => Some ip
            | None => peer_ip
            end
        end
    end
  else peer_ip.

Example parse_demo :
  parse_whole read_ip_addr (bytes_of "192.168.1.50") = Some (V4 3232235826)
  /\ parse_whole read_ip_addr (bytes_of "2001:db8::1") = Some (V6 42540766411282592856903984951653826561)
  /\ parse_whole read_ip_addr (bytes_of "::ffff:1.2.3.4") = Some (V6 281470698652420)
  /\ parse_whole read_ip_addr (bytes_of "1.2.3.04") = None
  /\ parse_ip_or_bracketed (bytes_of "[2001:db8::1]:443") = Some (V6 42540766411282592856903984951653826561)
  /\ parse_ip_or_bracketed (bytes_of "192.0.2.1:8080") = Some (V4 3221225985).
Proof. by vm_compute. Qed.

Example cidr_demo :
  is_ip_in_cidr (V4 3232235826) (bytes_of "192.168.1.0/24") = true
  /\ is_ip_in_cidr (V4 3232235826) (bytes_of "192.168.2.0/24") = false
  /\ is_ip_in_cidr (V4 3232235826) (bytes_of "0.0.0.0/0") = true
  /\ is_ip_in_cidr (V4 3232235826) (bytes_of "192.168.1.0/33") = false
  /\ is_ip_in_cidr (V6 42540766411282592856903984951653826561) (bytes_of "2001:db8::/32") = true.
Proof. by vm_compute. Qed.

(** ** Lemmas: ranges *)

Definition valid_ip (ip : IpAddr) : Prop :=
  match ip with V4 a => 0 <= a < 2 ^ 32 | V6 a => 0 <= a < 2 ^ 128 end.


Lemma read_digits_bound radix m acc count s v n rest :
  0 <= acc <= m -> 0 <= radix -> read_digits radix m acc count s = Some (v, n, rest) -> 0 <= v <= m.
Proof.
  intros Hacc Hr. revert acc count Hacc. induction s as [|b s IH]; simpl; intros acc count Hacc H; [naive_solver|].
  destruct (to_digit radix b) as [d|] eqn:Ed; [|naive_solver].
  destruct (Z.leb_spec (acc * radix + d) m); [|done]. apply (IH (acc * radix + d) (S count)); [|done].
  split; [|done]. unfold to_digit in Ed. case_match eqn:E; [|done]. simplify_eq. zbool.
  unfold is_ascii_digit in *. destruct ((48 <=? b) && (b <=? 57)) eqn:E1; zbool; [nia|].
  destruct ((97 <=? lower b) && (lower b <=? 122)) eqn:E2; zbool; nia.
Qed.

Lemma read_number_bound radix m md z s v rest :
  0 <= m -> 0 <= radix -> read_number radix m md z s = Some (v, rest) -> 0 <= v <= m.
Proof.
  intros Hm Hr. unfold read_number. destruct (read_digits _ _ _ _ s) as [[[w n] r]|] eqn:E; [|done].
  case_match; [done|]. intros [= <- <-]. by eapply read_digits_bound; [|done|exact E].
Qed.

Lemma read_separator_bound sep i (inner : Parser Z) (P : Z -> Prop) :
  (forall s v r, inner s = Some (v, r) -> P v) ->
  forall s v r, read_separator sep i inner s = Some (v, r) -> P v.
Proof.
  intros H s v r. unfold read_separator. destruct i; [apply H|].
  destruct (read_given_char sep s) as [[[] s']|]; [apply H|done].
Qed.

Lemma read_octet_bound i s v r : read_octet i s = Some (v, r) -> 0 <= v <= 255.
Proof. apply (read_separator_bound _ _ _ (fun v => 0 <= v <= 255)). intros s' v' r'. apply read_number_bound; lia. Qed.

Lemma read_ipv4_bound s a r : read_ipv4_addr s = Some (a, r) -> 0 <= a < 2 ^ 32.
Proof.
  unfold read_ipv4_addr. intros H.
  destruct (read_octet 0 s) as [[a0 s0]|] eqn:E0; cbn [mbind option_bind] in H; [|done].
  destruct (read_octet 1 s0) as [[a1 s1]|] eqn:E1; cbn [mbind option_bind] in H; [|done].
  destruct (read_octet 2 s1) as [[a2 s2]|] eqn:E2; cbn [mbind option_bind] in H; [|done].
  destruct (read_octet 3 s2) as [[a3 s3]|] eqn:E3; cbn [mbind option_bind] in H; [|done]. simplify_eq.
  apply read_octet_bound in E0, E1, E2, E3. lia.
Qed.

Lemma read_groups_bound limit i s gs v4 rest :
  read_groups limit i s = (gs, v4, rest) -> Forall (fun g => 0 <= g < 65536) gs /\ (length gs <= limit)%nat.
Proof.
  revert i s gs v4 rest. induction limit as [|limit IH]; intros i s gs v4 rest H; cbn [read_groups] in H.
  { simplify_eq. split; [constructor|done]. }
  assert (forall o, o = match read_separator COLON i (read_number 16 65535 (Some 4%nat) true) s with
        | Some (g, s') => let '(gs, v4, rest) := read_groups limit (S i) s' in (g :: gs, v4, rest)
        | None => ([], false, s)
        end -> o = (gs, v4, rest) -> Forall (fun g => 0 <= g < 65536) gs /\ (length gs <= S limit)%nat) as Hgroup.
  { intros o -> Ho. destruct (read_separator _ _ _ s) as [[g s']|] eqn:Eg.
    - destruct (read_groups limit (S i) s') as [[gs' v'] r'] eqn:Er. simplify_eq.
      destruct (IH _ _ _ _ _ Er) as [Hf Hl]. split; [|simpl; lia]. constructor; [|done].
      apply (read_separator_bound _ _ _ (fun g => 0 <= g < 65536)) in Eg; [done|].
      intros s0 v0 r0 H0. apply read_number_bound in H0; lia.
    - simplify_eq. split; [constructor|simpl; lia]. }
  destruct limit as [|limit]; [by eapply Hgroup|].
  destruct (read_separator COLON i read_ipv4_addr s) as [[a s']|] eqn:E4; [|by eapply Hgroup].
  simplify_eq. apply (read_separator_bound _ _ _ (fun a => 0 <= a < 2 ^ 32)) in E4; [|apply read_ipv4_bound].
  cbn beta in E4. assert (0 <= a mod 65536 < 65536) by (apply Z.mod_pos_bound; lia).
  assert (0 <= a / 65536 < 65536) by (split; [apply Z.div_pos; lia|apply Z.div_lt_upper_bound; lia]).
  split; [|simpl; lia]. constructor; [lia|constructor; [lia|constructor]].
Qed.

Lemma join_groups_bound gs : Forall (fun g => 0 <= g < 65536) gs -> 0 <= join_groups gs < 65536 ^ Z.of_nat (length gs).
Proof.
  intros H. unfold join_groups. induction gs as [|g gs IH] using rev_ind; [simpl; lia|].
  apply Forall_app in H as [H1 [Hg _]%Forall_cons]. rewrite foldl_snoc, length_app. cbn [length].
  rewrite Nat2Z.inj_add, Z.pow_add_r by lia. specialize (IH H1). change (65536 ^ Z.of_nat 1) with 65536. lia.
Qed.

Lemma read_ipv6_bound s a r : read_ipv6_addr s = Some (a, r) -> 0 <= a < 2 ^ 128.
Proof.
  unfold read_ipv6_addr. destruct (read_groups 8 0 s) as [[hd hv] s1] eqn:E1.
  destruct (read_groups_bound _ _ _ _ _ _ E1) as [Hf Hl].
  change (2 ^ 128) with (65536 ^ Z.of_nat 8). destruct (Nat.eqb_spec (length hd) 8) as [H8|H8].
  { intros [= <- <-]. rewrite <- H8. by apply join_groups_bound. }
  destruct hv; [done|]. intros H.
  destruct (read_given_char COLON s1) as [[[] s2]|]; cbn [mbind option_bind] in H; [|done].
  destruct (read_given_char COLON s2) as [[[] s3]|]; cbn [mbind option_bind] in H; [|done].
  destruct (read_groups (8 - (length hd + 1)) 0 s3) as [[tl tv] s4] eqn:E2.
  destruct (read_groups_bound _ _ _ _ _ _ E2) as [Hf2 Hl2]. simplify_eq.
  set (gs := hd ++ replicate (8 - length hd - length tl) 0 ++ tl).
  assert (length gs = 8)%nat as <- by (unfold gs; rewrite !length_app, length_replicate; lia).
  apply join_groups_bound. apply Forall_app. split; [done|]. apply Forall_app. split; [|done].
  apply Forall_replicate. lia.
Qed.

Lemma parse_ip_valid s ip : parse_whole read_ip_addr s = Some ip -> valid_ip ip.
Proof.
  unfold parse_whole, read_ip_addr. destruct (read_ipv4_addr s) as [[a r]|] eqn:E4.
  - destruct r; [|done]. intros [= <-]. by eapply read_ipv4_bound.
  - destruct (read_ipv6_addr s) as [[a r]|] eqn:E6; [|done]. destruct r; [|done].
    intros [= <-]. by eapply read_ipv6_bound.
Qed.

(** ** Lemmas: masks *)

Lemma mask_top w p a :
  0 < w -> 0 <= p <= w -> 0 <= a < 2 ^ w ->
  Z.land a (mask_of w (2 ^ w - 1) p) = a / 2 ^ (w - p) * 2 ^ (w - p).
Proof.
  intros Hw Hp Ha. unfold mask_of. destruct (Z.eqb_spec p 0) as [->|Hp0].
  - rewrite Z.land_0_r, Z.sub_0_r, Z.div_small by done. lia.
  - rewrite <- Z.shiftr_div_pow2, <- Z.shiftl_mul_pow2 by lia.
    replace (2 ^ w - 1) with (Z.ones w) by (rewrite Z.ones_equiv; lia).
    apply Z.bits_inj'. intros n Hn. rewrite !Z.land_spec, Z.testbit_ones_nonneg by lia.
    rewrite !Z.shiftl_spec by lia.
    destruct (Z.ltb_spec n w) as [Hnw|Hnw].
    + simpl. destruct (Z.lt_ge_cases n (w - p)) as [Hlt|Hge].
      * rewrite !(Z.testbit_neg_r _ (n - (w - p))) by lia. by rewrite andb_false_r.
      * rewrite Z.testbit_ones_nonneg by lia. rewrite (proj2 (Z.ltb_lt _ _)) by lia.
        rewrite Z.shiftr_spec by lia. rewrite andb_true_r. f_equal. lia.
    + rewrite andb_false_r. rewrite Z.shiftr_spec by lia. replace (n - (w - p) + (w - p)) with n by lia.
      symmetry. destruct (Z.eq_dec a 0) as [->|]; [apply Z.bits_0|].
      apply Z.bits_above_log2; [lia|]. apply Z.log2_lt_pow2; [lia|].
      eapply Z.lt_le_trans; [apply Ha|]. by apply Z.pow_le_mono_r; lia.
Qed.

Lemma masked_eq w p a b :
  0 < w -> 0 <= p <= w -> 0 <= a < 2 ^ w -> 0 <= b < 2 ^ w ->
  (Z.land a (mask_of w (2 ^ w - 1) p) =? Z.land b (mask_of w (2 ^ w - 1) p))
  = (a / 2 ^ (w - p) =? b / 2 ^ (w - p)).
Proof.
  intros Hw Hp Ha Hb. rewrite !mask_top by done.
  assert (0 < 2 ^ (w - p)) by (apply Z.pow_pos_nonneg; lia).
  apply eq_true_iff_eq. rewrite !Z.eqb_eq. nia.
Qed.

Lemma rightmost_app l1 l2 tp ip :
  rightmost_untrusted l2 tp = Some ip -> rightmost_untrusted (l1 ++ l2) tp = Some ip.
Proof.
  unfold rightmost_untrusted. rewrite reverse_app, omap_app. by destruct (omap _ (reverse l2)).
Qed.

(** ** Properties *)

(** The [len] leading bits of two addresses of one family agree. *)
Definition same_network (a b : IpAddr) (len : Z) : Prop :=
  match a, b with
  | V4 a, V4 b => len <= 32 /\ a / 2 ^ (32 - len) = b / 2 ^ (32 - len)
  | V6 a, V6 b => len <= 128 /\ a / 2 ^ (128 - len) = b / 2 ^ (128 - len)
  | _, _ => False
  end.

Lemma cidr_match_network ip net len :
  0 <= len -> valid_ip ip -> valid_ip net ->
  match ip, net with
  | V4 a, V4 b => (len <=? 32) && (Z.land a (mask_of 32 u32_max len) =? Z.land b (mask_of 32 u32_max len))
  | V6 a, V6 b => (len <=? 128) && (Z.land a (mask_of 128 u128_max len) =? Z.land b (mask_of 128 u128_max len))
  | _, _ => false
  end = true <-> same_network ip net len.
Proof.
  intros Hlen Hip Hnet. change u32_max with (2 ^ 32 - 1). change u128_max with (2 ^ 128 - 1).
  destruct ip as [a|a], net as [b|b]; unfold valid_ip in *; unfold same_network; try done;
    rewrite andb_true_iff, Z.leb_le; split; intros [H1 H2]; (split; [done|]);
    [rewrite masked_eq in H2 by lia|rewrite masked_eq by lia|rewrite masked_eq in H2 by lia|rewrite masked_eq by lia];
    by apply Z.eqb_eq.
Qed.

(** A CIDR entry covers exactly the addresses of its family that agree
    with its network on the leading bits its length names; a length beyond the
    width, an unreadable length or network, or the other family never match,
    and an entry without a length matches that one address. *)
Lemma cidr_is_prefix_match ip cidr :
  valid_ip ip ->
  is_ip_in_cidr ip cidr = true <->
  match split_once SLASH (trim_bytes cidr) with
  | None => parse_whole read_ip_addr (trim_bytes cidr) = Some ip
  | Some (net_str, len_str) =>
      exists net len, parse_whole read_ip_addr net_str = Some net
                      /\ parse_unsigned u8_max (of_bytes len_str) = Some len /\ same_network ip net len
  end.
Proof.
  intros Hip. unfold is_ip_in_cidr. destruct (split_once SLASH (trim_bytes cidr)) as [[ns ls]|].
  2: { by rewrite bool_decide_eq_true. }
  destruct (parse_unsigned u8_max (of_bytes ls)) as [len|] eqn:El; [|naive_solver].
  assert (0 <= len) as Hlen by by eapply parse_unsigned_nonneg.
  destruct (parse_whole read_ip_addr ns) as [net|] eqn:En; [|destruct ip; naive_solver].
  pose proof (cidr_match_network ip net len Hlen Hip (parse_ip_valid _ _ En)) as Hm.
  destruct ip, net; rewrite Hm; naive_solver.
Qed.

Lemma cidr_is_prefix_match_witness :
  is_ip_in_cidr (V4 3232235826) (bytes_of " 192.168.1.0/24 ") = true.
Proof.
  apply (cidr_is_prefix_match (V4 3232235826) (bytes_of " 192.168.1.0/24 ")); [zvm|].
  assert (split_once SLASH (trim_bytes (bytes_of " 192.168.1.0/24 "))
    = Some (bytes_of "192.168.1.0", bytes_of "24")) as -> by (vm_compute; reflexivity).
  exists (V4 3232235776), 24. split; [vm_compute; reflexivity|]. split; [vm_compute; reflexivity|].
  unfold same_network. split; vm_compute; [discriminate|reflexivity].
Defined.



(** Two ways around the appended entry: a second header line is not read, and
    a byte outside ASCII makes the whole header unreadable, so that the
    client's own [Forwarded] decides. *)
Example forwarded_for_bypasses :
  resolve_client_ip [("x-forwarded-for", bytes_of "1.2.3.4");
                     ("x-forwarded-for", bytes_of "198.51.100.42")]%string
    (Some (V4 167772169)) [bytes_of "10.0.0.0/8"] = Some (V4 16909060)
  /\ resolve_client_ip [("x-forwarded-for", 255 :: bytes_of ", 198.51.100.42");
                        ("forwarded", bytes_of "for=1.2.3.4")]%string
    (Some (V4 167772169)) [bytes_of "10.0.0.0/8"] = Some (V4 16909060).
Proof. by vm_compute. Qed.
