(* ===== verification/StreamNormalizer.v ===== *)
(** * Normalisation of streamed chunks

    Models openproxy-pipeline/src/streaming_state/normalizer.rs: the arguments
    of tool calls are forwarded as fragments although some upstreams repeat the
    running total, frames an upstream wrapped into [delta.content] are
    unwrapped, and blocks of reasoning move to [reasoning_content].

    Strings are bytes.  serde's decoding of the nested frame is the parameter
    [probe_of], the printing of a JSON number the parameter [number_string]. *)

From Stdlib Require Import String.
From S2P Require Import Prelude Text Bytes ThinkExtractor.

(** ** Tool call arguments *)

Definition MAX_TOOL_CALL_ARGS_BYTES : Z := 1048576.
Definition MAX_TOOL_CALL_INDICES : nat := 256.

(** [HashMap<u64, String>]: the running total of each tool call. *)
Notation ToolCallAccumulator := (gmap Z str).

Definition extract_argument_fragment (prev arguments : str) : str :=
  match prev with
  | [] => arguments
  | _ => default arguments (strip_prefix prev arguments)
  end.

Definition tool_process (index : Z) (arguments : str) (acc : ToolCallAccumulator)
    : ToolCallAccumulator * str :=
  if bool_decide (acc !! index = None) && (MAX_TOOL_CALL_INDICES <=? size acc)%nat then (acc, [])
  else
    let prev := default [] (acc !! index) in
    let acc := <[index := prev]> acc in
    let fragment := extract_argument_fragment prev arguments in
    if MAX_TOOL_CALL_ARGS_BYTES <? Z.of_nat (length prev + length fragment) then (acc, [])
    else (<[index := prev ++ fragment]> acc, fragment).

(** ** The delta of a choice *)

(** The fields of [FastDelta] that are read; [d_extra_reasoning] tells whether
    the flattened rest has a [reasoning_content]. *)
Record Delta := mkDelta {
  d_content : option str;
  d_reasoning : option str;
  d_extra_reasoning : bool;
  d_tool_calls : list (option Z * option str)
}.

(** What the probe of a nested frame sees. *)
Record NestedDelta := mkNestedDelta {
  n_content : option str;
  n_reasoning_content : option str;
  n_reasoning : option str
}.

Record NestedProbe := mkProbe {
  n_choices : option (list (option NestedDelta));
  n_response : option Json
}.

Section normalize.
Context (probe_of : str -> option NestedProbe) (number_string : Json -> str).

Definition response_text (resp : Json) : str :=
  match resp with
  | JStr s => bytes_of s
  | JInt _ | JFloat _ => number_string resp
  | JBool b => bytes_of (if b then "true" else "false")
  | _ => []
  end.

(** [None]: no nested frame; else content, reasoning and whether it is the end. *)
Definition unwrap_nested_sse_content (content : str) : option (option str * option str * bool) :=
  let trimmed := trim_bytes content in
  if negb (bool_decide (bytes_of "data:" `prefix_of` trimmed)) then None
  else
    let payload := trim_bytes (drop 5 trimmed) in
    if bool_decide (payload = bytes_of "[DONE]") then Some (None, None, true)
    else if negb (bool_decide (bytes_of "{" `prefix_of` payload)) then None
    else match probe_of payload with
         | None => None
         | Some probe =>
             match n_choices probe with
             | Some (Some delta :: _) =>
                 Some (n_content delta,
                       match n_reasoning_content delta with Some r => Some r | None => n_reasoning delta end, false)
             | Some _ => Some (Some [], None, false)
             | None =>
                 match n_response probe with
                 | Some resp => Some (Some (response_text resp), None, false)
                 | None => if contains_bytes (quoted "usage") payload || contains_bytes (quoted "object") payload
                           then Some (Some [], None, false) else None
                 end
             end
         end.

Definition has_native_reasoning (d : Delta) : bool :=
  bool_decide (is_Some (d_reasoning d)) || d_extra_reasoning d.

Definition set_reasoning (r : str) (d : Delta) : Delta :=
  mkDelta (d_content d) (Some r) (d_extra_reasoning d) (d_tool_calls d).

Definition set_content (c : option str) (d : Delta) : Delta :=
  mkDelta c (d_reasoning d) (d_extra_reasoning d) (d_tool_calls d).

Definition normalize_choice_content (d : Delta) (ex : ThinkStreamExtractor)
    : Delta * ThinkStreamExtractor * bool :=
  match d_content d with
  | None => (d, ex, false)
  | Some content =>
      let d := set_content None d in
      match unwrap_nested_sse_content content with
      | Some (_, _, true) => (set_content (Some []) d, ex, true)
      | unwrapped =>
          let '(target_content, direct_reasoning, modified) :=
            match unwrapped with
            | Some (c, r, _) => (c, r, true)
            | None => (Some content, None, false)
            end in
          let '(d, modified) :=
            match direct_reasoning with
            | Some r => if has_native_reasoning d then (d, modified) else (set_reasoning r d, true)
            | None => (d, modified)
            end in
          match target_content with
          | Some c =>
              let '(ex, (clean_content, extracted_reasoning)) := process ex c in
              let '(d, modified) :=
                if negb (bool_decide (extracted_reasoning = [])) && negb (has_native_reasoning d)
                then (set_reasoning extracted_reasoning d, true) else (d, modified) in
              (set_content (Some clean_content) d, ex, modified || negb (bool_decide (clean_content = content)))
          | None => (set_content (Some []) d, ex, modified || negb (bool_decide (content = [])))
          end
      end
  end.

(** The loop over the tool calls of a delta. *)
Fixpoint normalize_tool_calls (tcs : list (option Z * option str)) (acc : ToolCallAccumulator)
    : list (option Z * option str) * ToolCallAccumulator * bool :=
  match tcs with
  | [] => ([], acc, false)
  | (index, Some arguments) :: tcs' =>
      let '(acc, fragment) := tool_process (default 0 index) arguments acc in
      let '(tcs', acc, modified) := normalize_tool_calls tcs' acc in
      ((index, Some fragment) :: tcs', acc, negb (bool_decide (fragment = arguments)) || modified)
  | tc :: tcs' =>
      let '(tcs', acc, modified) := normalize_tool_calls tcs' acc in (tc :: tcs', acc, modified)
  end.

Definition normalize_choice_tool_calls (d : Delta) (acc : ToolCallAccumulator)
    : Delta * ToolCallAccumulator * bool :=
  let '(tcs, acc, modified) := normalize_tool_calls (d_tool_calls d) acc in
  (mkDelta (d_content d) (d_reasoning d) (d_extra_reasoning d) tcs, acc, modified).

End normalize.

(** A stream of argument strings of one tool call: what is forwarded. *)
Fixpoint forward_args (index : Z) (args : list str) (acc : ToolCallAccumulator) : ToolCallAccumulator * list str :=
  match args with
  | [] => (acc, [])
  | a :: args' =>
      let '(acc, f) := tool_process index a acc in
      let '(acc, fs) := forward_args index args' acc in (acc, f :: fs)
  end.

(** ** Lemmas *)

Definition tool_wf (acc : ToolCallAccumulator) : Prop :=
  (size acc <= MAX_TOOL_CALL_INDICES)%nat
  /\ forall i a, acc !! i = Some a -> Z.of_nat (length a) <= MAX_TOOL_CALL_ARGS_BYTES.

(** An extension of the total is cut to what is new. *)
Lemma fragment_of_total prev more : extract_argument_fragment prev (prev ++ more) = more.
Proof.
  unfold extract_argument_fragment. destruct prev as [|b prev]; [done|].
  by rewrite (proj2 (strip_prefix_spec (b :: prev) ((b :: prev) ++ more) more) eq_refl).
Qed.

Lemma tool_process_wf index a acc : tool_wf acc -> tool_wf (tool_process index a acc).1.
Proof.
  intros [Hs Hl]. unfold tool_process. case_bool_decide as E; cbn [andb].
  - destruct (Nat.leb_spec MAX_TOOL_CALL_INDICES (size acc)); [done|]. rewrite E. cbn [default from_option id extract_argument_fragment].
    assert (size (<[index := []]> acc) <= MAX_TOOL_CALL_INDICES)%nat as Hs'
      by (rewrite map_size_insert_None by done; lia).
    destruct (Z.ltb_spec MAX_TOOL_CALL_ARGS_BYTES (Z.of_nat (length (@nil Z) + length a))); cbn [fst].
    + split; [done|]. intros i b. destruct (decide (i = index)) as [->|Hne];
        [rewrite lookup_insert_eq; intros [= <-]; done|rewrite lookup_insert_ne by done; eauto].
    + rewrite insert_insert_eq. split; [by rewrite map_size_insert_None in * by done|].
      intros i b. destruct (decide (i = index)) as [->|Hne];
        [rewrite lookup_insert_eq; by intros [= <-]|rewrite lookup_insert_ne by done; eauto].
  - destruct (acc !! index) as [prev|] eqn:Ep; [|done]. cbn [default from_option id].
    rewrite (insert_id acc index prev) by done.
    destruct (Z.ltb_spec MAX_TOOL_CALL_ARGS_BYTES (Z.of_nat (length prev + length (extract_argument_fragment prev a))));
      cbn [fst]; [done|]. split; [by rewrite map_size_insert_Some by eauto|].
    intros i b. destruct (decide (i = index)) as [->|Hne];
      [rewrite lookup_insert_eq|rewrite lookup_insert_ne by done; eauto].
    intros [= <-]. by rewrite length_app.
Qed.

(** What is forwarded is what is added to the total. *)
Lemma tool_process_total index a acc :
  let '(acc', f) := tool_process index a acc in
  default [] (acc' !! index) = default [] (acc !! index) ++ f
  /\ forall j, j <> index -> acc' !! j = acc !! j.
Proof.
  unfold tool_process. destruct (bool_decide _ && _); [by rewrite app_nil_r|]. destruct (_ <? _); cbn [fst snd].
  - rewrite lookup_insert_eq. cbn [default from_option id]. rewrite app_nil_r. split; [done|]. intros j Hj. by rewrite lookup_insert_ne.
  - rewrite insert_insert_eq, lookup_insert_eq. split; [done|]. intros j Hj. by rewrite lookup_insert_ne.
Qed.

Lemma forward_total index args acc :
  let '(acc', fs) := forward_args index args acc in
  default [] (acc' !! index) = default [] (acc !! index) ++ concat fs.
Proof.
  revert acc. induction args as [|a args IH]; intros acc; simpl; [by rewrite app_nil_r|].
  pose proof (tool_process_total index a acc) as Ht. destruct (tool_process index a acc) as [acc1 f].
  specialize (IH acc1). destruct (forward_args index args acc1) as [acc2 fs]. simpl.
  destruct Ht as [Ht _]. by rewrite IH, Ht, app_assoc.
Qed.

(** An upstream that sends running totals. *)
Inductive cumulative : str -> list str -> Prop :=
  | cum_nil prev : cumulative prev []
  | cum_cons prev a args : prev `prefix_of` a -> cumulative a args -> cumulative prev (a :: args).

Fixpoint last_total (prev : str) (args : list str) : str :=
  match args with [] => prev | a :: args' => last_total a args' end.

Lemma cumulative_length prev args : cumulative prev args -> (length prev <= length (last_total prev args))%nat.
Proof.
  induction 1 as [|prev a args Hp Hc IH]; [done|]. simpl. apply prefix_length in Hp. lia.
Qed.

(** Running totals that fit end up in the table. *)
Lemma forward_cumulative index args acc prev :
  default [] (acc !! index) = prev -> (size acc < MAX_TOOL_CALL_INDICES)%nat \/ is_Some (acc !! index) ->
  cumulative prev args -> Z.of_nat (length (last_total prev args)) <= MAX_TOOL_CALL_ARGS_BYTES ->
  default [] ((forward_args index args acc).1 !! index) = last_total prev args.
Proof.
  intros Hp Hroom Hc. revert acc Hp Hroom. induction Hc as [prev|prev a args [more ->] Hc IH]; intros acc Hp Hroom Hlen; [done|].
  simpl in *. pose proof (cumulative_length _ _ Hc) as Hle. rewrite length_app in Hle.
  unfold tool_process. rewrite Hp, fragment_of_total.
  assert (bool_decide (acc !! index = None) && (MAX_TOOL_CALL_INDICES <=? size acc)%nat = false) as ->.
  { destruct Hroom as [Hr|[v Hr]]; [rewrite (proj2 (Nat.leb_gt _ _) Hr); apply andb_false_r|].
    by rewrite Hr. }
  rewrite (proj2 (Z.ltb_ge _ _)) by lia.
  specialize (IH (<[index := prev ++ more]> (<[index := prev]> acc))).
  destruct (forward_args index args _) as [acc2 fs]. simpl in *.
  apply IH; [by rewrite lookup_insert_eq|right; rewrite lookup_insert_eq; eauto|done].
Qed.

(** ** Properties *)

(** Tool call arguments are forwarded as fragments without
    repetition: what reaches the client adds up to the stored total; an
    upstream that repeats its running total yields exactly the last one as
    long as it fits, and the table stays within 256 calls of 1 MiB each. *)
Lemma tool_arguments_forwarded index args acc :
  tool_wf acc -> acc !! index = None -> (size acc < MAX_TOOL_CALL_INDICES)%nat ->
  let out := forward_args index args acc in
  concat out.2 = default [] (out.1 !! index)
  /\ tool_wf out.1
  /\ (cumulative [] args -> Z.of_nat (length (last_total [] args)) <= MAX_TOOL_CALL_ARGS_BYTES ->
      concat out.2 = last_total [] args).
Proof.
  intros Hwf Hnew Hfree. simpl.
  assert (concat (forward_args index args acc).2 = default [] ((forward_args index args acc).1 !! index)) as Hsum.
  { pose proof (forward_total index args acc) as H. rewrite Hnew in H. by destruct (forward_args index args acc). }
  split; [done|]. split.
  - clear -Hwf. revert acc Hwf. induction args as [|a args IH]; intros acc Hwf; [done|]. simpl.
    pose proof (tool_process_wf index a acc Hwf) as Hwf'. destruct (tool_process index a acc) as [acc1 f].
    specialize (IH acc1 Hwf'). by destruct (forward_args index args acc1).
  - intros Hc Hlen. rewrite Hsum. apply (forward_cumulative index args acc []); [by rewrite Hnew|by left|done|done].
Qed.

Lemma tool_arguments_forwarded_witness :
  concat (forward_args 0 (bytes_of <$> ["[1"; "[1,2"; "[1,2]"]%string) ∅).2 = bytes_of "[1,2]".
Proof.
  destruct (tool_arguments_forwarded 0 (bytes_of <$> ["[1"; "[1,2"; "[1,2]"]%string) ∅) as (_ & _ & H).
  - split; [vm_compute; lia|]. intros i a. rewrite lookup_empty. done.
  - reflexivity.
  - vm_compute. lia.
  - apply H; [|vm_compute; discriminate].
    repeat (constructor; [eexists; vm_compute; reflexivity|]). constructor.
Defined.

(** An upstream that streams fragments loses one that repeats all that came
    before it. *)
Example repeated_fragment_lost :
  concat (forward_args 0 (bytes_of <$> ["["; "["; "1]]"]%string) ∅).2 = bytes_of "[1]]".
Proof. by vm_compute. Qed.
