(* ===== verification/MessageThreads.v ===== *)
(** * Server-side conversation threads

    Models openproxy-pipeline/src/message_threads.rs: for an upstream that can
    continue a conversation by reference, the messages already sent are left
    out when a request extends the recorded conversation.

    The hasher's finish is the parameter [finish], [Value::to_string] the
    parameter [json_to_string]; times are seconds. *)

From Stdlib Require Import String.
From S2P Require Import Prelude Types Text Predictive Modality Executor.

Definition THREAD_IDLE_TIMEOUT : Z := 270.

(** The fields of a message that are compared. *)
Record ThreadMessage := mkThreadMessage {
  tm_message : OpenAIMessage;
  tm_tool_calls : option (list Json);
  tm_tool_call_id : option string
}.

Record ActiveThreadState := mkThreadState {
  th_target_id : option Z;
  th_last_message_id : string;
  th_message_hashes : list Z;
  th_last_activity : Z;
  th_degraded_to_stateless : bool
}.

Notation MessageThreadRegistry := (gmap string ActiveThreadState).

(** The [thread] object added to a request. *)
Inductive ThreadDirective := ThreadCreate | ThreadContinue (previous_message_id : string).

Section threads.
Context (json_to_string : Json -> string) (finish : list hash_item -> Z).

(** What is fed to the hasher, in order. *)
Definition hash_parts (m : ThreadMessage) : list hash_item :=
  [HStr (m_role (tm_message m)); HStr (extract_text_cow json_to_string (tm_message m))]
  ++ ((fun tc => HStr (match as_str tc with Some s => s | None => json_to_string tc end))
      <$> default [] (tm_tool_calls m))
  ++ match tm_tool_call_id m with Some id => [HStr id] | None => [] end.

Definition hash_message (m : ThreadMessage) : Z := finish (hash_parts m).

Definition plan_continuation (now : Z) (session_key : string) (messages : list ThreadMessage)
    (reg : MessageThreadRegistry) : MessageThreadRegistry * option (string * nat) :=
  match reg !! session_key with
  | None => (reg, None)
  | Some entry =>
      if th_degraded_to_stateless entry then (reg, None)
      else if THREAD_IDLE_TIMEOUT <=? now - th_last_activity entry then (delete session_key reg, None)
      else
        let current_hashes := hash_message <$> messages in
        let cached_hashes := th_message_hashes entry in
        if bool_decide (cached_hashes = []) || (length current_hashes <=? length cached_hashes)%nat then (reg, None)
        else if negb (bool_decide (take (length cached_hashes) current_hashes = cached_hashes)) then (reg, None)
        else (reg, Some (th_last_message_id entry, length cached_hashes))
  end.

Definition record_success (now : Z) (session_key : string) (target_id : option Z)
    (messages : list ThreadMessage) (response_message_id : string) (reg : MessageThreadRegistry)
    : MessageThreadRegistry :=
  <[session_key := mkThreadState target_id response_message_id (hash_message <$> messages) now false]> reg.

Definition should_opt_in_synthetic_threads (session_key : string) (reg : MessageThreadRegistry) : bool :=
  match reg !! session_key with Some e => negb (th_degraded_to_stateless e) | None => true end.

Definition invalidate (session_key : string) (reg : MessageThreadRegistry) : MessageThreadRegistry :=
  delete session_key reg.

Definition mark_stateless (session_key : string) (reg : MessageThreadRegistry) : MessageThreadRegistry :=
  alter (fun e => mkThreadState (th_target_id e) (th_last_message_id e) (th_message_hashes e)
                    (th_last_activity e) true) session_key reg.

(** The messages to send and the directive; [applies] is the test of the
    target's format and adapter and of a thread the client set itself. *)
Definition resolve_synthetic_thread_plan (applies : bool) (now : Z) (session_key : string)
    (messages : list ThreadMessage) (reg : MessageThreadRegistry)
    : MessageThreadRegistry * (list ThreadMessage * option ThreadDirective) :=
  if negb applies then (reg, (messages, None))
  else if negb (should_opt_in_synthetic_threads session_key reg) then (reg, (messages, None))
  else
    match plan_continuation now session_key messages reg with
    | (reg, Some (prev_msg_id, slice_from)) =>
        if (slice_from <? length messages)%nat
        then (reg, (drop slice_from messages, Some (ThreadContinue prev_msg_id)))
        else (reg, (messages, None))
    | (reg, None) => (reg, (messages, Some ThreadCreate))
    end.

(** What the executor's error handling does to the registry. *)
Definition apply_thread_op (session_key : string) (op : ThreadOp) (reg : MessageThreadRegistry)
    : MessageThreadRegistry :=
  match op with
  | ThreadInvalidate => invalidate session_key reg
  | ThreadMarkStateless => mark_stateless session_key reg
  end.

(** ** Lemmas *)

Lemma plan_continuation_spec now key messages reg prev n :
  (plan_continuation now key messages reg).2 = Some (prev, n) <->
  exists st, reg !! key = Some st /\ th_degraded_to_stateless st = false
    /\ now - th_last_activity st < THREAD_IDLE_TIMEOUT
    /\ prev = th_last_message_id st /\ n = length (th_message_hashes st) /\ (0 < n < length messages)%nat
    /\ hash_message <$> take n messages = th_message_hashes st.
Proof.
  unfold plan_continuation. destruct (reg !! key) as [st|]; [|split; [done|by intros (? & ? & _)]].
  destruct (th_degraded_to_stateless st) eqn:Ed.
  { split; [done|]. intros (st' & [= <-] & ? & _). congruence. }
  destruct (Z.leb_spec THREAD_IDLE_TIMEOUT (now - th_last_activity st)) as [Hi|Hi].
  { split; [done|]. intros (st' & [= <-] & _ & ? & _). lia. }
  rewrite length_fmap, <- fmap_take.
  destruct (bool_decide_reflect (th_message_hashes st = [])) as [Hn|Hn]; simpl.
  { split; [done|]. intros (st' & [= <-] & _ & _ & _ & -> & H & _). rewrite Hn in H. simpl in H. lia. }
  assert (0 < length (th_message_hashes st))%nat by (destruct (th_message_hashes st); [done|simpl; lia]).
  destruct (Nat.leb_spec (length messages) (length (th_message_hashes st))) as [Hl|Hl].
  { split; [done|]. intros (st' & [= <-] & _ & _ & _ & -> & ? & _). lia. }
  destruct (bool_decide_reflect (hash_message <$> take (length (th_message_hashes st)) messages
    = th_message_hashes st)) as [He|He]; simpl.
  - split; [intros [= <- <-]; by exists st|]. intros (st' & [= <-] & _ & _ & -> & -> & _ & _). done.
  - split; [done|]. intros (st' & [= <-] & _ & _ & _ & -> & _ & ?). done.
Qed.

(** ** Properties *)

(** A continued thread sends what the upstream has not seen.  If a request
    is sent as a continuation, it is the tail of the conversation behind a
    recorded part of at least one message that hashes as it did when it was
    recorded less than 270 seconds ago; otherwise all messages are sent.  And a
    request that extends the conversation recorded by the last success is sent
    as a continuation of exactly its new messages. *)
Lemma thread_sends_the_new_messages applies now key messages reg :
  (let '(sent, directive) := (resolve_synthetic_thread_plan applies now key messages reg).2 in
   match directive with
   | Some (ThreadContinue prev) =>
       exists st old, reg !! key = Some st /\ messages = old ++ sent /\ old <> [] /\ sent <> []
         /\ prev = th_last_message_id st /\ hash_message <$> old = th_message_hashes st
         /\ now - th_last_activity st < THREAD_IDLE_TIMEOUT /\ th_degraded_to_stateless st = false
   | _ => sent = messages
   end)
  /\ forall t0 target old new id,
       old <> [] -> new <> [] -> now - t0 < THREAD_IDLE_TIMEOUT ->
       (resolve_synthetic_thread_plan true now key (old ++ new) (record_success t0 key target old id reg)).2
       = (new, Some (ThreadContinue id)).
Proof.
  split.
  - unfold resolve_synthetic_thread_plan. destruct applies; [|done]. cbn [negb].
    destruct (should_opt_in_synthetic_threads key reg); [|done]. cbn [negb].
    pose proof (plan_continuation_spec now key messages reg) as H.
    destruct (plan_continuation now key messages reg) as [reg' [[prev n]|]]; [|done].
    destruct (proj1 (H prev n) eq_refl) as (st & Hst & Hd & Hi & -> & -> & Hn & Hh).
    rewrite (proj2 (Nat.ltb_lt _ _)) by lia. simpl.
    exists st, (take (length (th_message_hashes st)) messages). rewrite take_drop.
    split_and!; try done.
    + intros E. apply (f_equal length) in E. rewrite length_take in E. simpl in E. lia.
    + intros E. apply (f_equal length) in E. rewrite length_drop in E. simpl in E. lia.
  - intros t0 target old new id Hold Hnew Ht. unfold resolve_synthetic_thread_plan, record_success.
    set (reg' := <[key := _]> reg). cbn [negb].
    assert (should_opt_in_synthetic_threads key reg' = true) as ->
      by (unfold should_opt_in_synthetic_threads, reg'; by rewrite lookup_insert_eq).
    assert ((plan_continuation now key (old ++ new) reg').2 = Some (id, length old)) as Hp.
    { apply plan_continuation_spec. eexists. split; [apply lookup_insert_eq|]. simpl.
      rewrite length_fmap, length_app, take_app_length.
      split_and!; try done; destruct old, new; try done; simpl; lia. }
    destruct (plan_continuation now key (old ++ new) reg') as [reg'' [[i n]|]]; simpl in Hp; simplify_eq.
    rewrite (proj2 (Nat.ltb_lt _ _)) by (rewrite length_app; destruct new; [done|simpl; lia]).
    by rewrite drop_app_length.
Qed.

End threads.

(** The mark that a thread must stay stateless is lost: without a recorded
    thread it is not stored at all, and the next success erases it. *)
Example stateless_mark_is_lost js finish messages :
  should_opt_in_synthetic_threads "s" (apply_thread_op "s" ThreadMarkStateless ∅) = true
  /\ forall reg, should_opt_in_synthetic_threads "s"
       (record_success js finish 0 "s" None messages "id" (apply_thread_op "s" ThreadMarkStateless reg)) = true.
Proof.
  split; [done|]. intros reg. unfold should_opt_in_synthetic_threads, record_success. by rewrite lookup_insert_eq.
Qed.
