(* ===== verification/PiiSession.v ===== *)
(** * Placeholders for personal data

    Models openproxy-pipeline/src/pii/session.rs: a request-scoped session maps
    each original found in a request to a synthetic placeholder and keeps the
    way back.  The mapping that restores a response is
    [restoration_mapping]; the matcher that applies it to text is not modelled.

    Strings are bytes.  Parameters: the order in which a [HashMap] is
    iterated ([iter]) and whether a string has an upper-case character outside
    ASCII ([unicode_upper]). *)

From Stdlib Require Import String.
From stdpp Require Import gmap.
From S2P Require Import Prelude Text Bytes ThinkExtractor ModelIds ClientIp.

Inductive PiiEntity := Email | Phone | Ip | CreditCard | Secret | Person.

#[export] Instance PiiEntity_eq_dec : EqDecision PiiEntity.
Proof. solve_decision. Defined.

#[export] Instance PiiEntity_countable : Countable PiiEntity.
Proof.
  refine (inj_countable'
    (fun e => match e with Email => 0%nat | Phone => 1%nat | Ip => 2%nat
                         | CreditCard => 3%nat | Secret => 4%nat | Person => 5%nat end)
    (fun n => match n with 0%nat => Email | 1%nat => Phone | 2%nat => Ip
                         | 3%nat => CreditCard | 4%nat => Secret | _ => Person end) _).
  by intros [].
Defined.

Definition ALL : list PiiEntity := [Email; Phone; Ip; CreditCard; Secret; Person].

Definition placeholder_prefix (e : PiiEntity) : str :=
  bytes_of match e with
           | Email => "EMAIL" | Phone => "PHONE" | Ip => "IP"
           | CreditCard => "CARD" | Secret => "KEY" | Person => "PERSON"
           end%string.

Record PiiSession := mkSession {
  ps_forward : gmap str str;
  ps_reverse : gmap str str;
  ps_counts : gmap PiiEntity Z;
  ps_reversible : bool;
  ps_entities : gmap str PiiEntity;
  ps_ambiguous : gset str
}.

Definition pii_new (reversible : bool) : PiiSession := mkSession ∅ ∅ ∅ reversible ∅ ∅.

Definition with_counts (c : gmap PiiEntity Z) (s : PiiSession) : PiiSession :=
  mkSession (ps_forward s) (ps_reverse s) c (ps_reversible s) (ps_entities s) (ps_ambiguous s).
Definition with_reverse (r : gmap str str) (s : PiiSession) : PiiSession :=
  mkSession (ps_forward s) r (ps_counts s) (ps_reversible s) (ps_entities s) (ps_ambiguous s).
Definition with_forward (f : gmap str str) (s : PiiSession) : PiiSession :=
  mkSession f (ps_reverse s) (ps_counts s) (ps_reversible s) (ps_entities s) (ps_ambiguous s).

(** ** Formatting *)

Definition USIZE_MAX : Z := u64_max.

(** [{n}] for an integer below [10 ^ 20], and [{n:x}] below [16 ^ 20]. *)
Fixpoint show_fuel (radix : Z) (fuel : nat) (n : Z) (acc : str) : str :=
  let d := n mod radix in
  let acc := (if d <? 10 then 48 + d else 87 + d) :: acc in
  match fuel with
  | O => acc
  | S f => if n <? radix then acc else show_fuel radix f (n / radix) acc
  end.

Definition show (n : Z) : str := show_fuel 10 19 n [].
Definition show_hex (n : Z) : str := show_fuel 16 19 n [].

(** [{s:0>width$}]. *)
Definition pad0 (width : nat) (s : str) : str := replicate (width - length s) 48 ++ s.

Definition SPACE : Z := 32.

Definition FNV_OFFSET : Z := 14695981039346656037.
Definition FNV_PRIME : Z := 1099511628211.

Definition fnv1a_hash (s : str) : Z :=
  foldl (fun hash byte => (Z.lxor hash byte * FNV_PRIME) mod 18446744073709551616) FNV_OFFSET s.

(** ** Credit card numbers *)

Definition luhn_val (double : bool) (b : Z) : Z :=
  let d := default 0 (digit_of b) in
  if double then (if 9 <? d * 2 then d * 2 - 9 else d * 2) else d.

(** The loop over the reversed digits: [double] alternates. *)
Fixpoint luhn_sum (double : bool) (rev_digits : str) : Z :=
  match rev_digits with
  | [] => 0
  | b :: ds => luhn_val double b + luhn_sum (negb double) ds
  end.

Definition compute_luhn_check_digit (digits : str) : Z :=
  (10 - luhn_sum true (reverse digits) mod 10) mod 10.

Definition generate_fake_credit_card (count : Z) (spaced : bool) : str :=
  let base :=
    if count <=? 900 then bytes_of "453201511283" ++ pad0 3 (show (count mod 900 + 100))
    else bytes_of "4532015" ++ pad0 8 (show ((count - 900) mod 90000000 + 1000)) in
  let full := base ++ show (compute_luhn_check_digit base) in
  if spaced
  then take 4 full ++ SPACE :: take 4 (drop 4 full) ++ SPACE :: take 4 (drop 8 full)
       ++ SPACE :: take 4 (drop 12 full)
  else full.

(** ** Names and addresses *)

Definition EMAIL_NAMES : list str :=
  bytes_of <$> ["alex.turner"; "jordan.lee"; "morgan.reed"; "sam.taylor"; "chris.evans"; "pat.parker";
                "casey.miller"; "riley.cooper"]%string.

Definition FIRST_NAMES : list str :=
  bytes_of <$> ["Alex"; "David"; "Sarah"; "Michael"; "Elena"; "James"; "Marcus"; "Laura"; "Carlos"; "Emily";
                "Robert"; "Anna"; "Daniel"; "Rachel"; "Thomas"; "Sofia"; "Lucas"; "Maria"; "Brian";
                "Jessica"]%string.

Definition LAST_NAMES : list str :=
  bytes_of <$> ["Vance"; "Chen"; "Jenkins"; "Sterling"; "Mercer"; "Wilson"; "Reed"; "Bennett"; "Lindqvist";
                "Hawthorne"; "Taylor"; "Kowalski"; "Anderson"; "Martinez"; "Wright"; "Scott"; "Torres";
                "Nguyen"; "Murphy"; "Rivera"]%string.

Definition AREA_CODES : list Z := [212; 312; 415; 617; 206; 512; 305; 404; 702; 214].

Definition SECRET_PREFIX_MAP : list (str * str) :=
  (fun p => (bytes_of p.1, bytes_of p.2)) <$>
  [("sk-proj-", "sk-proj-"); ("sk-", "sk-"); ("op_live_", "op_live_"); ("op_test_", "op_test_");
   ("mcp_live_", "mcp_live_"); ("mcp_test_", "mcp_test_"); ("ghp_", "ghp_"); ("gho_", "gho_");
   ("xoxb-", "xoxb_"); ("Bearer ", "Bearer sec_")]%string.

(** Indexing with a remainder never fails. *)
Definition pick {A} `{Inhabited A} (l : list A) (i : Z) : A := l !!! Z.to_nat (i mod Z.of_nat (length l)).

Definition gen_name (idx : Z) : str :=
  let zero_based := (idx - 1) mod (USIZE_MAX + 1) in
  let first_idx := zero_based mod 20 in
  let cycle := zero_based / 20 in
  pick FIRST_NAMES first_idx ++ SPACE :: pick LAST_NAMES (first_idx + cycle).

(** The loop that looks for a name other than the original: the counter and
    the name. *)
Fixpoint person_name (fuel : nat) (original : str) (count : Z) : Z * str :=
  let name := gen_name count in
  match fuel with
  | O => (count, name)
  | S f => if eq_ignore_ascii_case name original
           then person_name f original ((count + 1) mod (USIZE_MAX + 1))
           else (count, name)
  end.

Definition all_digits (s : str) : bool := forallb is_ascii_digit s.

(** The validator of detected cards: [luhn_check] of pii/engine/validators.rs. *)
Definition iin (n : nat) (s : str) : Z :=
  foldl (fun acc b => acc * 10 + (b - 48) mod 256) 0 (take n s).

Definition in_range (a b x : Z) : bool := (a <=? x) && (x <=? b).

Definition has_card_iin_prefix (s : str) : bool :=
  match s with
  | [] => false
  | b :: _ =>
      (b =? 52)
      || ((2 <=? length s)%nat
          && (in_range 51 55 (iin 2 s) || existsb (Z.eqb (iin 2 s)) [34; 37; 36; 38; 65]))
      || ((3 <=? length s)%nat && (in_range 300 305 (iin 3 s) || in_range 644 649 (iin 3 s)))
      || ((4 <=? length s)%nat
          && (in_range 2221 2720 (iin 4 s) || (iin 4 s =? 6011) || in_range 3528 3589 (iin 4 s)))
  end.

Definition luhn_check (digits_only : str) : bool :=
  ((13 <=? length digits_only) && (length digits_only <=? 19))%nat
  && negb (forallb (Z.eqb 48) digits_only)
  && has_card_iin_prefix digits_only
  && all_digits digits_only
  && (luhn_sum false (reverse digits_only) mod 10 =? 0).

Definition secret_placeholder (original : str) : str :=
  let h := fnv1a_hash original in
  let h32 := Z.land h 4294967295 in
  if all_digits original && (6 <=? length original)%nat then
    let len := length original in
    let prefix := bytes_of (if (len =? 20)%nat && bool_decide (is_Some (parse_unsigned u64_max (of_bytes original)))
                            then "10" else "89410294") in
    let '(prefix, width) :=
      if (length prefix <? len)%nat then (prefix, (len - length prefix)%nat)
      else (bytes_of "9", (len - 1)%nat) in
    let decimal := show h in
    prefix ++ pad0 width (drop (length decimal - width) decimal)
  else
    let prefix := default (bytes_of "sec_")
                    (head (omap (fun '(pattern, out_prefix) =>
                                   if bool_decide (pattern `prefix_of` original) then Some out_prefix else None)
                             SECRET_PREFIX_MAP)) in
    prefix ++ pad0 8 (show_hex h32).

(** The first choice of a placeholder for the [c]-th original of its kind, and
    the counter after it. *)
Definition first_choice (entity : PiiEntity) (c : Z) (original : str) : Z * str :=
  match entity with
  | Ip =>
      (c, if contains_byte COLON original then bytes_of "fd00:10:240::" ++ show c
          else bytes_of "10.240." ++ show ((c - 1) / 254 mod 254) ++ DOT :: show ((c - 1) mod 254 + 1))
  | Email =>
      (c, pick EMAIL_NAMES (c - 1) ++ show c ++ 64 ::
          bytes_of (if c mod 2 =? 0 then "outlook.com" else "fastmail.com"))
  | Secret => (c, secret_placeholder original)
  | Phone =>
      (c, if c <=? 89 then bytes_of "+1-202-555-01" ++ pad0 2 (show (c mod 90 + 10))
          else bytes_of "+1-" ++ show (pick AREA_CODES ((c - 90) / 9000)) ++ bytes_of "-555-"
               ++ pad0 4 (show ((c - 90) mod 9000 + 1000)))
  | CreditCard => (c, generate_fake_credit_card c (contains_byte SPACE original || contains_byte DASH original))
  | Person => person_name 2 original c
  end.

(** ** Collisions *)

(** [while taken(p) { p = next(p) }]. *)
Fixpoint until_free (fuel : nat) (taken : str -> bool) (next : str -> str) (p : str) : option str :=
  if taken p then match fuel with O => None | S f => until_free f taken next (next p) end
  else Some p.

(** The successor of a decimal number: the carry runs over the reversed
    digits, and a leading zero becomes 9. *)
Fixpoint carry (rev_digits : str) : str :=
  match rev_digits with
  | [] => []
  | d :: ds => if d =? 57 then 48 :: carry ds else (d + 1) :: ds
  end.

Definition bump (p : str) : str :=
  match reverse (carry (reverse p)) with
  | [] => []
  | d :: ds => if d =? 48 then 57 :: ds else d :: ds
  end.

(** [base], [base_1], [base_2], ... *)
Fixpoint tie_break (fuel : nat) (taken : str -> bool) (base : str) (tie_breaker : Z) : option str :=
  let p := base ++ 95 :: show tie_breaker in
  if taken p then match fuel with O => None | S f => tie_break f taken base (tie_breaker + 1) end
  else Some p.

Definition resolve_collision (reverse_ : gmap str str) (original placeholder : str) : option str :=
  let taken p := bool_decide (p = original) || bool_decide (is_Some (reverse_ !! p)) in
  let fuel := S (size reverse_) in
  if all_digits placeholder then until_free fuel taken bump placeholder
  else if bool_decide (placeholder = original)
          || match reverse_ !! placeholder with Some existing => negb (bool_decide (existing = original)) | None => false end
  then tie_break fuel taken placeholder 1
  else Some placeholder.

(** ** The session *)

(** [str::split_whitespace]. *)
Fixpoint split_ws (fuel : nat) (word s : str) : list str :=
  let flushed := match word with [] => [] | _ => [word] end in
  match fuel, s with
  | S f, b :: s' => match ws_len s with
                    | O => split_ws f (word ++ [b]) s'
                    | n => flushed ++ split_ws f [] (drop n s)
                    end
  | _, _ => flushed
  end.

Definition split_whitespace (s : str) : list str := split_ws (length s) [] s.

Definition register_person_alias (alias original : str) (s : PiiSession) : PiiSession :=
  if bool_decide (alias ∈ ps_ambiguous s) then s
  else match ps_reverse s !! alias with
       | Some existing =>
           if bool_decide (existing = original) || eq_ignore_ascii_case existing original
           then with_reverse (<[alias := original]> (ps_reverse s)) s
           else mkSession (ps_forward s) (delete alias (ps_reverse s)) (ps_counts s) (ps_reversible s)
                  (ps_entities s) ({[alias]} ∪ ps_ambiguous s)
       | None => with_reverse (<[alias := original]> (ps_reverse s)) s
       end.

(** The first and the last word of the original, for the parts of the name. *)
Definition register_person_aliases (placeholder original : str) (s : PiiSession) : PiiSession :=
  match split_once SPACE placeholder with
  | Some (first_ph, last_ph) =>
      let words := split_whitespace original in
      register_person_alias last_ph (default original (last words))
        (register_person_alias first_ph (default original (head words)) s)
  | None => s
  end.

Section session.
Context (iter : gmap str str -> list (str * str)) (unicode_upper : str -> bool).

(** [chars().any(|c| c.is_uppercase())]. *)
Definition has_uppercase (s : str) : bool := existsb (fun b => (65 <=? b) && (b <=? 90)) s || unicode_upper s.

Definition get_or_create_placeholder (entity : PiiEntity) (original : str) (s : PiiSession)
    : option (PiiSession * str) :=
  match ps_forward s !! original with
  | Some existing => Some (s, existing)
  | None =>
      match (if bool_decide (entity = Person)
             then List.find (fun kv => eq_ignore_ascii_case kv.1 original) (iter (ps_forward s)) else None) with
      | Some (existing_key, placeholder) =>
          let s := with_forward (<[original := placeholder]> (ps_forward s)) s in
          if has_uppercase original && negb (has_uppercase existing_key)
          then Some (register_person_aliases placeholder original
                       (with_reverse (<[placeholder := original]> (ps_reverse s)) s), placeholder)
          else Some (s, placeholder)
      | None =>
          let c := sat_add USIZE_MAX (default 0 (ps_counts s !! entity)) 1 in
          let '(count, choice) := first_choice entity c original in
          match resolve_collision (ps_reverse s) original choice with
          | None => None
          | Some placeholder =>
              let s := mkSession (<[original := placeholder]> (ps_forward s))
                         (<[placeholder := original]> (ps_reverse s))
                         (<[entity := count]> (ps_counts s)) (ps_reversible s)
                         (<[placeholder := entity]> (ps_entities s)) (ps_ambiguous s) in
              Some (if bool_decide (entity = Person) then register_person_aliases placeholder original s else s,
                    placeholder)
          end
      end
  end.

(** ** Restoration *)

(** [Ipv6Addr::segments] and its [Display]: the longest run of zeros, of two
    at least, is left out. *)
Definition segments6 (a : Z) : list Z :=
  (fun i => a / 65536 ^ i mod 65536) <$> [7; 6; 5; 4; 3; 2; 1; 0].

Fixpoint zero_run (l : list Z) : nat := match l with 0 :: l' => S (zero_run l') | _ => O end.

(** The start and the length of the first longest run of zeros. *)
Fixpoint longest_zeros (start : nat) (l : list Z) (best : nat * nat) : nat * nat :=
  match l with
  | [] => best
  | _ :: l' => longest_zeros (S start) l' (if (best.2 <? zero_run l)%nat then (start, zero_run l) else best)
  end.

Definition join_segments (l : list Z) : str :=
  match l with [] => [] | x :: l' => show_hex x ++ concat ((fun y => COLON :: show_hex y) <$> l') end.

Definition show_ipv6 (a : Z) : str :=
  let l := segments6 a in
  if bool_decide (take 6 l = [0; 0; 0; 0; 0; 65535]) then
    bytes_of "::ffff:" ++ show (a / 16777216 mod 256) ++ DOT :: show (a / 65536 mod 256)
    ++ DOT :: show (a / 256 mod 256) ++ DOT :: show (a mod 256)
  else
    let '(start, len) := longest_zeros 0 l (0%nat, 0%nat) in
    if (1 <? len)%nat
    then join_segments (take start l) ++ COLON :: COLON :: join_segments (drop (start + len) l)
    else join_segments l.

(** The formatting aliases of one placeholder, in the order they are added. *)
Definition proposals (s : PiiSession) (kv : str * str) : list (str * str) :=
  let '(placeholder, original) := kv in
  match ps_entities s !! placeholder with
  | Some Phone =>
      let digits := filter (fun b => is_ascii_digit b = true) placeholder in
      [(43 :: digits, original); (digits, original); (replace_byte DASH SPACE placeholder, original)]
  | Some Secret => [(bytes_of "-p" ++ placeholder, bytes_of "-p" ++ original)]
  | Some CreditCard =>
      [(filter (fun b => b <> SPACE /\ b <> DASH) placeholder, original);
       (replace_byte SPACE DASH placeholder, original)]
  | Some Ip =>
      match parse_whole read_ipv6_addr placeholder with
      | Some a =>
          let padded := pad0 4 ∘ show_hex <$> segments6 a in
          [(show_ipv6 a, original);
           (concat (take 1 padded) ++ concat ((cons COLON) <$> drop 1 padded), original);
           (join_segments (segments6 a), original)]
      | None => []
      end
  | _ => []
  end
  ++ if bool_decide (head placeholder = Some 60) && bool_decide (last placeholder = Some 62)
     then [(placeholder ≫= (fun b => if b =? 60 then bytes_of "&lt;" else if b =? 62 then bytes_of "&gt;" else [b]),
            original)]
     else [].

Definition add_alias (reverse_ : gmap str str) (acc : gmap str str * gset str) (kv : str * str)
    : gmap str str * gset str :=
  let '(aliases, ambiguous) := acc in
  let '(alias, original) := kv in
  if bool_decide (is_Some (reverse_ !! alias)) || bool_decide (alias ∈ ambiguous) then acc
  else match aliases !! alias with
       | Some existing => if bool_decide (existing = original) then (<[alias := original]> aliases, ambiguous)
                          else (delete alias aliases, {[alias]} ∪ ambiguous)
       | None => (<[alias := original]> aliases, ambiguous)
       end.

Definition restoration_mapping (s : PiiSession) : gmap str str :=
  if negb (ps_reversible s) then ∅
  else
    let aliases := (foldl (add_alias (ps_reverse s)) (∅, ∅) (iter (ps_reverse s) ≫= proposals s)).1 in
    ps_reverse s ∪ aliases.

End session.

(** ** Placeholders already in the text *)

Definition next_char_boundary (s : str) (idx : nat) : nat :=
  Nat.min (boundary_above s (length s - idx) idx) (length s).

Fixpoint take_while (f : Z -> bool) (s : str) : str :=
  match s with b :: s' => if f b then b :: take_while f s' else [] | [] => [] end.

Definition parse_usize (s : str) : option Z := parse_unsigned USIZE_MAX (of_bytes s).

(** [while let Some(rel) = text\[curr..\].find(pat)]: [body] gets the place of
    the match and answers with the number found there and where to go on; a
    number raises the counter. *)
Fixpoint scan (fuel : nat) (pat text : str) (body : nat -> option Z * option nat) (count : option Z)
    (curr : nat) : option Z :=
  match fuel with
  | O => count
  | S f =>
      match find_sub pat (drop curr text) with
      | None => count
      | Some rel =>
          let '(n, next) := body (curr + rel)%nat in
          let count := match n with Some n => Some (Z.max (default 0 count) n) | None => count end in
          match next with Some curr => scan f pat text body count curr | None => count end
      end
  end.

Definition closed_by (close : Z) (pat text : str) (i : nat) : option Z * option nat :=
  let start_idx := (i + length pat)%nat in
  match find_byte close (drop start_idx text) with
  | Some rel => (parse_usize (take rel (drop start_idx text)),
                 Some (next_char_boundary text (start_idx + rel + 1)))
  | None => (None, None)
  end.

Definition email_number (pat text : str) (i : nat) : option Z * option nat :=
  let digits := reverse (take_while is_ascii_digit (reverse (take i text))) in
  (match digits with [] => None | _ => parse_usize digits end,
   Some (next_char_boundary text (i + length pat))).

Definition ip_number (pat text : str) (i : nat) : option Z * option nat :=
  let start := (i + length pat)%nat in
  (match split_once DOT (drop start text) with
   | Some (first, rest) =>
       match parse_usize first, parse_usize (take_while is_ascii_digit rest) with
       | Some x, Some y => Some (sat_add USIZE_MAX (sat_mul USIZE_MAX x 254) y)
       | _, _ => None
       end
   | None => None
   end, Some (next_char_boundary text start)).

Definition is_word_byte (b : Z) : bool :=
  is_ascii_digit b || ((65 <=? b) && (b <=? 90)) || ((97 <=? b) && (b <=? 122)) || (b =? UNDERSCORE).

Definition secret_number (pat text : str) (i : nat) : option Z * option nat :=
  let start := (i + length pat)%nat in
  let token := take_while is_word_byte (drop start text) in
  (if (2 <=? length token)%nat then parse_usize (drop (length token - 2) token) else None,
   Some (next_char_boundary text (start + length token))).

Definition numeric_secret_number (pat text : str) (i : nat) : option Z * option nat :=
  let start := (i + length pat)%nat in
  let digits := take_while is_ascii_digit (drop start text) in
  (match digits with [] => None | _ => parse_usize digits end,
   Some (next_char_boundary text (start + length digits))).

(** One scan of the text for the placeholders of an entity. *)
Definition seed_with (text : str) (body : str -> str -> nat -> option Z * option nat)
    (counts : gmap PiiEntity Z) (ep : PiiEntity * str) : gmap PiiEntity Z :=
  let '(entity, pat) := ep in
  match scan (S (length text)) pat text (body pat text) (counts !! entity) 0 with
  | Some n => <[entity := n]> counts
  | None => counts
  end.

Definition seed_existing_placeholders (text : str) (s : PiiSession) : PiiSession :=
  match text with
  | [] => s
  | _ =>
      let counts := ps_counts s in
      let counts :=
        if contains_byte 60 text && contains_byte 62 text
        then foldl (seed_with text (closed_by 62)) counts
               ((fun e => (e, 60 :: placeholder_prefix e ++ [UNDERSCORE])) <$> ALL)
        else counts in
      let counts := seed_with text (closed_by 41) counts (Person, bytes_of " (P") in
      let counts := seed_with text (closed_by 93) counts (Person, bytes_of " [P") in
      let counts := foldl (seed_with text email_number) counts
                      ((fun d => (Email, bytes_of d)) <$> ["@outlook.com"; "@fastmail.com"]%string) in
      let counts := seed_with text ip_number counts (Ip, bytes_of "10.240.") in
      let counts := foldl (seed_with text secret_number) counts
                      ((fun d => (Secret, bytes_of d))
                       <$> ["sec_"; "sk-proj-"; "sk-"; "op_live_"; "op_test_"]%string) in
      with_counts (seed_with text numeric_secret_number counts (Secret, bytes_of "89410294")) s
  end.

(** ** A request as a sequence of operations *)

Inductive PiiOp := Seed (text : str) | Place (entity : PiiEntity) (original : str).

(** The session after the operations, and each original with its answer. *)
Fixpoint pii_run (iter : gmap str str -> list (str * str)) (unicode_upper : str -> bool)
    (ops : list PiiOp) (s : PiiSession) : option (PiiSession * list (str * str)) :=
  match ops with
  | [] => Some (s, [])
  | Seed text :: ops' => pii_run iter unicode_upper ops' (seed_existing_placeholders text s)
  | Place entity original :: ops' =>
      '(s, p) ← get_or_create_placeholder iter unicode_upper entity original s;
      '(s, answers) ← pii_run iter unicode_upper ops' s;
      Some (s, (original, p) :: answers)
  end.

(** ** The shape of placeholders and aliases *)

Definition nospace (s : str) : bool := forallb (fun b => negb (b =? SPACE)) s.
Definition is_upper (b : Z) : bool := (65 <=? b) && (b <=? 90).

(** What the parts of a placeholder look like: a name, or digits from zero. *)
Definition alias_last (s : str) : Prop :=
  match s with [] => False | b :: _ => b = 48 \/ is_upper b = true /\ nospace s = true end.
Definition alias_like (s : str) : Prop := alias_last s \/ s = bytes_of "4532".

Definition bearer (s : str) : Prop := take 7 (lower <$> s) = bytes_of "bearer ".

Definition shape (original p : str) : Prop :=
  (6 <= length p)%nat
  /\ match p with b :: _ => b <> 48 /\ (is_upper b = true -> nospace p = false) | [] => False end
  /\ (nospace p = true
      \/ (exists a b, split_once SPACE p = Some (a, b) /\ alias_like a /\ alias_last b)
      \/ bearer original).

(** ** Lemmas: formatted strings *)

Lemma show_fuel_bytes radix fuel n acc :
  0 < radix -> Forall (fun b => 48 <= b) acc -> Forall (fun b => 48 <= b) (show_fuel radix fuel n acc).
Proof.
  intros Hr. revert n acc. induction fuel as [|f IH]; intros n acc Ha; cbn [show_fuel];
    pose proof (Z.mod_pos_bound n radix Hr);
    assert (48 <= (if n mod radix <? 10 then 48 + n mod radix else 87 + n mod radix)) by (zcase; lia).
  - by constructor.
  - destruct (n <? radix); [by constructor|]. apply IH. by constructor.
Qed.

Lemma nospace_bytes s : Forall (fun b => 48 <= b) s -> nospace s = true.
Proof. induction 1 as [|b s Hb _ IH]; [done|]. simpl. rewrite IH. unfold SPACE. zcase; lia. Qed.

Lemma nospace_show n : nospace (show n) = true.
Proof. apply nospace_bytes, show_fuel_bytes; [lia|done]. Qed.

Lemma nospace_show_hex n : nospace (show_hex n) = true.
Proof. apply nospace_bytes, show_fuel_bytes; [lia|done]. Qed.

Lemma nospace_app a b : nospace (a ++ b) = nospace a && nospace b.
Proof. apply forallb_app. Qed.

Lemma nospace_pad0 w s : nospace (pad0 w s) = nospace s.
Proof.
  unfold pad0. rewrite nospace_app. replace (nospace (replicate (w - length s) 48)) with true; [done|].
  symmetry. apply nospace_bytes, Forall_replicate. lia.
Qed.

Lemma length_pad0 w s : (w <= length (pad0 w s))%nat.
Proof. unfold pad0. rewrite length_app, length_replicate. lia. Qed.

Lemma split_once_app a b : nospace a = true -> split_once SPACE (a ++ SPACE :: b) = Some (a, b).
Proof.
  induction a as [|x a IH]; csimpl; [done|]. intros [Hx Ha]%andb_true_iff.
  apply negb_true_iff in Hx. by rewrite Hx, IH.
Qed.

Lemma split_once_None s : nospace s = true -> split_once SPACE s = None.
Proof.
  induction s as [|x s IH]; csimpl; [done|]. intros [Hx Hs]%andb_true_iff.
  apply negb_true_iff in Hx. by rewrite Hx, IH.
Qed.

Lemma split_once_tail s t a b :
  split_once SPACE s = Some (a, b) -> split_once SPACE (s ++ t) = Some (a, b ++ t).
Proof.
  revert a. induction s as [|x s IH]; csimpl; [done|]. intros a. destruct (x =? SPACE); [by intros [= <- <-]|].
  destruct (split_once SPACE s) as [[a' b']|]; [|done]. intros [= <- <-]. by rewrite (IH a').
Qed.

Lemma pick_in {A} `{Inhabited A} (l : list A) i : l <> [] -> pick l i ∈ l.
Proof.
  intros Hl. unfold pick. apply list_elem_of_lookup_total_2.
  assert (0 < Z.of_nat (length l)) by (destruct l; [done|]; simpl; lia).
  pose proof (Z.mod_pos_bound i (Z.of_nat (length l)) ltac:(lia)). lia.
Qed.

(** ** Lemmas: the value of decimal digits *)

Definition digit (b : Z) : Prop := 48 <= b <= 57.

(** The value of digits, the least one first. *)
Fixpoint rval (l : str) : Z := match l with [] => 0 | d :: l' => d - 48 + 10 * rval l' end.
Definition dval (s : str) : Z := rval (reverse s).

Lemma pow10_S n : 10 ^ Z.of_nat (S n) = 10 * 10 ^ Z.of_nat n.
Proof. rewrite Nat2Z.inj_succ, Z.pow_succ_r by lia. done. Qed.

Lemma rval_bound l : Forall digit l -> 0 <= rval l < 10 ^ Z.of_nat (length l).
Proof.
  induction 1 as [|d l Hd _ IH]; [done|]. cbn [rval length]. rewrite pow10_S. unfold digit in Hd. lia.
Qed.

Lemma rval_snoc l d : rval (l ++ [d]) = rval l + 10 ^ Z.of_nat (length l) * (d - 48).
Proof.
  induction l as [|x l IH]; cbn [rval app length]; [change (10 ^ Z.of_nat 0) with 1; lia|].
  rewrite IH, pow10_S. lia.
Qed.

Lemma dval_cons d s : dval (d :: s) = dval s + 10 ^ Z.of_nat (length s) * (d - 48).
Proof. unfold dval. by rewrite reverse_cons, rval_snoc, length_reverse. Qed.

Lemma show_fuel_val f n acc :
  0 <= n < 10 ^ Z.of_nat (S f) ->
  dval (show_fuel 10 f n acc) = n * 10 ^ Z.of_nat (length acc) + dval acc.
Proof.
  revert n acc. induction f as [|f IH]; intros n acc Hn; cbn [show_fuel].
  - change (10 ^ Z.of_nat 1) with 10 in Hn. rewrite Z.mod_small by lia. zcase; [|lia].
    rewrite dval_cons. lia.
  - pose proof (Z.mod_pos_bound n 10 ltac:(lia)). replace (n mod 10 <? 10) with true by (symmetry; apply Z.ltb_lt; lia).
    destruct (n <? 10) eqn:E; [apply Z.ltb_lt in E|apply Z.ltb_ge in E].
    + rewrite dval_cons, Z.mod_small by lia. lia.
    + rewrite pow10_S in Hn. pose proof (Z.div_mod n 10 ltac:(lia)).
      rewrite IH by lia. rewrite dval_cons. cbn [length]. rewrite pow10_S. nia.
Qed.

Lemma show_inj a b : 0 <= a < 10 ^ 20 -> 0 <= b < 10 ^ 20 -> show a = show b -> a = b.
Proof.
  intros Ha Hb H. apply (f_equal dval) in H. unfold show in H.
  rewrite !show_fuel_val in H by (change (10 ^ Z.of_nat 20) with (10 ^ 20); lia).
  change (10 ^ Z.of_nat (length [])) with 1 in H. lia.
Qed.

Lemma carry_spec l : Forall digit l ->
  Forall digit (carry l) /\ length (carry l) = length l
  /\ rval (carry l) = if rval l + 1 =? 10 ^ Z.of_nat (length l) then 0 else rval l + 1.
Proof.
  induction 1 as [|d l Hd Hl IH]; [done|]. cbn [carry]. pose proof (rval_bound l Hl) as Hb.
  destruct IH as (IHd & IHl & IHv). unfold digit in Hd. destruct (d =? 57) eqn:E.
  - apply Z.eqb_eq in E as ->. split_and!; [constructor; [unfold digit; lia|done]|by simpl; rewrite IHl|].
    cbn [rval length]. rewrite IHv, pow10_S. zcase; lia.
  - apply Z.eqb_neq in E. split_and!; [constructor; [unfold digit; lia|done]|done|].
    cbn [rval length]. rewrite pow10_S. zcase; lia.
Qed.

(** A number without leading zero; [bump] steps through them. *)
Definition numeral (s : str) : Prop := Forall digit s /\ exists b s', s = b :: s' /\ b <> 48.

Lemma numeral_bound s : numeral s ->
  10 ^ Z.of_nat (length s) = 10 * 10 ^ Z.of_nat (length s - 1)
  /\ 10 ^ Z.of_nat (length s - 1) <= dval s < 10 ^ Z.of_nat (length s).
Proof.
  intros [Hd (b & s' & -> & Hb)]. inversion_clear Hd as [|? ? Hb' Hs'].
  replace (length (b :: s') - 1)%nat with (length s') by (simpl; lia). cbn [length].
  rewrite pow10_S, dval_cons. split; [done|].
  unfold dval. pose proof (rval_bound (reverse s')) as H. rewrite length_reverse in H.
  specialize (H ltac:(by apply Forall_reverse)). unfold digit in Hb'. nia.
Qed.

Lemma bump_spec s : numeral s ->
  numeral (bump s) /\ length (bump s) = length s
  /\ dval (bump s) = if dval s + 1 =? 10 ^ Z.of_nat (length s) then 9 * 10 ^ Z.of_nat (length s - 1) else dval s + 1.
Proof.
  intros Hn. pose proof (numeral_bound s Hn) as [Hp Hv]. destruct Hn as [Hd _].
  pose proof (carry_spec (reverse s) ltac:(by apply Forall_reverse)) as (Hcd & Hcl & Hcv).
  rewrite length_reverse in Hcl, Hcv. fold (dval s) in Hcv. unfold bump.
  assert (dval (reverse (carry (reverse s))) = rval (carry (reverse s))) as Hr by (unfold dval; by rewrite reverse_involutive).
  rewrite Hcv in Hr. apply Forall_reverse in Hcd. rewrite <-length_reverse in Hcl.
  destruct (reverse (carry (reverse s))) as [|d t] eqn:E.
  { simpl in Hcl. rewrite <-Hcl in Hv. simpl in Hv. lia. }
  inversion_clear Hcd as [|? ? Hdd Hdt]. rewrite dval_cons in Hr.
  pose proof (rval_bound (reverse t) ltac:(by apply Forall_reverse)) as Hbt. rewrite length_reverse in Hbt.
  fold (dval t) in Hbt. simpl in Hcl. assert (length s - 1 = length t)%nat as Hlt by lia. rewrite Hlt in *.
  rewrite <-Hcl in *. unfold digit in Hdd. rewrite pow10_S in *.
  destruct (Z.eqb_spec d 48) as [->|Hne].
  - split_and!; [|done|].
    + split; [constructor; [unfold digit; lia|done]|]. by exists 57, t.
    + rewrite dval_cons. destruct (dval s + 1 =? 10 * 10 ^ Z.of_nat (length t)); lia.
  - split_and!; [|done|].
    + split; [by constructor|]. by exists d, t.
    + rewrite dval_cons, Hr. destruct (dval s + 1 =? 10 * 10 ^ Z.of_nat (length t)) eqn:Eo; [|done].
      exfalso. nia.
Qed.

(** Every fake card passes the validator of real ones. *)
Lemma show_fuel_length f n acc k :
  0 <= n < 10 ^ Z.of_nat (S k) -> (length (show_fuel 10 f n acc) <= S k + length acc)%nat.
Proof.
  revert n acc k. induction f as [|f IH]; intros n acc k Hn; cbn [show_fuel]; [simpl; lia|].
  destruct (n <? 10) eqn:E; [simpl; lia|]. apply Z.ltb_ge in E. destruct k as [|k].
  { change (10 ^ Z.of_nat 1) with 10 in Hn. lia. }
  rewrite pow10_S in Hn. pose proof (Z.div_mod n 10 ltac:(lia)). pose proof (Z.mod_pos_bound n 10 ltac:(lia)).
  specialize (IH (n / 10) ((if n mod 10 <? 10 then 48 + n mod 10 else 87 + n mod 10) :: acc) k).
  simpl in IH. lia.
Qed.

Lemma show_digits n : Forall digit (show n).
Proof.
  assert (forall f m acc, Forall digit acc -> Forall digit (show_fuel 10 f m acc)) as H; [|by apply H].
  intros f. induction f as [|f IH]; intros m acc Ha; cbn [show_fuel];
    pose proof (Z.mod_pos_bound m 10 ltac:(lia));
    replace (m mod 10 <? 10) with true by (symmetry; apply Z.ltb_lt; lia);
    assert (digit (48 + m mod 10)) by (unfold digit; lia).
  - by constructor.
  - destruct (m <? 10); [by constructor|]. apply IH. by constructor.
Qed.

Lemma show_digit d : 0 <= d < 10 -> show d = [48 + d].
Proof.
  intros Hd. unfold show. cbn [show_fuel]. rewrite Z.mod_small by lia.
  by replace (d <? 10) with true by (symmetry; apply Z.ltb_lt; lia).
Qed.

Lemma pad0_show k n : 0 <= n < 10 ^ Z.of_nat (S k) ->
  length (pad0 (S k) (show n)) = S k /\ Forall digit (pad0 (S k) (show n)).
Proof.
  intros Hn. pose proof (show_fuel_length 19 n [] k Hn) as Hl. fold (show n) in Hl. simpl in Hl.
  unfold pad0. split; [rewrite length_app, length_replicate; lia|].
  apply Forall_app. split; [|apply show_digits]. apply Forall_replicate. unfold digit. lia.
Qed.

#[local] Opaque show show_hex pad0 compute_luhn_check_digit fnv1a_hash.

(** ** Lemmas: the shape of every choice *)

(** A first part that fixes the first byte of what it starts. *)
Definition plain_start (n : nat) (a : str) : bool :=
  (n <=? length a)%nat && nospace a
  && match a with b :: _ => negb (is_upper b) && negb (b =? 48) | [] => false end.

Lemma shape_plain o n a t :
  plain_start n a = true -> nospace t = true -> (6 <= n + length t)%nat -> shape o (a ++ t).
Proof.
  unfold plain_start. intros [[Hn Ha]%andb_true_iff Hb]%andb_true_iff Ht Hl. apply Nat.leb_le in Hn.
  destruct a as [|b a]; [done|]. apply andb_true_iff in Hb as [Hu H0].
  apply negb_true_iff in Hu. apply negb_true_iff, Z.eqb_neq in H0.
  split; [rewrite length_app; lia|]. split; [split; [done|by rewrite Hu]|].
  left. by rewrite nospace_app, Ha.
Qed.

Lemma shape_named o a b :
  nospace a = true -> alias_like a -> alias_last b -> (6 <= length a + length b)%nat ->
  (exists x a', a = x :: a' /\ x <> 48) -> shape o (a ++ SPACE :: b).
Proof.
  intros Ha Hl1 Hl2 Hlen (x & a' & -> & Hx). split; [rewrite length_app; simpl in *; lia|].
  split; [|right; left; exists (x :: a'), b; by rewrite split_once_app].
  cbn [app]. split; [done|]. intros _. change (x :: a' ++ SPACE :: b) with ((x :: a') ++ SPACE :: b).
  rewrite nospace_app. simpl. by rewrite andb_false_r.
Qed.

Lemma card_start_short t : bytes_of "453201511283" ++ t = bytes_of "4532015" ++ bytes_of "11283" ++ t.
Proof. done. Qed.

Lemma card_start : bytes_of "4532015" = [52; 53; 51; 50; 48; 49; 53].
Proof. done. Qed.

(** Both ranges of card numbers start with the same seven digits. *)
Lemma card_digits c : exists x t, nospace x = true /\ nospace t = true /\ forall spaced,
  generate_fake_credit_card c spaced
  = let full := ([52; 53; 51; 50; 48; 49; 53] ++ x) ++ t in
    if spaced then take 4 full ++ SPACE :: take 4 (drop 4 full) ++ SPACE :: take 4 (drop 8 full)
                   ++ SPACE :: take 4 (drop 12 full)
    else full.
Proof.
  unfold generate_fake_credit_card. rewrite card_start_short, card_start.
  assert (nospace (bytes_of "11283") = true) as H1 by done. destruct (c <=? 900).
  - exists (bytes_of "11283" ++ pad0 3 (show (c mod 900 + 100))). eexists.
    split; [by rewrite nospace_app, nospace_pad0, nospace_show|]. split; [apply nospace_show|done].
  - eexists _, _. split; [|split; [apply nospace_show|done]]. by rewrite nospace_pad0, nospace_show.
Qed.

Lemma card_shape o c spaced : shape o (generate_fake_credit_card c spaced).
Proof.
  destruct (card_digits c) as (x & t & Hx & Ht & ->). cbv zeta. destruct spaced.
  - cbn [app take drop]. apply (shape_named o [52; 53; 51; 50]).
    + done.
    + by right.
    + by left.
    + simpl. lia.
    + by exists 52, [53; 51; 50].
  - rewrite <-app_assoc. apply shape_plain with 7%nat; [done| |lia]. by rewrite nospace_app, Hx, Ht.
Qed.

Lemma names_plain : forallb (plain_start 8) EMAIL_NAMES = true.
Proof. done. Qed.

Lemma names_capital :
  forallb (fun n => (4 <=? length n)%nat && nospace n && match n with b :: _ => is_upper b | [] => false end)
    (FIRST_NAMES ++ LAST_NAMES) = true.
Proof. done. Qed.

Lemma capital_name n :
  n ∈ FIRST_NAMES ++ LAST_NAMES ->
  (4 <= length n)%nat /\ nospace n = true /\ exists b n', n = b :: n' /\ is_upper b = true.
Proof.
  intros Hn. pose proof (proj1 (forallb_forall _ _) names_capital n) as H.
  rewrite <-list_elem_of_In in H. specialize (H Hn).
  apply andb_true_iff in H as [[Hl Hs]%andb_true_iff Hu]. apply Nat.leb_le in Hl.
  split_and!; [done|done|]. destruct n; [done|]. eauto.
Qed.

Lemma name_shape o i : shape o (gen_name i).
Proof.
  unfold gen_name. cbv zeta. generalize ((i - 1) mod (USIZE_MAX + 1)). intros z.
  assert (pick FIRST_NAMES (z mod 20) ∈ FIRST_NAMES ++ LAST_NAMES) as H1
    by (apply elem_of_app; left; by apply pick_in).
  assert (pick LAST_NAMES (z mod 20 + z / 20) ∈ FIRST_NAMES ++ LAST_NAMES) as H2
    by (apply elem_of_app; right; by apply pick_in).
  revert H1 H2. generalize (pick FIRST_NAMES (z mod 20)) (pick LAST_NAMES (z mod 20 + z / 20)).
  intros a b (Hla & Hsa & x & a' & -> & Hx)%capital_name (Hlb & Hsb & y & b' & -> & Hy)%capital_name.
  apply shape_named; [done|left; right; by rewrite Hsa|right; by rewrite Hsb|lia|].
  exists x, a'. split; [done|]. by intros ->.
Qed.

Lemma person_shape o c : shape o (person_name 2 o c).2.
Proof.
  cbn [person_name]. repeat (destruct (eq_ignore_ascii_case _ _); [|by apply name_shape]). apply name_shape.
Qed.

Lemma secret_prefixes :
  forallb (fun pq => plain_start 3 pq.2 || bool_decide (pq = (bytes_of "Bearer ", bytes_of "Bearer sec_"))) SECRET_PREFIX_MAP = true.
Proof. done. Qed.

Lemma bearer_prefix o : bytes_of "Bearer " `prefix_of` o -> bearer o.
Proof. intros [t ->]. unfold bearer. by rewrite fmap_app. Qed.

Lemma secret_shape o : shape o (secret_placeholder o).
Proof.
  unfold secret_placeholder. destruct (all_digits o && (6 <=? length o)%nat) eqn:E.
  - apply andb_true_iff in E as [_ Hl%Nat.leb_le].
    set (b := (length o =? 20)%nat && _). set (d := show (fnv1a_hash o)).
    assert (nospace (drop (length d - (length o - length (bytes_of (if b then "10" else "89410294")))) d) = true
            /\ nospace (drop (length d - (length o - 1)) d) = true) as [H1 H2].
    { pose proof (nospace_show (fnv1a_hash o)) as Hd. fold d in Hd. clearbody d.
      assert (forall k, nospace (drop k d) = true) as Hk; [|by split].
      intros k. rewrite <-(take_drop k d), nospace_app in Hd. by apply andb_true_iff in Hd as [_ ?]. }
    cbv zeta. destruct (length (bytes_of (if b then "10" else "89410294")) <? length o)%nat eqn:E.
    + apply Nat.ltb_lt in E. apply shape_plain with (length (bytes_of (if b then "10" else "89410294"))).
      * by destruct b.
      * by rewrite nospace_pad0.
      * pose proof (length_pad0 (length o - length (bytes_of (if b then "10" else "89410294")))
                      (drop (length d - (length o - length (bytes_of (if b then "10" else "89410294")))) d)). lia.
    + apply shape_plain with 1%nat; [done|by rewrite nospace_pad0|].
      pose proof (length_pad0 (length o - 1) (drop (length d - (length o - 1)) d)). lia.
  - cbv zeta. pose proof (length_pad0 8 (show_hex (Z.land (fnv1a_hash o) 4294967295))) as Hl.
    assert (nospace (pad0 8 (show_hex (Z.land (fnv1a_hash o) 4294967295))) = true) as Hn
      by (by rewrite nospace_pad0, nospace_show_hex).
    destruct (head _) as [q|] eqn:Eh; cbn [default]; [|by apply shape_plain with 3%nat; [| |lia]].
    apply head_Some_elem_of, list_elem_of_omap in Eh as ([pat q'] & Hin & Hq).
    case_bool_decide as Hp; [|done]. simplify_eq.
    pose proof (proj1 (forallb_forall _ _) secret_prefixes (pat, q)) as H.
    rewrite <-list_elem_of_In in H. apply H, orb_true_iff in Hin as [Hq|Hb%bool_decide_eq_true].
    + by apply shape_plain with 3%nat; [| |lia].
    + injection Hb as -> ->. split; [rewrite length_app; lia|]. split; [|right; right; by apply bearer_prefix].
      by split.
Qed.

Lemma choice_shape entity c o : shape o (first_choice entity c o).2.
Proof.
  destruct entity; cbn [first_choice snd].
  - assert (pick EMAIL_NAMES (c - 1) ∈ EMAIL_NAMES) as Hin by (by apply pick_in).
    pose proof (proj1 (forallb_forall _ _) names_plain (pick EMAIL_NAMES (c - 1))) as H.
    rewrite <-list_elem_of_In in H. apply shape_plain with 8%nat; [auto| |lia].
    rewrite nospace_app, nospace_show. by destruct (c mod 2 =? 0).
  - destruct (c <=? 89).
    + apply shape_plain with 13%nat; [done| |lia]. by rewrite nospace_pad0, nospace_show.
    + apply shape_plain with 3%nat; [done| |].
      * by rewrite !nospace_app, nospace_pad0, !nospace_show.
      * rewrite !length_app. simpl. lia.
  - destruct (contains_byte COLON o).
    + apply shape_plain with 13%nat; [done|apply nospace_show|lia].
    + apply shape_plain with 7%nat; [done| |lia]. rewrite nospace_app, nospace_show. simpl. apply nospace_show.
  - apply card_shape.
  - apply secret_shape.
  - apply person_shape.
Qed.

(** ** Lemmas: the searches for a free placeholder *)

Lemma until_free_Some fuel taken next p q :
  until_free fuel taken next p = Some q -> taken q = false /\ exists k, q = Nat.iter k next p.
Proof.
  revert p. induction fuel as [|f IH]; intros p; cbn [until_free]; destruct (taken p) eqn:E; try done.
  - intros [= <-]. split; [done|]. by exists 0%nat.
  - intros [? [k ->]]%IH. split; [done|]. exists (S k). by rewrite Nat.iter_succ_r.
  - intros [= <-]. split; [done|]. by exists 0%nat.
Qed.

Lemma until_free_None fuel taken next p k :
  until_free fuel taken next p = None -> (k <= fuel)%nat -> taken (Nat.iter k next p) = true.
Proof.
  revert p k. induction fuel as [|f IH]; intros p k; cbn [until_free]; destruct (taken p) eqn:E; try done.
  - intros _ Hk. by replace k with 0%nat by lia.
  - intros H Hk. destruct k as [|k]; [done|]. rewrite Nat.iter_succ_r. apply IH; [done|lia].
Qed.

Lemma tie_break_Some fuel taken base t q :
  tie_break fuel taken base t = Some q -> taken q = false /\ exists k, q = base ++ 95 :: show k.
Proof.
  revert t. induction fuel as [|f IH]; intros t; cbn [tie_break]; destruct (taken (base ++ 95 :: show t)) eqn:E; try done.
  - intros [= <-]. split; [done|]. by exists t.
  - apply IH.
  - intros [= <-]. split; [done|]. by exists t.
Qed.

Lemma tie_break_None fuel taken base t k :
  tie_break fuel taken base t = None -> (k <= fuel)%nat -> taken (base ++ 95 :: show (t + Z.of_nat k)) = true.
Proof.
  revert t k. induction fuel as [|f IH]; intros t k; cbn [tie_break]; destruct (taken (base ++ 95 :: show t)) eqn:E; try done.
  - intros _ Hk. replace k with 0%nat by lia. by rewrite Z.add_0_r.
  - intros H Hk. destruct k as [|k]; [by rewrite Z.add_0_r|].
    replace (t + Z.of_nat (S k)) with (t + 1 + Z.of_nat k) by lia. apply IH; [done|lia].
Qed.

(** More distinct candidates than taken strings: one is free. *)
Lemma candidates_pigeonhole (reverse_ : gmap str str) o (f : nat -> str) :
  (forall i j, (i < j <= S (size reverse_))%nat -> f i <> f j) ->
  (forall k, (k <= S (size reverse_))%nat ->
     bool_decide (f k = o) || bool_decide (is_Some (reverse_ !! f k)) = true) -> False.
Proof.
  intros Hinj Ht. set (l := f <$> seq 0 (S (S (size reverse_)))).
  assert (NoDup l) as Hnd.
  { apply NoDup_alt. intros i j x Hi Hj. apply list_lookup_fmap_Some in Hi as (a & -> & [-> Ha]%lookup_seq).
    apply list_lookup_fmap_Some in Hj as (b & Hab & [-> Hb]%lookup_seq).
    destruct (lt_eq_lt_dec i j) as [[Hl| ->]|Hl]; [|done|].
    - exfalso. by apply (Hinj i j); [lia|].
    - exfalso. by apply (Hinj j i); [lia|]. }
  assert (l ⊆+ o :: (map_to_list reverse_).*1) as Hsub.
  { apply NoDup_submseteq; [done|]. intros x (k & -> & [_ Hk]%elem_of_seq)%list_elem_of_fmap.
    specialize (Ht k ltac:(lia)). apply orb_true_iff in Ht as [Ht|Ht]; apply bool_decide_eq_true in Ht.
    - rewrite Ht. by left.
    - destruct Ht as [v Hv]. right. apply list_elem_of_fmap. exists (f k, v). split; [done|].
      by apply elem_of_map_to_list. }
  apply submseteq_length in Hsub. unfold l in Hsub.
  rewrite length_fmap, length_seq in Hsub. simpl in Hsub. rewrite length_fmap, length_map_to_list in Hsub. lia.
Qed.

Lemma all_digits_Forall s : all_digits s = true <-> Forall digit s.
Proof.
  unfold all_digits. rewrite forallb_forall, Forall_forall. split; intros H x Hx.
  - apply list_elem_of_In, H in Hx. unfold is_ascii_digit in Hx. unfold digit. revert Hx. zcase; lia.
  - apply list_elem_of_In, H in Hx. unfold digit in Hx. unfold is_ascii_digit. zcase; lia.
Qed.

Lemma numeral_shape o s : numeral s -> (6 <= length s)%nat -> shape o s.
Proof.
  intros [Hd (b & s' & -> & Hb)] Hl. inversion Hd as [|? ? Hb' _]; subst. unfold digit in Hb'.
  split; [done|]. split; [split; [done|]; unfold is_upper; zcase; lia|]. left.
  apply nospace_bytes. eapply Forall_impl; [done|]. unfold digit. lia.
Qed.

Lemma shape_numeral o s : shape o s -> all_digits s = true -> numeral s.
Proof.
  intros (_ & Hh & _) Hd. split; [by apply all_digits_Forall|]. destruct s as [|b s']; [done|]. exists b, s'. by destruct Hh.
Qed.

Lemma bump_iter s k : numeral s -> Z.of_nat k <= 10 ^ Z.of_nat (length s - 1) ->
  let s' := Nat.iter k bump s in
  numeral s' /\ length s' = length s
  /\ dval s' = if dval s + Z.of_nat k <? 10 ^ Z.of_nat (length s) then dval s + Z.of_nat k
               else dval s + Z.of_nat k - 10 ^ Z.of_nat (length s - 1).
Proof.
  intros Hn. pose proof (numeral_bound s Hn) as [Hp Hv]. induction k as [|k IH]; intros Hk; cbv zeta.
  - split_and!; [done|done|]. change (Nat.iter 0 bump s) with s. zcase; lia.
  - destruct IH as (Hn' & Hl' & Hv'); [lia|]. cbn [Nat.iter nat_rect].
    change (nat_rect _ s (fun _ => bump) k) with (Nat.iter k bump s).
    destruct (bump_spec _ Hn') as (Hn2 & Hl2 & Hv2). rewrite Hl' in *. split_and!; [done|done|].
    rewrite Hv2, Hv'. repeat (zcase; try lia).
Qed.

Lemma shape_tie o s t : shape o s -> nospace t = true -> shape o (s ++ 95 :: t).
Proof.
  intros (Hl & Hh & Hs) Ht. split; [rewrite length_app; lia|]. split.
  - destruct s as [|b s]; [done|]. destruct Hh as [H0 Hu]. split; [done|]. intros Hb.
    change (nospace ((b :: s) ++ 95 :: t) = false). by rewrite nospace_app, (Hu Hb).
  - destruct Hs as [Hs|[(a & b & Hs & Ha & Hb)|Hs]]; [left|right; left|by right; right].
    + rewrite nospace_app, Hs. done.
    + exists a, (b ++ 95 :: t). split_and!; [by apply split_once_tail|done|].
      destruct b as [|x b]; [done|]. destruct Hb as [Hb|[Hu Hb]]; [by left|right]. split; [done|].
      change (nospace ((x :: b) ++ 95 :: t) = true). by rewrite nospace_app, Hb.
Qed.

Lemma collision_spec r o p q :
  resolve_collision r o p = Some q -> shape o p ->
  shape o q /\ q <> o /\ (r !! q = None \/ r !! q = Some o).
Proof.
  unfold resolve_collision. intros H Hp.
  assert (forall x, bool_decide (x = o) || bool_decide (is_Some (r !! x)) = false -> x <> o /\ (r !! x = None \/ r !! x = Some o)) as Hfree.
  { intros x [H1 H2]%orb_false_iff. apply bool_decide_eq_false in H1, H2. split; [done|]. left.
    by apply eq_None_not_Some. }
  destruct (all_digits p) eqn:Ed; [|destruct (bool_decide (p = o) || _) eqn:E].
  - apply until_free_Some in H as [Ht [k ->]]. split; [|by apply Hfree].
    assert (numeral (Nat.iter k bump p) /\ length (Nat.iter k bump p) = length p) as [Hn Hl].
    { clear Ht. induction k as [|k IH]; [by split; [eapply shape_numeral|]|]. destruct IH as [Hn Hl].
      destruct (bump_spec _ Hn) as (? & ? & _). split; [done|]. by rewrite <-Hl. }
    apply numeral_shape; [done|]. rewrite Hl. apply Hp.
  - apply tie_break_Some in H as [Ht [k ->]]. split; [|by apply Hfree].
    apply shape_tie; [done|]. apply nospace_show.
  - injection H as <-. apply orb_false_iff in E as [H1%bool_decide_eq_false H2]. split_and!; [done|done|].
    destruct (r !! p) as [v|]; [|by left]. right. f_equal. apply negb_false_iff, bool_decide_eq_true in H2. done.
Qed.

(** The limit of the numeric placeholders: those of six digits. *)
Definition numeric_room (n : nat) : Prop := Z.of_nat n + 2 <= 10 ^ 5.

Lemma resolve_total r o p : numeric_room (size r) -> shape o p -> is_Some (resolve_collision r o p).
Proof.
  intros Hroom Hp. unfold numeric_room in Hroom. unfold resolve_collision.
  destruct (all_digits p) eqn:Ed; [|destruct (bool_decide (p = o) || _); [|by eexists]].
  - destruct (until_free _ _ _ _) eqn:E; [by eexists|]. exfalso.
    pose proof (shape_numeral _ _ Hp Ed) as Hn. destruct Hp as [Hl _].
    assert (10 ^ 5 <= 10 ^ Z.of_nat (length p - 1)) as Hpow by (apply Z.pow_le_mono_r; lia).
    pose proof (numeral_bound p Hn) as [Hp10 Hv].
    apply (candidates_pigeonhole r o (fun k => Nat.iter k bump p)).
    + intros i j Hij Heq. apply (f_equal dval) in Heq.
      destruct (bump_iter p i Hn) as (_ & _ & Hi); [lia|]. destruct (bump_iter p j Hn) as (_ & _ & Hj); [lia|].
      rewrite Hi, Hj in Heq. revert Heq. repeat (zcase; try lia).
    + intros k Hk. by apply (until_free_None _ _ _ _ _ E).
  - destruct (tie_break _ _ _ _) eqn:E; [by eexists|]. exfalso.
    apply (candidates_pigeonhole r o (fun k => p ++ 95 :: show (1 + Z.of_nat k))).
    + intros i j Hij Heq. apply app_inv_head in Heq. injection Heq as Heq.
      apply show_inj in Heq; lia.
    + intros k Hk. by apply (tie_break_None _ _ _ _ _ E).
Qed.

(** ** The invariant *)

Lemma eq_ic_refl a : eq_ignore_ascii_case a a = true.
Proof. by apply eq_ic_spec. Qed.

Lemma eq_ic_trans a b c :
  eq_ignore_ascii_case a b = true -> eq_ignore_ascii_case b c = true -> eq_ignore_ascii_case a c = true.
Proof. rewrite !eq_ic_spec. congruence. Qed.

Lemma shape_ic a b p : eq_ignore_ascii_case a b = true -> shape a p -> shape b p.
Proof. rewrite eq_ic_spec. unfold shape, bearer. by intros ->. Qed.

Lemma shape_not_alias o p : shape o p -> ~ alias_like p.
Proof.
  intros (Hl & Hh & _) [Ha| ->]; [|simpl in Hl; lia]. destruct p as [|b p]; [done|].
  destruct Hh as [H0 Hu]. destruct Ha as [Ha|[Hb Ha]]; [done|]. rewrite Hu in Ha; done.
Qed.

(** [N]: originals no name of the request resembles. *)
Definition pii_inv (N : str -> Prop) (s : PiiSession) : Prop :=
  (forall o p, ps_forward s !! o = Some p -> shape o p)
  /\ (forall o p, ps_forward s !! o = Some p ->
        exists o', ps_reverse s !! p = Some o' /\ eq_ignore_ascii_case o o' = true)
  /\ (forall p o, ps_reverse s !! p = Some o -> alias_like p \/ ps_forward s !! o = Some p)
  /\ (forall o o2 p, N o -> ps_forward s !! o = Some p -> ps_forward s !! o2 = Some p -> o2 = o).

Definition op_ok (N : str -> Prop) (op : PiiOp) : Prop :=
  match op with
  | Place Person q => ~ bearer q /\ forall o, N o -> eq_ignore_ascii_case q o = false
  | _ => True
  end.

(** What an operation leaves alone or only extends. *)
Definition pii_grows (n : nat) (s s' : PiiSession) : Prop :=
  ps_forward s ⊆ ps_forward s' /\ (size (ps_reverse s') <= size (ps_reverse s) + n)%nat
  /\ ps_reversible s' = ps_reversible s.

Lemma size_insert_le (m : gmap str str) k v : (size (<[k := v]> m) <= S (size m))%nat.
Proof. rewrite map_size_insert. destruct (m !! k); simpl; lia. Qed.

Lemma register_spec alias o s :
  let s' := register_person_alias alias o s in
  ps_forward s' = ps_forward s /\ ps_reversible s' = ps_reversible s
  /\ (size (ps_reverse s') <= S (size (ps_reverse s)))%nat
  /\ (forall p, p <> alias -> ps_reverse s' !! p = ps_reverse s !! p).
Proof.
  unfold register_person_alias. cbv zeta. case_bool_decide; [split_and!; try done; lia|].
  destruct (ps_reverse s !! alias) as [e|]; [destruct (_ || _)|]; cbn [with_reverse ps_forward ps_reverse ps_reversible].
  - split_and!; [done|done|apply size_insert_le|]. intros p Hp. by rewrite lookup_insert_ne.
  - split_and!; [done|done|rewrite map_size_delete; case_match; simpl; lia|].
    intros p Hp. by rewrite lookup_delete_ne.
  - split_and!; [done|done|apply size_insert_le|]. intros p Hp. by rewrite lookup_insert_ne.
Qed.

Lemma register_inv N alias o s : alias_like alias -> pii_inv N s -> pii_inv N (register_person_alias alias o s).
Proof.
  intros Ha (Hs & Hr & Hf & Hx). pose proof (register_spec alias o s) as (Ef & _ & _ & Er). cbv zeta in *.
  unfold pii_inv. rewrite Ef. split_and!; [done| |  |done].
  - intros o2 p Hp. rewrite Er; [by apply Hr|]. intros ->. by eapply shape_not_alias; [apply Hs|].
  - intros p o2. destruct (decide (p = alias)) as [->|Hne]; [by left|]. rewrite Er by done. apply Hf.
Qed.

Lemma register_aliases_inv N p o q s :
  shape o p -> ~ bearer o -> pii_inv N s ->
  pii_inv N (register_person_aliases p q s) /\ pii_grows 2 s (register_person_aliases p q s)
  /\ ps_forward (register_person_aliases p q s) = ps_forward s.
Proof.
  intros (_ & _ & Hs) Hb Hi. unfold register_person_aliases.
  destruct Hs as [Hn|[(a & b & -> & Ha & Hl)|Hs]]; [rewrite split_once_None by done| |done].
  { split; [done|]. split; [|done]. split_and!; [done|lia|done]. }
  cbv zeta. generalize (default q (head (split_whitespace q))) (default q (last (split_whitespace q))).
  intros x y. pose proof (register_spec a x s) as (F1 & R1 & S1 & _).
  pose proof (register_spec b y (register_person_alias a x s)) as (F2 & R2 & S2 & _). cbv zeta in *.
  split_and!.
  - apply register_inv; [by left|]. by apply register_inv.
  - split_and!; [by rewrite F2, F1|lia|congruence].
  - by rewrite F2, F1.
Qed.

Section invariant.
Context (iter : gmap str str -> list (str * str)) (unicode_upper : str -> bool).
Hypothesis iter_perm : forall m, iter m ≡ₚ map_to_list m.
Context (N : str -> Prop).

(** A name that differs from a known original in case only shares its
    placeholder, and may take over the way back. *)
Lemma share_inv k p o s (upgrade : bool) :
  pii_inv N s -> ps_forward s !! o = None -> ps_forward s !! k = Some p ->
  eq_ignore_ascii_case k o = true -> (forall n, N n -> eq_ignore_ascii_case o n = false) ->
  let s1 := with_forward (<[o := p]> (ps_forward s)) s in
  pii_inv N (if upgrade then with_reverse (<[p := o]> (ps_reverse s1)) s1 else s1).
Proof.
  intros (Hs & Hr & Hf & Hx) Ho Hk Hic Hn. cbv zeta.
  destruct (Hr k p Hk) as (o' & Hp & Hko').
  assert (forall o2, <[o := p]> (ps_forward s) !! o2 = Some p -> eq_ignore_ascii_case o2 o = true) as Hall.
  { intros o2. destruct (decide (o2 = o)) as [->|Hne]; [intros _; apply eq_ic_refl|].
    rewrite lookup_insert_ne by done. intros (o3 & Hp3 & H3)%Hr. rewrite Hp in Hp3. injection Hp3 as <-.
    eapply eq_ic_trans; [done|]. rewrite eq_ic_sym in Hko'. by eapply eq_ic_trans. }
  assert (forall o2 q, <[o := p]> (ps_forward s) !! o2 = Some q -> shape o2 q) as HS.
  { intros o2 q. destruct (decide (o2 = o)) as [->|Hne].
    - rewrite lookup_insert_eq. intros [= <-]. by eapply shape_ic; [|apply Hs].
    - rewrite lookup_insert_ne by done. apply Hs. }
  assert (forall o1 o2 q, N o1 -> <[o := p]> (ps_forward s) !! o1 = Some q ->
            <[o := p]> (ps_forward s) !! o2 = Some q -> o2 = o1) as HX.
  { intros o1 o2 q HN. assert (o <> o1) as Hne1 by (intros ->; specialize (Hn _ HN); by rewrite eq_ic_refl in Hn).
    rewrite lookup_insert_ne by done. intros H1. destruct (decide (o2 = o)) as [->|Hne2].
    - rewrite lookup_insert_eq. intros [= <-]. pose proof (Hx o1 k p HN H1 Hk) as ->.
      specialize (Hn _ HN). by rewrite eq_ic_sym, Hic in Hn.
    - rewrite lookup_insert_ne by done. by apply Hx. }
  assert (forall q o2, ps_reverse s !! q = Some o2 -> alias_like q \/ <[o := p]> (ps_forward s) !! o2 = Some q) as HF.
  { intros q o2 [Ha|Hq]%Hf; [by left|right]. rewrite lookup_insert_ne; [done|congruence]. }
  destruct upgrade; unfold pii_inv; cbn [with_forward with_reverse ps_forward ps_reverse]; split_and!; try done.
  - intros o2 q H2. destruct (decide (q = p)) as [->|Hne].
    + exists o. rewrite lookup_insert_eq. by split; [|apply Hall].
    + rewrite lookup_insert_ne by done. destruct (decide (o2 = o)) as [->|Hne2].
      { rewrite lookup_insert_eq in H2. by injection H2 as <-. }
      rewrite lookup_insert_ne in H2 by done. by apply Hr.
  - intros q o2. destruct (decide (q = p)) as [->|Hne].
    + rewrite lookup_insert_eq. intros [= <-]. right. by rewrite lookup_insert_eq.
    + rewrite lookup_insert_ne by done. apply HF.
  - intros o2 q H2. destruct (decide (o2 = o)) as [->|Hne2].
    + rewrite lookup_insert_eq in H2. injection H2 as <-. exists o'. split; [done|].
      rewrite eq_ic_sym in Hic. by eapply eq_ic_trans.
    + rewrite lookup_insert_ne in H2 by done. by apply Hr.
Qed.

(** A new placeholder is nobody else's. *)
Lemma fresh_inv o q e n s :
  pii_inv N s -> ps_forward s !! o = None -> shape o q -> ps_reverse s !! q = None \/ ps_reverse s !! q = Some o ->
  pii_inv N (mkSession (<[o := q]> (ps_forward s)) (<[q := o]> (ps_reverse s)) n (ps_reversible s)
               (<[q := e]> (ps_entities s)) (ps_ambiguous s)).
Proof.
  intros (Hs & Hr & Hf & Hx) Ho Hq Hfree.
  assert (ps_reverse s !! q = None) as Hnone.
  { destruct Hfree as [?|[Ha|Ha]%Hf]; [done| |congruence]. by apply shape_not_alias in Hq. }
  assert (forall o2 p, ps_forward s !! o2 = Some p -> p <> q /\ o2 <> o) as Hne.
  { intros o2 p H. destruct (Hr _ _ H) as (? & ? & _). split; congruence. }
  unfold pii_inv. cbn [ps_forward ps_reverse]. split_and!.
  - intros o2 p. destruct (decide (o2 = o)) as [->|H]; [rewrite lookup_insert_eq; by intros [= <-]|].
    rewrite lookup_insert_ne by done. apply Hs.
  - intros o2 p. destruct (decide (o2 = o)) as [->|H].
    + rewrite lookup_insert_eq. intros [= <-]. exists o. rewrite lookup_insert_eq. split; [done|apply eq_ic_refl].
    + rewrite lookup_insert_ne by done. intros Hp. rewrite lookup_insert_ne by (symmetry; by eapply Hne). by apply Hr.
  - intros p o2. destruct (decide (p = q)) as [->|H].
    + rewrite lookup_insert_eq. intros [= <-]. right. by rewrite lookup_insert_eq.
    + rewrite lookup_insert_ne by done. intros [?|Hp]%Hf; [by left|right].
      rewrite lookup_insert_ne; [done|]. symmetry. by eapply Hne.
  - intros o1 o2 p HN. destruct (decide (o1 = o)) as [->|H1], (decide (o2 = o)) as [->|H2]; try done;
      rewrite ?lookup_insert_eq, ?lookup_insert_ne by done.
    + intros [= <-] H. by apply Hne in H as [? _].
    + intros H [= <-]. by apply Hne in H as [? _].
    + by apply Hx.
Qed.

Lemma find_ic_Some o s k p :
  List.find (fun kv => eq_ignore_ascii_case kv.1 o) (iter (ps_forward s)) = Some (k, p) ->
  ps_forward s !! k = Some p /\ eq_ignore_ascii_case k o = true.
Proof.
  intros [Hin Hk]%List.find_some. split; [|done]. apply elem_of_map_to_list. rewrite <-iter_perm.
  by apply list_elem_of_In.
Qed.

Lemma place_inv e o s :
  op_ok N (Place e o) -> pii_inv N s -> numeric_room (size (ps_reverse s)) ->
  exists s' p, get_or_create_placeholder iter unicode_upper e o s = Some (s', p)
    /\ pii_inv N s' /\ ps_forward s' !! o = Some p /\ pii_grows 3 s s'.
Proof.
  intros Hok Hi Hroom. unfold get_or_create_placeholder.
  destruct (ps_forward s !! o) as [p|] eqn:Ho.
  { exists s, p. split_and!; try done. split_and!; [done|lia|done]. }
  destruct (if bool_decide (e = Person) then _ else None) as [[k p]|] eqn:Ef.
  - case_bool_decide as He; [subst e|done]. destruct Hok as [Hb Hn]. apply find_ic_Some in Ef as [Hk Hic].
    pose proof (share_inv k p o s (has_uppercase unicode_upper o && negb (has_uppercase unicode_upper k)) Hi Ho Hk Hic Hn) as H.
    cbv zeta in H. cbv zeta. assert (shape o p) as Hsh by (eapply shape_ic; [done|]; by apply Hi).
    assert (ps_forward s ⊆ <[o := p]> (ps_forward s)) as Hsub by (by apply insert_subseteq).
    destruct (has_uppercase unicode_upper o && negb (has_uppercase unicode_upper k)).
    + destruct (register_aliases_inv N p o o _ Hsh Hb H) as (Hi' & (G1 & G2 & G3) & G4).
      eexists _, p. split; [done|]. split; [done|]. rewrite G4.
      cbn [with_reverse with_forward ps_forward ps_reverse ps_reversible] in *. rewrite lookup_insert_eq.
      split; [done|]. split_and!; [by etrans| |done].
      pose proof (size_insert_le (ps_reverse s) p o). lia.
    + eexists _, p. split; [done|]. split; [done|]. cbn [with_forward ps_forward]. rewrite lookup_insert_eq.
      split; [done|]. split_and!; [done|simpl; lia|done].
  - cbv zeta. destruct (first_choice e _ o) as [n c] eqn:Ec.
    assert (shape o c) as Hc by (pose proof (choice_shape e (sat_add USIZE_MAX (default 0 (ps_counts s !! e)) 1) o) as H;
          by rewrite Ec in H).
    destruct (resolve_total (ps_reverse s) o c Hroom Hc) as [q Hq]. rewrite Hq.
    destruct (collision_spec _ _ _ _ Hq Hc) as (Hsq & _ & Hfree).
    pose proof (fresh_inv o q e (<[e := n]> (ps_counts s)) s Hi Ho Hsq Hfree) as H.
    assert (ps_forward s ⊆ <[o := q]> (ps_forward s)) as Hsub by (by apply insert_subseteq).
    pose proof (size_insert_le (ps_reverse s) q o) as Hsz.
    case_bool_decide as He.
    + subst e. destruct Hok as [Hb _]. destruct (register_aliases_inv N q o o _ Hsq Hb H) as (Hi' & (G1 & G2 & G3) & G4).
      eexists _, q. split; [done|]. split; [done|]. rewrite G4. cbn [ps_forward ps_reverse ps_reversible] in *.
      rewrite lookup_insert_eq. split; [done|]. split_and!; [by etrans|lia|done].
    + eexists _, q. split; [done|]. split; [done|]. cbn [ps_forward]. rewrite lookup_insert_eq.
      split; [done|]. split_and!; [done|simpl; lia|done].
Qed.

Lemma seed_session text s : exists c, seed_existing_placeholders text s = with_counts c s.
Proof. destruct text; [|by eexists]. exists (ps_counts s). by destruct s. Qed.

Lemma run_inv ops s :
  Forall (op_ok N) ops -> pii_inv N s -> numeric_room (size (ps_reverse s) + 3 * length ops) ->
  exists s' answers, pii_run iter unicode_upper ops s = Some (s', answers)
    /\ pii_inv N s' /\ pii_grows (3 * length ops) s s'
    /\ (forall o p, (o, p) ∈ answers -> ps_forward s' !! o = Some p)
    /\ (forall e o, Place e o ∈ ops -> exists p, (o, p) ∈ answers).
Proof.
  intros Hok. revert s. induction Hok as [|op ops Hop _ IH]; intros s Hi Hroom.
  { exists s, []. split; [done|]. split; [done|]. split; [split_and!; [done|lia|done]|]. split.
    - by intros ? ? ?%elem_of_nil.
    - by intros ? ? ?%elem_of_nil. }
  unfold numeric_room in *. cbn [length] in *. destruct op as [text|e o]; cbn [pii_run].
  - destruct (seed_session text s) as [c ->]. destruct (IH (with_counts c s)) as (s' & answers & -> & Hi' & (G1 & G2 & G3) & Ha & Hp).
    + done.
    + simpl in *. lia.
    + exists s', answers. split; [done|]. split; [done|]. split; [split_and!; [done|simpl in *; lia|done]|].
      split; [done|]. intros e o [?|?]%elem_of_cons; [done|eauto].
  - destruct (place_inv e o s Hop Hi) as (s1 & p & -> & Hi1 & Hf & (G1 & G2 & G3)); [unfold numeric_room; lia|].
    destruct (IH s1) as (s' & answers & E & Hi' & (K1 & K2 & K3) & Ha & Hp); [done|lia|].
    cbn [mbind option_bind]. rewrite E. cbn [mbind option_bind].
    eexists s', _. split; [done|]. split; [done|]. split; [split_and!; [by etrans|lia|congruence]|]. split.
    + intros o2 p2 [[= -> ->]|H]%elem_of_cons; [by eapply lookup_weaken|by apply Ha].
    + intros e2 o2 [[= -> ->]|H]%elem_of_cons; [exists p; by left|].
      destruct (Hp _ _ H) as [p2 ?]. exists p2. by right.
Qed.

End invariant.

(** ** Lemmas: formatting aliases *)

(** The values proposed for a key, and the only one. *)
Definition vals (k : str) (l : list (str * str)) : list str := (filter (fun kv => kv.1 = k) l).*2.

Definition sole (k v : str) (l : list (str * str)) : Prop := exists n, vals k l = replicate (S n) v.

Lemma vals_snoc k l k' v' : vals k (l ++ [(k', v')]) = vals k l ++ (if decide (k' = k) then [v'] else []).
Proof. unfold vals. rewrite filter_app, fmap_app. f_equal. cbn. by destruct (decide (k' = k)). Qed.

(** What the loop knows of a key: not its own, one value, or several. *)
Definition alias_state (r : gmap str str) (l : list (str * str)) (al : gmap str str) (am : gset str) (k : str) : Prop :=
  match r !! k, vals k l with
  | Some _, _ | None, [] => al !! k = None /\ k ∉ am
  | None, v :: vs => if decide (vs = replicate (length vs) v) then al !! k = Some v /\ k ∉ am
                     else al !! k = None /\ k ∈ am
  end.

Lemma vals_same (v w : str) vs :
  vs ++ [w] = replicate (length (vs ++ [w])) v <-> vs = replicate (length vs) v /\ w = v.
Proof.
  rewrite length_app, Nat.add_1_r, replicate_S_end. split; [|by intros [<- ->]].
  intros H. apply app_inj_tail in H. naive_solver.
Qed.

Lemma add_alias_spec r l k :
  let '(al, am) := foldl (add_alias r) (∅, ∅) l in alias_state r l al am k.
Proof.
  induction l as [|[k' v'] l IH] using rev_ind.
  { simpl. unfold alias_state. destruct (r !! k); (split; [apply lookup_empty|set_solver]). }
  rewrite foldl_app. cbn [foldl]. destruct (foldl (add_alias r) (∅, ∅) l) as [al am]. cbv beta iota in IH.
  unfold add_alias. destruct (decide (k' = k)) as [->|Hne].
  - unfold alias_state in *. rewrite vals_snoc, decide_True by done. destruct (r !! k) as [w|] eqn:Hr.
    { rewrite bool_decide_true by (by eexists). done. }
    rewrite bool_decide_false by (by intros []). cbn [orb]. destruct (vals k l) as [|v vs]; cbn [app].
    + destruct IH as [-> Hk]. rewrite bool_decide_false by done. rewrite decide_True by done.
      by rewrite lookup_insert_eq.
    + destruct (decide (vs = replicate (length vs) v)) as [Hs|Hs]; destruct IH as [Hal Hk].
      * rewrite bool_decide_false, Hal by done. case_bool_decide as Hv.
        -- subst v'. rewrite decide_True by (by apply vals_same). by rewrite lookup_insert_eq.
        -- rewrite decide_False by (intros [_ ?]%vals_same; congruence). rewrite lookup_delete_eq.
           split; [done|set_solver].
      * rewrite bool_decide_true by done. rewrite decide_False by (by intros [? _]%vals_same). done.
  - assert (alias_state r l al am k -> alias_state r (l ++ [(k', v')]) al am k) as Hsame.
    { unfold alias_state. by rewrite vals_snoc, decide_False, app_nil_r by done. }
    destruct (_ || _); [by apply Hsame|]. unfold alias_state in *. rewrite vals_snoc, decide_False, app_nil_r by done.
    destruct (al !! k') as [e|]; [destruct (bool_decide (e = v'))|];
      rewrite ?lookup_insert_ne, ?lookup_delete_ne by done; [done| |done].
    assert (k ∈ {[k']} ∪ am <-> k ∈ am) as Heq by set_solver.
    destruct (r !! k); [|destruct (vals k l); [|case_decide]]; by rewrite Heq.
Qed.

Section restoration.
Context (iter : gmap str str -> list (str * str)).
Hypothesis iter_perm : forall m, iter m ≡ₚ map_to_list m.

Lemma restoration_exact s k o :
  ps_reversible s = true -> ps_reverse s !! k = Some o -> restoration_mapping iter s !! k = Some o.
Proof. intros Hr Hk. unfold restoration_mapping. rewrite Hr. by apply lookup_union_Some_l. Qed.

Lemma restoration_spec s k v :
  ps_reversible s = true ->
  restoration_mapping iter s !! k = Some v <->
  ps_reverse s !! k = Some v
  \/ ps_reverse s !! k = None /\ sole k v (map_to_list (ps_reverse s) ≫= proposals s).
Proof.
  intros Hr. unfold restoration_mapping. rewrite Hr. cbn [negb]. cbv zeta.
  pose proof (add_alias_spec (ps_reverse s) (iter (ps_reverse s) ≫= proposals s) k) as H.
  assert (vals k (iter (ps_reverse s) ≫= proposals s) ≡ₚ vals k (map_to_list (ps_reverse s) ≫= proposals s)) as Hp.
  { unfold vals. by rewrite iter_perm. }
  destruct (foldl (add_alias (ps_reverse s)) (∅, ∅) _) as [al am]. unfold alias_state in H.
  rewrite lookup_union. cbn [fst]. destruct (ps_reverse s !! k) as [w|] eqn:Hk.
  { destruct H as [-> _]. naive_solver. }
  unfold sole. revert H Hp.
  generalize (vals k (iter (ps_reverse s) ≫= proposals s)) (vals k (map_to_list (ps_reverse s) ≫= proposals s)).
  intros l1 l2 H Hp. rewrite (left_id_L None (∪)).
  assert ((exists n, l2 = replicate (S n) v) <-> (exists n, l1 = replicate (S n) v)) as Heq.
  { split; intros [n ->]; exists n; [|symmetry in Hp]; by apply eq_sym, replicate_Permutation. }
  rewrite Heq. destruct l1 as [|w vs].
  { destruct H as [-> _]. split; [done|]. by intros [|(_ & [|n] & ?)]. }
  assert ((exists n, w :: vs = replicate (S n) v) <-> w = v /\ vs = replicate (length vs) v) as ->.
  { split; [intros (n & [= -> ->]); by rewrite length_replicate|]. intros [-> Hv]. exists (length vs). by rewrite replicate_S, <-Hv. }
  destruct (decide (vs = replicate (length vs) w)) as [Hs|Hs]; destruct H as [-> _].
  - split; [intros [= ->]; naive_solver|]. by intros [|(_ & -> & _)].
  - split; [done|]. by intros [|(_ & -> & ?)].
Qed.

End restoration.

(** ** Theorems *)

(** C7. What is replaced comes back.  In a request of up to 30000 detections,
    none of whose names starts with "bearer " in any case, with any placeholders
    already in its texts, every original gets a placeholder, and the mapping
    that restores the response sends each placeholder back to its original:
    exactly, if no name of the request equals it up to case, and up to case
    otherwise.  So no two unrelated originals share a placeholder.  The
    condition on the names is needed: [bearer_name_loses_a_secret]. *)
Theorem pii_round_trip iter unicode_upper ops :
  (forall m, iter m ≡ₚ map_to_list m) ->
  Z.of_nat (length ops) <= 30000 ->
  (forall o, Place Person o ∈ ops -> ~ bearer o) ->
  exists s answers, pii_run iter unicode_upper ops (pii_new true) = Some (s, answers)
    /\ (forall e o, Place e o ∈ ops -> exists p, (o, p) ∈ answers)
    /\ (forall o p, (o, p) ∈ answers ->
          exists o', restoration_mapping iter s !! p = Some o' /\ eq_ignore_ascii_case o o' = true)
    /\ (forall o p, (o, p) ∈ answers -> (forall q, Place Person q ∈ ops -> eq_ignore_ascii_case q o = false) ->
          restoration_mapping iter s !! p = Some o).
Proof.
  intros Hiter Hlen Hb. set (N o := forall q, Place Person q ∈ ops -> eq_ignore_ascii_case q o = false).
  destruct (run_inv iter unicode_upper Hiter N ops (pii_new true)) as (s & answers & E & Hi & (_ & _ & Hrev) & Ha & Hp).
  - apply Forall_forall. intros [?|[] o] Ho; try done. split; [by apply Hb|]. intros n Hn. by apply Hn.
  - unfold pii_inv, pii_new. cbn [ps_forward ps_reverse]. split_and!; intros *; by rewrite lookup_empty.
  - unfold numeric_room, pii_new. cbn [ps_reverse]. rewrite map_size_empty. lia.
  - exists s, answers. split; [done|]. split; [done|]. destruct Hi as (Hs & Hr & Hf & Hx). split.
    + intros o p (o' & Ho' & Hic)%Ha%Hr. exists o'. split; [by apply restoration_exact|done].
    + intros o p H%Ha HN. destruct (Hr _ _ H) as (o' & Ho' & _). apply restoration_exact; [done|].
      rewrite Ho'. f_equal. destruct (Hf _ _ Ho') as [Hal|Ho2].
      * by apply (shape_not_alias o p (Hs _ _ H)) in Hal.
      * by apply (Hx o o' p).
Qed.

(** Restoration never guesses.  Exact placeholders win; any other spelling
    is restored only if all placeholders that have it agree on the original,
    whatever the order of the map, and nothing is restored in a session that is
    not reversible. *)
Lemma restoration_never_guesses iter s k v :
  (forall m, iter m ≡ₚ map_to_list m) ->
  restoration_mapping iter s !! k = Some v <->
  ps_reversible s = true
  /\ (ps_reverse s !! k = Some v
      \/ ps_reverse s !! k = None /\ sole k v (map_to_list (ps_reverse s) ≫= proposals s)).
Proof.
  intros Hiter. destruct (ps_reversible s) eqn:Hr.
  - rewrite (restoration_spec iter Hiter s k v Hr). naive_solver.
  - unfold restoration_mapping. rewrite Hr. cbn [negb]. rewrite lookup_empty. naive_solver.
Qed.

(** The order of [map_to_list] is one of the orders of a hash map. *)
Definition some_order (m : gmap str str) : list (str * str) := map_to_list m.

Definition demo_ops : list PiiOp :=
  [Seed (bytes_of "see <EMAIL_4>"); Place Email (bytes_of "ann@example.org");
   Place Secret (bytes_of "123456"); Place Secret (bytes_of "maria"); Place Person (bytes_of "bob jones");
   Place Person (bytes_of "Bob Jones")].

Lemma pii_round_trip_witness : exists s answers,
  pii_run some_order (fun _ => false) demo_ops (pii_new true) = Some (s, answers)
  /\ (bytes_of "ann@example.org", bytes_of "chris.evans5@fastmail.com") ∈ answers
  /\ restoration_mapping some_order s !! bytes_of "chris.evans5@fastmail.com" = Some (bytes_of "ann@example.org").
Proof.
  destruct (pii_round_trip some_order (fun _ => false) demo_ops) as (s & answers & E & _ & _ & H).
  - done.
  - by vm_compute.
  - intros o Ho. unfold bearer. unfold demo_ops in Ho. repeat (apply elem_of_cons in Ho as [Ho|Ho]; [first [discriminate Ho | by injection Ho as ->]|]).
    by apply elem_of_nil in Ho.
  - exists s, answers. split; [exact E|].
    assert ((bytes_of "ann@example.org", bytes_of "chris.evans5@fastmail.com") ∈ answers) as Hin.
    { vm_compute in E. injection E as _ <-. by left. }
    split; [exact Hin|]. apply H; [exact Hin|].
    intros q Hq. clear - Hq. unfold demo_ops in Hq. repeat (apply elem_of_cons in Hq as [Hq|Hq]; [first [discriminate Hq | by injection Hq as ->]|]).
    by apply elem_of_nil in Hq.
Defined.

(** A name that equals a secret up to case takes over its way back: the secret
    comes back in the wrong case. *)
Example secret_restored_in_wrong_case :
  (s ← (pii_run some_order (fun _ => false) [Place Secret (bytes_of "maria"); Place Person (bytes_of "Maria")]
          (pii_new true));
   p ← ps_forward s.1 !! bytes_of "maria"; restoration_mapping some_order s.1 !! p)
  = Some (bytes_of "Maria").
Proof. by vm_compute. Qed.

(** A name that starts with "bearer " and equals a secret up to case shares the
    placeholder of the secret, [Bearer sec_...]; when it takes over the way back
    the part after the space is registered as an alias, and if that is the
    placeholder of another secret (of the same hash), the entry of that secret
    is deleted: it does not come back. *)
Example bearer_name_loses_a_secret :
  (s ← (pii_run some_order (fun _ => false)
          [Place Secret (bytes_of "Bearer bxjx"); Place Secret (bytes_of "xgfead");
           Place Person (bytes_of "bearer bxjx"); Place Person (bytes_of "BEARER BXJX")]
          (pii_new true));
   p ← ps_forward s.1 !! bytes_of "xgfead";
   Some (of_bytes p, restoration_mapping some_order s.1 !! p))
  = Some ("sec_d5b22968"%string, None).
Proof. by vm_compute. Qed.

Lemma restoration_never_guesses_witness :
  restoration_mapping some_order (mkSession ∅ {[bytes_of "4532 0151" := bytes_of "x"]} ∅ true
      {[bytes_of "4532 0151" := CreditCard]} ∅) !! bytes_of "4532-0151" = Some (bytes_of "x").
Proof.
  apply (restoration_never_guesses some_order); [done|]. split; [done|]. right. split; [done|].
  exists 0%nat. by vm_compute.
Defined.

Lemma fake_card_passes_luhn c : 1 <= c -> luhn_check (generate_fake_credit_card c false) = true.
Proof.
  intros Hc. unfold generate_fake_credit_card. rewrite card_start_short, card_start. cbv zeta.
  set (base := if c <=? 900 then _ else _).
  assert (exists x, base = [52; 53; 51; 50; 48; 49; 53] ++ x /\ length x = 8%nat /\ Forall digit x) as (x & -> & Hl & Hd).
  { unfold base. destruct (c <=? 900).
    - eexists. split; [done|]. destruct (pad0_show 2 (c mod 900 + 100)) as [Hl Hd].
      + pose proof (Z.mod_pos_bound c 900 ltac:(lia)). change (10 ^ Z.of_nat 3) with 1000. lia.
      + rewrite length_app, Hl. split; [done|]. apply Forall_app. split; [|done].
        apply all_digits_Forall. by vm_compute.
    - eexists. split; [done|]. apply (pad0_show 7).
      pose proof (Z.mod_pos_bound (c - 900) 90000000 ltac:(lia)). change (10 ^ Z.of_nat 8) with 100000000. lia. }
  set (b := [52; 53; 51; 50; 48; 49; 53] ++ x).
  assert (compute_luhn_check_digit b = (10 - luhn_sum true (reverse b) mod 10) mod 10) as Hcd by done.
  revert Hcd. generalize (compute_luhn_check_digit b). intros d Hdv.
  assert (0 <= d < 10) as Hd10 by (subst d; apply Z.mod_pos_bound; lia). rewrite show_digit by done.
  assert (luhn_sum false (reverse (b ++ [48 + d])) = d + luhn_sum true (reverse b)) as Hsum.
  { rewrite reverse_snoc. cbn [luhn_sum luhn_val negb]. f_equal. unfold digit_of.
    replace ((48 <=? 48 + d) && (48 + d <=? 57)) with true by (symmetry; apply andb_true_iff; lia). simpl. lia. }
  unfold luhn_check. rewrite Hsum. rewrite !andb_true_iff. split_and!.
  - apply Nat.leb_le. unfold b. rewrite !length_app. simpl. lia.
  - apply Nat.leb_le. unfold b. rewrite !length_app. simpl. lia.
  - done.
  - done.
  - apply all_digits_Forall. unfold b. rewrite !Forall_app. split_and!; [|done|].
    + by apply all_digits_Forall.
    + constructor; [unfold digit; lia|done].
  - apply Z.eqb_eq. subst d. generalize (luhn_sum true (reverse b)). intros S.
    rewrite Zplus_mod_idemp_l, Z.add_comm. replace (S + (10 - S mod 10)) with (10 + (S - S mod 10)) by lia.
    rewrite <-Zplus_mod_idemp_r, Zminus_mod_idemp_r, Z.sub_diag. done.
Qed.
