(* ===== verification/Replacer.v ===== *)
(** * Restoring placeholders in a stream

    Models [StreamingWindowReplacer] of openproxy-pipeline/src/pii/replacer.rs
    and the contact boundaries of pii/replacer/contact.rs: text arrives in
    chunks that may cut a placeholder, which is then held back until the match
    is decided.

    Strings are bytes and a [char] is its UTF-8 bytes.  Parameters: the
    Aho-Corasick automaton of the [aho-corasick] crate ([build], the matches of
    its [find_iter] as pattern, start and end) and whether a character outside
    ASCII is alphanumeric ([unicode_alnum]). *)

From Stdlib Require Import String.
From stdpp Require Import gmap.
From S2P Require Import Prelude Text Bytes ThinkExtractor ModelIds ClientIp PiiSession.

(** ** Characters *)

(** [chars().next()] and [chars().next_back()]. *)
Definition first_char (s : str) : option str :=
  match s with [] => None | b :: s' => Some (b :: take_while is_cont s') end.

Definition last_char_of (s : str) : option str :=
  match s with [] => None | _ => Some (drop (boundary_below s (length s - 1)) s) end.

Definition is_char (b : Z) (c : str) : bool := bool_decide (c = [b]).

(** ** Contacts *)

Inductive ContactKind := ContactEmail | ContactIpv4 | ContactIpv6.

Definition contact_kind (pattern : str) : option ContactKind :=
  if contains_byte 64 pattern then Some ContactEmail
  else match parse_whole read_ipv4_addr pattern with
       | Some _ => Some ContactIpv4
       | None => match parse_whole read_ipv6_addr pattern with
                 | Some _ => Some ContactIpv6
                 | None => None
                 end
       end.

Definition one_of (chars : string) (c : str) : bool := existsb (fun b => is_char b c) (bytes_of chars).

Definition extends_contact_left (kind : ContactKind) (c : str) : bool :=
  match kind with
  | ContactEmail => one_of ".+%-'@" c
  | ContactIpv4 => one_of ".+%" c
  | ContactIpv6 => is_char COLON c
  end.

Section replacer.
Context (build : list str -> option (str -> list (nat * (nat * nat)))) (unicode_alnum : str -> bool).

Definition is_token_char (c : str) : bool :=
  match c with
  | [b] => is_word_byte b
  | _ => unicode_alnum c
  end.

(** [Some true]: a larger token; [Some false]: a delimiter; [None]: not known yet. *)
Definition extends_contact_right (kind : ContactKind) (tail : str) (is_eof : bool) : option bool :=
  match first_char tail with
  | None => Some false
  | Some first =>
      let rest := drop (length first) tail in
      let after_dot :=
        if is_char DOT first
        then match first_char rest with
             | Some next => Some (is_token_char next || is_char DASH next)
             | None => if is_eof then Some false else None
             end
        else Some false in
      match kind with
      | ContactEmail => if one_of "-+%@" first then Some true else after_dot
      | ContactIpv6 => Some (is_char COLON first || is_char 37 first)
      | ContactIpv4 => after_dot
      end
  end.

(** ** The replacer *)

Record StreamingWindowReplacer := mkReplacer {
  wr_automaton : option (str -> list (nat * (nat * nat)));
  wr_patterns : list str;
  wr_replacements : list str;
  wr_prefixes : gset str;
  wr_pending : str;
  wr_max_len : nat;
  wr_last_char : option str
}.

Definition lowercase (s : str) : str := lower <$> s.

Fixpoint str_compare (a b : str) : comparison :=
  match a, b with
  | [], [] => Eq
  | [], _ => Lt
  | _, [] => Gt
  | x :: a', y :: b' => cmp_then (Z.compare x y) (str_compare a' b')
  end.

Definition compare_pairs (a b : str * str) : comparison :=
  cmp_then (Nat.compare (length b.1) (length a.1)) (cmp_then (str_compare a.1 b.1) (str_compare a.2 b.2)).

(** The proper prefixes of a pattern at character boundaries, in lower case. *)
Definition prefixes_of (pat : str) : list str :=
  (fun i => lowercase (take i pat)) <$> filter (fun i => is_char_boundary pat i = true) (seq 1 (length pat - 1)).

Definition replacer_new (mapping : gmap str str) : StreamingWindowReplacer :=
  if bool_decide (mapping = ∅) then mkReplacer None [] [] ∅ [] 0 None
  else
    let pairs := sort_by compare_pairs (map_to_list mapping) in
    mkReplacer (build pairs.*1) pairs.*1 pairs.*2 (list_to_set (pairs.*1 ≫= prefixes_of)) []
      (match pairs with p :: _ => length p.1 | [] => 0%nat end) None.

Definition set_state (pending : str) (last_char : option str) (r : StreamingWindowReplacer)
    : StreamingWindowReplacer :=
  mkReplacer (wr_automaton r) (wr_patterns r) (wr_replacements r) (wr_prefixes r) pending (wr_max_len r) last_char.

Definition or_char (a b : option str) : option str := match a with Some c => Some c | None => b end.

Definition is_prefix (r : StreamingWindowReplacer) (s : str) : bool := bool_decide (lowercase s ∈ wr_prefixes r).

(** The first character boundary from [start] on whose rest may still grow
    into a pattern. *)
Definition first_prefix (r : StreamingWindowReplacer) (input : str) (start : nat) : option nat :=
  List.find (fun pos => is_char_boundary input pos && is_prefix r (drop pos input)) (seq start (length input - start)).

Definition undecidable_start (r : StreamingWindowReplacer) (input : str) : option nat :=
  let start := (length input - (wr_max_len r - 1))%nat in
  first_prefix r input (boundary_above input (length input - start) start).

(** The loop over the matches.  [inl]: the early returns, with the output, the
    last character and what is held back; [inr]: its end. *)
Fixpoint match_loop (r : StreamingWindowReplacer) (input : str) (is_eof : bool) (undecidable : option nat)
    (matches : list (nat * (nat * nat))) (out : str) (last_end : nat) (last_char : option str)
    : (str * option str * str) + (str * nat * option str) :=
  match matches with
  | [] => inr (out, last_end, last_char)
  | (pat_idx, (mat_start, mat_end)) :: matches' =>
      let skip := match_loop r input is_eof undecidable matches' out last_end last_char in
      let len := length input in
      if match undecidable with Some start => (start <=? mat_start)%nat | None => false end
      then inr (out, last_end, last_char)
      else if (mat_start <? last_end)%nat then skip
      else
        let pat := wr_patterns r !!! pat_idx in
        let prev_char := if (0 <? mat_start)%nat then last_char_of (take mat_start input) else last_char in
        let pat_starts_token :=
          match first_char pat with Some c => is_token_char c || is_char 43 c | None => false end
          || bool_decide (bytes_of "-p" `prefix_of` pat) in
        let contact := contact_kind pat in
        let pat_ends_token := match last_char_of pat with Some c => is_token_char c | None => false end in
        let accept :=
          let out := out ++ take (mat_start - last_end) (drop last_end input) ++ (wr_replacements r !!! pat_idx) in
          match_loop r input is_eof undecidable matches' out mat_end (or_char (last_char_of out) last_char) in
        let hold :=
          inl (out ++ take (mat_start - last_end) (drop last_end input),
               or_char (last_char_of (take mat_start input)) last_char, drop mat_start input) in
        if pat_starts_token && match prev_char with Some c => is_token_char c | None => false end then skip
        else if match contact, prev_char with
                | Some kind, Some c => extends_contact_left kind c
                | _, _ => false
                end then skip
        else if (mat_end =? len)%nat
        then if negb is_eof && (is_prefix r (drop mat_start input) || pat_ends_token) then hold else accept
        else if pat_ends_token
                && match first_char (drop mat_end input) with Some c => is_token_char c | None => false end
        then skip
        else match contact with
             | Some kind =>
                 match extends_contact_right kind (drop mat_end input) is_eof with
                 | Some true => skip
                 | Some false => accept
                 | None => hold
                 end
             | None => accept
             end
  end.

Definition process_internal (r : StreamingWindowReplacer) (chunk : str) (is_eof : bool)
    : StreamingWindowReplacer * str :=
  match wr_automaton r with
  | None => (r, chunk)
  | Some ac =>
      let input := wr_pending r ++ chunk in
      match input with
      | [] => (r, [])
      | _ =>
          let r := set_state [] (wr_last_char r) r in
          let undecidable := if is_eof then None else undecidable_start r input in
          match match_loop r input is_eof undecidable (ac input) [] 0 (wr_last_char r) with
          | inl (out, last_char, pending) => (set_state pending last_char r, out)
          | inr (out, last_end, last_char) =>
              let trailing := drop last_end input in
              match trailing with
              | [] => (set_state [] (or_char (last_char_of out) last_char) r, out)
              | _ =>
                  if is_eof || (wr_max_len r =? 0)%nat then
                    let out := out ++ trailing in
                    (set_state [] (or_char (last_char_of out) last_char) r, out)
                  else
                    let scan_start :=
                      if (wr_max_len r <=? length trailing)%nat then
                        let idx := (length trailing - (wr_max_len r - 1))%nat in
                        Nat.min (boundary_above trailing (length trailing - idx) idx) (length trailing)
                      else 0%nat in
                    let split_point :=
                      List.find (fun pos => is_char_boundary trailing pos
                                            && (length (drop pos trailing) <? wr_max_len r)%nat
                                            && is_prefix r (drop pos trailing))
                        (seq scan_start (length trailing - scan_start)) in
                    let emitted := default (length trailing) split_point in
                    let pending := drop emitted trailing in
                    (set_state pending
                       (or_char (last_char_of (take (length input - length pending) input)) last_char) r,
                     out ++ take emitted trailing)
              end
          end
      end
  end.

Definition replacer_process (r : StreamingWindowReplacer) (chunk : str) : StreamingWindowReplacer * str :=
  process_internal r chunk false.

Definition replacer_flush (r : StreamingWindowReplacer) : StreamingWindowReplacer * str :=
  match wr_pending r with
  | [] => (r, [])
  | pending =>
      let '(r, out) := process_internal (set_state [] (wr_last_char r) r) pending true in
      (set_state (wr_pending r) None r, out)
  end.

(** All chunks, then the end of the stream. *)
Fixpoint replace_stream (r : StreamingWindowReplacer) (chunks : list str) : str :=
  match chunks with
  | [] => (replacer_flush r).2
  | chunk :: chunks' => let '(r, out) := replacer_process r chunk in out ++ replace_stream r chunks'
  end.

(** [PiiSession::restore_text]. *)
Definition restore_text (iter : gmap str str -> list (str * str)) (s : PiiSession) (text : str) : str :=
  if negb (ps_reversible s) || bool_decide (ps_reverse s = ∅) || bool_decide (text = []) then text
  else replace_stream (replacer_new (restoration_mapping iter s)) [text].

(** The state after the chunks. *)
Fixpoint replacer_run (r : StreamingWindowReplacer) (chunks : list str) : StreamingWindowReplacer :=
  match chunks with [] => r | chunk :: chunks' => replacer_run (replacer_process r chunk).1 chunks' end.

(** ** What restoring a text means *)

(** Some occurrences of the keys, in any case, are replaced by their values;
    all other bytes stay. *)
Inductive restores (mapping : gmap str str) : str -> str -> Prop :=
  | restores_nil : restores mapping [] []
  | restores_lit b s t : restores mapping s t -> restores mapping (b :: s) (b :: t)
  | restores_sub k v u s t :
      mapping !! k = Some v -> eq_ignore_ascii_case k u = true -> restores mapping s t ->
      restores mapping (u ++ s) (v ++ t).

(** What the automaton's documentation says of a match: it is an occurrence. *)
Definition matches_sound (pats : list str) (ac : str -> list (nat * (nat * nat))) : Prop :=
  forall input i s e, (i, (s, e)) ∈ ac input ->
    (i < length pats)%nat /\ (s <= e <= length input)%nat
    /\ eq_ignore_ascii_case (pats !!! i) (take (e - s) (drop s input)) = true.

(** What its documentation says of [find_iter]: matches are found from left to
    right without overlaps, at each place the longest pattern that is there. *)
Definition shift (n : nat) (ms : list (nat * (nat * nat))) : list (nat * (nat * nat)) :=
  (fun m => (m.1, ((n + m.2.1)%nat, (n + m.2.2)%nat))) <$> ms.

Definition find_iter_laws (pats : list str) (ac : str -> list (nat * (nat * nat))) : Prop :=
  ac [] = []
  /\ (forall b s, (forall pat, pat ∈ pats -> starts_ic pat (b :: s) = false) -> ac (b :: s) = shift 1 (ac s))
  /\ (forall s pat, pat ∈ pats -> starts_ic pat s = true ->
        exists i p, pats !! i = Some p /\ starts_ic p s = true
          /\ (forall p', p' ∈ pats -> starts_ic p' s = true -> (length p' <= length p)%nat)
          /\ ac s = (i, (0%nat, length p)) :: shift (length p) (ac (drop (length p) s))).

(** A byte that sets a placeholder off: neither part of a word nor of an
    address. *)
Definition is_sep (b : Z) : bool :=
  (0 <=? b) && (b <? 128) && negb (is_word_byte b) && negb (existsb (Z.eqb b) (bytes_of ".+%-'@:")).

Definition sep_next (s : str) : Prop :=
  match s with
  | [] => True
  | b :: s' => is_sep b = true /\ match s' with c :: _ => is_cont c = false | [] => True end
  end.

(** A text whose placeholders stand alone, and the text it becomes: every
    occurrence of a key, in any case, stands between separators and is replaced
    by the original; at every other place no key starts, and the byte stays.
    [alone] tells whether the byte before is a separator.  No key starts inside
    a placeholder and goes on past its end. *)
Inductive restored (mapping : gmap str str) : bool -> str -> str -> Prop :=
  | restored_nil alone : restored mapping alone [] []
  | restored_lit alone b s t :
      (forall k v, mapping !! k = Some v -> starts_ic k (b :: s) = false) ->
      restored mapping (is_sep b) s t -> restored mapping alone (b :: s) (b :: t)
  | restored_key k v u s t :
      mapping !! k = Some v -> eq_ignore_ascii_case k u = true ->
      (forall k' v', mapping !! k' = Some v' -> starts_ic k' (u ++ s) = true -> (length k' <= length u)%nat) ->
      (forall k' v' i, mapping !! k' = Some v' -> (0 < i < length u)%nat -> s <> [] ->
         starts_ic (drop i u ++ take 1 s) k' = false) ->
      sep_next s -> restored mapping false s t ->
      restored mapping true (u ++ s) (v ++ t).

(** ** Lemmas *)

Lemma restores_refl mapping s : restores mapping s s.
Proof. induction s; by constructor. Qed.

Lemma restores_app mapping s t s' t' :
  restores mapping s t -> restores mapping s' t' -> restores mapping (s ++ s') (t ++ t').
Proof.
  induction 1 as [|b s t _ IH|k v u s t Hk Hu _ IH]; intros H; [done|by constructor; apply IH|].
  rewrite <-!app_assoc. eapply restores_sub; [done|done|]. by apply IH.
Qed.

(** What stays fixed in a replacer made from a mapping. *)
Definition conf_ok (mapping : gmap str str) (r : StreamingWindowReplacer) : Prop :=
  (forall ac, wr_automaton r = Some ac -> matches_sound (wr_patterns r) ac)
  /\ (forall i, (i < length (wr_patterns r))%nat ->
        mapping !! (wr_patterns r !!! i) = Some (wr_replacements r !!! i)
        /\ (length (wr_patterns r !!! i) <= wr_max_len r)%nat).

Lemma conf_ok_set mapping r p c : conf_ok mapping r -> conf_ok mapping (set_state p c r).
Proof. done. Qed.

Lemma contact_right_eof kind tail : extends_contact_right kind tail true <> None.
Proof.
  unfold extends_contact_right. destruct (first_char tail); [|done].
  destruct kind; try done; repeat case_match; done.
Qed.

Lemma contact_right_dot kind tail : extends_contact_right kind tail false = None -> (length tail <= 1)%nat.
Proof.
  unfold extends_contact_right. destruct tail as [|b tail]; [simpl; lia|]. cbn [first_char].
  assert (is_char DOT (b :: take_while is_cont tail) = true ->
          first_char (drop (length (b :: take_while is_cont tail)) (b :: tail)) = None -> length (b :: tail) <= 1)%nat as H.
  { unfold is_char. intros [= _ Hc]%bool_decide_eq_true. rewrite Hc. simpl. destruct tail; [simpl; lia|done]. }
  destruct kind; repeat case_match; try done; intros _; by apply H.
Qed.

Lemma take_split {A} (l : list A) n m : (n <= m)%nat -> take m l = take n l ++ take (m - n) (drop n l).
Proof. intros. rewrite take_take_drop. f_equal. lia. Qed.

(** One match: what is skipped, accepted or held back. *)
Lemma match_loop_sound mapping r input is_eof und ms out le lc :
  conf_ok mapping r ->
  (forall i s e, (i, (s, e)) ∈ ms -> (i < length (wr_patterns r))%nat /\ (s <= e <= length input)%nat
     /\ eq_ignore_ascii_case (wr_patterns r !!! i) (take (e - s) (drop s input)) = true) ->
  (le <= length input)%nat -> restores mapping (take le input) out ->
  match match_loop r input is_eof und ms out le lc with
  | inl (out', _, pend) => is_eof = false /\ exists n, (n <= length input)%nat /\ pend = drop n input
      /\ restores mapping (take n input) out' /\ (length pend <= S (wr_max_len r))%nat
  | inr (out', le', _) => (le' <= length input)%nat /\ restores mapping (take le' input) out'
  end.
Proof.
  intros Hc. revert out le lc. induction ms as [|[i [s e]] ms IH]; intros out le lc Hm Hle Hr; cbn [match_loop]; [done|].
  destruct (Hm i s e) as (Hi & Hse & Hic); [by left|].
  assert (forall i s e, (i, (s, e)) ∈ ms -> (i < length (wr_patterns r))%nat /\ (s <= e <= length input)%nat
     /\ eq_ignore_ascii_case (wr_patterns r !!! i) (take (e - s) (drop s input)) = true) as Hm'
    by (intros; apply Hm; by right).
  pose proof (IH out le lc Hm' Hle Hr) as Hskip. cbv zeta.
  destruct (match und with Some start => _ | None => false end); [done|].
  destruct (s <? le)%nat eqn:Els; [done|]. apply Nat.ltb_ge in Els.
  destruct Hc as [Ha Hc]. destruct (Hc i Hi) as [Hmap Hmax].
  assert (length (wr_patterns r !!! i) = e - s)%nat as Hlen.
  { apply eq_ic_length in Hic. rewrite Hic, length_take, length_drop. lia. }
  assert (restores mapping (take s input) (out ++ take (s - le) (drop le input))) as Hhold.
  { rewrite (take_split input le s) by lia. apply restores_app; [done|apply restores_refl]. }
  set (new := (out ++ take (s - le) (drop le input) ++ (wr_replacements r !!! i))).
  assert (restores mapping (take e input) new) as Hacc.
  { unfold new. rewrite app_assoc, (take_split input s e) by lia. apply restores_app; [done|].
    rewrite <-(app_nil_r (take (e - s) _)), <-(app_nil_r (_ !!! i)). eapply restores_sub; [done|done|constructor]. }
  pose proof (IH new e (or_char (last_char_of new) lc) Hm' ltac:(lia) Hacc) as Haccept.
  destruct (_ && match _ with Some c => is_token_char c | None => false end); [done|].
  destruct (match contact_kind (wr_patterns r !!! i) with Some _ => _ | None => false end); [done|].
  destruct (e =? length input)%nat eqn:Ee.
  - apply Nat.eqb_eq in Ee. destruct is_eof; [done|]. cbn [negb andb].
    destruct (_ || _); [|done]. split; [done|]. exists s. split_and!; [lia|done|done|].
    rewrite length_drop. lia.
  - destruct (_ && _); [done|]. destruct (contact_kind _) as [kind|]; [|done].
    destruct (extends_contact_right kind _ is_eof) as [[|]|] eqn:Ec; [done|done|].
    destruct is_eof; [by apply contact_right_eof in Ec|]. split; [done|].
    exists s. split_and!; [lia|done|done|]. apply contact_right_dot in Ec. rewrite length_drop in *. lia.
Qed.

(** A call consumes the front of what it has and restores it. *)
Lemma process_sound mapping r chunk is_eof :
  conf_ok mapping r -> (wr_automaton r = None -> wr_pending r = []) ->
  (length (wr_pending r) <= S (wr_max_len r))%nat ->
  let '(r', out) := process_internal r chunk is_eof in
  exists consumed c, wr_pending r ++ chunk = consumed ++ wr_pending r' /\ restores mapping consumed out
    /\ r' = set_state (wr_pending r') c r /\ (is_eof = true -> wr_pending r' = [])
    /\ (length (wr_pending r') <= S (wr_max_len r))%nat /\ (wr_automaton r' = None -> wr_pending r' = []).
Proof.
  intros Hc Hnone Hlen. unfold process_internal. destruct (wr_automaton r) as [ac|] eqn:Eac.
  2: { rewrite (Hnone eq_refl). exists chunk, (wr_last_char r). rewrite app_nil_r.
       split_and!; [done|apply restores_refl| |done|simpl; lia|done]. destruct r; simpl in *. by rewrite (Hnone eq_refl). }
  cbv zeta. destruct (wr_pending r ++ chunk) as [|b0 input0] eqn:Ein.
  { apply app_eq_nil in Ein as [Hp _]. exists [], (wr_last_char r). rewrite Hp.
    split_and!; [done|constructor| |done|simpl; lia|done]. destruct r; simpl in *. by rewrite Hp. }
  set (input := b0 :: input0). set (r1 := set_state [] (wr_last_char r) r).
  pose proof (match_loop_sound mapping r1 input is_eof (if is_eof then None else undecidable_start r1 input)
                (ac input) [] 0 (wr_last_char r1) Hc) as H.
  specialize (H (fun i s e => (proj1 Hc ac Eac) input i s e) ltac:(lia) (restores_nil mapping)).
  destruct (match_loop _ _ _ _ _ _ _ _) as [[[out lc] pend]|[[out le] lc]].
  - destruct H as (-> & n & Hn & -> & Hr & Hl). exists (take n input), lc. cbn [set_state wr_pending wr_automaton].
    rewrite take_drop. split_and!; [done|done|done|done|done|by simpl; rewrite Eac].
  - destruct H as [Hle Hr]. destruct (drop le input) as [|b1 trailing0] eqn:Etr.
    { exists input. eexists. cbn [set_state wr_pending wr_automaton]. rewrite app_nil_r.
      rewrite <-(take_drop le input), Etr, app_nil_r. split_and!; try done; simpl; lia. }
    set (trailing := b1 :: trailing0) in *.
    destruct (is_eof || _) eqn:Eeof.
    { exists input. eexists. cbn [set_state wr_pending wr_automaton]. rewrite app_nil_r.
      split_and!; try done; [|simpl; lia]. rewrite <-(take_drop le input), Etr.
      apply restores_app; [done|apply restores_refl]. }
    apply orb_false_iff in Eeof as [-> Emax]. apply Nat.eqb_neq in Emax. 
    set (sp := List.find _ _).
    assert (default (length trailing) sp <= length trailing
            /\ length (drop (default (length trailing) sp) trailing) <= S (wr_max_len r))%nat as [Hsp Hl].
    { destruct sp as [pos|] eqn:Esp; unfold default, from_option, id.
      - apply List.find_some in Esp as [Hin [[_ Hlt]%andb_true_iff _]%andb_true_iff].
        apply list_elem_of_In, elem_of_seq in Hin. apply Nat.ltb_lt in Hlt. change (wr_max_len r1) with (wr_max_len r) in Hlt. split; lia.
      - rewrite drop_all. simpl. split; lia. }
    generalize dependent (default (length trailing) sp). intros n Hn Hl.
    exists (take le input ++ take n trailing). eexists. cbn [set_state wr_pending wr_automaton].
    split_and!; [| |done|done|done|by simpl; rewrite Eac].
    + rewrite <-app_assoc, take_drop, <-Etr. by rewrite take_drop.
    + apply restores_app; [done|apply restores_refl].
Qed.

Lemma flush_sound mapping r :
  conf_ok mapping r -> (wr_automaton r = None -> wr_pending r = []) ->
  (length (wr_pending r) <= S (wr_max_len r))%nat -> restores mapping (wr_pending r) (replacer_flush r).2.
Proof.
  intros Hc Hnone Hl. unfold replacer_flush. destruct (wr_pending r) as [|b p] eqn:Ep; [constructor|].
  pose proof (process_sound mapping (set_state [] (wr_last_char r) r) (b :: p) true Hc (fun _ => eq_refl)) as H.
  specialize (H ltac:(simpl; lia)). destruct (process_internal _ _ _) as [r' out].
  destruct H as (consumed & c & Heq & Hr & _ & Hp & _). rewrite (Hp eq_refl), app_nil_r in Heq. simpl in Heq.
  by subst consumed.
Qed.

Lemma stream_sound mapping r chunks :
  conf_ok mapping r -> (wr_automaton r = None -> wr_pending r = []) ->
  (length (wr_pending r) <= S (wr_max_len r))%nat ->
  restores mapping (wr_pending r ++ concat chunks) (replace_stream r chunks)
  /\ (length (wr_pending (replacer_run r chunks)) <= S (wr_max_len r))%nat.
Proof.
  revert r. induction chunks as [|chunk chunks IH]; intros r Hc Hnone Hl; cbn [replace_stream replacer_run concat].
  { rewrite app_nil_r. split; [by apply flush_sound|done]. }
  unfold replacer_process. pose proof (process_sound mapping r chunk false Hc Hnone Hl) as H.
  destruct (process_internal r chunk false) as [r' out]. cbn [fst].
  destruct H as (consumed & c & Heq & Hr & Hset & _ & Hl' & Hnone').
  assert (conf_ok mapping r' /\ wr_max_len r' = wr_max_len r) as [Hc' Hm] by (rewrite Hset; by split).
  destruct (IH r') as [IH1 IH2]; [done|done|lia|]. rewrite Hm in IH2. split; [|done].
  rewrite app_assoc, Heq, <-app_assoc. by apply restores_app.
Qed.

(** ** Lemmas: a new replacer *)

Definition head_len (l : list (str * str)) : nat := match l with p :: _ => length p.1 | [] => 0%nat end.

Lemma compare_pairs_len a b :
  (compare_pairs a b = Gt -> length a.1 <= length b.1)%nat /\ (compare_pairs a b <> Gt -> length b.1 <= length a.1)%nat.
Proof. unfold compare_pairs, cmp_then. destruct (Nat.compare_spec (length b.1) (length a.1)); split; done || lia. Qed.

(** The longest key comes first. *)
Lemma sorted_head_longest l : Forall (fun p => (length p.1 <= head_len (sort_by compare_pairs l))%nat) (sort_by compare_pairs l).
Proof.
  induction l as [|x l IH]; cbn [sort_by]; [constructor|].
  destruct (sort_by compare_pairs l) as [|y l'] eqn:E; [by repeat constructor|]. cbn [insert_by].
  destruct (compare_pairs_len x y) as [H1 H2]. inversion_clear IH as [|? ? _ IH']. cbn [head_len] in *.
  destruct (compare_pairs x y) eqn:Ec; cbn [head_len].
  1, 2: specialize (H2 ltac:(done)); constructor; [done|]; constructor; [done|]; eapply Forall_impl; [done|]; simpl; lia.
  constructor; [done|]. rewrite insert_by_perm. constructor; [auto|done].
Qed.

Context (build_sound : forall pats ac, build pats = Some ac -> matches_sound pats ac).

Lemma lookup_total_fmap {A B} `{!Inhabited A, !Inhabited B} (f : A -> B) (l : list A) (i : nat) x :
  l !! i = Some x -> (f <$> l) !!! i = f x.
Proof. intros H. apply list_lookup_total_correct. by rewrite list_lookup_fmap, H. Qed.

Lemma new_ok mapping : mapping <> ∅ ->
  let r := replacer_new mapping in
  conf_ok mapping r
  /\ (forall k v, mapping !! k = Some v ->
        k ∈ wr_patterns r /\ (length k <= wr_max_len r)%nat /\ (forall s, s ∈ prefixes_of k -> s ∈ wr_prefixes r)).
Proof.
  intros Hm. unfold replacer_new. rewrite bool_decide_false by done. cbv zeta.
  pose proof (sort_by_perm compare_pairs (map_to_list mapping)) as Hperm.
  pose proof (sorted_head_longest (map_to_list mapping)) as Hlong.
  set (pairs := sort_by compare_pairs (map_to_list mapping)) in *. unfold conf_ok.
  cbn [wr_automaton wr_patterns wr_replacements wr_prefixes wr_max_len]. fold (head_len pairs).
  rewrite Forall_forall in Hlong. split; [split; [by intros ac ?%build_sound|]|].
  - intros i Hi. rewrite length_fmap in Hi. destruct (lookup_lt_is_Some_2 pairs i Hi) as [[k v] Hkv].
    rewrite (lookup_total_fmap _ _ _ _ Hkv), (lookup_total_fmap _ _ _ _ Hkv). cbn [fst snd].
    apply list_elem_of_lookup_2 in Hkv. split; [|by apply Hlong in Hkv].
    apply elem_of_map_to_list. by rewrite <-Hperm.
  - intros k v Hk. assert ((k, v) ∈ pairs) as Hin by (rewrite Hperm; by apply elem_of_map_to_list).
    split_and!.
    + apply list_elem_of_fmap. by exists (k, v).
    + by apply (Hlong (k, v)).
    + intros s Hs. apply elem_of_list_to_set, list_elem_of_bind. exists k. split; [done|].
      apply list_elem_of_fmap. by exists (k, v).
Qed.

Lemma replacer_new_idle mapping :
  wr_pending (replacer_new mapping) = [] /\ wr_last_char (replacer_new mapping) = None.
Proof. unfold replacer_new. case_bool_decide; done. Qed.

(** ** Lemmas: a text whose placeholders stand alone *)

Section alone.
Context (build_total : forall pats, is_Some (build pats)).
Context (build_laws : forall pats ac, [] ∉ pats -> build pats = Some ac -> find_iter_laws pats ac).
Context (mapping : gmap str str).
Context (mapping_ne : mapping <> ∅).
Context (keys_ascii : forall k v, mapping !! k = Some v -> k <> [] /\ Forall (fun b => 0 <= b < 128) k).

Notation r0 := (replacer_new mapping).

Lemma lower_ascii b : 0 <= b < 128 <-> 0 <= lower b < 128.
Proof. unfold lower. destruct (Z.leb_spec 65 b), (Z.leb_spec b 90); simpl; lia. Qed.

Lemma boundary_ascii (s : str) i b : s !! i = Some b -> 0 <= b < 128 -> is_char_boundary s i = true.
Proof.
  intros Hs Hb. unfold is_char_boundary. destruct (i =? 0)%nat; [done|]. rewrite Hs. apply negb_true_iff.
  rewrite is_cont_range by lia. destruct (Z.leb_spec 128 b); [lia|done].
Qed.

Lemma match_nonempty {A} (s : str) (a b : A) : s <> [] -> match s with [] => a | _ :: _ => b end = b.
Proof. by destruct s. Qed.

(** The texts that may still grow into a placeholder. *)
Lemma open_spec x :
  is_prefix r0 x = true <->
  x <> [] /\ exists k v z, mapping !! k = Some v /\ lower <$> k = (lower <$> x) ++ z /\ z <> [].
Proof.
  unfold is_prefix, lowercase. rewrite bool_decide_eq_true. unfold replacer_new.
  rewrite bool_decide_false by done. cbv zeta. cbn [wr_prefixes].
  rewrite elem_of_list_to_set, list_elem_of_bind. unfold prefixes_of. split.
  - intros (k & (i & Hx & [_ Hi]%list_elem_of_filter)%list_elem_of_fmap & ([k' v] & -> & Hkv)%list_elem_of_fmap).
    rewrite sort_by_perm, elem_of_map_to_list in Hkv. cbn [fst] in *. apply elem_of_seq in Hi.
    unfold lowercase in Hx. split.
    + intros ->. apply (f_equal length) in Hx. rewrite !length_fmap, length_take in Hx. simpl in Hx. lia.
    + exists k', v, (lower <$> drop i k'). split_and!; [done|by rewrite Hx, <-fmap_app, take_drop|].
      intros Hz. apply (f_equal length) in Hz. rewrite length_fmap, length_drop in Hz. simpl in Hz. lia.
  - intros (Hx & k & v & z & Hk & Hl & Hz). exists k. split.
    + apply list_elem_of_fmap. exists (length x). split.
      * unfold lowercase. rewrite fmap_take, Hl, take_app_length'; [done|by rewrite length_fmap].
      * apply list_elem_of_filter. apply (f_equal length) in Hl as Hl'. rewrite length_app, !length_fmap in Hl'.
        assert (0 < length x)%nat by (destruct x; [done|simpl; lia]).
        assert (0 < length z)%nat by (destruct z; [done|simpl; lia]). split; [|apply elem_of_seq; lia].
        destruct (lookup_lt_is_Some_2 k (length x) ltac:(lia)) as [b Hb].
        eapply boundary_ascii; [done|]. destruct (keys_ascii k v Hk) as [_ Ha]. rewrite Forall_forall in Ha.
        by apply Ha, (list_elem_of_lookup_2 _ _ _ Hb).
    + apply list_elem_of_fmap. exists (k, v). split; [done|]. by rewrite sort_by_perm, elem_of_map_to_list.
Qed.

Lemma open_short x : is_prefix r0 x = true -> (0 < length x < wr_max_len r0)%nat.
Proof.
  intros (Hx & k & v & z & Hk & Hl & Hz)%open_spec. destruct (new_ok mapping mapping_ne) as [_ Hnew].
  destruct (Hnew k v Hk) as (_ & Hm & _). apply (f_equal length) in Hl. rewrite length_app, !length_fmap in Hl.
  destruct x; [done|]. destruct z; [done|]. simpl in *. lia.
Qed.

Lemma open_boundary s j : is_prefix r0 (drop j s) = true -> is_char_boundary s j = true.
Proof.
  intros (Hx & k & v & z & Hk & Hl & Hz)%open_spec. destruct (s !! j) as [b|] eqn:Eb.
  2: { apply lookup_ge_None, drop_ge in Eb. by rewrite Eb in Hx. }
  eapply boundary_ascii; [done|]. rewrite (drop_S _ _ _ Eb) in Hl. destruct (keys_ascii k v Hk) as [Hne Ha].
  destruct k as [|c k]; [done|]. injection Hl as Hc _. inversion_clear Ha as [|? ? Hc' _].
  apply lower_ascii. rewrite <-Hc. by apply (proj1 (lower_ascii c)).
Qed.

(** The first place whose rest may still grow into a placeholder. *)
Definition first_open (s : str) : option nat :=
  List.find (fun j => is_prefix r0 (drop j s)) (seq 0 (length s)).

Lemma find_in_app {A} (f : A -> bool) l1 l2 :
  List.find f (l1 ++ l2) = match List.find f l1 with Some x => Some x | None => List.find f l2 end.
Proof. induction l1 as [|x l1 IH]; simpl; [done|]. by destruct (f x). Qed.

Lemma find_seq_restrict (f g : nat -> bool) a n :
  (forall j, (j < n)%nat -> f j = true -> (a <= j)%nat) -> (forall j, (a <= j < n)%nat -> g j = f j) ->
  List.find g (seq a (n - a)) = List.find f (seq 0 n).
Proof.
  intros Hf Hg. destruct (decide (a <= n)%nat) as [Ha|Ha].
  - replace n with (a + (n - a))%nat at 2 by lia. rewrite seq_app, find_in_app. simpl.
    assert (List.find f (seq 0 a) = None) as ->.
    { destruct (List.find f (seq 0 a)) as [j|] eqn:E; [|done]. apply List.find_some in E as [Hin Hj].
      apply list_elem_of_In, elem_of_seq in Hin. specialize (Hf j ltac:(lia) Hj). lia. }
    assert (forall j, j ∈ seq a (n - a) -> g j = f j) as Heq by (intros j Hj%elem_of_seq; apply Hg; lia).
    revert Heq. generalize (seq a (n - a)). intros l. induction l as [|j l IH]; intros Heq; [done|]. simpl.
    rewrite (Heq j) by by left. rewrite IH; [done|]. intros j' Hj'. apply Heq. by right.
  - replace (n - a)%nat with 0%nat by lia. simpl. symmetry. destruct (List.find f (seq 0 n)) as [j|] eqn:E; [|done].
    apply List.find_some in E as [Hin Hj]. apply list_elem_of_In, elem_of_seq in Hin.
    specialize (Hf j ltac:(lia) Hj). lia.
Qed.

Lemma boundary_above_skips s gap i j :
  (i <= j < boundary_above s gap i)%nat -> is_char_boundary s j = false.
Proof.
  revert i. induction gap as [|g IH]; intros i; cbn [boundary_above]; [lia|].
  destruct (is_char_boundary s i) eqn:E; [lia|]. intros H. destruct (decide (i = j)) as [->|]; [done|]. apply (IH (S i)). lia.
Qed.

Lemma open_after_scan s start j :
  (forall n, is_prefix r0 (drop n s) = true -> (start <= n)%nat) ->
  is_prefix r0 (drop j s) = true -> (boundary_above s (length s - start) start <= j)%nat.
Proof.
  intros Hs Hj. destruct (decide (boundary_above s (length s - start) start <= j)%nat) as [|Hlt]; [done|].
  pose proof (open_boundary s j Hj) as He.
  rewrite (boundary_above_skips s (length s - start) start j) in He; [done|]. specialize (Hs j Hj). lia.
Qed.

Lemma undecidable_first_open p c s : undecidable_start (set_state p c r0) s = first_open s.
Proof.
  unfold undecidable_start, first_prefix, first_open. cbv zeta. change (wr_max_len (set_state p c r0)) with (wr_max_len r0).
  set (start := (length s - (wr_max_len r0 - 1))%nat). apply find_seq_restrict.
  - intros j Hj Ho. apply open_after_scan; [|done]. intros n Hn. apply open_short in Hn. rewrite length_drop in Hn. lia.
  - intros j Hj. change (is_prefix (set_state p c r0)) with (is_prefix r0).
    destruct (is_prefix r0 (drop j s)) eqn:E; [|apply andb_false_r]. by rewrite (open_boundary s j E).
Qed.

Lemma split_first_open p c s :
  let scan_start := if (wr_max_len r0 <=? length s)%nat then
                      let idx := (length s - (wr_max_len r0 - 1))%nat in
                      Nat.min (boundary_above s (length s - idx) idx) (length s)
                    else 0%nat in
  List.find (fun pos => is_char_boundary s pos && (length (drop pos s) <? wr_max_len r0)%nat
                        && is_prefix (set_state p c r0) (drop pos s)) (seq scan_start (length s - scan_start))
  = first_open s.
Proof.
  cbv zeta. apply find_seq_restrict.
  - intros j Hj Ho. destruct (wr_max_len r0 <=? length s)%nat; [|lia]. apply Nat.min_le_iff. left.
    apply open_after_scan; [|done]. intros n Hn. apply open_short in Hn. rewrite length_drop in Hn. lia.
  - intros j Hj. change (is_prefix (set_state p c r0)) with (is_prefix r0).
    destruct (is_prefix r0 (drop j s)) eqn:E; [|apply andb_false_r]. rewrite (open_boundary s j E).
    apply open_short in E. by rewrite (proj2 (Nat.ltb_lt _ _)) by lia.
Qed.

Lemma first_open_Some s n :
  first_open s = Some n -> (n < length s)%nat /\ is_prefix r0 (drop n s) = true
    /\ forall j, (j < n)%nat -> is_prefix r0 (drop j s) = false.
Proof.
  unfold first_open. intros E. pose proof (List.find_some _ _ E) as [Hin Hp].
  apply list_elem_of_In, elem_of_seq in Hin. split_and!; [lia|done|]. intros j Hj.
  destruct (is_prefix r0 (drop j s)) eqn:Ej; [|done].
  replace (length s) with (j + (length s - j))%nat in E by lia. rewrite seq_app, find_in_app in E.
  destruct (List.find _ (seq 0 j)) eqn:E1; [injection E as ->; apply List.find_some in E1 as [Hin' _];
    apply list_elem_of_In, elem_of_seq in Hin'; lia|].
  destruct (length s - j)%nat eqn:El; [lia|]. simpl in E. rewrite Ej in E. injection E as ->. lia.
Qed.

Lemma first_open_None s j : first_open s = None -> is_prefix r0 (drop j s) = false.
Proof.
  intros E. destruct (decide (j < length s)%nat) as [Hj|Hj].
  - apply (List.find_none _ _ E). apply list_elem_of_In, elem_of_seq. lia.
  - rewrite drop_ge by lia. destruct (is_prefix r0 []) eqn:En; [|done]. by apply open_short in En as [? _]; simpl in *; lia.
Qed.

Lemma first_open_unique s n :
  (n < length s)%nat -> is_prefix r0 (drop n s) = true -> (forall j, (j < n)%nat -> is_prefix r0 (drop j s) = false) ->
  first_open s = Some n.
Proof.
  intros Hn Hp Hb. destruct (first_open s) as [m|] eqn:E; [|by rewrite (first_open_None s n E) in Hp].
  apply first_open_Some in E as (_ & Hm & Hb'). destruct (lt_eq_lt_dec n m) as [[H| ->]|H]; [|done|].
  - by rewrite Hb' in Hp.
  - by rewrite Hb in Hm.
Qed.

Lemma first_open_drop s n le : first_open s = Some n -> (le <= n)%nat -> first_open (drop le s) = Some (n - le)%nat.
Proof.
  intros (Hn & Hp & Hb)%first_open_Some Hle. apply first_open_unique.
  - rewrite length_drop. lia.
  - rewrite drop_drop. by replace (le + (n - le))%nat with n by lia.
  - intros j Hj. rewrite drop_drop. apply Hb. lia.
Qed.

Lemma first_open_drop_None s le : first_open s = None -> first_open (drop le s) = None.
Proof.
  intros Hs. destruct (first_open (drop le s)) as [m|] eqn:E; [|done].
  apply first_open_Some in E as (_ & Hp & _). by rewrite drop_drop, (first_open_None s _ Hs) in Hp.
Qed.

Lemma shift_shift n m l : shift n (shift m l) = shift (n + m) l.
Proof. unfold shift. rewrite <-list_fmap_compose. apply list_fmap_ext. intros ? [i [s e]] _. simpl. do 2 f_equal; lia. Qed.

Lemma automaton_new : exists ac, wr_automaton r0 = Some ac /\ find_iter_laws (wr_patterns r0) ac.
Proof.
  unfold replacer_new. rewrite bool_decide_false by done. cbv zeta. cbn [wr_automaton wr_patterns].
  destruct (build_total (sort_by compare_pairs (map_to_list mapping)).*1) as [ac Hac]. exists ac. split; [done|].
  apply build_laws; [|done]. intros ([k v] & Hk & Hin)%list_elem_of_fmap. cbn [fst] in Hk. subst k.
  rewrite sort_by_perm, elem_of_map_to_list in Hin. by destruct (keys_ascii _ _ Hin).
Qed.

Lemma pattern_is_key i k : wr_patterns r0 !! i = Some k -> mapping !! k = Some (wr_replacements r0 !!! i).
Proof.
  intros Hi. destruct (new_ok mapping mapping_ne) as [[_ Hc] _].
  destruct (Hc i (lookup_lt_Some _ _ _ Hi)) as [Hm _]. by rewrite (list_lookup_total_correct _ _ _ Hi) in Hm.
Qed.

Lemma key_is_pattern k v : mapping !! k = Some v -> k ∈ wr_patterns r0.
Proof. intros Hk. destruct (new_ok mapping mapping_ne) as [_ Hnew]. by destruct (Hnew k v Hk). Qed.

Lemma starts_ic_app k s t : starts_ic k s = true -> starts_ic k (s ++ t) = true.
Proof. rewrite !starts_ic_spec. intros (m & q & -> & Hm). exists m, (q ++ t). by rewrite app_assoc. Qed.

Lemma starts_ic_self k u s : eq_ignore_ascii_case k u = true -> starts_ic k (u ++ s) = true.
Proof. intros Hu%eq_ic_spec. apply starts_ic_spec. by exists u, s. Qed.

(** Separators. *)
Definition char_sep (c : option str) : Prop := match c with Some c => exists b, c = [b] /\ is_sep b = true | None => True end.

Lemma sep_char b : is_sep b = true ->
  0 <= b < 128 /\ is_token_char [b] = false
  /\ (forall kind, extends_contact_left kind [b] = false)
  /\ is_char DOT [b] = false /\ is_char COLON [b] = false /\ is_char 37 [b] = false /\ one_of "-+%@" [b] = false.
Proof.
  unfold is_sep. rewrite !andb_true_iff, !negb_true_iff. intros [[[H0%Z.leb_le H1%Z.ltb_lt] Hw] Hs].
  change (bytes_of ".+%-'@:") with [46; 43; 37; 45; 39; 64; 58] in Hs. cbn [existsb] in Hs.
  rewrite !orb_false_iff, !Z.eqb_neq in Hs.
  assert (forall x, x <> b -> is_char x [b] = false) as Hx.
  { intros x Hne. unfold is_char. apply bool_decide_eq_false. by intros [= ->]. }
  unfold one_of. change (bytes_of "-+%@") with [45; 43; 37; 64].
  split_and!; [lia|lia|done| |apply Hx; unfold DOT; lia|apply Hx; unfold COLON; lia|apply Hx; lia|].
  - intros []; unfold extends_contact_left, one_of;
      [change (bytes_of ".+%-'@") with [46; 43; 37; 45; 39; 64]|change (bytes_of ".+%") with [46; 43; 37]|];
      cbn [existsb]; rewrite ?Hx; unfold COLON; try done; lia.
  - cbn [existsb]. rewrite !Hx; [done|lia..].
Qed.

Lemma sep_next_first s : sep_next s -> s <> [] -> exists b, first_char s = Some [b] /\ is_sep b = true.
Proof.
  destruct s as [|b [|c s]]; intros Hs Hne; [done| |]; destruct Hs as [Hb Hc]; exists b; split; try done.
  unfold first_char. cbn [take_while]. by rewrite Hc.
Qed.

Lemma sep_next_right kind s eof : sep_next s -> extends_contact_right kind s eof = Some false.
Proof.
  intros Hs. destruct (decide (s = [])) as [->|Hne]; [done|].
  destruct (sep_next_first s Hs Hne) as (b & Hf & Hb). unfold extends_contact_right. rewrite Hf.
  destruct (sep_char b Hb) as (_ & _ & _ & Hd & Hc & Hp & Ho). rewrite Hd, Hc, Hp, Ho. by destruct kind.
Qed.

Lemma sep_next_prefix s t : sep_next (s ++ t) -> sep_next s.
Proof. destruct s as [|b [|c s]]; simpl; intros H; [done|by destruct H|done]. Qed.

Lemma last_char_sep x b : is_sep b = true -> last_char_of (x ++ [b]) = Some [b].
Proof.
  intros Hb. unfold last_char_of. rewrite match_nonempty by (by destruct x). f_equal.
  rewrite length_app. cbn [length]. replace (length x + 1 - 1)%nat with (length x) by lia.
  rewrite boundary_below_at; [by rewrite drop_app_length|]. eapply boundary_ascii.
  - by rewrite lookup_app_r, Nat.sub_diag by lia.
  - by apply sep_char.
Qed.

(** One call over [input], with [w] still to come. *)
Section walk.
Context (ac : str -> list (nat * (nat * nat))) (Hac : find_iter_laws (wr_patterns r0) ac).
Context (r : StreamingWindowReplacer) (Hr : exists p c, r = set_state p c r0).
Context (input w : str) (eof : bool) (Heof : eof = true -> w = []).

Notation und := (if eof then None else first_open input).

Definition prev_char_at (pos : nat) (lc : option str) : option str :=
  if (0 <? pos)%nat then last_char_of (take pos input) else lc.

Definition prev_ok (alone : bool) (pos : nat) (lc : option str) : Prop :=
  alone = true -> char_sep (prev_char_at pos lc).

(** The end of the decided part. *)
Lemma walk_end pos out le lc :
  pos = length input \/ und = Some pos ->
  match_loop r input eof und (shift pos (ac (drop pos input))) out le lc = inr (out, le, lc).
Proof.
  destruct Hac as [Hnil _]. intros [->|Hu].
  - by rewrite drop_all, Hnil.
  - rewrite Hu. destruct (ac (drop pos input)) as [|[i [s e]] ms]; [done|]. cbn [shift fmap list_fmap match_loop fst snd].
    by rewrite (proj2 (Nat.leb_le pos (pos + s))) by lia.
Qed.

(** A match that stands alone is accepted, or held back at the end of the input. *)
Lemma match_alone i k pos ms out le lc s1 :
  wr_patterns r0 !! i = Some k -> drop pos input = take (length k) (drop pos input) ++ s1 ->
  (length k <= length (drop pos input))%nat ->
  (le <= pos)%nat -> (forall n, und = Some n -> (pos < n)%nat) -> prev_ok true pos lc -> sep_next s1 ->
  let new := out ++ take (pos - le) (drop le input) ++ (wr_replacements r0 !!! i) in
  match_loop r input eof und ((i, (pos, (pos + length k)%nat)) :: ms) out le lc
  = match_loop r input eof und ms new (pos + length k) (or_char (last_char_of new) lc)
  \/ eof = false /\ s1 = []
     /\ match_loop r input eof und ((i, (pos, (pos + length k)%nat)) :: ms) out le lc
        = inl (out ++ take (pos - le) (drop le input), or_char (last_char_of (take pos input)) lc, drop pos input).
Proof.
  intros Hi Hd Hlen Hle Hund Hprev Hs1. cbn [match_loop].
  assert (match und with Some start => (start <=? pos)%nat | None => false end = false) as ->.
  { destruct und as [n|]; [|done]. apply Nat.leb_gt. by apply Hund. }
  rewrite (proj2 (Nat.ltb_ge pos le)) by done. fold (prev_char_at pos lc).
  destruct Hr as (p0 & c0 & ->). cbn [set_state wr_patterns wr_replacements] in *.
  rewrite (list_lookup_total_correct _ _ _ Hi). cbv zeta. specialize (Hprev eq_refl).
  assert (match prev_char_at pos lc with Some c => is_token_char c | None => false end = false
          /\ (forall contact, match contact, prev_char_at pos lc with
              | Some kind, Some c => extends_contact_left kind c | _, _ => false end = false)) as [-> Hcl].
  { destruct (prev_char_at pos lc) as [c|]; [|by split; [|intros []]]. destruct Hprev as (b & -> & Hb).
    destruct (sep_char b Hb) as (_ & Ht & Hc & _). split; [done|]. by intros []. }
  rewrite andb_false_r, Hcl. 
  assert (drop (pos + length k) input = s1) as Hrest.
  { rewrite <-drop_drop, Hd. apply drop_app_length'. rewrite length_take. lia. }
  assert (length input = pos + length k + length s1)%nat as Hll.
  { apply (f_equal length) in Hrest. rewrite length_drop in Hlen, Hrest.
    destruct (keys_ascii k _ (pattern_is_key i k Hi)) as [Hkne _]. destruct k; [done|]. simpl in *. lia. }
  destruct (pos + length k =? length input)%nat eqn:Ee.
  - apply Nat.eqb_eq in Ee. destruct (negb eof && _) eqn:Eh; [|by left]. right.
    apply andb_true_iff in Eh as [He%negb_true_iff _]. split_and!; [done| |done]. apply nil_length_inv. lia.
  - left. apply Nat.eqb_neq in Ee. rewrite Hrest.
    assert (s1 <> []) as Hne by (intros ->; simpl in Hll; lia).
    destruct (sep_next_first s1 Hs1 Hne) as (b & Hf & Hb). rewrite Hf.
    destruct (sep_char b Hb) as (_ & -> & _). rewrite andb_false_r.
    destruct (contact_kind k) as [kind|]; [|done]. by rewrite sep_next_right.
Qed.

(** What the loop leaves to the rest of the stream. *)
Definition walk_result (alone : bool) (R out : str) (pos le : nat)
    (res : (str * option str * str) + (str * nat * option str)) : Prop :=
  match res with
  | inl (out', lc', pend) =>
      eof = false /\ exists m y, (m <= length input)%nat /\ pend = drop m input
        /\ out' = out ++ take (pos - le) (drop le input) ++ y
        /\ (exists O', restored mapping true (pend ++ w) O')
        /\ (forall X, restored mapping true (pend ++ w) X -> restored mapping alone R (y ++ X))
        /\ char_sep lc'
  | inr (out', le', lc') =>
      exists m alone' y, (le' <= m <= length input)%nat /\ (m = length input /\ (le' = length input \/ und = None) \/ und = Some m)
        /\ out' ++ take (m - le') (drop le' input) = out ++ take (pos - le) (drop le input) ++ y
        /\ (exists O', restored mapping alone' (drop m input ++ w) O')
        /\ (forall X, restored mapping alone' (drop m input ++ w) X -> restored mapping alone R (y ++ X))
        /\ prev_ok alone' m lc' /\ (m = 0%nat \/ (le' < m)%nat \/ alone' = false)
  end.

Lemma walk_stop alone R O pos out le lc :
  restored mapping alone R O -> drop pos input ++ w = R -> (le <= pos <= length input)%nat ->
  (forall n, und = Some n -> le = length input \/ (pos <= n)%nat) ->
  pos = length input \/ und = Some pos -> prev_ok alone pos lc -> pos = 0%nat \/ (le < pos)%nat \/ alone = false ->
  walk_result alone R out pos le (match_loop r input eof und (shift pos (ac (drop pos input))) out le lc).
Proof.
  intros HR <- Hpos Hund Hend Hp Ha. rewrite walk_end by done. exists pos, alone, []. rewrite app_nil_r.
  split_and!; [lia|lia| |done|by exists O|done|done|done].
  destruct Hend as [Hend|]; [left|by right]. split; [done|]. destruct eof; [by right|].
  destruct (first_open input) as [n|] eqn:En; [|by right]. left.
  destruct (Hund n eq_refl) as [?|?]; [done|]. apply first_open_Some in En as [? _]. lia.
Qed.

Lemma take_lit le pos b (s : str) : (le <= pos)%nat -> s !! pos = Some b ->
  take (S pos - le) (drop le s) = take (pos - le) (drop le s) ++ [b].
Proof.
  intros Hle Hb. replace (S pos - le)%nat with (S (pos - le)) by lia. apply take_S_r.
  rewrite lookup_drop. by replace (le + (pos - le))%nat with pos by lia.
Qed.

(** A placeholder whose place is decided is there as a whole. *)
Lemma placeholder_whole k v u s pos :
  mapping !! k = Some v -> eq_ignore_ascii_case k u = true -> drop pos input ++ w = u ++ s -> 
  (forall n, und = Some n -> (pos < n)%nat) -> (pos < length input)%nat ->
  exists s1, drop pos input = u ++ s1 /\ s = s1 ++ w.
Proof.
  intros Hk Hu Hd Hund Hlt. destruct (decide (length u <= length (drop pos input))%nat) as [Hl|Hl].
  - exists (drop (length u) (drop pos input)). apply app_eq_inv in Hd as [(z & Hz & Hw)|(z & Hz & Hw)].
    + rewrite Hz in *. rewrite drop_app_length. by split.
    + rewrite Hz, length_app in Hl. assert (z = []) as -> by (apply nil_length_inv; lia).
      rewrite app_nil_r in Hz. subst u. rewrite drop_all, app_nil_r. by split.
  - exfalso. apply app_eq_inv in Hd as [(z & Hz & Hw)|(z & Hz & Hw)]; [rewrite Hz, length_app in Hl; lia|].
    assert (z <> []) as Hne by (intros ->; rewrite Hz, app_nil_r in Hl; lia).
    assert (is_prefix r0 (drop pos input) = true) as Hopen.
    { apply open_spec. split; [intros H%(f_equal length); rewrite length_drop in H; simpl in H; lia|].
      exists k, v, (lower <$> z). apply eq_ic_spec in Hu. rewrite Hu, Hz, fmap_app. split_and!; [done..|].
      by destruct z. }
    destruct eof; [rewrite (Heof eq_refl) in Hw; by destruct z|].
    destruct (first_open input) as [n|] eqn:E; [|by rewrite (first_open_None _ pos E) in Hopen].
    apply first_open_Some in E as (_ & _ & Hb). by rewrite Hb in Hopen by (by apply Hund).
Qed.

Lemma longest_match k v u s s1 pos :
  mapping !! k = Some v -> eq_ignore_ascii_case k u = true ->
  (forall k' v', mapping !! k' = Some v' -> starts_ic k' (u ++ s) = true -> (length k' <= length u)%nat) ->
  drop pos input = u ++ s1 -> s = s1 ++ w ->
  exists i q, wr_patterns r0 !! i = Some q /\ eq_ignore_ascii_case q u = true /\ length q = length u
    /\ shift pos (ac (drop pos input)) = (i, (pos, (pos + length q)%nat)) :: shift (pos + length q) (ac (drop (pos + length q) input)).
Proof.
  intros Hk Hu Hlong Hd ->. destruct Hac as (_ & _ & Hm).
  destruct (Hm (drop pos input) k) as (i & q & Hi & Hq & Hlq & Hacq);
    [by eapply key_is_pattern|rewrite Hd; by apply starts_ic_self|].
  assert (length k <= length q)%nat as H1 by (apply Hlq; [by eapply key_is_pattern|rewrite Hd; by apply starts_ic_self]).
  apply eq_ic_length in Hu as Hlu.
  assert (length q <= length u)%nat as H2.
  { apply (Hlong q _ (pattern_is_key i q Hi)). rewrite app_assoc, <-Hd. by apply starts_ic_app. }
  exists i, q. split_and!; [done| |lia|].
  - rewrite Hd in Hq. apply andb_true_iff in Hq as [_ Hq]. rewrite take_app_length' in Hq by lia. by rewrite eq_ic_sym.
  - rewrite Hacq. cbn [shift fmap list_fmap fst snd]. fold (shift pos (shift (length q) (ac (drop (length q) (drop pos input))))).
    by rewrite shift_shift, drop_drop, Nat.add_0_r.
Qed.

Lemma no_open_inside u s1 s pos n :
  (forall k' v' i, mapping !! k' = Some v' -> (0 < i < length u)%nat -> s <> [] ->
     starts_ic (drop i u ++ take 1 s) k' = false) ->
  drop pos input = u ++ s1 -> s = s1 ++ w -> s1 <> [] -> und = Some n -> (pos < n)%nat ->
  (pos + length u <= n)%nat.
Proof.
  intros Hover Hd -> Hne Hn Hlt. destruct (decide (pos + length u <= n)%nat) as [|Hin]; [done|]. exfalso.
  destruct eof; [done|]. apply first_open_Some in Hn as (_ & (_ & k' & v' & z & Hk' & Hl & _)%open_spec & _).
  specialize (Hover k' v' (n - pos)%nat Hk' ltac:(lia) ltac:(by destruct s1)).
  replace n with (pos + (n - pos))%nat in Hl by lia. rewrite <-drop_drop, Hd, drop_app_le in Hl by lia.
  assert (starts_ic (drop (n - pos) u ++ take 1 (s1 ++ w)) k' = true) as Ht; [|by rewrite Ht in Hover].
  destruct s1 as [|b s1]; [done|]. set (a := drop (n - pos) u) in *. change (take 1 ((b :: s1) ++ w)) with [b].
  change (b :: s1) with ([b] ++ s1) in Hl. rewrite app_assoc, fmap_app, <-app_assoc in Hl.
  apply starts_ic_spec. exists (take (length (a ++ [b])) k'), (drop (length (a ++ [b])) k'). split; [by rewrite take_drop|].
  rewrite fmap_take, Hl. apply take_app_length'. by rewrite length_fmap.
Qed.

Lemma prev_char_last pos lc : (pos <= length input)%nat -> prev_ok true pos lc -> char_sep (or_char (last_char_of (take pos input)) lc).
Proof.
  intros Hpos Hp. specialize (Hp eq_refl). unfold prev_char_at in Hp. destruct pos as [|n]; [by rewrite take_0|].
  change (0 <? S n)%nat with true in Hp. cbv iota in Hp. destruct (last_char_of (take (S n) input)) eqn:E; [done|].
  unfold last_char_of in E. destruct input; [simpl in Hpos; lia|done].
Qed.

(** What an accepted placeholder adds. *)
Lemma walk_accept i q u s s1 out pos le res :
  wr_patterns r0 !! i = Some q -> eq_ignore_ascii_case q u = true -> s = s1 ++ w ->
  (forall k' v', mapping !! k' = Some v' -> starts_ic k' (u ++ s) = true -> (length k' <= length u)%nat) ->
  (forall k' v' i, mapping !! k' = Some v' -> (0 < i < length u)%nat -> s <> [] ->
     starts_ic (drop i u ++ take 1 s) k' = false) ->
  sep_next s ->
  walk_result false s (out ++ take (pos - le) (drop le input) ++ (wr_replacements r0 !!! i)) (pos + length q) (pos + length q) res ->
  walk_result true (u ++ s) out pos le res.
Proof.
  intros Hi Hq Hs Hlong Hover Hsep. unfold walk_result. rewrite Nat.sub_diag, take_0. cbn [app].
  destruct res as [[[out' lc'] pend]|[[out' le'] lc']].
  - intros (He & m & y & H1 & H2 & -> & H4 & H5 & H6). split; [done|]. exists m, ((wr_replacements r0 !!! i) ++ y).
    split_and!; try done. { by rewrite <-!app_assoc. } intros X HX. rewrite <-app_assoc.
    econstructor; [by apply pattern_is_key|done..|]. by apply H5.
  - intros (m & alone' & y & [H1 H1'] & H2 & H3 & H4 & H5 & H6 & H7). exists m, alone', ((wr_replacements r0 !!! i) ++ y).
    split_and!; try done. { by rewrite H3, <-!app_assoc. } intros X HX. rewrite <-app_assoc.
    econstructor; [by apply pattern_is_key|done..|]. by apply H5.
Qed.

Lemma walk_alone alone R O : restored mapping alone R O -> forall pos out le lc,
  drop pos input ++ w = R -> (le <= pos <= length input)%nat ->
  (forall n, und = Some n -> le = length input \/ (pos <= n)%nat) ->
  prev_ok alone pos lc -> pos = 0%nat \/ (le < pos)%nat \/ alone = false ->
  walk_result alone R out pos le (match_loop r input eof und (shift pos (ac (drop pos input))) out le lc).
Proof.
  induction 1 as [alone|alone b s t Hno HR IH|k v u s t Hk Hu Hlong Hover Hsep HR IH];
    intros pos out le lc Hd Hpos Hund Hp Ha.
  - eapply walk_stop; [constructor|done|done|done| |done|done]. left. apply app_eq_nil in Hd as [Hd _].
    apply (f_equal length) in Hd. rewrite length_drop in Hd. simpl in Hd. lia.
  - destruct (decide (pos = length input \/ und = Some pos)) as [Hend|Hend].
    { eapply walk_stop; [by constructor|done..]. }
    destruct (input !! pos) as [b'|] eqn:Eb.
    2: { apply lookup_ge_None in Eb. exfalso. apply Hend. left. lia. }
    rewrite (drop_S _ _ _ Eb) in *. injection Hd as -> Hd. destruct Hac as (_ & Hskip & _).
    rewrite Hskip, shift_shift.
    2: { intros k' Hk'. apply list_elem_of_lookup in Hk' as [i Hi]. destruct (starts_ic k' _) eqn:E; [|done].
         apply (starts_ic_app _ _ w) in E. simpl in E. rewrite Hd in E. by rewrite (Hno k' _ (pattern_is_key i k' Hi)) in E. }
    replace (pos + 1)%nat with (S pos) by lia.
    specialize (IH (S pos) out le lc Hd). pose proof (lookup_lt_Some _ _ _ Eb) as Hlt.
    assert (walk_result (is_sep b) s out (S pos) le
      (match_loop r input eof und (shift (S pos) (ac (drop (S pos) input))) out le lc)) as H.
    { apply IH; [lia| | |lia].
      - intros n Hn. right. specialize (Hund n Hn). destruct (decide (n = pos)) as [->|]; [tauto|]. lia.
      - intros Hb. unfold prev_char_at. simpl. rewrite (take_S_r _ _ _ Eb), last_char_sep by done. by exists b. }
    revert H. unfold walk_result. rewrite (take_lit le pos b) by (done || lia).
    destruct (match_loop _ _ _ _ _ _ _ _) as [[[out' lc'] pend]|[[out' le'] lc']].
    + intros (He & m & y & H1 & H2 & -> & H4 & H5 & H6). split; [done|]. exists m, (b :: y).
      split_and!; try done. { by rewrite <-!app_assoc. } intros X HX. constructor; [done|by apply H5].
    + intros (m & alone' & y & [H1 H1'] & H2 & H3 & H4 & H5 & H6 & H7). exists m, alone', (b :: y).
      split_and!; try done. { by rewrite H3, <-!app_assoc. } intros X HX. constructor; [done|by apply H5].
  - destruct (decide (pos = length input \/ und = Some pos)) as [Hend|Hend].
    { eapply walk_stop; [by econstructor|done..]. }
    assert (forall n, und = Some n -> (pos < n)%nat) as Hund'.
    { intros n Hn. destruct (Hund n Hn) as [?|?]; [lia|]. destruct (decide (n = pos)) as [->|]; [tauto|]. lia. }
    destruct (placeholder_whole k v u s pos) as (s1 & Hd1 & ->); [done..|lia|].
    destruct (longest_match k v u (s1 ++ w) s1 pos) as (i & q & Hi & Hq & Hlq & Hacq); [done..|].
    rewrite Hacq. assert (take (length q) (drop pos input) = u) as Htu by (by rewrite Hd1, Hlq, take_app_length).
    destruct (match_alone i q pos (shift (pos + length q) (ac (drop (pos + length q) input))) out le lc s1)
      as [->|(He & Hs1 & ->)]; [done|by rewrite Htu|rewrite Hd1, length_app; lia|lia|done|done|by eapply sep_next_prefix| |].
    + set (new := out ++ take (pos - le) (drop le input) ++ (wr_replacements r0 !!! i)).
      assert (drop (pos + length q) input = s1) as Hrest by (by rewrite <-drop_drop, Hd1, Hlq, drop_app_length).
      specialize (IH (pos + length q)%nat new (pos + length q)%nat (or_char (last_char_of new) lc)).
      rewrite Hrest in IH. rewrite Hrest. apply (walk_accept i q u (s1 ++ w) s1 out pos le); [done..|]. apply IH; [done| | |done|by right; right].
      * apply (f_equal length) in Hd1. rewrite length_drop, length_app in Hd1. lia.
      * intros n Hn. destruct (decide (s1 = [])) as [->|Hne].
        { left. apply (f_equal length) in Hd1. rewrite length_drop, length_app in Hd1. simpl in Hd1. lia. }
        right. rewrite Hlq. apply (no_open_inside u s1 (s1 ++ w) pos n); [done..|by apply Hund'].
    + split; [done|]. exists pos, []. rewrite app_nil_r, Hd. split_and!; [lia|done|done| |done|apply prev_char_last; [lia|done]].
      eexists. by econstructor.
Qed.

End walk.

Lemma max_len_pos : (wr_max_len r0 =? 0)%nat = false.
Proof.
  apply Nat.eqb_neq. destruct (map_choose mapping mapping_ne) as (k & v & Hk).
  destruct (new_ok mapping mapping_ne) as [_ Hnew]. destruct (Hnew k v Hk) as (_ & Hm & _).
  destruct (keys_ascii k v Hk) as [Hne _]. destruct k; [done|]. simpl in Hm. lia.
Qed.

Lemma last_char_Some x : x <> [] -> is_Some (last_char_of x).
Proof. by destruct x; [|eexists]. Qed.

(** A call hands on what is decided and keeps the rest for the next one. *)
Lemma process_alone u lc chunk w alone O :
  restored mapping alone ((u ++ chunk) ++ w) O -> (alone = true -> char_sep lc) ->
  exists u' lc' alone' out,
    process_internal (set_state u lc r0) chunk false = (set_state u' lc' r0, out)
    /\ (exists O', restored mapping alone' (u' ++ w) O')
    /\ (forall X, restored mapping alone' (u' ++ w) X -> restored mapping alone ((u ++ chunk) ++ w) (out ++ X))
    /\ (alone' = true -> char_sep lc').
Proof.
  intros HR Hlc. destruct automaton_new as (ac & Hac & Hlaws). unfold process_internal.
  change (wr_automaton (set_state u lc r0)) with (wr_automaton r0). rewrite Hac.
  change (wr_pending (set_state u lc r0)) with u. change (wr_last_char (set_state u lc r0)) with lc.
  change (set_state [] lc (set_state u lc r0)) with (set_state [] lc r0).
  change (wr_max_len (set_state [] lc r0)) with (wr_max_len r0). change (wr_last_char (set_state [] lc r0)) with lc.
  destruct (decide (u ++ chunk = [])) as [He|He].
  { rewrite He in *. exists u, lc, alone, []. apply app_eq_nil in He as [-> ->]. split_and!; [done|by exists O|done|done]. }
  rewrite match_nonempty by done. set (input := u ++ chunk) in *. rewrite undecidable_first_open.
  pose proof (walk_alone ac Hlaws (set_state [] lc r0) ltac:(by eexists _, _) input w false ltac:(done) alone _ O HR
                0%nat [] 0%nat lc eq_refl ltac:(lia) ltac:(intros; right; lia) Hlc (or_introl eq_refl)) as H.
  replace (shift 0 (ac (drop 0 input))) with (ac input) in H
    by (rewrite drop_0; unfold shift; rewrite <-(list_fmap_id (ac input)) at 1; apply list_fmap_ext; by intros ? [? []]).
  unfold walk_result in H. simpl in H.
  destruct (match_loop _ _ _ _ _ _ _ _) as [[[out lc'] pend]|[[out le] lc']].
  { destruct H as (_ & m & y & _ & -> & -> & HO & HX & Hc). eexists _, _, true, _. by split_and!. }
  destruct H as (m & alone' & y & [Hle Hm] & Hend & Hy & HO & HX & Hp & Ha).
  destruct (drop le input) as [|b0 tr] eqn:Etr.
  { assert (le = length input) as Hlen by (apply (f_equal length) in Etr; rewrite length_drop in Etr; simpl in Etr; lia).
    assert (m = length input) as -> by lia. rewrite take_nil, app_nil_r in Hy. subst y.
    rewrite drop_all in *. eexists _, _, alone', _. split_and!; [done|done|done|]. intros ->.
    destruct Ha as [Ha|[Ha|Ha]]; [|lia|done]. by destruct input. }
  rewrite max_len_pos. cbn [orb negb]. pose proof (split_first_open [] lc (b0 :: tr)) as Hsp.
  cbv zeta in Hsp |- *. rewrite Hsp. clear Hsp. rewrite <-Etr in *.
  assert (drop (default (length (drop le input)) (first_open (drop le input))) (drop le input) = drop m input
          /\ take (default (length (drop le input)) (first_open (drop le input))) (drop le input) = take (m - le) (drop le input))
    as [-> ->].
  { destruct (first_open input) as [n|] eqn:En.
    - destruct Hend as [[-> [Hl|]]|[= ->]]; [|done|].
      + rewrite Hl, drop_all in Etr. done.
      + rewrite (first_open_drop _ _ _ En) by done. simpl. rewrite drop_drop. split; f_equal; lia.
    - destruct Hend as [[-> _]|]; [|done]. rewrite (first_open_drop_None _ _ En). simpl.
      rewrite length_drop, !drop_ge, !take_ge by (rewrite ?length_drop; lia). done. }
  eexists _, _, alone', _. split_and!; [done|done|by rewrite Hy|].
  intros Halone. rewrite length_drop. replace (length input - (length input - m))%nat with m by lia.
  specialize (Hp Halone). unfold prev_char_at in Hp. destruct m as [|m]; [by rewrite take_0|].
  change (0 <? S m)%nat with true in Hp. cbv iota in Hp.
  destruct (last_char_Some (take (S m) input)) as [c Hc]; [by destruct input|]. by rewrite Hc in *.
Qed.

Lemma flush_eq r : wr_pending r <> [] ->
  replacer_flush r = let '(r', out) := process_internal (set_state [] (wr_last_char r) r) (wr_pending r) true in
                     (set_state (wr_pending r') None r', out).
Proof. unfold replacer_flush. by destruct (wr_pending r). Qed.

(** At the end of the stream everything is decided. *)
Lemma flush_alone u lc alone O :
  restored mapping alone u O -> (alone = true -> char_sep lc) ->
  restored mapping alone u (replacer_flush (set_state u lc r0)).2.
Proof.
  intros HR Hlc. destruct automaton_new as (ac & Hac & Hlaws).
  destruct (decide (u = [])) as [->|He]; [constructor|].
  rewrite flush_eq by done. change (wr_pending (set_state u lc r0)) with u. change (wr_last_char (set_state u lc r0)) with lc.
  change (set_state [] lc (set_state u lc r0)) with (set_state [] lc r0).
  unfold process_internal. change (wr_automaton (set_state [] lc r0)) with (wr_automaton r0). rewrite Hac.
  change (wr_pending (set_state [] lc r0) ++ u) with u. rewrite match_nonempty by done.
  change (wr_last_char (set_state [] lc r0)) with lc.
  change (set_state [] lc (set_state [] lc r0)) with (set_state [] lc r0).
  rewrite <-(app_nil_r u) in HR at 1.
  pose proof (walk_alone ac Hlaws (set_state [] lc r0) ltac:(by eexists _, _) u [] true ltac:(done) alone _ O HR
                0%nat [] 0%nat lc eq_refl ltac:(lia) ltac:(done) Hlc (or_introl eq_refl)) as H.
  replace (shift 0 (ac (drop 0 u))) with (ac u) in H
    by (rewrite drop_0; unfold shift; rewrite <-(list_fmap_id (ac u)) at 1; apply list_fmap_ext; by intros ? [? []]).
  unfold walk_result in H. simpl in H.
  destruct (match_loop _ _ _ _ _ _ _ _) as [[[out lc'] pend]|[[out le] lc']]; [by destruct H|].
  destruct H as (m & alone' & y & [Hle Hm] & [[-> _]|] & Hy & _ & HX & _); [|done].
  rewrite drop_all in HX. specialize (HX [] ltac:(constructor)). rewrite !app_nil_r in HX.
  rewrite take_ge in Hy by (rewrite length_drop; lia).
  destruct (drop le u) as [|b0 tr]; cbn [snd fst orb]; [rewrite app_nil_r in Hy; by subst|by rewrite Hy].
Qed.

Lemma stream_alone chunks : forall u lc alone O,
  restored mapping alone (u ++ concat chunks) O -> (alone = true -> char_sep lc) ->
  restored mapping alone (u ++ concat chunks) (replace_stream (set_state u lc r0) chunks).
Proof.
  induction chunks as [|chunk chunks IH]; intros u lc alone O HR Hlc; cbn [concat replace_stream] in *.
  - rewrite app_nil_r in *. by apply (flush_alone u lc alone O).
  - rewrite app_assoc in *. destruct (process_alone u lc chunk (concat chunks) alone O HR Hlc)
      as (u' & lc' & alone' & out & Hp & [O' HO'] & HX & Hlc').
    unfold replacer_process. rewrite Hp. apply HX. by apply (IH u' lc' alone' O').
Qed.

End alone.

Lemma empty_mapping_stream chunks : replace_stream (replacer_new ∅) chunks = concat chunks.
Proof.
  unfold replacer_new. rewrite bool_decide_true by done.
  induction chunks as [|chunk chunks IH]; [done|]. cbn [replace_stream concat]. by rewrite <-IH.
Qed.

Lemma restored_empty alone s O : restored ∅ alone s O -> restored ∅ alone s s.
Proof. induction 1; [constructor|by constructor|]. by rewrite lookup_empty in *. Qed.

(** ** Theorems *)

(** C36. Restoring a stream touches placeholders only: however the stream is
    cut, the output is the input with some occurrences of placeholders, in any
    case, replaced by their originals, and every other byte comes out once and
    in order; and never more is held back than the longest placeholder and one
    byte. *)
Theorem stream_restores_only_placeholders mapping chunks :
  restores mapping (concat chunks) (replace_stream (replacer_new mapping) chunks)
  /\ (length (wr_pending (replacer_run (replacer_new mapping) chunks))
      <= S (wr_max_len (replacer_new mapping)))%nat.
Proof.
  destruct (replacer_new_idle mapping) as [Hp _].
  assert (conf_ok mapping (replacer_new mapping)) as Hc.
  { destruct (decide (mapping = ∅)) as [->|Hne]; [|by apply new_ok].
    unfold replacer_new. rewrite bool_decide_true by done. split; [done|]. simpl. lia. }
  pose proof (stream_sound mapping (replacer_new mapping) chunks Hc (fun _ => Hp)) as H.
  rewrite Hp in H. apply H. simpl. lia.
Qed.


End replacer.

(** ** An automaton that meets its documentation *)

(** The longest non-empty pattern a text starts with. *)
Fixpoint best (pats : list str) (i : nat) (s : str) : option (nat * nat) :=
  match pats with
  | [] => None
  | pat :: pats' =>
      let rest := best pats' (S i) s in
      if negb (bool_decide (pat = [])) && starts_ic pat s
      then match rest with
           | Some (j, l) => if (length pat <? l)%nat then Some (j, l) else Some (i, length pat)
           | None => Some (i, length pat)
           end
      else rest
  end.

Fixpoint naive_from (fuel : nat) (pats : list str) (pos : nat) (s : str) : list (nat * (nat * nat)) :=
  match fuel, s with
  | S f, _ :: s' => match best pats 0 s with
                    | Some (i, l) => (i, (pos, (pos + l)%nat)) :: naive_from f pats (pos + l) (drop l s)
                    | None => naive_from f pats (S pos) s'
                    end
  | _, _ => []
  end.

Definition naive_build (pats : list str) : option (str -> list (nat * (nat * nat))) :=
  Some (fun input => naive_from (length input) pats 0 input).

Lemma best_sound pats n s i l : best pats n s = Some (i, l) ->
  (n <= i)%nat /\ exists pat, pats !! (i - n)%nat = Some pat /\ l = length pat /\ pat <> [] /\ starts_ic pat s = true.
Proof.
  revert n. induction pats as [|pat pats IH]; intros n; cbn [best]; [done|].
  assert (best pats (S n) s = Some (i, l) -> (n <= i)%nat /\ exists pat0, (pat :: pats) !! (i - n)%nat = Some pat0
            /\ l = length pat0 /\ pat0 <> [] /\ starts_ic pat0 s = true) as Hrest.
  { intros [Hn (q & Hq & H)]%IH. split; [lia|]. exists q. by replace (i - n)%nat with (S (i - S n)) by lia. }
  destruct (_ && _) eqn:E; [|done]. apply andb_true_iff in E as [Hne%negb_true_iff%bool_decide_eq_false Hst].
  assert (Some (n, length pat) = Some (i, l) -> (n <= i)%nat /\ exists pat0, (pat :: pats) !! (i - n)%nat = Some pat0
            /\ l = length pat0 /\ pat0 <> [] /\ starts_ic pat0 s = true) as Hthis.
  { intros [= <- <-]. split; [lia|]. exists pat. by rewrite Nat.sub_diag. }
  destruct (best pats (S n) s) as [[j l']|]; [|done]. destruct (length pat <? l')%nat; done.
Qed.

Lemma best_longest pats n s pat : pat ∈ pats -> pat <> [] -> starts_ic pat s = true ->
  exists i l, best pats n s = Some (i, l) /\ (length pat <= l)%nat.
Proof.
  revert n. induction pats as [|q pats IH]; intros n; [by intros ?%elem_of_nil|].
  intros Hin Hne Hst. cbn [best]. apply elem_of_cons in Hin as [<-|Hin].
  - rewrite bool_decide_false, Hst by done. cbn [negb andb].
    destruct (best pats (S n) s) as [[j l]|]; [|eauto]. destruct (length pat <? l)%nat eqn:E; eauto.
    apply Nat.ltb_lt in E. exists j, l. split; [done|lia].
  - destruct (IH (S n) Hin Hne Hst) as (j & l & -> & Hl). destruct (_ && _); [|eauto].
    destruct (length q <? l)%nat eqn:E; eauto. apply Nat.ltb_ge in E. exists n, (length q). split; [done|lia].
Qed.

Lemma naive_from_sound fuel pats pre s i st e :
  (i, (st, e)) ∈ naive_from fuel pats (length pre) s ->
  (i < length pats)%nat /\ (st <= e <= length (pre ++ s))%nat
  /\ eq_ignore_ascii_case (pats !!! i) (take (e - st) (drop st (pre ++ s))) = true.
Proof.
  revert pre s. induction fuel as [|f IH]; intros pre s; cbn [naive_from]; [by intros ?%elem_of_nil|].
  destruct s as [|b s]; [by intros ?%elem_of_nil|]. destruct (best pats 0 (b :: s)) as [[j l]|] eqn:Eb.
  - apply best_sound in Eb as (_ & pat & Hpat & -> & _ & Hst). rewrite Nat.sub_0_r in Hpat.
    unfold starts_ic in Hst. apply andb_true_iff in Hst as [Hl%Nat.leb_le Hst].
    intros [[= -> -> ->]|Hin]%elem_of_cons.
    + split; [by eapply lookup_lt_Some|]. rewrite length_app. split; [lia|].
      rewrite (list_lookup_total_correct _ _ _ Hpat), drop_app_length.
      replace (length pre + length pat - length pre)%nat with (length pat) by lia. by rewrite eq_ic_sym.
    + rewrite <-(take_drop (length pat) (b :: s)), app_assoc. apply IH.
      by rewrite length_app, length_take, Nat.min_l by lia.
  - replace (S (length pre)) with (length (pre ++ [b])) by (rewrite length_app; simpl; lia).
    intros Hin%IH. by rewrite <-app_assoc in Hin.
Qed.

Lemma naive_sound pats ac : naive_build pats = Some ac -> matches_sound pats ac.
Proof. intros [= <-] input i s e H. by apply (naive_from_sound (length input) pats [] input). Qed.

Lemma naive_from_shift fuel pats n pos s :
  naive_from fuel pats (n + pos) s = shift n (naive_from fuel pats pos s).
Proof.
  revert pos s. induction fuel as [|f IH]; intros pos s; [done|]. cbn [naive_from]. destruct s as [|b s]; [done|].
  destruct (best pats 0 (b :: s)) as [[i l]|].
  - rewrite <-Nat.add_assoc, IH. done.
  - by rewrite <-Nat.add_succ_r, IH.
Qed.

Lemma naive_from_fuel pats : forall f g pos s, [] ∉ pats -> (length s <= f)%nat -> (length s <= g)%nat ->
  naive_from f pats pos s = naive_from g pats pos s.
Proof.
  induction f as [|f IH]; intros [|g] pos s Hne Hf Hg; destruct s as [|b s]; try done; simpl in Hf, Hg; try lia.
  cbn [naive_from]. destruct (best pats 0 (b :: s)) as [[i l]|] eqn:Eb; [|apply IH; [done|lia..]].
  f_equal. apply best_sound in Eb as (_ & pat & Hpat & -> & Hp & _).
  apply IH; [done|..]; rewrite length_drop; destruct pat; try done; simpl; lia.
Qed.

Lemma best_none pats n s : (forall pat, pat ∈ pats -> starts_ic pat s = false) -> best pats n s = None.
Proof.
  revert n. induction pats as [|p pats IH]; intros n H; cbn [best]; [done|].
  rewrite (H p), andb_false_r by by left. apply IH. intros pat Hp. apply H. by right.
Qed.

Lemma naive_laws pats ac : [] ∉ pats -> naive_build pats = Some ac -> find_iter_laws pats ac.
Proof.
  intros Hne [= <-]. split_and!; [done| |].
  - intros b s H. cbn [length naive_from]. rewrite best_none by done.
    change 1%nat with (1 + 0)%nat. by rewrite naive_from_shift.
  - intros s pat Hin Hst. assert (pat <> []) as Hp by congruence.
    destruct (best_longest pats 0 s pat Hin Hp Hst) as (i & l & Hb & _).
    destruct (best_sound _ _ _ _ _ Hb) as (_ & q & Hq & -> & Hqne & Hqs). rewrite Nat.sub_0_r in Hq.
    exists i, q. split_and!; [done|done| |].
    + intros p' Hp' Hs'. destruct (best_longest pats 0 s p') as (i' & l' & Hb' & Hl'); [done|congruence|done|].
      rewrite Hb in Hb'. by injection Hb' as _ <-.
    + destruct s as [|b s]; [by destruct pat|]. cbn [length naive_from]. rewrite Hb. f_equal.
      pose proof (naive_from_shift (length s) pats (length q) 0 (drop (length q) (b :: s))) as Hsh.
      rewrite Nat.add_0_r in Hsh. etrans; [exact Hsh|]. f_equal. apply naive_from_fuel; [done|..|done].
      rewrite length_drop. destruct q; [done|]. simpl. lia.
Qed.

Definition demo_mapping : gmap str str :=
  {[bytes_of "Alex Vance" := bytes_of "John Smith"; bytes_of "Alex" := bytes_of "John"]}.

Lemma stream_restores_only_placeholders_witness :
  restores demo_mapping (bytes_of "Dear ALEX Vance, Alexandra")
    (bytes_of "Dear John Smith, Alexandra").
Proof.
  apply (proj1 (stream_restores_only_placeholders naive_build (fun _ => false) naive_sound demo_mapping
                  [bytes_of "Dear AL"; bytes_of "EX Va"; bytes_of "nce, Alex"; bytes_of "andra"])).
Defined.

Lemma demo_keys k v : demo_mapping !! k = Some v ->
  k = bytes_of "Alex Vance" /\ v = bytes_of "John Smith" \/ k = bytes_of "Alex" /\ v = bytes_of "John".
Proof.
  unfold demo_mapping. rewrite lookup_insert_Some, lookup_singleton_Some. naive_solver.
Qed.

Lemma demo_lit alone b s t :
  starts_ic (bytes_of "Alex") (b :: s) = false -> restored demo_mapping (is_sep b) s t ->
  restored demo_mapping alone (b :: s) (b :: t).
Proof.
  intros H. constructor; [|done]. intros k v [[-> ->]|[-> ->]]%demo_keys; [|done].
  destruct (starts_ic (bytes_of "Alex Vance") (b :: s)) eqn:E; [|done].
  apply starts_ic_spec in E as (m & q & Heq & Hm). rewrite <-H. symmetry. apply starts_ic_spec.
  exists (take 4 m), (drop 4 m ++ q). by rewrite app_assoc, take_drop, fmap_take, Hm.
Qed.

Ltac demo_key :=
  first [reflexivity
        |intros ? ? [[-> ->]|[-> ->]]%demo_keys; vm_compute; intros; first [discriminate|lia]
        |intros ? ? i [[-> ->]|[-> ->]]%demo_keys ? _; do 10 (destruct i as [|i]; [first [lia|reflexivity]|]); simpl in *; lia
        |vm_compute; by split|idtac].

Lemma demo_restored :
  restored demo_mapping true (bytes_of "hi ALEX vance, alex!") (bytes_of "hi John Smith, John!").
Proof.
  do 3 (apply demo_lit; [reflexivity|]).
  apply (restored_key _ (bytes_of "Alex Vance") (bytes_of "John Smith") (bytes_of "ALEX vance") (bytes_of ", alex!")
           (bytes_of ", John!")); demo_key.
  do 2 (apply demo_lit; [reflexivity|]).
  apply (restored_key _ (bytes_of "Alex") (bytes_of "John") (bytes_of "alex") (bytes_of "!") (bytes_of "!")); demo_key.
  apply demo_lit; [reflexivity|constructor].
Qed.


(** The condition on overlaps is needed: while a placeholder that starts inside
    another one may still come, the matches after that one are not looked at,
    and what is emitted with it keeps its placeholders. *)
Example overlap_hides_placeholder :
  replace_stream (fun _ => false)
    (replacer_new naive_build
       {[bytes_of "ann" := bytes_of "X"; bytes_of "n bo y" := bytes_of "Y"; bytes_of "bo" := bytes_of "Z"]})
    [bytes_of "ann bo"; bytes_of "!"] = bytes_of "X bo!".
Proof. by vm_compute. Qed.
