(* ===== verification/Resolution.v ===== *)
(** * From a model name to a routing plan

    Models openproxy-core/src/routing/mod.rs with the queries it makes
    (openproxy-db/src/models/crud.rs, combos/crud.rs, combos/targets.rs and
    the row mapping of combos/mapping.rs): the string of the request's [model]
    field is a model of an active provider, behind an optional provider prefix,
    or the name of a combo, or unknown.

    The tables are lists of rows with the columns these queries read.  A
    [SELECT] is a filter, a sort and a projection; a join on a primary key
    finds at most one row.  SQLite's [datetime], serde_json's decoder of
    account lists and the text of a rusqlite conversion error are parameters. *)

From Stdlib Require Import Ascii String.
From stdpp Require Import pretty.
From S2P Require Import Prelude Types Text Errors ComboTree.

(** ** Strings *)

(** [str::split_once] at an ASCII character. *)
Fixpoint split_once_char (c : ascii) (s : string) : option (string * string) :=
  match s with
  | EmptyString => None
  | String a s' =>
      if Ascii.eqb a c then Some (EmptyString, s')
      else match split_once_char c s' with
           | Some (p, r) => Some (String a p, r)
           | None => None
           end
  end.

Fixpoint string_drop (n : nat) (s : string) : string :=
  match n, s with
  | S n', String _ s' => string_drop n' s'
  | _, _ => s
  end.

(** [str::strip_prefix]. *)
Definition strip_str_prefix (p s : string) : option string :=
  if starts_with p s then Some (string_drop (String.length p) s) else None.

(** [a < b] on [&str], and on TEXT under SQLite's binary collation. *)
Definition str_ltb (a b : string) : bool := bool_decide (String.compare a b = Lt).

(** ** Enums as text ([impl_string_enum!], [FromStr for ClientProfile]) *)

Definition RateLimitScope_parse (s : string) : option RateLimitScope :=
  if String.eqb s "account" then Some ScopeAccount
  else if String.eqb s "model" then Some ScopeModel else None.

Definition CooldownMode_parse (s : string) : option CooldownMode :=
  if String.eqb s "flat" then Some CooldownFlat
  else if String.eqb s "exponential" then Some CooldownExponential
  else if existsb (String.eqb s) ["none"; "disabled"; "off"]%string then Some CooldownNone else None.

Definition Strategy_parse (s : string) : option Strategy :=
  if String.eqb s "priority" then Some Priority
  else if String.eqb s "round_robin" then Some RoundRobin
  else if String.eqb s "shuffle" then Some Shuffle else None.

Definition PriorityMode_parse (s : string) : option PriorityMode :=
  if String.eqb s "strict" then Some Strict
  else if String.eqb s "lkgp" then Some Lkgp
  else if String.eqb s "weighted" then Some Weighted
  else if String.eqb s "least_used" then Some LeastUsed
  else if String.eqb s "p2c" then Some P2c
  else if String.eqb s "decision" then Some DecisionMode else None.

Fixpoint replace_char (a b : ascii) (s : string) : string :=
  match s with
  | EmptyString => EmptyString
  | String c s' => String (if Ascii.eqb c a then b else c) (replace_char a b s')
  end.

Definition ClientProfile_parse (s : string) : option ClientProfile :=
  let n := replace_char "_" "-" (to_ascii_lowercase (trim s)) in
  if existsb (String.eqb n) ["claude-code"; "claude"; "claudecode"]%string then Some ClaudeCode
  else if String.eqb n "codex" then Some Codex
  else if String.eqb n "cline" then Some Cline
  else if String.eqb n "kilocode" then Some Kilocode
  else if String.eqb n "kiro" then Some Kiro
  else if String.eqb n "minimax" then Some Minimax
  else if existsb (String.eqb n) ["commandcode"; "cmd"; "command-code"]%string then Some CommandCode
  else if existsb (String.eqb n) ["codebuddy"; "code-buddy"]%string then Some CodeBuddy
  else if String.eqb n "opencode" then Some Opencode
  else if String.eqb n "antigravity" then Some Antigravity
  else None.

(** ** Tables *)

Record ModelRow := mkModelRow {
  mr_id : Z;
  mr_model_id : string;
  mr_provider_id : string;
  mr_active : Z
}.

Record ProviderRow := mkProviderRow {
  pr_id : string;
  pr_active : Z;
  pr_rate_limit_scope : string
}.

Record AccountRow := mkAccountRow {
  ar_id : Z;
  ar_provider_id : string;
  ar_priority : Z;
  ar_health_status : string
}.

Record ComboRow := mkComboRow {
  cr_id : Z;
  cr_name : string;
  cr_strategy : string;
  cr_race_size : Z;
  cr_created_at : string;
  cr_context_window : option Z;
  cr_priority_mode : option string;
  cr_cooldown_mode : option string;
  cr_cooldown_base_secs : option Z;
  cr_cooldown_max_secs : option Z;
  cr_cooldown_factor : option Z;
  cr_lkgp_exploration_rate : option f64;
  cr_selection_window_secs : option Z;
  cr_preventive_rate_limit : option Z;
  cr_decision_model : option string;
  cr_decision_timeout_ms : option Z;
  cr_max_output_tokens : option Z;
  cr_modality_gate : option Z;
  cr_sanitize_response : option Z;
  cr_real_model_id : option string
}.

(** A row of [combo_targets]. *)
Record TargetColumns := mkTargetColumns {
  ct_id : Z;
  ct_combo_id : Z;
  ct_provider_id : string;
  ct_account_id : option Z;
  ct_model_row_id : option Z;
  ct_sub_combo_id : option Z;
  ct_priority_order : Z;
  ct_weight : option Z;
  ct_active : option Z;
  ct_cooldown_mode : option string;
  ct_cooldown_base_secs : option Z;
  ct_cooldown_max_secs : option Z;
  ct_cooldown_factor : option Z;
  ct_thinking_effort : option string;
  ct_description : option string;
  ct_selected_accounts : option string;
  ct_client_profile : option string
}.

Record CooldownColumns := mkCooldownColumns {
  tc_combo_target_id : Z;
  tc_cooldown_until : string
}.

Record Tables := mkTables {
  models : list ModelRow;
  providers : list ProviderRow;
  accounts : list AccountRow;
  combos : list ComboRow;
  combo_targets : list TargetColumns;
  target_cooldowns : list CooldownColumns
}.

(** ** Plans *)

Inductive RoutingPlan :=
  | PlanCombo (combo_id : Z) (combo_name : string) (strategy : Strategy) (race_size : Z)
      (targets : list ComboTarget)
  | PlanNotFound (model : string) (hint : option string).

Definition SYNTHETIC_COMBO_ID : Z := -1.
Definition SYNTHETIC_COMBO_NAME : string := "__direct__".

(** [a?] for the next computation. *)
Definition rbind {A B} (r : Result A) (k : A -> Result B) : Result B :=
  match r with inl a => k a | inr e => inr e end.

(** [rows.map(f).collect::<Result<Vec<_>, _>>()]. *)
Fixpoint collect {A B} (f : A -> Result B) (l : list A) : Result (list B) :=
  match l with
  | [] => inl []
  | x :: l' => rbind (f x) (fun y => rbind (collect f l') (fun ys => inl (y :: ys)))
  end.

(** [get::<_, Option<u32>>] and the other checked integer columns. *)
Definition column_in_range (lo hi : Z) (o : option Z) : bool :=
  match o with Some v => (lo <=? v) && (v <=? hi) | None => true end.

Definition i32_ok (v : Z) : bool := (-2147483648 <=? v) && (v <=? 2147483647).

Definition flag (v : Z) : bool := negb (v =? 0).

Section sql.
Context (datetime : string -> option string) (accounts_of_json : string -> option (list Z))
        (conversion : Z -> string).

(** ** Row mapping *)

Definition column_error (ctx : string) (idx : Z) : CoreError :=
  Database (ctx +:+ ": " +:+ conversion idx).

(** [col17] is the column the mapping reads as the client profile. *)
Definition row_to_target (ctx : string) (r : TargetColumns) (scope : string) (col17 : option string)
    : Result ComboTarget :=
  if negb (i32_ok (ct_priority_order r)) then inr (column_error ctx 6)
  else if negb (column_in_range (-2147483648) 2147483647 (ct_weight r)) then inr (column_error ctx 7)
  else match RateLimitScope_parse scope with
  | None => inr (column_error ctx 8)
  | Some sc =>
      if negb (column_in_range 0 u32_max (ct_cooldown_factor r)) then inr (column_error ctx 13)
      else inl (mkTarget (ct_id r) (ct_combo_id r) (ct_provider_id r) (ct_account_id r)
                  (ct_model_row_id r) (ct_sub_combo_id r) (ct_priority_order r)
                  (default 1 (ct_weight r)) (default true (flag <$> ct_active r)) sc
                  (ct_cooldown_mode r ≫= CooldownMode_parse)
                  (as_u64 <$> ct_cooldown_base_secs r) (as_u64 <$> ct_cooldown_max_secs r)
                  (ct_cooldown_factor r) (ct_thinking_effort r) (ct_description r)
                  (ct_selected_accounts r ≫= accounts_of_json)
                  (col17 ≫= ClientProfile_parse) None)
  end.

Definition row_to_combo (ctx : string) (r : ComboRow) : Result Combo :=
  if negb ((0 <=? cr_race_size r) && (cr_race_size r <=? u8_max)) then inr (column_error ctx 3)
  else if negb ((1 <=? cr_race_size r) && (cr_race_size r <=? 8)) then inr (column_error ctx 3)
  else match Strategy_parse (cr_strategy r) with
  | None => inr (column_error ctx 2)
  | Some st =>
      if negb (column_in_range 0 u32_max (cr_cooldown_factor r)) then inr (column_error ctx 10)
      else inl (mkCombo (cr_id r) (cr_name r) st (cr_race_size r)
                  (flag (default 0 (cr_preventive_rate_limit r))) (cr_created_at r)
                  (cr_context_window r) (cr_max_output_tokens r)
                  (default Strict (cr_priority_mode r ≫= PriorityMode_parse))
                  (default CooldownFlat (cr_cooldown_mode r ≫= CooldownMode_parse))
                  (as_u64 <$> cr_cooldown_base_secs r) (as_u64 <$> cr_cooldown_max_secs r)
                  (cr_cooldown_factor r) (cr_lkgp_exploration_rate r)
                  (as_u64 <$> cr_selection_window_secs r) (cr_decision_model r)
                  (as_u64 <$> cr_decision_timeout_ms r) (flag <$> cr_modality_gate r)
                  (flag <$> cr_sanitize_response r) (cr_real_model_id r))
  end.

(** ** Queries *)

Definition provider_row (db : Tables) (id : string) : option ProviderRow :=
  head (filter (fun p => pr_id p = id) (providers db)).

Definition provider_is_active (db : Tables) (id : string) : bool :=
  existsb (fun p => String.eqb (pr_id p) id && (pr_active p =? 1)) (providers db).

Definition cmp_model (a b : ModelRow) : comparison := mr_id a ?= mr_id b.

(** The two lookups of an active model, [ORDER BY id ASC LIMIT 1]. *)
Definition find_active_by_name (db : Tables) (name : string) : option ModelRow :=
  head (sort_by cmp_model
    (filter (fun m => mr_model_id m = name /\ mr_active m = 1
                      /\ provider_is_active db (mr_provider_id m) = true) (models db))).

Definition find_active_by_provider_and_name (db : Tables) (provider name : string) : option ModelRow :=
  head (sort_by cmp_model
    (filter (fun m => mr_provider_id m = provider /\ mr_model_id m = name /\ mr_active m = 1
                      /\ provider_is_active db (mr_provider_id m) = true) (models db))).

Definition get_combo_by_name (db : Tables) (name : string) : Result (option Combo) :=
  match filter (fun c => cr_name c = name) (combos db) with
  | [] => inl None
  | c :: _ => rbind (row_to_combo "get combo by name" c) (fun c => inl (Some c))
  end.

Definition cmp_combo (a b : ComboRow) : comparison := cr_id a ?= cr_id b.

Definition list_combos (db : Tables) : Result (list Combo) :=
  collect (row_to_combo "list combos") (sort_by cmp_combo (combos db)).

Definition account_row (db : Tables) (id : Z) : option AccountRow :=
  head (filter (fun a => ar_id a = id) (accounts db)).

Definition model_row (db : Tables) (id : Z) : option ModelRow :=
  head (filter (fun m => mr_id m = id) (models db)).

Definition cooldown_row (db : Tables) (target : Z) : option CooldownColumns :=
  head (filter (fun c => tc_combo_target_id c = target) (target_cooldowns db)).

(** [datetime(c) > datetime('now')], false when it is NULL. *)
Definition future (now : string) (c : string) : bool :=
  match datetime c with Some d => str_ltb now d | None => false end.

(** [MAX] over TEXT; NULL over no rows. *)
Definition text_max (acc : option string) (s : string) : option string :=
  match acc with
  | Some m => Some (if str_ltb m s then s else m)
  | None => Some s
  end.

(** The subquery [mc]: the latest cooldown still running of any target of a
    model, in whatever combo. *)
Definition model_cooldown_until (db : Tables) (now : string) (mid : Z) : option string :=
  foldl text_max None
    (tc_cooldown_until <$>
       filter (fun tc => future now (tc_cooldown_until tc) = true
                         /\ existsb (fun ct2 => (ct_id ct2 =? tc_combo_target_id tc)
                                                && bool_decide (ct_model_row_id ct2 = Some mid))
                              (combo_targets db) = true)
         (target_cooldowns db)).

(** The [WHERE] clause of [list_targets]. *)
Definition target_listed (db : Tables) (now : string) (r : TargetColumns) : bool :=
  match provider_row db (ct_provider_id r) with
  | None => false
  | Some p =>
      (pr_active p =? 1)
      && bool_decide (ct_active r = Some 1)
      && match ct_model_row_id r with
         | None => true
         | Some mid => match model_row db mid with Some m => mr_active m =? 1 | None => false end
         end
      && match cooldown_row db (ct_id r) with
         | None => true
         | Some tc => match datetime (tc_cooldown_until tc) with
                      | Some d => negb (str_ltb now d)
                      | None => false
                      end
         end
      && match ct_model_row_id r with
         | None => true
         | Some mid => bool_decide (model_cooldown_until db now mid = None)
         end
      && negb (bool_decide (ct_model_row_id r = None) && bool_decide (ct_sub_combo_id r = None))
  end.

Definition cmp_target (a b : TargetColumns) : comparison :=
  cmp_then (ct_priority_order a ?= ct_priority_order b) (ct_id a ?= ct_id b).

(** The joined provider's scope; the join drops rows without a provider. *)
Definition scope_of (db : Tables) (r : TargetColumns) : string :=
  default ""%string (pr_rate_limit_scope <$> provider_row db (ct_provider_id r)).

Definition db_list_targets (db : Tables) (now : string) (cid : Z) : Result (list ComboTarget) :=
  collect (fun r => row_to_target "list targets" r (scope_of db r) (ct_client_profile r))
    (sort_by cmp_target
       (filter (fun r => ct_combo_id r = cid /\ target_listed db now r = true) (combo_targets db))).

(** ** Resolution *)

Definition strip_proxy_prefix (db : Tables) (model : string) : string * option string :=
  if starts_with "combo:" model then (model, None)
  else match split_once_char "/" model with
       | None => (model, None)
       | Some (prefix, rest) =>
           if String.eqb prefix "" then (model, None)
           else if existsb (fun p => String.eqb (pr_id p) prefix) (providers db)
                then (rest, Some prefix) else (model, None)
       end.

(** A missing provider reads as inactive. *)
Definition provider_active_and_scope (db : Tables) (id : string) : bool * RateLimitScope :=
  match provider_row db id with
  | Some p => (flag (pr_active p), default ScopeAccount (RateLimitScope_parse (pr_rate_limit_scope p)))
  | None => (false, ScopeAccount)
  end.

Definition build_synthetic_combo (provider : string) (account : option Z) (row : Z)
    (scope : RateLimitScope) : Combo * list ComboTarget :=
  (mkCombo SYNTHETIC_COMBO_ID SYNTHETIC_COMBO_NAME Priority 1 false "" None None Strict CooldownFlat
     None None None None None None None None None None,
   [mkTarget 0 SYNTHETIC_COMBO_ID provider account (Some row) None 0 1 true scope
      None None None None None None None None None]).

Definition synthetic_plan (provider : string) (account : option Z) (row : Z) (scope : RateLimitScope)
    : RoutingPlan :=
  let '(c, ts) := build_synthetic_combo provider account row scope in
  PlanCombo (c_id c) (c_name c) (c_strategy c) (c_race_size c) ts.

Definition try_resolve_direct_model (db : Tables) (model : string) (prefix : option string)
    (account_override : option Z) : option RoutingPlan :=
  match match prefix with
        | Some p => find_active_by_provider_and_name db p model
        | None => find_active_by_name db model
        end with
  | None => None
  | Some m =>
      let '(active, scope) := provider_active_and_scope db (mr_provider_id m) in
      if negb active then None
      else
        let account := match account_override with
                       | Some aid =>
                           if existsb (fun a => (ar_id a =? aid)
                                                && String.eqb (ar_provider_id a) (mr_provider_id m))
                                (accounts db)
                           then Some aid else None
                       | None => None
                       end in
        Some (synthetic_plan (mr_provider_id m) account (mr_id m) scope)
  end.

(** Targets of the account's provider are pinned to it and the other leaves
    dropped, unless no target is of that provider. *)
Definition pin_to_provider (prov : string) (aid : Z) (targets : list ComboTarget) : list ComboTarget :=
  if existsb (fun t => String.eqb (t_provider_id t) prov) targets
  then filter (fun t => t_provider_id t = prov \/ is_Some (t_sub_combo_id t))
         ((fun t => if String.eqb (t_provider_id t) prov then set_account (Some aid) t else t) <$> targets)
  else targets.

Definition pin_account_to_targets (db : Tables) (aid : Z) (targets : list ComboTarget)
    : list ComboTarget :=
  match account_row db aid with
  | Some a => pin_to_provider (ar_provider_id a) aid targets
  | None => targets
  end.

Definition combo_name_of (stripped : string) : string :=
  default stripped (strip_str_prefix "combo:" stripped).

Definition not_found (model stripped : string) : RoutingPlan :=
  PlanNotFound model
    (if String.eqb (combo_name_of stripped) stripped then None
     else Some ("combo:" +:+ combo_name_of stripped)%string).

(** The prefix of the name, or else the override of the request. *)
Definition effective_prefix (found override : option string) : option string :=
  match found with Some p => Some p | None => override end.

Definition resolve_with_options (db : Tables) (now model : string)
    (provider_override : option string) (account_override : option Z) : Result RoutingPlan :=
  let '(stripped, found) := strip_proxy_prefix db model in
  match try_resolve_direct_model db stripped (effective_prefix found provider_override) account_override with
  | Some plan => inl plan
  | None =>
      rbind (get_combo_by_name db (combo_name_of stripped)) (fun oc =>
        match oc with
        | Some c =>
            rbind (db_list_targets db now (c_id c)) (fun targets =>
              inl (PlanCombo (c_id c) (c_name c) (c_strategy c) (c_race_size c)
                     (match account_override with
                      | Some aid => pin_account_to_targets db aid targets
                      | None => targets
                      end)))
        | None => inl (not_found model stripped)
        end)
  end.

Definition resolve (db : Tables) (now model : string) : Result RoutingPlan :=
  resolve_with_options db now model None None.

(** ** Pre-flight expansion

    Unary endpoints flatten and expand the plan themselves: one target per
    healthy account of the provider, nested combos without the executor's
    inheritance of target ids. *)

Definition cmp_account (a b : AccountRow) : comparison :=
  cmp_then (ar_priority a ?= ar_priority b) (ar_id a ?= ar_id b).

Definition fetch_healthy_account_ids (db : Tables) (provider : string) : list Z :=
  ar_id <$> sort_by cmp_account
    (filter (fun a => ar_provider_id a = provider /\ ar_health_status a = "healthy"%string) (accounts db)).

Definition expand_single_target (db : Tables) (t : ComboTarget) : list ComboTarget :=
  match t_sub_combo_id t, t_account_id t with
  | Some _, _ => [t]
  | None, Some aid =>
      if default true ((fun a => String.eqb (ar_health_status a) "healthy") <$> account_row db aid)
      then [t] else []
  | None, None =>
      match fetch_healthy_account_ids db (t_provider_id t) with
      | [] => [t]
      | ids => (fun aid => set_account (Some aid) t) <$> ids
      end
  end.

Definition preflight_expand_account_rotation (db : Tables) (targets : list ComboTarget)
    : list ComboTarget := concat (expand_single_target db <$> targets).

Definition override_effort (t st : ComboTarget) : ComboTarget :=
  match t_thinking_effort t with Some e => set_effort (Some e) st | None => st end.

(** The loop's body; its state is [visited] and the targets so far. *)
Definition preflight_target (rec : Z -> gset Z -> option (Result (gset Z * list ComboTarget)))
    (s : gset Z * list ComboTarget) (t : ComboTarget) : option (Result (gset Z * list ComboTarget)) :=
  match t_sub_combo_id t with
  | Some sub_id =>
      match rec sub_id s.1 with
      | Some (inl (visited, sub)) => Some (inl (visited, s.2 ++ (override_effort t <$> sub)))
      | r => r
      end
  | None => Some (inl (s.1, s.2 ++ [t]))
  end.

Fixpoint preflight_resolve (db : Tables) (now : string) (fuel : nat) (cid : Z) (visited : gset Z)
    (depth : Z) : option (Result (gset Z * list ComboTarget)) :=
  match fuel with
  | O => None
  | S fuel' =>
      if 5 <? depth then
        Some (inr (Validation ("max sub-combo depth (" +:+ pretty 5 +:+ ") exceeded")))
      else if bool_decide (cid ∈ visited) then
        Some (inr (Validation ("cyclic combo detected at id " +:+ pretty cid)))
      else match db_list_targets db now cid with
           | inr e => Some (inr e)
           | inl targets =>
               match for_each (preflight_target (fun sub v => preflight_resolve db now fuel' sub v (depth + 1)))
                       ({[cid]} ∪ visited, []) targets with
               | Some (inl (visited, flat)) => Some (inl (visited ∖ {[cid]}, flat))
               | r => r
               end
           end
  end.

Definition preflight_flatten_target (db : Tables) (now : string) (s : gset Z * list ComboTarget)
    (t : ComboTarget) : option (Result (gset Z * list ComboTarget)) :=
  match t_sub_combo_id t with
  | Some sub_id =>
      match preflight_resolve db now tree_fuel sub_id s.1 0 with
      | Some (inl (visited, sub)) => Some (inl (visited, s.2 ++ sub))
      | r => r
      end
  | None => Some (inl (s.1, s.2 ++ [t]))
  end.

Definition preflight_flatten_targets (db : Tables) (now : string) (targets : list ComboTarget)
    : option (Result (list ComboTarget)) :=
  if existsb (fun t => bool_decide (is_Some (t_sub_combo_id t))) targets
  then match for_each (preflight_flatten_target db now) (∅, []) targets with
       | Some (inl (_, out)) => Some (inl out)
       | Some (inr e) => Some (inr e)
       | None => None
       end
  else Some (inl targets).

End sql.

(** ** Lemmas *)

Lemma rbind_inl {A B} (r : Result A) (k : A -> Result B) b :
  rbind r k = inl b <-> exists a, r = inl a /\ k a = inl b.
Proof. destruct r; simpl; naive_solver. Qed.

#[export] Instance cmp_target_total : TotalPreorder cmp_target :=
  cmp_then_total _ _ (by_key_total ct_priority_order) (by_key_total ct_id).

Lemma collect_inl {A B} (f : A -> Result B) l ys :
  collect f l = inl ys <-> Forall2 (fun x y => f x = inl y) l ys.
Proof.
  revert ys; induction l as [|x l IH]; intros ys; simpl.
  - split; [intros [= <-]; constructor|by intros ->%Forall2_nil_inv_l].
  - rewrite rbind_inl. setoid_rewrite rbind_inl. setoid_rewrite IH. split.
    + intros (y & Hy & ys' & Hys & [= <-]). by constructor.
    + intros (y & ys' & Hy & Hys & ->)%Forall2_cons_inv_l. eauto.
Qed.

(** The decoding of the rows of a subset, in order. *)
Lemma collect_filter {A B} (f : A -> Result B) (P : A -> Prop) `{!forall x, Decision (P x)}
    (Q : B -> Prop) `{!forall y, Decision (Q y)} l ys :
  (forall x y, x ∈ l -> f x = inl y -> P x <-> Q y) ->
  collect f l = inl ys -> collect f (filter P l) = inl (filter Q ys).
Proof.
  intros HPQ Hc. apply collect_inl. apply collect_inl in Hc.
  induction Hc as [|x y l ys Hxy Hl IH]; [constructor|].
  rewrite !filter_cons. specialize (IH ltac:(set_solver)).
  assert (P x <-> Q y) by (apply HPQ; set_solver).
  repeat case_decide; try tauto. by constructor.
Qed.

Lemma collect_ext {A B} (f g : A -> Result B) l :
  (forall x, x ∈ l -> f x = g x) -> collect f l = collect g l.
Proof.
  induction l as [|x l IH]; intros H; simpl; [done|].
  rewrite H by set_solver. rewrite IH by set_solver. done.
Qed.

Lemma for_each_sim {A S1 S2} (R : S1 -> S2 -> Prop) b1 b2 s1 s2 (l : list A) :
  (forall x s1 s2, x ∈ l -> R s1 s2 ->
     match b1 s1 x, b2 s2 x with
     | Some (inl s1'), Some (inl s2') => R s1' s2'
     | Some (inr e1), Some (inr e2) => e1 = e2
     | None, None => True
     | _, _ => False
     end) ->
  R s1 s2 ->
  match for_each b1 s1 l, for_each b2 s2 l with
  | Some (inl s1'), Some (inl s2') => R s1' s2'
  | Some (inr e1), Some (inr e2) => e1 = e2
  | None, None => True
  | _, _ => False
  end.
Proof.
  revert s1 s2; induction l as [|x l IH]; intros s1 s2 Hb HR; simpl; [done|].
  specialize (Hb x s1 s2) as Hx.
  destruct (b1 s1 x) as [[s1'|e1]|], (b2 s2 x) as [[s2'|e2]|];
    specialize (Hx ltac:(set_solver) HR); try done.
  apply IH; [|done]. intros; apply Hb; set_solver.
Qed.

(** Pre-flight flattening is the executor's, up to the ids that targets take
    over from the target they replace. *)
Definition clear_inherited (t : ComboTarget) : ComboTarget := set_inherited None t.

Section preflight.
Context (datetime : string -> option string) (accounts_of_json : string -> option (list Z))
        (conversion : Z -> string) (db : Tables) (now : string) (cdb : ComboDb).
Context (Hlist : forall c, list_targets cdb c = db_list_targets datetime accounts_of_json conversion db now c).

Lemma clear_inherit t st :
  clear_inherited (inherit t st) = override_effort t (clear_inherited st).
Proof.
  unfold inherit, override_effort, clear_inherited. destruct t as [], st as []; simpl.
  destruct t_thinking_effort, t_inherited_target_id0; reflexivity.
Qed.

Lemma db_rows_not_inherited c ts :
  list_targets cdb c = inl ts -> Forall (fun t => clear_inherited t = t) ts.
Proof.
  rewrite Hlist. unfold db_list_targets. rewrite collect_inl.
  induction 1 as [|r t l ts H _ IH]; constructor; [|done].
  unfold row_to_target in H. repeat case_match; simplify_eq. done.
Qed.

Lemma preflight_agrees fuel cid vis depth :
  NoDup vis ->
  match resolve_combo_to_targets cdb fuel cid vis depth,
        preflight_resolve datetime accounts_of_json conversion db now fuel cid (list_to_set vis) depth with
  | Some (inl (v1, out1)), Some (inl (v2, out2)) =>
      v1 = vis /\ v2 = list_to_set vis /\ out2 = clear_inherited <$> out1
  | Some (inr e1), Some (inr e2) => e1 = e2
  | None, None => True
  | _, _ => False
  end.
Proof.
  revert cid vis depth; induction fuel as [|fuel IH]; intros cid vis depth Hnd; [done|]. simpl.
  unfold validate_recursion_depth, MAX_SUB_COMBO_DEPTH.
  destruct (5 <? depth); [done|].
  rewrite (bool_decide_ext (cid ∈ (list_to_set vis : gset Z)) (cid ∈ vis)) by set_solver.
  case_bool_decide as Hin; [done|].
  rewrite <- Hlist. destruct (list_targets cdb cid) as [ts|e] eqn:Ets; [|done].
  pose proof (db_rows_not_inherited cid ts Ets) as Hclear.
  set (R := fun (s1 : list Z * list ComboTarget) (s2 : gset Z * list ComboTarget) =>
    s1.1 = vis ++ [cid] /\ s2.1 = list_to_set (vis ++ [cid]) /\ s2.2 = clear_inherited <$> s1.2).
  assert (NoDup (vis ++ [cid])) as Hnd'.
  { apply NoDup_app; split_and!; [done| |apply NoDup_singleton]. set_solver. }
  assert (R (vis ++ [cid], []) ({[cid]} ∪ list_to_set vis, [])) as HR.
  { split_and!; [done| |done]; simpl. rewrite list_to_set_app_L; simpl. set_solver. }
  pose proof (fun H => for_each_sim R
    (resolve_target (fun sub v => resolve_combo_to_targets cdb fuel sub v (depth + 1)))
    (preflight_target (fun sub v => preflight_resolve datetime accounts_of_json conversion db now fuel sub v (depth + 1)))
    (vis ++ [cid], []) ({[cid]} ∪ list_to_set vis, []) ts H HR) as Hsim.
  lapply Hsim; clear Hsim.
  2: { intros t [v1 o1] [v2 o2] Ht (Hv1 & Hv2 & Ho); simpl in Hv1, Hv2, Ho; subst v1 v2 o2.
    unfold resolve_target, preflight_target; simpl.
    destruct (t_sub_combo_id t) as [sub|].
    - specialize (IH sub (vis ++ [cid]) (depth + 1) Hnd').
      destruct (resolve_combo_to_targets _ _ _ _ _) as [[[v1 out1]|]|],
               (preflight_resolve _ _ _ _ _ _ _ _ _) as [[[v2 out2]|]|]; try done.
      destruct IH as (-> & -> & ->). split_and!; [done..|]. simpl.
      rewrite fmap_app, <- !list_fmap_compose. f_equal.
      apply list_fmap_ext; intros; simpl; symmetry; apply clear_inherit.
    - split_and!; [done..|]. simpl. rewrite fmap_app; simpl. f_equal.
      f_equal. symmetry. rewrite Forall_forall in Hclear. by apply Hclear. }
  intros Hsim.
  destruct (for_each _ _ ts) as [[[v1 o1]|]|], (for_each _ _ ts) as [[[v2 o2]|]|]; try done.
  destruct Hsim as (Hv1 & Hv2 & Ho); simpl in Hv1, Hv2, Ho; subst v1 v2 o2. split_and!; [by rewrite removelast_snoc| |done].
  rewrite list_to_set_app_L; simpl. set_solver.
Qed.

(** The depth check stops the recursion before its fuel is spent. *)
Lemma preflight_answers cid vis :
  NoDup vis ->
  exists r, preflight_resolve datetime accounts_of_json conversion db now tree_fuel cid (list_to_set vis) 0 = Some r.
Proof.
  intros Hnd. pose proof (preflight_agrees tree_fuel cid vis 0 Hnd) as Ha.
  destruct (resolve_spec cdb tree_fuel cid vis 0 6) as (r & Hr & _); [done|unfold tree_fuel; lia|].
  rewrite Hr in Ha. destruct (preflight_resolve _ _ _ _ _ _ _ _ _) as [r'|]; [by eexists|].
  by destruct r as [[]|].
Qed.
End preflight.
