(* ===== verification/Snapshot.v ===== *)
(** * The routing snapshot

    Models openproxy-core/src/routing/snapshot.rs: the tables of a database
    are read once into hash maps ([build]) and a request is resolved from them
    ([resolve_with_options_snap]); the middleware takes the SQL path when the
    snapshot cannot be built ([resolve_raw_routing_plan] of
    openproxy-server/src/middleware/routing.rs).  A process-wide cache serves
    the snapshot until the database moves ([get_snapshot]).

    The theorems compare the snapshot with the SQL path on the same tables and
    say when the cache is current.  The lemmas before them exhibit the inputs
    on which the two paths differ. *)

From Stdlib Require Import Ascii String.
From S2P Require Import Prelude Types Text Errors ComboTree Resolution.

(** ** Hash maps filled row by row *)

(** [map.entry(k).or_insert(v)] per row. *)
Definition or_insert_all {K V} `{Countable K} (l : list (K * V)) (m : gmap K V) : gmap K V :=
  foldl (fun m kv => match m !! kv.1 with None => <[kv.1 := kv.2]> m | Some _ => m end) m l.

(** [map.insert(k, v)] per row. *)
Definition insert_all {K V} `{Countable K} (l : list (K * V)) (m : gmap K V) : gmap K V :=
  foldl (fun m kv => <[kv.1 := kv.2]> m) m l.

(** [map.entry(k).or_default().push(v)] per row. *)
Definition push_all {K V} `{Countable K} (l : list (K * V)) (m : gmap K (list V)) : gmap K (list V) :=
  foldl (fun m kv => <[kv.1 := default [] (m !! kv.1) ++ [kv.2]]> m) m l.

(** ** Data *)

Record SnapTargetRow := mkSnapTargetRow {
  sr_target : ComboTarget;
  sr_cooldown_until : option string;
  sr_model_cooldown_until : option string;
  sr_model_active : bool;
  sr_provider_active : bool
}.

(** The row id and the provider of a model. *)
Record ModelRowIdProvider := mkModelRowIdProvider { mp_row_id : Z; mp_provider_id : string }.

Record RoutingSnapshot := mkSnapshot {
  models_by_name : gmap string ModelRowIdProvider;
  models_by_provider_name : gmap (string * string) ModelRowIdProvider;
  snap_providers : gmap string (bool * RateLimitScope);
  snap_accounts : gmap Z (string * bool);
  healthy_accounts : gmap string (list Z);
  combos_by_name : gmap string Combo;
  snap_combo_targets : gmap Z (list SnapTargetRow)
}.

Section snapshot.
Context (datetime : string -> option string) (accounts_of_json : string -> option (list Z))
        (conversion : Z -> string).

(** ** Building *)

Definition str_cmp (a b : string) : comparison := String.compare a b.

Definition cmp_healthy (a b : AccountRow) : comparison :=
  cmp_then (str_cmp (ar_provider_id a) (ar_provider_id b)) (cmp_account a b).

Definition cmp_snap_target (a b : TargetColumns) : comparison :=
  cmp_then (ct_combo_id a ?= ct_combo_id b) (cmp_target a b).

Definition active_models (db : Tables) : list ModelRow :=
  sort_by cmp_model (filter (fun m => mr_active m = 1) (models db)).

Definition model_entry (m : ModelRow) : ModelRowIdProvider :=
  mkModelRowIdProvider (mr_id m) (mr_provider_id m).

Definition snap_provider_map (db : Tables) : gmap string (bool * RateLimitScope) :=
  insert_all ((fun p => (pr_id p, (flag (pr_active p),
                default ScopeAccount (RateLimitScope_parse (pr_rate_limit_scope p))))) <$> providers db) ∅.

(** One row of the joined query.  Its column 17, which [row_to_target] reads
    as the client profile, is the cooldown of the target. *)
Definition snap_target_row (db : Tables) (now : string) (r : TargetColumns)
    : Result (Z * SnapTargetRow) :=
  let cooldown := tc_cooldown_until <$> cooldown_row db (ct_id r) in
  rbind (row_to_target accounts_of_json conversion "routing snapshot targets" r (scope_of db r) cooldown) (fun t =>
    inl (t_combo_id t,
         mkSnapTargetRow t cooldown
           (ct_model_row_id r ≫= model_cooldown_until datetime db now)
           (default false ((fun m => flag (mr_active m)) <$> (ct_model_row_id r ≫= model_row db)))
           (match snap_provider_map db !! t_provider_id t with Some (a, _) => a | None => false end))).

Definition snap_rows (db : Tables) (now : string) : Result (list (Z * SnapTargetRow)) :=
  collect (snap_target_row db now)
    (sort_by cmp_snap_target
       (filter (fun r => is_Some (provider_row db (ct_provider_id r))) (combo_targets db))).

Definition build (db : Tables) (now : string) : Result RoutingSnapshot :=
  rbind (list_combos conversion db) (fun cs =>
    rbind (snap_rows db now) (fun rows =>
      inl (mkSnapshot
             (or_insert_all ((fun m => (mr_model_id m, model_entry m)) <$> active_models db) ∅)
             (or_insert_all ((fun m => ((mr_provider_id m, mr_model_id m), model_entry m))
                               <$> active_models db) ∅)
             (snap_provider_map db)
             (insert_all ((fun a => (ar_id a, (ar_provider_id a,
                             String.eqb (ar_health_status a) "healthy"))) <$> accounts db) ∅)
             (push_all ((fun a => (ar_provider_id a, ar_id a))
                <$> sort_by cmp_healthy (filter (fun a => ar_health_status a = "healthy"%string) (accounts db))) ∅)
             (insert_all ((fun c => (c_name c, c)) <$> cs) ∅)
             (push_all rows ∅)))).

(** ** Resolving from a snapshot *)

Definition snap_strip_prefix (snap : RoutingSnapshot) (model : string) : string * option string :=
  if starts_with "combo:" model then (model, None)
  else match split_once_char "/" model with
       | None => (model, None)
       | Some (prefix, rest) =>
           if String.eqb prefix "" then (model, None)
           else if bool_decide (is_Some (snap_providers snap !! prefix))
                then (rest, Some prefix) else (model, None)
       end.

Definition target_row_active (now : string) (r : SnapTargetRow) : bool :=
  if negb (t_active (sr_target r)) || negb (sr_provider_active r) then false
  else if match t_model_row_id (sr_target r), t_sub_combo_id (sr_target r) with
          | None, None => true
          | Some _, _ => negb (sr_model_active r)
          | _, _ => false
          end then false
  else if match sr_cooldown_until r with Some c => str_ltb now c | None => false end then false
  else negb (bool_decide (is_Some (sr_model_cooldown_until r))).

Definition try_resolve_direct (snap : RoutingSnapshot) (model : string) (prefix : option string)
    (account_override : option Z) : option RoutingPlan :=
  match match prefix with
        | Some p => models_by_provider_name snap !! (p, model)
        | None => models_by_name snap !! model
        end with
  | None => None
  | Some m =>
      let '(active, scope) := default (false, ScopeAccount) (snap_providers snap !! mp_provider_id m) in
      if negb active then None
      else
        let account := match account_override with
                       | Some aid =>
                           match snap_accounts snap !! aid with
                           | Some (prov, _) => if String.eqb prov (mp_provider_id m) then Some aid else None
                           | None => None
                           end
                       | None => None
                       end in
        Some (synthetic_plan (mp_provider_id m) account (mp_row_id m) scope)
  end.

Definition pin_account (snap : RoutingSnapshot) (aid : Z) (targets : list ComboTarget)
    : list ComboTarget :=
  match snap_accounts snap !! aid with
  | Some (prov, _) => pin_to_provider prov aid targets
  | None => targets
  end.

Definition resolve_with_options_snap (snap : RoutingSnapshot) (now model : string)
    (provider_override : option string) (account_override : option Z) : RoutingPlan :=
  let '(stripped, found) := snap_strip_prefix snap model in
  match try_resolve_direct snap stripped (effective_prefix found provider_override) account_override with
  | Some plan => plan
  | None =>
      match combos_by_name snap !! combo_name_of stripped with
      | Some c =>
          let rows := default [] (snap_combo_targets snap !! c_id c) in
          let targets := sr_target <$> filter (fun r => target_row_active now r = true) rows in
          PlanCombo (c_id c) (c_name c) (c_strategy c) (c_race_size c)
            (match account_override with
             | Some aid => pin_account snap aid targets
             | None => targets
             end)
      | None => not_found model stripped
      end
  end.

(** The middleware without the legacy header, on a snapshot that was built at
    [built] or could not be built. *)
Definition resolve_via_snapshot (db : Tables) (built now model : string)
    (provider_override : option string) (account_override : option Z) : Result RoutingPlan :=
  match build db built with
  | inl snap => inl (resolve_with_options_snap snap now model provider_override account_override)
  | inr _ => resolve_with_options datetime accounts_of_json conversion db now model
               provider_override account_override
  end.

End snapshot.

(** ** Filled maps *)

Section filled.
Context {K V : Type} `{Countable K}.

Lemma or_insert_all_lookup (l : list (K * V)) m k :
  or_insert_all l m !! k
  = match m !! k with Some v => Some v | None => snd <$> head (filter (fun kv => kv.1 = k) l) end.
Proof.
  unfold or_insert_all. revert m; induction l as [|[k' v'] l IH]; intros m; simpl; [by destruct (m !! k)|].
  rewrite IH, filter_cons; simpl. destruct (decide (k' = k)) as [->|Hne].
  - destruct (m !! k) as [v|] eqn:E; simpl; [by rewrite E|by rewrite lookup_insert_eq].
  - destruct (m !! k'); simpl; [done|by rewrite lookup_insert_ne].
Qed.

Lemma insert_all_lookup (l : list (K * V)) m k v :
  NoDup l.*1 ->
  insert_all l m !! k = Some v <-> (k, v) ∈ l \/ (k ∉ l.*1 /\ m !! k = Some v).
Proof.
  unfold insert_all. revert m; induction l as [|[k' v'] l IH]; intros m Hnd; simpl; [set_solver|].
  inversion_clear Hnd as [|? ? Hk' Hl]. rewrite IH by done.
  destruct (decide (k' = k)) as [->|Hne]; simpl.
  - rewrite lookup_insert_eq. rewrite elem_of_cons, not_elem_of_cons.
    assert ((k, v) ∉ l) by (intros Hin; apply Hk'; by apply (list_elem_of_fmap_2 fst) in Hin).
    naive_solver.
  - rewrite lookup_insert_ne by done. rewrite elem_of_cons, not_elem_of_cons. naive_solver.
Qed.

Lemma push_all_lookup (l : list (K * V)) m k :
  default [] (push_all l m !! k) = default [] (m !! k) ++ (snd <$> filter (fun kv => kv.1 = k) l).
Proof.
  unfold push_all. revert m; induction l as [|[k' v'] l IH]; intros m; simpl; [by rewrite app_nil_r|].
  rewrite IH, filter_cons; simpl. destruct (decide (k' = k)) as [->|Hne].
  - rewrite lookup_insert_eq; simpl. by rewrite <- app_assoc.
  - by rewrite lookup_insert_ne.
Qed.

Lemma head_filter_fmap {A} (f : A -> K * V) k (l : list A) :
  snd <$> head (filter (fun kv => kv.1 = k) (f <$> l)) = (fun x => (f x).2) <$> head (filter (fun x => (f x).1 = k) l).
Proof.
  induction l as [|x l IH]; simpl; [done|]. rewrite !filter_cons. by case_decide.
Qed.

(** A map filled from rows with distinct keys looks up the row. *)
Lemma insert_all_rows {A} (f : A -> K * V) k (l : list A) :
  NoDup ((fun x => (f x).1) <$> l) ->
  insert_all (f <$> l) ∅ !! k = (fun x => (f x).2) <$> head (filter (fun x => (f x).1 = k) l).
Proof.
  intros Hnd. apply option_eq. intros v.
  rewrite insert_all_lookup by (by rewrite <- list_fmap_compose).
  rewrite list_elem_of_fmap, lookup_empty, fmap_Some.
  setoid_rewrite (head_filter_key (fun x => (f x).1) l k); [|done].
  split; [|intros (x & [Hx Hk] & ->); left; exists x; split; [by destruct (f x); simplify_eq/=|done]].
  intros [(x & Hx & Hin)|[_ ?]]; [|done]. exists x. by rewrite <- Hx.
Qed.
End filled.

(** ** When the snapshot speaks for the tables *)

(** The keys and flags the schema enforces. *)
Record schema_ok (db : Tables) : Prop := {
  provider_key : NoDup (pr_id <$> providers db);
  account_key : NoDup (ar_id <$> accounts db);
  combo_key : NoDup (cr_name <$> combos db);
  provider_flags : Forall (fun p => pr_active p = 0 \/ pr_active p = 1) (providers db);
  model_flags : Forall (fun m => mr_active m = 0 \/ mr_active m = 1) (models db);
  target_flags : Forall (fun r => ct_active r = Some 0 \/ ct_active r = Some 1) (combo_targets db)
}.

(** What the snapshot assumes beyond the schema: no model of an inactive
    provider hides one of the same name, no target has a client profile,
    cooldowns are stored as [datetime] prints them and none of them runs out
    between the building and the request. *)
Record snapshot_ok (datetime : string -> option string) (db : Tables) (built now : string) : Prop := {
  names_visible : forall m1 m2, m1 ∈ models db -> m2 ∈ models db ->
    mr_model_id m1 = mr_model_id m2 -> mr_active m1 = 1 -> mr_active m2 = 1 ->
    provider_is_active db (mr_provider_id m1) = provider_is_active db (mr_provider_id m2);
  no_profiles : Forall (fun r => ct_client_profile r ≫= ClientProfile_parse = None) (combo_targets db);
  cooldowns_normal : Forall (fun c => datetime (tc_cooldown_until c) = Some (tc_cooldown_until c)
    /\ ClientProfile_parse (tc_cooldown_until c) = None) (target_cooldowns db);
  none_expires : Forall (fun c => future datetime built (tc_cooldown_until c)
    = future datetime now (tc_cooldown_until c)) (target_cooldowns db)
}.

(** ** Table by table *)

#[local] Instance cmp_model_total : TotalPreorder cmp_model := by_key_total mr_id.
#[local] Instance cmp_snap_target_total : TotalPreorder cmp_snap_target :=
  cmp_then_total _ _ (by_key_total ct_combo_id) cmp_target_total.

Lemma provider_active_row db id :
  NoDup (pr_id <$> providers db) ->
  provider_is_active db id = match provider_row db id with Some p => pr_active p =? 1 | None => false end.
Proof.
  intros Hnd. apply eq_true_iff_eq. unfold provider_is_active.
  rewrite existsb_exists. setoid_rewrite <- list_elem_of_In. setoid_rewrite andb_true_iff.
  destruct (provider_row db id) as [p|] eqn:E; unfold provider_row in E.
  - pose proof (head_filter_key pr_id (providers db) id p Hnd) as Hp. rewrite E in Hp.
    destruct (proj1 Hp eq_refl) as [Hin Hid]. split.
    + intros (q & Hq & Hqid%String.eqb_eq & Hact).
      pose proof (proj2 (head_filter_key pr_id (providers db) id q Hnd) (conj Hq Hqid)). by simplify_eq/=.
    + intros Hact. exists p. split_and!; [done| |done]. by apply String.eqb_eq.
  - split; [|done]. intros (q & Hq & Hqid%String.eqb_eq & _).
    pose proof (proj2 (head_filter_key pr_id (providers db) id q Hnd) (conj Hq Hqid)). congruence.
Qed.

Lemma flag_is_one v : v = 0 \/ v = 1 -> flag v = (v =? 1).
Proof. by intros [->| ->]. Qed.

Lemma provider_map_lookup db id :
  NoDup (pr_id <$> providers db) ->
  snap_provider_map db !! id
  = (fun p => (flag (pr_active p), default ScopeAccount (RateLimitScope_parse (pr_rate_limit_scope p))))
      <$> provider_row db id.
Proof. intros Hnd. unfold snap_provider_map, provider_row. by rewrite insert_all_rows. Qed.

Lemma provider_map_agrees db id :
  NoDup (pr_id <$> providers db) ->
  default (false, ScopeAccount) (snap_provider_map db !! id) = provider_active_and_scope db id.
Proof.
  intros Hnd. rewrite provider_map_lookup by done.
  unfold provider_active_and_scope. by destruct (provider_row db id).
Qed.

Lemma provider_flag_row db id p :
  schema_ok db -> provider_row db id = Some p -> flag (pr_active p) = (pr_active p =? 1).
Proof.
  intros Hs Hp. apply flag_is_one. pose proof (provider_flags _ Hs) as Hf. rewrite Forall_forall in Hf.
  apply Hf. unfold provider_row in Hp.
  by apply (head_filter_key pr_id) in Hp as [? _]; [|apply Hs].
Qed.

Lemma known_provider db id :
  NoDup (pr_id <$> providers db) ->
  existsb (fun p => String.eqb (pr_id p) id) (providers db)
  = bool_decide (is_Some (snap_provider_map db !! id)).
Proof.
  intros Hnd. rewrite provider_map_lookup by done. rewrite (bool_decide_ext _ _ (fmap_is_Some _ _)).
  apply eq_true_iff_eq. rewrite existsb_exists, bool_decide_eq_true. setoid_rewrite <- list_elem_of_In.
  setoid_rewrite String.eqb_eq. unfold is_Some, provider_row.
  by setoid_rewrite (head_filter_key pr_id); [|done..].
Qed.

Lemma active_models_filter db (P : ModelRow -> Prop) `{!forall m, Decision (P m)} :
  filter P (active_models db)
  = sort_by cmp_model (filter (fun m => P m /\ mr_active m = 1) (models db)).
Proof.
  unfold active_models. rewrite (filter_sort_by cmp_model). f_equal. by rewrite list_filter_filter.
Qed.

(** A condition that is constant on the rows another one selects keeps all of
    them or none. *)
Lemma filter_constant {A} (P : A -> Prop) (b : A -> bool) `{!forall x, Decision (P x)} l :
  (forall x y, x ∈ l -> y ∈ l -> P x -> P y -> b x = b y) ->
  filter (fun x => P x /\ b x = true) l = filter P l /\ Forall (fun x => b x = true) (filter P l)
  \/ filter (fun x => P x /\ b x = true) l = [] /\ Forall (fun x => b x = false) (filter P l).
Proof.
  intros Hc. destruct (filter P l) as [|x l'] eqn:E.
  - right. split; [|constructor]. rewrite filter_nil_iff in E |- *. naive_solver.
  - assert (P x /\ x ∈ l) as [HPx Hx] by (apply (list_elem_of_filter P); rewrite E; set_solver).
    rewrite <- E. destruct (b x) eqn:Hb; [left|right].
    + split; [apply filter_iff_in; intros y Hy; split; [tauto|]; intros HP; split; [done|]|
              apply Forall_forall; intros y [HP Hy]%list_elem_of_filter];
        rewrite <- Hb; by apply Hc.
    + split.
      * apply filter_nil_iff. intros y Hy [HP Hb']. rewrite (Hc y x) in Hb' by done. congruence.
      * apply Forall_forall. intros y [HP Hy]%list_elem_of_filter. rewrite <- Hb. by apply Hc.
Qed.

Section agree.
Context (datetime : string -> option string) (accounts_of_json : string -> option (list Z))
        (conversion : Z -> string) (db : Tables) (built now : string)
        (Hschema : schema_ok db) (Hok : snapshot_ok datetime db built now).

(** What the two paths find for a model name, as far as an active provider
    goes. *)
Lemma find_by_provider p name :
  find_active_by_provider_and_name db p name
  = if provider_is_active db p
    then head (filter (fun m => (mr_provider_id m, mr_model_id m) = (p, name)) (active_models db)) else None.
Proof.
  unfold find_active_by_provider_and_name. rewrite active_models_filter.
  destruct (provider_is_active db p) eqn:Hp.
  - do 2 f_equal. apply filter_iff_in. intros m _. rewrite pair_eq.
    split; [tauto|]. intros [[-> ->] ?]. by rewrite Hp.
  - replace (filter _ (models db)) with (@nil ModelRow); [done|]. symmetry.
    apply filter_nil_iff. intros m _ (-> & _ & _ & Hp'). congruence.
Qed.

Lemma find_by_name name :
  match head (filter (fun m => mr_model_id m = name) (active_models db)) with
  | Some m => find_active_by_name db name = if provider_is_active db (mr_provider_id m) then Some m else None
  | None => find_active_by_name db name = None
  end.
Proof.
  rewrite active_models_filter. unfold find_active_by_name.
  set (P := fun m => mr_model_id m = name /\ mr_active m = 1).
  rewrite (filter_iff_in (fun m => mr_model_id m = name /\ mr_active m = 1
             /\ provider_is_active db (mr_provider_id m) = true)
             (fun m => P m /\ provider_is_active db (mr_provider_id m) = true) (models db))
    by (intros; unfold P; tauto).
  assert (forall m, head (sort_by cmp_model (filter P (models db))) = Some m -> m ∈ filter P (models db)) as Hin.
  { intros m Hm. rewrite <- (sort_by_perm cmp_model). destruct (sort_by _ _); simplify_eq/=. set_solver. }
  destruct (filter_constant P (fun m => provider_is_active db (mr_provider_id m)) (models db)) as [[-> Hf]|[-> Hf]].
  1: { intros x y Hx Hy [Hnx Hax] [Hny Hay]. apply (names_visible _ _ _ _ Hok); congruence. }
  all: change (fun m => mr_model_id m = name /\ mr_active m = 1) with P; rewrite Forall_forall in Hf;
    destruct (head _) as [m|]; [|done]; by rewrite Hf by (by apply Hin).
Qed.

Lemma pinned_belongs aid prov :
  existsb (fun a => (ar_id a =? aid) && String.eqb (ar_provider_id a) prov) (accounts db)
  = match account_row db aid with Some a => String.eqb (ar_provider_id a) prov | None => false end.
Proof.
  apply eq_true_iff_eq. rewrite existsb_exists. setoid_rewrite <- list_elem_of_In.
  setoid_rewrite andb_true_iff. setoid_rewrite Z.eqb_eq.
  pose proof (head_filter_key ar_id (accounts db) aid) as Hk. unfold account_row.
  destruct (head _) as [a|].
  - destruct (proj1 (Hk a (account_key _ Hschema)) eq_refl) as [Hin Hid]. split; [|naive_solver].
    intros (a' & Ha' & Hid' & Hp). assert (Some a = Some a') by (apply Hk; [apply Hschema|done]). by simplify_eq.
  - split; [|done]. intros (a' & Ha' & Hid' & _).
    assert (None = Some a') by (apply Hk; [apply Hschema|done]). done.
Qed.

(** The plan for a model that was found is the same on both paths, and there
    is none when its provider is inactive. *)
Definition direct_plan (m : ModelRow) (account : option Z) : option RoutingPlan :=
  let '(active, scope) := provider_active_and_scope db (mr_provider_id m) in
  if negb active then None
  else Some (synthetic_plan (mr_provider_id m)
               (match account with
                | Some aid => if existsb (fun a => (ar_id a =? aid) && String.eqb (ar_provider_id a) (mr_provider_id m))
                                   (accounts db) then Some aid else None
                | None => None
                end) (mr_id m) scope).

Lemma direct_plan_inactive m account :
  provider_is_active db (mr_provider_id m) = false -> direct_plan m account = None.
Proof.
  rewrite provider_active_row by apply Hschema. unfold direct_plan, provider_active_and_scope.
  destruct (provider_row _ _) as [p|] eqn:Hp; [|done].
  rewrite (provider_flag_row _ _ _ Hschema Hp). by intros ->.
Qed.

Lemma account_map_lookup aid :
  insert_all ((fun a => (ar_id a, (ar_provider_id a, String.eqb (ar_health_status a) "healthy"))) <$> accounts db) ∅
    !! aid
  = (fun a => (ar_provider_id a, String.eqb (ar_health_status a) "healthy")) <$> account_row db aid.
Proof. rewrite insert_all_rows by apply Hschema. done. Qed.

(** Both paths resolve a model name alike. *)
Lemma direct_agrees snap name prefix account :
  build datetime accounts_of_json conversion db built = inl snap ->
  try_resolve_direct snap name prefix account = try_resolve_direct_model db name prefix account.
Proof.
  unfold build. intros Hb. apply rbind_inl in Hb as (cs & _ & Hb). apply rbind_inl in Hb as (rows & _ & Hb).
  injection Hb as <-. unfold try_resolve_direct, try_resolve_direct_model; simpl.
  assert (forall om : option ModelRow,
    match model_entry <$> om with
    | Some m =>
        let '(active, scope) := default (false, ScopeAccount) (snap_provider_map db !! mp_provider_id m) in
        if negb active then None
        else
          Some (synthetic_plan (mp_provider_id m)
            (match account with
             | Some aid =>
                 match insert_all ((fun a => (ar_id a, (ar_provider_id a, String.eqb (ar_health_status a) "healthy")))
                                     <$> accounts db) ∅ !! aid with
                 | Some (prov, _) => if String.eqb prov (mp_provider_id m) then Some aid else None
                 | None => None
                 end
             | None => None
             end) (mp_row_id m) scope)
    | None => None
    end = om ≫= fun m => direct_plan m account) as Hplan.
  { intros [m|]; simpl; [|done]. rewrite provider_map_agrees by apply Hschema. unfold direct_plan.
    destruct (provider_active_and_scope _ _) as [[] scope]; simpl; [|done]. do 2 f_equal.
    destruct account as [aid|]; [|done]. rewrite account_map_lookup, pinned_belongs.
    by destruct (account_row db aid). }
  destruct prefix as [p|]; rewrite or_insert_all_lookup, lookup_empty, head_filter_fmap; simpl.
  - etransitivity; [exact (Hplan (head (filter (fun m => (mr_provider_id m, mr_model_id m) = (p, name)) (active_models db))))|].
    rewrite find_by_provider.
    destruct (provider_is_active db p) eqn:Hp; [done|].
    destruct (head _) as [m|] eqn:Hm; simpl; [|done]. apply direct_plan_inactive.
    apply head_Some_elem_of, list_elem_of_filter in Hm as [[= -> _] _]. done.
  - etransitivity; [exact (Hplan (head (filter (fun m => mr_model_id m = name) (active_models db))))|]. pose proof (find_by_name name) as Hf.
    destruct (head _) as [m|]; simpl; rewrite Hf; [|done].
    destruct (provider_is_active _ _) eqn:Hp; [done|]. by apply direct_plan_inactive.
Qed.

Lemma row_to_target_ok ctx ctx' r scope c c' t :
  c ≫= ClientProfile_parse = c' ≫= ClientProfile_parse ->
  row_to_target accounts_of_json conversion ctx r scope c = inl t ->
  row_to_target accounts_of_json conversion ctx' r scope c' = inl t.
Proof. unfold row_to_target. intros ->. repeat case_match; congruence. Qed.

Lemma row_to_target_fields ctx r scope c t :
  row_to_target accounts_of_json conversion ctx r scope c = inl t ->
  t_combo_id t = ct_combo_id r /\ t_provider_id t = ct_provider_id r
  /\ t_model_row_id t = ct_model_row_id r /\ t_sub_combo_id t = ct_sub_combo_id r
  /\ t_active t = default true (flag <$> ct_active r).
Proof. unfold row_to_target. intros. repeat case_match; simplify_eq/=; auto 6. Qed.

Lemma cooldown_normal target tc :
  cooldown_row db target = Some tc ->
  datetime (tc_cooldown_until tc) = Some (tc_cooldown_until tc)
  /\ ClientProfile_parse (tc_cooldown_until tc) = None.
Proof.
  intros [_ Hin]%head_Some_elem_of%list_elem_of_filter.
  pose proof (cooldowns_normal _ _ _ _ Hok) as Hn. rewrite Forall_forall in Hn. by apply Hn.
Qed.

Lemma model_cooldown_same mid :
  model_cooldown_until datetime db built mid = model_cooldown_until datetime db now mid.
Proof.
  unfold model_cooldown_until. do 2 f_equal. apply filter_iff_in. intros tc Htc.
  pose proof (none_expires _ _ _ _ Hok) as Hn. rewrite Forall_forall in Hn. by rewrite Hn.
Qed.

(** A row of the snapshot is served exactly when SQL lists it. *)
Lemma row_active_agrees r y :
  r ∈ combo_targets db ->
  snap_target_row datetime accounts_of_json conversion db built r = inl y ->
  target_row_active now y.2 = target_listed datetime db now r.
Proof.
  intros Hr. unfold snap_target_row. intros (t & Ht & [= <-])%rbind_inl; simpl.
  apply row_to_target_fields in Ht as (_ & Hp & Hm & Hs & Ha).
  unfold target_row_active, target_listed; simpl. rewrite Hp, Hm, Hs, Ha, provider_map_lookup by apply Hschema.
  destruct (provider_row db (ct_provider_id r)) as [p|] eqn:Ep; simpl; [|by rewrite orb_true_r].
  rewrite (provider_flag_row _ _ _ Hschema Ep).
  pose proof (target_flags _ Hschema) as Hf. rewrite Forall_forall in Hf.
  destruct (Hf r Hr) as [->| ->]; simpl; [by rewrite andb_false_r|].
  destruct (pr_active p =? 1); simpl; [|done].
  destruct (cooldown_row db (ct_id r)) as [tc|] eqn:Ec; simpl.
  1: rewrite (proj1 (cooldown_normal _ _ Ec)); destruct (str_ltb now (tc_cooldown_until tc)).
  all: destruct (ct_model_row_id r) as [mid|]; simpl;
    rewrite ?model_cooldown_same; destruct (ct_sub_combo_id r); simpl;
    rewrite ?andb_false_r, ?andb_true_r; try done; try (by destruct (model_row db mid)).
  all: destruct (model_row db mid) as [m|] eqn:Em; simpl; [|done].
  all: apply head_Some_elem_of, list_elem_of_filter in Em as [_ Em];
    pose proof (model_flags _ Hschema) as Hmf; rewrite Forall_forall in Hmf;
    rewrite (flag_is_one _ (Hmf m Em)); destruct (mr_active m =? 1); simpl; try done.
  all: by destruct (model_cooldown_until _ _ _ _).
Qed.

(** The rows of one combo come out of the snapshot's order as SQL orders
    them. *)
Lemma rows_in_order cid :
  filter (fun r => ct_combo_id r = cid /\ target_listed datetime db now r = true)
    (sort_by cmp_snap_target (filter (fun r => is_Some (provider_row db (ct_provider_id r))) (combo_targets db)))
  = sort_by cmp_target
      (filter (fun r => ct_combo_id r = cid /\ target_listed datetime db now r = true) (combo_targets db)).
Proof.
  rewrite (filter_sort_by cmp_snap_target), list_filter_filter_l.
  - apply sort_by_ext. intros x y [[Hx _] _]%list_elem_of_filter [[Hy _] _]%list_elem_of_filter.
    unfold cmp_snap_target. by rewrite Hx, Hy, Z.compare_refl.
  - intros r [_ Hl]. unfold target_listed in Hl. destruct (provider_row _ _); [by eexists|done].
Qed.

Lemma targets_agree rows cid :
  snap_rows datetime accounts_of_json conversion db built = inl rows ->
  db_list_targets datetime accounts_of_json conversion db now cid
  = inl (sr_target <$> filter (fun r => target_row_active now r = true)
                        (default [] (push_all rows ∅ !! cid))).
Proof.
  intros Hrows. rewrite push_all_lookup, lookup_empty; simpl. unfold snap_rows in Hrows.
  assert (forall r, r ∈ sort_by cmp_snap_target
            (filter (fun r => is_Some (provider_row db (ct_provider_id r))) (combo_targets db)) ->
            r ∈ combo_targets db) as Hin.
  { intros r. rewrite sort_by_perm. by intros [_ ?]%list_elem_of_filter. }
  eapply (collect_filter _ (fun r => ct_combo_id r = cid /\ target_listed datetime db now r = true)
            (fun y => y.1 = cid /\ target_row_active now y.2 = true)) in Hrows.
  2: { intros r y Hr Hy. rewrite (row_active_agrees r y) by auto. unfold snap_target_row in Hy.
       apply rbind_inl in Hy as (t & Ht & [= <-]); simpl. by apply row_to_target_fields in Ht as [-> _]. }
  rewrite rows_in_order in Hrows. unfold db_list_targets.
  apply collect_inl in Hrows. apply collect_inl.
  rewrite filter_fmap, list_filter_filter, <- list_fmap_compose.
  rewrite (filter_iff_in _ (fun y : Z * SnapTargetRow => y.1 = cid /\ target_row_active now y.2 = true))
    by (intros; tauto).
  apply Forall2_fmap_r.
  assert (Forall (fun r => ct_client_profile r ≫= ClientProfile_parse = None)
    (sort_by cmp_target (filter (fun r => ct_combo_id r = cid /\ target_listed datetime db now r = true)
                           (combo_targets db)))) as Hprof.
  { rewrite sort_by_perm. pose proof (no_profiles _ _ _ _ Hok) as Hn. rewrite Forall_forall in Hn |- *.
    intros r [_ Hr]%list_elem_of_filter. by apply Hn. }
  induction Hrows as [|r y l l' Hy _ IH]; constructor; inversion_clear Hprof; [|by apply IH].
  unfold snap_target_row in Hy. apply rbind_inl in Hy as (t & Ht & [= <-]); simpl.
  eapply row_to_target_ok; [|exact Ht]. etransitivity; [|by symmetry].
  destruct (cooldown_row db (ct_id r)) as [tc|] eqn:Ec; [|done]. apply (cooldown_normal _ _ Ec).
Qed.

(** Combos by name. *)
Lemma combos_agree cs name :
  list_combos conversion db = inl cs ->
  get_combo_by_name conversion db name = inl (insert_all ((fun c => (c_name c, c)) <$> cs) ∅ !! name).
Proof.
  unfold list_combos. intros Hcs%collect_inl.
  assert (forall ctx r c, row_to_combo conversion ctx r = inl c -> c_name c = cr_name r) as Hname.
  { unfold row_to_combo. intros. repeat case_match; simplify_eq/=; done. }
  assert (c_name <$> cs = cr_name <$> sort_by cmp_combo (combos db)) as Hnames.
  { induction Hcs as [|r c l l' Hc _ IH]; simpl; [done|]. f_equal; [by eapply Hname|exact IH]. }
  assert (NoDup (c_name <$> cs)) as Hnd by (rewrite Hnames, sort_by_perm; apply Hschema).
  rewrite insert_all_rows by exact Hnd. simpl. rewrite option_fmap_id. unfold get_combo_by_name.
  destruct (filter _ (combos db)) as [|r l] eqn:E.
  - f_equal. symmetry. destruct (head _) as [c|] eqn:Hc; [|done].
    apply (head_filter_key c_name) in Hc as [Hc Hcn]; [|done].
    assert (name ∈ cr_name <$> combos db) as Hin.
    { rewrite <- (sort_by_perm cmp_combo), <- Hnames, <- Hcn. by apply list_elem_of_fmap_2. }
    apply list_elem_of_fmap in Hin as (r & Hr & Hin). rewrite filter_nil_iff in E. by destruct (E r Hin).
  - assert (r ∈ filter (fun c => cr_name c = name) (combos db)) as [Hrn Hr]%list_elem_of_filter
      by (rewrite E; left).
    rewrite <- (sort_by_perm cmp_combo) in Hr. apply list_elem_of_lookup in Hr as [i Hi].
    destruct (Forall2_lookup_l _ _ _ _ _ Hcs Hi) as (c & Hci & Hc).
    assert (row_to_combo conversion "get combo by name" r = inl c) as ->.
    { revert Hc. unfold row_to_combo. repeat case_match; congruence. }
    simpl. f_equal. symmetry. apply (head_filter_key c_name); [done|].
    split; [by eapply list_elem_of_lookup_2|]. rewrite <- Hrn. by eapply Hname.
Qed.

Lemma strip_agrees snap model :
  build datetime accounts_of_json conversion db built = inl snap ->
  snap_strip_prefix snap model = strip_proxy_prefix db model.
Proof.
  unfold build. intros Hb. apply rbind_inl in Hb as (cs & _ & Hb). apply rbind_inl in Hb as (rows & _ & Hb).
  injection Hb as <-. unfold snap_strip_prefix, strip_proxy_prefix; simpl.
  repeat case_match; try done; rewrite <- known_provider in * by apply Hschema; congruence.
Qed.
End agree.

(** C17. The snapshot path is the SQL path: on tables that meet the schema and
    the snapshot's own assumptions, the middleware's resolution through a
    snapshot built at [built] returns at [now] the plan, or the error, that
    the queries return, for every model string, provider override and account
    override. *)
Theorem snapshot_resolves_as_sql datetime accounts_of_json conversion db built now model po ao :
  schema_ok db -> snapshot_ok datetime db built now ->
  resolve_via_snapshot datetime accounts_of_json conversion db built now model po ao
  = resolve_with_options datetime accounts_of_json conversion db now model po ao.
Proof.
  intros Hs Hok. unfold resolve_via_snapshot.
  destruct (build _ _ _ _ _) as [snap|e] eqn:Hb; [|done].
  unfold resolve_with_options_snap, resolve_with_options.
  rewrite (strip_agrees _ _ _ _ _ Hs _ _ Hb). destruct (strip_proxy_prefix db model) as [stripped found].
  rewrite (direct_agrees _ _ _ _ _ _ Hs Hok _ _ _ _ Hb).
  destruct (try_resolve_direct_model _ _ _ _); [done|].
  unfold build in Hb. apply rbind_inl in Hb as (cs & Hcs & Hb). apply rbind_inl in Hb as (rows & Hrows & Hb).
  injection Hb as <-; simpl.
  rewrite (combos_agree _ _ Hs _ _ Hcs). simpl.
  destruct (insert_all _ _ !! _) as [c|]; [|done].
  rewrite (targets_agree _ _ _ _ _ _ Hs Hok _ _ Hrows). simpl.
  destruct ao as [aid|]; [|done]. unfold pin_account, pin_account_to_targets; simpl.
  rewrite (account_map_lookup _ Hs). by destruct (account_row db aid).
Qed.

(** ** Examples *)

(** A [datetime] for the two formats in use: RFC 3339 and SQLite's own. *)
Definition demo_datetime (s : string) : option string :=
  Some (String.substring 0 19 (replace_char "T" " " s)).

Definition demo_target_row (id combo : Z) (provider : string) (model sub : option Z)
    (profile : option string) : TargetColumns :=
  mkTargetColumns id combo provider None model sub id (Some 1) (Some 1) None None None None None None None profile.

Definition demo_combo_row (id : Z) (name : string) : ComboRow :=
  mkComboRow id name "priority" 1 "" None None None None None None None None None None None None None None None.

(** Two active providers with a model each and an inactive one, a combo over
    both models and a cooldown on one of its targets. *)
Definition demo_tables (until : string) : Tables :=
  mkTables
    [mkModelRow 1 "small" "p1" 1; mkModelRow 2 "large" "p2" 1]
    [mkProviderRow "p1" 1 "account"; mkProviderRow "p2" 1 "model"; mkProviderRow "p3" 0 "account"]
    [mkAccountRow 7 "p2" 0 "healthy"]
    [demo_combo_row 4 "nerd"]
    [demo_target_row 11 4 "p2" (Some 2) None None; demo_target_row 10 4 "p1" (Some 1) None None]
    [mkCooldownColumns 10 until].

Definition demo_resolve (db : Tables) (now model : string) (account : option Z) : Result RoutingPlan :=
  resolve_with_options demo_datetime (fun _ => None) (fun _ => "conversion"%string) db now model None account.

Definition demo_resolve_snap (db : Tables) (built now model : string) (account : option Z) : Result RoutingPlan :=
  resolve_via_snapshot demo_datetime (fun _ => None) (fun _ => "conversion"%string) db built now model None account.

Ltac each_row tac := repeat (apply Forall_cons; split; [simpl; tac|]); by apply Forall_nil.

Lemma demo_schema until : schema_ok (demo_tables until).
Proof.
  split; simpl; [by apply (bool_decide_unpack _)..| | |]; each_row ltac:(auto).
Qed.

Lemma snapshot_resolves_as_sql_witness :
  let db := demo_tables "2026-01-02 10:00:00" in
  demo_resolve_snap db "2026-01-02 09:59:00" "2026-01-02 09:59:30" "nerd" (Some 7)
  = demo_resolve db "2026-01-02 09:59:30" "nerd" (Some 7)
  /\ demo_resolve db "2026-01-02 09:59:30" "nerd" (Some 7)
     = inl (PlanCombo 4 "nerd" Priority 1
              [mkTarget 11 4 "p2" (Some 7) (Some 2) None 11 1 true ScopeModel
                 None None None None None None None None None]).
Proof.
  split; [|by vm_compute].
  apply snapshot_resolves_as_sql; [apply demo_schema|]. split; simpl.
  - intros m1 m2 H1%list_elem_of_In H2%list_elem_of_In. simpl in *.
    intuition (subst; vm_compute in *; congruence).
  - repeat constructor.
  - repeat constructor.
  - repeat constructor.
Defined.

(** A model of an inactive provider hides a later one of the same name: SQL
    resolves the name, the snapshot does not. *)
Lemma shadowed_name_lost :
  let db := mkTables [mkModelRow 1 "m" "off" 1; mkModelRow 2 "m" "on" 1]
              [mkProviderRow "off" 0 "account"; mkProviderRow "on" 1 "account"] [] [] [] [] in
  schema_ok db
  /\ demo_resolve db "2026-01-02 10:00:00" "m" None = inl (synthetic_plan "on" None 2 ScopeAccount)
  /\ demo_resolve_snap db "2026-01-02 10:00:00" "2026-01-02 10:00:00" "m" None = inl (PlanNotFound "m" None).
Proof.
  split; [|by vm_compute].
  split; simpl; [by apply (bool_decide_unpack _)..| | |]; each_row ltac:(auto).
Qed.

(** The first target of a plan. *)
Definition first_target (r : Result RoutingPlan) : option ComboTarget :=
  match r with inl (PlanCombo _ _ _ _ (t :: _)) => Some t | _ => None end.

(** The snapshot's query has the cooldown where [row_to_target] reads the
    client profile: the profile of a target is lost. *)
Lemma client_profile_lost :
  let db := mkTables [mkModelRow 1 "m" "p" 1] [mkProviderRow "p" 1 "account"] [] [demo_combo_row 4 "c"]
              [demo_target_row 10 4 "p" (Some 1) None (Some "codex"%string)] [] in
  let t := "2026-01-02 10:00:00"%string in
  (first_target (demo_resolve db t "c" None) ≫= t_client_profile) = Some Codex
  /\ (first_target (demo_resolve_snap db t t "c" None) ≫= t_client_profile) = None.
Proof. by vm_compute. Qed.

(** Cooldowns are written in RFC 3339: compared as text with SQLite's format
    an expired one holds until the end of its day. *)
Lemma rfc3339_cooldown_outlives :
  let db := mkTables [] [mkProviderRow "p" 1 "account"] [] [demo_combo_row 4 "c"; demo_combo_row 5 "d"]
              [demo_target_row 10 4 "p" None (Some 5) None]
              [mkCooldownColumns 10 "2026-01-02T10:00:00+00:00"] in
  let later := "2026-01-02 23:00:00"%string in
  (t_id <$> first_target (demo_resolve db later "c" None)) = Some 10
  /\ first_target (demo_resolve_snap db later later "c" None) = None.
Proof. by vm_compute. Qed.

(** The cooldowns of models are evaluated when the snapshot is built: one that
    runs out afterwards goes on excluding the model's targets. *)
Lemma model_cooldown_frozen :
  let db := demo_tables "2026-01-02 10:00:00" in
  let built := "2026-01-02 09:00:00"%string in
  let later := "2026-01-03 12:00:00"%string in
  (t_id <$> first_target (demo_resolve db later "nerd" None)) = Some 10
  /\ (t_id <$> first_target (demo_resolve_snap db built later "nerd" None)) = Some 11.
Proof. by vm_compute. Qed.
