(* ===== verification/SnapshotCache.v ===== *)
(** * The cache of the routing snapshot

    Models the critical sections of [get_snapshot] of
    openproxy-core/src/routing/snapshot.rs over the versions it compares: the
    routing epochs of the writer's update hook, the write epoch of its commit
    hook, the modification times of the database file and
    [PRAGMA data_version] on the probe connection, which is [None] when the
    probe is locked or missing ([DbPool::external_version] of
    openproxy-db/src/conn.rs).

    The lemmas say exactly when a cached snapshot is served.  The hooks and the
    write of the WAL come before a commit is visible, so no version taken alone
    tells that the tables are those of the snapshot. *)

From Stdlib Require Import Ascii String.
From S2P Require Import Prelude Types Errors ComboTree Resolution Snapshot.

Definition MIN_REBUILD_MS : Z := 50.

(** What [probe_versions] returns. *)
Record Versions := mkVersions {
  v_config : Z;
  v_cooldown : Z;
  v_file : Z * Z;
  v_write : Z
}.

Record SnapshotState := mkSnapshotState {
  st_db_key : string;
  st_versions : Versions;
  st_external_version : option Z;
  st_snap : RoutingSnapshot
}.

Definition set_baseline (v : Versions) (st : SnapshotState) : SnapshotState :=
  mkSnapshotState (st_db_key st)
    (mkVersions (v_config (st_versions st)) (v_cooldown (st_versions st)) (v_file v) (v_write v))
    (st_external_version st) (st_snap st).

(** The first critical section of [get_snapshot]: the cache as it leaves it
    and the snapshot it returns, if it returns. *)
Definition fast_path (key : string) (v : Versions) (external : option Z) (millis last_rebuilt : Z)
    (guard : option SnapshotState) : option SnapshotState * option RoutingSnapshot :=
  match guard with
  | None => (None, None)
  | Some st =>
      if negb (String.eqb (st_db_key st) key) then (Some st, None)
      else
        let old := st_versions st in
        let file_moved := negb (bool_decide (v_file old = v_file v)) in
        let external_write :=
          file_moved && ((v_write old =? v_write v)
                         || negb (bool_decide (st_external_version st = external))) in
        if external_write then (Some st, None)
        else
          let st' := if file_moved then set_baseline v st else st in
          if (v_config old =? v_config v) && (v_cooldown old =? v_cooldown v)
          then (Some st', Some (st_snap st))
          else if (v_config old =? v_config v) && (sat_sub millis last_rebuilt <? MIN_REBUILD_MS)
          then (Some st', Some (st_snap st))
          else (Some st', None)
  end.

(** The check of the builder under the [REBUILD] lock. *)
Definition recheck (key : string) (v : Versions) (guard : option SnapshotState)
    : option RoutingSnapshot :=
  match guard with
  | Some st =>
      let old := st_versions st in
      if String.eqb (st_db_key st) key && bool_decide (v_file old = v_file v)
         && (v_write old =? v_write v) && (v_config old =? v_config v)
         && (v_cooldown old =? v_cooldown v)
      then Some (st_snap st) else None
  | None => None
  end.

(** What the builder leaves behind. *)
Definition store (key : string) (v : Versions) (external : option Z) (snap : RoutingSnapshot)
    : option SnapshotState :=
  Some (mkSnapshotState key v external snap).

(** ** When a cached snapshot is served *)

(** The fast path serves the snapshot of the same file whose configuration
    epoch is the current one, whose cooldown epoch is too or was taken less
    than 50 ms ago, and whose file has not moved, or has moved with the write
    epoch while the data version is what it was. *)
Lemma fast_path_serves key v external millis last_rebuilt st snap :
  (fast_path key v external millis last_rebuilt (Some st)).2 = Some snap <->
  snap = st_snap st /\ st_db_key st = key /\ v_config (st_versions st) = v_config v
  /\ (v_cooldown (st_versions st) = v_cooldown v \/ sat_sub millis last_rebuilt < MIN_REBUILD_MS)
  /\ (v_file (st_versions st) = v_file v
      \/ (v_write (st_versions st) <> v_write v /\ st_external_version st = external)).
Proof.
  unfold fast_path. destruct (String.eqb_spec (st_db_key st) key) as [Hk|Hk]; simpl; [|naive_solver].
  destruct (Z.eqb_spec (v_config (st_versions st)) (v_config v)) as [Hc|Hc],
    (Z.eqb_spec (v_cooldown (st_versions st)) (v_cooldown v)) as [Hd|Hd],
    (Z.eqb_spec (v_write (st_versions st)) (v_write v)) as [Hw|Hw],
    (Z.ltb_spec (sat_sub millis last_rebuilt) MIN_REBUILD_MS) as [Hm|Hm];
    repeat (case_bool_decide; simpl); naive_solver lia.
Qed.

(** The builder is spared when nothing moved at all. *)
Lemma recheck_serves key v guard snap :
  recheck key v guard = Some snap <->
  exists st, guard = Some st /\ snap = st_snap st /\ st_db_key st = key /\ st_versions st = v.
Proof.
  unfold recheck. destruct guard as [st|]; [|naive_solver].
  destruct (_ && _) eqn:E; [|split; [done|]].
  - rewrite !andb_true_iff, String.eqb_eq, bool_decide_eq_true, !Z.eqb_eq in E.
    destruct st as [k [] e sn], v; simpl in *.
    destruct E as [[[[-> ->] ->] ->] ->]. split; [intros [= <-]; by eexists|]. by intros (st & [= <-] & -> & _).
  - intros (st' & [= <-] & _ & Hk & Hv). exfalso. apply not_true_iff_false in E. apply E.
    rewrite Hk, Hv, String.eqb_refl, !Z.eqb_refl, bool_decide_eq_true_2 by done. done.
Qed.

(** A snapshot that was just stored is served to the next request. *)
Lemma stored_is_served key v external millis last_rebuilt snap :
  (fast_path key v external millis last_rebuilt (store key v external snap)).2 = Some snap.
Proof. apply fast_path_serves. naive_solver. Qed.

(** A probe that is locked when the snapshot is stored and when it is asked for
    compares equal: a file that moved together with the write epoch counts as
    written by this process alone, and a foreign commit goes unseen. *)
Lemma contended_probe_hides_foreign_commit key v file w millis last_rebuilt snap :
  v_write v <> w ->
  (fast_path key (mkVersions (v_config v) (v_cooldown v) file w) None millis last_rebuilt
     (store key v None snap)).2 = Some snap.
Proof. intros Hw. apply fast_path_serves. naive_solver. Qed.
