(* ===== verification/AccessControl.v ===== *)
(** * What an API key may reach

    Models openproxy-core/src/api_keys/matching.rs (patterns and the three
    permission checks of a key), the authentication of a chat request in
    openproxy-server/src/middleware/auth.rs and the restriction of its routing
    plan in openproxy-server/src/middleware/routing.rs.

    How a key is found (the cache, the table and the hash of the token) and
    chrono's timestamp parser are parameters; the stamp of the last use and
    the usage row of an unknown model are left out. *)

From Stdlib Require Import Ascii String.
From S2P Require Import Prelude Types Text Errors ComboTree Resolution Snapshot.

(** ** Strings *)

(** [s.strip_suffix(c)]. *)
Fixpoint strip_suffix_char (c : ascii) (s : string) : option string :=
  match s with
  | EmptyString => None
  | String a EmptyString => if Ascii.eqb a c then Some EmptyString else None
  | String a s' => String a <$> strip_suffix_char c s'
  end.

(** [s.strip_prefix(c)]. *)
Definition strip_prefix_char (c : ascii) (s : string) : option string :=
  match s with
  | String a s' => if Ascii.eqb a c then Some s' else None
  | EmptyString => None
  end.

(** [str::ends_with]. *)
Fixpoint ends_with (q s : string) : bool :=
  String.eqb q s || match s with String _ s' => ends_with q s' | EmptyString => false end.

(** ** Keys (api_keys/models.rs, matching.rs) *)

Record ApiKey := mkApiKey {
  k_id : Z;
  k_scopes : list string;
  k_allowed_models : option (list string);
  k_allowed_combos : option (list Z);
  k_blacklisted_providers : option (list string);
  k_allowed_providers : option (list string);
  k_blacklisted_models : option (list string);
  k_only_whitelisted : bool;
  k_is_active : bool;
  k_expires_at : option string
}.

Definition matches_model_spec (spec candidate : string) : bool :=
  if String.eqb spec "*" || String.eqb spec candidate then true
  else if match strip_suffix_char "*" spec with Some p => starts_with p candidate | None => false end then true
  else match strip_prefix_char "*" spec with Some q => ends_with q candidate | None => false end.

Definition model_matches_pattern (pattern model bare_model : string) (full_id : option string) : bool :=
  matches_model_spec pattern model || matches_model_spec pattern bare_model
  || match full_id with Some f => matches_model_spec pattern f | None => false end.

Definition is_provider_blacklisted (blacklisted : option (list string)) (provider : option string) : bool :=
  match blacklisted, provider with
  | Some bp, Some p => existsb (fun b => String.eqb b p || String.eqb b "*") bp
  | _, _ => false
  end.

Definition is_provider_in_allowlist (allowed : option (list string)) (provider : option string) : bool :=
  match allowed with
  | None | Some [] => true
  | Some ap =>
      match provider with
      | Some p => existsb (fun a => String.eqb a p || String.eqb a "*") ap
      | None => false
      end
  end.

Definition is_model_blocked_by_blacklist (blacklisted : option (list string)) (model bare_model : string)
    (full_id : option string) : bool :=
  match blacklisted with
  | Some l => existsb (fun b => model_matches_pattern b model bare_model full_id) l
  | None => false
  end.

(** The provider named by the model string and the rest of it. *)
Definition split_model (model : string) : option string * string :=
  match split_once_char "/" model with Some (p, m) => (Some p, m) | None => (None, model) end.

(** [provider/model], unless the string already begins with the provider. *)
Definition full_id_of (provider : option string) (model : string) : option string :=
  match provider with
  | Some p => if starts_with (p +:+ "/")%string model then None else Some (p +:+ "/" +:+ model)%string
  | None => None
  end.

Definition is_model_allowed (k : ApiKey) (model : string) (provider_id : option string) : bool :=
  let '(prov_from_model, bare_model) := split_model model in
  let effective_prov := match provider_id with Some p => Some p | None => prov_from_model end in
  let full_id := full_id_of effective_prov model in
  let is_model_blacklisted :=
    is_model_blocked_by_blacklist (k_blacklisted_models k) model bare_model full_id in
  let explicitly_allowed :=
    match k_allowed_models k with
    | Some allowed => existsb (fun m => model_matches_pattern m model bare_model full_id) allowed
    | None => false
    end in
  if k_only_whitelisted k then explicitly_allowed && negb is_model_blacklisted
  else if starts_with "combo:" model || bool_decide (effective_prov = None) then negb is_model_blacklisted
  else if explicitly_allowed then true
  else if is_model_blacklisted then false
  else if is_provider_blacklisted (k_blacklisted_providers k) provider_id
          || is_provider_blacklisted (k_blacklisted_providers k) prov_from_model then false
  else is_provider_in_allowlist (k_allowed_providers k) provider_id
       || is_provider_in_allowlist (k_allowed_providers k) prov_from_model.

Definition is_provider_allowed (k : ApiKey) (provider_id : string) : bool :=
  if is_provider_blacklisted (k_blacklisted_providers k) (Some provider_id) then false
  else match k_allowed_providers k with
       | Some ((_ :: _) as allowed) => existsb (fun p => String.eqb p provider_id || String.eqb p "*") allowed
       | _ => true
       end.

Definition is_combo_allowed (k : ApiKey) (combo_id : Z) : bool :=
  match k_allowed_combos k with
  | Some ((_ :: _) as allowed) => existsb (Z.eqb combo_id) allowed
  | _ => true
  end.

(** ** Authentication (middleware/auth.rs) *)

(** What the process knows when a request arrives: the key of a token, keys by
    id, the number of active keys, the configuration and the time. *)
Record AuthEnv := mkAuthEnv {
  key_by_token : string -> Result (option ApiKey);
  key_by_id : Z -> Result (option ApiKey);
  count_active : Result Z;
  allow_anonymous : bool;
  parse_timestamp : string -> option Z;
  clock : Z
}.

(** The headers the two middlewares read, as text. *)
Record Headers := mkHeaders {
  h_authorization : option string;
  h_x_api_key : option string;
  h_key_id : option string;
  h_combo : option string;
  h_provider : option string;
  h_account : option string
}.

Definition non_empty (o : option string) : option string :=
  match o with Some s => if String.eqb s "" then None else Some s | None => None end.

Definition extract_bearer_or_api_key_token (h : Headers) : option string :=
  non_empty (match trim <$> (h_authorization h ≫= strip_str_prefix "Bearer ") with
             | Some t => Some t
             | None => trim <$> h_x_api_key h
             end).

Definition is_expired (env : AuthEnv) (expires_at : string) : Result bool :=
  match parse_timestamp env expires_at with
  | Some dt => inl (dt <=? clock env)
  | None => inr (Internal "expires_at check")
  end.

Definition validate_key_record (env : AuthEnv) (k : ApiKey) (scope : string) : Result unit :=
  if negb (k_is_active k) then inr (Auth "api key revoked or inactive")
  else rbind (match k_expires_at k with Some e => is_expired env e | None => inl false end) (fun expired =>
    if expired then inr (Auth "api key expired")
    else if existsb (String.eqb scope) (k_scopes k) then inl tt
    else inr (Auth "api key lacks required scope")).

Definition verify_key_credentials (env : AuthEnv) (token scope : string) : Result ApiKey :=
  match key_by_token env token with
  | inl (Some k) => rbind (validate_key_record env k scope) (fun _ => inl k)
  | inl None | inr _ => inr (Auth "invalid api key")
  end.

Definition check_anonymous_fallback (env : AuthEnv) : Result (option ApiKey) :=
  match count_active env with
  | inl active => if (active =? 0) && allow_anonymous env then inl None else inr (Auth "missing api key")
  | inr _ => inr (Auth "missing api key")
  end.

Definition authenticate (env : AuthEnv) (h : Headers) : Result (option ApiKey) :=
  match extract_bearer_or_api_key_token h with
  | None => check_anonymous_fallback env
  | Some token =>
      rbind (match verify_key_credentials env token "chat" with
             | inl k => inl k
             | inr e => match verify_key_credentials env token "manage" with
                        | inl admin => inl admin
                        | inr _ => inr e
                        end
             end) (fun k =>
        match (if existsb (String.eqb "manage") (k_scopes k)
               then h_key_id h ≫= (fun s => parse_i64 (trim s)) else None) with
        | Some id =>
            match key_by_id env id with
            | inr _ => inr (Auth "invalid simulated api key")
            | inl None => inr (Auth ("api key id #" +:+ pretty.pretty id +:+ " not found"))
            | inl (Some target) => rbind (validate_key_record env target "chat") (fun _ => inl (Some target))
            end
        | None => inl (Some k)
        end)
  end.

(** ** Routing (middleware/routing.rs) *)

Definition provider_header (h : Headers) : option string := non_empty (trim <$> h_provider h).
Definition account_header (h : Headers) : option Z := h_account h ≫= (fun s => parse_i64 (trim s)).

Record PreResolvedRoutingPlan := mkPreResolved {
  pre_model : string;
  pre_combo : option string;
  pre_provider : option string;
  pre_account : option Z;
  pre_plan : RoutingPlan
}.

Definition matches_request (p : PreResolvedRoutingPlan) (model : string) (combo provider : option string)
    (account : option Z) : bool :=
  String.eqb (pre_model p) model && bool_decide (pre_combo p = combo)
  && bool_decide (pre_provider p = provider) && bool_decide (pre_account p = account).

Definition has_restrictions (k : ApiKey) : bool :=
  bool_decide (is_Some (k_blacklisted_providers k)) || bool_decide (is_Some (k_allowed_providers k))
  || bool_decide (is_Some (k_blacklisted_models k))
  || match k_allowed_models k with Some (_ :: _) => true | _ => false end.

Section routing.
Context (datetime : string -> option string) (accounts_of_json : string -> option (list Z))
        (conversion : Z -> string).

(** [snap] is the answer of [get_snapshot]. *)
Definition resolve_raw_routing_plan (db : Tables) (snap : Result RoutingSnapshot) (now : string)
    (legacy_combo_name provider_override : option string) (account_override : option Z) (model : string)
    : Result RoutingPlan :=
  match legacy_combo_name with
  | Some name =>
      rbind (get_combo_by_name conversion db name) (fun oc =>
        match oc with
        | None => inr (ComboNotFound 0)
        | Some c =>
            rbind (db_list_targets datetime accounts_of_json conversion db now (c_id c)) (fun targets =>
              inl (PlanCombo (c_id c) (c_name c) (c_strategy c) (c_race_size c)
                (match account_override ≫= account_row db with
                 | Some a =>
                     filter (fun t => t_provider_id t = ar_provider_id a \/ is_Some (t_sub_combo_id t))
                       ((fun t => if String.eqb (t_provider_id t) (ar_provider_id a)
                                  then set_account account_override t else t) <$> targets)
                 | None => targets
                 end)))
        end)
  | None =>
      match snap with
      | inl s => inl (resolve_with_options_snap s now model provider_override account_override)
      | inr _ => resolve_with_options datetime accounts_of_json conversion db now model
                   provider_override account_override
      end
  end.

(** Whether a target of a plan is kept for the key. *)
Definition target_kept (db : Tables) (k : ApiKey) (combo_id : Z) (t : ComboTarget) : bool :=
  if is_provider_blacklisted (k_blacklisted_providers k) (Some (t_provider_id t)) then false
  else if match k_allowed_combos k with Some ac => existsb (Z.eqb combo_id) ac | None => false end then true
  else match t_model_row_id t ≫= model_row db with
       | Some m => is_model_allowed k (mr_model_id m) (Some (t_provider_id t))
       | None => is_provider_allowed k (t_provider_id t)
       end.

Definition filter_combo_targets_by_auth (db : Tables) (k : ApiKey) (combo_id : Z)
    (targets : list ComboTarget) : Result (list ComboTarget) :=
  match filter (fun t => target_kept db k combo_id t = true) targets with
  | [] => inr (Auth "all upstream targets in combo are restricted for this key")
  | ts => inl ts
  end.

Definition apply_auth_restrictions_to_plan (db : Tables) (k : ApiKey) (plan : RoutingPlan)
    : Result (RoutingPlan * bool) :=
  match plan with
  | PlanNotFound _ _ => inl (plan, false)
  | PlanCombo cid name st race targets =>
      if negb (cid =? SYNTHETIC_COMBO_ID) && negb (is_combo_allowed k cid)
      then inr (Auth "combo not allowed for this key")
      else if has_restrictions k
      then rbind (filter_combo_targets_by_auth db k cid targets) (fun ts =>
             inl (PlanCombo cid name st race ts, true))
      else inl (plan, false)
  end.

(** The restriction of a plan for whoever asked. *)
Definition restrict (db : Tables) (auth : option ApiKey) (plan : RoutingPlan) : Result (RoutingPlan * bool) :=
  match auth with
  | Some k => apply_auth_restrictions_to_plan db k plan
  | None => inl (plan, false)
  end.

(** The route: the combo to run, a combo of its own for a direct model, and
    the targets when they are not the combo's. *)
Definition translate_plan_to_targets (plan : RoutingPlan) (has_key_restrictions : bool)
    : Result (Z * option Combo * option (list ComboTarget)) :=
  match plan with
  | PlanCombo cid name st race targets =>
      if cid =? SYNTHETIC_COMBO_ID then
        inl (cid, Some (mkCombo cid name st race false "" None None Strict CooldownFlat
                          None None None None None None None None None None), Some targets)
      else if has_key_restrictions then inl (cid, None, Some targets)
      else inl (cid, None, None)
  | PlanNotFound model hint =>
      inr (ModelNotFound "<unknown>"
             ("model not found: " +:+ model
              +:+ match hint with Some h => " (hint: " +:+ h +:+ ")" | None => "" end)%string)
  end.

Definition routing_middleware (db : Tables) (snap : Result RoutingSnapshot) (now : string) (h : Headers)
    (model : string) (pre : option PreResolvedRoutingPlan) (auth : option ApiKey)
    : Result (Z * option Combo * option (list ComboTarget)) :=
  let fresh := rbind (resolve_raw_routing_plan db snap now (h_combo h) (provider_header h)
                        (account_header h) model) (restrict db auth) in
  rbind (match pre with
         | Some p => if matches_request p model (h_combo h) (provider_header h) (account_header h)
                     then restrict db auth (pre_plan p) else fresh
         | None => fresh
         end)
    (fun '(plan, restricted) => translate_plan_to_targets plan restricted).

(** The authorization of a parsed chat request: the plan for the next
    middleware. *)
Definition verify_combo_authorization (db : Tables) (now : string) (k : ApiKey) (model : string)
    : Result (option RoutingPlan) :=
  match resolve datetime accounts_of_json conversion db now model with
  | inl ((PlanCombo cid _ _ _ _) as plan) =>
      if negb (cid =? SYNTHETIC_COMBO_ID) && negb (is_combo_allowed k cid)
      then inr (Auth "combo not allowed for this key") else inl (Some plan)
  | inl plan => inl (Some plan)
  | inr _ => inl None
  end.

Definition authorize_model (db : Tables) (now : string) (auth : option ApiKey) (model : string)
    : Result (option PreResolvedRoutingPlan) :=
  match auth with
  | None => inl None
  | Some k =>
      if negb (existsb (fun s => String.eqb s "chat" || String.eqb s "manage") (k_scopes k))
      then inr (Auth "api key lacks required scope")
      else if negb (is_model_allowed k model None)
      then inr (Auth ("model '" +:+ model +:+ "' not allowed or blacklisted for this key"))
      else rbind (verify_combo_authorization db now k model) (fun plan =>
             inl ((fun p => mkPreResolved model None None None p) <$> plan))
  end.

(** A chat request from its headers and its model to its route. *)
Definition route_chat_request (env : AuthEnv) (db : Tables) (snap : Result RoutingSnapshot) (now : string)
    (h : Headers) (model : string) : Result (option ApiKey * (Z * option Combo * option (list ComboTarget))) :=
  rbind (authenticate env h) (fun auth =>
    rbind (authorize_model db now auth model) (fun pre =>
      rbind (routing_middleware db snap now h model pre auth) (fun route => inl (auth, route)))).

End routing.

(** ** The policy of a key *)

(** A pattern is a name, a prefix followed by a star or a star followed by a
    suffix. *)
Definition glob_matches (spec name : string) : Prop :=
  spec = name
  \/ (exists p r, spec = (p +:+ "*")%string /\ name = (p +:+ r)%string)
  \/ (exists q l, spec = ("*" +:+ q)%string /\ name = (l +:+ q)%string).

(** The names a model of a provider goes by. *)
Definition model_names (provider : option string) (model : string) : list string :=
  [model; (split_model model).2] ++ option_list (full_id_of provider model).

Definition listed (patterns : option (list string)) (provider : option string) (model : string) : Prop :=
  exists l pat name, patterns = Some l /\ pat ∈ l /\ name ∈ model_names provider model
    /\ glob_matches pat name.

Definition provider_listed (providers : option (list string)) (provider : string) : Prop :=
  exists l, providers = Some l /\ (provider ∈ l \/ "*"%string ∈ l).

(** No list of providers, or an empty one. *)
Definition unlisted (providers : option (list string)) : Prop := providers = None \/ providers = Some [].

(** What a key permits of a provider's model.  The provider is the target's
    own; a provider named in the model's id counts as well. *)
Definition permitted (k : ApiKey) (provider model : string) : Prop :=
  let named p := p = provider \/ (split_model model).1 = Some p in
  if k_only_whitelisted k
  then listed (k_allowed_models k) (Some provider) model
       /\ ~ listed (k_blacklisted_models k) (Some provider) model
  else if starts_with "combo:" model
  then ~ listed (k_blacklisted_models k) (Some provider) model
  else listed (k_allowed_models k) (Some provider) model
       \/ ~ listed (k_blacklisted_models k) (Some provider) model
          /\ (forall p, named p -> ~ provider_listed (k_blacklisted_providers k) p)
          /\ (unlisted (k_allowed_providers k) \/ exists p, named p /\ provider_listed (k_allowed_providers k) p).

(** ** Strings *)

Lemma prefix_spec p s : starts_with p s = true <-> exists r, s = (p +:+ r)%string.
Proof.
  unfold starts_with. revert s; induction p as [|a p IH]; intros s.
  - split; [by exists s|]. by destruct s.
  - destruct s as [|b s]; [split; [done|]; by intros [r ?]|].
    change (String.prefix (String a p) (String b s)) with (if ascii_dec a b then String.prefix p s else false).
    destruct (ascii_dec a b) as [->|Hne].
    + rewrite IH. split; intros [r Hr]; exists r; [by rewrite Hr|by injection Hr].
    + split; [done|]. intros [r Hr]. by injection Hr.
Qed.

Lemma suffix_spec q s : ends_with q s = true <-> exists l, s = (l +:+ q)%string.
Proof.
  induction s as [|a s IH]; simpl; rewrite orb_true_iff, String.eqb_eq.
  - split; [intros [->|?]; [by exists ""%string|done]|]. intros [l Hl]. left.
    destruct l; [by rewrite Hl|done].
  - rewrite IH. split.
    + intros [->|[l ->]]; [by exists ""%string|]. by exists (String a l).
    + intros [[|b l] Hl]; [by left|]. right. exists l. by injection Hl.
Qed.

Lemma strip_suffix_char_spec c s p :
  strip_suffix_char c s = Some p <-> s = (p +:+ String c "")%string.
Proof.
  revert p; induction s as [|a s IH]; intros p; [by destruct p|].
  destruct s as [|b s].
  - simpl. destruct (Ascii.eqb_spec a c) as [->|Hne].
    + split; [by intros [= <-]|]. destruct p as [|x [|y p]]; simpl; intros [=]; done.
    + split; [done|]. destruct p as [|x [|y p]]; simpl; intros [=]; done.
  - change (strip_suffix_char c (String a (String b s)))
      with (String a <$> strip_suffix_char c (String b s)).
    rewrite fmap_Some. setoid_rewrite IH. split.
    + intros (p' & -> & ->). done.
    + destruct p as [|x p]; simpl; intros [= -> Hp]. by exists p.
Qed.

Lemma matches_model_spec_iff spec name : matches_model_spec spec name = true <-> glob_matches spec name.
Proof.
  unfold matches_model_spec, glob_matches.
  assert ((match strip_suffix_char "*" spec with Some p => starts_with p name | None => false end) = true
          <-> exists p r, spec = (p +:+ "*")%string /\ name = (p +:+ r)%string) as Hp.
  { destruct (strip_suffix_char "*" spec) as [p|] eqn:E.
    - rewrite prefix_spec. apply strip_suffix_char_spec in E. subst spec. split.
      + intros [r ->]. by exists p, r.
      + intros (p' & r & Hp' & ->). exists r.
        assert (Some p' = Some p) as [= ->]; [|done].
        rewrite <- (proj2 (strip_suffix_char_spec "*" _ p') Hp'). by apply strip_suffix_char_spec.
    - split; [done|]. intros (p & r & -> & _).
      rewrite (proj2 (strip_suffix_char_spec "*" _ p) eq_refl) in E. done. }
  assert ((match strip_prefix_char "*" spec with Some q => ends_with q name | None => false end) = true
          <-> exists q l, spec = ("*" +:+ q)%string /\ name = (l +:+ q)%string) as Hq.
  { destruct spec as [|a spec]; simpl; [split; [done|]; by intros (q & l & ? & _)|].
    destruct (Ascii.eqb_spec a "*") as [->|Hne].
    - rewrite suffix_spec. split; [intros [l ->]; by exists spec, l|].
      intros (q & l & [= ->] & ->). by exists l.
    - split; [done|]. intros (q & l & [=] & _). done. }
  rewrite <- Hp, <- Hq. destruct (String.eqb_spec spec "*") as [->|H1]; simpl.
  { split; [|done]. intros _. right; left. by apply prefix_spec; exists name. }
  destruct (String.eqb_spec spec name) as [->|H2]; simpl; [split; [by left|done]|].
  repeat case_match; naive_solver.
Qed.

(** ** The checks compute the policy *)

Lemma pattern_listed patterns provider model :
  match patterns with
  | Some l => existsb (fun b => model_matches_pattern b model (split_model model).2 (full_id_of provider model)) l
  | None => false
  end = true <-> listed patterns provider model.
Proof.
  unfold listed. destruct patterns as [l|]; [|naive_solver].
  rewrite existsb_exists. setoid_rewrite <- list_elem_of_In.
  assert (forall b, model_matches_pattern b model (split_model model).2 (full_id_of provider model) = true
    <-> exists name, name ∈ model_names provider model /\ glob_matches b name) as Hm.
  { intros b. unfold model_matches_pattern, model_names. rewrite !orb_true_iff, !matches_model_spec_iff.
    destruct (full_id_of provider model) as [f|]; simpl; rewrite ?matches_model_spec_iff; set_solver. }
  setoid_rewrite Hm. naive_solver.
Qed.

Lemma blacklist_listed patterns provider model :
  is_model_blocked_by_blacklist patterns model (split_model model).2 (full_id_of provider model) = true
  <-> listed patterns provider model.
Proof. apply pattern_listed. Qed.

Lemma provider_list_spec l p :
  existsb (fun b => String.eqb b p || String.eqb b "*") l = true <-> provider_listed (Some l) p.
Proof.
  rewrite existsb_exists. setoid_rewrite <- list_elem_of_In. setoid_rewrite orb_true_iff.
  setoid_rewrite String.eqb_eq. unfold provider_listed. naive_solver.
Qed.

Lemma blacklisted_spec l p : is_provider_blacklisted l (Some p) = true <-> provider_listed l p.
Proof.
  destruct l as [l|]; simpl; [apply provider_list_spec|].
  split; [done|]. by intros (l & ? & _).
Qed.

Lemma allowlist_spec l o :
  is_provider_in_allowlist l o = true <-> unlisted l \/ exists p, o = Some p /\ provider_listed l p.
Proof.
  unfold unlisted. destruct l as [[|a l]|]; simpl; [split; [by auto|done]| |split; [by auto|done]].
  destruct o as [p|]; [|naive_solver].
  change (String.eqb a p || String.eqb a "*" || existsb (fun a => String.eqb a p || String.eqb a "*") l)
    with (existsb (fun a => String.eqb a p || String.eqb a "*") (a :: l)).
  rewrite provider_list_spec. naive_solver.
Qed.

Lemma blacklisted_none l : is_provider_blacklisted l None = false.
Proof. by destruct l. Qed.

Lemma is_model_allowed_spec k model provider :
  is_model_allowed k model (Some provider) = true <-> permitted k provider model.
Proof.
  unfold is_model_allowed, permitted.
  pose proof (pattern_listed (k_allowed_models k) (Some provider) model) as Ha.
  pose proof (blacklist_listed (k_blacklisted_models k) (Some provider) model) as Hb.
  destruct (split_model model) as [named bare] eqn:Es; simpl in Ha, Hb |- *.
  set (allowed := match k_allowed_models k with Some _ => _ | None => false end) in *.
  set (blocked := is_model_blocked_by_blacklist _ _ _ _) in *.
  destruct (k_only_whitelisted k).
  { rewrite andb_true_iff, negb_true_iff, Ha, <- Hb. destruct blocked; naive_solver. }
  rewrite orb_false_r. destruct (starts_with "combo:" model).
  { rewrite negb_true_iff, <- Hb. destruct blocked; naive_solver. }
  destruct allowed; [naive_solver|].
  destruct blocked; [naive_solver|].
  pose proof (blacklisted_spec (k_blacklisted_providers k) provider) as Hp.
  assert (is_provider_blacklisted (k_blacklisted_providers k) named = true
          <-> exists p, named = Some p /\ provider_listed (k_blacklisted_providers k) p) as Hn.
  { destruct named as [p|]; [rewrite blacklisted_spec; naive_solver|].
    rewrite blacklisted_none. naive_solver. }
  destruct (is_provider_blacklisted _ (Some provider)); simpl; [naive_solver|].
  destruct (is_provider_blacklisted _ named).
  { destruct (proj1 Hn eq_refl) as (p & Hnamed & Hl). split; [done|].
    intros [H%Ha|(_ & Hno & _)]; [done|]. by destruct (Hno p); [right|]. }
  assert (forall p, p = provider \/ named = Some p -> ~ provider_listed (k_blacklisted_providers k) p) as Hclear.
  { intros p [->|Hnamed] Hl; [by apply Hp in Hl|]. assert (false = true); [|done]. apply Hn. by exists p. }
  rewrite orb_true_iff, !allowlist_spec. split.
  - intros Hal. right. split; [by rewrite <- Hb|]. split; [done|].
    destruct Hal as [[?|(p & [= <-] & ?)]|[?|(p & ? & ?)]]; eauto.
  - intros [Hl%Ha|(_ & _ & [?|(p & [->|?] & ?)])]; [done|..]; eauto 6.
Qed.

(** A key that may be used for [scope] now. *)
Definition valid_key (env : AuthEnv) (k : ApiKey) (scope : string) : Prop :=
  k_is_active k = true /\ scope ∈ k_scopes k
  /\ forall e, k_expires_at k = Some e -> exists dt, parse_timestamp env e = Some dt /\ clock env < dt.

(** The combo is among those a non-empty list of combos names. *)
Definition combo_named (k : ApiKey) (cid : Z) : Prop := exists l, k_allowed_combos k = Some l /\ cid ∈ l.

Definition combo_permitted (k : ApiKey) (cid : Z) : Prop :=
  k_allowed_combos k = None \/ k_allowed_combos k = Some [] \/ combo_named k cid.

(** What the key says about a target that is run: its provider is not
    blacklisted; its model is permitted, or its combo is named by the key, or
    it has no model and its provider is permitted. *)
Definition target_permitted (db : Tables) (k : ApiKey) (cid : Z) (t : ComboTarget) : Prop :=
  ~ provider_listed (k_blacklisted_providers k) (t_provider_id t)
  /\ (combo_named k cid
      \/ match t_model_row_id t ≫= model_row db with
         | Some m => permitted k (t_provider_id t) (mr_model_id m)
         | None => unlisted (k_allowed_providers k) \/ provider_listed (k_allowed_providers k) (t_provider_id t)
         end).

Lemma validate_spec_key env k scope : validate_key_record env k scope = inl tt -> valid_key env k scope.
Proof.
  unfold validate_key_record, valid_key, is_expired. destruct (k_is_active k); simpl; [|done].
  intros (expired & He & H)%rbind_inl. destruct expired; [done|].
  destruct (existsb _ _) eqn:Hs; [|done]. apply existsb_exists in Hs as (s & Hs & <-%String.eqb_eq).
  split_and!; [done|by apply list_elem_of_In|]. intros e Hexp. rewrite Hexp in He.
  destruct (parse_timestamp env e) as [dt|]; [|done]. injection He as He. exists dt. split; [done|]. zbool. lia.
Qed.

Lemma verify_spec env token scope k : verify_key_credentials env token scope = inl k -> valid_key env k scope.
Proof.
  unfold verify_key_credentials. destruct (key_by_token env token) as [[k'|]|]; [|done..].
  intros ([] & Hv & [= <-])%rbind_inl. by apply validate_spec_key.
Qed.

(** Nobody passes without a valid key, unless there is none to be had and the
    operator allows it. *)
Lemma authenticate_spec env h auth :
  authenticate env h = inl auth ->
  match auth with
  | Some k => valid_key env k "chat" \/ valid_key env k "manage"
  | None => extract_bearer_or_api_key_token h = None /\ count_active env = inl 0 /\ allow_anonymous env = true
  end.
Proof.
  unfold authenticate. destruct (extract_bearer_or_api_key_token h) as [token|].
  - intros (k & Hk & H)%rbind_inl.
    assert (valid_key env k "chat" \/ valid_key env k "manage") as Hv.
    { destruct (verify_key_credentials env token "chat") eqn:E1; simplify_eq; [left; by eapply verify_spec|].
      destruct (verify_key_credentials env token "manage") eqn:E2; simplify_eq. right. by eapply verify_spec. }
    destruct (if existsb _ _ then _ else _) as [id|]; simplify_eq; [|done].
    destruct (key_by_id env id) as [[k'|]|]; [|done..].
    apply rbind_inl in H as ([] & Hk' & [= <-]). left. by apply validate_spec_key.
  - unfold check_anonymous_fallback. destruct (count_active env) as [n|]; [|done].
    destruct (allow_anonymous env); rewrite ?andb_false_r, ?andb_true_r; [|done].
    destruct (Z.eqb_spec n 0) as [->|]; [|done]. by intros [= <-].
Qed.

Lemma combo_allowed_spec k cid : is_combo_allowed k cid = true <-> combo_permitted k cid.
Proof.
  unfold is_combo_allowed, combo_permitted, combo_named.
  destruct (k_allowed_combos k) as [[|a l]|]; [by split; auto| |by split; auto].
  rewrite existsb_exists. setoid_rewrite <- list_elem_of_In. setoid_rewrite Z.eqb_eq. split.
  - intros (x & Hx & ->). right; right. by exists (a :: l).
  - intros [?|[?|(l' & [= <-] & Hx)]]; [done..|]. by exists cid.
Qed.

Lemma provider_allowed_spec k p :
  is_provider_blacklisted (k_blacklisted_providers k) (Some p) = false -> is_provider_allowed k p = true ->
  unlisted (k_allowed_providers k) \/ provider_listed (k_allowed_providers k) p.
Proof.
  unfold is_provider_allowed, unlisted. intros ->.
  destruct (k_allowed_providers k) as [[|a l]|]; [auto| |auto]. intros H. right. by apply provider_list_spec.
Qed.

Lemma target_kept_spec db k cid t : target_kept db k cid t = true -> target_permitted db k cid t.
Proof.
  unfold target_kept, target_permitted. rewrite <- blacklisted_spec.
  destruct (is_provider_blacklisted _ _) eqn:Hb; [done|]. intros H. split; [done|].
  assert (match k_allowed_combos k with Some ac => existsb (Z.eqb cid) ac | None => false end = true
          -> combo_named k cid) as Hc.
  { unfold combo_named. destruct (k_allowed_combos k) as [ac|]; [|done].
    rewrite existsb_exists. setoid_rewrite <- list_elem_of_In. setoid_rewrite Z.eqb_eq.
    intros (x & Hx & ->). by exists ac. }
  destruct (match k_allowed_combos k with Some _ => _ | None => _ end); [by left; apply Hc|right].
  destruct (t_model_row_id t ≫= model_row db); [by apply is_model_allowed_spec|].
  by apply provider_allowed_spec.
Qed.

Lemma restrict_spec db k plan plan' restricted cid co targets :
  restrict db (Some k) plan = inl (plan', restricted) ->
  translate_plan_to_targets plan' restricted = inl (cid, co, targets) ->
  (cid = SYNTHETIC_COMBO_ID \/ combo_permitted k cid)
  /\ match targets with
     | None => has_restrictions k = false
     | Some ts => has_restrictions k = true -> ts <> [] /\ Forall (target_permitted db k cid) ts
     end.
Proof.
  destruct plan as [pid name st race ts|]; simpl; [|by intros [= <- <-]].
  destruct (Z.eqb_spec pid SYNTHETIC_COMBO_ID) as [->|Hne]; simpl.
  2: destruct (is_combo_allowed k pid) eqn:Hc; simpl; [|done].
  all: destruct (has_restrictions k); simpl;
    [intros (kept & Hf & [= <- <-])%rbind_inl|intros [= <- <-]]; simpl;
    rewrite ?(proj2 (Z.eqb_neq _ _) Hne); intros [= <- <- <-];
    (split; [first [by left|right; by apply combo_allowed_spec]|]); try done.
  all: intros _; unfold filter_combo_targets_by_auth in Hf;
    destruct (filter _ ts) as [|t0 ts0] eqn:E in Hf; simplify_eq; split; [done|];
    apply Forall_forall; intros t Ht; apply target_kept_spec;
    assert (t ∈ filter (fun t => target_kept db k _ t = true) ts) as [? _]%list_elem_of_filter
      by (by rewrite E); done.
Qed.

(** C18. Keys are enforced: a chat request that gets a route came with a key
    that is active, unexpired and of the right scope (or without one, where no
    key exists and anonymous use is allowed), asks for a model the key allows,
    runs a combo the key permits, and each target handed to the pipeline is
    permitted by the key; the targets of a combo are left to the pipeline only
    for keys without restrictions on models and providers. *)
Theorem key_restrictions_enforced datetime accounts_of_json conversion env db snap now h model
    auth cid co targets :
  route_chat_request datetime accounts_of_json conversion env db snap now h model
    = inl (auth, (cid, co, targets)) ->
  match auth with
  | None => extract_bearer_or_api_key_token h = None /\ count_active env = inl 0 /\ allow_anonymous env = true
  | Some k =>
      (valid_key env k "chat" \/ valid_key env k "manage")
      /\ is_model_allowed k model None = true
      /\ (cid = SYNTHETIC_COMBO_ID \/ combo_permitted k cid)
      /\ match targets with
         | None => has_restrictions k = false
         | Some ts => has_restrictions k = true -> ts <> [] /\ Forall (target_permitted db k cid) ts
         end
  end.
Proof.
  unfold route_chat_request. intros (auth' & Ha & H)%rbind_inl.
  apply rbind_inl in H as (pre & Hpre & H). apply rbind_inl in H as (route & Hr & [= -> ->]).
  apply authenticate_spec in Ha. destruct auth as [k|]; [|done]. split; [done|].
  unfold authorize_model in Hpre. destruct (negb (existsb _ _)); [done|].
  destruct (is_model_allowed k model None); [|done]. split; [done|].
  unfold routing_middleware in Hr. apply rbind_inl in Hr as ([plan restricted] & Hp & Ht).
  assert (exists plan0, restrict db (Some k) plan0 = inl (plan, restricted)) as [plan0 H0].
  { destruct pre as [p|]; [destruct (matches_request _ _ _ _ _)|]; [by eexists|..];
      apply rbind_inl in Hp as (plan0 & _ & Hp); by eexists. }
  by eapply restrict_spec.
Qed.

(** ** Requests *)

Definition demo_key : ApiKey :=
  mkApiKey 1 ["chat"%string] None None (Some ["bad"%string]) None (Some ["gpt-3*"%string]) false true
    (Some "2027-01-01"%string).

Definition demo_auth_env (k : ApiKey) : AuthEnv :=
  mkAuthEnv (fun t => inl (if String.eqb t "secret" then Some k else None)) (fun _ => inl None) (inl 1) true
    (fun _ => Some 100) 50.

Definition demo_headers : Headers := mkHeaders (Some "Bearer secret"%string) None None None None None.

(** A combo over a permitted model, a model of a blacklisted provider and one
    that a pattern excludes; a second combo that contains the blacklisted
    provider; a third that nests the second. *)
Definition demo_acl_tables : Tables :=
  mkTables
    [mkModelRow 1 "gpt-4" "good" 1; mkModelRow 2 "claude" "bad" 1; mkModelRow 3 "gpt-3.5" "good" 1]
    [mkProviderRow "good" 1 "account"; mkProviderRow "bad" 1 "account"] [mkAccountRow 7 "good" 0 "healthy"]
    [demo_combo_row 4 "mixed"; demo_combo_row 5 "inner"; demo_combo_row 6 "outer"]
    [demo_target_row 11 4 "good" (Some 1) None None; demo_target_row 12 4 "bad" (Some 2) None None;
     demo_target_row 13 4 "good" (Some 3) None None; demo_target_row 14 5 "bad" (Some 2) None None;
     demo_target_row 15 6 "good" None (Some 5) None] [].

Definition demo_route (k : ApiKey) (h : Headers) (model : string)
    : Result (option ApiKey * (Z * option Combo * option (list ComboTarget))) :=
  let now := "2026-01-02 10:00:00"%string in
  route_chat_request demo_datetime (fun _ => None) (fun _ => "conversion"%string) (demo_auth_env k)
    demo_acl_tables (build demo_datetime (fun _ => None) (fun _ => "conversion"%string) demo_acl_tables now)
    now h model.

Definition demo_routed : list ComboTarget :=
  [mkTarget 11 4 "good" None (Some 1) None 11 1 true ScopeAccount None None None None None None None None None].

Lemma key_restrictions_enforced_witness :
  target_permitted demo_acl_tables demo_key 4 (hd default_target demo_routed)
  /\ valid_key (demo_auth_env demo_key) demo_key "chat".
Proof.
  assert (demo_route demo_key demo_headers "mixed" = inl (Some demo_key, (4, None, Some demo_routed))) as Hr
    by (by vm_compute).
  destruct (key_restrictions_enforced _ _ _ _ _ _ _ _ _ _ _ _ _ Hr) as (_ & _ & _ & Ht).
  split; [by destruct (Ht eq_refl) as [_ Hts]; inversion Hts|].
  split_and!; [done|left|]. intros e _. by exists 100.
Defined.

(** The restrictions look at the targets of the plan, before nested combos are
    replaced by theirs: a target of a blacklisted provider inside a nested
    combo reaches the pipeline. *)
Lemma nested_combo_escapes_blacklist :
  let cdb := mkComboDb (db_list_targets demo_datetime (fun _ => None) (fun _ => "conversion"%string)
                          demo_acl_tables "2026-01-02 10:00:00")
               (fun _ => inl []) (fun _ => inl None) (fun _ => inl None) (fun _ _ _ => inl [])
               (fun _ => None) (fun _ => None) in
  exists ts, demo_route demo_key demo_headers "outer" = inl (Some demo_key, (6, None, Some ts))
    /\ exists out, flatten_targets cdb 6 ts = Some (inl out)
         /\ Exists (fun t => provider_listed (k_blacklisted_providers demo_key) (t_provider_id t)) out.
Proof.
  eexists. split; [by vm_compute|]. eexists. split; [by vm_compute|].
  left. exists ["bad"%string]. split; [done|]. left. by left.
Qed.

(** An entry of [allowed_models] opens a model of a blacklisted provider in
    [is_model_allowed], but the filter of the plan denies it. *)
Lemma allowed_model_of_blacklisted_provider :
  let k := mkApiKey 1 ["chat"%string] (Some ["bad/claude"%string]) None (Some ["bad"%string]) None None
             false true None in
  is_model_allowed k "bad/claude" None = true
  /\ demo_route k demo_headers "bad/claude"
     = inr (Auth "all upstream targets in combo are restricted for this key").
Proof. by vm_compute. Qed.

(** A list of allowed providers is satisfied by a provider named in the
    model's id, whoever serves it. *)
Lemma allowlist_satisfied_by_model_id :
  let k := mkApiKey 1 ["chat"%string] None None None (Some ["openai"%string]) None false true None in
  is_model_allowed k "openai/gpt-4" (Some "reseller"%string) = true
  /\ is_provider_allowed k "reseller" = false.
Proof. by vm_compute. Qed.

(** The account a request pins on a combo is dropped with the plan's targets
    when its key has no restrictions on models or providers. *)
Lemma pinned_account_dropped :
  let k := mkApiKey 1 ["chat"%string] None None None None None false true None in
  let h := mkHeaders (Some "Bearer secret"%string) None None None None (Some "7"%string) in
  demo_route k h "mixed" = inl (Some k, (4, None, None)).
Proof. by vm_compute. Qed.
