(* ===== verification/ComboEdit.v ===== *)
(** * Editing combos

    Models the writing half of openproxy-db/src/combos: crud.rs (creating,
    renaming, cloning and deleting combos), targets.rs (adding, deleting and
    reordering targets, with the search for cycles) and settings.rs (the
    updates of single columns), over the tables of Resolution.

    An edit takes the tables with the AUTOINCREMENT counters to new ones
    or fails and leaves them alone.  The constraints of migrations 000083 and
    000102 are part of the statements: a duplicate name or target and a target
    of an unknown provider are refused, deleting a row deletes those that refer
    to it.  serde_json's printer of account lists, the text of a constraint
    error and that of an [f64] are parameters.  The column [upstream_model_id]
    is not part of the tables. *)

From Stdlib Require Import Ascii String.
From stdpp Require Import pretty relations.
From S2P Require Import Prelude Types Text Errors ComboTree Resolution.

(** A row of [combo_target_system_prefixes]. *)
Record PrefixRow := mkPrefixRow {
  px_id : Z;
  px_target_id : Z;
  px_name : string;
  px_criteria : string;
  px_system_text : string;
  px_active : Z;
  px_priority_order : Z;
  px_created_at : string
}.

Record Editor := mkEditor {
  ed_tables : Tables;
  ed_prefixes : list PrefixRow;
  ed_combo_seq : Z;
  ed_target_seq : Z;
  ed_prefix_seq : Z
}.

Definition set_combos (cs : list ComboRow) (db : Tables) : Tables :=
  mkTables (models db) (providers db) (accounts db) cs (combo_targets db) (target_cooldowns db).

Definition set_combo_targets (ts : list TargetColumns) (db : Tables) : Tables :=
  mkTables (models db) (providers db) (accounts db) (combos db) ts (target_cooldowns db).

Definition edit_tables (f : Tables -> Tables) (s : Editor) : Editor :=
  mkEditor (f (ed_tables s)) (ed_prefixes s) (ed_combo_seq s) (ed_target_seq s) (ed_prefix_seq s).

Definition edit_prefixes (f : list PrefixRow -> list PrefixRow) (s : Editor) : Editor :=
  mkEditor (ed_tables s) (f (ed_prefixes s)) (ed_combo_seq s) (ed_target_seq s) (ed_prefix_seq s).

(** [DELETE FROM combo_targets] of the rows without [keep], with the cascade
    to their cooldowns and prefixes. *)
Definition keep_targets (keep : TargetColumns -> bool) (s : Editor) : Editor :=
  let db := ed_tables s in
  let gone := ct_id <$> filter (fun r => keep r = false) (combo_targets db) in
  edit_prefixes (filter (fun p => px_target_id p ∉ gone))
    (edit_tables (fun db =>
       mkTables (models db) (providers db) (accounts db) (combos db)
         (filter (fun r => keep r = true) (combo_targets db))
         (filter (fun c => tc_combo_target_id c ∉ gone) (target_cooldowns db))) s).

(** [UPDATE ... WHERE id = ?]. *)
Definition update_row {A} (key : A -> Z) (id : Z) (f : A -> A) (l : list A) : list A :=
  (fun r => if key r =? id then f r else r) <$> l.

Definition combo_exists (db : Tables) (id : Z) : bool := existsb (fun c => cr_id c =? id) (combos db).

(** ** Columns of an [UPDATE] *)

Inductive ComboColumn :=
  | CName (v : string)
  | CStrategy (v : string)
  | CRaceSize (v : Z)
  | CContextWindow (v : option Z)
  | CPriorityMode (v : option string)
  | CCooldownMode (v : option string)
  | CCooldownBase (v : option Z)
  | CCooldownMax (v : option Z)
  | CCooldownFactor (v : option Z)
  | CLkgpRate (v : option f64)
  | CSelectionWindow (v : option Z)
  | CPreventive (v : Z)
  | CDecisionModel (v : option string)
  | CDecisionTimeout (v : option Z)
  | CMaxOutputTokens (v : option Z)
  | CModalityGate (v : option Z)
  | CSanitizeResponse (v : option Z)
  | CRealModelId (v : option string).

Definition assign_combo (r : ComboRow) (a : ComboColumn) : ComboRow :=
  mkComboRow
    (cr_id r)
    (match a with CName v => v | _ => cr_name r end)
    (match a with CStrategy v => v | _ => cr_strategy r end)
    (match a with CRaceSize v => v | _ => cr_race_size r end)
    (cr_created_at r)
    (match a with CContextWindow v => v | _ => cr_context_window r end)
    (match a with CPriorityMode v => v | _ => cr_priority_mode r end)
    (match a with CCooldownMode v => v | _ => cr_cooldown_mode r end)
    (match a with CCooldownBase v => v | _ => cr_cooldown_base_secs r end)
    (match a with CCooldownMax v => v | _ => cr_cooldown_max_secs r end)
    (match a with CCooldownFactor v => v | _ => cr_cooldown_factor r end)
    (match a with CLkgpRate v => v | _ => cr_lkgp_exploration_rate r end)
    (match a with CSelectionWindow v => v | _ => cr_selection_window_secs r end)
    (match a with CPreventive v => Some v | _ => cr_preventive_rate_limit r end)
    (match a with CDecisionModel v => v | _ => cr_decision_model r end)
    (match a with CDecisionTimeout v => v | _ => cr_decision_timeout_ms r end)
    (match a with CMaxOutputTokens v => v | _ => cr_max_output_tokens r end)
    (match a with CModalityGate v => v | _ => cr_modality_gate r end)
    (match a with CSanitizeResponse v => v | _ => cr_sanitize_response r end)
    (match a with CRealModelId v => v | _ => cr_real_model_id r end).

Inductive TargetColumn :=
  | TPriority (v : Z)
  | TWeight (v : Z)
  | TActive (v : Z)
  | TCooldownMode (v : option string)
  | TCooldownBase (v : option Z)
  | TCooldownMax (v : option Z)
  | TCooldownFactor (v : option Z)
  | TThinkingEffort (v : option string)
  | TDescription (v : option string)
  | TSelectedAccounts (v : option string)
  | TClientProfile (v : option string).

Definition assign_target (r : TargetColumns) (a : TargetColumn) : TargetColumns :=
  mkTargetColumns
    (ct_id r)
    (ct_combo_id r)
    (ct_provider_id r)
    (ct_account_id r)
    (ct_model_row_id r)
    (ct_sub_combo_id r)
    (match a with TPriority v => v | _ => ct_priority_order r end)
    (match a with TWeight v => Some v | _ => ct_weight r end)
    (match a with TActive v => Some v | _ => ct_active r end)
    (match a with TCooldownMode v => v | _ => ct_cooldown_mode r end)
    (match a with TCooldownBase v => v | _ => ct_cooldown_base_secs r end)
    (match a with TCooldownMax v => v | _ => ct_cooldown_max_secs r end)
    (match a with TCooldownFactor v => v | _ => ct_cooldown_factor r end)
    (match a with TThinkingEffort v => v | _ => ct_thinking_effort r end)
    (match a with TDescription v => v | _ => ct_description r end)
    (match a with TSelectedAccounts v => v | _ => ct_selected_accounts r end)
    (match a with TClientProfile v => v | _ => ct_client_profile r end).

(** ** Enums to text *)

Definition Strategy_as_str (s : Strategy) : string :=
  match s with Priority => "priority" | RoundRobin => "round_robin" | Shuffle => "shuffle" end.

Definition PriorityMode_as_str (m : PriorityMode) : string :=
  match m with
  | Strict => "strict" | Lkgp => "lkgp" | Weighted => "weighted" | LeastUsed => "least_used"
  | P2c => "p2c" | DecisionMode => "decision"
  end.

Definition CooldownMode_as_str (m : CooldownMode) : string :=
  match m with CooldownFlat => "flat" | CooldownExponential => "exponential" | CooldownNone => "none" end.

Definition ClientProfile_as_str (p : ClientProfile) : string :=
  match p with
  | ClaudeCode => "claude-code" | Codex => "codex" | Cline => "cline" | Kilocode => "kilocode"
  | Kiro => "kiro" | Minimax => "minimax" | CommandCode => "commandcode" | CodeBuddy => "codebuddy"
  | Opencode => "opencode" | Antigravity => "antigravity"
  end.

(** ** Combos (crud.rs) *)

Definition race_size_ok (n : Z) : bool := (1 <=? n) && (n <=? 8).

Definition race_size_error (n : Z) : CoreError :=
  Validation ("race_size must be in 1..=8, got " +:+ pretty n).

Definition name_taken (db : Tables) (name : string) : bool :=
  existsb (fun c => String.eqb (cr_name c) name) (combos db).

Definition name_error (name : string) : CoreError :=
  Validation ("combo name already exists: " +:+ name).

(** [INSERT INTO combos]: the row gets the next id. *)
Definition insert_combo (row : Z -> ComboRow) (s : Editor) : Editor :=
  let id := ed_combo_seq s + 1 in
  mkEditor (set_combos (combos (ed_tables s) ++ [row id]) (ed_tables s)) (ed_prefixes s)
    id (ed_target_seq s) (ed_prefix_seq s).

(** The columns not named take the defaults of the schema. *)
Definition create_combo (created_at name : string) (strategy : Strategy) (race_size : Z) (s : Editor)
    : Result Editor :=
  if negb (race_size_ok race_size) then inr (race_size_error race_size)
  else if name_taken (ed_tables s) name then inr (name_error name)
  else inl (insert_combo (fun id => mkComboRow id name (Strategy_as_str strategy) race_size created_at
              None None None None None None None None (Some 0) None (Some 100) None None None None) s).

(** An update of one combo, an error when there is none. *)
Definition update_combo_row (id : Z) (cols : list ComboColumn) (s : Editor) : Result Editor :=
  if combo_exists (ed_tables s) id
  then inl (edit_tables (fun db =>
              set_combos (update_row cr_id id (fun r => foldl assign_combo r cols) (combos db)) db) s)
  else inr (ComboNotFound id).

Definition update_combo (id : Z) (race_size : option Z) (s : Editor) : Result Editor :=
  match race_size with
  | None => inl s
  | Some n => if negb (race_size_ok n) then inr (race_size_error n)
              else update_combo_row id [CRaceSize n] s
  end.

Definition update_name (id : Z) (name : string) (s : Editor) : Result Editor :=
  let trimmed := trim name in
  if String.eqb trimmed "" then inr (Validation "combo name cannot be empty")
  else if combo_exists (ed_tables s) id
          && existsb (fun c => String.eqb (cr_name c) trimmed && negb (cr_id c =? id)) (combos (ed_tables s))
  then inr (name_error trimmed)
  else update_combo_row id [CName trimmed] s.

Definition update_strategy (id : Z) (strategy : string) (s : Editor) : Result Editor :=
  match Strategy_parse strategy with
  | None => inr (Validation ("invalid strategy: " +:+ strategy))
  | Some st => update_combo_row id [CStrategy (Strategy_as_str st)] s
  end.

(** [ON DELETE CASCADE] from both columns that refer to combos. *)
Definition delete_combo (id : Z) (s : Editor) : Editor :=
  edit_tables (fun db => set_combos (filter (fun c => cr_id c <> id) (combos db)) db)
    (keep_targets (fun r => negb (ct_combo_id r =? id) && bool_decide (ct_sub_combo_id r <> Some id)) s).

Definition clear_targets (id : Z) (s : Editor) : Editor :=
  keep_targets (fun r => negb (ct_combo_id r =? id)) s.

(** ** Targets (targets.rs) *)

Record AddTargetInput := mkAddTarget {
  at_combo_id : Z;
  at_provider_id : string;
  at_account_id : option Z;
  at_model_row_id : option Z;
  at_sub_combo_id : option Z;
  at_priority_order : Z;
  at_description : option string;
  at_selected_accounts : option (list Z);
  at_client_profile : option ClientProfile
}.

Definition validate_flat_target (db : Tables) (row : Z) (provider : string) : Result unit :=
  match model_row db row with
  | None => inr (Validation ("model_row_id does not exist: " +:+ pretty row))
  | Some m =>
      if negb (String.eqb (mr_provider_id m) provider)
      then inr (Validation ("model " +:+ pretty row +:+ " belongs to provider '" +:+ mr_provider_id m
                  +:+ "', not '" +:+ provider +:+ "'"))
      else if default true ((fun p => pr_active p =? 1) <$> provider_row db provider) then inl tt
      else inr (Validation ("provider '" +:+ provider
                  +:+ "' is deactivated; reactivate it before adding it as a combo target"))
  end.

(** The sub-combos of one level. *)
Definition fetch_sub_combo_ids (db : Tables) (level : list Z) : list Z :=
  remove_dups (omap ct_sub_combo_id (filter (fun r => ct_combo_id r ∈ level) (combo_targets db))).

Fixpoint chain_search (db : Tables) (target : Z) (depth : nat) (level : list Z) : bool :=
  match depth with
  | O => false
  | S depth' =>
      match level with
      | [] => false
      | _ => let sub_ids := fetch_sub_combo_ids db level in
             if existsb (Z.eqb target) sub_ids then true else chain_search db target depth' sub_ids
      end
  end.

Definition combo_in_chain (db : Tables) (target start : Z) (max_depth : nat) : bool :=
  if start =? target then true else chain_search db target max_depth [start].

Definition check_sub_combo_cycle (db : Tables) (combo sub : Z) : Result unit :=
  if combo_in_chain db combo sub (Z.to_nat MAX_SUB_COMBO_DEPTH)
  then inr (Validation ("adding sub-combo " +:+ pretty sub +:+ " to combo " +:+ pretty combo
              +:+ " would create a cycle"))
  else inl tt.

Definition validate_sub_combo_target (db : Tables) (combo sub : Z) : Result unit :=
  if sub =? combo then inr (Validation "combo cannot contain itself")
  else if negb (combo_exists db sub) then inr (Validation ("sub_combo_id does not exist: " +:+ pretty sub))
  else check_sub_combo_cycle db combo sub.

Definition validate_account (db : Tables) (account row : option Z) : Result unit :=
  match account with
  | None => inl tt
  | Some aid =>
      if bool_decide (row = None) then inr (Validation "account_id is only valid on flat (model) targets")
      else if bool_decide (is_Some (account_row db aid)) then inl tt else inr (AccountNotFound aid)
  end.

(** [{:?}] of an optional id. *)
Definition debug_id (ty : string) (o : option Z) : string :=
  match o with Some n => "Some(" +:+ ty +:+ "(" +:+ pretty n +:+ "))" | None => "None" end.

Definition duplicate_error (i : AddTargetInput) : CoreError :=
  Validation ("duplicate target for combo " +:+ pretty (at_combo_id i)
    +:+ " (provider=" +:+ at_provider_id i
    +:+ ", account=" +:+ debug_id "AccountId" (at_account_id i)
    +:+ ", model=" +:+ debug_id "ModelRowId" (at_model_row_id i)
    +:+ ", sub_combo=" +:+ debug_id "ComboId" (at_sub_combo_id i) +:+ ")").

Definition check_duplicate_target (db : Tables) (i : AddTargetInput) : Result unit :=
  if existsb (fun r => (ct_combo_id r =? at_combo_id i) && String.eqb (ct_provider_id r) (at_provider_id i)
                       && (default (-1) (ct_account_id r) =? default (-1) (at_account_id i))
                       && (default (-1) (ct_model_row_id r) =? default (-1) (at_model_row_id i))
                       && (default (-1) (ct_sub_combo_id r) =? default (-1) (at_sub_combo_id i)))
       (combo_targets db)
  then inr (duplicate_error i) else inl tt.

Definition validate_add_target (db : Tables) (i : AddTargetInput) : Result unit :=
  if Bool.eqb (bool_decide (is_Some (at_model_row_id i))) (bool_decide (is_Some (at_sub_combo_id i)))
  then inr (Validation "must provide exactly one of model_row_id or sub_combo_id")
  else if negb (combo_exists db (at_combo_id i)) then inr (ComboNotFound (at_combo_id i))
  else rbind (match at_model_row_id i with
              | Some row => validate_flat_target db row (at_provider_id i)
              | None => inl tt
              end) (fun _ =>
       rbind (match at_sub_combo_id i with
              | Some sub => validate_sub_combo_target db (at_combo_id i) sub
              | None => inl tt
              end) (fun _ =>
       rbind (validate_account db (at_account_id i) (at_model_row_id i)) (fun _ =>
         check_duplicate_target db i))).

(** The constraints an insert can violate ([classify_sqlite_error]). *)
Inductive Violation := UniqueViolation | ForeignKeyViolation.

(** [INSERT INTO combo_targets]: the row gets the next id.  [UNIQUE(combo_id,
    account_id, model_row_id)] does not bind rows with a [NULL]. *)
Definition insert_target (row : Z -> TargetColumns) (s : Editor) : Editor + Violation :=
  let id := ed_target_seq s + 1 in
  let r := row id in
  if existsb (fun q => (ct_combo_id q =? ct_combo_id r)
                       && bool_decide (is_Some (ct_account_id r)) && bool_decide (ct_account_id q = ct_account_id r)
                       && bool_decide (is_Some (ct_model_row_id r)) && bool_decide (ct_model_row_id q = ct_model_row_id r))
       (combo_targets (ed_tables s))
  then inr UniqueViolation
  else if bool_decide (is_Some (provider_row (ed_tables s) (ct_provider_id r)))
  then inl (mkEditor (set_combo_targets (combo_targets (ed_tables s) ++ [r]) (ed_tables s))
              (ed_prefixes s) (ed_combo_seq s) id (ed_prefix_seq s))
  else inr ForeignKeyViolation.

Definition map_add_target_error (i : AddTargetInput) (v : Violation) : CoreError :=
  match v with
  | ForeignKeyViolation => Validation ("provider_id or sub_combo_id does not exist: " +:+ at_provider_id i)
  | UniqueViolation => duplicate_error i
  end.

Definition map_err {A E F} (f : E -> F) (r : A + E) : A + F :=
  match r with inl a => inl a | inr e => inr (f e) end.

Section edits.
Context (accounts_to_json : list Z -> option string).

Definition add_target (i : AddTargetInput) (s : Editor) : Result Editor :=
  rbind (validate_add_target (ed_tables s) i) (fun _ =>
    map_err (map_add_target_error i) (insert_target
      (fun id => mkTargetColumns id (at_combo_id i) (at_provider_id i) (at_account_id i) (at_model_row_id i)
         (at_sub_combo_id i) (at_priority_order i) (Some 1) (Some 1) None None None None None
         (at_description i) (at_selected_accounts i ≫= accounts_to_json)
         (ClientProfile_as_str <$> at_client_profile i)) s)).

Definition delete_target (id : Z) (s : Editor) : Editor :=
  keep_targets (fun r => negb (ct_id r =? id)) s.

(** The ids must be those of the combo's targets, in any order. *)
Definition validate_reorder_target_ids (db : Tables) (combo : Z) (ids : list Z) : Result unit :=
  if bool_decide (sort_by Z.compare (ct_id <$> filter (fun r => ct_combo_id r = combo) (combo_targets db))
                  = sort_by Z.compare ids)
  then inl tt
  else inr (Validation "target_ids must be a permutation of the combo's current targets").

(** One statement: the target at index [i] of the chunk gets priority
    [start + i + 1]. *)
Definition update_chunk (combo start : Z) (chunk : list Z) (ts : list TargetColumns) : list TargetColumns :=
  (fun r => match list_find (eq (ct_id r)) chunk with
            | Some (i, _) => if ct_combo_id r =? combo
                             then assign_target r (TPriority (start + Z.of_nat i + 1)) else r
            | None => r
            end) <$> ts.

Definition CHUNK_SIZE : nat := 400.

Fixpoint update_chunks (combo start : Z) (chunks : list (list Z)) (ts : list TargetColumns)
    : list TargetColumns :=
  match chunks with
  | [] => ts
  | chunk :: rest => update_chunks combo (start + Z.of_nat CHUNK_SIZE) rest (update_chunk combo start chunk ts)
  end.

(** [slice::chunks], by recursion on a bound of the length. *)
Fixpoint chunks_of {A} (fuel n : nat) (l : list A) : list (list A) :=
  match fuel, l with
  | S fuel', _ :: _ => take n l :: chunks_of fuel' n (drop n l)
  | _, _ => []
  end.

Definition apply_target_priority_chunks (combo : Z) (ids : list Z) (ts : list TargetColumns)
    : list TargetColumns :=
  update_chunks combo 0 (chunks_of (length ids) CHUNK_SIZE ids) ts.

Definition reorder_targets (combo : Z) (ids : list Z) (s : Editor) : Result Editor :=
  rbind (validate_reorder_target_ids (ed_tables s) combo ids) (fun _ =>
    inl (edit_tables (fun db => set_combo_targets (apply_target_priority_chunks combo ids (combo_targets db)) db) s)).

(** ** Columns of targets (settings.rs) *)

(** An update of one target; nothing happens when there is none. *)
Definition update_target_row (id : Z) (a : TargetColumn) (s : Editor) : Editor :=
  edit_tables (fun db => set_combo_targets (update_row ct_id id (fun r => assign_target r a) (combo_targets db)) db) s.

Definition update_target_priority (id new_order : Z) (s : Editor) : Editor :=
  update_target_row id (TPriority new_order) s.

Definition update_target_active (id : Z) (active : bool) (s : Editor) : Editor :=
  update_target_row id (TActive (Z.b2z active)) s.

Definition update_target_cooldown_base (id : Z) (base : option Z) (s : Editor) : Editor :=
  update_target_row id (TCooldownBase (as_i64 <$> base)) s.

Definition update_target_cooldown_max (id : Z) (max : option Z) (s : Editor) : Editor :=
  update_target_row id (TCooldownMax (as_i64 <$> max)) s.

Definition update_target_cooldown_factor (id : Z) (factor : option Z) (s : Editor) : Editor :=
  update_target_row id (TCooldownFactor factor) s.

Definition update_target_description (id : Z) (description : option string) (s : Editor) : Editor :=
  update_target_row id (TDescription description) s.

Definition update_target_selected_accounts (id : Z) (accounts : option string) (s : Editor) : Editor :=
  update_target_row id (TSelectedAccounts accounts) s.

Definition update_target_client_profile (id : Z) (profile : option string) (s : Editor) : Editor :=
  update_target_row id (TClientProfile profile) s.

Definition update_target_weight (id w : Z) (s : Editor) : Result Editor :=
  if w <=? 0 then inr (Validation ("combo_target weight must be positive, got " +:+ pretty w))
  else inl (update_target_row id (TWeight w) s).

(** [CooldownMode::parse] and back to text. *)
Definition parse_cooldown_mode (mode : option string) : Result (option string) :=
  match mode with
  | None => inl None
  | Some m => match CooldownMode_parse m with
              | Some c => inl (Some (CooldownMode_as_str c))
              | None => inr (Validation ("invalid cooldown_mode: " +:+ m))
              end
  end.

Definition update_target_cooldown_mode (id : Z) (mode : option string) (s : Editor) : Result Editor :=
  rbind (parse_cooldown_mode mode) (fun m => inl (update_target_row id (TCooldownMode m) s)).

Definition update_target_thinking_effort (id : Z) (effort : option string) (s : Editor) : Editor :=
  update_target_row id
    (TThinkingEffort
       (match effort with
        | Some e => if negb (String.eqb (trim e) "") && negb (String.eqb e "passthrough")
                    then Some (trim e) else None
        | None => None
        end)) s.

(** ** Columns of combos (settings.rs) *)

Definition update_context_window (id : Z) (v : option Z) : Editor -> Result Editor :=
  update_combo_row id [CContextWindow v].

Definition update_max_output_tokens (id : Z) (v : option Z) : Editor -> Result Editor :=
  update_combo_row id [CMaxOutputTokens v].

Definition update_cooldown_base (id : Z) (base : option Z) : Editor -> Result Editor :=
  update_combo_row id [CCooldownBase (as_i64 <$> base)].

Definition update_cooldown_max (id : Z) (max : option Z) : Editor -> Result Editor :=
  update_combo_row id [CCooldownMax (as_i64 <$> max)].

Definition update_cooldown_factor (id : Z) (factor : option Z) : Editor -> Result Editor :=
  update_combo_row id [CCooldownFactor factor].

Definition update_preventive_rate_limit (id : Z) (enabled : bool) : Editor -> Result Editor :=
  update_combo_row id [CPreventive (Z.b2z enabled)].

Definition update_decision_model (id : Z) (model : option string) : Editor -> Result Editor :=
  update_combo_row id [CDecisionModel model].

Definition update_decision_timeout (id : Z) (ms : option Z) : Editor -> Result Editor :=
  update_combo_row id [CDecisionTimeout (as_i64 <$> ms)].

Definition update_modality_gate (id : Z) (gate : option bool) : Editor -> Result Editor :=
  update_combo_row id [CModalityGate (Z.b2z <$> gate)].

Definition update_sanitize_response (id : Z) (enabled : option bool) : Editor -> Result Editor :=
  update_combo_row id [CSanitizeResponse (Z.b2z <$> enabled)].

Definition update_real_model_id (id : Z) (model : option string) : Editor -> Result Editor :=
  update_combo_row id [CRealModelId model].

Definition update_priority_mode (id : Z) (mode : option string) (s : Editor) : Result Editor :=
  match mode with
  | None => update_combo_row id [CPriorityMode None] s
  | Some m => match PriorityMode_parse m with
              | Some p => update_combo_row id [CPriorityMode (Some (PriorityMode_as_str p))] s
              | None => inr (Validation ("invalid priority_mode: " +:+ m))
              end
  end.

Definition update_cooldown_settings (id : Z) (mode : option string) (base max factor : option Z) (s : Editor)
    : Result Editor :=
  rbind (parse_cooldown_mode mode) (fun m =>
    update_combo_row id [CCooldownMode m; CCooldownBase (as_i64 <$> base); CCooldownMax (as_i64 <$> max);
                         CCooldownFactor factor] s).

Definition update_cooldown_mode (id : Z) (mode : option string) (s : Editor) : Result Editor :=
  rbind (parse_cooldown_mode mode) (fun m => update_combo_row id [CCooldownMode m] s).

(** [rate] in [0.0..=1.0], which no NaN is. *)
Definition update_lkgp_settings (show_f64 : f64 -> string) (id : Z) (rate : option f64) (s : Editor)
    : Result Editor :=
  match rate with
  | Some x => if negb (f64_leb (f64_of_Z 0) x && f64_leb x (f64_of_Z 1))
              then inr (Validation ("lkgp_exploration_rate must be in [0.0, 1.0], got " +:+ show_f64 x))
              else update_combo_row id [CLkgpRate rate] s
  | None => update_combo_row id [CLkgpRate rate] s
  end.

Definition update_selection_window (id : Z) (secs : option Z) : Editor -> Result Editor :=
  update_combo_row id [CSelectionWindow (as_i64 <$> secs)].

(** ** System prefixes (targets.rs) *)

Record ComboTargetSystemPrefix := mkSystemPrefix {
  sp_id : Z;
  sp_target_id : Z;
  sp_name : string;
  sp_criteria : string;
  sp_system_text : string;
  sp_active : bool;
  sp_priority_order : Z;
  sp_created_at : string
}.

Record CreateSystemPrefixInput := mkCreatePrefix {
  cp_name : string;
  cp_criteria : string;
  cp_system_text : string;
  cp_active : bool;
  cp_priority_order : Z
}.

Record UpdateSystemPrefixInput := mkUpdatePrefix {
  up_name : option string;
  up_criteria : option string;
  up_system_text : option string;
  up_active : option bool;
  up_priority_order : option Z
}.

Inductive PrefixColumn :=
  | PName (v : string)
  | PCriteria (v : string)
  | PSystemText (v : string)
  | PActive (v : Z)
  | PPriority (v : Z).

Definition assign_prefix (r : PrefixRow) (a : PrefixColumn) : PrefixRow :=
  mkPrefixRow
    (px_id r)
    (px_target_id r)
    (match a with PName v => v | _ => px_name r end)
    (match a with PCriteria v => v | _ => px_criteria r end)
    (match a with PSystemText v => v | _ => px_system_text r end)
    (match a with PActive v => v | _ => px_active r end)
    (match a with PPriority v => v | _ => px_priority_order r end)
    (px_created_at r).

Definition cmp_prefix (a b : PrefixRow) : comparison :=
  cmp_then (px_priority_order a ?= px_priority_order b) (px_id a ?= px_id b).

(** [INSERT INTO combo_target_system_prefixes]: the target must exist. *)
Definition insert_prefix (row : Z -> PrefixRow) (s : Editor) : Editor + Violation :=
  let id := ed_prefix_seq s + 1 in
  if existsb (fun r => ct_id r =? px_target_id (row id)) (combo_targets (ed_tables s))
  then inl (mkEditor (ed_tables s) (ed_prefixes s ++ [row id]) (ed_combo_seq s) (ed_target_seq s) id)
  else inr ForeignKeyViolation.

Section clone.
Context (datetime : string -> option string) (accounts_of_json : string -> option (list Z))
        (conversion : Z -> string) (violation_text : Violation -> string).

Definition read_prefix (r : PrefixRow) : Result ComboTargetSystemPrefix :=
  if i32_ok (px_priority_order r)
  then inl (mkSystemPrefix (px_id r) (px_target_id r) (px_name r) (px_criteria r) (px_system_text r)
              (px_active r =? 1) (px_priority_order r) (px_created_at r))
  else inr (Database (conversion 6)).

Definition list_target_system_prefixes (s : Editor) (target : Z) : Result (list ComboTargetSystemPrefix) :=
  collect read_prefix (sort_by cmp_prefix (filter (fun r => px_target_id r = target) (ed_prefixes s))).

Definition list_active_target_system_prefixes (s : Editor) (target : Z)
    : Result (list ComboTargetSystemPrefix) :=
  collect read_prefix
    (sort_by cmp_prefix (filter (fun r => px_target_id r = target /\ px_active r = 1) (ed_prefixes s))).

Definition create_target_system_prefix (created_at : string) (target : Z) (i : CreateSystemPrefixInput)
    (s : Editor) : Result Editor :=
  if String.eqb (trim (cp_name i)) "" then inr (Validation "prefix name cannot be empty")
  else if String.eqb (trim (cp_criteria i)) "" then inr (Validation "prefix criteria cannot be empty")
  else if String.eqb (trim (cp_system_text i)) "" then inr (Validation "prefix system_text cannot be empty")
  else map_err (fun v => Database (violation_text v))
         (insert_prefix (fun id => mkPrefixRow id target (trim (cp_name i)) (trim (cp_criteria i))
            (trim (cp_system_text i)) (Z.b2z (cp_active i)) (cp_priority_order i) created_at) s).

(** One statement per given field. *)
Definition update_target_system_prefix (id : Z) (i : UpdateSystemPrefixInput) (s : Editor) : Editor :=
  let set o s := match o with
                 | Some a => edit_prefixes (update_row px_id id (fun r => assign_prefix r a)) s
                 | None => s
                 end in
  set (PPriority <$> up_priority_order i)
    (set ((fun b => PActive (Z.b2z b)) <$> up_active i)
       (set ((fun t => PSystemText (trim t)) <$> up_system_text i)
          (set ((fun c => PCriteria (trim c)) <$> up_criteria i)
             (set ((fun n => PName (trim n)) <$> up_name i) s)))).

Definition delete_target_system_prefix (id : Z) (s : Editor) : Editor :=
  edit_prefixes (filter (fun r => px_id r <> id)) s.

(** ** Cloning *)

(** The row of a cloned target. *)
Definition cloned_row (combo : Z) (t : ComboTarget) (id : Z) : TargetColumns :=
  mkTargetColumns id combo (t_provider_id t) (t_account_id t) (t_model_row_id t) (t_sub_combo_id t)
    (t_priority_order t) (Some (t_weight t)) (Some (Z.b2z (t_active t)))
    (CooldownMode_as_str <$> t_cooldown_mode t) (as_i64 <$> t_cooldown_base_secs t)
    (as_i64 <$> t_cooldown_max_secs t) (t_cooldown_factor t) (t_thinking_effort t) (t_description t)
    (t_selected_accounts t ≫= accounts_to_json) None.

Fixpoint clone_prefixes (created_at : string) (target : Z) (ps : list ComboTargetSystemPrefix) (s : Editor)
    : Result Editor :=
  match ps with
  | [] => inl s
  | p :: ps' =>
      rbind (map_err (fun v => Database ("clone combo_target_system_prefix: " +:+ violation_text v))
               (insert_prefix (fun id => mkPrefixRow id target (sp_name p) (sp_criteria p) (sp_system_text p)
                  (Z.b2z (sp_active p)) (sp_priority_order p) created_at) s))
        (clone_prefixes created_at target ps')
  end.

Fixpoint clone_targets (created_at : string) (combo : Z) (ts : list ComboTarget) (s : Editor) : Result Editor :=
  match ts with
  | [] => inl s
  | t :: ts' =>
      rbind (map_err (fun v => Database ("clone combo_target: " +:+ violation_text v))
               (insert_target (cloned_row combo t) s)) (fun s' =>
      rbind (list_target_system_prefixes s' (t_id t)) (fun ps =>
      rbind (clone_prefixes created_at (ed_target_seq s') ps s')
        (clone_targets created_at combo ts')))
  end.

Definition clone_name (override : option string) (source : Combo) : string :=
  match override with
  | Some n => if String.eqb (trim n) "" then c_name source +:+ "-copy" else trim n
  | None => c_name source +:+ "-copy"
  end.

Definition clone_combo (now created_at : string) (source : Z) (override : option string) (s : Editor)
    : Result Editor :=
  match filter (fun c => cr_id c = source) (combos (ed_tables s)) with
  | [] => inr (ComboNotFound source)
  | row :: _ =>
      rbind (row_to_combo conversion ("get combo " +:+ pretty source) row) (fun c =>
        let name := clone_name override c in
        if name_taken (ed_tables s) name then inr (name_error name)
        else
          let s' := insert_combo (fun id =>
            mkComboRow id name (Strategy_as_str (c_strategy c)) (c_race_size c) created_at (c_context_window c)
              (Some (PriorityMode_as_str (c_priority_mode c))) (Some (CooldownMode_as_str (c_cooldown_mode c)))
              (as_i64 <$> c_cooldown_base_secs c) (as_i64 <$> c_cooldown_max_secs c) (c_cooldown_factor c)
              (c_lkgp_exploration_rate c) (as_i64 <$> c_selection_window_secs c)
              (Some (Z.b2z (c_preventive_rate_limit c))) (c_decision_model c)
              (as_i64 <$> c_decision_timeout_ms c) (c_max_output_tokens c)
              (Z.b2z <$> c_modality_gate c) (Z.b2z <$> c_sanitize_response c) (c_real_model_id c)) s in
          rbind (db_list_targets datetime accounts_of_json conversion (ed_tables s') now source)
            (fun ts => clone_targets created_at (ed_combo_seq s') ts s'))
  end.
End clone.
End edits.

(** ** The search for cycles

    [sub_edge db c d]: combo [d] is a target of combo [c]. *)

Definition sub_edge (db : Tables) (c d : Z) : Prop :=
  exists r, r ∈ combo_targets db /\ ct_combo_id r = c /\ ct_sub_combo_id r = Some d.

Lemma elem_of_fetch_sub_combo_ids db level d :
  d ∈ fetch_sub_combo_ids db level <-> exists c, c ∈ level /\ sub_edge db c d.
Proof.
  unfold fetch_sub_combo_ids, sub_edge. rewrite elem_of_remove_dups, list_elem_of_omap.
  setoid_rewrite list_elem_of_filter. split.
  - intros (r & [Hl Hr] & Hs). eauto 6.
  - intros (c & Hc & r & Hr & <- & Hs). eauto.
Qed.

Lemma nsteps_inv_S {A} (R : relation A) n x z : nsteps R (S n) x z -> exists y, R x y /\ nsteps R n y z.
Proof. inversion 1; eauto. Qed.

Lemma nsteps_inv_O {A} (R : relation A) x z : nsteps R 0 x z -> x = z.
Proof. by inversion 1. Qed.

Lemma chain_search_spec db t depth level :
  chain_search db t depth level = true
  <-> exists n c, (n < depth)%nat /\ c ∈ level /\ nsteps (sub_edge db) (S n) c t.
Proof.
  revert level; induction depth as [|depth IH]; intros level; cbn [chain_search].
  - split; [done|]. intros (n & _ & ? & _). lia.
  - assert (existsb (Z.eqb t) (fetch_sub_combo_ids db level) = true
            <-> exists c, c ∈ level /\ sub_edge db c t) as Ht.
    { rewrite existsb_exists, <- elem_of_fetch_sub_combo_ids. setoid_rewrite <- list_elem_of_In.
      setoid_rewrite Z.eqb_eq. split; [by intros (? & ? & ->)|eauto]. }
    assert ((exists n c, (n < S depth)%nat /\ c ∈ level /\ nsteps (sub_edge db) (S n) c t)
            <-> (exists c, c ∈ level /\ sub_edge db c t)
                \/ exists n c, (n < depth)%nat /\ c ∈ fetch_sub_combo_ids db level
                               /\ nsteps (sub_edge db) (S n) c t) as ->.
    { setoid_rewrite elem_of_fetch_sub_combo_ids. split.
      - intros ([|n] & c & Hn & Hc & (d & Hcd & Hd)%nsteps_inv_S).
        + apply nsteps_inv_O in Hd as ->. eauto.
        + right. exists n, d. split; [lia|]. eauto.
      - intros [(c & Hc & He)|(n & d & Hn & (c & Hc & He) & Hd)].
        + exists 0%nat, c. split; [lia|]. split; [done|]. by apply nsteps_once.
        + exists (S n), c. split; [lia|]. split; [done|]. by eapply nsteps_l. }
    rewrite <- IH, <- Ht. destruct level as [|c level].
    + rewrite IH, Ht. setoid_rewrite elem_of_fetch_sub_combo_ids. setoid_rewrite elem_of_nil. naive_solver.
    + destruct (existsb _ _); [naive_solver|]. split; [tauto|]. by intros [|].
Qed.

(** The search finds exactly the chains of at most [depth] combos. *)
Lemma combo_in_chain_spec db t start depth :
  combo_in_chain db t start depth = true <-> bsteps (sub_edge db) depth start t.
Proof.
  rewrite bsteps_nsteps. unfold combo_in_chain. destruct (Z.eqb_spec start t) as [->|Hne].
  - split; [|done]. intros _. exists 0%nat. split; [lia|constructor].
  - rewrite chain_search_spec. setoid_rewrite list_elem_of_singleton. split.
    + intros (n & ? & Hn & -> & H). exists (S n). split; [lia|done].
    + intros ([|n] & Hn & H); [by apply nsteps_inv_O in H|]. exists n, start. repeat split; [lia|done].
Qed.

(** ** What the edits keep

    No combo is below itself by a chain the search can see. *)

Definition no_short_cycle (R : relation Z) : Prop :=
  forall n c, (n < S (Z.to_nat MAX_SUB_COMBO_DEPTH))%nat -> ~ nsteps R (S n) c c.

(** A chain that uses one new edge [a -> b] splits at its first and last use. *)
Lemma nsteps_new_edge {A} (R R' : relation A) a b n x y :
  (forall u v, R' u v -> R u v \/ u = a /\ v = b) ->
  nsteps R' n x y ->
  nsteps R n x y \/ exists k j, (k + S j <= n)%nat /\ nsteps R k x a /\ nsteps R j b y.
Proof.
  intros HR. induction 1 as [x|n x z y Hxz Hzy IH]; [left; constructor|].
  destruct (HR _ _ Hxz) as [Hold|[-> ->]], IH as [IH|(k & j & Hkj & Hk & Hj)].
  - left. by eapply nsteps_l.
  - right. exists (S k), j. repeat split; [lia| |done]. by eapply nsteps_l.
  - right. exists 0%nat, n. repeat split; [lia|constructor|done].
  - right. exists 0%nat, j. repeat split; [lia|constructor|done].
Qed.

Lemma no_short_cycle_new_edge (R R' : relation Z) a b :
  (forall u v, R' u v -> R u v \/ u = a /\ v = b) ->
  ~ bsteps R (Z.to_nat MAX_SUB_COMBO_DEPTH) b a ->
  no_short_cycle R -> no_short_cycle R'.
Proof.
  intros HR Hab HcR n c Hn [Hc|(k & j & Hkj & Hk & Hj)]%(nsteps_new_edge R R' a b _ _ _ HR).
  - by apply (HcR n c).
  - apply Hab, bsteps_nsteps. exists (j + k)%nat. split; [lia|]. by eapply nsteps_trans.
Qed.

Lemma no_short_cycle_mono (R R' : relation Z) :
  (forall u v, R' u v -> R u v) -> no_short_cycle R -> no_short_cycle R'.
Proof. intros HR Hc n c Hn H. apply (Hc n c Hn). by apply (nsteps_congruence (fun x : Z => x) R _ _ _ HR). Qed.

Definition combo_row_ok (c : ComboRow) : Prop :=
  race_size_ok (cr_race_size c) = true /\ is_Some (Strategy_parse (cr_strategy c))
  /\ column_in_range 0 u32_max (cr_cooldown_factor c) = true.

(** The columns a target is read from, and the rows it refers to. *)
Definition target_columns_ok (r : TargetColumns) : Prop :=
  i32_ok (ct_priority_order r) = true
  /\ column_in_range (-2147483648) 2147483647 (ct_weight r) = true
  /\ column_in_range 0 u32_max (ct_cooldown_factor r) = true.

Definition target_refs_ok (db : Tables) (r : TargetColumns) : Prop :=
  ct_combo_id r ∈ cr_id <$> combos db
  /\ (forall sub, ct_sub_combo_id r = Some sub -> sub ∈ cr_id <$> combos db)
  /\ is_Some (provider_row db (ct_provider_id r))
  /\ (ct_model_row_id r = None \/ ct_sub_combo_id r = None)
  /\ (forall row, ct_model_row_id r = Some row ->
        exists m, model_row db row = Some m /\ mr_provider_id m = ct_provider_id r)
  /\ (forall a, ct_account_id r = Some a -> is_Some (account_row db a) /\ is_Some (ct_model_row_id r)).

Definition prefix_ok (s : Editor) (p : PrefixRow) : Prop :=
  px_target_id p ∈ ct_id <$> combo_targets (ed_tables s) /\ i32_ok (px_priority_order p) = true.

Record sound (s : Editor) : Prop := {
  sound_ids : NoDup (cr_id <$> combos (ed_tables s));
  sound_seq : Forall (fun i => i <= ed_combo_seq s) (cr_id <$> combos (ed_tables s));
  sound_names : NoDup (cr_name <$> combos (ed_tables s));
  sound_combos : Forall combo_row_ok (combos (ed_tables s));
  sound_target_ids : NoDup (ct_id <$> combo_targets (ed_tables s));
  sound_target_seq : Forall (fun i => i <= ed_target_seq s) (ct_id <$> combo_targets (ed_tables s));
  sound_columns : Forall target_columns_ok (combo_targets (ed_tables s));
  sound_refs : Forall (target_refs_ok (ed_tables s)) (combo_targets (ed_tables s));
  sound_cooldowns : Forall (fun c => tc_combo_target_id c ∈ ct_id <$> combo_targets (ed_tables s))
                      (target_cooldowns (ed_tables s));
  sound_acyclic : no_short_cycle (sub_edge (ed_tables s));
  sound_prefix_ids : NoDup (px_id <$> ed_prefixes s);
  sound_prefix_seq : Forall (fun i => i <= ed_prefix_seq s) (px_id <$> ed_prefixes s);
  sound_prefixes : Forall (prefix_ok s) (ed_prefixes s);
  sound_scopes : Forall (fun p => is_Some (RateLimitScope_parse (pr_rate_limit_scope p)))
                   (providers (ed_tables s))
}.

Lemma combo_exists_spec db id : combo_exists db id = true <-> id ∈ cr_id <$> combos db.
Proof.
  unfold combo_exists. rewrite existsb_exists, list_elem_of_fmap. setoid_rewrite <- list_elem_of_In.
  setoid_rewrite Z.eqb_eq. split; intros (c & Hc & Hid); exists c; by rewrite ?Hid in *.
Qed.

Lemma name_taken_spec db n : name_taken db n = false <-> n ∉ cr_name <$> combos db.
Proof.
  unfold name_taken. rewrite <- not_true_iff_false, existsb_exists, list_elem_of_fmap.
  setoid_rewrite <- list_elem_of_In. setoid_rewrite String.eqb_eq.
  split; intros H (c & Hc1 & Hc2); apply H; exists c; by subst.
Qed.

Lemma target_refs_ok_ids db db' r :
  cr_id <$> combos db' = cr_id <$> combos db -> providers db' = providers db ->
  models db' = models db -> accounts db' = accounts db ->
  target_refs_ok db r -> target_refs_ok db' r.
Proof. unfold target_refs_ok, provider_row, model_row, account_row. by intros -> -> -> ->. Qed.

(** Rows of combos rewritten in place. *)
Lemma set_combos_sound s cs :
  sound s -> cr_id <$> cs = cr_id <$> combos (ed_tables s) -> NoDup (cr_name <$> cs) ->
  Forall combo_row_ok cs -> sound (edit_tables (set_combos cs) s).
Proof.
  intros [] Hid Hn Hok. split; simpl; rewrite ?Hid; try done.
  eapply Forall_impl; [done|]. simpl. intros r. by apply target_refs_ok_ids.
Qed.

Lemma NoDup_snoc {A} (l : list A) x : NoDup l -> x ∉ l -> NoDup (l ++ [x]).
Proof. intros Hl Hx. apply NoDup_app. split; [done|]. split; [set_solver|apply NoDup_singleton]. Qed.

(** A combo appended under the next id. *)
Lemma insert_combo_sound s row :
  sound s -> cr_id (row (ed_combo_seq s + 1)) = ed_combo_seq s + 1 ->
  cr_name (row (ed_combo_seq s + 1)) ∉ cr_name <$> combos (ed_tables s) ->
  combo_row_ok (row (ed_combo_seq s + 1)) -> sound (insert_combo row s).
Proof.
  intros [] Hid Hn Hok. rewrite Forall_forall in sound_seq0.
  split; simpl; rewrite ?fmap_app; simpl; rewrite ?Hid; try done.
  - apply NoDup_snoc; [done|]. intros Hin%sound_seq0. lia.
  - apply Forall_app. split; [|repeat constructor; lia]. apply Forall_forall. intros i Hi%sound_seq0. lia.
  - by apply NoDup_snoc.
  - apply Forall_app. split; [done|]. by apply Forall_singleton.
  - eapply Forall_impl; [done|]. simpl. unfold target_refs_ok. simpl. rewrite fmap_app.
    intros r (? & ? & ? & ? & ? & ?). split_and!; [set_solver..|done|done|done|done].
Qed.

Lemma NoDup_fmap_filter {A B} (f : A -> B) (P : A -> Prop) `{!forall x, Decision (P x)} l :
  NoDup (f <$> l) -> NoDup (f <$> filter P l).
Proof. intros Hl. eapply sublist_NoDup; [exact Hl|]. apply fmap_sublist, sublist_filter. Qed.

Lemma Forall_list_filter {A} (P Q : A -> Prop) `{!forall x, Decision (P x)} l :
  Forall Q l -> Forall Q (filter P l).
Proof. rewrite !Forall_forall. intros HQ x [_ Hx]%list_elem_of_filter. by apply HQ. Qed.

Lemma Forall_fmap_filter {A B} (f : A -> B) (P : A -> Prop) `{!forall x, Decision (P x)} (Q : B -> Prop) l :
  Forall Q (f <$> l) -> Forall Q (f <$> filter P l).
Proof. rewrite !Forall_fmap. apply Forall_list_filter. Qed.

(** The references to a kept target outlive the cascade. *)
Lemma kept_reference (keep : TargetColumns -> bool) (rows : list TargetColumns) (i : Z) :
  i ∉ ct_id <$> filter (fun r => keep r = false) rows -> i ∈ ct_id <$> rows ->
  i ∈ ct_id <$> filter (fun r => keep r = true) rows.
Proof.
  intros Hg (r & -> & Hr)%list_elem_of_fmap. apply list_elem_of_fmap_2, list_elem_of_filter.
  destruct (keep r) eqn:Hk; [done|]. exfalso. apply Hg. by apply list_elem_of_fmap_2, list_elem_of_filter.
Qed.

(** Combos kept with the targets that refer to nothing else. *)
Lemma keep_sound s (P : ComboRow -> Prop) `{!forall c, Decision (P c)} keep :
  sound s ->
  (forall r i, r ∈ combo_targets (ed_tables s) -> keep r = true ->
     i = ct_combo_id r \/ Some i = ct_sub_combo_id r ->
     i ∈ cr_id <$> combos (ed_tables s) -> i ∈ cr_id <$> filter P (combos (ed_tables s))) ->
  sound (edit_tables (fun db => set_combos (filter P (combos db)) db) (keep_targets keep s)).
Proof.
  intros [] Hkeep. rewrite Forall_forall in sound_refs0. rewrite Forall_forall in sound_cooldowns0.
  rewrite Forall_forall in sound_prefixes0. split; simpl; try done.
  1, 3, 5: by apply NoDup_fmap_filter.
  1, 3: by apply Forall_fmap_filter.
  1, 2: by apply Forall_list_filter.
  - apply Forall_forall. intros r [Hk Hr]%list_elem_of_filter. unfold target_refs_ok. simpl.
    destruct (sound_refs0 r Hr) as (Hc & Hs & Hp & Hm).
    split; [by eapply (Hkeep r); eauto|]. split; [|done]. intros sub Hsub.
    by eapply (Hkeep r); eauto.
  - apply Forall_forall. intros c [Hg Hc]%list_elem_of_filter. apply kept_reference; auto.
  - eapply no_short_cycle_mono; [|done]. intros u v (r & [_ Hr]%list_elem_of_filter & ? & ?). by exists r.
  - by apply NoDup_fmap_filter.
  - by apply Forall_fmap_filter.
  - apply Forall_forall. intros q [Hg Hq]%list_elem_of_filter. destruct (sound_prefixes0 q Hq).
    split; [|done]. by apply kept_reference.
Qed.

(** Rows of targets rewritten in place. *)
Lemma map_targets_sound s (f : TargetColumns -> TargetColumns) :
  (forall r, ct_id (f r) = ct_id r /\ ct_combo_id (f r) = ct_combo_id r
             /\ ct_provider_id (f r) = ct_provider_id r /\ ct_model_row_id (f r) = ct_model_row_id r
             /\ ct_sub_combo_id (f r) = ct_sub_combo_id r /\ ct_account_id (f r) = ct_account_id r) ->
  (forall r, r ∈ combo_targets (ed_tables s) -> target_columns_ok r -> target_columns_ok (f r)) ->
  sound s -> sound (edit_tables (fun db => set_combo_targets (f <$> combo_targets db) db) s).
Proof.
  intros Hf Hok [].
  assert (ct_id <$> (f <$> combo_targets (ed_tables s)) = ct_id <$> combo_targets (ed_tables s)) as Hid.
  { rewrite <- list_fmap_compose. apply list_fmap_ext. intros _ r _. apply Hf. }
  split; simpl; rewrite ?Hid; try done.
  - apply Forall_fmap, Forall_forall. intros r Hr. apply (Hok r Hr). by rewrite Forall_forall in sound_columns0; apply sound_columns0.
  - apply Forall_fmap. eapply Forall_impl; [done|]. intros r. unfold target_refs_ok. simpl.
    destruct (Hf r) as (_ & -> & -> & -> & -> & ->). done.
  - eapply no_short_cycle_mono; [|done].
    intros u v (r' & (r & -> & Hr)%list_elem_of_fmap & Hc & Hs).
    exists r. destruct (Hf r) as (_ & <- & _ & _ & <- & _). done.
  - eapply Forall_impl; [done|]. unfold prefix_ok. simpl. by rewrite Hid.
Qed.

(** A target appended under the next id. *)
Lemma insert_target_sound s s' row :
  insert_target row s = inl s' -> ct_id (row (ed_target_seq s + 1)) = ed_target_seq s + 1 ->
  target_columns_ok (row (ed_target_seq s + 1)) ->
  ct_combo_id (row (ed_target_seq s + 1)) ∈ cr_id <$> combos (ed_tables s) ->
  (ct_model_row_id (row (ed_target_seq s + 1)) = None \/ ct_sub_combo_id (row (ed_target_seq s + 1)) = None) ->
  (forall sub, ct_sub_combo_id (row (ed_target_seq s + 1)) = Some sub ->
     sub ∈ cr_id <$> combos (ed_tables s)
     /\ ~ bsteps (sub_edge (ed_tables s)) (Z.to_nat MAX_SUB_COMBO_DEPTH) sub
            (ct_combo_id (row (ed_target_seq s + 1)))) ->
  (forall m, ct_model_row_id (row (ed_target_seq s + 1)) = Some m ->
     exists mr, model_row (ed_tables s) m = Some mr
       /\ mr_provider_id mr = ct_provider_id (row (ed_target_seq s + 1))) ->
  (forall a, ct_account_id (row (ed_target_seq s + 1)) = Some a ->
     is_Some (account_row (ed_tables s) a) /\ is_Some (ct_model_row_id (row (ed_target_seq s + 1)))) ->
  sound s -> sound s'.
Proof.
  unfold insert_target. set (r := row _). destruct (existsb _ _); [done|].
  case_bool_decide as Hp; [|done]. intros [= <-] Hid Hcol Hc Hms Hsub Hmod Hacc [].
  rewrite Forall_forall in sound_target_seq0.
  split; simpl; rewrite ?fmap_app; simpl; rewrite ?Hid; try done.
  - apply NoDup_snoc; [done|]. intros Hin%sound_target_seq0. lia.
  - apply Forall_app. split; [|repeat constructor; lia]. apply Forall_forall. intros i Hi%sound_target_seq0. lia.
  - apply Forall_app. split; [done|]. by apply Forall_singleton.
  - apply Forall_app. split; [done|]. apply Forall_singleton. split; [done|]. split; [|done]. intros sub Hs. by apply Hsub.
  - eapply Forall_impl; [done|]. set_solver.
  - destruct (ct_sub_combo_id r) as [sub|] eqn:Hs.
    + destruct (Hsub sub eq_refl) as [_ Hno]. eapply no_short_cycle_new_edge; [|exact Hno|done].
      intros u v (q & [Hq| ->%list_elem_of_singleton]%elem_of_app & Hu & Hv); [left; by exists q|].
      right. split; congruence.
    + eapply no_short_cycle_mono; [|done].
      intros u v (q & [Hq| ->%list_elem_of_singleton]%elem_of_app & Hu & Hv); [by exists q|congruence].
  - eapply Forall_impl; [done|]. unfold prefix_ok. simpl. rewrite fmap_app. set_solver.
Qed.

(** A prefix appended under the next id. *)
Lemma insert_prefix_sound s s' row :
  insert_prefix row s = inl s' -> px_id (row (ed_prefix_seq s + 1)) = ed_prefix_seq s + 1 ->
  i32_ok (px_priority_order (row (ed_prefix_seq s + 1))) = true -> sound s -> sound s'.
Proof.
  unfold insert_prefix. set (p := row _). destruct (existsb _ _) eqn:Ht; [|done].
  intros [= <-] Hid Hp []. rewrite Forall_forall in sound_prefix_seq0.
  split; simpl; rewrite ?fmap_app; simpl; rewrite ?Hid; try done.
  - apply NoDup_snoc; [done|]. intros Hin%sound_prefix_seq0. lia.
  - apply Forall_app. split; [|repeat constructor; lia]. apply Forall_forall. intros i Hi%sound_prefix_seq0. lia.
  - apply Forall_app. split; [done|]. apply Forall_singleton. split; [|done].
    apply existsb_exists in Ht as (r & Hr%list_elem_of_In & <-%Z.eqb_eq). by apply list_elem_of_fmap_2.
Qed.

(** Rows of prefixes rewritten in place, and some deleted. *)
Lemma map_prefixes_sound s (f : PrefixRow -> PrefixRow) :
  (forall p, px_id (f p) = px_id p /\ px_target_id (f p) = px_target_id p) ->
  (forall p, i32_ok (px_priority_order p) = true -> i32_ok (px_priority_order (f p)) = true) ->
  sound s -> sound (edit_prefixes (fmap f) s).
Proof.
  intros Hf Hp [].
  assert (px_id <$> (f <$> ed_prefixes s) = px_id <$> ed_prefixes s) as Hid.
  { rewrite <- list_fmap_compose. apply list_fmap_ext. intros _ r _. apply Hf. }
  split; simpl; rewrite ?Hid; try done.
  apply Forall_fmap. eapply Forall_impl; [done|]. intros p [Ht Ho]. split; simpl; [|by apply Hp].
  by destruct (Hf p) as [_ ->].
Qed.

Lemma filter_prefixes_sound s (P : PrefixRow -> Prop) `{!forall p, Decision (P p)} :
  sound s -> sound (edit_prefixes (filter P) s).
Proof.
  intros []. split; simpl; try done; [by apply NoDup_fmap_filter|by apply Forall_fmap_filter|].
  by apply Forall_list_filter.
Qed.

(** ** Single columns *)

Lemma Strategy_parse_as_str st : Strategy_parse (Strategy_as_str st) = Some st.
Proof. by destruct st. Qed.

Definition combo_column_ok (a : ComboColumn) : Prop :=
  match a with
  | CName _ => False
  | CStrategy v => is_Some (Strategy_parse v)
  | CRaceSize v => race_size_ok v = true
  | CCooldownFactor v => column_in_range 0 u32_max v = true
  | _ => True
  end.

Lemma assign_combo_ok a r :
  combo_column_ok a ->
  cr_id (assign_combo r a) = cr_id r /\ cr_name (assign_combo r a) = cr_name r
  /\ (combo_row_ok r -> combo_row_ok (assign_combo r a)).
Proof. destruct a; cbn; try done; intros Ha; repeat split; try apply H; naive_solver. Qed.

Lemma assign_combos_ok cols r :
  Forall combo_column_ok cols ->
  cr_id (foldl assign_combo r cols) = cr_id r /\ cr_name (foldl assign_combo r cols) = cr_name r
  /\ (combo_row_ok r -> combo_row_ok (foldl assign_combo r cols)).
Proof.
  intros Hc. revert r. induction Hc as [|a cols Ha Hc IH]; intros r; cbn [foldl]; [done|].
  destruct (IH (assign_combo r a)) as (-> & -> & H), (assign_combo_ok a r Ha) as (-> & -> & H'). auto.
Qed.

Lemma update_combo_row_sound id cols s s' :
  Forall combo_column_ok cols -> update_combo_row id cols s = inl s' -> sound s -> sound s'.
Proof.
  intros Hc. unfold update_combo_row. destruct (combo_exists _ _); [|done]. intros [= <-] Hs.
  apply (set_combos_sound s (update_row cr_id id (fun r => foldl assign_combo r cols) (combos (ed_tables s))) Hs);
    unfold update_row.
  - rewrite <- list_fmap_compose. apply list_fmap_ext. intros _ r _. unfold compose.
    case_match; [|done]. by apply assign_combos_ok.
  - rewrite <- list_fmap_compose. erewrite list_fmap_ext; [apply (sound_names s Hs)|].
    intros _ r _. unfold compose. case_match; [|done]. by apply assign_combos_ok.
  - apply Forall_fmap. eapply Forall_impl; [apply (sound_combos s Hs)|].
    intros r Hr. unfold compose. case_match; [|done]. by apply assign_combos_ok.
Qed.

Definition target_column_ok (a : TargetColumn) : Prop :=
  match a with
  | TPriority v => i32_ok v = true
  | TWeight v => column_in_range (-2147483648) 2147483647 (Some v) = true
  | TCooldownFactor v => column_in_range 0 u32_max v = true
  | _ => True
  end.

Lemma assign_target_ok a r :
  target_column_ok a -> target_columns_ok r -> target_columns_ok (assign_target r a).
Proof. unfold target_columns_ok. destruct a; cbn; naive_solver. Qed.

Lemma update_target_row_sound id a s : target_column_ok a -> sound s -> sound (update_target_row id a s).
Proof.
  intros Ha. apply map_targets_sound.
  - intros r. by case_match; destruct a.
  - intros r _ Hr. case_match; [|done]. by apply assign_target_ok.
Qed.

(** ** Whole operations *)

Lemma create_combo_sound created_at name st n s s' :
  create_combo created_at name st n s = inl s' -> sound s -> sound s'.
Proof.
  unfold create_combo. destruct (race_size_ok n) eqn:Hn; [|done]. cbn [negb].
  destruct (name_taken _ _) eqn:Ht; [done|]. intros [= <-] Hs.
  apply insert_combo_sound; [done..|by apply name_taken_spec|].
  split; [done|]. split; [|done]. simpl. rewrite Strategy_parse_as_str. eauto.
Qed.

Lemma update_name_sound id name s s' : update_name id name s = inl s' -> sound s -> sound s'.
Proof.
  unfold update_name. destruct (String.eqb _ _); [done|]. unfold update_combo_row.
  destruct (combo_exists _ _) eqn:He; cbn [andb]; [|done].
  destruct (existsb _ _) eqn:Hx; [done|]. intros [= <-] Hs.
  apply (set_combos_sound s (update_row cr_id id (fun r => foldl assign_combo r [CName (trim name)])
           (combos (ed_tables s))) Hs); unfold update_row.
  - rewrite <- list_fmap_compose. apply list_fmap_ext. intros _ r _. unfold compose. by case_match.
  - rewrite <- not_true_iff_false, existsb_exists in Hx.
    pose proof (sound_names s Hs) as Hnames. pose proof (sound_ids s Hs) as Hids. clear He.
    induction (combos (ed_tables s)) as [|c cs IH]; cbn [fmap list_fmap]; [constructor|].
    apply NoDup_cons in Hnames as [Hc Hnames]. apply NoDup_cons in Hids as [Hi Hids].
    apply NoDup_cons. split; [|apply IH; [|done..]; intros (d & Hd & H); apply Hx; exists d; split; [by right|done]].
    intros (r & Hr & (d & -> & Hd)%list_elem_of_fmap)%list_elem_of_fmap.
    destruct (Z.eqb_spec (cr_id c) id) as [Hcid|Hcid], (Z.eqb_spec (cr_id d) id) as [Hdid|Hdid]; cbn in Hr.
    + apply Hi. rewrite Hcid, <- Hdid. by apply list_elem_of_fmap_2.
    + apply Hx. exists d. split; [right; by apply list_elem_of_In|].
      rewrite <- Hr, String.eqb_refl. by apply Z.eqb_neq in Hdid as ->.
    + apply Hx. exists c. split; [by left|]. rewrite Hr, String.eqb_refl. by apply Z.eqb_neq in Hcid as ->.
    + apply Hc. rewrite Hr. by apply list_elem_of_fmap_2.
  - apply Forall_fmap. eapply Forall_impl; [apply (sound_combos s Hs)|].
    intros r Hr. unfold compose. by case_match.
Qed.

Lemma delete_combo_sound id s : sound s -> sound (delete_combo id s).
Proof.
  intros Hs. apply keep_sound; [done|]. intros r i Hr [Hk1 Hk2]%andb_true_iff Hi
    (c & -> & Hc)%list_elem_of_fmap.
  apply list_elem_of_fmap_2, list_elem_of_filter. split; [|done].
  apply negb_true_iff, Z.eqb_neq in Hk1. apply bool_decide_eq_true in Hk2. destruct Hi; congruence.
Qed.

Lemma filter_everything {A} (l : list A) : filter (fun _ => True) l = l.
Proof. induction l as [|x l IH]; [done|]. rewrite filter_cons_True by done. by rewrite IH. Qed.

Lemma keep_targets_sound keep s : sound s -> sound (keep_targets keep s).
Proof.
  intros Hs. pose proof (keep_sound s (fun _ => True) keep Hs) as H.
  unfold keep_targets, edit_prefixes, edit_tables, set_combos in *. simpl in *.
  rewrite filter_everything in H. apply H. auto.
Qed.

Lemma validate_flat_target_ok db row provider :
  validate_flat_target db row provider = inl tt ->
  exists m, model_row db row = Some m /\ mr_provider_id m = provider.
Proof.
  unfold validate_flat_target. destruct (model_row db row) as [m|]; [|done].
  destruct (String.eqb_spec (mr_provider_id m) provider) as [He|]; [|done]. by exists m.
Qed.

Lemma validate_account_ok db account row a :
  validate_account db account row = inl tt -> account = Some a -> is_Some (account_row db a) /\ is_Some row.
Proof.
  intros H ->. unfold validate_account in H. case_bool_decide as Hr; [done|]. case_bool_decide; [|done].
  split; [done|]. destruct row; [by eexists|done].
Qed.

Lemma add_target_sound accounts_to_json i s s' :
  i32_ok (at_priority_order i) = true ->
  add_target accounts_to_json i s = inl s' -> sound s -> sound s'.
Proof.
  intros Hprio. unfold add_target, validate_add_target.
  destruct (at_model_row_id i) as [row|] eqn:Hm, (at_sub_combo_id i) as [sub|] eqn:Hsub;
    cbn [bool_decide Bool.eqb]; try done.
  all: destruct (combo_exists _ _) eqn:Hc; [|done]; apply combo_exists_spec in Hc; cbn [negb rbind].
  - destruct (validate_flat_target _ _ _) as [[]|] eqn:Hflat; [|done]. cbn [rbind].
    destruct (validate_account _ _ _) as [[]|] eqn:Hacc; [|done]. cbn [rbind].
    destruct (check_duplicate_target _ _); [|done]. cbn [rbind].
    destruct (insert_target _ s) eqn:Hi; [|done]. intros [= ->] Hs.
    eapply insert_target_sound; [exact Hi|done..|by right|done| | |done]; cbn.
    + intros ? [= <-]. by apply validate_flat_target_ok.
    + intros a. by apply validate_account_ok.
  - unfold validate_sub_combo_target. destruct (sub =? at_combo_id i); [done|].
    destruct (combo_exists _ sub) eqn:He; [|done]. apply combo_exists_spec in He. cbn [negb rbind].
    unfold check_sub_combo_cycle. destruct (combo_in_chain _ _ _ _) eqn:Hch; [done|]. cbn [rbind].
    destruct (validate_account _ _ _) as [[]|] eqn:Hacc; [|done]. cbn [rbind].
    destruct (check_duplicate_target _ _); [|done]. cbn [rbind].
    destruct (insert_target _ s) eqn:Hi; [|done]. intros [= ->] Hs.
    eapply insert_target_sound; [exact Hi|done..|by left| |done| |done]; cbn.
    + intros ? [= <-]. split; [done|]. cbn. rewrite <- combo_in_chain_spec, Hch. done.
    + intros a. by apply validate_account_ok.
Qed.

Lemma update_chunks_sound combo fuel start ids s :
  0 <= start -> start + Z.of_nat (length ids) <= 2147483647 -> sound s ->
  sound (edit_tables (fun db =>
    set_combo_targets (update_chunks combo start (chunks_of fuel CHUNK_SIZE ids) (combo_targets db)) db) s).
Proof.
  revert start ids s. induction fuel as [|fuel IH]; intros start ids s Hstart Hlen Hs;
    [by destruct s as [[] ? ?]|].
  destruct ids as [|x ids]; [by destruct s as [[] ? ?]|].
  cbn [chunks_of update_chunks]. set (chunk := take CHUNK_SIZE (x :: ids)). set (rest := drop CHUNK_SIZE (x :: ids)).
  set (s1 := edit_tables (fun db => set_combo_targets (update_chunk combo start chunk (combo_targets db)) db) s).
  assert (sound s1) as Hs1.
  { apply map_targets_sound; [|intros r _ Hr|done].
    - intros r. by repeat case_match.
    - case_match eqn:Hf; [|done]. destruct p as [j y]. case_match; [|done].
      apply assign_target_ok; [|done]. apply list_find_Some in Hf as (Hj%lookup_lt_Some & _).
      unfold chunk in Hj. rewrite length_take in Hj. cbn [target_column_ok]. unfold i32_ok.
      apply andb_true_iff. split; apply Z.leb_le; lia. }
  destruct (decide (rest = [])) as [->|Hne].
  - replace (chunks_of fuel CHUNK_SIZE []) with ([] : list (list Z)) by (by destruct fuel). exact Hs1.
  - apply (IH (start + Z.of_nat CHUNK_SIZE) rest s1); [lia| |done].
    unfold rest in *. rewrite length_drop. assert (CHUNK_SIZE < length (x :: ids))%nat; [|lia].
    apply Nat.nle_gt. intros Hle. by rewrite drop_ge in Hne.
Qed.

Lemma reorder_targets_sound combo ids s s' :
  Z.of_nat (length ids) <= 2147483647 -> reorder_targets combo ids s = inl s' -> sound s -> sound s'.
Proof.
  intros Hlen. unfold reorder_targets. destruct (validate_reorder_target_ids _ _ _); [|done].
  intros [= <-]. by apply update_chunks_sound.
Qed.

(** What a listed target says of the row it was read from. *)
Lemma row_to_target_columns accounts_of_json conversion ctx r scope col t :
  row_to_target accounts_of_json conversion ctx r scope col = inl t ->
  i32_ok (t_priority_order t) = true
  /\ column_in_range (-2147483648) 2147483647 (Some (t_weight t)) = true
  /\ column_in_range 0 u32_max (t_cooldown_factor t) = true
  /\ t_model_row_id t = ct_model_row_id r /\ t_sub_combo_id t = ct_sub_combo_id r
  /\ t_provider_id t = ct_provider_id r /\ t_account_id t = ct_account_id r.
Proof.
  unfold row_to_target. destruct (i32_ok _) eqn:Hp; [|done]. cbn [negb].
  destruct (column_in_range (-2147483648) _ _) eqn:Hw; [|done]. cbn [negb].
  destruct (RateLimitScope_parse scope); [|done].
  destruct (column_in_range 0 _ _) eqn:Hf; [|done]. cbn [negb]. intros [= <-]. simpl.
  repeat split; [done| |done]. by destruct (ct_weight r).
Qed.

Lemma list_prefixes_ok conversion s target ps :
  list_target_system_prefixes conversion s target = inl ps ->
  Forall (fun p => i32_ok (sp_priority_order p) = true) ps.
Proof.
  unfold list_target_system_prefixes. intros Hps%collect_inl. apply Forall_forall. intros p Hp.
  apply list_elem_of_lookup_1 in Hp as [k Hk].
  destruct (Forall2_lookup_r _ _ _ _ _ Hps Hk) as (r & _ & Hr).
  unfold read_prefix in Hr. destruct (i32_ok _) eqn:Ho; [|done]. by injection Hr as <-.
Qed.

Lemma clone_prefixes_sound violation_text created_at target ps s s' :
  Forall (fun p => i32_ok (sp_priority_order p) = true) ps ->
  clone_prefixes violation_text created_at target ps s = inl s' -> sound s ->
  sound s' /\ ed_tables s' = ed_tables s.
Proof.
  intros Hps. revert s. induction Hps as [|p ps Hp _ IH]; intros s; cbn [clone_prefixes]; [by intros [= <-]|].
  destruct (insert_prefix _ s) as [s1|v] eqn:Hi; cbn [map_err rbind]; [|done]. intros Hcl Hs.
  assert (ed_tables s1 = ed_tables s) as <-.
  { unfold insert_prefix in Hi. case_match; [|done]. by simplify_eq/=. }
  apply IH; [done|]. by eapply insert_prefix_sound.
Qed.

(** What [clone_targets] asks of the targets it copies. *)
Definition cloneable (db : Tables) (combo : Z) (t : ComboTarget) : Prop :=
  i32_ok (t_priority_order t) = true
  /\ column_in_range (-2147483648) 2147483647 (Some (t_weight t)) = true
  /\ column_in_range 0 u32_max (t_cooldown_factor t) = true
  /\ (t_model_row_id t = None \/ t_sub_combo_id t = None)
  /\ (forall sub, t_sub_combo_id t = Some sub -> sub <> combo /\ sub ∈ cr_id <$> combos db)
  /\ (forall row, t_model_row_id t = Some row ->
        exists m, model_row db row = Some m /\ mr_provider_id m = t_provider_id t)
  /\ (forall a, t_account_id t = Some a -> is_Some (account_row db a) /\ is_Some (t_model_row_id t)).

Lemma clone_targets_sound accounts_to_json conversion violation_text created_at combo ts s s' :
  Forall (cloneable (ed_tables s) combo) ts ->
  combo ∈ cr_id <$> combos (ed_tables s) -> (forall u, ~ sub_edge (ed_tables s) u combo) ->
  clone_targets accounts_to_json conversion violation_text created_at combo ts s = inl s' ->
  sound s -> sound s'.
Proof.
  intros Hts. revert s Hts. induction ts as [|t ts IH]; intros s Hts Hc Hno; cbn [clone_targets]; [congruence|].
  apply Forall_cons in Hts as [(Hp & Hw & Hf & Hms & Hsub & Hmod & Hacc) Hts].
  destruct (insert_target _ s) as [s1|v] eqn:Hi; cbn [map_err rbind]; [|done].
  destruct (list_target_system_prefixes _ _ _) as [ps|e] eqn:Hps; cbn [rbind]; [|done].
  destruct (clone_prefixes _ _ _ ps s1) as [s2|e] eqn:Hcp; cbn [rbind]; [|done]. intros Hcl Hs.
  assert (combos (ed_tables s1) = combos (ed_tables s) /\ models (ed_tables s1) = models (ed_tables s)
          /\ accounts (ed_tables s1) = accounts (ed_tables s)
          /\ combo_targets (ed_tables s1)
             = combo_targets (ed_tables s) ++ [cloned_row accounts_to_json combo t (ed_target_seq s + 1)])
    as (Hcs & Hmd & Had & Hct).
  { unfold insert_target in Hi. repeat case_match; try done. by simplify_eq/=. }
  assert (sound s1) as Hs1.
  { eapply insert_target_sound; [exact Hi|done..| |done|done|done]. cbn.
    intros sub Hs'. destruct (Hsub sub Hs') as [Hne Hin]. split; [done|].
    rewrite bsteps_nsteps. intros ([|n] & _ & H); [by apply nsteps_inv_O in H|].
    apply nsteps_inv_r in H as (u & _ & He). by apply (Hno u). }
  apply clone_prefixes_sound in Hcp as [Hs2 Hdb]; [|by eapply list_prefixes_ok|done].
  apply (IH s2); rewrite ?Hdb; unfold cloneable, model_row, account_row; rewrite ?Hcs, ?Hmd, ?Had; try done.
  intros u (r & Hr & Hu & Hv). rewrite Hct in Hr. apply elem_of_app in Hr as [Hr| ->%list_elem_of_singleton].
  - apply (Hno u). by exists r.
  - cbn in Hv. by apply Hsub in Hv as [].
Qed.

Lemma row_to_combo_ok conversion ctx row c :
  row_to_combo conversion ctx row = inl c ->
  race_size_ok (c_race_size c) = true /\ column_in_range 0 u32_max (c_cooldown_factor c) = true.
Proof.
  unfold row_to_combo. destruct (negb _); [done|].
  destruct ((1 <=? cr_race_size row) && (cr_race_size row <=? 8)) eqn:Hr; [|done]. cbn [negb].
  destruct (Strategy_parse _); [|done]. destruct (column_in_range 0 u32_max (cr_cooldown_factor row)) eqn:Hf; [|done].
  by intros [= <-].
Qed.

Lemma clone_combo_sound accounts_to_json datetime accounts_of_json conversion violation_text now created_at
    source override s s' :
  clone_combo accounts_to_json datetime accounts_of_json conversion violation_text now created_at source override s
  = inl s' -> sound s -> sound s'.
Proof.
  unfold clone_combo. destruct (filter _ _) as [|row rows] eqn:Hrow; [done|].
  destruct (row_to_combo _ _ row) as [c|e] eqn:Hc; cbn [rbind]; [|done].
  apply row_to_combo_ok in Hc as [Hrace Hfac].
  destruct (name_taken _ _) eqn:Hn; [done|]. apply name_taken_spec in Hn.
  match goal with |- context [ed_tables ?X] => set (s1 := X) end.
  destruct (db_list_targets _ _ _ _ _ _) as [ts|e] eqn:Hts; cbn [rbind]; [|done]. intros Hcl Hs.
  assert (Forall (fun r => forall i, ct_sub_combo_id r = Some i -> i ∈ cr_id <$> combos (ed_tables s))
            (combo_targets (ed_tables s))) as Hrefs.
  { eapply Forall_impl; [apply (sound_refs s Hs)|]. intros r (_ & H & _). exact H. }
  rewrite Forall_forall in Hrefs. pose proof (sound_seq s Hs) as Hseq. rewrite Forall_forall in Hseq.
  eapply (clone_targets_sound _ _ _ _ (ed_combo_seq s1)); [| | |exact Hcl|].
  - unfold db_list_targets in Hts. apply collect_inl in Hts.
    apply Forall_forall. intros t Ht.
    apply list_elem_of_lookup_1 in Ht as [k Hk].
    destruct (Forall2_lookup_r _ _ _ _ _ Hts Hk) as (r & Hr & Hrt).
    apply list_elem_of_lookup_2 in Hr. rewrite sort_by_perm, list_elem_of_filter in Hr. destruct Hr as [_ Hr].
    change (combo_targets (ed_tables s1)) with (combo_targets (ed_tables s)) in Hr.
    apply row_to_target_columns in Hrt as (? & ? & ? & Hmid & Hsid & Hpid & Haid). unfold cloneable.
    rewrite Hmid, Hsid, Hpid, Haid. pose proof (sound_refs s Hs) as Hok. rewrite Forall_forall in Hok.
    destruct (Hok r Hr) as (_ & _ & _ & Hms & Hmr & Har).
    split; [done|]. split; [done|]. split; [done|].
    split; [done|]. split; [|done].
    + intros sub Hsub. pose proof (Hrefs r Hr sub Hsub) as Hin. pose proof (Hseq sub Hin). simpl.
      rewrite fmap_app. split; [lia|set_solver].
  - simpl. rewrite fmap_app. set_solver.
  - intros u (r & Hr & _ & Hsub). pose proof (Hseq _ (Hrefs r Hr _ Hsub)). simpl in *. lia.
  - apply insert_combo_sound; [done..|].
    split; [done|]. split; [|done]. simpl. rewrite Strategy_parse_as_str. eauto.
Qed.

Lemma create_prefix_sound violation_text created_at target i s s' :
  i32_ok (cp_priority_order i) = true ->
  create_target_system_prefix violation_text created_at target i s = inl s' -> sound s -> sound s'.
Proof.
  intros Hp. unfold create_target_system_prefix. do 3 (destruct (String.eqb _ _); [done|]).
  destruct (insert_prefix _ s) eqn:Hi; [|done]. intros [= <-]. by eapply insert_prefix_sound.
Qed.

Lemma update_prefix_sound id i s :
  (forall n, up_priority_order i = Some n -> i32_ok n = true) ->
  sound s -> sound (update_target_system_prefix id i s).
Proof.
  intros Hn Hs. unfold update_target_system_prefix.
  assert (forall a s, (forall n, a = PPriority n -> i32_ok n = true) -> sound s ->
    sound (edit_prefixes (update_row px_id id (fun r => assign_prefix r a)) s)) as Hset.
  { intros a s1 Ha. apply map_prefixes_sound.
    - intros p. by case_match.
    - intros p Hp. case_match; [|done]. destruct a; try done. by apply Ha. }
  destruct (up_name i), (up_criteria i), (up_system_text i), (up_active i), (up_priority_order i); cbn;
    repeat (apply Hset; [naive_solver|]); done.
Qed.

(** ** Reordering *)

(** Two statements in a row are one over both chunks. *)
Lemma update_chunk_app combo start l1 l2 ts :
  NoDup (l1 ++ l2) ->
  update_chunk combo (start + Z.of_nat (length l1)) l2 (update_chunk combo start l1 ts)
  = update_chunk combo start (l1 ++ l2) ts.
Proof.
  intros (_ & Hdisj & _)%NoDup_app. unfold update_chunk. rewrite <- list_fmap_compose.
  apply list_fmap_ext. intros _ r _. unfold compose.
  destruct (list_find (eq (ct_id r)) l1) as [[i x]|] eqn:H1.
  - rewrite (list_find_app_l _ _ _ _ _ H1). apply list_find_Some in H1 as (Hi%list_elem_of_lookup_2 & <- & _).
    assert (list_find (eq (ct_id r)) l2 = None) as Hnone.
    { apply list_find_None, Forall_forall. intros y Hy Heq. subst y. by apply (Hdisj (ct_id r)). }
    destruct (ct_combo_id r =? combo) eqn:Hc; [change (ct_id (assign_target r _)) with (ct_id r)|]; by rewrite Hnone.
  - rewrite list_find_app_r by done. destruct (list_find (eq (ct_id r)) l2) as [[i x]|]; [|done]. cbn.
    replace (start + Z.of_nat (length l1) + Z.of_nat i + 1) with (start + Z.of_nat (i + length l1) + 1) by lia.
    done.
Qed.

Lemma update_chunk_nil combo start ts : update_chunk combo start [] ts = ts.
Proof. apply list_fmap_id. Qed.

(** The chunks together are one update. *)
Lemma update_chunks_once combo fuel start ids ts :
  NoDup ids -> (length ids <= fuel)%nat ->
  update_chunks combo start (chunks_of fuel CHUNK_SIZE ids) ts = update_chunk combo start ids ts.
Proof.
  revert start ids ts. induction fuel as [|fuel IH]; intros start ids ts Hnd Hlen.
  - destruct ids; [|cbn in Hlen; lia]. by rewrite update_chunk_nil.
  - destruct ids as [|x ids]; [by rewrite update_chunk_nil|]. cbn [chunks_of update_chunks].
    rewrite <- (take_drop CHUNK_SIZE (x :: ids)) in Hnd.
    rewrite <- (take_drop CHUNK_SIZE (x :: ids)) at 3.
    rewrite IH; [|by apply NoDup_app in Hnd as (_ & _ & ?)|].
    2: { rewrite length_drop. unfold CHUNK_SIZE. cbn in *. lia. }
    destruct (decide (CHUNK_SIZE <= length (x :: ids))%nat) as [Hle|Hgt].
    + rewrite <- update_chunk_app by done. by rewrite length_take_le.
    + rewrite drop_ge by lia. rewrite update_chunk_nil. by rewrite app_nil_r.
Qed.

Lemma StronglySorted_lookup_2 {A} (R : relation A) l :
  (forall i j x y, (i < j)%nat -> l !! i = Some x -> l !! j = Some y -> R x y) -> StronglySorted R l.
Proof.
  induction l as [|a l IH]; intros H; constructor.
  - apply IH. intros i j x y Hij Hi Hj. by apply (H (S i) (S j)); [lia|..].
  - apply Forall_lookup. intros j y Hj. by apply (H 0%nat (S j)); [lia|..].
Qed.

(** The position of [a] in [l]. *)
Definition rank (l : list Z) (a : Z) : nat :=
  match list_find (eq a) l with Some (i, _) => i | None => 0 end.

Lemma rank_lookup l i a : NoDup l -> l !! i = Some a -> rank l a = i.
Proof.
  intros Hnd Hi. unfold rank.
  destruct (list_find_elem_of (eq a) l a) as [[j b] Hf]; [by eapply list_elem_of_lookup_2|done|].
  rewrite Hf. apply list_find_Some in Hf as (Hj & <- & _). by eapply NoDup_lookup.
Qed.

(** A list with the elements of [l] whose positions grow is [l]. *)
Lemma sorted_by_rank l l' :
  NoDup l -> l' ≡ₚ l -> StronglySorted (fun a b => rank l a <= rank l b)%nat l' -> l' = l.
Proof.
  intros Hnd Hp Hs. eapply StronglySorted_unique_strong; [|exact Hs| |done].
  - intros a b Ha Hb Hab Hba. rewrite Hp in Ha.
    apply list_elem_of_lookup_1 in Ha as [i Hi], Hb as [j Hj].
    cbn beta in Hab, Hba. rewrite (rank_lookup l i a Hnd Hi), (rank_lookup l j b Hnd Hj) in Hab, Hba.
    assert (i = j) as -> by lia. congruence.
  - apply StronglySorted_lookup_2. intros i j a b Hij Hi Hj.
    rewrite (rank_lookup l i a), (rank_lookup l j b) by done. lia.
Qed.

(** One update over ids that name every target of the combo. *)
Lemma update_chunk_filter combo start ids ts :
  (forall r, r ∈ ts -> ct_combo_id r = combo -> ct_id r ∈ ids) ->
  filter (fun r => ct_combo_id r = combo) (update_chunk combo start ids ts)
  = (fun r => assign_target r (TPriority (start + Z.of_nat (rank ids (ct_id r)) + 1)))
      <$> filter (fun r => ct_combo_id r = combo) ts.
Proof.
  induction ts as [|r ts IH]; intros Hin; [done|]. unfold update_chunk in *.
  rewrite fmap_cons, !filter_cons. specialize (IH ltac:(set_solver)).
  destruct (decide (ct_combo_id r = combo)) as [Hc|Hc].
  - destruct (list_find_elem_of (eq (ct_id r)) ids (ct_id r)) as [[i x] Hf]; [apply Hin; set_solver|done|].
    rewrite Hf, (proj2 (Z.eqb_eq _ _) Hc), decide_True, IH by done.
    rewrite fmap_cons. unfold rank at 2. by rewrite Hf.
  - rewrite decide_False; [done|]. by repeat case_match.
Qed.

(** Rows numbered by position, sorted by priority. *)
Lemma reordered_sorted ids rows :
  NoDup ids -> ids ≡ₚ ct_id <$> rows ->
  ct_id <$> sort_by cmp_target
    ((fun r => assign_target r (TPriority (0 + Z.of_nat (rank ids (ct_id r)) + 1))) <$> rows) = ids.
Proof.
  intros Hnd Hp. apply sorted_by_rank; [done| |].
  - rewrite sort_by_perm, <- list_fmap_compose, Hp. done.
  - match goal with |- context [sort_by cmp_target ?L] => set (l := L) end.
    assert (Forall (fun r => ct_priority_order r = Z.of_nat (rank ids (ct_id r)) + 1) (sort_by cmp_target l)) as Hf.
    { rewrite sort_by_perm. apply Forall_fmap, Forall_true. done. }
    pose proof (sort_by_sorted cmp_target l) as Hs.
    induction Hs as [|r rs Hs IH Hall]; [constructor|]. apply Forall_cons in Hf as [Hr Hf].
    constructor; [by apply IH|]. apply Forall_fmap. eapply Forall_impl; [apply Forall_and; split; [exact Hall|exact Hf]|].
    intros q [Hle Hq]. unfold cmp_target, cmp_then in Hle. cbn.
    destruct (Z.compare_spec (ct_priority_order r) (ct_priority_order q)); [lia|lia|done].
Qed.

Lemma update_chunk_others combo start ids ts :
  filter (fun r => ct_combo_id r <> combo) (update_chunk combo start ids ts)
  = filter (fun r => ct_combo_id r <> combo) ts.
Proof.
  induction ts as [|r ts IH]; [done|]. unfold update_chunk in *. rewrite fmap_cons, !filter_cons.
  destruct (list_find _ _) as [[i x]|]; [|by rewrite IH].
  destruct (Z.eqb_spec (ct_combo_id r) combo) as [Hc|Hc]; [|by rewrite IH].
  by rewrite !decide_False by (intros H; by apply H).
Qed.

Lemma sort_Z_perm l1 l2 : l1 ≡ₚ l2 -> sort_by Z.compare l1 = sort_by Z.compare l2.
Proof.
  intros Hp. apply (StronglySorted_unique_strong (fun a b => (a ?= b) <> Gt)).
  - intros a b _ _ Hab Hba. destruct (Z.compare_spec a b), (Z.compare_spec b a); done || lia.
  - exact (@sort_by_sorted Z Z.compare (by_key_total (fun x => x)) _).
  - exact (@sort_by_sorted Z Z.compare (by_key_total (fun x => x)) _).
  - by rewrite !sort_by_perm.
Qed.

(** Reordering takes effect.  When it succeeds, the combo's targets read
    in priority order are those the caller listed, in that order, however many
    statements of 400 rows the update takes, and the rows of the other combos
    are as before.  It succeeds exactly for a permutation of the targets. *)
Lemma reorder_takes_effect combo ids s :
  sound s ->
  match reorder_targets combo ids s with
  | inl s' =>
      ct_id <$> sort_by cmp_target (filter (fun r => ct_combo_id r = combo) (combo_targets (ed_tables s'))) = ids
      /\ filter (fun r => ct_combo_id r <> combo) (combo_targets (ed_tables s'))
         = filter (fun r => ct_combo_id r <> combo) (combo_targets (ed_tables s))
  | inr _ => ~ ids ≡ₚ ct_id <$> filter (fun r => ct_combo_id r = combo) (combo_targets (ed_tables s))
  end.
Proof.
  intros Hs. unfold reorder_targets, validate_reorder_target_ids.
  set (mine := filter (fun r => ct_combo_id r = combo) (combo_targets (ed_tables s))).
  case_bool_decide as Hv; cbn [rbind].
  - assert (ids ≡ₚ ct_id <$> mine) as Hp.
    { rewrite <- (sort_by_perm Z.compare ids), <- Hv. apply sort_by_perm. }
    assert (NoDup ids) as Hnd by (rewrite Hp; apply NoDup_fmap_filter, (sound_target_ids s Hs)).
    simpl. unfold apply_target_priority_chunks. rewrite update_chunks_once by done. split.
    + rewrite update_chunk_filter.
      2: { intros r Hr Hc. rewrite Hp. apply list_elem_of_fmap_2. by apply list_elem_of_filter. }
      by apply reordered_sorted.
    + apply update_chunk_others.
  - intros Hp. apply Hv. by apply sort_Z_perm.
Qed.

(** ** Histories of edits

    The operations with arguments of their Rust types: an [i32] order and
    weight, a [u32] factor. *)

Section histories.
Context (accounts_to_json : list Z -> option string) (show_f64 : f64 -> string)
        (datetime : string -> option string) (accounts_of_json : string -> option (list Z))
        (conversion : Z -> string) (violation_text : Violation -> string).

Inductive edit_op : (Editor -> Result Editor) -> Prop :=
  | op_create created_at name st n : edit_op (create_combo created_at name st n)
  | op_update id n : edit_op (update_combo id n)
  | op_name id name : edit_op (update_name id name)
  | op_strategy id st : edit_op (update_strategy id st)
  | op_delete id : edit_op (fun s => inl (delete_combo id s))
  | op_clear id : edit_op (fun s => inl (clear_targets id s))
  | op_clone now created_at source name :
      edit_op (clone_combo accounts_to_json datetime accounts_of_json conversion violation_text
                 now created_at source name)
  | op_add_target i : i32_ok (at_priority_order i) = true -> edit_op (add_target accounts_to_json i)
  | op_delete_target id : edit_op (fun s => inl (delete_target id s))
  | op_reorder combo ids : Z.of_nat (length ids) <= 2147483647 -> edit_op (reorder_targets combo ids)
  | op_create_prefix created_at target i : i32_ok (cp_priority_order i) = true ->
      edit_op (create_target_system_prefix violation_text created_at target i)
  | op_update_prefix id i : (forall n, up_priority_order i = Some n -> i32_ok n = true) ->
      edit_op (fun s => inl (update_target_system_prefix id i s))
  | op_delete_prefix id : edit_op (fun s => inl (delete_target_system_prefix id s))
  | op_target_priority id n : i32_ok n = true -> edit_op (fun s => inl (update_target_priority id n s))
  | op_target_active id b : edit_op (fun s => inl (update_target_active id b s))
  | op_target_base id v : edit_op (fun s => inl (update_target_cooldown_base id v s))
  | op_target_max id v : edit_op (fun s => inl (update_target_cooldown_max id v s))
  | op_target_factor id v : column_in_range 0 u32_max v = true ->
      edit_op (fun s => inl (update_target_cooldown_factor id v s))
  | op_target_description id v : edit_op (fun s => inl (update_target_description id v s))
  | op_target_accounts id v : edit_op (fun s => inl (update_target_selected_accounts id v s))
  | op_target_profile id v : edit_op (fun s => inl (update_target_client_profile id v s))
  | op_target_weight id w : i32_ok w = true -> edit_op (update_target_weight id w)
  | op_target_mode id m : edit_op (update_target_cooldown_mode id m)
  | op_target_effort id e : edit_op (fun s => inl (update_target_thinking_effort id e s))
  | op_context_window id v : edit_op (update_context_window id v)
  | op_max_output_tokens id v : edit_op (update_max_output_tokens id v)
  | op_base id v : edit_op (update_cooldown_base id v)
  | op_max id v : edit_op (update_cooldown_max id v)
  | op_factor id v : column_in_range 0 u32_max v = true -> edit_op (update_cooldown_factor id v)
  | op_preventive id b : edit_op (update_preventive_rate_limit id b)
  | op_decision_model id v : edit_op (update_decision_model id v)
  | op_decision_timeout id v : edit_op (update_decision_timeout id v)
  | op_modality_gate id v : edit_op (update_modality_gate id v)
  | op_sanitize id v : edit_op (update_sanitize_response id v)
  | op_real_model id v : edit_op (update_real_model_id id v)
  | op_priority_mode id m : edit_op (update_priority_mode id m)
  | op_cooldown_settings id m base max v : column_in_range 0 u32_max v = true ->
      edit_op (update_cooldown_settings id m base max v)
  | op_cooldown_mode id m : edit_op (update_cooldown_mode id m)
  | op_lkgp id v : edit_op (update_lkgp_settings show_f64 id v)
  | op_window id v : edit_op (update_selection_window id v).

Definition edit_step (s s' : Editor) : Prop := exists op, edit_op op /\ op s = inl s'.

(** Validated columns. *)
Ltac combo_update :=
  apply update_combo_row_sound; repeat constructor; cbn; rewrite ?Strategy_parse_as_str; by eauto.

Lemma edit_op_sound op s s' : edit_op op -> op s = inl s' -> sound s -> sound s'.
Proof.
  destruct 1; try combo_update;
    try (intros [= <-]; first [by apply delete_combo_sound | by apply keep_targets_sound
                              | by apply update_target_row_sound | by apply filter_prefixes_sound
                              | by apply update_prefix_sound]).
  - apply create_combo_sound.
  - destruct n as [n|]; [|by intros [= <-]]. cbn [update_combo].
    destruct (race_size_ok n) eqn:Hn; [|done]. cbn [negb]. combo_update.
  - apply update_name_sound.
  - unfold update_strategy. destruct (Strategy_parse st); [|done]. combo_update.
  - apply clone_combo_sound.
  - by apply add_target_sound.
  - by apply reorder_targets_sound.
  - by apply create_prefix_sound.
  - unfold update_target_weight. destruct (w <=? 0); [done|]. intros [= <-]. by apply update_target_row_sound.
  - unfold update_target_cooldown_mode. destruct (parse_cooldown_mode m); [|done]. intros [= <-].
    by apply update_target_row_sound.
  - unfold update_priority_mode. repeat case_match; try done; combo_update.
  - unfold update_cooldown_settings. destruct (parse_cooldown_mode m); [|done]. cbn [rbind]. combo_update.
  - unfold update_cooldown_mode. destruct (parse_cooldown_mode m); [|done]. cbn [rbind]. combo_update.
  - unfold update_lkgp_settings. repeat case_match; try done; combo_update.
Qed.

Lemma collect_total {A B} (f : A -> Result B) l :
  (forall x, x ∈ l -> exists y, f x = inl y) -> exists ys, collect f l = inl ys.
Proof.
  induction l as [|x l IH]; intros H; simpl; [by eexists|].
  destruct (H x) as [y ->]; [set_solver|]. destruct IH as [ys ->]; [set_solver|]. by eexists.
Qed.

Lemma sound_combo_decodes s ctx c :
  sound s -> c ∈ combos (ed_tables s) -> exists x, row_to_combo conversion ctx c = inl x.
Proof.
  intros Hs Hc. pose proof (sound_combos s Hs) as Hok. rewrite Forall_forall in Hok.
  destruct (Hok c Hc) as (Hr & [st Hst] & Hf). unfold row_to_combo, race_size_ok, u8_max in *.
  rewrite Hst, Hf, Hr. apply andb_true_iff in Hr as [?%Z.leb_le ?%Z.leb_le].
  rewrite !(proj2 (Z.leb_le _ _)) by lia. simpl. by eexists.
Qed.

Lemma sound_target_decodes s ctx r col :
  sound s -> r ∈ combo_targets (ed_tables s) ->
  exists t, row_to_target accounts_of_json conversion ctx r (scope_of (ed_tables s) r) col = inl t.
Proof.
  intros Hs Hr. pose proof (sound_columns s Hs) as Hcol. rewrite Forall_forall in Hcol.
  pose proof (sound_refs s Hs) as Hrefs. rewrite Forall_forall in Hrefs.
  pose proof (sound_scopes s Hs) as Hsc. rewrite Forall_forall in Hsc.
  destruct (Hcol r Hr) as (Hp & Hw & Hf), (Hrefs r Hr) as (_ & _ & [p Hprov] & _).
  unfold row_to_target, scope_of. rewrite Hp, Hw, Hf, Hprov. simpl.
  unfold provider_row in Hprov.
  destruct (Hsc p) as [sc ->]; [|by eexists].
  destruct (filter _ _) as [|q l] eqn:Hq; [done|]. simplify_eq/=.
  assert (p ∈ filter (fun q => pr_id q = ct_provider_id r) (providers (ed_tables s))) by (rewrite Hq; set_solver).
  by apply list_elem_of_filter in H as [_ ?].
Qed.

(** C19. Edits keep the tables in order.  From tables in order every history
    of edits of combos, targets and prefixes leads to tables in order: ids and
    names are distinct, every target refers to an existing combo and provider,
    is a model or a sub-combo but not both, its model exists and is one of its
    provider, its account exists and stands with a model, its sub-combo exists,
    and no combo is below itself by a chain of at most six combos; a system
    prefix belongs to an existing target.  So the list of the combos, the
    targets listed for a combo and the prefixes of a target can be read back. *)
Theorem combo_edits_sound s s' :
  sound s -> rtc edit_step s s' ->
  sound s'
  /\ (exists cs, list_combos conversion (ed_tables s') = inl cs)
  /\ (forall now cid, exists ts,
        db_list_targets datetime accounts_of_json conversion (ed_tables s') now cid = inl ts)
  /\ forall target, exists ps, list_target_system_prefixes conversion s' target = inl ps.
Proof.
  intros Hs Hrun. assert (sound s') as Hs'.
  { induction Hrun as [|s s1 s2 (op & Hop & Hst) _ IH]; [done|]. apply IH. by eapply edit_op_sound. }
  split; [done|]. split; [|split].
  - apply collect_total. intros c. rewrite sort_by_perm. by apply sound_combo_decodes.
  - intros now cid. apply collect_total. intros r. rewrite sort_by_perm.
    intros [_ Hr]%list_elem_of_filter. by apply sound_target_decodes.
  - intros target. apply collect_total. intros p. rewrite sort_by_perm. intros [_ Hp]%list_elem_of_filter.
    pose proof (sound_prefixes s' Hs') as Hok. rewrite Forall_forall in Hok. destruct (Hok p Hp) as [_ Hord].
    unfold read_prefix. rewrite Hord. by eexists.
Qed.
End histories.

(** ** Examples *)

Definition no_combos : Editor :=
  mkEditor (mkTables [mkModelRow 1 "gpt" "openai" 1] [mkProviderRow "openai" 1 "account"] [] [] [] []) [] 0 0 0.

Lemma no_combos_sound : sound no_combos.
Proof.
  split; cbn; try by repeat constructor; eexists.
  intros n c _ (d & (r & Hr & _) & _)%nsteps_inv_S. by apply elem_of_nil in Hr.
Qed.

Definition plain_target (combo : Z) (model sub : option Z) (order : Z) : AddTargetInput :=
  mkAddTarget combo "openai" None model sub order None None None.

Definition no_accounts_json (_ : list Z) : option string := None.

(** Edits in a row, the failed ones without effect. *)
Fixpoint run_edits (ops : list (Editor -> Result Editor)) (s : Editor) : Editor :=
  match ops with
  | [] => s
  | op :: ops' => run_edits ops' (match op s with inl s' => s' | inr _ => s end)
  end.

Lemma run_edits_steps j sf dt aj cv vt ops s :
  Forall (edit_op j sf dt aj cv vt) ops -> rtc (edit_step j sf dt aj cv vt) s (run_edits ops s).
Proof.
  intros H. revert s. induction H as [|op ops Hop _ IH]; intros s; cbn [run_edits]; [constructor|].
  destruct (op s) as [s'|e] eqn:Hs; [|apply IH]. eapply rtc_l; [by exists op|apply IH].
Qed.

(** Two combos, one below the other; the edge back is refused. *)
Definition two_combos : list (Editor -> Result Editor) :=
  [create_combo "2025-01-01" "a" Priority 1; create_combo "2025-01-01" "b" Shuffle 8;
   add_target no_accounts_json (plain_target 1 (Some 1) None 1); add_target no_accounts_json (plain_target 1 None (Some 2) 2);
   add_target no_accounts_json (plain_target 2 None (Some 1) 1)].

Lemma combo_edits_sound_witness :
  length (combo_targets (ed_tables (run_edits two_combos no_combos))) = 2%nat
  /\ sound (run_edits two_combos no_combos).
Proof.
  split; [by vm_compute|].
  apply (combo_edits_sound no_accounts_json (fun _ => ""%string) Some (fun _ => None) pretty (fun _ => ""%string)
           no_combos); [apply no_combos_sound|].
  apply run_edits_steps. repeat constructor.
Defined.

(** The search looks five combos down: a cycle of seven is built one edge at a
    time. *)
Definition ring : list (Editor -> Result Editor) :=
  ((fun n => create_combo "2025-01-01" n Priority 1) <$> ["a"; "b"; "c"; "d"; "e"; "f"; "g"]%string)
  ++ ((fun i => add_target no_accounts_json (plain_target i None (Some (i mod 7 + 1)) 1)) <$> [1; 2; 3; 4; 5; 6; 7]).

Lemma cycle_of_seven_admitted : tc (sub_edge (ed_tables (run_edits ring no_combos))) 1 1.
Proof.
  assert (chain_search (ed_tables (run_edits ring no_combos)) 1 7 [1] = true) as H by (by vm_compute).
  apply chain_search_spec in H as (n & c & _ & ->%list_elem_of_singleton & H).
  apply tc_nsteps. exists (S n). split; [lia|done].
Qed.

(** A clone has the listed targets only, and without their client profile. *)
Definition profiled : list (Editor -> Result Editor) :=
  [create_combo "2025-01-01" "a" Priority 1;
   add_target no_accounts_json (mkAddTarget 1 "openai" None (Some 1) None 1 None None (Some Codex));
   create_combo "2025-01-01" "b" Priority 1; add_target no_accounts_json (plain_target 1 None (Some 2) 2);
   (fun s => inl (update_target_active 2 false s));
   clone_combo no_accounts_json Some (fun _ => None) pretty (fun _ => ""%string) "2025-01-02" "2025-01-02" 1 None].

Lemma clone_loses_target_and_profile :
  (fun r => (ct_combo_id r, ct_model_row_id r, ct_sub_combo_id r, ct_client_profile r))
    <$> combo_targets (ed_tables (run_edits profiled no_combos))
  = [(1, Some 1, None, Some "codex"%string); (1, None, Some 2, None); (3, Some 1, None, None)].
Proof. by vm_compute. Qed.

Lemma run_edits_sound j sf dt aj cv vt ops s :
  Forall (edit_op j sf dt aj cv vt) ops -> sound s -> sound (run_edits ops s).
Proof.
  intros H. revert s. induction H as [|op ops Hop _ IH]; intros s Hs; cbn [run_edits]; [done|].
  apply IH. destruct (op s) eqn:Hst; [|done]. by eapply edit_op_sound.
Qed.

(** Targets 2 and 1 of combo 1, the other way round. *)
Lemma reorder_takes_effect_example :
  match reorder_targets 1 [2; 1] (run_edits two_combos no_combos) with
  | inl s' => ct_id <$> sort_by cmp_target
                (filter (fun r => ct_combo_id r = 1) (combo_targets (ed_tables s'))) = [2; 1]
  | inr _ => False
  end.
Proof.
  assert (sound (run_edits two_combos no_combos)) as Hs.
  { apply (run_edits_sound no_accounts_json (fun _ => ""%string) Some (fun _ => None) pretty (fun _ => ""%string)).
    - repeat constructor.
    - apply no_combos_sound. }
  pose proof (reorder_takes_effect 1 [2; 1] _ Hs) as H.
  destruct (reorder_targets 1 [2; 1] (run_edits two_combos no_combos)) eqn:Hr; [apply H|].
  vm_compute in Hr. discriminate Hr.
Qed.
