(* ===== verification/ProxyPool.v ===== *)
(** * The proxy pool

    Models openproxy-db/src/free_proxies.rs (which proxy a provider or an
    account goes through), openproxy-pipeline/src/dispatcher/rotation.rs (what
    an error does to it) and the writing half of
    openproxy-proxy-pool/src/free_proxies/crud.rs, over the tables of proxies,
    sources and proxy cooldowns and the proxy columns of providers and
    accounts.

    Times are nanoseconds; one call reads the clock once.  Deleting a proxy
    deletes its cooldowns and the bindings of providers, but not those of
    accounts, which have no foreign key.  [random()], [Uuid::new_v4], the
    printers of dates and of [JoinError], Unicode lowercasing and the last date
    chrono can hold are parameters. *)

From Stdlib Require Import Ascii String.
From stdpp Require Import pretty.
From S2P Require Import Prelude Types Text Errors ComboTree Resolution.

Record FreeProxy := mkFreeProxy {
  fp_id : string;
  fp_source : string;
  fp_host : string;
  fp_port : Z;
  fp_type : string;
  fp_country_code : option string;
  fp_status : string;
  fp_latency_ms : option Z;
  fp_last_validated : option string;
  fp_username : option string;
  fp_password : option string;
  fp_priority : Z;
  fp_created_at : string;
  fp_updated_at : string
}.

(** The columns of a provider these functions read and write. *)
Record ProxyProvider := mkProxyProvider {
  pv_id : string;
  pv_use_proxies : bool;
  pv_rotation_mode : string;
  pv_rotation_errors : string;
  pv_direct_first : bool;
  pv_current_proxy_id : option string
}.

Record ProxyAccount := mkProxyAccount {
  pa_id : Z;
  pa_provider_id : string;
  pa_current_proxy_id : option string
}.

Record ProxySource := mkProxySource {
  ps_id : string;
  ps_name : string;
  ps_priority : Z
}.

Record ProxyDb := mkProxyDb {
  pool : list FreeProxy;
  proxy_providers : list ProxyProvider;
  proxy_accounts : list ProxyAccount;
  proxy_sources : list ProxySource;
  proxy_cooldowns : gmap (string * string) Z
}.

Definition set_pool (l : list FreeProxy) (db : ProxyDb) : ProxyDb :=
  mkProxyDb l (proxy_providers db) (proxy_accounts db) (proxy_sources db) (proxy_cooldowns db).

Definition set_providers (l : list ProxyProvider) (db : ProxyDb) : ProxyDb :=
  mkProxyDb (pool db) l (proxy_accounts db) (proxy_sources db) (proxy_cooldowns db).

Definition set_accounts (l : list ProxyAccount) (db : ProxyDb) : ProxyDb :=
  mkProxyDb (pool db) (proxy_providers db) l (proxy_sources db) (proxy_cooldowns db).

Definition set_sources (l : list ProxySource) (db : ProxyDb) : ProxyDb :=
  mkProxyDb (pool db) (proxy_providers db) (proxy_accounts db) l (proxy_cooldowns db).

Definition set_cooldowns (m : gmap (string * string) Z) (db : ProxyDb) : ProxyDb :=
  mkProxyDb (pool db) (proxy_providers db) (proxy_accounts db) (proxy_sources db) m.

Definition proxy_exists (db : ProxyDb) (id : string) : bool :=
  existsb (fun p => String.eqb (fp_id p) id) (pool db).

Definition get_provider (db : ProxyDb) (id : string) : option ProxyProvider :=
  head (filter (fun p => pv_id p = id) (proxy_providers db)).

Definition get_account (db : ProxyDb) (id : Z) : option ProxyAccount :=
  head (filter (fun a => pa_id a = id) (proxy_accounts db)).

(** ** Bindings *)

Definition bind_provider (o : option string) (p : ProxyProvider) : ProxyProvider :=
  mkProxyProvider (pv_id p) (pv_use_proxies p) (pv_rotation_mode p) (pv_rotation_errors p)
    (pv_direct_first p) o.

Definition bind_account (o : option string) (a : ProxyAccount) : ProxyAccount :=
  mkProxyAccount (pa_id a) (pa_provider_id a) o.

(** [None] is a violation of the foreign key to [free_proxies]. *)
Definition update_current_proxy (id : string) (o : option string) (db : ProxyDb) : option ProxyDb :=
  if match o with Some x => proxy_exists db x || negb (bool_decide (is_Some (get_provider db id))) | None => true end
  then Some (set_providers ((fun p => if String.eqb (pv_id p) id then bind_provider o p else p)
                              <$> proxy_providers db) db)
  else None.

Definition get_current_proxy_id (db : ProxyDb) (account : Z) : option string :=
  get_account db account ≫= pa_current_proxy_id.

Definition set_account_proxy (account : Z) (o : option string) (db : ProxyDb) : ProxyDb :=
  set_accounts ((fun a => if pa_id a =? account then bind_account o a else a) <$> proxy_accounts db) db.

Definition clear_current_proxy_id (account : Z) (db : ProxyDb) : ProxyDb := set_account_proxy account None db.

(** [DELETE FROM free_proxies], with what the foreign keys do. *)
Definition remove_proxies (gone : FreeProxy -> bool) (db : ProxyDb) : ProxyDb :=
  let ids := fp_id <$> filter (fun p => gone p = true) (pool db) in
  mkProxyDb (filter (fun p => gone p = false) (pool db))
    ((fun p => match pv_current_proxy_id p with
               | Some x => if bool_decide (x ∈ ids) then bind_provider None p else p
               | None => p
               end) <$> proxy_providers db)
    (proxy_accounts db) (proxy_sources db)
    (filter (fun kv => kv.1.2 ∉ ids) (proxy_cooldowns db)).

(** ** Choosing a proxy (free_proxies.rs of openproxy-db) *)

Definition MINUTE : Z := 60000000000.

(** [Duration::from_std], 15 minutes when it is out of range. *)
Definition std_duration (ms : Z) : Z := if ms <=? i64_max then ms * 1000000 else 15 * MINUTE.

Definition is_proxy_in_cooldown (now : Z) (provider proxy : string) (db : ProxyDb) : bool :=
  match proxy_cooldowns db !! (provider, proxy) with Some until => now <? until | None => false end.

(** [ORDER BY latency_ms ASC]: [NULL] comes first. *)
Definition cmp_latency (a b : option Z) : comparison :=
  match a, b with
  | None, None => Eq
  | None, Some _ => Lt
  | Some _, None => Gt
  | Some x, Some y => x ?= y
  end.

Section pool.
Context (to_lowercase : string -> string) (max_utc : Z) (rfc3339 : Z -> string) (task_panicked : string).

Definition cmp_candidate (random : string -> Z) (a b : FreeProxy) : comparison :=
  cmp_then (fp_priority b ?= fp_priority a)
    (cmp_then (cmp_latency (fp_latency_ms a) (fp_latency_ms b)) (random (fp_id a) ?= random (fp_id b))).

Definition alive_proxies (random : string -> Z) (db : ProxyDb) : list FreeProxy :=
  take 2000 (sort_by (cmp_candidate random) (filter (fun p => fp_status p = "alive"%string) (pool db))).

Definition format_proxy_url (proto host : string) (port : Z) (username password : option string) : string :=
  match username, password with
  | Some u, Some p => to_lowercase proto +:+ "://" +:+ u +:+ ":" +:+ p +:+ "@" +:+ host +:+ ":" +:+ pretty port
  | _, _ => to_lowercase proto +:+ "://" +:+ host +:+ ":" +:+ pretty port
  end.

Definition proxy_url (p : FreeProxy) : string :=
  format_proxy_url (fp_type p) (fp_host p) (fp_port p) (fp_username p) (fp_password p).

Definition check_proxy_enabled (db : ProxyDb) (provider : string) : option ProxyProvider :=
  match get_provider db provider with
  | Some p => if pv_use_proxies p then Some p else None
  | None => None
  end.

Definition is_per_account (p : ProxyProvider) : bool := String.eqb (pv_rotation_mode p) "account".

Definition resolve_current_proxy_id (db : ProxyDb) (p : ProxyProvider) (account : option Z) (per_account : bool)
    : option string :=
  if per_account then account ≫= get_current_proxy_id db else pv_current_proxy_id p.

Definition fetch_alive_proxy_url (now : Z) (db : ProxyDb) (provider proxy : string) : option string :=
  if is_proxy_in_cooldown now provider proxy db then None
  else proxy_url <$> head (filter (fun p => fp_id p = proxy /\ fp_status p = "alive"%string) (pool db)).

(** No account has the id 0 that stands for none. *)
Definition fetch_accounts_in_use_proxies (db : ProxyDb) (provider : string) (account : option Z) : list string :=
  omap pa_current_proxy_id
    (filter (fun a => pa_provider_id a = provider /\ pa_id a <> default 0 account) (proxy_accounts db)).

Definition select_available_proxy (random : string -> Z) (now : Z) (db : ProxyDb) (provider : string)
    (in_use : list string) : option FreeProxy :=
  head (filter (fun p => is_proxy_in_cooldown now provider (fp_id p) db = false /\ fp_id p ∉ in_use)
          (alive_proxies random db)).

Definition save_assigned_proxy (db : ProxyDb) (provider : string) (account : option Z) (per_account : bool)
    (id : string) : Result ProxyDb :=
  if per_account
  then match account with Some a => inl (set_account_proxy a (Some id) db) | None => inl db end
  else match update_current_proxy provider (Some id) db with
       | Some db' => inl db'
       | None => inr (Database "foreign key")
       end.

Definition no_alive_error (provider : string) : CoreError :=
  Validation ("use_proxies is enabled for provider '" +:+ provider
              +:+ "', but no alive proxies are available in pool").

Definition assign_new_proxy (random : string -> Z) (now : Z) (provider : string) (account : option Z)
    (per_account : bool) (db : ProxyDb) : Result (option string) * ProxyDb :=
  let in_use := if per_account then fetch_accounts_in_use_proxies db provider account else [] in
  match select_available_proxy random now db provider in_use with
  | None => (inr (no_alive_error provider), db)
  | Some p =>
      match save_assigned_proxy db provider account per_account (fp_id p) with
      | inl db' => (inl (Some (proxy_url p)), db')
      | inr e => (inr e, db)
      end
  end.

Definition get_or_assign_provider_proxy (random : string -> Z) (now : Z) (provider : string) (account : option Z)
    (db : ProxyDb) : Result (option string) * ProxyDb :=
  match check_proxy_enabled db provider with
  | None => (inl None, db)
  | Some p =>
      let per_account := is_per_account p in
      let assign := assign_new_proxy random now provider account per_account db in
      match resolve_current_proxy_id db p account per_account with
      | Some id => match fetch_alive_proxy_url now db provider id with
                   | Some url => (inl (Some url), db)
                   | None => assign
                   end
      | None => if pv_direct_first p then (inl None, db) else assign
      end
  end.

Definition get_candidate_proxies_for_provider (random : string -> Z) (now : Z) (db : ProxyDb) (provider : string)
    (limit : nat) : list (string * string) :=
  (fun p => (fp_id p, proxy_url p))
    <$> take limit (filter (fun p => is_proxy_in_cooldown now provider (fp_id p) db = false)
                      (alive_proxies random db)).

(** [str::split_once] at a string. *)
Fixpoint split_once_str (sep s : string) : option (string * string) :=
  if starts_with sep s then Some (""%string, string_drop (String.length sep) s)
  else match s with
       | EmptyString => None
       | String a s' => match split_once_str sep s' with
                        | Some (p, r) => Some (String a p, r)
                        | None => None
                        end
       end.

Definition get_proxy_status_by_url (db : ProxyDb) (url : string) : option string :=
  '(_, host_port) ← split_once_str "://" url;
  '(host, port_str) ← split_once_char ":" host_port;
  port ← parse_i64 port_str;
  fp_status <$> head (filter (fun p => fp_host p = host /\ fp_port p = port) (pool db)).

(** ** Rows of proxies and sources *)

Definition set_status (status : string) (latency : option Z) (now : string) (p : FreeProxy) : FreeProxy :=
  mkFreeProxy (fp_id p) (fp_source p) (fp_host p) (fp_port p) (fp_type p) (fp_country_code p) status latency
    (Some now) (fp_username p) (fp_password p) (fp_priority p) (fp_created_at p) now.

(** Of openproxy-proxy-pool; that of openproxy-db writes no latency. *)
Definition update_proxy_status (now : Z) (id status : string) (latency : option Z) (db : ProxyDb) : ProxyDb :=
  set_pool ((fun p => if String.eqb (fp_id p) id then set_status status latency (rfc3339 now) p else p)
              <$> pool db) db.

Definition db_update_proxy_status (now : Z) (id status : string) (db : ProxyDb) : ProxyDb :=
  update_proxy_status now id status None db.

Definition delete_proxy (id : string) (db : ProxyDb) : ProxyDb :=
  remove_proxies (fun p => String.eqb (fp_id p) id) db.

Definition prune_dead_proxies (db : ProxyDb) : nat * ProxyDb :=
  (length (filter (fun p => fp_status p = "dead"%string) (pool db)),
   remove_proxies (fun p => String.eqb (fp_status p) "dead") db).

Definition delete_proxy_source (id : string) (db : ProxyDb) : bool * ProxyDb :=
  let db1 := match head (filter (fun s => ps_id s = id) (proxy_sources db)) with
             | Some s => remove_proxies (fun p => String.eqb (fp_source p) (ps_name s)) db
             | None => db
             end in
  (existsb (fun s => String.eqb (ps_id s) id) (proxy_sources db),
   set_sources (filter (fun s => ps_id s <> id) (proxy_sources db1)) db1).

(** The first of [ids] gets the highest priority. *)
Fixpoint apply_source_priorities (n : nat) (ids : list string) (sources : list ProxySource) : list ProxySource :=
  match ids with
  | [] => sources
  | id :: ids' =>
      apply_source_priorities (n - 1) ids'
        ((fun s => if String.eqb (ps_id s) id then mkProxySource (ps_id s) (ps_name s) (Z.of_nat n * 10) else s)
           <$> sources)
  end.

Definition reorder_proxy_sources (ids : list string) (db : ProxyDb) : ProxyDb :=
  set_sources (apply_source_priorities (length ids) ids (proxy_sources db)) db.

(** [INSERT ... ON CONFLICT(host, port) DO UPDATE]. *)
Definition upsert_proxy (row : FreeProxy) (merge : FreeProxy -> FreeProxy) (db : ProxyDb) : ProxyDb :=
  if existsb (fun p => String.eqb (fp_host p) (fp_host row) && (fp_port p =? fp_port row)) (pool db)
  then set_pool ((fun p => if String.eqb (fp_host p) (fp_host row) && (fp_port p =? fp_port row)
                           then merge p else p) <$> pool db) db
  else set_pool (pool db ++ [row]) db.

(** [COALESCE]. *)
Definition coalesce {A} (a b : option A) : option A := match a with Some _ => a | None => b end.

Definition add_custom_proxy (now : Z) (uuid host : string) (port : Z) (type : string)
    (country username password : option string) (db : ProxyDb) : option FreeProxy * ProxyDb :=
  let t := rfc3339 now in
  let db' := upsert_proxy
    (mkFreeProxy uuid "custom" host port (to_lowercase type) country "unknown" None None username password 0 t t)
    (fun p => mkFreeProxy (fp_id p) "custom" (fp_host p) (fp_port p) (to_lowercase type)
                (coalesce country (fp_country_code p)) (fp_status p) (fp_latency_ms p) (fp_last_validated p)
                username password (fp_priority p) (fp_created_at p) t) db in
  (head (filter (fun p => fp_host p = host /\ fp_port p = port) (pool db')), db').

Record ScrapedProxy := mkScrapedProxy {
  sc_source : string;
  sc_host : string;
  sc_port : Z;
  sc_type : string;
  sc_country_code : option string;
  sc_username : option string;
  sc_password : option string;
  sc_priority : Z
}.

Definition upsert_scraped (t uuid : string) (s : ScrapedProxy) (db : ProxyDb) : ProxyDb :=
  upsert_proxy
    (mkFreeProxy uuid (sc_source s) (sc_host s) (sc_port s) (sc_type s) (sc_country_code s) "unknown" None None
       (sc_username s) (sc_password s) (sc_priority s) t t)
    (fun p => mkFreeProxy (fp_id p) (if String.eqb (fp_source p) "custom" then "custom" else sc_source s)
                (fp_host p) (fp_port p) (sc_type s) (coalesce (sc_country_code s) (fp_country_code p))
                (fp_status p) (fp_latency_ms p) (fp_last_validated p) (sc_username s) (sc_password s)
                (sc_priority s) (fp_created_at p) t) db.

(** The scraped rows with the ids drawn for them, in one transaction. *)
Definition upsert_scraped_proxies (now : Z) (rows : list (string * ScrapedProxy)) (db : ProxyDb) : ProxyDb :=
  foldl (fun db '(uuid, s) => upsert_scraped (rfc3339 now) uuid s db) db rows.

(** ** Rotation (rotation.rs) *)

Inductive ProxyRotationTrigger := TriggerStatus (code : Z) | TriggerConnectError | TriggerRateLimited.

Definition find_bad_proxy_id (db : ProxyDb) (p : ProxyProvider) (override : option string) (per_account : bool)
    (account : option Z) : option string :=
  match override with
  | Some id => Some id
  | None => resolve_current_proxy_id db p account per_account
  end.

Definition should_rotate_proxy (p : ProxyProvider) (t : ProxyRotationTrigger) : bool :=
  let errors := trim <$> split_char "," (pv_rotation_errors p) in
  match t with
  | TriggerRateLimited => true
  | TriggerStatus sc => existsb (String.eqb (pretty sc)) errors
  | TriggerConnectError => existsb (fun e => String.eqb e "connect_error" || String.eqb e "timeout") errors
  end.

(** Nothing when a foreign key fails; [None] is the panic of the date. *)
Definition add_proxy_cooldown (now : Z) (provider proxy : string) (ms : Z) (db : ProxyDb) : option ProxyDb :=
  let until := now + std_duration ms in
  if until <=? max_utc
  then Some (if proxy_exists db proxy && bool_decide (is_Some (get_provider db provider))
             then set_cooldowns (<[(provider, proxy) := until]> (proxy_cooldowns db)) db else db)
  else None.

(** Forget the binding of the account or of the provider. *)
Definition unbind (provider : string) (account : option Z) (per_account : bool) (db : ProxyDb) : ProxyDb :=
  if per_account then match account with Some a => clear_current_proxy_id a db | None => db end
  else default db (update_current_proxy provider None db).

Definition FIFTEEN_MINUTES_MS : Z := 900000.

(** A panic is answered with [false] by the caller. *)
Definition apply_proxy_rotation (random : string -> Z) (now : Z) (provider bad : string)
    (t : ProxyRotationTrigger) (per_account : bool) (account : option Z) (cooldown_ms : option Z) (db : ProxyDb)
    : bool * ProxyDb :=
  let db1 := match t with TriggerConnectError => db_update_proxy_status now bad "dead" db | _ => db end in
  match add_proxy_cooldown now provider bad (default FIFTEEN_MINUTES_MS cooldown_ms) db1 with
  | None => (false, db1)
  | Some db2 =>
      if default false (pv_direct_first <$> get_provider db2 provider)
      then match assign_new_proxy random now provider account per_account db2 with
           | (inl (Some _), db3) => (true, db3)
           | (_, db3) => (false, unbind provider account per_account db3)
           end
      else
        let db3 := unbind provider account per_account db2 in
        (negb (bool_decide (get_candidate_proxies_for_provider random now db3 provider 1 = [])), db3)
  end.

Definition check_and_trigger_proxy_rotation (random : string -> Z) (now : Z) (provider : string)
    (account : option Z) (override : option string) (t : ProxyRotationTrigger) (cooldown_ms : option Z)
    (db : ProxyDb) : bool * ProxyDb :=
  match get_provider db provider with
  | None => (false, db)
  | Some p =>
      if negb (pv_use_proxies p) then (false, db)
      else
        let per_account := is_per_account p in
        if should_rotate_proxy p t
        then match find_bad_proxy_id db p override per_account account with
             | Some bad => apply_proxy_rotation random now provider bad t per_account account cooldown_ms db
             | None =>
                 if pv_direct_first p
                 then let '(r, db') := assign_new_proxy random now provider account per_account db in
                      (match r with inl (Some _) => true | _ => false end, db')
                 else (false, db)
             end
        else (false, db)
  end.

(** ** Failures reported from outside (crud.rs of openproxy-proxy-pool)

    [writer]: the writer lock was obtained in time. *)

Definition resolve_active_proxy (writer : bool) (random : string -> Z) (now : Z) (provider : string)
    (account : option Z) (db : ProxyDb) : Result (option string) * ProxyDb :=
  if writer then get_or_assign_provider_proxy random now provider account db
  else (inr (Internal "timeout waiting for db writer lock during proxy resolution"), db).

Definition report_proxy_failure (writer : bool) (random : string -> Z) (now : Z) (provider : string)
    (account : option Z) (is_connect_error : bool) (db : ProxyDb) : Result bool * ProxyDb :=
  if negb writer
  then (inr (Internal "timeout waiting for db writer lock during proxy failure reporting"), db)
  else match get_provider db provider with
  | None => (inl false, db)
  | Some p =>
      if negb (pv_use_proxies p) then (inl false, db)
      else
        let per_account := is_per_account p in
        match resolve_current_proxy_id db p account per_account with
        | None =>
            if pv_direct_first p
            then let '(r, db') := assign_new_proxy random now provider account per_account db in
                 (inl (match r with inl (Some _) => true | _ => false end), db')
            else (inl false, db)
        | Some bad =>
            let db1 := if is_connect_error then db_update_proxy_status now bad "dead" db else db in
            match add_proxy_cooldown now provider bad FIFTEEN_MINUTES_MS db1 with
            | None => (inr (Internal ("proxy failure task panicked: " +:+ task_panicked)), db1)
            | Some db2 =>
                let db3 := unbind provider account per_account db2 in
                (inl true,
                 if pv_direct_first p then (assign_new_proxy random now provider account per_account db3).2
                 else db3)
            end
        end
  end.
End pool.

(** ** Lookups *)

Lemma head_filter_map {A} (P : A -> Prop) `{!forall x, Decision (P x)} (f : A -> A) l :
  (forall x, P (f x) <-> P x) -> head (filter P (f <$> l)) = f <$> head (filter P l).
Proof.
  intros Hf. induction l as [|x l IH]; [done|]. rewrite fmap_cons, !filter_cons.
  destruct (decide (P x)) as [HP|HP].
  - rewrite decide_True by by apply Hf. done.
  - rewrite decide_False by by rewrite Hf. done.
Qed.

Lemma proxy_exists_spec db id : proxy_exists db id = true <-> id ∈ fp_id <$> pool db.
Proof.
  unfold proxy_exists. rewrite existsb_exists, list_elem_of_fmap. setoid_rewrite <- list_elem_of_In.
  setoid_rewrite String.eqb_eq. split; intros (p & H1 & H2); exists p; by subst.
Qed.

(** What binds [account] or the provider at the moment. *)
Definition binding (db : ProxyDb) (provider : string) (account : option Z) : option string :=
  p ← get_provider db provider; resolve_current_proxy_id db p account (is_per_account p).

(** The bindings are the only thing these functions write. *)
Lemma get_provider_bind db id o db' :
  update_current_proxy id o db = Some db' -> get_provider db' id = bind_provider o <$> get_provider db id.
Proof.
  unfold update_current_proxy. destruct (match o with Some _ => _ | None => _ end); [|done]. intros [= <-].
  unfold get_provider. cbn. rewrite head_filter_map.
  - destruct (head _) as [p|] eqn:Hp; [|done]. apply head_filter_Some in Hp as [<- _]. cbn.
    by rewrite String.eqb_refl.
  - intros p. by destruct (String.eqb _ _).
Qed.

Lemma get_account_bind db id o :
  get_account (set_account_proxy id o db) id = bind_account o <$> get_account db id.
Proof.
  unfold get_account. cbn. rewrite head_filter_map.
  - destruct (head _) as [a|] eqn:Ha; [|done]. apply head_filter_Some in Ha as [<- _]. cbn. by rewrite Z.eqb_refl.
  - intros a. by destruct (_ =? _).
Qed.

(** A proxy that [provider] may use now. *)
Definition usable (now : Z) (provider : string) (db : ProxyDb) (p : FreeProxy) : Prop :=
  p ∈ pool db /\ fp_status p = "alive"%string /\ is_proxy_in_cooldown now provider (fp_id p) db = false.

Lemma elem_of_alive random db p :
  p ∈ alive_proxies random db -> p ∈ pool db /\ fp_status p = "alive"%string.
Proof.
  unfold alive_proxies. intros Hp%elem_of_take. destruct Hp as (i & Hp & _).
  apply list_elem_of_lookup_2 in Hp. rewrite sort_by_perm in Hp. apply list_elem_of_filter in Hp as [? ?]. done.
Qed.

Lemma alive_all random db p :
  (length (filter (fun p => fp_status p = "alive"%string) (pool db)) <= 2000)%nat ->
  p ∈ pool db -> fp_status p = "alive"%string -> p ∈ alive_proxies random db.
Proof.
  intros Hlen Hp Ha. unfold alive_proxies. rewrite take_ge.
  - rewrite sort_by_perm. by apply list_elem_of_filter.
  - by rewrite (Permutation_length (sort_by_perm (cmp_candidate random) _)).
Qed.

Lemma select_usable random now db provider in_use p :
  select_available_proxy random now db provider in_use = Some p ->
  usable now provider db p /\ fp_id p ∉ in_use.
Proof.
  unfold select_available_proxy. intros [[Hc Hu] [Hp Ha]%elem_of_alive]%head_filter_Some. done.
Qed.

Lemma select_none random now db provider in_use p :
  select_available_proxy random now db provider in_use = None ->
  (length (filter (fun p => fp_status p = "alive"%string) (pool db)) <= 2000)%nat ->
  usable now provider db p -> fp_id p ∈ in_use.
Proof.
  unfold select_available_proxy. intros Hn Hlen (Hp & Ha & Hc).
  destruct (decide (fp_id p ∈ in_use)) as [|Hu]; [done|].
  by destruct (head_filter_None _ _ Hn p (alive_all random db p Hlen Hp Ha)).
Qed.

(** ** Assignment *)

(** The write of an assignment. *)
Definition bound_to (provider : string) (account : option Z) (per_account : bool) (id : string) (db db' : ProxyDb)
    : Prop :=
  if per_account
  then db' = match account with Some a => set_account_proxy a (Some id) db | None => db end
  else update_current_proxy provider (Some id) db = Some db'.

(** The proxies that are not free for the account. *)
Definition taken (db : ProxyDb) (provider : string) (account : option Z) (per_account : bool) : list string :=
  if per_account then fetch_accounts_in_use_proxies db provider account else [].

(** In a pool that the query reads as a whole every usable proxy is taken. *)
Definition none_free (now : Z) (provider : string) (account : option Z) (per_account : bool) (db : ProxyDb) : Prop :=
  (length (filter (fun p => fp_status p = "alive"%string) (pool db)) <= 2000)%nat ->
  forall q, usable now provider db q -> fp_id q ∈ taken db provider account per_account.

Lemma assign_spec lower random now provider account per_account db r db' :
  assign_new_proxy lower random now provider account per_account db = (r, db') ->
  match r with
  | inl (Some url) => exists q, usable now provider db q /\ url = proxy_url lower q
                      /\ fp_id q ∉ taken db provider account per_account
                      /\ bound_to provider account per_account (fp_id q) db db'
  | inl None => False
  | inr e => e = no_alive_error provider /\ db' = db /\ none_free now provider account per_account db
  end.
Proof.
  unfold assign_new_proxy, taken.
  destruct (select_available_proxy _ _ _ _ _) as [q|] eqn:Hsel.
  - apply select_usable in Hsel as [Hq Hu]. unfold save_assigned_proxy, bound_to.
    destruct per_account; [destruct account; intros [= <- <-]; by eauto 8|].
    destruct (update_current_proxy _ _ _) as [db1|] eqn:Hup; [intros [= <- <-]; by eauto 8|].
    exfalso. revert Hup. unfold update_current_proxy.
    rewrite (proj2 (proxy_exists_spec db (fp_id q))); [done|]. apply list_elem_of_fmap_2, Hq.
  - intros [= <- <-]. split; [done|]. split; [done|]. intros Hlen q Hq. by eapply select_none.
Qed.

Lemma bound_to_binding provider account id db db' p :
  get_provider db provider = Some p ->
  (is_per_account p = true -> exists a, account = Some a /\ is_Some (get_account db a)) ->
  bound_to provider account (is_per_account p) id db db' -> binding db' provider account = Some id.
Proof.
  intros Hp Hacc. unfold bound_to, binding. destruct (is_per_account p) eqn:Hper.
  - destruct (Hacc eq_refl) as (a & -> & [row Hrow]). intros ->.
    change (get_provider (set_account_proxy a (Some id) db) provider) with (get_provider db provider).
    rewrite Hp. cbn [mbind option_bind]. rewrite Hper. cbn [resolve_current_proxy_id mbind option_bind].
    unfold get_current_proxy_id. by rewrite get_account_bind, Hrow.
  - intros Hup. rewrite (get_provider_bind _ _ _ _ Hup), Hp. cbn [mbind option_bind fmap option_fmap option_map].
    change (is_per_account (bind_provider (Some id) p)) with (is_per_account p). by rewrite Hper.
Qed.

(** The request goes through a usable proxy, to which it stays bound. *)
Definition goes_through (lower : string -> string) (now : Z) (provider : string) (account : option Z)
    (p : ProxyProvider) (db db' : ProxyDb) (url : string) : Prop :=
  exists q, usable now provider db q /\ url = proxy_url lower q
  /\ ((is_per_account p = true -> exists a, account = Some a /\ is_Some (get_account db a)) ->
      binding db' provider account = Some (fp_id q)).

Lemma assign_goes_through lower random now provider account db r db' p :
  get_provider db provider = Some p ->
  assign_new_proxy lower random now provider account (is_per_account p) db = (r, db') ->
  match r with
  | inl (Some url) => goes_through lower now provider account p db db' url
  | inl None => False
  | inr e => e = no_alive_error provider /\ db' = db /\ none_free now provider account (is_per_account p) db
  end.
Proof.
  intros Hp Ha%assign_spec. destruct r as [[url|]|e]; [|done..].
  destruct Ha as (q & Hq & Hurl & _ & Hbound). exists q. split; [done|]. split; [done|].
  intros Hacc. by eapply bound_to_binding.
Qed.

(** A provider that uses proxies goes through one.  What a request gets
    is the address of a proxy of the pool that is alive and in no cooldown for
    the provider, and the account or the provider stays bound to it; a direct
    connection is used only without proxies or where it comes first and
    nothing is bound yet; when no proxy is free the request fails, and then,
    in a pool of up to 2000 live proxies, every usable one belongs to another
    account. *)
Lemma proxies_are_used lower random now provider account db :
  let '(r, db') := get_or_assign_provider_proxy lower random now provider account db in
  match check_proxy_enabled db provider, r with
  | None, _ => r = inl None /\ db' = db
  | Some p, inl (Some url) =>
      goes_through lower now provider account p db db' url
  | Some p, inl None => pv_direct_first p = true /\ binding db provider account = None /\ db' = db
  | Some p, inr e =>
      e = no_alive_error provider /\ db' = db /\ none_free now provider account (is_per_account p) db
  end.
Proof.
  unfold get_or_assign_provider_proxy.
  destruct (check_proxy_enabled db provider) as [p|] eqn:Hen; [|done].
  assert (get_provider db provider = Some p) as Hp.
  { revert Hen. unfold check_proxy_enabled. destruct (get_provider db provider) as [q|]; [|done].
    by destruct (pv_use_proxies q); intros [= ->]. }
  assert (binding db provider account = resolve_current_proxy_id db p account (is_per_account p)) as Hb.
  { unfold binding. by rewrite Hp. }
  destruct (assign_new_proxy _ _ _ _ _ _ _) as [r db'] eqn:Ha.
  apply (assign_goes_through _ _ _ _ _ _ _ _ p Hp) in Ha.
  destruct (resolve_current_proxy_id _ _ _ _) as [id|] eqn:Hres.
  - unfold fetch_alive_proxy_url. destruct (is_proxy_in_cooldown _ _ _ _) eqn:Hc.
    + by destruct r as [[url|]|e].
    + destruct (head _) as [q|] eqn:Hq; cbn [fmap option_fmap option_map]; [|by destruct r as [[url|]|e]].
      apply head_filter_Some in Hq as [[<- Hal] Hin]. exists q. done.
  - destruct (pv_direct_first p) eqn:Hd; [done|]. by destruct r as [[url|]|e].
Qed.

(** ** Rotation *)

(** What no assignment touches. *)
Lemma bound_to_frame provider account per_account id db db' :
  bound_to provider account per_account id db db' ->
  pool db' = pool db /\ proxy_cooldowns db' = proxy_cooldowns db.
Proof.
  unfold bound_to. destruct per_account; [destruct account; by intros ->|].
  unfold update_current_proxy. destruct (_ || _); [|done]. by intros [= <-].
Qed.

Lemma bound_to_at_most provider account id db db' p :
  get_provider db provider = Some p ->
  bound_to provider account (is_per_account p) id db db' ->
  binding db' provider account = Some id \/ binding db' provider account = None.
Proof.
  intros Hp Hb. destruct (is_per_account p) eqn:Hper.
  - destruct account as [a|]; [destruct (get_account db a) as [row|] eqn:Hrow|].
    + left. eapply bound_to_binding; [done| |by rewrite Hper]. eauto.
    + right. unfold binding. cbn in Hb. subst db'.
      change (get_provider (set_account_proxy a (Some id) db) provider) with (get_provider db provider).
      rewrite Hp. cbn [mbind option_bind]. rewrite Hper. cbn [resolve_current_proxy_id mbind option_bind].
      unfold get_current_proxy_id. by rewrite get_account_bind, Hrow.
    + right. cbn in Hb. subst db'. unfold binding. rewrite Hp. cbn [mbind option_bind]. by rewrite Hper.
  - left. eapply bound_to_binding; [done| |by rewrite Hper]. by rewrite Hper.
Qed.

Lemma unbind_binding provider account db p :
  get_provider db provider = Some p ->
  binding (unbind provider account (is_per_account p) db) provider account = None.
Proof.
  intros Hp. unfold unbind. destruct (is_per_account p) eqn:Hper.
  - unfold binding. destruct account as [a|].
    + change (get_provider (clear_current_proxy_id a db) provider) with (get_provider db provider).
      rewrite Hp. cbn [mbind option_bind]. rewrite Hper. cbn [resolve_current_proxy_id mbind option_bind].
      unfold get_current_proxy_id, clear_current_proxy_id. rewrite get_account_bind. by destruct (get_account db a).
    + rewrite Hp. cbn [mbind option_bind]. by rewrite Hper.
  - destruct (update_current_proxy provider None db) as [db'|] eqn:Hup; [|by unfold update_current_proxy in Hup].
    change (default db (Some db')) with db'. unfold binding. rewrite (get_provider_bind _ _ _ _ Hup), Hp.
    cbn [mbind option_bind fmap option_fmap option_map].
    change (is_per_account (bind_provider None p)) with (is_per_account p). by rewrite Hper.
Qed.

Lemma unbind_frame provider account per_account db :
  pool (unbind provider account per_account db) = pool db
  /\ proxy_cooldowns (unbind provider account per_account db) = proxy_cooldowns db.
Proof. unfold unbind. by destruct per_account, account. Qed.

Lemma status_frame rfc now id st lat db :
  proxy_providers (update_proxy_status rfc now id st lat db) = proxy_providers db
  /\ proxy_accounts (update_proxy_status rfc now id st lat db) = proxy_accounts db
  /\ proxy_cooldowns (update_proxy_status rfc now id st lat db) = proxy_cooldowns db
  /\ fp_id <$> pool (update_proxy_status rfc now id st lat db) = fp_id <$> pool db.
Proof.
  repeat split. cbn. rewrite <- list_fmap_compose. apply list_fmap_ext. intros _ p _. unfold compose.
  by destruct (String.eqb _ _).
Qed.

Lemma status_written rfc now id st lat db q :
  q ∈ pool (update_proxy_status rfc now id st lat db) -> fp_id q = id -> fp_status q = st.
Proof.
  cbn. intros (p & -> & Hp)%list_elem_of_fmap. destruct (String.eqb_spec (fp_id p) id); [done|].
  by intros.
Qed.

Section rotations.
Context (lower : string -> string) (max_utc : Z) (rfc3339 : Z -> string).

(** The bad proxy is out: cooling down, unbound and, after a failed
    connection, dead. *)
Definition rotated_out (provider bad : string) (account : option Z) (until : Z) (t : ProxyRotationTrigger)
    (db' : ProxyDb) : Prop :=
  proxy_cooldowns db' !! (provider, bad) = Some until
  /\ binding db' provider account <> Some bad
  /\ (t = TriggerConnectError -> forall q, q ∈ pool db' -> fp_id q = bad -> fp_status q = "dead"%string).

Lemma rotation_spec random now provider bad t account cooldown_ms db p ok db' :
  get_provider db provider = Some p -> proxy_exists db bad = true ->
  now + std_duration (default FIFTEEN_MINUTES_MS cooldown_ms) <= max_utc -> 
  now < now + std_duration (default FIFTEEN_MINUTES_MS cooldown_ms) ->
  apply_proxy_rotation lower max_utc rfc3339 random now provider bad t (is_per_account p) account cooldown_ms db
  = (ok, db') ->
  rotated_out provider bad account (now + std_duration (default FIFTEEN_MINUTES_MS cooldown_ms)) t db'
  /\ (ok = true -> exists q, usable now provider db' q /\ fp_id q <> bad).
Proof.
  intros Hp Hex Hmax Hpos. unfold apply_proxy_rotation, add_proxy_cooldown.
  set (until := now + _) in *. set (db1 := match t with TriggerConnectError => _ | _ => db end).
  assert (proxy_providers db1 = proxy_providers db /\ proxy_exists db1 bad = true
          /\ (t = TriggerConnectError -> forall q, q ∈ pool db1 -> fp_id q = bad -> fp_status q = "dead"%string))
    as (Hpv & Hex1 & Hdead).
  { subst db1. destruct t; [by repeat split| |by repeat split].
    destruct (status_frame rfc3339 now bad "dead" None db) as (H1 & _ & _ & H4). split; [done|].
    unfold db_update_proxy_status. split; [by rewrite proxy_exists_spec, H4, <- proxy_exists_spec|].
    intros _. apply status_written. }
  clearbody db1. assert (get_provider db1 provider = Some p) as Hp1 by (unfold get_provider; by rewrite Hpv).
  rewrite (proj2 (Z.leb_le _ _) Hmax), Hex1, Hp1, bool_decide_eq_true_2 by done. cbn [andb].
  set (db2 := set_cooldowns _ db1).
  assert (get_provider db2 provider = Some p) as Hp2 by exact Hp1.
  assert (proxy_cooldowns db2 !! (provider, bad) = Some until) as Hcool by apply lookup_insert_eq.
  assert (forall db q, proxy_cooldowns db = proxy_cooldowns db2 -> usable now provider db q -> fp_id q <> bad) as Hnot.
  { intros db0 q Heq (_ & _ & Hc) <-. unfold is_proxy_in_cooldown in Hc. rewrite Heq, Hcool in Hc.
    apply Z.ltb_ge in Hc. lia. }
  rewrite Hp2. change (default false (pv_direct_first <$> Some p)) with (pv_direct_first p). destruct (pv_direct_first p).
  - destruct (assign_new_proxy _ _ _ _ _ _ db2) as [r db3] eqn:Ha. apply assign_spec in Ha.
    destruct r as [[url|]|e]; [|done|].
    + destruct Ha as (q & Hq & _ & _ & Hb). intros [= <- <-].
      pose proof (bound_to_frame _ _ _ _ _ _ Hb) as [Hpool Hcd].
      pose proof (bound_to_at_most _ _ _ _ _ _ Hp2 Hb) as Hbind.
      assert (fp_id q <> bad) as Hne by by eapply (Hnot db2).
      repeat split; rewrite ?Hpool, ?Hcd; try done.
      * destruct Hbind as [-> | ->]; congruence.
      * intros _. exists q. split; [|done]. unfold usable, is_proxy_in_cooldown. rewrite Hpool, Hcd. apply Hq.
    + destruct Ha as (_ & -> & _). intros [= <- <-].
      destruct (unbind_frame provider account (is_per_account p) db2) as [Hpool Hcd].
      repeat split; rewrite ?Hpool, ?Hcd, ?(unbind_binding _ _ _ _ Hp2); done.
  - intros [= <- <-]. destruct (unbind_frame provider account (is_per_account p) db2) as [Hpool Hcd].
    split; [repeat split; rewrite ?Hpool, ?Hcd, ?(unbind_binding _ _ _ _ Hp2); done|].
    unfold get_candidate_proxies_for_provider. set (db3 := unbind _ _ _ _) in *.
    destruct (filter _ _) as [|q l] eqn:Hf; [done|]. intros _. exists q.
    assert (q ∈ filter (fun q => is_proxy_in_cooldown now provider (fp_id q) db3 = false)
                  (alive_proxies random db3)) as Hq by (rewrite Hf; apply list_elem_of_here).
    apply list_elem_of_filter in Hq as [Hc [Hin Hal]%elem_of_alive].
    assert (usable now provider db3 q) as Hu by done. split; [done|]. by eapply (Hnot db3).
Qed.

Lemma get_or_assign_usable random now provider account db url db' :
  get_or_assign_provider_proxy lower random now provider account db = (inl (Some url), db') ->
  exists q, usable now provider db q /\ url = proxy_url lower q.
Proof.
  unfold get_or_assign_provider_proxy. destruct (check_proxy_enabled db provider) as [p|]; [|done].
  destruct (assign_new_proxy _ _ _ _ _ _ _) as [r db1] eqn:Ha. apply assign_spec in Ha.
  assert ((r, db1) = (inl (Some url), db') -> exists q, usable now provider db q /\ url = proxy_url lower q) as Hr.
  { intros [= -> _]. destruct Ha as (q & ? & ? & _). eauto. }
  destruct (resolve_current_proxy_id _ _ _ _) as [id|]; [|by destruct (pv_direct_first p)].
  unfold fetch_alive_proxy_url. destruct (is_proxy_in_cooldown _ _ _ _) eqn:Hc; [done|].
  destruct (head _) as [q|] eqn:Hq; [|done]. intros [= <- _].
  apply head_filter_Some in Hq as [[<- ?] ?]. by exists q.
Qed.

End rotations.

(** ** Histories *)

Record pool_inv (db : ProxyDb) : Prop := {
  inv_bound : forall p x, p ∈ proxy_providers db -> pv_current_proxy_id p = Some x -> x ∈ fp_id <$> pool db;
  inv_cooled : forall k until, proxy_cooldowns db !! k = Some until -> k.2 ∈ fp_id <$> pool db;
  inv_apart : forall a b x, a ∈ proxy_accounts db -> b ∈ proxy_accounts db -> pa_id a <> pa_id b ->
    pa_provider_id a = pa_provider_id b -> pa_current_proxy_id a = Some x -> pa_current_proxy_id b <> Some x;
  inv_address : NoDup ((fun p => (fp_host p, fp_port p)) <$> pool db)
}.

(** The account, if there is one, belongs to the provider. *)
Definition own_account (db : ProxyDb) (provider : string) (account : option Z) : Prop :=
  forall row, row ∈ proxy_accounts db -> Some (pa_id row) = account -> pa_provider_id row = provider.

Lemma inv_set_account a o db provider :
  own_account db provider (Some a) ->
  (forall x, o = Some x -> x ∉ fetch_accounts_in_use_proxies db provider (Some a)) ->
  pool_inv db -> pool_inv (set_account_proxy a o db).
Proof.
  intros Hown Ho [H1 H2 H3 H4]. split; cbn; try done.
  assert (forall b x, b ∈ proxy_accounts db -> pa_id b <> a -> pa_provider_id b = provider -> o = Some x ->
            pa_current_proxy_id b <> Some x) as Hfree.
  { intros b x Hb Hne Hpr Hx Hc. apply (Ho x Hx). unfold fetch_accounts_in_use_proxies.
    apply list_elem_of_omap. exists b. split; [|done]. by apply list_elem_of_filter. }
  intros a1 b1 x (r & -> & Hr)%list_elem_of_fmap (q & -> & Hq)%list_elem_of_fmap.
  destruct (Z.eqb_spec (pa_id r) a) as [Hra|Hra], (Z.eqb_spec (pa_id q) a) as [Hqa|Hqa]; cbn; intros Hne Hpr Hc.
  - congruence.
  - apply (Hfree q x Hq Hqa); [|done]. rewrite <- Hpr. apply Hown; [done|]. by rewrite Hra.
  - intros Hx. apply (Hfree r x Hr Hra); [|done..]. rewrite Hpr. apply Hown; [done|]. by rewrite Hqa.
  - by apply (H3 r q).
Qed.

Lemma inv_update_current provider o db db' :
  update_current_proxy provider o db = Some db' -> pool_inv db -> pool_inv db'.
Proof.
  unfold update_current_proxy.
  destruct (match o with Some _ => _ | None => _ end) eqn:Hfk; [|done]. intros [= <-] [H1 H2 H3 H4].
  split; cbn; try done. intros p x (q & -> & Hq)%list_elem_of_fmap.
  destruct (String.eqb_spec (pv_id q) provider) as [Hid|]; [|by apply H1]. cbn. intros ->.
  apply proxy_exists_spec. apply orb_true_iff in Hfk as [|Hno]; [done|].
  apply negb_true_iff, bool_decide_eq_false in Hno. exfalso. apply Hno.
  unfold get_provider. destruct (head _) eqn:Hh; [by eexists|].
  by destruct (head_filter_None _ _ Hh q Hq).
Qed.

Lemma inv_unbind provider account per_account db :
  own_account db provider account -> pool_inv db -> pool_inv (unbind provider account per_account db).
Proof.
  intros Hown Hi. unfold unbind. destruct per_account.
  - destruct account as [a|]; [|done]. by eapply inv_set_account.
  - destruct (update_current_proxy _ _ _) eqn:Hup; [|done]. by eapply inv_update_current.
Qed.

Lemma inv_cooldown max_utc now provider proxy ms db db' :
  add_proxy_cooldown max_utc now provider proxy ms db = Some db' -> pool_inv db -> pool_inv db'.
Proof.
  unfold add_proxy_cooldown. destruct (_ <=? max_utc); [|done]. intros [= <-] [H1 H2 H3 H4].
  destruct (_ && _) eqn:Hex; [|done]. apply andb_true_iff in Hex as [Hex _].
  split; cbn; try done. intros k until [[<- _]|[_ Hk]]%lookup_insert_Some; [|by eapply H2].
  by apply proxy_exists_spec.
Qed.

(** Rows of proxies rewritten without their id and address. *)
Lemma inv_map_pool (f : FreeProxy -> FreeProxy) db :
  (forall p, fp_id (f p) = fp_id p /\ fp_host (f p) = fp_host p /\ fp_port (f p) = fp_port p) ->
  pool_inv db -> pool_inv (set_pool (f <$> pool db) db).
Proof.
  intros Hf [H1 H2 H3 H4].
  assert (fp_id <$> (f <$> pool db) = fp_id <$> pool db) as Hid.
  { rewrite <- list_fmap_compose. apply list_fmap_ext. intros _ p _. apply Hf. }
  split; cbn; rewrite ?Hid; try done. rewrite <- list_fmap_compose. erewrite list_fmap_ext; [exact H4|].
  intros _ p _. unfold compose. by destruct (Hf p) as (_ & -> & ->).
Qed.

Lemma inv_remove gone db : pool_inv db -> pool_inv (remove_proxies gone db).
Proof.
  intros [H1 H2 H3 H4].
  set (ids := fp_id <$> filter (fun p => gone p = true) (pool db)).
  assert (forall x, x ∈ fp_id <$> pool db -> x ∉ ids -> x ∈ fp_id <$> filter (fun p => gone p = false) (pool db))
    as Hkeep.
  { intros x (p & -> & Hp)%list_elem_of_fmap Hx. apply list_elem_of_fmap_2, list_elem_of_filter.
    split; [|done]. destruct (gone p) eqn:Hg; [|done]. exfalso. apply Hx.
    by apply list_elem_of_fmap_2, list_elem_of_filter. }
  split; cbn; try done.
  - intros p x (q & -> & Hq)%list_elem_of_fmap Hx. fold ids in Hx |- *.
    destruct (pv_current_proxy_id q) as [y|] eqn:Hy; [|congruence].
    case_bool_decide as Hin; [done|]. rewrite Hy in Hx. injection Hx as ->. apply Hkeep; [by eapply H1|done].
  - intros k until [Hk Hgone]%map_lookup_filter_Some. apply Hkeep; [by eapply H2|done].
  - eapply sublist_NoDup; [exact H4|]. apply fmap_sublist, sublist_filter.
Qed.

Lemma inv_upsert row merge db :
  (forall p, fp_id (merge p) = fp_id p /\ fp_host (merge p) = fp_host p /\ fp_port (merge p) = fp_port p) ->
  pool_inv db -> pool_inv (upsert_proxy row merge db).
Proof.
  intros Hm Hi. unfold upsert_proxy. destruct (existsb _ _) eqn:Hex.
  - apply inv_map_pool; [|done]. intros p. by destruct (_ && _); [apply Hm|].
  - destruct Hi as [H1 H2 H3 H4]. split; cbn; rewrite ?fmap_app; try done.
    + intros p x Hp Hx. apply elem_of_app. left. by eapply H1.
    + intros k until Hk. apply elem_of_app. left. by eapply H2.
    + apply NoDup_app. split; [done|]. split; [|apply NoDup_singleton].
      intros [h n] (p & [= -> ->] & Hp)%list_elem_of_fmap [= Hh Hn]%list_elem_of_singleton.
      rewrite <- not_true_iff_false, existsb_exists in Hex. apply Hex. exists p.
      split; [by apply list_elem_of_In|]. by rewrite Hh, Hn, String.eqb_refl, Z.eqb_refl.
Qed.

Lemma inv_assign lower random now provider account per_account db :
  own_account db provider account -> pool_inv db ->
  pool_inv (assign_new_proxy lower random now provider account per_account db).2.
Proof.
  intros Hown Hi. destruct (assign_new_proxy _ _ _ _ _ _ _) as [r db'] eqn:Ha. apply assign_spec in Ha. cbn.
  destruct r as [[url|]|e]; [|done|by destruct Ha as (_ & -> & _)].
  destruct Ha as (q & _ & _ & Hfree & Hb). unfold bound_to in Hb. destruct per_account.
  - destruct account as [a|]; subst db'; [|done]. eapply inv_set_account; [done| |done]. by intros x [= <-].
  - by eapply inv_update_current.
Qed.

(** Only the ids and providers of the accounts matter. *)
Lemma own_account_same db db' provider account :
  proxy_accounts db' = proxy_accounts db -> own_account db' provider account <-> own_account db provider account.
Proof. unfold own_account. by intros ->. Qed.

Lemma own_cooldown max_utc now provider0 proxy ms db db' provider account :
  add_proxy_cooldown max_utc now provider0 proxy ms db = Some db' ->
  own_account db provider account -> own_account db' provider account.
Proof.
  unfold add_proxy_cooldown. destruct (_ <=? max_utc); [|done]. intros [= <-]. by destruct (_ && _).
Qed.

Lemma own_unbind provider account per_account db :
  own_account db provider account -> own_account (unbind provider account per_account db) provider account.
Proof.
  intros Hown. unfold unbind. destruct per_account; [|done].
  destruct account as [a|]; [|done]. intros row (q & -> & Hq)%list_elem_of_fmap Hid.
  destruct (pa_id q =? a); by apply (Hown q).
Qed.

Section histories.
Context (lower : string -> string) (max_utc : Z) (rfc3339 : Z -> string) (task_panicked : string).

Lemma inv_get_or_assign random now provider account db :
  own_account db provider account -> pool_inv db ->
  pool_inv (get_or_assign_provider_proxy lower random now provider account db).2.
Proof.
  intros Hown Hi. unfold get_or_assign_provider_proxy. destruct (check_proxy_enabled _ _) as [p|]; [|done].
  pose proof (inv_assign lower random now provider account (is_per_account p) db Hown Hi) as Ha.
  repeat (case_match; try done).
Qed.

Lemma inv_status now id st lat db : pool_inv db -> pool_inv (update_proxy_status rfc3339 now id st lat db).
Proof. apply inv_map_pool. intros p. by destruct (String.eqb _ _). Qed.

Lemma inv_rotation random now provider bad t per_account account cooldown_ms db :
  own_account db provider account -> pool_inv db ->
  pool_inv (apply_proxy_rotation lower max_utc rfc3339 random now provider bad t per_account account cooldown_ms db).2.
Proof.
  intros Hown Hi. unfold apply_proxy_rotation. set (db1 := match t with TriggerConnectError => _ | _ => db end).
  assert (proxy_accounts db1 = proxy_accounts db /\ pool_inv db1) as [Hacc Hi1].
  { subst db1. destruct t; try done. split; [done|]. by apply inv_status. }
  clearbody db1. destruct (add_proxy_cooldown _ _ _ _ _ db1) as [db2|] eqn:Hadd; [|done].
  pose proof (inv_cooldown _ _ _ _ _ _ _ Hadd Hi1) as Hi2.
  assert (own_account db2 provider account) as Hown2.
  { apply (own_cooldown _ _ _ _ _ _ _ _ _ Hadd). by rewrite (own_account_same db). }
  destruct (default false _); [|by apply inv_unbind].
  pose proof (inv_assign lower random now provider account per_account db2 Hown2 Hi2) as Hi3.
  destruct (assign_new_proxy _ _ _ _ _ _ db2) as [r db3] eqn:Ha. apply assign_spec in Ha.
  destruct r as [[url|]|e]; [done|done|]. destruct Ha as (_ & -> & _). by apply inv_unbind.
Qed.

(** Every operation on the pool, and the write of a won proxy race. *)
Inductive pool_step (db : ProxyDb) : ProxyDb -> Prop :=
  | step_resolve writer random now provider account : own_account db provider account ->
      pool_step db (resolve_active_proxy lower writer random now provider account db).2
  | step_assign random now provider account per_account : own_account db provider account ->
      pool_step db (assign_new_proxy lower random now provider account per_account db).2
  | step_rotate random now provider account override t ms : own_account db provider account ->
      pool_step db (check_and_trigger_proxy_rotation lower max_utc rfc3339 random now provider account override t
                      ms db).2
  | step_report writer random now provider account connect : own_account db provider account ->
      pool_step db (report_proxy_failure lower max_utc rfc3339 task_panicked writer random now provider account
                      connect db).2
  | step_race_won provider id db' : update_current_proxy provider (Some id) db = Some db' -> pool_step db db'
  | step_status now id st lat : pool_step db (update_proxy_status rfc3339 now id st lat db)
  | step_delete id : pool_step db (delete_proxy id db)
  | step_prune : pool_step db (prune_dead_proxies db).2
  | step_delete_source id : pool_step db (delete_proxy_source id db).2
  | step_reorder ids : pool_step db (reorder_proxy_sources ids db)
  | step_custom now uuid host port type country user pass :
      pool_step db (add_custom_proxy lower rfc3339 now uuid host port type country user pass db).2
  | step_scraped now rows : pool_step db (upsert_scraped_proxies rfc3339 now rows db).

Lemma inv_report writer random now provider account connect db :
  own_account db provider account -> pool_inv db ->
  pool_inv (report_proxy_failure lower max_utc rfc3339 task_panicked writer random now provider account connect db).2.
Proof.
  intros Hown Hi. unfold report_proxy_failure. destruct writer; [|done]. cbn [negb].
  destruct (get_provider db provider) as [p|]; [|done]. destruct (pv_use_proxies p); [|done]. cbn [negb].
  destruct (resolve_current_proxy_id _ _ _ _) as [bad|].
  2: { destruct (pv_direct_first p); [|done].
       pose proof (inv_assign lower random now provider account (is_per_account p) db Hown Hi) as Ha.
       by destruct (assign_new_proxy _ _ _ _ _ _ _). }
  set (db1 := if connect then _ else db).
  assert (proxy_accounts db1 = proxy_accounts db /\ pool_inv db1) as [Hacc Hi1].
  { subst db1. destruct connect; [|done]. split; [done|]. by apply inv_status. }
  clearbody db1. destruct (add_proxy_cooldown _ _ _ _ _ db1) as [db2|] eqn:Hadd; [|done].
  assert (own_account db2 provider account) as Hown2.
  { apply (own_cooldown _ _ _ _ _ _ _ _ _ Hadd). by rewrite (own_account_same db). }
  assert (pool_inv (unbind provider account (is_per_account p) db2)) as Hi3.
  { apply inv_unbind; [done|]. by eapply inv_cooldown. }
  cbn. destruct (pv_direct_first p); [|done]. apply inv_assign; [|done]. by apply own_unbind.
Qed.

(** The pool stays consistent.  Whatever operations are run, in whatever
    order, a provider is bound to a proxy of the pool, cooldowns are of proxies
    of the pool, no two proxies have one address, and no two accounts of a
    provider go through the same proxy. *)
Lemma pool_stays_consistent db db' :
  pool_inv db -> rtc pool_step db db' -> pool_inv db'.
Proof.
  intros Hi. induction 1 as [|db1 db2 db3 Hstep _ IH]; [done|]. apply IH. clear IH.
  destruct Hstep.
  - destruct writer; [|done]. by apply inv_get_or_assign.
  - by apply inv_assign.
  - unfold check_and_trigger_proxy_rotation. destruct (get_provider _ _) as [p|]; [|done].
    pose proof (inv_assign lower random now provider account (is_per_account p) db1 H Hi) as Ha.
    pose proof (fun bad => inv_rotation random now provider bad t (is_per_account p) account ms db1 H Hi) as Hr.
    destruct (assign_new_proxy _ _ _ _ _ _ _). repeat (case_match; try done).
  - by apply inv_report.
  - by eapply inv_update_current.
  - by apply inv_status.
  - by apply inv_remove.
  - by apply inv_remove.
  - unfold delete_proxy_source. cbn. destruct (head _) as [src|]; [|by destruct Hi].
    destruct (inv_remove (fun p => String.eqb (fp_source p) (ps_name src)) db1 Hi) as [H1 H2 H3 H4]. by split.
  - by destruct Hi.
  - by apply inv_upsert.
  - unfold upsert_scraped_proxies. revert db1 Hi.
    induction rows as [|[uuid s] rows IH]; intros db1 Hi; cbn [foldl]; [done|]. apply IH. by apply inv_upsert.
Qed.
(** *** Cooldowns over histories *)

(** No cooldown of [db] is lost. *)
Definition cooldowns_kept (db db' : ProxyDb) : Prop :=
  forall k, is_Some (proxy_cooldowns db !! k) -> is_Some (proxy_cooldowns db' !! k).

Lemma kept_same db db' : proxy_cooldowns db' = proxy_cooldowns db -> cooldowns_kept db db'.
Proof. intros H k. by rewrite H. Qed.

Lemma kept_trans db1 db2 db3 : cooldowns_kept db1 db2 -> cooldowns_kept db2 db3 -> cooldowns_kept db1 db3.
Proof. intros H1 H2 k Hk. by apply H2, H1. Qed.

Lemma kept_assign random now provider account per_account db :
  cooldowns_kept db (assign_new_proxy lower random now provider account per_account db).2.
Proof.
  apply kept_same. destruct (assign_new_proxy _ _ _ _ _ _ _) as [r db'] eqn:Ha. apply assign_spec in Ha. cbn.
  destruct r as [[url|]|e]; [|done|by destruct Ha as (_ & -> & _)].
  destruct Ha as (q & _ & _ & _ & Hb). by apply bound_to_frame in Hb as [_ ?].
Qed.

Lemma kept_cooldown now provider proxy ms db db' :
  add_proxy_cooldown max_utc now provider proxy ms db = Some db' -> cooldowns_kept db db'.
Proof.
  unfold add_proxy_cooldown. destruct (_ <=? max_utc); [|done]. intros [= <-]. destruct (_ && _); [|by apply kept_same].
  intros k Hk. cbn. rewrite lookup_insert_is_Some. destruct (decide ((provider, proxy) = k)); tauto.
Qed.

Lemma kept_unbind provider account per_account db : cooldowns_kept db (unbind provider account per_account db).
Proof. apply kept_same. apply unbind_frame. Qed.

Lemma kept_rotation random now provider bad t per_account account ms db :
  cooldowns_kept db
    (apply_proxy_rotation lower max_utc rfc3339 random now provider bad t per_account account ms db).2.
Proof.
  unfold apply_proxy_rotation. set (db1 := match t with TriggerConnectError => _ | _ => db end).
  apply (kept_trans db db1); [by apply kept_same; destruct t|].
  destruct (add_proxy_cooldown _ _ _ _ _ db1) as [db2|] eqn:Hadd; [|by apply kept_same].
  apply (kept_trans db1 db2); [by eapply kept_cooldown|].
  destruct (default false _); [|apply kept_unbind].
  pose proof (kept_assign random now provider account per_account db2) as Ha.
  destruct (assign_new_proxy _ _ _ _ _ _ db2) as [[[url|]|e] db3]; cbn in *; [done| |];
    (eapply kept_trans; [exact Ha|apply kept_unbind]).
Qed.

Lemma kept_trigger random now provider account override t ms db :
  cooldowns_kept db
    (check_and_trigger_proxy_rotation lower max_utc rfc3339 random now provider account override t ms db).2.
Proof.
  unfold check_and_trigger_proxy_rotation. destruct (get_provider _ _) as [p|]; [|by apply kept_same].
  destruct (negb _); [by apply kept_same|]. destruct (should_rotate_proxy _ _); [|by apply kept_same].
  destruct (find_bad_proxy_id _ _ _ _ _) as [bad|]; [apply kept_rotation|].
  pose proof (kept_assign random now provider account (is_per_account p) db) as Ha.
  destruct (pv_direct_first p); [|by apply kept_same]. by destruct (assign_new_proxy _ _ _ _ _ _ db).
Qed.

Lemma kept_report writer random now provider account connect db :
  cooldowns_kept db
    (report_proxy_failure lower max_utc rfc3339 task_panicked writer random now provider account connect db).2.
Proof.
  unfold report_proxy_failure. destruct writer; [|by apply kept_same]. cbn [negb].
  destruct (get_provider _ _) as [p|]; [|by apply kept_same]. destruct (pv_use_proxies p); [|by apply kept_same]. cbn [negb].
  destruct (resolve_current_proxy_id _ _ _ _) as [bad|].
  2: { pose proof (kept_assign random now provider account (is_per_account p) db) as Ha.
       destruct (pv_direct_first p); [|by apply kept_same]. by destruct (assign_new_proxy _ _ _ _ _ _ db). }
  set (db1 := if connect then _ else db). apply (kept_trans db db1); [by apply kept_same; destruct connect|].
  destruct (add_proxy_cooldown _ _ _ _ _ db1) as [db2|] eqn:Hadd; [|by apply kept_same].
  apply (kept_trans db1 db2); [by eapply kept_cooldown|]. cbn.
  destruct (pv_direct_first p); [|apply kept_unbind]. eapply kept_trans; [apply kept_unbind|apply kept_assign].
Qed.

Lemma kept_upsert row merge db : cooldowns_kept db (upsert_proxy row merge db).
Proof. apply kept_same. unfold upsert_proxy. by destruct (existsb _ _). Qed.

Lemma key_unique (l : list FreeProxy) r q :
  NoDup (fp_id <$> l) -> r ∈ l -> q ∈ l -> fp_id r = fp_id q -> r = q.
Proof.
  intros Hnd [i Hi]%list_elem_of_lookup [j Hj]%list_elem_of_lookup Heq.
  assert (i = j) as ->; [|congruence]. apply (NoDup_lookup _ i j (fp_id q) Hnd);
    rewrite list_lookup_fmap, ?Hi, ?Hj; cbn; congruence.
Qed.

(** A removal takes the cooldowns of the removed proxies only. *)
Lemma remove_keeps gone db k :
  NoDup (fp_id <$> pool db) -> k.2 ∈ fp_id <$> pool (remove_proxies gone db) ->
  is_Some (proxy_cooldowns db !! k) -> is_Some (proxy_cooldowns (remove_proxies gone db) !! k).
Proof.
  intros Hnd Hin [u Hu]. exists u. cbn in *. apply map_lookup_filter_Some. split; [done|]. cbn.
  intros (r & Hr & [Hg Hrp]%list_elem_of_filter)%list_elem_of_fmap.
  apply list_elem_of_fmap in Hin as (q & Hq & [Hgq Hqp]%list_elem_of_filter).
  rewrite Hr in Hq. assert (r = q) as -> by by eapply (key_unique (pool db)). congruence.
Qed.

Lemma step_keeps_cooldowns db db' k :
  pool_step db db' -> NoDup (fp_id <$> pool db) -> k.2 ∈ fp_id <$> pool db' ->
  is_Some (proxy_cooldowns db !! k) -> is_Some (proxy_cooldowns db' !! k).
Proof.
  intros Hstep Hnd Hin. destruct Hstep; try by apply remove_keeps.
  - destruct writer; [|done]. unfold resolve_active_proxy, get_or_assign_provider_proxy.
    destruct (check_proxy_enabled _ _) as [p|]; [|done].
    pose proof (kept_assign random now provider account (is_per_account p) db k) as Ha.
    repeat (case_match; try done).
  - apply kept_assign.
  - apply kept_trigger.
  - apply kept_report.
  - apply kept_same. unfold update_current_proxy in *. destruct (_ || _); [|done]. by simplify_eq/=.
  - done.
  - unfold delete_proxy_source in *. cbn in *. destruct (head _) as [src|]; [|done]. by apply remove_keeps.
  - done.
  - apply kept_upsert.
  - clear Hin Hnd. unfold upsert_scraped_proxies. revert db.
    induction rows as [|[uuid s] rows IH]; intros db Hk; cbn [foldl]; [done|]. apply IH. by apply kept_upsert.
Qed.

(** A step that does not shorten the rest of [bad]: no cooldown of [bad] for the
    provider that ends before [until] is written, and no proxy is added under
    its id.  Ids are the primary key of the pool. *)
Definition calm_step (provider bad : string) (until : Z) (db db' : ProxyDb) : Prop :=
  pool_step db db' /\ NoDup (fp_id <$> pool db)
  /\ (bad ∈ fp_id <$> pool db' -> bad ∈ fp_id <$> pool db)
  /\ (forall u, proxy_cooldowns db' !! (provider, bad) = Some u ->
        proxy_cooldowns db !! (provider, bad) = Some u \/ until <= u).

Definition resting (provider bad : string) (until : Z) (db : ProxyDb) : Prop :=
  bad ∈ fp_id <$> pool db -> exists u, proxy_cooldowns db !! (provider, bad) = Some u /\ until <= u.

Lemma calm_resting provider bad until db db' :
  resting provider bad until db -> rtc (calm_step provider bad until) db db' -> resting provider bad until db'.
Proof.
  intros Hr. induction 1 as [|db1 db2 db3 (Hs & Hnd & Hid & Hcd) _ IH]; [done|]. apply IH. intros Hin.
  destruct (Hr (Hid Hin)) as (u & Hu & Hle).
  destruct (step_keeps_cooldowns db1 db2 (provider, bad) Hs Hnd Hin ltac:(by eexists)) as [u' Hu'].
  exists u'. split; [done|]. destruct (Hcd u' Hu') as [Heq|]; [|done]. rewrite Hu in Heq. by injection Heq as <-.
Qed.

Lemma resting_not_usable provider bad until db now q :
  resting provider bad until db -> now < until -> usable now provider db q -> fp_id q <> bad.
Proof.
  intros Hr Hnow (Hin & _ & Hc) Heq. destruct (Hr ltac:(subst; by apply list_elem_of_fmap_2)) as (u & Hu & Hle).
  unfold is_proxy_in_cooldown in Hc. rewrite Heq, Hu in Hc. apply Z.ltb_ge in Hc. lia.
Qed.

Lemma candidate_usable random now db provider limit id :
  id ∈ (get_candidate_proxies_for_provider lower random now db provider limit).*1 ->
  exists q, usable now provider db q /\ fp_id q = id.
Proof.
  unfold get_candidate_proxies_for_provider. rewrite <-list_fmap_compose.
  intros (q & -> & (i & Hq & _)%elem_of_take)%list_elem_of_fmap. exists q. split; [|done].
  apply list_elem_of_lookup_2, list_elem_of_filter in Hq as [Hc [Hin Hal]%elem_of_alive]. done.
Qed.

(** C20. A proxy that fails rests.  When an error of the provider's list
    rotates its proxy, the proxy is unbound and cools down for the provider, and
    is dead after a failed connection; the caller is told to retry only when
    another usable proxy is there.  After any further operations on the pool
    that write no earlier end of this cooldown and add no proxy under its id,
    and until the cooldown is over, the proxy is not given to a request of the
    provider, for whatever account, and is not among the candidates of a proxy
    race.  (A later rotation of the same proxy with a shorter cooldown does end
    the rest early: [cooldown_can_shrink].) *)
Theorem rotated_proxy_rests random now provider account override t cooldown_ms db p bad :
  get_provider db provider = Some p -> pv_use_proxies p = true -> should_rotate_proxy p t = true ->
  find_bad_proxy_id db p override (is_per_account p) account = Some bad -> proxy_exists db bad = true ->
  let until := now + std_duration (default FIFTEEN_MINUTES_MS cooldown_ms) in
  now < until <= max_utc ->
  let '(ok, db') := check_and_trigger_proxy_rotation lower max_utc rfc3339 random now provider account override t
                      cooldown_ms db in
  rotated_out provider bad account until t db'
  /\ (ok = true -> exists q, usable now provider db' q /\ fp_id q <> bad)
  /\ forall db2 now', rtc (calm_step provider bad until) db' db2 -> now' < until ->
       (forall random' account' url db3,
          get_or_assign_provider_proxy lower random' now' provider account' db2 = (inl (Some url), db3) ->
          exists q, usable now' provider db2 q /\ fp_id q <> bad /\ url = proxy_url lower q)
       /\ forall random' limit,
            bad ∉ (get_candidate_proxies_for_provider lower random' now' db2 provider limit).*1.
Proof.
  intros Hp Huse Hrot Hbad Hex until [Hpos Hmax]. unfold check_and_trigger_proxy_rotation.
  rewrite Hp, Huse, Hrot, Hbad. cbn [negb].
  destruct (apply_proxy_rotation _ _ _ _ _ _ _ _ _ _ _ _) as [ok db'] eqn:Happly.
  apply (rotation_spec _ _ _ _ _ _ _ _ _ _ _ _ _ _ Hp Hex Hmax Hpos) in Happly as [Hout Hok].
  split; [done|]. split; [done|]. intros db2 now' Hrun Hnow.
  assert (resting provider bad until db2) as Hrest.
  { eapply calm_resting; [|exact Hrun]. intros _. exists until. split; [apply Hout|lia]. }
  split.
  - intros random' account' url db3 Hget. apply get_or_assign_usable in Hget as (q & Hq & ->).
    exists q. split; [done|]. split; [|done]. by eapply resting_not_usable.
  - intros random' limit Hin. apply candidate_usable in Hin as (q & Hq & Hid). 
    by apply (resting_not_usable provider bad until db2 now' q Hrest Hnow Hq).
Qed.

End histories.

(** ** Examples *)

Definition example_proxy (id host : string) (port : Z) (username password : option string) : FreeProxy :=
  mkFreeProxy id "custom" host port "http" None "alive" (Some 20) None username password 0 "" "".

Definition example_pool (mode : string) (bound : option string) : ProxyDb :=
  mkProxyDb [example_proxy "x" "10.0.0.1" 8080 None None; example_proxy "y" "10.0.0.2" 1080 (Some "u") (Some "s")]%string
    [mkProxyProvider "p" true mode "429, connect_error" false bound]%string
    [mkProxyAccount 1 "p" None; mkProxyAccount 2 "p" None] [] ∅.

Definition no_order (_ : string) : Z := 0.
Definition as_is (s : string) : string := s.
Definition far_future : Z := 10 ^ 30.

Lemma rotated_proxy_rests_witness :
  let rotated := check_and_trigger_proxy_rotation as_is far_future (fun _ => ""%string) no_order 1000 "p" None None
                   TriggerConnectError (Some 60000) (example_pool "global" (Some "x"%string)) in
  rotated.1 = true
  /\ rotated_out "p" "x" None (1000 + std_duration 60000) TriggerConnectError rotated.2
  /\ "x"%string ∉ (get_candidate_proxies_for_provider as_is no_order 2000
                     (update_proxy_status (fun _ => ""%string) 1500 "x" "alive" None rotated.2) "p" 5).*1.
Proof.
  cbv zeta.
  pose proof (rotated_proxy_rests as_is far_future (fun _ => ""%string) "" no_order 1000 "p" None None
    TriggerConnectError (Some 60000) (example_pool "global" (Some "x"%string))
    (mkProxyProvider "p" true "global" "429, connect_error" false (Some "x"%string)) "x"
    eq_refl eq_refl ltac:(by vm_compute) eq_refl ltac:(by vm_compute) ltac:(by vm_compute)) as H.
  cbv zeta in H.
  pose proof (eq_refl : (check_and_trigger_proxy_rotation as_is far_future (fun _ => ""%string) no_order 1000 "p" None
                          None TriggerConnectError (Some 60000) (example_pool "global" (Some "x"%string))).1 = true) as Hok.
  assert (bool_decide (NoDup (fp_id <$> pool (check_and_trigger_proxy_rotation as_is far_future (fun _ => ""%string)
            no_order 1000 "p" None None TriggerConnectError (Some 60000) (example_pool "global" (Some "x"%string))).2))
          = true) as Hnd by (by vm_compute).
  destruct (check_and_trigger_proxy_rotation _ _ _ _ _ _ _ _ _ _ _) as [ok db'].
  apply bool_decide_eq_true in Hnd. cbn in Hok, Hnd. subst ok.
  destruct H as (H1 & _ & H3). split; [done|]. split; [exact H1|].
  apply (H3 _ 2000); [|by vm_compute]. apply rtc_once. split; [by constructor|]. split; [done|].
  split; [|cbn; intros; by left]. cbn. rewrite <-list_fmap_compose. intros (r & Hr & Hin)%list_elem_of_fmap.
  apply list_elem_of_fmap. exists r. split; [|done]. rewrite Hr. unfold compose. by destruct (String.eqb (fp_id r) "x").
Defined.

Lemma example_pool_inv mode : pool_inv (example_pool mode None).
Proof.
  split; cbn.
  - intros p x ->%list_elem_of_singleton. done.
  - intros k until. by rewrite lookup_empty.
  - intros a b x [->|[->|[]%elem_of_nil]%elem_of_cons]%elem_of_cons; done.
  - repeat constructor; set_solver.
Qed.

(** Two accounts get two proxies. *)
Lemma pool_stays_consistent_witness :
  let s1 := (assign_new_proxy as_is no_order 0 "p" (Some 1) true (example_pool "account" None)).2 in
  let s2 := (assign_new_proxy as_is no_order 0 "p" (Some 2) true s1).2 in
  pa_current_proxy_id <$> proxy_accounts s2 = [Some "x"%string; Some "y"%string] /\ pool_inv s2.
Proof.
  cbv zeta. split; [by vm_compute|].
  apply (pool_stays_consistent as_is far_future (fun _ => ""%string) "" (example_pool "account" None));
    [apply example_pool_inv|].
  eapply rtc_l; [apply (step_assign as_is far_future (fun _ => ""%string) "" _ no_order 0 "p" (Some 1) true)|
    eapply rtc_l; [apply (step_assign as_is far_future (fun _ => ""%string) "" _ no_order 0 "p" (Some 2) true)|
      apply rtc_refl]].
  - intros row Hrow _. cbn in Hrow.
    repeat (apply elem_of_cons in Hrow as [->|Hrow]; [done|]). by apply elem_of_nil in Hrow.
  - intros row Hrow _. vm_compute in Hrow.
    repeat (apply elem_of_cons in Hrow as [->|Hrow]; [done|]). by apply elem_of_nil in Hrow.
Defined.

(** The status of a proxy is found by its address, unless it has credentials. *)
Lemma status_by_url :
  (fun p => get_proxy_status_by_url (example_pool "global" None) (proxy_url as_is p)) <$> pool (example_pool "global" None)
  = [Some "alive"%string; None].
Proof. by vm_compute. Qed.

(** A scraped list that names the address of a custom proxy takes its
    credentials away. *)
Lemma scraping_drops_credentials :
  (fun p => (fp_source p, fp_username p))
    <$> pool (upsert_scraped_proxies (fun _ => ""%string) 0
           [("z"%string, mkScrapedProxy "list" "10.0.0.2" 1080 "http" None None None 5)] (example_pool "global" None))
  = [("custom", None); ("custom", None)]%string.
Proof. by vm_compute. Qed.

(** A second failure with a short cooldown ends the long one of the first. *)
Lemma cooldown_can_shrink :
  let s1 := (check_and_trigger_proxy_rotation as_is far_future (fun _ => ""%string) no_order 0 "p" None
               (Some "x"%string) TriggerConnectError None (example_pool "global" None)).2 in
  let s2 := (check_and_trigger_proxy_rotation as_is far_future (fun _ => ""%string) no_order 0 "p" None
               (Some "x"%string) TriggerRateLimited (Some 1000) s1).2 in
  proxy_cooldowns s1 !! ("p", "x")%string = Some (15 * MINUTE)
  /\ proxy_cooldowns s2 !! ("p", "x")%string = Some 1000000000.
Proof. by vm_compute. Qed.
