(* ===== verification/AudioDuration.v ===== *)
(** * The duration of an audio file

    Models openproxy-core/src/audio_duration.rs, which reads the duration of
    a submitted file from the header of its container (WAV, Ogg, FLAC, MP4,
    MP3), for bytes the client chooses.

    Bytes are integers of 0..=255, offsets are [usize] of 64 bits whose plain
    [+] wraps.  A step finds something, finds nothing ([None]), or crashes: an
    index out of bounds, a loop that does not end (its fuel is exhausted), or a
    recursion deeper than the stack.  The depth of the stack is a parameter. *)

From S2P Require Import Prelude Bytes.

Inductive probe (A : Type) := Got (a : A) | Nothing | Crash.
Arguments Got {A} _.
Arguments Nothing {A}.
Arguments Crash {A}.

(** [?]. *)
Definition pbind {A B} (m : probe A) (k : A -> probe B) : probe B :=
  match m with Got a => k a | Nothing => Nothing | Crash => Crash end.

Declare Scope probe_scope.
Delimit Scope probe_scope with probe.
Notation "'let*' x := m 'in' k" := (pbind m (fun x => k))
  (at level 200, x name, m at level 100, k at level 200) : probe_scope.
Open Scope probe_scope.

Definition usize_add (a b : Z) : Z := wrap_add u64_max a b.

Definition checked_add (a b : Z) : probe Z := if a + b <=? u64_max then Got (a + b) else Nothing.

Definition len (b : list Z) : Z := Z.of_nat (length b).

(** [b.get(i..j)]. *)
Definition get_range (b : list Z) (i j : Z) : probe (list Z) :=
  if (i <=? j) && (j <=? len b) then Got (take (Z.to_nat (j - i)) (drop (Z.to_nat i) b)) else Nothing.

(** [b.get(i)]. *)
Definition get_byte (b : list Z) (i : Z) : probe Z :=
  match b !! Z.to_nat i with Some x => Got x | None => Nothing end.

(** [b\[i\]] and [b\[i..j\]]. *)
Definition index (b : list Z) (i : Z) : probe Z :=
  match b !! Z.to_nat i with Some x => Got x | None => Crash end.

Definition index_range (b : list Z) (i j : Z) : probe (list Z) :=
  match get_range b i j with Got s => Got s | _ => Crash end.

Definition starts (p b : list Z) : bool := bool_decide (take (length p) b = p).


Definition be_u32 (b : list Z) (off : Z) : probe Z :=
  let* e := checked_add off 4 in
  let* s := get_range b off e in
  Got (be_of s).

Definition le_u32 (b : list Z) (off : Z) : probe Z :=
  let* e := checked_add off 4 in
  let* s := get_range b off e in
  Got (le_of s).

(** [u32::try_from(ms).ok().filter(|m| *m > 0)]. *)
Definition positive_u32 (ms : Z) : probe Z := if (0 <? ms) && (ms <=? u32_max) then Got ms else Nothing.

Definition ms_from_frames (frames rate : Z) : probe Z :=
  if rate =? 0 then Nothing else positive_u32 (sat_mul u64_max frames 1000 / rate).

(** ** WAV *)

Definition RIFF : list Z := [82; 73; 70; 70].
Definition WAVE : list Z := [87; 65; 86; 69].
Definition FMT : list Z := [102; 109; 116; 32].
Definition DATA : list Z := [100; 97; 116; 97].

(** [.ok()] of a probe. *)
Definition ok {A} (m : probe A) : option A := match m with Got a => Some a | _ => None end.

Definition data_length (b : list Z) (size body : Z) : option Z :=
  let available := Z.max 0 (len b - body) in
  let effective := if (size =? 0) || (available <? size) then available else size in
  if effective <=? u32_max then Some effective else None.

Fixpoint wav_chunks (fuel : nat) (b : list Z) (off : Z) (byte_rate data_len : option Z)
    : probe (option Z * option Z) :=
  match fuel with
  | O => Crash
  | S fuel' =>
      if usize_add off 8 <=? len b
      then
        let* id := get_range b off (usize_add off 4) in
        let* size := le_u32 b (usize_add off 4) in
        let body := usize_add off 8 in
        let byte_rate := if bool_decide (id = FMT) then ok (le_u32 b (usize_add body 8)) else byte_rate in
        let data_len := if bool_decide (id = DATA) then data_length b size body else data_len in
        match byte_rate, data_len with
        | Some _, Some _ => Got (byte_rate, data_len)
        | _, _ =>
            let* advance := checked_add size 8 in
            let* padded := checked_add advance (Z.land advance 1) in
            let* off := checked_add off padded in
            wav_chunks fuel' b off byte_rate data_len
        end
      else Got (byte_rate, data_len)
  end.

Definition wav_duration_ms (b : list Z) : probe Z :=
  let* found := wav_chunks (S (length b)) b 12 None None in
  match found with
  | (Some rate, Some n) => if rate =? 0 then Nothing else positive_u32 (n * 1000 / rate)
  | _ => Nothing
  end.

(** ** Ogg *)

Definition OGGS : list Z := [79; 103; 103; 83].
Definition OPUS_HEAD : list Z := [79; 112; 117; 115; 72; 101; 97; 100].
Definition VORBIS : list Z := [1; 118; 111; 114; 98; 105; 115].
Definition SPEEX : list Z := [83; 112; 101; 101; 120; 32; 32; 32].

Definition ogg_sample_rate (b : list Z) : probe Z :=
  let* segments := get_byte b 26 in
  let* payload := checked_add 27 segments in
  let* magic := get_range b payload (usize_add payload 8) in
  if starts OPUS_HEAD magic then Got 48000
  else if starts VORBIS magic then le_u32 b (usize_add payload 12)
  else if starts SPEEX magic then le_u32 b (usize_add payload 36)
  else Nothing.

(** The last page at or before [i]. *)
Fixpoint last_page (b : list Z) (i : nat) : probe Z :=
  let* s := get_range b (Z.of_nat i) (usize_add (Z.of_nat i) 4) in
  if bool_decide (s = OGGS) then Got (Z.of_nat i)
  else match i with O => Nothing | S i' => last_page b i' end.

Definition ogg_duration_ms (b : list Z) : probe Z :=
  let* rate := ogg_sample_rate b in
  let* page := last_page b (length b - 4) in
  let* granule := get_range b (usize_add page 6) (usize_add page 14) in
  let granule := le_of granule in
  if granule =? u64_max then Nothing else ms_from_frames granule rate.

(** ** FLAC *)

Definition FLAC : list Z := [102; 76; 97; 67].

Definition flac_duration_ms (b : list Z) : probe Z :=
  let* info := get_range b 18 26 in
  let* i0 := index info 0 in
  let* i1 := index info 1 in
  let* i2 := index info 2 in
  let* i3 := index info 3 in
  let* i4 := index info 4 in
  let* i5 := index info 5 in
  let* i6 := index info 6 in
  let* i7 := index info 7 in
  let rate := Z.lor (Z.lor (Z.shiftl i0 12) (Z.shiftl i1 4)) (Z.shiftr i2 4) in
  let total := Z.lor (Z.lor (Z.lor (Z.lor (Z.shiftl (Z.land i3 15) 32) (Z.shiftl i4 24)) (Z.shiftl i5 16))
                       (Z.shiftl i6 8)) i7 in
  ms_from_frames total rate.

(** ** MP4 *)

Definition FTYP : list Z := [102; 116; 121; 112].
Definition MVHD : list Z := [109; 118; 104; 100].
Definition MOOV : list Z := [109; 111; 111; 118].
Definition TRAK : list Z := [116; 114; 97; 107].
Definition MDIA : list Z := [109; 100; 105; 97].

Definition box_advance (b : list Z) (off size end_ : Z) : probe Z :=
  if size =? 0 then Got (end_ - off)
  else if size =? 1
  then let* hi := be_u32 b (usize_add off 8) in
       let* lo := be_u32 b (usize_add off 12) in
       Got (Z.lor (Z.shiftl hi 32) lo)
  else Got size.

(** The loop over the boxes of one level; [inner] searches one level down. *)
Fixpoint scan_boxes (inner : Z -> Z -> probe Z) (fuel : nat) (b kind : list Z) (off end_ : Z) : probe Z :=
  match fuel with
  | O => Crash
  | S fuel' =>
      if usize_add off 8 <=? end_
      then
        let* size := be_u32 b off in
        let* ty := get_range b (usize_add off 4) (usize_add off 8) in
        if bool_decide (ty = kind) then Got off
        else
          let* advance := box_advance b off size end_ in
          if advance <? 8 then Nothing
          else
            let next := let* off := checked_add off advance in scan_boxes inner fuel' b kind off end_ in
            if bool_decide (ty = MOOV) || bool_decide (ty = TRAK) || bool_decide (ty = MDIA)
            then
              let* inner_end := checked_add off advance in
              match inner (usize_add off 8) (Z.min inner_end end_) with
              | Got found => Got found
              | Nothing => next
              | Crash => Crash
              end
            else next
      else Nothing
  end.

Fixpoint find_box (stack : nat) (b kind : list Z) (start end_ : Z) : probe Z :=
  match stack with
  | O => Crash
  | S stack' => scan_boxes (find_box stack' b kind) (S (length b)) b kind start end_
  end.

Definition mp4_duration_ms (stack : nat) (b : list Z) : probe Z :=
  let* mvhd := find_box stack b MVHD 0 (Z.min (len b) (Z.shiftl 1 20)) in
  let body := usize_add mvhd 8 in
  let* version := get_byte b body in
  if version =? 1
  then
    let* timescale := be_u32 b (usize_add body 20) in
    let* hi := be_u32 b (usize_add body 24) in
    let* lo := be_u32 b (usize_add body 28) in
    ms_from_frames (Z.lor (Z.shiftl hi 32) lo) timescale
  else
    let* timescale := be_u32 b (usize_add body 12) in
    let* dur := be_u32 b (usize_add body 16) in
    ms_from_frames dur timescale.

(** ** MP3 *)

Definition ID3 : list Z := [73; 68; 51].
Definition XING : list Z := [88; 105; 110; 103].
Definition INFO : list Z := [73; 110; 102; 111].

(** [u8 & 0xE0 == 0xE0]. *)
Definition sync_byte (v : Z) : bool := Z.land v 224 =? 224.

Definition looks_like_mpeg_audio (b : list Z) : bool :=
  match b with x :: y :: _ => (x =? 255) && sync_byte y | _ => false end.

(** [array\[i as usize\]]. *)
Definition table_at (t : list Z) (i : Z) : probe Z := index t i.

Definition bitrate_tables (layer : Z) : list Z * list Z :=
  if layer =? 3
  then ([0; 32; 64; 96; 128; 160; 192; 224; 256; 288; 320; 352; 384; 416; 448; 0],
        [0; 32; 48; 56; 64; 80; 96; 112; 128; 144; 160; 176; 192; 224; 256; 0])
  else if layer =? 2
  then ([0; 32; 48; 56; 64; 80; 96; 112; 128; 160; 192; 224; 256; 320; 384; 0],
        [0; 8; 16; 24; 32; 40; 48; 56; 64; 80; 96; 112; 128; 144; 160; 0])
  else ([0; 32; 40; 48; 56; 64; 80; 96; 112; 128; 160; 192; 224; 256; 320; 0],
        [0; 8; 16; 24; 32; 40; 48; 56; 64; 80; 96; 112; 128; 144; 160; 0]).

Definition parse_mpeg_header (h : Z) : probe (Z * Z * Z) :=
  if negb (Z.land (Z.shiftr h 21) 2047 =? 2047) then Nothing
  else
    let version := Z.land (Z.shiftr h 19) 3 in
    let layer := Z.land (Z.shiftr h 17) 3 in
    let bitrate_idx := Z.land (Z.shiftr h 12) 15 in
    let rate_idx := Z.land (Z.shiftr h 10) 3 in
    if (version =? 1) || (layer =? 0) || (bitrate_idx =? 0) || (bitrate_idx =? 15) || (rate_idx =? 3)
    then Nothing
    else
      let* base_rate := table_at [44100; 48000; 32000] rate_idx in
      let* rate := if version =? 3 then Got base_rate
                   else if version =? 2 then Got (base_rate / 2)
                   else if version =? 0 then Got (base_rate / 4) else Nothing in
      let '(table1, table2) := bitrate_tables layer in
      let* kbps := if version =? 3 then table_at table1 bitrate_idx else table_at table2 bitrate_idx in
      if kbps =? 0 then Nothing
      else
        let samples_per_frame :=
          if layer =? 3 then 384 else if layer =? 2 then 1152 else if version =? 3 then 1152 else 576 in
        Got (rate, kbps * 1000, samples_per_frame).

Fixpoint find_mpeg_frame (fuel : nat) (b : list Z) (i : Z) : probe Z :=
  match fuel with
  | O => Crash
  | S fuel' =>
      if usize_add i 4 <=? len b
      then
        let* x := index b i in
        let found :=
          (x =? 255)
          && match get_byte b (usize_add i 1) with Got v => sync_byte v | _ => false end
          && match be_u32 b i with
             | Got h => match parse_mpeg_header h with Got _ => true | _ => false end
             | _ => false
             end in
        if found then Got i else find_mpeg_frame fuel' b (usize_add i 1)
      else Nothing
  end.

Definition syncsafe (s : list Z) : probe Z :=
  let* s0 := index s 0 in
  let* s1 := index s 1 in
  let* s2 := index s 2 in
  let* s3 := index s 3 in
  Got (Z.lor (Z.lor (Z.lor (Z.shiftl (Z.land s0 127) 21) (Z.shiftl (Z.land s1 127) 14))
                (Z.shiftl (Z.land s2 127) 7)) (Z.land s3 127)).

Definition mp3_duration_ms (b : list Z) : probe Z :=
  let* start := if starts ID3 b
                then let* size := get_range b 6 10 in
                     let* sz := syncsafe size in
                     checked_add 10 sz
                else Got 0 in
  let* frame := find_mpeg_frame (S (length b)) b start in
  let* header := be_u32 b frame in
  let* parsed := parse_mpeg_header header in
  let '(rate, bitrate, samples_per_frame) := parsed in
  let side_info := if Z.land (Z.shiftr header 19) 3 =? 3 then 17 else 9 in
  let xing_off := usize_add (usize_add frame 4) side_info in
  let cbr :=
    if bitrate =? 0 then Nothing
    else positive_u32 (wrap_mul u64_max (sat_mul u64_max (Z.max 0 (len b - frame)) 8) 1000 / bitrate) in
  match get_range b xing_off (usize_add xing_off 4) with
  | Got tag =>
      if bool_decide (tag = XING) || bool_decide (tag = INFO)
      then let* flags := be_u32 b (usize_add xing_off 4) in
           if negb (Z.land flags 1 =? 0)
           then let* frames := be_u32 b (usize_add xing_off 8) in
                ms_from_frames (frames * samples_per_frame) rate
           else cbr
      else cbr
  | Nothing => cbr
  | Crash => Crash
  end.

(** ** Any container *)

Definition probe_duration_ms (stack : nat) (b : list Z) : probe Z :=
  if len b <? 12 then Nothing
  else
    let* form := if starts RIFF b then index_range b 8 12 else Got [] in
    if starts RIFF b && bool_decide (form = WAVE) then wav_duration_ms b
    else if starts OGGS b then ogg_duration_ms b
    else if starts FLAC b then flac_duration_ms b
    else
      let* brand := index_range b 4 8 in
      if bool_decide (brand = FTYP) then mp4_duration_ms stack b
      else if starts ID3 b || looks_like_mpeg_audio b then mp3_duration_ms b
      else Nothing.

(** ** Nothing crashes *)

Definition safe {A} (m : probe A) : Prop := m <> Crash.

Lemma safe_bind {A B} (m : probe A) (k : A -> probe B) :
  safe m -> (forall a, m = Got a -> safe (k a)) -> safe (pbind m k).
Proof. destruct m; cbn; intros Hm Hk; [by apply Hk|done|done]. Qed.

Lemma safe_got {A} (a : A) : safe (Got a).
Proof. done. Qed.

Lemma safe_nothing {A} : safe (@Nothing A).
Proof. done. Qed.

Lemma safe_get_range b i j : safe (get_range b i j).
Proof. unfold get_range. by destruct (_ && _). Qed.

Lemma safe_get_byte b i : safe (get_byte b i).
Proof. unfold get_byte. by destruct (_ !! _). Qed.

Lemma safe_checked_add a b : safe (checked_add a b).
Proof. unfold checked_add. by destruct (_ <=? _). Qed.

Lemma safe_positive_u32 ms : safe (positive_u32 ms).
Proof. unfold positive_u32. by destruct (_ && _). Qed.

Create HintDb probe.
#[local] Hint Resolve safe_got safe_nothing safe_get_range safe_get_byte safe_checked_add safe_positive_u32 : probe.

(** One step of a probe, and its branches. *)
Ltac probe_step :=
  first [ solve [auto with probe]
        | apply safe_bind; [|intros ? ?]
        | match goal with
          | |- safe (if ?c then _ else _) => destruct c eqn:?
          | |- safe (match ?p with (_, _) => _ end) => destruct p
          end ].

Ltac probe_safe := repeat probe_step.

Lemma safe_be_u32 b off : safe (be_u32 b off).
Proof. unfold be_u32. probe_safe. Qed.

Lemma safe_le_u32 b off : safe (le_u32 b off).
Proof. unfold le_u32. probe_safe. Qed.

Lemma safe_ms_from_frames frames rate : safe (ms_from_frames frames rate).
Proof. unfold ms_from_frames. probe_safe. Qed.

#[local] Hint Resolve safe_be_u32 safe_le_u32 safe_ms_from_frames : probe.

(** Ranges that exist. *)
Lemma get_range_spec b i j s :
  get_range b i j = Got s <-> i <= j <= len b /\ s = take (Z.to_nat (j - i)) (drop (Z.to_nat i) b).
Proof.
  unfold get_range. destruct (Z.leb_spec i j), (Z.leb_spec j (len b)); cbn.
  1: split; [intros [= <-]; done|by intros [_ ->]].
  all: split; [done|lia].
Qed.

Lemma get_range_length b i j s : get_range b i j = Got s -> 0 <= i -> length s = Z.to_nat (j - i).
Proof.
  intros [[Hij Hj] ->]%get_range_spec Hi. rewrite length_take, length_drop. unfold len in Hj. lia.
Qed.

Lemma checked_add_spec a b c : checked_add a b = Got c <-> c = a + b /\ a + b <= u64_max.
Proof.
  unfold checked_add. destruct (Z.leb_spec (a + b) u64_max); split; try done; [by intros [= <-]|by intros [-> _]|lia].
Qed.

Lemma be_u32_spec b off x :
  be_u32 b off = Got x -> off + 4 <= len b /\ x = be_of (take 4 (drop (Z.to_nat off) b)).
Proof.
  unfold be_u32, pbind. destruct (checked_add off 4) as [e| |] eqn:He; [|done..].
  apply checked_add_spec in He as [-> _].
  destruct (get_range _ _ _) as [s| |] eqn:Hs; [|done..]. intros [= <-].
  apply get_range_spec in Hs as [Hr ->]. split; [lia|]. by replace (Z.to_nat (off + 4 - off)) with 4%nat by lia.
Qed.

Lemma le_u32_spec b off x :
  le_u32 b off = Got x -> off + 4 <= len b /\ x = le_of (take 4 (drop (Z.to_nat off) b)).
Proof.
  unfold le_u32, pbind. destruct (checked_add off 4) as [e| |] eqn:He; [|done..].
  apply checked_add_spec in He as [-> _].
  destruct (get_range _ _ _) as [s| |] eqn:Hs; [|done..]. intros [= <-].
  apply get_range_spec in Hs as [Hr ->]. split; [lia|]. by replace (Z.to_nat (off + 4 - off)) with 4%nat by lia.
Qed.

(** A buffer: bytes, of which the address space holds less than 2^63. *)
Definition buffer (b : list Z) : Prop := Forall (fun x => 0 <= x < 256) b /\ len b <= i64_max.

Lemma usize_add_small a n : 0 <= a <= i64_max -> 0 <= n <= 100 -> usize_add a n = a + n.
Proof.
  intros Ha Hn. unfold usize_add, wrap_add. apply Z.mod_small. unfold i64_max, u64_max in *. lia.
Qed.

Lemma safe_wav_chunks b fuel off r d :
  buffer b -> 0 <= off <= u64_max -> Z.max 0 (len b - off) < Z.of_nat fuel ->
  safe (wav_chunks fuel b off r d).
Proof.
  intros [Hb Hlen]. revert off r d. induction fuel as [|fuel IH]; intros off r d Hoff Hfuel; cbn [wav_chunks]; [lia|].
  destruct (_ <=? len b); [|done]. apply safe_bind; [auto with probe|]. intros id Hid.
  apply safe_bind; [auto with probe|]. intros size Hsize. apply get_range_spec in Hid as [Hid _].
  rewrite (usize_add_small off 4) in * by lia.
  apply le_u32_spec in Hsize as [_ ->].
  assert (0 <= le_of (take 4 (drop (Z.to_nat (off + 4)) b))) as Hs
    by (apply le_of_nonneg, Forall_take, Forall_drop, Hb).
  match goal with |- safe (match ?x with _ => _ end) => destruct x end;
    [match goal with |- safe (match ?x with _ => _ end) => destruct x end; [done|]|].
  all: apply safe_bind; [auto with probe|]; intros adv [-> _]%checked_add_spec.
  all: apply safe_bind; [auto with probe|]; intros pad [-> _]%checked_add_spec.
  all: apply safe_bind; [auto with probe|]; intros off' [-> Hmax]%checked_add_spec.
  all: match goal with _ : context [Z.land ?x 1] |- _ => assert (0 <= Z.land x 1) by (apply Z.land_nonneg; lia) end.
  all: apply IH; lia.
Qed.

Lemma safe_last_page b i : safe (last_page b i).
Proof. induction i as [|i IH]; cbn [last_page]; probe_safe. Qed.

Lemma safe_index s i n : length s = n -> (Z.to_nat i < n)%nat -> safe (index s i).
Proof. intros <- Hi. unfold index. apply lookup_lt_is_Some in Hi as [x ->]. done. Qed.

Lemma safe_index_range b i j : i <= j <= len b -> safe (index_range b i j).
Proof.
  intros Hij. unfold index_range. destruct (get_range b i j) eqn:E; [done| |by apply safe_get_range in E].
  unfold get_range in E. rewrite (proj2 (Z.leb_le _ _)), (proj2 (Z.leb_le _ _)) in E by lia. done.
Qed.

(** The loop over the boxes ends, and a level of boxes is at least eight bytes
    shorter than the one around it. *)
Lemma safe_scan_boxes inner b kind fuel start off end_ :
  buffer b -> 0 <= start <= off -> end_ <= len b -> Z.max 0 (end_ - off) < Z.of_nat fuel ->
  (forall s e, start + 8 <= s -> e <= end_ -> start + 8 <= end_ -> safe (inner s e)) ->
  safe (scan_boxes inner fuel b kind off end_).
Proof.
  intros Hb Hoff Hend Hfuel Hin. revert off Hoff Hfuel.
  induction fuel as [|fuel IH]; intros off Hoff Hfuel; cbn [scan_boxes]; [lia|].
  destruct (Z.leb_spec (usize_add off 8) end_) as [H8|]; [|done].
  apply safe_bind; [auto with probe|]. intros size Hsize.
  apply be_u32_spec in Hsize as [H4 _]. destruct Hb as [_ Hlen].
  rewrite (usize_add_small off 8) in * by lia.
  apply safe_bind; [auto with probe|]. intros ty _. destruct (bool_decide (ty = kind)); [done|].
  apply safe_bind; [unfold box_advance; probe_safe|]. intros adv _.
  destruct (Z.ltb_spec adv 8); [done|].
  set (next := pbind (checked_add off adv) (fun o => scan_boxes inner fuel b kind o end_)). assert (safe next) as Hnext.
  { apply safe_bind; [auto with probe|]. intros off' [-> _]%checked_add_spec. apply IH; lia. }
  destruct (_ || _); [|done]. apply safe_bind; [auto with probe|]. intros e [-> _]%checked_add_spec.
  specialize (Hin (off + 8) (Z.min (off + adv) end_)). destruct (inner _ _); try done. apply Hin; lia.
Qed.

Lemma safe_find_box b kind stack start end_ :
  buffer b -> 0 <= start -> end_ <= len b -> Z.max 0 (end_ - start) < 8 * Z.of_nat stack ->
  safe (find_box stack b kind start end_).
Proof.
  intros Hb. revert start end_. induction stack as [|stack IH]; intros start end_ Hs He Hst; [lia|].
  apply safe_scan_boxes with (start := start); [done|lia|done|unfold len in *; lia|].
  intros s e H1 H2 H3. apply IH; lia.
Qed.

Lemma safe_parse_mpeg_header h : safe (parse_mpeg_header h).
Proof.
  unfold parse_mpeg_header. destruct (negb _); [done|].
  assert (0 <= Z.land (Z.shiftr h 12) 15 < 16) as Hk
    by (change 15 with (Z.ones 4); rewrite Z.land_ones by lia; apply Z.mod_pos_bound; lia).
  assert (0 <= Z.land (Z.shiftr h 10) 3 < 4) as Hr
    by (change 3 with (Z.ones 2); rewrite Z.land_ones by lia; apply Z.mod_pos_bound; lia).
  destruct (_ || (Z.land (Z.shiftr h 10) 3 =? 3)) eqn:Hg; [done|]. apply orb_false_iff in Hg as [_ Hg%Z.eqb_neq].
  apply safe_bind; [apply (safe_index _ _ 3); [done|lia]|]. intros base _.
  apply safe_bind; [probe_safe|]. intros rate _.
  unfold bitrate_tables.
  destruct (Z.land (Z.shiftr h 17) 3 =? 3); [|destruct (Z.land (Z.shiftr h 17) 3 =? 2)].
  all: apply safe_bind; [destruct (_ =? 3); (apply (safe_index _ _ 16); [done|lia])|intros; probe_safe].
Qed.

Lemma safe_find_mpeg_frame b fuel i :
  buffer b -> 0 <= i <= i64_max -> Z.max 0 (len b - i) < Z.of_nat fuel -> safe (find_mpeg_frame fuel b i).
Proof.
  intros [Hb Hlen]. revert i. induction fuel as [|fuel IH]; intros i Hi Hf; cbn [find_mpeg_frame]; [lia|].
  rewrite !(usize_add_small i) by lia. destruct (Z.leb_spec (i + 4) (len b)); [|done].
  apply safe_bind; [eapply safe_index; [done|unfold len in *; lia]|]. intros x _.
  match goal with |- safe (if ?c then _ else _) => destruct c end; [done|]. apply IH; lia.
Qed.

Lemma lor_bound a b : 0 <= a -> 0 <= b -> 0 <= Z.lor a b <= a + b.
Proof.
  intros Ha Hb. split; [by apply Z.lor_nonneg|]. pose proof (Z.add_lor_land a b).
  assert (0 <= Z.land a b) by (apply Z.land_nonneg; lia). lia.
Qed.

Lemma land_127_bound x : 0 <= Z.land x 127 < 128.
Proof. change 127 with (Z.ones 7). rewrite Z.land_ones by lia. apply Z.mod_pos_bound. lia. Qed.

Lemma syncsafe_bound s z : syncsafe s = Got z -> 0 <= z < 2 ^ 29.
Proof.
  unfold syncsafe, pbind. repeat (destruct (index s _) as [?| |]; [|done..]). intros [= <-].
  pose proof (land_127_bound a). pose proof (land_127_bound a0). pose proof (land_127_bound a1). pose proof (land_127_bound a2).
  rewrite !Z.shiftl_mul_pow2 by lia.
  set (x := Z.land a 127 * 2 ^ 21). set (y := Z.land a0 127 * 2 ^ 14). set (w := Z.land a1 127 * 2 ^ 7).
  set (v := Z.land a2 127).
  pose proof (lor_bound x y). pose proof (lor_bound (Z.lor x y) w). pose proof (lor_bound (Z.lor (Z.lor x y) w) v). lia.
Qed.

Lemma safe_wav_duration_ms b : buffer b -> safe (wav_duration_ms b).
Proof.
  intros Hb. apply safe_bind; [apply safe_wav_chunks; unfold len, u64_max; [done|lia|lia]|].
  intros [[rate|] [n|]] _; probe_safe.
Qed.

Lemma safe_ogg_duration_ms b : safe (ogg_duration_ms b).
Proof. unfold ogg_duration_ms, ogg_sample_rate. probe_safe. apply safe_last_page. Qed.

Lemma safe_flac_duration_ms b : safe (flac_duration_ms b).
Proof.
  apply safe_bind; [auto with probe|]. intros info Hinfo. apply get_range_length in Hinfo; [|lia].
  repeat (apply safe_bind; [apply (safe_index _ _ _ Hinfo); lia|intros ? _]). auto with probe.
Qed.

Lemma safe_mp4_duration_ms stack b :
  buffer b -> Z.min (len b) (2 ^ 20) < 8 * Z.of_nat stack -> safe (mp4_duration_ms stack b).
Proof.
  intros Hb Hst. apply safe_bind; [apply safe_find_box; [done|lia|lia|]|intros; probe_safe].
  change (Z.shiftl 1 20) with (2 ^ 20). unfold len in *. lia.
Qed.

Lemma safe_mp3_duration_ms b : buffer b -> safe (mp3_duration_ms b).
Proof.
  intros Hb. apply safe_bind.
  { destruct (starts ID3 b); [|done]. apply safe_bind; [auto with probe|]. intros size Hsize.
    apply get_range_length in Hsize; [|lia]. apply safe_bind; [|auto with probe].
    repeat (apply safe_bind; [apply (safe_index _ _ _ Hsize); lia|intros ? _]). done. }
  intros start Hstart. assert (0 <= start <= i64_max) as Hs.
  { destruct (starts ID3 b); [|injection Hstart as <-; unfold i64_max; lia].
    unfold pbind at 1 in Hstart. destruct (get_range b 6 10) as [size| |]; [|done..].
    unfold pbind in Hstart. destruct (syncsafe size) as [sz| |] eqn:Hsz; [|done..].
    apply checked_add_spec in Hstart as [-> _]. apply syncsafe_bound in Hsz. unfold i64_max. lia. }
  apply safe_bind; [apply safe_find_mpeg_frame; [done|done|unfold len; lia]|].
  intros frame _. apply safe_bind; [auto with probe|]. intros header _.
  apply safe_bind; [apply safe_parse_mpeg_header|]. intros [[rate bitrate] spf] _.
  cbv zeta. match goal with |- safe (match ?x with _ => _ end) => destruct x eqn:E end;
    [probe_safe|probe_safe|by apply safe_get_range in E].
Qed.

(** A duration that is found is positive and fits. *)
Definition fits_u32 (m : probe Z) : Prop := forall ms, m = Got ms -> 0 < ms <= u32_max.

Lemma fits_u32_bind {A} (m : probe A) k : (forall a, fits_u32 (k a)) -> fits_u32 (pbind m k).
Proof. destruct m; cbn; [auto|done|done]. Qed.

Lemma fits_u32_nothing : fits_u32 Nothing.
Proof. done. Qed.

Lemma fits_u32_positive_u32 ms : fits_u32 (positive_u32 ms).
Proof. unfold fits_u32, positive_u32. case_match; [|done]. intros ? [= <-]. lia. Qed.

Lemma fits_u32_ms_from_frames frames rate : fits_u32 (ms_from_frames frames rate).
Proof. unfold ms_from_frames. case_match; [done|]. apply fits_u32_positive_u32. Qed.

#[local] Hint Resolve fits_u32_nothing fits_u32_positive_u32 fits_u32_ms_from_frames : probe.

Lemma probe_fits_u32 stack b : fits_u32 (probe_duration_ms stack b).
Proof.
  unfold probe_duration_ms, wav_duration_ms, ogg_duration_ms, flac_duration_ms, mp4_duration_ms, mp3_duration_ms.
  repeat first [ apply fits_u32_bind; intros ? | progress cbv zeta | solve [auto with probe]
               | match goal with |- fits_u32 (match ?x with _ => _ end) => destruct x end ].
  done.
Qed.

(** A file of any bytes is probed to the end, one of the MP4 family with a stack
    of one frame for every eight bytes of its first mebibyte. *)
Lemma probe_safe_with_stack stack b :
  buffer b -> (get_range b 4 8 = Got FTYP -> Z.min (len b) (2 ^ 20) < 8 * Z.of_nat stack) ->
  safe (probe_duration_ms stack b).
Proof.
  intros Hb Hst. unfold probe_duration_ms. destruct (Z.ltb_spec (len b) 12) as [|H12]; [done|].
  apply safe_bind; [destruct (starts RIFF b); [by apply safe_index_range|done]|]. intros form _.
  case_match; [by apply safe_wav_duration_ms|]. case_match; [apply safe_ogg_duration_ms|].
  case_match; [apply safe_flac_duration_ms|]. apply safe_bind; [apply safe_index_range; lia|]. intros brand Hbr.
  destruct (bool_decide (brand = FTYP)) eqn:E.
  - apply bool_decide_eq_true in E as ->. apply safe_mp4_duration_ms; [done|]. apply Hst.
    unfold index_range in Hbr. by destruct (get_range b 4 8).
  - case_match; [by apply safe_mp3_duration_ms|done].
Qed.

(** ** Files as their formats write them *)

Definition le4 (n : Z) : list Z := [n mod 256; n / 256 mod 256; n / 65536 mod 256; n / 16777216 mod 256].
Definition be4 (n : Z) : list Z := rev (le4 n).

(** A RIFF chunk, padded to an even length. *)
Definition chunk (c : list Z * list Z) : list Z :=
  let '(id, body) := c in id ++ le4 (len body) ++ body ++ (if Z.odd (len body) then [0] else []).

(** A chunk that is neither the format nor the samples. *)
Definition other_chunk (c : list Z * list Z) : Prop :=
  length (fst c) = 4%nat /\ fst c <> FMT /\ fst c <> DATA /\ len (snd c) <= u32_max.

(** [fmt ] with the format, channels and sample rate [head] and the rest [tail]. *)
Definition wav_file (size : Z) (before : list (list Z * list Z)) (head tail : list Z) (rate : Z)
    (between : list (list Z * list Z)) (samples after : list Z) : list Z :=
  RIFF ++ le4 size ++ WAVE ++ concat (chunk <$> before) ++ chunk (FMT, head ++ le4 rate ++ tail)
    ++ concat (chunk <$> between) ++ chunk (DATA, samples) ++ after.

(** STREAMINFO: rate(20) channels(3) bits(5) samples(36), most significant first. *)
Definition flac_info (rate channels bits total : Z) : list Z :=
  let w := rate * 2 ^ 44 + channels * 2 ^ 41 + bits * 2 ^ 36 + total in be4 (w / 2 ^ 32) ++ be4 (w mod 2 ^ 32).

Definition flac_file (head : list Z) (rate channels bits total : Z) (rest : list Z) : list Z :=
  FLAC ++ head ++ flac_info rate channels bits total ++ rest.

Definition box (c : list Z * list Z) : list Z :=
  let '(ty, body) := c in be4 (8 + len body) ++ ty ++ body.

(** A box that is not opened in the search. *)
Definition leaf_box (c : list Z * list Z) : Prop :=
  length (fst c) = 4%nat /\ (fst c ∉ [MVHD; MOOV; TRAK; MDIA]) /\ 8 + len (snd c) <= u32_max.

Definition mp4_file (brand : list Z) (before inner : list (list Z * list Z)) (mvhd rest after : list Z) : list Z :=
  box (FTYP, brand) ++ concat (box <$> before)
    ++ box (MOOV, concat (box <$> inner) ++ box (MVHD, mvhd) ++ rest) ++ after.

Lemma len_app a b : len (a ++ b) = len a + len b.
Proof. unfold len. rewrite length_app. lia. Qed.

Lemma len_nonneg b : 0 <= len b.
Proof. unfold len. lia. Qed.

Lemma len_be4 n : len (be4 n) = 4.
Proof. done. Qed.

Lemma len_le4 n : len (le4 n) = 4.
Proof. done. Qed.

Lemma get_range_app a s c i j :
  i = len a -> j = len a + len s -> get_range (a ++ s ++ c) i j = Got s.
Proof.
  intros -> ->. pose proof (len_nonneg c). pose proof (len_nonneg s). apply get_range_spec.
  rewrite !len_app. split; [lia|]. unfold len. rewrite Nat2Z.id, drop_app_length.
  replace (Z.to_nat _) with (length s) by lia. by rewrite take_app_length.
Qed.

Lemma le_of_le4 n : 0 <= n <= u32_max -> le_of (le4 n) = n.
Proof. unfold le4, le_of, u32_max. intros Hn. cbn [foldr]. Z.div_mod_to_equations. lia. Qed.

Lemma be_of_be4 n : 0 <= n <= u32_max -> be_of (be4 n) = n.
Proof. unfold be4, be_of, le4, u32_max. intros Hn. cbn [foldl rev app]. Z.div_mod_to_equations. lia. Qed.

Lemma le_u32_app a n c i :
  i = len a -> 0 <= n <= u32_max -> len a <= i64_max -> le_u32 (a ++ le4 n ++ c) i = Got n.
Proof.
  intros -> Hn Ha. unfold le_u32, checked_add. rewrite (proj2 (Z.leb_le _ _)) by (unfold i64_max, u64_max in *; lia).
  cbn [pbind]. rewrite (get_range_app a (le4 n)) by (rewrite ?len_le4; lia). cbn [pbind]. by rewrite le_of_le4.
Qed.

Lemma be_u32_app a n c i :
  i = len a -> 0 <= n <= u32_max -> len a <= i64_max -> be_u32 (a ++ be4 n ++ c) i = Got n.
Proof.
  intros -> Hn Ha. unfold be_u32, checked_add. rewrite (proj2 (Z.leb_le _ _)) by (unfold i64_max, u64_max in *; lia).
  cbn [pbind]. rewrite (get_range_app a (be4 n)) by (rewrite ?len_be4; lia). cbn [pbind]. by rewrite be_of_be4.
Qed.

Lemma len_chunk id body : length id = 4%nat -> len (chunk (id, body)) = len body + 8 + Z.land (len body + 8) 1.
Proof.
  intros Hid. unfold chunk. rewrite !len_app, len_le4. unfold len at 1. rewrite Hid.
  change 1 with (Z.ones 1) at 1. rewrite Z.land_ones by lia. change (2 ^ 1) with 2. rewrite Zmod_odd.
  rewrite Z.odd_add. change (Z.odd 8) with false. rewrite xorb_false_r.
  destruct (Z.odd (len body)); [change (len [0]) with 1|change (len []) with 0]; lia.
Qed.

(** One round of the loop on a chunk. *)
Lemma wav_chunk_step fuel pre id body post r d :
  let b := pre ++ chunk (id, body) ++ post in
  let r' := if bool_decide (id = FMT) then ok (le_u32 b (len pre + 16)) else r in
  let d' := if bool_decide (id = DATA) then data_length b (len body) (len pre + 8) else d in
  length id = 4%nat -> len body <= u32_max -> len b <= i64_max ->
  wav_chunks (S fuel) b (len pre) r d =
    match r', d' with
    | Some _, Some _ => Got (r', d')
    | _, _ => wav_chunks fuel b (len (pre ++ chunk (id, body))) r' d'
    end.
Proof.
  intros b r' d' Hid Hbody Hb. pose proof (len_nonneg pre). pose proof (len_nonneg body). pose proof (len_nonneg post).
  pose proof (len_chunk id body Hid) as Hc.
  assert (0 <= Z.land (len body + 8) 1) by (apply Z.land_nonneg; lia).
  assert (len b = len pre + len (chunk (id, body)) + len post) as Hlen by (unfold b; rewrite !len_app; lia).
  assert (len id = 4) as Hid4 by (unfold len; lia).
  cbn [wav_chunks]. rewrite !(usize_add_small (len pre)) by lia.
  rewrite (proj2 (Z.leb_le (len pre + 8) (len b))) by lia.
  assert (get_range b (len pre) (len pre + 4) = Got id) as ->
    by (unfold b, chunk; rewrite <- app_assoc; apply get_range_app; lia).
  cbn [pbind]. assert (le_u32 b (len pre + 4) = Got (len body)) as ->.
  { unfold b, chunk. rewrite <- !app_assoc, (app_assoc pre). apply le_u32_app; rewrite ?len_app; lia. }
  cbn [pbind]. rewrite (usize_add_small (len pre + 8)) by lia.
  replace (len pre + 8 + 8) with (len pre + 16) by lia. fold r' d'.
  assert (forall x y, (let* advance := checked_add (len body) 8 in
                       let* padded := checked_add advance (Z.land advance 1) in
                       let* off := checked_add (len pre) padded in wav_chunks fuel b off x y)
          = wav_chunks fuel b (len (pre ++ chunk (id, body))) x y) as Hnext.
  { intros x y. unfold checked_add. rewrite (proj2 (Z.leb_le (len body + 8) _)) by (unfold i64_max, u64_max in *; lia).
    cbn [pbind]. rewrite <- Hc. rewrite (proj2 (Z.leb_le _ _)) by (unfold i64_max, u64_max in *; lia).
    cbn [pbind]. rewrite (proj2 (Z.leb_le _ _)) by (unfold i64_max, u64_max in *; lia).
    cbn [pbind]. by rewrite len_app. }
  destruct r', d'; [done|apply Hnext..].
Qed.

(** The other chunks are skipped. *)
Lemma wav_chunks_skip cs fuel pre post r d :
  Forall other_chunk cs -> r = None \/ d = None ->
  len (pre ++ concat (chunk <$> cs) ++ post) <= i64_max ->
  wav_chunks (length cs + fuel) (pre ++ concat (chunk <$> cs) ++ post) (len pre) r d =
    wav_chunks fuel (pre ++ concat (chunk <$> cs) ++ post) (len (pre ++ concat (chunk <$> cs))) r d.
Proof.
  intros Hcs Hrd. revert pre. induction Hcs as [|[id body] cs (Hid & H1 & H2 & Hbody) _ IH]; intros pre Hb.
  { by rewrite app_nil_r. }
  cbn [fmap list_fmap concat length Nat.add] in *. rewrite <- app_assoc in *.
  rewrite wav_chunk_step by done. cbn [fst snd] in *.
  rewrite !bool_decide_eq_false_2 by done. rewrite (app_assoc pre) in *. rewrite IH by done.
  rewrite <- !app_assoc. destruct Hrd as [-> | ->]; [done|by destruct r].
Qed.

Lemma concat_chunks_length cs : Forall other_chunk cs -> Z.of_nat (length cs) <= len (concat (chunk <$> cs)).
Proof.
  induction 1 as [|[id body] cs (Hid & _) _ IH]; cbn [fmap list_fmap concat length]; [done|].
  rewrite len_app, len_chunk by done. pose proof (len_nonneg body).
  assert (0 <= Z.land (len body + 8) 1) by (apply Z.land_nonneg; lia). lia.
Qed.

Lemma chunk_at_least id body : length id = 4%nat -> 8 <= len (chunk (id, body)).
Proof.
  intros Hid. rewrite len_chunk by done. pose proof (len_nonneg body).
  assert (0 <= Z.land (len body + 8) 1) by (apply Z.land_nonneg; lia). lia.
Qed.

(** The byte rate of the format chunk, which sets the rate. *)
Lemma wav_fmt_step fuel pre head tail rate post :
  let b := pre ++ chunk (FMT, head ++ le4 rate ++ tail) ++ post in
  len head = 8 -> len tail <= 100 -> 0 <= rate <= u32_max -> len b <= i64_max ->
  wav_chunks (S fuel) b (len pre) None None =
    wav_chunks fuel b (len (pre ++ chunk (FMT, head ++ le4 rate ++ tail))) (Some rate) None.
Proof.
  intros b Hhead Htail Hrate Hb. pose proof (len_nonneg post). pose proof (len_nonneg pre).
  assert (len pre + 16 <= len b).
  { unfold b. rewrite !len_app, len_chunk, !len_app, len_le4 by done. pose proof (len_nonneg tail).
    match goal with |- context [Z.land ?x 1] => assert (0 <= Z.land x 1) by (apply Z.land_nonneg; lia) end. lia. }
  unfold b. rewrite wav_chunk_step; [|done|rewrite !len_app, len_le4; unfold u32_max; lia|done].
  rewrite bool_decide_eq_true_2, bool_decide_eq_false_2 by done.
  assert (le_u32 b (len pre + 16) = Got rate) as Hr.
  { unfold b, chunk. rewrite <- !app_assoc. rewrite (app_assoc FMT), (app_assoc (FMT ++ _)), (app_assoc pre).
    apply le_u32_app; [|done|].
    all: rewrite !len_app, !len_le4; change (len FMT) with 4; lia. }
  fold b. by rewrite Hr.
Qed.

Lemma wav_data_step fuel pre samples post rate :
  let b := pre ++ chunk (DATA, samples) ++ post in
  0 < len samples <= u32_max -> len b <= i64_max ->
  wav_chunks (S fuel) b (len pre) (Some rate) None = Got (Some rate, Some (len samples)).
Proof.
  intros b Hs Hb. unfold b. rewrite wav_chunk_step; [|done|lia|done].
  rewrite bool_decide_eq_false_2, bool_decide_eq_true_2 by done. fold b.
  assert (len pre + 8 + len samples <= len b).
  { unfold b. rewrite !len_app, len_chunk by done. pose proof (len_nonneg post).
    assert (0 <= Z.land (len samples + 8) 1) by (apply Z.land_nonneg; lia). lia. }
  unfold data_length. rewrite (proj2 (Z.eqb_neq _ _)) by lia. cbn [orb].
  rewrite (proj2 (Z.ltb_ge _ _)) by lia. by rewrite (proj2 (Z.leb_le _ _)) by lia.
Qed.

Lemma wav_file_chunks size before head tail rate between samples after :
  let b := wav_file size before head tail rate between samples after in
  Forall other_chunk before -> Forall other_chunk between -> len head = 8 -> len tail <= 100 ->
  0 <= rate <= u32_max -> 0 < len samples <= u32_max -> len b <= i64_max ->
  wav_chunks (S (length b)) b 12 None None = Got (Some rate, Some (len samples)).
Proof.
  intros b Hbefore Hbetween Hhead Htail Hrate Hsamples Hb.
  pose proof (concat_chunks_length _ Hbefore). pose proof (concat_chunks_length _ Hbetween).
  set (p0 := RIFF ++ le4 size ++ WAVE). set (c1 := concat (chunk <$> before)) in *.
  set (c2 := concat (chunk <$> between)) in *.
  set (fmt := chunk (FMT, head ++ le4 rate ++ tail)). set (dat := chunk (DATA, samples)).
  assert (b = p0 ++ c1 ++ fmt ++ c2 ++ dat ++ after) as E by done.
  assert (8 <= len fmt) as Hf by by apply chunk_at_least. assert (8 <= len dat) as Hd by by apply chunk_at_least.
  assert (len b = 12 + (len c1 + (len fmt + (len c2 + (len dat + len after))))) as Hlen by (rewrite E, !len_app; done).
  pose proof (len_nonneg after).
  replace (S (length b)) with (length before + S (length between + S (length b - length before - length between - 1)))%nat
    by (unfold len in *; lia).
  generalize (length b - length before - length between - 1)%nat. intros fuel. rewrite E in Hb |- *.
  change 12 with (len p0) at 1. unfold c1. rewrite wav_chunks_skip; [|done|by left|done].
  fold c1. rewrite (app_assoc p0) in *. unfold fmt. rewrite wav_fmt_step by done. fold fmt.
  rewrite (app_assoc _ fmt) in *. unfold c2. rewrite wav_chunks_skip; [|done|by right|done].
  fold c2. rewrite (app_assoc _ c2) in *. by apply wav_data_step.
Qed.

(** Bits that do not overlap. *)
Lemma lor_disjoint a b n : 0 <= n -> 0 <= b < 2 ^ n -> a mod 2 ^ n = 0 -> Z.lor a b = a + b.
Proof.
  intros Hn Hb Ha. pose proof (Z.add_lor_land a b) as E.
  assert (Z.land a b = 0) as H0; [|lia].
  rewrite <- (Z.mod_small b (2 ^ n)) by done. rewrite <- Z.land_ones, (Z.land_comm b), Z.land_assoc by done.
  by rewrite (Z.land_ones a), Ha, Z.land_0_l by done.
Qed.

Lemma flac_info_read rate channels bits total :
  0 <= rate < 2 ^ 20 -> 0 <= channels < 2 ^ 3 -> 0 <= bits < 2 ^ 5 -> 0 <= total < 2 ^ 36 ->
  exists i0 i1 i2 i3 i4 i5 i6 i7,
    flac_info rate channels bits total = [i0; i1; i2; i3; i4; i5; i6; i7] /\
    Z.lor (Z.lor (Z.shiftl i0 12) (Z.shiftl i1 4)) (Z.shiftr i2 4) = rate /\
    Z.lor (Z.lor (Z.lor (Z.lor (Z.shiftl (Z.land i3 15) 32) (Z.shiftl i4 24)) (Z.shiftl i5 16)) (Z.shiftl i6 8)) i7
      = total.
Proof.
  intros Hr Hc Hb Ht. unfold flac_info, be4, le4. cbn [rev app].
  set (w := rate * 2 ^ 44 + channels * 2 ^ 41 + bits * 2 ^ 36 + total).
  do 8 eexists. split; [reflexivity|].
  change 15 with (Z.ones 4). rewrite Z.land_ones by lia. rewrite !Z.shiftl_mul_pow2, Z.shiftr_div_pow2 by lia.
  change (2 ^ 12) with 4096. change (2 ^ 4) with 16. change (2 ^ 32) with 4294967296. change (2 ^ 24) with 16777216.
  change (2 ^ 16) with 65536. change (2 ^ 8) with 256.
  split.
  - rewrite (lor_disjoint _ (_ * 16) 12), (lor_disjoint _ (_ / 16) 4).
    all: change (2 ^ 12) with 4096; change (2 ^ 4) with 16; try lia.
    all: unfold w; Z.div_mod_to_equations; lia.
  - rewrite (lor_disjoint _ (_ * 16777216) 32), (lor_disjoint _ (_ * 65536) 24), (lor_disjoint _ (_ * 256) 16), (lor_disjoint _ _ 8).
    all: change (2 ^ 32) with 4294967296; change (2 ^ 24) with 16777216; change (2 ^ 16) with 65536; change (2 ^ 8) with 256; try lia.
    all: unfold w; Z.div_mod_to_equations; lia.
Qed.

Lemma ms_from_frames_exact frames rate :
  0 < rate -> 0 <= frames -> frames * 1000 <= u64_max -> ms_from_frames frames rate = positive_u32 (frames * 1000 / rate).
Proof.
  intros Hr Hf Hm. unfold ms_from_frames, sat_mul. rewrite (proj2 (Z.eqb_neq _ _)) by lia.
  by rewrite Z.min_r || rewrite Z.min_l by lia.
Qed.

Lemma flac_file_duration head rate channels bits total rest :
  len head = 14 -> 0 < rate < 2 ^ 20 -> 0 <= channels < 2 ^ 3 -> 0 <= bits < 2 ^ 5 -> 0 <= total < 2 ^ 36 ->
  flac_duration_ms (flac_file head rate channels bits total rest) = positive_u32 (total * 1000 / rate).
Proof.
  intros Hh Hr Hc Hb Ht. destruct (flac_info_read rate channels bits total) as (i0 & i1 & i2 & i3 & i4 & i5 & i6 & i7 & E & E1 & E2);
    [lia|done..|].
  unfold flac_duration_ms, flac_file. rewrite E, app_assoc.
  rewrite get_range_app by (rewrite len_app, Hh; done).
  transitivity (ms_from_frames total rate); [by rewrite <- E1, <- E2|].
  apply ms_from_frames_exact; [lia|lia|unfold u64_max; lia].
Qed.

Lemma box_length c : length (fst c) = 4%nat -> len (box c) = 8 + len (snd c).
Proof. destruct c as [ty body]. intros H. unfold box. rewrite !len_app, len_be4. unfold len at 1. cbn in *. lia. Qed.

(** One round of the loop on a box that lies in the search. *)
Lemma scan_box_step inner fuel pre ty body post kind end_ :
  let b := pre ++ box (ty, body) ++ post in
  length ty = 4%nat -> 8 + len body <= u32_max -> len b <= i64_max -> len pre + 8 <= end_ ->
  scan_boxes inner (S fuel) b kind (len pre) end_ =
    if bool_decide (ty = kind) then Got (len pre)
    else
      let next := scan_boxes inner fuel b kind (len (pre ++ box (ty, body))) end_ in
      if bool_decide (ty = MOOV) || bool_decide (ty = TRAK) || bool_decide (ty = MDIA)
      then match inner (len pre + 8) (Z.min (len (pre ++ box (ty, body))) end_) with
           | Got found => Got found | Nothing => next | Crash => Crash
           end
      else next.
Proof.
  intros b Hty Hbody Hb Hend. pose proof (len_nonneg pre). pose proof (len_nonneg body). pose proof (len_nonneg post).
  pose proof (box_length (ty, body) Hty) as Hbox. cbn [snd] in Hbox.
  assert (len b = len pre + len (box (ty, body)) + len post) as Hlen by (unfold b; rewrite !len_app; lia).
  assert (len ty = 4) as Hty4 by (unfold len; lia).
  cbn [scan_boxes]. rewrite !(usize_add_small (len pre)) by lia. rewrite (proj2 (Z.leb_le _ _)) by lia.
  assert (be_u32 b (len pre) = Got (8 + len body)) as ->
    by (unfold b, box; rewrite <- app_assoc; apply be_u32_app; lia).
  assert (get_range b (len pre + 4) (len pre + 8) = Got ty) as ->.
  { unfold b, box. rewrite <- !app_assoc, (app_assoc pre). apply get_range_app; rewrite ?len_app, len_be4; lia. }
  cbn [pbind]. destruct (bool_decide (ty = kind)); [done|].
  unfold box_advance. rewrite (proj2 (Z.eqb_neq _ 0)), (proj2 (Z.eqb_neq _ 1)) by lia. cbn [pbind].
  rewrite (proj2 (Z.ltb_ge _ _)) by lia. unfold checked_add.
  rewrite (proj2 (Z.leb_le _ _)) by (unfold i64_max, u64_max in *; lia). cbn [pbind].
  by rewrite len_app, Hbox.
Qed.

(** The boxes that are not opened are skipped. *)
Lemma scan_boxes_skip cs inner fuel pre post end_ :
  Forall leaf_box cs -> len (pre ++ concat (box <$> cs) ++ post) <= i64_max ->
  len (pre ++ concat (box <$> cs)) <= end_ ->
  scan_boxes inner (length cs + fuel) (pre ++ concat (box <$> cs) ++ post) MVHD (len pre) end_ =
    scan_boxes inner fuel (pre ++ concat (box <$> cs) ++ post) MVHD (len (pre ++ concat (box <$> cs))) end_.
Proof.
  intros Hcs. revert pre. induction Hcs as [|[ty body] cs (Hty & Hn & Hbody) _ IH]; intros pre Hb Hend.
  { by rewrite app_nil_r. }
  cbn [fmap list_fmap concat length Nat.add fst snd] in *. rewrite <- (app_assoc (box _)) in *.
  pose proof (box_length (ty, body) Hty) as Hbox. cbn [snd] in Hbox. pose proof (len_nonneg body).
  pose proof (len_nonneg (concat (box <$> cs))). rewrite !len_app in Hend.
  rewrite scan_box_step; [|done|done|done|lia].
  rewrite !bool_decide_eq_false_2 by (intros ->; apply Hn; set_solver). cbn [orb].
  rewrite (app_assoc pre) in *. rewrite IH; [by rewrite <- !app_assoc|done|rewrite !len_app; lia].
Qed.

Lemma concat_boxes_length cs : Forall leaf_box cs -> Z.of_nat (length cs) <= len (concat (box <$> cs)).
Proof.
  induction 1 as [|c cs (Hid & _) _ IH]; cbn [fmap list_fmap concat length]; [done|].
  rewrite len_app, box_length by done. pose proof (len_nonneg (snd c)). lia.
Qed.

(** What lies before the header box of an MP4 file, and after it. *)
Definition mp4_prefix (brand : list Z) (before inner : list (list Z * list Z)) (mvhd rest : list Z) : list Z :=
  box (FTYP, brand) ++ concat (box <$> before)
    ++ be4 (8 + len (concat (box <$> inner) ++ box (MVHD, mvhd) ++ rest)) ++ MOOV ++ concat (box <$> inner).

Lemma mp4_file_split brand before inner mvhd rest after :
  mp4_file brand before inner mvhd rest after =
    mp4_prefix brand before inner mvhd rest ++ box (MVHD, mvhd) ++ rest ++ after.
Proof. unfold mp4_file, mp4_prefix. unfold box at 3. by rewrite <- !app_assoc. Qed.

(** The search of one level, up to the header box. *)
Lemma find_box_level n pre cs mvhd post end_ :
  let b := pre ++ concat (box <$> cs) ++ box (MVHD, mvhd) ++ post in
  Forall leaf_box cs -> len mvhd <= 200 -> len b <= i64_max -> len pre + len (concat (box <$> cs)) + 8 <= end_ ->
  find_box (S n) b MVHD (len pre) end_ = Got (len (pre ++ concat (box <$> cs))).
Proof.
  intros b Hcs Hm Hb Hend. pose proof (concat_boxes_length _ Hcs) as Hn. cbn [find_box].
  replace (S (length b)) with (length cs + S (length b - length cs))%nat
    by (unfold b, len in *; rewrite !length_app; lia).
  unfold b in *. rewrite scan_boxes_skip; [|done|done|rewrite len_app; lia].
  rewrite (app_assoc pre) in *.
  rewrite scan_box_step; [|done|unfold u32_max; lia|done|rewrite len_app; lia]. by rewrite bool_decide_eq_true_2.
Qed.

Lemma find_box_mvhd n brand before inner mvhd rest after end_ :
  let b := mp4_file brand before inner mvhd rest after in
  let pos := len (mp4_prefix brand before inner mvhd rest) in
  Forall leaf_box before -> Forall leaf_box inner -> 8 + len brand <= u32_max -> len mvhd <= 200 ->
  8 + len (concat (box <$> inner) ++ box (MVHD, mvhd) ++ rest) <= u32_max ->
  len b <= i64_max -> pos + 8 <= end_ ->
  find_box (S (S n)) b MVHD 0 end_ = Got pos.
Proof.
  intros b pos Hbefore Hinner Hbrand Hmvhd Hmoov Hb Hend.
  set (boxes := (FTYP, brand) :: before). set (body := concat (box <$> inner) ++ box (MVHD, mvhd) ++ rest) in *.
  assert (Forall leaf_box boxes) as Hboxes by (constructor; [split; [done|split; [set_solver|done]]|done]).
  set (c := concat (box <$> boxes)).
  assert (b = c ++ box (MOOV, body) ++ after) as E.
  { unfold b, mp4_file, c, boxes. cbn [fmap list_fmap concat]. by rewrite <- !app_assoc. }
  set (open := c ++ be4 (8 + len body) ++ MOOV).
  assert (mp4_prefix brand before inner mvhd rest = open ++ concat (box <$> inner)) as Hp.
  { unfold mp4_prefix, open, c, boxes. cbn [fmap list_fmap concat]. by rewrite <- !app_assoc. }
  assert (len open = len c + 8) as Ho by (unfold open; rewrite !len_app; done).
  assert (pos = len c + 8 + len (concat (box <$> inner))) as Hpos by (unfold pos; rewrite Hp, len_app; lia).
  assert (len body = len (concat (box <$> inner)) + (8 + len mvhd) + len rest) as Hbody
    by (unfold body; rewrite !len_app, box_length by done; cbn [snd]; lia).
  pose proof (len_nonneg (concat (box <$> inner))). pose proof (len_nonneg mvhd). pose proof (len_nonneg rest).
  pose proof (concat_boxes_length _ Hboxes) as Hn. fold c in Hn.
  assert (find_box (S n) b MVHD (len c + 8) (Z.min (len (c ++ box (MOOV, body))) end_) = Got pos) as Hin.
  { unfold pos. rewrite Hp, <- Ho. unfold b. rewrite mp4_file_split, Hp, <- app_assoc.
    apply find_box_level; [done|done|by rewrite app_assoc, <- Hp, <- mp4_file_split|].
    rewrite len_app, box_length by done. cbn [snd]. lia. }
  remember (S n) as m. cbn [find_box].
  replace (S (length b)) with (length boxes + S (length b - length boxes))%nat
    by (rewrite E in *; unfold len in *; rewrite !length_app in *; lia).
  generalize (length b - length boxes)%nat. intros fuel. rewrite E in Hb, Hin |- *.
  change (c ++ box (MOOV, body) ++ after) with ([] ++ c ++ box (MOOV, body) ++ after) at 2.
  change 0 with (len []) at 1. unfold c. rewrite scan_boxes_skip; [|done|done|fold c; cbn [app]; lia].
  fold c. cbn [app]. rewrite scan_box_step; [|done|done|done|lia].
  by rewrite bool_decide_eq_false_2, bool_decide_eq_true_2, Hin by done.
Qed.

(** The movie header: version, flags and times, timescale, duration. *)
Definition mvhd_v0 (times : list Z) (timescale dur : Z) (tail : list Z) : list Z :=
  0 :: times ++ be4 timescale ++ be4 dur ++ tail.

Definition mvhd_v1 (times : list Z) (timescale dur : Z) (tail : list Z) : list Z :=
  1 :: times ++ be4 timescale ++ be4 (dur / 2 ^ 32) ++ be4 (dur mod 2 ^ 32) ++ tail.

(** The bytes [s] lie in [b] from [i]. *)
Definition lies (b : list Z) (i : Z) (s : list Z) : Prop := exists a c, b = a ++ s ++ c /\ len a = i.

Lemma lies_app b i s t : lies b i (s ++ t) -> lies b i s /\ lies b (i + len s) t.
Proof.
  intros (a & c & -> & <-). split; [exists a, (t ++ c)|exists (a ++ s), c].
  all: rewrite <- ?app_assoc; split; [done|by rewrite ?len_app].
Qed.

Lemma lies_cons b i x t : lies b i (x :: t) -> get_byte b i = Got x /\ lies b (i + 1) t.
Proof.
  change (x :: t) with ([x] ++ t). intros [(a & c & -> & <-) Ht]%lies_app. split; [|done].
  unfold get_byte, len. cbn [app]. by rewrite Nat2Z.id, list_lookup_middle.
Qed.

Lemma lies_len b i s : lies b i s -> 0 <= i /\ i + len s <= len b.
Proof. intros (a & c & -> & <-). rewrite !len_app. pose proof (len_nonneg a). pose proof (len_nonneg c). lia. Qed.

Lemma lies_be4 b i n : lies b i (be4 n) -> len b <= i64_max -> 0 <= n <= u32_max -> be_u32 b i = Got n.
Proof.
  intros Hl Hb Hn. pose proof (lies_len _ _ _ Hl). pose proof (len_be4 n). destruct Hl as (a & c & -> & <-).
  apply be_u32_app; [done|done|lia].
Qed.

(** The header read from where it was found. *)
Lemma mp4_header_v0 stack b pos times timescale dur tail :
  find_box stack b MVHD 0 (Z.min (len b) (Z.shiftl 1 20)) = Got pos ->
  lies b (pos + 8) (mvhd_v0 times timescale dur tail) ->
  0 <= pos -> len b <= i64_max -> len times = 11 -> 0 < timescale <= u32_max -> 0 <= dur <= u32_max ->
  mp4_duration_ms stack b = positive_u32 (dur * 1000 / timescale).
Proof.
  intros Hf Hl Hpos Hb Ht Hts Hd. pose proof (lies_len _ _ _ Hl). pose proof (len_nonneg (mvhd_v0 times timescale dur tail)).
  unfold mvhd_v0 in Hl. apply lies_cons in Hl as [Hv Hl].
  apply lies_app in Hl as [_ Hl]. apply lies_app in Hl as [H1 Hl]. apply lies_app in Hl as [H2 _].
  rewrite Ht, ?len_be4 in *. unfold mp4_duration_ms. rewrite Hf. cbn [pbind].
  rewrite (usize_add_small pos), Hv by lia. cbn [pbind Z.eqb]. rewrite !(usize_add_small (pos + 8)) by lia.
  replace (pos + 8 + 12) with (pos + 8 + 1 + 11) by lia. replace (pos + 8 + 16) with (pos + 8 + 1 + 11 + 4) by lia.
  rewrite (lies_be4 _ _ _ H1), (lies_be4 _ _ _ H2) by lia. cbn [pbind].
  apply ms_from_frames_exact; unfold u32_max, u64_max in *; lia.
Qed.

Lemma mp4_header_v1 stack b pos times timescale dur tail :
  find_box stack b MVHD 0 (Z.min (len b) (Z.shiftl 1 20)) = Got pos ->
  lies b (pos + 8) (mvhd_v1 times timescale dur tail) ->
  0 <= pos -> len b <= i64_max -> len times = 19 -> 0 < timescale <= u32_max -> 0 <= dur -> dur * 1000 <= u64_max ->
  mp4_duration_ms stack b = positive_u32 (dur * 1000 / timescale).
Proof.
  intros Hf Hl Hpos Hb Ht Hts Hd Hd'. pose proof (lies_len _ _ _ Hl). pose proof (len_nonneg (mvhd_v1 times timescale dur tail)).
  unfold mvhd_v1 in Hl. apply lies_cons in Hl as [Hv Hl].
  apply lies_app in Hl as [_ Hl]. apply lies_app in Hl as [H1 Hl]. apply lies_app in Hl as [H2 Hl].
  apply lies_app in Hl as [H3 _].
  rewrite Ht, ?len_be4 in *. unfold mp4_duration_ms. rewrite Hf. cbn [pbind].
  rewrite (usize_add_small pos), Hv by lia. cbn [pbind Z.eqb]. rewrite !(usize_add_small (pos + 8)) by lia.
  replace (pos + 8 + 20) with (pos + 8 + 1 + 19) by lia. replace (pos + 8 + 24) with (pos + 8 + 1 + 19 + 4) by lia.
  replace (pos + 8 + 28) with (pos + 8 + 1 + 19 + 4 + 4) by lia.
  assert (0 <= dur mod 2 ^ 32 < 2 ^ 32) by (apply Z.mod_pos_bound; lia).
  assert (0 <= dur / 2 ^ 32 <= u32_max) by (change (2 ^ 32) with 4294967296; unfold u32_max, u64_max in *; Z.div_mod_to_equations; lia).
  rewrite (lies_be4 _ _ _ H1), (lies_be4 _ _ _ H2), (lies_be4 _ _ _ H3) by (unfold u32_max in *; lia). cbn [pbind].
  assert (Z.lor (Z.shiftl (dur / 2 ^ 32) 32) (dur mod 2 ^ 32) = dur) as ->; [|by apply ms_from_frames_exact; [lia|lia|]].
  rewrite Z.shiftl_mul_pow2 by lia. rewrite (lor_disjoint _ _ 32); [|lia|lia|by apply Z.mod_mul].
  rewrite Z.mul_comm. symmetry. apply Z.div_mod. lia.
Qed.

Lemma mp4_prefix_found n brand before inner mvhd rest after :
  let b := mp4_file brand before inner mvhd rest after in
  let pos := len (mp4_prefix brand before inner mvhd rest) in
  Forall leaf_box before -> Forall leaf_box inner -> len mvhd <= 200 ->
  8 + len (concat (box <$> inner) ++ box (MVHD, mvhd) ++ rest) <= u32_max ->
  len b <= i64_max -> pos + 8 <= 2 ^ 20 ->
  find_box (S (S n)) b MVHD 0 (Z.min (len b) (Z.shiftl 1 20)) = Got pos /\ lies b (pos + 8) mvhd.
Proof.
  intros b pos Hbefore Hinner Hm Hmoov Hb Hpos.
  assert (len b = pos + (8 + len mvhd + (len rest + len after))) as Hlen.
  { unfold b. rewrite mp4_file_split, !len_app, box_length by done. cbn [snd]. fold pos. lia. }
  assert (8 + len brand <= pos) as Hbrand.
  { unfold pos, mp4_prefix. rewrite len_app, box_length by done. cbn [snd]. pose proof (len_nonneg (concat (box <$> before)
      ++ be4 (8 + len (concat (box <$> inner) ++ box (MVHD, mvhd) ++ rest)) ++ MOOV ++ concat (box <$> inner))). lia. }
  pose proof (len_nonneg mvhd). pose proof (len_nonneg rest). pose proof (len_nonneg after).
  split.
  - apply find_box_mvhd; try done; [unfold u32_max; lia|]. change (Z.shiftl 1 20) with (2 ^ 20). unfold pos in *. lia.
  - unfold b. rewrite mp4_file_split. unfold box. rewrite <- !app_assoc.
    exists (mp4_prefix brand before inner mvhd rest ++ be4 (8 + len mvhd) ++ MVHD), (rest ++ after).
    split; [by rewrite <- !app_assoc|]. by rewrite !len_app, len_be4.
Qed.

(** The sniffing of the container. *)
Lemma probe_wav n x rest : len x = 4 -> probe_duration_ms n (RIFF ++ x ++ WAVE ++ rest) = wav_duration_ms (RIFF ++ x ++ WAVE ++ rest).
Proof.
  intros Hx. pose proof (len_nonneg rest). unfold probe_duration_ms.
  rewrite (proj2 (Z.ltb_ge _ _)) by (rewrite !len_app, Hx; change (len RIFF) with 4; change (len WAVE) with 4; lia).
  change (starts RIFF _) with true. cbn [andb].
  unfold index_range. rewrite (app_assoc RIFF), (get_range_app _ WAVE); [done|..].
  all: rewrite len_app, Hx; done.
Qed.

Lemma probe_flac n rest : 8 <= len rest -> probe_duration_ms n (FLAC ++ rest) = flac_duration_ms (FLAC ++ rest).
Proof.
  intros Hr. unfold probe_duration_ms. rewrite len_app. by rewrite (proj2 (Z.ltb_ge _ _)) by (change (len FLAC) with 4; lia).
Qed.

Lemma starts_other p0 p x b : x <> p0 -> starts (p0 :: p) (x :: b) = false.
Proof. intros Hx. apply bool_decide_eq_false_2. cbn. congruence. Qed.

Lemma probe_mp4 n x rest :
  len x = 4 -> hd_error x = Some 0 -> 4 <= len rest ->
  probe_duration_ms n (x ++ FTYP ++ rest) = mp4_duration_ms n (x ++ FTYP ++ rest).
Proof.
  intros Hx H0 Hr. unfold probe_duration_ms. rewrite (proj2 (Z.ltb_ge _ _)) by (rewrite !len_app, Hx; change (len FTYP) with 4; lia).
  unfold index_range. rewrite (get_range_app x FTYP rest 4 8) by (rewrite Hx; done).
  destruct x as [|x0 x]; [done|]. injection H0 as ->. cbn [app]. unfold RIFF, OGGS, FLAC.
  by rewrite !starts_other by done.
Qed.

(** C38. The duration read from a file is the one its format wrote: the
    length of the samples over the byte rate for a WAV file with any other
    chunks around, the 36-bit number of samples over the 20-bit rate for FLAC,
    and the duration over the timescale of either version of the movie header
    for MP4 with any other boxes before it in the first mebibyte; each rounded
    down to milliseconds. *)
Theorem audio_durations_exact (n : nat) :
  (forall size before head tail rate between samples after,
     let b := wav_file size before head tail rate between samples after in
     Forall other_chunk before -> Forall other_chunk between -> len head = 8 -> len tail <= 100 ->
     0 < rate <= u32_max -> 0 < len samples <= u32_max -> len b <= i64_max ->
     probe_duration_ms n b = positive_u32 (len samples * 1000 / rate)) /\
  (forall head rate channels bits total rest,
     len head = 14 -> 0 < rate < 2 ^ 20 -> 0 <= channels < 2 ^ 3 -> 0 <= bits < 2 ^ 5 -> 0 <= total < 2 ^ 36 ->
     probe_duration_ms n (flac_file head rate channels bits total rest) = positive_u32 (total * 1000 / rate)) /\
  (forall brand before inner rest after mvhd timescale dur,
     let b := mp4_file brand before inner mvhd rest after in
     (exists times tail, mvhd = mvhd_v0 times timescale dur tail /\ len times = 11 /\ dur <= u32_max) \/
     (exists times tail, mvhd = mvhd_v1 times timescale dur tail /\ len times = 19 /\ dur * 1000 <= u64_max) ->
     4 <= len brand -> Forall leaf_box before -> Forall leaf_box inner -> len mvhd <= 200 ->
     8 + len (concat (box <$> inner) ++ box (MVHD, mvhd) ++ rest) <= u32_max ->
     len b <= i64_max -> len (mp4_prefix brand before inner mvhd rest) + 8 <= 2 ^ 20 ->
     0 < timescale <= u32_max -> 0 <= dur ->
     probe_duration_ms (S (S n)) b = positive_u32 (dur * 1000 / timescale)).
Proof.
  split_and!.
  - intros size before head tail rate between samples after b H1 H2 H3 H4 H5 H6 H7.
    unfold b, wav_file. rewrite probe_wav by done. unfold wav_duration_ms. fold b.
    assert (wav_chunks (S (length b)) b 12 None None = Got (Some rate, Some (len samples))) as E
      by (apply wav_file_chunks; done || lia).
    unfold b, wav_file in E. rewrite E. cbn [pbind]. by rewrite (proj2 (Z.eqb_neq _ _)) by lia.
  - intros head rate channels bits total rest Hh Hr Hc Hb Ht.
    unfold flac_file. rewrite probe_flac; [by apply flac_file_duration|].
    rewrite len_app, Hh. pose proof (len_nonneg (flac_info rate channels bits total ++ rest)). lia.
  - intros brand before inner rest after mvhd timescale dur b Hm Hbrand Hbefore Hinner Hlen Hmoov Hb Hpos Hts Hd.
    assert (probe_duration_ms (S (S n)) b = mp4_duration_ms (S (S n)) b) as ->.
    { unfold b, mp4_file, box at 1 4. rewrite <- !app_assoc. apply probe_mp4; [done| |].
      - cbn [hd_error be4 le4 rev app]. f_equal. assert (8 + len brand <= 2 ^ 20) as Hsmall.
        { unfold mp4_prefix in Hpos. rewrite len_app, box_length in Hpos by done. cbn [snd] in Hpos.
          match type of Hpos with context [_ + len ?x] => pose proof (len_nonneg x) end. lia. }
        rewrite Z.div_small by lia. done.
      - rewrite len_app. match goal with |- context [_ + len ?x] => pose proof (len_nonneg x) end. lia. }
    destruct (mp4_prefix_found n brand before inner mvhd rest after) as [Hf Hl]; [done..|].
    destruct Hm as [(times & tail & -> & Ht & Hu)|(times & tail & -> & Ht & Hu)];
      [eapply mp4_header_v0|eapply mp4_header_v1]; try done; apply len_nonneg.
Qed.

Lemma audio_durations_exact_witness :
  probe_duration_ms 0 (wav_file 0 [([76; 73; 83; 84], [1; 2; 3])] [1; 0; 1; 0; 64; 31; 0; 0] [] 8000 [] [1; 2; 3; 4; 5; 6; 7; 8] []) = Got 1
  /\ probe_duration_ms 0 (flac_file (repeat 0 14) 44100 1 15 441000 []) = Got 10000
  /\ probe_duration_ms 2 (mp4_file [105; 115; 111; 109] [([102; 114; 101; 101], [])] [] (mvhd_v0 (repeat 0 11) 600 1200 []) [] []) = Got 2000.
Proof.
  destruct (audio_durations_exact 0) as (Hwav & Hflac & Hmp4). split_and!.
  - rewrite Hwav; try done. repeat constructor; done.
  - rewrite Hflac; done.
  - rewrite (Hmp4 _ _ _ _ _ _ 600 1200); try done; [|repeat constructor; [set_solver|done]].
    left. exists (repeat 0 11), []. done.
Defined.

(** ** How deep the search goes *)

(** [n] movie boxes nested in each other. *)
Fixpoint nested_boxes (n : nat) : list Z :=
  match n with O => [] | S n' => box (MOOV, nested_boxes n') end.

Lemma len_nested_boxes n : len (nested_boxes n) = 8 * Z.of_nat n.
Proof. induction n as [|n IH]; [done|]. cbn [nested_boxes]. rewrite box_length by done. cbn [snd]. lia. Qed.

Lemma nested_boxes_need n b pre post off end_ :
  b = pre ++ nested_boxes n ++ post -> off = len pre -> end_ = len pre + 8 * Z.of_nat n ->
  8 * Z.of_nat n <= u32_max -> len b <= i64_max ->
  find_box n b MVHD off end_ = Crash.
Proof.
  revert pre off end_. induction n as [|n IH]; intros pre off end_ -> -> -> Hn Hb; [done|].
  pose proof (box_length (MOOV, nested_boxes n) eq_refl) as Hbox. cbn [snd] in Hbox. rewrite len_nested_boxes in Hbox.
  cbn [find_box nested_boxes] in *.
  rewrite scan_box_step; [|done|rewrite len_nested_boxes; lia|done|lia].
  rewrite bool_decide_eq_false_2, bool_decide_eq_true_2 by done. cbn [orb].
  rewrite len_app, Hbox. rewrite (IH (pre ++ be4 (8 + len (nested_boxes n)) ++ MOOV)); [done|..].
  - unfold box. by rewrite <- !app_assoc.
  - by rewrite !len_app.
  - rewrite !len_app, len_be4. change (len MOOV) with 4. lia.
  - lia.
  - done.
Qed.

(** A file of a mebibyte drives the search 131000 levels deep: with a stack of
    [n] frames, [n] nested boxes exhaust it. *)
Lemma deep_nesting_exhausts_the_stack n :
  8 * Z.of_nat n <= 2 ^ 20 - 16 ->
  probe_duration_ms n (box (FTYP, [105; 115; 111; 109; 0; 0; 0; 0]) ++ nested_boxes n) = Crash.
Proof.
  intros Hn. set (ftyp := (FTYP, [105; 115; 111; 109; 0; 0; 0; 0])). set (b := box ftyp ++ nested_boxes n).
  pose proof (len_nested_boxes n) as Hnest.
  assert (len b = 16 + 8 * Z.of_nat n) as Hlen by (unfold b; rewrite len_app, Hnest; done).
  assert (probe_duration_ms n b = mp4_duration_ms n b) as ->.
  { apply (probe_mp4 n [0; 0; 0; 16] ([105; 115; 111; 109; 0; 0; 0; 0] ++ nested_boxes n)); [done|done|].
    rewrite len_app, Hnest. change (len [_; _; _; _; _; _; _; _]) with 8. lia. }
  unfold mp4_duration_ms. rewrite Z.min_l by (change (Z.shiftl 1 20) with (2 ^ 20); lia).
  enough (find_box n b MVHD 0 (len b) = Crash) as -> by done.
  destruct n as [|n]; [done|]. assert (length b = S (length b - 1)) as Hf by (unfold len in Hlen; lia).
  cbn [find_box]. rewrite Hf at 1. generalize (length b - 1)%nat. intros fuel.
  etransitivity; [apply (scan_box_step (find_box n b MVHD) (S fuel) [] FTYP _ (nested_boxes (S n)));
    [done|done|change (len b <= i64_max); rewrite Hlen; unfold i64_max; lia|rewrite Hlen; change (len []) with 0; lia]|].
  rewrite !bool_decide_eq_false_2 by done. cbn [orb]. cbn zeta.
  assert (b = box ftyp ++ box (MOOV, nested_boxes n) ++ []) as E by (unfold b; by rewrite app_nil_r).
  etransitivity; [change ([] ++ box (FTYP, ?x) ++ nested_boxes (S n)) with b; rewrite E at 2;
    apply (scan_box_step (find_box n b MVHD) fuel (box ftyp))|].
  1-4: rewrite <- ?E, ?Hlen, ?len_nested_boxes; unfold i64_max, u32_max; change (len (box ftyp)) with 16; done || lia.
  rewrite bool_decide_eq_false_2, bool_decide_eq_true_2 by done. cbn [orb].
  pose proof (box_length (MOOV, nested_boxes n) eq_refl) as Hbox. cbn [snd] in Hbox. rewrite len_nested_boxes in Hbox.
  rewrite (nested_boxes_need n b (box ftyp ++ be4 (8 + len (nested_boxes n)) ++ MOOV) []); [done|..].
  - rewrite app_nil_r. unfold b. cbn [nested_boxes]. unfold box at 2. by rewrite <- !app_assoc.
  - done.
  - rewrite len_app, Hbox, !len_app, len_be4, Hlen. change (len (box ftyp)) with 16. change (len MOOV) with 4. lia.
  - unfold u32_max. lia.
  - rewrite Hlen. unfold i64_max. lia.
Qed.

Lemma be4_bytes n : Forall (fun x => 0 <= x < 256) (be4 n).
Proof. unfold be4, le4. cbn. repeat constructor; apply Z.mod_pos_bound; lia. Qed.

Lemma nested_boxes_bytes n : Forall (fun x => 0 <= x < 256) (nested_boxes n).
Proof.
  induction n as [|n IH]; [constructor|]. cbn [nested_boxes]. unfold box. apply Forall_app. split; [apply be4_bytes|].
  apply Forall_app. split; [|done]. unfold MOOV. by repeat constructor.
Qed.

(** C37. The only file that can crash the probe is one of the MP4 family whose
    boxes nest too deep for the stack.  Whatever the bytes of the file, no index
    is out of bounds and every loop over the chunks, pages, boxes and frames
    stops; outside the MP4 family no stack is needed, and there one frame for
    every eight bytes of the first mebibyte is enough: what the probe gives is
    nothing or a positive number of milliseconds.  That bound is nearly
    sharp: a stack is exhausted by some file of sixteen bytes and eight more for
    each of its frames, so that a file of a mebibyte may need 131070 frames. *)
Theorem audio_probe_crashes_only_on_nesting (stack : nat) :
  (forall b, buffer b -> (get_range b 4 8 = Got FTYP -> Z.min (len b) (2 ^ 20) < 8 * Z.of_nat stack) ->
    probe_duration_ms stack b = Nothing \/
    exists ms, probe_duration_ms stack b = Got ms /\ 0 < ms <= u32_max) /\
  (8 * Z.of_nat stack <= 2 ^ 20 - 16 ->
    exists b, buffer b /\ len b = 16 + 8 * Z.of_nat stack /\ probe_duration_ms stack b = Crash).
Proof.
  split.
  - intros b Hb Hst. pose proof (probe_safe_with_stack stack b Hb Hst) as Hs. pose proof (probe_fits_u32 stack b) as Hr.
    destruct (probe_duration_ms stack b) as [ms| |]; [|by left|done]. right. exists ms. auto.
  - intros Hn. exists (box (FTYP, [105; 115; 111; 109; 0; 0; 0; 0]) ++ nested_boxes stack).
    assert (len (box (FTYP, [105; 115; 111; 109; 0; 0; 0; 0]) ++ nested_boxes stack) = 16 + 8 * Z.of_nat stack) as Hl
      by (rewrite len_app, len_nested_boxes; done).
    split; [|split; [done|by apply deep_nesting_exhausts_the_stack]]. split; [|rewrite Hl; unfold i64_max; lia].
    apply Forall_app. split; [cbn; repeat constructor; done|apply nested_boxes_bytes].
Qed.

Lemma audio_probe_crashes_only_on_nesting_witness :
  (exists ms, probe_duration_ms 3 (wav_file 0 [] [1; 0; 1; 0; 64; 31; 0; 0] [] 8000 [] [1; 2; 3; 4; 5; 6; 7; 8] []) = Got ms /\ 0 < ms <= u32_max) /\
  exists b, buffer b /\ len b = 40 /\ probe_duration_ms 3 b = Crash.
Proof.
  destruct (audio_probe_crashes_only_on_nesting 3) as [Hok Hcrash]. split; [|by apply Hcrash].
  destruct (Hok (wav_file 0 [] [1; 0; 1; 0; 64; 31; 0; 0] [] 8000 [] [1; 2; 3; 4; 5; 6; 7; 8] [])) as [H|H]; [..|exact H].
  - split; [repeat constructor; done|done].
  - vm_compute. discriminate.
  - exfalso. vm_compute in H. discriminate H.
Defined.

(** ** Frame counts *)

(** A first frame of [side] bytes of side information, then a frame count. *)
Definition xing_frame (mode : Z) (side : nat) (frames : Z) : list Z :=
  [255; 251; 144; mode] ++ repeat 0 side ++ XING ++ be4 1 ++ be4 frames ++ repeat 0 100.

(** The frame count is read from a mono file; the one of a stereo file, whose
    side information is 32 bytes long, is missed, and the length of the file
    stands for its duration. *)
Lemma stereo_frame_count_missed :
  probe_duration_ms 1 (xing_frame 192 17 1000) = Got 26122 /\
  probe_duration_ms 1 (xing_frame 0 32 1000) = Got 9.
Proof. vm_compute. done. Qed.
