(* ===== verification/Amounts.v ===== *)
(** * Amounts in floating point

    Costs are [f64] computed from prices and counts.  This file shows that
    the operations used for them keep to the nonnegative numbers: an amount is
    a float that is neither negative nor NaN, and a rate one that is finite as
    well.  Products, sums and quotients of rates are amounts, integers of up to
    2^53 and halves of rates are rates, and adding nothing changes nothing. *)

From S2P Require Import Prelude Types.

Definition amount (x : f64) : Prop :=
  match x with S754_zero s | S754_infinity s | S754_finite s _ _ => s = false | S754_nan => False end.

Definition amountb (x : f64) : bool :=
  match x with S754_zero s | S754_infinity s | S754_finite s _ _ => negb s | S754_nan => false end.

(** A finite amount in the range of binary64. *)
Definition rate (x : f64) : Prop :=
  match x with
  | S754_zero s => s = false
  | S754_finite s m e => s = false /\ Zdigits2 (Zpos m) <= f64_prec /\ e <= f64_emax - f64_prec
  | _ => False
  end.

Lemma amountb_spec x : amountb x = true <-> amount x.
Proof. destruct x as [[]|[]| |[] m e]; cbn; intuition done. Qed.

Lemma rate_amount x : rate x -> amount x.
Proof. destruct x; cbn; intuition. Qed.

(** ** Digits and shifts *)

Lemma digits_spec p : 2 ^ (Zpos (digits2_pos p) - 1) <= Zpos p < 2 ^ Zpos (digits2_pos p).
Proof.
  induction p as [p IH|p IH|]; cbn [digits2_pos]; [| |cbn; lia].
  all: rewrite Pos2Z.inj_succ; replace (Z.succ (Zpos (digits2_pos p)) - 1) with (Z.succ (Zpos (digits2_pos p) - 1)) by lia.
  all: rewrite !Z.pow_succ_r by lia; lia.
Qed.

Lemma Zdigits2_le m k : 0 <= m -> 0 <= k -> m < 2 ^ k -> Zdigits2 m <= k.
Proof.
  intros Hm Hk Hlt. destruct m as [|p|p]; cbn [Zdigits2]; [lia| |lia].
  pose proof (digits_spec p) as [Hlo _]. assert (2 ^ (Zpos (digits2_pos p) - 1) < 2 ^ k) as H by lia.
  apply Z.pow_lt_mono_r_iff in H; lia.
Qed.

Lemma Zdigits2_lt m : 0 <= m -> m < 2 ^ Zdigits2 m.
Proof. destruct m as [|p|p]; cbn [Zdigits2]; [done|intros _; apply digits_spec|lia]. Qed.

Lemma Zdigits2_nonneg m : 0 <= Zdigits2 m.
Proof. by destruct m. Qed.

Lemma shr_1_m r : 0 <= shr_m r -> shr_m (shr_1 r) = shr_m r / 2.
Proof.
  destruct r as [m b s]; cbn [shr_m]. intros Hm. destruct m as [|[p|p|]|p]; cbn; try done.
  - rewrite Pos2Z.inj_xI. rewrite Z.mul_comm, Z.div_add_l by lia. change (1 / 2) with 0. lia.
  - rewrite Pos2Z.inj_xO. rewrite Z.mul_comm, Z.div_mul by lia. done.
Qed.

Lemma iter_shr_1 p r : 0 <= shr_m r -> shr_m (iter_pos shr_1 p r) = shr_m r / 2 ^ Zpos p.
Proof.
  revert r. induction p as [p IH|p IH|]; intros r Hr; cbn [iter_pos].
  - assert (0 <= shr_m (shr_1 r)) as H1 by (rewrite shr_1_m by done; apply Z.div_pos; lia).
    assert (0 <= shr_m (iter_pos shr_1 p (shr_1 r))) as H2 by (rewrite IH by done; apply Z.div_pos; lia).
    rewrite IH, IH, shr_1_m by done. rewrite !Z.div_div by lia. f_equal.
    change 2 with (2 ^ 1) at 1. rewrite <- !Z.pow_add_r by lia. f_equal. lia.
  - assert (0 <= shr_m (iter_pos shr_1 p r)) as H2 by (rewrite IH by done; apply Z.div_pos; lia).
    rewrite IH, IH by done. rewrite Z.div_div by lia. f_equal.
    rewrite <- Z.pow_add_r by lia. f_equal. lia.
  - by rewrite shr_1_m.
Qed.

Lemma shr_record_m m l : shr_m (shr_record_of_loc m l) = m.
Proof. by destruct l as [|[]]. Qed.

(** Aligning to the exponent of the format. *)
Lemma shr_fexp_spec m e l r e' :
  0 <= m -> shr_fexp f64_prec f64_emax m e l = (r, e') ->
  e' = Z.max e (fexp f64_prec f64_emax (Zdigits2 m + e)) /\ shr_m r = m / 2 ^ (e' - e).
Proof.
  intros Hm. unfold shr_fexp, shr. set (F := fexp _ _ _). destruct (F - e) as [|p|p] eqn:E; intros [= <- <-].
  - rewrite shr_record_m. split; [lia|]. by rewrite Z.sub_diag, Z.div_1_r.
  - rewrite iter_shr_1, shr_record_m by (by rewrite shr_record_m). split; [lia|]. do 2 f_equal. lia.
  - rewrite shr_record_m. split; [lia|]. by rewrite Z.sub_diag, Z.div_1_r.
Qed.

Lemma round_nearest_even_bound m l : m <= round_nearest_even m l <= m + 1.
Proof. destruct l as [|[]]; cbn; try lia. destruct (Z.even m); lia. Qed.

Lemma div_pow_lt m k n : 0 <= m -> m < 2 ^ k -> 0 <= k -> 0 <= n -> m / 2 ^ n < 2 ^ Z.max 0 (k - n).
Proof.
  intros Hm Hk H0 Hn. apply Z.div_lt_upper_bound; [lia|].
  rewrite <- Z.pow_add_r by lia. eapply Z.lt_le_trans; [exact Hk|]. apply Z.pow_le_mono_r; lia.
Qed.

(** ** Rounding *)

(** The mantissa and exponent that rounding ends with. *)
Lemma round_steps mx ex lx r' e' r'' e'' :
  0 <= mx ->
  shr_fexp f64_prec f64_emax mx ex lx = (r', e') ->
  shr_fexp f64_prec f64_emax (round_nearest_even (shr_m r') (loc_of_shr_record r')) e' loc_Exact = (r'', e'') ->
  0 <= shr_m r'' /\ Zdigits2 (shr_m r'') <= f64_prec /\
  e'' <= Z.max (Z.max ex (-1074)) (Zdigits2 mx + ex - 52).
Proof.
  intros Hm H1 H2. apply shr_fexp_spec in H1 as [He' Hm']; [|done].
  set (q := shr_m r') in *. pose proof (round_nearest_even_bound q (loc_of_shr_record r')) as Hr.
  set (x := round_nearest_even q (loc_of_shr_record r')) in *.
  assert (0 <= q) as Hq by (rewrite Hm'; apply Z.div_pos; lia).
  apply shr_fexp_spec in H2 as [He'' Hm'']; [|lia].
  assert (fexp f64_prec f64_emax = fun e => Z.max (e - 53) (-1074)) as Hfexp by done. rewrite Hfexp in *.
  pose proof (Zdigits2_nonneg mx). pose proof (Zdigits2_nonneg x).
  assert (q < 2 ^ Z.max 0 (Zdigits2 mx - (e' - ex))) as Hql
    by (rewrite Hm'; apply div_pow_lt; [done|by apply Zdigits2_lt|done|lia]).
  assert (Zdigits2 x <= Z.max 0 (Zdigits2 mx - (e' - ex)) + 1) as Hxd.
  { apply Zdigits2_le; [lia|lia|]. rewrite Z.pow_add_r by lia. change (2 ^ 1) with 2. lia. }
  split; [rewrite Hm''; apply Z.div_pos; lia|]. split; [|lia].
  assert (shr_m r'' < 2 ^ Z.max 0 (Zdigits2 x - (e'' - e'))) as Hl
    by (rewrite Hm''; apply div_pow_lt; [lia|apply Zdigits2_lt; lia|done|lia]).
  apply Zdigits2_le; [rewrite Hm''; apply Z.div_pos; lia|unfold f64_prec; lia|].
  eapply Z.lt_le_trans; [exact Hl|]. apply Z.pow_le_mono_r; unfold f64_prec; lia.
Qed.

Lemma round_aux_amount mx ex lx : 0 <= mx -> amount (binary_round_aux f64_prec f64_emax false mx ex lx).
Proof.
  intros Hm. unfold binary_round_aux. destruct (shr_fexp _ _ mx ex lx) as [r' e'] eqn:H1.
  destruct (shr_fexp _ _ _ e' loc_Exact) as [r'' e''] eqn:H2.
  destruct (round_steps _ _ _ _ _ _ _ Hm H1 H2) as (Hr & _ & _).
  destruct (shr_m r''); [done|by destruct (_ <=? _)|lia].
Qed.

Lemma round_aux_rate mx ex lx :
  0 <= mx -> ex <= 971 -> Zdigits2 mx + ex <= 1023 -> rate (binary_round_aux f64_prec f64_emax false mx ex lx).
Proof.
  intros Hm He Hd. unfold binary_round_aux. destruct (shr_fexp _ _ mx ex lx) as [r' e'] eqn:H1.
  destruct (shr_fexp _ _ _ e' loc_Exact) as [r'' e''] eqn:H2.
  destruct (round_steps _ _ _ _ _ _ _ Hm H1 H2) as (Hr & Hd' & He'').
  destruct (shr_m r'') as [|m|]; [done| |lia].
  rewrite (proj2 (Z.leb_le _ _)) by (unfold f64_emax, f64_prec; lia). unfold f64_emax, f64_prec in *.
  split; [done|]. split; [exact Hd'|unfold f64_emax, f64_prec; lia].
Qed.

(** ** Operations *)

Lemma mul_amount x y : rate x -> rate y -> amount (f64_mul x y).
Proof.
  destruct x as [s1|s1| |s1 m1 e1], y as [s2|s2| |s2 m2 e2]; cbn [rate]; try done.
  1-3: intuition; subst; done. intros [-> _] [-> _]. by apply round_aux_amount.
Qed.

Lemma mul_zero x : rate x -> f64_mul x (S754_zero false) = S754_zero false.
Proof. destruct x; cbn; intuition; by subst. Qed.

Lemma div_core_nonneg m1 e1 m2 e2 q e l :
  0 <= m1 -> 0 < m2 -> SFdiv_core_binary f64_prec f64_emax m1 e1 m2 e2 = (q, e, l) -> 0 <= q.
Proof.
  intros H1 H2. unfold SFdiv_core_binary.
  match goal with |- context [Z.div_eucl ?x m2] => set (m' := x) end.
  assert (0 <= m') as Hm' by (unfold m'; case_match; [done|by apply Z.shiftl_nonneg|done]).
  pose proof (Z_div_mod m' m2) as Hdm. destruct (Z.div_eucl m' m2) as [q' r].
  intros [= <- _ _]. destruct Hdm as [Hq Hr]; [lia|]. nia.
Qed.

Lemma div_amount x m e : amount x -> amount (f64_div x (S754_finite false m e)).
Proof.
  destruct x as [s|s| |s mx ex]; cbn [amount]; try done; [by intros ->|by intros ->|].
  intros ->. unfold f64_div, SFdiv. destruct (SFdiv_core_binary _ _ _ _ _ _) as [[q e'] l] eqn:E.
  apply div_core_nonneg in E; [|done|done]. by apply round_aux_amount.
Qed.

Lemma add_amount x y : amount x -> amount y -> amount (f64_add x y).
Proof.
  destruct x as [s1|s1| |s1 m1 e1], y as [s2|s2| |s2 m2 e2]; cbn [amount]; try done; intros -> ->; try done.
  unfold f64_add, SFadd, cond_Zopp. rewrite <- Pos2Z.inj_add. generalize (fst (shl_align m1 e1 (Z.min e1 e2)) + fst (shl_align m2 e2 (Z.min e1 e2)))%positive.
  intros p. cbn [binary_normalize]. unfold binary_round. destruct (shl_align _ _ _) as [mz ez]. by apply round_aux_amount.
Qed.

Lemma add_zero_r x : amount x -> f64_add x (S754_zero false) = x.
Proof. destruct x as [s|s| |s m e]; cbn; try done; by intros ->. Qed.

Lemma shl_align_digits m e e' mz ez :
  shl_align m e e' = (mz, ez) -> ez = Z.min e e' /\ Zdigits2 (Zpos mz) + ez = Zdigits2 (Zpos m) + e.
Proof.
  unfold shl_align. destruct (e' - e) as [|d|d] eqn:E; intros [= <- <-]; [lia|lia|]. split; [lia|].
  enough (Zdigits2 (Zpos (Pos.iter xO m d)) = Zdigits2 (Zpos m) + Zpos d) by lia.
  clear. induction d as [|d IH] using Pos.peano_ind; [cbn; lia|].
  rewrite Pos.iter_succ. cbn [Zdigits2 digits2_pos] in *. lia.
Qed.

(** An integer converts to a rate. *)
Lemma of_Z_rate n : 0 <= n < 2 ^ 64 -> rate (f64_of_Z n).
Proof.
  intros Hn. unfold f64_of_Z. destruct n as [|p|p]; [done| |lia]. cbn [binary_normalize]. unfold binary_round.
  destruct (shl_align _ _ _) as [mz ez] eqn:E. apply shl_align_digits in E as [Hez Hd].
  assert (Zdigits2 (Zpos p) <= 64) by (apply Zdigits2_le; lia). apply round_aux_rate; lia.
Qed.

Definition f64_half : f64 := f64_div (f64_of_Z 1) (f64_of_Z 2).

(** Half a rate is a rate. *)
Lemma half_rate x : rate x -> rate (f64_mul x f64_half).
Proof.
  change f64_half with (S754_finite false 4503599627370496 (-53)).
  destruct x as [s|s| |s m e]; cbn [rate]; try done; [by intros ->|]. intros (-> & Hd & He).
  unfold f64_prec, f64_emax in *.
  apply round_aux_rate; [done|lia|].
  assert (Zdigits2 (Zpos (m * 4503599627370496)) <= Zdigits2 (Zpos m) + 52); [|lia].
  pose proof (digits_spec m). apply Zdigits2_le; [done|cbn; lia|].
  rewrite Pos2Z.inj_mul. cbn [Zdigits2]. rewrite Z.pow_add_r by lia. change (2 ^ 52) with 4503599627370496. lia.
Qed.

Lemma div_core_value m1 e1 m2 e2 q e l :
  SFdiv_core_binary f64_prec f64_emax (Zpos m1) e1 (Zpos m2) e2 = (q, e, l) ->
  e = Z.min (Z.max (Zdigits2 (Zpos m1) + e1 - (Zdigits2 (Zpos m2) + e2) - 53) (-1074)) (e1 - e2) /\
  q = (Zpos m1 * 2 ^ (e1 - e2 - e)) / Zpos m2.
Proof.
  unfold SFdiv_core_binary. cbv zeta.
  assert (fexp f64_prec f64_emax = fun x => Z.max (x - 53) (-1074)) as -> by done.
  set (e' := Z.min _ _). assert (0 <= e1 - e2 - e') as Hs by lia.
  assert (match e1 - e2 - e' with Z0 => Zpos m1 | Zpos _ => Z.shiftl (Zpos m1) (e1 - e2 - e') | Zneg _ => 0 end
          = Zpos m1 * 2 ^ (e1 - e2 - e')) as ->.
  { destruct (e1 - e2 - e') as [|s|s]; [lia| |lia]. by rewrite Z.shiftl_mul_pow2. }
  set (m' := Zpos m1 * _). pose proof (Z_div_mod m' (Zpos m2)) as Hdm.
  destruct (Z.div_eucl m' (Zpos m2)) as [q' r] eqn:Eq. intros [= -> <- _]. split; [done|].
  change (q = Z.div m' (Zpos m2)). unfold Z.div. by rewrite Eq.
Qed.

(** A rate over two or more is a rate. *)
Lemma div_rate x m e : 2 <= Zdigits2 (Zpos m) + e -> rate x -> rate (f64_div x (S754_finite false m e)).
Proof.
  intros Hy. destruct x as [s|s| |s m1 e1]; cbn [rate]; try done; [by intros ->|].
  intros (-> & Hd & He). unfold f64_div, SFdiv, f64_prec, f64_emax in *.
  destruct (SFdiv_core_binary _ _ _ _ _ _) as [[q e'] l] eqn:E.
  apply div_core_value in E as [He' Hq]. cbn [xorb].
  assert (0 <= q) as Hq0 by (rewrite Hq; apply Z.div_pos; [|done]; apply Z.mul_nonneg_nonneg; lia).
  pose proof (digits_spec m1) as [_ H1]. pose proof (digits_spec m) as [H2 _].
  pose proof (Zdigits2_nonneg (Zpos m)). cbn [Zdigits2] in *.
  apply round_aux_rate; [done|lia|].
  set (d1 := Zpos (digits2_pos m1)) in *. set (d2 := Zpos (digits2_pos m)) in *. set (s := e1 - e - e') in *.
  assert (q < 2 ^ Z.max 0 (d1 + s - (d2 - 1))) as Hlt.
  { rewrite Hq. apply Z.div_lt_upper_bound; [done|].
    apply Z.lt_le_trans with (2 ^ (d1 + s)); [rewrite Z.pow_add_r by lia; nia|].
    apply Z.le_trans with (2 ^ (d2 - 1) * 2 ^ Z.max 0 (d1 + s - (d2 - 1))); [|nia].
    rewrite <- Z.pow_add_r by lia. apply Z.pow_le_mono_r; lia. }
  assert (Zdigits2 q <= Z.max 0 (d1 + s - (d2 - 1))) by (apply Zdigits2_le; lia). lia.
Qed.

Definition rateb (x : f64) : bool :=
  match x with
  | S754_zero s => negb s
  | S754_finite s m e => negb s && (Zdigits2 (Zpos m) <=? f64_prec) && (e <=? f64_emax - f64_prec)
  | _ => false
  end.

Lemma rateb_spec x : rateb x = true -> rate x.
Proof.
  destruct x as [s|s| |s m e]; cbn [rateb rate]; try done; [by destruct s|].
  intros [[Hs Hd]%andb_true_iff He]%andb_true_iff. split; [by destruct s|]. lia.
Qed.
