(* ===== verification/Pricing.v ===== *)
(** * Prices and costs

    Models openproxy-db/src/pricing.rs: the price of a model, from a catalogue
    of audio rates, from the synchronised table, from a built-in catalogue, in
    that order and under the many names of a model; and the cost of the tokens
    of a request.

    The rates are the binary64 numbers next to the decimal literals of the
    source, as quotients of integers.  The order in which a [HashMap] is visited
    and the row SQLite returns for a query without [ORDER BY] are interfaces
    ([PriceOrder]).  A query that fails counts as one without a row, as in the
    source, and is not modelled apart. *)

From Stdlib Require Import String.
From S2P Require Import Prelude Types Text Bytes ThinkExtractor ModelIds Amounts.

Inductive PriceKind := Chat | Audio | Image | Video | Other.

#[export] Instance PriceKind_eq_dec : EqDecision PriceKind.
Proof. solve_decision. Defined.

Record Price := mkPrice {
  input_per_1m : f64;
  output_per_1m : f64;
  pr_kind : PriceKind;
  audio_per_hour : option f64
}.

(** A decimal literal [n / d]. *)
Definition decimal (n d : Z) : f64 := f64_div (f64_of_Z n) (f64_of_Z d).

(** ** Audio rates *)

(** The suffixes that do not change the model. *)
Definition AUDIO_SUFFIXES : list str :=
  bytes_of <$> [":free"; "-free"; ":beta"; "-beta"; ":latest"; "-latest"; ":online"; "-online"]%string.

Fixpoint strip_audio_suffixes (fuel : nat) (s : str) : str :=
  match fuel with
  | O => s
  | S fuel' =>
      match find_map (fun suffix => strip_suffix suffix s) AUDIO_SUFFIXES with
      | Some (x :: rest) => strip_audio_suffixes fuel' (x :: rest)
      | _ => s
      end
  end.

Definition normalize_audio_model_id (model : str) : str :=
  let s := default model (after_last SLASH model) in
  let s := trim_bytes s in
  lower <$> strip_audio_suffixes (length s) s.

Definition audio_catalog : list (str * f64) :=
  [(bytes_of "whisper-large-v3", decimal 111 1000);
   (bytes_of "whisper-large-v3-turbo", decimal 4 100);
   (bytes_of "whisper-1", decimal 36 100);
   (bytes_of "gpt-4o-transcribe", decimal 36 100);
   (bytes_of "gpt-4o-mini-transcribe", decimal 18 100)].

Definition AUDIO_PRICING_TABLE : list (str * f64) :=
  (fun e => (normalize_audio_model_id e.1, e.2)) <$> audio_catalog.

Definition lookup_audio_price_per_hour (model : str) : option f64 :=
  snd <$> head (filter (fun e => e.1 = normalize_audio_model_id model) AUDIO_PRICING_TABLE).

Definition lookup_audio_price (model : str) : option Price :=
  (fun per_hour => mkPrice per_hour (f64_of_Z 0) Audio (Some per_hour)) <$> lookup_audio_price_per_hour model.

(** ** The built-in catalogue *)

(** A row of [pricing_catalog!]. *)
Definition catalog_row (provider model : string) (inp out : f64) : str * str * Price :=
  (bytes_of provider, bytes_of model, mkPrice inp out Chat None).

Definition PRICING_TABLE : list (str * str * Price) :=
  let c n := decimal n 100 in
  [catalog_row "openrouter" "anthropic/claude-sonnet-4" (c 300) (c 1500);
   catalog_row "openrouter" "anthropic/claude-3-5-sonnet" (c 300) (c 1500);
   catalog_row "openrouter" "anthropic/claude-3-haiku" (c 25) (c 125);
   catalog_row "openrouter" "openai/gpt-4o" (c 250) (c 1000);
   catalog_row "openrouter" "openai/gpt-4o-mini" (c 15) (c 60);
   catalog_row "openrouter" "openai/gpt-4.1" (c 200) (c 800);
   catalog_row "openrouter" "openai/gpt-4.1-mini" (c 40) (c 160);
   catalog_row "openrouter" "google/gemini-2.5-pro" (c 125) (c 1000);
   catalog_row "openrouter" "google/gemini-2.5-flash" (decimal 75 1000) (c 30);
   catalog_row "openrouter" "meta-llama/llama-3.3-70b-instruct" (c 59) (c 79);
   catalog_row "openrouter" "deepseek/deepseek-chat" (c 14) (c 28);
   catalog_row "openrouter" "deepseek/deepseek-r1" (c 55) (c 219);
   catalog_row "openrouter" "qwen/qwen-2.5-72b-instruct" (c 23) (c 40);
   catalog_row "openrouter" "mistralai/mistral-large" (c 200) (c 600);
   catalog_row "openrouter" "x-ai/grok-2" (c 200) (c 1000);
   catalog_row "minimax" "minimax-m2.1" (c 20) (c 20);
   catalog_row "minimax" "MiniMax-M2" (c 20) (c 20);
   catalog_row "minimax" "MiniMax-M3" (c 100) (c 100);
   catalog_row "nvidia-nim" "minimaxai/minimax-m3" (c 100) (c 100);
   catalog_row "tokenrouter" "MiniMax-M3" (c 100) (c 100);
   catalog_row "nvidia-nim" "meta/llama-3.3-70b-instruct" (c 77) (c 77);
   catalog_row "nvidia-nim" "meta/llama-3.1-8b-instruct" (c 18) (c 18);
   catalog_row "nvidia-nim" "nvidia/nemotron-3-ultra-550b-a55b" (c 77) (c 77);
   catalog_row "nvidia-nim" "moonshotai/kimi-k2.6" (c 60) (c 250);
   catalog_row "nvidia-nim" "z-ai/glm-5.1" (c 14) (c 28);
   catalog_row "nvidia-nim" "z-ai/glm-4.6" (c 14) (c 28);
   catalog_row "zenmux" "z-ai/glm-5.2" (c 14) (c 28);
   catalog_row "vercel-gateway" "zai/glm-5.2" (c 0) (c 0);
   catalog_row "vercel-gateway" "zai/glm-5.2-fast" (c 0) (c 0)].

(** ** The synchronised table *)

Record SyncRow := mkSync {
  sy_provider_id : str;
  sy_model_id : str;
  sy_model_id_normalized : option str;
  sy_input : option f64;
  sy_output : option f64
}.

Class PriceOrder := {
  catalog_order : list (str * str * Price) -> list (str * str * Price);
  catalog_order_perm : forall l, catalog_order l ≡ₚ l;
  row_order : list SyncRow -> list SyncRow;
  row_order_perm : forall l, row_order l ≡ₚ l
}.

Definition sync_price (r : SyncRow) : option Price :=
  match sy_input r, sy_output r with
  | Some inp, Some out => Some (mkPrice inp out Chat None)
  | _, _ => None
  end.

Section lookup.
Context `{PriceOrder}.

Definition lookup (provider model : str) : option Price :=
  let found (p : str * str * Price -> bool) (l : list (str * str * Price)) := snd <$> head (filter (fun e => p e = true) l) in
  match found (fun e => bool_decide (e.1 = (provider, model))) PRICING_TABLE with
  | Some price => Some price
  | None =>
      match found (fun e => bool_decide (e.1.2 = model)) (catalog_order PRICING_TABLE) with
      | Some price => Some price
      | None =>
          let normalized := normalize_model_id model in
          found (fun e => bool_decide (normalize_model_id e.1.2 = normalized)) (catalog_order PRICING_TABLE)
      end
  end.

Definition lookup_exact_in_db (db : list SyncRow) (provider model : str) : option Price :=
  find_map (fun r => if bool_decide (sy_provider_id r = provider /\ sy_model_id r = model) then sync_price r else None)
    (row_order db).

Definition lookup_by_normalized (db : list SyncRow) (normalized : str) : option Price :=
  find_map (fun r => if bool_decide (sy_model_id_normalized r = Some normalized) then sync_price r else None)
    (row_order db).

(** [or_else]. *)
Definition or_else {A} (a b : option A) : option A := match a with Some x => Some x | None => b end.

Definition lookup_db_variants (db : list SyncRow) (provider model : str) : option Price :=
  or_else (lookup_exact_in_db db provider model)
    (or_else (find_map (lookup_exact_in_db db provider) (candidate_normalized_forms model))
       (or_else (lookup_exact_in_db db provider (model ++ bytes_of "-free"))
          (lookup_exact_in_db db provider (model ++ bytes_of ":free")))).

Definition lookup_db_normalized_variants (db : list SyncRow) (model : str) : option Price :=
  or_else (lookup_by_normalized db (normalize_model_id model))
    (find_map (fun stripped => lookup_by_normalized db (normalize_model_id stripped)) (candidate_normalized_forms model)).

Definition lookup_static_variants (provider model : str) : option Price :=
  or_else (lookup provider model) (find_map (lookup provider) (candidate_normalized_forms model)).

Definition lookup_with_db (db : list SyncRow) (provider model : str) : option Price :=
  or_else (lookup_audio_price model)
    (or_else (lookup_db_variants db provider model)
       (or_else (lookup_db_normalized_variants db model)
          (lookup_static_variants provider model))).

End lookup.

(** ** The cost of a request *)

Definition MILLION : f64 := f64_of_Z 1000000.
Definition HOUR_MS : f64 := f64_of_Z 3600000.

Definition compute_cost_opt_with_cache (price : option Price) (prompt_tokens completion_tokens : Z)
    (cached_tokens : option Z) : option f64 :=
  match price with
  | None => None
  | Some price =>
      match pr_kind price with
      | Audio =>
          let per_hour := default (input_per_1m price) (audio_per_hour price) in
          let hours := f64_div (f64_of_Z prompt_tokens) HOUR_MS in
          Some (f64_mul per_hour hours)
      | Image => Some (f64_div (f64_mul (input_per_1m price) (f64_of_Z prompt_tokens)) MILLION)
      | _ =>
          let cached := Z.min (default 0 cached_tokens) prompt_tokens in
          let non_cached := sat_sub prompt_tokens cached in
          let cached_price_per_1m := f64_mul (input_per_1m price) f64_half in
          let input_cost := f64_div (f64_add (f64_mul (input_per_1m price) (f64_of_Z non_cached))
                                       (f64_mul cached_price_per_1m (f64_of_Z cached))) MILLION in
          let output_cost := f64_div (f64_mul (output_per_1m price) (f64_of_Z completion_tokens)) MILLION in
          Some (f64_add input_cost output_cost)
      end
  end.

Definition compute_cost_with_cache (price : option Price) (prompt_tokens completion_tokens : Z)
    (cached_tokens : option Z) : f64 :=
  default (f64_of_Z 0) (compute_cost_opt_with_cache price prompt_tokens completion_tokens cached_tokens).

Definition compute_cost_opt (price : option Price) (prompt_tokens completion_tokens : Z) : option f64 :=
  compute_cost_opt_with_cache price prompt_tokens completion_tokens None.

Definition compute_cost (price : option Price) (prompt_tokens completion_tokens : Z) : f64 :=
  default (f64_of_Z 0) (compute_cost_opt price prompt_tokens completion_tokens).

(** ** Rates *)

Definition price_ok (p : Price) : Prop :=
  rate (input_per_1m p) /\ rate (output_per_1m p) /\ rate (default (input_per_1m p) (audio_per_hour p)).

Definition price_okb (p : Price) : bool :=
  rateb (input_per_1m p) && rateb (output_per_1m p) && rateb (default (input_per_1m p) (audio_per_hour p)).

(** The table holds finite prices that are not negative. *)
Definition sync_ok (db : list SyncRow) : Prop :=
  Forall (fun r => forall p, sync_price r = Some p -> price_ok p) db.

Lemma price_okb_spec p : price_okb p = true -> price_ok p.
Proof. intros [[H1 H2]%andb_true_iff H3]%andb_true_iff. by split_and!; apply rateb_spec. Qed.

Lemma catalog_ok : Forall (fun e => price_ok e.2) PRICING_TABLE.
Proof.
  assert (forallb (fun e => price_okb e.2) PRICING_TABLE = true) as H by by vm_compute.
  rewrite forallb_forall in H. apply Forall_forall. intros e He%list_elem_of_In. by apply price_okb_spec, H.
Qed.

Lemma audio_ok model p : lookup_audio_price model = Some p -> price_ok p /\ pr_kind p = Audio.
Proof.
  unfold lookup_audio_price, lookup_audio_price_per_hour. intros (x & (e & He & ->)%fmap_Some & ->)%fmap_Some.
  assert (forallb (fun e => rateb e.2) AUDIO_PRICING_TABLE = true) as Hall by by vm_compute.
  apply head_filter_Some in He as [_ Hin]. rewrite forallb_forall in Hall. apply list_elem_of_In, Hall, rateb_spec in Hin.
  split; [|reflexivity]. split; [exact Hin|]. split; [|exact Hin]. by apply (rateb_spec (S754_zero false)).
Qed.

Section rates.
Context `{PriceOrder}.

Lemma find_map_ok {A} (f : A -> option Price) l p :
  (forall x y, f x = Some y -> price_ok y) -> find_map f l = Some p -> price_ok p.
Proof. intros Hf (x & _ & Hx)%find_map_Some. by eapply Hf. Qed.

Lemma lookup_ok provider model p : lookup provider model = Some p -> price_ok p.
Proof.
  assert (forall (P : str * str * Price -> bool) l, l ≡ₚ PRICING_TABLE ->
            forall x, snd <$> head (filter (fun e => P e = true) l) = Some x -> price_ok x) as Hfound.
  { intros P l Hl x (e & He & ->)%fmap_Some. pose proof catalog_ok as Hall. rewrite <- Hl in Hall.
    rewrite Forall_forall in Hall. apply Hall. by apply head_filter_Some in He as [_ He]. }
  unfold lookup. pose proof (fun P => Hfound P _ (reflexivity PRICING_TABLE)) as H1.
  pose proof (fun P => Hfound P _ (catalog_order_perm PRICING_TABLE)) as H2.
  cbv beta zeta.
  destruct (snd <$> head (filter _ PRICING_TABLE)) as [x|] eqn:E1; [intros [= <-]; exact (H1 _ _ E1)|].
  destruct (snd <$> head (filter _ (catalog_order PRICING_TABLE))) as [x|] eqn:E2; [intros [= <-]; exact (H2 _ _ E2)|].
  apply H2.
Qed.

Lemma sync_found_ok db (c : SyncRow -> bool) p :
  sync_ok db -> find_map (fun r => if c r then sync_price r else None) (row_order db) = Some p -> price_ok p.
Proof.
  intros Hdb (r & Hr & Hp)%find_map_Some. unfold sync_ok in Hdb. rewrite Forall_forall in Hdb.
  rewrite row_order_perm in Hr. apply (Hdb r Hr). by destruct (c r).
Qed.

Lemma or_else_Some {A} (a b : option A) x : or_else a b = Some x -> a = Some x \/ b = Some x.
Proof. destruct a; cbn; auto. Qed.

(** Whatever table a price is found in, it is a finite amount. *)
Lemma lookup_with_db_ok db provider model p :
  sync_ok db -> lookup_with_db db provider model = Some p -> price_ok p.
Proof.
  intros Hdb. assert (forall q m x, lookup_exact_in_db db q m = Some x -> price_ok x) as He
    by (intros q m x; by apply (sync_found_ok db)).
  assert (forall m x, lookup_by_normalized db m = Some x -> price_ok x) as Hn
    by (intros m x; by apply (sync_found_ok db)).
  unfold lookup_with_db, lookup_db_variants, lookup_db_normalized_variants, lookup_static_variants.
  intros [Hp|[[Hp|[Hp|[Hp|Hp]%or_else_Some]%or_else_Some]%or_else_Some
              |[[Hp|Hp]%or_else_Some|[Hp|Hp]%or_else_Some]%or_else_Some]%or_else_Some]%or_else_Some.
  - by apply audio_ok in Hp as [? _].
  - by eapply He.
  - eapply find_map_ok; [|exact Hp]. apply He.
  - by eapply He.
  - by eapply He.
  - by eapply Hn.
  - eapply find_map_ok; [|exact Hp]. intros m x. apply Hn.
  - by eapply lookup_ok.
  - eapply find_map_ok; [|exact Hp]. apply lookup_ok.
Qed.
End rates.

(** ** Costs *)

Definition is_u32 (n : Z) : Prop := 0 <= n <= u32_max.

Lemma u32_rate n : is_u32 n -> rate (f64_of_Z n).
Proof. unfold is_u32, u32_max. intros Hn. apply of_Z_rate. lia. Qed.

Lemma million_amount x : amount x -> amount (f64_div x MILLION).
Proof. apply div_amount. Qed.

(** A cost is never negative and never NaN. *)
Lemma cost_amount p n c k :
  price_ok p -> is_u32 n -> is_u32 c -> (forall x, k = Some x -> is_u32 x) ->
  exists x, compute_cost_opt_with_cache (Some p) n c k = Some x /\ amount x.
Proof.
  intros (Hin & Hout & Hau) Hn Hc Hk. unfold compute_cost_opt_with_cache.
  assert (is_u32 (default 0 k)) as Hd by (destruct k as [x|]; [by apply Hk|unfold is_u32, u32_max; cbn; lia]).
  set (cached := Z.min (default 0 k) n). assert (is_u32 cached) by (unfold is_u32, cached in *; lia).
  assert (is_u32 (sat_sub n cached)) by (unfold is_u32, sat_sub, cached in *; lia).
  assert (forall y z, rate y -> is_u32 z -> amount (f64_mul y (f64_of_Z z))) as Hmul
    by (intros y z Hy Hz; apply mul_amount; [done|by apply u32_rate]).
  pose proof (half_rate _ Hin).
  destruct (pr_kind p); eexists; (split; [reflexivity|]).
  1, 4, 5: apply add_amount; apply million_amount; [apply add_amount|]; by apply Hmul.
  - apply mul_amount; [done|]. apply div_rate; [done|by apply u32_rate].
  - by apply million_amount, Hmul.
Qed.

(** Without cached tokens the cost is that of the prompt and the completion. *)
Lemma cost_uncached p n c :
  rate (input_per_1m p) -> is_u32 n -> pr_kind p <> Audio -> pr_kind p <> Image ->
  compute_cost_opt_with_cache (Some p) n c None =
    Some (f64_add (f64_div (f64_mul (input_per_1m p) (f64_of_Z n)) MILLION)
            (f64_div (f64_mul (output_per_1m p) (f64_of_Z c)) MILLION)).
Proof.
  intros Hin Hn Ha Hi. unfold compute_cost_opt_with_cache, sat_sub. cbn [default].
  replace (Z.min 0 n) with 0 by (unfold is_u32 in Hn; lia). rewrite Z.sub_0_r, Z.max_r by (unfold is_u32 in Hn; lia).
  change (f64_of_Z 0) with (S754_zero false). rewrite mul_zero by by apply half_rate.
  rewrite add_zero_r by (apply mul_amount; [done|by apply u32_rate]). by destruct (pr_kind p).
Qed.

(** ** The order of a hash map *)

Definition in_order : PriceOrder :=
  {| catalog_order := fun l => l; catalog_order_perm := fun _ => reflexivity _;
     row_order := fun l => l; row_order_perm := fun _ => reflexivity _ |}.

Definition in_reverse : PriceOrder :=
  {| catalog_order := reverse; catalog_order_perm := fun l => reverse_Permutation l;
     row_order := fun l => l; row_order_perm := fun _ => reflexivity _ |}.

(** Several rows of the catalogue have the name of a model in their normal
    form: which of their prices another provider's model gets depends on the
    order in which the hash map is visited. *)
Lemma price_depends_on_hash_order :
  @lookup in_order (bytes_of "zai") (bytes_of "glm-5.2") = Some (mkPrice (decimal 14 100) (decimal 28 100) Chat None) /\
  @lookup in_reverse (bytes_of "zai") (bytes_of "glm-5.2") = Some (mkPrice (S754_zero false) (S754_zero false) Chat None).
Proof. vm_compute. done. Qed.

(** The names of one audio model. *)
Lemma audio_names :
  lookup_audio_price_per_hour (bytes_of "@cf/openai/whisper-large-v3-turbo") = Some (decimal 4 100) /\
  lookup_audio_price_per_hour (bytes_of "Whisper-Large-V3:free") = Some (decimal 111 1000) /\
  lookup_audio_price_per_hour (bytes_of "whisper-2") = None.
Proof. vm_compute. done. Qed.
