(* ===== verification/UsageRows.v ===== *)
(** * Usage rows

    Models openproxy-db/src/cost.rs: what a request cost is computed from the
    price of its model and written as a row of the table [usage], published to
    the dashboard, marked when its answer reached the client, and priced later
    if no price was known.

    The tables are lists of rows in the order of their ids.  Parameters: the
    [replace_all] of the regex crate, serde_json's printer for the bodies and
    headers, the two clocks, and the failures of a write ([write_error]).
    Integers of SQLite are [i64], its reals binary64 with NaN stored as NULL;
    the tokio task that publishes a row is not modelled, a published row is a
    result.  The warning about missing prices is logging. *)

From Stdlib Require Import String.
From S2P Require Import Prelude Types Text Bytes Errors ComboTree ThinkExtractor ModelIds Amounts Pricing.

Inductive EndpointKind := EkChat | EkAudio | EkImage | EkEmbedding | EkVideo | EkSystemOne.

#[export] Instance EndpointKind_eq_dec : EqDecision EndpointKind.
Proof. solve_decision. Defined.

Definition EndpointKind_as_str (k : EndpointKind) : str :=
  bytes_of match k with
           | EkChat => "chat" | EkAudio => "audio" | EkImage => "image"
           | EkEmbedding => "embedding" | EkVideo => "video" | EkSystemOne => "systemone"
           end%string.

Definition all_kinds : list EndpointKind := [EkChat; EkAudio; EkImage; EkEmbedding; EkVideo; EkSystemOne].

Definition EndpointKind_parse (s : str) : option EndpointKind :=
  find_map (fun k => if bool_decide (EndpointKind_as_str k = s) then Some k else None) all_kinds.

(** ** Flags *)

Definition USAGE_FLAG_RACE_LOST : Z := 1.
Definition USAGE_FLAG_IS_STREAMING : Z := 2.
Definition USAGE_FLAG_STREAM_COMPLETE : Z := 4.
Definition USAGE_FLAG_CLIENT_RESPONSE : Z := 8.
Definition USAGE_FLAG_PROMPT_ESTIMATED : Z := 16.
Definition USAGE_FLAG_COMPLETION_ESTIMATED : Z := 32.
Definition USAGE_FLAG_PROXY_ROTATED : Z := 64.

Definition has_flag (flags flag : Z) : bool := negb (Z.land flags flag =? 0).

(** ** Data *)

Definition HeaderMap : Type := list (str * str).

Record UsageInput := mkUsageInput {
  request_id : str;
  trace_id : str;
  attempt : Z;
  provider_id : str;
  account_id : option Z;
  combo_id : option Z;
  combo_target_id : option Z;
  model_row_id : option Z;
  upstream_model_id : str;
  prompt_tokens : option Z;
  completion_tokens : option Z;
  cached_tokens : option Z;
  connect_ms : option Z;
  ttft_ms : option Z;
  total_ms : Z;
  status_code : Z;
  error_msg : option str;
  race_total : Z;
  api_key_id : option Z;
  request_body_json : option str;
  response_body_json : option Json;
  request_headers : option HeaderMap;
  response_headers : option HeaderMap;
  error_message : option str;
  race_attempts : Z;
  stop_reason : option str;
  compression_savings_pct : option f64;
  compression_techniques : option str;
  pii_redacted : option str;
  endpoint_kind : EndpointKind;
  proxy_url : option str;
  proxy_status : option str;
  flags : Z;
  audio_ms : option Z
}.

(** A row of [usage]; [partial] and the columns an insert leaves out have
    their defaults. *)
Record UsageRow := mkUsageRow {
  u_id : Z;
  u_request_id : str;
  u_trace_id : str;
  u_attempt : Z;
  u_provider_id : str;
  u_account_id : option Z;
  u_combo_id : option Z;
  u_model_row_id : option Z;
  u_upstream_model_id : str;
  u_combo_target_id : option Z;
  u_prompt_tokens : option Z;
  u_completion_tokens : option Z;
  u_cost_usd : option f64;
  u_connect_ms : option Z;
  u_ttft_ms : option Z;
  u_total_ms : Z;
  u_tokens_per_sec : option f64;
  u_status_code : Z;
  u_error_msg : option str;
  u_error_msg_redacted : option str;
  u_race_total : Z;
  u_race_attempts : Z;
  u_race_lost : Z;
  u_api_key_id : option Z;
  u_created_at : str;
  u_request_body_json : option str;
  u_response_body_json : option str;
  u_request_headers : option str;
  u_response_headers : option str;
  u_error_message : option str;
  u_is_streaming : Z;
  u_stream_complete : Z;
  u_stop_reason : option str;
  u_compression_savings_pct : option f64;
  u_compression_techniques : option str;
  u_client_response : Z;
  u_prompt_tokens_estimated : Z;
  u_completion_tokens_estimated : Z;
  u_endpoint_kind : str;
  u_proxy_url : option str;
  u_proxy_status : option str;
  u_is_proxy_rotated : Z;
  u_cached_tokens : option Z;
  u_pii_redacted : option str;
  u_was_winner : Z;
  u_audio_ms : option Z
}.

(** The published row; its four bodies are always empty. *)
Record RecentUsageRow := mkRecent {
  rr_id : Z;
  rr_request_id : str;
  rr_trace_id : str;
  rr_provider_id : str;
  rr_upstream_model_id : str;
  rr_status_code : Z;
  rr_total_ms : Z;
  rr_prompt_tokens : option Z;
  rr_completion_tokens : option Z;
  rr_cached_tokens : option Z;
  rr_cost_usd : option f64;
  rr_created_at : str;
  rr_connect_ms : option Z;
  rr_ttft_ms : option Z;
  rr_error_message : option str;
  rr_race_total : option Z;
  rr_race_attempts : option Z;
  rr_stop_reason : option str;
  rr_compression_savings_pct : option f64;
  rr_compression_techniques : option str;
  rr_pii_redacted : option str;
  rr_proxy_url : option str;
  rr_proxy_status : option str;
  rr_flags : Z;
  rr_endpoint_kind : EndpointKind;
  rr_api_key_id : option Z;
  rr_audio_ms : option Z
}.

Record UsageDb := mkUsageDb {
  ud_rows : list UsageRow;
  ud_next_id : Z;
  ud_api_keys : list Z;
  ud_sync : list SyncRow
}.

(** ** Costs *)

(** [f64] bound to or computed by SQLite. *)
Definition sql_real (x : f64) : option f64 := if f64_is_nan x then None else Some x.

Definition compute (price : option Price) (i : UsageInput) : option f64 * option f64 :=
  let cost :=
    if (200 <=? status_code i) && (status_code i <? 400)
    then compute_cost_opt_with_cache price (default 0 (prompt_tokens i)) (default 0 (completion_tokens i))
           (cached_tokens i)
    else Some (f64_of_Z 0) in
  let tps :=
    match completion_tokens i with
    | Some c => if (0 <? c) && (0 <? total_ms i) && (status_code i <? 400)
                then Some (f64_div (f64_mul (f64_of_Z c) (f64_of_Z 1000)) (f64_of_Z (total_ms i))) else None
    | None => None
    end in
  (cost, tps).

(** [UsageInput { prompt_tokens: .., completion_tokens: Some(0), ..input.clone() }]. *)
Definition with_tokens (prompt : Z) (i : UsageInput) : UsageInput :=
  mkUsageInput (request_id i) (trace_id i) (attempt i) (provider_id i) (account_id i) (combo_id i)
    (combo_target_id i) (model_row_id i) (upstream_model_id i) (Some prompt) (Some 0) (cached_tokens i)
    (connect_ms i) (ttft_ms i) (total_ms i) (status_code i) (error_msg i) (race_total i) (api_key_id i)
    (request_body_json i) (response_body_json i) (request_headers i) (response_headers i) (error_message i)
    (race_attempts i) (stop_reason i) (compression_savings_pct i) (compression_techniques i) (pii_redacted i)
    (endpoint_kind i) (proxy_url i) (proxy_status i) (flags i) (audio_ms i).

(** Audio is billed by its duration, in the place of the prompt. *)
Definition billable (price : option Price) (i : UsageInput) : UsageInput :=
  match audio_ms i, pr_kind <$> price with
  | Some ms, Some Audio => with_tokens ms i
  | None, Some Audio => with_tokens 0 i
  | _, _ => i
  end.

(** ** Error messages *)

Definition truncate_sanitized (sanitized : str) (max_len : nat) : str :=
  if (length sanitized <=? max_len)%nat then sanitized
  else take (boundary_below sanitized max_len) sanitized ++ bytes_of "...[truncated]".

(** ** Busy databases *)

Definition BUSY_RETRY_DELAYS : list Z := [50; 100; 250].

(** The operation is tried again after each delay while the database is busy;
    [St] is what an attempt sees of the world, and the delays slept are told. *)
Fixpoint busy_loop {St A} (is_sqlite_busy : CoreError -> bool) (f : St -> Result A * St) (delays : list Z) (s : St)
    : Result A * St * list Z :=
  match f s with
  | (inl v, s') => (inl v, s', [])
  | (inr e, s') =>
      match delays with
      | d :: delays' =>
          if is_sqlite_busy e
          then let '(r, s'', slept) := busy_loop is_sqlite_busy f delays' s' in (r, s'', d :: slept)
          else (inr e, s', [])
      | [] => (inr e, s', [])
      end
  end.

Definition with_busy_retry {St A} (is_sqlite_busy : CoreError -> bool) (f : St -> Result A * St) (s : St)
    : Result A * St * list Z := busy_loop is_sqlite_busy f BUSY_RETRY_DELAYS s.

Section rows.
Context `{PriceOrder}.
Context (replace_all : string -> str -> string -> str) (json_text : Json -> option str) (headers_text : HeaderMap -> option str).
Context (write_error : UsageRow -> option CoreError).
Context (sql_now utc_now : str).

Definition redact_error_msg (raw : str) : str :=
  let s := replace_all "sk-[A-Za-z0-9_\-]{10,}" raw "sk-[REDACTED]" in
  let s := replace_all "(?i)x-api-key:\s*\S+" s "x-api-key: [REDACTED]" in
  let s := replace_all "(?i)Authorization:\s*Bearer\s+\S+" s "Authorization: Bearer [REDACTED]" in
  truncate_sanitized s 2048.

(** ** Writing a row *)

Definition flag_column (i : UsageInput) (flag : Z) : Z := if has_flag (flags i) flag then 1 else 0.

Definition usage_values (i : UsageInput) (cost tps : option f64) (error_msg_for_db : option str) (key : option Z) (id : Z) : UsageRow :=
  mkUsageRow id (request_id i) (trace_id i) (attempt i) (provider_id i) (account_id i) (combo_id i)
    (model_row_id i) (upstream_model_id i) (combo_target_id i) (prompt_tokens i) (completion_tokens i)
    (cost ≫= sql_real) (as_i64 <$> connect_ms i) (as_i64 <$> ttft_ms i) (as_i64 (total_ms i)) (tps ≫= sql_real)
    (status_code i) error_msg_for_db error_msg_for_db (race_total i) (race_attempts i)
    (flag_column i USAGE_FLAG_RACE_LOST) key sql_now
    (request_body_json i ≫= fun b => if utf8_valid b then Some b else None)
    (response_body_json i ≫= json_text) (request_headers i ≫= headers_text) (response_headers i ≫= headers_text)
    (error_message i) (flag_column i USAGE_FLAG_IS_STREAMING) (flag_column i USAGE_FLAG_STREAM_COMPLETE)
    (stop_reason i) (compression_savings_pct i ≫= sql_real) (compression_techniques i)
    (flag_column i USAGE_FLAG_CLIENT_RESPONSE) (flag_column i USAGE_FLAG_PROMPT_ESTIMATED)
    (flag_column i USAGE_FLAG_COMPLETION_ESTIMATED) (EndpointKind_as_str (endpoint_kind i)) (proxy_url i)
    (proxy_status i) (flag_column i USAGE_FLAG_PROXY_ROTATED) (cached_tokens i) (pii_redacted i)
    (flag_column i USAGE_FLAG_CLIENT_RESPONSE) (audio_ms i).

Definition key_exists (db : UsageDb) (id : Z) : bool := existsb (Z.eqb id) (ud_api_keys db).

(** [INSERT], with the foreign key of the API key. *)
Definition execute_insert (row : UsageRow) (db : UsageDb) : Result (Z * UsageDb) :=
  if match u_api_key_id row with Some k => key_exists db k | None => true end
  then match write_error row with
       | Some e => inr e
       | None => inl (ud_next_id db, mkUsageDb (ud_rows db ++ [row]) (ud_next_id db + 1) (ud_api_keys db) (ud_sync db))
       end
  else inr (Database "FOREIGN KEY constraint failed").

Definition insert_usage_record (i : UsageInput) (cost tps : option f64) (error_msg_for_db : option str) (db : UsageDb)
    : Result (Z * UsageDb) :=
  let key := match api_key_id i with Some k => if key_exists db k then Some k else None | None => None end in
  let row k := usage_values i cost tps error_msg_for_db k (ud_next_id db) in
  match execute_insert (row key) db with
  | inl r => inl r
  | inr e => match key with Some _ => execute_insert (row None) db | None => inr e end
  end.

Definition recent_of_input (i : UsageInput) (id : Z) (cost : option f64) (error_msg_for_db : option str) : RecentUsageRow :=
  mkRecent id (request_id i) (trace_id i) (provider_id i) (upstream_model_id i) (status_code i) (total_ms i)
    (prompt_tokens i) (completion_tokens i) (cached_tokens i) cost utc_now (connect_ms i) (ttft_ms i)
    error_msg_for_db (Some (race_total i)) (Some (race_attempts i)) (stop_reason i) (compression_savings_pct i)
    (compression_techniques i) (pii_redacted i) (proxy_url i) (proxy_status i) (flags i) (endpoint_kind i)
    (api_key_id i) (audio_ms i).

Definition record_row (i : UsageInput) (db : UsageDb) : Result (Z * RecentUsageRow * UsageDb) :=
  let price := lookup_with_db (ud_sync db) (provider_id i) (upstream_model_id i) in
  let '(cost, tps) := compute price (billable price i) in
  let error_msg_for_db := redact_error_msg <$> error_msg i in
  match insert_usage_record i cost tps error_msg_for_db db with
  | inl (rowid, db') => inl (rowid, recent_of_input i rowid cost error_msg_for_db, db')
  | inr e => inr e
  end.

(** [record]: the row is published as well. *)
Definition record (i : UsageInput) (db : UsageDb) : Result (Z * list RecentUsageRow * UsageDb) :=
  match record_row i db with inl (id, row, db') => inl (id, [row], db') | inr e => inr e end.

(** The row of a request no target could serve. *)
Definition record_no_healthy_targets_row (request trace : str) (combo elapsed : Z) (created_str error : str)
    (db : UsageDb) : Result UsageDb :=
  let row :=
    mkUsageRow (ud_next_id db) request trace 1 (bytes_of "virtual") None (Some combo) None (bytes_of "none") None
      (Some 0) (Some 0) None None None (as_i64 elapsed) None 502 (Some error) None 1 1 0 None created_str None None None
      None (Some error) 0 0 None None None 0 0 0 (bytes_of "chat") None None 0 None None 1 None in
  match execute_insert row db with inl (_, db') => inl db' | inr e => inr e end.

Definition record_with_retry (is_sqlite_busy : CoreError -> bool) (i : UsageInput) (db : UsageDb)
    : Result (Z * list RecentUsageRow) * UsageDb * list Z :=
  with_busy_retry is_sqlite_busy
    (fun db => match record i db with inl (id, rows, db') => (inl (id, rows), db') | inr e => (inr e, db) end) db.

(** ** Reading a row *)

Definition get_int (max x : Z) : option Z := if (0 <=? x) && (x <=? max) then Some x else None.

Definition get_int_opt (max : Z) (x : option Z) : option (option Z) :=
  match x with Some x => Some <$> get_int max x | None => Some None end.

Definition flag_of (column flag : Z) : Z := if column =? 0 then 0 else flag.

Definition flags_of_row (r : UsageRow) : Z :=
  Z.lor (Z.lor (Z.lor (Z.lor (Z.lor (Z.lor (flag_of (u_race_lost r) USAGE_FLAG_RACE_LOST)
    (flag_of (u_is_streaming r) USAGE_FLAG_IS_STREAMING)) (flag_of (u_stream_complete r) USAGE_FLAG_STREAM_COMPLETE))
    (flag_of (u_client_response r) USAGE_FLAG_CLIENT_RESPONSE))
    (flag_of (u_prompt_tokens_estimated r) USAGE_FLAG_PROMPT_ESTIMATED))
    (flag_of (u_completion_tokens_estimated r) USAGE_FLAG_COMPLETION_ESTIMATED))
    (flag_of (u_is_proxy_rotated r) USAGE_FLAG_PROXY_ROTATED).

Definition map_recent_usage_from_row (r : UsageRow) : option RecentUsageRow :=
  status ← get_int u16_max (u_status_code r);
  prompt ← get_int_opt u32_max (u_prompt_tokens r);
  completion ← get_int_opt u32_max (u_completion_tokens r);
  race_total ← get_int u8_max (u_race_total r);
  race_attempts ← get_int u8_max (u_race_attempts r);
  cached ← get_int_opt u32_max (u_cached_tokens r);
  audio ← get_int_opt u32_max (u_audio_ms r);
  Some (mkRecent (u_id r) (u_request_id r) (u_trace_id r) (u_provider_id r) (u_upstream_model_id r) status
          (Z.max (u_total_ms r) 0) prompt completion cached (u_cost_usd r) (u_created_at r)
          (Z.max 0 <$> u_connect_ms r) (Z.max 0 <$> u_ttft_ms r) (u_error_msg r) (Some race_total)
          (Some race_attempts) (u_stop_reason r) (u_compression_savings_pct r) (u_compression_techniques r)
          (u_pii_redacted r) (u_proxy_url r) (u_proxy_status r) (flags_of_row r)
          (default EkChat (EndpointKind_parse (u_endpoint_kind r))) (u_api_key_id r) audio).

(** ** Marking the answer *)

Definition set_winner_columns (r : UsageRow) : UsageRow :=
  mkUsageRow (u_id r) (u_request_id r) (u_trace_id r) (u_attempt r) (u_provider_id r) (u_account_id r) (u_combo_id r)
    (u_model_row_id r) (u_upstream_model_id r) (u_combo_target_id r) (u_prompt_tokens r) (u_completion_tokens r)
    (u_cost_usd r) (u_connect_ms r) (u_ttft_ms r) (u_total_ms r) (u_tokens_per_sec r) (u_status_code r)
    (u_error_msg r) (u_error_msg_redacted r) (u_race_total r) (u_race_attempts r) (u_race_lost r) (u_api_key_id r)
    (u_created_at r) (u_request_body_json r) (u_response_body_json r) (u_request_headers r) (u_response_headers r)
    (u_error_message r) (u_is_streaming r) (u_stream_complete r) (u_stop_reason r) (u_compression_savings_pct r)
    (u_compression_techniques r) 1 (u_prompt_tokens_estimated r) (u_completion_tokens_estimated r)
    (u_endpoint_kind r) (u_proxy_url r) (u_proxy_status r) (u_is_proxy_rotated r) (u_cached_tokens r)
    (u_pii_redacted r) 1 (u_audio_ms r).

Definition set_rows (rows : list UsageRow) (db : UsageDb) : UsageDb :=
  mkUsageDb rows (ud_next_id db) (ud_api_keys db) (ud_sync db).

(** The rows marked, and the one published: the last of them. *)
Definition mark (p : UsageRow -> bool) (db : UsageDb) : list RecentUsageRow * UsageDb :=
  let rows := (fun r => if p r then set_winner_columns r else r) <$> ud_rows db in
  (match last (filter (fun r => p r = true) rows) with
   | Some r => match map_recent_usage_from_row r with Some row => [row] | None => [] end
   | None => []
   end, set_rows rows db).

Definition mark_client_response_row (id : Z) (db : UsageDb) : list RecentUsageRow * UsageDb :=
  mark (fun r => u_id r =? id) db.

Definition mark_winner_usage_row (request : str) (att target : Z) (db : UsageDb) : list RecentUsageRow * UsageDb :=
  mark (fun r => bool_decide (u_request_id r = request) && (u_attempt r =? att)
                 && bool_decide (u_combo_target_id r = Some target)) db.

(** ** Prices that were not known *)

Definition set_cost (cost : option f64) (r : UsageRow) : UsageRow :=
  mkUsageRow (u_id r) (u_request_id r) (u_trace_id r) (u_attempt r) (u_provider_id r) (u_account_id r) (u_combo_id r)
    (u_model_row_id r) (u_upstream_model_id r) (u_combo_target_id r) (u_prompt_tokens r) (u_completion_tokens r)
    cost (u_connect_ms r) (u_ttft_ms r) (u_total_ms r) (u_tokens_per_sec r) (u_status_code r)
    (u_error_msg r) (u_error_msg_redacted r) (u_race_total r) (u_race_attempts r) (u_race_lost r) (u_api_key_id r)
    (u_created_at r) (u_request_body_json r) (u_response_body_json r) (u_request_headers r) (u_response_headers r)
    (u_error_message r) (u_is_streaming r) (u_stream_complete r) (u_stop_reason r) (u_compression_savings_pct r)
    (u_compression_techniques r) (u_client_response r) (u_prompt_tokens_estimated r) (u_completion_tokens_estimated r)
    (u_endpoint_kind r) (u_proxy_url r) (u_proxy_status r) (u_is_proxy_rotated r) (u_cached_tokens r)
    (u_pii_redacted r) (u_was_winner r) (u_audio_ms r).

Definition is_positive (x : option Z) : bool := match x with Some x => 0 <? x | None => false end.

(** [cost_usd = 0.0] and [cost_usd IS NULL]. *)
Definition zero_cost (r : UsageRow) : bool := match u_cost_usd r with Some c => SFeqb c (f64_of_Z 0) | None => false end.
Definition no_cost (r : UsageRow) : bool := zero_cost r || negb (bool_decide (is_Some (u_cost_usd r))).

Definition backfill_cost (p : Price) (r : UsageRow) : option f64 :=
  match pr_kind p with
  | Audio =>
      let per_hour := default (input_per_1m p) (audio_per_hour p) in
      sql_real (f64_div (f64_mul per_hour (f64_of_Z (default 0 (u_audio_ms r)))) HOUR_MS)
  | _ =>
      let inp := default (f64_of_Z 0) (sql_real (input_per_1m p)) in
      let out := default (f64_of_Z 0) (sql_real (output_per_1m p)) in
      sql_real (f64_add (f64_div (f64_mul inp (f64_of_Z (default 0 (u_prompt_tokens r)))) MILLION)
                  (f64_div (f64_mul out (f64_of_Z (default 0 (u_completion_tokens r)))) MILLION))
  end.

Definition backfill_row (price : option Price) (r : UsageRow) : UsageRow :=
  match price with
  | Some p =>
      if (if bool_decide (pr_kind p = Audio) then is_positive (u_audio_ms r) else is_positive (u_prompt_tokens r)) && no_cost r
      then set_cost (backfill_cost p r) r else r
  | None => if is_positive (u_prompt_tokens r) && zero_cost r then set_cost None r else r
  end.

Definition update_backfill_price (provider model : str) (price : option Price) (rows : list UsageRow) : list UsageRow :=
  (fun r => if bool_decide (u_provider_id r = provider) && bool_decide (u_upstream_model_id r = model)
            then backfill_row price r else r) <$> rows.

Definition unpriced (r : UsageRow) : bool := (is_positive (u_prompt_tokens r) || is_positive (u_audio_ms r)) && no_cost r.

(** The models of the rows without a cost, each once; and their update one
    after the other.  The number of rows updated is not kept. *)
Definition backfill_usage_pricing (db : UsageDb) : UsageDb :=
  let pairs := remove_dups ((fun r => (u_provider_id r, u_upstream_model_id r)) <$> filter (fun r => unpriced r = true) (ud_rows db)) in
  set_rows (foldl (fun rows pm => update_backfill_price pm.1 pm.2 (lookup_with_db (ud_sync db) pm.1 pm.2) rows) (ud_rows db) pairs) db.

(** ** What a row says *)

(** The widths of the fields of a [UsageInput]; the durations fit the column. *)
Definition opt_le (max : Z) (x : option Z) : Prop := match x with Some x => 0 <= x <= max | None => True end.

Definition input_ok (i : UsageInput) : Prop :=
  0 <= status_code i <= u16_max /\ 0 <= race_total i <= u8_max /\ 0 <= race_attempts i <= u8_max /\
  opt_le u32_max (prompt_tokens i) /\ opt_le u32_max (completion_tokens i) /\ opt_le u32_max (cached_tokens i) /\
  opt_le u32_max (audio_ms i) /\ 0 <= total_ms i <= i64_max /\ opt_le i64_max (connect_ms i) /\
  opt_le i64_max (ttft_ms i) /\ 0 <= flags i < 128 /\
  match compression_savings_pct i with Some x => f64_is_nan x = false | None => True end.

(** The published row as it reads from the table. *)
Definition stored_as (k : option Z) (r : RecentUsageRow) : RecentUsageRow :=
  mkRecent (rr_id r) (rr_request_id r) (rr_trace_id r) (rr_provider_id r) (rr_upstream_model_id r) (rr_status_code r)
    (rr_total_ms r) (rr_prompt_tokens r) (rr_completion_tokens r) (rr_cached_tokens r) (rr_cost_usd r) sql_now
    (rr_connect_ms r) (rr_ttft_ms r) (rr_error_message r) (rr_race_total r) (rr_race_attempts r) (rr_stop_reason r)
    (rr_compression_savings_pct r) (rr_compression_techniques r) (rr_pii_redacted r) (rr_proxy_url r)
    (rr_proxy_status r) (rr_flags r) (rr_endpoint_kind r) k (rr_audio_ms r).

Lemma kind_round_trip k : EndpointKind_parse (EndpointKind_as_str k) = Some k.
Proof. by destruct k. Qed.

(** The flags taken apart into columns and put together again. *)
Definition repacked (f : Z) : Z :=
  let col flag := flag_of (if has_flag f flag then 1 else 0) flag in
  Z.lor (Z.lor (Z.lor (Z.lor (Z.lor (Z.lor (col USAGE_FLAG_RACE_LOST) (col USAGE_FLAG_IS_STREAMING))
    (col USAGE_FLAG_STREAM_COMPLETE)) (col USAGE_FLAG_CLIENT_RESPONSE)) (col USAGE_FLAG_PROMPT_ESTIMATED))
    (col USAGE_FLAG_COMPLETION_ESTIMATED)) (col USAGE_FLAG_PROXY_ROTATED).

Lemma flags_round_trip f : 0 <= f < 128 -> repacked f = f.
Proof.
  intros Hf. assert (forallb (fun n => repacked (Z.of_nat n) =? Z.of_nat n) (seq 0 128) = true) as Hall by (vm_compute; reflexivity).
  rewrite forallb_forall in Hall. specialize (Hall (Z.to_nat f)). rewrite Z2Nat.id in Hall by lia.
  apply Z.eqb_eq, Hall, in_seq. lia.
Qed.

Lemma get_int_ok max x : 0 <= x <= max -> get_int max x = Some x.
Proof. intros Hx. unfold get_int. by rewrite (proj2 (Z.leb_le _ _)), (proj2 (Z.leb_le _ _)) by lia. Qed.

Lemma get_int_opt_ok max x : opt_le max x -> get_int_opt max x = Some x.
Proof. destruct x as [x|]; [|done]. intros Hx. cbn. by rewrite get_int_ok. Qed.

Lemma as_i64_ok x : 0 <= x <= i64_max -> Z.max (as_i64 x) 0 = x.
Proof. intros Hx. unfold as_i64. rewrite (proj2 (Z.leb_le _ _)) by lia. lia. Qed.

Lemma as_i64_opt_ok x : opt_le i64_max x -> Z.max 0 <$> (as_i64 <$> x) = x.
Proof. destruct x as [x|]; [|done]. intros Hx. cbn. by rewrite Z.max_comm, as_i64_ok. Qed.

Lemma sql_real_ok (x : option f64) : match x with Some x => f64_is_nan x = false | None => True end -> x ≫= sql_real = x.
Proof. destruct x as [x|]; [|done]. cbn. unfold sql_real. by intros ->. Qed.

(** What is written reads as what is published. *)
Lemma values_round_trip i cost tps err k id :
  input_ok i -> match cost with Some x => f64_is_nan x = false | None => True end ->
  map_recent_usage_from_row (usage_values i cost tps err k id) = Some (stored_as k (recent_of_input i id cost err)).
Proof.
  intros (H1 & H2 & H3 & H4 & H5 & H6 & H7 & H8 & H9 & H10 & H11 & H12) Hc.
  unfold map_recent_usage_from_row. cbn [usage_values u_status_code u_prompt_tokens u_completion_tokens u_race_total
    u_race_attempts u_cached_tokens u_audio_ms].
  rewrite (get_int_ok u16_max), !(get_int_ok u8_max), !get_int_opt_ok by done. cbn [mbind option_bind].
  unfold stored_as, recent_of_input, flags_of_row. cbn. rewrite as_i64_ok, !as_i64_opt_ok by done.
  rewrite kind_round_trip, !sql_real_ok by done. do 2 f_equal. by apply flags_round_trip.
Qed.

(** The row is appended under the next id, with the key of the request or none. *)
Definition appended (i : UsageInput) (cost tps : option f64) (err : option str) (db db' : UsageDb) (k : option Z) : Prop :=
  db' = mkUsageDb (ud_rows db ++ [usage_values i cost tps err k (ud_next_id db)]) (ud_next_id db + 1)
          (ud_api_keys db) (ud_sync db).

Lemma execute_insert_spec row db id db' :
  execute_insert row db = inl (id, db') ->
  id = ud_next_id db /\ db' = mkUsageDb (ud_rows db ++ [row]) (ud_next_id db + 1) (ud_api_keys db) (ud_sync db).
Proof. unfold execute_insert. destruct (match _ with Some _ => _ | None => _ end); [|done]. case_match; [done|]. by intros [= <- <-]. Qed.

Lemma insert_spec i cost tps err db id db' :
  insert_usage_record i cost tps err db = inl (id, db') ->
  id = ud_next_id db /\ exists k, appended i cost tps err db db' k /\
    (k = None \/ k = api_key_id i) /\
    ((forall r, write_error r = None) -> forall x, api_key_id i = Some x -> key_exists db x = true -> k = Some x).
Proof.
  unfold insert_usage_record. set (key := match api_key_id i with Some k => _ | None => _ end).
  assert (key = None \/ key = api_key_id i) as Hkey
    by (unfold key; destruct (api_key_id i) as [k|]; [|by left]; destruct (key_exists db k); auto).
  assert (forall x, api_key_id i = Some x -> key_exists db x = true -> key = Some x) as Hex
    by (unfold key; intros x -> ->; done).
  destruct (execute_insert (usage_values i cost tps err key (ud_next_id db)) db) as [[id1 db1]|e] eqn:E1.
  - intros [= <- <-]. apply execute_insert_spec in E1 as [-> ->]. split; [done|]. exists key. split; [done|]. auto.
  - destruct key as [k|] eqn:Ekey; [|done]. intros E2. apply execute_insert_spec in E2 as [-> ->]. split; [done|].
    exists None. split; [done|]. split; [by left|]. intros Hw x Hx Hxk. exfalso.
    unfold execute_insert in E1. cbn [usage_values u_api_key_id] in E1. destruct Hkey as [|Hkey]; [done|].
    rewrite Hx in Hkey. injection Hkey as ->. rewrite Hxk, Hw in E1. done.
Qed.

(** *** The cost recorded *)

Definition opt_u32 (x : option Z) : Prop := opt_le u32_max x.

Lemma opt_u32_default x : opt_u32 x -> is_u32 (default 0 x).
Proof. destruct x; [done|]. unfold is_u32, u32_max. cbn. lia. Qed.

Definition succeeded (i : UsageInput) : bool := (200 <=? status_code i) && (status_code i <? 400).

(** The cost of a request by the price of its model. *)
Definition cost_of (price : option Price) (i : UsageInput) : option f64 := (compute price (billable price i)).1.

Lemma billable_frame price i :
  status_code (billable price i) = status_code i /\ cached_tokens (billable price i) = cached_tokens i.
Proof. unfold billable. by destruct (audio_ms i), price as [[? ? [] ?]|]. Qed.

Lemma cost_of_spec price i :
  (forall p, price = Some p -> price_ok p) -> input_ok i ->
  if succeeded i
  then match price with
       | None => cost_of price i = None
       | Some p => exists c, cost_of price i = Some c /\ amount c /\
                    (pr_kind p = Audio ->
                       c = f64_mul (default (input_per_1m p) (audio_per_hour p))
                             (f64_div (f64_of_Z (default 0 (audio_ms i))) HOUR_MS))
       end
  else cost_of price i = Some (f64_of_Z 0).
Proof.
  intros Hp (H1 & H2 & H3 & H4 & H5 & H6 & H7 & _). unfold cost_of, compute, succeeded.
  destruct (billable_frame price i) as [-> ->]. destruct (_ && _); cbn [fst]; [|done].
  destruct price as [p|]; [|done]. specialize (Hp p eq_refl).
  destruct (decide (pr_kind p = Audio)) as [Ha|Ha].
  - assert (prompt_tokens (billable (Some p) i) = Some (default 0 (audio_ms i))) as ->
      by (unfold billable; cbn; rewrite Ha; by destruct (audio_ms i)).
    assert (completion_tokens (billable (Some p) i) = Some 0) as ->
      by (unfold billable; cbn; rewrite Ha; by destruct (audio_ms i)).
    destruct (cost_amount p (default 0 (audio_ms i)) 0 (cached_tokens i)) as (c & Hc & Hca); [done|by apply opt_u32_default| | |].
    { unfold is_u32, u32_max. lia. } { intros x Hx. by rewrite Hx in H6. }
    cbn [default]. exists c. split; [done|]. split; [done|]. intros _.
    unfold compute_cost_opt_with_cache in Hc. rewrite Ha in Hc. by injection Hc as <-.
  - assert (billable (Some p) i = i) as -> by (unfold billable; cbn; destruct (audio_ms i), (pr_kind p); done).
    destruct (cost_amount p (default 0 (prompt_tokens i)) (default 0 (completion_tokens i)) (cached_tokens i)) as (c & Hc & Hca);
      [done|by apply opt_u32_default|by apply opt_u32_default|intros x Hx; by rewrite Hx in H6|].
    exists c. done.
Qed.

Lemma amount_not_nan x : amount x -> f64_is_nan x = false.
Proof. by destruct x. Qed.

Lemma cost_of_not_nan price i :
  (forall p, price = Some p -> price_ok p) -> input_ok i ->
  match cost_of price i with Some x => f64_is_nan x = false | None => True end.
Proof.
  intros Hp Hi. pose proof (cost_of_spec price i Hp Hi) as H0. destruct (succeeded i); [|by rewrite H0].
  destruct price as [p|]; [|by rewrite H0]. destruct H0 as (c & -> & Hc & _). by apply amount_not_nan.
Qed.

Lemma record_row_spec i db id row db' :
  record_row i db = inl (id, row, db') ->
  let price := lookup_with_db (ud_sync db) (provider_id i) (upstream_model_id i) in
  let err := redact_error_msg <$> error_msg i in
  id = ud_next_id db /\ row = recent_of_input i id (cost_of price i) err /\
  exists k tps, appended i (cost_of price i) tps err db db' k /\ (k = None \/ k = api_key_id i) /\
    ((forall r, write_error r = None) -> forall x, api_key_id i = Some x -> key_exists db x = true -> k = Some x).
Proof.
  unfold record_row, cost_of. cbv zeta. set (price := lookup_with_db _ _ _).
  destruct (compute price (billable price i)) as [cost tps].
  destruct (insert_usage_record _ _ _ _ _) as [[id' db1]|e] eqn:E; [|done]. intros [= <- <- <-].
  apply insert_spec in E as (-> & k & Ha & Hk & Hw). split; [done|]. split; [done|]. exists k, tps. done.
Qed.

(** A usage row says what was published.  Recording appends one row under
    the next id; read back from the table it is the published row, field by
    field, except for the time and for an API key that is gone: the
    flags, the widths of the integers, the endpoint kind and the cost survive
    the columns. *)
Lemma usage_rows_round_trip i db id row db' :
  sync_ok (ud_sync db) -> input_ok i -> record_row i db = inl (id, row, db') ->
  exists r k, ud_rows db' = ud_rows db ++ [r] /\ u_id r = ud_next_id db /\ id = ud_next_id db /\
    map_recent_usage_from_row r = Some (stored_as k row) /\
    (k = None \/ k = api_key_id i) /\
    ((forall r, write_error r = None) -> forall x, api_key_id i = Some x -> key_exists db x = true -> k = Some x).
Proof.
  intros Hs Hi Hr. apply record_row_spec in Hr as (-> & -> & k & tps & Ha & Hk & Hw). rewrite Ha. cbn [ud_rows].
  do 2 eexists. split; [reflexivity|]. split; [done|]. split; [done|]. split; [|done].
  apply values_round_trip; [done|]. apply cost_of_not_nan; [|done]. intros p. by apply lookup_with_db_ok.
Qed.

(** A recorded cost is an amount.  A request that failed costs nothing,
    one whose model has no known price has no cost, and any other costs a number
    that is neither negative nor NaN; audio is billed by its duration alone,
    whatever the token counts say. *)
Lemma recorded_costs_are_amounts i db id row db' :
  sync_ok (ud_sync db) -> input_ok i -> record_row i db = inl (id, row, db') ->
  if succeeded i
  then match lookup_with_db (ud_sync db) (provider_id i) (upstream_model_id i) with
       | None => rr_cost_usd row = None
       | Some p => exists c, rr_cost_usd row = Some c /\ amount c /\
                    (pr_kind p = Audio ->
                       c = f64_mul (default (input_per_1m p) (audio_per_hour p))
                             (f64_div (f64_of_Z (default 0 (audio_ms i))) HOUR_MS))
       end
  else rr_cost_usd row = Some (f64_of_Z 0).
Proof.
  intros Hs Hi Hr. apply record_row_spec in Hr as (-> & -> & _). cbn [recent_of_input rr_cost_usd].
  apply cost_of_spec; [|done]. intros p. by apply lookup_with_db_ok.
Qed.

(** *** Pricing later *)

Definition price_of (sync : list SyncRow) (r : UsageRow) : option Price :=
  lookup_with_db sync (u_provider_id r) (u_upstream_model_id r).

Lemma backfill_row_keys price r :
  u_provider_id (backfill_row price r) = u_provider_id r /\ u_upstream_model_id (backfill_row price r) = u_upstream_model_id r.
Proof. unfold backfill_row. by destruct price; case_match. Qed.

Lemma backfill_row_priced price r : unpriced r = false -> backfill_row price r = r.
Proof.
  unfold unpriced, backfill_row, no_cost. intros Hu. destruct price as [p|].
  - destruct (bool_decide (pr_kind p = Audio)), (is_positive (u_audio_ms r)), (is_positive (u_prompt_tokens r)); cbn in *; try done; by rewrite Hu.
  - destruct (is_positive (u_prompt_tokens r)); [|done]. cbn in *. by apply orb_false_iff in Hu as [-> _].
Qed.

Lemma backfill_row_idem price r : backfill_row price (backfill_row price r) = backfill_row price r.
Proof.
  unfold backfill_row. destruct price as [p|].
  - destruct (_ && no_cost r) eqn:E; [|by rewrite E]. cbn [u_audio_ms u_prompt_tokens set_cost].
    by destruct (_ && no_cost (set_cost _ _)).
  - destruct (_ && zero_cost r) eqn:E; [|by rewrite E]. by rewrite andb_false_r.
Qed.

(** What one row becomes under the updates of a list of models. *)
Definition updated (sync : list SyncRow) (pairs : list (str * str)) (r : UsageRow) : UsageRow :=
  if bool_decide ((u_provider_id r, u_upstream_model_id r) ∈ pairs) then backfill_row (price_of sync r) r else r.

Lemma updates_rows sync pairs rows :
  NoDup pairs ->
  foldl (fun rows pm => update_backfill_price pm.1 pm.2 (lookup_with_db sync pm.1 pm.2) rows) rows pairs
  = updated sync pairs <$> rows.
Proof.
  intros Hnd. revert rows. induction Hnd as [|[q m] pairs Hin _ IH]; intros rows; cbn [foldl].
  { rewrite <- (list_fmap_id rows) at 1. apply list_fmap_ext. intros _ r _. unfold updated. by rewrite bool_decide_eq_false_2 by set_solver. }
  rewrite IH. unfold update_backfill_price. rewrite <- list_fmap_compose. apply list_fmap_ext. intros _ r _. cbn [fst snd compose].
  unfold updated at 2. rewrite <- bool_decide_and. destruct (decide (u_provider_id r = q /\ u_upstream_model_id r = m)) as [[<- <-]|Hne].
  - rewrite bool_decide_eq_true_2 by done. rewrite bool_decide_eq_true_2 by set_solver. unfold updated.
    destruct (backfill_row_keys (lookup_with_db sync (u_provider_id r) (u_upstream_model_id r)) r) as [-> ->].
    rewrite bool_decide_eq_false_2 by done. done.
  - rewrite bool_decide_eq_false_2 by done. unfold updated.
    rewrite (bool_decide_ext _ ((u_provider_id r, u_upstream_model_id r) ∈ (q, m) :: pairs)); [done|].
    rewrite elem_of_cons. split; [by right|]. intros [[= E1 E2]|Hp]; [exfalso; by apply Hne|done].
Qed.

Lemma backfill_rows db :
  ud_rows (backfill_usage_pricing db) = (fun r => backfill_row (price_of (ud_sync db) r) r) <$> ud_rows db.
Proof.
  unfold backfill_usage_pricing. cbn [set_rows ud_rows]. rewrite updates_rows by apply NoDup_remove_dups.
  apply list_fmap_ext. intros j r Hr. unfold updated. case_bool_decide as Hin; [done|].
  symmetry. apply backfill_row_priced. destruct (unpriced r) eqn:Hu; [|done]. exfalso. apply Hin.
  apply elem_of_remove_dups, list_elem_of_fmap. exists r. split; [done|]. apply list_elem_of_filter. split; [done|].
  by eapply list_elem_of_lookup_2.
Qed.

Definition with_sync (sync : list SyncRow) (db : UsageDb) : UsageDb :=
  mkUsageDb (ud_rows db) (ud_next_id db) (ud_api_keys db) sync.

Lemma sql_real_amount x : amount x -> sql_real x = Some x.
Proof. intros Hx. unfold sql_real. by rewrite amount_not_nan. Qed.

(** The two computations agree, without cached tokens. *)
Lemma late_cost i p tps err k id :
  price_ok p -> input_ok i -> succeeded i = true -> cached_tokens i = None -> pr_kind p <> Audio -> pr_kind p <> Image ->
  backfill_cost p (usage_values i None tps err k id) = cost_of (Some p) i.
Proof.
  intros Hp (H1 & H2 & H3 & H4 & H5 & _) Hok Hc Ha Him. destruct Hp as (Hin & Hout & Hau).
  assert (forall y z, rate y -> is_u32 z -> amount (f64_div (f64_mul y (f64_of_Z z)) MILLION)) as Hmul
    by (intros y z Hy Hz; apply million_amount, mul_amount; [done|by apply u32_rate]).
  unfold cost_of, compute, billable. cbn [fmap option_fmap option_map].
  assert (match audio_ms i, Some (pr_kind p) with Some ms, Some Audio => with_tokens ms i | None, Some Audio => with_tokens 0 i | _, _ => i end = i)
    as -> by (by destruct (audio_ms i), (pr_kind p)).
  unfold succeeded in Hok. rewrite Hok, Hc. cbn [fst]. rewrite cost_uncached; [|done|by apply opt_u32_default|done|done].
  unfold backfill_cost. cbn [usage_values u_prompt_tokens u_completion_tokens].
  rewrite (sql_real_amount (input_per_1m p)), (sql_real_amount (output_per_1m p)) by by apply rate_amount. cbn [default].
  assert (amount (f64_add (f64_div (f64_mul (input_per_1m p) (f64_of_Z (default 0 (prompt_tokens i)))) MILLION)
                    (f64_div (f64_mul (output_per_1m p) (f64_of_Z (default 0 (completion_tokens i)))) MILLION))) as Hsum
    by (apply add_amount; apply Hmul; done || by apply opt_u32_default).
  rewrite <- (sql_real_amount _ Hsum). by destruct (pr_kind p).
Qed.

(** A price that comes late gives the cost it would have given at once.
    Filling in the prices twice is filling them in once, and changes no row
    that has a cost; and a successful request without cached tokens that was
    recorded before its model had a price costs, once the price is known, what
    it would have cost had the price been there, every other column as
    recorded. *)
Lemma late_prices_agree :
  (forall db, ud_rows (backfill_usage_pricing (backfill_usage_pricing db)) = ud_rows (backfill_usage_pricing db)) /\
  (forall db j r, ud_rows db !! j = Some r -> unpriced r = false -> ud_rows (backfill_usage_pricing db) !! j = Some r) /\
  (forall i db id row db' sync p,
     record_row i db = inl (id, row, db') ->
     lookup_with_db (ud_sync db) (provider_id i) (upstream_model_id i) = None ->
     lookup_with_db sync (provider_id i) (upstream_model_id i) = Some p ->
     sync_ok sync -> input_ok i -> succeeded i = true -> cached_tokens i = None ->
     is_positive (prompt_tokens i) = true -> pr_kind p <> Audio -> pr_kind p <> Image ->
     exists r, last (ud_rows db') = Some r /\ u_cost_usd r = None /\
       last (ud_rows (backfill_usage_pricing (with_sync sync db'))) = Some (set_cost (cost_of (Some p) i) r)).
Proof.
  split_and!.
  - intros db. rewrite backfill_rows, backfill_rows. rewrite <- list_fmap_compose. apply list_fmap_ext. intros _ r _. cbn [compose].
    change (ud_sync (backfill_usage_pricing db)) with (ud_sync db). unfold price_of.
    destruct (backfill_row_keys (lookup_with_db (ud_sync db) (u_provider_id r) (u_upstream_model_id r)) r) as [-> ->].
    apply backfill_row_idem.
  - intros db j r Hr Hu. rewrite backfill_rows, list_lookup_fmap, Hr. cbn. by rewrite backfill_row_priced.
  - intros i db id row db' sync p Hr Hnone Hp Hs Hi Hok Hcached Hprompt Ha Hi'.
    assert (price_ok p) as Hpok by by eapply lookup_with_db_ok.
    apply record_row_spec in Hr as (_ & _ & k & tps & Happ & _). rewrite Happ, Hnone in *.
    set (err := redact_error_msg <$> error_msg i) in *.
    assert (cost_of None i = None) as Hc by (unfold cost_of, compute, billable; cbn; unfold succeeded in Hok; destruct (audio_ms i); cbn; by rewrite Hok).
    rewrite Hc in *. eexists. split; [apply last_snoc|]. split; [done|].
    rewrite backfill_rows. cbn [with_sync ud_rows ud_sync]. rewrite fmap_app, list_fmap_singleton, last_snoc. f_equal.
    set (r := usage_values _ _ _ _ _ _). unfold price_of. cbn [r usage_values u_provider_id u_upstream_model_id].
    rewrite Hp. unfold backfill_row. rewrite (bool_decide_eq_false_2 (pr_kind p = Audio)) by done.
    cbn [r usage_values u_prompt_tokens]. rewrite Hprompt. cbn [andb]. change (no_cost r) with true. cbv iota. f_equal.
    by apply late_cost.
Qed.
End rows.

(** ** Examples *)

Definition demo_input (status prompt completion : Z) (cached audio : option Z) (model : string) (err : option str) : UsageInput :=
  mkUsageInput (bytes_of "r1") (bytes_of "t1") 1 (bytes_of "acme") (Some 1) (Some 2) (Some 3) None (bytes_of model)
    (Some prompt) (Some completion) cached (Some 10) (Some 20) 1200 status err 1 (Some 7) (Some (bytes_of "{}")) None None
    None err 1 None None None None EkChat None None (2 + 8) audio.

Definition usage_demo_db (sync : list SyncRow) : UsageDb := mkUsageDb [] 1 [7] sync.

(** One dollar for a million of tokens in, two for a million out. *)
Definition demo_sync : list SyncRow := [mkSync (bytes_of "acme") (bytes_of "m") None (Some (f64_of_Z 1)) (Some (f64_of_Z 2))].

Definition no_redaction (pattern : string) (s : str) (rep : string) : str := s.
Definition no_text {A} (x : A) : option str := None.
Definition no_error (r : UsageRow) : option CoreError := None.

Definition usage_demo_record (i : UsageInput) (db : UsageDb) : Result (Z * RecentUsageRow * UsageDb) :=
  @record_row in_order no_redaction no_text no_text no_error (bytes_of "now") (bytes_of "utc") i db.

Definition recorded (i : UsageInput) (db : UsageDb) : UsageDb :=
  match usage_demo_record i db with inl (_, _, db') => db' | inr _ => db end.

Lemma demo_sync_ok : sync_ok demo_sync.
Proof.
  constructor; [|constructor]. intros p [= <-]. by apply price_okb_spec.
Qed.

Lemma demo_input_ok : input_ok (demo_input 200 1000 500 None None "m" None).
Proof. unfold input_ok, opt_le, u8_max, u16_max, u32_max, i64_max. cbn. lia. Qed.

Lemma usage_rows_round_trip_witness :
  exists id row db', usage_demo_record (demo_input 200 1000 500 None None "m" None) (usage_demo_db demo_sync) = inl (id, row, db')
  /\ exists r k, ud_rows db' = ud_rows (usage_demo_db demo_sync) ++ [r] /\ map_recent_usage_from_row r = Some (stored_as (bytes_of "now") k row).
Proof.
  destruct (usage_demo_record (demo_input 200 1000 500 None None "m" None) (usage_demo_db demo_sync)) as [[[id row] db']|e] eqn:E;
    [|exfalso; vm_compute in E; discriminate E].
  exists id, row, db'. split; [reflexivity|].
  destruct (@usage_rows_round_trip in_order no_redaction no_text no_text no_error (bytes_of "now") (bytes_of "utc")
              (demo_input 200 1000 500 None None "m" None) (usage_demo_db demo_sync) id row db' demo_sync_ok demo_input_ok E) as (r & k & H1 & _ & _ & H2 & _).
  exists r, k. split; assumption.
Defined.

Lemma recorded_costs_are_amounts_witness :
  exists id row db' c, usage_demo_record (demo_input 200 1000 500 None None "m" None) (usage_demo_db demo_sync) = inl (id, row, db')
  /\ rr_cost_usd row = Some c /\ amount c.
Proof.
  destruct (usage_demo_record (demo_input 200 1000 500 None None "m" None) (usage_demo_db demo_sync)) as [[[id row] db']|e] eqn:E;
    [|exfalso; vm_compute in E; discriminate E].
  pose proof (@recorded_costs_are_amounts in_order no_redaction no_text no_text no_error (bytes_of "now") (bytes_of "utc")
                (demo_input 200 1000 500 None None "m" None) (usage_demo_db demo_sync) id row db' demo_sync_ok demo_input_ok E) as H.
  change (succeeded (demo_input 200 1000 500 None None "m" None)) with true in H. cbv iota in H.
  destruct (lookup_with_db _ _ _) as [p|] eqn:Hp; [|exfalso; vm_compute in Hp; discriminate Hp].
  destruct H as (c & Hc & Ha & _). exists id, row, db', c. split; [reflexivity|]. split; assumption.
Defined.

Lemma late_prices_agree_witness :
  exists r, last (ud_rows (recorded (demo_input 200 1000 500 None None "m" None) (usage_demo_db []))) = Some r /\ u_cost_usd r = None /\
    last (ud_rows (@backfill_usage_pricing in_order
      (with_sync demo_sync (recorded (demo_input 200 1000 500 None None "m" None) (usage_demo_db [])))))
    = Some (set_cost (Some (f64_add (decimal 1 1000) (decimal 1 1000))) r).
Proof.
  destruct (@late_prices_agree in_order no_redaction no_text no_text no_error (bytes_of "now") (bytes_of "utc")) as (_ & _ & H).
  unfold recorded. destruct (usage_demo_record (demo_input 200 1000 500 None None "m" None) (usage_demo_db [])) as [[[id row] db']|e] eqn:E;
    [|exfalso; vm_compute in E; discriminate E].
  destruct (H (demo_input 200 1000 500 None None "m" None) (usage_demo_db []) id row db' demo_sync
              (mkPrice (f64_of_Z 1) (f64_of_Z 2) Chat None) E eq_refl eq_refl demo_sync_ok demo_input_ok eq_refl eq_refl eq_refl)
    as (r & H1 & H2 & H3); [discriminate|discriminate|].
  exists r. split; [exact H1|]. split; [exact H2|]. rewrite H3. f_equal.
Defined.

Definition last_cost (db : UsageDb) : option f64 := last (ud_rows db) ≫= u_cost_usd.

Definition backfilled (i : UsageInput) : UsageDb :=
  @backfill_usage_pricing in_order (with_sync demo_sync (recorded i (usage_demo_db []))).

(** A request that failed is recorded as costing nothing; filling in prices
    charges it in full. *)
Lemma backfill_charges_failures :
  last_cost (recorded (demo_input 500 1000000 0 None None "m" None) (usage_demo_db demo_sync)) = Some (S754_zero false) /\
  last_cost (backfilled (demo_input 500 1000000 0 None None "m" None)) = Some (f64_of_Z 1).
Proof. vm_compute. done. Qed.

(** Cached tokens cost half, unless the price comes late. *)
Lemma backfill_ignores_cache :
  last_cost (recorded (demo_input 200 1000000 0 (Some 1000000) None "m" None) (usage_demo_db demo_sync)) = Some f64_half /\
  last_cost (backfilled (demo_input 200 1000000 0 (Some 1000000) None "m" None)) = Some (f64_of_Z 1).
Proof. vm_compute. done. Qed.

(** The two ways of pricing audio round differently. *)
Lemma audio_rounding_differs :
  let price := Some (mkPrice (decimal 111 1000) (S754_zero false) Audio (Some (decimal 111 1000))) in
  let i := demo_input 200 0 0 None (Some 1001) "whisper-large-v3" None in
  last_cost (recorded i (usage_demo_db [])) <>
  (last (ud_rows (recorded i (usage_demo_db []))) ≫= fun r => backfill_cost (default (mkPrice (S754_zero false) (S754_zero false) Audio None) price) r).
Proof. vm_compute. discriminate. Qed.

(** The column [error_message] keeps what [error_msg] has redacted. *)
Lemma error_message_not_redacted :
  let redact_all (pattern : string) (s : str) (rep : string) := bytes_of rep in
  let secret := Some (bytes_of "sk-0123456789") in
  match @record_row in_order redact_all no_text no_text no_error [] [] (demo_input 500 1 0 None None "m" secret) (usage_demo_db []) with
  | inl (_, row, db') => rr_error_message row = Some (bytes_of "Authorization: Bearer [REDACTED]")
                         /\ (last (ud_rows db') ≫= u_error_message) = secret
  | inr _ => False
  end.
Proof. vm_compute. done. Qed.

(** ** Bounds *)

Lemma boundary_below_le s e : (boundary_below s e <= e)%nat.
Proof. induction e as [|e IH]; cbn [boundary_below]; [done|]. destruct (is_char_boundary _ _); lia. Qed.

(** A stored error message has at most 2062 bytes. *)
Lemma redacted_length replace_all raw : (length (redact_error_msg replace_all raw) <= 2062)%nat.
Proof.
  unfold redact_error_msg, truncate_sanitized. set (s := replace_all _ _ _).
  destruct (Nat.leb_spec (length s) 2048) as [|Hl]; [lia|].
  rewrite length_app, length_take. pose proof (boundary_below_le s 2048).
  change (length (bytes_of "...[truncated]")) with 14%nat. lia.
Qed.

(** A busy database is tried four times, over 400 ms. *)
Lemma busy_retry_bounded {St A} busy (f : St -> Result A * St) s :
  let '(r, _, slept) := with_busy_retry busy f s in
  (length slept <= 3)%nat /\ slept `prefix_of` [50; 100; 250] /\
  (forall e, r = inr e -> busy e = true -> slept = [50; 100; 250]).
Proof.
  unfold with_busy_retry, BUSY_RETRY_DELAYS.
  enough (forall delays s, let '(r, _, slept) := busy_loop busy f delays s in
            slept `prefix_of` delays /\ (forall e, r = inr e -> busy e = true -> slept = delays)) as H.
  { specialize (H [50; 100; 250] s). destruct (busy_loop _ _ _ _) as [[r s'] slept]. destruct H as [Hp He].
    split; [apply prefix_length in Hp; done|]. done. }
  clear s. induction delays as [|d delays IH]; intros s; cbn [busy_loop].
  - destruct (f s) as [[v|e] s']; done.
  - destruct (f s) as [[v|e] s']; [split; [apply prefix_nil|done]|]. destruct (busy e) eqn:E.
    + specialize (IH s'). destruct (busy_loop _ _ _ _) as [[r s''] slept]. destruct IH as [Hp He].
      split; [by apply prefix_cons|]. intros e' Hr Hb. f_equal. by eapply He.
    + split; [apply prefix_nil|]. intros e' [= <-]. congruence.
Qed.
