(* ===== verification/UsageBilling.v ===== *)
(** * Billing: the journal over the usage rows

    Puts UsageJournal and UsageRows together: the journal's worker applies its
    entries with the [record_row] and [mark_winner_usage_row] of the usage
    table, so what a request cost is billed once, whatever is interleaved. *)

From Stdlib Require Import String.
From S2P Require Import Prelude Types Text Bytes Errors ComboTree Cooldowns UsageJournal ModelIds Amounts Pricing UsageRows.

(** What a row bills, and what the entry of a request asks to bill. *)
Definition Bill : Type := str * Z * str * str * option Z * option Z * option Z * option f64.

Definition billed (r : UsageRow) : Bill :=
  (u_request_id r, u_attempt r, u_provider_id r, u_upstream_model_id r, u_prompt_tokens r, u_completion_tokens r,
   u_cached_tokens r, u_cost_usd r).

Section billing.
Context `{PriceOrder}.
Context (replace_all : string -> str -> string -> str) (json_text : Json -> option str) (headers_text : HeaderMap -> option str).
Context (write_error : UsageRow -> option CoreError).
Context (sql_now utc_now : str).
Context (decode_job : string -> option (@BackgroundJob UsageInput)) (max_utc : Z).
Context (sync : list SyncRow).

Definition apply_row (i : UsageInput) (t : UsageDb) : Result (UsageDb * RecentUsageRow) :=
  match record_row replace_all json_text headers_text write_error sql_now utc_now i t with
  | inl (_, row, t') => inl (t', row)
  | inr e => inr e
  end.

Definition apply_mark (request : string) (attempt target : Z) (t : UsageDb) : Result UsageDb :=
  inl (mark_winner_usage_row (bytes_of request) attempt target t).2.

Definition bill (i : UsageInput) : Bill :=
  (request_id i, attempt i, provider_id i, upstream_model_id i, prompt_tokens i, completion_tokens i, cached_tokens i,
   cost_of (lookup_with_db sync (provider_id i) (upstream_model_id i)) i ≫= sql_real).

Definition bill_of (e : Z * @BackgroundJob UsageInput) : option Bill :=
  match e.2 with
  | RecordUsage i | RecordAttempt i _ _ _ _ _ _ _ _ => Some (bill i)
  | _ => None
  end.

(** The rows of the table are the bills of the entries that were applied. *)
Definition billed_inv (db : @Db UsageInput UsageDb) : Prop :=
  billed <$> ud_rows (db_tables db) = omap bill_of (db_effects db) /\ ud_sync (db_tables db) = sync.

Lemma apply_row_billed i t t' row :
  ud_sync t = sync -> apply_row i t = inl (t', row) ->
  billed <$> ud_rows t' = (billed <$> ud_rows t) ++ [bill i] /\ ud_sync t' = sync.
Proof.
  intros Hs. unfold apply_row. destruct (record_row _ _ _ _ _ _ i t) as [[[id r] t1]|e] eqn:E; [|done]. intros [= <- <-].
  apply record_row_spec in E as (_ & _ & k & tps & -> & _). cbn [ud_rows ud_sync]. rewrite fmap_app, Hs. done.
Qed.

Lemma apply_mark_billed request att target t t' :
  apply_mark request att target t = inl t' -> billed <$> ud_rows t' = billed <$> ud_rows t /\ ud_sync t' = ud_sync t.
Proof.
  intros [= <-]. split; [|done]. unfold mark_winner_usage_row, mark. cbn [snd set_rows ud_rows].
  rewrite <- list_fmap_compose. apply list_fmap_ext. intros _ r _. cbn [compose]. by case_match.
Qed.

Lemma apply_cooldown_frame now params (db db' : @Db UsageInput UsageDb) :
  apply_cooldown now max_utc params db = Commits db' -> db_tables db' = db_tables db /\ db_effects db' = db_effects db.
Proof. unfold apply_cooldown. repeat case_match; intros [= <-]; done. Qed.

Lemma record_billed now i cd id job (db db' : @Db UsageInput UsageDb) row :
  bill_of (id, job) = Some (bill i) -> billed_inv db ->
  record_in_transaction apply_row now max_utc i cd id job db = Commits (db', row) -> billed_inv db'.
Proof.
  intros Hjob [Hb Hs]. unfold record_in_transaction. destruct (negb _); [by intros [= <- _]|].
  destruct (apply_row i (db_tables db)) as [[t r]|e] eqn:E; [|done]. cbn [of_result tx_bind fst snd].
  destruct (apply_row_billed _ _ _ _ Hs E) as [Hrows Hsync].
  destruct (match cd with Some params => _ | None => _ end) as [db1| |] eqn:Ec; [|done..]. cbn [tx_bind]. intros [= <- _].
  assert (db_tables db1 = t /\ db_effects db1 = db_effects db) as [Ht He].
  { destruct cd; [by apply apply_cooldown_frame in Ec|by injection Ec as <-]. }
  unfold billed_inv. cbn [acknowledge log_effect db_tables db_effects]. rewrite Ht, He, omap_app, Hrows, Hb. cbn [omap list_omap].
  by rewrite Hjob.
Qed.

Lemma entry_billed now job id (db db' : @Db UsageInput UsageDb) row :
  billed_inv db -> apply_entry apply_row apply_mark now max_utc job id db = Commits (db', row) -> billed_inv db'.
Proof.
  intros Hi. destruct job as [|i|i target combo err issue mode base max factor|request att target]; cbn [apply_entry]; [done| | |].
  - by apply record_billed.
  - by apply record_billed.
  - destruct (journal_contains id db); [|by intros [= <- _]]. cbn [apply_mark of_result tx_bind]. intros [= <- _].
    destruct (apply_mark_billed request att target (db_tables db) _ eq_refl) as [Hr Hs]. destruct Hi as [Hb Hsync].
    split; [|by transitivity (ud_sync (db_tables db))]. etransitivity; [exact Hr|].
    cbn [acknowledge log_effect with_tables db_effects]. rewrite Hb, omap_app. cbn [omap list_omap bill_of snd].
    by rewrite app_nil_r.
Qed.

Lemma batch_billed now entries (db db' : @Db UsageInput UsageDb) rows :
  billed_inv db -> apply_batch apply_row apply_mark decode_job now max_utc entries db = Commits (db', rows) -> billed_inv db'.
Proof.
  revert db rows. induction entries as [|[id payload] entries IH]; intros db rows Hi; cbn [apply_batch]; [by intros [= <- _]|].
  destruct (decode decode_job payload) as [job| |]; cbn [tx_bind]; [|done..].
  destruct (apply_entry _ _ _ _ job id db) as [[db1 r]| |] eqn:E; cbn [tx_bind fst snd]; [|done..].
  destruct (apply_batch _ _ _ _ _ entries db1) as [[db2 rs]| |] eqn:E2; cbn [tx_bind fst snd]; [|done..].
  intros [= <- _]. eapply IH; [|exact E2]. by eapply entry_billed.
Qed.

Lemma append_frame payloads (db : @Db UsageInput UsageDb) :
  db_tables (append_each payloads db).1 = db_tables db /\ db_effects (append_each payloads db).1 = db_effects db.
Proof.
  revert db. induction payloads as [|p payloads IH]; intros db; [done|]. cbn [append_each].
  assert (db_tables (append p db).1 = db_tables db /\ db_effects (append p db).1 = db_effects db) as [H1 H2]
    by (unfold append; by destruct (_ <=? _)).
  destruct (append p db) as [db1 r]. specialize (IH db1). destruct (append_each payloads db1) as [db2 rs]. cbn [fst] in *.
  destruct IH as [-> ->]. done.
Qed.

Lemma NoDup_fst_inj {A B} (l : list (A * B)) a b b' : NoDup l.*1 -> (a, b) ∈ l -> (a, b') ∈ l -> b = b'.
Proof.
  induction l as [|[x y] l IH]; intros Hnd; [by intros ?%elem_of_nil|]. cbn in Hnd. apply NoDup_cons in Hnd as [Hx Hnd].
  intros [E|Hb]%elem_of_cons [E'|Hb']%elem_of_cons; [congruence| | |by apply IH].
  all: exfalso; simplify_eq; apply Hx, list_elem_of_fmap; by eexists (_, _).
Qed.

(** C5. Every request is billed exactly once.  In every interleaving of
    producers and workers over the journal, the rows of the usage table are, in
    order, the bills of the entries applied: tokens as recorded and the cost of
    the price of the model; no entry is billed twice, and once the journal is
    empty every admitted entry has been applied. *)
Theorem usage_billed_exactly_once keys next c db :
  rtc (journal_step apply_row apply_mark decode_job max_utc) (db_new (mkUsageDb [] next keys sync) c) db ->
  billed <$> ud_rows (db_tables db) = omap bill_of (db_effects db)
  /\ NoDup (db_effects db).*1
  /\ (forall id job, (id, job) ∈ db_effects db -> exists p, (id, p) ∈ db_admitted db /\ decode_job p = Some job)
  /\ (db_journal db = [] -> forall id p, (id, p) ∈ db_admitted db -> exists job, (id, job) ∈ db_effects db /\ decode_job p = Some job).
Proof.
  intros Hr. destruct (journal_reachable _ _ _ _ _ _ _ Hr) as (H1 & _ & H3 & H4 & H5 & _).
  assert (billed_inv db) as [Hb _].
  { eapply (rtc_invariant _ billed_inv); [| |exact Hr]; [|by split].
    intros x y Hi Hs. destruct Hs as [payload x|payloads x|now entries x y rows Hin Hbt].
    - destruct (append_frame [payload] x) as [Ht He]. cbn [append_each] in Ht, He. destruct (append payload x). cbn [fst] in *.
      unfold billed_inv. by rewrite Ht, He.
    - rewrite append_batch_each. destruct (append_frame payloads x) as [Ht He]. unfold billed_inv. by rewrite Ht, He.
    - by eapply batch_billed. }
  rewrite Forall_forall in H5. split; [done|]. split; [done|]. split; [intros id job Hin; by apply (H5 (id, job))|].
  intros Hempty id p Hp. rewrite H3 in Hempty. pose proof (proj1 (filter_nil_iff _ _) Hempty (id, p) Hp) as Hin. cbn [fst] in Hin.
  apply dec_stable, list_elem_of_fmap in Hin as ([id' job] & Heq & Hin). cbn in Heq. subst id'. exists job. split; [done|].
  destruct (H5 _ Hin) as (p' & Hp' & Hd). cbn [fst snd] in *. by rewrite (NoDup_fst_inj _ _ _ _ H1 Hp Hp').
Qed.
End billing.

(** A journal of one request, applied. *)
Definition billing_decode (p : string) : option (@BackgroundJob UsageInput) :=
  if String.eqb p "a" then Some (RecordUsage (demo_input 200 1000 500 None None "m" None)) else None.

Definition billing_start : @Db UsageInput UsageDb := db_new (usage_demo_db demo_sync) (mkCooldownDb ∅ ∅ ∅).

Definition billing_apply_row : UsageInput -> UsageDb -> Result (UsageDb * RecentUsageRow) :=
  @apply_row in_order no_redaction no_text no_text no_error (bytes_of "now") (bytes_of "utc").

Definition billing_end : @Db UsageInput UsageDb :=
  let db := (append "a" billing_start).1 in
  match apply_batch billing_apply_row apply_mark billing_decode 0 0 (db_journal db) db with
  | Commits (db', _) => db'
  | _ => db
  end.

Lemma billing_reaches_end : rtc (journal_step billing_apply_row apply_mark billing_decode 0) billing_start billing_end.
Proof.
  eapply rtc_l; [apply (step_append _ _ _ _ "a" billing_start)|].
  eapply rtc_l; [|apply rtc_refl].
  assert (exists rows, apply_batch billing_apply_row apply_mark billing_decode 0 0 (db_journal (append "a" billing_start).1) (append "a" billing_start).1
            = Commits (billing_end, rows)) as [rows Hr].
  { unfold billing_end. destruct (apply_batch _ _ _ _ _ _ _) as [[db' rows]| |] eqn:E;
      [by exists rows|exfalso; vm_compute in E; discriminate E..]. }
  eapply (step_apply _ _ _ _ 0); [|exact Hr]. repeat constructor.
Qed.

Lemma usage_billed_exactly_once_witness :
  billed <$> ud_rows (db_tables billing_end) = [@bill in_order demo_sync (demo_input 200 1000 500 None None "m" None)].
Proof.
  destruct (@usage_billed_exactly_once in_order no_redaction no_text no_text no_error (bytes_of "now") (bytes_of "utc")
              billing_decode 0 demo_sync [7] 1 (mkCooldownDb ∅ ∅ ∅) billing_end billing_reaches_end) as [H _].
  rewrite H. vm_compute. reflexivity.
Defined.
