(* ===== verification/DeltaScan.v ===== *)
(** * Reading a streamed delta without parsing it

    [openproxy-pipeline/src/sse_accumulator/parser.rs]: the scanner that reads
    [content] and [reasoning_content] out of the delta object of a stream
    payload in one pass over its bytes, the decoder of JSON string escapes, and
    the normalisation of the other names under which upstreams send reasoning.

    An index into the payload is the suffix that starts there.  The JSON parser
    and printer ([serde_json]) are parameters. *)

From Stdlib Require Import String.
From S2P Require Import Prelude Text Bytes.

(** ** Characters and hexadecimal numbers (the standard library) *)

Definition BACKSLASH : Z := 92.

(** [char::from_u32]. *)
Definition char_from_u32 (c : Z) : option Z :=
  if ((55296 <=? c) && (c <=? 57343)) || (1114111 <? c) then None else Some c.

(** [char::encode_utf8]. *)
Definition encode_utf8 (c : Z) : str :=
  if c <? 128 then [c]
  else if c <? 2048 then [192 + c / 64; 128 + c mod 64]
  else if c <? 65536 then [224 + c / 4096; 128 + c / 64 mod 64; 128 + c mod 64]
  else [240 + c / 262144; 128 + c / 4096 mod 64; 128 + c / 64 mod 64; 128 + c mod 64].

(** [char::to_digit(16)]. *)
Definition hex_digit (b : Z) : option Z :=
  if (48 <=? b) && (b <=? 57) then Some (b - 48)
  else if (97 <=? b) && (b <=? 102) then Some (b - 87)
  else if (65 <=? b) && (b <=? 70) then Some (b - 55)
  else None.

Fixpoint parse_hex (m acc : Z) (bs : str) : option Z :=
  match bs with
  | [] => Some acc
  | b :: bs' =>
      match hex_digit b with
      | Some d => if acc * 16 + d <=? m then parse_hex m (acc * 16 + d) bs' else None
      | None => None
      end
  end.

(** [u16::from_str_radix(s, 16)]: a leading [+] is accepted. *)
Definition u16_from_hex (s : str) : option Z :=
  match s with
  | [] => None
  | b :: s' => if b =? 43 then match s' with [] => None | _ => parse_hex u16_max 0 s' end
               else parse_hex u16_max 0 s
  end.

(** [u8::is_ascii_whitespace]. *)
Definition is_ascii_whitespace (b : Z) : bool :=
  (b =? 32) || (b =? 9) || (b =? 10) || (b =? 12) || (b =? 13).

Fixpoint skip_ws (s : str) : str :=
  match s with b :: s' => if is_ascii_whitespace b then skip_ws s' else s | [] => [] end.

(** What follows a given first byte. *)
Definition after (b : Z) (s : str) : option str :=
  match s with x :: s' => if x =? b then Some s' else None | [] => None end.

(** ** Escapes *)

Definition short_escape (e : Z) : option Z :=
  if e =? 34 then Some 34
  else if e =? 92 then Some 92
  else if e =? 47 then Some 47
  else if e =? 98 then Some 8
  else if e =? 102 then Some 12
  else if e =? 110 then Some 10
  else if e =? 114 then Some 13
  else if e =? 116 then Some 9
  else None.

Definition slice (i j : nat) (s : str) : str := take (j - i) (drop i s).

(** The [b'u'] arm, at the backslash: the character and how far to go on. *)
Definition unicode_escape (s : str) : option (str * nat) :=
  match u16_from_hex (slice 2 6 s) with
  | None => None
  | Some hex =>
      let pair :=
        if (55296 <=? hex) && (hex <=? 56319) && (11 <? Z.of_nat (length s))
           && bool_decide (slice 6 8 s = [BACKSLASH; 117])
        then match u16_from_hex (slice 8 12 s) with
             | Some low =>
                 if (56320 <=? low) && (low <=? 57343)
                 then char_from_u32 (65536 + Z.lor (Z.shiftl (hex - 55296) 10) (low - 56320))
                 else None
             | None => None
             end
        else None in
      match pair with
      | Some ch => Some (encode_utf8 ch, 12%nat)
      | None => match char_from_u32 hex with Some ch => Some (encode_utf8 ch, 6%nat) | None => None end
      end
  end.

(** The bytes the loop pushes. *)
Fixpoint decode_loop (fuel : nat) (s : str) : str :=
  match fuel with
  | O => []
  | S f =>
      match s with
      | [] => []
      | b :: s1 =>
          match (if b =? BACKSLASH then s1 else []) with
          | e :: s2 =>
              match short_escape e with
              | Some x => x :: decode_loop f s2
              | None =>
                  match (if (e =? 117) && (5 <? Z.of_nat (length s)) then unicode_escape s else None) with
                  | Some (bytes, n) => bytes ++ decode_loop f (drop n s)
                  | None => BACKSLASH :: decode_loop f s1
                  end
              end
          | [] => b :: decode_loop f s1
          end
      end
  end.

Definition decode_json_escape_into (raw out : str) : str :=
  if negb (contains_byte BACKSLASH raw) then out ++ raw
  else out ++ decode_loop (length raw) raw.

(** ** The delta object *)

Definition DELTA_KEY : str := quoted "delta".

(** What follows the opening brace. *)
Fixpoint find_delta_loop (fuel : nat) (s : str) : option str :=
  match fuel with
  | O => None
  | S f =>
      match find_sub DELTA_KEY s with
      | None => None
      | Some rel =>
          let i := drop (rel + 7) s in
          match after 58 (skip_ws i) ≫= (fun v => after 123 (skip_ws v)) with
          | Some body => Some body
          | None => find_delta_loop f i
          end
      end
  end.

Definition find_delta_object (payload : str) : option str :=
  find_delta_loop (S (length payload)) payload.

(** The place of a string's closing quote, from the start of its text. *)
Fixpoint string_end (s : str) : option nat :=
  match s with
  | [] => None
  | b :: s1 =>
      if b =? DQUOTE then Some 0%nat
      else if b =? BACKSLASH then match s1 with [] => None | _ :: s2 => (fun n => S (S n)) <$> string_end s2 end
      else S <$> string_end s1
  end.

Record DeltaFields := mkFields { df_content : option str; df_reasoning : option str }.

Inductive Destination := ToContent | ToReasoning.

Definition destination (key : str) (seen_content seen_reasoning : bool) : option Destination :=
  if bool_decide (key = bytes_of "content") && negb seen_content then Some ToContent
  else if bool_decide (key = bytes_of "reasoning_content") && negb seen_reasoning then Some ToReasoning
  else None.

Definition store_field (dst : Destination) (s : str) (f : DeltaFields) : DeltaFields :=
  match dst with
  | ToContent => mkFields (Some s) (df_reasoning f)
  | ToReasoning => mkFields (df_content f) (Some s)
  end.

Definition opens (b : Z) : bool := (b =? 123) || (b =? 91).
Definition closes (b : Z) : bool := (b =? 125) || (b =? 93).

Fixpoint scan_fields (fuel : nat) (s : str) (depth : nat) (sc sr : bool) (f : DeltaFields) : DeltaFields :=
  match fuel with
  | O => f
  | S n =>
      match s with
      | [] => f
      | b :: s1 =>
          if (depth =? 0)%nat then f
          else if opens b then scan_fields n s1 (S depth) sc sr f
          else if closes b then scan_fields n s1 (pred depth) sc sr f
          else if b =? DQUOTE then
            match string_end s1 with
            | None => f
            | Some e =>
                let key := take e s1 in
                let i := drop (S e) s1 in
                match after 58 (skip_ws i) with
                | None => scan_fields n i depth sc sr f
                | Some v =>
                    let value := skip_ws v in
                    if negb (depth =? 1)%nat then scan_fields n value depth sc sr f
                    else
                      match destination key sc sr with
                      | None => scan_fields n value depth sc sr f
                      | Some dst =>
                          let sc' := sc || match dst with ToContent => true | ToReasoning => false end in
                          let sr' := sr || match dst with ToContent => false | ToReasoning => true end in
                          match after DQUOTE value with
                          | Some body =>
                              match string_end body with
                              | None => f
                              | Some e' =>
                                  let f' := store_field dst (take e' body) f in
                                  if sc' && sr' then f' else scan_fields n (drop (S e') body) depth sc' sr' f'
                              end
                          | None => if sc' && sr' then f else scan_fields n value depth sc' sr' f
                          end
                      end
                end
            end
          else scan_fields n s1 depth sc sr f
      end
  end.

Definition extract_delta_fields (payload : str) : DeltaFields :=
  match find_delta_object payload with
  | None => mkFields None None
  | Some s => scan_fields (length s) s 1 false false (mkFields None None)
  end.

Definition extract_delta_content (payload : str) : option str := df_content (extract_delta_fields payload).
Definition extract_reasoning_content (payload : str) : option str := df_reasoning (extract_delta_fields payload).

(** ** Reasoning under other names *)

Definition obj_remove (k : string) (m : list (string * Json)) : option Json * list (string * Json) :=
  (assoc_get k m, filter (fun kv => kv.1 <> k) m).

Fixpoint obj_insert (k : string) (v : Json) (m : list (string * Json)) : list (string * Json) :=
  match m with
  | [] => [(k, v)]
  | (k', v') :: m' => if String.eqb k' k then (k, v) :: m' else (k', v') :: obj_insert k v m'
  end.

Definition should_check_reasoning_fields (payload : str) : bool :=
  contains_bytes (bytes_of "reasoning") payload
  && ((contains_bytes (quoted "reasoning" ++ [58]) payload
       && negb (contains_bytes (quoted "reasoning_content" ++ [58]) payload))
      || contains_bytes (quoted "reasoning_details" ++ [58]) payload).

Definition convert_reasoning_field (obj : list (string * Json)) : bool * list (string * Json) :=
  match obj_remove "reasoning" obj with
  | (None, obj) => (false, obj)
  | (Some reasoning, obj) =>
      match as_str reasoning with
      | Some text =>
          if negb (String.eqb text "") && negb (bool_decide (is_Some (assoc_get "reasoning_content" obj)))
          then (true, obj_insert "reasoning_content" (JStr text) obj)
          else (true, obj)
      | None => (true, obj)
      end
  end.

Definition combined_details (details : Json) : option string :=
  match details with
  | JArr arr => Some (String.concat "" (omap (fun d => json_get "text" d ≫= as_str) arr))
  | _ => None
  end.

Definition merge_reasoning_details (obj : list (string * Json)) (details : Json) : list (string * Json) :=
  match combined_details details with
  | None => obj
  | Some combined =>
      if String.eqb combined "" then obj
      else match assoc_get "reasoning_content" obj with
           | Some (JStr existing) => obj_insert "reasoning_content" (JStr (existing ++ combined)) obj
           | _ => obj_insert "reasoning_content" (JStr combined) obj
           end
  end.

Definition apply_reasoning_normalizations (obj : list (string * Json)) : list (string * Json) :=
  let '(reasoning_was_present, obj) := convert_reasoning_field obj in
  match obj_remove "reasoning_details" obj with
  | (Some details, obj) => if negb reasoning_was_present then merge_reasoning_details obj details else obj
  | (None, obj) => obj
  end.

Section serde.

Context (from_str : str -> option Json) (to_string : Json -> option str).

(** [choices\[0\].delta], read and written back in place. *)
Definition normalize_nonstandard_reasoning_fields (payload : str) : option str :=
  if negb (should_check_reasoning_fields payload) then None
  else
    match from_str payload with
    | Some (JObj v) =>
        match assoc_get "choices" v with
        | Some (JArr (JObj choice :: more)) =>
            match assoc_get "delta" choice with
            | Some (JObj obj) =>
                let choice' := obj_insert "delta" (JObj (apply_reasoning_normalizations obj)) choice in
                to_string (JObj (obj_insert "choices" (JArr (JObj choice' :: more)) v))
            | _ => None
            end
        | _ => None
        end
    | _ => None
    end.

End serde.

(** ** The text a JSON string denotes (RFC 8259, section 7)

    A string's text is a sequence of pieces, each of which denotes one
    character: the character itself, a two-character escape, an escaped code
    unit outside the surrogate range, or an escaped surrogate pair. *)

Inductive Piece :=
  | PChar (c : Z)
  | PShort (e : Z)
  | PUnit (h : str)
  | PPair (hi lo : str).

Definition hex_quad (h : str) : Prop := length h = 4%nat /\ Forall (fun b => is_Some (hex_digit b)) h.

Definition hex_value (h : str) : Z := foldl (fun v b => v * 16 + default 0 (hex_digit b)) 0 h.

Definition scalar (c : Z) : Prop := 0 <= c <= 1114111 /\ ~ 55296 <= c <= 57343.

Definition piece_wf (p : Piece) : Prop :=
  match p with
  | PChar c => scalar c /\ 32 <= c /\ c <> 34 /\ c <> 92
  | PShort e => is_Some (short_escape e)
  | PUnit h => hex_quad h /\ ~ 55296 <= hex_value h <= 57343
  | PPair hi lo =>
      hex_quad hi /\ hex_quad lo /\ 55296 <= hex_value hi <= 56319 /\ 56320 <= hex_value lo <= 57343
  end.

Definition piece_text (p : Piece) : str :=
  match p with
  | PChar c => encode_utf8 c
  | PShort e => [BACKSLASH; e]
  | PUnit h => BACKSLASH :: 117 :: h
  | PPair hi lo => BACKSLASH :: 117 :: hi ++ BACKSLASH :: 117 :: lo
  end.

Definition piece_char (p : Piece) : Z :=
  match p with
  | PChar c => c
  | PShort e => default 0 (short_escape e)
  | PUnit h => hex_value h
  | PPair hi lo => 65536 + (hex_value hi - 55296) * 1024 + (hex_value lo - 56320)
  end.

Definition body_text (ps : list Piece) : str := ps ≫= piece_text.
Definition body_chars (ps : list Piece) : str := ps ≫= (fun p => encode_utf8 (piece_char p)).

(** *** Hexadecimal numbers *)

Lemma hex_digit_range b d : hex_digit b = Some d -> 0 <= d <= 15 /\ b <> 43 /\ b <> 34 /\ b <> 92.
Proof. unfold hex_digit. repeat case_match; intros [= <-] || intros [=]; lia. Qed.

Lemma parse_hex_value m acc h :
  Forall (fun b => is_Some (hex_digit b)) h -> 0 <= acc ->
  (acc + 1) * 16 ^ Z.of_nat (length h) <= m + 1 ->
  parse_hex m acc h = Some (foldl (fun v b => v * 16 + default 0 (hex_digit b)) acc h).
Proof.
  intros Hh. revert acc. induction Hh as [|b h [d Hd] Hh IH]; intros acc H0 Hm; [done|].
  cbn [parse_hex foldl]. rewrite Hd. change (default 0 (Some d)) with d. destruct (hex_digit_range _ _ Hd) as [Hr _].
  rewrite length_cons, Nat2Z.inj_succ, Z.pow_succ_r in Hm by lia.
  pose proof (Z.pow_pos_nonneg 16 (Z.of_nat (length h))) as Hp. specialize (Hp ltac:(lia) ltac:(lia)).
  assert ((acc * 16 + d + 1) * 16 ^ Z.of_nat (length h) <= m + 1) by nia.
  replace (acc * 16 + d <=? m) with true by (symmetry; apply Z.leb_le; nia).
  apply IH; [lia|done].
Qed.

Lemma hex_value_range h : hex_quad h -> 0 <= hex_value h <= 65535.
Proof.
  intros [Hl Hf]. do 5 (destruct h as [|? h]; try done).
  repeat match goal with H : Forall _ (_ :: _) |- _ => apply Forall_cons in H as [[? ?] H] end.
  unfold hex_value. cbn [foldl].
  repeat match goal with H : hex_digit _ = Some _ |- _ =>
    destruct (hex_digit_range _ _ H) as [? _]; rewrite H; clear H end.
  simpl. lia.
Qed.

Lemma u16_from_quad h : hex_quad h -> u16_from_hex h = Some (hex_value h).
Proof.
  intros [Hl Hf]. destruct h as [|b h]; [done|]. unfold u16_from_hex.
  assert (b <> 43) by (apply Forall_cons in Hf as [[d Hd] _]; apply hex_digit_range in Hd; tauto).
  replace (b =? 43) with false by (symmetry; by apply Z.eqb_neq).
  apply parse_hex_value; [done|done|]. rewrite Hl. vm_compute. done.
Qed.

(** *** UTF-8 *)

Lemma char_from_scalar c : scalar c -> char_from_u32 c = Some c.
Proof. intros [? ?]. unfold char_from_u32. case_match eqn:E; [lia|done]. Qed.

Lemma encode_length c : (1 <= length (encode_utf8 c))%nat /\ (c < 65536 -> (length (encode_utf8 c) <= 3)%nat)
  /\ (length (encode_utf8 c) <= 4)%nat.
Proof. unfold encode_utf8. repeat case_match; simpl; lia. Qed.

Lemma encode_valid c r : scalar c -> utf8_valid (encode_utf8 c ++ r) = utf8_valid r.
Proof.
  intros [Hc Hs]. unfold encode_utf8.
  destruct (c <? 128) eqn:E1; [|destruct (c <? 2048) eqn:E2; [|destruct (c <? 65536) eqn:E3]];
    cbn [utf8_valid app]; unfold cont_byte.
  - by replace ((0 <=? c) && (c <=? 127)) with true by lia.
  - pose proof (Z.mod_pos_bound c 64). pose proof (Z.div_mod c 64).
    replace ((0 <=? 192 + c / 64) && (192 + c / 64 <=? 127)) with false by lia.
    replace ((194 <=? 192 + c / 64) && (192 + c / 64 <=? 223)) with true by lia.
    by replace ((128 <=? 128 + c mod 64) && (128 + c mod 64 <=? 191)) with true by lia.
  - pose proof (Z.mod_pos_bound c 64). pose proof (Z.mod_pos_bound (c / 64) 64).
    pose proof (Z.div_mod c 64). pose proof (Z.div_mod (c / 64) 64).
    assert (c / 4096 = c / 64 / 64) as -> by (rewrite Z.div_div by lia; done).
    replace ((0 <=? 224 + c / 64 / 64) && (224 + c / 64 / 64 <=? 127)) with false by lia.
    replace ((194 <=? 224 + c / 64 / 64) && (224 + c / 64 / 64 <=? 223)) with false by lia.
    replace ((224 <=? 224 + c / 64 / 64) && (224 + c / 64 / 64 <=? 239)) with true by lia.
    match goal with |- ?x && utf8_valid r = _ => replace x with true; [done|] end.
    symmetry. repeat (apply andb_true_intro; split); try apply orb_true_iff; try lia.
  - pose proof (Z.mod_pos_bound c 64). pose proof (Z.mod_pos_bound (c / 64) 64).
    pose proof (Z.mod_pos_bound (c / 64 / 64) 64).
    pose proof (Z.div_mod c 64). pose proof (Z.div_mod (c / 64) 64). pose proof (Z.div_mod (c / 64 / 64) 64).
    assert (c / 4096 = c / 64 / 64) as -> by (rewrite Z.div_div by lia; done).
    assert (c / 262144 = c / 64 / 64 / 64) as -> by (rewrite !Z.div_div by lia; done).
    set (x := c / 64 / 64 / 64) in *.
    replace ((0 <=? 240 + x) && (240 + x <=? 127)) with false by lia.
    replace ((194 <=? 240 + x) && (240 + x <=? 223)) with false by lia.
    replace ((224 <=? 240 + x) && (240 + x <=? 239)) with false by lia.
    match goal with |- ?x && utf8_valid r = _ => replace x with true; [done|] end.
    symmetry. repeat (apply andb_true_intro; split); try apply orb_true_iff; try lia.
Qed.

(** *** The decoder *)

Lemma unicode_escape_cut s bs n :
  unicode_escape s = Some (bs, n) ->
  (6 <= n)%nat /\ (length bs <= n)%nat /\ ((6 <= length s)%nat -> (n <= length s)%nat).
Proof.
  unfold unicode_escape. destruct (u16_from_hex (slice 2 6 s)) as [hex|]; [|done]. cbv zeta.
  match goal with |- match ?x with Some _ => _ | None => _ end = _ -> _ => destruct x eqn:Ep end;
    [|destruct (char_from_u32 hex); [|done]]; intros [= <- <-];
    match goal with |- context [encode_utf8 ?c] => pose proof (encode_length c) end; [|lia].
  destruct (11 <? Z.of_nat (length s)) eqn:El; [apply Z.ltb_lt in El; lia|].
  by rewrite andb_false_r in Ep.
Qed.

Lemma decode_fuel f g s : (length s <= f)%nat -> (length s <= g)%nat -> decode_loop f s = decode_loop g s.
Proof.
  revert g s. induction f as [|f IH]; intros g s Hf Hg; [by destruct s, g; simpl in *; try lia|].
  destruct g as [|g]; [destruct s; simpl in *; [done|lia]|].
  destruct s as [|b s1]; [done|]. cbn [decode_loop]. cbn [length] in Hf, Hg.
  destruct (b =? BACKSLASH); [destruct s1 as [|e s2]|]; [by rewrite (IH g) by lia| |by rewrite (IH g) by lia].
  cbn [length] in Hf, Hg. destruct (short_escape e); [by rewrite (IH g) by (simpl; lia)|].
  case_match eqn:E; [|by rewrite (IH g) by (simpl; lia)].
  destruct p as [bs n]. f_equal. apply IH; rewrite length_drop; cbn [length];
    destruct ((e =? 117) && _); try done; apply unicode_escape_cut in E; lia.
Qed.

Definition decode_text (s : str) : str := decode_loop (length s) s.

Lemma decode_into raw out : decode_json_escape_into raw out = out ++ decode_text raw.
Proof.
  unfold decode_json_escape_into. destruct (contains_byte BACKSLASH raw) eqn:E; [done|].
  simpl. f_equal. unfold decode_text. induction raw as [|b raw IH]; [done|].
  unfold contains_byte in E. cbn [existsb] in E. apply orb_false_iff in E as [E1 E2].
  cbn [decode_loop length]. rewrite Z.eqb_sym, E1. f_equal. by apply IH.
Qed.

Lemma decode_plain b s : b <> BACKSLASH -> decode_text (b :: s) = b :: decode_text s.
Proof. intros H. unfold decode_text. cbn [decode_loop length]. by apply Z.eqb_neq in H as ->. Qed.

Lemma decode_short e x s : short_escape e = Some x -> decode_text (BACKSLASH :: e :: s) = x :: decode_text s.
Proof.
  intros H. unfold decode_text. cbn [length]. remember (S (length s)) as n eqn:Hn. cbn [decode_loop].
  change (BACKSLASH =? BACKSLASH) with true. cbv iota beta. rewrite H. f_equal. apply decode_fuel; lia.
Qed.

Lemma decode_unicode s bs n :
  (4 <= length s)%nat -> unicode_escape (BACKSLASH :: 117 :: s) = Some (bs, n) ->
  decode_text (BACKSLASH :: 117 :: s) = bs ++ decode_text (drop n (BACKSLASH :: 117 :: s)).
Proof.
  intros Hl H. unfold decode_text at 1. cbn [length]. remember (S (length s)) as m eqn:Hm. cbn [decode_loop length].
  change (BACKSLASH =? BACKSLASH) with true. cbv iota beta.
  change (short_escape 117) with (@None Z). cbv iota beta.
  replace (5 <? Z.of_nat (S (S (length s)))) with true by (symmetry; apply Z.ltb_lt; lia). change ((117 =? 117) && true) with true. cbv iota. rewrite H.
  f_equal. apply decode_fuel; rewrite length_drop; [|lia]. simpl. apply unicode_escape_cut in H. lia.
Qed.

(** An escape never denotes more bytes than it takes. *)
Lemma decode_loop_length f s : (length (decode_loop f s) <= length s)%nat.
Proof.
  revert s. induction f as [|f IH]; intros s; [simpl; lia|].
  destruct s as [|b s1]; [done|]. cbn [decode_loop length].
  destruct (b =? BACKSLASH); [destruct s1 as [|e s2]|]; [cbn [length]; specialize (IH []); simpl in *; lia| |
    cbn [length]; specialize (IH s1); lia].
  destruct (short_escape e); [cbn [length]; specialize (IH s2); lia|].
  case_match eqn:E; [|cbn [length]; specialize (IH (e :: s2)); simpl in *; lia].
  destruct p as [bs n]. specialize (IH (drop n (b :: e :: s2))). rewrite length_app.
  rewrite length_drop in IH. cbn [length] in *.
  destruct ((e =? 117) && _) eqn:Eg; [|done]. apply andb_true_iff in Eg as [_ Eg%Z.ltb_lt].
  apply unicode_escape_cut in E. simpl in E. lia.
Qed.

Lemma decode_length s : (length (decode_text s) <= length s)%nat.
Proof. apply decode_loop_length. Qed.

Lemma slice_quad a b h r : length h = 4%nat -> slice 2 6 (a :: b :: h ++ r) = h.
Proof. intros H. change (take 4 (h ++ r) = h). by rewrite take_app_length' by lia. Qed.

Lemma pair_char hi lo : 0 <= lo < 1024 -> Z.lor (Z.shiftl hi 10) lo = hi * 1024 + lo.
Proof. intros H. by apply lor_shiftl_add. Qed.

Lemma unicode_unit h r :
  hex_quad h -> ~ 55296 <= hex_value h <= 57343 ->
  unicode_escape (BACKSLASH :: 117 :: h ++ r) = Some (encode_utf8 (hex_value h), 6%nat).
Proof.
  intros Hq Hs. unfold unicode_escape.
  rewrite slice_quad, u16_from_quad by apply Hq. pose proof (hex_value_range h Hq).
  replace ((55296 <=? hex_value h) && (hex_value h <=? 56319)) with false by lia. simpl.
  by rewrite char_from_scalar by (split; lia).
Qed.

Lemma unicode_pair hi lo r :
  piece_wf (PPair hi lo) ->
  unicode_escape (BACKSLASH :: 117 :: hi ++ BACKSLASH :: 117 :: lo ++ r)
  = Some (encode_utf8 (piece_char (PPair hi lo)), 12%nat).
Proof.
  intros (Hq & Hq' & Hs & Hs'). unfold unicode_escape.
  rewrite slice_quad, u16_from_quad by apply Hq.
  replace ((55296 <=? hex_value hi) && (hex_value hi <=? 56319)) with true by lia.
  replace (11 <? _) with true
    by (symmetry; apply Z.ltb_lt; destruct Hq, Hq'; cbn [length]; rewrite length_app; cbn [length]; rewrite length_app; lia).
  assert (forall k, drop (6 + k) (BACKSLASH :: 117 :: hi ++ BACKSLASH :: 117 :: lo ++ r)
    = drop k (BACKSLASH :: 117 :: lo ++ r)) as Hd.
  { intros k. destruct Hq as [Hl _].
    change (drop (4 + k) (hi ++ BACKSLASH :: 117 :: lo ++ r) = drop k (BACKSLASH :: 117 :: lo ++ r)).
    rewrite drop_app_ge by lia. f_equal. lia. }
  unfold slice. pose proof (Hd 0%nat) as Hd0. pose proof (Hd 2%nat) as Hd2.
  change (6 + 0)%nat with 6%nat in Hd0. change (6 + 2)%nat with 8%nat in Hd2. rewrite Hd0, Hd2.
  rewrite bool_decide_true by done. cbn [andb].
  change (drop 2 (BACKSLASH :: 117 :: lo ++ r)) with (lo ++ r).
  rewrite (take_app_length' lo r (12 - 8)) by (destruct Hq'; lia). rewrite u16_from_quad by done.
  replace ((56320 <=? hex_value lo) && (hex_value lo <=? 57343)) with true by lia.
  rewrite pair_char by lia. rewrite char_from_scalar by (split; lia).
  cbn [piece_char]. by rewrite Z.add_assoc.
Qed.

Lemma encode_no_escape c b :
  scalar c -> 32 <= c -> c <> 34 -> c <> 92 -> b ∈ encode_utf8 c -> b <> BACKSLASH /\ b <> DQUOTE /\ 32 <= b.
Proof.
  intros [Hc _] H1 H2 H3 Hb. unfold encode_utf8, BACKSLASH, DQUOTE in *.
  pose proof (Z.mod_pos_bound c 64). pose proof (Z.mod_pos_bound (c / 64) 64). pose proof (Z.mod_pos_bound (c / 4096) 64).
  pose proof (Z.div_pos c 64). pose proof (Z.div_pos c 4096). pose proof (Z.div_pos c 262144).
  repeat case_match; repeat (apply elem_of_cons in Hb as [->|Hb]); try lia; by apply not_elem_of_nil in Hb.
Qed.

Lemma decode_plain_app s r : BACKSLASH ∉ s -> decode_text (s ++ r) = s ++ decode_text r.
Proof.
  induction s as [|b s IH]; intros H; [done|]. apply not_elem_of_cons in H as [H1 H2].
  simpl. by rewrite decode_plain, IH.
Qed.

Lemma decode_piece p r : piece_wf p -> decode_text (piece_text p ++ r) = encode_utf8 (piece_char p) ++ decode_text r.
Proof.
  destruct p as [c|e|h|hi lo]; cbn [piece_text]; intros Hp.
  - destruct Hp as (Hc & H1 & H2 & H3). apply decode_plain_app. intros Hb.
    by apply encode_no_escape in Hb as [? _].
  - destruct Hp as [x Hx]. cbn [app]. rewrite (decode_short e x) by done. cbn [piece_char]. rewrite Hx.
    assert (encode_utf8 x = [x]) as Hxx; [|by simpl; rewrite Hxx].
    unfold short_escape in Hx. repeat case_match; by simplify_eq.
  - destruct Hp as [Hq Hs]. rewrite <- !app_comm_cons.
    erewrite decode_unicode; [|destruct Hq as [Hl _]; rewrite length_app; lia|by apply unicode_unit].
    f_equal. f_equal. simpl. destruct Hq as [Hl _]. by rewrite drop_app_length' by lia.
  - rewrite <- !app_comm_cons, <- app_assoc, <- !app_comm_cons.
    erewrite decode_unicode; [|destruct Hp as [[Hl _] _]; rewrite length_app; lia|by apply unicode_pair].
    f_equal. f_equal. destruct Hp as ([Hl _] & [Hl' _] & _). simpl.
    rewrite drop_app_ge by lia. rewrite Hl. simpl. by rewrite drop_app_length' by lia.
Qed.

Lemma decode_body ps r : Forall piece_wf ps -> decode_text (body_text ps ++ r) = body_chars ps ++ decode_text r.
Proof.
  unfold body_text, body_chars. induction 1 as [|p ps Hp Hps IH]; [done|]. csimpl.
  by rewrite <- !app_assoc, decode_piece, IH.
Qed.

(** ** The scanner against the structure of the object

    The text of an object, member by member.  What is inside a nested value
    only has to be balanced outside its strings, which every JSON text is. *)

Fixpoint body_ok (s : str) : bool :=
  match s with
  | [] => true
  | b :: s1 =>
      if b =? DQUOTE then false
      else if b =? BACKSLASH then match s1 with [] => false | _ :: s2 => body_ok s2 end
      else body_ok s1
  end.

Definition plain (b : Z) : bool := negb (opens b || closes b || (b =? DQUOTE)).

Inductive balanced : str -> Prop :=
  | bal_nil : balanced []
  | bal_plain b s : plain b = true -> balanced s -> balanced (b :: s)
  | bal_str t s : body_ok t = true -> balanced s -> balanced (DQUOTE :: t ++ DQUOTE :: s)
  | bal_nest o s1 c s2 :
      opens o = true -> closes c = true -> balanced s1 -> balanced s2 -> balanced (o :: s1 ++ c :: s2).

Inductive ValueText :=
  | VAtom (s : str)
  | VStr (t : str)
  | VNest (o : Z) (s : str) (c : Z).

Definition atom_byte (b : Z) : Prop := plain b = true /\ is_ascii_whitespace b = false /\ b <> 58.

Definition value_ok (v : ValueText) : Prop :=
  match v with
  | VAtom s => s <> [] /\ Forall atom_byte s
  | VStr t => body_ok t = true
  | VNest o s c => opens o = true /\ closes c = true /\ balanced s
  end.

Definition value_text (v : ValueText) : str :=
  match v with
  | VAtom s => s
  | VStr t => DQUOTE :: t ++ [DQUOTE]
  | VNest o s c => o :: s ++ [c]
  end.

Record Member := mkMember {
  m_key : str; m_value : ValueText;
  m_before : str; m_after_key : str; m_before_value : str; m_after : str
}.

Definition blank (w : str) : Prop := Forall (fun b => is_ascii_whitespace b = true) w.

Definition member_ok (m : Member) : Prop :=
  body_ok (m_key m) = true /\ value_ok (m_value m)
  /\ blank (m_before m) /\ blank (m_after_key m) /\ blank (m_before_value m) /\ blank (m_after m).

Definition member_text (m : Member) : str :=
  m_before m ++ DQUOTE :: m_key m ++ DQUOTE :: m_after_key m ++ 58 :: m_before_value m
  ++ value_text (m_value m) ++ m_after m.

Fixpoint members_text (ms : list Member) : str :=
  match ms with
  | [] => []
  | [m] => member_text m
  | m :: ms' => member_text m ++ 44 :: members_text ms'
  end.

(** The first member of that name, if it is a string. *)
Fixpoint first_member (key : str) (ms : list Member) : option str :=
  match ms with
  | [] => None
  | m :: ms' =>
      if bool_decide (m_key m = key) then match m_value m with VStr t => Some t | _ => None end
      else first_member key ms'
  end.

(** *** White space and strings *)

Lemma skip_ws_blank w s : blank w -> skip_ws (w ++ s) = skip_ws s.
Proof. induction 1 as [|b w Hb Hw IH]; [done|]. simpl. by rewrite Hb. Qed.

Lemma skip_ws_length s : (length (skip_ws s) <= length s)%nat.
Proof. induction s as [|b s IH]; [done|]. simpl. destruct (is_ascii_whitespace b); simpl; lia. Qed.

Lemma after_length b s v : after b s = Some v -> length s = S (length v).
Proof. destruct s as [|x s]; simpl; [done|]. case_match; [|done]. by intros [= ->]. Qed.

Lemma after_cons b s : after b (b :: s) = Some s.
Proof. simpl. by rewrite Z.eqb_refl. Qed.

Lemma after_ws_length b s v : after b (skip_ws s) = Some v -> (length v < length s)%nat.
Proof. intros H%after_length. pose proof (skip_ws_length s). lia. Qed.

Lemma body_ind (P : str -> Prop) :
  P [] -> (forall b s, (b =? DQUOTE) = true -> P (b :: s)) ->
  (forall b, (b =? DQUOTE) = false -> (b =? BACKSLASH) = true -> P [b]) ->
  (forall b e s, (b =? DQUOTE) = false -> (b =? BACKSLASH) = true -> P s -> P (b :: e :: s)) ->
  (forall b s, (b =? DQUOTE) = false -> (b =? BACKSLASH) = false -> P s -> P (b :: s)) ->
  forall s, P s.
Proof.
  intros H1 H2 H3 H4 H5 s. remember (length s) as n eqn:Hn. assert (length s <= n)%nat as Hl by lia. clear Hn.
  revert s Hl. induction n as [|n IH]; intros s Hl; (destruct s as [|b s]; [done|]); [simpl in Hl; lia|].
  destruct (b =? DQUOTE) eqn:E1; [by apply H2|]. destruct (b =? BACKSLASH) eqn:E2.
  - destruct s as [|e s]; [by apply H3|]. apply H4; [done|done|]. apply IH. simpl in Hl. lia.
  - apply H5; [done|done|]. apply IH. simpl in Hl. lia.
Qed.

Lemma string_end_body t r : body_ok t = true -> string_end (t ++ DQUOTE :: r) = Some (length t).
Proof.
  induction t as [|b s Hb|b H1 H2|b e s H1 H2 IH|b s H1 H2 IH] using body_ind; simpl; intros H; [done|..].
  - by rewrite Hb in H.
  - by rewrite H1, H2 in H.
  - rewrite H1, H2 in *. by rewrite IH.
  - rewrite H1, H2 in *. by rewrite IH.
Qed.

Lemma string_end_length s n : string_end s = Some n -> (n < length s)%nat.
Proof.
  revert n. induction s as [|b s Hb|b H1 H2|b e s H1 H2 IH|b s H1 H2 IH] using body_ind; simpl; intros n H; [done|..].
  - rewrite Hb in H. injection H as <-. lia.
  - by rewrite H1, H2 in H.
  - rewrite H1, H2 in H. destruct (string_end s); [|done]. injection H as <-. specialize (IH _ eq_refl). lia.
  - rewrite H1, H2 in H. destruct (string_end s); [|done]. injection H as <-. specialize (IH _ eq_refl). lia.
Qed.

(** *** One step of the scan *)

Lemma scan_fuel n m s d sc sr f :
  (length s <= n)%nat -> (length s <= m)%nat -> scan_fields n s d sc sr f = scan_fields m s d sc sr f.
Proof.
  revert m s d sc sr f. induction n as [|n IH]; intros m s d sc sr f Hn Hm; [by destruct s, m; simpl in *; try lia|].
  destruct m as [|m]; [destruct s; simpl in *; [done|lia]|].
  destruct s as [|b s1]; [done|]. cbn [scan_fields]. cbn [length] in Hn, Hm.
  destruct (d =? 0)%nat; [done|]. destruct (opens b); [apply IH; lia|]. destruct (closes b); [apply IH; lia|].
  destruct (b =? DQUOTE); [|apply IH; lia]. destruct (string_end s1) as [e|]; [|done].
  assert (length (drop (S e) s1) <= length s1)%nat as Hi by (rewrite length_drop; lia).
  destruct (after 58 _) as [v|] eqn:Ev; [|apply IH; lia]. apply after_ws_length in Ev.
  pose proof (skip_ws_length v) as Hv. destruct (negb _); [apply IH; lia|].
  destruct (destination _ _ _) as [dst|]; [|apply IH; lia].
  destruct (after DQUOTE _) as [body|] eqn:Eb.
  - apply after_length in Eb. destruct (string_end body) as [e'|]; [|done]. case_match; [done|].
    apply IH; rewrite length_drop; lia.
  - case_match; [done|]. apply IH; lia.
Qed.

Definition run (s : str) : nat -> bool -> bool -> DeltaFields -> DeltaFields := scan_fields (length s) s.

Lemma run_done s sc sr f : run s 0 sc sr f = f.
Proof. by destruct s. Qed.

Lemma run_plain b s d sc sr f : plain b = true -> run (b :: s) d sc sr f = run s d sc sr f.
Proof.
  unfold plain. rewrite negb_true_iff, !orb_false_iff. intros [[H1 H2] H3].
  destruct d; [by rewrite !run_done|]. unfold run. cbn [length scan_fields]. by rewrite H1, H2, H3.
Qed.

Lemma run_open b s d sc sr f : opens b = true -> (d <> 0)%nat -> run (b :: s) d sc sr f = run s (S d) sc sr f.
Proof. intros H Hd. unfold run. cbn [length scan_fields]. destruct d; [done|]. cbn [Nat.eqb]. by rewrite H. Qed.

Lemma run_close b s d sc sr f : closes b = true -> (d <> 0)%nat -> run (b :: s) d sc sr f = run s (pred d) sc sr f.
Proof.
  intros H Hd. unfold run. cbn [length scan_fields]. destruct d; [done|]. cbn [Nat.eqb].
  assert (opens b = false) as -> by (unfold opens, closes in *; lia). by rewrite H.
Qed.

Lemma ws_plain b : is_ascii_whitespace b = true -> plain b = true.
Proof. unfold is_ascii_whitespace, plain, opens, closes, DQUOTE. lia. Qed.

Lemma run_blank w s d sc sr f : blank w -> run (w ++ s) d sc sr f = run s d sc sr f.
Proof. induction 1 as [|b w Hb Hw IH]; [done|]. simpl. rewrite run_plain by (by apply ws_plain). done. Qed.

Lemma run_skip_ws s d sc sr f : run (skip_ws s) d sc sr f = run s d sc sr f.
Proof.
  induction s as [|b s IH]; [done|]. simpl. destruct (is_ascii_whitespace b) eqn:E; [|done].
  rewrite IH. by rewrite run_plain by (by apply ws_plain).
Qed.

(** The value of a member of depth one whose name is being looked for. *)
Definition run_field (dst : Destination) (value : str) (sc sr : bool) (f : DeltaFields) : DeltaFields :=
  let sc' := sc || match dst with ToContent => true | ToReasoning => false end in
  let sr' := sr || match dst with ToContent => false | ToReasoning => true end in
  match after DQUOTE value with
  | Some body =>
      match string_end body with
      | None => f
      | Some e' =>
          let f' := store_field dst (take e' body) f in
          if sc' && sr' then f' else run (drop (S e') body) 1 sc' sr' f'
      end
  | None => if sc' && sr' then f else run value 1 sc' sr' f
  end.

Lemma run_string t r d sc sr f :
  body_ok t = true -> (d <> 0)%nat ->
  run (DQUOTE :: t ++ DQUOTE :: r) d sc sr f =
  match after 58 (skip_ws r) with
  | None => run r d sc sr f
  | Some v =>
      if negb (d =? 1)%nat then run (skip_ws v) d sc sr f
      else match destination t sc sr with
           | None => run (skip_ws v) d sc sr f
           | Some dst => run_field dst (skip_ws v) sc sr f
           end
  end.
Proof.
  intros Ht Hd. unfold run at 1. cbn [length scan_fields]. destruct d as [|d]; [done|]. cbn [Nat.eqb].
  change (opens DQUOTE) with false. change (closes DQUOTE) with false. change (DQUOTE =? DQUOTE) with true. cbv iota.
  rewrite string_end_body by done. cbv zeta. rewrite take_app_length.
  replace (drop (S (length t)) (t ++ DQUOTE :: r)) with r
    by (rewrite drop_app_ge by lia; by replace (S (length t) - length t)%nat with 1%nat by lia).
  assert (length r <= length (t ++ DQUOTE :: r))%nat as Hr by (rewrite length_app; simpl; lia).
  destruct (after 58 (skip_ws r)) as [v|] eqn:Ev; [|apply scan_fuel; lia].
  apply after_ws_length in Ev. pose proof (skip_ws_length v) as Hv.
  destruct (negb _) eqn:Ed; [apply scan_fuel; lia|]. apply negb_false_iff, Nat.eqb_eq in Ed. subst d.
  destruct (destination t sc sr) as [dst|]; [|apply scan_fuel; lia].
  unfold run_field. destruct (after DQUOTE (skip_ws v)) as [body|] eqn:Eb.
  - apply after_length in Eb. destruct (string_end body) as [e'|]; [|done]. case_match; [done|].
    apply scan_fuel; rewrite length_drop; lia.
  - case_match; [done|]. apply scan_fuel; lia.
Qed.

Lemma run_string_deep t r d sc sr f :
  body_ok t = true -> (1 < d)%nat -> run (DQUOTE :: t ++ DQUOTE :: r) d sc sr f = run r d sc sr f.
Proof.
  intros Ht Hd. rewrite run_string by (done || lia).
  assert (negb (d =? 1)%nat = true) as -> by (apply negb_true_iff, Nat.eqb_neq; lia).
  destruct (after 58 (skip_ws r)) as [v|] eqn:Ev; [|done].
  rewrite run_skip_ws. rewrite <- (run_skip_ws r).
  destruct (skip_ws r) as [|x s]; [done|]. simpl in Ev. destruct (x =? 58) eqn:Ex; [|done].
  injection Ev as ->. apply Z.eqb_eq in Ex as ->. by rewrite run_plain.
Qed.

(** Inside a nested value nothing is read. *)
Lemma run_balanced s r d sc sr f :
  balanced s -> (1 < d)%nat -> run (s ++ r) d sc sr f = run r d sc sr f.
Proof.
  intros Hs. revert r d. induction Hs as [|b s Hb Hs IH|t s Ht Hs IH|o s1 c s2 Ho Hc H1 IH1 H2 IH2]; intros r d Hd.
  - done.
  - simpl. rewrite run_plain by done. by apply IH.
  - cbn [app]. rewrite <- app_assoc. cbn [app]. rewrite run_string_deep by done. by apply IH.
  - cbn [app]. rewrite <- app_assoc. cbn [app]. rewrite run_open by (done || lia).
    rewrite IH1 by lia. rewrite run_close by (done || lia). by apply IH2.
Qed.

(** A value at depth one that is not looked for is skipped. *)
Lemma run_value v r sc sr f :
  value_ok v -> after 58 (skip_ws r) = None -> run (value_text v ++ r) 1 sc sr f = run r 1 sc sr f.
Proof.
  destruct v as [s|t|o s c]; cbn [value_ok value_text]; intros Hv Hr.
  - destruct Hv as [_ Hv]. induction Hv as [|b s [Hb _] Hs IH]; [done|]. simpl. by rewrite run_plain.
  - rewrite <- app_comm_cons, <- app_assoc. cbn [app]. rewrite run_string by done. by rewrite Hr.
  - destruct Hv as (Ho & Hc & Hs). rewrite <- app_comm_cons, <- app_assoc. cbn [app].
    rewrite run_open, run_balanced, run_close by (done || lia). done.
Qed.

(** Not a string, and not white space or a colon first. *)
Lemma value_text_head v r :
  value_ok v ->
  skip_ws (value_text v ++ r) = value_text v ++ r
  /\ after DQUOTE (value_text v ++ r) = match v with VStr t => Some (t ++ DQUOTE :: r) | _ => None end.
Proof.
  destruct v as [s|t|o s c]; cbn [value_ok value_text]; intros Hv.
  - destruct Hv as [Hn Hv]. destruct s as [|b s]; [done|]. apply Forall_cons in Hv as [(Hb & Hw & _) _].
    simpl. rewrite Hw. split; [done|]. by replace (b =? DQUOTE) with false by (unfold plain in Hb; lia).
  - simpl. rewrite <- app_assoc. done.
  - destruct Hv as (Ho & _). simpl.
    replace (is_ascii_whitespace o) with false by (unfold is_ascii_whitespace, opens in *; lia).
    by replace (o =? DQUOTE) with false by (unfold opens, DQUOTE in *; lia).
Qed.

Lemma destination_spec key sc sr dst :
  destination key sc sr = Some dst ->
  match dst with
  | ToContent => key = bytes_of "content" /\ sc = false
  | ToReasoning => key = bytes_of "reasoning_content" /\ sr = false
  end.
Proof.
  unfold destination. destruct (bool_decide (key = bytes_of "content") && negb sc) eqn:E1.
  - intros [= <-]. apply andb_true_iff in E1 as [E1%bool_decide_eq_true ->%negb_true_iff]. done.
  - destruct (bool_decide _ && negb sr) eqn:E2; [|done].
    intros [= <-]. apply andb_true_iff in E2 as [E2%bool_decide_eq_true ->%negb_true_iff]. done.
Qed.

Lemma destination_none key sc sr :
  destination key sc sr = None ->
  (key = bytes_of "content" -> sc = true) /\ (key = bytes_of "reasoning_content" -> sr = true).
Proof.
  unfold destination. destruct (bool_decide (key = bytes_of "content") && negb sc) eqn:E1; [done|].
  destruct (bool_decide (key = bytes_of "reasoning_content") && negb sr) eqn:E2; [done|]. intros _.
  split; intros Hk; rewrite bool_decide_true in * by done; cbn [andb] in *; by apply negb_false_iff.
Qed.

(** *** The members in order *)

(** The fields once the rest of the members have been read. *)
Definition expected (ms : list Member) (sc sr : bool) (f : DeltaFields) : DeltaFields :=
  mkFields (if sc then df_content f else first_member (bytes_of "content") ms)
           (if sr then df_reasoning f else first_member (bytes_of "reasoning_content") ms).

Definition unseen_empty (sc sr : bool) (f : DeltaFields) : Prop :=
  (sc = false -> df_content f = None) /\ (sr = false -> df_reasoning f = None).

(** What a member named [dst] leaves in the fields. *)
Definition read_value (dst : Destination) (v : ValueText) (f : DeltaFields) : DeltaFields :=
  match v with VStr t => store_field dst t f | _ => f end.

Lemma run_field_value dst v r sc sr f :
  value_ok v -> after 58 (skip_ws r) = None ->
  run_field dst (value_text v ++ r) sc sr f =
  let sc' := sc || match dst with ToContent => true | ToReasoning => false end in
  let sr' := sr || match dst with ToContent => false | ToReasoning => true end in
  if sc' && sr' then read_value dst v f else run r 1 sc' sr' (read_value dst v f).
Proof.
  intros Hv Hr. unfold run_field. cbv zeta. destruct (value_text_head v r Hv) as [_ ->].
  destruct v as [s|t|o s c]; cbn [read_value]; [by rewrite run_value| |by rewrite run_value].
  rewrite string_end_body by done. rewrite take_app_length.
  rewrite drop_app_ge by lia. by replace (S (length t) - length t)%nat with 1%nat by lia.
Qed.

Lemma run_member m r sc sr f :
  member_ok m -> after 58 (skip_ws r) = None ->
  run (member_text m ++ r) 1 sc sr f =
  match destination (m_key m) sc sr with
  | None => run r 1 sc sr f
  | Some dst =>
      let sc' := sc || match dst with ToContent => true | ToReasoning => false end in
      let sr' := sr || match dst with ToContent => false | ToReasoning => true end in
      if sc' && sr' then read_value dst (m_value m) f else run r 1 sc' sr' (read_value dst (m_value m) f)
  end.
Proof.
  intros (Hk & Hv & H0 & H1 & H2 & H3) Hr. unfold member_text.
  rewrite <- app_assoc, run_blank by done. rewrite <- app_comm_cons, <- app_assoc, <- app_comm_cons.
  rewrite run_string by done. rewrite <- app_assoc, skip_ws_blank by done.
  rewrite <- app_comm_cons. change (skip_ws (58 :: ?s)) with (58 :: s). rewrite after_cons.
  rewrite <- !app_assoc, skip_ws_blank by done.
  assert (after 58 (skip_ws (m_after m ++ r)) = None) as Hr' by (by rewrite skip_ws_blank).
  rewrite (proj1 (value_text_head _ _ Hv)). cbn [Nat.eqb negb].
  destruct (destination _ _ _) as [dst|].
  - rewrite run_field_value by done. cbv zeta. case_match; [done|]. by rewrite run_blank.
  - rewrite run_value by done. by rewrite run_blank.
Qed.

Lemma expected_both ms f : expected ms true true f = f.
Proof. by destruct f. Qed.

Lemma expected_member m ms sc sr f :
  unseen_empty sc sr f ->
  match destination (m_key m) sc sr with
  | None => expected (m :: ms) sc sr f = expected ms sc sr f
  | Some dst =>
      let sc' := sc || match dst with ToContent => true | ToReasoning => false end in
      let sr' := sr || match dst with ToContent => false | ToReasoning => true end in
      expected (m :: ms) sc sr f = expected ms sc' sr' (read_value dst (m_value m) f)
      /\ unseen_empty sc' sr' (read_value dst (m_value m) f)
  end.
Proof.
  intros [Hc Hr]. unfold expected, unseen_empty. cbn [first_member].
  destruct (destination (m_key m) sc sr) as [[]|] eqn:E; cbv zeta.
  - apply destination_spec in E as [-> ->]. rewrite bool_decide_true, bool_decide_false by done.
    specialize (Hc eq_refl). rewrite orb_true_r, orb_false_r.
    destruct (m_value m); cbn [read_value store_field df_content df_reasoning]; rewrite ?Hc; by split_and!.
  - apply destination_spec in E as [-> ->]. rewrite bool_decide_false, bool_decide_true by done.
    specialize (Hr eq_refl). rewrite orb_true_r, orb_false_r.
    destruct (m_value m); cbn [read_value store_field df_content df_reasoning]; rewrite ?Hr; by split_and!.
  - apply destination_none in E as [E1 E2]. destruct sc, sr; rewrite ?bool_decide_false; try done; naive_solver.
Qed.

Lemma run_members ms post sc sr f :
  Forall member_ok ms -> unseen_empty sc sr f ->
  run (members_text ms ++ 125 :: post) 1 sc sr f = expected ms sc sr f.
Proof.
  intros Hms. revert sc sr f. induction Hms as [|m ms Hm Hms IH]; intros sc sr f Hu.
  - cbn [members_text app]. rewrite run_close, run_done by done.
    destruct Hu as [Hc Hr]. unfold expected. simpl. destruct f as [c r], sc, sr; simpl in *; f_equal; naive_solver.
  - assert (exists r, members_text (m :: ms) ++ 125 :: post = member_text m ++ r
      /\ after 58 (skip_ws r) = None
      /\ forall sc sr f, run r 1 sc sr f = run (members_text ms ++ 125 :: post) 1 sc sr f) as (r & -> & Hr & Hrun).
    { destruct ms as [|m' ms]; [by exists (125 :: post)|].
      exists (44 :: members_text (m' :: ms) ++ 125 :: post). split; [|split; [done|]].
      - change (members_text (m :: m' :: ms)) with (member_text m ++ 44 :: members_text (m' :: ms)).
        by rewrite <- app_assoc.
      - intros. by rewrite run_plain. }
    rewrite run_member by done. pose proof (expected_member m ms sc sr f Hu) as He.
    destruct (destination (m_key m) sc sr) as [dst|].
    + cbv zeta in *. destruct He as [-> Hu'].
      match goal with |- (if ?b then _ else _) = _ => destruct b eqn:Eb end.
      * apply andb_true_iff in Eb as [-> ->]. by rewrite expected_both.
      * rewrite Hrun. by apply IH.
    + rewrite He, Hrun. by apply IH.
Qed.

(** *** The delta object *)

Lemma find_sub_length p s n : find_sub p s = Some n -> (n + length p <= length s)%nat.
Proof.
  revert n. induction s as [|b s IH]; intros n; simpl; case_bool_decide as Hp.
  - intros [= <-]. by apply prefix_length in Hp.
  - done.
  - intros [= <-]. by apply prefix_length in Hp.
  - destruct (find_sub p s) as [k|]; [|done]. intros [= <-]. specialize (IH k eq_refl). simpl. lia.
Qed.

Lemma find_sub_app p s r n : find_sub p s = Some n -> find_sub p (s ++ r) = Some n.
Proof.
  revert n. induction s as [|b s IH]; intros n; simpl; case_bool_decide as Hp.
  - intros [= <-]. apply prefix_nil_inv in Hp as ->. by destruct r.
  - done.
  - intros [= <-]. rewrite bool_decide_true; [done|]. destruct Hp as [k Hk]. exists (k ++ r). by rewrite app_assoc, <- Hk.
  - destruct (find_sub p s) as [k|] eqn:E; [|done]. intros [= <-].
    rewrite bool_decide_false; [by rewrite (IH k)|]. intros [q Hq]. apply Hp.
    apply find_sub_length in E. exists (take (length (b :: s) - length p) q).
    apply (f_equal (take (length (b :: s)))) in Hq.
    change (b :: s ++ r) with ((b :: s) ++ r) in Hq. rewrite take_app_length in Hq.
    rewrite take_app_ge in Hq by (simpl; lia). done.
Qed.

Lemma find_delta_spec pre w1 w2 s :
  find_sub DELTA_KEY (pre ++ DELTA_KEY) = Some (length pre) -> blank w1 -> blank w2 ->
  find_delta_object (pre ++ DELTA_KEY ++ w1 ++ 58 :: w2 ++ 123 :: s) = Some s.
Proof.
  intros Hf H1 H2. unfold find_delta_object. cbn [find_delta_loop]. rewrite app_assoc.
  rewrite (find_sub_app _ _ _ _ Hf).
  assert (length (pre ++ DELTA_KEY) = (length pre + 7)%nat) as Hl by (by rewrite length_app).
  rewrite drop_app_length' by done. rewrite skip_ws_blank by done.
  change (skip_ws (58 :: ?s)) with (58 :: s). rewrite after_cons. cbn [mbind option_bind].
  rewrite skip_ws_blank by done. change (skip_ws (123 :: ?s)) with (123 :: s). by rewrite after_cons.
Qed.

Lemma extract_spec pre w1 w2 w ms post :
  find_sub DELTA_KEY (pre ++ DELTA_KEY) = Some (length pre) ->
  blank w1 -> blank w2 -> blank w -> Forall member_ok ms ->
  extract_delta_fields (pre ++ DELTA_KEY ++ w1 ++ 58 :: w2 ++ 123 :: w ++ members_text ms ++ 125 :: post)
  = mkFields (first_member (bytes_of "content") ms) (first_member (bytes_of "reasoning_content") ms).
Proof.
  intros Hf H1 H2 Hw Hms. unfold extract_delta_fields. rewrite find_delta_spec by done.
  change (run (w ++ members_text ms ++ 125 :: post) 1 false false (mkFields None None) = expected ms false false (mkFields None None)).
  rewrite run_blank by done. by apply run_members.
Qed.

Lemma body_ok_app a b : body_ok a = true -> body_ok (a ++ b) = body_ok b.
Proof.
  induction a as [|x s Hx|x H1 H2|x e s H1 H2 IH|x s H1 H2 IH] using body_ind; simpl; intros H; [done|..].
  - by rewrite Hx in H.
  - by rewrite H1, H2 in H.
  - rewrite H1, H2 in *. by apply IH.
  - rewrite H1, H2 in *. by apply IH.
Qed.

Lemma body_ok_plain s : (forall b, b ∈ s -> b <> BACKSLASH /\ b <> DQUOTE) -> body_ok s = true.
Proof.
  induction s as [|b s IH]; [done|]. intros H. simpl. destruct (H b) as [H1 H2]; [by left|].
  apply Z.eqb_neq in H1 as ->, H2 as ->. apply IH. intros x Hx. apply H. by right.
Qed.

Lemma body_ok_piece p : piece_wf p -> body_ok (piece_text p) = true.
Proof.
  assert (forall h, hex_quad h -> body_ok h = true) as Hq.
  { intros h [_ Hf]. apply body_ok_plain. intros b Hb. rewrite Forall_forall in Hf.
    apply list_elem_of_In in Hb. destruct (Hf b) as [d Hd]; [by apply list_elem_of_In|]. apply hex_digit_range in Hd.
    unfold BACKSLASH, DQUOTE. tauto. }
  destruct p as [c|e|h|hi lo]; intros Hp; cbn [piece_text].
  - destruct Hp as (Hc & H1 & H2 & H3). apply body_ok_plain. intros b Hb.
    apply encode_no_escape in Hb; tauto.
  - done.
  - destruct Hp as [Hh _]. change (body_ok h = true). by apply Hq.
  - destruct Hp as (Hh & Hl & _). change (body_ok (hi ++ BACKSLASH :: 117 :: lo) = true).
    rewrite body_ok_app by (by apply Hq). change (body_ok lo = true). by apply Hq.
Qed.

Lemma body_ok_text ps : Forall piece_wf ps -> body_ok (body_text ps) = true.
Proof.
  unfold body_text. induction 1 as [|p ps Hp Hps IH]; [done|]. csimpl.
  rewrite body_ok_app by (by apply body_ok_piece). done.
Qed.

Lemma piece_scalar p : piece_wf p -> scalar (piece_char p).
Proof.
  destruct p as [c|e|h|hi lo]; intros Hp; cbn [piece_char].
  - apply Hp.
  - destruct Hp as [x Hx]. rewrite Hx. simpl. unfold short_escape in Hx. repeat case_match; simplify_eq; split; lia.
  - destruct Hp as [Hh Hs]. apply hex_value_range in Hh. split; lia.
  - destruct Hp as (_ & _ & Hh & Hl). split; lia.
Qed.

Lemma body_chars_valid ps : Forall piece_wf ps -> utf8_valid (body_chars ps) = true.
Proof.
  unfold body_chars. induction 1 as [|p ps Hp Hps IH]; [done|]. csimpl.
  rewrite encode_valid by (by apply piece_scalar). done.
Qed.

(** ** Reasoning under other names: lemmas *)

Lemma assoc_get_filter k k' m :
  assoc_get k (filter (fun kv => kv.1 <> k') m) = if String.eqb k k' then None else assoc_get k m.
Proof.
  induction m as [|[a v] m IH]; [by destruct (String.eqb k k')|].
  rewrite filter_cons. case_decide as Ha; cbn [fst assoc_get] in *; rewrite ?IH.
  - destruct (String.eqb_spec a k) as [->|]; [|done]. by destruct (String.eqb_spec k k').
  - assert (a = k') as -> by (destruct (String.eqb_spec a k') as [->|Hn]; [done|by destruct Ha]).
    destruct (String.eqb_spec k k') as [->|Hn]; [done|].
    by destruct (String.eqb_spec k' k) as [->|].
Qed.

Lemma assoc_get_insert k k' v m :
  assoc_get k (obj_insert k' v m) = if String.eqb k k' then Some v else assoc_get k m.
Proof.
  induction m as [|[a x] m IH]; cbn [obj_insert assoc_get].
  - by rewrite (String.eqb_sym k' k).
  - destruct (String.eqb_spec a k') as [->|Hn]; cbn [assoc_get].
    + rewrite (String.eqb_sym k' k). by destruct (String.eqb k k').
    + destruct (String.eqb_spec a k) as [->|]; [|done]. by destruct (String.eqb_spec k k').
Qed.

(** The text the array of details adds when there is no [reasoning]. *)
Definition details_text (obj : list (string * Json)) : string :=
  match assoc_get "reasoning_details" obj with
  | Some d => default ""%string (combined_details d)
  | None => ""%string
  end.

(** The reasoning of a delta once the other names are folded in. *)
Definition unified_reasoning (obj : list (string * Json)) : option Json :=
  match assoc_get "reasoning" obj, assoc_get "reasoning_content" obj with
  | Some _, Some v => Some v
  | Some (JStr text), None => if String.eqb text "" then None else Some (JStr text)
  | Some _, None => None
  | None, Some (JStr s) => Some (JStr (s ++ details_text obj))
  | None, old => if String.eqb (details_text obj) "" then old else Some (JStr (details_text obj))
  end.

Lemma convert_spec obj k :
  assoc_get k (convert_reasoning_field obj).2 =
  if String.eqb k "reasoning" then None
  else if String.eqb k "reasoning_content" then
    match assoc_get "reasoning" obj with
    | Some (JStr t) => match assoc_get "reasoning_content" obj with
                       | Some v => Some v
                       | None => if String.eqb t "" then None else Some (JStr t)
                       end
    | _ => assoc_get "reasoning_content" obj
    end
  else assoc_get k obj.
Proof.
  unfold convert_reasoning_field, obj_remove.
  assert (assoc_get "reasoning_content" (filter (fun kv => kv.1 <> "reasoning"%string) obj)
    = assoc_get "reasoning_content" obj) as Hc by (by rewrite assoc_get_filter).
  destruct (assoc_get "reasoning" obj) as [r|] eqn:Er; cbn [snd].
  - assert (forall k, assoc_get k (filter (fun kv => kv.1 <> "reasoning"%string) obj)
      = if String.eqb k "reasoning" then None
        else if String.eqb k "reasoning_content" then assoc_get "reasoning_content" obj else assoc_get k obj) as Hk.
    { intros k'. rewrite assoc_get_filter. destruct (String.eqb_spec k' "reasoning"); [done|].
      by destruct (String.eqb_spec k' "reasoning_content") as [->|]. }
    destruct r; cbn [as_str]; cbn [snd]; try apply Hk.
    destruct (assoc_get "reasoning_content" obj) as [v|] eqn:Ec.
    + rewrite Hc. rewrite (bool_decide_true (is_Some (Some v))) by (by eexists). rewrite andb_false_r. cbn [snd].
      by rewrite Hk.
    + rewrite Hc. rewrite (bool_decide_false (is_Some (@None Json))) by (by intros [? ?]). rewrite andb_true_r.
      destruct (String.eqb s "") eqn:Es; cbn [negb snd]; [by rewrite Hk|].
      rewrite assoc_get_insert, Hk. destruct (String.eqb_spec k "reasoning_content") as [->|]; [done|].
      by destruct (String.eqb k "reasoning").
  - rewrite assoc_get_filter. destruct (String.eqb k "reasoning"); [done|].
    by destruct (String.eqb_spec k "reasoning_content") as [->|].
Qed.

Lemma convert_present obj : (convert_reasoning_field obj).1 = bool_decide (is_Some (assoc_get "reasoning" obj)).
Proof.
  unfold convert_reasoning_field, obj_remove. destruct (assoc_get "reasoning" obj) as [r|].
  - rewrite (bool_decide_true (is_Some (Some r))) by (by eexists). destruct (as_str r); [|done]. by case_match.
  - by rewrite bool_decide_false by (by intros [? ?]).
Qed.

Lemma string_app_nil s : (s ++ "" = s)%string.
Proof. induction s as [|c s IH]; [done|exact (f_equal (String c) IH)]. Qed.

Lemma merge_spec obj d k :
  assoc_get k (merge_reasoning_details obj d) =
  let t := default ""%string (combined_details d) in
  if String.eqb k "reasoning_content" then
    match assoc_get "reasoning_content" obj with
    | Some (JStr s) => Some (JStr (s ++ t))
    | old => if String.eqb t "" then old else Some (JStr t)
    end
  else assoc_get k obj.
Proof.
  unfold merge_reasoning_details. cbv zeta.
  destruct (combined_details d) as [t|]; cbn [from_option id].
  - destruct (String.eqb_spec t "") as [->|Ht].
    + destruct (String.eqb_spec k "reasoning_content") as [->|]; [|done].
      destruct (assoc_get "reasoning_content" obj) as [[]|]; try done. simpl. by rewrite string_app_nil.
    + destruct (assoc_get "reasoning_content" obj) as [[]|] eqn:E; rewrite assoc_get_insert;
        by destruct (String.eqb k "reasoning_content").
  - destruct (String.eqb_spec k "reasoning_content") as [->|]; [|done].
    destruct (assoc_get "reasoning_content" obj) as [[]|]; try done. simpl. by rewrite string_app_nil.
Qed.

Lemma apply_spec obj k :
  assoc_get k (apply_reasoning_normalizations obj) =
  if String.eqb k "reasoning" then None
  else if String.eqb k "reasoning_details" then None
  else if String.eqb k "reasoning_content" then unified_reasoning obj
  else assoc_get k obj.
Proof.
  unfold apply_reasoning_normalizations. pose proof (convert_present obj) as Hp.
  pose proof (convert_spec obj) as Hc. destruct (convert_reasoning_field obj) as [present obj']. cbn [fst snd] in *.
  unfold obj_remove. set (o := filter (fun kv => kv.1 <> "reasoning_details"%string) obj').
  assert (forall k, assoc_get k o = if String.eqb k "reasoning_details" then None else assoc_get k obj') as Ho
    by (intros; apply assoc_get_filter).
  assert (assoc_get "reasoning_details" obj' = assoc_get "reasoning_details" obj) as Hd by (by rewrite Hc).
  unfold unified_reasoning, details_text. rewrite Hd.
  destruct (assoc_get "reasoning_details" obj) as [d|]; [destruct present; cbn [negb]; [|rewrite merge_spec; cbv zeta]|];
    rewrite ?Ho, ?Hc; cbn [String.eqb Ascii.eqb Bool.eqb];
    destruct (String.eqb_spec k "reasoning") as [->|]; try done;
    destruct (String.eqb_spec k "reasoning_details") as [->|]; try done;
    destruct (String.eqb_spec k "reasoning_content") as [->|]; try done.
  - symmetry in Hp. apply bool_decide_eq_true in Hp as [r ->]. by destruct (assoc_get "reasoning_content" obj), r.
  - symmetry in Hp. apply bool_decide_eq_false in Hp. destruct (assoc_get "reasoning" obj); [by destruct Hp|done].
  - destruct (assoc_get "reasoning" obj) as [r|]; [by destruct (assoc_get "reasoning_content" obj), r|].
    destruct (assoc_get "reasoning_content" obj) as [[]|]; try done. simpl. by rewrite string_app_nil.
Qed.

(** ** Properties *)

(** Escapes are decoded exactly: for every legal JSON string text
    (characters, two-character escapes, escaped code units and surrogate pairs,
    in any mixture) the decoder appends the UTF-8 encoding of the characters
    the text denotes, which is valid UTF-8, and on any input at all it appends
    at most as many bytes as it read. *)
Lemma escapes_decode_exactly ps out :
  Forall piece_wf ps ->
  decode_json_escape_into (body_text ps) out = out ++ body_chars ps
  /\ utf8_valid (body_chars ps) = true
  /\ (forall raw, length (decode_json_escape_into raw out) <= length out + length raw)%nat.
Proof.
  intros H. split_and!; [|by apply body_chars_valid|].
  - rewrite decode_into. f_equal. rewrite <- (app_nil_r (body_text ps)), decode_body by done. apply app_nil_r.
  - intros raw. rewrite decode_into, length_app. pose proof (decode_length raw). lia.
Qed.

Lemma escapes_decode_exactly_witness :
  decode_json_escape_into (bytes_of "a\n\u00e9\ud83d\ude00") [] = [97; 10; 195; 169; 240; 159; 152; 128].
Proof.
  assert (hex_quad (bytes_of "00e9") /\ hex_quad (bytes_of "d83d") /\ hex_quad (bytes_of "de00")) as (H1 & H2 & H3)
    by (split_and!; (split; [done|]); repeat constructor; by eexists).
  assert (Forall piece_wf [PChar 97; PShort 110; PUnit (bytes_of "00e9"); PPair (bytes_of "d83d") (bytes_of "de00")]) as Hw.
  { repeat apply Forall_cons_2; [| | | |done].
    - split; [split; lia|lia].
    - by eexists.
    - split; [done|]. vm_compute. intros [? ?]. done.
    - split; [done|]. split; [done|]. vm_compute. done. }
  exact (proj1 (escapes_decode_exactly _ [] Hw)).
Defined.

(** The one-pass scan reads the delta the way a parser would: for an
    object after the first [delta] key of the payload, with any members, white
    space and nested values, the fields are the text of the first member named
    [content] and of the first named [reasoning_content], nothing when that
    member is not a string, and never a field of a nested value. *)
Lemma delta_fields_read_exactly pre w1 w2 w ms post :
  find_sub DELTA_KEY (pre ++ DELTA_KEY) = Some (length pre) ->
  blank w1 -> blank w2 -> blank w -> Forall member_ok ms ->
  extract_delta_fields (pre ++ DELTA_KEY ++ w1 ++ 58 :: w2 ++ 123 :: w ++ members_text ms ++ 125 :: post)
  = mkFields (first_member (bytes_of "content") ms) (first_member (bytes_of "reasoning_content") ms).
Proof. apply extract_spec. Qed.

Lemma delta_fields_read_exactly_witness :
  let ms := [mkMember (bytes_of "tool_calls") (VNest 91 (123 :: quoted "content" ++ 58 :: quoted "x" ++ [125]) 93) [] [] [] [];
             mkMember (bytes_of "content") (VStr (bytes_of "hi\n")) [32] [] [32] [];
             mkMember (bytes_of "reasoning_content") (VAtom (bytes_of "null")) [] [] [] [];
             mkMember (bytes_of "content") (VStr (bytes_of "later")) [] [] [] []] in
  extract_delta_fields (123 :: quoted "choices" ++ bytes_of ":[{" ++ DELTA_KEY ++ [] ++ 58 :: [32] ++ 123 :: []
    ++ members_text ms ++ 125 :: bytes_of "}]}") = mkFields (Some (bytes_of "hi\n")) None.
Proof.
  intros ms.
  assert (Forall member_ok ms) as Hms.
  { assert (balanced (123 :: quoted "content" ++ 58 :: quoted "x" ++ [125])) as Hb.
    { apply (bal_nest 123 (quoted "content" ++ 58 :: quoted "x") 125 []); [done|done| |constructor].
      apply (bal_str (bytes_of "content") (58 :: quoted "x")); [done|]. apply bal_plain; [done|].
      apply (bal_str (bytes_of "x") []); [done|constructor]. }
    repeat apply Forall_cons_2; [| | | |done];
      (split; [done|]; split; [try done|split_and!; repeat constructor]).
    split; [done|]. change (bytes_of "null") with [110; 117; 108; 108].
    repeat apply Forall_cons_2; try apply Forall_nil_2; by split_and!. }
  apply (delta_fields_read_exactly (123 :: quoted "choices" ++ bytes_of ":[{") [] [32] [] ms (bytes_of "}]}"));
    [vm_compute; done|by constructor|by repeat constructor|by constructor|done].
Defined.

(** The other names of reasoning are folded into [reasoning_content]:
    the normalised delta has neither [reasoning] nor [reasoning_details], its
    reasoning is the unified one, every other member is untouched, and
    reasoning text already there is kept as it was or extended. *)
Lemma reasoning_names_unified obj k :
  assoc_get k (apply_reasoning_normalizations obj)
  = (if String.eqb k "reasoning" then None
     else if String.eqb k "reasoning_details" then None
     else if String.eqb k "reasoning_content" then unified_reasoning obj
     else assoc_get k obj)
  /\ (forall s, assoc_get "reasoning_content" obj = Some (JStr s) ->
      exists t, unified_reasoning obj = Some (JStr (s ++ t))).
Proof.
  split; [apply apply_spec|]. intros s Hs. unfold unified_reasoning. rewrite Hs.
  destruct (assoc_get "reasoning" obj) as [[]|]; [exists ""%string; by rewrite string_app_nil..|by eexists].
Qed.

(** A [reasoning] that carries no text still makes the details disappear. *)
Lemma null_reasoning_drops_details :
  let delta := [("reasoning", JNull);
                ("reasoning_details", JArr [JObj [("text", JStr "because")]])]%string in
  apply_reasoning_normalizations delta = []
  /\ apply_reasoning_normalizations (tail delta) = [("reasoning_content", JStr "because")]%string.
Proof. done. Qed.
