(* ===== verification/Accumulator.v ===== *)
(** * The recorded copy of a stream

    [openproxy-pipeline/src/sse_accumulator/{types,accumulator}.rs] with
    [sse/anthropic/usage.rs] ([merge_usage]) and the usage types of
    [openproxy-types/src/message.rs]: a [ResponseAccumulator] reads the payloads
    of a stream as they pass and assembles the one response that is kept, within
    a byte budget.

    The serde parsers of the tool-call and inline-error probes and
    [String::from_utf8_lossy] are parameters. *)

From Stdlib Require Import String.
From S2P Require Import Prelude Text Bytes DeltaScan.

(** ** Data *)

Definition MAX_ACCUMULATED_BYTES : Z := 262144.
Definition RAW_CAP : Z := 32768.

Definition blen (s : str) : Z := Z.of_nat (length s).

Record PromptTokensDetails := mkDetails { ptd_cached_tokens : option Z }.

Record OpenAIUsage := mkUsage {
  us_prompt : Z; us_completion : Z; us_total : Z; us_details : option PromptTokensDetails
}.

Record AccumulatedToolCall := mkToolCall { atc_id : str; atc_name : str; atc_arguments : str }.

Definition tool_call_default : AccumulatedToolCall := mkToolCall [] [] [].

Inductive AnthropicToolEvent :=
  | ToolOpen (id name : str)
  | ToolDelta (partial_json : str)
  | ToolClose.

Record ToolCallFunctionProbe := mkFunctionProbe { fp_name : option str; fp_arguments : option str }.
Record ToolCallProbe := mkToolProbe {
  tp_index : option nat; tp_id : option str; tp_function : option ToolCallFunctionProbe
}.
Record ToolCallProbeDelta := mkProbeDelta { pd_tool_calls : option (list ToolCallProbe) }.
Record ToolCallProbeChoice := mkProbeChoice { pc_delta : option ToolCallProbeDelta }.
Record ToolCallProbeOuter := mkProbeOuter { po_choices : option (list ToolCallProbeChoice) }.

Record ResponseAccumulator := mkAcc {
  acc_content : str;
  acc_reasoning : option str;
  acc_tool_calls : list AccumulatedToolCall;
  acc_usage : option OpenAIUsage;
  acc_stop_reason : option str;
  acc_total_bytes : Z;
  acc_truncated : bool;
  acc_partial : bool;
  acc_raw : str
}.

Definition acc_new : ResponseAccumulator := mkAcc [] None [] None None 0 false false [].

(** ** Usage *)

Definition max_opt (a b : option Z) : option Z :=
  match a, b with
  | Some a, Some b => Some (Z.max a b)
  | Some a, None => Some a
  | None, b => b
  end.

Definition merge_usage (existing new : OpenAIUsage) : OpenAIUsage :=
  mkUsage
    (if 0 <? us_prompt new then Z.max (us_prompt existing) (us_prompt new) else us_prompt existing)
    (Z.max (us_completion existing) (us_completion new))
    (if 0 <? us_total new then Z.max (us_total existing) (us_total new)
     else if 0 <? us_total existing then us_total existing
     else sat_add u32_max (us_prompt existing) (us_completion existing))
    (match us_details existing, us_details new with
     | Some e, Some n => Some (mkDetails (max_opt (ptd_cached_tokens e) (ptd_cached_tokens n)))
     | Some e, None => Some e
     | None, Some n => Some n
     | None, None => None
     end).

(** ** Operations *)

Definition acc_set_content (c : str) (a : ResponseAccumulator) : ResponseAccumulator :=
  mkAcc c (acc_reasoning a) (acc_tool_calls a) (acc_usage a) (acc_stop_reason a) (acc_total_bytes a)
    (acc_truncated a) (acc_partial a) (acc_raw a).
Definition acc_set_reasoning (r : option str) (a : ResponseAccumulator) : ResponseAccumulator :=
  mkAcc (acc_content a) r (acc_tool_calls a) (acc_usage a) (acc_stop_reason a) (acc_total_bytes a)
    (acc_truncated a) (acc_partial a) (acc_raw a).
Definition acc_set_tool_calls (l : list AccumulatedToolCall) (a : ResponseAccumulator) : ResponseAccumulator :=
  mkAcc (acc_content a) (acc_reasoning a) l (acc_usage a) (acc_stop_reason a) (acc_total_bytes a)
    (acc_truncated a) (acc_partial a) (acc_raw a).
Definition acc_set_total_bytes (n : Z) (a : ResponseAccumulator) : ResponseAccumulator :=
  mkAcc (acc_content a) (acc_reasoning a) (acc_tool_calls a) (acc_usage a) (acc_stop_reason a) n
    (acc_truncated a) (acc_partial a) (acc_raw a).
Definition acc_set_truncated (a : ResponseAccumulator) : ResponseAccumulator :=
  mkAcc (acc_content a) (acc_reasoning a) (acc_tool_calls a) (acc_usage a) (acc_stop_reason a) (acc_total_bytes a)
    true (acc_partial a) (acc_raw a).
Definition acc_set_raw (r : str) (a : ResponseAccumulator) : ResponseAccumulator :=
  mkAcc (acc_content a) (acc_reasoning a) (acc_tool_calls a) (acc_usage a) (acc_stop_reason a) (acc_total_bytes a)
    (acc_truncated a) (acc_partial a) r.

Definition mark_partial (a : ResponseAccumulator) : ResponseAccumulator :=
  mkAcc (acc_content a) (acc_reasoning a) (acc_tool_calls a) (acc_usage a) (acc_stop_reason a) (acc_total_bytes a)
    (acc_truncated a) true (acc_raw a).

Definition set_usage (u : OpenAIUsage) (a : ResponseAccumulator) : ResponseAccumulator :=
  mkAcc (acc_content a) (acc_reasoning a) (acc_tool_calls a)
    (Some (match acc_usage a with Some existing => merge_usage existing u | None => u end))
    (acc_stop_reason a) (acc_total_bytes a) (acc_truncated a) (acc_partial a) (acc_raw a).

Definition set_stop_reason (reason : str) (a : ResponseAccumulator) : ResponseAccumulator :=
  match acc_stop_reason a with
  | Some _ => a
  | None =>
      mkAcc (acc_content a) (acc_reasoning a) (acc_tool_calls a) (acc_usage a) (Some reason) (acc_total_bytes a)
        (acc_truncated a) (acc_partial a) (acc_raw a)
  end.

Definition append_raw_line (line : str) (a : ResponseAccumulator) : ResponseAccumulator :=
  if blen (acc_raw a) <? RAW_CAP then
    let limit := RAW_CAP - blen (acc_raw a) in
    let to_add := take (Z.to_nat (Z.min (blen line) limit)) line in
    acc_set_raw (acc_raw a ++ to_add ++ (if blen to_add <? blen line then bytes_of "... [truncated]" else [10])) a
  else a.

Definition append_content (content : str) (a : ResponseAccumulator) : ResponseAccumulator :=
  if MAX_ACCUMULATED_BYTES <? acc_total_bytes a + blen content then acc_set_truncated a
  else
    let c := decode_json_escape_into content (acc_content a) in
    acc_set_total_bytes (acc_total_bytes a + (blen c - blen (acc_content a))) (acc_set_content c a).

Definition append_reasoning (text : str) (a : ResponseAccumulator) : ResponseAccumulator :=
  if acc_truncated a || bool_decide (text = []) then a
  else if MAX_ACCUMULATED_BYTES <? acc_total_bytes a + blen text then acc_set_truncated a
  else
    let r := default [] (acc_reasoning a) in
    let r' := decode_json_escape_into text r in
    acc_set_total_bytes (acc_total_bytes a + (blen r' - blen r)) (acc_set_reasoning (Some r') a).

(** [while tool_calls.len() <= index], a push each. *)
Definition pad_tool_calls (index : nat) (l : list AccumulatedToolCall) : list AccumulatedToolCall :=
  l ++ replicate (S index - length l) tool_call_default.

Definition update_openai_tool_call_delta (index : nat) (id name arguments : option str) (a : ResponseAccumulator)
    : ResponseAccumulator :=
  let named := alter (fun tc => mkToolCall (default (atc_id tc) id) (default (atc_name tc) name) (atc_arguments tc)) index
                 (pad_tool_calls index (acc_tool_calls a)) in
  let a := acc_set_tool_calls named a in
  match arguments with
  | None => a
  | Some args =>
      if MAX_ACCUMULATED_BYTES <? acc_total_bytes a + blen args then acc_set_truncated a
      else acc_set_total_bytes (acc_total_bytes a + blen args)
             (acc_set_tool_calls (alter (fun tc => mkToolCall (atc_id tc) (atc_name tc) (atc_arguments tc ++ args)) index named) a)
  end.

Definition append_openai_tool_call (id : option str) (name arguments : str) : ResponseAccumulator -> ResponseAccumulator :=
  update_openai_tool_call_delta 0%nat id (Some name) (Some arguments).

Definition update_anthropic_tool_use (event : AnthropicToolEvent) (a : ResponseAccumulator) : ResponseAccumulator :=
  match event with
  | ToolOpen id name => acc_set_tool_calls (acc_tool_calls a ++ [mkToolCall id name []]) a
  | ToolDelta partial_json =>
      acc_set_tool_calls
        (alter (fun tc => mkToolCall (atc_id tc) (atc_name tc) (atc_arguments tc ++ partial_json))
           (pred (length (acc_tool_calls a))) (acc_tool_calls a)) a
  | ToolClose => a
  end.

Definition is_completely_empty (a : ResponseAccumulator) : bool :=
  bool_decide (acc_content a = []) && bool_decide (acc_reasoning a = None)
  && match acc_tool_calls a with [] => true | _ => false end && bool_decide (acc_raw a = []).

Definition is_empty (a : ResponseAccumulator) : bool :=
  bool_decide (acc_content a = []) && bool_decide (acc_reasoning a = None)
  && match acc_tool_calls a with [] => true | _ => false end.

(** *** Payloads *)

Section probes.

Context (tool_probe : str -> option ToolCallProbeOuter).

Definition parse_tool_call_probe (payload : str) : option (list ToolCallProbe) :=
  if negb (contains_bytes (quoted "tool_calls") payload) then None
  else (((tool_probe payload ≫= po_choices) ≫= head) ≫= pc_delta) ≫= pd_tool_calls.

Definition apply_tool_probe (a : ResponseAccumulator) (tc : ToolCallProbe) : ResponseAccumulator :=
  update_openai_tool_call_delta (default 0%nat (tp_index tc)) (tp_id tc)
    (tp_function tc ≫= fp_name) (tp_function tc ≫= fp_arguments) a.

Definition append_delta_tool_calls_if_present (payload : str) (a : ResponseAccumulator) : ResponseAccumulator :=
  match parse_tool_call_probe payload with
  | None => a
  | Some tool_calls => foldl apply_tool_probe a tool_calls
  end.

Definition append_delta_content_if_present (payload : str) (a : ResponseAccumulator) : ResponseAccumulator :=
  match extract_delta_content payload with
  | Some content => append_content content a
  | None => a
  end.

Definition append_openai_raw (payload : str) (a : ResponseAccumulator) : ResponseAccumulator :=
  if acc_truncated a then a
  else
    let a := append_delta_content_if_present payload a in
    if contains_bytes (quoted "tool_calls") payload then append_delta_tool_calls_if_present payload a else a.

(** [StreamingChunkStage::process_chunk]; the payload itself always passes on. *)
Definition process_chunk (payload : str) (a : ResponseAccumulator) : ResponseAccumulator :=
  if acc_truncated a then a
  else
    let fields := extract_delta_fields payload in
    let a := match df_content fields with Some content => append_content content a | None => a end in
    let a := if contains_bytes (quoted "tool_calls") payload then append_delta_tool_calls_if_present payload a else a in
    match df_reasoning fields with Some rc => append_reasoning rc a | None => a end.

End probes.

(** *** The assembled response *)

Record FinishToolCall := mkFinishToolCall { ft_id : str; ft_type : string; ft_name : str; ft_arguments : str }.

Record FinishMessage := mkFinishMessage {
  fm_role : string; fm_content : option str; fm_reasoning_content : option str;
  fm_tool_calls : option (list FinishToolCall); fm_truncated : bool; fm_partial : bool
}.

Record FinishResponse := mkFinishResponse {
  fr_id : str; fr_object : string; fr_created : Z; fr_model : str; fr_index : Z; fr_message : FinishMessage;
  fr_finish_reason : option str; fr_usage : option OpenAIUsage; fr_raw_response_body : option str
}.

Definition TOOL_STOP_REASONS : list str :=
  bytes_of <$> ["tool_use"; "tool_call"; "tool_calls"; "toolUse"; "toolCall"; "toolCalls"]%string.

Definition finish_reason (a : ResponseAccumulator) : option str :=
  let by_tools := match acc_tool_calls a with [] => None | _ => Some (bytes_of "tool_calls") end in
  match acc_stop_reason a with
  | Some reason =>
      if bool_decide (reason ∈ TOOL_STOP_REASONS) then Some (bytes_of "tool_calls")
      else if bool_decide (reason = []) then by_tools
      else Some reason
  | None => by_tools
  end.

Section lossy.

Context (from_utf8_lossy : str -> str).

Definition finish (chunk_id : str) (created : Z) (model : str) (a : ResponseAccumulator) : FinishResponse :=
  mkFinishResponse chunk_id "chat.completion" created model 0
    (mkFinishMessage "assistant"
       (if bool_decide (acc_content a = []) then None else Some (from_utf8_lossy (acc_content a)))
       (from_utf8_lossy <$> acc_reasoning a)
       (match acc_tool_calls a with
        | [] => None
        | l => Some ((fun tc => mkFinishToolCall (atc_id tc) "function" (atc_name tc) (atc_arguments tc)) <$> l)
        end)
       (acc_truncated a) (acc_partial a))
    (finish_reason a) (acc_usage a)
    (if (acc_partial a || (bool_decide (acc_content a = []) && match acc_tool_calls a with [] => true | _ => false end))
        && negb (bool_decide (acc_raw a = []))
     then Some (from_utf8_lossy (acc_raw a)) else None).

End lossy.

(** ** Inline errors of a stream: [sse/mod.rs] *)

Inductive InlineErrorCodeProbe := CodeNum (n : Z) | CodeStr (s : string).

Record InlineErrorObjProbe := mkErrorObj {
  eo_code : option InlineErrorCodeProbe; eo_message : option string; eo_type : option string
}.

Inductive InlineErrorPayload := ErrObj (o : InlineErrorObjProbe) | ErrStr (s : string).

(** The [choices] as their number. *)
Record InlineErrorProbe := mkErrorProbe {
  ep_choices : option nat; ep_error : option InlineErrorPayload; ep_provider : option string
}.

Record ParsedInlineError := mkInlineError { ie_status : Z; ie_message : string; ie_provider : option string }.

Definition CODE_PATTERNS : list (list string * Z) :=
  [(["rate_limit"; "quota"; "resource_exhausted"], 429);
   (["content_filter"; "safety"; "policy"; "blocked"; "invalid"; "bad_request"; "malformed"], 400);
   (["auth"; "unauthorized"; "permission"; "forbidden"], 403)]%string.

Definition TYPE_PATTERNS : list (list string * Z) :=
  [(["rate_limit"], 429); (["content_filter"; "safety"; "invalid_request"], 400); (["auth"], 401)]%string.

Definition match_patterns (s : string) (patterns : list (list string * Z)) : option Z :=
  find_map (fun kc => if contains_any kc.1 s then Some kc.2 else None) patterns.

Definition error_range (n : Z) : bool := (400 <=? n) && (n <=? 599).

Definition code_status (code : option InlineErrorCodeProbe) : Z :=
  match code with
  | Some (CodeNum n) => if error_range n then n else 502
  | Some (CodeStr s) =>
      match parse_unsigned u16_max s with
      | Some n => if error_range n then n else default 502 (match_patterns s CODE_PATTERNS)
      | None => default 502 (match_patterns s CODE_PATTERNS)
      end
  | None => 502
  end.

Definition inline_status (o : InlineErrorObjProbe) : Z :=
  let resolved := code_status (eo_code o) in
  match eo_type o with
  | Some t => if resolved =? 502 then default resolved (match_patterns t TYPE_PATTERNS) else resolved
  | None => resolved
  end.

Section inline.

Context (error_probe : str -> option InlineErrorProbe).

Definition parse_inline_sse_error (payload : str) : option ParsedInlineError :=
  if negb (contains_bytes (quoted "error") payload)
     || (contains_bytes (quoted "choices" ++ [58]) payload
         && negb (contains_bytes (quoted "choices" ++ bytes_of ":[]") payload))
  then None
  else
    match error_probe payload with
    | None => None
    | Some probe =>
        if match ep_choices probe with Some (S _) => true | _ => false end then None
        else match ep_error probe with
             | None => None
             | Some (ErrStr msg) => Some (mkInlineError 502 msg (ep_provider probe))
             | Some (ErrObj o) =>
                 Some (mkInlineError (inline_status o) (default "unknown upstream error in SSE stream"%string (eo_message o))
                         (ep_provider probe))
             end
    end.

Definition trim_ascii (s : str) : str := reverse (skip_ws (reverse (skip_ws s))).

Definition extract_error_from_line (line : str) : option (Z * string) :=
  let json_bytes :=
    trim_ascii (match strip_prefix (bytes_of "data: ") line with
                | Some r => r
                | None => default line (strip_prefix (bytes_of "data:") line)
                end) in
  match json_bytes with
  | b :: _ =>
      if b =? 123 then
        if utf8_valid json_bytes
        then (fun e => (ie_status e, ie_message e)) <$> parse_inline_sse_error json_bytes
        else None
      else None
  | [] => None
  end.

Definition extract_upstream_error_from_raw (a : ResponseAccumulator) : option (Z * string) :=
  if negb (contains_bytes (quoted "error") (acc_raw a)) then None
  else find_map extract_error_from_line (split_byte 10 (acc_raw a)).

End inline.

(** ** The byte budget *)

Definition args_bytes (l : list AccumulatedToolCall) : Z :=
  Z.of_nat (sum_list_with (fun tc => length (atc_arguments tc)) l).

(** The bytes of the three kinds of text that are kept. *)
Definition recorded_bytes (a : ResponseAccumulator) : Z :=
  blen (acc_content a) + blen (default [] (acc_reasoning a)) + args_bytes (acc_tool_calls a).

Definition acc_inv (a : ResponseAccumulator) : Prop :=
  acc_total_bytes a = recorded_bytes a
  /\ recorded_bytes a <= MAX_ACCUMULATED_BYTES
  /\ blen (acc_raw a) <= RAW_CAP + 15.

Inductive AccOp :=
  | OpRawLine (line : str)
  | OpPartial
  | OpPayload (payload : str)
  | OpChunk (payload : str)
  | OpReasoning (text : str)
  | OpUsage (u : OpenAIUsage)
  | OpStop (reason : str)
  | OpToolDelta (index : nat) (id name arguments : option str)
  | OpTool (id : option str) (name arguments : str)
  | OpAnthropic (event : AnthropicToolEvent).

Definition apply_op tool_probe (a : ResponseAccumulator) (op : AccOp) : ResponseAccumulator :=
  match op with
  | OpRawLine line => append_raw_line line a
  | OpPartial => mark_partial a
  | OpPayload p => append_openai_raw tool_probe p a
  | OpChunk p => process_chunk tool_probe p a
  | OpReasoning t => append_reasoning t a
  | OpUsage u => set_usage u a
  | OpStop r => set_stop_reason r a
  | OpToolDelta i id name args => update_openai_tool_call_delta i id name args a
  | OpTool id name args => append_openai_tool_call id name args a
  | OpAnthropic e => update_anthropic_tool_use e a
  end.

(** The argument fragments of Anthropic tool events are not counted. *)
Definition counted (op : AccOp) : Prop :=
  match op with OpAnthropic (ToolDelta _) => False | _ => True end.

Lemma blen_app a b : blen (a ++ b) = blen a + blen b.
Proof. unfold blen. rewrite length_app. lia. Qed.

Lemma blen_nonneg a : 0 <= blen a.
Proof. unfold blen. lia. Qed.

Lemma decode_blen raw : blen (decode_text raw) <= blen raw.
Proof. unfold blen. pose proof (decode_length raw). lia. Qed.

Lemma args_alter f i l tc :
  l !! i = Some tc ->
  args_bytes (alter f i l) = args_bytes l - blen (atc_arguments tc) + blen (atc_arguments (f tc)).
Proof.
  unfold args_bytes, blen. revert i. induction l as [|x l IH]; intros [|i] H; try done.
  - injection H as ->. simpl. lia.
  - specialize (IH i H). simpl in *. change (list_alter f i l) with (alter f i l). lia.
Qed.

Lemma pad_lookup i l : is_Some (pad_tool_calls i l !! i).
Proof. apply lookup_lt_is_Some. unfold pad_tool_calls. rewrite length_app, length_replicate. lia. Qed.

Lemma args_pad i l : args_bytes (pad_tool_calls i l) = args_bytes l.
Proof.
  unfold args_bytes, pad_tool_calls. rewrite sum_list_with_app.
  assert (forall n, sum_list_with (fun tc => length (atc_arguments tc)) (replicate n tool_call_default) = 0%nat) as ->
    by (induction n; done). lia.
Qed.

(** What one tool-call delta does to the arguments and to the budget. *)
Lemma update_tool_spec i id name args a :
  let a' := update_openai_tool_call_delta i id name args a in
  acc_content a' = acc_content a /\ acc_reasoning a' = acc_reasoning a /\ acc_raw a' = acc_raw a
  /\ ((acc_truncated a' = true /\ args_bytes (acc_tool_calls a') = args_bytes (acc_tool_calls a)
        /\ acc_total_bytes a' = acc_total_bytes a /\ MAX_ACCUMULATED_BYTES < acc_total_bytes a + blen (default [] args))
      \/ (acc_truncated a' = acc_truncated a
        /\ args_bytes (acc_tool_calls a') = args_bytes (acc_tool_calls a) + blen (default [] args)
        /\ acc_total_bytes a' = acc_total_bytes a + blen (default [] args)
        /\ (args <> None -> acc_total_bytes a' <= MAX_ACCUMULATED_BYTES))).
Proof.
  cbv zeta. unfold update_openai_tool_call_delta.
  set (g := fun tc => mkToolCall _ _ _).
  destruct (pad_lookup i (acc_tool_calls a)) as [tc Htc].
  assert (alter g i (pad_tool_calls i (acc_tool_calls a)) !! i = Some (g tc)) as Hg by (by rewrite list_lookup_alter_eq, Htc).
  assert (args_bytes (alter g i (pad_tool_calls i (acc_tool_calls a))) = args_bytes (acc_tool_calls a)) as Hn
    by (rewrite (args_alter _ _ _ _ Htc), args_pad; simpl; lia).
  destruct args as [args|]; [destruct (MAX_ACCUMULATED_BYTES <? _) eqn:E|]; cbn in *.
  - split_and!; try done. left. split_and!; try done. apply Z.ltb_lt in E. done.
  - split_and!; try done. right. rewrite (args_alter _ _ _ _ Hg), Hn. cbn. rewrite blen_app.
    apply Z.ltb_ge in E. split_and!; try done; lia.
  - split_and!; try done. right. rewrite Hn. change (blen []) with 0. split_and!; try done; lia.
Qed.

Lemma acc_inv_new : acc_inv acc_new.
Proof. done. Qed.

Lemma inv_update_tool i id name args a : acc_inv a -> acc_inv (update_openai_tool_call_delta i id name args a).
Proof.
  intros (H1 & H2 & H3). pose proof (update_tool_spec i id name args a) as Hs. cbv zeta in Hs.
  set (a' := update_openai_tool_call_delta i id name args a) in *.
  destruct Hs as (Hc & Hr & Hraw & Hs). unfold acc_inv, recorded_bytes in *. rewrite Hc, Hr, Hraw.
  destruct Hs as [(_ & Ha & Ht & _)|(_ & Ha & Ht & Hm)]; rewrite Ha, Ht in *; [by split_and!|].
  destruct args as [args|]; [specialize (Hm ltac:(done))|]; cbn in *; change (blen []) with 0 in *;
    split_and!; lia.
Qed.

Lemma inv_append_content c a : acc_inv a -> acc_inv (append_content c a).
Proof.
  intros (H1 & H2 & H3). unfold append_content. destruct (_ <? _) eqn:E; [done|].
  rewrite decode_into. pose proof (decode_blen c). apply Z.ltb_ge in E.
  unfold acc_inv, recorded_bytes in *. cbn in *. rewrite blen_app. split_and!; lia.
Qed.

Lemma inv_append_reasoning t a : acc_inv a -> acc_inv (append_reasoning t a).
Proof.
  intros (H1 & H2 & H3). unfold append_reasoning. destruct (_ || _); [done|]. destruct (_ <? _) eqn:E; [done|].
  rewrite decode_into. pose proof (decode_blen t). apply Z.ltb_ge in E.
  unfold acc_inv, recorded_bytes in *. cbn in *. rewrite blen_app. split_and!; lia.
Qed.

Lemma inv_tool_calls probe p a : acc_inv a -> acc_inv (append_delta_tool_calls_if_present probe p a).
Proof.
  intros H. unfold append_delta_tool_calls_if_present. destruct (parse_tool_call_probe probe p) as [l|]; [|done].
  revert a H. induction l as [|tc l IH]; intros a H; [done|]. simpl. by apply IH, inv_update_tool.
Qed.

Lemma inv_raw_line line a : acc_inv a -> acc_inv (append_raw_line line a).
Proof.
  intros (H1 & H2 & H3). unfold append_raw_line. destruct (_ <? _) eqn:E; [|done]. apply Z.ltb_lt in E.
  unfold acc_inv, recorded_bytes in *. cbn [acc_set_raw acc_raw acc_total_bytes acc_content acc_reasoning acc_tool_calls].
  split_and!; [done|done|]. rewrite !blen_app.
  assert (blen (take (Z.to_nat (Z.min (blen line) (RAW_CAP - blen (acc_raw a)))) line) <= RAW_CAP - blen (acc_raw a)) as Ht
    by (unfold blen at 1; rewrite length_take; pose proof (blen_nonneg line); unfold blen in *; lia).
  case_match; [change (blen (bytes_of "... [truncated]")) with 15|change (blen [10]) with 1]; lia.
Qed.

Lemma inv_op probe a op : counted op -> acc_inv a -> acc_inv (apply_op probe a op).
Proof.
  intros Hop H. destruct op; cbn [apply_op]; try done.
  - by apply inv_raw_line.
  - unfold append_openai_raw. case_match; [done|].
    assert (acc_inv (append_delta_content_if_present payload a)) as H'
      by (unfold append_delta_content_if_present; case_match; [by apply inv_append_content|done]).
    cbv zeta. case_match; [by apply inv_tool_calls|done].
  - unfold process_chunk. case_match; [done|]. cbv zeta.
    set (a1 := match df_content _ with Some _ => _ | None => _ end).
    assert (acc_inv a1) as H1 by (subst a1; case_match; [by apply inv_append_content|done]).
    set (a2 := if contains_bytes _ _ then _ else _).
    assert (acc_inv a2) as H2 by (subst a2; case_match; [by apply inv_tool_calls|done]).
    case_match; [by apply inv_append_reasoning|done].
  - by apply inv_append_reasoning.
  - unfold set_stop_reason. by case_match.
  - by apply inv_update_tool.
  - by apply inv_update_tool.
  - destruct event as [id name| |]; [|done|done]. destruct H as (H1 & H2 & H3).
    unfold acc_inv, recorded_bytes, args_bytes in *. cbn in *. rewrite sum_list_with_app. cbn. split_and!; lia.
Qed.

Lemma inv_ops probe ops a : Forall counted ops -> acc_inv a -> acc_inv (foldl (apply_op probe) a ops).
Proof. intros H. revert a. induction H as [|op ops Hop Hops IH]; intros a Ha; [done|]. simpl. by apply IH, inv_op. Qed.

(** ** What a stream leaves behind *)

Section stream.

Context (probe : str -> option ToolCallProbeOuter).

Definition chunk_content (p : str) : str := from_option decode_text [] (extract_delta_content p).
Definition chunk_reasoning (p : str) : str := from_option decode_text [] (extract_reasoning_content p).
Definition chunk_tools (p : str) : list ToolCallProbe := default [] (parse_tool_call_probe probe p).

Definition fragment (tc : ToolCallProbe) : str := default [] (tp_function tc ≫= fp_arguments).

(** The argument text of a list of fragments that goes to tool call [i]. *)
Definition fragments_of (i : nat) (l : list ToolCallProbe) : str :=
  l ≫= (fun tc => if bool_decide (default 0%nat (tp_index tc) = i) then fragment tc else []).

(** The text fields of an accumulator. *)
Definition texts_of (a : ResponseAccumulator) : str * str := (acc_content a, default [] (acc_reasoning a)).

Definition args_at (i : nat) (l : list AccumulatedToolCall) : str := from_option atc_arguments [] (l !! i).

(** The bytes a payload asks of the budget. *)
Definition chunk_bytes (p : str) : Z :=
  blen (default [] (extract_delta_content p)) + blen (default [] (extract_reasoning_content p))
  + Z.of_nat (sum_list_with (fun tc => length (fragment tc)) (chunk_tools p)).

Definition stream_bytes (ps : list str) : Z := foldr (fun p n => chunk_bytes p + n) 0 ps.

Lemma args_at_pad j i l : args_at j (pad_tool_calls i l) = args_at j l.
Proof.
  unfold args_at, pad_tool_calls. destruct (decide (j < length l)%nat) as [Hj|Hj].
  - by rewrite lookup_app_l.
  - rewrite lookup_app_r by lia. rewrite (lookup_ge_None_2 l j) by lia.
    destruct (replicate _ _ !! _) as [x|] eqn:E; [|done]. by apply lookup_replicate in E as [-> _].
Qed.

Lemma update_args_at j i id name args a :
  acc_truncated a = false ->
  let a' := update_openai_tool_call_delta i id name args a in
  acc_truncated a' = false ->
  args_at j (acc_tool_calls a') = args_at j (acc_tool_calls a) ++ (if bool_decide (i = j) then default [] args else []).
Proof.
  intros Ht. cbv zeta. unfold update_openai_tool_call_delta.
  destruct (pad_lookup i (acc_tool_calls a)) as [tc Htc]. pose proof (args_at_pad j i (acc_tool_calls a)) as Hp.
  destruct args as [args|]; [destruct (MAX_ACCUMULATED_BYTES <? _)|]; cbn [acc_truncated acc_set_truncated acc_set_total_bytes
    acc_set_tool_calls acc_tool_calls]; [done|intros _..]; rewrite <- Hp; unfold args_at;
    (case_bool_decide as Hij; [subst j; rewrite !list_lookup_alter_eq, Htc|rewrite !list_lookup_alter_ne by done]);
    simpl; by rewrite ?app_nil_r.
Qed.

(** A step that adds [c] to the content, [r] to the reasoning and [t i] to the
    arguments of call [i], and asks [n] bytes of the budget: within the budget
    it adds all of it; past it, it marks the copy as truncated and what it has
    added is a prefix, to which nothing is added any more. *)
Record grows (c r : str) (t : nat -> str) (n : Z) (a a' : ResponseAccumulator) : Prop := mkGrows {
  gr_stuck : acc_truncated a = true -> acc_truncated a' = true /\ texts_of a' = texts_of a;
  gr_bytes : acc_total_bytes a <= acc_total_bytes a' <= acc_total_bytes a + n;
  gr_fits : acc_total_bytes a + n <= MAX_ACCUMULATED_BYTES -> acc_truncated a' = acc_truncated a;
  gr_exact : acc_truncated a' = false -> texts_of a' = (acc_content a ++ c, default [] (acc_reasoning a) ++ r);
  gr_args : acc_truncated a' = false -> forall i, args_at i (acc_tool_calls a') = args_at i (acc_tool_calls a) ++ t i;
  gr_content : acc_content a' `prefix_of` acc_content a ++ c;
  gr_reasoning : default [] (acc_reasoning a') `prefix_of` default [] (acc_reasoning a) ++ r
}.

Lemma grows_refl a : grows [] [] (fun _ => []) 0 a a.
Proof. constructor; rewrite ?app_nil_r; try done; [lia|]. intros _ i. by rewrite app_nil_r. Qed.

(** A truncated copy is left alone. *)
Lemma grows_stuck c r t n a : 0 <= n -> acc_truncated a = true -> grows c r t n a a.
Proof. intros Hn H. constructor; try done; try (by apply prefix_app_r); [lia|congruence..]. Qed.

Lemma grows_trans c1 r1 t1 n1 c2 r2 t2 n2 a b d :
  grows c1 r1 t1 n1 a b -> grows c2 r2 t2 n2 b d ->
  grows (c1 ++ c2) (r1 ++ r2) (fun i => t1 i ++ t2 i) (n1 + n2) a d.
Proof.
  intros H1 H2. pose proof (gr_bytes _ _ _ _ _ _ H1). pose proof (gr_bytes _ _ _ _ _ _ H2).
  assert (acc_truncated d = false -> acc_truncated b = false) as Hback.
  { intros Hd. destruct (acc_truncated b) eqn:E; [|done]. apply (gr_stuck _ _ _ _ _ _ H2) in E as [? _]. congruence. }
  constructor.
  - intros [Hb Eb]%(gr_stuck _ _ _ _ _ _ H1). apply (gr_stuck _ _ _ _ _ _ H2) in Hb as [? ?]. split; congruence.
  - lia.
  - intros Hf. rewrite (gr_fits _ _ _ _ _ _ H2) by lia. apply (gr_fits _ _ _ _ _ _ H1). lia.
  - intros Hd. rewrite (gr_exact _ _ _ _ _ _ H2 Hd). pose proof (gr_exact _ _ _ _ _ _ H1 (Hback Hd)) as E.
    injection E as -> ->. by rewrite !app_assoc.
  - intros Hd i. by rewrite (gr_args _ _ _ _ _ _ H2 Hd), (gr_args _ _ _ _ _ _ H1 (Hback Hd)), app_assoc.
  - destruct (acc_truncated b) eqn:E.
    + apply (gr_stuck _ _ _ _ _ _ H2) in E as [_ E]. injection E as -> _. rewrite app_assoc.
      apply prefix_app_r, (gr_content _ _ _ _ _ _ H1).
    + pose proof (gr_exact _ _ _ _ _ _ H1 E) as E'. injection E' as E' _.
      rewrite app_assoc, <- E'. apply (gr_content _ _ _ _ _ _ H2).
  - destruct (acc_truncated b) eqn:E.
    + apply (gr_stuck _ _ _ _ _ _ H2) in E as [_ E]. injection E as _ ->. rewrite app_assoc.
      apply prefix_app_r, (gr_reasoning _ _ _ _ _ _ H1).
    + pose proof (gr_exact _ _ _ _ _ _ H1 E) as E'. injection E' as _ E'.
      rewrite app_assoc, <- E'. apply (gr_reasoning _ _ _ _ _ _ H2).
Qed.

Lemma grows_ext c r t t' n n' a b : (forall i, t i = t' i) -> n = n' -> grows c r t n a b -> grows c r t' n' a b.
Proof.
  intros Ht <- [G1 G2 G3 G4 G5 G6 G7]. constructor; try done. intros Hb i. rewrite <- Ht. by apply G5.
Qed.

Lemma grows_content raw a :
  acc_truncated a = false -> grows (decode_text raw) [] (fun _ => []) (blen raw) a (append_content raw a).
Proof.
  intros Ht. unfold append_content. pose proof (blen_nonneg raw). destruct (_ <? _) eqn:E.
  - apply Z.ltb_lt in E. constructor; cbn; try done; try lia; by apply prefix_app_r.
  - rewrite decode_into, blen_app. pose proof (decode_blen raw). pose proof (blen_nonneg (decode_text raw)).
    constructor; cbn; try done; try lia; try congruence; try (by rewrite ?app_nil_r).
    intros _ i. by rewrite app_nil_r.
Qed.

Lemma grows_reasoning raw a : grows [] (decode_text raw) (fun _ => []) (blen raw) a (append_reasoning raw a).
Proof.
  unfold append_reasoning. pose proof (blen_nonneg raw). destruct (acc_truncated a) eqn:Et; cbn [orb].
  { by apply grows_stuck. }
  case_bool_decide as Hn; [subst raw; apply grows_refl|]. destruct (_ <? _) eqn:E.
  - apply Z.ltb_lt in E. constructor; cbn; try done; try lia; by apply prefix_app_r.
  - rewrite decode_into, blen_app. pose proof (decode_blen raw). pose proof (blen_nonneg (decode_text raw)).
    constructor; cbn; try done; try lia; try congruence; try (by rewrite ?app_nil_r).
    intros _ i. by rewrite app_nil_r.
Qed.

Lemma grows_tool tc a :
  grows [] [] (fun i => if bool_decide (default 0%nat (tp_index tc) = i) then fragment tc else []) (blen (fragment tc))
    a (apply_tool_probe a tc).
Proof.
  pose proof (update_tool_spec (default 0%nat (tp_index tc)) (tp_id tc) (tp_function tc ≫= fp_name)
    (tp_function tc ≫= fp_arguments) a) as (S1 & S2 & _ & S4).
  change (default [] (tp_function tc ≫= fp_arguments)) with (fragment tc) in S4.
  fold (apply_tool_probe a tc) in *. pose proof (blen_nonneg (fragment tc)).
  assert (texts_of (apply_tool_probe a tc) = texts_of a) as Htx by (unfold texts_of; congruence).
  constructor.
  - intros Ha. destruct S4 as [(-> & _)|(-> & _)]; done.
  - destruct S4 as [(_ & _ & -> & _)|(_ & _ & -> & _)]; lia.
  - intros Hf. destruct S4 as [(_ & _ & _ & ?)|(-> & _)]; [lia|done].
  - intros _. by rewrite Htx, !app_nil_r.
  - intros Hf i. apply update_args_at; [|done]. destruct S4 as [(Hx & _)|(Hx & _)]; congruence.
  - by rewrite S1, app_nil_r.
  - by rewrite S2, app_nil_r.
Qed.

Lemma grows_tools l a :
  grows [] [] (fun i => fragments_of i l) (Z.of_nat (sum_list_with (fun tc => length (fragment tc)) l))
    a (foldl apply_tool_probe a l).
Proof.
  revert a. induction l as [|tc l IH]; intros a; [apply grows_refl|]. cbn [foldl].
  pose proof (grows_trans _ _ _ _ _ _ _ _ _ _ _ (grows_tool tc a) (IH _)) as H.
  eapply grows_ext, H; [done|]. cbn [sum_list_with]. unfold blen. lia.
Qed.

Lemma grows_tool_payload p a :
  grows [] [] (fun i => fragments_of i (chunk_tools p))
    (Z.of_nat (sum_list_with (fun tc => length (fragment tc)) (chunk_tools p))) a
    (if contains_bytes (quoted "tool_calls") p then append_delta_tool_calls_if_present probe p a else a).
Proof.
  unfold append_delta_tool_calls_if_present, chunk_tools.
  destruct (contains_bytes (quoted "tool_calls") p) eqn:Ec;
    [|unfold parse_tool_call_probe; rewrite Ec; apply grows_refl].
  destruct (parse_tool_call_probe probe p) as [l|]; [apply grows_tools|apply grows_refl].
Qed.

Lemma chunk_bytes_nonneg p : 0 <= chunk_bytes p.
Proof. unfold chunk_bytes, blen. lia. Qed.

(** One payload. *)
Lemma grows_chunk p a :
  grows (chunk_content p) (chunk_reasoning p) (fun i => fragments_of i (chunk_tools p)) (chunk_bytes p)
    a (process_chunk probe p a).
Proof.
  unfold process_chunk. destruct (acc_truncated a) eqn:Et; [apply grows_stuck; [apply chunk_bytes_nonneg|done]|].
  unfold chunk_bytes, chunk_content, chunk_reasoning, extract_delta_content, extract_reasoning_content. cbv zeta.
  set (f := extract_delta_fields p).
  set (a1 := match df_content f with Some _ => _ | None => _ end).
  assert (grows (from_option decode_text [] (df_content f)) [] (fun _ => []) (blen (default [] (df_content f))) a a1) as H1
    by (subst a1; destruct (df_content f); [by apply grows_content|apply grows_refl]).
  set (a2 := if contains_bytes _ _ then _ else _).
  pose proof (grows_trans _ _ _ _ _ _ _ _ _ _ _ H1 (grows_tool_payload p a1)) as H2. fold a2 in H2.
  assert (grows [] (from_option decode_text [] (df_reasoning f)) (fun _ => []) (blen (default [] (df_reasoning f))) a2
    (match df_reasoning f with Some rc => append_reasoning rc a2 | None => a2 end)) as H3
    by (destruct (df_reasoning f); [apply grows_reasoning|apply grows_refl]).
  pose proof (grows_trans _ _ _ _ _ _ _ _ _ _ _ H2 H3) as H4. rewrite !app_nil_r in H4.
  eapply grows_ext, H4; [intros i; simpl; apply app_nil_r|lia].
Qed.

(** A whole stream. *)
Lemma grows_stream ps a :
  grows (ps ≫= chunk_content) (ps ≫= chunk_reasoning) (fun i => fragments_of i (ps ≫= chunk_tools)) (stream_bytes ps)
    a (foldl (fun a p => process_chunk probe p a) a ps).
Proof.
  revert a. induction ps as [|p ps IH]; intros a; [apply grows_refl|]. cbn [foldl].
  pose proof (grows_trans _ _ _ _ _ _ _ _ _ _ _ (grows_chunk p a) (IH _)) as H.
  eapply grows_ext, H; [|done]. intros i. csimpl. unfold fragments_of. by rewrite bind_app.
Qed.

End stream.

(** ** Streams of well-formed payloads *)

Record StreamChunk := mkChunk {
  ch_before : str; ch_ws1 : str; ch_ws2 : str; ch_ws3 : str;
  ch_members : list Member; ch_after : str;
  ch_content : option (list Piece); ch_reasoning : option (list Piece)
}.

Definition chunk_payload (c : StreamChunk) : str :=
  ch_before c ++ DELTA_KEY ++ ch_ws1 c ++ 58 :: ch_ws2 c ++ 123 :: ch_ws3 c ++ members_text (ch_members c) ++ 125 :: ch_after c.

Definition chunk_ok (c : StreamChunk) : Prop :=
  find_sub DELTA_KEY (ch_before c ++ DELTA_KEY) = Some (length (ch_before c))
  /\ blank (ch_ws1 c) /\ blank (ch_ws2 c) /\ blank (ch_ws3 c) /\ Forall member_ok (ch_members c)
  /\ first_member (bytes_of "content") (ch_members c) = body_text <$> ch_content c
  /\ first_member (bytes_of "reasoning_content") (ch_members c) = body_text <$> ch_reasoning c
  /\ (forall ps, ch_content c = Some ps -> Forall piece_wf ps)
  /\ (forall ps, ch_reasoning c = Some ps -> Forall piece_wf ps).

(** The text a chunk denotes. *)
Definition denoted (o : option (list Piece)) : str := from_option body_chars [] o.

Lemma decode_denoted o : (forall ps, o = Some ps -> Forall piece_wf ps) ->
  from_option decode_text [] (body_text <$> o) = denoted o.
Proof.
  destruct o as [ps|]; [|done]. intros H. simpl.
  rewrite <- (app_nil_r (body_text ps)), decode_body by (by apply H). apply app_nil_r.
Qed.

Lemma chunk_denotes c :
  chunk_ok c -> chunk_content (chunk_payload c) = denoted (ch_content c)
  /\ chunk_reasoning (chunk_payload c) = denoted (ch_reasoning c).
Proof.
  intros (H1 & H2 & H3 & H4 & H5 & H6 & H7 & H8 & H9).
  unfold chunk_content, chunk_reasoning, extract_delta_content, extract_reasoning_content, chunk_payload.
  rewrite extract_spec by done. cbn [df_content df_reasoning]. rewrite H6, H7. by rewrite !decode_denoted.
Qed.

Lemma stream_denotes cs :
  Forall chunk_ok cs ->
  (chunk_payload <$> cs) ≫= chunk_content = cs ≫= (fun c => denoted (ch_content c))
  /\ (chunk_payload <$> cs) ≫= chunk_reasoning = cs ≫= (fun c => denoted (ch_reasoning c)).
Proof.
  induction 1 as [|c cs Hc Hcs [IH1 IH2]]; [done|]. csimpl.
  apply chunk_denotes in Hc as [-> ->]. by rewrite IH1, IH2.
Qed.

Lemma denoted_valid o r : (forall ps, o = Some ps -> Forall piece_wf ps) -> utf8_valid (denoted o ++ r) = utf8_valid r.
Proof.
  destruct o as [ps|]; [|done]. intros H. specialize (H ps eq_refl). simpl. unfold body_chars.
  induction H as [|p ps Hp Hps IH]; [done|]. csimpl. rewrite <- app_assoc, encode_valid by (by apply piece_scalar). done.
Qed.

Lemma stream_valid cs :
  Forall chunk_ok cs -> utf8_valid (cs ≫= (fun c => denoted (ch_content c))) = true.
Proof.
  induction 1 as [|c cs Hc Hcs IH]; [done|]. csimpl. rewrite denoted_valid; [done|]. apply Hc.
Qed.

(** ** Usage *)

Definition cached (u : OpenAIUsage) : option Z := us_details u ≫= ptd_cached_tokens.

Definition usage_key (u : OpenAIUsage) : Z * Z * option Z := (us_prompt u, us_completion u, cached u).

Definition join_key (x y : Z * Z * option Z) : Z * Z * option Z :=
  (Z.max x.1.1 y.1.1, Z.max x.1.2 y.1.2, max_opt x.2 y.2).

Lemma max_opt_comm a b : max_opt a b = max_opt b a.
Proof. destruct a, b; simpl; try done. by rewrite Z.max_comm. Qed.

Lemma max_opt_assoc a b c : max_opt a (max_opt b c) = max_opt (max_opt a b) c.
Proof. destruct a, b, c; simpl; try done. by rewrite Z.max_assoc. Qed.

Lemma merge_key e n : 0 <= us_prompt e -> 0 <= us_prompt n -> usage_key (merge_usage e n) = join_key (usage_key e) (usage_key n).
Proof.
  intros He Hn. unfold usage_key, join_key, cached, merge_usage. cbn. f_equal.
  - f_equal. destruct (0 <? us_prompt n) eqn:E; lia.
  - destruct (us_details e) as [[]|], (us_details n) as [[]|]; simpl; try done. by rewrite max_opt_comm.
Qed.

Lemma join_key_comm x y : join_key x y = join_key y x.
Proof. unfold join_key. by rewrite max_opt_comm, (Z.max_comm x.1.1), (Z.max_comm x.1.2). Qed.

Lemma join_key_assoc x y z : join_key x (join_key y z) = join_key (join_key x y) z.
Proof. unfold join_key. simpl. by rewrite max_opt_assoc, !Z.max_assoc. Qed.

Lemma set_usage_fold us a u0 :
  acc_usage a = Some u0 -> 0 <= us_prompt u0 -> Forall (fun u => 0 <= us_prompt u) us ->
  exists u, acc_usage (foldl (fun a u => set_usage u a) a us) = Some u
    /\ usage_key u = foldr join_key (usage_key u0) (usage_key <$> us).
Proof.
  intros Ha H0 H. revert a u0 Ha H0. induction H as [|n us Hn Hus IH]; intros a u0 Ha H0; [by exists u0|]. cbn [foldl].
  destruct (IH (set_usage n a) (merge_usage u0 n)) as (u & Hu & Hk).
  - unfold set_usage. cbn. by rewrite Ha.
  - unfold merge_usage. cbn. destruct (0 <? us_prompt n); lia.
  - exists u. split; [done|]. rewrite Hk, merge_key by done. clear.
    csimpl. induction us as [|m us IH]; csimpl; [apply join_key_comm|].
    rewrite IH, !join_key_assoc. f_equal. apply join_key_comm.
Qed.

Lemma foldr_join_perm k l l' : l ≡ₚ l' -> foldr join_key k l = foldr join_key k l'.
Proof.
  induction 1 as [|x l l' Hp IH|x y l|l1 l2 l3 H1 IH1 H2 IH2]; simpl; [done|by rewrite IH| |by rewrite IH1].
  by rewrite !join_key_assoc, (join_key_comm y x).
Qed.

Definition counts_ok (u : OpenAIUsage) : Prop := 0 <= us_prompt u /\ 0 <= us_completion u.

Lemma foldr_join_init k l :
  0 <= k.1.1 -> 0 <= k.1.2 -> foldr join_key k l = foldr join_key (0, 0, None) (k :: l).
Proof.
  intros H1 H2. assert (join_key k (0, 0, None) = k) as Hk.
  { destruct k as [[p c] [d|]]; unfold join_key; simpl in *; repeat f_equal; lia. }
  induction l as [|x l IH]; simpl in *; [done|]. rewrite IH, !join_key_assoc. f_equal. apply join_key_comm.
Qed.

Lemma usage_fold_key us :
  us <> [] -> Forall counts_ok us ->
  exists u, acc_usage (foldl (fun a u => set_usage u a) acc_new us) = Some u
    /\ usage_key u = foldr join_key (0, 0, None) (usage_key <$> us).
Proof.
  destruct us as [|u0 us]; [done|]. intros _ H. apply Forall_cons in H as [[Hp Hc] H].
  destruct (set_usage_fold us (set_usage u0 acc_new) u0) as (u & Hu & Hk); [done|done| |].
  { eapply Forall_impl; [done|]. by intros ? [? _]. }
  exists u. split; [done|]. rewrite Hk. by apply foldr_join_init.
Qed.

(** ** Inline errors: the status is an error status *)

Lemma match_patterns_in s ps n : match_patterns s ps = Some n -> n ∈ ps.*2.
Proof.
  unfold match_patterns. intros (kc & Hin & Hf)%find_map_Some. case_match; [|done]. injection Hf as <-.
  by apply list_elem_of_fmap_2.
Qed.

Lemma patterns_range ps s d :
  forallb (fun kc => error_range kc.2) ps = true -> error_range d = true ->
  error_range (default d (match_patterns s ps)) = true.
Proof.
  intros Hps Hd. destruct (match_patterns s ps) as [m|] eqn:E; simpl; [|done].
  apply match_patterns_in, list_elem_of_fmap in E as (kc & -> & Hin). rewrite forallb_forall in Hps.
  by apply Hps, list_elem_of_In.
Qed.

Lemma inline_status_range o : error_range (inline_status o) = true.
Proof.
  assert (error_range (code_status (eo_code o)) = true) as Hc.
  { unfold code_status. destruct (eo_code o) as [[n|s]|]; [by destruct (error_range n) eqn:E| |done].
    assert (error_range (default 502 (match_patterns s CODE_PATTERNS)) = true) as Hd by (by apply patterns_range).
    destruct (parse_unsigned u16_max s) as [n|]; [|done]. by destruct (error_range n) eqn:E. }
  unfold inline_status. destruct (eo_type o) as [t|]; [|done]. destruct (_ =? 502); [|done].
  by apply patterns_range.
Qed.

(** An inline error is only ever reported with a status from 400 to 599. *)
Lemma inline_error_is_an_error probe payload e :
  parse_inline_sse_error probe payload = Some e -> error_range (ie_status e) = true.
Proof.
  unfold parse_inline_sse_error. case_match; [done|]. destruct (probe payload) as [p|]; [|done]. case_match; [done|].
  destruct (ep_error p) as [[o|s]|]; [|by intros [= <-]|done]. intros [= <-]. apply inline_status_range.
Qed.

(** ** Properties *)

(** C32. The recorded copy is bounded: whatever sequence of operations an
    accumulator goes through, Anthropic argument fragments apart, its byte
    counter is exactly the bytes of content, reasoning and tool arguments it
    holds, they are at most the budget of 262144, and the raw lines kept for
    debugging are at most 32768 bytes and a marker. *)
Theorem recorded_bytes_bounded probe ops :
  Forall counted ops ->
  let a := foldl (apply_op probe) acc_new ops in
  acc_total_bytes a = recorded_bytes a
  /\ recorded_bytes a <= MAX_ACCUMULATED_BYTES
  /\ blen (acc_raw a) <= RAW_CAP + 15.
Proof. intros H. apply inv_ops; [done|apply acc_inv_new]. Qed.

Lemma recorded_bytes_bounded_witness :
  let a := foldl (apply_op (fun _ => None)) acc_new
             [OpRawLine (bytes_of "data: {}"); OpReasoning (bytes_of "a\nb"); OpTool None (bytes_of "f") (bytes_of "{}")] in
  acc_total_bytes a = 5 /\ recorded_bytes a <= MAX_ACCUMULATED_BYTES.
Proof.
  set (ops := [_; _; _]).
  assert (Forall counted ops) as Hc by (repeat constructor).
  destruct (recorded_bytes_bounded (fun _ => None) ops Hc) as (_ & Hm & _). split; [vm_compute; done|exact Hm].
Defined.

(** C31. The recorded copy is the stream: over any stream of well-formed
    payloads the recorded content and reasoning are a prefix of the text the
    deltas denote; unless the copy is marked as truncated they are all of it,
    valid UTF-8, with every tool call's arguments the concatenation of its
    fragments; and a stream that fits the budget is never marked. *)
Theorem recorded_text_is_the_stream probe cs :
  Forall chunk_ok cs ->
  let a := foldl (fun a p => process_chunk probe p a) acc_new (chunk_payload <$> cs) in
  acc_content a `prefix_of` cs ≫= (fun c => denoted (ch_content c))
  /\ default [] (acc_reasoning a) `prefix_of` cs ≫= (fun c => denoted (ch_reasoning c))
  /\ (acc_truncated a = false ->
      acc_content a = cs ≫= (fun c => denoted (ch_content c))
      /\ utf8_valid (acc_content a) = true
      /\ default [] (acc_reasoning a) = cs ≫= (fun c => denoted (ch_reasoning c))
      /\ forall i, args_at i (acc_tool_calls a) = fragments_of i ((chunk_payload <$> cs) ≫= chunk_tools probe))
  /\ (stream_bytes probe (chunk_payload <$> cs) <= MAX_ACCUMULATED_BYTES -> acc_truncated a = false).
Proof.
  intros H a. pose proof (grows_stream probe (chunk_payload <$> cs) acc_new) as [_ _ Hfits Hex Hargs Hc Hr].
  fold a in Hfits, Hex, Hargs, Hc, Hr. pose proof (stream_denotes cs H) as [E1 E2]. rewrite E1, E2 in *.
  cbn [acc_new acc_content acc_reasoning acc_tool_calls acc_total_bytes acc_truncated] in *.
  split_and!; [done|done| |].
  - intros Ht. specialize (Hex Ht). injection Hex as Hx1 Hx2. split_and!; [done| |done|apply (Hargs Ht)].
    rewrite Hx1. by apply stream_valid.
  - intros Hb. by apply Hfits.
Qed.

Definition one_chunk (text : list Piece) : StreamChunk :=
  mkChunk [123] [] [] [] [mkMember (bytes_of "content") (VStr (body_text text)) [] [] [] []] [125] (Some text) None.

Lemma one_chunk_ok t : Forall piece_wf t -> chunk_ok (one_chunk t).
Proof.
  intros Ht. split_and!; try done; try (by constructor).
  - repeat constructor. by apply body_ok_text.
  - by intros ps [= <-].
Qed.

Definition example_chunks : list StreamChunk := [one_chunk [PChar 72; PChar 105]; one_chunk [PShort 110; PChar 233]].

Lemma example_chunks_ok : Forall chunk_ok example_chunks.
Proof.
  repeat apply Forall_cons_2; [apply one_chunk_ok..|by constructor]; repeat apply Forall_cons_2; try (by constructor);
    try (by eexists); repeat split; try lia.
Qed.

Lemma recorded_text_is_the_stream_witness :
  let cs := example_chunks in
  acc_content (foldl (fun a p => process_chunk (fun _ => None) p a) acc_new (chunk_payload <$> cs))
  = [72; 105; 10; 195; 169].
Proof.
  intros cs. assert (Forall chunk_ok cs) as Hcs by apply example_chunks_ok.
  destruct (recorded_text_is_the_stream (fun _ => None) cs Hcs) as (_ & _ & Hx & Hb).
  apply Hx. apply Hb. vm_compute. done.
Defined.

(** Usage that arrives in pieces keeps the largest counts: after any
    sequence of usage reports the recorded prompt, completion and cached counts
    are the maxima of the reported ones, so a later sparser report wipes
    nothing and the order of the reports does not matter. *)
Lemma usage_keeps_the_maxima us us' :
  us <> [] -> Forall counts_ok us -> us ≡ₚ us' ->
  exists u u',
    acc_usage (foldl (fun a u => set_usage u a) acc_new us) = Some u
    /\ acc_usage (foldl (fun a u => set_usage u a) acc_new us') = Some u'
    /\ usage_key u = foldr join_key (0, 0, None) (usage_key <$> us)
    /\ usage_key u' = usage_key u.
Proof.
  intros Hn H Hp. destruct (usage_fold_key us Hn H) as (u & Hu & Hk).
  destruct (usage_fold_key us') as (u' & Hu' & Hk').
  - intros ->. by apply Permutation_nil_r in Hp.
  - by rewrite <- Hp.
  - exists u, u'. split_and!; try done. rewrite Hk, Hk'. apply foldr_join_perm. by rewrite Hp.
Qed.

Lemma usage_keeps_the_maxima_witness :
  let start := mkUsage 622 2 624 (Some (mkDetails (Some 100))) in
  let delta := mkUsage 0 89 0 None in
  exists u u',
    acc_usage (set_usage delta (set_usage start acc_new)) = Some u
    /\ acc_usage (set_usage start (set_usage delta acc_new)) = Some u'
    /\ usage_key u = (622, 89, Some 100) /\ usage_key u' = usage_key u.
Proof.
  intros start delta.
  assert (Forall counts_ok [start; delta]) as H by (repeat constructor; simpl; lia).
  exact (usage_keeps_the_maxima [start; delta] [delta; start] ltac:(done) H (perm_swap _ _ _)).
Defined.

(** The argument fragments of Anthropic tool events pass the budget unseen. *)
Lemma anthropic_arguments_uncounted json :
  let a := update_anthropic_tool_use (ToolDelta json) (update_anthropic_tool_use (ToolOpen [] []) acc_new) in
  acc_total_bytes a = 0 /\ acc_truncated a = false /\ recorded_bytes a = blen json.
Proof. unfold recorded_bytes, args_bytes, blen. simpl. split_and!; try done. lia. Qed.

(** A tool call whose index the upstream makes up costs one entry for every
    smaller index. *)
Lemma tool_index_allocates i a :
  length (acc_tool_calls (update_openai_tool_call_delta i None None None a)) = Nat.max (S i) (length (acc_tool_calls a)).
Proof.
  cbn [update_openai_tool_call_delta acc_set_tool_calls acc_tool_calls].
  rewrite length_alter. unfold pad_tool_calls. rewrite length_app, length_replicate. lia.
Qed.
