(* ===== verification/StreamFold.v ===== *)
(** * Lines of a stream, and a stream folded into one answer

    [openproxy-pipeline/src/sse/mod.rs] and [sse/openai.rs]: the lines of an
    OpenAI-compatible stream and the chunk each one is; [sse/stream_to_value.rs]:
    the answer of a client that did not ask for a stream from an upstream that
    sends one (the branch of the OpenAI format); and, from
    [streaming_state/processor.rs], how a chunk's usage and stop reason reach
    the state of the stream and its recorded copy.

    The serde probe of a line, the JSON printer and [String::from_utf8_lossy]
    are parameters, with the last one's documented behaviour on valid UTF-8 as a
    hypothesis. *)

From Stdlib Require Import String.
From S2P Require Import Prelude Text Bytes ThinkExtractor ThinkResponse DeltaScan Accumulator.

(** ** Chunks *)

Record UpstreamSseChunk := mkSseChunk {
  sse_raw_payload : option str;
  sse_payload : Json;
  sse_done : bool;
  sse_usage : option OpenAIUsage;
  sse_stop_reason : option str;
  sse_delta_reasoning : option str;
  sse_delta_tool_calls : list Json;
  sse_has_content : bool
}.

Definition chunk_done : UpstreamSseChunk := mkSseChunk None JNull true None None None [] false.

Definition is_liveness (c : UpstreamSseChunk) : bool :=
  match sse_raw_payload c, sse_payload c with None, JNull => negb (sse_done c) | _, _ => false end.

Definition into_json_string (to_string : Json -> option str) (c : UpstreamSseChunk) : str :=
  match sse_raw_payload c with
  | Some raw => raw
  | None => default (bytes_of "{}") (to_string (sse_payload c))
  end.

(** ** Lines *)

Definition is_crlf (b : Z) : bool := (b =? 13) || (b =? 10).

(** [str::trim_end_matches(\['\r', '\n'\])]. *)
Fixpoint trim_start_crlf (s : str) : str :=
  match s with b :: s' => if is_crlf b then trim_start_crlf s' else s | [] => [] end.
Definition trim_end_crlf (s : str) : str := reverse (trim_start_crlf (reverse s)).

(** [str::trim_start]. *)
Definition trim_start (s : str) : str := trim_by ws_len (length s) s.

Definition parse_sse_data_line (line : str) : option str :=
  let trimmed := trim_end_crlf line in
  match trimmed with
  | [] => None
  | b :: _ =>
      if b =? 58 then None
      else match strip_prefix (bytes_of "data:") trimmed with
           | None => None
           | Some rest => match trim_start rest with [] => None | payload => Some payload end
           end
  end.

Inductive SseDataOrDone := Payload (p : str) | Done | Skip.

Definition parse_sse_data_or_done (line : str) : SseDataOrDone :=
  match parse_sse_data_line line with
  | None => Skip
  | Some payload => if bool_decide (payload = bytes_of "[DONE]") then Done else Payload payload
  end.

(** ** The probe of a line *)

Record DetailsProbe := mkDetailsProbe {
  dp_cached_tokens : option Z; dp_cache_read_input_tokens : option Z; dp_prompt_cache_hit_tokens : option Z
}.

Record OpenAiUsageProbe := mkUsageProbe {
  up_prompt_tokens : option Z; up_completion_tokens : option Z; up_total_tokens : option Z;
  up_prompt_tokens_details : option DetailsProbe; up_input_tokens_details : option DetailsProbe;
  up_prompt_cache_hit_tokens : option Z; up_cached_tokens : option Z; up_cache_read_input_tokens : option Z
}.

Record OpenAiChoiceProbe := mkChoiceProbe {
  cp_finish_reason : option str;
  cp_delta : option (option str)   (* the delta's [reasoning_content] *)
}.

Record OpenAiSseProbe := mkSseProbe {
  sp_usage : option OpenAiUsageProbe; sp_choices : option (list OpenAiChoiceProbe)
}.

Definition or_opt {A} (a b : option A) : option A := match a with Some _ => a | None => b end.

Definition to_u32 (n : Z) : Z := if n <=? u32_max then n else u32_max.

Definition build_openai_usage (prompt completion total : option Z) (details : option PromptTokensDetails) : OpenAIUsage :=
  mkUsage (to_u32 (default 0 prompt)) (to_u32 (default 0 completion)) (to_u32 (default 0 total)) details.

Definition details_cached (d : DetailsProbe) : option Z :=
  or_opt (or_opt (dp_cached_tokens d) (dp_cache_read_input_tokens d)) (dp_prompt_cache_hit_tokens d).

Definition usage_of_probe (u : OpenAiUsageProbe) : OpenAIUsage :=
  let cached :=
    or_opt (or_opt (or_opt (or_opt (up_prompt_tokens_details u ≫= details_cached)
                                   (up_input_tokens_details u ≫= details_cached))
                           (up_prompt_cache_hit_tokens u))
                   (up_cached_tokens u))
           (up_cache_read_input_tokens u) in
  let cached := cached ≫= (fun c => if c <=? u32_max then Some c else None) in
  build_openai_usage (up_prompt_tokens u) (up_completion_tokens u) (up_total_tokens u)
    ((fun c => mkDetails (Some c)) <$> cached).

Section lines.

Context (sse_probe : str -> option OpenAiSseProbe) (tool_probe : str -> option ToolCallProbeOuter)
  (to_string : Json -> option str) (from_utf8_lossy : str -> str).

(** [None]: [CoreError::Parse]. *)
Definition parse_openai_sse_line (line : str) : option (option UpstreamSseChunk) :=
  match parse_sse_data_or_done line with
  | Done => Some (Some chunk_done)
  | Skip => Some None
  | Payload payload =>
      if negb (contains_bytes (quoted "usage") payload || contains_bytes (quoted "finish_reason") payload
               || contains_bytes (quoted "reasoning_content") payload)
      then Some (Some (mkSseChunk (Some payload) JNull false None None None [] true))
      else
        match sse_probe payload with
        | None => None
        | Some probe =>
            let choice := sp_choices probe ≫= last in
            Some (Some (mkSseChunk (Some payload) JNull false (usage_of_probe <$> sp_usage probe)
                          (choice ≫= cp_finish_reason) (choice ≫= (fun c => default None (cp_delta c))) [] true))
        end
  end.

(** ** Folding a stream *)

Definition set_usage_opt (u : option OpenAIUsage) (a : ResponseAccumulator) : ResponseAccumulator :=
  match u with Some u => set_usage u a | None => a end.

Definition feed_chunk_to_acc (a : ResponseAccumulator) (chunk : UpstreamSseChunk) : ResponseAccumulator * bool :=
  if is_liveness chunk then (a, false)
  else
    let json_str := into_json_string to_string chunk in
    let a := set_usage_opt (sse_usage chunk) a in
    let a := match sse_stop_reason chunk with Some sr => set_stop_reason sr a | None => a end in
    let a := match sse_delta_reasoning chunk with Some dr => append_reasoning dr a | None => a end in
    (append_openai_raw tool_probe json_str a, sse_done chunk).

(** [str::lines]: without the line feed and one carriage return, and without
    an empty last line. *)
Definition strip_cr (s : str) : str := match last s with Some b => if b =? 13 then take (pred (length s)) s else s | None => s end.
Definition lines (s : str) : list str :=
  let l := split_byte 10 s in
  strip_cr <$> (match last l with Some [] => take (pred (length l)) l | _ => l end).

Fixpoint fold_openai_lines (ls : list str) (a : ResponseAccumulator) : option ResponseAccumulator :=
  match ls with
  | [] => Some a
  | line :: ls' =>
      match trim_end_crlf line with
      | [] => fold_openai_lines ls' a
      | trimmed =>
          match parse_openai_sse_line trimmed with
          | None => None
          | Some None => fold_openai_lines ls' a
          | Some (Some chunk) =>
              let '(a, done) := feed_chunk_to_acc a chunk in
              if done then Some a else fold_openai_lines ls' a
          end
      end
  end.

(** The branch [TargetFormat::Openai] of [parse_sse_stream_to_openai_response],
    up to the typed response. *)
Definition fold_openai_stream (created : Z) (body model_name : str) : option FinishResponse :=
  finish from_utf8_lossy (bytes_of "chatcmpl_unary") created model_name <$> fold_openai_lines (lines body) acc_new.

End lines.

(** ** Usage and stop reason of a chunk *)

Record StreamMeta := mkMeta {
  sm_usage : option OpenAIUsage; sm_stop_reason : option str; sm_acc : option ResponseAccumulator
}.

(** [prefix]: the estimated tokens of the injected system prefix and of the
    client's own messages, when there is such a prefix. *)
Definition discount_prefix (prefix : option (Z * Z)) (u : OpenAIUsage) : OpenAIUsage :=
  match prefix with
  | None => u
  | Some (prefix_tokens, client_tokens) =>
      let prompt := Z.max (sat_sub (us_prompt u) prefix_tokens) (Z.max client_tokens 1) in
      mkUsage prompt (us_completion u) (wrap_add u32_max prompt (us_completion u)) (us_details u)
  end.

(** The usage of the stream so far, with that of a chunk. *)
Definition sync_usage (prefix : option (Z * Z)) (usage current : option OpenAIUsage) : option OpenAIUsage :=
  match usage with
  | Some new_usage =>
      Some (discount_prefix prefix
              (match current with Some existing => merge_usage existing new_usage | None => new_usage end))
  | None => current
  end.

Definition sync_chunk_metadata_to_accumulator (prefix : option (Z * Z)) (usage : option OpenAIUsage) (stop_reason : option str)
    (overwrite_stop_reason : bool) (s : StreamMeta) : StreamMeta :=
  let usage' := sync_usage prefix usage (sm_usage s) in
  let stop' :=
    if (overwrite_stop_reason && bool_decide (is_Some stop_reason))
       || (bool_decide (is_Some stop_reason) && bool_decide (sm_stop_reason s = None))
    then stop_reason else sm_stop_reason s in
  let acc' :=
    (fun a =>
       let a := set_usage_opt usage' a in
       match stop' with Some sr => set_stop_reason sr a | None => a end) <$> sm_acc s in
  mkMeta usage' stop' acc'.

(** ** What is sent of a translated chunk *)

(** [serde_json::to_value] of a usage. *)
Definition usage_value (u : OpenAIUsage) : Json :=
  JObj ([("completion_tokens", JInt (us_completion u)); ("prompt_tokens", JInt (us_prompt u))]%string
        ++ match us_details u with
           | Some d => [("prompt_tokens_details",
                         JObj [("cached_tokens", match ptd_cached_tokens d with Some n => JInt n | None => JNull end)])]%string
           | None => []
           end
        ++ [("total_tokens", JInt (us_total u))]%string).

(** The last chunk gets the merged usage, unless it has a usage of its own. *)
Definition attach_usage (usage : option OpenAIUsage) (payload : Json) : Json :=
  match usage, payload with
  | Some u, JObj m => if existsb (fun kv => String.eqb kv.1 "usage") m then payload else JObj (json_insert "usage" (usage_value u) m)
  | _, _ => payload
  end.

(** The payloads [handle_translated_chunk] and [handle_translated_done] hand to
    the normalizer, for a chunk without a raw payload and without tool names to
    map back, and the usage of the stream afterwards. *)
Definition sent_chunk (prefix : option (Z * Z)) (usage : option OpenAIUsage) (c : UpstreamSseChunk)
    : option OpenAIUsage * list Json :=
  if sse_done c then
    let usage := sync_usage prefix (sse_usage c) usage in
    let payload := attach_usage usage (sse_payload c) in
    (usage, match payload with JNull => [] | _ => [payload] end)
  else if is_liveness c then (usage, [])
  else (sync_usage prefix (sse_usage c) usage, [sse_payload c]).

Fixpoint sent_payloads (prefix : option (Z * Z)) (usage : option OpenAIUsage) (cs : list UpstreamSseChunk) : list Json :=
  match cs with
  | [] => []
  | c :: cs' => let '(usage, out) := sent_chunk prefix usage c in out ++ sent_payloads prefix usage cs'
  end.

(** ** Lines of a body *)

Lemma split_byte_none c s : c ∉ s -> split_byte c s = [s].
Proof.
  induction s as [|b s IH]; [done|]. intros H. apply not_elem_of_cons in H as [H1 H2]. simpl.
  replace (b =? c) with false by (symmetry; apply Z.eqb_neq; congruence). by rewrite IH.
Qed.

Lemma split_byte_nonempty c s : split_byte c s <> [].
Proof. destruct s as [|b s]; [done|]. simpl. case_match; [done|]. by destruct (split_byte c s). Qed.

Lemma lines_cons a b : 10 ∉ a -> lines (a ++ 10 :: b) = strip_cr a :: lines b.
Proof.
  intros Ha. unfold lines. rewrite split_byte_app, (split_byte_none _ _ Ha). cbv zeta.
  pose proof (split_byte_nonempty 10 b) as Hn. destruct (split_byte 10 b) as [|x l]; [done|].
  change ([a] ++ x :: l) with (a :: x :: l). change (last (a :: x :: l)) with (last (x :: l)).
  destruct (last (x :: l)) as [[|]|]; done.
Qed.

Definition payload_ok (p : str) : Prop := head p = Some 123 /\ Forall (fun b => b <> 10 /\ b <> 13) p.

Definition data_line (p : str) : str := bytes_of "data: " ++ p.
Definition frame (p : str) : str := data_line p ++ [10; 10].
Definition DONE_FRAME : str := bytes_of "data: [DONE]" ++ [10; 10].

Lemma payload_last p : payload_ok p -> exists b, last p = Some b /\ is_crlf b = false /\ b <> 13.
Proof.
  intros [Hh Hf]. destruct (last p) as [b|] eqn:E; [|by apply last_None in E as ->].
  exists b. apply last_Some_elem_of in E. rewrite Forall_forall in Hf. specialize (Hf b).
  destruct Hf as [H1 H2]; [done|]. unfold is_crlf. split_and!; [done|lia|done].
Qed.

Lemma trim_end_id s b : last s = Some b -> is_crlf b = false -> trim_end_crlf s = s.
Proof.
  intros Hl Hb. apply last_Some in Hl as [s' ->]. unfold trim_end_crlf. rewrite reverse_app. simpl.
  rewrite Hb. change (b :: reverse s') with ([b] ++ reverse s').
  by rewrite reverse_app, reverse_involutive.
Qed.

Lemma data_line_last p : payload_ok p -> exists b, last (data_line p) = Some b /\ is_crlf b = false /\ b <> 13.
Proof.
  intros H. destruct (payload_last p H) as (b & Hb & ? & ?). exists b. split; [|done].
  unfold data_line. rewrite last_app, Hb. done.
Qed.

Lemma strip_cr_data p : payload_ok p -> strip_cr (data_line p) = data_line p.
Proof.
  intros H. destruct (data_line_last p H) as (b & Hb & _ & Hn). unfold strip_cr. rewrite Hb.
  by apply Z.eqb_neq in Hn as ->.
Qed.

Lemma data_line_nl p : payload_ok p -> 10 ∉ data_line p.
Proof.
  intros [_ Hf] Hin. unfold data_line in Hin. apply elem_of_app in Hin as [Hin|Hin]; [by vm_compute in Hin; set_solver|].
  rewrite Forall_forall in Hf. by destruct (Hf 10 Hin).
Qed.

Lemma parse_data_line p : payload_ok p -> parse_sse_data_or_done (data_line p) = Payload p.
Proof.
  intros H. destruct (data_line_last p H) as (b & Hb & Hc & _). unfold parse_sse_data_or_done, parse_sse_data_line.
  rewrite (trim_end_id _ b) by done. destruct H as [Hh _]. destruct p as [|x p]; [done|]. injection Hh as ->.
  assert (strip_prefix (bytes_of "data:") (data_line (123 :: p)) = Some (32 :: 123 :: p)) as Hs
    by (by apply strip_prefix_spec).
  cbn [data_line app]. change (bytes_of "data: " ++ 123 :: p) with (data_line (123 :: p)).
  rewrite Hs. change (data_line (123 :: p)) with (100 :: (drop 1 (bytes_of "data: ") ++ 123 :: p)).
  assert (trim_start (32 :: 123 :: p) = 123 :: p) as -> by (by destruct p as [|? [|? ?]]).
  change (100 =? 58) with false. cbv iota beta. by rewrite bool_decide_false by done.
Qed.

(** ** One answer *)

Section fold.

Context (sse_probe : str -> option OpenAiSseProbe) (tool_probe : str -> option ToolCallProbeOuter)
  (to_string : Json -> option str) (from_utf8_lossy : str -> str).

Hypothesis print_null : to_string JNull = Some (bytes_of "null").
Hypothesis lossy_valid : forall s, utf8_valid s = true -> from_utf8_lossy s = s.

Notation parse_line := (parse_openai_sse_line sse_probe).
Notation feed := (feed_chunk_to_acc tool_probe to_string).
Notation fold_lines := (fold_openai_lines sse_probe tool_probe to_string).

Definition needs_probe (p : str) : bool :=
  contains_bytes (quoted "usage") p || contains_bytes (quoted "finish_reason") p
  || contains_bytes (quoted "reasoning_content") p.

(** The reasoning a line is given by its probe. *)
Definition line_reasoning (p : str) : option str :=
  if needs_probe p
  then (sse_probe p ≫= (fun probe => sp_choices probe ≫= last)) ≫= (fun c => default None (cp_delta c))
  else None.

(** The bytes a line asks of the budget. *)
Definition line_bytes (p : str) : Z :=
  blen (default [] (line_reasoning p)) + blen (default [] (extract_delta_content p))
  + Z.of_nat (sum_list_with (fun tc => length (fragment tc)) (chunk_tools tool_probe p)).

Definition lines_bytes (ps : list str) : Z := foldr (fun p n => line_bytes p + n) 0 ps.

Lemma parse_line_spec p :
  payload_ok p -> is_Some (sse_probe p) ->
  exists u sr, parse_line (data_line p) = Some (Some (mkSseChunk (Some p) JNull false u sr (line_reasoning p) [] true)).
Proof.
  intros Hp [probe Hprobe]. unfold parse_openai_sse_line, line_reasoning. rewrite parse_data_line by done.
  fold (needs_probe p). destruct (needs_probe p); cbn [negb]; [|by eexists _, _].
  rewrite Hprobe. by eexists _, _.
Qed.

Lemma grows_same a a' :
  acc_truncated a' = acc_truncated a -> acc_total_bytes a' = acc_total_bytes a -> texts_of a' = texts_of a ->
  acc_tool_calls a' = acc_tool_calls a -> grows [] [] (fun _ => []) 0 a a'.
Proof.
  intros Ht Hb Hx Hc. injection Hx as Hx1 Hx2.
  constructor; rewrite ?Ht, ?Hb, ?Hc, ?app_nil_r, ?Hx1, ?Hx2; try done; try lia.
  - intros ->. split; [done|]. unfold texts_of. congruence.
  - intros _. unfold texts_of. congruence.
  - intros _ i. by rewrite app_nil_r.
Qed.

Lemma grows_raw p a :
  grows (chunk_content p) [] (fun i => fragments_of i (chunk_tools tool_probe p))
    (blen (default [] (extract_delta_content p))
     + Z.of_nat (sum_list_with (fun tc => length (fragment tc)) (chunk_tools tool_probe p)))
    a (append_openai_raw tool_probe p a).
Proof.
  unfold append_openai_raw. destruct (acc_truncated a) eqn:Et; [apply grows_stuck; [unfold blen; lia|done]|]. cbv zeta.
  assert (grows (chunk_content p) [] (fun _ => []) (blen (default [] (extract_delta_content p))) a
    (append_delta_content_if_present p a)) as H1.
  { unfold append_delta_content_if_present, chunk_content.
    destruct (extract_delta_content p); [by apply grows_content|apply grows_refl]. }
  pose proof (grows_trans _ _ _ _ _ _ _ _ _ _ _ H1 (grows_tool_payload tool_probe p _)) as H2.
  rewrite app_nil_r in H2. done.
Qed.

Lemma grows_feed p u sr dr a :
  let chunk := mkSseChunk (Some p) JNull false u sr dr [] true in
  (feed a chunk).2 = false
  /\ grows (chunk_content p) (from_option decode_text [] dr) (fun i => fragments_of i (chunk_tools tool_probe p))
       (blen (default [] dr) + blen (default [] (extract_delta_content p))
        + Z.of_nat (sum_list_with (fun tc => length (fragment tc)) (chunk_tools tool_probe p)))
       a (feed a chunk).1.
Proof.
  split; [done|]. unfold feed_chunk_to_acc. cbn [is_liveness sse_raw_payload into_json_string fst sse_usage sse_stop_reason sse_delta_reasoning].
  set (a1 := set_usage_opt u a). set (a2 := match sr with Some sr => set_stop_reason sr a1 | None => a1 end).
  assert (grows [] [] (fun _ => []) 0 a a2) as H2.
  { apply grows_same; subst a2 a1; unfold set_usage_opt, set_stop_reason, texts_of; destruct u, sr; cbn; try done;
      by destruct (acc_stop_reason a). }
  set (a3 := match dr with Some dr => append_reasoning dr a2 | None => a2 end).
  assert (grows [] (from_option decode_text [] dr) (fun _ => []) (blen (default [] dr)) a2 a3) as H3
    by (subst a3; destruct dr; [apply grows_reasoning|apply grows_refl]).
  pose proof (grows_trans _ _ _ _ _ _ _ _ _ _ _ (grows_trans _ _ _ _ _ _ _ _ _ _ _ H2 H3) (grows_raw p a3)) as H4.
  rewrite !app_nil_r in H4. eapply grows_ext, H4; [done|lia].
Qed.

Lemma fold_data_line p rest a :
  payload_ok p -> is_Some (sse_probe p) ->
  exists u sr,
    let chunk := mkSseChunk (Some p) JNull false u sr (line_reasoning p) [] true in
    fold_lines (lines (frame p ++ rest)) a = fold_lines (lines rest) (feed a chunk).1.
Proof.
  intros Hp Hprobe. destruct (parse_line_spec p Hp Hprobe) as (u & sr & Hparse). exists u, sr. cbv zeta.
  unfold frame. rewrite <- app_assoc. cbn [app]. rewrite lines_cons by (by apply data_line_nl).
  change (10 :: rest) with ([] ++ 10 :: rest). rewrite lines_cons by set_solver.
  rewrite strip_cr_data by done. cbn [fold_openai_lines]. destruct (data_line_last p Hp) as (b & Hb & Hc & _).
  rewrite (trim_end_id _ b) by done. destruct (data_line p) eqn:E; [done|]. rewrite Hparse.
  destruct (grows_feed p u sr (line_reasoning p) a) as [Hd _]. cbv zeta in Hd.
  destruct (feed a _) as [a1 d]. cbn [snd fst] in *. by subst d.
Qed.

Lemma fold_frames ps rest a :
  Forall payload_ok ps -> Forall (fun p => is_Some (sse_probe p)) ps ->
  exists a', fold_lines (lines ((ps ≫= frame) ++ rest)) a = fold_lines (lines rest) a'
    /\ grows (ps ≫= chunk_content) (ps ≫= (fun p => from_option decode_text [] (line_reasoning p)))
         (fun i => fragments_of i (ps ≫= chunk_tools tool_probe)) (lines_bytes ps) a a'.
Proof.
  intros Hp. revert a. induction Hp as [|p ps Hp Hps IH]; intros a Hq; [exists a; split; [done|apply grows_refl]|].
  apply Forall_cons in Hq as [Hq Hqs]. rewrite !bind_cons, <- app_assoc.
  destruct (fold_data_line p ((ps ≫= frame) ++ rest) a Hp Hq) as (u & sr & ->).
  destruct (grows_feed p u sr (line_reasoning p) a) as [_ H1]. set (a1 := (feed a _).1) in *.
  destruct (IH a1 Hqs) as (a' & -> & H2). exists a'. split; [done|].
  pose proof (grows_trans _ _ _ _ _ _ _ _ _ _ _ H1 H2) as H3.
  eapply grows_ext, H3; [|done]. intros i. unfold fragments_of. by rewrite bind_app.
Qed.

Lemma fold_done rest a : fold_lines (lines (DONE_FRAME ++ rest)) a = Some a.
Proof.
  unfold DONE_FRAME. rewrite <- app_assoc. cbn [app].
  rewrite lines_cons by (vm_compute; set_solver). cbn [fold_openai_lines].
  change (trim_end_crlf (strip_cr (bytes_of "data: [DONE]"))) with (bytes_of "data: [DONE]").
  change (bytes_of "data: [DONE]") with (100 :: drop 1 (bytes_of "data: [DONE]")). cbv iota beta.
  change (parse_line (100 :: drop 1 (bytes_of "data: [DONE]"))) with (Some (Some chunk_done)).
  unfold feed_chunk_to_acc. cbn [is_liveness chunk_done sse_raw_payload sse_payload sse_done negb set_usage_opt sse_usage
    sse_stop_reason sse_delta_reasoning into_json_string]. rewrite print_null. cbn [default from_option id].
  unfold append_openai_raw. destruct (acc_truncated a); [done|].
  unfold append_delta_content_if_present. change (extract_delta_content (bytes_of "null")) with (@None str).
  change (contains_bytes (quoted "tool_calls") (bytes_of "null")) with false. done.
Qed.

Lemma finish_content chunk_id created model a :
  utf8_valid (acc_content a) = true ->
  default [] (fm_content (fr_message (finish from_utf8_lossy chunk_id created model a))) = acc_content a.
Proof.
  intros H. cbn. case_bool_decide as E; [by rewrite E|]. simpl. by apply lossy_valid.
Qed.

Lemma fold_stream_spec created model cs rest :
  Forall chunk_ok cs -> Forall payload_ok (chunk_payload <$> cs) ->
  Forall (fun p => is_Some (sse_probe p)) (chunk_payload <$> cs) ->
  lines_bytes (chunk_payload <$> cs) <= MAX_ACCUMULATED_BYTES ->
  exists r,
    fold_openai_stream sse_probe tool_probe to_string from_utf8_lossy created
      (((chunk_payload <$> cs) ≫= frame) ++ DONE_FRAME ++ rest) model = Some r
    /\ default [] (fm_content (fr_message r)) = cs ≫= (fun c => denoted (ch_content c))
    /\ fm_truncated (fr_message r) = false
    /\ (forall i, from_option ft_arguments [] (default [] (fm_tool_calls (fr_message r)) !! i)
         = fragments_of i ((chunk_payload <$> cs) ≫= chunk_tools tool_probe)).
Proof.
  intros Hcs Hp Hq Hb. unfold fold_openai_stream.
  destruct (fold_frames (chunk_payload <$> cs) (DONE_FRAME ++ rest) acc_new Hp Hq) as (a & -> & [_ _ Hfits Hex Hargs _ _]).
  rewrite fold_done. eexists. split; [done|].
  assert (acc_truncated a = false) as Ht by (rewrite Hfits; [done|exact Hb]).
  specialize (Hex Ht). injection Hex as Hc _. specialize (Hargs Ht).
  destruct (stream_denotes cs Hcs) as [E _]. rewrite E in Hc. cbn [acc_new acc_content app] in Hc.
  assert (utf8_valid (acc_content a) = true) as Hv by (rewrite Hc; by apply stream_valid).
  split_and!; [by rewrite finish_content|by cbn; rewrite Ht|].
  intros i. specialize (Hargs i). change (args_at i (acc_tool_calls acc_new)) with (@nil Z) in Hargs.
  cbn [app] in Hargs. rewrite <- Hargs. unfold finish, args_at. cbn [fr_message fm_tool_calls].
  destruct (acc_tool_calls a) as [|tc l]; [done|]. cbn [default from_option id]. rewrite list_lookup_fmap.
  by destruct ((tc :: l) !! i).
Qed.

End fold.

(** ** Properties *)

(** C23. A stream folded into one answer is the stream: for a body of data
    lines of well-formed payloads that ends with the sentinel, whatever follows
    it, when the probes parse and the text fits the budget, the fold succeeds
    and its message is all the text the deltas denote, not marked as truncated,
    with every tool call's arguments complete. *)
Theorem unary_answer_is_the_stream sse_probe tool_probe to_string from_utf8_lossy created model cs rest :
  to_string JNull = Some (bytes_of "null") ->
  (forall s, utf8_valid s = true -> from_utf8_lossy s = s) ->
  Forall chunk_ok cs -> Forall payload_ok (chunk_payload <$> cs) ->
  Forall (fun p => is_Some (sse_probe p)) (chunk_payload <$> cs) ->
  lines_bytes sse_probe tool_probe (chunk_payload <$> cs) <= MAX_ACCUMULATED_BYTES ->
  exists r,
    fold_openai_stream sse_probe tool_probe to_string from_utf8_lossy created
      (((chunk_payload <$> cs) ≫= frame) ++ DONE_FRAME ++ rest) model = Some r
    /\ default [] (fm_content (fr_message r)) = cs ≫= (fun c => denoted (ch_content c))
    /\ fm_truncated (fr_message r) = false
    /\ (forall i, from_option ft_arguments [] (default [] (fm_tool_calls (fr_message r)) !! i)
         = fragments_of i ((chunk_payload <$> cs) ≫= chunk_tools tool_probe)).
Proof. intros. by apply fold_stream_spec. Qed.

Lemma unary_answer_is_the_stream_witness :
  let cs := example_chunks in
  let probe := fun _ : str => Some (mkSseProbe None None) in
  exists r,
    fold_openai_stream probe (fun _ => None) (fun _ => Some (bytes_of "null")) id 0
      (((chunk_payload <$> cs) ≫= frame) ++ DONE_FRAME ++ bytes_of "ignored") [] = Some r
    /\ default [] (fm_content (fr_message r)) = [72; 105; 10; 195; 169].
Proof.
  intros cs probe. assert (Forall chunk_ok cs) as Hcs by apply example_chunks_ok.
  assert (Forall payload_ok (chunk_payload <$> cs)) as Hp.
  { vm_compute. repeat constructor; done. }
  destruct (unary_answer_is_the_stream probe (fun _ => None) (fun _ => Some (bytes_of "null")) id 0 [] cs
    (bytes_of "ignored")) as (r & Hr & Hc & _); [done|done|done|done| | |].
  - repeat constructor; by eexists.
  - vm_compute. done.
  - exists r. split; [exact Hr|exact Hc].
Defined.

(** Reasoning that arrives through the probe is already decoded, and is decoded
    again: a backslash followed by an [n] becomes a line feed. *)
Lemma reasoning_decoded_twice tool_probe to_string p :
  extract_delta_content p = None -> contains_bytes (quoted "tool_calls") p = false ->
  acc_reasoning (feed_chunk_to_acc tool_probe to_string acc_new
    (mkSseChunk (Some p) JNull false None None (Some [92; 110]) [] true)).1 = Some [10].
Proof.
  intros Hc Ht. cbn. unfold append_openai_raw, append_delta_content_if_present. cbn. by rewrite Hc, Ht.
Qed.

(** An answer whose text does not fit loses it: the client of the fold is not
    given a stream. *)
Lemma unary_answer_loses_text raw :
  MAX_ACCUMULATED_BYTES < blen raw ->
  acc_content (append_content raw acc_new) = [] /\ acc_truncated (append_content raw acc_new) = true.
Proof. intros H. unfold append_content. cbn [acc_new acc_total_bytes]. apply Z.ltb_lt in H. by rewrite Z.add_0_l, H. Qed.

(** An injected prefix is discounted again by a later report that repeats no
    prompt count, while the recorded copy keeps the first discount. *)
Lemma prefix_discounted_twice :
  let start := mkUsage 1000 1 1001 None in
  let delta := mkUsage 0 50 0 None in
  let s := sync_chunk_metadata_to_accumulator (Some (100, 10)) (Some delta) None false
             (sync_chunk_metadata_to_accumulator (Some (100, 10)) (Some start) None false (mkMeta None None (Some acc_new))) in
  us_prompt <$> sm_usage s = Some 800 /\ us_prompt <$> (sm_acc s ≫= acc_usage) = Some 900.
Proof. done. Qed.
