(* ===== verification/Framing.v ===== *)
(** * Frames cut from a byte stream

    The binary upstreams send frames that carry their own length.  A deframer
    buffers what arrives ([push]) and pops complete frames ([next_frame]); the
    loop of [run_pipeline] pushes each chunk and pops until nothing complete is
    left, and the folds of a whole body push it once.

    [Deframer] is what that loop relies on: a complete frame or an error does not
    depend on what follows it, an incomplete one leaves the buffer alone, and a
    frame takes bytes.  Under it the frames and the error do not depend on how
    the transport cut the stream. *)

From S2P Require Import Prelude Text Bytes.

Class Deframer (F E : Type) (next_frame : str -> (E + option F) * str) : Prop := {
  next_frame_app b x r y :
    next_frame b = (inr (Some x), r) -> next_frame (b ++ y) = (inr (Some x), r ++ y);
  next_frame_error b e y : fst (next_frame b) = inl e -> fst (next_frame (b ++ y)) = inl e;
  next_frame_pending b r : next_frame b = (inr None, r) -> r = b;
  next_frame_takes b x r : next_frame b = (inr (Some x), r) -> (length r < length b)%nat
}.

Section frames.
Context {F E : Type} (next_frame : str -> (E + option F) * str) `{!Deframer F E next_frame}.

(** [loop { let Some(frame) = deframer.next_frame()? else { break }; ... }]: the
    frames, the error that ended the loop, and the buffer. *)
Fixpoint pop_frames (fuel : nat) (buf : str) : list F * option E * str :=
  match fuel with
  | O => ([], None, buf)
  | S f =>
      match next_frame buf with
      | (inl e, b) => ([], Some e, b)
      | (inr None, b) => ([], None, b)
      | (inr (Some x), b) => let '(l, e, r) := pop_frames f b in (x :: l, e, r)
      end
  end.

Definition drain (buf : str) : list F * option E * str := pop_frames (S (length buf)) buf.

(** The loop over the chunks of the body, from a buffer. *)
Fixpoint feed (chunks : list str) (buf : str) : list F * option E * str :=
  match chunks with
  | [] => ([], None, buf)
  | c :: cs =>
      match drain (buf ++ c) with
      | (l, Some e, r) => (l, Some e, r)
      | (l, None, r) => let '(l', e', r') := feed cs r in (l ++ l', e', r')
      end
  end.

Lemma pop_frames_fuel n m buf : (length buf < n)%nat -> (length buf < m)%nat -> pop_frames n buf = pop_frames m buf.
Proof using Type*.
  revert m buf. induction n as [|n IH]; intros [|m] buf Hn Hm; try lia. cbn [pop_frames].
  destruct (next_frame buf) as [[e|[x|]] b] eqn:E1; [done| |done].
  pose proof (next_frame_takes _ _ _ E1). by rewrite (IH m b) by lia.
Qed.

Lemma drain_unfold buf :
  drain buf =
  match next_frame buf with
  | (inl e, b) => ([], Some e, b)
  | (inr None, b) => ([], None, b)
  | (inr (Some x), b) => let '(l, e, r) := drain b in (x :: l, e, r)
  end.
Proof using Type*.
  unfold drain at 1. cbn [pop_frames]. destruct (next_frame buf) as [[e|[x|]] b] eqn:E1; [done| |done].
  pose proof (next_frame_takes _ _ _ E1). unfold drain. by rewrite (pop_frames_fuel (length buf) (S (length b)) b) by lia.
Qed.

(** The loop ends because nothing complete is left, never for lack of fuel. *)
Lemma drain_pending buf l r : drain buf = (l, None, r) -> next_frame r = (inr None, r).
Proof using Type*.
  remember (length buf) as n eqn:Hn. revert buf l Hn. induction (lt_wf n) as [n _ IH]; intros buf l ->.
  rewrite drain_unfold. destruct (next_frame buf) as [[e|[x|]] b] eqn:E1; [done| |].
  - pose proof (next_frame_takes _ _ _ E1) as Hlt. destruct (drain b) as [[l' e'] r'] eqn:E2.
    intros [= <- -> ->]. eapply IH; [exact Hlt|done|exact E2].
  - intros [= <- ->]. by rewrite (next_frame_pending _ _ E1) in E1 |- *.
Qed.

(** Draining a longer buffer: the frames of its prefix come first. *)
Lemma drain_app a b :
  drain (a ++ b) =
  match drain a with
  | (l, Some e, r) => (l, Some e, snd (drain (a ++ b)))
  | (l, None, r) => let '(l', e', r') := drain (r ++ b) in (l ++ l', e', r')
  end.
Proof using Type*.
  remember (length a) as n eqn:Hn. revert a Hn. induction (lt_wf n) as [n _ IH]; intros a ->.
  rewrite (drain_unfold a). destruct (next_frame a) as [[e|[x|]] r] eqn:E1.
  - rewrite (drain_unfold (a ++ b)). pose proof (next_frame_error a e b ltac:(by rewrite E1)) as H.
    destruct (next_frame (a ++ b)) as [o r2]. cbn in H. by subst o.
  - rewrite (drain_unfold (a ++ b)), (next_frame_app _ _ _ b E1).
    pose proof (next_frame_takes _ _ _ E1) as Hlt. rewrite (IH _ Hlt r eq_refl).
    destruct (drain r) as [[l [e|]] r']; [done|]. by destruct (drain (r' ++ b)) as [[l' e'] r''].
  - rewrite (next_frame_pending _ _ E1). by destruct (drain (a ++ b)) as [[l e] r'].
Qed.

(** Frames and error do not depend on the cuts; without an error neither does
    the buffer. *)
Lemma feed_drain cs buf :
  match drain buf, drain (buf ++ concat cs), feed cs (snd (drain buf)) with
  | (l0, None, _), (l, e, r), (l', e', r') => l = l0 ++ l' /\ e = e' /\ (e = None -> r = r')
  | (_, Some _, _), _, _ => True
  end.
Proof using Type*.
  revert buf. induction cs as [|c cs IH]; intros buf; cbn [feed concat].
  - rewrite app_nil_r. destruct (drain buf) as [[l [e|]] r]; [done|]. cbn. by rewrite app_nil_r.
  - pose proof (drain_app buf c) as Hc. pose proof (IH (buf ++ c)) as Hi. rewrite <- app_assoc in Hi.
    destruct (drain buf) as [[l0 [e0|]] r0] eqn:E0; [done|]. cbn [snd].
    pose proof (drain_app (buf ++ c) (concat cs)) as Ha. rewrite <- app_assoc in Ha. rewrite Hc in Hi, Ha.
    destruct (drain (r0 ++ c)) as [[l1 [e1|]] r1] eqn:E1.
    + rewrite Ha. done.
    + destruct (drain (buf ++ c ++ concat cs)) as [[l e] r]. cbn [snd] in Hi.
      destruct (feed cs r1) as [[l2 e2] r2]. destruct Hi as (-> & -> & Hr). by rewrite app_assoc.
Qed.

Lemma feed_concat cs :
  next_frame [] = (inr None, []) ->
  match drain (concat cs), feed cs [] with
  | (l, e, r), (l', e', r') => l = l' /\ e = e' /\ (e = None -> r = r')
  end.
Proof using Type*.
  intros H0. pose proof (feed_drain cs []) as H.
  assert (drain [] = ([], None, [])) as Hd by (rewrite drain_unfold; by rewrite H0).
  rewrite Hd in H. cbn [snd app] in H. done.
Qed.

(** A body made of encoded frames is cut back into them. *)
Lemma drain_encoded {A} (enc : A -> str) (dec : A -> F) (xs : list A) tail :
  (forall x y, x ∈ xs -> next_frame (enc x ++ y) = (inr (Some (dec x)), y)) ->
  drain ((xs ≫= enc) ++ tail) = let '(l, e, r) := drain tail in ((dec <$> xs) ++ l, e, r).
Proof using Type*.
  induction xs as [|x xs IH]; intros H.
  { change (([] ≫= enc) ++ tail) with tail. by destruct (drain tail) as [[? ?] ?]. }
  rewrite bind_cons, <- app_assoc, drain_unfold, H by left. rewrite IH by (intros; apply H; by right).
  by destruct (drain tail) as [[l e] r].
Qed.

End frames.
