(* ===== verification/Protobuf.v ===== *)
(** * Protobuf wire format

    [openproxy-adapters/src/adapters/devin/protoc.rs]: the writers that append a
    field to a buffer and the cursor that reads fields back.

    A writer is the bytes it appends.  The cursor is the rest of the message: a
    reader takes it and gives the value with the rest, or nothing. *)

From S2P Require Import Prelude Text Bytes.

(** ** Writers *)

Definition WIRE_VARINT : Z := 0.
Definition WIRE_64BIT : Z := 1.
Definition WIRE_LEN : Z := 2.
Definition WIRE_32BIT : Z := 5.

(** A [u64] has ten groups of seven bits. *)
Definition VARINT_BYTES : nat := 10.

Fixpoint varint_groups (fuel : nat) (value : Z) : str :=
  match fuel with
  | O => []
  | S f =>
      let byte := Z.land value 127 in
      let value := Z.shiftr value 7 in
      if value =? 0 then [byte] else Z.lor byte 128 :: varint_groups f value
  end.

Definition append_varint (value : Z) : str := varint_groups VARINT_BYTES value.

Definition append_tag (field wire : Z) : str := append_varint (Z.lor (Z.shiftl field 3) wire).

Definition append_varint_field (field value : Z) : str := append_tag field WIRE_VARINT ++ append_varint value.

Definition append_bytes (field : Z) (data : str) : str :=
  append_tag field WIRE_LEN ++ append_varint (Z.of_nat (length data)) ++ data.

Definition append_string (field : Z) (value : str) : str := append_bytes field value.
Definition append_message (field : Z) (sub : str) : str := append_bytes field sub.

Definition append_fixed64 (field value : Z) : str := append_tag field WIRE_64BIT ++ le_bytes 8 value.
Definition append_fixed32 (field value : Z) : str := append_tag field WIRE_32BIT ++ le_bytes 4 value.

(** ** The cursor *)

Definition reader_take (n : Z) (s : str) : option (str * str) :=
  if n <=? Z.of_nat (length s) then Some (take (Z.to_nat n) s, drop (Z.to_nat n) s) else None.

Fixpoint varint_loop (fuel : nat) (shift value : Z) (s : str) : option (Z * str) :=
  match fuel with
  | O => None
  | S f =>
      match s with
      | [] => None
      | byte :: s' =>
          let value := Z.lor value (Z.shiftl (Z.land byte 127) shift mod 2 ^ 64) in
          if Z.land byte 128 =? 0 then Some (value, s') else varint_loop f (shift + 7) value s'
      end
  end.

Definition varint (s : str) : option (Z * str) := varint_loop VARINT_BYTES 0 0 s.

Definition tag (s : str) : option (Z * Z * str) :=
  match varint s with
  | None => None
  | Some (raw, s') =>
      let wire := Z.land raw 7 in
      let field := Z.shiftr raw 3 in
      if u32_max <? field then None else if field =? 0 then None else Some (field, wire, s')
  end.

Definition bytes_value (s : str) : option (str * str) :=
  match varint s with Some (n, s') => reader_take n s' | None => None end.

Definition fixed64_value (s : str) : option (Z * str) :=
  match reader_take 8 s with Some (b, s') => Some (le_of b, s') | None => None end.

Definition fixed32_value (s : str) : option (Z * str) :=
  match reader_take 4 s with Some (b, s') => Some (le_of b, s') | None => None end.

Definition skip (wire : Z) (s : str) : option str :=
  if wire =? WIRE_VARINT then snd <$> varint s
  else if wire =? WIRE_64BIT then snd <$> reader_take 8 s
  else if wire =? WIRE_LEN then snd <$> bytes_value s
  else if wire =? WIRE_32BIT then snd <$> reader_take 4 s
  else None.

(** [while let Some((field, wire)) = reader.tag()]: a parser's loop.  [step] is
    its [match]; nothing from it ends the parser. *)
Fixpoint fields_loop {A} (fuel : nat) (step : A -> Z -> Z -> str -> option (A * str)) (acc : A) (s : str) : option A :=
  match fuel with
  | O => None
  | S f =>
      match tag s with
      | None => Some acc
      | Some (field, wire, s') =>
          match step acc field wire s' with
          | None => None
          | Some (acc, s'') => fields_loop f step acc s''
          end
      end
  end.

Definition parse_fields {A} (step : A -> Z -> Z -> str -> option (A * str)) (acc : A) (s : str) : option A :=
  fields_loop (S (length s)) step acc s.

(** ** Integers of seven-bit groups *)

Lemma land_127 x : Z.land x 127 = x mod 128.
Proof. change 127 with (Z.ones 7). by rewrite Z.land_ones by lia. Qed.

Lemma land_7 x : Z.land x 7 = x mod 8.
Proof. change 7 with (Z.ones 3) at 1. by rewrite Z.land_ones by lia. Qed.

Lemma high_bit b : 0 <= b < 256 -> (Z.land b 128 =? 0) = (b <? 128).
Proof.
  intros Hb. assert (forallb (fun n => Bool.eqb (Z.land (Z.of_nat n) 128 =? 0) (Z.of_nat n <? 128)) (seq 0 256) = true) as H
    by (vm_compute; done).
  rewrite forallb_forall in H. specialize (H (Z.to_nat b)). rewrite Z2Nat.id in H by lia.
  apply Bool.eqb_prop, H. apply in_seq. lia.
Qed.

Lemma lor_128 b : 0 <= b < 128 -> Z.lor b 128 = b + 128.
Proof. intros H. rewrite Z.lor_comm. change 128 with (Z.shiftl 1 7) at 1. rewrite lor_shiftl_add by lia. lia. Qed.

Lemma varint_loop_groups k fuel shift acc v r :
  (0 < k <= fuel)%nat -> 0 <= shift -> 0 <= acc < 2 ^ shift -> 0 <= v < 128 ^ Z.of_nat k ->
  v * 2 ^ shift + acc < 2 ^ 64 ->
  varint_loop fuel shift acc (varint_groups k v ++ r) = Some (v * 2 ^ shift + acc, r).
Proof.
  revert fuel shift acc v. induction k as [|k IH]; intros fuel shift acc v [Hk Hf] Hs Ha Hv Hmax; [lia|].
  destruct fuel as [|fuel]; [lia|]. cbn [varint_groups]. cbv zeta.
  rewrite land_127, Z.shiftr_div_pow2 by lia. change (2 ^ 7) with 128.
  pose proof (Z.mod_pos_bound v 128 ltac:(lia)) as Hm. pose proof (Z.div_mod v 128 ltac:(lia)) as Hd.
  pose proof (Z.div_pos v 128 ltac:(lia) ltac:(lia)) as Hp.
  pose proof (Z.pow_pos_nonneg 2 shift ltac:(lia) ltac:(lia)) as H2.
  assert (forall g, 0 <= g <= v -> g < 128 -> Z.lor acc (Z.shiftl g shift mod 2 ^ 64) = g * 2 ^ shift + acc) as Hor.
  { intros g Hg Hg'. rewrite Z.mod_small by (rewrite Z.shiftl_mul_pow2 by lia; nia). rewrite Z.lor_comm.
    by apply lor_shiftl_add. }
  destruct (v / 128 =? 0) eqn:E.
  - apply Z.eqb_eq in E. assert (v < 128) as Hlt by lia. rewrite (Z.mod_small v 128) by lia.
    cbn [app varint_loop]. cbv zeta. rewrite land_127, (Z.mod_small v 128), high_bit by lia.
    replace (v <? 128) with true by lia. by rewrite Hor by lia.
  - apply Z.eqb_neq in E. cbn [app varint_loop]. cbv zeta. rewrite lor_128 by lia. rewrite land_127, high_bit by lia.
    replace (v mod 128 + 128 <? 128) with false by lia.
    replace ((v mod 128 + 128) mod 128) with (v mod 128)
      by (rewrite <- (Z.mul_1_l 128) at 3; by rewrite Z.mod_add, Z.mod_mod by lia).
    rewrite Hor by lia.
    assert (2 ^ (shift + 7) = 128 * 2 ^ shift) as Hsh by (rewrite Z.pow_add_r by lia; lia).
    rewrite Nat2Z.inj_succ, Z.pow_succ_r in Hv by lia.
    destruct k as [|k]; [simpl in Hv; lia|].
    rewrite IH; [rewrite Hsh; do 2 f_equal; nia|lia|lia|rewrite Hsh; nia| |rewrite Hsh; nia].
    split; [done|]. apply Z.div_lt_upper_bound; lia.
Qed.

Lemma varint_append v r : 0 <= v <= u64_max -> varint (append_varint v ++ r) = Some (v, r).
Proof.
  intros Hv. unfold u64_max in Hv. unfold varint, append_varint.
  rewrite varint_loop_groups; [do 2 f_equal; lia|unfold VARINT_BYTES; lia|lia|lia| |lia].
  split; [lia|]. apply Z.lt_trans with (2 ^ 64); [lia|]. vm_compute. done.
Qed.

Lemma tag_append field wire r :
  1 <= field <= u32_max -> 0 <= wire < 8 -> tag (append_tag field wire ++ r) = Some (field, wire, r).
Proof.
  intros Hf Hw. unfold u32_max in Hf. unfold tag, append_tag.
  rewrite lor_shiftl_add by (simpl; lia). change (2 ^ 3) with 8.
  rewrite varint_append by (unfold u64_max; lia). rewrite land_7, Z.shiftr_div_pow2 by lia. change (2 ^ 3) with 8.
  rewrite Z.add_comm, Z.mod_add, Z.mod_small, Z.div_add, Z.div_small by lia.
  replace (u32_max <? 0 + field) with false by (unfold u32_max; lia). by replace (0 + field =? 0) with false by lia.
Qed.

Lemma reader_take_app n a b : n = Z.of_nat (length a) -> reader_take n (a ++ b) = Some (a, b).
Proof.
  intros ->. unfold reader_take. rewrite length_app, Nat2Z.inj_add.
  rewrite (proj2 (Z.leb_le _ _)) by lia.
  by rewrite Nat2Z.id, take_app_length, drop_app_length.
Qed.

(** ** Readers consume *)

Lemma reader_take_length n s a r : reader_take n s = Some (a, r) -> (length r <= length s)%nat.
Proof. unfold reader_take. destruct (n <=? _); [|done]. intros [= <- <-]. rewrite length_drop. lia. Qed.

Lemma varint_loop_length fuel shift acc s v r : varint_loop fuel shift acc s = Some (v, r) -> (length r < length s)%nat.
Proof.
  revert shift acc s. induction fuel as [|fuel IH]; intros shift acc s; [done|]. destruct s as [|b s]; [done|].
  cbn [varint_loop]. cbv zeta. destruct (_ =? 0); [intros [= _ ->]; simpl; lia|]. intros H%IH. simpl. lia.
Qed.

Lemma varint_length s v r : varint s = Some (v, r) -> (length r < length s)%nat.
Proof. apply varint_loop_length. Qed.

Lemma tag_length s f w r : tag s = Some (f, w, r) -> (length r < length s)%nat.
Proof.
  unfold tag. destruct (varint s) as [[raw s']|] eqn:E; [|done]. cbv zeta. apply varint_length in E.
  destruct (_ <? _); [done|]. destruct (_ =? 0); [done|]. by intros [= _ _ <-].
Qed.

Lemma bytes_value_length s a r : bytes_value s = Some (a, r) -> (length r <= length s)%nat.
Proof.
  unfold bytes_value. destruct (varint s) as [[n s']|] eqn:E; [|done]. apply varint_length in E.
  intros H%reader_take_length. lia.
Qed.

Lemma fixed64_value_length s v r : fixed64_value s = Some (v, r) -> (length r <= length s)%nat.
Proof.
  unfold fixed64_value. destruct (reader_take 8 s) as [[a s']|] eqn:E; [|done]. intros [= _ <-].
  by apply reader_take_length in E.
Qed.

Lemma fixed32_value_length s v r : fixed32_value s = Some (v, r) -> (length r <= length s)%nat.
Proof.
  unfold fixed32_value. destruct (reader_take 4 s) as [[a s']|] eqn:E; [|done]. intros [= _ <-].
  by apply reader_take_length in E.
Qed.

Lemma skip_length wire s r : skip wire s = Some r -> (length r <= length s)%nat.
Proof.
  unfold skip. intros H. repeat case_match; try done; apply fmap_Some in H as ([v r'] & Hp & ->); cbn [snd];
    first [apply varint_length in Hp|apply bytes_value_length in Hp|apply reader_take_length in Hp]; lia.
Qed.

(** A parser's [match] reads forward. *)
Definition step_consumes {A} (step : A -> Z -> Z -> str -> option (A * str)) : Prop :=
  forall acc field wire s acc' r, step acc field wire s = Some (acc', r) -> (length r <= length s)%nat.

(** The loop's fuel is enough: any larger fuel gives the same. *)
Lemma fields_loop_fuel {A} (step : A -> Z -> Z -> str -> option (A * str)) n m acc s :
  step_consumes step -> (length s < n)%nat -> (length s < m)%nat -> fields_loop n step acc s = fields_loop m step acc s.
Proof.
  intros Hc. revert m acc s. induction n as [|n IH]; intros [|m] acc s Hn Hm; try lia. cbn [fields_loop].
  destruct (tag s) as [[[f w] s']|] eqn:E; [|done]. apply tag_length in E.
  destruct (step acc f w s') as [[acc' s'']|] eqn:E2; [|done]. apply Hc in E2. apply IH; lia.
Qed.

Lemma parse_fields_unfold {A} (step : A -> Z -> Z -> str -> option (A * str)) acc s :
  step_consumes step ->
  parse_fields step acc s =
  match tag s with
  | None => Some acc
  | Some (field, wire, s') =>
      match step acc field wire s' with
      | None => None
      | Some (acc, s'') => parse_fields step acc s''
      end
  end.
Proof.
  intros Hc. unfold parse_fields at 1. cbn [fields_loop]. destruct (tag s) as [[[f w] s']|] eqn:E; [|done].
  apply tag_length in E. destruct (step acc f w s') as [[acc' s'']|] eqn:E2; [|done]. apply Hc in E2.
  apply fields_loop_fuel; [done|lia|lia].
Qed.

(** What every step keeps, the parser keeps. *)
Lemma parse_fields_inv {A} (P : A -> Prop) (step : A -> Z -> Z -> str -> option (A * str)) acc s a :
  (forall acc field wire s acc' r, P acc -> step acc field wire s = Some (acc', r) -> P acc') ->
  P acc -> parse_fields step acc s = Some a -> P a.
Proof.
  intros Hstep. unfold parse_fields. generalize (S (length s)) as n. intros n. revert acc s.
  induction n as [|n IH]; intros acc s Hacc; cbn [fields_loop]; [done|].
  destruct (tag s) as [[[f w] s']|]; [|by intros [= <-]].
  destruct (step acc f w s') as [[acc' s'']|] eqn:E; [|done]. apply IH. by eapply Hstep.
Qed.

(** ** Messages *)

(** A field as the writers put it: its number and its value. *)
Inductive Field : Type :=
| VarintField (field value : Z)
| Fixed64Field (field value : Z)
| LenField (field : Z) (data : str)
| Fixed32Field (field value : Z).

Definition encode_field (f : Field) : str :=
  match f with
  | VarintField n v => append_varint_field n v
  | Fixed64Field n v => append_fixed64 n v
  | LenField n d => append_bytes n d
  | Fixed32Field n v => append_fixed32 n v
  end.

Definition encode_fields (fs : list Field) : str := fs ≫= encode_field.

Definition field_number (f : Field) : Z :=
  match f with VarintField n _ | Fixed64Field n _ | LenField n _ | Fixed32Field n _ => n end.

Definition field_wire (f : Field) : Z :=
  match f with
  | VarintField _ _ => WIRE_VARINT | Fixed64Field _ _ => WIRE_64BIT
  | LenField _ _ => WIRE_LEN | Fixed32Field _ _ => WIRE_32BIT
  end.

(** The bytes after the tag. *)
Definition field_body (f : Field) : str :=
  match f with
  | VarintField _ v => append_varint v
  | Fixed64Field _ v => le_bytes 8 v
  | LenField _ d => append_varint (Z.of_nat (length d)) ++ d
  | Fixed32Field _ v => le_bytes 4 v
  end.

(** What the types of the writers' arguments allow, for a field number from 1. *)
Definition field_ok (f : Field) : Prop :=
  1 <= field_number f <= u32_max /\
  match f with
  | VarintField _ v | Fixed64Field _ v => 0 <= v <= u64_max
  | LenField _ d => Z.of_nat (length d) <= u64_max
  | Fixed32Field _ v => 0 <= v <= u32_max
  end.

Lemma encode_field_split f : encode_field f = append_tag (field_number f) (field_wire f) ++ field_body f.
Proof. by destruct f. Qed.

Lemma tag_field f r : field_ok f -> tag (encode_field f ++ r) = Some (field_number f, field_wire f, field_body f ++ r).
Proof.
  intros [Hn _]. rewrite encode_field_split, <- app_assoc. apply tag_append; [done|].
  destruct f; unfold field_wire, WIRE_VARINT, WIRE_64BIT, WIRE_LEN, WIRE_32BIT; lia.
Qed.

(** The reader a parser chooses by the wire type reads the value. *)
Lemma varint_field n v r : field_ok (VarintField n v) -> varint (field_body (VarintField n v) ++ r) = Some (v, r).
Proof. intros [_ Hv]. by apply varint_append. Qed.

Lemma bytes_field n d r : field_ok (LenField n d) -> bytes_value (field_body (LenField n d) ++ r) = Some (d, r).
Proof.
  intros [_ Hd]. cbn [field_body]. rewrite <- app_assoc. unfold bytes_value.
  rewrite varint_append by lia. by apply reader_take_app.
Qed.

Lemma fixed64_field n v r : field_ok (Fixed64Field n v) -> fixed64_value (field_body (Fixed64Field n v) ++ r) = Some (v, r).
Proof.
  intros [_ Hv]. unfold fixed64_value. cbn [field_body]. rewrite reader_take_app by by rewrite length_le_bytes.
  rewrite le_of_le_bytes; [done|]. unfold u64_max in Hv. simpl. lia.
Qed.

Lemma fixed32_field n v r : field_ok (Fixed32Field n v) -> fixed32_value (field_body (Fixed32Field n v) ++ r) = Some (v, r).
Proof.
  intros [_ Hv]. unfold fixed32_value. cbn [field_body]. rewrite reader_take_app by by rewrite length_le_bytes.
  rewrite le_of_le_bytes; [done|]. unfold u32_max in Hv. simpl. lia.
Qed.

(** [skip] passes exactly one value. *)
Lemma skip_field f r : field_ok f -> skip (field_wire f) (field_body f ++ r) = Some r.
Proof.
  intros H. destruct f as [n v|n v|n d|n v]; unfold skip; cbn [field_wire].
  - change (WIRE_VARINT =? WIRE_VARINT) with true. cbn beta iota. by rewrite varint_field.
  - change (WIRE_64BIT =? WIRE_VARINT) with false. change (WIRE_64BIT =? WIRE_64BIT) with true. cbn beta iota.
    by rewrite reader_take_app by (simpl; by rewrite ?length_le_bytes).
  - change (WIRE_LEN =? WIRE_VARINT) with false. change (WIRE_LEN =? WIRE_64BIT) with false.
    change (WIRE_LEN =? WIRE_LEN) with true. cbn beta iota. by rewrite bytes_field.
  - change (WIRE_32BIT =? WIRE_VARINT) with false. change (WIRE_32BIT =? WIRE_64BIT) with false.
    change (WIRE_32BIT =? WIRE_LEN) with false. change (WIRE_32BIT =? WIRE_32BIT) with true. cbn beta iota.
    by rewrite reader_take_app by (simpl; by rewrite ?length_le_bytes).
Qed.

(** A parser over a written message is a fold over its fields, then what follows. *)
Lemma parse_fields_encode {A} (step : A -> Z -> Z -> str -> option (A * str)) (f : A -> Field -> option A) acc fs t :
  step_consumes step ->
  (forall acc x r, x ∈ fs -> field_ok x ->
     step acc (field_number x) (field_wire x) (field_body x ++ r) = (fun a => (a, r)) <$> f acc x) ->
  Forall field_ok fs ->
  parse_fields step acc (encode_fields fs ++ t) =
  foldl (fun o x => o ≫= fun a => f a x) (Some acc) fs ≫= fun a => parse_fields step a t.
Proof.
  intros Hc Hs Hok. revert acc. induction Hok as [|x fs Hx Hok IH]; intros acc; [done|].
  unfold encode_fields. rewrite bind_cons, <- app_assoc, parse_fields_unfold, tag_field by done.
  rewrite Hs by (done || left). cbn [foldl]. change (Some acc ≫= fun a => f a x) with (f acc x).
  destruct (f acc x) as [acc'|]; cbn [fmap option_fmap option_map].
  - apply IH. intros. by apply Hs; [right|].
  - assert (forall l : list Field, foldl (fun o x => o ≫= fun a => f a x) None l = None) as -> by (by induction l). done.
Qed.
