(* ===== verification/DevinWire.v ===== *)
(** * Devin: envelopes, tool-call ids and sessions

    [openproxy-adapters/src/adapters/devin/wire.rs] and the trailer of
    [response.rs]: the gzip container, the Connect envelope and its deframer,
    the namespace for tool-call ids, the per-session request ordinal, and the
    HTTP shape of an end-of-stream error.

    [miniz_oxide]'s inflate, [base64] and [serde_json]'s parser are parameters. *)

From Stdlib Require Import String.
From S2P Require Import Prelude Text Bytes Framing.

(** ** The gzip container *)

(** The message of [DevinWireError::Gzip]. *)
Inductive GzipReason : Type :=
| TruncatedHeader | BadMagic | UnsupportedMethod (cm : Z) | ReservedFlags (flags : Z)
| TruncatedFextra | TruncatedName | UnterminatedName | HeaderExceedsInput | InflateFailed.

Inductive DevinWireError : Type :=
| Truncated
| Malformed (m : str)
| BadFlag (flag : Z)
| FrameTooLarge (len : Z)
| Gzip (reason : GzipReason)
| DecompressedTooLarge (len : Z).

(** [decompress_to_vec_with_limit]: the bytes, or the status it stopped with. *)
Inductive InflateResult : Type := Inflated (data : str) | HasMoreOutput | InflateError.

Definition CONNECT_FLAG_DATA : Z := 0.
Definition CONNECT_FLAG_COMPRESSED : Z := 1.
Definition CONNECT_FLAG_END_STREAM : Z := 2.
Definition MAX_COMPRESSED_FRAME : Z := 16 * 1024 * 1024.
Definition MAX_DECOMPRESSED_FRAME : Z := 64 * 1024 * 1024.

Definition GZIP_MAGIC : str := [31; 139].
Definition GZIP_CM_DEFLATE : Z := 8.
Definition GZIP_FHCRC : Z := 2.
Definition GZIP_FEXTRA : Z := 4.
Definition GZIP_FNAME : Z := 8.
Definition GZIP_FCOMMENT : Z := 16.
Definition GZIP_FIXED_HEADER_LEN : nat := 10.

(** [input.get(pos..)]. *)
Definition get_from (pos : nat) (s : str) : option str := if (pos <=? length s)%nat then Some (drop pos s) else None.

(** [input.get(pos..pos + n)]. *)
Definition get_span (pos n : nat) (s : str) : option str :=
  if (pos + n <=? length s)%nat then Some (take n (drop pos s)) else None.

(** The FEXTRA field, when its flag is set. *)
Definition gzip_extra (flags : Z) (input : str) (pos : nat) : GzipReason + nat :=
  if Z.land flags GZIP_FEXTRA =? 0 then inr pos
  else match get_span pos 2 input with
       | None => inl TruncatedFextra
       | Some b => inr (pos + 2 + Z.to_nat (le_of b))%nat
       end.

(** A zero-terminated field, when its flag is set. *)
Definition gzip_zstring (flag flags : Z) (input : str) (pos : nat) : GzipReason + nat :=
  if Z.land flags flag =? 0 then inr pos
  else match get_from pos input with
       | None => inl TruncatedName
       | Some tail => match find_byte 0 tail with
                      | None => inl UnterminatedName
                      | Some nul => inr (pos + (nul + 1))%nat
                      end
       end.

(** Where the deflate stream starts. *)
Definition gzip_body_pos (input : str) : GzipReason + nat :=
  if (length input <? GZIP_FIXED_HEADER_LEN)%nat then inl TruncatedHeader
  else if negb (bool_decide (take 2 input = GZIP_MAGIC)) then inl BadMagic
  else if negb (nth 2 input 0 =? GZIP_CM_DEFLATE) then inl (UnsupportedMethod (nth 2 input 0))
  else let flags := nth 3 input 0 in
    if negb (Z.land flags 224 =? 0) then inl (ReservedFlags flags)
    else match gzip_extra flags input GZIP_FIXED_HEADER_LEN with
    | inl e => inl e
    | inr pos =>
    match gzip_zstring GZIP_FNAME flags input pos with
    | inl e => inl e
    | inr pos =>
    match gzip_zstring GZIP_FCOMMENT flags input pos with
    | inl e => inl e
    | inr pos =>
        let pos := if Z.land flags GZIP_FHCRC =? 0 then pos else (pos + 2)%nat in
        if (length input <? pos)%nat then inl HeaderExceedsInput else inr pos
    end end end.

(** ** Envelopes *)

Definition wrap_connect_envelope (payload : str) : str :=
  [CONNECT_FLAG_DATA] ++ be_bytes 4 (Z.of_nat (length payload) mod 2 ^ 32) ++ payload.

Definition looks_like_connect_envelope (body : str) : bool :=
  if (length body <? 5)%nat || (Z.lor CONNECT_FLAG_COMPRESSED CONNECT_FLAG_END_STREAM <? nth 0 body 0) then false
  else be_of (take 4 (drop 1 body)) =? Z.of_nat (length body) - 5.

Record DevinFrameEvent := mkFrameEvent { fe_flag : Z; fe_payload : str }.

Definition is_end_stream (e : DevinFrameEvent) : bool := negb (Z.land (fe_flag e) CONNECT_FLAG_END_STREAM =? 0).

Section deframer.
Variable inflate : Z -> str -> InflateResult.

Definition gunzip (input : str) : DevinWireError + str :=
  match gzip_body_pos input with
  | inl e => inl (Gzip e)
  | inr pos =>
      match inflate MAX_DECOMPRESSED_FRAME (drop pos input) with
      | Inflated d => inr d
      | HasMoreOutput => inl (DecompressedTooLarge MAX_DECOMPRESSED_FRAME)
      | InflateError => inl (Gzip InflateFailed)
      end
  end.

(** [DevinDeframer::next_frame] on its buffer. *)
Definition devin_next_frame (buf : str) : (DevinWireError + option DevinFrameEvent) * str :=
  if (length buf <? 5)%nat then (inr None, buf)
  else
    let flag := nth 0 buf 0 in
    if Z.lor CONNECT_FLAG_COMPRESSED CONNECT_FLAG_END_STREAM <? flag then (inl (BadFlag flag), buf)
    else
      let len := be_of (take 4 (drop 1 buf)) in
      if MAX_COMPRESSED_FRAME <? len then (inl (FrameTooLarge len), buf)
      else if Z.of_nat (length buf) <? 5 + len then (inr None, buf)
      else
        let rest := drop 5 buf in
        let payload := take (Z.to_nat len) rest in
        let buf := drop (Z.to_nat len) rest in
        if Z.land flag CONNECT_FLAG_COMPRESSED =? 0 then (inr (Some (mkFrameEvent flag payload)), buf)
        else match gunzip payload with
             | inl e => (inl e, buf)
             | inr p => (inr (Some (mkFrameEvent flag p)), buf)
             end.

(** ** The deframer keeps its contract *)

Lemma devin_header_app buf y : (5 <= length buf)%nat ->
  nth 0 (buf ++ y) 0 = nth 0 buf 0 /\ take 4 (drop 1 (buf ++ y)) = take 4 (drop 1 buf).
Proof using Type.
  intros H. split; [apply app_nth1; lia|]. rewrite drop_app_le by lia. rewrite take_app_le by (rewrite length_drop; lia). done.
Qed.

#[global] Instance devin_deframer : Deframer DevinFrameEvent DevinWireError devin_next_frame.
Proof using Type.
  split; unfold devin_next_frame; cbv zeta.
  - intros b x r y. destruct (length b <? 5)%nat eqn:E0; [done|]. apply Nat.ltb_ge in E0.
    destruct (devin_header_app b y E0) as [-> ->]. rewrite length_app.
    rewrite (proj2 (Nat.ltb_ge _ _)) by lia. destruct (_ <? nth 0 b 0); [done|]. destruct (MAX_COMPRESSED_FRAME <? _); [done|].
    set (n := be_of _). destruct (Z.of_nat (length b) <? 5 + n) eqn:E1; [done|]. apply Z.ltb_ge in E1.
    rewrite (proj2 (Z.ltb_ge _ _)) by lia.
    rewrite drop_app_le, take_app_le, drop_app_le by (rewrite ?length_drop; lia).
    destruct (_ =? 0); [by intros [= <- <-]|]. destruct (gunzip _); by intros [= <- <-].
  - intros b e y. destruct (length b <? 5)%nat eqn:E0; [done|]. apply Nat.ltb_ge in E0.
    destruct (devin_header_app b y E0) as [-> ->]. rewrite length_app.
    rewrite (proj2 (Nat.ltb_ge _ _)) by lia. destruct (_ <? nth 0 b 0); [done|]. destruct (MAX_COMPRESSED_FRAME <? _); [done|].
    set (n := be_of _). destruct (Z.of_nat (length b) <? 5 + n) eqn:E1; [done|]. apply Z.ltb_ge in E1.
    rewrite (proj2 (Z.ltb_ge _ _)) by lia.
    rewrite drop_app_le, take_app_le by (rewrite ?length_drop; lia).
    destruct (_ =? 0); [done|]. by destruct (gunzip _).
  - intros b r. repeat case_match; by intros [= <-].
  - intros b x r. destruct (length b <? 5)%nat eqn:E0; [done|]. apply Nat.ltb_ge in E0.
    repeat case_match; try done; intros [= <- <-]; rewrite !length_drop; lia.
Qed.

End deframer.

(** ** Frames on the wire *)

Definition envelope (flag : Z) (payload : str) : str := [flag] ++ be_bytes 4 (Z.of_nat (length payload)) ++ payload.

(** A frame as sent: its flag and its payload, compressed when the flag says so. *)
Definition sendable (w : Z * str) : Prop := 0 <= w.1 <= 3 /\ Z.of_nat (length w.2) <= MAX_COMPRESSED_FRAME.

Definition open_frame (inflate : Z -> str -> InflateResult) (w : Z * str) : DevinWireError + DevinFrameEvent :=
  if Z.land w.1 CONNECT_FLAG_COMPRESSED =? 0 then inr (mkFrameEvent w.1 w.2)
  else match gunzip inflate w.2 with inl e => inl e | inr p => inr (mkFrameEvent w.1 p) end.

Lemma next_frame_envelope inflate w y : sendable w ->
  devin_next_frame inflate (envelope w.1 w.2 ++ y) =
  (match open_frame inflate w with inl e => inl e | inr ev => inr (Some ev) end, y).
Proof.
  intros [Hf Hl]. destruct w as [flag payload]. cbn [fst snd] in *. unfold envelope, MAX_COMPRESSED_FRAME in *.
  pose proof (length_be_bytes 4 (Z.of_nat (length payload))) as H4. unfold devin_next_frame. cbv zeta.
  rewrite !length_app, H4. rewrite (proj2 (Nat.ltb_ge _ _)) by (simpl; lia).
  rewrite <- !app_assoc. change (nth 0 ([flag] ++ ?x) 0) with flag.
  change (Z.lor CONNECT_FLAG_COMPRESSED CONNECT_FLAG_END_STREAM) with 3. rewrite (proj2 (Z.ltb_ge _ _)) by lia.
  change (drop 1 ([flag] ++ ?x)) with x. rewrite take_app_length' by done.
  rewrite be_of_be_bytes by (simpl; lia). unfold MAX_COMPRESSED_FRAME. rewrite (proj2 (Z.ltb_ge _ _)) by lia.
  rewrite (proj2 (Z.ltb_ge _ _)) by (simpl; lia). rewrite Nat2Z.id.
  change (drop 5 ([flag] ++ ?x)) with (drop 4 x). rewrite drop_app_length' by done.
  rewrite take_app_length, drop_app_length. unfold open_frame. cbn [fst snd].
  destruct (_ =? 0); [done|]. by destruct (gunzip inflate payload).
Qed.

(** The start of a frame, cut before its end, is held back. *)
Lemma next_frame_cut inflate w k : sendable w -> (k < length (envelope w.1 w.2))%nat ->
  devin_next_frame inflate (take k (envelope w.1 w.2)) = (inr None, take k (envelope w.1 w.2)).
Proof.
  intros [Hf Hl] Hk. destruct w as [flag payload]. cbn [fst snd] in *. unfold envelope, MAX_COMPRESSED_FRAME in *.
  pose proof (length_be_bytes 4 (Z.of_nat (length payload))) as H4. rewrite !length_app, H4 in Hk. cbn [length] in Hk.
  unfold devin_next_frame. cbv zeta. rewrite length_take, !length_app, H4. cbn [length].
  destruct (min k (1 + (4 + length payload)) <? 5)%nat eqn:E; [done|]. apply Nat.ltb_ge in E.
  assert (exists j, k = 5 + j /\ j < length payload)%nat as (j & -> & Hj) by (exists (k - 5)%nat; lia).
  replace (take (5 + j) ([flag] ++ be_bytes 4 (Z.of_nat (length payload)) ++ payload))
    with ([flag] ++ be_bytes 4 (Z.of_nat (length payload)) ++ take j payload).
  2:{ rewrite !app_assoc. rewrite take_app_ge by (rewrite length_app, H4; simpl; lia). do 2 f_equal.
      rewrite length_app, H4. simpl. lia. }
  change (nth 0 ([flag] ++ ?x) 0) with flag.
  change (Z.lor CONNECT_FLAG_COMPRESSED CONNECT_FLAG_END_STREAM) with 3. rewrite (proj2 (Z.ltb_ge _ _)) by lia.
  change (drop 1 ([flag] ++ ?x)) with x. rewrite take_app_length' by done.
  rewrite be_of_be_bytes by (simpl; lia). unfold MAX_COMPRESSED_FRAME. rewrite (proj2 (Z.ltb_ge _ _)) by lia.
  by rewrite (proj2 (Z.ltb_lt _ _)) by lia.
Qed.

Lemma wrap_is_envelope p : Z.of_nat (length p) < 2 ^ 32 -> wrap_connect_envelope p = envelope CONNECT_FLAG_DATA p.
Proof. intros H. unfold wrap_connect_envelope, envelope. by rewrite Z.mod_small by lia. Qed.

Lemma looks_like_wrapped p : Z.of_nat (length p) < 2 ^ 32 -> looks_like_connect_envelope (wrap_connect_envelope p) = true.
Proof.
  intros H. rewrite wrap_is_envelope by done. unfold looks_like_connect_envelope, envelope.
  pose proof (length_be_bytes 4 (Z.of_nat (length p))) as H4. rewrite !length_app, H4. cbn [length].
  rewrite (proj2 (Nat.ltb_ge _ _)) by lia. change (nth 0 ([?f] ++ ?x) 0) with f. cbn [orb].
  change (Z.lor CONNECT_FLAG_COMPRESSED CONNECT_FLAG_END_STREAM <? CONNECT_FLAG_DATA) with false. cbn iota.
  change (drop 1 ([?f] ++ ?x)) with x. rewrite take_app_length' by done.
  rewrite be_of_be_bytes by (simpl; lia). apply Z.eqb_eq. lia.
Qed.

(** ** Tool-call ids *)

Definition DEVIN_TOOL_ID_PREFIX : str := bytes_of "cpa_tid_v1_".

Definition ascii_alphanumeric (b : Z) : bool :=
  ((48 <=? b) && (b <=? 57)) || ((65 <=? b) && (b <=? 90)) || ((97 <=? b) && (b <=? 122)).

Definition portable_byte (b : Z) : bool := ascii_alphanumeric b || (b =? 95) || (b =? 45).

Definition is_portable_tool_call_id (id : str) : bool := negb (bool_decide (id = [])) && forallb portable_byte id.

Definition has_prefix (p s : str) : bool := bool_decide (p `prefix_of` s).

Section tool_ids.
(** [URL_SAFE_NO_PAD.encode] and [.decode]. *)
Variable b64_encode : str -> str.
Variable b64_decode : str -> option str.

Definition encode_devin_tool_call_id (id : str) : str :=
  if bool_decide (id = []) || (is_portable_tool_call_id id && negb (has_prefix DEVIN_TOOL_ID_PREFIX id)) then id
  else DEVIN_TOOL_ID_PREFIX ++ b64_encode id.

Definition decode_devin_tool_call_id (id : str) : str :=
  match strip_prefix DEVIN_TOOL_ID_PREFIX id with
  | None => id
  | Some rest =>
      match b64_decode rest with
      | None => id
      | Some decoded =>
          if negb (utf8_valid decoded) then id
          else if bool_decide (decoded = []) || negb (bool_decide (encode_devin_tool_call_id decoded = id)) then id
          else decoded
      end
  end.

Hypothesis b64_round_trip : forall s, byte_list s -> b64_decode (b64_encode s) = Some s.

Lemma strip_prefix_none p s : has_prefix p s = false -> strip_prefix p s = None.
Proof using Type. unfold has_prefix, strip_prefix. intros H. by rewrite H. Qed.

Lemma decode_encode_tool_id id : utf8_valid id = true -> decode_devin_tool_call_id (encode_devin_tool_call_id id) = id.
Proof using b64_round_trip.
  intros Hu. unfold encode_devin_tool_call_id at 1. case_bool_decide as H0; cbn [orb].
  { subst id. done. }
  destruct (is_portable_tool_call_id id && negb (has_prefix DEVIN_TOOL_ID_PREFIX id)) eqn:E.
  - apply andb_true_iff in E as [_ E]. apply negb_true_iff in E. unfold decode_devin_tool_call_id.
    by rewrite strip_prefix_none.
  - unfold decode_devin_tool_call_id. rewrite (proj2 (strip_prefix_spec _ _ _)) by done.
    rewrite b64_round_trip, Hu by by apply utf8_bytes. cbn [negb]. rewrite (bool_decide_false (id = [])) by done. cbn [orb].
    rewrite bool_decide_true; [done|]. unfold encode_devin_tool_call_id.
    by rewrite (bool_decide_false (id = [])), E by done.
Qed.

Lemma encode_tool_id_inj a b : utf8_valid a = true -> utf8_valid b = true ->
  encode_devin_tool_call_id a = encode_devin_tool_call_id b -> a = b.
Proof using b64_round_trip.
  intros Ha Hb H. rewrite <- (decode_encode_tool_id a Ha), <- (decode_encode_tool_id b Hb). by rewrite H.
Qed.

Lemma encode_tool_id_nil id : encode_devin_tool_call_id id = [] <-> id = [].
Proof using Type.
  unfold encode_devin_tool_call_id. case_bool_decide as H0; cbn [orb]; [done|].
  destruct (_ && _); [done|]. split; [|done]. intros H. by apply app_eq_nil in H as [H _].
Qed.

Lemma encode_tool_id_portable id :
  (forall s, byte_list s -> forallb portable_byte (b64_encode s) = true) ->
  byte_list id -> id <> [] -> is_portable_tool_call_id (encode_devin_tool_call_id id) = true.
Proof using Type.
  intros Hp Hid Hne. unfold encode_devin_tool_call_id. rewrite (bool_decide_false (id = [])) by done. cbn [orb].
  destruct (is_portable_tool_call_id id && _) eqn:E; [by apply andb_true_iff in E as [? _]|].
  unfold is_portable_tool_call_id. rewrite forallb_app, Hp by done. done.
Qed.

End tool_ids.

(** ** Session ordinals *)

Definition MAX_SESSION_TURN_COUNTERS : nat := 5000.

(** [SessionTurnCounters]: the counters and the order of insertion. *)
Record SessionTurnCounters := mkCounters { tc_map : gmap str Z; tc_order : list str }.

(** [while map.len() > MAX && let Some(old) = order.pop_front()]. *)
Fixpoint evict_turns (m : gmap str Z) (order : list str) : SessionTurnCounters :=
  if (MAX_SESSION_TURN_COUNTERS <? size m)%nat then
    match order with
    | [] => mkCounters m []
    | old :: order' => evict_turns (delete old m) order'
    end
  else mkCounters m order.

Definition next_devin_session_turn_index (session_id : str) (g : SessionTurnCounters) : Z * SessionTurnCounters :=
  let clean := trim_bytes session_id in
  if bool_decide (clean = []) then (0, g)
  else match tc_map g !! clean with
       | None => (0, evict_turns (<[clean := 0]> (tc_map g)) (tc_order g ++ [clean]))
       | Some c => (c + 1, mkCounters (<[clean := c + 1]> (tc_map g)) (tc_order g))
       end.

(** The queue names each counted session once, and there are at most 5000. *)
Definition turns_wf (g : SessionTurnCounters) : Prop :=
  NoDup (tc_order g) /\ (forall s, s ∈ tc_order g <-> is_Some (tc_map g !! s)) /\
  (size (tc_map g) <= MAX_SESSION_TURN_COUNTERS)%nat.

Lemma size_order (m : gmap str Z) order : NoDup order -> (forall s, s ∈ order <-> is_Some (m !! s)) -> size m = length order.
Proof.
  intros Hn He. rewrite <- size_dom. rewrite <- (size_list_to_set (C := gset str) order) by done. f_equal.
  apply set_eq. intros s. rewrite elem_of_list_to_set, elem_of_dom. symmetry. apply He.
Qed.

(** One insertion evicts at most one session, the one inserted first. *)
Lemma evict_turns_one m order s :
  NoDup (order ++ [s]) -> (forall x, x ∈ order ++ [s] <-> is_Some (m !! x)) ->
  (size m <= S MAX_SESSION_TURN_COUNTERS)%nat ->
  evict_turns m (order ++ [s]) =
  if (MAX_SESSION_TURN_COUNTERS <? size m)%nat then
    match order with
    | [] => mkCounters m [s]
    | old :: order' => mkCounters (delete old m) (order' ++ [s])
    end
  else mkCounters m (order ++ [s]).
Proof.
  intros Hn He Hm. destruct order as [|old order]; cbn [app evict_turns].
  - pose proof (size_order m [s] Hn He) as Hs. rewrite Hs. done.
  - destruct (MAX_SESSION_TURN_COUNTERS <? size m)%nat eqn:E; [|done].
    assert (size (delete old m) <= MAX_SESSION_TURN_COUNTERS)%nat as Hd.
    { rewrite map_size_delete_Some by (apply He; left). lia. }
    destruct (order ++ [s]) as [|x l] eqn:Ea; [by apply app_eq_nil in Ea as [_ ?]|]. cbn [evict_turns].
    by rewrite (proj2 (Nat.ltb_ge _ _)) by lia.
Qed.

Lemma turns_wf_next s g : turns_wf g -> turns_wf (snd (next_devin_session_turn_index s g)).
Proof.
  intros (Hn & He & Hs). unfold next_devin_session_turn_index. cbv zeta. case_bool_decide as H0; [done|].
  destruct (tc_map g !! trim_bytes s) as [c|] eqn:E; cbn [snd].
  - split; [done|]. split; [|cbn; by rewrite map_size_insert_Some by done]. cbn. intros x. rewrite He.
    destruct (decide (x = trim_bytes s)) as [->|]; [rewrite lookup_insert_eq; naive_solver|by rewrite lookup_insert_ne].
  - set (c := trim_bytes s) in *. set (m := <[c := 0]> (tc_map g)).
    assert (c ∉ tc_order g) as Hc by (rewrite He, E; by intros [? ?]).
    assert (NoDup (tc_order g ++ [c])) as Hn'.
    { apply NoDup_app. split; [done|]. split; [|apply NoDup_singleton]. intros x Hx ->%list_elem_of_singleton. done. }
    assert (forall x, x ∈ tc_order g ++ [c] <-> is_Some (m !! x)) as He'.
    { intros x. rewrite elem_of_app, He, list_elem_of_singleton. unfold m.
      destruct (decide (x = c)) as [->|]; [rewrite lookup_insert_eq; naive_solver|rewrite lookup_insert_ne by done; naive_solver]. }
    assert (size m = S (size (tc_map g))) as Hm by (unfold m; by apply map_size_insert_None).
    rewrite evict_turns_one by (done || lia). destruct (MAX_SESSION_TURN_COUNTERS <? size m)%nat eqn:El.
    + destruct (tc_order g) as [|old order].
      * split; [done|]. split; [done|]. cbn. rewrite (size_order m [c]) by done. cbn. unfold MAX_SESSION_TURN_COUNTERS. lia.
      * cbn [app] in Hn', He'. apply NoDup_cons in Hn' as [Ho Hn']. split; [done|]. cbn. split.
        -- intros x. destruct (decide (x = old)) as [->|Hx].
           ++ rewrite lookup_delete_eq. split; [done|by intros [? ?]].
           ++ rewrite lookup_delete_ne by done. rewrite <- He', elem_of_cons. naive_solver.
        -- rewrite map_size_delete_Some by (apply He'; left). lia.
    + split; [done|]. split; [done|]. cbn. apply Nat.ltb_ge in El. lia.
Qed.

(** The ordinals of a sequence of requests. *)
Fixpoint session_ordinals (ids : list str) (g : SessionTurnCounters) : list Z :=
  match ids with
  | [] => []
  | s :: ids' => let '(n, g') := next_devin_session_turn_index s g in n :: session_ordinals ids' g'
  end.

(** How often a session occurs. *)
Definition occurrences (s : str) (past : list str) : Z := Z.of_nat (length (filter (fun x => x = s) past)).

(** Each request's number among those of its session. *)
Fixpoint numbered (past ids : list str) : list Z :=
  match ids with
  | [] => []
  | s :: ids' => (if bool_decide (s = []) then 0 else occurrences s past) :: numbered (past ++ [s]) ids'
  end.

(** What the counters hold after the requests [past]. *)
Definition counts (past : list str) (g : SessionTurnCounters) : Prop :=
  forall s, tc_map g !! s = if bool_decide (s <> [] /\ s ∈ past) then Some (occurrences s past - 1) else None.

Lemma occurrences_snoc s x past : occurrences s (past ++ [x]) = occurrences s past + if bool_decide (x = s) then 1 else 0.
Proof.
  unfold occurrences. rewrite filter_app, length_app. case_bool_decide as H.
  - rewrite (filter_cons_True _ x) by done. cbn. lia.
  - rewrite (filter_cons_False _ x) by done. cbn. lia.
Qed.

Lemma occurrences_absent s past : s ∉ past -> occurrences s past = 0.
Proof.
  intros H. unfold occurrences. induction past as [|x past IH]; [done|]. apply not_elem_of_cons in H as [Hx H].
  rewrite filter_cons_False by congruence. by apply IH.
Qed.

Lemma size_dom_turns (g : SessionTurnCounters) past (all : list str) :
  counts past g -> past ⊆ all -> (size (tc_map g) <= size (list_to_set all : gset str))%nat.
Proof.
  intros Hc Hs. rewrite <- size_dom. apply subseteq_size. intros s Hd. apply elem_of_dom in Hd as [v Hv].
  rewrite Hc in Hv. case_bool_decide as Hb; [|done]. apply elem_of_list_to_set, Hs, Hb.
Qed.

Lemma counts_next past s g all :
  turns_wf g -> counts past g -> past ++ [trim_bytes s] ⊆ all ->
  (size (list_to_set all : gset str) <= MAX_SESSION_TURN_COUNTERS)%nat ->
  fst (next_devin_session_turn_index s g) = (if bool_decide (trim_bytes s = []) then 0 else occurrences (trim_bytes s) past)
  /\ counts (past ++ [trim_bytes s]) (snd (next_devin_session_turn_index s g)).
Proof.
  intros Hwf Hc Hsub Hsz. set (c := trim_bytes s) in *. unfold next_devin_session_turn_index. cbv zeta. fold c.
  case_bool_decide as H0.
  { split; [done|]. cbn. intros x. rewrite Hc, occurrences_snoc. rewrite H0.
    destruct (decide (x = [])) as [->|Hx].
    - rewrite !bool_decide_false by naive_solver. done.
    - rewrite (bool_decide_false ([] = x)) by done. rewrite Z.add_0_r.
      erewrite bool_decide_ext; [done|]. rewrite elem_of_app, list_elem_of_singleton. naive_solver. }
  assert (forall m order, (forall x, m !! x = if decide (x = c) then Some (occurrences c past) else tc_map g !! x) ->
            counts (past ++ [c]) (mkCounters m order)) as Hnew.
  { intros m order Hm x. cbn. rewrite Hm, occurrences_snoc. destruct (decide (x = c)) as [->|Hx].
    - rewrite !bool_decide_true by (rewrite ?elem_of_app, ?list_elem_of_singleton; auto). f_equal. lia.
    - rewrite (bool_decide_false (c = x)) by congruence. rewrite Z.add_0_r, Hc.
      erewrite bool_decide_ext; [done|]. rewrite elem_of_app, list_elem_of_singleton. naive_solver. }
  destruct (tc_map g !! c) as [n|] eqn:E.
  - rewrite Hc in E. case_bool_decide; [|done]. injection E as <-. cbn [fst snd]. split; [lia|].
    apply Hnew. intros x. destruct (decide (x = c)) as [->|]; [rewrite lookup_insert_eq; f_equal; lia|by rewrite lookup_insert_ne].
  - cbn [fst snd]. assert (c ∉ past) as Hout.
    { intros Hin. rewrite Hc, bool_decide_true in E by done. done. }
    split; [by rewrite occurrences_absent|].
    assert (counts (past ++ [c]) (mkCounters (<[c:=0]> (tc_map g)) [])) as Hcm.
    { apply Hnew. intros x. rewrite occurrences_absent by done.
      destruct (decide (x = c)) as [->|]; [by rewrite lookup_insert_eq|by rewrite lookup_insert_ne]. }
    pose proof (size_dom_turns _ _ _ Hcm Hsub) as Hle. cbn in Hle.
    assert (evict_turns (<[c:=0]> (tc_map g)) (tc_order g ++ [c]) = mkCounters (<[c:=0]> (tc_map g)) (tc_order g ++ [c])) as ->.
    { destruct (tc_order g ++ [c]); cbn [evict_turns]; by rewrite (proj2 (Nat.ltb_ge _ _)) by lia. }
    exact Hcm.
Qed.

Lemma session_ordinals_numbered ids past g all :
  turns_wf g -> counts past g -> past ++ (trim_bytes <$> ids) ⊆ all ->
  (size (list_to_set all : gset str) <= MAX_SESSION_TURN_COUNTERS)%nat ->
  session_ordinals ids g = numbered past (trim_bytes <$> ids).
Proof.
  revert past g. induction ids as [|s ids IH]; intros past g Hwf Hc Hsub Hsz; [done|]. rewrite fmap_cons in *. cbn [numbered session_ordinals].
  destruct (counts_next past s g all Hwf Hc) as [Hn Hc']; [|done|].
  { intros x Hx. apply Hsub. rewrite elem_of_app in Hx |- *. rewrite elem_of_cons. rewrite list_elem_of_singleton in Hx. tauto. }
  pose proof (turns_wf_next s g Hwf) as Hwf'.
  destruct (next_devin_session_turn_index s g) as [n g']. cbn [fst snd] in *. rewrite Hn. f_equal.
  apply IH; [done|done| |done]. by rewrite <- app_assoc.
Qed.

(** ** The end-of-stream trailer *)

(** [u8::is_ascii_whitespace]. *)
Definition ascii_whitespace (b : Z) : bool := (b =? 32) || (b =? 9) || (b =? 10) || (b =? 12) || (b =? 13).

Fixpoint position_by (p : Z -> bool) (s : str) : option nat :=
  match s with [] => None | b :: s' => if p b then Some 0%nat else S <$> position_by p s' end.

(** [rposition]. *)
Definition rposition_by (p : Z -> bool) (s : str) : option nat :=
  match position_by p (reverse s) with Some i => Some (length s - 1 - i)%nat | None => None end.

Definition trim_trailer (payload : str) : str :=
  let start := default (length payload) (position_by (fun b => negb (ascii_whitespace b)) payload) in
  let stop := match rposition_by (fun b => negb (ascii_whitespace b)) payload with Some p => S p | None => start end in
  take (Nat.max stop start - start) (drop start payload).

(** [error.get(k).and_then(as_str).unwrap_or("")], as bytes. *)
Definition str_member (k : string) (v : Json) : str :=
  match json_get k v with Some v' => match as_str v' with Some s => bytes_of s | None => [] end | None => [] end.

Definition mentions (needles : list string) (lower_msg : str) : bool :=
  existsb (fun n => contains_bytes (bytes_of n) lower_msg) needles.

(** The [match code.as_str()]. *)
Definition connect_status (code lower_msg : str) : Z :=
  if bool_decide (code = bytes_of "invalid_argument") then if mentions ["internal error"%string] lower_msg then 502 else 400
  else if bool_decide (code = bytes_of "internal") then 502
  else if bool_decide (code = bytes_of "unauthenticated") then 401
  else if bool_decide (code = bytes_of "permission_denied") then if mentions ["high demand"%string] lower_msg then 429 else 403
  else if bool_decide (code = bytes_of "resource_exhausted") then 429
  else if bool_decide (code = bytes_of "unavailable") then 503
  else if bool_decide (code = bytes_of "canceled") then 499
  else if bool_decide (code = bytes_of "deadline_exceeded") then 504
  else if bool_decide (code = bytes_of "failed_precondition") then
    if mentions ["quota"; "credit"; "acu"; "exhausted"; "limit"]%string lower_msg then 429 else 400
  else 502.

Definition ERROR_HEAD : str := bytes_of "devin upstream error (".
Definition ERROR_SEP : str := bytes_of "): ".

Definition parse_devin_trailer_error (from_slice : str -> option Json) (payload : str) : option (Z * str) :=
  let trimmed := trim_trailer payload in
  if bool_decide (trimmed = []) || bool_decide (trimmed = bytes_of "{}") then None
  else match from_slice trimmed with
  | None => None
  | Some json =>
      match json_get "error" json with
      | None => None
      | Some error =>
          let code := lower <$> str_member "code" error in
          let message := str_member "message" error in
          Some (connect_status code (lower <$> message), ERROR_HEAD ++ code ++ ERROR_SEP ++ message)
      end
  end.

(** [str::split_once] of a string pattern. *)
Definition split_once_bytes (pat s : str) : option (str * str) :=
  match find_sub pat s with Some i => Some (take i s, drop (i + length pat) s) | None => None end.

Definition error_body_message_bytes (body : str) : str :=
  match strip_prefix ERROR_HEAD body with
  | Some rest => match split_once_bytes ERROR_SEP rest with Some (_, msg) => msg | None => body end
  | None => body
  end.

(** A code without a parenthesis: the message is recovered from the wrapped body. *)
Lemma find_sub_sep code msg : 41 ∉ code -> find_sub ERROR_SEP (code ++ ERROR_SEP ++ msg) = Some (length code).
Proof.
  induction code as [|b code IH]; intros H.
  - cbn [app length]. unfold ERROR_SEP. cbn [bytes_of]. cbn. by rewrite bool_decide_true by (by apply prefix_cons, prefix_cons, prefix_cons, prefix_nil).
  - apply not_elem_of_cons in H as [Hb H]. cbn [app find_sub].
    rewrite bool_decide_false by (intros Hp; by apply prefix_cons_inv_1 in Hp). by rewrite IH.
Qed.

Lemma error_message_recovered code msg :
  41 ∉ code -> error_body_message_bytes (ERROR_HEAD ++ code ++ ERROR_SEP ++ msg) = msg.
Proof.
  intros H. unfold error_body_message_bytes. rewrite (proj2 (strip_prefix_spec _ _ _)) by done.
  unfold split_once_bytes. rewrite find_sub_sep by done. rewrite app_assoc, drop_app_length'; [done|].
  by rewrite length_app.
Qed.

(** ** Theorems *)

Lemma drain_envelopes inflate ws evs tail :
  Forall sendable ws -> Forall2 (fun w ev => open_frame inflate w = inr ev) ws evs ->
  devin_next_frame inflate tail = (inr None, tail) ->
  drain (devin_next_frame inflate) ((ws ≫= fun w => envelope w.1 w.2) ++ tail) = (evs, None, tail).
Proof.
  intros Hs Ho Ht.
  rewrite (drain_encoded (devin_next_frame inflate) (fun w => envelope w.1 w.2)
    (fun w => match open_frame inflate w with inr ev => ev | inl _ => mkFrameEvent 0 [] end)).
  - rewrite drain_unfold, Ht by apply _. f_equal. f_equal. rewrite app_nil_r.
    clear -Ho. induction Ho as [|w ev ws evs H _ IH]; [done|]. rewrite fmap_cons, IH. by rewrite H.
  - intros w y Hw. rewrite Forall_forall in Hs. rewrite next_frame_envelope by (by apply Hs).
    apply list_elem_of_lookup in Hw as [i Hi]. destruct (Forall2_lookup_l _ _ _ _ _ Ho Hi) as (ev & _ & ->). done.
Qed.

(** C33. However the transport cuts the body, the Devin deframer hands on exactly
    the frames that were sent, in order and decompressed, and holds back the
    start of an unfinished one; and on any bytes at all, frames, the error and
    what is left do not depend on the cuts.  An envelope the request builder
    wrote is recognised as one. *)
Theorem devin_frames_chunk_invariant inflate ws evs w k cs :
  Forall sendable ws -> Forall2 (fun w ev => open_frame inflate w = inr ev) ws evs ->
  sendable w -> (k < length (envelope w.1 w.2))%nat ->
  concat cs = (ws ≫= fun w => envelope w.1 w.2) ++ take k (envelope w.1 w.2) ->
  feed (devin_next_frame inflate) cs [] = (evs, None, take k (envelope w.1 w.2)) /\
  (forall cs' cs'', concat cs' = concat cs'' ->
     fst (feed (devin_next_frame inflate) cs' []) = fst (feed (devin_next_frame inflate) cs'' []) /\
     (snd (fst (feed (devin_next_frame inflate) cs' [])) = None ->
      feed (devin_next_frame inflate) cs' [] = feed (devin_next_frame inflate) cs'' [])) /\
  (forall p, Z.of_nat (length p) < 2 ^ 32 -> looks_like_connect_envelope (wrap_connect_envelope p) = true).
Proof.
  intros Hs Ho Hw Hk Hcs. split; [|split; [|exact looks_like_wrapped]].
  - pose proof (feed_concat (devin_next_frame inflate) cs eq_refl) as H. rewrite Hcs in H.
    rewrite (drain_envelopes inflate ws evs) in H by (done || by apply next_frame_cut).
    destruct (feed _ cs []) as [[l e] r]. by destruct H as (<- & <- & ->).
  - intros cs1 cs2 Hc. pose proof (feed_concat (devin_next_frame inflate) cs1 eq_refl) as H1.
    pose proof (feed_concat (devin_next_frame inflate) cs2 eq_refl) as H2. rewrite Hc in H1.
    destruct (drain _ (concat cs2)) as [[l e] r]. destruct (feed _ cs1 []) as [[l1 e1] r1].
    destruct (feed _ cs2 []) as [[l2 e2] r2]. destruct H1 as (<- & <- & Hr1), H2 as (<- & <- & Hr2). cbn.
    split; [done|]. intros ->. by rewrite <- Hr1, Hr2.
Qed.

(** Two frames and the start of a third, in three chunks; the second frame's
    payload is a bare gzip header that inflates to two bytes. *)
Lemma devin_frames_chunk_invariant_witness :
  feed (devin_next_frame (fun _ _ => Inflated [7; 8]))
    [[0; 0; 0]; [0; 1; 9; 3; 0; 0; 0; 10; 31; 139; 8; 0; 0; 0; 0]; [0; 0; 0; 2; 0; 0]] []
  = ([mkFrameEvent 0 [9]; mkFrameEvent 3 [7; 8]], None, [2; 0; 0]).
Proof.
  eapply (devin_frames_chunk_invariant (fun _ _ => Inflated [7; 8]) [(0, [9]); (3, [31; 139; 8; 0; 0; 0; 0; 0; 0; 0])]
           [mkFrameEvent 0 [9]; mkFrameEvent 3 [7; 8]] (2, [1]) 3).
  - repeat constructor; vm_compute; done.
  - repeat constructor; vm_compute; done.
  - split; vm_compute; done.
  - vm_compute. lia.
  - vm_compute. done.
Defined.

(** A tool-call id comes back as it was: what the client is given decodes to
    the upstream's id, two ids are never given the same name, an id the
    upstream's clients accept is left alone, and every other is turned into one
    they accept. *)
Lemma tool_ids_round_trip b64_encode b64_decode id :
  (forall s, byte_list s -> b64_decode (b64_encode s) = Some s) ->
  (forall s, byte_list s -> forallb portable_byte (b64_encode s) = true) ->
  utf8_valid id = true ->
  let enc := encode_devin_tool_call_id b64_encode in
  decode_devin_tool_call_id b64_encode b64_decode (enc id) = id /\
  (forall id', utf8_valid id' = true -> enc id' = enc id -> id' = id) /\
  (id <> [] -> is_portable_tool_call_id (enc id) = true) /\
  (is_portable_tool_call_id id = true -> has_prefix DEVIN_TOOL_ID_PREFIX id = false -> enc id = id).
Proof.
  intros Hr Hp Hu enc. split; [by apply decode_encode_tool_id|]. split; [|split].
  - intros id' Hu'. by apply (encode_tool_id_inj _ b64_decode).
  - intros Hne. apply encode_tool_id_portable; [done|by apply utf8_bytes|done].
  - intros H1 H2. unfold enc, encode_devin_tool_call_id. rewrite H1, H2. by rewrite orb_true_r.
Qed.

(** A concrete text encoding with the two laws: each byte as two letters. *)
Definition letters_encode (s : str) : str := s ≫= fun b => [97 + b / 16; 97 + b mod 16].

Fixpoint letters_decode (s : str) : option str :=
  match s with
  | [] => Some []
  | x :: y :: s' => match letters_decode s' with Some r => Some ((x - 97) * 16 + (y - 97) :: r) | None => None end
  | _ => None
  end.

Lemma letters_round_trip s : byte_list s -> letters_decode (letters_encode s) = Some s.
Proof.
  induction 1 as [|b s Hb _ IH]; [done|]. unfold letters_encode in *. rewrite bind_cons. cbn [app letters_decode].
  rewrite IH. do 2 f_equal. pose proof (Z.div_mod b 16). lia.
Qed.

Lemma letters_portable s : byte_list s -> forallb portable_byte (letters_encode s) = true.
Proof.
  induction 1 as [|b s Hb _ IH]; [done|]. unfold letters_encode in *. rewrite bind_cons. cbn [app forallb].
  rewrite IH. pose proof (Z.mod_pos_bound b 16 ltac:(lia)). pose proof (Z.div_mod b 16 ltac:(lia)).
  unfold portable_byte, ascii_alphanumeric.
  rewrite (proj2 (Z.leb_le 97 (97 + b / 16))), (proj2 (Z.leb_le (97 + b / 16) 122)),
    (proj2 (Z.leb_le 97 (97 + b mod 16))), (proj2 (Z.leb_le (97 + b mod 16) 122)) by lia.
  by rewrite !orb_true_r.
Qed.

(** An id with a space, given to the client under the namespace. *)
Lemma tool_ids_round_trip_witness :
  let enc := encode_devin_tool_call_id letters_encode in
  enc (bytes_of "a b") = bytes_of "cpa_tid_v1_gbcagc" /\
  decode_devin_tool_call_id letters_encode letters_decode (bytes_of "cpa_tid_v1_gbcagc") = bytes_of "a b".
Proof.
  split; [vm_compute; done|].
  exact (proj1 (tool_ids_round_trip letters_encode letters_decode (bytes_of "a b") letters_round_trip letters_portable eq_refl)).
Defined.

(** The ordinal a request carries is the number of earlier requests of its
    session, whatever the interleaving, as long as at most 5000 sessions are
    seen; a request without a session carries none. *)
Lemma session_ordinals_exact ids :
  (size (list_to_set (trim_bytes <$> ids) : gset str) <= MAX_SESSION_TURN_COUNTERS)%nat ->
  session_ordinals ids (mkCounters ∅ []) = numbered [] (trim_bytes <$> ids).
Proof.
  intros H. apply (session_ordinals_numbered ids [] (mkCounters ∅ []) (trim_bytes <$> ids)); [|..|done].
  - split; [apply NoDup_nil_2|]. split; [|cbn; rewrite map_size_empty; lia]. cbn. intros s. rewrite lookup_empty.
    split; [by intros ?%elem_of_nil|by intros [? ?]].
  - intros s. cbn. rewrite lookup_empty. rewrite bool_decide_false; [done|]. by intros [_ ?%elem_of_nil].
  - done.
Qed.

Lemma session_ordinals_exact_witness :
  session_ordinals [bytes_of "s"; bytes_of "t"; bytes_of " s"; bytes_of ""; bytes_of "s"] (mkCounters ∅ []) = [0; 0; 1; 0; 2].
Proof. rewrite session_ordinals_exact; [vm_compute; done|]. vm_compute. lia. Defined.
