(* ===== verification/DevinFrames.v ===== *)
(** * Devin: the messages of a response

    [openproxy-adapters/src/adapters/devin/response.rs]: the protobuf message in
    each frame of a [GetChatMessage] response, parsed into the text, reasoning,
    tool calls, signature and usage it carries.

    A parser is [parse_fields] with its [match] as the step; a submessage is
    parsed by a parser of its own.  Floating-point values are kept as the bits
    on the wire. *)

From Stdlib Require Import String.
From S2P Require Import Prelude Text Bytes Protobuf DevinWire.

(** ** Data *)

Record DevinToolCallDelta := mkToolDelta {
  td_id : str; td_name : str; td_arguments : str; td_invalid_json_str : str; td_invalid_json_err : str; td_is_custom : bool
}.

Definition tool_delta_default : DevinToolCallDelta := mkToolDelta [] [] [] [] [] false.

Record DevinUsage := mkDevinUsage {
  du_prompt_tokens : Z; du_completion_tokens : Z; du_cache_write_tokens : Z; du_cached_tokens : Z;
  du_status_code : Z; du_request_id : str; du_model_name : str
}.

Definition devin_usage_default : DevinUsage := mkDevinUsage 0 0 0 0 0 [] [].

Record DevinFrame := mkDevinFrame {
  df_output_id : str;
  df_timestamp_secs : Z;
  df_text : str;
  df_delta_tokens : Z;
  df_stop_reason : Z;
  df_tool_call_deltas : list DevinToolCallDelta;
  df_thinking_text : str;
  df_signature : str;
  df_signature_type : str;
  df_latency_ms : Z;
  df_message_id : str;
  df_usage : option DevinUsage;
  df_dim_prompt : Z;
  df_dim_completion : Z;
  df_dim_cached : Z;
  df_dim_found : bool
}.

Definition devin_frame_default : DevinFrame := mkDevinFrame [] 0 [] 0 0 [] [] [] [] 0 [] None 0 0 0 false.

(** [+=] on an [i64], in a release build. *)
Definition add_i64 (a b : Z) : Z := as_i64 ((a + b) mod 2 ^ 64).

(** [DevinUsage::merge]. *)
Definition merge_devin_usage (u other : DevinUsage) : DevinUsage :=
  mkDevinUsage
    (add_i64 (du_prompt_tokens u) (du_prompt_tokens other))
    (if du_completion_tokens other =? 0 then du_completion_tokens u else du_completion_tokens other)
    (add_i64 (du_cache_write_tokens u) (du_cache_write_tokens other))
    (if du_cached_tokens other =? 0 then du_cached_tokens u else du_cached_tokens other)
    (if du_status_code other =? 0 then du_status_code u else du_status_code other)
    (if bool_decide (du_request_id other = []) then du_request_id u else du_request_id other)
    (if bool_decide (du_model_name other = []) then du_model_name u else du_model_name other).

Definition reader_str (bytes : str) : str := utf8_lossy bytes.

(** [(n, w)] of a [match (field, wire)]. *)
Definition field_is (n w field wire : Z) : bool := (field =? n) && (wire =? w).

(** [_ => reader.skip(wire)?]. *)
Definition skip_field_of {A} (acc : A) (wire : Z) (s : str) : option (A * str) := (fun r => (acc, r)) <$> skip wire s.

(** A value read at the cursor, stored by [f]. *)
Definition store_value {A V} (f : V -> A) (o : option (V * str)) : option (A * str) :=
  match o with Some (v, r) => Some (f v, r) | None => None end.

(** ** Tool calls *)

Definition tool_call_delta_step (d : DevinToolCallDelta) (field wire : Z) (s : str) : option (DevinToolCallDelta * str) :=
  let '(mkToolDelta i n a js je c) := d in
  if field_is 1 WIRE_LEN field wire then store_value (fun b => mkToolDelta (reader_str b) n a js je c) (bytes_value s)
  else if field_is 2 WIRE_LEN field wire then store_value (fun b => mkToolDelta i (reader_str b) a js je c) (bytes_value s)
  else if field_is 3 WIRE_LEN field wire then store_value (fun b => mkToolDelta i n (reader_str b) js je c) (bytes_value s)
  else if field_is 4 WIRE_LEN field wire then store_value (fun b => mkToolDelta i n a (reader_str b) je c) (bytes_value s)
  else if field_is 5 WIRE_LEN field wire then store_value (fun b => mkToolDelta i n a js (reader_str b) c) (bytes_value s)
  else if field_is 6 WIRE_VARINT field wire then store_value (fun v => mkToolDelta i n a js je (negb (v =? 0))) (varint s)
  else skip_field_of d wire s.

Definition parse_tool_call_delta (s : str) : option DevinToolCallDelta := parse_fields tool_call_delta_step tool_delta_default s.

(** ** Usage *)

(** [key], [value] and [fields_seen] of [parse_usage_header]. *)
Definition usage_header_step (acc : str * str * Z) (field wire : Z) (s : str) : option (str * str * Z * str) :=
  let '(key, value, seen) := acc in
  if field_is 1 WIRE_LEN field wire then store_value (fun b => (reader_str b, value, seen + 1)) (bytes_value s)
  else if field_is 2 WIRE_LEN field wire then store_value (fun b => (key, reader_str b, seen + 1)) (bytes_value s)
  else skip_field_of acc wire s.

Definition ascii_graphic (b : Z) : bool := (33 <=? b) && (b <=? 126).

Definition set_request_id (r : str) (u : DevinUsage) : DevinUsage :=
  mkDevinUsage (du_prompt_tokens u) (du_completion_tokens u) (du_cache_write_tokens u) (du_cached_tokens u)
    (du_status_code u) r (du_model_name u).

Definition parse_usage_header (hdr : str) (u : DevinUsage) : DevinUsage :=
  match parse_fields usage_header_step ([], [], 0) hdr with
  | None => u
  | Some (key, value, seen) =>
      if (eq_ignore_ascii_case key (bytes_of "x-request-id") || eq_ignore_ascii_case key (bytes_of "request-id"))
         && negb (bool_decide (value = []))
      then set_request_id value u
      else if (seen =? 0) && negb (bool_decide (hdr = [])) && forallb (fun b => ascii_graphic b || (b =? 32)) hdr
      then set_request_id (reader_str hdr) u
      else u
  end.

Definition usage_step (u : DevinUsage) (field wire : Z) (s : str) : option (DevinUsage * str) :=
  let '(mkDevinUsage p c cw ca st rid mn) := u in
  if field_is 2 WIRE_VARINT field wire then store_value (fun v => mkDevinUsage (add_i64 p (as_i64 v)) c cw ca st rid mn) (varint s)
  else if field_is 3 WIRE_VARINT field wire then store_value (fun v => mkDevinUsage p (as_i64 v) cw ca st rid mn) (varint s)
  else if field_is 4 WIRE_VARINT field wire then store_value (fun v => mkDevinUsage p c (add_i64 cw (as_i64 v)) ca st rid mn) (varint s)
  else if field_is 5 WIRE_VARINT field wire then store_value (fun v => mkDevinUsage p c cw (as_i64 v) st rid mn) (varint s)
  else if field_is 6 WIRE_VARINT field wire then store_value (fun v => mkDevinUsage p c cw ca v rid mn) (varint s)
  else if field_is 8 WIRE_LEN field wire then store_value (fun hdr => parse_usage_header hdr u) (bytes_value s)
  else if field_is 9 WIRE_LEN field wire then store_value (fun b => mkDevinUsage p c cw ca st rid (reader_str b)) (bytes_value s)
  else skip_field_of u wire s.

Definition parse_usage (s : str) : option DevinUsage := parse_fields usage_step devin_usage_default s.

(** ** Usage as metrics *)

(** [f32::from_bits(bits) as i64]: towards zero, saturating, 0 for a NaN. *)
Definition f32_as_i64 (bits : Z) : Z :=
  let neg := 2 ^ 31 <=? bits in
  let e := (bits / 2 ^ 23) mod 256 in
  let m := bits mod 2 ^ 23 in
  let sgn v := if neg then Z.max i64_min (- v) else Z.min i64_max v in
  if e =? 255 then if m =? 0 then if neg then i64_min else i64_max else 0
  else if e =? 0 then 0
  else if 150 <=? e then sgn ((m + 2 ^ 23) * 2 ^ (e - 150))
  else sgn ((m + 2 ^ 23) / 2 ^ (150 - e)).

Definition metric_value_step (value : Z) (field wire : Z) (s : str) : option (Z * str) :=
  if field_is 2 WIRE_32BIT field wire then fixed32_value s else skip_field_of value wire s.

Definition dim_metric_step (acc : str * Z) (field wire : Z) (s : str) : option (str * Z * str) :=
  let '(key, value) := acc in
  if field_is 5 WIRE_LEN field wire then store_value (fun b => (reader_str b, value)) (bytes_value s)
  else if field_is 4 WIRE_LEN field wire then
    match bytes_value s with
    | None => None
    | Some (inner, r) =>
        match parse_fields metric_value_step value inner with Some v => Some (key, v, r) | None => None end
    end
  else skip_field_of acc wire s.

Definition parse_dim_metric (payload : str) : option (str * Z) := parse_fields dim_metric_step ([], 0) payload.

Definition dim_group_step (acc : str * list (str * Z)) (field wire : Z) (s : str) : option (str * list (str * Z) * str) :=
  let '(title, metrics) := acc in
  if field_is 1 WIRE_LEN field wire then store_value (fun b => (reader_str b, metrics)) (bytes_value s)
  else if field_is 2 WIRE_LEN field wire then
    store_value (fun m => (title, metrics ++ match parse_dim_metric m with Some x => [x] | None => [] end)) (bytes_value s)
  else skip_field_of acc wire s.

(** The values the loop over [metrics] writes, and [found]. *)
Definition apply_metric (acc : Z * Z * Z * bool) (m : str * Z) : Z * Z * Z * bool :=
  let '(p, c, ca, found) := acc in
  let v := f32_as_i64 m.2 in
  if bool_decide (m.1 = bytes_of "input_tokens") then (v, c, ca, true)
  else if bool_decide (m.1 = bytes_of "output_tokens") then (p, v, ca, true)
  else if bool_decide (m.1 = bytes_of "cached_input_tokens") then (p, c, v, true)
  else acc.

Definition set_dims (p c ca : Z) (found : bool) (f : DevinFrame) : DevinFrame :=
  mkDevinFrame (df_output_id f) (df_timestamp_secs f) (df_text f) (df_delta_tokens f) (df_stop_reason f)
    (df_tool_call_deltas f) (df_thinking_text f) (df_signature f) (df_signature_type f) (df_latency_ms f)
    (df_message_id f) (df_usage f) p c ca found.

Definition parse_dim_group (payload : str) (f : DevinFrame) : DevinFrame :=
  if df_dim_found f then f
  else match parse_fields dim_group_step ([], []) payload with
  | None => f
  | Some (title, metrics) =>
      if negb (bool_decide (title = bytes_of "Token Usage")) then f
      else let '(p, c, ca, found) :=
             foldl apply_metric (df_dim_prompt f, df_dim_completion f, df_dim_cached f, false) metrics in
           set_dims p c ca (df_dim_found f || found) f
  end.

(** ** The frame *)

Definition timestamp_step (t : Z) (field wire : Z) (s : str) : option (Z * str) :=
  if field_is 1 WIRE_VARINT field wire then varint s else skip_field_of t wire s.

Definition merge_frame_usage (old : option DevinUsage) (u : DevinUsage) : DevinUsage :=
  match old with Some existing => merge_devin_usage existing u | None => u end.

Definition devin_frame_step (f : DevinFrame) (field wire : Z) (s : str) : option (DevinFrame * str) :=
  let '(mkDevinFrame oid ts tx dt sr tcs th sg st lat mid us dp dc dca dfound) := f in
  if field_is 1 WIRE_LEN field wire then
    store_value (fun b => mkDevinFrame (reader_str b) ts tx dt sr tcs th sg st lat mid us dp dc dca dfound) (bytes_value s)
  else if field_is 2 WIRE_VARINT field wire then
    store_value (fun v => mkDevinFrame oid v tx dt sr tcs th sg st lat mid us dp dc dca dfound) (varint s)
  else if field_is 2 WIRE_LEN field wire then
    match bytes_value s with
    | None => None
    | Some (b, r) =>
        match parse_fields timestamp_step ts b with
        | None => None
        | Some v => Some (mkDevinFrame oid v tx dt sr tcs th sg st lat mid us dp dc dca dfound, r)
        end
    end
  else if field_is 3 WIRE_LEN field wire then
    store_value (fun b => mkDevinFrame oid ts (tx ++ reader_str b) dt sr tcs th sg st lat mid us dp dc dca dfound) (bytes_value s)
  else if field_is 4 WIRE_VARINT field wire then
    store_value (fun v => mkDevinFrame oid ts tx v sr tcs th sg st lat mid us dp dc dca dfound) (varint s)
  else if field_is 5 WIRE_VARINT field wire then
    store_value (fun v => mkDevinFrame oid ts tx dt v tcs th sg st lat mid us dp dc dca dfound) (varint s)
  else if field_is 6 WIRE_LEN field wire then
    match bytes_value s with
    | None => None
    | Some (b, r) =>
        match parse_tool_call_delta b with
        | None => None
        | Some d => Some (mkDevinFrame oid ts tx dt sr (tcs ++ [d]) th sg st lat mid us dp dc dca dfound, r)
        end
    end
  else if field_is 7 WIRE_LEN field wire then
    match bytes_value s with
    | None => None
    | Some (b, r) =>
        match parse_usage b with
        | None => None
        | Some u => Some (mkDevinFrame oid ts tx dt sr tcs th sg st lat mid (Some (merge_frame_usage us u)) dp dc dca dfound, r)
        end
    end
  else if field_is 9 WIRE_LEN field wire then
    store_value (fun b => mkDevinFrame oid ts tx dt sr tcs (th ++ reader_str b) sg st lat mid us dp dc dca dfound) (bytes_value s)
  else if field_is 10 WIRE_LEN field wire then
    store_value (fun b => mkDevinFrame oid ts tx dt sr tcs th b st lat mid us dp dc dca dfound) (bytes_value s)
  else if field_is 12 WIRE_64BIT field wire then
    store_value (fun v => mkDevinFrame oid ts tx dt sr tcs th sg st v mid us dp dc dca dfound) (fixed64_value s)
  else if field_is 17 WIRE_LEN field wire then
    store_value (fun b => mkDevinFrame oid ts tx dt sr tcs th sg st lat (reader_str b) us dp dc dca dfound) (bytes_value s)
  else if field_is 21 WIRE_LEN field wire then
    store_value (fun b => mkDevinFrame oid ts tx dt sr tcs th sg (reader_str b) lat mid us dp dc dca dfound) (bytes_value s)
  else if field_is 28 WIRE_LEN field wire then store_value (fun b => parse_dim_group b f) (bytes_value s)
  else skip_field_of f wire s.

Definition parse_devin_frame (payload : str) : DevinWireError + DevinFrame :=
  match parse_fields devin_frame_step devin_frame_default payload with
  | Some f => inr f
  | None => inl Truncated
  end.

(** ** Parsers read forward *)

Lemma store_length {A V} (f : V -> A) o (s : str) a r :
  (forall v r', o = Some (v, r') -> (length r' <= length s)%nat) -> store_value f o = Some (a, r) -> (length r <= length s)%nat.
Proof. intros H. destruct o as [[v r']|]; cbn; [|done]. intros [= <- <-]. by eapply H. Qed.

Lemma skip_field_of_length {A} (acc : A) wire s a r : skip_field_of acc wire s = Some (a, r) -> (length r <= length s)%nat.
Proof. unfold skip_field_of. intros (r' & Hr & [= -> ->])%fmap_Some. by eapply skip_length. Qed.

Lemma varint_length_le s v r : varint s = Some (v, r) -> (length r <= length s)%nat.
Proof. intros H%varint_length. lia. Qed.

Lemma bytes_match_length {A B} (f : str -> option B) (g : B -> A) s a r :
  match bytes_value s with
  | None => None
  | Some (b, r) => match f b with None => None | Some v => Some (g v, r) end
  end = Some (a, r) -> (length r <= length s)%nat.
Proof.
  destruct (bytes_value s) as [[b r']|] eqn:E; [|done]. destruct (f b); [|done]. intros [= _ <-]. by eapply bytes_value_length.
Qed.

#[export] Hint Resolve bytes_value_length varint_length_le fixed64_value_length fixed32_value_length : consumes.

(** Each branch of a parser's [match] in turn. *)
Ltac step_cases :=
  repeat match goal with |- (if ?b then _ else _) = _ -> _ => destruct b end.

Ltac solve_consumes :=
  intros Hstep;
  first [ eapply skip_field_of_length; exact Hstep
        | eapply store_length; [|exact Hstep]; solve [eauto with consumes]
        | eapply bytes_match_length; exact Hstep
        | eapply fixed32_value_length; exact Hstep
        | eapply varint_length_le; exact Hstep ].

Lemma tool_call_delta_consumes : step_consumes tool_call_delta_step.
Proof. intros [] field wire s acc' r. unfold tool_call_delta_step. step_cases; solve_consumes. Qed.

Lemma usage_header_consumes : step_consumes usage_header_step.
Proof. intros [[k v] n] field wire s acc' r. unfold usage_header_step. step_cases; solve_consumes. Qed.

Lemma usage_consumes : step_consumes usage_step.
Proof. intros [] field wire s acc' r. unfold usage_step. step_cases; solve_consumes. Qed.

Lemma metric_value_consumes : step_consumes metric_value_step.
Proof. intros acc field wire s acc' r. unfold metric_value_step. step_cases; solve_consumes. Qed.

Lemma dim_metric_consumes : step_consumes dim_metric_step.
Proof. intros [k v] field wire s acc' r. unfold dim_metric_step. step_cases; solve_consumes. Qed.

Lemma dim_group_consumes : step_consumes dim_group_step.
Proof. intros [t m] field wire s acc' r. unfold dim_group_step. step_cases; solve_consumes. Qed.

Lemma timestamp_consumes : step_consumes timestamp_step.
Proof. intros acc field wire s acc' r. unfold timestamp_step. step_cases; solve_consumes. Qed.

Lemma devin_frame_consumes : step_consumes devin_frame_step.
Proof. intros [] field wire s acc' r. unfold devin_frame_step. step_cases; solve_consumes. Qed.

(** ** A message parsed field by field *)

(** What a parser's [match] does with one field. *)
Definition field_apply {A} (step : A -> Z -> Z -> str -> option (A * str)) (acc : A) (x : Field) : option A :=
  fst <$> step acc (field_number x) (field_wire x) (field_body x).

(** The step takes the field's value and leaves what follows it. *)
Definition step_local {A} (step : A -> Z -> Z -> str -> option (A * str)) : Prop :=
  forall acc x r, field_ok x ->
    step acc (field_number x) (field_wire x) (field_body x ++ r) = (fun a => (a, r)) <$> field_apply step acc x.

Lemma body_nil x : field_body x = field_body x ++ [].
Proof. by rewrite app_nil_r. Qed.

Lemma field_is_other n w field wire : wire <> w -> field_is n w field wire = false.
Proof. intros H. unfold field_is. rewrite (proj2 (Z.eqb_neq wire w)) by done. apply andb_false_r. Qed.

Lemma field_is_same n w field : field_is n w field w = (field =? n).
Proof. unfold field_is. by rewrite Z.eqb_refl, andb_true_r. Qed.

(** A branch reads by the wire type it tests, so each is local: the reader's value
    is the field's, with or without what follows. *)
Ltac solve_local :=
  match goal with
  | |- ?step ?acc (field_number ?x) (field_wire ?x) (field_body ?x ++ ?r) = _ =>
      match goal with
      | Hx : field_ok x |- _ =>
          unfold field_apply; rewrite (body_nil x) at 2; unfold step;
          pose proof (skip_field x r Hx) as Hs1; pose proof (skip_field x [] Hx) as Hs2;
          let go H1 H2 := (cbn [field_number field_wire] in *; unfold skip_field_of; rewrite ?field_is_same;
            rewrite ?field_is_other by done; rewrite ?Hs1, ?Hs2, ?H1, ?H2; repeat (case_match; try done); try done) in
          destruct x as [n v|n v|n d|n v];
          [ pose proof (varint_field n v r Hx) as H1; pose proof (varint_field n v [] Hx) as H2; go H1 H2
          | pose proof (fixed64_field n v r Hx) as H1; pose proof (fixed64_field n v [] Hx) as H2; go H1 H2
          | pose proof (bytes_field n d r Hx) as H1; pose proof (bytes_field n d [] Hx) as H2; go H1 H2
          | pose proof (fixed32_field n v r Hx) as H1; pose proof (fixed32_field n v [] Hx) as H2; go H1 H2 ]
      end
  end.

Lemma tool_call_delta_local : step_local tool_call_delta_step.
Proof. intros [] x r Hx. solve_local. Qed.

Lemma usage_local : step_local usage_step.
Proof. intros [] x r Hx. solve_local. Qed.

Lemma devin_frame_local : step_local devin_frame_step.
Proof. intros [] x r Hx. solve_local. Qed.

(** A message is parsed as the sequence of its fields.  A tail without a tag in
    it goes unnoticed. *)
Lemma parse_fields_local {A} (step : A -> Z -> Z -> str -> option (A * str)) acc fs t :
  step_consumes step -> step_local step -> Forall field_ok fs -> tag t = None ->
  parse_fields step acc (encode_fields fs ++ t) = foldl (fun o x => o ≫= fun a => field_apply step a x) (Some acc) fs.
Proof.
  intros Hc Hl Hok Ht. rewrite (parse_fields_encode step (field_apply step)) by (done || (intros; by apply Hl)).
  destruct (foldl _ _ fs) as [a|]; [|done]. cbn. by rewrite Ht.
Qed.

(** The text, reasoning and tool calls one field adds. *)
Definition field_text (n : Z) (x : Field) : str :=
  match x with LenField k d => if k =? n then reader_str d else [] | _ => [] end.

Definition field_calls (x : Field) : list DevinToolCallDelta :=
  match x with
  | LenField k d => if k =? 6 then match parse_tool_call_delta d with Some t => [t] | None => [] end else []
  | _ => []
  end.

(** A submessage of a frame that parses; other fields may hold anything. *)
Definition submessage_ok (x : Field) : Prop :=
  match x with
  | LenField 2 d => is_Some (parse_fields timestamp_step 0 d)
  | LenField 6 d => is_Some (parse_tool_call_delta d)
  | LenField 7 d => is_Some (parse_usage d)
  | _ => True
  end.

Lemma dim_group_keeps b f :
  let f' := parse_dim_group b f in
  df_text f' = df_text f /\ df_thinking_text f' = df_thinking_text f /\ df_tool_call_deltas f' = df_tool_call_deltas f.
Proof. unfold parse_dim_group. repeat case_match; done. Qed.

(** The branches of the frame's [match], by the field's number. *)
Ltac split_frame n H :=
  repeat match type of H with context [n =? ?k] => destruct (Z.eqb_spec n k) as [->|?] in H; [|] end;
  repeat case_match; cbn in H; simplify_eq; cbn; rewrite ?app_nil_r;
  try match goal with |- context [parse_dim_group ?b ?f] => destruct (dim_group_keeps b f) as (? & ? & ?) end; done || lia.

(** One field adds its text, reasoning and calls, at the end. *)
Lemma frame_field_adds f x f' :
  field_apply devin_frame_step f x = Some f' -> field_ok x ->
  df_text f' = df_text f ++ field_text 3 x /\
  df_thinking_text f' = df_thinking_text f ++ field_text 9 x /\
  df_tool_call_deltas f' = df_tool_call_deltas f ++ field_calls x.
Proof.
  intros H Hx. unfold field_apply in H. rewrite (body_nil x) in H. destruct f as [oid ts tx dt sr tcs th sg st lat mid us dp dc dca dfound].
  pose proof (skip_field x [] Hx) as Hs. unfold devin_frame_step in H. unfold skip_field_of in H.
  destruct x as [n v|n v|n d|n v]; cbn [field_number field_wire field_text field_calls] in *.
  - rewrite (varint_field n v [] Hx), Hs in H. rewrite ?field_is_same in H. rewrite ?field_is_other in H by done.
    split_frame n H.
  - rewrite (fixed64_field n v [] Hx), Hs in H. rewrite ?field_is_same in H. rewrite ?field_is_other in H by done.
    split_frame n H.
  - rewrite (bytes_field n d [] Hx), Hs in H. rewrite ?field_is_same in H. rewrite ?field_is_other in H by done.
    split_frame n H.
  - rewrite Hs in H. rewrite ?field_is_other in H by done. split_frame n H.
Qed.

Lemma timestamp_loop_start fuel t t' s :
  is_Some (fields_loop fuel timestamp_step t s) -> is_Some (fields_loop fuel timestamp_step t' s).
Proof.
  revert t t' s. induction fuel as [|fuel IH]; intros t t' s; cbn [fields_loop]; [done|].
  destruct (tag s) as [[[f w] s']|]; [|done]. unfold timestamp_step. destruct (field_is 1 WIRE_VARINT f w).
  - destruct (varint s') as [[v r]|]; [|done]. apply IH.
  - unfold skip_field_of. destruct (skip w s') as [r|]; cbn; [apply IH|done].
Qed.

Lemma frame_field_parses f x : field_ok x -> submessage_ok x -> is_Some (field_apply devin_frame_step f x).
Proof.
  intros Hx Hsub. unfold field_apply. rewrite (body_nil x). destruct f as [oid ts tx dt sr tcs th sg st lat mid us dp dc dca dfound].
  pose proof (skip_field x [] Hx) as Hs. unfold devin_frame_step. unfold skip_field_of.
  destruct x as [n v|n v|n d|n v]; cbn [field_number field_wire] in *.
  - rewrite (varint_field n v [] Hx), Hs. rewrite ?field_is_same. rewrite ?field_is_other by done. repeat case_match; by eexists.
  - rewrite (fixed64_field n v [] Hx), Hs. rewrite ?field_is_same. rewrite ?field_is_other by done. repeat case_match; by eexists.
  - rewrite (bytes_field n d [] Hx), Hs. rewrite ?field_is_same. rewrite ?field_is_other by done.
    repeat match goal with |- context [n =? ?k] => destruct (Z.eqb_spec n k) as [->|?]; [|] end; try (by eexists); cbn [store_value].
    + destruct (timestamp_loop_start (S (length d)) 0 ts d Hsub) as [v Hv]. unfold parse_fields. rewrite Hv. by eexists.
    + destruct Hsub as [v ->]. by eexists.
    + destruct Hsub as [v ->]. by eexists.
  - rewrite Hs. rewrite ?field_is_other by done. by eexists.
Qed.

(** The answer a whole message carries. *)
Lemma frame_of_fields fs t : Forall field_ok fs -> Forall submessage_ok fs -> tag t = None ->
  exists f, parse_devin_frame (encode_fields fs ++ t) = inr f /\ df_text f = fs ≫= field_text 3 /\
    df_thinking_text f = fs ≫= field_text 9 /\ df_tool_call_deltas f = fs ≫= field_calls.
Proof.
  intros Hok Hsub Ht. unfold parse_devin_frame.
  rewrite parse_fields_local by (apply devin_frame_consumes || apply devin_frame_local || done).
  enough (forall acc, exists f, foldl (fun o x => o ≫= fun a => field_apply devin_frame_step a x) (Some acc) fs = Some f /\
    df_text f = df_text acc ++ (fs ≫= field_text 3) /\ df_thinking_text f = df_thinking_text acc ++ (fs ≫= field_text 9) /\
    df_tool_call_deltas f = df_tool_call_deltas acc ++ (fs ≫= field_calls)) as H.
  { destruct (H devin_frame_default) as (f & -> & H1 & H2 & H3). exists f. done. }
  induction Hok as [|x fs Hx Hok IH]; intros acc.
  { exists acc. cbn. by rewrite !app_nil_r. }
  apply Forall_cons_1 in Hsub as [Hxs Hsub]. destruct (frame_field_parses acc x Hx Hxs) as [acc' Ha].
  destruct (frame_field_adds acc x acc' Ha Hx) as (E1 & E2 & E3). destruct (IH Hsub acc') as (f & Hf & F1 & F2 & F3).
  exists f. cbn [foldl mbind option_bind]. rewrite Ha. rewrite !bind_cons, !app_assoc, <- E1, <- E2, <- E3. done.
Qed.

(** A tool-call delta as the upstream writes it. *)
Definition tool_delta_fields (d : DevinToolCallDelta) : list Field :=
  [LenField 1 (td_id d); LenField 2 (td_name d); LenField 3 (td_arguments d); LenField 4 (td_invalid_json_str d);
   LenField 5 (td_invalid_json_err d); VarintField 6 (if td_is_custom d then 1 else 0)].

Definition tool_delta_ok (d : DevinToolCallDelta) : Prop :=
  Forall (fun s => utf8_valid s = true /\ Z.of_nat (length s) <= u64_max)
    [td_id d; td_name d; td_arguments d; td_invalid_json_str d; td_invalid_json_err d].

Lemma tool_delta_len i n a js je c k s : field_ok (LenField k s) ->
  field_apply tool_call_delta_step (mkToolDelta i n a js je c) (LenField k s) =
  Some (if k =? 1 then mkToolDelta (reader_str s) n a js je c
        else if k =? 2 then mkToolDelta i (reader_str s) a js je c
        else if k =? 3 then mkToolDelta i n (reader_str s) js je c
        else if k =? 4 then mkToolDelta i n a (reader_str s) je c
        else if k =? 5 then mkToolDelta i n a js (reader_str s) c
        else mkToolDelta i n a js je c).
Proof.
  intros Hx. unfold field_apply. rewrite (body_nil (LenField k s)). unfold tool_call_delta_step, skip_field_of.
  rewrite (skip_field (LenField k s) [] Hx), (bytes_field k s [] Hx). cbn [field_number field_wire].
  rewrite ?field_is_same. rewrite ?field_is_other by done. repeat case_match; done.
Qed.

Lemma tool_delta_custom i n a js je c v : field_ok (VarintField 6 v) ->
  field_apply tool_call_delta_step (mkToolDelta i n a js je c) (VarintField 6 v) = Some (mkToolDelta i n a js je (negb (v =? 0))).
Proof.
  intros Hx. unfold field_apply. rewrite (body_nil (VarintField 6 v)). unfold tool_call_delta_step.
  by rewrite (varint_field 6 v [] Hx).
Qed.

Lemma tool_delta_round_trip d : tool_delta_ok d -> parse_tool_call_delta (encode_fields (tool_delta_fields d)) = Some d.
Proof.
  intros H. unfold tool_delta_ok in H. rewrite !Forall_cons in H.
  destruct H as ([U1 L1] & [U2 L2] & [U3 L3] & [U4 L4] & [U5 L5] & _).
  unfold parse_tool_call_delta. rewrite <- (app_nil_r (encode_fields _)).
  assert (Forall field_ok (tool_delta_fields d)) as Hok.
  { unfold tool_delta_fields. repeat constructor; cbn; unfold u32_max, u64_max in *; try lia; destruct (td_is_custom d); lia. }
  rewrite parse_fields_local by (apply tool_call_delta_consumes || apply tool_call_delta_local || done).
  unfold tool_delta_fields in *. rewrite !Forall_cons in Hok. destruct Hok as (O1 & O2 & O3 & O4 & O5 & O6 & _).
  cbn [foldl mbind option_bind]. unfold tool_delta_default.
  rewrite tool_delta_len by done. cbn [Z.eqb Pos.eqb mbind option_bind]. rewrite tool_delta_len by done. cbn [Z.eqb Pos.eqb mbind option_bind].
  rewrite tool_delta_len by done. cbn [Z.eqb Pos.eqb mbind option_bind]. rewrite tool_delta_len by done. cbn [Z.eqb Pos.eqb mbind option_bind].
  rewrite tool_delta_len by done. cbn [Z.eqb Pos.eqb mbind option_bind]. rewrite tool_delta_custom by done.
  unfold reader_str. rewrite !utf8_lossy_id by done. destruct d as [? ? ? ? ? []]; done.
Qed.

(** ** What is parsed is text *)

Definition delta_utf8 (d : DevinToolCallDelta) : Prop :=
  utf8_valid (td_id d) = true /\ utf8_valid (td_name d) = true /\ utf8_valid (td_arguments d) = true /\
  utf8_valid (td_invalid_json_str d) = true.

Definition frame_utf8 (f : DevinFrame) : Prop :=
  utf8_valid (df_text f) = true /\ utf8_valid (df_thinking_text f) = true /\ Forall delta_utf8 (df_tool_call_deltas f).

Lemma reader_str_utf8 b : utf8_valid (reader_str b) = true.
Proof. apply utf8_lossy_valid. Qed.

#[export] Hint Resolve reader_str_utf8 : utf8.

Lemma store_inv {A V} (f : V -> A) o a r : store_value f o = Some (a, r) -> exists v r', o = Some (v, r') /\ a = f v.
Proof. destruct o as [[v r']|]; cbn; [|done]. intros [= <- _]. eauto. Qed.

Lemma skip_field_of_inv {A} (acc : A) wire s a r : skip_field_of acc wire s = Some (a, r) -> a = acc.
Proof. unfold skip_field_of. by intros (r' & _ & [= -> ->])%fmap_Some. Qed.

Lemma tool_delta_utf8 s d : parse_tool_call_delta s = Some d -> delta_utf8 d.
Proof.
  apply parse_fields_inv; [|repeat split; done]. intros [] field wire s' acc' r (H1 & H2 & H3 & H4). unfold tool_call_delta_step.
  step_cases; intros Hs; try (apply store_inv in Hs as (? & ? & _ & ->)); try (apply skip_field_of_inv in Hs as ->);
    repeat split; cbn in *; auto with utf8.
Qed.

Lemma frame_is_utf8 s f : parse_devin_frame s = inr f -> frame_utf8 f.
Proof.
  unfold parse_devin_frame. destruct (parse_fields _ _ s) as [f'|] eqn:E; [|done]. intros [= <-]. revert E.
  apply parse_fields_inv; [|repeat split; constructor]. intros [] field wire s' acc' r (H1 & H2 & H3). unfold devin_frame_step.
  step_cases; intros Hs;
    try (match type of Hs with context [parse_dim_group] => apply store_inv in Hs as (b & ? & _ & ->); cbn beta;
           match goal with |- context [parse_dim_group ?b ?f] => destruct (dim_group_keeps b f) as (E1 & E2 & E3) end;
           unfold frame_utf8; rewrite E1, E2, E3; done end);
    try (apply store_inv in Hs as (? & ? & _ & ->)); try (apply skip_field_of_inv in Hs as ->);
    try (destruct (bytes_value s') as [[b r']|]; [|done]);
    try (match type of Hs with context [match ?o with _ => _ end] => destruct o eqn:Eo; [|done] end; injection Hs as <- <-);
    unfold frame_utf8 in *; cbn in *; rewrite ?utf8_valid_app by done; auto with utf8.
  split; [done|]. split; [done|]. apply Forall_app. split; [done|]. constructor; [|constructor]. by eapply tool_delta_utf8.
Qed.

(** ** Theorem *)

(** C34. A frame is read as it was written: its text and reasoning are those of
    its fields in order, repeated ones joined, whatever unknown fields lie
    between them; each tool call comes back with its id, name and arguments.
    And, because the loop takes a tag it cannot read for the end, a tail cut
    inside a tag is dropped without an error. *)
Theorem devin_frame_read_as_written fs t ds :
  Forall field_ok fs -> Forall submessage_ok fs -> tag t = None -> Forall tool_delta_ok ds ->
  exists f,
    parse_devin_frame (encode_fields fs ++ t) = inr f /\
    parse_devin_frame (encode_fields fs) = inr f /\
    df_text f = fs ≫= field_text 3 /\
    df_thinking_text f = fs ≫= field_text 9 /\
    df_tool_call_deltas f = fs ≫= field_calls /\
    ((fun d => LenField 6 (encode_fields (tool_delta_fields d))) <$> ds) ≫= field_calls = ds.
Proof.
  intros Hok Hsub Ht Hd. destruct (frame_of_fields fs t Hok Hsub Ht) as (f & Hf & H1 & H2 & H3).
  exists f. split; [done|]. split; [|split; [done|split; [done|split; [done|]]]].
  - rewrite <- Hf. unfold parse_devin_frame. rewrite <- (app_nil_r (encode_fields fs)) at 1.
    by rewrite !parse_fields_local by (apply devin_frame_consumes || apply devin_frame_local || done).
  - clear -Hd. induction Hd as [|d ds H _ IH]; [done|]. rewrite fmap_cons, bind_cons, IH. cbn [field_calls].
    by rewrite Z.eqb_refl, tool_delta_round_trip.
Qed.

(** Text in two fields around an unknown one, a tool call, and half a tag. *)
Lemma devin_frame_read_as_written_witness :
  exists f,
    parse_devin_frame (encode_fields [LenField 3 (bytes_of "he"); VarintField 99 7; LenField 3 (bytes_of "llo");
      LenField 6 (encode_fields (tool_delta_fields (mkToolDelta (bytes_of "id") [] [] [] [] true)))] ++ [128]) = inr f /\
    df_text f = bytes_of "hello" /\ df_tool_call_deltas f = [mkToolDelta (bytes_of "id") [] [] [] [] true].
Proof.
  edestruct (devin_frame_read_as_written [LenField 3 (bytes_of "he"); VarintField 99 7; LenField 3 (bytes_of "llo");
      LenField 6 (encode_fields (tool_delta_fields (mkToolDelta (bytes_of "id") [] [] [] [] true)))] [128]
      [mkToolDelta (bytes_of "id") [] [] [] [] true]) as (f & Hf & _ & Ht & _ & Hc & _).
  - repeat constructor; vm_compute; done.
  - repeat constructor. eexists. vm_compute. reflexivity.
  - done.
  - repeat constructor; vm_compute; done.
  - exists f. split; [exact Hf|]. split; [rewrite Ht|rewrite Hc]; vm_compute; done.
Defined.
