(* ===== verification/DevinStream.v ===== *)
(** * Devin: a stream of frames, and the same frames folded into one answer

    [openproxy-pipeline/src/sse/devin.rs]: the chunk each frame becomes for a
    client that streams, and the fold of a whole body for one that does not;
    [streaming_state/devin.rs] and the Devin branch of [streaming/pipeline.rs]:
    the loop that cuts the body into frames and hands them on.

    What happens to a chunk after it is built (restoration, recording, the sink)
    is modelled with the components that do it. *)

From Stdlib Require Import String.
From S2P Require Import Prelude Text Bytes Framing ThinkResponse Accumulator StreamFold DevinWire Protobuf DevinFrames.

(** ** Tool calls by index *)

Record DevinStreamState := mkDevinState {
  ds_tool_index_by_id : gmap str Z;
  ds_next_tool_index : Z;
  ds_active_tool_index : option Z;
  ds_last_stop_reason : Z;
  ds_saw_tool_calls : bool
}.

Definition devin_state_default : DevinStreamState := mkDevinState ∅ 0 None 0 false.

(** The index of a call and whether it is new. *)
Definition devin_tool_index (st : DevinStreamState) (id : str) : Z * bool * DevinStreamState :=
  let fresh := ds_next_tool_index st in
  let next := wrap_add u32_max fresh 1 in
  let '(mkDevinState m _ _ sr saw) := st in
  if negb (bool_decide (id = [])) then
    match m !! id with
    | Some index => (index, false, mkDevinState m fresh (Some index) sr saw)
    | None => (fresh, true, mkDevinState (<[id := fresh]> m) next (Some fresh) sr saw)
    end
  else match ds_active_tool_index st with
       | Some index => (index, false, st)
       | None => (fresh, true, mkDevinState m next (Some fresh) sr saw)
       end.

Definition devin_tool_call_args (tc : DevinToolCallDelta) : str :=
  if bool_decide (td_arguments tc = []) then td_invalid_json_str tc else td_arguments tc.

Definition set_stop (reason : Z) (st : DevinStreamState) : DevinStreamState :=
  mkDevinState (ds_tool_index_by_id st) (ds_next_tool_index st) (ds_active_tool_index st) reason (ds_saw_tool_calls st).

Definition set_saw (st : DevinStreamState) : DevinStreamState :=
  mkDevinState (ds_tool_index_by_id st) (ds_next_tool_index st) (ds_active_tool_index st) (ds_last_stop_reason st) true.

(** ** Stop reason and usage *)

Definition devin_finish_reason (stop_reason : Z) (saw_tool_calls : bool) : string :=
  if (stop_reason =? 1) || (stop_reason =? 3) then "length"
  else if stop_reason =? 11 then "content_filter"
  else if saw_tool_calls then "tool_calls" else "stop".

(** [.clamp(0, i64::from(u32::MAX)) as u32]. *)
Definition clamp_u32 (n : Z) : Z := Z.max 0 (Z.min u32_max n).

Definition openai_usage_of (prompt completion cached : Z) : OpenAIUsage :=
  let cached' := clamp_u32 cached in
  let prompt' := clamp_u32 (add_i64 prompt cached) in
  let completion' := clamp_u32 completion in
  mkUsage prompt' completion' (sat_add u32_max prompt' completion')
    (if 0 <? cached' then Some (mkDetails (Some cached')) else None).

Definition devin_usage_to_openai (u : DevinUsage) : OpenAIUsage :=
  openai_usage_of (du_prompt_tokens u) (du_completion_tokens u) (du_cached_tokens u).

Definition devin_frame_usage (f : DevinFrame) : option OpenAIUsage :=
  match df_usage f with
  | Some u => Some (devin_usage_to_openai u)
  | None => if df_dim_found f then Some (openai_usage_of (df_dim_prompt f) (df_dim_completion f) (df_dim_cached f)) else None
  end.

(** ** Chunks *)

Section devin.
(** [URL_SAFE_NO_PAD], [miniz_oxide] and [serde_json::from_slice]. *)
Variable b64_encode : str -> str.
Variable inflate : Z -> str -> InflateResult.
Variable from_slice : str -> option Json.

Definition jstr (s : str) : Json := JStr (of_bytes s).

Definition insert_if (b : bool) (k : string) (v : Json) (m : list (string * Json)) : list (string * Json) :=
  if b then json_insert k v m else m.

Definition is_empty_str (s : str) : bool := bool_decide (s = []).

(** The body of the loop over [frame.tool_call_deltas]. *)
Definition tool_delta_json (st : DevinStreamState) (tc : DevinToolCallDelta) : Json * DevinStreamState :=
  let client_id := encode_devin_tool_call_id b64_encode (td_id tc) in
  let '(index, first_seen, st) := devin_tool_index st client_id in
  let st := set_saw st in
  let args := devin_tool_call_args tc in
  let function := insert_if (negb (is_empty_str (td_name tc))) "name" (jstr (td_name tc)) [] in
  let function := insert_if (negb (is_empty_str args)) "arguments" (jstr args) function in
  let call := json_insert "index" (JInt index) [] in
  let call := insert_if first_seen "id" (jstr client_id) call in
  let call := insert_if first_seen "type" (JStr "function") call in
  let call := json_insert "function" (JObj function) call in
  (JObj call, st).

Fixpoint tool_deltas_json (st : DevinStreamState) (tcs : list DevinToolCallDelta) : list Json * DevinStreamState :=
  match tcs with
  | [] => ([], st)
  | tc :: tcs' =>
      let '(call, st) := tool_delta_json st tc in
      let '(calls, st) := tool_deltas_json st tcs' in (call :: calls, st)
  end.

(** The JSON document of a chunk. *)
Definition devin_chunk_payload (chunk_id : str) (created : Z) (model_name : str) (delta finish_reason : Json) : Json :=
  JObj [("choices", JArr [JObj [("delta", delta); ("finish_reason", finish_reason); ("index", JInt 0)]]);
        ("created", JInt created); ("id", jstr chunk_id); ("model", jstr model_name);
        ("object", JStr "chat.completion.chunk")]%string.

Definition devin_frame_to_chunk (st : DevinStreamState) (f : DevinFrame) (chunk_id : str) (created : Z) (model_name : str)
    : option UpstreamSseChunk * DevinStreamState :=
  let st := if df_stop_reason f =? 0 then st else set_stop (df_stop_reason f) st in
  let usage := devin_frame_usage f in
  let delta := insert_if (negb (is_empty_str (df_text f))) "content" (jstr (df_text f)) [] in
  let delta := insert_if (negb (is_empty_str (df_thinking_text f))) "reasoning_content" (jstr (df_thinking_text f)) delta in
  let '(calls, st) := tool_deltas_json st (df_tool_call_deltas f) in
  let delta := insert_if (negb (bool_decide (df_tool_call_deltas f = []))) "tool_calls" (JArr calls) delta in
  let has_content := negb (is_empty_str (df_text f)) || negb (is_empty_str (df_thinking_text f))
                     || negb (bool_decide (df_tool_call_deltas f = [])) in
  if bool_decide (delta = []) && bool_decide (usage = None) && (df_stop_reason f =? 0) then (None, st)
  else (Some (mkSseChunk None (devin_chunk_payload chunk_id created model_name (JObj delta) JNull) false usage None
                (if is_empty_str (df_thinking_text f) then None else Some (df_thinking_text f)) calls has_content), st).

Definition devin_done_chunk (st : DevinStreamState) (chunk_id : str) (created : Z) (model_name : str) : UpstreamSseChunk :=
  let finish_reason := devin_finish_reason (ds_last_stop_reason st) (ds_saw_tool_calls st) in
  mkSseChunk None (devin_chunk_payload chunk_id created model_name (JObj []) (JStr finish_reason)) true None
    (Some (bytes_of finish_reason)) None [] false.

(** ** The streaming loop *)

(** How a request fails; the streaming loop and the fold say it in the same words. *)
Inductive DevinFailure : Type :=
| FrameFailure (e : DevinWireError)      (* "devin frame: ..." *)
| ParseFailure (e : DevinWireError)      (* "devin frame parse: ..." *)
| TrailerFailure (status : Z) (msg : str)
| TruncatedMidFrame
| NoTrailer.

Definition CONNECT_END_STREAM_MASK : Z := 2.

(** What a frame does to the stream: a chunk to send, nothing, the last chunk,
    or a failure. *)
Inductive FrameOutcome : Type :=
| FSend (c : UpstreamSseChunk) | FSkip | FDone (c : UpstreamSseChunk) | FFail (e : DevinFailure).

(** [process_devin_frame] and [handle_devin_end_stream], up to the chunk. *)
Definition process_devin_frame (chunk_id : str) (created : Z) (model_name : str) (st : DevinStreamState) (ev : DevinFrameEvent)
    : FrameOutcome * DevinStreamState :=
  if negb (Z.land (fe_flag ev) CONNECT_END_STREAM_MASK =? 0) then
    match parse_devin_trailer_error from_slice (fe_payload ev) with
    | Some (status, msg) => (FFail (TrailerFailure status msg), st)
    | None => (FDone (devin_done_chunk st chunk_id created model_name), st)
    end
  else match parse_devin_frame (fe_payload ev) with
       | inl e => (FFail (ParseFailure e), st)
       | inr f =>
           let '(o, st) := devin_frame_to_chunk st f chunk_id created model_name in
           (match o with Some c => FSend c | None => FSkip end, st)
       end.

(** The inner loop of [run_pipeline]: the chunks sent, the state, and the buffer
    or how the stream ended. *)
Fixpoint devin_pop (cid : str) (created : Z) (model : str) (fuel : nat) (st : DevinStreamState) (buf : str)
    : list UpstreamSseChunk * DevinStreamState * (option DevinFailure + str) :=
  match fuel with
  | O => ([], st, inr buf)
  | S n =>
      match devin_next_frame inflate buf with
      | (inl e, _) => ([], st, inl (Some (FrameFailure e)))
      | (inr None, b) => ([], st, inr b)
      | (inr (Some ev), b) =>
          match process_devin_frame cid created model st ev with
          | (FFail e, st) => ([], st, inl (Some e))
          | (FDone c, st) => ([c], st, inl None)
          | (FSkip, st) => devin_pop cid created model n st b
          | (FSend c, st) => let '(out, st, r) := devin_pop cid created model n st b in (c :: out, st, r)
          end
      end
  end.

(** [run_pipeline] for Devin: the chunks sent and how the stream ended. *)
Fixpoint devin_run (cid : str) (created : Z) (model : str) (st : DevinStreamState) (chunks : list str) (buf : str)
    : list UpstreamSseChunk * option DevinFailure :=
  match chunks with
  | [] => ([], Some (match buf with [] => NoTrailer | _ => TruncatedMidFrame end))
  | c :: cs =>
      match devin_pop cid created model (S (length (buf ++ c))) st (buf ++ c) with
      | (out, _, inl e) => (out, e)
      | (out, st, inr buf) => let '(out', e) := devin_run cid created model st cs buf in (out ++ out', e)
      end
  end.

(** ** The fold *)

(** [BTreeMap::entry(k).or_default()], then the changes to it: keys ascend. *)
Fixpoint entry_update {V} (k : Z) (dflt : V) (f : V -> V) (m : list (Z * V)) : list (Z * V) :=
  match m with
  | [] => [(k, f dflt)]
  | (k', v) :: m' =>
      if k' =? k then (k, f v) :: m'
      else if k <? k' then (k, f dflt) :: m
      else (k', v) :: entry_update k dflt f m'
  end.

Record UnaryFold := mkUnary {
  uf_state : DevinStreamState;
  uf_text : str;
  uf_thinking : str;
  uf_usage : option OpenAIUsage;
  uf_created : Z;
  uf_response_id : str;
  uf_response_model : option str;
  uf_tool_calls : list (Z * (str * str * str))
}.

Definition unary_start : UnaryFold := mkUnary devin_state_default [] [] None 0 [] None [].

Definition fold_tool_delta (acc : DevinStreamState * list (Z * (str * str * str))) (tc : DevinToolCallDelta)
    : DevinStreamState * list (Z * (str * str * str)) :=
  let '(st, calls) := acc in
  let '(index, first_seen, st) := devin_tool_index st (td_id tc) in
  (set_saw st,
   entry_update index ([], [], []) (fun e =>
     let '(i, n, a) := e in
     (if first_seen then encode_devin_tool_call_id b64_encode (td_id tc) else i,
      if is_empty_str (td_name tc) then n else td_name tc,
      a ++ devin_tool_call_args tc)) calls).

Definition fold_devin_frame (u : UnaryFold) (f : DevinFrame) : UnaryFold :=
  let st := if df_stop_reason f =? 0 then uf_state u else set_stop (df_stop_reason f) (uf_state u) in
  let '(st, calls) := foldl fold_tool_delta (st, uf_tool_calls u) (df_tool_call_deltas f) in
  mkUnary st (uf_text u ++ df_text f) (uf_thinking u ++ df_thinking_text f)
    (match devin_frame_usage f with Some x => Some x | None => uf_usage u end)
    (if 0 <? df_timestamp_secs f then df_timestamp_secs f else uf_created u)
    (if is_empty_str (uf_response_id u)
     then if is_empty_str (df_message_id f) then df_output_id f else df_message_id f
     else uf_response_id u)
    (match df_usage f with
     | Some x => if is_empty_str (du_model_name x) then uf_response_model u else Some (du_model_name x)
     | None => uf_response_model u
     end)
    calls.

Fixpoint fold_devin_loop (fuel : nat) (u : UnaryFold) (buf : str) : DevinFailure + UnaryFold * str :=
  match fuel with
  | O => inr (u, buf)
  | S n =>
      match devin_next_frame inflate buf with
      | (inl e, _) => inl (FrameFailure e)
      | (inr None, b) => inr (u, b)
      | (inr (Some ev), b) =>
          if negb (Z.land (fe_flag ev) CONNECT_END_STREAM_MASK =? 0) then
            match parse_devin_trailer_error from_slice (fe_payload ev) with
            | Some (status, msg) => inl (TrailerFailure status msg)
            | None => fold_devin_loop n u b
            end
          else match parse_devin_frame (fe_payload ev) with
               | inl e => inl (ParseFailure e)
               | inr f => fold_devin_loop n (fold_devin_frame u f) b
               end
      end
  end.

(** The fields of the [OpenAIResponse] that the stream decides. *)
Record DevinResponse := mkDevinResponse {
  dr_id : str; dr_created : Z; dr_model : str; dr_content : str; dr_reasoning_content : option str;
  dr_tool_calls : option (list Json); dr_finish_reason : string; dr_usage : option OpenAIUsage
}.

Definition unary_call (e : str * str * str) : Json :=
  let '(id, name, arguments) := e in
  JObj [("function", JObj [("arguments", jstr arguments); ("name", jstr name)]); ("id", jstr id); ("type", JStr "function")]%string.

(** [fold_devin_body_to_openai_response]; [fresh_id] and [now] stand for the
    random id and the clock. *)
Definition fold_devin_body (fresh_id : str) (now : Z) (body model_name : str) : DevinFailure + DevinResponse :=
  match fold_devin_loop (S (length body)) unary_start body with
  | inl e => inl e
  | inr (u, _ :: _) => inl TruncatedMidFrame
  | inr (u, []) =>
      let calls := unary_call <$> (uf_tool_calls u).*2 in
      inr (mkDevinResponse
             (if is_empty_str (uf_response_id u) then fresh_id else uf_response_id u)
             (if uf_created u =? 0 then now else uf_created u)
             (default model_name (uf_response_model u))
             (uf_text u)
             (if is_empty_str (uf_thinking u) then None else Some (uf_thinking u))
             (match calls with [] => None | _ => Some calls end)
             (devin_finish_reason (ds_last_stop_reason (uf_state u)) (ds_saw_tool_calls (uf_state u)))
             (uf_usage u))
  end.

End devin.
