(* ===== verification/DevinAnswer.v ===== *)
(** * Devin: the streamed answer is the folded one

    A client that streams puts the answer together from the chunks it receives;
    a client that does not receives the fold of the body.  [devin_run] and
    [fold_devin_body] are shown to be functions of the frames in the body, and
    the two answers to be the same. *)

From Stdlib Require Import String.
From S2P Require Import Prelude Text Bytes Framing ThinkResponse Accumulator StreamFold DevinWire Protobuf DevinFrames DevinStream.

Section answer.
Variable b64_encode : str -> str.
Variable b64_decode : str -> option str.
Variable inflate : Z -> str -> InflateResult.
Variable from_slice : str -> option Json.
Variables (cid : str) (created : Z) (model : str).

Notation next := (devin_next_frame inflate).
Notation process := (process_devin_frame b64_encode from_slice cid created model).

(** ** Both loops are functions of the frames *)

(** The frames handed on one after the other, until one ends the stream. *)
Fixpoint run_events (st : DevinStreamState) (evs : list DevinFrameEvent)
    : list UpstreamSseChunk * DevinStreamState * option (option DevinFailure) :=
  match evs with
  | [] => ([], st, None)
  | ev :: evs' =>
      match process st ev with
      | (FFail e, st) => ([], st, Some (Some e))
      | (FDone c, st) => ([c], st, Some None)
      | (FSkip, st) => run_events st evs'
      | (FSend c, st) => let '(out, st, r) := run_events st evs' in (c :: out, st, r)
      end
  end.

Lemma run_events_app st l1 l2 :
  run_events st (l1 ++ l2) =
  match run_events st l1 with
  | (out, st', Some x) => (out, st', Some x)
  | (out, st', None) => let '(out', st'', x) := run_events st' l2 in (out ++ out', st'', x)
  end.
Proof using Type.
  revert st. induction l1 as [|ev l1 IH]; intros st; cbn [app run_events].
  { by destruct (run_events st l2) as [[? ?] ?]. }
  destruct (process st ev) as [[c| |c|e] st']; try done.
  rewrite IH. destruct (run_events st' l1) as [[out st1] [x|]]; [done|]. by destruct (run_events st1 l2) as [[? ?] ?].
Qed.

(** How the loop ends once the frames are through. *)
Definition loop_end {A} (x : option (option DevinFailure)) (e : option DevinWireError) (rest : A) : option DevinFailure + A :=
  match x with
  | Some y => inl y
  | None => match e with Some e => inl (Some (FrameFailure e)) | None => inr rest end
  end.

Lemma devin_pop_spec fuel st buf :
  devin_pop b64_encode inflate from_slice cid created model fuel st buf =
  let '(l, e, r) := pop_frames next fuel buf in
  let '(out, st', x) := run_events st l in (out, st', loop_end x e r).
Proof using Type.
  revert st buf. induction fuel as [|fuel IH]; intros st buf; [done|]. cbn [devin_pop pop_frames].
  destruct (next buf) as [[e|[ev|]] b]; [done| |done].
  destruct (pop_frames next fuel b) as [[l e] r] eqn:E. cbn [run_events].
  destruct (process st ev) as [[c| |c|err] st']; try done; rewrite IH, E; by destruct (run_events st' l) as [[? ?] ?].
Qed.

Lemma devin_run_spec st cs buf :
  devin_run b64_encode inflate from_slice cid created model st cs buf =
  let '(l, e, r) := feed next cs buf in
  let '(out, st', x) := run_events st l in
  (out, match loop_end x e r with
        | inl y => y
        | inr [] => Some NoTrailer
        | inr _ => Some TruncatedMidFrame
        end).
Proof using Type.
  revert st buf. induction cs as [|c cs IH]; intros st buf; cbn [devin_run feed]; [by destruct buf|].
  rewrite devin_pop_spec. fold (drain next (buf ++ c)).
  destruct (drain next (buf ++ c)) as [[l [e|]] r].
  - by destruct (run_events st l) as [[out st'] [x|]].
  - destruct (feed next cs r) as [[l' e'] r'] eqn:Ef. rewrite run_events_app.
    destruct (run_events st l) as [[out st'] [x|]]; [done|]. cbn [loop_end]. rewrite IH, Ef.
    by destruct (run_events st' l') as [[? ?] ?].
Qed.

(** The fold, over frames. *)
Fixpoint fold_events (u : UnaryFold) (evs : list DevinFrameEvent) : DevinFailure + UnaryFold :=
  match evs with
  | [] => inr u
  | ev :: evs' =>
      if negb (Z.land (fe_flag ev) CONNECT_END_STREAM_MASK =? 0) then
        match parse_devin_trailer_error from_slice (fe_payload ev) with
        | Some (status, msg) => inl (TrailerFailure status msg)
        | None => fold_events u evs'
        end
      else match parse_devin_frame (fe_payload ev) with
           | inl e => inl (ParseFailure e)
           | inr f => fold_events (fold_devin_frame b64_encode u f) evs'
           end
  end.

Lemma fold_devin_loop_spec fuel u buf :
  fold_devin_loop b64_encode inflate from_slice fuel u buf =
  let '(l, e, r) := pop_frames next fuel buf in
  match fold_events u l with
  | inl err => inl err
  | inr u' => match e with Some e => inl (FrameFailure e) | None => inr (u', r) end
  end.
Proof using Type.
  revert u buf. induction fuel as [|fuel IH]; intros u buf; [done|]. cbn [fold_devin_loop pop_frames].
  destruct (next buf) as [[e|[ev|]] b]; [done| |done].
  destruct (pop_frames next fuel b) as [[l e] r] eqn:E. cbn [fold_events].
  destruct (negb _).
  - destruct (parse_devin_trailer_error _ _) as [[status msg]|]; [done|]. by rewrite IH, E.
  - destruct (parse_devin_frame _) as [err|f]; [done|]. by rewrite IH, E.
Qed.

(** ** A client that streams *)

Record Assembled := mkAssembled {
  as_text : str; as_thinking : str; as_calls : list (Z * (str * str * str)); as_usage : option Json;
  as_finish : option string
}.

Definition assembled_start : Assembled := mkAssembled [] [] [] None None.

Definition opt_field (k : string) (v : Json) (old : str) : str :=
  match json_get k v with Some v' => match as_str v' with Some s => bytes_of s | None => old end | None => old end.

(** A call fragment: its id and name replace, its arguments extend. *)
Definition assemble_call (calls : list (Z * (str * str * str))) (call : Json) : list (Z * (str * str * str)) :=
  match json_get "index" call with
  | Some (JInt i) =>
      let function := default JNull (json_get "function" call) in
      entry_update i ([], [], []) (fun e =>
        let '(id, n, a) := e in
        (opt_field "id" call id, opt_field "name" function n, a ++ opt_field "arguments" function [])) calls
  | _ => calls
  end.

(** One payload the client receives; the usage is that of the last one that
    carries any. *)
Definition assemble_payload (a : Assembled) (p : Json) : Assembled :=
  let usage := match json_get "usage" p with None | Some JNull => as_usage a | Some u => Some u end in
  match json_get "choices" p with
  | Some (JArr (choice :: _)) =>
      let delta := default JNull (json_get "delta" choice) in
      mkAssembled (as_text a ++ opt_field "content" delta []) (as_thinking a ++ opt_field "reasoning_content" delta [])
        (match json_get "tool_calls" delta with Some (JArr l) => foldl assemble_call (as_calls a) l | _ => as_calls a end)
        usage
        (match json_get "finish_reason" choice with Some (JStr s) => Some s | _ => as_finish a end)
  | _ => mkAssembled (as_text a) (as_thinking a) (as_calls a) usage (as_finish a)
  end.

Definition assemble_chunk (a : Assembled) (c : UpstreamSseChunk) : Assembled := assemble_payload a (sse_payload c).

(** A chunk sent with the usage of the stream so far, and received. *)
Definition deliver (prefix : option (Z * Z)) (oa : option OpenAIUsage * Assembled) (c : UpstreamSseChunk)
    : option OpenAIUsage * Assembled :=
  let '(o, ps) := sent_chunk prefix (fst oa) c in (o, foldl assemble_payload (snd oa) ps).

Lemma sent_delivered prefix cs o a :
  foldl assemble_payload a (sent_payloads prefix o cs) = snd (foldl (deliver prefix) (o, a) cs).
Proof using Type.
  revert o a. induction cs as [|c cs IH]; intros o a; [done|]. cbn [sent_payloads foldl].
  unfold deliver at 2. cbn [fst snd]. destruct (sent_chunk prefix o c) as [o' ps]. by rewrite foldl_app, IH.
Qed.

(** The usage of a stream: the counts of its chunks merged. *)
Definition merged_usage (prefix : option (Z * Z)) (o : option OpenAIUsage) (us : list OpenAIUsage) : option OpenAIUsage :=
  foldl (fun o u => sync_usage prefix (Some u) o) o us.

(** ** The two index tables agree *)

Hypothesis b64_round_trip : forall s, byte_list s -> b64_decode (b64_encode s) = Some s.

Notation enc := (encode_devin_tool_call_id b64_encode).

(** The streaming table is keyed by the client's ids, the fold's by the
    upstream's. *)
Definition same_state (s u : DevinStreamState) : Prop :=
  (forall id, utf8_valid id = true -> id <> [] -> ds_tool_index_by_id s !! enc id = ds_tool_index_by_id u !! id) /\
  ds_next_tool_index s = ds_next_tool_index u /\ ds_active_tool_index s = ds_active_tool_index u /\
  ds_last_stop_reason s = ds_last_stop_reason u /\ ds_saw_tool_calls s = ds_saw_tool_calls u.

Lemma tool_index_agrees s u id : same_state s u -> utf8_valid id = true ->
  fst (devin_tool_index s (enc id)) = fst (devin_tool_index u id) /\
  same_state (snd (devin_tool_index s (enc id))) (snd (devin_tool_index u id)).
Proof using b64_round_trip.
  intros (Hm & Hn & Ha & Hs & Ht) Hu. destruct s as [sm sn sa ss st], u as [um un ua us ut]. cbn in *. subst.
  unfold devin_tool_index. cbn. destruct (decide (id = [])) as [->|Hne].
  - rewrite (proj2 (encode_tool_id_nil b64_encode []) eq_refl). cbn. destruct ua; split; try done.
  - rewrite (bool_decide_false (id = [])) by done.
    rewrite (bool_decide_false (enc id = [])) by (by rewrite encode_tool_id_nil). cbn. rewrite Hm by done.
    destruct (um !! id) as [i|]; (split; [done|]); [done|]. split; [|done]. cbn. intros id' Hu' Hne'.
    destruct (decide (id' = id)) as [->|Hd]; [by rewrite !lookup_insert_eq|].
    rewrite (lookup_insert_ne um) by done. rewrite lookup_insert_ne; [by apply Hm|].
    intros E. by apply Hd, (encode_tool_id_inj _ b64_decode b64_round_trip id' id).
Qed.

Lemma enc_bytes id : utf8_valid id = true -> (forall s, byte_list s -> byte_list (b64_encode s)) -> byte_list (enc id).
Proof using Type.
  intros Hu Hb. unfold encode_devin_tool_call_id. apply utf8_bytes in Hu. destruct (_ || _); [done|].
  apply Forall_app. split; [|by apply Hb]. by repeat constructor.
Qed.

Hypothesis b64_bytes : forall s, byte_list s -> byte_list (b64_encode s).

(** One fragment: what the client does with it is what the fold does. *)
Lemma call_agrees s u tc calls : same_state s u -> delta_utf8 tc ->
  let '(call, s') := tool_delta_json b64_encode s tc in
  let '(u', calls') := fold_tool_delta b64_encode (u, calls) tc in
  same_state s' u' /\ assemble_call calls call = calls'.
Proof using b64_round_trip b64_bytes.
  intros HS (U1 & U2 & U3 & U4). destruct (tool_index_agrees s u (td_id tc) HS U1) as [Hi HS'].
  unfold tool_delta_json, fold_tool_delta.
  destruct (devin_tool_index s (enc (td_id tc))) as [[i first] s1], (devin_tool_index u (td_id tc)) as [[i' first'] u1].
  cbn in Hi, HS'. injection Hi as -> ->. split.
  { destruct HS' as (H1 & H2 & H3 & H4 & H5). by split; [|split; [|split; [|split]]]. }
  assert (byte_list (devin_tool_call_args tc)) as Ha by (unfold devin_tool_call_args; case_bool_decide; by apply utf8_bytes).
  pose proof (enc_bytes _ U1 b64_bytes) as He. apply utf8_bytes in U2.
  set (args := devin_tool_call_args tc) in *. unfold insert_if, assemble_call, opt_field, json_get, is_empty_str, jstr.
  destruct first'; case_bool_decide as H1; case_bool_decide as H2; cbn [negb];
    repeat (rewrite json_get_insert || rewrite json_get_insert_ne by done);
    cbn -[entry_update of_bytes bytes_of encode_devin_tool_call_id json_insert];
    repeat (rewrite json_get_insert || rewrite json_get_insert_ne by done);
    cbn -[entry_update of_bytes bytes_of encode_devin_tool_call_id json_insert];
    rewrite ?bytes_of_of_bytes by done; rewrite ?H1, ?H2; reflexivity.
Qed.

Lemma calls_agree s u tcs calls : same_state s u -> Forall delta_utf8 tcs ->
  let '(js, s') := tool_deltas_json b64_encode s tcs in
  let '(u', calls') := foldl (fold_tool_delta b64_encode) (u, calls) tcs in
  same_state s' u' /\ foldl assemble_call calls js = calls' /\ (js = [] <-> tcs = []).
Proof using b64_round_trip b64_bytes.
  intros HS Hu. revert s u calls HS. induction Hu as [|tc tcs Htc _ IH]; intros s u calls HS; [done|].
  cbn [tool_deltas_json foldl]. pose proof (call_agrees s u tc calls HS Htc) as H.
  destruct (tool_delta_json b64_encode s tc) as [call s1], (fold_tool_delta b64_encode (u, calls) tc) as [u1 calls1].
  destruct H as [HS1 H1]. specialize (IH s1 u1 calls1 HS1).
  destruct (tool_deltas_json b64_encode s1 tcs) as [js s2].
  destruct (foldl (fold_tool_delta b64_encode) (u1, calls1) tcs) as [u2 calls2]. destruct IH as (HS2 & H2 & _).
  cbn [foldl]. by rewrite H1.
Qed.

(** What the client has put together is what the fold holds. *)
Definition same_answer (a : Assembled) (u : UnaryFold) : Prop :=
  as_text a = uf_text u /\ as_thinking a = uf_thinking u /\ as_calls a = uf_tool_calls u /\ as_usage a = None /\
  as_finish a = None.

Lemma json_insert_nonempty k v m : json_insert k v m <> [].
Proof using Type. destruct m as [|[k' v'] m]; cbn; [done|]. by repeat case_match. Qed.

(** The delta of a chunk, read back. *)
Lemma delta_reads text thinking (b : bool) js : byte_list text -> byte_list thinking -> (b = false -> js = []) ->
  let delta := insert_if b "tool_calls" (JArr js)
                 (insert_if (negb (is_empty_str thinking)) "reasoning_content" (jstr thinking)
                    (insert_if (negb (is_empty_str text)) "content" (jstr text) [])) in
  opt_field "content" (JObj delta) [] = text /\ opt_field "reasoning_content" (JObj delta) [] = thinking /\
  json_get "tool_calls" (JObj delta) = (if b then Some (JArr js) else None) /\
  (delta = [] -> text = [] /\ thinking = [] /\ js = []).
Proof using Type.
  intros Ht Hk Hb. unfold insert_if, is_empty_str, opt_field, json_get, jstr.
  destruct b; case_bool_decide as H1; case_bool_decide as H2; cbn [negb];
    repeat (rewrite json_get_insert || rewrite json_get_insert_ne by done); cbn -[json_insert of_bytes bytes_of];
    rewrite ?bytes_of_of_bytes by done;
    (split; [done|]); (split; [done|]); (split; [done|]); intros E; try (by apply json_insert_nonempty in E); auto.
Qed.

Lemma frame_agrees prefix o0 s u a f : same_state s (uf_state u) -> same_answer a u -> frame_utf8 f ->
  let '(o, s') := devin_frame_to_chunk b64_encode s f cid created model in
  let u' := fold_devin_frame b64_encode u f in
  let oa := match o with Some c => deliver prefix (o0, a) c | None => (o0, a) end in
  same_state s' (uf_state u') /\ fst oa = sync_usage prefix (devin_frame_usage f) o0 /\ same_answer (snd oa) u'.
Proof using b64_round_trip b64_bytes.
  intros HS (A1 & A2 & A3 & A4 & A5) (U1 & U2 & U3). apply utf8_bytes in U1, U2.
  unfold devin_frame_to_chunk, fold_devin_frame.
  set (s0 := if df_stop_reason f =? 0 then s else set_stop (df_stop_reason f) s).
  set (u0 := if df_stop_reason f =? 0 then uf_state u else set_stop (df_stop_reason f) (uf_state u)).
  assert (same_state s0 u0) as HS0.
  { unfold s0, u0. destruct (_ =? 0); [done|]. destruct HS as (H1 & H2 & H3 & H4 & H5). by split; [|split; [|split; [|split]]]. }
  pose proof (calls_agree s0 u0 (df_tool_call_deltas f) (uf_tool_calls u) HS0 U3) as H.
  destruct (tool_deltas_json b64_encode s0 (df_tool_call_deltas f)) as [js s1].
  destruct (foldl (fold_tool_delta b64_encode) (u0, uf_tool_calls u) (df_tool_call_deltas f)) as [u1 calls1].
  destruct H as (HS1 & Hc & Hnil).
  destruct (delta_reads (df_text f) (df_thinking_text f) (negb (bool_decide (df_tool_call_deltas f = []))) js U1 U2) as (D1 & D2 & D3 & D4).
  { intros Hb. apply Hnil. by apply negb_false_iff, bool_decide_eq_true in Hb. }
  set (delta := insert_if (negb (bool_decide (df_tool_call_deltas f = []))) _ _ _) in *.
  destruct (bool_decide (delta = []) && _ && _) eqn:E; cbn [uf_state].
  - apply andb_true_iff in E as [[Ed%bool_decide_eq_true Eu%bool_decide_eq_true]%andb_true_iff Es].
    destruct (D4 Ed) as (-> & -> & ->). cbn in Hc. subst calls1. split; [done|]. rewrite Eu. split; [done|].
    unfold same_answer. cbn. by rewrite !app_nil_r.
  - split; [done|]. split; [done|]. unfold same_answer, deliver, sent_chunk. cbn [sse_done is_liveness sse_raw_payload sse_payload devin_chunk_payload].
    cbn [fst snd foldl]. unfold assemble_payload.
    change (json_get "usage" _) with (@None Json).
    change (json_get "choices" _) with (Some (JArr [JObj [("delta", JObj delta); ("finish_reason", JNull); ("index", JInt 0)]]))%string.
    cbn iota. change (json_get "delta" _) with (Some (JObj delta)). change (json_get "finish_reason" _) with (Some JNull).
    cbn [default from_option id as_text as_thinking as_calls as_usage as_finish uf_text uf_thinking uf_tool_calls uf_usage].
    change (from_option id JNull (Some (JObj delta))) with (JObj delta).
    rewrite D1, D2, D3, A1, A2, A3. split; [done|]. split; [done|]. split; [|done].
    destruct (decide (df_tool_call_deltas f = [])) as [Hb|Hb]; [|by rewrite bool_decide_false].
    rewrite bool_decide_true by done. apply Hnil in Hb. by rewrite Hb in Hc.
Qed.

Lemma fold_frame_text u f : uf_text (fold_devin_frame b64_encode u f) = uf_text u ++ df_text f.
Proof using Type. unfold fold_devin_frame. by destruct (foldl _ _ _). Qed.

(** A run of data frames that parse: neither loop ends, and they stay together. *)
Definition data_event (ev : DevinFrameEvent) (f : DevinFrame) : Prop :=
  Z.land (fe_flag ev) CONNECT_END_STREAM_MASK = 0 /\ parse_devin_frame (fe_payload ev) = inr f.

Lemma fold_frame_usage u f : uf_usage (fold_devin_frame b64_encode u f) = match devin_frame_usage f with Some x => Some x | None => uf_usage u end.
Proof using Type. unfold fold_devin_frame. by destruct (foldl _ _ _). Qed.

Definition last_usage (o : option OpenAIUsage) (fs : list DevinFrame) : option OpenAIUsage :=
  match last (omap devin_frame_usage fs) with Some x => Some x | None => o end.

Lemma last_usage_cons o f fs : last_usage o (f :: fs) = last_usage (match devin_frame_usage f with Some x => Some x | None => o end) fs.
Proof using Type.
  unfold last_usage. cbn [omap list_omap]. destruct (devin_frame_usage f) as [x|]; [|done].
  rewrite last_cons. by destruct (last _).
Qed.

Lemma events_agree prefix o s u a evs fs : same_state s (uf_state u) -> same_answer a u -> Forall2 data_event evs fs ->
  exists out s' u' a', run_events s evs = (out, s', None) /\ fold_events u evs = inr u' /\
    same_state s' (uf_state u') /\ foldl (deliver prefix) (o, a) out = (merged_usage prefix o (omap devin_frame_usage fs), a') /\
    same_answer a' u' /\ uf_text u' = uf_text u ++ (fs ≫= df_text) /\ uf_usage u' = last_usage (uf_usage u) fs.
Proof using b64_round_trip b64_bytes.
  intros HS HA H. revert o s u a HS HA. induction H as [|ev f evs fs [Hflag Hp] _ IH]; intros o s u a HS HA.
  { exists [], s, u, a. cbn. by rewrite app_nil_r. }
  cbn [run_events fold_events]. unfold process_devin_frame. rewrite Hflag, Hp. cbn [negb Z.eqb].
  pose proof (frame_agrees prefix o s u a f HS HA (frame_is_utf8 _ _ Hp)) as H.
  assert (merged_usage prefix o (omap devin_frame_usage (f :: fs))
          = merged_usage prefix (sync_usage prefix (devin_frame_usage f) o) (omap devin_frame_usage fs)) as ->.
  { cbn [omap list_omap]. by destruct (devin_frame_usage f). }
  destruct (devin_frame_to_chunk b64_encode s f cid created model) as [[c|] s1]; destruct H as (HS1 & Ho & HA1);
    destruct (IH (sync_usage prefix (devin_frame_usage f) o) _ _ _ HS1 HA1) as (out & s' & u' & a' & Hr & Hf & HS' & Hd & HA' & Ht & Hu);
    rewrite fold_frame_text, <- app_assoc in Ht; rewrite fold_frame_usage, <- last_usage_cons in Hu; rewrite bind_cons.
  - exists (c :: out), s', u', a'. rewrite Hr. cbn [foldl]. rewrite (surjective_pairing (deliver prefix (o, a) c)), Ho. done.
  - exists out, s', u', a'. rewrite Hr. cbn [fst snd] in Ho, Hd. rewrite <- Ho in Hd at 1. done.
Qed.

(** ** The last frame *)

Lemma end_event s u ev : is_end_stream ev = true -> parse_devin_trailer_error from_slice (fe_payload ev) = None ->
  run_events s [ev] = ([devin_done_chunk s cid created model], s, Some None) /\ fold_events u [ev] = inr u.
Proof using Type.
  intros He Ht. unfold is_end_stream in He. change CONNECT_FLAG_END_STREAM with CONNECT_END_STREAM_MASK in He.
  cbn [run_events fold_events]. unfold process_devin_frame. by rewrite He, Ht.
Qed.

Lemma attach_usage_payload u delta finish :
  attach_usage (Some u) (devin_chunk_payload cid created model delta finish) =
  JObj [("choices", JArr [JObj [("delta", delta); ("finish_reason", finish); ("index", JInt 0)]]); ("created", JInt created);
        ("id", jstr cid); ("model", jstr model); ("object", JStr "chat.completion.chunk"); ("usage", usage_value u)]%string.
Proof using Type. reflexivity. Qed.

Lemma done_delivered prefix o s a : as_usage a = None ->
  snd (deliver prefix (o, a) (devin_done_chunk s cid created model)) =
  mkAssembled (as_text a) (as_thinking a) (as_calls a) (usage_value <$> o)
    (Some (devin_finish_reason (ds_last_stop_reason s) (ds_saw_tool_calls s))).
Proof using Type.
  intros Hu. unfold deliver, sent_chunk, devin_done_chunk. cbn [sse_done sse_usage sse_payload sync_usage fst snd].
  destruct o as [x|]; [rewrite attach_usage_payload|cbn [attach_usage]]; cbn -[usage_value]; rewrite !app_nil_r; [done|].
  by rewrite Hu.
Qed.

(** The answer the fold makes of what it holds. *)
Definition response_of (fresh_id : str) (now : Z) (u : UnaryFold) : DevinResponse :=
  let calls := unary_call <$> (uf_tool_calls u).*2 in
  mkDevinResponse
    (if is_empty_str (uf_response_id u) then fresh_id else uf_response_id u)
    (if uf_created u =? 0 then now else uf_created u)
    (default model (uf_response_model u))
    (uf_text u)
    (if is_empty_str (uf_thinking u) then None else Some (uf_thinking u))
    (match calls with [] => None | _ => Some calls end)
    (devin_finish_reason (ds_last_stop_reason (uf_state u)) (ds_saw_tool_calls (uf_state u)))
    (uf_usage u).

Lemma fold_devin_body_frames fresh_id now body evs u :
  drain next body = (evs, None, []) -> fold_events unary_start evs = inr u ->
  fold_devin_body b64_encode inflate from_slice fresh_id now body model = inr (response_of fresh_id now u).
Proof using Type.
  intros Hd Hf. unfold fold_devin_body. rewrite fold_devin_loop_spec. fold (drain next body). by rewrite Hd, Hf.
Qed.

Lemma fold_events_app u l1 l2 u1 : fold_events u l1 = inr u1 -> fold_events u (l1 ++ l2) = fold_events u1 l2.
Proof using Type.
  revert u. induction l1 as [|ev l1 IH]; intros u; cbn [app fold_events]; [by intros [= ->]|].
  destruct (negb _).
  - destruct (parse_devin_trailer_error _ _) as [[? ?]|]; [done|]. apply IH.
  - destruct (parse_devin_frame _); [done|]. apply IH.
Qed.

Lemma feed_drained cs body evs : concat cs = body -> drain next body = (evs, None, []) -> feed next cs [] = (evs, None, []).
Proof using Type.
  intros Hc Hd. pose proof (feed_concat next cs eq_refl) as H. rewrite Hc, Hd in H.
  destruct (feed next cs []) as [[l e] r]. by destruct H as (<- & <- & <-).
Qed.

End answer.

(** ** Theorem *)

(** C24. A Devin answer is the same whether the client streams it or not.  For a
    body of data frames and the trailer, however the transport cuts it, the
    stream ends well and the payloads sent to the client, put together by index,
    give the text, the reasoning, the tool calls (under the same client ids) and
    the finish reason of the folded answer, whose text is that of the frames in
    order.  The usage differs: the client gets, in the last payload, the counts
    of all frames merged (and less an injected system prefix), the folded answer
    those of the last frame that carries any; they are the same when at most
    one frame does and there is no prefix.  Without the trailer the stream fails
    and the fold answers all the same. *)
Theorem devin_answer_is_the_stream b64_encode b64_decode inflate from_slice cid created model fresh_id now prefix ws evs fs wend evend :
  (forall s, byte_list s -> b64_decode (b64_encode s) = Some s) -> (forall s, byte_list s -> byte_list (b64_encode s)) ->
  Forall sendable ws -> Forall2 (fun w ev => open_frame inflate w = inr ev) ws evs -> Forall2 data_event evs fs ->
  sendable wend -> open_frame inflate wend = inr evend -> is_end_stream evend = true ->
  parse_devin_trailer_error from_slice (fe_payload evend) = None ->
  let data := ws ≫= fun w => envelope w.1 w.2 in
  let run := devin_run b64_encode inflate from_slice cid created model devin_state_default in
  let whole body := fold_devin_body b64_encode inflate from_slice fresh_id now body model in
  exists out out' r,
    (forall cs, concat cs = data ++ envelope wend.1 wend.2 -> run cs [] = (out, None)) /\
    whole (data ++ envelope wend.1 wend.2) = inr r /\
    dr_content r = fs ≫= df_text /\
    (let a := foldl assemble_payload assembled_start (sent_payloads prefix None out) in
     as_text a = dr_content r /\ as_thinking a = default [] (dr_reasoning_content r) /\
     unary_call <$> (as_calls a).*2 = default [] (dr_tool_calls r) /\ as_finish a = Some (dr_finish_reason r) /\
     as_usage a = usage_value <$> merged_usage prefix None (omap devin_frame_usage fs) /\
     dr_usage r = last (omap devin_frame_usage fs) /\
     (prefix = None -> (length (omap devin_frame_usage fs) <= 1)%nat -> as_usage a = usage_value <$> dr_usage r)) /\
    (forall cs, concat cs = data -> run cs [] = (out', Some NoTrailer)) /\
    whole data = inr r.
Proof.
  intros Hr Hb Hs Ho Hd Hse Hoe Hend Htr data run whole.
  destruct (events_agree b64_encode b64_decode from_slice cid created model Hr Hb prefix None devin_state_default unary_start assembled_start evs fs)
    as (out & s' & u' & a' & Hrun & Hfold & HS & Hdel & (A1 & A2 & A3 & A4 & _) & Htxt & Husage); [done|done|done|].
  destruct (end_event b64_encode from_slice cid created model s' u' evend Hend Htr) as [Erun Efold].
  assert (drain (devin_next_frame inflate) data = (evs, None, [])) as Dd.
  { rewrite <- (app_nil_r data). by apply (drain_envelopes inflate ws evs []). }
  assert (drain (devin_next_frame inflate) (data ++ envelope wend.1 wend.2) = (evs ++ [evend], None, [])) as De.
  { replace (data ++ envelope wend.1 wend.2) with (((ws ++ [wend]) ≫= fun w => envelope w.1 w.2) ++ [])
      by (unfold data; rewrite bind_app, app_nil_r; cbn; by rewrite app_nil_r).
    apply drain_envelopes; [|apply Forall2_app; [done|by constructor]|done]. apply Forall_app. by split; [|constructor]. }
  exists (out ++ [devin_done_chunk s' cid created model]), out, (response_of model fresh_id now u').
  split; [|split; [|split; [|split; [|split]]]].
  - intros cs Hcs. unfold run. rewrite devin_run_spec, (feed_drained _ _ _ _ Hcs De), run_events_app, Hrun, Erun. done.
  - unfold whole. eapply fold_devin_body_frames; [exact De|]. by rewrite (fold_events_app _ _ _ _ _ _ Hfold).
  - cbn. by rewrite Htxt.
  - cbn zeta. rewrite sent_delivered, foldl_app, Hdel. cbn [foldl]. rewrite done_delivered by done.
    cbn -[unary_call merged_usage usage_value]. rewrite A1, A2, A3, Husage.
    destruct HS as (_ & _ & _ & -> & ->). split_and!; [done| | |done|done| |].
    + unfold is_empty_str. by case_bool_decide.
    + by destruct (unary_call <$> (uf_tool_calls u').*2).
    + unfold last_usage. by destruct (last _).
    + intros -> Hl. unfold last_usage. by destruct (omap devin_frame_usage fs) as [|x [|y l]]; [done|done|cbn in Hl; lia].
  - intros cs Hcs. unfold run. by rewrite devin_run_spec, (feed_drained _ _ _ _ Hcs Dd), Hrun.
  - unfold whole. eapply fold_devin_body_frames; [exact Dd|done].
Qed.

Lemma letters_bytes s : byte_list s -> byte_list (letters_encode s).
Proof.
  induction 1 as [|b s Hb _ IH]; [constructor|]. unfold letters_encode in *. rewrite bind_cons. apply Forall_app. split; [|done].
  pose proof (Z.mod_pos_bound b 16 ltac:(lia)). pose proof (Z.div_mod b 16 ltac:(lia)). repeat constructor; lia.
Qed.

(** A call opened under an id with a space and continued without one, text on
    both sides, cut in the middle of a frame. *)
Lemma devin_answer_is_the_stream_witness :
  let p1 := append_string 3 (bytes_of "he") ++ append_message 6 (append_string 1 (bytes_of "a b") ++ append_string 2 (bytes_of "ls")) in
  let p2 := append_message 6 (append_string 3 (bytes_of "{}")) ++ append_string 3 (bytes_of "llo") in
  exists out r,
    devin_run letters_encode (fun _ _ => InflateError) (fun _ => None) [] 0 [] devin_state_default
      [take 9 (envelope 0 p1); drop 9 (envelope 0 p1) ++ envelope 0 p2 ++ envelope 2 (bytes_of "{}")] [] = (out, None) /\
    fold_devin_body letters_encode (fun _ _ => InflateError) (fun _ => None) [] 0
      (envelope 0 p1 ++ envelope 0 p2 ++ envelope 2 (bytes_of "{}")) [] = inr r /\
    dr_content r = bytes_of "hello" /\
    unary_call <$> (as_calls (foldl assemble_payload assembled_start (sent_payloads None None out))).*2 = default [] (dr_tool_calls r) /\
    dr_tool_calls r = Some [unary_call (bytes_of "cpa_tid_v1_gbcagc", bytes_of "ls", bytes_of "{}")].
Proof.
  intros p1 p2. set (frame p := match parse_devin_frame p with inr f => f | inl _ => devin_frame_default end).
  edestruct (devin_answer_is_the_stream letters_encode letters_decode (fun _ _ => InflateError) (fun _ => None) [] 0 [] [] 0 None
    [(0, p1); (0, p2)] [mkFrameEvent 0 p1; mkFrameEvent 0 p2] [frame p1; frame p2] (2, bytes_of "{}") (mkFrameEvent 2 (bytes_of "{}")))
    as (out & out' & r & H1 & H2 & H3 & (_ & _ & H4 & _) & _).
  - exact letters_round_trip.
  - exact letters_bytes.
  - repeat constructor; vm_compute; done.
  - repeat constructor; vm_compute; done.
  - repeat constructor; vm_compute; reflexivity.
  - repeat constructor; vm_compute; done.
  - vm_compute. done.
  - vm_compute. done.
  - vm_compute. done.
  - exists out, r. split; [apply H1; vm_compute; done|]. split; [exact H2|]. split; [rewrite H3; vm_compute; done|].
    split; [exact H4|]. vm_compute in H2. injection H2 as <-. vm_compute. done.
Defined.

(** Two frames with counts: the stream sends the larger ones, the fold the last. *)
Lemma usage_depends_on_streaming :
  let us := [openai_usage_of 10 4 0; openai_usage_of 0 6 0] in
  merged_usage None None us = Some (mkUsage 10 6 14 (us_details (openai_usage_of 10 4 0)))
  /\ last us = Some (openai_usage_of 0 6 0).
Proof. by vm_compute. Qed.
