(* ===== verification/EventStream.v ===== *)
(** * Kiro: AWS event-stream frames

    [openproxy-adapters/src/adapters/kiro/eventstream.rs]: the deframer of
    [application/vnd.amazon.eventstream] bodies, with its two checksums, and the
    headers of a message.

    [crc32fast::hash] is a parameter; it gives a [u32]. *)

From Stdlib Require Import String.
From S2P Require Import Prelude Text Bytes Framing.

Inductive KiroEventType : Type :=
| AssistantResponse | ToolUse | MessageStop | ContextUsage | Metering | Other (name : str).

Record KiroFrameEvent := mkKiroEvent { ke_event_type : KiroEventType; ke_payload : str }.

(** The errors of [next_frame], by what they report. *)
Inductive KiroError : Type :=
| PreludeCrcMismatch (expected got : Z)
| FrameTooSmall
| MessageCrcMismatch (expected got : Z)
| InvalidHeaderLength.

(** ** Headers *)

Definition STRING_VALUE : Z := 7.

(** [parse_eventstream_headers] on the bytes from [idx] on.  A malformed name or
    a value of another type ends the loop; a value that is not text is passed
    over. *)
Fixpoint headers_loop (fuel : nat) (bytes : str) (map : gmap str str) : gmap str str :=
  match fuel with
  | O => map
  | S f =>
      match bytes with
      | [] => map
      | b :: rest =>
          let name_len := Z.to_nat b in
          if (length rest <? name_len)%nat then map
          else
            let name := take name_len rest in
            if negb (utf8_valid name) then map
            else match drop name_len rest with
                 | [] => map
                 | val_type :: rest =>
                     if val_type =? STRING_VALUE then
                       if (length rest <? 2)%nat then map
                       else
                         let val_len := Z.to_nat (be_of (take 2 rest)) in
                         let rest := drop 2 rest in
                         if (length rest <? val_len)%nat then map
                         else
                           let val := take val_len rest in
                           headers_loop f (drop val_len rest) (if utf8_valid val then <[name := val]> map else map)
                     else map
                 end
      end
  end.

Definition parse_eventstream_headers (bytes : str) : gmap str str := headers_loop (length bytes) bytes ∅.

Definition EVENT_TYPE : str := bytes_of ":event-type".

Definition event_type_of (name : str) : KiroEventType :=
  if bool_decide (name = bytes_of "assistantResponseEvent") then AssistantResponse
  else if bool_decide (name = bytes_of "toolUseEvent") then ToolUse
  else if bool_decide (name = bytes_of "messageStopEvent") then MessageStop
  else if bool_decide (name = bytes_of "contextUsageEvent") then ContextUsage
  else if bool_decide (name = bytes_of "meteringEvent") then Metering
  else Other name.

(** ** Frames *)

Section kiro.
Variable crc32 : str -> Z.

(** What [next_frame] makes of a whole frame, [total_len] bytes long. *)
Definition open_kiro_frame (header_len : Z) (frame : str) : KiroError + KiroFrameEvent :=
  let total_len := length frame in
  if (total_len <? 4)%nat then inl FrameTooSmall
  else
    let msg_len := (total_len - 4)%nat in
    let expected := be_of (take 4 (drop msg_len frame)) in
    let got := crc32 (take msg_len frame) in
    if negb (expected =? got) then inl (MessageCrcMismatch expected got)
    else if Z.of_nat msg_len <? 12 + header_len then inl InvalidHeaderLength
    else
      let headers_bytes := take (Z.to_nat header_len) (drop 12 frame) in
      let payload := drop (12 + Z.to_nat header_len) (take msg_len frame) in
      let headers := parse_eventstream_headers headers_bytes in
      inr (mkKiroEvent (event_type_of (default [] (headers !! EVENT_TYPE))) payload).

Definition kiro_next_frame (buf : str) : (KiroError + option KiroFrameEvent) * str :=
  if (length buf <? 12)%nat then (inr None, buf)
  else
    let total_len := be_of (take 4 buf) in
    let header_len := be_of (take 4 (drop 4 buf)) in
    let prelude_crc := be_of (take 4 (drop 8 buf)) in
    let calc := crc32 (take 8 buf) in
    if negb (prelude_crc =? calc) then (inl (PreludeCrcMismatch prelude_crc calc), buf)
    else if Z.of_nat (length buf) <? total_len then (inr None, buf)
    else
      let frame := take (Z.to_nat total_len) buf in
      let buf := drop (Z.to_nat total_len) buf in
      match open_kiro_frame header_len frame with
      | inl e => (inl e, buf)
      | inr ev => (inr (Some ev), buf)
      end.

(** ** The deframer keeps its contract *)

Lemma prelude_app (buf y : str) : (12 <= length buf)%nat ->
  take 4 (buf ++ y) = take 4 buf /\ take 4 (drop 4 (buf ++ y)) = take 4 (drop 4 buf) /\
  take 4 (drop 8 (buf ++ y)) = take 4 (drop 8 buf) /\ take 8 (buf ++ y) = take 8 buf.
Proof using Type.
  intros H. split; [by rewrite take_app_le by lia|]. split; [|split].
  - rewrite drop_app_le by lia. by rewrite take_app_le by (rewrite length_drop; lia).
  - rewrite drop_app_le by lia. by rewrite take_app_le by (rewrite length_drop; lia).
  - by rewrite take_app_le by lia.
Qed.

(** A frame that is handed on has both checksums and is at least 16 bytes. *)
Lemma open_kiro_frame_long hl frame ev : open_kiro_frame hl frame = inr ev -> 0 <= hl ->
  (16 <= length frame)%nat /\ be_of (take 4 (drop (length frame - 4) frame)) = crc32 (take (length frame - 4) frame).
Proof using Type.
  unfold open_kiro_frame. cbv zeta. destruct (length frame <? 4)%nat; [done|].
  destruct (be_of _ =? crc32 _) eqn:E; [|done]. cbn [negb]. destruct (_ <? 12 + hl) eqn:El; [done|]. apply Z.ltb_ge in El.
  intros _ Hhl. apply Z.eqb_eq in E. split; [lia|done].
Qed.

#[global] Instance kiro_deframer : Deframer KiroFrameEvent KiroError kiro_next_frame.
Proof using Type.
  split; unfold kiro_next_frame; cbv zeta.
  - intros b x r y. destruct (length b <? 12)%nat eqn:E0; [done|]. apply Nat.ltb_ge in E0.
    destruct (prelude_app b y E0) as (-> & -> & -> & ->). rewrite length_app, (proj2 (Nat.ltb_ge _ _)) by lia.
    destruct (negb _); [done|]. set (n := be_of (take 4 b)). destruct (Z.of_nat (length b) <? n) eqn:E1; [done|]. apply Z.ltb_ge in E1.
    rewrite (proj2 (Z.ltb_ge _ _)) by lia. rewrite take_app_le, drop_app_le by lia.
    destruct (open_kiro_frame _ _); by intros [= <- <-].
  - intros b e y. destruct (length b <? 12)%nat eqn:E0; [done|]. apply Nat.ltb_ge in E0.
    destruct (prelude_app b y E0) as (-> & -> & -> & ->). rewrite length_app, (proj2 (Nat.ltb_ge _ _)) by lia.
    destruct (negb _); [done|]. set (n := be_of (take 4 b)). destruct (Z.of_nat (length b) <? n) eqn:E1; [done|]. apply Z.ltb_ge in E1.
    rewrite (proj2 (Z.ltb_ge _ _)) by lia. rewrite take_app_le by lia. by destruct (open_kiro_frame _ _).
  - intros b r. destruct (length b <? 12)%nat; [by intros [= <-]|]. destruct (negb _); [done|].
    destruct (_ <? _); [by intros [= <-]|]. by destruct (open_kiro_frame _ _).
  - intros b x r. destruct (length b <? 12)%nat eqn:E0; [done|]. apply Nat.ltb_ge in E0. destruct (negb _); [done|].
    destruct (_ <? _); [done|]. destruct (open_kiro_frame _ _) as [|ev] eqn:E; [done|]. intros [= <- <-].
    unfold open_kiro_frame in E. cbv zeta in E. destruct (length (take _ b) <? 4)%nat eqn:E4; [done|]. apply Nat.ltb_ge in E4.
    rewrite length_take in E4. rewrite length_drop. lia.
Qed.

(** ** Messages as the upstream sends them *)

Definition encode_header (h : str * str) : str :=
  [Z.of_nat (length h.1)] ++ h.1 ++ [STRING_VALUE] ++ be_bytes 2 (Z.of_nat (length h.2)) ++ h.2.

Definition header_ok (h : str * str) : Prop :=
  utf8_valid h.1 = true /\ utf8_valid h.2 = true /\ Z.of_nat (length h.1) < 256 /\ Z.of_nat (length h.2) < 65536.

Definition encode_headers (hs : list (str * str)) : str := hs ≫= encode_header.

(** A message: its headers and its payload. *)
Definition encode_message (m : list (str * str) * str) : str :=
  let headers := encode_headers m.1 in
  let total := Z.of_nat (12 + length headers + length m.2 + 4) in
  let prelude := be_bytes 4 total ++ be_bytes 4 (Z.of_nat (length headers)) in
  let body := prelude ++ be_bytes 4 (crc32 prelude) ++ headers ++ m.2 in
  body ++ be_bytes 4 (crc32 body).

Definition message_ok (m : list (str * str) * str) : Prop :=
  Forall header_ok m.1 /\ Z.of_nat (length (encode_headers m.1) + length m.2 + 16) <= u32_max.

(** The last header of a name wins, as in the map. *)
Definition header_map (hs : list (str * str)) : gmap str str := foldl (fun m h => <[h.1 := h.2]> m) ∅ hs.

Definition message_event (m : list (str * str) * str) : KiroFrameEvent :=
  mkKiroEvent (event_type_of (default [] (header_map m.1 !! EVENT_TYPE))) m.2.

Lemma headers_loop_encode n hs acc : Forall header_ok hs -> (length (encode_headers hs) <= n)%nat ->
  headers_loop n (encode_headers hs) acc = foldl (fun m h => <[h.1 := h.2]> m) acc hs.
Proof using Type.
  intros H. revert n acc. induction H as [|[k v] hs (U1 & U2 & L1 & L2) _ IH]; intros n acc Hn; [by destruct n|].
  cbn [fst snd] in *. unfold encode_headers in *. rewrite bind_cons in *. rewrite length_app in Hn. unfold encode_header at 1 in Hn. unfold encode_header at 1. cbn [fst snd] in *.
  rewrite !length_app, length_be_bytes in Hn. cbn [length] in Hn. destruct n as [|n]; [lia|].
  rewrite <- !app_assoc. cbn [app headers_loop]. cbv zeta. rewrite Nat2Z.id.
  rewrite (proj2 (Nat.ltb_ge _ _)) by (rewrite length_app; lia). rewrite take_app_length, U1. cbn [negb].
  rewrite drop_app_length, Z.eqb_refl.
  pose proof (length_be_bytes 2 (Z.of_nat (length v))) as H2.
  rewrite (proj2 (Nat.ltb_ge _ _)) by (rewrite length_app, H2; lia). rewrite take_app_length', drop_app_length' by done.
  rewrite be_of_be_bytes by (simpl; lia). rewrite Nat2Z.id. rewrite (proj2 (Nat.ltb_ge _ _)) by (rewrite length_app; lia).
  rewrite take_app_length, drop_app_length, U2. cbn [foldl fst snd]. apply IH. lia.
Qed.

Lemma parse_encode_headers hs : Forall header_ok hs -> parse_eventstream_headers (encode_headers hs) = header_map hs.
Proof using Type. intros H. by apply headers_loop_encode. Qed.

Hypothesis crc32_u32 : forall s, 0 <= crc32 s <= u32_max.

Lemma length_message m : length (encode_message m) = (12 + length (encode_headers m.1) + length m.2 + 4)%nat.
Proof using Type. unfold encode_message. cbv zeta. rewrite !length_app, !length_be_bytes. lia. Qed.

Lemma be_of_crc s : be_of (be_bytes 4 (crc32 s)) = crc32 s.
Proof using crc32_u32. apply be_of_be_bytes. pose proof (crc32_u32 s) as H. unfold u32_max in H. simpl. lia. Qed.

Lemma open_message m : message_ok m ->
  open_kiro_frame (Z.of_nat (length (encode_headers m.1))) (encode_message m) = inr (message_event m).
Proof using crc32_u32.
  intros [Hh Hl]. unfold open_kiro_frame. rewrite length_message. cbv zeta.
  set (hl := length (encode_headers m.1)) in *. rewrite (proj2 (Nat.ltb_ge _ _)) by lia.
  replace (12 + hl + length m.2 + 4 - 4)%nat with (12 + hl + length m.2)%nat by lia.
  unfold encode_message. cbv zeta. fold hl. set (prelude := be_bytes 4 _ ++ be_bytes 4 (Z.of_nat hl)).
  set (body := prelude ++ be_bytes 4 (crc32 prelude) ++ encode_headers m.1 ++ m.2).
  assert (length prelude = 8)%nat as Hp by (unfold prelude; by rewrite length_app, !length_be_bytes).
  assert (length body = 12 + hl + length m.2)%nat as Hb by (unfold body; rewrite !length_app, length_be_bytes, Hp; lia).
  rewrite <- Hb. rewrite drop_app_length, take_app_length. rewrite (take_ge (be_bytes 4 _)) by (by rewrite length_be_bytes).
  rewrite be_of_crc, Z.eqb_refl. cbn [negb]. rewrite (proj2 (Z.ltb_ge _ _)) by lia. rewrite Nat2Z.id.
  assert (drop 12 (body ++ be_bytes 4 (crc32 body)) = encode_headers m.1 ++ m.2 ++ be_bytes 4 (crc32 body)) as ->.
  { unfold body at 1. rewrite <- !app_assoc, (app_assoc prelude). apply drop_app_length'. by rewrite length_app, length_be_bytes, Hp. }
  rewrite take_app_length', parse_encode_headers by done.
  assert (drop (12 + hl) body = m.2) as ->.
  { unfold body. rewrite (app_assoc prelude), app_assoc. apply drop_app_length'. rewrite !length_app, length_be_bytes, Hp. done. }
  done.
Qed.

Lemma next_frame_message m y : message_ok m -> kiro_next_frame (encode_message m ++ y) = (inr (Some (message_event m)), y).
Proof using crc32_u32.
  intros Hm. pose proof (open_message m Hm) as Ho. pose proof (length_message m) as Hlen. destruct Hm as [Hh Hl].
  set (hl := length (encode_headers m.1)) in *. unfold u32_max in Hl.
  assert (exists rest, encode_message m = be_bytes 4 (Z.of_nat (12 + hl + length m.2 + 4)) ++ be_bytes 4 (Z.of_nat hl)
    ++ be_bytes 4 (crc32 (be_bytes 4 (Z.of_nat (12 + hl + length m.2 + 4)) ++ be_bytes 4 (Z.of_nat hl))) ++ rest) as [rest Hr].
  { eexists. unfold encode_message. cbv zeta. rewrite <- !app_assoc. reflexivity. }
  set (total := Z.of_nat (12 + hl + length m.2 + 4)) in *. set (prelude := be_bytes 4 total ++ be_bytes 4 (Z.of_nat hl)) in *.
  pose proof (length_be_bytes 4 total) as L1. pose proof (length_be_bytes 4 (Z.of_nat hl)) as L2.
  pose proof (length_be_bytes 4 (crc32 prelude)) as L3.
  assert (12 <= length (encode_message m))%nat as H12 by (rewrite Hlen; lia).
  destruct (prelude_app (encode_message m) y H12) as (P1 & P2 & P3 & P4).
  assert (take 4 (encode_message m) = be_bytes 4 total) as T1 by (rewrite Hr; by apply take_app_length').
  assert (take 4 (drop 4 (encode_message m)) = be_bytes 4 (Z.of_nat hl)) as T2.
  { rewrite Hr, drop_app_length' by done. by apply take_app_length'. }
  assert (take 8 (encode_message m) = prelude) as T4.
  { rewrite Hr, app_assoc. apply take_app_length'. unfold prelude. by rewrite length_app, L1, L2. }
  assert (take 4 (drop 8 (encode_message m)) = be_bytes 4 (crc32 prelude)) as T3.
  { rewrite Hr, app_assoc, drop_app_length' by (rewrite length_app, L1, L2; done). by apply take_app_length'. }
  unfold kiro_next_frame. cbv zeta. rewrite length_app, (proj2 (Nat.ltb_ge _ _)) by lia.
  rewrite P1, P2, P3, P4, T1, T2, T3, T4, be_of_crc, Z.eqb_refl. cbn [negb].
  rewrite !be_of_be_bytes by (unfold total; simpl; lia). rewrite (proj2 (Z.ltb_ge _ _)) by (unfold total; lia).
  replace (Z.to_nat total) with (length (encode_message m)) by (rewrite Hlen; unfold total; lia).
  by rewrite take_app_length, drop_app_length, Ho.
Qed.

(** The start of a message, cut before its end, is held back. *)
Lemma next_frame_message_cut m k : message_ok m -> (k < length (encode_message m))%nat ->
  kiro_next_frame (take k (encode_message m)) = (inr None, take k (encode_message m)).
Proof using crc32_u32.
  intros Hm Hk. pose proof (next_frame_message m [] Hm) as Hn. rewrite app_nil_r in Hn.
  destruct (kiro_next_frame (take k (encode_message m))) as [o r] eqn:E.
  rewrite <- (take_drop k (encode_message m)) in Hn.
  destruct o as [e|[x|]].
  - pose proof (next_frame_error (take k (encode_message m)) e (drop k (encode_message m)) ltac:(by rewrite E)) as H.
    rewrite Hn in H. done.
  - pose proof (next_frame_app _ _ _ (drop k (encode_message m)) E) as H. rewrite Hn in H. injection H as _ H.
    symmetry in H. apply app_eq_nil in H as [_ H]. 
    assert (length (drop k (encode_message m)) = 0)%nat as H0 by (by rewrite H). rewrite length_drop in H0. lia.
  - by rewrite (next_frame_pending _ _ E).
Qed.

End kiro.

(** ** Theorem *)

(** However the transport cuts the body, the event-stream deframer hands on
    exactly the messages that were sent, with their payload and the event type
    their headers name, and holds back the start of an unfinished one; on any
    bytes, frames and errors do not depend on the cuts; and it never hands on a
    frame whose checksum does not match. *)
Lemma event_stream_frames_exact crc32 ms m k cs :
  (forall s, 0 <= crc32 s <= u32_max) ->
  Forall message_ok ms -> message_ok m -> (k < length (encode_message crc32 m))%nat ->
  concat cs = (ms ≫= encode_message crc32) ++ take k (encode_message crc32 m) ->
  feed (kiro_next_frame crc32) cs [] = (message_event <$> ms, None, take k (encode_message crc32 m)) /\
  (forall cs' cs'', concat cs' = concat cs'' ->
     fst (feed (kiro_next_frame crc32) cs' []) = fst (feed (kiro_next_frame crc32) cs'' [])) /\
  (forall buf ev r, byte_list buf -> kiro_next_frame crc32 buf = (inr (Some ev), r) ->
     exists frame, buf = frame ++ r /\ (16 <= length frame)%nat /\
       be_of (take 4 (drop 8 frame)) = crc32 (take 8 frame) /\
       be_of (take 4 (drop (length frame - 4) frame)) = crc32 (take (length frame - 4) frame)).
Proof.
  intros Hc Hms Hm Hk Hcs. split; [|split].
  - pose proof (feed_concat (kiro_next_frame crc32) cs eq_refl) as H. rewrite Hcs in H.
    rewrite (drain_encoded (kiro_next_frame crc32) (encode_message crc32) message_event) in H.
    2:{ intros x y Hx. rewrite Forall_forall in Hms. apply next_frame_message; [done|by apply Hms]. }
    rewrite drain_unfold, next_frame_message_cut, app_nil_r in H by (done || apply _).
    destruct (feed _ cs []) as [[l e] r]. by destruct H as (<- & <- & ->).
  - intros cs1 cs2 E. pose proof (feed_concat (kiro_next_frame crc32) cs1 eq_refl) as H1.
    pose proof (feed_concat (kiro_next_frame crc32) cs2 eq_refl) as H2. rewrite E in H1.
    destruct (drain _ (concat cs2)) as [[l e] r]. destruct (feed _ cs1 []) as [[l1 e1] r1].
    destruct (feed _ cs2 []) as [[l2 e2] r2]. by destruct H1 as (<- & <- & _), H2 as (<- & <- & _).
  - intros buf ev r Hb. unfold kiro_next_frame. cbv zeta. destruct (length buf <? 12)%nat eqn:E0; [done|]. apply Nat.ltb_ge in E0.
    destruct (be_of (take 4 (drop 8 buf)) =? crc32 (take 8 buf)) eqn:Ec; cbn [negb]; [|done]. apply Z.eqb_eq in Ec.
    destruct (_ <? _) eqn:El; [done|]. apply Z.ltb_ge in El. set (n := Z.to_nat (be_of (take 4 buf))) in *.
    destruct (open_kiro_frame crc32 _ (take n buf)) as [|ev'] eqn:Eo; [done|]. intros [= <- <-].
    apply open_kiro_frame_long in Eo as [H16 Hcrc].
    2:{ apply be_of_nonneg, Forall_take, Forall_drop, Hb. }
    exists (take n buf). rewrite length_take in H16. split; [by rewrite take_drop|]. rewrite length_take. split; [lia|]. split.
    + rewrite take_take. rewrite <- (take_drop n buf) in Ec. rewrite drop_app_le, take_app_le in Ec by (rewrite ?length_drop, length_take; lia).
      rewrite take_app_le in Ec by (rewrite length_take; lia). rewrite take_take in Ec. done.
    + by rewrite length_take in Hcrc.
Qed.

(** A checksum that sums bytes; two messages and the start of a third. *)
Lemma event_stream_frames_exact_witness :
  let crc s := foldr Z.add 0 s mod 2 ^ 32 in
  let m1 := ([(EVENT_TYPE, bytes_of "toolUseEvent"); (bytes_of "x", bytes_of "y")], [1; 2]) in
  let m2 := ([], []) in
  feed (kiro_next_frame crc) [take 30 (encode_message crc m1); drop 30 (encode_message crc m1) ++ encode_message crc m2; [0; 0; 0]] []
  = ([mkKiroEvent ToolUse [1; 2]; mkKiroEvent (Other []) []], None, [0; 0; 0]).
Proof.
  intros crc m1 m2. eapply (event_stream_frames_exact crc [m1; m2] m2 3).
  - intros s. unfold crc, u32_max. pose proof (Z.mod_pos_bound (foldr Z.add 0 s) (2 ^ 32) ltac:(lia)). lia.
  - repeat constructor; vm_compute; (done || lia).
  - repeat constructor; vm_compute; done.
  - vm_compute. lia.
  - vm_compute. done.
Defined.
