(* ===== verification/KiroStream.v ===== *)
(** * Kiro: a stream of events, and the same events folded into one answer

    [openproxy-pipeline/src/sse/kiro.rs] with the chunk constructors of
    [sse/mod.rs] it uses, [streaming_state/kiro.rs], the Kiro branch of
    [streaming/pipeline.rs], and
    [openproxy-adapters/src/adapters/kiro/fold.rs]. *)

From Stdlib Require Import String Ascii.
From stdpp Require Import sorting.
From S2P Require Import Prelude Text Bytes Framing Accumulator StreamFold EventStream DevinWire DevinStream DevinAnswer.

(** ** Chunks *)

(** [make_text_delta] of [sse/mod.rs]. *)
Definition make_text_delta (cid : str) (created : Z) (model text : str) (is_reasoning : bool) : UpstreamSseChunk :=
  let delta := if is_reasoning then JObj [("content", JStr ""); ("reasoning_content", jstr text)]%string
               else JObj [("content", jstr text)]%string in
  mkSseChunk None (devin_chunk_payload cid created model delta JNull) false None None
    (if is_reasoning then Some text else None) [] (negb (is_empty_str text)).

Definition make_tool_call_start (cid : str) (created : Z) (model : str) (index : Z) (id name : str) : UpstreamSseChunk :=
  let tool_call := JObj [("function", JObj [("arguments", JStr ""); ("name", jstr name)]); ("id", jstr id);
                         ("index", JInt index); ("type", JStr "function")]%string in
  mkSseChunk None (devin_chunk_payload cid created model (JObj [("tool_calls", JArr [tool_call])]%string) JNull) false None None None
    [tool_call] false.

Definition make_tool_call_delta (cid : str) (created : Z) (model : str) (index : Z) (arguments : str) : UpstreamSseChunk :=
  let tool_call := JObj [("function", JObj [("arguments", jstr arguments)]); ("index", JInt index)]%string in
  mkSseChunk None (devin_chunk_payload cid created model (JObj [("tool_calls", JArr [tool_call])]%string) JNull) false None None None
    [tool_call] (negb (is_empty_str arguments)).

Definition kiro_done_chunk (cid : str) (created : Z) (model : str) (finish_reason : string) : UpstreamSseChunk :=
  mkSseChunk None (devin_chunk_payload cid created model (JObj []) (JStr finish_reason)) true None
    (Some (bytes_of finish_reason)) None [] false.

(** ** Streaming *)

Record KiroStreamState := mkKiroState { ks_tool_index_by_id : gmap str Z; ks_next_tool_index : Z; ks_saw_tool_calls : bool }.

Definition kiro_state_default : KiroStreamState := mkKiroState ∅ 0 false.

Definition get_or_create_tool_index (st : KiroStreamState) (id : str) : Z * bool * KiroStreamState :=
  match ks_tool_index_by_id st !! id with
  | Some idx => (idx, false, st)
  | None =>
      let idx := ks_next_tool_index st in
      (idx, true, mkKiroState (<[id := idx]> (ks_tool_index_by_id st)) (wrap_add u32_max idx 1) (ks_saw_tool_calls st))
  end.

Section kiro_stream.
Variable from_slice : str -> option Json.
Variable crc32 : str -> Z.
Variables (cid : str) (created : Z) (model : str).

(** [json.get(k).and_then(Value::as_str)]. *)
Definition text_field (k : string) (j : Json) : option str :=
  match json_get k j with Some v => bytes_of <$> as_str v | None => None end.

Definition finish_reason_of (saw : bool) : string := if saw then "tool_calls" else "stop".

Definition kiro_frame_to_chunk (st : KiroStreamState) (frame : KiroFrameEvent) : option UpstreamSseChunk * KiroStreamState :=
  match ke_event_type frame with
  | AssistantResponse =>
      match from_slice (ke_payload frame) with
      | None => (None, st)
      | Some json =>
          match text_field "content" json with
          | None => (None, st)
          | Some text => if is_empty_str text then (None, st) else (Some (make_text_delta cid created model text false), st)
          end
      end
  | ToolUse =>
      match from_slice (ke_payload frame) with
      | None => (None, st)
      | Some json =>
          let tool_use_id := default [] (text_field "toolUseId" json) in
          let name := default [] (text_field "name" json) in
          let input := default [] (text_field "input" json) in
          let st := mkKiroState (ks_tool_index_by_id st) (ks_next_tool_index st) true in
          let '(idx, is_new, st) := get_or_create_tool_index st tool_use_id in
          if is_new && negb (is_empty_str name) then (Some (make_tool_call_start cid created model idx tool_use_id name), st)
          else if negb (is_empty_str input) then (Some (make_tool_call_delta cid created model idx input), st)
          else (None, st)
      end
  | MessageStop => (Some (kiro_done_chunk cid created model (finish_reason_of (ks_saw_tool_calls st))), st)
  | _ => (None, st)
  end.

(** The pipeline hands an event on as [name \0 payload], and the processor reads
    it back. *)
Definition event_name (t : KiroEventType) : str :=
  bytes_of match t with
           | AssistantResponse => "assistantResponseEvent"
           | ToolUse => "toolUseEvent"
           | MessageStop => "messageStopEvent"
           | ContextUsage => "contextUsageEvent"
           | _ => "other"
           end.

Definition event_bytes (ev : KiroFrameEvent) : str := event_name (ke_event_type ev) ++ [0] ++ ke_payload ev.

Definition process_kiro_frame (st : KiroStreamState) (frame_bytes : str) : option UpstreamSseChunk * KiroStreamState :=
  match find_byte 0 frame_bytes with
  | None => (None, st)
  | Some pos =>
      let name := if utf8_valid (take pos frame_bytes) then take pos frame_bytes else [] in
      let event_type :=
        if bool_decide (name = bytes_of "assistantResponseEvent") then AssistantResponse
        else if bool_decide (name = bytes_of "toolUseEvent") then ToolUse
        else if bool_decide (name = bytes_of "messageStopEvent") then MessageStop
        else if bool_decide (name = bytes_of "contextUsageEvent") then ContextUsage
        else Other name in
      kiro_frame_to_chunk st (mkKiroEvent event_type (drop (pos + 1) frame_bytes))
  end.

(** The inner loop of [run_pipeline]. *)
Fixpoint kiro_pop (fuel : nat) (st : KiroStreamState) (buf : str) : list UpstreamSseChunk * KiroStreamState * (KiroError + str) :=
  match fuel with
  | O => ([], st, inr buf)
  | S n =>
      match kiro_next_frame crc32 buf with
      | (inl e, _) => ([], st, inl e)
      | (inr None, b) => ([], st, inr b)
      | (inr (Some ev), b) =>
          let '(o, st) := process_kiro_frame st (event_bytes ev) in
          let '(out, st, r) := kiro_pop n st b in (match o with Some c => c :: out | None => out end, st, r)
      end
  end.

(** [run_pipeline] for Kiro: nothing is checked when the body ends. *)
Fixpoint kiro_run (st : KiroStreamState) (chunks : list str) (buf : str) : list UpstreamSseChunk * option KiroError :=
  match chunks with
  | [] => ([], None)
  | c :: cs =>
      match kiro_pop (S (length (buf ++ c))) st (buf ++ c) with
      | (out, _, inl e) => (out, Some e)
      | (out, st, inr buf) => let '(out', e) := kiro_run st cs buf in (out ++ out', e)
      end
  end.

(** ** The fold *)

(** The content and the calls by id; [tool_calls_map] is read back in the order
    of its keys. *)
Record KiroFold := mkKiroFold { kf_content : str; kf_calls : gmap str (str * str) }.

Definition fold_kiro_event (u : KiroFold) (ev : KiroFrameEvent) : KiroFold :=
  match ke_event_type ev with
  | AssistantResponse =>
      match from_slice (ke_payload ev) with
      | None => u
      | Some json => match text_field "content" json with Some text => mkKiroFold (kf_content u ++ text) (kf_calls u) | None => u end
      end
  | ToolUse =>
      match from_slice (ke_payload ev) with
      | None => u
      | Some json =>
          let tool_use_id := default [] (text_field "toolUseId" json) in
          let name := default [] (text_field "name" json) in
          if is_empty_str tool_use_id then u
          else
            let '(n, a) := default (name, []) (kf_calls u !! tool_use_id) in
            let n := if negb (is_empty_str name) && is_empty_str n then name else n in
            let a := match text_field "input" json with Some input => a ++ input | None => a end in
            mkKiroFold (kf_content u) (<[tool_use_id := (n, a)]> (kf_calls u))
      end
  | _ => u
  end.

(** The order of [String]: by bytes. *)
Fixpoint str_leb (a b : str) : bool :=
  match a, b with
  | [], _ => true
  | _ :: _, [] => false
  | x :: a', y :: b' => (x <? y) || ((x =? y) && str_leb a' b')
  end.

Definition kiro_calls (m : gmap str (str * str)) : list (str * str * str) :=
  (fun kv => (kv.1, kv.2.1, kv.2.2)) <$> merge_sort (fun a b => Is_true (str_leb a.1 b.1)) (map_to_list m).

Fixpoint fold_kiro_loop (fuel : nat) (u : KiroFold) (buf : str) : KiroError + KiroFold :=
  match fuel with
  | O => inr u
  | S n =>
      match kiro_next_frame crc32 buf with
      | (inl e, _) => inl e
      | (inr None, _) => inr u
      | (inr (Some ev), b) => fold_kiro_loop n (fold_kiro_event u ev) b
      end
  end.

(** The fields of the [OpenAIResponse] the events decide. *)
Record KiroResponse := mkKiroResponse { kr_content : str; kr_tool_calls : option (list Json); kr_finish_reason : string }.

Definition kiro_response (u : KiroFold) : KiroResponse :=
  let calls := unary_call <$> kiro_calls (kf_calls u) in
  mkKiroResponse (kf_content u) (match calls with [] => None | _ => Some calls end)
    (finish_reason_of (negb (bool_decide (kf_calls u = ∅)))).

Definition fold_kiro_body (body : str) : KiroError + KiroResponse :=
  match fold_kiro_loop (S (length body)) (mkKiroFold [] ∅) body with
  | inl e => inl e
  | inr u => inr (kiro_response u)
  end.

(** ** Both loops are functions of the events *)

(** An event survives being handed on by name, except its type when that is not
    used. *)
Lemma process_event st ev : process_kiro_frame st (event_bytes ev) = kiro_frame_to_chunk st ev.
Proof using Type.
  destruct ev as [t p]. unfold process_kiro_frame, event_bytes. cbn [ke_event_type ke_payload].
  assert (forall n : str, 0 ∉ n -> find_byte 0 (n ++ 0 :: p) = Some (length n)) as Hf.
  { induction n as [|b n IH]; intros H; [done|]. apply not_elem_of_cons in H as [Hb H]. cbn [app find_byte].
    rewrite (proj2 (Z.eqb_neq b 0)) by congruence. by rewrite IH. }
  change ([0] ++ p) with (0 :: p). rewrite Hf by (destruct t; by apply (bool_decide_unpack _)).
  rewrite take_app_length. rewrite (app_assoc _ [0] p : _ ++ 0 :: p = _), drop_app_length' by (by rewrite length_app).
  destruct t; reflexivity.
Qed.

Fixpoint kiro_events (st : KiroStreamState) (evs : list KiroFrameEvent) : list UpstreamSseChunk * KiroStreamState :=
  match evs with
  | [] => ([], st)
  | ev :: evs' =>
      let '(o, st) := kiro_frame_to_chunk st ev in
      let '(out, st) := kiro_events st evs' in (match o with Some c => c :: out | None => out end, st)
  end.

Lemma kiro_events_app st l1 l2 :
  kiro_events st (l1 ++ l2) =
  let '(out, st') := kiro_events st l1 in let '(out', st'') := kiro_events st' l2 in (out ++ out', st'').
Proof using Type.
  revert st. induction l1 as [|ev l1 IH]; intros st; cbn [app kiro_events]; [by destruct (kiro_events st l2)|].
  destruct (kiro_frame_to_chunk st ev) as [o st1]. rewrite IH. destruct (kiro_events st1 l1) as [out st2].
  destruct (kiro_events st2 l2) as [out' st3]. by destruct o.
Qed.

Lemma kiro_pop_spec fuel st buf :
  kiro_pop fuel st buf =
  let '(l, e, r) := pop_frames (kiro_next_frame crc32) fuel buf in
  let '(out, st') := kiro_events st l in (out, st', match e with Some e => inl e | None => inr r end).
Proof using Type.
  revert st buf. induction fuel as [|fuel IH]; intros st buf; [done|]. cbn [kiro_pop pop_frames].
  destruct (kiro_next_frame crc32 buf) as [[e|[ev|]] b]; [done| |done]. rewrite process_event.
  destruct (kiro_frame_to_chunk st ev) as [o st1] eqn:Eo. rewrite IH.
  destruct (pop_frames (kiro_next_frame crc32) fuel b) as [[l e] r]. cbn [kiro_events]. rewrite Eo.
  by destruct (kiro_events st1 l).
Qed.

Lemma kiro_run_spec st cs buf :
  kiro_run st cs buf =
  let '(l, e, _) := feed (kiro_next_frame crc32) cs buf in (fst (kiro_events st l), e).
Proof using Type.
  revert st buf. induction cs as [|c cs IH]; intros st buf; cbn [kiro_run feed]; [done|]. rewrite kiro_pop_spec.
  fold (drain (kiro_next_frame crc32) (buf ++ c)). destruct (drain _ (buf ++ c)) as [[l [e|]] r].
  - by destruct (kiro_events st l).
  - destruct (feed _ cs r) as [[l' e'] r'] eqn:Ef. rewrite kiro_events_app.
    destruct (kiro_events st l) as [out st1]. rewrite IH, Ef. by destruct (kiro_events st1 l').
Qed.

Lemma fold_kiro_loop_spec fuel u buf :
  fold_kiro_loop fuel u buf =
  let '(l, e, _) := pop_frames (kiro_next_frame crc32) fuel buf in
  match e with Some e => inl e | None => inr (foldl fold_kiro_event u l) end.
Proof using Type.
  revert u buf. induction fuel as [|fuel IH]; intros u buf; [done|]. cbn [fold_kiro_loop pop_frames].
  destruct (kiro_next_frame crc32 buf) as [[e|[ev|]] b]; [done| |done]. rewrite IH.
  by destruct (pop_frames (kiro_next_frame crc32) fuel b) as [[l [e|]] r].
Qed.

Lemma kiro_run_frames st cs body l r :
  concat cs = body -> drain (kiro_next_frame crc32) body = (l, None, r) -> kiro_run st cs [] = (fst (kiro_events st l), None).
Proof using Type.
  intros Hcs Hd. rewrite kiro_run_spec. pose proof (feed_concat (kiro_next_frame crc32) cs eq_refl) as H.
  rewrite Hcs, Hd in H. destruct (feed _ cs []) as [[l' e'] r']. by destruct H as (<- & <- & _).
Qed.

Lemma fold_kiro_body_frames body l r :
  drain (kiro_next_frame crc32) body = (l, None, r) ->
  fold_kiro_body body = inr (kiro_response (foldl fold_kiro_event (mkKiroFold [] ∅) l)).
Proof using Type.
  intros Hd. unfold fold_kiro_body. rewrite fold_kiro_loop_spec. fold (drain (kiro_next_frame crc32) body). by rewrite Hd.
Qed.

Lemma drain_messages ms tail : (forall s, 0 <= crc32 s <= u32_max) -> Forall message_ok ms ->
  drain (kiro_next_frame crc32) ((ms ≫= encode_message crc32) ++ tail) =
  let '(l, e, r) := drain (kiro_next_frame crc32) tail in ((message_event <$> ms) ++ l, e, r).
Proof using Type.
  intros Hc Hms. apply drain_encoded; [apply _|]. intros x y Hx. rewrite Forall_forall in Hms. apply next_frame_message; auto.
Qed.

(** ** Numbered calls *)

Fixpoint number {V} (k : Z) (l : list V) : list (Z * V) :=
  match l with [] => [] | x :: l' => (k, x) :: number (k + 1) l' end.

Lemma number_snd {V} k (l : list V) : (number k l).*2 = l.
Proof using Type. revert k. induction l as [|x l IH]; intros k; csimpl; [done|by rewrite IH]. Qed.

Lemma entry_update_number {V} (k : Z) (l : list V) i d f :
  (i <= length l)%nat ->
  entry_update (k + Z.of_nat i) d f (number k l) = number k (if (i <? length l)%nat then alter f i l else l ++ [f d]).
Proof using Type.
  revert k i. induction l as [|x l IH]; intros k i Hi.
  - assert (i = 0)%nat as -> by (simpl in Hi; lia). cbn. by rewrite Z.add_0_r.
  - cbn [number entry_update]. destruct i as [|i].
    + rewrite Z.add_0_r, Z.eqb_refl. done.
    + rewrite (proj2 (Z.eqb_neq k _)) by lia. rewrite (proj2 (Z.ltb_ge _ k)) by lia.
      replace (k + Z.of_nat (S i)) with ((k + 1) + Z.of_nat i) by lia. rewrite IH by (simpl in Hi; lia).
      change (S i <? length (x :: l))%nat with (i <? length l)%nat. by destruct (i <? length l)%nat.
Qed.

(** ** Stream and fold side by side *)

(** The id, name and input of a tool event. *)
Definition tool_of (ev : KiroFrameEvent) : option (str * str * str) :=
  match ke_event_type ev with
  | ToolUse =>
      match from_slice (ke_payload ev) with
      | Some json => Some (default [] (text_field "toolUseId" json), default [] (text_field "name" json),
                           default [] (text_field "input" json))
      | None => None
      end
  | _ => None
  end.

(** Every call has an id, and opens with an event that names it and carries no
    input yet. *)
Fixpoint opened_bare (seen : list str) (evs : list KiroFrameEvent) : Prop :=
  match evs with
  | [] => True
  | ev :: evs' =>
      match tool_of ev with
      | Some (id, name, input) =>
          id <> [] /\ (id ∈ seen \/ (name <> [] /\ input = [])) /\ opened_bare (if bool_decide (id ∈ seen) then seen else seen ++ [id]) evs'
      | None => opened_bare seen evs'
      end
  end.

Definition call_id (x : str * str * str) : str := x.1.1.

(** The calls [X] in the order they were opened, on both sides. *)
Record same_calls (X : list (str * str * str)) (st : KiroStreamState) (a : Assembled) (u : KiroFold) : Prop := {
  sc_text : as_text a = kf_content u;
  sc_calls : as_calls a = number 0 X;
  sc_nodup : NoDup (call_id <$> X);
  sc_next : ks_next_tool_index st = Z.of_nat (length X);
  sc_index : forall i x, X !! i = Some x -> ks_tool_index_by_id st !! call_id x = Some (Z.of_nat i);
  sc_new : forall id, id ∉ call_id <$> X -> ks_tool_index_by_id st !! id = None /\ kf_calls u !! id = None;
  sc_fold : forall i x, X !! i = Some x -> kf_calls u !! call_id x = Some (x.1.2, x.2);
  sc_named : Forall (fun x => x.1.2 <> []) X;
  sc_saw : ks_saw_tool_calls st = negb (bool_decide (kf_calls u = ∅))
}.

Lemma bytes_of_ok s : byte_list (bytes_of s).
Proof using Type.
  unfold bytes_of, byte_list. apply Forall_fmap, Forall_forall. intros c _. cbn. unfold byte_of.
  pose proof (nat_ascii_bounded c). lia.
Qed.

Lemma text_field_ok k j : byte_list (default [] (text_field k j)).
Proof using Type.
  unfold text_field. destruct (json_get k j) as [v|]; [|constructor]. destruct (as_str v); [apply bytes_of_ok|constructor].
Qed.

(** What the client makes of each kind of chunk. *)
Definition with_calls (f : list (Z * (str * str * str)) -> list (Z * (str * str * str))) (a : Assembled) : Assembled :=
  mkAssembled (as_text a) (as_thinking a) (f (as_calls a)) (as_usage a) (as_finish a).

Lemma assemble_start a i id name : byte_list id -> byte_list name ->
  assemble_chunk a (make_tool_call_start cid created model i id name) =
  with_calls (entry_update i ([], [], []) (fun e => let '(_, _, g) := e in (id, name, g ++ []))) a.
Proof using Type.
  intros Hi Hn. unfold assemble_chunk, make_tool_call_start, with_calls, jstr. cbn -[entry_update bytes_of of_bytes].
  rewrite !bytes_of_of_bytes by done. by rewrite !app_nil_r.
Qed.

Lemma assemble_delta a i input : byte_list input ->
  assemble_chunk a (make_tool_call_delta cid created model i input) =
  with_calls (entry_update i ([], [], []) (fun e => let '(id, n, g) := e in (id, n, g ++ input))) a.
Proof using Type.
  intros Hi. unfold assemble_chunk, make_tool_call_delta, with_calls, jstr. cbn -[entry_update bytes_of of_bytes].
  rewrite !bytes_of_of_bytes by done. by rewrite !app_nil_r.
Qed.

Lemma assemble_text a text : byte_list text ->
  assemble_chunk a (make_text_delta cid created model text false) =
  mkAssembled (as_text a ++ text) (as_thinking a) (as_calls a) (as_usage a) (as_finish a).
Proof using Type.
  intros Ht. unfold assemble_chunk, make_text_delta, jstr. cbn -[bytes_of of_bytes].
  rewrite !bytes_of_of_bytes by done. by rewrite !app_nil_r.
Qed.

Lemma assemble_stop a r :
  assemble_chunk a (kiro_done_chunk cid created model r) =
  mkAssembled (as_text a) (as_thinking a) (as_calls a) (as_usage a) (Some r).
Proof using Type. unfold assemble_chunk, kiro_done_chunk. cbn. by rewrite !app_nil_r. Qed.

Definition take_chunk (a : Assembled) (o : option UpstreamSseChunk) : Assembled :=
  match o with Some c => assemble_chunk a c | None => a end.

(** A call opens. *)
Lemma call_opens X st a u id name :
  same_calls X st a u -> Z.of_nat (length X) < u32_max -> id ∉ call_id <$> X -> name <> [] -> byte_list id -> byte_list name ->
  same_calls (X ++ [(id, name, [])])
    (mkKiroState (<[id := ks_next_tool_index st]> (ks_tool_index_by_id st)) (wrap_add u32_max (ks_next_tool_index st) 1) true)
    (assemble_chunk a (make_tool_call_start cid created model (ks_next_tool_index st) id name))
    (mkKiroFold (kf_content u) (<[id := (name, [])]> (kf_calls u))).
Proof using Type.
  intros [H1 H2 H3 H4 H5 H6 H7 H8 H9] Hlen Hnew Hn Bi Bn. rewrite assemble_start by done. split; cbn.
  - done.
  - rewrite H2, H4. pose proof (entry_update_number 0 X (length X) ([], [], [])
      (fun e => let '(_, _, g) := e in (id, name, g ++ [])) ltac:(lia)) as E. rewrite Z.add_0_l in E.
    rewrite E, (proj2 (Nat.ltb_ge _ _)) by lia. done.
  - rewrite fmap_app. apply NoDup_app. split; [done|]. split; [|apply NoDup_singleton].
    intros x Hx ->%list_elem_of_singleton. done.
  - rewrite H4, length_app. cbn. unfold wrap_add, u32_max in *. rewrite Z.mod_small by lia. lia.
  - intros i x Hx. apply lookup_app_Some in Hx as [Hx|[Hl Hx]].
    + rewrite lookup_insert_ne; [by apply H5|]. intros E. apply Hnew. rewrite E. apply list_elem_of_fmap.
      exists x. split; [done|]. by eapply list_elem_of_lookup_2.
    + apply list_lookup_singleton_Some in Hx as [Hi <-]. cbn. rewrite lookup_insert_eq, H4. f_equal. lia.
  - intros id' Hid'. rewrite fmap_app, not_elem_of_app in Hid'. destruct Hid' as [Ho Hne].
    assert (id' <> id) by (intros ->; apply Hne; by left). rewrite !lookup_insert_ne by done. by apply H6.
  - intros i x Hx. apply lookup_app_Some in Hx as [Hx|[Hl Hx]].
    + rewrite lookup_insert_ne; [by eapply H7|]. intros E. apply Hnew. rewrite E. apply list_elem_of_fmap.
      exists x. split; [done|]. by eapply list_elem_of_lookup_2.
    + apply list_lookup_singleton_Some in Hx as [Hi <-]. cbn. by rewrite lookup_insert_eq.
  - apply Forall_app. split; [done|]. by constructor.
  - rewrite bool_decide_false; [done|]. apply insert_non_empty.
Qed.

(** A call goes on. *)
Lemma call_goes_on X st a u i id n g input :
  same_calls X st a u -> X !! i = Some (id, n, g) -> byte_list input ->
  same_calls (<[i := (id, n, g ++ input)]> X) (mkKiroState (ks_tool_index_by_id st) (ks_next_tool_index st) true)
    (if is_empty_str input then a else assemble_chunk a (make_tool_call_delta cid created model (Z.of_nat i) input))
    (mkKiroFold (kf_content u) (<[id := (n, g ++ input)]> (kf_calls u))).
Proof using Type.
  intros [H1 H2 H3 H4 H5 H6 H7 H8 H9] Hi Bi. pose proof (lookup_lt_Some _ _ _ Hi) as Hlt.
  assert (call_id <$> <[i := (id, n, g ++ input)]> X = call_id <$> X) as Hids.
  { rewrite list_fmap_insert. apply list_insert_id. by rewrite list_lookup_fmap, Hi. }
  assert (forall j x, X !! j = Some x -> j <> i -> call_id x <> id) as Hother.
  { intros j x Hx Hji E. apply Hji. eapply (NoDup_lookup _ j i id H3); by rewrite list_lookup_fmap, ?Hx, ?Hi; cbn; rewrite ?E. }
  split; cbn -[assemble_chunk make_tool_call_delta is_empty_str].
  - unfold is_empty_str. destruct (bool_decide (input = [])); [done|]. by rewrite assemble_delta by done.
  - unfold is_empty_str. destruct (decide (input = [])) as [->|He].
    + rewrite bool_decide_true by done. rewrite app_nil_r, list_insert_id by done. done.
    + rewrite bool_decide_false by done. rewrite assemble_delta by done. cbn. rewrite H2.
      pose proof (entry_update_number 0 X i ([], [], []) (fun e => let '(id, n, g) := e in (id, n, g ++ input)) ltac:(lia)) as E.
      rewrite Z.add_0_l in E. rewrite E, (proj2 (Nat.ltb_lt _ _)) by lia. f_equal.
      rewrite list_insert_alter. apply list_alter_ext; [|done]. intros x Hx. by simplify_eq.
  - by rewrite Hids.
  - by rewrite length_insert.
  - intros j x Hx. destruct (decide (j = i)) as [->|Hji].
    + rewrite list_lookup_insert_eq in Hx by done. injection Hx as <-. cbn. by apply (H5 i (id, n, g)).
    + rewrite list_lookup_insert_ne in Hx by done. by apply H5.
  - intros id' Hid'. rewrite Hids in Hid'. destruct (H6 id' Hid') as [Ha Hb]. split; [done|]. rewrite lookup_insert_ne; [done|].
    intros ->. apply Hid'. apply list_elem_of_fmap. exists (id', n, g). split; [done|]. by eapply list_elem_of_lookup_2.
  - intros j x Hx. destruct (decide (j = i)) as [->|Hji].
    + rewrite list_lookup_insert_eq in Hx by done. injection Hx as <-. cbn. by rewrite lookup_insert_eq.
    + rewrite list_lookup_insert_ne in Hx by done. rewrite lookup_insert_ne; [by eapply H7|]. intros E. by eapply Hother.
  - apply Forall_insert; [done|]. rewrite Forall_lookup in H8. exact (H8 _ _ Hi).
  - rewrite bool_decide_false; [done|]. apply insert_non_empty.
Qed.

Lemma same_calls_text X st a a' u u' :
  same_calls X st a u -> as_calls a' = as_calls a -> kf_calls u' = kf_calls u -> as_text a' = kf_content u' ->
  same_calls X st a' u'.
Proof using Type. intros [H1 H2 H3 H4 H5 H6 H7 H8 H9] Ha Hu Ht. split; rewrite ?Ha, ?Hu; done. Qed.

Lemma non_empty_str s : s <> [] -> is_empty_str s = false.
Proof using Type. apply bool_decide_eq_false_2. Qed.

Lemma tool_event_agrees X st a u ev id name input :
  same_calls X st a u -> Z.of_nat (length X) < u32_max -> tool_of ev = Some (id, name, input) ->
  id <> [] -> id ∈ call_id <$> X \/ (name <> [] /\ input = []) ->
  exists X', let '(o, st') := kiro_frame_to_chunk st ev in
    same_calls X' st' (take_chunk a o) (fold_kiro_event u ev) /\
    call_id <$> X' = if bool_decide (id ∈ call_id <$> X) then call_id <$> X else (call_id <$> X) ++ [id].
Proof using Type.
  intros HS Hlen Ht Hid Hopen. unfold tool_of in Ht. unfold kiro_frame_to_chunk, fold_kiro_event.
  destruct (ke_event_type ev); try done. destruct (from_slice (ke_payload ev)) as [json|]; [|done]. cbv zeta.
  assert (forall (g : str), match text_field "input" json with Some i => g ++ i | None => g end
                            = g ++ default [] (text_field "input" json)) as Hin
    by (intros g; destruct (text_field "input" json); cbn; by rewrite ?app_nil_r).
  pose proof (text_field_ok "toolUseId" json) as B1. pose proof (text_field_ok "name" json) as B2.
  pose proof (text_field_ok "input" json) as B3. injection Ht as E1 E2 E3. rewrite E1, E2, E3 in *.
  unfold get_or_create_tool_index. cbn [ks_tool_index_by_id ks_next_tool_index ks_saw_tool_calls].
  rewrite (non_empty_str id) by done.
  destruct (decide (id ∈ call_id <$> X)) as [Hold|Hnew].
  - pose proof Hold as Hold'. apply list_elem_of_fmap in Hold as ([[id' n] g] & -> & Hx). cbn [call_id fst] in *.
    apply list_elem_of_lookup in Hx as [i Hi]. pose proof (sc_index _ _ _ _ HS _ _ Hi) as Ii. pose proof (sc_fold _ _ _ _ HS _ _ Hi) as If.
    cbn [call_id fst snd] in Ii, If. rewrite Ii, If.
    change (default (name, []) (Some (n, g))) with (n, g). cbn [andb]. cbv iota beta. rewrite Hin.
    pose proof (sc_named _ _ _ _ HS) as Hn. rewrite Forall_lookup in Hn. specialize (Hn _ _ Hi). cbn in Hn.
    rewrite (non_empty_str n) by done. rewrite andb_false_r.
    exists (<[i := (id', n, g ++ input)]> X). pose proof (call_goes_on X st a u i id' n g input HS Hi B3) as Hgo.
    rewrite (bool_decide_true (id' ∈ _)) by done.
    assert (call_id <$> <[i := (id', n, g ++ input)]> X = call_id <$> X) as Hids
      by (rewrite list_fmap_insert; apply list_insert_id; by rewrite list_lookup_fmap, Hi).
    destruct (is_empty_str input); cbn [negb take_chunk]; done.
  - destruct Hopen as [?|[Hname ->]]; [done|]. destruct (sc_new _ _ _ _ HS id Hnew) as [Hm Hf].
    rewrite Hm, Hf. change (default (name, []) None) with (name, [] : str). cbv iota beta. rewrite Hin.
    rewrite (non_empty_str name) by done.
    cbn [negb andb take_chunk]. rewrite app_nil_r. exists (X ++ [(id, name, [])]).
    split; [by apply call_opens|]. rewrite (bool_decide_false (id ∈ _)) by done. by rewrite fmap_app.
Qed.

Lemma other_event_agrees X st a u ev : same_calls X st a u -> tool_of ev = None ->
  let '(o, st') := kiro_frame_to_chunk st ev in
  same_calls X st' (take_chunk a o) (fold_kiro_event u ev).
Proof using Type.
  intros HS Ht. unfold tool_of in Ht. unfold kiro_frame_to_chunk, fold_kiro_event. destruct (ke_event_type ev); try done.
  - destruct (from_slice (ke_payload ev)) as [json|]; [|done]. pose proof (text_field_ok "content" json) as B.
    destruct (text_field "content" json) as [text|]; [|done]. cbn in B. unfold is_empty_str. case_bool_decide as He.
    + subst text. cbn [take_chunk]. rewrite app_nil_r. by destruct u.
    + cbn [take_chunk]. rewrite assemble_text by done. eapply same_calls_text; [exact HS|done|done|]. cbn.
      by rewrite (sc_text _ _ _ _ HS).
  - by destruct (from_slice (ke_payload ev)).
  - cbn [take_chunk]. rewrite assemble_stop. eapply same_calls_text; [exact HS|done|done|]. cbn. apply (sc_text _ _ _ _ HS).
Qed.

Lemma kiro_events_agree X st a u evs :
  same_calls X st a u -> Z.of_nat (length X) + Z.of_nat (length evs) <= u32_max -> opened_bare (call_id <$> X) evs ->
  exists X', let '(out, st') := kiro_events st evs in
    same_calls X' st' (foldl assemble_chunk a out) (foldl fold_kiro_event u evs).
Proof using Type.
  revert X st a u. induction evs as [|ev evs IH]; intros X st a u HS Hlen Hb; [by exists X|].
  cbn [kiro_events foldl opened_bare] in *. cbn [length] in Hlen. rewrite Nat2Z.inj_succ in Hlen.
  assert (forall o out b, foldl assemble_chunk b (match o with Some c => c :: out | None => out end)
            = foldl assemble_chunk (take_chunk b o) out) as Hfold by (by intros []).
  destruct (tool_of ev) as [[[id name] input]|] eqn:Et.
  - destruct Hb as (Hid & Ho & Hb). destruct (tool_event_agrees X st a u ev id name input HS ltac:(lia) Et Hid Ho) as (X1 & H1).
    destruct (kiro_frame_to_chunk st ev) as [o st1]. destruct H1 as [HS1 Hids]. rewrite <- Hids in Hb.
    assert (Z.of_nat (length X1) <= Z.of_nat (length X) + 1) as Hl1.
    { apply (f_equal length) in Hids. rewrite length_fmap in Hids. destruct (bool_decide _);
        rewrite ?length_app, ?length_fmap in Hids; cbn in Hids; lia. }
    destruct (IH X1 st1 _ _ HS1 ltac:(lia) Hb) as (X2 & H2). exists X2.
    destruct (kiro_events st1 evs) as [out st2]. by rewrite Hfold.
  - pose proof (other_event_agrees X st a u ev HS Et) as H1. destruct (kiro_frame_to_chunk st ev) as [o st1].
    destruct (IH X st1 _ _ H1 ltac:(lia) Hb) as (X2 & H2). exists X2.
    destruct (kiro_events st1 evs) as [out st2]. by rewrite Hfold.
Qed.

(** The fold lists the same calls, by id instead of in the order they opened. *)
Lemma kiro_calls_perm X st a u : same_calls X st a u -> kiro_calls (kf_calls u) ≡ₚ X.
Proof using Type.
  intros HS. set (kv (x : str * str * str) := (call_id x, (x.1.2, x.2))).
  assert (NoDup ((kv <$> X).*1)) as Hnd.
  { rewrite <- list_fmap_compose. exact (sc_nodup _ _ _ _ HS). }
  assert (kf_calls u = list_to_map (kv <$> X)) as Hm.
  { apply map_eq. intros id. destruct (decide (id ∈ call_id <$> X)) as [Hin|Hout].
    - apply list_elem_of_fmap in Hin as (x & -> & Hx). pose proof Hx as Hx'. apply list_elem_of_lookup in Hx' as [i Hi].
      rewrite (sc_fold _ _ _ _ HS _ _ Hi). symmetry. apply elem_of_list_to_map_1; [done|]. apply list_elem_of_fmap. by exists x.
    - destruct (sc_new _ _ _ _ HS id Hout) as [_ ->]. symmetry. apply not_elem_of_list_to_map_1.
      by rewrite <- list_fmap_compose. }
  unfold kiro_calls. rewrite merge_sort_Permutation, Hm, map_to_list_to_map by done. rewrite <- list_fmap_compose.
  apply reflexive_eq. rewrite <- (list_fmap_id X) at 2. apply list_fmap_ext. by intros i [[? ?] ?] _.
Qed.

Lemma same_calls_start : same_calls [] kiro_state_default assembled_start (mkKiroFold [] ∅).
Proof using Type. split; try done. apply NoDup_nil_2. Qed.

(** An input that comes with the name of a call is kept by the fold and lost by
    the stream. *)
Lemma opening_input ev id name input : tool_of ev = Some (id, name, input) -> id <> [] -> name <> [] ->
  (as_calls (foldl assemble_chunk assembled_start (fst (kiro_events kiro_state_default [ev])))).*2 = [(id, name, [])] /\
  kf_calls (fold_kiro_event (mkKiroFold [] ∅) ev) = {[ id := (name, input) ]}.
Proof using Type.
  intros Ht Hid Hn. unfold tool_of in Ht. cbn [kiro_events]. unfold kiro_frame_to_chunk, fold_kiro_event.
  destruct (ke_event_type ev); try done. destruct (from_slice (ke_payload ev)) as [json|]; [|done]. cbv zeta.
  pose proof (text_field_ok "toolUseId" json) as B1. pose proof (text_field_ok "name" json) as B2.
  injection Ht as E1 E2 E3. rewrite E1, E2 in *. unfold get_or_create_tool_index. cbn [ks_tool_index_by_id kiro_state_default].
  rewrite lookup_empty, (non_empty_str id), (non_empty_str name) by done. cbn [andb negb fst foldl]. rewrite assemble_start by done.
  split; [by cbn|]. cbn [kf_calls]. rewrite lookup_empty. change (default (name, []) None) with (name, [] : str). cbv iota beta.
  rewrite (non_empty_str name) by done. cbn [negb andb kf_calls]. unfold singletonM, map_singleton. do 2 f_equal.
  rewrite <- E3. by destruct (text_field "input" json).
Qed.

End kiro_stream.

(** ** Theorem *)

(** C26. A Kiro answer is the same whether the client streams it or not, when
    every call opens with an event that names it and carries no input: however
    the transport cuts the body, the chunks put together give the text, the
    finish reason and the calls of the folded answer, which lists them by id.
    An input in the opening event is in the fold and not in the stream.  And
    neither notices a body cut in the middle of a message. *)
Theorem kiro_answer_is_the_stream crc32 from_slice cid created model ms stop k :
  (forall s, 0 <= crc32 s <= u32_max) ->
  Forall message_ok ms -> message_ok stop -> ke_event_type (message_event stop) = MessageStop ->
  opened_bare from_slice [] (message_event <$> ms) -> Z.of_nat (length ms) <= u32_max ->
  (k < length (encode_message crc32 stop))%nat ->
  let data := ms ≫= encode_message crc32 in
  let run := kiro_run from_slice crc32 cid created model kiro_state_default in
  let whole := fold_kiro_body from_slice crc32 in
  (exists out r,
    (forall cs, concat cs = data ++ encode_message crc32 stop -> run cs [] = (out, None)) /\
    whole (data ++ encode_message crc32 stop) = inr r /\
    (let a := foldl assemble_chunk assembled_start out in
     as_text a = kr_content r /\ as_finish a = Some (kr_finish_reason r) /\
     unary_call <$> (as_calls a).*2 ≡ₚ default [] (kr_tool_calls r))) /\
  (forall ev id name input, tool_of from_slice ev = Some (id, name, input) -> id <> [] -> name <> [] ->
    (as_calls (foldl assemble_chunk assembled_start (fst (kiro_events from_slice cid created model kiro_state_default [ev])))).*2
      = [(id, name, [])] /\
    kf_calls (fold_kiro_event from_slice (mkKiroFold [] ∅) ev) = {[ id := (name, input) ]}) /\
  (exists out r, (forall cs, concat cs = data ++ take k (encode_message crc32 stop) -> run cs [] = (out, None)) /\
    whole (data ++ take k (encode_message crc32 stop)) = inr r).
Proof.
  intros Hc Hms Hstop Ht Hop Hlen Hk data run whole.
  assert (drain (kiro_next_frame crc32) (data ++ encode_message crc32 stop) = ((message_event <$> ms) ++ [message_event stop], None, [])) as De.
  { unfold data. rewrite drain_messages by done. by rewrite <- (app_nil_r (encode_message crc32 stop)), drain_unfold, next_frame_message by (done || apply _). }
  assert (drain (kiro_next_frame crc32) (data ++ take k (encode_message crc32 stop)) = (message_event <$> ms, None, take k (encode_message crc32 stop))) as Dc.
  { unfold data. rewrite drain_messages by done. by rewrite drain_unfold, next_frame_message_cut, app_nil_r by (done || apply _). }
  split; [|split].
  - destruct (kiro_events_agree from_slice cid created model [] kiro_state_default assembled_start (mkKiroFold [] ∅) (message_event <$> ms)
      same_calls_start ltac:(rewrite length_fmap; cbn; lia) Hop) as (X & HS).
    eexists _, _. split; [intros cs Hcs; exact (kiro_run_frames _ _ _ _ _ _ _ _ _ _ Hcs De)|].
    split; [exact (fold_kiro_body_frames _ _ _ _ _ De)|]. cbn zeta.
    rewrite kiro_events_app, foldl_app. destruct (kiro_events from_slice cid created model kiro_state_default (message_event <$> ms)) as [out st].
    cbn [kiro_events foldl]. unfold kiro_frame_to_chunk, fold_kiro_event at 1 3 5. rewrite Ht. cbn [fst]. rewrite foldl_app. cbn [foldl].
    rewrite assemble_stop. unfold kiro_response. cbn [as_text as_finish as_calls kr_finish_reason kr_tool_calls kr_content].
    split; [apply (sc_text _ _ _ _ HS)|]. split; [by rewrite (sc_saw _ _ _ _ HS)|].
    rewrite (sc_calls _ _ _ _ HS), number_snd. pose proof (kiro_calls_perm _ _ _ _ HS) as Hp.
    apply (fmap_Permutation unary_call) in Hp. rewrite <- Hp. by destruct (unary_call <$> kiro_calls _).
  - intros ev id name input. apply opening_input.
  - eexists _, _. split; [intros cs Hcs; exact (kiro_run_frames _ _ _ _ _ _ _ _ _ _ Hcs Dc)|exact (fold_kiro_body_frames _ _ _ _ _ Dc)].
Qed.

(** A call opened and continued, with text, then the stop; one byte per chunk. *)
Lemma kiro_answer_is_the_stream_witness :
  let crc s := foldr Z.add 0 s mod 2 ^ 32 in
  let msg t p := ([(EVENT_TYPE, bytes_of t)], p) in
  let from_slice (p : str) :=
    match p with
    | [1] => Some (JObj [("name", JStr "ls"); ("toolUseId", JStr "t")]%string)
    | [2] => Some (JObj [("input", JStr "{}"); ("name", JStr "ls"); ("toolUseId", JStr "t")]%string)
    | [3] => Some (JObj [("content", JStr "hi")]%string)
    | _ => None
    end in
  let ms := [msg "toolUseEvent"%string [1]; msg "assistantResponseEvent"%string [3]; msg "toolUseEvent"%string [2]] in
  let stop := msg "messageStopEvent"%string [] in
  let body := (ms ≫= encode_message crc) ++ encode_message crc stop in
  exists out r,
    kiro_run from_slice crc [] 0 [] kiro_state_default ((fun b => [b]) <$> body) [] = (out, None) /\
    fold_kiro_body from_slice crc body = inr r /\
    kr_content r = bytes_of "hi" /\ kr_finish_reason r = "tool_calls"%string /\
    kr_tool_calls r = Some [unary_call (bytes_of "t", bytes_of "ls", bytes_of "{}")] /\
    as_text (foldl assemble_chunk assembled_start out) = kr_content r.
Proof.
  intros crc msg from_slice ms stop body.
  edestruct (kiro_answer_is_the_stream crc from_slice [] 0 [] ms stop 3) as ((out & r & H1 & H2 & H3 & _) & _).
  - intros s. unfold crc, u32_max. pose proof (Z.mod_pos_bound (foldr Z.add 0 s) (2 ^ 32) ltac:(lia)). lia.
  - repeat constructor; vm_compute; done.
  - repeat constructor; vm_compute; done.
  - vm_compute. done.
  - vm_compute. split; [done|]. split; [right; done|]. split; [done|]. split; [left; left|done].
  - vm_compute. done.
  - vm_compute. lia.
  - exists out, r. split; [apply H1; vm_compute; done|]. split; [exact H2|].
    assert (fold_kiro_body from_slice crc body = inr r) as H2' by exact H2. vm_compute in H2'. injection H2' as Hr.
    split; [by rewrite <- Hr|]. split; [by rewrite <- Hr|]. split; [by rewrite <- Hr; vm_compute|exact H3].
Defined.
