(* ===== verification/DevinTurn.v ===== *)
(** * Devin: the conversation as prompts

    [openproxy-adapters/src/adapters/devin/turn.rs], [signature.rs] and
    [tools.rs]: the messages of an OpenAI request become the prompts of a Devin
    request.  Tool results are matched to the calls they answer, consecutive
    assistant messages are merged, and turns that held nothing that can be sent
    are dropped or refused.

    [serde_json]'s reader and writer and [base64]'s decoder are parameters, as is
    the fresh id of each prompt, which nothing reads. *)

From Stdlib Require Import String.
From stdpp Require Import pretty.
From S2P Require Import Prelude Text Bytes Protobuf DevinWire.

(** ** Data *)

Definition DEVIN_SOURCE_USER : Z := 1.
Definition DEVIN_SOURCE_ASSISTANT : Z := 2.
Definition DEVIN_SOURCE_TOOL_RESULT : Z := 4.

(** The fields of an [OpenAIMessage] the mapper reads. *)
Record TurnMessage := mkTurnMessage {
  tm_role : string; tm_content : option Json; tm_tool_call_id : option str; tm_tool_calls : option (list Json); tm_extra : list (string * Json)
}.

Definition UNSENDABLE_PART_TYPES : list str := bytes_of <$>
  ["image"; "input_image"; "image_url"; "audio"; "input_audio"; "audio_url"; "video"; "input_video"; "video_url";
   "document"; "file"; "input_file"]%string.

Definition EMPTY_TOOL_RESULT_PLACEHOLDER : str := bytes_of "{}".

Record DevinToolCall := mkDevinToolCall { tcl_id : str; tcl_name : str; tcl_arguments : str }.
Record DevinImage := mkDevinImage { im_data_base64 : str; im_mime : str }.

Record DevinPrompt := mkDevinPrompt {
  dp_message_id : str; dp_source : Z; dp_content : str; dp_tool_calls : list DevinToolCall; dp_tool_call_id : str;
  dp_images : list DevinImage; dp_thinking : str; dp_signature : str; dp_signature_type : str;
  dp_is_orphaned : bool; dp_dropped_part : option str
}.

Record PartAccum := mkPartAccum {
  pa_texts : list str; pa_thinkings : list str; pa_images : list DevinImage; pa_dropped : option str;
  pa_signature : str; pa_signature_type : str
}.

Definition accum_default : PartAccum := mkPartAccum [] [] [] None [] [].

Definition blank_text (s : str) : bool := bool_decide (trim_bytes s = []).
Definition no_bytes (s : str) : bool := bool_decide (s = []).

(** [Value::as_str], as bytes. *)
Definition jstr_of (v : Json) : option str := bytes_of <$> as_str v.
Definition get_str (k : string) (v : Json) : option str := json_get k v ≫= jstr_of.

(** ** Encoding *)

Definition append_if (b : bool) (s : str) : str := if b then s else [].

(** [DevinPrompt::encode]. *)
Definition encode_prompt (p : DevinPrompt) : str :=
  append_string 1 (dp_message_id p) ++ append_varint_field 2 (dp_source p) ++ append_string 3 (dp_content p)
  ++ (dp_tool_calls p ≫= fun tc =>
        append_message 6 (append_string 1 (tcl_id tc) ++ append_string 2 (tcl_name tc) ++ append_string 3 (tcl_arguments tc)))
  ++ append_if (negb (no_bytes (dp_tool_call_id p))) (append_string 7 (dp_tool_call_id p))
  ++ (dp_images p ≫= fun img => append_message 10 (append_string 1 (im_data_base64 img) ++ append_string 2 (im_mime img)))
  ++ append_if (negb (no_bytes (dp_thinking p))) (append_string 11 (dp_thinking p))
  ++ append_if (negb (no_bytes (dp_signature p))) (append_bytes 12 (dp_signature p))
  ++ append_if (negb (no_bytes (dp_signature_type p))) (append_string 18 (dp_signature_type p)).

Definition is_media_only_user_turn (p : DevinPrompt) : bool :=
  (dp_source p =? DEVIN_SOURCE_USER) && blank_text (dp_content p)
  && match dp_images p with [] => true | _ => false end && match dp_dropped_part p with Some _ => true | None => false end.

Definition sendable_turn (p : DevinPrompt) : Prop := is_media_only_user_turn p = false.
#[global] Instance sendable_turn_dec p : Decision (sendable_turn p).
Proof. unfold sendable_turn. apply _. Defined.

(** ** Images *)

Definition IMAGE_PNG : str := bytes_of "image/png".

Definition image_from_str (raw : str) : option DevinImage :=
  let trimmed := trim_bytes raw in
  if no_bytes trimmed || contains_bytes (bytes_of "://") trimmed then None
  else
    let plain := Some (mkDevinImage trimmed IMAGE_PNG) in
    match strip_prefix (bytes_of "data:") trimmed with
    | None => plain
    | Some rest =>
        match split_once_bytes (bytes_of ";base64,") rest with
        | None => plain
        | Some (mime, b64) => Some (mkDevinImage b64 (if no_bytes mime then IMAGE_PNG else mime))
        end
    end.

(** [.get(a).or_else(|| .get(b)).or_else(|| .get(c)).and_then(as_str).unwrap_or("image/png")]. *)
Definition first_get (ks : list string) (v : Json) : option Json := find_map (fun k => json_get k v) ks.

Definition mime_field (ks : list string) (v : Json) : str := default IMAGE_PNG (first_get ks v ≫= jstr_of).

Definition with_mime (mime : str) (img : DevinImage) : DevinImage := mkDevinImage (im_data_base64 img) mime.

(** One turn of the loop over [source] and [image]. *)
Definition image_of_media (media : Json) : option DevinImage :=
  match jstr_of media ≫= image_from_str with
  | Some img => Some img
  | None => with_mime (mime_field ["media_type"; "mime_type"; "mime"]%string media) <$> (get_str "data" media ≫= image_from_str)
  end.

Definition extract_image (part : Json) : option DevinImage :=
  match part with
  | JObj _ =>
      let url :=
        match json_get "image_url" part with
        | None => None
        | Some image_url =>
            match jstr_of image_url with Some s => image_from_str s | None => get_str "url" image_url ≫= image_from_str end
        end in
      match url with
      | Some img => Some img
      | None =>
          match find_map (fun k => json_get k part ≫= image_of_media) ["source"; "image"]%string with
          | Some img => Some img
          | None => with_mime (mime_field ["mime_type"; "media_type"; "mime"]%string part) <$> (get_str "data" part ≫= image_from_str)
          end
      end
  | _ => None
  end.

(** [mime.rsplit('/').next()]: what follows the last slash. *)
Definition after_last_slash (s : str) : str := default [] (last (split_byte 47 s)).

Definition mime_to_ext (mime : str) : str :=
  let e := after_last_slash mime in
  if bool_decide (e ∈ bytes_of <$> ["jpeg"; "jpg"]%string) then bytes_of "jpg"
  else if bool_decide (e = bytes_of "webp") then bytes_of "webp"
  else if bool_decide (e = bytes_of "gif") then bytes_of "gif"
  else bytes_of "png".

Definition join (sep : str) (l : list str) : str :=
  match l with [] => [] | x :: l' => x ++ (l' ≫= fun y => sep ++ y) end.

Definition image_header (i : nat) (img : DevinImage) : str :=
  let n := bytes_of (pretty (Z.of_nat (S i))) in
  bytes_of "[Image " ++ n ++ bytes_of ": pasted_image_" ++ n ++ bytes_of "." ++ mime_to_ext (im_mime img) ++ bytes_of "]".

Definition inject_image_headers (text : str) (images : list DevinImage) : str :=
  if match images with [] => true | _ => false end || contains_bytes (bytes_of "[Image ") text then text
  else join [10] (imap image_header images) ++ [10; 10] ++ text.

Definition join_nonempty (fragments : list str) (sep : str) : str :=
  join sep (filter (fun f => f <> []) fragments).

Definition first_str_field (part : Json) (keys : list string) : option str := find_map (fun k => get_str k part) keys.

Section turn.
Variable from_str : str -> option Json.
Variable to_string : Json -> str.
Variable b64_standard_decode : str -> option str.

(** ** Signatures *)

Definition SIGNATURE_PREFIXES : list (str * str) :=
  (fun p => (bytes_of p.1, bytes_of p.2)) <$>
  [("sealed.v1.", "sealed"); ("claude#", "anthropic"); ("gpt#", "openai"); ("gemini#", "gemini")]%string.

Definition sealed : str := bytes_of "sealed".

(** The prefix table and the literal markers. *)
Definition signature_by_prefix (trimmed : str) : option (str * str) :=
  match find_map (fun pk => (fun rest => (if bool_decide (pk.2 = sealed) then trimmed else rest, pk.2)) <$> strip_prefix pk.1 trimmed)
          SIGNATURE_PREFIXES with
  | Some r => Some r
  | None =>
      if has_prefix (bytes_of "AY") trimmed then Some (trimmed, bytes_of "gemini")
      else if has_prefix (bytes_of "CAQS") trimmed || has_prefix (bytes_of "CAIS") trimmed then Some (trimmed, bytes_of "anthropic")
      else if has_prefix (bytes_of "gAAAA") trimmed then Some (trimmed, bytes_of "openai")
      else None
  end.

Fixpoint parse_signature (fuel : nat) (raw : str) : str * str :=
  let trimmed := trim_bytes raw in
  if no_bytes trimmed then ([], [])
  else match fuel with
  | O => (trimmed, sealed)
  | S f =>
      match (if has_prefix [123] trimmed then from_str trimmed else None) with
      | Some (JObj m) =>
          let obj := JObj m in
          let sig := default [] (first_get ["signature"; "sig"]%string obj ≫= jstr_of) in
          let kind := default [] (first_get ["signature_type"; "type"]%string obj ≫= jstr_of) in
          let '(bytes, detected) := parse_signature f sig in
          (bytes, if no_bytes kind then detected else kind)
      | _ =>
          match signature_by_prefix trimmed with
          | Some r => r
          | None =>
              let opaque := (trimmed, sealed) in
              match b64_standard_decode trimmed with
              | None | Some [] => opaque
              | Some (b :: decoded') =>
                  let decoded := b :: decoded' in
                  let gemini := if b =? 1 then (trimmed, bytes_of "gemini") else opaque in
                  if utf8_valid decoded then
                    let text := trim_bytes decoded in
                    match strip_prefix (bytes_of "cpa-codex-gemini-carrier-v1:") text with
                    | Some inner =>
                        let inner := trim_bytes inner in
                        if has_prefix (bytes_of "sealed.v1.") inner then (inner, sealed)
                        else let '(bytes, kind) := parse_signature f inner in
                             if bool_decide (kind = sealed) then ([], []) else (bytes, kind)
                    | None =>
                        if has_prefix (bytes_of "sealed.v1.") text then (decoded, sealed)
                        else if has_prefix (bytes_of "CAQS") text || has_prefix (bytes_of "CAIS") text then (decoded, bytes_of "anthropic")
                        else if has_prefix (bytes_of "gAAAA") text then (decoded, bytes_of "openai")
                        else gemini
                    end
                  else gemini
              end
          end
      end
  end.

Definition parse_signature_value (raw : str) : str * str := parse_signature (length raw) raw.

(** ** Parts *)

Definition push_text (t : str) (a : PartAccum) : PartAccum :=
  mkPartAccum (pa_texts a ++ [t]) (pa_thinkings a) (pa_images a) (pa_dropped a) (pa_signature a) (pa_signature_type a).
Definition push_thinking (t : str) (a : PartAccum) : PartAccum :=
  mkPartAccum (pa_texts a) (pa_thinkings a ++ [t]) (pa_images a) (pa_dropped a) (pa_signature a) (pa_signature_type a).
Definition push_image (i : DevinImage) (a : PartAccum) : PartAccum :=
  mkPartAccum (pa_texts a) (pa_thinkings a) (pa_images a ++ [i]) (pa_dropped a) (pa_signature a) (pa_signature_type a).
Definition set_dropped (t : str) (a : PartAccum) : PartAccum :=
  mkPartAccum (pa_texts a) (pa_thinkings a) (pa_images a) (Some t) (pa_signature a) (pa_signature_type a).
Definition set_signature (s k : str) (a : PartAccum) : PartAccum :=
  mkPartAccum (pa_texts a) (pa_thinkings a) (pa_images a) (pa_dropped a) s k.

(** The last test of [extract_part]. *)
Definition note_unsendable (part_type : str) (a : PartAccum) : PartAccum :=
  if bool_decide (part_type ∈ UNSENDABLE_PART_TYPES) && bool_decide (pa_dropped a = None) then set_dropped part_type a else a.

Definition extract_part (for_assistant : bool) (acc : PartAccum) (part : Json) : PartAccum :=
  match part with
  | JObj _ =>
      match extract_image part with
      | Some img => push_image img acc
      | None =>
          let part_type := default [] (get_str "type" part) in
          if for_assistant then
            if bool_decide (part_type = bytes_of "thinking") || bool_decide (part_type = bytes_of "reasoning") then
              let acc := match first_str_field part ["thinking"; "reasoning"; "text"; "content"]%string with
                         | Some t => push_thinking t acc | None => acc end in
              if no_bytes (pa_signature acc) then
                match first_str_field part ["signature"; "thought_signature"]%string with
                | None => acc
                | Some raw => let '(bytes, kind) := parse_signature_value raw in
                              if no_bytes bytes then acc else set_signature bytes kind acc
                end
              else acc
            else match first_str_field part ["thinking"; "reasoning"]%string with
                 | Some t => push_thinking t acc
                 | None => match first_str_field part ["text"; "content"]%string with
                           | Some t => push_text t acc
                           | None => note_unsendable part_type acc
                           end
                 end
          else match first_str_field part ["text"; "content"; "thinking"; "reasoning"]%string with
               | Some t => push_text t acc
               | None => note_unsendable part_type acc
               end
      end
  | JStr s => push_text (bytes_of s) acc
  | _ => acc
  end.

Definition extract_content (content : option Json) (for_assistant : bool) : PartAccum :=
  match content with
  | Some (JStr s) => push_text (bytes_of s) accum_default
  | Some (JArr parts) => foldl (extract_part for_assistant) accum_default parts
  | Some (JObj m) => extract_part for_assistant accum_default (JObj m)
  | Some JNull | None => accum_default
  | Some v => push_text (to_string v) accum_default
  end.

(** The loop over [reasoning] and [thinking], then the two signature keys. *)
Definition extra_thinking (extra : list (string * Json)) (acc : PartAccum) (key : string) : PartAccum :=
  match assoc_get key extra with
  | Some (JStr s) => push_thinking (bytes_of s) acc
  | Some (JArr items) =>
      foldl (fun acc item =>
        match (match jstr_of item with Some t => Some t | None => first_str_field item ["thinking"; "reasoning"; "text"]%string end) with
        | Some t => push_thinking t acc
        | None => acc
        end) acc items
  | _ => acc
  end.

Definition assistant_extras (msg : TurnMessage) (acc : PartAccum) : PartAccum * (str * str) :=
  let acc := foldl (extra_thinking (tm_extra msg)) acc ["reasoning"; "thinking"]%string in
  (acc, foldl (fun sig key => match assoc_get key (tm_extra msg) ≫= jstr_of with Some raw => parse_signature_value raw | None => sig end)
          ([], []) ["signature"; "thought_signature"]%string).

Definition tool_result_call_id (msg : TurnMessage) : str :=
  trim_bytes (default [] (match tm_tool_call_id msg with
                          | Some id => Some id
                          | None => find_map (fun k => assoc_get k (tm_extra msg) ≫= jstr_of) ["id"; "call_id"]%string
                          end)).

(** [function.and_then(get).or_else(|| obj.get(k))]. *)
Definition function_field (k : string) (obj : Json) : option Json :=
  match json_get "function" obj ≫= json_get k with Some v => Some v | None => json_get k obj end.

Definition map_tool_call (tc : Json) : option DevinToolCall :=
  match tc with
  | JObj _ =>
      Some (mkDevinToolCall
        (default [] (first_get ["id"; "call_id"]%string tc ≫= jstr_of))
        (default [] (function_field "name" tc ≫= jstr_of))
        (match function_field "arguments" tc with
         | Some (JStr s) => bytes_of s
         | Some other => to_string other
         | None => []
         end))
  | _ => None
  end.

(** ** Messages *)

Record DevinTurn := mkDevinTurn { dt_system_prompt : str; dt_prompts : list DevinPrompt }.

(** [turn] and [pending_tool_call_ids]. *)
Record TurnState := mkTurnState { ts_turn : DevinTurn; ts_pending : list str }.

Definition push_prompt (p : DevinPrompt) (s : TurnState) : TurnState :=
  mkTurnState (mkDevinTurn (dt_system_prompt (ts_turn s)) (dt_prompts (ts_turn s) ++ [p])) (ts_pending s).

Definition text_of (acc : PartAccum) : str := inject_image_headers (join_nonempty (pa_texts acc) [10]) (pa_images acc).

Definition map_system (msg : TurnMessage) (s : TurnState) : TurnState :=
  if no_bytes (dt_system_prompt (ts_turn s)) then
    let text := trim_bytes (join_nonempty (pa_texts (extract_content (tm_content msg) false)) [10]) in
    if no_bytes text then s else mkTurnState (mkDevinTurn text (dt_prompts (ts_turn s))) (ts_pending s)
  else s.

(** The branches [user] and [_]. *)
Definition map_user (fresh : str) (msg : TurnMessage) (s : TurnState) : TurnState :=
  let acc := extract_content (tm_content msg) false in
  push_prompt (mkDevinPrompt fresh DEVIN_SOURCE_USER (text_of acc) [] [] (pa_images acc) [] [] [] false (pa_dropped acc)) s.

(** The assistant prompt already at the end takes the new message in. *)
Definition merge_assistant (last : DevinPrompt) (text : str) (calls : list DevinToolCall) (images : list DevinImage)
    (thinking signature signature_type : str) : DevinPrompt :=
  mkDevinPrompt (dp_message_id last) (dp_source last)
    (if no_bytes text then dp_content last
     else if no_bytes (dp_content last) then text else dp_content last ++ [10] ++ text)
    (dp_tool_calls last ++ calls) (dp_tool_call_id last) (dp_images last ++ images)
    (if no_bytes thinking then dp_thinking last
     else if no_bytes (dp_thinking last) then thinking else dp_thinking last ++ [10; 10] ++ thinking)
    (if no_bytes signature then dp_signature last else signature)
    (if no_bytes signature then dp_signature_type last else signature_type)
    (dp_is_orphaned last) (dp_dropped_part last).

Definition call_ids (calls : list DevinToolCall) : list str := filter (fun id => id <> []) (tcl_id <$> calls).

Definition map_assistant (fresh : str) (msg : TurnMessage) (s : TurnState) : TurnState :=
  let '(acc, (extra_sig, extra_sig_type)) := assistant_extras msg (extract_content (tm_content msg) true) in
  let '(signature, signature_type) :=
    if no_bytes (pa_signature acc) then (extra_sig, extra_sig_type) else (pa_signature acc, pa_signature_type acc) in
  let tool_calls := omap map_tool_call (default [] (tm_tool_calls msg)) in
  let pending := ts_pending s ++ call_ids tool_calls in
  let text := text_of acc in
  let thinking := join_nonempty (pa_thinkings acc) [10; 10] in
  let new := mkDevinPrompt fresh DEVIN_SOURCE_ASSISTANT text tool_calls [] (pa_images acc) thinking signature signature_type
               false (pa_dropped acc) in
  let prompts := dt_prompts (ts_turn s) in
  let prompts :=
    match last prompts with
    | Some l => if dp_source l =? DEVIN_SOURCE_ASSISTANT
                then take (length prompts - 1) prompts ++ [merge_assistant l text tool_calls (pa_images acc) thinking signature signature_type]
                else prompts ++ [new]
    | None => prompts ++ [new]
    end in
  mkTurnState (mkDevinTurn (dt_system_prompt (ts_turn s)) prompts) pending.

(** [position] and [remove]. *)
Fixpoint remove_first_id (id : str) (l : list str) : option (list str) :=
  match l with
  | [] => None
  | x :: l' => if bool_decide (x = id) then Some l' else cons x <$> remove_first_id id l'
  end.

Definition match_result (provided : str) (pending : list str) : option str * list str :=
  if no_bytes provided then
    match pending with [] => (None, []) | id :: rest => (Some id, rest) end
  else match remove_first_id provided pending with Some rest => (Some provided, rest) | None => (None, pending) end.

Definition map_tool (fresh : str) (msg : TurnMessage) (s : TurnState) : TurnState :=
  let provided_id := tool_result_call_id msg in
  let '(matched, pending) := match_result provided_id (ts_pending s) in
  let acc := extract_content (tm_content msg) false in
  let text := text_of acc in
  let text := if blank_text text && match pa_images acc with [] => true | _ => false end then EMPTY_TOOL_RESULT_PLACEHOLDER else text in
  let p := match matched with
           | Some call_id => mkDevinPrompt fresh DEVIN_SOURCE_TOOL_RESULT text [] call_id (pa_images acc) [] [] [] false (pa_dropped acc)
           | None => mkDevinPrompt fresh DEVIN_SOURCE_USER text [] provided_id (pa_images acc) [] [] [] true (pa_dropped acc)
           end in
  push_prompt p (mkTurnState (ts_turn s) pending).

Definition map_message (s : TurnState) (fm : str * TurnMessage) : TurnState :=
  let '(fresh, msg) := fm in
  if String.eqb (tm_role msg) "system" || String.eqb (tm_role msg) "developer" then map_system msg s
  else if String.eqb (tm_role msg) "assistant" then map_assistant fresh msg s
  else if String.eqb (tm_role msg) "tool" || String.eqb (tm_role msg) "function" then map_tool fresh msg s
  else map_user fresh msg s.

(** ** User turns *)

Definition is_assistant (p : DevinPrompt) : bool := dp_source p =? DEVIN_SOURCE_ASSISTANT.

(** The scan of one run: the first dropped part and whether something is left. *)
Definition scan_run (acc : option str * bool) (p : DevinPrompt) : option str * bool :=
  let '(first_dropped, bearing) := acc in
  if is_media_only_user_turn p then (match first_dropped with None => dp_dropped_part p | Some _ => first_dropped end, bearing)
  else (first_dropped, true).

(** The run of prompts that are not the assistant's, and what follows. *)
Fixpoint split_run (l : list DevinPrompt) : list DevinPrompt * list DevinPrompt :=
  match l with
  | [] => ([], [])
  | p :: l' => if is_assistant p then ([], l) else let '(run, rest) := split_run l' in (p :: run, rest)
  end.

Fixpoint check_runs (fuel : nat) (l : list DevinPrompt) : option str :=
  match fuel with
  | O => None
  | S f =>
      match l with
      | [] => None
      | p :: l' =>
          if is_assistant p then check_runs f l'
          else
            let '(run, rest) := split_run l in
            match foldl scan_run (None, false) run with
            | (Some part_type, false) => Some part_type
            | _ => check_runs f rest
            end
      end
  end.

(** [apply_user_turn_policy]: the part type of the error, or the prompts. *)
Definition apply_user_turn_policy (prompts : list DevinPrompt) : str + list DevinPrompt :=
  match check_runs (length prompts) prompts with
  | Some part_type => inl part_type
  | None => inr (filter sendable_turn prompts)
  end.

(** [map_openai_turn]: each message with the id its prompt would get. *)
Definition map_openai_turn (messages : list (str * TurnMessage)) : str + DevinTurn :=
  let turn := ts_turn (foldl map_message (mkTurnState (mkDevinTurn [] []) []) messages) in
  match apply_user_turn_policy (dt_prompts turn) with
  | inl e => inl e
  | inr ps => inr (mkDevinTurn (dt_system_prompt turn) ps)
  end.

End turn.

(** ** Signatures are decoded in full *)

Lemma trim_by_length len fuel bs : (length (trim_by len fuel bs) <= length bs)%nat.
Proof.
  revert bs. induction fuel as [|fuel IH]; intros bs; cbn [trim_by]; [done|]. destruct (len bs); [done|].
  etrans; [apply IH|]. rewrite length_drop. lia.
Qed.

Lemma trim_bytes_length bs : (length (trim_bytes bs) <= length bs)%nat.
Proof.
  unfold trim_bytes. rewrite length_reverse. etrans; [apply trim_by_length|]. rewrite length_reverse. apply trim_by_length.
Qed.

(** The strings of a JSON text are shorter than the text, and so is what base64
    decodes to: the recursion ends before its fuel does. *)
Lemma parse_signature_fuel from_str b64 n m raw :
  (forall s v k t, from_str s = Some v -> get_str k v = Some t -> (length t < length s)%nat) ->
  (forall s d, b64 s = Some d -> (length d <= length s)%nat) ->
  (length raw <= n)%nat -> (length raw <= m)%nat -> parse_signature from_str b64 n raw = parse_signature from_str b64 m raw.
Proof.
  intros Hj Hb. revert m raw. induction n as [|n IH]; intros m raw Hn Hm.
  { destruct raw; [|simpl in Hn; lia]. by destruct m. }
  destruct m as [|m]; [destruct raw; [done|simpl in Hm; lia]|].
  cbn [parse_signature]. pose proof (trim_bytes_length raw) as Ht. set (t := trim_bytes raw) in *.
  destruct (no_bytes t) eqn:Et; [done|].
  assert (forall s, (length s < length t)%nat -> parse_signature from_str b64 n s = parse_signature from_str b64 m s) as IH'
    by (intros s Hs; apply IH; lia).
  assert (0 < length t)%nat as Hpos by (destruct t; [done|simpl; lia]).
  destruct (if has_prefix [123] t then from_str t else None) as [v|] eqn:Ej; [destruct v|]; try done.
  all: try (rewrite IH'; [done|]; destruct (has_prefix [123] t); [|done];
    destruct (first_get _ _ ≫= jstr_of) as [sg|] eqn:Eg; [|exact Hpos]; cbn;
    apply bind_Some in Eg as (v & Hv & Hs); unfold first_get in Hv; apply find_map_Some in Hv as (k & _ & Hk);
    apply (Hj t _ k _ Ej); unfold get_str; by rewrite Hk).
  all: destruct (signature_by_prefix t); [done|]; destruct (b64 t) as [[|c d]|] eqn:Ed; try done; cbv zeta;
    destruct (utf8_valid _); [|done]; apply Hb in Ed;
    destruct (strip_prefix _ (trim_bytes (c :: d))) as [inner|] eqn:Es; [|done];
    destruct (has_prefix (bytes_of "sealed.v1.") (trim_bytes inner)); [done|]; rewrite IH'; [done|];
    apply strip_prefix_spec in Es; pose proof (trim_bytes_length (c :: d)) as Hl; rewrite Es, length_app in Hl;
    pose proof (trim_bytes_length inner); cbn in *; lia.
Qed.

(** ** Calls and their answers *)

(** The ids of the calls in a list of prompts, and of the results. *)
Definition called (ps : list DevinPrompt) : list str := ps ≫= fun p => call_ids (dp_tool_calls p).
Definition answer_id (p : DevinPrompt) : list str :=
  if dp_source p =? DEVIN_SOURCE_TOOL_RESULT then [dp_tool_call_id p] else [].
Definition answered_ids (ps : list DevinPrompt) : list str := ps ≫= answer_id.

(** In every prefix, each result answers a call of its own. *)
Definition answers_calls (ps : list DevinPrompt) : Prop := forall a b, ps = a ++ b -> answered_ids a ⊆+ called a.

(** A prompt of one of the three sources; calls are the assistant's. *)
Definition prompt_ok (p : DevinPrompt) : Prop :=
  (dp_source p = DEVIN_SOURCE_USER \/ dp_source p = DEVIN_SOURCE_ASSISTANT \/ dp_source p = DEVIN_SOURCE_TOOL_RESULT) /\
  (is_assistant p = false -> dp_tool_calls p = []).

(** No two assistant prompts in a row, after one if [prev]. *)
Fixpoint alternates (prev : bool) (l : list DevinPrompt) : bool :=
  match l with
  | [] => true
  | p :: l' => negb (prev && is_assistant p) && alternates (is_assistant p) l'
  end.

Definition last_assistant (prev : bool) (l : list DevinPrompt) : bool := match last l with Some p => is_assistant p | None => prev end.

Record turn_ok (ps : list DevinPrompt) (pending : list str) : Prop := {
  to_prompts : Forall prompt_ok ps;
  to_account : pending ++ answered_ids ps ≡ₚ called ps;
  to_answers : answers_calls ps;
  to_alternates : alternates false ps = true
}.

Lemma called_app a b : called (a ++ b) = called a ++ called b.
Proof. apply bind_app. Qed.

Lemma answered_app a b : answered_ids (a ++ b) = answered_ids a ++ answered_ids b.
Proof. apply bind_app. Qed.

Lemma call_ids_app a b : call_ids (a ++ b) = call_ids a ++ call_ids b.
Proof. unfold call_ids. by rewrite fmap_app, filter_app. Qed.

Lemma last_assistant_cons prev p l : last_assistant (is_assistant p) l = last_assistant prev (p :: l).
Proof. unfold last_assistant. rewrite last_cons. by destruct (last l). Qed.

Lemma alternates_app prev a b : alternates prev (a ++ b) = alternates prev a && alternates (last_assistant prev a) b.
Proof.
  revert prev. induction a as [|p a IH]; intros prev; cbn [app alternates]; [done|].
  by rewrite IH, andb_assoc, last_assistant_cons with (prev := prev).
Qed.

Lemma prefix_snoc {A} (l a b : list A) x : l ++ [x] = a ++ b -> a = l ++ [x] \/ exists b', l = a ++ b'.
Proof.
  intros H. destruct b as [|y b] using rev_ind; [left; by rewrite app_nil_r in H|]. right. exists b.
  rewrite app_assoc in H. by apply app_inj_2 in H as [-> _].
Qed.

(** One prompt more, in the same accounts. *)
Lemma turn_ok_snoc ps pending pending' p :
  turn_ok ps pending -> prompt_ok p -> last_assistant false ps && is_assistant p = false ->
  pending' ++ answered_ids (ps ++ [p]) ≡ₚ called (ps ++ [p]) -> turn_ok (ps ++ [p]) pending'.
Proof.
  intros [H1 H2 H3 H4] Hp Hl Hacc. split; [|done| |].
  - apply Forall_app. split; [done|]. by constructor.
  - intros a b Hab. apply prefix_snoc in Hab as [->|[b' ->]]; [|by apply (H3 a b')].
    rewrite <- Hacc. apply submseteq_inserts_l. reflexivity.
  - rewrite alternates_app, H4. cbn. by rewrite Hl.
Qed.

Lemma remove_first_perm id l r : remove_first_id id l = Some r -> l ≡ₚ id :: r.
Proof.
  revert r. induction l as [|x l IH]; intros r; cbn; [done|]. case_bool_decide as H; [intros [= <-]; by subst|].
  intros (r' & Hr & ->)%fmap_Some. rewrite (IH _ Hr). apply Permutation_swap.
Qed.

Lemma match_result_perm provided pending o rest :
  match_result provided pending = (o, rest) -> pending ≡ₚ option_list o ++ rest.
Proof.
  unfold match_result. destruct (no_bytes provided).
  - destruct pending; by intros [= <- <-].
  - destruct (remove_first_id provided pending) as [r|] eqn:E; intros [= <- <-]; [|done]. by apply remove_first_perm.
Qed.

Section steps.
Variable from_str : str -> option Json.
Variable to_string : Json -> str.
Variable b64 : str -> option str.

Notation st_ok s := (turn_ok (dt_prompts (ts_turn s)) (ts_pending s)).

Lemma map_system_ok msg s : st_ok s -> st_ok (map_system from_str to_string b64 msg s).
Proof using Type. intros H. unfold map_system. repeat case_match; done. Qed.

(** A user prompt is in nobody's accounts. *)
Lemma user_prompt_ok ps pending p :
  turn_ok ps pending -> dp_source p = DEVIN_SOURCE_USER -> dp_tool_calls p = [] -> turn_ok (ps ++ [p]) pending.
Proof using Type.
  intros H Hs Hc. apply turn_ok_snoc with pending; [done|split; [by left|done]|..].
  - unfold is_assistant. rewrite Hs. apply andb_false_r.
  - rewrite answered_app, called_app. unfold answered_ids at 2, called at 2. cbn. unfold answer_id. rewrite Hs, Hc. cbn.
    rewrite !app_nil_r. apply (to_account _ _ H).
Qed.

Lemma map_user_ok fresh msg s : st_ok s -> st_ok (map_user from_str to_string b64 fresh msg s).
Proof using Type. intros H. by apply user_prompt_ok. Qed.

Lemma map_tool_ok fresh msg s : st_ok s -> st_ok (map_tool from_str to_string b64 fresh msg s).
Proof using Type.
  intros H. unfold map_tool. cbv zeta. destruct (match_result _ _) as [o rest] eqn:E. apply match_result_perm in E.
  destruct o as [id|]; cbn [push_prompt ts_turn dt_prompts ts_pending option_list app] in *.
  - apply turn_ok_snoc with (ts_pending s); [done|split; [by right; right|done]|apply andb_false_r|].
    rewrite answered_app, called_app. unfold answered_ids at 2, called at 2. cbn. rewrite app_nil_r.
    rewrite <- (to_account _ _ H), E. rewrite app_assoc. cbn. by rewrite <- Permutation_cons_append.
  - apply user_prompt_ok; [|done|done]. destruct H as [H1 H2 H3 H4]. split; try done. by rewrite <- E.
Qed.

(** An assistant prompt that takes in a message: the accounts grow together. *)
Lemma grow_last_ok init l l' pending new :
  turn_ok (init ++ [l]) pending -> is_assistant l = true -> dp_source l' = dp_source l ->
  dp_tool_calls l' = dp_tool_calls l ++ new -> turn_ok (init ++ [l']) (pending ++ call_ids new).
Proof using Type.
  intros [H1 H2 H3 H4] Hl Hs Hc. apply Forall_app in H1 as [Hi Hl1].
  assert (is_assistant l' = true) as Hl' by (unfold is_assistant in *; by rewrite Hs).
  assert (answer_id l = [] /\ answer_id l' = []) as [Ea Ea'].
  { unfold answer_id. rewrite Hs. unfold is_assistant in Hl. apply Z.eqb_eq in Hl. by rewrite Hl. }
  rewrite answered_app, called_app in H2. unfold answered_ids at 2, called at 2 in H2. cbn in H2. rewrite Ea, !app_nil_r in H2.
  rewrite alternates_app in H4. apply andb_true_iff in H4 as [H4 H4'].
  split.
  - apply Forall_app. split; [done|]. constructor; [|constructor]. split; [|by rewrite Hl'].
    apply Forall_cons_1 in Hl1 as [[Hsrc _] _]. by rewrite Hs.
  - rewrite answered_app, called_app. unfold answered_ids at 2, called at 2. cbn. rewrite Ea', Hc, call_ids_app, !app_nil_r.
    rewrite app_assoc, <- H2. rewrite <- !app_assoc. f_equiv. apply Permutation_app_comm.
  - intros a b Hab. apply prefix_snoc in Hab as [->|[b' ->]].
    + specialize (H3 (init ++ [l]) [] ltac:(by rewrite app_nil_r)). rewrite answered_app, called_app in H3 |- *.
      unfold answered_ids at 2, called at 2 in H3. unfold answered_ids at 2, called at 2. cbn in *.
      rewrite Ea, !app_nil_r in H3. rewrite Ea', Hc, call_ids_app, !app_nil_r. etrans; [exact H3|]. rewrite app_assoc.
      apply submseteq_inserts_r. reflexivity.
    + apply (H3 a (b' ++ [l])). by rewrite app_assoc.
  - rewrite alternates_app, H4. cbn in *. rewrite Hl in H4'. by rewrite Hl'.
Qed.

Lemma map_assistant_ok fresh msg s : st_ok s -> st_ok (map_assistant from_str to_string b64 fresh msg s).
Proof using Type.
  intros H. unfold map_assistant. destruct (assistant_extras _ _ _) as [acc [es et]].
  destruct (if no_bytes (pa_signature acc) then _ else _) as [sg sgt]. cbv zeta. cbn [ts_turn dt_prompts ts_pending].
  set (calls := omap _ _). set (ps := dt_prompts (ts_turn s)) in *.
  assert (forall p, dp_source p = DEVIN_SOURCE_ASSISTANT -> dp_tool_calls p = calls -> last_assistant false ps = false ->
    turn_ok (ps ++ [p]) (ts_pending s ++ call_ids calls)) as Hnew.
  { intros p Hs Hc Hl. apply turn_ok_snoc with (ts_pending s); [done|split; [by right; left|]|by rewrite Hl|].
    - unfold is_assistant. by rewrite Hs.
    - rewrite answered_app, called_app. unfold answered_ids at 2, called at 2. cbn. unfold answer_id. rewrite Hs, Hc. cbn.
      rewrite !app_nil_r, <- (to_account _ _ H). rewrite <- !app_assoc. f_equiv. apply Permutation_app_comm. }
  destruct (last ps) as [l|] eqn:El; [|by apply Hnew; [| |unfold last_assistant; rewrite El]].
  fold (is_assistant l). destruct (is_assistant l) eqn:Ea; [|by apply Hnew; [| |unfold last_assistant; rewrite El]].
  apply last_Some in El as [init El]. rewrite El in H |- *.
  replace (take (length (init ++ [l]) - 1) (init ++ [l])) with init
    by (rewrite length_app; cbn; by rewrite Nat.add_sub, take_app_length).
  by apply grow_last_ok with l.
Qed.

Lemma map_message_ok s m : st_ok s -> st_ok (map_message from_str to_string b64 s m).
Proof using Type.
  intros H. destruct m as [fresh msg]. unfold map_message. destruct (_ || _); [by apply map_system_ok|].
  destruct (String.eqb _ _); [by apply map_assistant_ok|]. destruct (_ || _); [by apply map_tool_ok|by apply map_user_ok].
Qed.

Lemma map_messages_ok ms s : st_ok s -> st_ok (foldl (map_message from_str to_string b64) s ms).
Proof using Type. revert s. induction ms as [|m ms IH]; intros s H; [done|]. cbn [foldl]. by apply IH, map_message_ok. Qed.

End steps.

(** ** Turns with nothing to send *)

Lemma split_run_spec l run rest : split_run l = (run, rest) ->
  l = run ++ rest /\ Forall (fun p => is_assistant p = false) run /\ (forall p, head rest = Some p -> is_assistant p = true).
Proof.
  revert run rest. induction l as [|p l IH]; intros run rest; cbn [split_run]; [by intros [= <- <-]|].
  destruct (is_assistant p) eqn:E.
  - intros [= <- <-]. split; [done|]. split; [constructor|]. by intros p' [= <-].
  - destruct (split_run l) as [run' rest'] eqn:El. intros [= <- <-]. destruct (IH run' rest' eq_refl) as (-> & H1 & H2).
    split; [done|]. by split; [constructor|].
Qed.

(** A run is left with something unless all of it is media that cannot be sent. *)
Lemma scan_run_spec run d b d' b' : foldl scan_run (d, b) run = (d', b') ->
  (b' = false -> b = false /\ Forall (fun p => is_media_only_user_turn p = true) run) /\
  (b' = true -> b = true \/ exists p, p ∈ run /\ is_media_only_user_turn p = false) /\
  (d' = None -> d = None /\ Forall (fun p => is_media_only_user_turn p = false) run) /\
  (forall t, d' = Some t -> d = Some t \/ (d = None /\ exists p, p ∈ run /\ is_media_only_user_turn p = true /\ dp_dropped_part p = Some t)).
Proof.
  revert d b. induction run as [|p run IH]; intros d b; cbn [foldl].
  { intros [= <- <-]. repeat split; auto. }
  unfold scan_run at 2. destruct (is_media_only_user_turn p) eqn:E; intros (H1 & H2 & H3 & H4)%IH.
  - assert (exists t, dp_dropped_part p = Some t) as [t Ht].
    { unfold is_media_only_user_turn in E. destruct (dp_dropped_part p) as [t|]; [by exists t|].
      by rewrite andb_false_r in E. }
    split; [|split; [|split]].
    + intros Hb. destruct (H1 Hb) as [-> Hf]. split; [done|]. by constructor.
    + intros Hb. destruct (H2 Hb) as [->|(q & Hq & Hm)]; [by left|]. right. exists q. split; [by right|done].
    + intros Hd. destruct (H3 Hd) as [Hd' _]. rewrite Ht in Hd'. by destruct d.
    + intros u Hu. destruct (H4 u Hu) as [Hd|(Hd & q & Hq & Hm)].
      * destruct d; [by left|]. right. split; [done|]. exists p. split; [by left|]. done.
      * rewrite Ht in Hd. by destruct d.
  - split; [|split; [|split]].
    + intros Hb. by destruct (H1 Hb) as [? _].
    + intros _. right. exists p. split; [by left|done].
    + intros Hd. destruct (H3 Hd) as [-> Hf]. split; [done|]. by constructor.
    + intros u Hu. destruct (H4 u Hu) as [->|(-> & q & Hq & Hm)]; [by left|]. right. split; [done|]. exists q. split; [by right|done].
Qed.

Lemma assistant_sendable p : is_assistant p = true -> sendable_turn p.
Proof.
  unfold is_assistant, sendable_turn, is_media_only_user_turn. intros H%Z.eqb_eq. by rewrite H.
Qed.

Lemma alternates_run prev run rest : Forall (fun p => is_assistant p = false) run -> run <> [] ->
  alternates prev (run ++ rest) = alternates false rest.
Proof.
  intros H. revert prev. induction H as [|p run Hp _ IH]; intros prev Hne; [done|]. cbn [app alternates].
  rewrite Hp, andb_false_r. cbn [negb andb]. destruct run as [|q run]; [done|]. by apply IH.
Qed.

(** A refusal names a part of a run that holds nothing else. *)
Definition refused (ps : list DevinPrompt) (e : str) : Prop :=
  exists a run b, ps = a ++ run ++ b /\ run <> [] /\ Forall (fun p => is_media_only_user_turn p = true) run /\
    (exists p, p ∈ run /\ dp_dropped_part p = Some e) /\
    (forall p, last a = Some p -> is_assistant p = true) /\ (forall p, head b = Some p -> is_assistant p = true).

Lemma check_runs_spec fuel prev ps pre :
  (length ps <= fuel)%nat -> alternates prev ps = true ->
  (forall p, last pre = Some p -> is_assistant p = true \/ match ps with q :: _ => is_assistant q = true | [] => True end) ->
  match check_runs fuel ps with
  | None => alternates prev (filter sendable_turn ps) = true
  | Some e => refused (pre ++ ps) e
  end.
Proof.
  revert prev ps pre. induction fuel as [|fuel IH]; intros prev ps pre Hf Ha Hpre; cbn [check_runs].
  { destruct ps; [done|simpl in Hf; lia]. }
  destruct ps as [|p ps]; [done|]. destruct (is_assistant p) eqn:Ep.
  - cbn [alternates] in Ha. apply andb_true_iff in Ha as [Hn Ha].
    specialize (IH (is_assistant p) ps (pre ++ [p])). rewrite <- app_assoc in IH. cbn [app] in IH.
    rewrite filter_cons_True by (by apply assistant_sendable). cbn [alternates]. rewrite Hn. cbn [andb].
    apply IH; [simpl in Hf; lia|done|]. intros q Hq. rewrite last_snoc in Hq. injection Hq as <-. by left.
  - destruct (split_run (p :: ps)) as [run rest] eqn:Er. pose proof Er as Er'. apply split_run_spec in Er' as (Hps & Hrun & Hrest).
    assert (run <> []) as Hne by (cbn [split_run] in Er; rewrite Ep in Er; destruct (split_run ps); injection Er as <- _; done).
    rewrite Hps in Ha |- *. rewrite alternates_run in Ha by done.
    assert (length rest <= fuel)%nat as Hlr.
    { apply (f_equal length) in Hps. rewrite length_app in Hps. destruct run; [done|]. simpl in *. lia. }
    assert (filter sendable_turn run <> [] -> match check_runs fuel rest with
      | None => alternates prev (filter sendable_turn (run ++ rest)) = true | Some e => refused (pre ++ run ++ rest) e end) as Hgo.
    { intros Hk. specialize (IH false rest (pre ++ run) Hlr Ha). rewrite <- app_assoc in IH.
      assert (match check_runs fuel rest with None => alternates false (filter sendable_turn rest) = true
        | Some e => refused (pre ++ run ++ rest) e end) as IH'.
      { apply IH. intros q _. right. destruct rest; [done|]. by apply Hrest. }
      destruct (check_runs fuel rest); [done|]. rewrite filter_app, alternates_run; [done| |done].
      apply Forall_forall. intros q Hq. apply list_elem_of_filter in Hq as [_ Hq]. rewrite Forall_forall in Hrun. by apply Hrun. }
    destruct (foldl scan_run (None, false) run) as [d b] eqn:Es. apply scan_run_spec in Es as (S1 & S2 & S3 & S4).
    assert (b = true -> filter sendable_turn run <> []) as Hbt.
    { intros Hb. destruct (S2 Hb) as [?|(q & Hq & Hm)]; [done|]. intros Hn.
      assert (q ∈ filter sendable_turn run) as Hin by (by apply list_elem_of_filter). rewrite Hn in Hin. by apply elem_of_nil in Hin. }
    destruct d as [t|], b; try (by apply Hgo, Hbt).
    + destruct (S1 eq_refl) as [_ Hall]. exists pre, run, rest. split; [done|]. split; [done|]. split; [done|].
      split; [|split; [|done]].
      * destruct (S4 t eq_refl) as [?|(_ & q & Hq & _ & Hd)]; [done|]. by exists q.
      * intros q Hq. destruct (Hpre q Hq) as [?|Hc]; [done|]. done.
    + destruct (S3 eq_refl) as [_ Hall]. apply Hgo. destruct run as [|q run]; [done|]. apply Forall_cons_1 in Hall as [Hq _].
      by rewrite filter_cons_True.
Qed.

Lemma filter_prefix {A} (P : A -> Prop) `{!forall x, Decision (P x)} (l a b : list A) :
  filter P l = a ++ b -> exists a0 b0, l = a0 ++ b0 /\ filter P a0 = a.
Proof.
  revert a b. induction l as [|x l IH]; intros a b Hf.
  - exists [], []. symmetry in Hf. by apply app_eq_nil in Hf as [-> _].
  - destruct (decide (P x)) as [Hx|Hx].
    + rewrite filter_cons_True in Hf by done. destruct a as [|y a]; [by exists [], (x :: l)|]. cbn in Hf. injection Hf as -> Hf.
      destruct (IH a b Hf) as (a0 & b0 & -> & <-). exists (y :: a0), b0. by rewrite filter_cons_True.
    + rewrite filter_cons_False in Hf by done. destruct (IH a b Hf) as (a0 & b0 & -> & <-). exists (x :: a0), b0.
      by rewrite filter_cons_False.
Qed.

(** The turns that are dropped neither call nor answer. *)
Lemma filter_accounts ps : Forall prompt_ok ps ->
  answered_ids (filter sendable_turn ps) = answered_ids ps /\ called (filter sendable_turn ps) = called ps.
Proof.
  induction 1 as [|p ps [_ Hp] _ [IH1 IH2]]; [done|]. destruct (decide (sendable_turn p)) as [Hs|Hs].
  - rewrite filter_cons_True by done. unfold answered_ids, called in *. by rewrite !bind_cons, IH1, IH2.
  - rewrite filter_cons_False by done. unfold answered_ids, called in *. rewrite !bind_cons, IH1, IH2.
    apply not_false_iff_true in Hs. unfold is_media_only_user_turn in Hs. rewrite !andb_true_iff in Hs. destruct Hs as [[[Hu _] _] _].
    unfold answer_id, is_assistant in *. apply Z.eqb_eq in Hu. rewrite Hu in *. by rewrite Hp.
Qed.

(** ** Theorem *)

(** C25. The prompts of a Devin request are well formed for every conversation.
    Each tool result answers a call made before it, and no call is answered
    twice; no two assistant prompts follow each other; exactly the turns that
    held only media that cannot be sent are left out.  A conversation is refused
    only for a whole run of such turns between two assistant prompts, and the
    refusal names the kind of one of them. *)
Theorem devin_turns_well_formed from_str to_string b64 ms :
  let mapped := dt_prompts (ts_turn (foldl (map_message from_str to_string b64) (mkTurnState (mkDevinTurn [] []) []) ms)) in
  match map_openai_turn from_str to_string b64 ms with
  | inr turn =>
      answers_calls (dt_prompts turn) /\ alternates false (dt_prompts turn) = true /\
      dt_prompts turn = filter sendable_turn mapped
  | inl part_type => refused mapped part_type
  end.
Proof.
  cbv zeta. unfold map_openai_turn, apply_user_turn_policy. cbv zeta.
  pose proof (map_messages_ok from_str to_string b64 ms (mkTurnState (mkDevinTurn [] []) [])) as H.
  destruct H as [H1 H2 H3 H4].
  { split; [constructor|done| |done]. intros a b E. symmetry in E. by apply app_eq_nil in E as [-> _]. }
  set (ps := dt_prompts _) in *. pose proof (check_runs_spec (length ps) false ps [] ltac:(lia) H4 ltac:(done)) as Hc.
  destruct (check_runs (length ps) ps) as [e|]; [done|]. cbn [dt_prompts]. split; [|done].
  intros a b Hab. apply filter_prefix in Hab as (a0 & b0 & E & <-).
  assert (Forall prompt_ok a0) as Ha0 by (rewrite E in H1; by apply Forall_app in H1 as [? _]).
  destruct (filter_accounts a0 Ha0) as [-> ->]. by apply (H3 a0 b0).
Qed.
