(* ===== verification/DevinRequest.v ===== *)
(** * Devin: the request

    [build_devin_request] of [openproxy-adapters/src/adapters/devin/wire.rs], the
    tool definitions of [tools.rs], and the identity helpers: what is written
    into the request and how it reads back.

    The model tables ([models.rs]), the digest, the fresh ids and the platform's
    name are parameters. *)

From Stdlib Require Import String.
From stdpp Require Import pretty.
From S2P Require Import Prelude Text Bytes Framing Protobuf DevinWire DevinFrames DevinTurn.

(** ** Tools *)

Record DevinTool := mkDevinTool { dtl_name : str; dtl_description : str; dtl_parameters : str }.

Definition encode_tool (t : DevinTool) : str :=
  append_string 1 (dtl_name t) ++ append_string 2 (dtl_description t)
  ++ append_if (negb (no_bytes (dtl_parameters t))) (append_bytes 3 (dtl_parameters t)).

Definition is_devin_codex_app_automation_update (name namespace : str) : bool :=
  eq_ignore_ascii_case name (bytes_of "mcp__codex_app__automation_update")
  || (eq_ignore_ascii_case namespace (bytes_of "mcp__codex_app") && eq_ignore_ascii_case name (bytes_of "automation_update")).

(** [windows(n).position(eq_ignore_ascii_case)]. *)
Fixpoint needle_position (needle s : str) : option nat :=
  if (length s <? length needle)%nat then None
  else if eq_ignore_ascii_case (take (length needle) s) needle then Some 0%nat
  else match s with [] => None | _ :: s' => S <$> needle_position needle s' end.

Definition replace_case_insensitive (haystack needle replacement : str) : str :=
  match needle_position needle haystack with
  | None => haystack
  | Some pos => take pos haystack ++ replacement ++ drop (pos + length needle) haystack
  end.

(** [str::replace]. *)
Fixpoint replace_all (fuel : nat) (from to s : str) : str :=
  match fuel with
  | O => s
  | S f =>
      match find_sub from s with
      | None => s
      | Some i => take i s ++ to ++ replace_all f from to (drop (i + length from) s)
      end
  end.

Definition str_replace (s from to : str) : str := replace_all (length s) from to s.

Definition ends_with_bytes (suffix s : str) : bool := has_prefix (reverse suffix) (reverse s).

Definition TASK_ID_NEEDLE : str := bytes_of "Takes a task_id parameter identifying the task".
Definition STDIN_NEEDLE : str := bytes_of "Writes characters to an existing unified exec session and returns recent output".
Definition STDIN_REPL : str := bytes_of "Writes characters to a existing unified exec session and returns recent output".

Definition sanitize_devin_tool_description (name description : str) : str :=
  let description :=
    if contains_bytes TASK_ID_NEEDLE description
    then str_replace description TASK_ID_NEEDLE (bytes_of "Takes a taskId parameter identifying the task") else description in
  let lname := lower <$> name in
  if ends_with_bytes (bytes_of "exec_command") lname || ends_with_bytes (bytes_of "__exec_command") lname then
    replace_case_insensitive description (bytes_of "returning output or a session ID for ongoing interaction")
      (bytes_of "returning output or an session ID for ongoing interaction")
  else if ends_with_bytes (bytes_of "write_stdin") lname || ends_with_bytes (bytes_of "__write_stdin") lname then
    let replaced := replace_case_insensitive description (STDIN_NEEDLE ++ bytes_of ".") (STDIN_REPL ++ bytes_of ".") in
    if bool_decide (replaced = description) then replace_case_insensitive description STDIN_NEEDLE STDIN_REPL else replaced
  else description.

(** One turn of the loop of [collect_devin_tools]. *)
Definition collect_devin_tool (to_vec : Json -> str) (tool : Json) : option DevinTool :=
  match tool with
  | JObj _ =>
      let name := trim_bytes (default [] (function_field "name" tool ≫= jstr_of)) in
      if no_bytes name then None
      else
        let namespace := default [] (function_field "namespace" tool ≫= jstr_of) in
        if is_devin_codex_app_automation_update name namespace then None
        else
          let description := default [] (function_field "description" tool ≫= jstr_of) in
          let parameters := match function_field "parameters" tool with
                            | Some p => Some p
                            | None => json_get "parametersJsonSchema" tool
                            end in
          Some (mkDevinTool name (sanitize_devin_tool_description name description)
                  (match parameters with Some p => to_vec p | None => [] end))
  | _ => None
  end.

Definition collect_devin_tools (to_vec : Json -> str) (tools : list Json) : list DevinTool := omap (collect_devin_tool to_vec) tools.

(** ** Identity *)

Definition basic_auth (token : str) : str := bytes_of "Basic " ++ token ++ bytes_of "-" ++ token.

(** [format!("{b:02x}")]. *)
Definition hex_char (d : Z) : Z := if d <? 10 then 48 + d else 87 + d.
Definition hex_lower (bytes : str) : str := bytes ≫= fun b => [hex_char (b / 16); hex_char (b mod 16)].

Definition DEVICE_FINGERPRINT_LEN : nat := 732.

Fixpoint fingerprint_loop (digest : str -> str) (fuel : nat) (seed : str) (counter : Z) (out : str) : str :=
  match fuel with
  | O => out
  | S f =>
      if (length out <? DEVICE_FINGERPRINT_LEN)%nat
      then fingerprint_loop digest f seed (counter + 1) (out ++ hex_lower (digest (seed ++ bytes_of "-" ++ bytes_of (pretty counter))))
      else out
  end.

(** [device_fingerprint] of a seed; [random] stands for the hex of the fresh ids. *)
Definition device_fingerprint (digest : str -> str) (random seed : str) : str :=
  let seed := trim_bytes seed in
  if no_bytes seed then take DEVICE_FINGERPRINT_LEN random
  else take DEVICE_FINGERPRINT_LEN (fingerprint_loop digest DEVICE_FINGERPRINT_LEN seed 0 []).

Definition normalize_devin_uuid (parse_ok : str -> bool) (fresh : str) (digest : str -> str) (to_text : str -> str) (raw : str) : str :=
  let raw := trim_bytes raw in
  if no_bytes raw then fresh
  else if parse_ok raw then raw
  else
    let bytes := take 16 (digest raw) in
    let bytes := alter (fun b => Z.lor (Z.land b 15) 80) 6%nat bytes in
    let bytes := alter (fun b => Z.lor (Z.land b 63) 128) 8%nat bytes in
    to_text bytes.

(** ** The system prompt *)

Definition ATTRIBUTION_PREFIX : str := bytes_of "x-anthropic-billing-header:".

(** The needles; the last one holds a right quotation mark and a dash in UTF-8. *)
Definition STRIPPED_NEEDLES : list str :=
  (bytes_of <$> ["You are Claude Code"; "authorized security testing"; "destructive techniques, DoS attacks";
                 "Claude Code is available as a CLI"; "Fast mode for Claude Code";
                 "Codex refers to the open-source agentic coding interface"]%string)
  ++ [bytes_of "- Don" ++ [226; 128; 153] ++ bytes_of "t output ANSI escape codes directly " ++ [226; 128; 148]
      ++ bytes_of " the CLI renderer applies them."].

Definition keeps_line (line : str) : bool :=
  let trimmed := trim_by ws_len (length line) line in
  negb (has_prefix ATTRIBUTION_PREFIX trimmed) && negb (existsb (fun n => contains_bytes n trimmed) STRIPPED_NEEDLES).

Definition sanitize_devin_system_prompt (prompt : str) : str :=
  let normalized := str_replace prompt [13; 10] [10] in
  trim_bytes (join [10] (List.filter keeps_line (split_byte 10 normalized))).

(** ** Numbers *)

Definition DEVIN_DEFAULT_MAX_TOKENS : Z := 128000.

(** [models::devin_max_completion_tokens_for] gives [cap]. *)
Definition resolve_max_tokens (max_tokens extra : option Z) (cap : option Z) : Z :=
  let requested := default 0 (match max_tokens with Some n => Some n | None => extra end) in
  match cap with
  | Some cap => if (requested =? 0) || (cap <? requested) then cap else requested
  | None => if requested =? 0 then DEVIN_DEFAULT_MAX_TOKENS else requested
  end.

Definition F32_ONE : Z := 1065353216.             (* 1.0 *)
Definition F32_095 : Z := 1064514355.             (* 0.95 *)
Definition DEVIN_MIN_TEMPERATURE : Z := 953267991. (* 0.0001 *)

(** [x <= 0.0] on the bits of an [f32]. *)
Definition f32_le_zero (bits : Z) : bool :=
  let mag := bits mod 2 ^ 31 in
  (mag =? 0) || ((2 ^ 31 <=? bits) && (mag <=? 255 * 2 ^ 23)).

(** [f64::from(x).to_bits()]. *)
Definition f32_to_f64_bits (bits : Z) : Z :=
  let sign := (bits / 2 ^ 31) * 2 ^ 63 in
  let e := (bits / 2 ^ 23) mod 256 in
  let m := bits mod 2 ^ 23 in
  if e =? 255 then sign + 2047 * 2 ^ 52 + (if m =? 0 then 0 else Z.lor m (2 ^ 22)) * 2 ^ 29
  else if e =? 0 then
    if m =? 0 then sign
    else let k := Z.log2 m in sign + (k + 874) * 2 ^ 52 + (m - 2 ^ k) * 2 ^ (52 - k)
  else sign + (e + 896) * 2 ^ 52 + m * 2 ^ 29.

Definition request_temperature (temperature : option Z) : Z :=
  let t := default F32_ONE temperature in
  if f32_le_zero t then DEVIN_MIN_TEMPERATURE else t.

(** ** The request *)

(** The fields of an [OpenAIRequest] the builder reads; each message with the id
    its prompt would get. *)
Record DevinInput := mkDevinInput {
  in_messages : list (str * TurnMessage); in_tools : option (list Json); in_max_tokens : option Z;
  in_temperature : option Z; in_extra : list (string * Json)
}.

(** [Value::as_u64]. *)
Definition json_u64 (v : Json) : option Z :=
  match v with JInt n => if (0 <=? n) && (n <=? u64_max) then Some n else None | _ => None end.

Definition resolve_session_id (extra : list (string * Json)) : option str :=
  find_map (fun k => match assoc_get k extra ≫= jstr_of with
                     | Some v => if no_bytes (trim_bytes v) then None else Some (trim_bytes v)
                     | None => None
                     end) ["session_id"; "sessionId"; "conversation_id"; "previous_interaction_id"]%string.

Definition extra_max_tokens (extra : list (string * Json)) : option Z :=
  find_map (fun k => assoc_get k extra) ["max_completion_tokens"; "max_output_tokens"; "max_tokens"]%string ≫= json_u64.

Definition thinking_hints (extra : list (string * Json)) : str * Z :=
  let level := default [] (assoc_get "thinking_level" extra ≫= jstr_of) in
  let budget := match assoc_get "thinking_config" extra ≫= json_get "thinking_budget" with
                | Some v => Some v
                | None => assoc_get "thinking_budget" extra
                end in
  (level, default 0 (budget ≫= json_as_i64)).

Definition DEVIN_CLIENT_NAME : str := bytes_of "chisel".
Definition DEVIN_CLIENT_VERSION : str := bytes_of "3000.10.21".
Definition DEVIN_LOCALE : str := bytes_of "en".

Definition encode_client_metadata (goos fingerprint token : str) : str :=
  append_string 1 DEVIN_CLIENT_NAME ++ append_string 2 DEVIN_CLIENT_VERSION ++ append_string 3 token
  ++ append_string 4 DEVIN_LOCALE ++ append_string 5 goos ++ append_string 7 DEVIN_CLIENT_VERSION
  ++ append_string 12 DEVIN_CLIENT_NAME ++ append_string 31 fingerprint.

Definition build_user_status_request (goos fingerprint token : str) : str :=
  append_message 1 (encode_client_metadata goos fingerprint token).

(** The block of field 8; [temperature] is the one of the request, if it has one. *)
Definition encode_generation_config (max_tokens : Z) (temperature : option Z) : str :=
  append_varint_field 1 1 ++ append_varint_field 2 max_tokens ++ append_varint_field 3 400
  ++ append_fixed64 5 (f32_to_f64_bits (request_temperature temperature)) ++ append_varint_field 7 40 ++ append_fixed64 8 (f32_to_f64_bits F32_095).

(** Field 4 of the session: the last prompt opens a user turn. *)
Definition opens_user_turn (prompts : list DevinPrompt) (turn_index : Z) : bool :=
  match last prompts with
  | Some p =>
      (dp_source p =? DEVIN_SOURCE_USER)
      && ((turn_index =? 0) || (length prompts <? 2)%nat
          || match prompts !! (length prompts - 2)%nat with Some q => negb (dp_source q =? DEVIN_SOURCE_USER) | None => false end)
  | None => false
  end.

Definition encode_session (session_id : str) (turn_index : Z) (prompts : list DevinPrompt) : str :=
  append_string 1 session_id ++ append_if (0 <? turn_index) (append_varint_field 2 turn_index) ++ append_varint_field 3 4
  ++ append_if (opens_user_turn prompts turn_index) (append_varint_field 4 14).

(** [restore_devin_tool_call_ids]. *)
Definition restore_prompt (decode : str -> str) (p : DevinPrompt) : DevinPrompt :=
  mkDevinPrompt (dp_message_id p) (dp_source p) (dp_content p)
    ((fun tc => mkDevinToolCall (decode (tcl_id tc)) (tcl_name tc) (tcl_arguments tc)) <$> dp_tool_calls p)
    (decode (dp_tool_call_id p)) (dp_images p) (dp_thinking p) (dp_signature p) (dp_signature_type p)
    (dp_is_orphaned p) (dp_dropped_part p).

(** What is read from the input before anything is written. *)
Record DevinRequest := mkDevinRequest {
  rq_token : str; rq_system : str; rq_prompts : list DevinPrompt; rq_max_tokens : Z; rq_temperature : option Z;
  rq_tools : list DevinTool; rq_session_id : str; rq_turn_index : Z; rq_model_uid : str
}.

(** The body, field by field. *)
Definition encode_request (goos fingerprint : str) (r : DevinRequest) : str :=
  append_message 1 (encode_client_metadata goos fingerprint (rq_token r))
  ++ append_if (negb (no_bytes (rq_system r))) (append_string 2 (rq_system r))
  ++ (rq_prompts r ≫= fun p => append_message 3 (encode_prompt p))
  ++ append_varint_field 7 5
  ++ append_message 8 (encode_generation_config (rq_max_tokens r) (rq_temperature r))
  ++ (rq_tools r ≫= fun t => append_message 10 (encode_tool t))
  ++ append_message 15 (encode_session (rq_session_id r) (rq_turn_index r) (rq_prompts r))
  ++ append_string 16 (rq_session_id r)
  ++ append_varint_field 20 1
  ++ append_string 21 (rq_model_uid r).

Section build.
Variable from_str : str -> option Json.
Variable to_string : Json -> str.
Variable b64_standard_decode : str -> option str.
Variable b64_encode : str -> str.
Variable b64_decode : str -> option str.
Variable normalize_uuid : str -> str.
Variable chat_model_uid : str -> str -> Z -> str.
Variable max_completion_tokens : str -> option Z.
Variables goos fingerprint : str.

(** [build_devin_request]: what it reads; the session counters are the process's. *)
Definition devin_request (req : DevinInput) (api_key upstream_model : str) (g : SessionTurnCounters)
    : str + DevinRequest * SessionTurnCounters :=
  match map_openai_turn from_str to_string b64_standard_decode (in_messages req) with
  | inl e => inl e
  | inr turn =>
      let prompts := restore_prompt (decode_devin_tool_call_id b64_encode b64_decode) <$> dt_prompts turn in
      let tools := collect_devin_tools to_string (default [] (in_tools req)) in
      let session_id := normalize_uuid (default [] (resolve_session_id (in_extra req))) in
      let '(level, budget) := thinking_hints (in_extra req) in
      let uid := chat_model_uid upstream_model level budget in
      let max_tokens := resolve_max_tokens (in_max_tokens req) (extra_max_tokens (in_extra req)) (max_completion_tokens uid) in
      let '(turn_index, g) := next_devin_session_turn_index session_id g in
      inr (mkDevinRequest api_key (sanitize_devin_system_prompt (dt_system_prompt turn)) prompts max_tokens (in_temperature req)
             tools session_id turn_index uid, g)
  end.

Definition build_devin_request (req : DevinInput) (api_key upstream_model : str) (g : SessionTurnCounters)
    : str + str * SessionTurnCounters :=
  match devin_request req api_key upstream_model g with
  | inl e => inl e
  | inr (r, g) => inr (wrap_connect_envelope (encode_request goos fingerprint r), g)
  end.

End build.

(** ** Reading it back *)

(** A receiver that keeps every field, by the readers of the codec. *)
Definition collect_step (acc : list Field) (field wire : Z) (s : str) : option (list Field * str) :=
  if wire =? WIRE_VARINT then store_value (fun v => acc ++ [VarintField field v]) (varint s)
  else if wire =? WIRE_64BIT then store_value (fun v => acc ++ [Fixed64Field field v]) (fixed64_value s)
  else if wire =? WIRE_LEN then store_value (fun v => acc ++ [LenField field v]) (bytes_value s)
  else if wire =? WIRE_32BIT then store_value (fun v => acc ++ [Fixed32Field field v]) (fixed32_value s)
  else None.

Definition read_fields (s : str) : option (list Field) := parse_fields collect_step [] s.

Lemma collect_consumes : step_consumes collect_step.
Proof. intros acc field wire s acc' r. unfold collect_step. step_cases; try done; solve_consumes. Qed.

Lemma collect_field acc x r : field_ok x ->
  collect_step acc (field_number x) (field_wire x) (field_body x ++ r) = Some (acc ++ [x], r).
Proof.
  intros H. destruct x as [n v|n v|n d|n v]; unfold collect_step; cbn [field_number field_wire].
  - change (WIRE_VARINT =? WIRE_VARINT) with true. cbn beta iota. by rewrite varint_field.
  - change (WIRE_64BIT =? WIRE_VARINT) with false. change (WIRE_64BIT =? WIRE_64BIT) with true. cbn beta iota. by rewrite fixed64_field.
  - change (WIRE_LEN =? WIRE_VARINT) with false. change (WIRE_LEN =? WIRE_64BIT) with false.
    change (WIRE_LEN =? WIRE_LEN) with true. cbn beta iota. by rewrite bytes_field.
  - change (WIRE_32BIT =? WIRE_VARINT) with false. change (WIRE_32BIT =? WIRE_64BIT) with false.
    change (WIRE_32BIT =? WIRE_LEN) with false. change (WIRE_32BIT =? WIRE_32BIT) with true. cbn beta iota. by rewrite fixed32_field.
Qed.

Lemma read_fields_encode fs : Forall field_ok fs -> read_fields (encode_fields fs) = Some fs.
Proof.
  intros Hok. unfold read_fields. rewrite <- (app_nil_r (encode_fields fs)).
  rewrite (parse_fields_encode collect_step (fun acc x => Some (acc ++ [x]))) by (apply collect_consumes || (intros; by apply collect_field) || done).
  assert (forall acc, foldl (fun o x => o ≫= fun a => Some (a ++ [x])) (Some acc) fs = Some (acc ++ fs)) as H.
  { clear. induction fs as [|x fs IH]; intros acc; cbn [foldl]; [by rewrite app_nil_r|]. cbn. by rewrite IH, <- app_assoc. }
  by rewrite H.
Qed.

(** The fields of a prompt, of a tool and of the request. *)
Definition opt_field_list (b : bool) (f : Field) : list Field := if b then [f] else [].

Definition prompt_fields (p : DevinPrompt) (calls images : list str) : list Field :=
  [LenField 1 (dp_message_id p); VarintField 2 (dp_source p); LenField 3 (dp_content p)] ++ (LenField 6 <$> calls)
  ++ opt_field_list (negb (no_bytes (dp_tool_call_id p))) (LenField 7 (dp_tool_call_id p)) ++ (LenField 10 <$> images)
  ++ opt_field_list (negb (no_bytes (dp_thinking p))) (LenField 11 (dp_thinking p))
  ++ opt_field_list (negb (no_bytes (dp_signature p))) (LenField 12 (dp_signature p))
  ++ opt_field_list (negb (no_bytes (dp_signature_type p))) (LenField 18 (dp_signature_type p)).

Definition tool_fields (t : DevinTool) : list Field :=
  [LenField 1 (dtl_name t); LenField 2 (dtl_description t)]
  ++ opt_field_list (negb (no_bytes (dtl_parameters t))) (LenField 3 (dtl_parameters t)).

Definition metadata_fields (goos fingerprint token : str) : list Field :=
  [LenField 1 DEVIN_CLIENT_NAME; LenField 2 DEVIN_CLIENT_VERSION; LenField 3 token; LenField 4 DEVIN_LOCALE; LenField 5 goos;
   LenField 7 DEVIN_CLIENT_VERSION; LenField 12 DEVIN_CLIENT_NAME; LenField 31 fingerprint].

Definition config_fields (max_tokens temperature : Z) : list Field :=
  [VarintField 1 1; VarintField 2 max_tokens; VarintField 3 400; Fixed64Field 5 temperature; VarintField 7 40;
   Fixed64Field 8 (f32_to_f64_bits F32_095)].

Definition session_fields (session_id : str) (turn_index : Z) (prompts : list DevinPrompt) : list Field :=
  [LenField 1 session_id] ++ opt_field_list (0 <? turn_index) (VarintField 2 turn_index) ++ [VarintField 3 4]
  ++ opt_field_list (opens_user_turn prompts turn_index) (VarintField 4 14).

Definition request_fields (meta : str) (system : str) (prompts : list str) (config : str) (tools : list str) (session session_id uid : str) : list Field :=
  [LenField 1 meta] ++ opt_field_list (negb (no_bytes system)) (LenField 2 system) ++ (LenField 3 <$> prompts)
  ++ [VarintField 7 5; LenField 8 config] ++ (LenField 10 <$> tools)
  ++ [LenField 15 session; LenField 16 session_id; VarintField 20 1; LenField 21 uid].

(** What a receiver reads from the bytes of a prompt, of a tool and of a request. *)
Definition call_read (tc : DevinToolCall) (b : str) : Prop :=
  read_fields b = Some [LenField 1 (tcl_id tc); LenField 2 (tcl_name tc); LenField 3 (tcl_arguments tc)].
Definition image_read (i : DevinImage) (b : str) : Prop := read_fields b = Some [LenField 1 (im_data_base64 i); LenField 2 (im_mime i)].

Definition prompt_read (p : DevinPrompt) (b : str) : Prop :=
  exists calls images, read_fields b = Some (prompt_fields p calls images) /\
    Forall2 call_read (dp_tool_calls p) calls /\ Forall2 image_read (dp_images p) images.

Definition tool_read (t : DevinTool) (b : str) : Prop := read_fields b = Some (tool_fields t).

Definition F64_INF : Z := 2047 * 2 ^ 52.

Record request_read (goos fingerprint : str) (r : DevinRequest) (body : str) : Prop := mkRequestRead {
  rr_body : exists meta prompts config tools session,
    read_fields body = Some (request_fields meta (rq_system r) prompts config tools session (rq_session_id r) (rq_model_uid r)) /\
    read_fields meta = Some (metadata_fields goos fingerprint (rq_token r)) /\
    Forall2 prompt_read (rq_prompts r) prompts /\
    (exists t, read_fields config = Some (config_fields (rq_max_tokens r) t) /\ 0 < t <= F64_INF /\
       (forall q, rq_temperature r = Some q -> f32_le_zero q = false -> t = f32_to_f64_bits q)) /\
    Forall2 tool_read (rq_tools r) tools /\
    read_fields session = Some (session_fields (rq_session_id r) (rq_turn_index r) (rq_prompts r))
}.

Lemma encode_fields_app a b : encode_fields (a ++ b) = encode_fields a ++ encode_fields b.
Proof. apply bind_app. Qed.

Lemma encode_fields_one f : encode_fields [f] = encode_field f.
Proof. unfold encode_fields. cbn. apply app_nil_r. Qed.

Lemma encode_fields_opt b f : encode_fields (opt_field_list b f) = append_if b (encode_field f).
Proof. destruct b; [apply encode_fields_one|done]. Qed.

Lemma encode_fields_map {A} (g : A -> Field) l : encode_fields (g <$> l) = l ≫= fun x => encode_field (g x).
Proof. unfold encode_fields. induction l as [|x l IH]; [done|]. by rewrite fmap_cons, !bind_cons, IH. Qed.

Lemma encode_fields_cons f fs : encode_fields (f :: fs) = encode_field f ++ encode_fields fs.
Proof. apply bind_cons. Qed.

Lemma encode_fields_nil : encode_fields [] = [].
Proof. done. Qed.

Definition call_bytes (tc : DevinToolCall) : str := append_string 1 (tcl_id tc) ++ append_string 2 (tcl_name tc) ++ append_string 3 (tcl_arguments tc).
Definition image_bytes (i : DevinImage) : str := append_string 1 (im_data_base64 i) ++ append_string 2 (im_mime i).

Ltac as_fields :=
  rewrite ?encode_fields_app, ?encode_fields_cons, ?encode_fields_opt, ?encode_fields_map, ?encode_fields_nil; cbn [encode_field];
  rewrite <- ?app_assoc, ?app_nil_r; cbn [app].

Lemma encode_prompt_fields p : encode_prompt p = encode_fields (prompt_fields p (call_bytes <$> dp_tool_calls p) (image_bytes <$> dp_images p)).
Proof. unfold prompt_fields, encode_prompt. rewrite <- !list_fmap_compose. by as_fields. Qed.

Lemma encode_tool_fields t : encode_tool t = encode_fields (tool_fields t).
Proof. unfold tool_fields, encode_tool. by as_fields. Qed.

Lemma encode_metadata_fields goos fp token : encode_client_metadata goos fp token = encode_fields (metadata_fields goos fp token).
Proof. unfold metadata_fields, encode_client_metadata. by as_fields. Qed.

Lemma encode_config_fields n t : encode_generation_config n t = encode_fields (config_fields n (f32_to_f64_bits (request_temperature t))).
Proof. unfold config_fields, encode_generation_config. by as_fields. Qed.

Lemma encode_session_fields sid n ps : encode_session sid n ps = encode_fields (session_fields sid n ps).
Proof. unfold session_fields, encode_session. by as_fields. Qed.

Definition body_fields (goos fp : str) (r : DevinRequest) : list Field :=
  request_fields (encode_client_metadata goos fp (rq_token r)) (rq_system r) (encode_prompt <$> rq_prompts r)
    (encode_generation_config (rq_max_tokens r) (rq_temperature r)) (encode_tool <$> rq_tools r)
    (encode_session (rq_session_id r) (rq_turn_index r) (rq_prompts r)) (rq_session_id r) (rq_model_uid r).

Lemma encode_request_fields goos fp r : encode_request goos fp r = encode_fields (body_fields goos fp r).
Proof. unfold body_fields, request_fields, encode_request. rewrite <- !list_fmap_compose. by as_fields. Qed.

Lemma length_encode_field x : (length (field_body x) <= length (encode_field x))%nat.
Proof. rewrite encode_field_split, length_app. lia. Qed.

(** A message within the cap is made of fields within it. *)
Definition field_value_ok (x : Field) : Prop :=
  1 <= field_number x <= u32_max /\
  match x with VarintField _ v | Fixed64Field _ v => 0 <= v <= u64_max | Fixed32Field _ v => 0 <= v <= u32_max | LenField _ _ => True end.

Lemma fields_within fs : Z.of_nat (length (encode_fields fs)) <= u64_max -> Forall field_value_ok fs -> Forall field_ok fs.
Proof.
  intros Hl Hv. induction Hv as [|x fs [Hn Hx] _ IH]; [constructor|]. rewrite encode_fields_cons, length_app in Hl.
  constructor; [|apply IH; lia]. split; [done|]. pose proof (length_encode_field x) as H.
  destruct x as [n v|n v|n d|n v]; [done|done| |done]. cbn [field_body] in H. rewrite length_app in H. lia.
Qed.

Lemma Forall_opt_field (P : Field -> Prop) b f : P f -> Forall P (opt_field_list b f).
Proof. intros H. destruct b; by repeat constructor. Qed.

Ltac field_values :=
  repeat first [ apply Forall_app; split | apply Forall_opt_field | apply Forall_fmap, Forall_forall; intros ? _
               | apply Forall_cons; split | apply Forall_nil ];
  first [ split; [cbn; unfold u32_max; lia|first [exact I|done|cbn; unfold u64_max; lia]] | done ].

Lemma body_values goos fp r : Forall field_value_ok (body_fields goos fp r).
Proof. unfold body_fields, request_fields. field_values. Qed.

Lemma prompt_values p calls images : 0 <= dp_source p <= u64_max -> Forall field_value_ok (prompt_fields p calls images).
Proof. intros H. unfold prompt_fields. field_values. Qed.

Lemma tool_values t : Forall field_value_ok (tool_fields t).
Proof. unfold tool_fields. field_values. Qed.

Lemma in_fields_length x fs : x ∈ fs -> (length (encode_field x) <= length (encode_fields fs))%nat.
Proof.
  intros H. apply list_elem_of_split in H as (a & b & ->). rewrite encode_fields_app, encode_fields_cons, !length_app. lia.
Qed.

Lemma submessage_length n d fs : LenField n d ∈ fs -> (length d <= length (encode_fields fs))%nat.
Proof.
  intros H. pose proof (in_fields_length _ _ H) as Hl. pose proof (length_encode_field (LenField n d)) as Hb.
  cbn [field_body] in Hb. rewrite length_app in Hb. lia.
Qed.

(** A message within a message reads back if the outer one fits. *)
Lemma read_within fs : Z.of_nat (length (encode_fields fs)) <= u64_max -> Forall field_value_ok fs -> read_fields (encode_fields fs) = Some fs.
Proof. intros Hl Hv. by apply read_fields_encode, fields_within. Qed.

Lemma Forall2_fmap_self {A B} (P : A -> B -> Prop) (f : A -> B) l : (forall x, x ∈ l -> P x (f x)) -> Forall2 P l (f <$> l).
Proof.
  induction l as [|x l IH]; intros H; [constructor|]. rewrite fmap_cons. constructor; [apply H; left|apply IH; intros y Hy; apply H; by right].
Qed.

Lemma prompt_reads p : Z.of_nat (length (encode_prompt p)) <= u64_max -> 0 <= dp_source p <= u64_max -> prompt_read p (encode_prompt p).
Proof.
  intros Hl Hs. rewrite encode_prompt_fields in *. eexists _, _. split; [by apply read_within, prompt_values|].
  assert (forall n d, LenField n d ∈ prompt_fields p (call_bytes <$> dp_tool_calls p) (image_bytes <$> dp_images p) -> Z.of_nat (length d) <= u64_max) as Hsub
    by (intros n d H; apply submessage_length in H; lia).
  split; apply Forall2_fmap_self; intros x Hx; unfold call_read, image_read.
  - assert (Z.of_nat (length (call_bytes x)) <= u64_max) as Hc.
    { apply (Hsub 6). unfold prompt_fields. rewrite !elem_of_app. right; left. do 2 apply list_elem_of_fmap_2. done. }
    assert (call_bytes x = encode_fields [LenField 1 (tcl_id x); LenField 2 (tcl_name x); LenField 3 (tcl_arguments x)]) as E
      by (unfold call_bytes; by as_fields).
    rewrite E in *. apply read_within; [done|]. field_values.
  - assert (Z.of_nat (length (image_bytes x)) <= u64_max) as Hc.
    { apply (Hsub 10). unfold prompt_fields. rewrite !elem_of_app. do 3 right; left. do 2 apply list_elem_of_fmap_2. done. }
    assert (image_bytes x = encode_fields [LenField 1 (im_data_base64 x); LenField 2 (im_mime x)]) as E by (unfold image_bytes; by as_fields).
    rewrite E in *. apply read_within; [done|]. field_values.
Qed.

(** *** The numbers *)

(** The bits of a float that is a number. *)
Definition f32_number (bits : Z) : Prop := 0 <= bits < 2 ^ 32 /\ bits mod 2 ^ 31 <= 255 * 2 ^ 23.

(** A positive float is widened to a positive one. *)
Lemma widened_positive b : f32_number b -> f32_le_zero b = false -> 0 < f32_to_f64_bits b <= F64_INF.
Proof.
  intros [Hb Hn] Hz. unfold f32_le_zero in Hz. apply orb_false_iff in Hz as [Hm%Z.eqb_neq Hs]. apply andb_false_iff in Hs.
  assert (b < 2 ^ 31) as Hlt by (destruct Hs as [Hs%Z.leb_gt|Hs%Z.leb_gt]; lia).
  rewrite Z.mod_small in * by lia. unfold f32_to_f64_bits, F64_INF. rewrite (Z.div_small b (2 ^ 31)) by lia.
  pose proof (Z.div_mod b (2 ^ 23) ltac:(lia)) as Hdm. pose proof (Z.mod_pos_bound b (2 ^ 23) ltac:(lia)) as Hr.
  assert (0 <= b / 2 ^ 23 < 256) as He by (split; [apply Z.div_pos; lia|apply Z.div_lt_upper_bound; lia]).
  rewrite (Z.mod_small (b / 2 ^ 23) 256) by lia. set (e := b / 2 ^ 23) in *. set (m := b mod 2 ^ 23) in *.
  destruct (Z.eqb_spec e 255) as [->|H255]; [rewrite (proj2 (Z.eqb_eq m 0)) by lia; lia|].
  destruct (Z.eqb_spec e 0) as [->|H0]; [|nia].
  destruct (Z.eqb_spec m 0) as [->|Hm0]; [lia|]. pose proof (Z.log2_spec m ltac:(lia)) as [L1 L2]. pose proof (Z.log2_nonneg m) as L0.
  assert (Z.log2 m < 23) as L3 by (apply Z.log2_lt_pow2; lia). set (k := Z.log2 m) in *.
  rewrite Z.pow_succ_r in L2 by done. assert (2 ^ 52 = 2 ^ k * 2 ^ (52 - k)) as Hp by (rewrite <- Z.pow_add_r by lia; f_equal; lia).
  assert (0 < 2 ^ (52 - k)) as Hq by (apply Z.pow_pos_nonneg; lia).
  assert ((m - 2 ^ k) * 2 ^ (52 - k) <= 2 ^ 52) as Hx by (rewrite Hp; apply Z.mul_le_mono_nonneg_r; lia).
  assert (0 <= (m - 2 ^ k) * 2 ^ (52 - k)) by (apply Z.mul_nonneg_nonneg; lia). lia.
Qed.

Lemma sent_temperature t : (forall q, t = Some q -> f32_number q) ->
  let sent := f32_to_f64_bits (request_temperature t) in
  0 < sent <= F64_INF /\ (forall q, t = Some q -> f32_le_zero q = false -> sent = f32_to_f64_bits q).
Proof.
  intros Hq sent. split.
  - apply widened_positive; unfold request_temperature.
    + destruct (f32_le_zero (default F32_ONE t)); [by split; [split|]; vm_compute|]. destruct t as [q|]; [by apply Hq|by split; [split|]; vm_compute].
    + destruct (f32_le_zero (default F32_ONE t)) eqn:E; [by vm_compute|done].
  - intros q -> Hz. unfold sent, request_temperature. cbn [default from_option id]. by rewrite Hz.
Qed.

Lemma max_tokens_width n extra cap : (forall m, n = Some m -> 0 <= m <= u32_max) -> (forall m, cap = Some m -> 0 <= m <= u64_max) ->
  0 <= resolve_max_tokens n (extra_max_tokens extra) cap <= u64_max.
Proof.
  intros Hn Hc. assert (forall m, extra_max_tokens extra = Some m -> 0 <= m <= u64_max) as He.
  { intros m. unfold extra_max_tokens. destruct (find_map _ _) as [[]|]; cbn; try done. case_match eqn:E; [|done]. intros [= <-]. lia. }
  unfold resolve_max_tokens. assert (0 <= default 0 (match n with Some n0 => Some n0 | None => extra_max_tokens extra end) <= u64_max) as Hr.
  { destruct n as [m|]; cbn; [specialize (Hn m eq_refl); unfold u32_max, u64_max in *; lia|].
    destruct (extra_max_tokens extra); cbn; [by apply He|unfold u64_max; lia]. }
  destruct cap as [c|]; [specialize (Hc c eq_refl); by destruct (_ || _)|]. destruct (_ =? 0); [unfold u64_max, DEVIN_DEFAULT_MAX_TOKENS; lia|done].
Qed.

Lemma config_values n t : 0 <= n <= u64_max -> 0 < t <= F64_INF -> Forall field_value_ok (config_fields n t).
Proof.
  intros Hn Ht. assert (0 <= f32_to_f64_bits F32_095 <= u64_max) as Hc by (split; apply Z.leb_le; by vm_compute).
  unfold config_fields. revert Hc. generalize (f32_to_f64_bits F32_095). intros c Hc. unfold F64_INF, u64_max in *.
  repeat first [apply Forall_nil_2|apply Forall_cons_2]; (split; [cbn [field_number]; unfold u32_max; lia|]); unfold u64_max; lia.
Qed.

(** Session counters of the width they have. *)
Definition counters_width (g : SessionTurnCounters) : Prop := forall sid c, tc_map g !! sid = Some c -> 0 <= c < u64_max.

Lemma turn_index_width sid g : counters_width g -> 0 <= (next_devin_session_turn_index sid g).1 <= u64_max.
Proof.
  intros H. unfold next_devin_session_turn_index. destruct (bool_decide _); [unfold u64_max; cbn; lia|].
  destruct (tc_map g !! trim_bytes sid) as [c|] eqn:E; cbn; [specialize (H _ _ E); lia|unfold u64_max; lia].
Qed.

Lemma mapped_sources from_str to_string b64 ms turn : map_openai_turn from_str to_string b64 ms = inr turn ->
  Forall (fun p => 0 <= dp_source p <= u64_max) (dt_prompts turn).
Proof.
  unfold map_openai_turn, apply_user_turn_policy. cbv zeta.
  pose proof (map_messages_ok from_str to_string b64 ms (mkTurnState (mkDevinTurn [] []) [])) as [H1 _ _ _].
  { split; [constructor|done| |done]. intros a b E. symmetry in E. by apply app_eq_nil in E as [-> _]. }
  destruct (check_runs _ _); [done|]. intros [= <-]. cbn [dt_prompts]. apply Forall_forall. intros p [_ Hp]%list_elem_of_filter.
  rewrite Forall_forall in H1. destruct (H1 p Hp) as [[-> |[-> | ->]] _]; by vm_compute.
Qed.

(** The body of a request reads back. *)
Lemma body_reads goos fp r : Z.of_nat (length (encode_request goos fp r)) <= u64_max ->
  Forall (fun p => 0 <= dp_source p <= u64_max) (rq_prompts r) -> 0 <= rq_max_tokens r <= u64_max -> 0 <= rq_turn_index r <= u64_max ->
  (forall q, rq_temperature r = Some q -> f32_number q) -> request_read goos fp r (encode_request goos fp r).
Proof.
  intros Hl Hs Hm Ht Hq. rewrite encode_request_fields in *. constructor. do 5 eexists. split; [by apply read_within, body_values|].
  assert (forall n d, LenField n d ∈ body_fields goos fp r -> Z.of_nat (length d) <= u64_max) as Hsub
    by (intros n d H; apply submessage_length in H; lia).
  unfold body_fields, request_fields in Hsub. split_and!.
  - specialize (Hsub 1 (encode_client_metadata goos fp (rq_token r)) ltac:(rewrite !elem_of_app; left; by left)).
    rewrite encode_metadata_fields in *. apply read_within; [done|]. unfold metadata_fields. field_values.
  - rewrite Forall_forall in Hs. apply Forall2_fmap_self. intros p Hp. apply prompt_reads; [|by apply Hs].
    apply (Hsub 3). rewrite !elem_of_app. do 2 right; left. do 2 apply list_elem_of_fmap_2. done.
  - specialize (Hsub 8 (encode_generation_config (rq_max_tokens r) (rq_temperature r)) ltac:(rewrite !elem_of_app; do 3 right; left; right; left)).
    destruct (sent_temperature (rq_temperature r) Hq) as [Hp Hv]. eexists. split; [|by split].
    rewrite encode_config_fields in *. apply read_within; [done|by apply config_values].
  - apply Forall2_fmap_self. intros t Hin. unfold tool_read. rewrite encode_tool_fields. apply read_within; [|apply tool_values].
    rewrite <- encode_tool_fields. apply (Hsub 10). rewrite !elem_of_app. do 4 right; left. do 2 apply list_elem_of_fmap_2. done.
  - specialize (Hsub 15 (encode_session (rq_session_id r) (rq_turn_index r) (rq_prompts r)) ltac:(rewrite !elem_of_app; do 5 right; by left)).
    rewrite encode_session_fields in *. apply read_within; [done|]. unfold session_fields.
    field_values.
Qed.

Lemma envelope_read inflate body cs : Z.of_nat (length body) <= MAX_COMPRESSED_FRAME -> concat cs = wrap_connect_envelope body ->
  feed (devin_next_frame inflate) cs [] = ([mkFrameEvent CONNECT_FLAG_DATA body], None, []).
Proof.
  intros Hl Hcs. pose proof (feed_concat (devin_next_frame inflate) cs eq_refl) as H.
  rewrite Hcs, wrap_is_envelope, <- (app_nil_r (envelope _ _)) in H by (unfold MAX_COMPRESSED_FRAME in Hl; lia).
  pose proof (drain_envelopes inflate [(CONNECT_FLAG_DATA, body)] [mkFrameEvent CONNECT_FLAG_DATA body] []) as Hd.
  cbn [mbind list_bind fst snd] in Hd. rewrite app_nil_r in Hd.
  rewrite Hd in H; [|apply Forall_singleton; split; [cbn; unfold CONNECT_FLAG_DATA; lia|exact Hl]|by constructor; [|constructor]|done].
  destruct (feed _ cs []) as [[l e] rest]. by destruct H as (<- & <- & <-).
Qed.

(** ** Theorem *)

Section theorem.
Context (from_str : str -> option Json) (to_string : Json -> str) (b64_standard_decode : str -> option str).
Context (b64_encode : str -> str) (b64_decode : str -> option str) (normalize_uuid : str -> str).
Context (chat_model_uid : str -> str -> Z -> str) (max_completion_tokens : str -> option Z) (goos fingerprint : str).
Notation devin_request := (devin_request from_str to_string b64_standard_decode b64_encode b64_decode normalize_uuid chat_model_uid max_completion_tokens).
Notation build_devin_request := (build_devin_request from_str to_string b64_standard_decode b64_encode b64_decode normalize_uuid
  chat_model_uid max_completion_tokens goos fingerprint).

Lemma request_parts req api_key model g r g' : devin_request req api_key model g = inr (r, g') ->
  (exists turn, map_openai_turn from_str to_string b64_standard_decode (in_messages req) = inr turn /\
     rq_prompts r = restore_prompt (decode_devin_tool_call_id b64_encode b64_decode) <$> dt_prompts turn) /\
  rq_temperature r = in_temperature req /\
  rq_max_tokens r = resolve_max_tokens (in_max_tokens req) (extra_max_tokens (in_extra req)) (max_completion_tokens (rq_model_uid r)) /\
  rq_turn_index r = (next_devin_session_turn_index (rq_session_id r) g).1.
Proof.
  unfold DevinRequest.devin_request. destruct (map_openai_turn _ _ _ _) as [e|turn]; [done|]. destruct (thinking_hints _) as [level budget].
  destruct (next_devin_session_turn_index _ g) as [n g1] eqn:E. intros [= <- <-]. cbn. rewrite E. split; [by exists turn|done].
Qed.

(** C35. A Devin request reads back as it was meant.  Take any request with
    numbers of their width and a temperature that is a number; when it is built
    and its body is within the cap on a frame (16 MiB), its envelope holds one
    data frame however it is cut, and a receiver of that frame reads, in order:
    the client's identity with the token; the system prompt; each prompt with
    its tool calls and images; the generation config with the token limit and a
    temperature above zero, which is the requested one if that is; each tool; the
    session with its turn; and the model. *)
Theorem devin_request_reads_back inflate req api_key model g bytes g' cs :
  (forall n, in_max_tokens req = Some n -> 0 <= n <= u32_max) -> (forall uid n, max_completion_tokens uid = Some n -> 0 <= n <= u64_max) ->
  (forall q, in_temperature req = Some q -> f32_number q) -> counters_width g ->
  build_devin_request req api_key model g = inr (bytes, g') ->
  Z.of_nat (length bytes) <= 5 + MAX_COMPRESSED_FRAME -> concat cs = bytes ->
  exists r body, devin_request req api_key model g = inr (r, g') /\
    feed (devin_next_frame inflate) cs [] = ([mkFrameEvent CONNECT_FLAG_DATA body], None, []) /\
    rq_temperature r = in_temperature req /\ request_read goos fingerprint r body.
Proof.
  intros Hn Hcap Hq Hg Hb Hl Hcs. unfold DevinRequest.build_devin_request in Hb.
  destruct (devin_request req api_key model g) as [e|[r g1]] eqn:E; [done|]. injection Hb as <- <-.
  destruct (request_parts _ _ _ _ _ _ E) as ((turn & Hturn & Hps) & Et & Em & Ei).
  assert (Z.of_nat (length (encode_request goos fingerprint r)) <= MAX_COMPRESSED_FRAME) as Hbody.
  { unfold wrap_connect_envelope in Hl. rewrite !length_app, length_be_bytes in Hl. cbn [length] in Hl. lia. }
  exists r, (encode_request goos fingerprint r). split; [done|]. split; [by apply envelope_read|]. split; [done|]. apply body_reads.
  - unfold MAX_COMPRESSED_FRAME, u64_max in *. lia.
  - rewrite Hps. apply Forall_fmap. exact (mapped_sources _ _ _ _ _ Hturn).
  - rewrite Em. apply max_tokens_width; [done|apply Hcap].
  - rewrite Ei. by apply turn_index_width.
  - rewrite Et. exact Hq.
Qed.
End theorem.

(** A request with a temperature of zero, cut in two. *)
Definition example_input : DevinInput :=
  mkDevinInput [(bytes_of "m", mkTurnMessage "user" (Some (JStr "hi")) None None [])]
    (Some [JObj [("name", JStr "ls")]])%string (Some 100) (Some 0) [("session_id", JStr "s")]%string.

Definition example_build : str + str * SessionTurnCounters :=
  build_devin_request (fun _ => None) (fun _ => []) (fun _ => None) id Some id (fun m _ _ => m) (fun _ => None) (bytes_of "linux") (bytes_of "fp")
    example_input (bytes_of "token") (bytes_of "model") (mkCounters ∅ []).

Lemma devin_request_reads_back_witness :
  exists bytes g r body, example_build = inr (bytes, g) /\
    feed (devin_next_frame (fun _ _ => InflateError)) [take 9 bytes; drop 9 bytes] [] = ([mkFrameEvent CONNECT_FLAG_DATA body], None, []) /\
    rq_temperature r = Some 0 /\ request_read (bytes_of "linux") (bytes_of "fp") r body.
Proof.
  destruct example_build as [e|[bytes g]] eqn:E; [vm_compute in E; discriminate E|]. exists bytes, g.
  destruct (devin_request_reads_back (fun _ => None) (fun _ => []) (fun _ => None) id Some id (fun m _ _ => m) (fun _ => None) (bytes_of "linux") (bytes_of "fp")
    (fun _ _ => InflateError) example_input (bytes_of "token") (bytes_of "model") (mkCounters ∅ []) bytes g [take 9 bytes; drop 9 bytes])
    as (r & body & _ & H1 & H2 & H3).
  - clear E. intros n [= <-]. split; apply Z.leb_le; vm_compute; reflexivity.
  - done.
  - clear E. intros q [= <-]. split; [split|]; [apply Z.leb_le|apply Z.ltb_lt|apply Z.leb_le]; vm_compute; reflexivity.
  - intros sid c H. cbn in H. by rewrite lookup_empty in H.
  - exact E.
  - vm_compute in E. injection E as <- _. by vm_compute.
  - cbn. by rewrite app_nil_r, take_drop.
  - exists r, body. exact (conj eq_refl (conj H1 (conj H2 H3))).
Defined.
