(* ===== verification/PngMask.v ===== *)
(** * The inpainting mask of a transparent PNG

    [openproxy-core/src/images/png_mask.rs]: the chunks of a PNG, its row
    filters undone, the alpha channel turned into a mask, and the mask written
    as a PNG of its own.

    [miniz_oxide]'s zlib is a parameter. *)

From Stdlib Require Import String.
From S2P Require Import Prelude Text Bytes.

(** ** Chunks *)

Definition paeth_predictor (a b c : Z) : Z :=
  let p := a + b - c in
  let pa := Z.abs (p - a) in
  let pb := Z.abs (p - b) in
  let pc := Z.abs (p - c) in
  if (pa <=? pb) && (pa <=? pc) then a else if pb <=? pc then b else c.

(** One of the eight turns for a byte. *)
Definition crc_bit (crc : Z) : Z :=
  if negb (Z.land crc 1 =? 0) then Z.lxor (Z.shiftr crc 1) 3988292384 else Z.shiftr crc 1.

Definition crc_byte (crc b : Z) : Z := Nat.iter 8 crc_bit (Z.lxor crc b).

Definition png_crc32_chunk (chunk_type data : str) : Z :=
  Z.lxor (foldl crc_byte 4294967295 (chunk_type ++ data)) 4294967295.

(** [write_png_chunk]: the bytes it appends. *)
Definition write_png_chunk (chunk_type data : str) : str :=
  be_bytes 4 (Z.of_nat (length data) mod 2 ^ 32) ++ chunk_type ++ data ++ be_bytes 4 (png_crc32_chunk chunk_type data).

Record PngHeader := mkPngHeader { ph_width : Z; ph_height : Z; ph_color_type : Z; ph_idat_data : str }.

Definition is_valid_ihdr_format (bit_depth compression filter interlace color_type : Z) : bool :=
  (bit_depth =? 8) && (compression =? 0) && (filter =? 0) && (interlace =? 0) && ((color_type =? 4) || (color_type =? 6)).

Definition parse_ihdr_chunk (data : str) : option (Z * Z * Z) :=
  if (length data <? 13)%nat then None
  else
    let width := be_of (take 4 data) in
    let height := be_of (take 4 (drop 4 data)) in
    let at_ i := nth i data 0 in
    if negb (is_valid_ihdr_format (at_ 8%nat) (at_ 10%nat) (at_ 11%nat) (at_ 12%nat) (at_ 9%nat)) then None
    else Some (width, height, at_ 9%nat).

Definition PNG_SIG : str := [137; 80; 78; 71; 13; 10; 26; 10].
Definition IHDR : str := bytes_of "IHDR".
Definition IDAT : str := bytes_of "IDAT".
Definition IEND : str := bytes_of "IEND".

(** The loop of [parse_png_chunks] on the bytes from [offset] on. *)
Fixpoint chunks_loop (fuel : nat) (s : str) (h : PngHeader) : option PngHeader :=
  match fuel with
  | O => None
  | S f =>
      if (length s <? 8)%nat then Some h
      else
        let chunk_len := be_of (take 4 s) in
        let chunk_type := take 4 (drop 4 s) in
        if Z.of_nat (length s) <? 8 + chunk_len + 4 then None
        else
          let data := take (Z.to_nat chunk_len) (drop 8 s) in
          let rest := drop (12 + Z.to_nat chunk_len) s in
          if bool_decide (chunk_type = IHDR) then
            match parse_ihdr_chunk data with
            | None => None
            | Some (w, ht, ct) => chunks_loop f rest (mkPngHeader w ht ct (ph_idat_data h))
            end
          else if bool_decide (chunk_type = IDAT) then
            chunks_loop f rest (mkPngHeader (ph_width h) (ph_height h) (ph_color_type h) (ph_idat_data h ++ data))
          else if bool_decide (chunk_type = IEND) then Some h
          else chunks_loop f rest h
  end.

Definition parse_png_chunks (image_bytes : str) : option PngHeader :=
  match strip_prefix PNG_SIG image_bytes with
  | None => None
  | Some s =>
      match chunks_loop (S (length s)) s (mkPngHeader 0 0 0 []) with
      | None => None
      | Some h =>
          if (ph_width h =? 0) || (ph_height h =? 0) || bool_decide (ph_idat_data h = []) then None else Some h
      end
  end.

(** ** Rows *)

(** The byte [bpp] to the left, 0 at the start of a row. *)
Definition left_of (bpp i : nat) (row : str) : Z := if (bpp <=? i)%nat then nth (i - bpp) row 0 else 0.

(** What the filter adds: by its type, from the bytes left, above and above left. *)
Definition predictor (filter_type a b c : Z) : Z :=
  if filter_type =? 1 then a
  else if filter_type =? 2 then b
  else if filter_type =? 3 then (a + b) / 2
  else if filter_type =? 4 then paeth_predictor a b c
  else 0.

(** [unfilter_png_scanline]; [curr] is the part of the row already written. *)
Fixpoint unfilter_loop (filter_type : Z) (bpp : nat) (prev raw curr : str) : str :=
  match raw with
  | [] => curr
  | x :: raw' =>
      let i := length curr in
      let v := (x + predictor filter_type (left_of bpp i curr) (nth i prev 0) (left_of bpp i prev)) mod 256 in
      unfilter_loop filter_type bpp prev raw' (curr ++ [v])
  end.

Definition unfilter_png_scanline (filter_type : Z) (raw prev : str) (bpp : nat) : str :=
  unfilter_loop filter_type bpp prev raw [].

(** A pixel's alpha, and the mask of a row. *)
Definition mask_byte (bpp : nat) (row : str) (px : nat) : Z :=
  if nth (px * bpp + (bpp - 1)) row 0 <? 255 then 255 else 0.

Definition mask_row (bpp width : nat) (row : str) : str := mask_byte bpp row <$> seq 0 width.

(** The loop over the rows, from the row above on. *)
Fixpoint mask_loop (height : nat) (bpp width : nat) (decompressed prev : str) : str :=
  match height with
  | O => []
  | S h =>
      let line_len := (width * bpp)%nat in
      let row := unfilter_png_scanline (nth 0 decompressed 0) (take line_len (drop 1 decompressed)) prev bpp in
      [0] ++ mask_row bpp width row ++ mask_loop h bpp width (drop (1 + line_len) decompressed) row
  end.

Definition extract_mask_scanlines (decompressed : str) (width height color_type : Z) : option str :=
  let bpp := if color_type =? 6 then 4 else 2 in
  let line_len := width * bpp in
  let expected_len := height * (1 + line_len) in
  if (u64_max <? line_len) || (u64_max <? expected_len) then None
  else if negb (Z.of_nat (length decompressed) =? expected_len) then None
  else
    let mask := mask_loop (Z.to_nat height) (Z.to_nat bpp) (Z.to_nat width) decompressed (replicate (Z.to_nat line_len) 0) in
    if bool_decide (255 ∈ mask) then Some mask else None.

(** ** The mask as a PNG *)

Section zlib.
Variable decompress_to_vec_zlib : str -> option str.
Variable compress_to_vec_zlib : str -> str.

Definition encode_grayscale_png (width height : Z) (mask_scanlines : str) : str :=
  PNG_SIG ++ write_png_chunk IHDR (be_bytes 4 width ++ be_bytes 4 height ++ [8; 0; 0; 0; 0])
  ++ write_png_chunk IDAT (compress_to_vec_zlib mask_scanlines) ++ write_png_chunk IEND [].

Definition extract_png_alpha_mask (image_bytes : str) : option str :=
  match parse_png_chunks image_bytes with
  | None => None
  | Some header =>
      match decompress_to_vec_zlib (ph_idat_data header) with
      | None => None
      | Some decompressed =>
          encode_grayscale_png (ph_width header) (ph_height header)
          <$> extract_mask_scanlines decompressed (ph_width header) (ph_height header) (ph_color_type header)
      end
  end.

End zlib.

(** ** The checksum is CRC-32 *)

(** The check value of the CRC-32 of ISO 3309: that of [123456789]. *)
Lemma crc32_check : png_crc32_chunk (bytes_of "1234") (bytes_of "56789") = 3421780262.
Proof. vm_compute. done. Qed.

(** ** Filters are undone *)

(** The five filter types of the PNG specification and what each of them
    subtracts from a byte, given its neighbours to the left, above and above
    left: for [FPaeth], whichever of them is nearest to their linear
    extrapolation, the first in this order where two are equally near. *)
Inductive Filter := FNone | FSub | FUp | FAverage | FPaeth.

Definition filter_code (f : Filter) : Z :=
  match f with FNone => 0 | FSub => 1 | FUp => 2 | FAverage => 3 | FPaeth => 4 end.

Definition nearest (p : Z) (x y : Z) : Z := if Z.abs (y - p) <? Z.abs (x - p) then y else x.

Definition filter_byte (f : Filter) (a b c : Z) : Z :=
  match f with
  | FNone => 0
  | FSub => a
  | FUp => b
  | FAverage => Z.div2 (a + b)
  | FPaeth => foldl (nearest (a + b - c)) a [b; c]
  end.

Definition neighbour (bpp i : nat) (row : str) : Z := default 0 (guard (bpp <= i)%nat;; row !! (i - bpp)%nat).

(** A row filtered as the PNG specification has it. *)
Definition filter_row (f : Filter) (bpp : nat) (prev row : str) : str :=
  imap (fun i x => (x - filter_byte f (neighbour bpp i row) (default 0 (prev !! i)) (neighbour bpp i prev)) mod 256) row.

Lemma predictor_spec f a b c : predictor (filter_code f) a b c = filter_byte f a b c.
Proof.
  destruct f; cbn; [done|done|done|by rewrite Z.div2_div|]. unfold paeth_predictor, nearest. cbv zeta.
  repeat case_match; repeat match goal with
    | H : _ && _ = true |- _ => apply andb_true_iff in H as [?%Z.leb_le ?%Z.leb_le]
    | H : _ && _ = false |- _ => apply andb_false_iff in H as [?%Z.leb_gt|?%Z.leb_gt]
    | H : (_ <=? _) = true |- _ => apply Z.leb_le in H | H : (_ <=? _) = false |- _ => apply Z.leb_gt in H
    | H : (_ <? _) = true |- _ => apply Z.ltb_lt in H | H : (_ <? _) = false |- _ => apply Z.ltb_ge in H end; lia.
Qed.

Lemma left_of_spec bpp i row : left_of bpp i row = neighbour bpp i row.
Proof.
  unfold left_of, neighbour. destruct (Nat.leb_spec bpp i); [rewrite option_guard_True by lia|by rewrite option_guard_False by lia].
  apply nth_lookup.
Qed.

Lemma filter_row_spec f bpp prev row :
  filter_row f bpp prev row =
  imap (fun i x => (x - predictor (filter_code f) (left_of bpp i row) (nth i prev 0) (left_of bpp i prev)) mod 256) row.
Proof.
  unfold filter_row. apply imap_ext. intros i x _. cbn. by rewrite predictor_spec, !left_of_spec, nth_lookup.
Qed.

Lemma left_of_take bpp i row : (i <= length row)%nat -> (0 < bpp)%nat -> left_of bpp i (take i row) = left_of bpp i row.
Proof.
  intros Hi Hb. unfold left_of. destruct (bpp <=? i)%nat eqn:E; [|done]. apply Nat.leb_le in E.
  rewrite <- (take_drop i row) at 2. rewrite app_nth1; [done|]. rewrite length_take. lia.
Qed.

Lemma unfilter_loop_spec ft bpp prev row k : (0 < bpp)%nat -> byte_list row -> (k <= length row)%nat ->
  unfilter_loop (filter_code ft) bpp prev (drop k (filter_row ft bpp prev row)) (take k row) = row.
Proof.
  intros Hb Hr. remember (length row - k)%nat as n eqn:Hn. revert k Hn. induction n as [|n IH]; intros k Hn Hk.
  - rewrite drop_ge by (unfold filter_row; rewrite length_imap; lia). cbn. apply take_ge. lia.
  - destruct (lookup_lt_is_Some_2 row k ltac:(lia)) as [x Hx].
    assert (filter_row ft bpp prev row !! k = Some ((x - predictor (filter_code ft) (left_of bpp k row) (nth k prev 0) (left_of bpp k prev)) mod 256)) as Hf.
    { rewrite filter_row_spec, list_lookup_imap, Hx. done. }
    rewrite (drop_S _ _ _ Hf). cbn [unfilter_loop]. cbv zeta. rewrite length_take, Nat.min_l by lia. rewrite left_of_take by lia.
    rewrite Zplus_mod_idemp_l, Z.sub_add.
    assert (0 <= x < 256) as Hx' by (by apply (Forall_lookup_1 _ _ _ _ Hr Hx)). rewrite Z.mod_small by lia.
    rewrite <- (take_S_r _ _ _ Hx). apply IH; lia.
Qed.

Lemma unfilter_filter ft bpp prev row : (0 < bpp)%nat -> byte_list row ->
  unfilter_png_scanline (filter_code ft) (filter_row ft bpp prev row) prev bpp = row.
Proof. intros Hb Hr. by apply (unfilter_loop_spec ft bpp prev row 0); [| |lia]. Qed.

(** ** An image and its mask *)

(** The scanlines of an image: each row with the filter its encoder chose. *)
Fixpoint scanlines (bpp : nat) (prev : str) (rows : list (Filter * str)) : str :=
  match rows with
  | [] => []
  | (ft, row) :: rows' => [filter_code ft] ++ filter_row ft bpp prev row ++ scanlines bpp row rows'
  end.

(** White where the pixel is not opaque: the last byte of a pixel is its alpha. *)
Definition opaque_pixel (bpp : nat) (row : str) (px : nat) : bool :=
  bool_decide (last (take bpp (drop (px * bpp) row)) = Some 255).

Definition image_mask (bpp width : nat) (rows : list (Filter * str)) : str :=
  rows ≫= fun r => [0] ++ ((fun px => if opaque_pixel bpp r.2 px then 0 else 255) <$> seq 0 width).


Definition rows_ok (bpp width : nat) (rows : list (Filter * str)) : Prop :=
  Forall (fun r => length r.2 = (width * bpp)%nat /\ byte_list r.2) rows.

Lemma opaque_pixel_spec bpp width row px : (0 < bpp)%nat -> length row = (width * bpp)%nat -> byte_list row -> (px < width)%nat ->
  opaque_pixel bpp row px = negb (nth (px * bpp + (bpp - 1)) row 0 <? 255).
Proof.
  intros Hb Hl Hr Hp. assert (px * bpp + bpp <= length row)%nat as Hle by nia.
  unfold opaque_pixel. rewrite last_lookup, length_take, length_drop, Nat.min_l by lia. rewrite lookup_take_lt, lookup_drop by lia.
  rewrite nth_lookup. replace (Nat.pred bpp) with (bpp - 1)%nat by lia.
  destruct (row !! (px * bpp + (bpp - 1))%nat) as [x|] eqn:E; [|apply lookup_ge_None in E; lia]. cbn.
  pose proof (Forall_lookup_1 _ _ _ _ Hr E) as Hx. cbn in Hx.
  case_bool_decide as H; [simplify_eq; done|]. destruct (Z.ltb_spec x 255); [done|]. destruct H. f_equal. lia.
Qed.

Lemma mask_row_spec bpp width row : (0 < bpp)%nat -> length row = (width * bpp)%nat -> byte_list row ->
  mask_row bpp width row = (fun px => if opaque_pixel bpp row px then 0 else 255) <$> seq 0 width.
Proof.
  intros Hb Hl Hr. apply list_fmap_ext. intros i px [-> Hi]%lookup_seq. cbn.
  rewrite (opaque_pixel_spec bpp width) by done. unfold mask_byte. by destruct (_ <? _).
Qed.

Lemma length_filter_row ft bpp prev row : length (filter_row ft bpp prev row) = length row.
Proof. unfold filter_row. apply length_imap. Qed.

Lemma length_scanlines bpp width prev rows : rows_ok bpp width rows ->
  length (scanlines bpp prev rows) = (length rows * (1 + width * bpp))%nat.
Proof.
  intros H. revert prev. induction H as [|[ft row] rows [Hl _] _ IH]; intros prev; [done|]. cbn [scanlines snd] in *.
  rewrite !length_app, length_filter_row, IH. cbn [length]. lia.
Qed.

Lemma mask_loop_scanlines bpp width prev rows : (0 < bpp)%nat -> rows_ok bpp width rows ->
  mask_loop (length rows) bpp width (scanlines bpp prev rows) prev = image_mask bpp width rows.
Proof.
  intros Hb H. revert prev. induction H as [|[ft row] rows [Hl Hr] _ IH]; intros prev; [done|].
  cbn [length mask_loop scanlines snd] in *. cbv zeta. unfold image_mask in *. rewrite bind_cons. cbn [snd].
  change (nth 0 ([?y] ++ ?x) 0) with y. change (drop 1 ([?y] ++ ?x)) with x. change (drop (1 + ?n) ([?y] ++ ?x)) with (drop n x).
  rewrite take_app_length', drop_app_length' by (rewrite length_filter_row; lia). rewrite unfilter_filter by done.
  by rewrite IH, <- app_assoc, (mask_row_spec bpp width) by done.
Qed.

(** The file: the header, chunks of data and others, the end. *)
Definition png_chunk_ok (c : str * str) : Prop :=
  length c.1 = 4%nat /\ c.1 <> IHDR /\ c.1 <> IEND /\ Z.of_nat (length c.2) <= u32_max.

Definition idat_of (cs : list (str * str)) : str := cs ≫= fun c => if bool_decide (c.1 = IDAT) then c.2 else [].

Definition ihdr_data (width height color_type : Z) : str :=
  be_bytes 4 width ++ be_bytes 4 height ++ [8; color_type; 0; 0; 0].

Definition png_file (width height color_type : Z) (cs : list (str * str)) (tail : str) : str :=
  PNG_SIG ++ write_png_chunk IHDR (ihdr_data width height color_type) ++ (cs ≫= fun c => write_png_chunk c.1 c.2)
  ++ write_png_chunk IEND [] ++ tail.

(** A written chunk at the front of the input. *)
Lemma chunk_at ty data rest : length ty = 4%nat -> Z.of_nat (length data) <= u32_max ->
  let s := write_png_chunk ty data ++ rest in
  (length s <? 8)%nat = false /\ be_of (take 4 s) = Z.of_nat (length data) /\ take 4 (drop 4 s) = ty /\
  (Z.of_nat (length s) <? 8 + Z.of_nat (length data) + 4) = false /\
  take (length data) (drop 8 s) = data /\ drop (12 + length data) s = rest.
Proof.
  intros Ht Hd s. unfold u32_max in Hd. unfold s, write_png_chunk. rewrite Z.mod_small by lia.
  pose proof (length_be_bytes 4 (Z.of_nat (length data))) as L1. pose proof (length_be_bytes 4 (png_crc32_chunk ty data)) as L2.
  set (a := be_bytes 4 (Z.of_nat (length data))) in *. set (z := be_bytes 4 (png_crc32_chunk ty data)) in *.
  split; [|split; [|split; [|split; [|split]]]].
  - apply Nat.ltb_ge. rewrite !length_app. lia.
  - rewrite <- !app_assoc, take_app_length' by done. apply be_of_be_bytes. simpl. lia.
  - rewrite <- !app_assoc, drop_app_length', take_app_length' by done. done.
  - apply Z.ltb_ge. rewrite !length_app. lia.
  - rewrite <- !app_assoc, (app_assoc a), drop_app_length' by (rewrite length_app; lia). apply take_app_length.
  - rewrite (app_assoc a), (app_assoc (a ++ ty)), <- app_assoc, app_assoc. apply drop_app_length'. rewrite !length_app. lia.
Qed.

Lemma chunk_length ty data rest : length ty = 4%nat ->
  (length (write_png_chunk ty data ++ rest) = 12 + length data + length rest)%nat.
Proof. intros Ht. unfold write_png_chunk. rewrite !length_app, !length_be_bytes. lia. Qed.

(** Chunks of data are joined and others passed over, until the end. *)
Lemma chunks_loop_spec fuel cs tail h : Forall png_chunk_ok cs ->
  (length ((cs ≫= fun c => write_png_chunk c.1 c.2) ++ write_png_chunk IEND [] ++ tail) < fuel)%nat ->
  chunks_loop fuel ((cs ≫= fun c => write_png_chunk c.1 c.2) ++ write_png_chunk IEND [] ++ tail) h
  = Some (mkPngHeader (ph_width h) (ph_height h) (ph_color_type h) (ph_idat_data h ++ idat_of cs)).
Proof.
  intros H. revert fuel h. induction H as [|[ty data] cs (Ht & Hi & He & Hd) _ IH]; intros fuel h Hf; cbn [fst snd] in *.
  - cbn [mbind list_bind] in Hf |- *. rewrite app_nil_l in Hf |- *. destruct fuel as [|fuel]; [lia|]. cbn [chunks_loop]. cbv zeta.
    destruct (chunk_at IEND [] tail eq_refl ltac:(unfold u32_max; cbn; lia)) as (-> & -> & -> & -> & _ & _).
    rewrite !bool_decide_false by done. rewrite bool_decide_true by done. unfold idat_of. cbn. rewrite app_nil_r. by destruct h.
  - rewrite bind_cons in Hf |- *. cbn [fst snd] in Hf |- *. rewrite <- app_assoc in Hf |- *.
    set (rest := (cs ≫= fun c => write_png_chunk c.1 c.2) ++ write_png_chunk IEND [] ++ tail) in *.
    destruct fuel as [|fuel]; [lia|]. rewrite chunk_length in Hf by done. cbn [chunks_loop]. cbv zeta.
    destruct (chunk_at ty data rest Ht Hd) as (-> & -> & -> & -> & E5 & E6). rewrite Nat2Z.id, E5, E6.
    rewrite (bool_decide_false (ty = IHDR)), (bool_decide_false (ty = IEND)) by done. unfold idat_of in *. rewrite bind_cons. cbn [fst snd].
    case_bool_decide; rewrite IH by lia; cbn; by rewrite <- ?app_assoc.
Qed.

Lemma parse_ihdr w h ct : 0 <= w <= u32_max -> 0 <= h <= u32_max -> (ct = 4 \/ ct = 6) ->
  parse_ihdr_chunk (ihdr_data w h ct) = Some (w, h, ct).
Proof.
  intros Hw Hh Hct. unfold u32_max in *. unfold parse_ihdr_chunk, ihdr_data.
  pose proof (length_be_bytes 4 w) as L1. pose proof (length_be_bytes 4 h) as L2. rewrite !length_app, L1, L2. cbn [length Nat.add Nat.ltb Nat.leb].
  rewrite take_app_length', drop_app_length' by done. rewrite take_app_length' by done. rewrite !be_of_be_bytes by (simpl; lia).
  assert (forall i, nth (8 + i) (be_bytes 4 w ++ be_bytes 4 h ++ [8; ct; 0; 0; 0]) 0 = nth i [8; ct; 0; 0; 0] 0) as Hn.
  { intros i. rewrite app_assoc, app_nth2 by (rewrite length_app, L1, L2; lia). f_equal. rewrite length_app, L1, L2. lia. }
  cbv zeta. pose proof (Hn 0%nat) as N0. pose proof (Hn 1%nat) as N1. pose proof (Hn 2%nat) as N2. pose proof (Hn 3%nat) as N3.
  pose proof (Hn 4%nat) as N4. cbn [Nat.add nth] in N0, N1, N2, N3, N4. rewrite N0, N1, N2, N3, N4.
  by destruct Hct as [-> | ->].
Qed.

Lemma parse_png_file w h ct cs tail : 0 < w <= u32_max -> 0 < h <= u32_max -> (ct = 4 \/ ct = 6) -> Forall png_chunk_ok cs ->
  idat_of cs <> [] -> parse_png_chunks (png_file w h ct cs tail) = Some (mkPngHeader w h ct (idat_of cs)).
Proof.
  intros Hw Hh Hct Hcs Hi. unfold parse_png_chunks, png_file. rewrite (proj2 (strip_prefix_spec _ _ _)) by done.
  assert (length (ihdr_data w h ct) = 13)%nat as L by (unfold ihdr_data; by rewrite !length_app, !length_be_bytes).
  set (rest := (cs ≫= fun c => write_png_chunk c.1 c.2) ++ write_png_chunk IEND [] ++ tail).
  cbn [chunks_loop]. cbv zeta.
  destruct (chunk_at IHDR (ihdr_data w h ct) rest eq_refl ltac:(rewrite L; unfold u32_max; lia)) as (-> & -> & -> & -> & E5 & E6).
  rewrite Nat2Z.id, E5, E6. rewrite bool_decide_true by done. rewrite parse_ihdr by (done || lia).
  pose proof (fun fuel => chunks_loop_spec fuel cs tail (mkPngHeader w h ct []) Hcs) as E. fold rest in E.
  cbn [ph_idat_data]. rewrite E by (rewrite chunk_length by done; lia). cbn [ph_width ph_height ph_color_type ph_idat_data app].
  rewrite (proj2 (Z.eqb_neq w 0)), (proj2 (Z.eqb_neq h 0)), bool_decide_false by (done || lia). done.
Qed.

(** ** Theorem *)

(** C39. The mask of a transparent image is exact.  For a PNG of any size with an
    alpha channel, whatever filters its rows use, however its data is split
    into chunks and whatever other chunks it has, the result is the grayscale
    PNG that is white at the pixels that are not opaque and black elsewhere; and
    there is a result exactly when some pixel is not opaque. *)
Theorem png_mask_exact inflate deflate w h ct cs tail rows :
  0 < w <= u32_max -> 0 < h <= u32_max -> (ct = 4 \/ ct = 6) -> Forall png_chunk_ok cs -> idat_of cs <> [] ->
  let bpp := if ct =? 6 then 4%nat else 2%nat in
  rows_ok bpp (Z.to_nat w) rows -> Z.of_nat (length rows) = h -> h * (1 + w * Z.of_nat bpp) <= u64_max ->
  inflate (idat_of cs) = Some (scanlines bpp (replicate (Z.to_nat w * bpp) 0) rows) ->
  let mask := image_mask bpp (Z.to_nat w) rows in
  extract_png_alpha_mask inflate deflate (png_file w h ct cs tail) =
    (if bool_decide (255 ∈ mask) then Some (encode_grayscale_png deflate w h mask) else None) /\
  (255 ∈ mask <-> exists row px, row ∈ rows.*2 /\ (px < Z.to_nat w)%nat /\ nth (px * bpp + (bpp - 1)) row 0 < 255).
Proof.
  intros Hw Hh Hct Hcs Hi bpp Hrows Hlen Hmax Hz mask.
  assert (0 < bpp)%nat as Hb by (unfold bpp; destruct (ct =? 6); lia). split.
  - unfold extract_png_alpha_mask. rewrite parse_png_file by done. cbn [ph_idat_data ph_width ph_height ph_color_type]. rewrite Hz.
    unfold extract_mask_scanlines. cbv zeta.
    assert ((if ct =? 6 then 4 else 2) = Z.of_nat bpp) as -> by (unfold bpp; by destruct (ct =? 6)).
    assert (w * Z.of_nat bpp <= h * (1 + w * Z.of_nat bpp)) as Hle by nia.
    rewrite (proj2 (Z.ltb_ge _ _)), (proj2 (Z.ltb_ge _ _)) by lia. cbn [orb].
    rewrite (length_scanlines bpp (Z.to_nat w)) by done. rewrite (proj2 (Z.eqb_eq _ _)) by nia. cbn [negb].
    rewrite Z2Nat.inj_mul, !Nat2Z.id by lia. rewrite <- Hlen, Nat2Z.id, mask_loop_scanlines by done. fold mask.
    by case_bool_decide.
  - unfold mask, image_mask. rewrite list_elem_of_bind. split.
    + intros ([ft row] & Hin & Hr). cbn [snd] in Hin. apply elem_of_app in Hin as [Hin|Hin]; [by apply list_elem_of_singleton in Hin|].
      apply list_elem_of_fmap in Hin as (px & Hpx & Hseq). apply elem_of_seq in Hseq. exists row, px. split; [|split; [lia|]].
      * apply list_elem_of_fmap. by exists (ft, row).
      * destruct (proj1 (Forall_forall _ _) Hrows _ Hr) as [Hl Hby]. cbn [snd] in *.
        rewrite (opaque_pixel_spec bpp (Z.to_nat w)) in Hpx by (done || lia).
        by destruct (Z.ltb_spec (nth (px * bpp + (bpp - 1)) row 0) 255).
    + intros (row & px & Hin & Hpx & Ha). apply list_elem_of_fmap in Hin as ([ft row'] & -> & Hin). exists (ft, row'). split; [|done].
      cbn [snd] in *. apply elem_of_app. right. apply list_elem_of_fmap. exists px. split; [|apply elem_of_seq; lia].
      destruct (proj1 (Forall_forall _ _) Hrows _ Hin) as [Hl Hby]. cbn [snd] in *.
      by rewrite (opaque_pixel_spec bpp (Z.to_nat w)), (proj2 (Z.ltb_lt _ _)) by done.
Qed.

(** Two rows of two grey pixels, filtered by the left byte and by the average; one pixel half
    transparent.  The data is stored in two chunks with a text chunk between. *)
Lemma png_mask_exact_witness :
  let rows := [(FSub, [10; 255; 20; 128]); (FAverage, [7; 255; 9; 255])] in
  let data := scanlines 2 [0; 0; 0; 0] rows in
  let cs := [(IDAT, take 3 data); (bytes_of "tEXt", [1; 2]); (IDAT, drop 3 data)] in
  extract_png_alpha_mask Some (fun s => s) (png_file 2 2 4 cs []) =
  Some (encode_grayscale_png (fun s => s) 2 2 [0; 0; 255; 0; 0; 0]).
Proof.
  intros rows data cs.
  destruct (png_mask_exact Some (fun s => s) 2 2 4 cs [] rows) as [H _].
  - split; vm_compute; done.
  - split; vm_compute; done.
  - by left.
  - repeat constructor; vm_compute; done.
  - vm_compute. done.
  - repeat constructor; vm_compute; done.
  - vm_compute. done.
  - vm_compute. done.
  - vm_compute. done.
  - rewrite H. vm_compute. done.
Defined.
