(* ===== verification/AnthropicBridge.v ===== *)
(** * An answer for an Anthropic client

    [openproxy-pipeline/src/translation/sse.rs], [OpenAIToAnthropicSseStream]:
    the chunks of a chat completion become the events of an Anthropic message
    (one start, numbered content blocks that are opened and closed in turn, a
    stop reason, one stop).

    The specification is a client: it reads the events, keeps the blocks and
    rejects an event that has no place where it stands.  What it must end with
    is read from the chunks as the chat completion API defines them, the
    fragments of a tool call by their index, which the probe of the code has no
    field for.  The serde probe of a chunk and the JSON printer are parameters. *)

From Stdlib Require Import String.
From S2P Require Import Prelude Text Bytes.

(** ** The probe of a chunk *)

Record OpenAIFunctionCallProbe := mkFunctionCallProbe { fcp_name : option string; fcp_arguments : option string }.
Record OpenAIToolCallProbe := mkToolCallItem { tcp_id : option string; tcp_function : option OpenAIFunctionCallProbe }.
Record OpenAIDeltaProbe := mkDeltaProbe { dlp_content : option string; dlp_tool_calls : option (list OpenAIToolCallProbe) }.
Record OpenAIChoiceProbe := mkChoice { chp_delta : option OpenAIDeltaProbe; chp_finish_reason : option string }.
Record OpenAISseProbe := mkOpenAISseProbe { osp_choices : option (list OpenAIChoiceProbe) }.

(** ** What is written to the client: named events, and bytes passed on as they are *)

Inductive ClientEvent :=
  | Event (name : string) (payload : Json)
  | Literal (b : str).

(** [append_sse_event]; [to_writer] fails where it gives [None]. *)
Definition append_sse_event (to_writer : Json -> option str) (event_name : string) (payload : Json) : str :=
  bytes_of "event: " ++ bytes_of event_name ++ [10] ++ bytes_of "data: "
  ++ match to_writer payload with
     | Some s => s
     | None => bytes_of "{" ++ [34] ++ bytes_of "type" ++ [34; 58; 34] ++ bytes_of "error" ++ [34; 44; 34] ++ bytes_of "error"
               ++ [34; 58; 123; 34] ++ bytes_of "type" ++ [34; 58; 34] ++ bytes_of "internal_error" ++ [34; 44; 34]
               ++ bytes_of "message" ++ [34; 58; 34] ++ bytes_of "Internal server error" ++ [34; 125; 125]
     end ++ [10; 10].

Definition event_bytes_of (to_writer : Json -> option str) (e : ClientEvent) : str :=
  match e with Event name payload => append_sse_event to_writer name payload | Literal b => b end.

(** ** The state *)

Record OpenAIToAnthropicSseStream := mkBridge {
  ab_has_started : bool;
  ab_has_finished : bool;
  ab_message_id : string;
  ab_model : string;
  ab_block_index : Z;
  ab_in_text_block : bool;
  ab_in_tool_block : bool
}.

Definition bridge_new (message_id model : string) : OpenAIToAnthropicSseStream :=
  mkBridge false false message_id model 0 false false.

Definition block_start (index : Z) (block : Json) : ClientEvent :=
  Event "content_block_start" (JObj [("type", JStr "content_block_start"); ("index", JInt index); ("content_block", block)]).

Definition block_delta (index : Z) (delta : Json) : ClientEvent :=
  Event "content_block_delta" (JObj [("type", JStr "content_block_delta"); ("index", JInt index); ("delta", delta)]).

Definition block_stop (index : Z) : ClientEvent :=
  Event "content_block_stop" (JObj [("type", JStr "content_block_stop"); ("index", JInt index)]).

Definition EMPTY_TEXT : Json := JObj [("type", JStr "text"); ("text", JStr "")]%string.

(** ** The handlers: the events they append and the new state *)

Definition emit_message_start (s : OpenAIToAnthropicSseStream) : list ClientEvent * OpenAIToAnthropicSseStream :=
  let '(mkBridge started finished mid model _ _ tool) := s in
  if started then ([], s)
  else
    let message := JObj [("id", JStr mid); ("type", JStr "message"); ("role", JStr "assistant"); ("model", JStr model);
                         ("content", JArr []); ("stop_reason", JNull); ("stop_sequence", JNull);
                         ("usage", JObj [("input_tokens", JInt 0); ("output_tokens", JInt 0)])]%string in
    ([Event "message_start" (JObj [("type", JStr "message_start"); ("message", message)]%string); block_start 0 EMPTY_TEXT],
     mkBridge true finished mid model 0 true tool).

Definition handle_content_delta (content : string) (s : OpenAIToAnthropicSseStream)
    : list ClientEvent * OpenAIToAnthropicSseStream :=
  if (content =? "")%string then ([], s)
  else
    let '(mkBridge started finished mid model index text tool) := s in
    let '(e1, index, tool) := if tool then ([block_stop index], wrap_add u32_max index 1, false) else ([], index, tool) in
    let e2 := if text then [] else [block_start index EMPTY_TEXT] in
    (e1 ++ e2 ++ [block_delta index (JObj [("type", JStr "text_delta"); ("text", JStr content)]%string)],
     mkBridge started finished mid model index true tool).

Definition transition_tool_block (id name : string) (s : OpenAIToAnthropicSseStream)
    : list ClientEvent * OpenAIToAnthropicSseStream :=
  let '(mkBridge started finished mid model index text tool) := s in
  let '(e1, index, text) := if text || tool then ([block_stop index], wrap_add u32_max index 1, false) else ([], index, text) in
  (e1 ++ [block_start index (JObj [("type", JStr "tool_use"); ("id", JStr id); ("name", JStr name); ("input", JObj [])]%string)],
   mkBridge started finished mid model index text true).

Definition append_tool_call_arguments_delta (args : string) (s : OpenAIToAnthropicSseStream) : list ClientEvent :=
  [block_delta (ab_block_index s) (JObj [("type", JStr "input_json_delta"); ("partial_json", JStr args)]%string)].

Definition handle_tool_call_item (tc : OpenAIToolCallProbe) (s : OpenAIToAnthropicSseStream)
    : list ClientEvent * OpenAIToAnthropicSseStream :=
  let '(e1, s) := match tcp_id tc with
                  | Some id => transition_tool_block id (default ""%string (tcp_function tc ≫= fcp_name)) s
                  | None => ([], s)
                  end in
  match tcp_function tc ≫= fcp_arguments with
  | Some args => if (args =? "")%string then (e1, s) else (e1 ++ append_tool_call_arguments_delta args s, s)
  | None => (e1, s)
  end.

Definition anthropic_stop (finish_reason : string) : string :=
  if (finish_reason =? "length")%string then "max_tokens"
  else if ((finish_reason =? "tool_calls") || (finish_reason =? "function_call"))%string then "tool_use"
  else if (finish_reason =? "content_filter")%string then "stop_sequence"
  else "end_turn".

(** The literal the code appends: [event: message_stop] and its data. *)
Definition MESSAGE_STOP : str :=
  bytes_of "event: message_stop" ++ [10] ++ bytes_of "data: {" ++ [34] ++ bytes_of "type" ++ [34; 58; 34]
  ++ bytes_of "message_stop" ++ [34; 125; 10; 10].

Definition handle_finish_reason (finish_reason : string) (s : OpenAIToAnthropicSseStream)
    : list ClientEvent * OpenAIToAnthropicSseStream :=
  let '(mkBridge started finished mid model index text tool) := s in
  if finished then ([], s)
  else
    ((if text || tool then [block_stop index] else [])
     ++ [Event "message_delta" (JObj [("type", JStr "message_delta");
                                      ("delta", JObj [("stop_reason", JStr (anthropic_stop finish_reason))]);
                                      ("usage", JObj [("output_tokens", JInt 0)])]%string);
         Literal MESSAGE_STOP],
     mkBridge started true mid model index text tool).

Fixpoint handle_tool_calls (tcs : list OpenAIToolCallProbe) (s : OpenAIToAnthropicSseStream)
    : list ClientEvent * OpenAIToAnthropicSseStream :=
  match tcs with
  | [] => ([], s)
  | tc :: tcs' =>
      let '(e1, s) := handle_tool_call_item tc s in
      let '(e2, s) := handle_tool_calls tcs' s in (e1 ++ e2, s)
  end.

Definition process_openai_probe (v : OpenAISseProbe) (s : OpenAIToAnthropicSseStream)
    : list ClientEvent * OpenAIToAnthropicSseStream :=
  let '(e0, s) := emit_message_start s in
  match osp_choices v ≫= head with
  | None => (e0, s)
  | Some first =>
      let '(e1, s) :=
        match chp_delta first with
        | None => ([], s)
        | Some delta =>
            let '(ec, s) := match dlp_content delta with Some c => handle_content_delta c s | None => ([], s) end in
            let '(et, s) := handle_tool_calls (default [] (dlp_tool_calls delta)) s in
            (ec ++ et, s)
        end in
      let '(e2, s) := match chp_finish_reason first with Some r => handle_finish_reason r s | None => ([], s) end in
      (e0 ++ e1 ++ e2, s)
  end.

(** [str::trim_start_matches] of a string pattern that is not empty. *)
Fixpoint trim_start_matches (fuel : nat) (p s : str) : str :=
  match fuel with
  | O => s
  | S n => match strip_prefix p s with Some rest => trim_start_matches n p rest | None => s end
  end.

Section bridge.
(** [serde_json::from_slice::<OpenAISseProbe>]. *)
Variable probe : str -> option OpenAISseProbe.

(** What a chunk is read as: only one that starts a data line and has no
    sentinel in it is looked at. *)
Definition chunk_probe (chunk : str) : option OpenAISseProbe :=
  let s := if utf8_valid chunk then chunk else [] in
  if bool_decide (bytes_of "data: " `prefix_of` s) && negb (contains_bytes (bytes_of "[DONE]") s)
  then probe (trim_bytes (trim_start_matches (length s) (bytes_of "data: ") s))
  else None.

Definition process_raw_chunk (chunk : str) (s : OpenAIToAnthropicSseStream)
    : option (list ClientEvent) * OpenAIToAnthropicSseStream :=
  match chunk_probe chunk with
  | Some v => let '(es, s) := process_openai_probe v s in (Some es, s)
  | None =>
      let text := if utf8_valid chunk then chunk else [] in
      if bool_decide (bytes_of "event: error" `prefix_of` text) || bool_decide (bytes_of ": keep-alive" `prefix_of` text)
      then (Some [Literal chunk], s) else (None, s)
  end.

(** [poll_next] until the inner stream ends. *)
Fixpoint bridge_run (chunks : list str) (s : OpenAIToAnthropicSseStream) : list ClientEvent * OpenAIToAnthropicSseStream :=
  match chunks with
  | [] => ([], s)
  | c :: cs =>
      let '(out, s) := process_raw_chunk c s in
      let '(es, s) := bridge_run cs s in (default [] out ++ es, s)
  end.
End bridge.

(** ** Specification: a client that reads the events *)

Inductive Block := TextBlock (text : string) | ToolBlock (id name arguments : string).

Inductive Phase := Fresh | Between | Open | Ended (stop_reason : string) | Stopped (stop_reason : string).

(** The blocks so far, the latest first. *)
Record Client := mkClient { cl_phase : Phase; cl_blocks : list Block }.

Definition client_new : Client := mkClient Fresh [].

Definition get_text (k : string) (v : Json) : option string := json_get k v ≫= as_str.

(** The block an event opens. *)
Definition read_block (v : Json) : option Block :=
  match get_text "type" v with
  | Some "text"%string => TextBlock <$> get_text "text" v
  | Some "tool_use"%string =>
      match get_text "id" v, get_text "name" v with Some id, Some name => Some (ToolBlock id name "") | _, _ => None end
  | _ => None
  end.

(** A delta must suit the kind of the open block. *)
Definition read_delta (v : Json) (b : Block) : option Block :=
  match get_text "type" v, b with
  | Some "text_delta"%string, TextBlock t => (fun s => TextBlock (t ++ s)) <$> get_text "text" v
  | Some "input_json_delta"%string, ToolBlock id name args => (fun s => ToolBlock id name (args ++ s)) <$> get_text "partial_json" v
  | _, _ => None
  end.

Definition has_index (n : nat) (payload : Json) : bool :=
  match json_get "index" payload with Some (JInt i) => i =? Z.of_nat n | _ => false end.

Definition client_event (name : string) (payload : Json) (c : Client) : option Client :=
  if negb (bool_decide (get_text "type" payload = Some name)) then None
  else match cl_phase c, cl_blocks c with
       | Fresh, _ => if (name =? "message_start")%string then Some (mkClient Between []) else None
       | Between, bs =>
           if (name =? "content_block_start")%string && has_index (length bs) payload
           then (fun b => mkClient Open (b :: bs)) <$> (json_get "content_block" payload ≫= read_block)
           else if (name =? "message_delta")%string
           then (fun r => mkClient (Ended r) bs) <$> (json_get "delta" payload ≫= get_text "stop_reason")
           else None
       | Open, b :: bs =>
           if negb (has_index (length bs) payload) then None
           else if (name =? "content_block_delta")%string
           then (fun b => mkClient Open (b :: bs)) <$> (json_get "delta" payload ≫= fun d => read_delta d b)
           else if (name =? "content_block_stop")%string then Some (mkClient Between (b :: bs)) else None
       | _, _ => None
       end.

Definition client_step (oc : option Client) (e : ClientEvent) : option Client :=
  match oc with
  | None => None
  | Some c =>
      match e with
      | Event name payload => client_event name payload c
      | Literal b =>
          if bool_decide (b = MESSAGE_STOP) then match cl_phase c with Ended r => Some (mkClient (Stopped r) (cl_blocks c)) | _ => None end
          else Some c
      end
  end.

(** ** What the chunks say: text, new calls and fragments of arguments *)

Inductive Item := Text (s : string) | Call (id name : string) | Args (s : string).

Definition nonempty_item (f : string -> Item) (o : option string) : list Item :=
  match o with Some s => if (s =? "")%string then [] else [f s] | None => [] end.

Definition call_items (tc : OpenAIToolCallProbe) : list Item :=
  match tcp_id tc with Some id => [Call id (default ""%string (tcp_function tc ≫= fcp_name))] | None => [] end
  ++ nonempty_item Args (tcp_function tc ≫= fcp_arguments).

Definition probe_choice (v : OpenAISseProbe) : option OpenAIChoiceProbe := osp_choices v ≫= head.

Definition delta_items (d : OpenAIDeltaProbe) : list Item :=
  nonempty_item Text (dlp_content d) ++ (default [] (dlp_tool_calls d) ≫= call_items).

Definition probe_items (v : OpenAISseProbe) : list Item :=
  match probe_choice v ≫= chp_delta with Some d => delta_items d | None => [] end.

Definition probe_finish (v : OpenAISseProbe) : option string := probe_choice v ≫= chp_finish_reason.

(** The blocks they amount to, the latest first; arguments before any call have no place. *)
Definition add_item (obs : option (list Block)) (i : Item) : option (list Block) :=
  match obs with
  | None => None
  | Some bs =>
      match i, bs with
      | Text s, TextBlock t :: bs' => Some (TextBlock (t ++ s) :: bs')
      | Text s, _ => Some (TextBlock s :: bs)
      | Call id name, _ => Some (ToolBlock id name "" :: bs)
      | Args s, ToolBlock id name args :: bs' => Some (ToolBlock id name (args ++ s) :: bs')
      | Args _, _ => None
      end
  end.

(** ** The client follows every event *)

(** Between the start and the stop, a block is open: the latest one. *)
Record follows (s : OpenAIToAnthropicSseStream) (bs : list Block) : Prop := mkFollows {
  fo_started : ab_has_started s = true;
  fo_finished : ab_has_finished s = false;
  fo_block : match bs with
             | [] => False
             | b :: bs' =>
                 ab_block_index s = Z.of_nat (length bs') /\
                 match b with
                 | TextBlock _ => ab_in_text_block s = true /\ ab_in_tool_block s = false
                 | ToolBlock _ _ _ => ab_in_text_block s = false /\ ab_in_tool_block s = true
                 end
             end
}.

Definition accepts (bs : list Block) (r : list ClientEvent * OpenAIToAnthropicSseStream) (bs' : list Block) : Prop :=
  foldl client_step (Some (mkClient Open bs)) r.1 = Some (mkClient Open bs') /\ follows r.2 bs'.

Ltac read_event :=
  unfold client_step, block_stop, block_start, block_delta, client_event; rewrite bool_decide_eq_true_2 by done;
  cbn -[Z.of_nat has_index];
  unfold has_index; cbn -[Z.of_nat]; rewrite ?Z.eqb_refl; cbn -[Z.of_nat].

Lemma read_stop b bs i : i = Z.of_nat (length bs) ->
  client_step (Some (mkClient Open (b :: bs))) (block_stop i) = Some (mkClient Between (b :: bs)).
Proof. intros ->. by read_event. Qed.

Lemma read_start bs i v b : i = Z.of_nat (length bs) -> read_block v = Some b ->
  client_step (Some (mkClient Between bs)) (block_start i v) = Some (mkClient Open (b :: bs)).
Proof. intros -> H. read_event. by rewrite H. Qed.

Lemma read_delta_event b bs i v b' : i = Z.of_nat (length bs) -> read_delta v b = Some b' ->
  client_step (Some (mkClient Open (b :: bs))) (block_delta i v) = Some (mkClient Open (b' :: bs)).
Proof. intros -> H. read_event. by rewrite H. Qed.

Lemma next_index n : Z.of_nat (S n) <= u32_max -> wrap_add u32_max (Z.of_nat n) 1 = Z.of_nat (S n).
Proof. intros H. unfold wrap_add. rewrite Z.mod_small by (unfold u32_max in *; lia). lia. Qed.

Lemma content_accepted c s bs bs' : (c =? "")%string = false -> follows s bs -> Z.of_nat (length bs) <= u32_max ->
  add_item (Some bs) (Text c) = Some bs' -> accepts bs (handle_content_delta c s) bs'.
Proof.
  intros Hc [H1 H2 H3] Hb Ha. destruct s as [started finished mid model index text tool], bs as [|b bs]; [done|].
  cbn [ab_has_started ab_has_finished ab_block_index ab_in_text_block ab_in_tool_block] in *. destruct H3 as [-> Hk].
  unfold accepts, handle_content_delta. rewrite Hc. destruct b as [t|id name args], Hk as [-> ->]; cbn in Ha; simplify_eq; cbn [app fst snd foldl].
  - erewrite read_delta_event; [|done|done]. split; [done|]. by repeat constructor.
  - rewrite next_index by done. rewrite read_stop by done.
    rewrite (read_start _ _ EMPTY_TEXT (TextBlock "")) by done. erewrite read_delta_event; [|done|done]. split; [done|]. by repeat constructor.
Qed.

Lemma call_accepted id name s bs : follows s bs -> Z.of_nat (length bs) <= u32_max ->
  accepts bs (transition_tool_block id name s) (ToolBlock id name "" :: bs).
Proof.
  intros [H1 H2 H3] Hb. destruct s as [started finished mid model index text tool], bs as [|b bs]; [done|].
  cbn [ab_has_started ab_has_finished ab_block_index ab_in_text_block ab_in_tool_block] in *. destruct H3 as [-> Hk].
  unfold accepts, transition_tool_block. assert (text || tool = true) as -> by (destruct b, Hk as [-> ->]; done).
  rewrite next_index by done. cbn [app fst snd foldl]. rewrite read_stop by done. erewrite read_start; [|done|done].
  split; [done|]. by repeat constructor.
Qed.

Lemma args_accepted args s bs bs' : follows s bs -> add_item (Some bs) (Args args) = Some bs' ->
  accepts bs (append_tool_call_arguments_delta args s, s) bs'.
Proof.
  intros F Ha. pose proof F as [H1 H2 H3]. destruct bs as [|[t|id name a] bs]; try done. destruct H3 as (Hi & Hx & Ht).
  cbn in Ha. simplify_eq. unfold accepts. cbn [fst snd append_tool_call_arguments_delta foldl].
  erewrite read_delta_event; [|done|done]. split; [done|]. constructor; [done|done|]. done.
Qed.

(** Steps in a row. *)
Lemma accepts_app bs r1 bs1 e2 s2 bs2 : accepts bs r1 bs1 ->
  accepts bs1 (e2, s2) bs2 -> accepts bs (r1.1 ++ e2, s2) bs2.
Proof. intros [H1 F1] [H2 F2]. split; [|done]. cbn [fst] in *. by rewrite foldl_app, H1. Qed.

Lemma accepts_nil s bs : follows s bs -> accepts bs ([], s) bs.
Proof. by split. Qed.

Lemma add_items_none l : foldl add_item None l = None.
Proof. by induction l. Qed.

(** Each item opens at most one block. *)
Lemma add_item_length bs i bs' : add_item (Some bs) i = Some bs' -> (length bs <= length bs' <= S (length bs))%nat.
Proof. destruct i, bs as [|[] ?]; cbn; intros; simplify_eq; cbn; lia. Qed.

Lemma add_items_length l bs bs' : foldl add_item (Some bs) l = Some bs' -> (length bs <= length bs' <= length bs + length l)%nat.
Proof.
  revert bs. induction l as [|i l IH]; intros bs H; [simplify_eq/=; lia|]. cbn [foldl] in H.
  destruct (add_item (Some bs) i) as [b1|] eqn:E; [|by rewrite add_items_none in H].
  apply add_item_length in E. apply IH in H. cbn [length]. lia.
Qed.

Lemma nonempty_accepted o s bs bs' : follows s bs -> Z.of_nat (length bs) <= u32_max ->
  foldl add_item (Some bs) (nonempty_item Text o) = Some bs' ->
  accepts bs (match o with Some c => handle_content_delta c s | None => ([], s) end) bs'.
Proof.
  intros F Hb H. destruct o as [c|]; cbn [nonempty_item] in H; [|cbn in H; simplify_eq; by apply accepts_nil].
  destruct (c =? "")%string eqn:E; [|by apply content_accepted].
  unfold handle_content_delta. rewrite E. cbn in H. simplify_eq. by apply accepts_nil.
Qed.

Lemma item_accepted tc s bs bs' : follows s bs -> Z.of_nat (length bs) <= u32_max ->
  foldl add_item (Some bs) (call_items tc) = Some bs' -> accepts bs (handle_tool_call_item tc s) bs'.
Proof.
  intros F Hb H. unfold handle_tool_call_item, call_items in *. rewrite foldl_app in H.
  set (r := match tcp_id tc with Some id => transition_tool_block id _ s | None => ([], s) end).
  assert (exists bs1, accepts bs r bs1 /\ foldl add_item (Some bs1) (nonempty_item Args (tcp_function tc ≫= fcp_arguments)) = Some bs')
    as (bs1 & A & H1).
  { unfold r. destruct (tcp_id tc) as [id|]; cbn [foldl] in H.
    - eexists. split; [by apply call_accepted|done].
    - exists bs. split; [by apply accepts_nil|done]. }
  clearbody r. destruct r as [e1 s1]. destruct (tcp_function tc ≫= fcp_arguments) as [args|]; cbn [nonempty_item] in H1; [|by simplify_eq/=].
  destruct (args =? "")%string; [by simplify_eq/=|].
  eapply (accepts_app _ (e1, s1)); [exact A|]. apply args_accepted; [apply A|done].
Qed.

Lemma items_accepted tcs s bs bs' : follows s bs -> Z.of_nat (length bs') <= u32_max ->
  foldl add_item (Some bs) (tcs ≫= call_items) = Some bs' -> accepts bs (handle_tool_calls tcs s) bs'.
Proof.
  revert s bs. induction tcs as [|tc tcs IH]; intros s bs F Hb H; cbn [handle_tool_calls]; [simplify_eq/=; by apply accepts_nil|].
  rewrite bind_cons, foldl_app in H. destruct (foldl add_item (Some bs) (call_items tc)) as [bs1|] eqn:E; [|by rewrite add_items_none in H].
  pose proof (add_items_length _ _ _ E) as L1. pose proof (add_items_length _ _ _ H) as L2.
  pose proof (item_accepted tc s bs bs1 F ltac:(lia) E) as A. destruct (handle_tool_call_item tc s) as [e1 s1].
  pose proof (IH s1 bs1 (proj2 A) Hb H) as A2. destruct (handle_tool_calls tcs s1) as [e2 s2].
  by apply (accepts_app _ (e1, s1) bs1).
Qed.

(** One chunk without a finish reason, once the message has started. *)
Lemma probe_accepted v s bs bs' : follows s bs -> Z.of_nat (length bs') <= u32_max -> probe_finish v = None ->
  foldl add_item (Some bs) (probe_items v) = Some bs' -> accepts bs (process_openai_probe v s) bs'.
Proof.
  intros F Hb Hf H. unfold process_openai_probe, probe_finish, probe_items, probe_choice in *.
  assert (emit_message_start s = ([], s)) as -> by (destruct s; pose proof (fo_started _ _ F) as Hs; cbn in Hs; unfold emit_message_start; by rewrite Hs).
  destruct (osp_choices v ≫= head) as [first|]; [|cbn in H; simplify_eq; by apply accepts_nil]. cbn [mbind option_bind] in *.
  rewrite Hf. destruct (chp_delta first) as [d|]; [|cbn in H; simplify_eq; by apply accepts_nil]. unfold delta_items in H.
  rewrite foldl_app in H. destruct (foldl add_item (Some bs) (nonempty_item Text (dlp_content d))) as [bs1|] eqn:E; [|by rewrite add_items_none in H].
  pose proof (add_items_length _ _ _ E) as L1. pose proof (add_items_length _ _ _ H) as L2.
  pose proof (nonempty_accepted (dlp_content d) s bs bs1 F ltac:(lia) E) as A.
  destruct (match dlp_content d with Some c => handle_content_delta c s | None => ([], s) end) as [ec s1].
  pose proof (items_accepted (default [] (dlp_tool_calls d)) s1 bs1 bs' (proj2 A) Hb H) as A2.
  destruct (handle_tool_calls (default [] (dlp_tool_calls d)) s1) as [et s2].
  rewrite app_nil_r. by apply (accepts_app _ (ec, s1) bs1).
Qed.

(** The finish reason comes last. *)
Definition without_finish (v : OpenAISseProbe) : OpenAISseProbe :=
  mkOpenAISseProbe (option_map (List.map (fun c => mkChoice (chp_delta c) None)) (osp_choices v)).

Lemma without_finish_spec v : probe_items (without_finish v) = probe_items v /\ probe_finish (without_finish v) = None.
Proof. destruct v as [[[|c cs]|]]; done. Qed.

Lemma process_finish v s :
  process_openai_probe v s =
  let '(e, s) := process_openai_probe (without_finish v) s in
  match probe_finish v with Some r => let '(e2, s) := handle_finish_reason r s in (e ++ e2, s) | None => (e, s) end.
Proof.
  unfold process_openai_probe, probe_finish, probe_choice. destruct (emit_message_start s) as [e0 s1].
  destruct v as [[[|[d f] cs]|]]; [done| |done]. cbn [osp_choices without_finish option_map List.map mbind option_bind head chp_delta chp_finish_reason].
  destruct (match d with Some _ => _ | None => _ end) as [e1 s2]. destruct f as [r|]; [|done].
  destruct (handle_finish_reason r s2). by rewrite app_nil_r, app_assoc.
Qed.

Lemma finish_accepted r s bs : follows s bs -> let '(e, s') := handle_finish_reason r s in
  foldl client_step (Some (mkClient Open bs)) e = Some (mkClient (Stopped (anthropic_stop r)) bs) /\
  ab_has_started s' = true.
Proof.
  intros [H1 H2 H3]. destruct s as [started finished mid model index text tool], bs as [|b bs]; [done|].
  cbn [ab_has_started ab_has_finished ab_block_index ab_in_text_block ab_in_tool_block] in *. destruct H3 as [-> Hk].
  unfold handle_finish_reason. rewrite H2. assert (text || tool = true) as -> by (destruct b, Hk as [-> ->]; done).
  split; [|done]. cbn [app foldl]. rewrite read_stop by done. cbn [foldl]. unfold client_step at 2, client_event.
  rewrite bool_decide_eq_true_2 by done. cbn. rewrite bool_decide_eq_true_2 by done. done.
Qed.

(** ** Runs *)

Section runs.
Variable probe : str -> option OpenAISseProbe.

Lemma bridge_run_app cs1 cs2 s :
  bridge_run probe (cs1 ++ cs2) s =
  let '(e1, s) := bridge_run probe cs1 s in let '(e2, s) := bridge_run probe cs2 s in (e1 ++ e2, s).
Proof.
  revert s. induction cs1 as [|c cs1 IH]; intros s; [cbn; by destruct (bridge_run _ _ _)|]. cbn [app bridge_run].
  destruct (process_raw_chunk probe c s) as [o s1]. rewrite IH. destruct (bridge_run probe cs1 s1) as [e1 s2].
  destruct (bridge_run probe cs2 s2) as [e2 s3]. by rewrite app_assoc.
Qed.

Lemma omap_split {A B} (f : A -> option B) l a v b : omap f l = a ++ v :: b ->
  exists l1 x l2, l = l1 ++ x :: l2 /\ omap f l1 = a /\ f x = Some v /\ omap f l2 = b.
Proof.
  revert a. induction l as [|x l IH]; intros a H; [by destruct a|]. cbn in H. destruct (f x) as [y|] eqn:E.
  - destruct a as [|y' a]; injection H as -> H.
    + subst b. by exists [], x, l.
    + apply IH in H as (l1 & z & l2 & -> & <- & ? & ?). exists (x :: l1), z, l2. cbn. by rewrite E.
  - apply IH in H as (l1 & z & l2 & -> & <- & ? & ?). exists (x :: l1), z, l2. cbn. by rewrite E.
Qed.

(** A chunk that is not read is passed on or dropped; the client does not mind. *)
Lemma unread_chunk c s oc : chunk_probe probe c = None ->
  exists es, process_raw_chunk probe c s = (es, s) /\ foldl client_step oc (default [] es) = oc.
Proof.
  intros H. unfold process_raw_chunk. rewrite H. destruct (_ || _) eqn:E; [|by exists None].
  exists (Some [Literal c]). split; [done|]. cbn [from_option id foldl]. destruct oc; [|done]. unfold client_step. rewrite bool_decide_eq_false_2; [done|].
  intros ->. vm_compute in E. done.
Qed.

Lemma run_accepted cs s bs bs' : follows s bs -> Z.of_nat (length bs') <= u32_max ->
  Forall (fun v => probe_finish v = None) (omap (chunk_probe probe) cs) ->
  foldl add_item (Some bs) (omap (chunk_probe probe) cs ≫= probe_items) = Some bs' -> accepts bs (bridge_run probe cs s) bs'.
Proof.
  revert s bs. induction cs as [|c cs IH]; intros s bs F Hb Hf H; cbn [bridge_run]; [cbn in H; simplify_eq; by apply accepts_nil|].
  cbn in Hf, H. destruct (chunk_probe probe c) as [v|] eqn:Ev.
  - apply Forall_cons in Hf as [Hv Hf]. rewrite bind_cons, foldl_app in H.
    destruct (foldl add_item (Some bs) (probe_items v)) as [bs1|] eqn:E; [|by rewrite add_items_none in H].
    pose proof (add_items_length _ _ _ H) as L. unfold process_raw_chunk. rewrite Ev.
    pose proof (probe_accepted v s bs bs1 F ltac:(lia) Hv E) as A. destruct (process_openai_probe v s) as [e1 s1].
    pose proof (IH s1 bs1 (proj2 A) Hb Hf H) as A2. destruct (bridge_run probe cs s1) as [e2 s2]. cbn [default].
    by apply (accepts_app _ (e1, s1) bs1).
  - destruct (unread_chunk c s (Some (mkClient Open bs)) Ev) as (es & -> & He).
    pose proof (IH s bs F Hb Hf H) as [A1 A2]. destruct (bridge_run probe cs s) as [e2 s2]. split; [|done]. cbn [fst] in *.
    by rewrite foldl_app, He.
Qed.

(** Chunks without choices say nothing more. *)
Lemma run_silent cs s oc : ab_has_started s = true -> Forall (fun v => probe_choice v = None) (omap (chunk_probe probe) cs) ->
  foldl client_step oc (bridge_run probe cs s).1 = oc.
Proof.
  intros Hs. induction cs as [|c cs IH]; intros H; [done|]. cbn [bridge_run]. cbn in H. destruct (chunk_probe probe c) as [v|] eqn:Ev.
  - apply Forall_cons in H as [Hv H]. unfold process_raw_chunk. rewrite Ev. unfold process_openai_probe.
    unfold probe_choice in Hv. rewrite Hv. assert (emit_message_start s = ([], s)) as ->.
    { destruct s. cbn in Hs. unfold emit_message_start. by rewrite Hs. }
    specialize (IH H). by destruct (bridge_run probe cs s).
  - destruct (unread_chunk c s oc Ev) as (es & -> & He). specialize (IH H). destruct (bridge_run probe cs s). cbn [fst] in *.
    by rewrite foldl_app, He.
Qed.

(** The message starts with the first chunk that is read. *)
Definition started (mid model : string) : OpenAIToAnthropicSseStream := mkBridge true false mid model 0 true false.

Lemma run_starts cs mid model : omap (chunk_probe probe) cs <> [] ->
  foldl client_step (Some client_new) (bridge_run probe cs (bridge_new mid model)).1 =
  foldl client_step (Some (mkClient Open [TextBlock ""])) (bridge_run probe cs (started mid model)).1.
Proof.
  induction cs as [|c cs IH]; [done|]. intros H. cbn in H. cbn [bridge_run]. destruct (chunk_probe probe c) as [v|] eqn:Ev.
  - unfold process_raw_chunk. rewrite Ev. unfold process_openai_probe. cbn [emit_message_start bridge_new started].
    fold (started mid model). destruct (osp_choices v ≫= head) as [first|].
    + destruct (match chp_delta first with Some _ => _ | None => _ end) as [e1 s1].
      destruct (match chp_finish_reason first with Some _ => _ | None => _ end) as [e2 s2].
      destruct (bridge_run probe cs s2) as [e3 s3]. cbn [default fst]. rewrite !foldl_app. do 3 f_equal.
    + clear IH. destruct (bridge_run probe cs (started mid model)) as [e3 s3]. cbn [default fst].
      rewrite !foldl_app. f_equal.
  - destruct (unread_chunk c (bridge_new mid model) (Some client_new) Ev) as (es & -> & He).
    destruct (unread_chunk c (started mid model) (Some (mkClient Open [TextBlock ""])) Ev) as (es' & -> & He').
    specialize (IH H). destruct (bridge_run probe cs (bridge_new mid model)), (bridge_run probe cs (started mid model)).
    cbn [fst] in *. by rewrite !foldl_app, He, He'.
Qed.

Lemma started_follows mid model : follows (started mid model) [TextBlock ""].
Proof. by repeat constructor. Qed.

(** A stream that finishes: everything up to its finish reason, then the stop. *)
Lemma finished_run cs mid model vs1 v vs2 r bs : omap (chunk_probe probe) cs = vs1 ++ v :: vs2 ->
  Forall (fun v => probe_finish v = None) vs1 -> probe_finish v = Some r -> Forall (fun v => probe_choice v = None) vs2 ->
  foldl add_item (Some [TextBlock ""]) ((vs1 ++ [v]) ≫= probe_items) = Some bs -> Z.of_nat (length bs) <= u32_max ->
  foldl client_step (Some client_new) (bridge_run probe cs (bridge_new mid model)).1 = Some (mkClient (Stopped (anthropic_stop r)) bs).
Proof.
  intros Ho Hf Hv Hs Hi Hb. rewrite run_starts by (rewrite Ho; by destruct vs1).
  destruct (omap_split _ _ _ _ _ Ho) as (cs1 & c & cs2 & -> & H1 & Hc & H2). rewrite bridge_run_app. cbn [bridge_run].
  rewrite bind_app, foldl_app in Hi. change ([v] ≫= probe_items) with (probe_items v ++ []) in Hi. rewrite app_nil_r in Hi.
  destruct (foldl add_item _ (vs1 ≫= probe_items)) as [bs1|] eqn:E1; [|by rewrite add_items_none in Hi].
  pose proof (add_items_length _ _ _ Hi) as L.
  pose proof (run_accepted cs1 (started mid model) [TextBlock ""] bs1 (started_follows mid model) ltac:(lia) ltac:(by rewrite H1) ltac:(by rewrite H1)) as A1.
  destruct (bridge_run probe cs1 (started mid model)) as [e1 s1]. destruct A1 as [A1 F1]. cbn [fst snd] in A1, F1.
  unfold process_raw_chunk. rewrite Hc, process_finish. destruct (without_finish_spec v) as [W1 W2].
  pose proof (probe_accepted (without_finish v) s1 bs1 bs F1 Hb W2 ltac:(by rewrite W1)) as A2.
  destruct (process_openai_probe (without_finish v) s1) as [e2 s2]. destruct A2 as [A2 F2]. cbn [fst snd] in A2, F2. rewrite Hv.
  pose proof (finish_accepted r s2 bs F2) as A3. destruct (handle_finish_reason r s2) as [e3 s3]. destruct A3 as [A3 Hst].
  pose proof (run_silent cs2 s3 (Some (mkClient (Stopped (anthropic_stop r)) bs)) Hst ltac:(by rewrite H2)) as A4.
  destruct (bridge_run probe cs2 s3) as [e4 s4]. cbn [fst from_option id] in *. by rewrite !foldl_app, A1, A2, A3.
Qed.

(** A frame of the pipeline is read as its payload, unless that mentions the sentinel. *)
Definition data_frame (payload : str) : str := bytes_of "data: " ++ payload ++ [10; 10].

Lemma ws_len_rev_brace r : ws_len_rev (125 :: r) = 0%nat.
Proof.
  assert (forall x : Z, (ws_len [x; 125%Z] =? 2)%nat = false) as H2 by (intros x; unfold ws_len; repeat case_match; done).
  assert (forall x y : Z, (ws_len [x; y; 125%Z] =? 3)%nat = false) as H3 by (intros x y; unfold ws_len; repeat case_match; done).
  destruct r as [|b2 [|b1 r]]; cbn -[ws_len Nat.eqb]; [done|by rewrite H2|by rewrite H2, H3].
Qed.

Lemma trim_by_stop len n bs : len bs = 0%nat -> trim_by len n bs = bs.
Proof. intros H. destruct n; cbn; [done|]. by rewrite H. Qed.

(** A JSON object followed by the end of the frame. *)
Lemma trim_object p : trim_bytes (123 :: p ++ [125; 10; 10]) = 123 :: p ++ [125].
Proof.
  unfold trim_bytes. rewrite (trim_by_stop ws_len) by done. cbv zeta.
  replace (reverse (123 :: p ++ [125; 10; 10])) with (10 :: 10 :: 125 :: reverse (123 :: p)) by (rewrite !reverse_cons, reverse_app; by rewrite <- !app_assoc).
  replace (length (123 :: p ++ [125; 10; 10])) with (S (S (S (S (length p))))) by (cbn; rewrite length_app; cbn; lia).
  cbn [trim_by]. destruct (reverse (123 :: p)) as [|b r] eqn:E; [by apply (f_equal reverse) in E; rewrite reverse_involutive in E|].
  replace (ws_len_rev (10 :: 10 :: 125 :: b :: r)) with 1%nat by done. cbn [drop].
  replace (ws_len_rev (10 :: 125 :: b :: r)) with 1%nat by done. cbn [drop]. rewrite ws_len_rev_brace.
  by rewrite <- E, reverse_cons, reverse_involutive.
Qed.

Lemma data_frame_read p : utf8_valid (123 :: p ++ [125]) = true -> contains_bytes (bytes_of "[DONE]") (data_frame (123 :: p ++ [125])) = false ->
  chunk_probe probe (data_frame (123 :: p ++ [125])) = probe (123 :: p ++ [125]).
Proof.
  intros Hu Hd. unfold chunk_probe. assert (utf8_valid (data_frame (123 :: p ++ [125])) = true) as ->.
  { unfold data_frame. rewrite utf8_valid_app by done. by rewrite utf8_valid_app. }
  rewrite Hd. cbn [negb]. rewrite bool_decide_eq_true_2 by (by apply prefix_app_r). cbn [andb]. f_equal.
  unfold data_frame. cbn [app]. rewrite <- app_assoc. cbn [app]. rewrite <- (trim_object p). f_equal.
Qed.

Lemma done_marker_drops_text p : contains_bytes (bytes_of "[DONE]") p = true -> chunk_probe probe (data_frame p) = None.
Proof.
  intros H. unfold chunk_probe. destruct (utf8_valid (data_frame p)); [|done].
  assert (contains_bytes (bytes_of "[DONE]") (data_frame p) = true) as ->; [|by rewrite andb_false_r].
  unfold data_frame. change (bytes_of "data: ") with [100; 97; 116; 97; 58; 32]. cbn [app contains_bytes]. rewrite !orb_true_iff.
  do 6 right. revert H. generalize [10; 10]. induction p as [|b p IH]; intros t H; [done|]. cbn [app contains_bytes] in *.
  apply orb_true_iff in H as [H%bool_decide_eq_true|H].
  - apply orb_true_iff. left. apply bool_decide_eq_true. change (b :: p ++ t) with ((b :: p) ++ t). by apply prefix_app_r.
  - apply orb_true_iff. right. by apply IH.
Qed.

(** A stream that ends without a finish reason leaves the message open. *)
Lemma message_never_stops cs mid model bs : Forall (fun v => probe_finish v = None) (omap (chunk_probe probe) cs) ->
  omap (chunk_probe probe) cs <> [] -> foldl add_item (Some [TextBlock ""]) (omap (chunk_probe probe) cs ≫= probe_items) = Some bs ->
  Z.of_nat (length bs) <= u32_max ->
  foldl client_step (Some client_new) (bridge_run probe cs (bridge_new mid model)).1 = Some (mkClient Open bs).
Proof.
  intros Hf Hn Hi Hb. rewrite run_starts by done. by apply (run_accepted cs (started mid model)).
Qed.
End runs.

(** ** Theorem *)

Definition block_text (b : Block) : string := match b with TextBlock t => t | ToolBlock _ _ _ => "" end.
Definition blocks_text (bs : list Block) : string := foldr (fun b t => (t ++ block_text b)%string) ""%string bs.
Definition item_text (i : Item) : string := match i with Text s => s | _ => "" end.
Definition items_text (l : list Item) : string := foldl (fun t i => (t ++ item_text i)%string) ""%string l.

Lemma append_empty s : (s ++ "")%string = s.
Proof. induction s as [|c s IH]; [done|]. exact (f_equal (String c) IH). Qed.

Lemma append_assoc a b c : (a ++ b ++ c = (a ++ b) ++ c)%string.
Proof. induction a as [|x a IH]; [done|]. exact (f_equal (String x) IH). Qed.

Lemma add_item_text bs i bs' : add_item (Some bs) i = Some bs' -> blocks_text bs' = (blocks_text bs ++ item_text i)%string.
Proof.
  destruct i, bs as [|[t|id' name' a] bs]; cbn; intros H; simplify_eq; cbn; rewrite ?append_empty; try done.
  apply append_assoc.
Qed.

Lemma add_items_text l bs bs' t : foldl add_item (Some bs) l = Some bs' -> blocks_text bs = t ->
  blocks_text bs' = foldl (fun t i => (t ++ item_text i)%string) t l.
Proof.
  revert bs t. induction l as [|i l IH]; intros bs t H <-; [by simplify_eq/=|]. cbn [foldl] in *.
  destruct (add_item (Some bs) i) as [b1|] eqn:E; [|by rewrite add_items_none in H]. apply add_item_text in E.
  by apply (IH b1).
Qed.

(** ** What the chunks say to a client of the chat completion API *)

(** A chunk with the index of each tool call, and what the probe keeps of it. *)
Record WireDelta := mkWireDelta { wd_content : option string; wd_tool_calls : option (list (Z * OpenAIToolCallProbe)) }.
Record WireChoice := mkWireChoice { wch_delta : option WireDelta; wch_finish_reason : option string }.
Record WireChunk := mkWireChunk { wk_choices : option (list WireChoice) }.

Definition forget_delta (d : WireDelta) : OpenAIDeltaProbe := mkDeltaProbe (wd_content d) (option_map (map snd) (wd_tool_calls d)).
Definition forget_choice (c : WireChoice) : OpenAIChoiceProbe := mkChoice (option_map forget_delta (wch_delta c)) (wch_finish_reason c).
Definition forget (w : WireChunk) : OpenAISseProbe := mkOpenAISseProbe (option_map (map forget_choice) (wk_choices w)).

(** The payload a chunk is read from. *)
Definition chunk_payload (chunk : str) : option str :=
  let s := if utf8_valid chunk then chunk else [] in
  if bool_decide (bytes_of "data: " `prefix_of` s) && negb (contains_bytes (bytes_of "[DONE]") s)
  then Some (trim_bytes (trim_start_matches (length s) (bytes_of "data: ") s)) else None.

Inductive WireItem :=
  | WText (s : string)
  | WCall (index : Z) (id name : string)
  | WName (index : Z) (name : string)
  | WArgs (index : Z) (s : string).

Definition opt_item (f : string -> WireItem) (o : option string) : list WireItem :=
  match o with Some s => if (s =? "")%string then [] else [f s] | None => [] end.

Definition wire_call (tc : Z * OpenAIToolCallProbe) : list WireItem :=
  let name := tcp_function tc.2 ≫= fcp_name in
  match tcp_id tc.2 with
  | Some id => [WCall tc.1 id (default ""%string name)]
  | None => opt_item (WName tc.1) name
  end ++ opt_item (WArgs tc.1) (tcp_function tc.2 ≫= fcp_arguments).

Definition wire_choice (w : WireChunk) : option WireChoice := wk_choices w ≫= head.
Definition wire_finish (w : WireChunk) : option string := wire_choice w ≫= wch_finish_reason.
Definition wire_items (w : WireChunk) : list WireItem :=
  match wire_choice w ≫= wch_delta with
  | Some d => opt_item WText (wd_content d) ++ (default [] (wd_tool_calls d) ≫= wire_call)
  | None => []
  end.

(** The text is joined; a fragment belongs to the call of its index. *)
Definition wire_text (l : list WireItem) : string :=
  foldl (fun t i => match i with WText s => t ++ s | _ => t end)%string ""%string l.

Fixpoint call_at (i : Z) (f : string * string * string -> string * string * string)
    (calls : list (Z * (string * string * string))) : list (Z * (string * string * string)) :=
  match calls with
  | [] => [(i, f (""%string, ""%string, ""%string))]
  | (j, c) :: calls' => if j =? i then (j, f c) :: calls' else (j, c) :: call_at i f calls'
  end.

Definition wire_item (calls : list (Z * (string * string * string))) (i : WireItem) : list (Z * (string * string * string)) :=
  match i with
  | WText _ => calls
  | WCall n id name => call_at n (fun c => (id, name, c.2)) calls
  | WName n name => call_at n (fun c => (c.1.1, name, c.2)) calls
  | WArgs n s => call_at n (fun c => (c.1.1, c.1.2, c.2 ++ s)%string) calls
  end.

Definition wire_calls (l : list WireItem) : list (Z * (string * string * string)) := foldl wire_item [] l.

(** The order the bridge relies on: an id opens a call of a new index, and the
    other fragments of a call follow it before any text and any other call. *)
Fixpoint orderly (current : option Z) (seen : list Z) (l : list WireItem) : bool :=
  match l with
  | [] => true
  | WText _ :: l' => orderly None seen l'
  | WCall i _ _ :: l' => negb (bool_decide (i ∈ seen)) && orderly (Some i) (i :: seen) l'
  | WName _ _ :: _ => false
  | WArgs i _ :: l' => bool_decide (current = Some i) && orderly current seen l'
  end.

Definition block_call (b : Block) : option (string * string * string) :=
  match b with ToolBlock id name args => Some (id, name, args) | TextBlock _ => None end.

(** The calls of the blocks, the earliest first. *)
Definition blocks_calls (bs : list Block) : list (string * string * string) := omap block_call (reverse bs).

(** What the probe keeps of an item. *)
Definition forget_item (i : WireItem) : list Item :=
  match i with WText s => [Text s] | WCall _ id name => [Call id name] | WName _ _ => [] | WArgs _ s => [Args s] end.

Lemma opt_item_forget f g o : (forall s, forget_item (f s) = [g s]) -> opt_item f o ≫= forget_item = nonempty_item g o.
Proof. intros H. destruct o as [s|]; cbn; [|done]. destruct (s =? "")%string; cbn; [done|]. by rewrite H, app_nil_r. Qed.

Lemma wire_call_forget tc : wire_call tc ≫= forget_item = call_items tc.2.
Proof.
  unfold wire_call, call_items. rewrite bind_app, (opt_item_forget _ Args) by done. f_equal.
  destruct (tcp_id tc.2) as [id|]; [done|]. destruct (tcp_function tc.2 ≫= fcp_name) as [n|]; cbn; [|done]. by destruct (n =? "")%string.
Qed.

Lemma wire_items_forget w : wire_items w ≫= forget_item = probe_items (forget w).
Proof.
  unfold wire_items, probe_items, wire_choice, probe_choice, forget. cbn.
  destruct (wk_choices w) as [[|c l]|]; cbn; [done| |done]. destruct (wch_delta c) as [d|]; cbn; [|done].
  rewrite bind_app, (opt_item_forget _ Text) by done. unfold delta_items. f_equal. cbn.
  destruct (wd_tool_calls d) as [tcs|]; cbn; [|done].
  induction tcs as [|tc tcs IH]; [done|]. cbn. rewrite bind_app, IH. f_equal. apply wire_call_forget.
Qed.

Lemma wire_finish_forget w : probe_finish (forget w) = wire_finish w.
Proof. unfold probe_finish, probe_choice, wire_finish, wire_choice, forget. cbn. by destruct (wk_choices w) as [[|c l]|]. Qed.

Lemma wire_choice_forget w : wire_choice w = None -> probe_choice (forget w) = None.
Proof. unfold probe_choice, wire_choice, forget. cbn. by destruct (wk_choices w) as [[|c l]|]. Qed.

Lemma chunk_probe_forget (wire : str -> option WireChunk) c :
  chunk_probe (fun s => forget <$> wire s) c = forget <$> (chunk_payload c ≫= wire).
Proof. unfold chunk_probe, chunk_payload. by destruct (bool_decide _ && _). Qed.

Lemma chunks_forget (wire : str -> option WireChunk) (cs : list str) :
  omap (chunk_probe (fun s => forget <$> wire s)) cs = forget <$> omap (fun c => chunk_payload c ≫= wire) cs.
Proof.
  induction cs as [|c cs IH]; [done|]. change (c :: cs) with ([c] ++ cs). rewrite !omap_app, fmap_app, IH. f_equal.
  cbn. rewrite chunk_probe_forget. by destruct (chunk_payload c ≫= wire).
Qed.

(** *** Orderly fragments belong to the block that is open *)

Lemma call_at_new i f calls : i ∉ calls.*1 -> call_at i f calls = calls ++ [(i, f (""%string, ""%string, ""%string))].
Proof.
  induction calls as [|[j c] calls IH]; [done|]. cbn. intros Hi. apply not_elem_of_cons in Hi as [Hi Hr].
  destruct (Z.eqb_spec j i); [congruence|]. by rewrite IH.
Qed.

Lemma call_at_last i f calls c : i ∉ calls.*1 -> call_at i f (calls ++ [(i, c)]) = calls ++ [(i, f c)].
Proof.
  induction calls as [|[j d] calls IH]; cbn; [by rewrite Z.eqb_refl|]. intros Hi. apply not_elem_of_cons in Hi as [Hi Hr].
  destruct (Z.eqb_spec j i); [congruence|]. by rewrite IH.
Qed.

Lemma blocks_calls_cons b bs : blocks_calls (b :: bs) = blocks_calls bs ++ option_list (block_call b).
Proof. unfold blocks_calls. rewrite reverse_cons, omap_app. cbn. by destruct (block_call b). Qed.

(** The blocks hold the calls so far, and the current call is the open block. *)
Record routed (current : option Z) (seen : list Z) (calls : list (Z * (string * string * string))) (bs : list Block) : Prop := {
  ro_calls : blocks_calls bs = calls.*2;
  ro_seen : forall i, i ∈ calls.*1 -> i ∈ seen;
  ro_current : forall i, current = Some i -> exists calls' id name args bs',
    calls = calls' ++ [(i, (id, name, args))] /\ bs = ToolBlock id name args :: bs' /\ i ∉ calls'.*1
}.

Lemma orderly_step current seen calls bs it l :
  orderly current seen (it :: l) = true -> routed current seen calls bs ->
  exists current' seen' bs', foldl add_item (Some bs) (forget_item it) = Some bs' /\ (length bs' <= S (length bs))%nat /\
    orderly current' seen' l = true /\ routed current' seen' (wire_item calls it) bs'.
Proof.
  intros Ho [Hc Hs Hcur]. destruct it as [s|i id name|i name|i s]; cbn [orderly] in Ho.
  - exists None, seen. cbn [wire_item forget_item foldl].
    destruct bs as [|[t|id name args] bs]; cbn; eexists; (split; [done|]); (split; [cbn; lia|]); (split; [done|]); split; try done;
      rewrite <- Hc, !blocks_calls_cons; cbn; by rewrite !app_nil_r.
  - apply andb_true_iff in Ho as [Hn%negb_true_iff%bool_decide_eq_false Ho]. exists (Some i), (i :: seen), (ToolBlock id name "" :: bs).
    assert (i ∉ calls.*1) as Hi by auto. cbn [wire_item]. rewrite call_at_new by done.
    split; [by destruct bs|]. split; [cbn; lia|]. split; [done|]. split.
    + rewrite blocks_calls_cons, Hc, fmap_app. done.
    + intros j. rewrite fmap_app. cbn. intros [Hj| ->%list_elem_of_singleton]%elem_of_app; [right; auto|by left].
    + intros j [= <-]. by exists calls, id, name, ""%string, bs.
  - done.
  - apply andb_true_iff in Ho as [->%bool_decide_eq_true Ho]. destruct (Hcur i eq_refl) as (calls' & id & name & args & bs' & -> & -> & Hi).
    exists (Some i), seen, (ToolBlock id name (args ++ s) :: bs'). cbn [wire_item]. rewrite call_at_last by done.
    split; [done|]. split; [cbn; lia|]. split; [done|]. split.
    + rewrite blocks_calls_cons, fmap_app in *. cbn in *. by apply app_inj_tail in Hc as [-> _].
    + intros j Hj. apply Hs. rewrite fmap_app in *. done.
    + intros j [= <-]. by exists calls', id, name, (args ++ s)%string, bs'.
Qed.

Lemma orderly_routed l current seen calls bs : orderly current seen l = true -> routed current seen calls bs ->
  exists bs', foldl add_item (Some bs) (l ≫= forget_item) = Some bs' /\ (length bs' <= length l + length bs)%nat /\
    blocks_calls bs' = (foldl wire_item calls l).*2.
Proof.
  revert current seen calls bs. induction l as [|it l IH]; intros current seen calls bs Ho Hr.
  { exists bs. split; [done|]. split; [cbn; lia|]. apply (ro_calls _ _ _ _ Hr). }
  destruct (orderly_step _ _ _ _ _ _ Ho Hr) as (c1 & s1 & bs1 & H1 & L1 & Ho1 & Hr1).
  destruct (IH _ _ _ _ Ho1 Hr1) as (bs2 & H2 & L2 & Hc2). exists bs2.
  rewrite bind_cons, foldl_app, H1. split; [done|]. split; [cbn; lia|done].
Qed.

Lemma wire_text_forget l t : foldl (fun t i => (t ++ item_text i)%string) t (l ≫= forget_item)
  = foldl (fun t i => match i with WText s => t ++ s | _ => t end)%string t l.
Proof.
  revert t. induction l as [|i l IH]; intros t; [done|]. rewrite bind_cons, foldl_app, IH.
  by destruct i; cbn; rewrite ?append_empty.
Qed.

(** C29. An Anthropic client can follow an orderly answer.  Take any chunks of a
    chat completion with keep-alives and sentinels between them, of which one
    carries the finish reason and only chunks without choices are read after
    it; let each tool call open with its id and its name under a new index, and its
    other fragments follow before any text and any other call.  A
    client that checks every event (one start; blocks numbered from 0, opened
    and closed in turn; deltas of the open block and of its kind; the stop
    reason; one stop) accepts them all, and ends with all the text and with the
    calls a client of the chat completion API puts together by index: each with
    its id, its name and its own arguments, in order, and stopped with the
    reason of the finish chunk.  A frame is read as its payload unless that
    contains the sentinel, and then it is lost. *)
Theorem anthropic_client_follows (wire : str -> option WireChunk) (cs : list str) mid model ws1 w ws2 r :
  let probe s := forget <$> wire s in
  let items := (ws1 ++ [w]) ≫= wire_items in
  omap (fun c => chunk_payload c ≫= wire) cs = ws1 ++ w :: ws2 ->
  Forall (fun u => wire_finish u = None) ws1 -> wire_finish w = Some r -> Forall (fun u => wire_choice u = None) ws2 ->
  orderly None [] items = true -> Z.of_nat (length items) < u32_max ->
  (exists bs, foldl client_step (Some client_new) (bridge_run probe cs (bridge_new mid model)).1
      = Some (mkClient (Stopped (anthropic_stop r)) bs) /\
    blocks_text bs = wire_text items /\ blocks_calls bs = (wire_calls items).*2) /\
  (forall p, utf8_valid (123 :: p ++ [125]) = true ->
     chunk_probe probe (data_frame (123 :: p ++ [125])) =
     if contains_bytes (bytes_of "[DONE]") (data_frame (123 :: p ++ [125])) then None else probe (123 :: p ++ [125])).
Proof.
  intros probe items Ho Hf Hv Hs Hord Hlen. split.
  - destruct (orderly_routed items None [] [] [TextBlock ""] Hord) as (bs & Hb & Hl & Hc); [by split; [| |]|].
    assert (items ≫= forget_item = ((forget <$> ws1) ++ [forget w]) ≫= probe_items) as Hi.
    { unfold items. change [forget w] with (forget <$> [w]). rewrite <- fmap_app. generalize (ws1 ++ [w]). intros l.
      induction l as [|u l IH]; [done|]. rewrite fmap_cons, !bind_cons, bind_app, IH. by rewrite wire_items_forget. }
    exists bs. split; [|split; [|done]].
    + apply (finished_run probe cs mid model (forget <$> ws1) (forget w) (forget <$> ws2)).
      * unfold probe. by rewrite chunks_forget, Ho, fmap_app.
      * apply Forall_fmap. eapply Forall_impl; [exact Hf|]. intros u Hu. exact (eq_trans (wire_finish_forget u) Hu).
      * by rewrite wire_finish_forget.
      * apply Forall_fmap. eapply Forall_impl; [exact Hs|]. intros u. apply wire_choice_forget.
      * by rewrite <- Hi.
      * cbn in Hl. lia.
    + unfold wire_text. rewrite <- wire_text_forget. by eapply add_items_text.
  - intros p Hu. destruct (contains_bytes _ (data_frame _)) eqn:E; [|by apply data_frame_read].
    unfold chunk_probe. destruct (utf8_valid (data_frame _)); [|done]. by rewrite E, andb_false_r.
Qed.

(** Text, then two calls of which the first gets its arguments in two
    fragments; a keep-alive in between, the usage chunk and the sentinel after. *)
Definition letters (c : Z) : str := data_frame [123; c; 125].
Definition example_wire (s : str) : option WireChunk :=
  let call id name args := mkToolCallItem id (Some (mkFunctionCallProbe name args)) in
  let chunk content calls finish := Some (mkWireChunk (Some [mkWireChoice (Some (mkWireDelta content calls)) finish])) in
  match s with
  | [123; 1; 125] => chunk (Some "Hi"%string) None None
  | [123; 2; 125] => chunk None (Some [(0, call (Some "a"%string) (Some "f"%string) (Some "{"%string))]) None
  | [123; 3; 125] => chunk None (Some [(0, call None None (Some "}"%string)); (1, call (Some "b"%string) (Some "g"%string) None)]) None
  | [123; 4; 125] => chunk None None (Some "tool_calls"%string)
  | [123; 5; 125] => Some (mkWireChunk (Some []))
  | _ => None
  end.

Lemma anthropic_client_follows_witness :
  exists bs, foldl client_step (Some client_new)
    (bridge_run (fun s => forget <$> example_wire s)
       [letters 1; bytes_of ": keep-alive"; letters 2; letters 3; letters 4; letters 5; data_frame (bytes_of "[DONE]")]
       (bridge_new "msg" "m")).1
  = Some (mkClient (Stopped "tool_use") bs)
  /\ blocks_text bs = "Hi"%string /\ blocks_calls bs = [("a", "f", "{}"); ("b", "g", "")]%string.
Proof.
  refine (proj1 (anthropic_client_follows example_wire _ "msg" "m"
    (omap example_wire [[123; 1; 125]; [123; 2; 125]; [123; 3; 125]])
    (default (mkWireChunk None) (example_wire [123; 4; 125])) [mkWireChunk (Some [])] "tool_calls" _ _ _ _ _ _)).
  - vm_compute. done.
  - repeat constructor.
  - done.
  - repeat constructor.
  - vm_compute. done.
  - vm_compute. done.
Defined.

(** Fragments of two calls that take turns end up in the call opened last, not
    in the call of their index. *)
Lemma interleaved_arguments_misrouted :
  let call id name args := mkToolCallItem id (Some (mkFunctionCallProbe name args)) in
  let tcs := [(0, call (Some "a") (Some "f") None); (1, call (Some "b") (Some "g") None); (0, call None None (Some "for a"))]%string in
  foldl client_step (Some (mkClient Open [TextBlock ""])) (handle_tool_calls tcs.*2 (started "m" "x")).1
  = Some (mkClient Open [ToolBlock "b" "g" "for a"; ToolBlock "a" "f" ""; TextBlock ""])
  /\ (wire_calls (tcs ≫= wire_call)).*2 = [("a", "f", "for a"); ("b", "g", "")]%string.
Proof. vm_compute. done. Qed.

(** A call whose id is repeated with every fragment becomes several. *)
Lemma repeated_id_splits_call :
  let call id name args := mkToolCallItem id (Some (mkFunctionCallProbe name args)) in
  let tcs := [(0, call (Some "a") (Some "f") (Some "{")); (0, call (Some "a") None (Some "}"))]%string in
  foldl client_step (Some (mkClient Open [TextBlock ""])) (handle_tool_calls tcs.*2 (started "m" "x")).1
  = Some (mkClient Open [ToolBlock "a" "" "}"; ToolBlock "a" "f" "{"; TextBlock ""]).
Proof. vm_compute. done. Qed.
