(* ===== verification/ResponsesBridge.v ===== *)
(** * An answer for a client of the Responses API

    [openproxy-pipeline/src/translation/responses_sse]: the chunks of a chat
    completion become the events of a response: it is created, items (the
    reasoning, the message, function calls) are added, grow by deltas and are
    done, and the response is completed, or it fails.

    The specification is a client that keeps the items and rejects an event
    that does not fit them, a delta for an item that is done or an event after
    the end of the response among them.  The serde probes of a payload are parameters;
    output indices count items in memory and are natural numbers. *)

From Stdlib Require Import String.
From stdpp Require Import pretty.
From S2P Require Import Prelude Text Bytes Errors SseFraming Accumulator StreamFold AnthropicBridge.

(** ** Probes *)

Record ResponsesFunctionCallProbe := mkRFunction { rfp_name : option string; rfp_arguments : option string }.
Record ResponsesToolCallProbe := mkRToolCall { rtp_index : option Z; rtp_id : option string; rtp_function : option ResponsesFunctionCallProbe }.
Record ResponsesDeltaProbe := mkRDelta {
  rdp_content : option string; rdp_reasoning_content : option string; rdp_tool_calls : option (list ResponsesToolCallProbe)
}.
Record ResponsesChoiceProbe := mkRChoice { rcp_delta : option ResponsesDeltaProbe; rcp_finish_reason : option string }.

Record ResponsesTokensDetailsProbe := mkRDetails {
  rtd_cached_tokens : option Z; rtd_cache_read_input_tokens : option Z; rtd_prompt_cache_hit_tokens : option Z
}.

Record ResponsesUsageProbe := mkRUsage {
  rup_prompt_tokens : option Z; rup_completion_tokens : option Z; rup_total_tokens : option Z;
  rup_input_tokens : option Z; rup_output_tokens : option Z;
  rup_prompt_tokens_details : option ResponsesTokensDetailsProbe; rup_input_tokens_details : option ResponsesTokensDetailsProbe;
  rup_prompt_cache_hit_tokens : option Z; rup_cached_tokens : option Z; rup_cache_read_input_tokens : option Z
}.

Record ResponsesSseProbe := mkRProbe {
  rsp_id : option string; rsp_choices : option (list ResponsesChoiceProbe); rsp_usage : option ResponsesUsageProbe
}.

Record ErrorProbe := mkErrorProbe {
  erp_error : option Json; erp_type : option string; erp_message : option string; erp_code : option Json
}.

(** The first positive count, else 0 if one is there. *)
Definition first_cached (counts : list (option Z)) : option Z :=
  let present := omap id counts in
  match find (fun v => 0 <? v) present with
  | Some v => Some v
  | None => if existsb (fun v => v =? 0) present then Some 0 else None
  end.

Definition extract_cached (d : ResponsesTokensDetailsProbe) : option Z :=
  first_cached [rtd_cached_tokens d; rtd_cache_read_input_tokens d; rtd_prompt_cache_hit_tokens d].

Definition to_openai_usage (u : ResponsesUsageProbe) : OpenAIUsage :=
  let pt := default 0 (or_opt (rup_prompt_tokens u) (rup_input_tokens u)) in
  let ct := default 0 (or_opt (rup_completion_tokens u) (rup_output_tokens u)) in
  let tt := default (sat_add u32_max pt ct) (rup_total_tokens u) in
  let details_cached := or_opt (rup_prompt_tokens_details u ≫= extract_cached) (rup_input_tokens_details u ≫= extract_cached) in
  let root_cached := first_cached [rup_cached_tokens u; rup_cache_read_input_tokens u; rup_prompt_cache_hit_tokens u] in
  let cached := first_cached [details_cached; root_cached] in
  mkUsage pt ct tt ((fun c => mkDetails (Some c)) <$> cached).

(** ** The state *)

Record StreamToolCall := mkStreamCall {
  stc_tool_index : Z; stc_output_index : nat; stc_call_id : string; stc_name : string;
  stc_arguments : string; stc_done_emitted : bool
}.

Record OpenAIToResponsesSseStream := mkResponses {
  rs_response_id : string;
  rs_model : string;
  rs_has_started : bool;
  rs_has_completed : bool;
  rs_reasoning_output_index : option nat;
  rs_reasoning_done : bool;
  rs_accumulated_reasoning : string;
  rs_reasoning_id : string;
  rs_text_output_index : option nat;
  rs_text_done : bool;
  rs_accumulated_text : string;
  rs_message_id : string;
  rs_tool_calls : list StreamToolCall;
  rs_next_output_index : nat;
  rs_usage : option OpenAIUsage
}.

Definition responses_new (response_id model : string) : OpenAIToResponsesSseStream :=
  mkResponses response_id model false false None false "" ("rs_" +:+ response_id) None false "" ("msg_" +:+ response_id) [] 0 None.

Definition set_response_id (v : string) (s : OpenAIToResponsesSseStream) :=
  let '(mkResponses _ m st c ri rd ra rid ti td ta mid tcs n u) := s in mkResponses v m st c ri rd ra rid ti td ta mid tcs n u.
Definition set_usage_probe (v : option OpenAIUsage) (s : OpenAIToResponsesSseStream) :=
  let '(mkResponses i m st c ri rd ra rid ti td ta mid tcs n _) := s in mkResponses i m st c ri rd ra rid ti td ta mid tcs n v.
Definition set_started (s : OpenAIToResponsesSseStream) :=
  let '(mkResponses i m _ c ri rd ra rid ti td ta mid tcs n u) := s in mkResponses i m true c ri rd ra rid ti td ta mid tcs n u.
Definition set_completed (s : OpenAIToResponsesSseStream) :=
  let '(mkResponses i m st _ ri rd ra rid ti td ta mid tcs n u) := s in mkResponses i m st true ri rd ra rid ti td ta mid tcs n u.
Definition set_reasoning_item (ri : option nat) (rd : bool) (ra : string) (n : nat) (s : OpenAIToResponsesSseStream) :=
  let '(mkResponses i m st c _ _ _ rid ti td ta mid tcs _ u) := s in mkResponses i m st c ri rd ra rid ti td ta mid tcs n u.
Definition set_text (ti : option nat) (td : bool) (ta : string) (n : nat) (s : OpenAIToResponsesSseStream) :=
  let '(mkResponses i m st c ri rd ra rid _ _ _ mid tcs _ u) := s in mkResponses i m st c ri rd ra rid ti td ta mid tcs n u.
Definition set_calls (tcs : list StreamToolCall) (n : nat) (s : OpenAIToResponsesSseStream) :=
  let '(mkResponses i m st c ri rd ra rid ti td ta mid _ _ u) := s in mkResponses i m st c ri rd ra rid ti td ta mid tcs n u.

(** ** The items and events *)

Definition typed_event (name : string) (fields : list (string * Json)) : ClientEvent :=
  Event name (JObj (("type"%string, JStr name) :: fields)).

Definition reasoning_item (s : OpenAIToResponsesSseStream) : Json :=
  JObj [("id", JStr (rs_reasoning_id s)); ("type", JStr "reasoning"); ("summary", JArr []);
        ("content", JArr [JObj [("type", JStr "reasoning_text"); ("text", JStr (rs_accumulated_reasoning s))]])]%string.

Definition message_item (mid text : string) : Json :=
  JObj [("id", JStr mid); ("type", JStr "message"); ("status", JStr "completed"); ("role", JStr "assistant");
        ("content", JArr [JObj [("type", JStr "output_text"); ("text", JStr text)]])]%string.

Definition message_opened (mid : string) : Json :=
  JObj [("id", JStr mid); ("type", JStr "message"); ("status", JStr "in_progress"); ("role", JStr "assistant"); ("content", JArr [])]%string.

Definition call_item (tc : StreamToolCall) : Json :=
  JObj [("id", JStr (stc_call_id tc)); ("type", JStr "function_call"); ("status", JStr "completed");
        ("call_id", JStr (stc_call_id tc)); ("name", JStr (stc_name tc)); ("arguments", JStr (stc_arguments tc))]%string.

Definition item_added (index : nat) (item : Json) : ClientEvent :=
  typed_event "response.output_item.added" [("output_index", JInt (Z.of_nat index)); ("item", item)]%string.

Definition item_done (index : nat) (item : Json) : ClientEvent :=
  typed_event "response.output_item.done" [("output_index", JInt (Z.of_nat index)); ("item", item)]%string.

Definition ensure_started (s : OpenAIToResponsesSseStream) : list ClientEvent * OpenAIToResponsesSseStream :=
  if rs_has_started s then ([], s)
  else ([typed_event "response.created"
           [("response", JObj [("id", JStr (rs_response_id s)); ("object", JStr "response"); ("status", JStr "in_progress");
                               ("model", JStr (rs_model s)); ("output", JArr [])])]%string], set_started s).

Definition close_reasoning (s : OpenAIToResponsesSseStream) : list ClientEvent * OpenAIToResponsesSseStream :=
  match rs_reasoning_output_index s with
  | Some r_idx =>
      if rs_reasoning_done s then ([], s)
      else ([item_done r_idx (reasoning_item s)],
            set_reasoning_item (Some r_idx) true (rs_accumulated_reasoning s) (rs_next_output_index s) s)
  | None => ([], s)
  end.

Definition close_text (s : OpenAIToResponsesSseStream) : list ClientEvent * OpenAIToResponsesSseStream :=
  match rs_text_output_index s with
  | Some t_idx =>
      if rs_text_done s then ([], s)
      else ([item_done t_idx (message_item (rs_message_id s) (rs_accumulated_text s))],
            set_text (Some t_idx) true (rs_accumulated_text s) (rs_next_output_index s) s)
  | None => ([], s)
  end.

Definition call_done_events (tc : StreamToolCall) : list ClientEvent :=
  if stc_done_emitted tc then []
  else [typed_event "response.function_call_arguments.done"
          [("output_index", JInt (Z.of_nat (stc_output_index tc))); ("call_id", JStr (stc_call_id tc)); ("arguments", JStr (stc_arguments tc))]%string;
        item_done (stc_output_index tc) (call_item tc)].

Definition set_done (tc : StreamToolCall) : StreamToolCall :=
  let '(mkStreamCall ti oi ci n a _) := tc in mkStreamCall ti oi ci n a true.

Definition close_tool_calls (s : OpenAIToResponsesSseStream) : list ClientEvent * OpenAIToResponsesSseStream :=
  (rs_tool_calls s ≫= call_done_events, set_calls (set_done <$> rs_tool_calls s) (rs_next_output_index s) s).

(** Handlers in a row. *)
Definition then_do (r : list ClientEvent * OpenAIToResponsesSseStream)
    (f : OpenAIToResponsesSseStream -> list ClientEvent * OpenAIToResponsesSseStream) :=
  let '(e1, s) := r in let '(e2, s) := f s in (e1 ++ e2, s).

Definition no_items (s : OpenAIToResponsesSseStream) : bool :=
  match rs_reasoning_output_index s, rs_text_output_index s, rs_tool_calls s with None, None, [] => true | _, _, _ => false end.

(** A response without an item gets an empty message. *)
Definition add_empty_message (s : OpenAIToResponsesSseStream) : list ClientEvent * OpenAIToResponsesSseStream :=
  if no_items s
  then ([item_added 0 (message_opened (rs_message_id s)); item_done 0 (message_item (rs_message_id s) "")],
        set_text (Some 0%nat) true (rs_accumulated_text s) (rs_next_output_index s) s)
  else ([], s).

Definition output_items (s : OpenAIToResponsesSseStream) : list Json :=
  (if rs_reasoning_output_index s then [reasoning_item s] else [])
  ++ (if rs_text_output_index s then [message_item (rs_message_id s) (rs_accumulated_text s)] else [])
  ++ (call_item <$> rs_tool_calls s).

Definition usage_json (u : option OpenAIUsage) : Json :=
  let '(prompt, completion, total, cached) :=
    match u with
    | Some u => (us_prompt u, us_completion u, us_total u, default 0 (us_details u ≫= ptd_cached_tokens))
    | None => (0, 0, 0, 0)
    end in
  JObj [("input_tokens", JInt prompt); ("output_tokens", JInt completion); ("total_tokens", JInt total);
        ("prompt_tokens", JInt prompt); ("completion_tokens", JInt completion);
        ("input_tokens_details", JObj [("cached_tokens", JInt cached)]);
        ("output_tokens_details", JObj [("reasoning_tokens", JInt 0)])]%string.

Definition emit_completed (s : OpenAIToResponsesSseStream) : list ClientEvent * OpenAIToResponsesSseStream :=
  ([typed_event "response.completed"
      [("response", JObj [("id", JStr (rs_response_id s)); ("object", JStr "response"); ("status", JStr "completed");
                          ("model", JStr (rs_model s)); ("output", JArr (output_items s)); ("usage", usage_json (rs_usage s))])]%string;
    Literal (bytes_of "data: [DONE]" ++ [10; 10])], set_completed s).

(** [finish]. *)
Definition responses_finish (s : OpenAIToResponsesSseStream) : list ClientEvent * OpenAIToResponsesSseStream :=
  if rs_has_completed s then ([], s)
  else then_do (then_do (then_do (then_do (then_do (ensure_started s) close_reasoning) close_text) close_tool_calls)
                 add_empty_message) emit_completed.

(** ** Payloads *)

Definition reasoning_delta (reasoning : string) (s : OpenAIToResponsesSseStream) : list ClientEvent * OpenAIToResponsesSseStream :=
  if (reasoning =? "")%string then ([], s)
  else
    let '(e, r_idx, n) :=
      match rs_reasoning_output_index s with
      | Some idx => ([], idx, rs_next_output_index s)
      | None =>
          let idx := rs_next_output_index s in
          ([item_added idx (JObj [("id", JStr (rs_reasoning_id s)); ("type", JStr "reasoning")]%string)], idx, S idx)
      end in
    (e ++ [typed_event "response.reasoning_text.delta" [("output_index", JInt (Z.of_nat r_idx)); ("delta", JStr reasoning)]%string],
     set_reasoning_item (Some r_idx) (rs_reasoning_done s) (rs_accumulated_reasoning s +:+ reasoning) n s).

Definition text_delta (text : string) (s : OpenAIToResponsesSseStream) : list ClientEvent * OpenAIToResponsesSseStream :=
  if (text =? "")%string then ([], s)
  else
    then_do (close_reasoning s) (fun s =>
      let '(e, t_idx, n) :=
        match rs_text_output_index s with
        | Some idx => ([], idx, rs_next_output_index s)
        | None => let idx := rs_next_output_index s in ([item_added idx (message_opened (rs_message_id s))], idx, S idx)
        end in
      (e ++ [typed_event "response.output_text.delta"
               [("output_index", JInt (Z.of_nat t_idx)); ("content_index", JInt 0); ("delta", JStr text)]%string],
       set_text (Some t_idx) (rs_text_done s) (rs_accumulated_text s +:+ text) n s)).

(** The call with a tool index, opened if there is none. *)
Definition open_call (tc : ResponsesToolCallProbe) (s : OpenAIToResponsesSseStream)
    : list ClientEvent * nat * string * OpenAIToResponsesSseStream :=
  let tc_idx := default 0 (rtp_index tc) in
  match find (fun t => stc_tool_index t =? tc_idx) (rs_tool_calls s) with
  | Some t => ([], stc_output_index t, stc_call_id t, s)
  | None =>
      let out_idx := rs_next_output_index s in
      let id := default ""%string (rtp_id tc) in
      let call_id := if (id =? "")%string then ("call_" +:+ pretty out_idx) else id in
      let name := default ""%string (rtp_function tc ≫= rfp_name) in
      ([item_added out_idx (JObj [("id", JStr call_id); ("type", JStr "function_call"); ("status", JStr "in_progress");
                                  ("call_id", JStr call_id); ("name", JStr name); ("arguments", JStr "")]%string)],
       out_idx, call_id,
       set_calls (rs_tool_calls s ++ [mkStreamCall tc_idx out_idx call_id name "" false]) (S out_idx) s)
  end.

(** [iter_mut().find(..)] and [push_str]. *)
Fixpoint push_arguments (tc_idx : Z) (args : string) (l : list StreamToolCall) : list StreamToolCall :=
  match l with
  | [] => []
  | t :: l' =>
      if stc_tool_index t =? tc_idx
      then let '(mkStreamCall ti oi ci n a d) := t in mkStreamCall ti oi ci n (a +:+ args) d :: l'
      else t :: push_arguments tc_idx args l'
  end.

Definition tool_call_delta (tc : ResponsesToolCallProbe) (s : OpenAIToResponsesSseStream) : list ClientEvent * OpenAIToResponsesSseStream :=
  let '(e, out_idx, call_id, s) := open_call tc s in
  match rtp_function tc ≫= rfp_arguments with
  | Some args =>
      if (args =? "")%string then (e, s)
      else (e ++ [typed_event "response.function_call_arguments.delta"
                    [("output_index", JInt (Z.of_nat out_idx)); ("call_id", JStr call_id); ("delta", JStr args)]%string],
            set_calls (push_arguments (default 0 (rtp_index tc)) args (rs_tool_calls s)) (rs_next_output_index s) s)
  | None => (e, s)
  end.

Fixpoint do_all {A} (f : A -> OpenAIToResponsesSseStream -> list ClientEvent * OpenAIToResponsesSseStream)
    (l : list A) (s : OpenAIToResponsesSseStream) : list ClientEvent * OpenAIToResponsesSseStream :=
  match l with [] => ([], s) | x :: l' => then_do (f x s) (do_all f l') end.

Definition do_option {A} (f : A -> OpenAIToResponsesSseStream -> list ClientEvent * OpenAIToResponsesSseStream)
    (o : option A) (s : OpenAIToResponsesSseStream) : list ClientEvent * OpenAIToResponsesSseStream :=
  match o with Some x => f x s | None => ([], s) end.

Definition process_delta (d : ResponsesDeltaProbe) (s : OpenAIToResponsesSseStream) : list ClientEvent * OpenAIToResponsesSseStream :=
  then_do (then_do (do_option reasoning_delta (rdp_reasoning_content d) s) (do_option text_delta (rdp_content d)))
    (do_option (fun tcs s => then_do (then_do (close_reasoning s) close_text) (do_all tool_call_delta tcs)) (rdp_tool_calls d)).

Definition process_choice (c : ResponsesChoiceProbe) (s : OpenAIToResponsesSseStream) : list ClientEvent * OpenAIToResponsesSseStream :=
  then_do (do_option process_delta (rcp_delta c) s)
    (do_option (fun _ s => then_do (then_do (close_reasoning s) close_text) close_tool_calls) (rcp_finish_reason c)).

Definition process_probe (probe : ResponsesSseProbe) (s : OpenAIToResponsesSseStream) : list ClientEvent * OpenAIToResponsesSseStream :=
  let s := match rsp_id probe with
           | Some id => if starts_with "resp_req_" (rs_response_id s) then set_response_id ("resp_" +:+ id) s else s
           | None => s
           end in
  let s := match rsp_usage probe with Some u => set_usage_probe (Some (to_openai_usage u)) s | None => s end in
  then_do (ensure_started s) (do_option (do_all process_choice) (rsp_choices probe)).

(** Code and message of an error. *)
Definition error_parts (e : ErrorProbe) : string * string :=
  let get k d v := default d (json_get k v ≫= as_str) in
  match erp_error e with
  | Some (JObj m) => (get "code" "internal_error" (JObj m), get "message" "upstream error" (JObj m))%string
  | Some (JStr s) => ("internal_error"%string, s)
  | _ => (default "internal_error" (erp_code e ≫= as_str), default "upstream error" (erp_message e))%string
  end.

Definition is_failure (e : ErrorProbe) : bool :=
  match erp_error e with Some _ => true | None => false end
  || bool_decide (erp_type e = Some "error"%string) || bool_decide (erp_type e = Some "response.failed"%string).

Definition FAILED_HEAD : str := bytes_of "event: response.failed" ++ [10] ++ bytes_of "data: ".

Section responses.
(** [serde_json::from_str] into the two probes. *)
Variable error_probe : str -> option ErrorProbe.
Variable chunk_probe : str -> option ResponsesSseProbe.

Definition process_payload (payload : str) (s : OpenAIToResponsesSseStream) : list ClientEvent * OpenAIToResponsesSseStream :=
  match error_probe payload with
  | Some e =>
      if is_failure e then
        if bool_decide (erp_type e = Some "response.failed"%string)
        then ([Literal (FAILED_HEAD ++ payload ++ [10; 10])], set_completed s)
        else
          let '(code, msg) := error_parts e in
          ([typed_event "response.failed"
              [("response", JObj [("id", JStr (rs_response_id s)); ("status", JStr "failed");
                                  ("error", JObj [("code", JStr code); ("message", JStr msg)])])]%string], set_completed s)
      else do_option process_probe (chunk_probe payload) s
  | None => do_option process_probe (chunk_probe payload) s
  end.

(** The body of the loop over the lines. *)
Definition process_line (line : str) (s : OpenAIToResponsesSseStream) : list ClientEvent * OpenAIToResponsesSseStream :=
  if negb (utf8_valid line) then ([], s)
  else
    let trimmed := trim_bytes line in
    match trimmed with
    | [] => ([], s)
    | b :: _ =>
        if b =? 58 then ([Literal (trimmed ++ [10; 10])], s)
        else if bool_decide (bytes_of "event:" `prefix_of` trimmed) then ([], s)
        else match parse_sse_data_line trimmed with
             | None => ([], s)
             | Some payload => if bool_decide (payload = bytes_of "[DONE]") then responses_finish s else process_payload payload s
             end
    end.

Definition MAX_SSE_LINE_BYTES : Z := 4194304.

(** A chunk the parser refuses is dropped. *)
Definition process_incoming_chunk (chunk : str) (p : SseParser) (s : OpenAIToResponsesSseStream)
    : list ClientEvent * SseParser * OpenAIToResponsesSseStream :=
  match push_bytes chunk p with
  | None => ([], p, s)
  | Some p =>
      let '(p, lines) := SseFraming.drain next_line (S (length (buffer p))) p in
      let '(es, s) := do_all process_line lines s in (es, p, s)
  end.

Fixpoint responses_loop (chunks : list str) (p : SseParser) (s : OpenAIToResponsesSseStream)
    : list ClientEvent * OpenAIToResponsesSseStream :=
  match chunks with
  | [] => ([], s)
  | c :: cs =>
      let '(e1, p, s) := process_incoming_chunk c p s in
      let '(e2, s) := responses_loop cs p s in (e1 ++ e2, s)
  end.

(** [poll_next] over the whole stream: at its end the response is finished if it has not been. *)
Definition responses_run (chunks : list str) (s : OpenAIToResponsesSseStream) : list ClientEvent * OpenAIToResponsesSseStream :=
  then_do (responses_loop chunks (parser_new MAX_SSE_LINE_BYTES) s) responses_finish.
End responses.

(** ** Specification: a client that reads the events *)

Inductive ItemKind := KReasoning (id : string) | KMessage (id : string) | KCall (call_id name : string).

#[global] Instance item_kind_eq_dec : EqDecision ItemKind.
Proof. solve_decision. Defined.

Record OutItem := mkOutItem { oi_kind : ItemKind; oi_text : string; oi_done : bool }.

Inductive Ending := Completed (output : list (ItemKind * string)) | Failed.

Record RClient := mkRClient { rc_started : bool; rc_items : list OutItem; rc_ending : option Ending }.

Definition rclient_new : RClient := mkRClient false [] None.

Definition content_text (v : Json) : string :=
  match json_get "content" v with Some (JArr (x :: _)) => default ""%string (get_text "text" x) | _ => "" end.

Definition read_item (v : Json) : option (ItemKind * string) :=
  match get_text "type" v with
  | Some "reasoning"%string => (fun id => (KReasoning id, content_text v)) <$> get_text "id" v
  | Some "message"%string => (fun id => (KMessage id, content_text v)) <$> get_text "id" v
  | Some "function_call"%string =>
      match get_text "call_id" v, get_text "name" v, get_text "arguments" v with
      | Some id, Some name, Some args => Some (KCall id name, args)
      | _, _, _ => None
      end
  | _ => None
  end.

Definition get_index (payload : Json) : option nat :=
  match json_get "output_index" payload with Some (JInt n) => if 0 <=? n then Some (Z.to_nat n) else None | _ => None end.

(** A change of the item an event is about. *)
Definition update_item (payload : Json) (f : OutItem -> option OutItem) (c : RClient) : option RClient :=
  match get_index payload with
  | None => None
  | Some i => match rc_items c !! i ≫= f with
              | Some it => Some (mkRClient (rc_started c) (<[i := it]> (rc_items c)) None)
              | None => None
              end
  end.

(** A delta is for an item of its kind that is not done. *)
Definition grow (suits : ItemKind -> bool) (payload : Json) (it : OutItem) : option OutItem :=
  match get_text "delta" payload with
  | Some d => if suits (oi_kind it) && negb (oi_done it) then Some (mkOutItem (oi_kind it) (oi_text it +:+ d) false) else None
  | None => None
  end.

Definition is_reasoning_kind (k : ItemKind) : bool := match k with KReasoning _ => true | _ => false end.
Definition is_message_kind (k : ItemKind) : bool := match k with KMessage _ => true | _ => false end.
Definition is_call_kind (payload : Json) (k : ItemKind) : bool :=
  match k with KCall id _ => bool_decide (get_text "call_id" payload = Some id) | _ => false end.

(** Done: what the event says is what the client has, and it was not done yet. *)
Definition settle (payload : Json) (it : OutItem) : option OutItem :=
  match json_get "item" payload ≫= read_item with
  | Some (k, t) => if bool_decide (oi_kind it = k /\ oi_text it = t /\ oi_done it = false) then Some (mkOutItem k t true) else None
  | None => None
  end.

Definition rclient_event (name : string) (payload : Json) (c : RClient) : option RClient :=
  if negb (bool_decide (get_text "type" payload = Some name)) then None
  else if (name =? "response.failed")%string then Some (mkRClient (rc_started c) (rc_items c) (Some Failed))
  else if (name =? "response.created")%string then if rc_started c then None else Some (mkRClient true (rc_items c) None)
  else if negb (rc_started c) then None
  else if (name =? "response.output_item.added")%string then
    match get_index payload, json_get "item" payload ≫= read_item with
    | Some i, Some (k, t) =>
        if bool_decide (i = length (rc_items c) /\ t = ""%string)
        then Some (mkRClient true (rc_items c ++ [mkOutItem k "" false]) None) else None
    | _, _ => None
    end
  else if (name =? "response.reasoning_text.delta")%string then update_item payload (grow is_reasoning_kind payload) c
  else if (name =? "response.output_text.delta")%string then update_item payload (grow is_message_kind payload) c
  else if (name =? "response.function_call_arguments.delta")%string then update_item payload (grow (is_call_kind payload) payload) c
  else if (name =? "response.function_call_arguments.done")%string then
    update_item payload (fun it => if is_call_kind payload (oi_kind it) && negb (oi_done it) && bool_decide (get_text "arguments" payload = Some (oi_text it))
                                   then Some it else None) c
  else if (name =? "response.output_item.done")%string then update_item payload (settle payload) c
  else if (name =? "response.completed")%string then
    match json_get "response" payload ≫= json_get "output" with
    | Some (JArr l) =>
        match mapM read_item l with
        | Some out => if forallb oi_done (rc_items c) then Some (mkRClient true (rc_items c) (Some (Completed out))) else None
        | None => None
        end
    | _ => None
    end
  else None.

(** After the end of the response the sentinel and comments may follow, and no event. *)
Definition rclient_step (oc : option RClient) (e : ClientEvent) : option RClient :=
  match oc with
  | None => None
  | Some c =>
      match e, rc_ending c with
      | Event name payload, None => rclient_event name payload c
      | Event _ _, Some _ => None
      | Literal b, None =>
          if bool_decide (FAILED_HEAD `prefix_of` b) then Some (mkRClient (rc_started c) (rc_items c) (Some Failed)) else Some c
      | Literal b, Some _ => if bool_decide (FAILED_HEAD `prefix_of` b) then None else Some c
      end
  end.

(** ** How each event is read *)

Ltac read_typed :=
  unfold rclient_step, typed_event, item_added, item_done; cbn [rc_ending]; unfold rclient_event, typed_event;
  rewrite bool_decide_eq_true_2 by done; cbn -[Z.of_nat update_item read_item get_index mapM];
  unfold update_item, get_index; cbn -[Z.of_nat Z.leb read_item insert list_insert grow settle];
  rewrite ?(proj2 (Z.leb_le 0 (Z.of_nat _))) by lia; rewrite ?Nat2Z.id; cbn -[Z.of_nat read_item insert list_insert grow settle].

Lemma read_added items i item k : i = length items -> read_item item = Some (k, ""%string) ->
  rclient_step (Some (mkRClient true items None)) (item_added i item) = Some (mkRClient true (items ++ [mkOutItem k "" false]) None).
Proof. intros -> H. read_typed. rewrite H. by rewrite bool_decide_eq_true_2. Qed.

Lemma read_done items i item it k t : items !! i = Some it -> read_item item = Some (k, t) -> it = mkOutItem k t false ->
  rclient_step (Some (mkRClient true items None)) (item_done i item) = Some (mkRClient true (<[i := mkOutItem k t true]> items) None).
Proof.
  intros Hi H ->. read_typed. rewrite Hi. cbn -[read_item insert]. unfold settle. cbn -[read_item insert]. rewrite H.
  by rewrite bool_decide_eq_true_2.
Qed.

Lemma read_delta_of name suits items i fields it d :
  (forall p c, get_text "type" p = Some name -> rc_started c = true -> rclient_event name p c = update_item p (grow (suits p) p) c) ->
  let payload := JObj (("type"%string, JStr name) :: fields) in
  json_get "output_index" payload = Some (JInt (Z.of_nat i)) -> get_text "delta" payload = Some d ->
  items !! i = Some it -> suits payload (oi_kind it) = true -> oi_done it = false ->
  rclient_step (Some (mkRClient true items None)) (typed_event name fields)
  = Some (mkRClient true (<[i := mkOutItem (oi_kind it) (oi_text it +:+ d) false]> items) None).
Proof.
  intros Hn payload Hi Hd Hit Hs Ho. unfold rclient_step, typed_event. cbn [rc_ending]. fold payload. rewrite Hn by done.
  unfold update_item, get_index. rewrite Hi, (proj2 (Z.leb_le 0 (Z.of_nat _))) by lia. rewrite Nat2Z.id. cbn [rc_items]. rewrite Hit.
  cbn [mbind option_bind]. unfold grow. by rewrite Hd, Hs, Ho.
Qed.

Lemma read_reasoning_delta items i id t d : items !! i = Some (mkOutItem (KReasoning id) t false) ->
  rclient_step (Some (mkRClient true items None))
    (typed_event "response.reasoning_text.delta" [("output_index", JInt (Z.of_nat i)); ("delta", JStr d)]%string)
  = Some (mkRClient true (<[i := mkOutItem (KReasoning id) (t +:+ d) false]> items) None).
Proof.
  intros H. eapply (read_delta_of _ (fun _ => is_reasoning_kind) items i _ (mkOutItem (KReasoning id) t false) d); [|done|done|exact H|done|done].
  intros p c Hp Hs. unfold rclient_event. rewrite bool_decide_eq_true_2 by done. by rewrite Hs.
Qed.

Lemma read_text_delta items i id t d : items !! i = Some (mkOutItem (KMessage id) t false) ->
  rclient_step (Some (mkRClient true items None))
    (typed_event "response.output_text.delta" [("output_index", JInt (Z.of_nat i)); ("content_index", JInt 0); ("delta", JStr d)]%string)
  = Some (mkRClient true (<[i := mkOutItem (KMessage id) (t +:+ d) false]> items) None).
Proof.
  intros H. eapply (read_delta_of _ (fun _ => is_message_kind) items i _ (mkOutItem (KMessage id) t false) d); [|done|done|exact H|done|done].
  intros p c Hp Hs. unfold rclient_event. rewrite bool_decide_eq_true_2 by done. by rewrite Hs.
Qed.

Lemma read_arguments_delta items i id name t d : items !! i = Some (mkOutItem (KCall id name) t false) ->
  rclient_step (Some (mkRClient true items None))
    (typed_event "response.function_call_arguments.delta" [("output_index", JInt (Z.of_nat i)); ("call_id", JStr id); ("delta", JStr d)]%string)
  = Some (mkRClient true (<[i := mkOutItem (KCall id name) (t +:+ d) false]> items) None).
Proof.
  intros H. eapply (read_delta_of _ is_call_kind items i _ (mkOutItem (KCall id name) t false) d); [|done|done|exact H| |done].
  - intros p c Hp Hs. unfold rclient_event. rewrite bool_decide_eq_true_2 by done. by rewrite Hs.
  - cbn [oi_kind is_call_kind]. by apply bool_decide_eq_true.
Qed.

Definition call_out (tc : StreamToolCall) : OutItem :=
  mkOutItem (KCall (stc_call_id tc) (stc_name tc)) (stc_arguments tc) (stc_done_emitted tc).

Lemma read_call_done items tc : items !! stc_output_index tc = Some (call_out tc) ->
  foldl rclient_step (Some (mkRClient true items None)) (call_done_events tc)
  = Some (mkRClient true (<[stc_output_index tc := call_out (set_done tc)]> items) None).
Proof.
  intros H. unfold call_done_events, call_out in *. destruct tc as [ti oi ci nm a [|]]; cbn [stc_done_emitted foldl];
    cbn [stc_output_index stc_call_id stc_name stc_arguments stc_done_emitted set_done] in *; [by rewrite list_insert_id|].
  assert (rclient_step (Some (mkRClient true items None)) (typed_event "response.function_call_arguments.done"
      [("output_index", JInt (Z.of_nat oi)); ("call_id", JStr ci); ("arguments", JStr a)]%string) = Some (mkRClient true items None)) as ->.
  { unfold rclient_step, typed_event. cbn [rc_ending]. unfold rclient_event. rewrite bool_decide_eq_true_2 by done.
    cbn -[Z.of_nat update_item is_call_kind bool_decide]. unfold update_item, get_index. cbn -[Z.of_nat Z.leb is_call_kind insert bool_decide].
    rewrite (proj2 (Z.leb_le 0 (Z.of_nat oi))) by lia. rewrite Nat2Z.id, H.
    cbn -[is_call_kind insert bool_decide]. rewrite bool_decide_eq_true_2 by done. cbn [is_call_kind]. rewrite bool_decide_eq_true_2 by done.
    cbn -[insert]. by rewrite list_insert_id. }
  by eapply read_done.
Qed.

(** ** Which part of the state an item belongs to *)

Inductive Owner := OReason | OText | OCall (k : nat).

#[global] Instance owner_eq_dec : EqDecision Owner.
Proof. solve_decision. Defined.

Definition owner_index (s : OpenAIToResponsesSseStream) (o : Owner) : option nat :=
  match o with
  | OReason => rs_reasoning_output_index s
  | OText => rs_text_output_index s
  | OCall k => stc_output_index <$> rs_tool_calls s !! k
  end.

Definition owner_item (s : OpenAIToResponsesSseStream) (o : Owner) : OutItem :=
  match o with
  | OReason => mkOutItem (KReasoning (rs_reasoning_id s)) (rs_accumulated_reasoning s) (rs_reasoning_done s)
  | OText => mkOutItem (KMessage (rs_message_id s)) (rs_accumulated_text s) (rs_text_done s)
  | OCall k => default (mkOutItem (KCall "" "") "" true) (call_out <$> rs_tool_calls s !! k)
  end.

Record owned (s : OpenAIToResponsesSseStream) (os : list Owner) : Prop := mkOwned {
  ow_next : length os = rs_next_output_index s;
  ow_index : forall o i, os !! i = Some o <-> owner_index s o = Some i;
  ow_reason : rs_reasoning_output_index s = None -> rs_accumulated_reasoning s = ""%string /\ rs_reasoning_done s = false;
  ow_text : rs_text_output_index s = None -> rs_accumulated_text s = ""%string /\ rs_text_done s = false
}.

(** The client has the items of the state, and the response has not ended. *)
Record tracks (s : OpenAIToResponsesSseStream) (c : RClient) : Prop := mkTracks {
  tk_client : exists os, c = mkRClient (rs_has_started s) (owner_item s <$> os) None /\ owned s os;
  tk_completed : rs_has_completed s = false
}.

(** An item that changes. *)
Lemma owned_update s s' os o i :
  owned s os -> owner_index s o = Some i -> (forall o, owner_index s' o = owner_index s o) ->
  (forall o', o' <> o -> owner_item s' o' = owner_item s o') -> rs_next_output_index s' = rs_next_output_index s ->
  (rs_reasoning_output_index s' = None -> rs_accumulated_reasoning s' = rs_accumulated_reasoning s /\ rs_reasoning_done s' = rs_reasoning_done s) ->
  (rs_text_output_index s' = None -> rs_accumulated_text s' = rs_accumulated_text s /\ rs_text_done s' = rs_text_done s) ->
  <[i := owner_item s' o]> (owner_item s <$> os) = owner_item s' <$> os /\ owned s' os.
Proof.
  intros [Hn Hx Hr Ht] Ho Hi Hv Hn' Hr' Ht'. split.
  - apply list_eq. intros j. rewrite list_lookup_fmap. destruct (decide (j = i)) as [->|Hj].
    + rewrite list_lookup_insert_eq; [|rewrite length_fmap; apply lookup_lt_is_Some; exists o; by apply Hx].
      by rewrite (proj2 (Hx o i) Ho).
    + rewrite list_lookup_insert_ne by done. rewrite list_lookup_fmap. destruct (os !! j) as [o'|] eqn:E; [|done]. cbn.
      rewrite Hv; [done|]. intros ->. apply Hx in E. congruence.
  - constructor; [by rewrite Hn'|intros; by rewrite Hi| |].
    + intros H. destruct (Hr' H) as [-> ->]. apply Hr. specialize (Hi OReason). cbn in Hi. congruence.
    + intros H. destruct (Ht' H) as [-> ->]. apply Ht. specialize (Hi OText). cbn in Hi. congruence.
Qed.

(** An item that is added. *)
Lemma owned_add s s' os o :
  owned s os -> owner_index s o = None -> owner_index s' o = Some (rs_next_output_index s) ->
  (forall o', o' <> o -> owner_index s' o' = owner_index s o') -> (forall o', o' <> o -> owner_item s' o' = owner_item s o') ->
  rs_next_output_index s' = S (rs_next_output_index s) ->
  (rs_reasoning_output_index s' = None -> rs_accumulated_reasoning s' = rs_accumulated_reasoning s /\ rs_reasoning_done s' = rs_reasoning_done s) ->
  (rs_text_output_index s' = None -> rs_accumulated_text s' = rs_accumulated_text s /\ rs_text_done s' = rs_text_done s) ->
  (owner_item s <$> os) ++ [owner_item s' o] = owner_item s' <$> (os ++ [o]) /\ owned s' (os ++ [o]).
Proof.
  intros [Hn Hx Hr Ht] Ho Ho' Hi Hv Hn' Hr' Ht'. split.
  - rewrite fmap_app. f_equal. apply list_fmap_ext. intros i x Hl. symmetry. apply Hv. intros ->. apply Hx in Hl. congruence.
  - constructor.
    + rewrite length_app, Hn, Hn'. cbn. lia.
    + intros x i. rewrite lookup_app_Some. split.
      * intros [Hl|[Hle Hl]].
        -- rewrite Hi; [by apply Hx|]. intros ->. apply Hx in Hl. congruence.
        -- apply list_lookup_singleton_Some in Hl as [Hz <-]. rewrite Ho'. f_equal. lia.
      * destruct (decide (x = o)) as [->|Hne].
        -- rewrite Ho'. intros [= <-]. right. split; [lia|]. by replace (rs_next_output_index s - length os)%nat with 0%nat by lia.
        -- rewrite Hi by done. intros Hl. left. by apply Hx.
    + intros H. destruct (Hr' H) as [-> ->]. apply Hr. destruct (decide (OReason = o)) as [<-|Hne]; [done|].
      specialize (Hi _ Hne). cbn in Hi. congruence.
    + intros H. destruct (Ht' H) as [-> ->]. apply Ht. destruct (decide (OText = o)) as [<-|Hne]; [done|].
      specialize (Hi _ Hne). cbn in Hi. congruence.
Qed.

(** ** Handlers keep the client on track *)

Definition good (r : list ClientEvent * OpenAIToResponsesSseStream) (c : RClient) : Prop :=
  exists c', foldl rclient_step (Some c) r.1 = Some c' /\ tracks r.2 c' /\ rs_has_started r.2 = true.

Definition keeps (f : OpenAIToResponsesSseStream -> list ClientEvent * OpenAIToResponsesSseStream) : Prop :=
  forall s c, tracks s c -> rs_has_started s = true -> good (f s) c.

Lemma good_nil s c : tracks s c -> rs_has_started s = true -> good ([], s) c.
Proof. intros. by exists c. Qed.

Lemma good_then_at r f c : good r c -> (forall c, tracks r.2 c -> rs_has_started r.2 = true -> good (f r.2) c) -> good (then_do r f) c.
Proof.
  intros (c1 & E1 & T1 & S1) Hf. destruct r as [e1 s1]. cbn [fst snd] in *. destruct (Hf c1 T1 S1) as (c2 & E2 & T2 & S2).
  unfold then_do. destruct (f s1) as [e2 s2]. exists c2. cbn [fst snd] in *. by rewrite foldl_app, E1.
Qed.

Lemma good_then r f c : good r c -> keeps f -> good (then_do r f) c.
Proof. intros G Hf. apply good_then_at; [done|]. intros. by apply Hf. Qed.

Lemma keeps_then f g : keeps f -> keeps g -> keeps (fun s => then_do (f s) g).
Proof. intros Hf Hg s c T St. apply good_then; [by apply Hf|done]. Qed.

Create HintDb responses.
#[export] Hint Resolve keeps_then : responses.

Lemma keeps_close_reasoning : keeps close_reasoning.
Proof.
  intros s c T St. pose proof T as [(os & -> & W) Hc]. unfold close_reasoning.
  destruct (rs_reasoning_output_index s) as [i|] eqn:Ei; [|by apply good_nil]. destruct (rs_reasoning_done s) eqn:Ed; [by apply good_nil|].
  set (s' := set_reasoning_item _ _ _ _ s). destruct (owned_update s s' os OReason i W Ei) as [E W'].
  1-5: destruct s; cbn in *; subst; try done; intros []; done.
  eexists. cbn [fst snd foldl]. rewrite St. erewrite (read_done _ i); [| |done|].
  - split; [done|]. split; [|by destruct s]. split; [|by destruct s]. exists os. split; [|exact W'].
    rewrite <- E. replace (rs_has_started s') with true by (destruct s; done). f_equal. f_equal. destruct s; done.
  - rewrite list_lookup_fmap, (proj2 (ow_index _ _ W OReason i) Ei). done.
  - cbn. by rewrite Ed.
Qed.

Lemma keeps_close_text : keeps close_text.
Proof.
  intros s c T St. pose proof T as [(os & -> & W) Hc]. unfold close_text.
  destruct (rs_text_output_index s) as [i|] eqn:Ei; [|by apply good_nil]. destruct (rs_text_done s) eqn:Ed; [by apply good_nil|].
  set (s' := set_text _ _ _ _ s). destruct (owned_update s s' os OText i W Ei) as [E W'].
  1-5: destruct s; cbn in *; subst; try done; intros []; done.
  eexists. cbn [fst snd foldl]. rewrite St. erewrite (read_done _ i); [| |done|].
  - split; [done|]. split; [|by destruct s]. split; [|by destruct s]. exists os. split; [|exact W'].
    rewrite <- E. replace (rs_has_started s') with true by (destruct s; done). f_equal. f_equal. destruct s; done.
  - rewrite list_lookup_fmap, (proj2 (ow_index _ _ W OText i) Ei). done.
  - cbn. by rewrite Ed.
Qed.

(** The item is there: its delta. *)
Lemma reasoning_grows d i s c : tracks s c -> rs_has_started s = true -> rs_reasoning_output_index s = Some i -> rs_reasoning_done s = false ->
  good ([typed_event "response.reasoning_text.delta" [("output_index", JInt (Z.of_nat i)); ("delta", JStr d)]%string],
        set_reasoning_item (Some i) (rs_reasoning_done s) (rs_accumulated_reasoning s +:+ d) (rs_next_output_index s) s) c.
Proof.
  intros [(os & -> & W) Hc] St Ei Ed. set (s' := set_reasoning_item _ _ _ _ s). destruct (owned_update s s' os OReason i W Ei) as [E W'].
  1-5: destruct s; cbn in *; subst; try done; intros []; done.
  eexists. cbn [fst snd foldl]. rewrite St. erewrite (read_reasoning_delta _ i);
    [|rewrite list_lookup_fmap, (proj2 (ow_index _ _ W OReason i) Ei); cbn; by rewrite Ed].
  split; [done|]. split; [|by destruct s]. split; [|by destruct s]. exists os. split; [|exact W'].
  rewrite <- E. replace (rs_has_started s') with true by (destruct s; done). f_equal. f_equal. unfold s'. destruct s; cbn in *; by rewrite Ed.
Qed.

Lemma text_grows d i s c : tracks s c -> rs_has_started s = true -> rs_text_output_index s = Some i -> rs_text_done s = false ->
  good ([typed_event "response.output_text.delta" [("output_index", JInt (Z.of_nat i)); ("content_index", JInt 0); ("delta", JStr d)]%string],
        set_text (Some i) (rs_text_done s) (rs_accumulated_text s +:+ d) (rs_next_output_index s) s) c.
Proof.
  intros [(os & -> & W) Hc] St Ei Ed. set (s' := set_text _ _ _ _ s). destruct (owned_update s s' os OText i W Ei) as [E W'].
  1-5: destruct s; cbn in *; subst; try done; intros []; done.
  eexists. cbn [fst snd foldl]. rewrite St. erewrite (read_text_delta _ i);
    [|rewrite list_lookup_fmap, (proj2 (ow_index _ _ W OText i) Ei); cbn; by rewrite Ed].
  split; [done|]. split; [|by destruct s]. split; [|by destruct s]. exists os. split; [|exact W'].
  rewrite <- E. replace (rs_has_started s') with true by (destruct s; done). f_equal. f_equal. unfold s'. destruct s; cbn in *; by rewrite Ed.
Qed.

(** A new item. *)
Lemma item_opens o s s' item c : tracks s c -> rs_has_started s = true -> owner_index s o = None ->
  owner_index s' o = Some (rs_next_output_index s) ->
  (forall o', o' <> o -> owner_index s' o' = owner_index s o') -> (forall o', o' <> o -> owner_item s' o' = owner_item s o') ->
  rs_next_output_index s' = S (rs_next_output_index s) ->
  (rs_reasoning_output_index s' = None -> rs_accumulated_reasoning s' = rs_accumulated_reasoning s /\ rs_reasoning_done s' = rs_reasoning_done s) ->
  (rs_text_output_index s' = None -> rs_accumulated_text s' = rs_accumulated_text s /\ rs_text_done s' = rs_text_done s) ->
  rs_has_started s' = rs_has_started s -> rs_has_completed s' = rs_has_completed s ->
  (exists k, read_item item = Some (k, ""%string) /\ owner_item s' o = mkOutItem k "" false) ->
  good ([item_added (rs_next_output_index s) item], s') c.
Proof.
  intros [(os & -> & W) Hc] St Ho Ho' Hi Hv Hn Hr Ht Hst Hco (k & Hk & Hit).
  destruct (owned_add s s' os o W Ho Ho' Hi Hv Hn Hr Ht) as [E W'].
  eexists. cbn [fst snd foldl]. rewrite St, (read_added _ _ _ k); [|by rewrite length_fmap, (ow_next _ _ W)|done].
  split; [done|]. split; [|congruence]. split; [|congruence]. exists (os ++ [o]). split; [|done]. by rewrite <- E, Hit, Hst, St.
Qed.

Lemma reasoning_delta_good d s c : tracks s c -> rs_has_started s = true -> rs_reasoning_done s = false -> good (reasoning_delta d s) c.
Proof.
  intros T St Hopen. unfold reasoning_delta. destruct (d =? "")%string; [by apply good_nil|].
  destruct (rs_reasoning_output_index s) as [i|] eqn:Ei; [by apply reasoning_grows|].
  set (i := rs_next_output_index s). pose (s1 := set_reasoning_item (Some i) (rs_reasoning_done s) (rs_accumulated_reasoning s) (S i) s).
  assert (good ([item_added i (JObj [("id", JStr (rs_reasoning_id s)); ("type", JStr "reasoning")]%string)], s1) c) as (c1 & E1 & T1 & S1).
  { pose proof T as [(os & -> & W) Hc]. destruct (ow_reason _ _ W Ei) as [Ha Hd].
    apply (item_opens OReason s); try (destruct s; cbn in *; subst; done); try (intros [] ?; destruct s; cbn in *; done).
    eexists. split; [done|]. destruct s; cbn in *; by subst. }
  destruct (reasoning_grows d i s1 c1 T1 S1) as (c2 & E2 & T2 & S2); [by destruct s|by destruct s|].
  exists c2. cbn [fst snd app foldl] in *. rewrite E1. unfold i in *. destruct s. cbn in *. by rewrite E2.
Qed.

Lemma text_delta_good d s0 c0 : tracks s0 c0 -> rs_has_started s0 = true -> rs_text_done s0 = false -> good (text_delta d s0) c0.
Proof.
  intros T0 S0 D0. unfold text_delta. destruct (d =? "")%string; [by apply good_nil|].
  assert (rs_text_done (close_reasoning s0).2 = false) as D1 by (by destruct s0 as [? ? ? ? [?|] []]).
  apply good_then_at; [by apply keeps_close_reasoning|]. revert D1. generalize (close_reasoning s0).2. intros s Hopen c T St.
  destruct (rs_text_output_index s) as [i|] eqn:Ei; [by apply text_grows|].
  set (i := rs_next_output_index s). pose (s1 := set_text (Some i) (rs_text_done s) (rs_accumulated_text s) (S i) s).
  assert (good ([item_added i (message_opened (rs_message_id s))], s1) c) as (c1 & E1 & T1 & S1).
  { pose proof T as [(os & -> & W) Hc]. destruct (ow_text _ _ W Ei) as [Ha Hd].
    apply (item_opens OText s); try (destruct s; cbn in *; subst; done); try (intros [] ?; destruct s; cbn in *; done).
    eexists. split; [done|]. destruct s; cbn in *; by subst. }
  destruct (text_grows d i s1 c1 T1 S1) as (c2 & E2 & T2 & S2); [by destruct s|by destruct s|].
  exists c2. cbn [fst snd app foldl] in *. rewrite E1. unfold i in *. destruct s. cbn in *. by rewrite E2.
Qed.

(** Calls are found and grown by their tool index. *)
Lemma push_arguments_spec idx args l t : find (fun t => stc_tool_index t =? idx) l = Some t ->
  exists k, l !! k = Some t /\
    push_arguments idx args l
    = <[k := mkStreamCall (stc_tool_index t) (stc_output_index t) (stc_call_id t) (stc_name t) (stc_arguments t +:+ args) (stc_done_emitted t)]> l.
Proof.
  induction l as [|x l IH]; [done|]. cbn. destruct (stc_tool_index x =? idx).
  - intros [= <-]. exists 0%nat. by destruct x.
  - intros H. destruct (IH H) as (k & Hk & Hp). exists (S k). by rewrite Hp.
Qed.

Lemma find_elem {A} (f : A -> bool) l x : find f l = Some x -> x ∈ l.
Proof. intros H. apply find_some in H as [H _]. by apply list_elem_of_In. Qed.

Lemma find_none_app {A} (f : A -> bool) l x : find f l = None -> f x = true -> find f (l ++ [x]) = Some x.
Proof. induction l as [|y l IH]; cbn; [by intros _ ->|]. destruct (f y); [done|exact IH]. Qed.

Lemma responses_call_opens tc s c : tracks s c -> rs_has_started s = true ->
  let '(e, oi, ci, s') := open_call tc s in
  good (e, s') c /\ exists t, find (fun t => stc_tool_index t =? default 0 (rtp_index tc)) (rs_tool_calls s') = Some t /\
    stc_output_index t = oi /\ stc_call_id t = ci.
Proof.
  intros T St. unfold open_call. destruct (find _ (rs_tool_calls s)) as [t|] eqn:Ef; [split; [by apply good_nil|by exists t]|].
  set (t := mkStreamCall _ _ _ _ _ _). set (s' := set_calls _ _ s). split.
  - apply (item_opens (OCall (length (rs_tool_calls s))) s); try (destruct s; cbn in *; done).
    + cbn. by rewrite lookup_ge_None_2.
    + replace (rs_tool_calls s') with (rs_tool_calls s ++ [t]) by (destruct s; done). cbn. destruct s. cbn. by rewrite lookup_app_r, Nat.sub_diag by lia.
    + intros [| |k] Hk; [by destruct s|by destruct s|]. destruct s. cbn in *. destruct (decide (k < length rs_tool_calls0)%nat).
      * by rewrite lookup_app_l.
      * rewrite !lookup_ge_None_2; [done| |]; rewrite ?length_app; cbn; try lia. assert (k <> length rs_tool_calls0) by congruence. lia.
    + intros [| |k] Hk; [by destruct s|by destruct s|]. destruct s. cbn in *. destruct (decide (k < length rs_tool_calls0)%nat).
      * by rewrite lookup_app_l.
      * rewrite !lookup_ge_None_2; [done| |]; rewrite ?length_app; cbn; try lia. assert (k <> length rs_tool_calls0) by congruence. lia.
    + eexists. split; [done|]. destruct s. cbn. by rewrite lookup_app_r, Nat.sub_diag by lia.
  - exists t. split; [|done]. destruct s. cbn in *. apply find_none_app; [done|]. apply Z.eqb_refl.
Qed.

Lemma call_grows idx args t s c : tracks s c -> rs_has_started s = true ->
  find (fun t => stc_tool_index t =? idx) (rs_tool_calls s) = Some t -> stc_done_emitted t = false ->
  good ([typed_event "response.function_call_arguments.delta"
           [("output_index", JInt (Z.of_nat (stc_output_index t))); ("call_id", JStr (stc_call_id t)); ("delta", JStr args)]%string],
        set_calls (push_arguments idx args (rs_tool_calls s)) (rs_next_output_index s) s) c.
Proof.
  intros [(os & -> & W) Hc] St Hf Ho. destruct (push_arguments_spec idx args _ _ Hf) as (k & Hk & Hp). rewrite Hp.
  set (t' := mkStreamCall _ _ _ _ _ _). set (s' := set_calls _ _ s).
  pose proof (lookup_lt_Some _ _ _ Hk) as Hlt.
  assert (owner_index s (OCall k) = Some (stc_output_index t)) as Hk' by (cbn; by rewrite Hk).
  assert (rs_tool_calls s' = <[k := t']> (rs_tool_calls s)) as Hs' by (destruct s; done).
  destruct (owned_update s s' os (OCall k) (stc_output_index t) W Hk') as [E W']; try (destruct s; cbn in *; done).
  - intros [| |j]; [by destruct s|by destruct s|]. cbn. rewrite Hs'. destruct (decide (j = k)) as [->|Hj].
    + by rewrite list_lookup_insert_eq, Hk.
    + by rewrite list_lookup_insert_ne.
  - intros [| |j] Hj; [by destruct s|by destruct s|]. cbn. rewrite Hs', list_lookup_insert_ne; [done|congruence].
  - eexists. cbn [fst snd foldl]. rewrite St. erewrite (read_arguments_delta _ (stc_output_index t));
      [|rewrite list_lookup_fmap, (proj2 (ow_index _ _ W (OCall k) _) Hk'); cbn; rewrite Hk; cbn; unfold call_out; by rewrite Ho].
    split; [done|]. split; [|by destruct s]. split; [|by destruct s]. exists os. split; [|exact W']. rewrite <- E.
    replace (rs_has_started s') with true by (destruct s; done). f_equal. f_equal. cbn. rewrite Hs', list_lookup_insert_eq by done. cbn. unfold call_out, t'. cbn. by rewrite Ho.
Qed.

Definition calls_open (s : OpenAIToResponsesSseStream) : Prop := Forall (fun tc => stc_done_emitted tc = false) (rs_tool_calls s).

Lemma open_call_opens tc s : calls_open s -> calls_open (open_call tc s).2.
Proof.
  unfold calls_open, open_call. intros H. destruct (find _ (rs_tool_calls s)); [done|]. destruct s. cbn in *.
  apply Forall_app. split; [done|]. by repeat constructor.
Qed.

Lemma push_arguments_open idx args l : Forall (fun tc => stc_done_emitted tc = false) l ->
  Forall (fun tc => stc_done_emitted tc = false) (push_arguments idx args l).
Proof. induction 1 as [|[] l H Hl IH]; cbn; [constructor|]. destruct (_ =? _); by constructor. Qed.

Lemma tool_call_delta_opens tc s : calls_open s -> calls_open (tool_call_delta tc s).2.
Proof.
  intros H. apply (open_call_opens tc) in H. unfold tool_call_delta. destruct (open_call tc s) as [[[e oi] ci] s1]. cbn [snd] in *.
  destruct (rtp_function tc ≫= rfp_arguments) as [args|]; [|done]. destruct (args =? "")%string; [done|].
  unfold calls_open in *. destruct s1. by apply push_arguments_open.
Qed.

Lemma tool_call_delta_good tc s c : tracks s c -> rs_has_started s = true -> calls_open s -> good (tool_call_delta tc s) c.
Proof.
  intros T St Ho. apply (open_call_opens tc) in Ho. unfold tool_call_delta. pose proof (responses_call_opens tc s c T St) as H.
  destruct (open_call tc s) as [[[e oi] ci] s1]. cbn [snd] in Ho.
  destruct H as [G (t & Hf & <- & <-)]. destruct (rtp_function tc ≫= rfp_arguments) as [args|]; [|done].
  destruct (args =? "")%string; [done|]. destruct G as (c1 & E1 & T1 & S1). cbn [fst snd] in *.
  assert (stc_done_emitted t = false) as Hd by (unfold calls_open in Ho; rewrite Forall_forall in Ho; apply Ho; by apply find_elem in Hf).
  destruct (call_grows _ args t s1 c1 T1 S1 Hf Hd) as (c2 & E2 & T2 & S2). exists c2. cbn [fst snd] in *. by rewrite foldl_app, E1.
Qed.

(** All calls done: the client marks each of them. *)
Definition mark_done (items : list OutItem) (tc : StreamToolCall) : list OutItem := <[stc_output_index tc := call_out (set_done tc)]> items.

Lemma calls_settle tcs items : NoDup (stc_output_index <$> tcs) -> Forall (fun tc => items !! stc_output_index tc = Some (call_out tc)) tcs ->
  foldl rclient_step (Some (mkRClient true items None)) (tcs ≫= call_done_events) = Some (mkRClient true (foldl mark_done items tcs) None).
Proof.
  revert items. induction tcs as [|tc tcs IH]; intros items Hn Hi; [done|]. rewrite bind_cons, foldl_app. cbn [foldl].
  apply Forall_cons in Hi as [H1 Hi]. rewrite fmap_cons in Hn. apply NoDup_cons in Hn as [Hn1 Hn]. rewrite read_call_done by done.
  apply IH; [done|]. rewrite Forall_forall in Hi |- *. intros x Hx. unfold mark_done. rewrite list_lookup_insert_ne; [by apply Hi|].
  intros Heq. apply Hn1. rewrite Heq. by apply list_elem_of_fmap_2.
Qed.

Lemma marks_lookup tcs items i : NoDup (stc_output_index <$> tcs) -> Forall (fun tc => items !! stc_output_index tc = Some (call_out tc)) tcs ->
  (forall tc, tc ∈ tcs -> stc_output_index tc = i -> foldl mark_done items tcs !! i = Some (call_out (set_done tc))) /\
  ((forall tc, tc ∈ tcs -> stc_output_index tc <> i) -> foldl mark_done items tcs !! i = items !! i).
Proof.
  revert items. induction tcs as [|tc tcs IH]; intros items Hn Hi; [split; [intros ? H; by apply elem_of_nil in H|done]|]. cbn [foldl].
  apply Forall_cons in Hi as [H1 Hi]. rewrite fmap_cons in Hn. apply NoDup_cons in Hn as [Hn1 Hn].
  assert (Forall (fun x => mark_done items tc !! stc_output_index x = Some (call_out x)) tcs) as Hi'.
  { rewrite Forall_forall in Hi |- *. intros x Hx. unfold mark_done. rewrite list_lookup_insert_ne; [by apply Hi|].
    intros Heq. apply Hn1. rewrite Heq. by apply list_elem_of_fmap_2. }
  destruct (IH (mark_done items tc) Hn Hi') as [IH1 IH2]. split.
  - intros x Hx <-. apply elem_of_cons in Hx as [->|Hx]; [|by apply IH1]. rewrite IH2.
    + unfold mark_done. rewrite list_lookup_insert_eq; [done|]. by eapply lookup_lt_Some.
    + intros y Hy Heq. apply Hn1. rewrite <- Heq. by apply list_elem_of_fmap_2.
  - intros Hx. rewrite IH2; [|intros y Hy; apply Hx; by right]. unfold mark_done. apply list_lookup_insert_ne. apply Hx. by left.
Qed.

Lemma owned_calls s os : owned s os ->
  NoDup (stc_output_index <$> rs_tool_calls s) /\
  Forall (fun tc => (owner_item s <$> os) !! stc_output_index tc = Some (call_out tc)) (rs_tool_calls s).
Proof.
  intros W. assert (forall k tc, rs_tool_calls s !! k = Some tc -> os !! stc_output_index tc = Some (OCall k)) as H.
  { intros k tc Hk. apply (ow_index _ _ W). cbn. by rewrite Hk. }
  split.
  - apply NoDup_alt. intros i j x Hi Hj. apply list_lookup_fmap_Some in Hi as (t & -> & Hi). apply list_lookup_fmap_Some in Hj as (t' & He & Hj).
    apply H in Hi. apply H in Hj. rewrite He in Hi. congruence.
  - apply Forall_lookup_2. intros k tc Hk. rewrite list_lookup_fmap, (H k tc Hk). cbn. by rewrite Hk.
Qed.

Lemma keeps_close_tool_calls : keeps close_tool_calls.
Proof.
  intros s c [(os & -> & W) Hc] St. unfold close_tool_calls. destruct (owned_calls s os W) as [Hn Hi].
  set (s' := set_calls _ _ s). assert (rs_tool_calls s' = set_done <$> rs_tool_calls s) as Hs' by (destruct s; done).
  assert (forall o, owner_index s' o = owner_index s o) as Hx.
  { intros [| |k]; [by destruct s|by destruct s|]. cbn. rewrite Hs', list_lookup_fmap. destruct (rs_tool_calls s !! k) as [[]|]; done. }
  exists (mkRClient true (foldl mark_done (owner_item s <$> os) (rs_tool_calls s)) None). cbn [fst snd]. rewrite St, calls_settle by done.
  split; [done|]. split; [|by destruct s]. split; [|by destruct s]. exists os. split.
  - replace (rs_has_started s') with true by (destruct s; done). f_equal. apply list_eq. intros i.
    destruct (marks_lookup (rs_tool_calls s) (owner_item s <$> os) i Hn Hi) as [M1 M2]. rewrite list_lookup_fmap.
    destruct (os !! i) as [o|] eqn:Eo.
    + pose proof (proj1 (ow_index _ _ W o i) Eo) as Ho. destruct o as [| |k].
      * rewrite M2; [rewrite list_lookup_fmap, Eo; by destruct s|]. intros tc [k Hk]%list_elem_of_lookup_1 He.
        assert (os !! i = Some (OCall k)) by (apply (ow_index _ _ W); cbn; by rewrite Hk, <- He). congruence.
      * rewrite M2; [rewrite list_lookup_fmap, Eo; by destruct s|]. intros tc [k Hk]%list_elem_of_lookup_1 He.
        assert (os !! i = Some (OCall k)) by (apply (ow_index _ _ W); cbn; by rewrite Hk, <- He). congruence.
      * cbn in Ho. destruct (rs_tool_calls s !! k) as [tc|] eqn:Ek; [|done]. injection Ho as Ho.
        rewrite (M1 tc); [|by eapply list_elem_of_lookup_2|done]. cbn. by rewrite Hs', list_lookup_fmap, Ek.
    + rewrite M2; [by rewrite list_lookup_fmap, Eo|]. intros tc [k Hk]%list_elem_of_lookup_1 He.
      assert (os !! i = Some (OCall k)) by (apply (ow_index _ _ W); cbn; by rewrite Hk, <- He). congruence.
  - destruct W as [H1 H2 H3 H4]. constructor; [by destruct s|intros; by rewrite Hx|by destruct s|by destruct s].
Qed.

#[export] Hint Resolve keeps_close_reasoning keeps_close_text keeps_close_tool_calls : responses.

(** ** The beginning and the end *)

Lemma ensure_started_good s c : tracks s c -> good (ensure_started s) c.
Proof.
  intros T. unfold ensure_started. destruct (rs_has_started s) eqn:St; [by apply good_nil|]. pose proof T as [(os & -> & W) Hc].
  rewrite St. exists (mkRClient true (owner_item s <$> os) None). split; [|split; [|by destruct s]].
  - cbn [fst foldl]. unfold rclient_step, typed_event. cbn [rc_ending]. unfold rclient_event. by rewrite bool_decide_eq_true_2.
  - split; [|by destruct s]. exists os. split; [destruct s; f_equal; apply list_fmap_ext; by intros ? []|].
    destruct W as [H1 H2 H3 H4]. constructor; [by destruct s| |by destruct s|by destruct s].
    intros o i. rewrite H2. by destruct s, o.
Qed.

(** A whole response: every item done, and listed once as the client has it. *)
Definition complete_output (out : list (ItemKind * string)) (c : RClient) : Prop :=
  out ≡ₚ (fun it => (oi_kind it, oi_text it)) <$> rc_items c /\ Forall (fun it => oi_done it = true) (rc_items c) /\ rc_items c <> [].

Definition owners (s : OpenAIToResponsesSseStream) : list Owner :=
  (if rs_reasoning_output_index s then [OReason] else []) ++ (if rs_text_output_index s then [OText] else [])
  ++ (OCall <$> seq 0 (length (rs_tool_calls s))).

Lemma elem_of_owners s o : o ∈ owners s <-> is_Some (owner_index s o).
Proof.
  unfold owners. rewrite !elem_of_app, list_elem_of_fmap. setoid_rewrite elem_of_seq. destruct o as [| |k]; cbn.
  - destruct (rs_reasoning_output_index s), (rs_text_output_index s); set_solver.
  - destruct (rs_reasoning_output_index s), (rs_text_output_index s); set_solver.
  - rewrite fmap_is_Some, lookup_lt_is_Some. split.
    + intros [H|[H|(j & Hj & Hlt)]]; [destruct (rs_reasoning_output_index s); set_solver|destruct (rs_text_output_index s); set_solver|].
      simplify_eq. lia.
    + intros H. right. right. exists k. split; [done|lia].
Qed.

Lemma NoDup_owners s : NoDup (owners s).
Proof.
  unfold owners. apply NoDup_app. split; [destruct (rs_reasoning_output_index s); [apply NoDup_singleton|constructor]|]. split.
  - intros o Ho. assert (o = OReason) as -> by (destruct (rs_reasoning_output_index s); set_solver).
    destruct (rs_text_output_index s); set_solver.
  - apply NoDup_app. split; [destruct (rs_text_output_index s); [apply NoDup_singleton|constructor]|]. split.
    + intros o Ho. assert (o = OText) as -> by (destruct (rs_text_output_index s); set_solver). set_solver.
    + apply NoDup_fmap_2; [intros ?? [=]; done|apply NoDup_seq].
Qed.

(** What the last event lists. *)
Definition state_output (s : OpenAIToResponsesSseStream) : list (ItemKind * string) :=
  (fun o => (oi_kind (owner_item s o), oi_text (owner_item s o))) <$> owners s.

Definition at_index (s : OpenAIToResponsesSseStream) (os : list Owner) : Prop := forall o i, os !! i = Some o <-> owner_index s o = Some i.

Lemma owners_perm s os : at_index s os -> os ≡ₚ owners s.
Proof.
  intros W. apply NoDup_Permutation; [|apply NoDup_owners|].
  - apply NoDup_alt. intros i j o Hi Hj. apply W in Hi, Hj. congruence.
  - intros o. rewrite elem_of_owners, list_elem_of_lookup. split; intros [i Hi]; exists i; by apply W.
Qed.

Lemma output_reads s : mapM read_item (output_items s) = Some (state_output s).
Proof.
  unfold output_items, state_output, owners. rewrite !fmap_app, <- list_fmap_compose. apply mapM_Some_2. repeat apply Forall2_app.
  - destruct (rs_reasoning_output_index s); repeat constructor.
  - destruct (rs_text_output_index s); repeat constructor.
  - apply Forall2_fmap_l, Forall2_fmap_r. apply Forall2_same_length_lookup. split; [by rewrite length_seq|].
    intros i tc k Hi Hk. apply lookup_seq in Hk as [-> _]. cbn. by rewrite Hi.
Qed.

Lemma completed_read s os : at_index s os -> Forall (fun it => oi_done it = true) (owner_item s <$> os) -> os <> [] ->
  exists c, foldl rclient_step (Some (mkRClient true (owner_item s <$> os) None)) (emit_completed s).1 = Some c /\
    rc_ending c = Some (Completed (state_output s)) /\ complete_output (state_output s) c.
Proof.
  intros W Hd Hne. assert (forallb oi_done (owner_item s <$> os) = true) as Hall.
  { apply Is_true_true, forallb_True. eapply Forall_impl; [exact Hd|]. intros ? ->. done. }
  exists (mkRClient true (owner_item s <$> os) (Some (Completed (state_output s)))). split.
  - unfold emit_completed. cbn [fst foldl]. unfold rclient_step at 2, typed_event. cbn [rc_ending]. unfold rclient_event.
    rewrite bool_decide_eq_true_2 by done. cbn -[mapM output_items state_output fmap list_fmap forallb rclient_step bytes_of].
    rewrite output_reads, Hall. done.
  - split; [done|]. split; [|split]; cbn [rc_items]; [|done|by destruct os].
    unfold state_output. rewrite <- list_fmap_compose. by rewrite (owners_perm s os W).
Qed.

(** ** What a client of the chat completion API hears *)

(** The parts of a choice, in the order they stand in. *)
Inductive Part := PReason (s : string) | PText (s : string) | PCalls (l : list ResponsesToolCallProbe) | PFinish.

Definition text_part (f : string -> Part) (o : option string) : list Part :=
  match o with Some s => if (s =? "")%string then [] else [f s] | None => [] end.

Definition delta_parts (d : ResponsesDeltaProbe) : list Part :=
  text_part PReason (rdp_reasoning_content d) ++ text_part PText (rdp_content d)
  ++ match rdp_tool_calls d with Some l => [PCalls l] | None => [] end.

Definition choice_parts (c : ResponsesChoiceProbe) : list Part :=
  match rcp_delta c with Some d => delta_parts d | None => [] end
  ++ match rcp_finish_reason c with Some _ => [PFinish] | None => [] end.

Definition probe_parts (v : ResponsesSseProbe) : list Part := default [] (rsp_choices v) ≫= choice_parts.

(** Reasoning, text, calls, the finish reason: no part stands after one of a later kind. *)
Definition phase (p : Part) : nat := match p with PReason _ => 0 | PText _ => 1 | PCalls _ => 2 | PFinish => 3 end.

Fixpoint in_turn (n : nat) (l : list Part) : bool :=
  match l with [] => true | p :: l' => (n <=? phase p)%nat && in_turn (phase p) l' end.

(** The calls by index: one has the id and the name of its first fragment and the arguments of all of them. *)
Fixpoint hear (i : Z) (id name args : string) (calls : list (Z * (string * string * string))) : list (Z * (string * string * string)) :=
  match calls with
  | [] => [(i, (id, name, args))]
  | (j, (id', name', args')) :: calls' =>
      if j =? i then (j, (id', name', args' +:+ args)) :: calls' else (j, (id', name', args')) :: hear i id name args calls'
  end.

Definition hear_call (calls : list (Z * (string * string * string))) (tc : ResponsesToolCallProbe) : list (Z * (string * string * string)) :=
  hear (default 0 (rtp_index tc)) (default ""%string (rtp_id tc)) (default ""%string (rtp_function tc ≫= rfp_name))
    (default ""%string (rtp_function tc ≫= rfp_arguments)) calls.

(** The reasoning, the text and the calls of an answer. *)
Record Heard := mkHeard { hd_reasoning : string; hd_text : string; hd_calls : list (Z * (string * string * string)) }.

Definition hear_part (h : Heard) (p : Part) : Heard :=
  match p with
  | PReason s => mkHeard (hd_reasoning h +:+ s) (hd_text h) (hd_calls h)
  | PText s => mkHeard (hd_reasoning h) (hd_text h +:+ s) (hd_calls h)
  | PCalls l => mkHeard (hd_reasoning h) (hd_text h) (foldl hear_call (hd_calls h) l)
  | PFinish => h
  end.

Definition said (l : list Part) : Heard := foldl hear_part (mkHeard "" "" []) l.

(** A call without an id gets one. *)
Definition call_heard (o : ItemKind * string) (e : Z * (string * string * string)) : Prop :=
  exists call_id, o = (KCall call_id e.2.1.2, e.2.2) /\ (e.2.1.1 <> ""%string -> call_id = e.2.1.1).

(** The output of a response: the reasoning if there is some, the message if
    there is one or nothing else, the calls. *)
Definition answer (h : Heard) (out : list (ItemKind * string)) : Prop :=
  exists rid mid calls,
    out = (if (hd_reasoning h =? "")%string then [] else [(KReasoning rid, hd_reasoning h)])
      ++ (if (hd_text h =? "")%string && negb ((hd_reasoning h =? "")%string && bool_decide (hd_calls h = [])) then [] else [(KMessage mid, hd_text h)])
      ++ calls /\
    Forall2 call_heard calls (hd_calls h).

(** The state has accumulated what was heard. *)
Definition call_as (tc : StreamToolCall) (e : Z * (string * string * string)) : Prop :=
  stc_tool_index tc = e.1 /\ call_heard (KCall (stc_call_id tc) (stc_name tc), stc_arguments tc) e.

Record heard (s : OpenAIToResponsesSseStream) (h : Heard) : Prop := mkHeardBy {
  hb_reasoning : rs_accumulated_reasoning s = hd_reasoning h;
  hb_text : rs_accumulated_text s = hd_text h;
  hb_reasoning_item : rs_reasoning_output_index s = None <-> hd_reasoning h = ""%string;
  hb_text_item : rs_text_output_index s = None <-> hd_text h = ""%string;
  hb_calls : Forall2 call_as (rs_tool_calls s) (hd_calls h)
}.

Lemma call_outputs s :
  (fun o => (oi_kind (owner_item s o), oi_text (owner_item s o))) <$> (OCall <$> seq 0 (length (rs_tool_calls s)))
  = (fun tc => (KCall (stc_call_id tc) (stc_name tc), stc_arguments tc)) <$> rs_tool_calls s.
Proof.
  rewrite <- list_fmap_compose. apply list_eq. intros i. rewrite !list_lookup_fmap.
  destruct (decide (i < length (rs_tool_calls s))%nat) as [Hi|Hi].
  - rewrite lookup_seq_lt by done. cbn. by destruct (lookup_lt_is_Some_2 _ _ Hi) as [tc ->].
  - rewrite lookup_seq_ge by lia. by rewrite lookup_ge_None_2 by lia.
Qed.

Lemma outputs_heard tcs calls : Forall2 call_as tcs calls ->
  Forall2 call_heard ((fun tc => (KCall (stc_call_id tc) (stc_name tc), stc_arguments tc)) <$> tcs) calls.
Proof. induction 1 as [|tc e tcs calls [_ H] _ IH]; constructor; done. Qed.

(** The output of a state with items. *)
Lemma heard_output s h : heard s h -> no_items s = false -> answer h (state_output s).
Proof.
  intros [Hr Ht Hri Hti Hc] Hn. exists (rs_reasoning_id s), (rs_message_id s). eexists. split; [|by apply outputs_heard].
  unfold state_output, owners. rewrite !fmap_app, call_outputs. f_equal; [|f_equal].
  - destruct (rs_reasoning_output_index s), (String.eqb_spec (hd_reasoning h) "") as [E|E]; cbn; rewrite ?Hr; try done;
      destruct Hri as [H1 H2]; [by specialize (H2 E)|by specialize (H1 eq_refl)].
  - unfold no_items in Hn. destruct (rs_text_output_index s), (String.eqb_spec (hd_text h) "") as [E|E]; cbn; rewrite ?Ht; try done;
      destruct Hti as [H1 H2]; [by specialize (H2 E)| |by specialize (H1 eq_refl)].
    destruct (String.eqb_spec (hd_reasoning h) "") as [E'|E']; cbn; [|done]. apply Hri in E'. rewrite E' in Hn.
    rewrite bool_decide_eq_false_2; [done|]. intros Hnil. rewrite Hnil in Hc. apply Forall2_nil_inv_r in Hc. by rewrite Hc in Hn.
Qed.

(** Closing leaves nothing open and changes no text. *)
Definition closing (s : OpenAIToResponsesSseStream) : list ClientEvent * OpenAIToResponsesSseStream :=
  then_do (then_do (then_do (ensure_started s) close_reasoning) close_text) close_tool_calls.

Lemma closing_good s c : tracks s c -> good (closing s) c.
Proof. intros T. unfold closing. repeat apply good_then; auto with responses. by apply ensure_started_good. Qed.

Lemma closing_closes s : let s' := (closing s).2 in forall o, is_Some (owner_index s' o) -> oi_done (owner_item s' o) = true.
Proof.
  assert (forall (tcs : list StreamToolCall) k, is_Some (stc_output_index <$> (set_done <$> tcs) !! k) ->
    oi_done (default (mkOutItem (KCall "" "") "" true) (call_out <$> (set_done <$> tcs) !! k)) = true) as Hc.
  { intros tcs k. rewrite list_lookup_fmap. by destruct (tcs !! k) as [[]|]. }
  destruct s as [i m [] c [ri|] [] ra rid [ti|] [] ta mid tcs n u]; cbn; intros [| |k]; cbn; try done;
    try (by intros [? ?]); apply Hc.
Qed.

(** Handlers that end items do not change what was heard. *)
Definition silent (f : OpenAIToResponsesSseStream -> list ClientEvent * OpenAIToResponsesSseStream) : Prop :=
  forall s h, heard s h -> heard (f s).2 h.

Lemma silent_then f g : silent f -> silent g -> silent (fun s => then_do (f s) g).
Proof.
  intros Hf Hg s h H. unfold then_do. specialize (Hf s h H). destruct (f s) as [e1 s1]. specialize (Hg s1 h Hf). by destruct (g s1).
Qed.

Ltac silently := intros [i m [] c [ri|] [] ra rid [ti|] [] ta mid tcs n u] h []; by constructor.

Lemma silent_started : silent ensure_started.
Proof. silently. Qed.
Lemma silent_close_reasoning : silent close_reasoning.
Proof. silently. Qed.
Lemma silent_close_text : silent close_text.
Proof. silently. Qed.

Lemma silent_close_tool_calls : silent close_tool_calls.
Proof.
  intros s h [Hr Ht Hri Hti Hc]. unfold close_tool_calls. destruct s. cbn in *. constructor; cbn; try done.
  apply Forall2_fmap_l. eapply Forall2_impl; [exact Hc|]. by intros [].
Qed.

#[export] Hint Resolve silent_then silent_started silent_close_reasoning silent_close_text silent_close_tool_calls : responses.

Lemma silent_closing : silent closing.
Proof. unfold closing. auto with responses. Qed.

(** ** A finished response *)

Definition ends_well (h : Heard) (r : list ClientEvent * OpenAIToResponsesSseStream) (c : RClient) : Prop :=
  exists c' out, foldl rclient_step (Some c) r.1 = Some c' /\ rc_ending c' = Some (Completed out) /\ complete_output out c' /\
    answer h out /\ rs_has_completed r.2 = true.

Lemma at_index_nil s os : at_index s os -> no_items s = true -> os = [].
Proof.
  intros W H. destruct os as [|o os]; [done|]. pose proof (proj1 (W o 0%nat) eq_refl) as Ho. unfold no_items in H.
  destruct o as [| |k]; cbn in Ho; repeat case_match; try done.
Qed.

(** A message that was never written is sent empty. *)
Lemma empty_message_read s h : no_items s = true -> heard s h ->
  ends_well h (then_do (add_empty_message s) emit_completed) (mkRClient true [] None).
Proof.
  intros Hn [Hr Ht Hri Hti Hcs]. unfold add_empty_message. rewrite Hn. set (s' := set_text _ _ _ _ s). unfold then_do.
  assert (rs_reasoning_output_index s = None /\ rs_text_output_index s = None /\ rs_tool_calls s = []) as (Nr & Nt & Nc)
    by (unfold no_items in Hn; by destruct (rs_reasoning_output_index s), (rs_text_output_index s), (rs_tool_calls s)).
  apply Hri in Nr as Er. apply Hti in Nt as Et. rewrite Nc in Hcs. apply Forall2_nil_inv_l in Hcs.
  assert (at_index s' [OText]) as W.
  { destruct s. cbn in *. subst. intros o j. split.
    - intros H. apply list_lookup_singleton_Some in H as [-> <-]. done.
    - destruct o as [| |k]; cbn; [done|by intros [= <-]|]. by rewrite lookup_nil. }
  destruct (completed_read s' [OText] W) as (c' & E & Hc & Ho); [by repeat constructor; destruct s|done|].
  assert (state_output s' = [(KMessage (rs_message_id s), ""%string)]) as Hout.
  { unfold s', state_output, owners. destruct s. cbn in *. subst. cbn. by rewrite Et. }
  destruct (emit_completed s') as [e2 s2] eqn:Ee. exists c', (state_output s'). cbn [fst snd]. rewrite foldl_app. cbn [foldl].
  rewrite (read_added _ _ _ (KMessage (rs_message_id s))) by done. erewrite (read_done _ 0); [|done|done|done].
  replace (<[0%nat := _]> _) with (owner_item s' <$> [OText]) by (destruct s; cbn in *; subst; by rewrite Et).
  split; [exact E|]. split; [done|]. split; [done|]. split.
  - rewrite Hout. exists ""%string, (rs_message_id s), []. rewrite Er, Et, Hcs. split; [done|constructor].
  - unfold emit_completed in Ee. injection Ee as _ <-. by destruct s'.
Qed.

Lemma finish_good s c h : tracks s c -> heard s h -> ends_well h (responses_finish s) c.
Proof.
  intros T Hh. unfold responses_finish. rewrite (tk_completed _ _ T). fold (closing s).
  pose proof (closing_good s c T) as (c1 & E1 & [(os & -> & W) Hc1] & S1). pose proof (closing_closes s) as Hd.
  pose proof (silent_closing s h Hh) as Hh1.
  destruct (closing s) as [e1 s1]. cbn [fst snd] in *. rewrite S1 in E1. pose proof (ow_index _ _ W) as Wi.
  enough (ends_well h (then_do (add_empty_message s1) emit_completed) (mkRClient true (owner_item s1 <$> os) None)) as (c2 & out & E2 & R).
  { unfold then_do in *. destruct (add_empty_message s1) as [e2 s2].
    destruct (emit_completed s2) as [e3 s3]. exists c2, out. cbn [fst snd] in *. rewrite <- app_assoc, foldl_app, E1. done. }
  destruct (no_items s1) eqn:En; [rewrite (at_index_nil s1 os Wi En); by apply empty_message_read|].
  unfold add_empty_message. rewrite En. unfold then_do. cbn [app].
  destruct (completed_read s1 os Wi) as (c2 & E2 & Hc2 & Ho2).
  - apply Forall_fmap, Forall_lookup_2. intros i o Hi. apply Hd. exists i. by apply Wi.
  - intros ->. assert (owners s1 = []) as Ho by (apply Permutation_nil; by apply owners_perm).
    unfold owners, no_items in *. by destruct (rs_reasoning_output_index s1), (rs_text_output_index s1), (rs_tool_calls s1).
  - destruct (emit_completed s1) as [e3 s3] eqn:Ee. exists c2, (state_output s1). split_and!; [done|done|done|by apply heard_output|].
    unfold emit_completed in Ee. injection Ee as _ <-. by destruct s1.
Qed.

(** ** Parts in turn *)

Definition do_part (p : Part) : OpenAIToResponsesSseStream -> list ClientEvent * OpenAIToResponsesSseStream :=
  match p with
  | PReason d => reasoning_delta d
  | PText d => text_delta d
  | PCalls l => fun s => then_do (then_do (close_reasoning s) close_text) (do_all tool_call_delta l)
  | PFinish => fun s => then_do (then_do (close_reasoning s) close_text) close_tool_calls
  end.

Lemma then_do_nil r : then_do r (fun s => ([], s)) = r.
Proof. destruct r as [e s]. cbn. by rewrite app_nil_r. Qed.

Lemma do_all_app {A} (f : A -> OpenAIToResponsesSseStream -> list ClientEvent * OpenAIToResponsesSseStream) l1 l2 s :
  do_all f (l1 ++ l2) s = then_do (do_all f l1 s) (do_all f l2).
Proof.
  revert s. induction l1 as [|x l1 IH]; intros s; [cbn; by destruct (do_all f l2 s)|]. cbn [app do_all]. unfold then_do.
  destruct (f x s) as [e s1]. rewrite IH. unfold then_do. destruct (do_all f l1 s1) as [e1 s2]. destruct (do_all f l2 s2). by rewrite app_assoc.
Qed.

Lemma then_do_ext r f g : (forall s, f s = g s) -> then_do r f = then_do r g.
Proof. intros H. destruct r as [e s]. unfold then_do. by rewrite H. Qed.

Lemma process_choice_parts c s : process_choice c s = do_all do_part (choice_parts c) s.
Proof.
  unfold process_choice, choice_parts. rewrite do_all_app.
  assert (forall d s, process_delta d s = do_all do_part (delta_parts d) s) as Hd.
  { clear. intros d s. unfold process_delta, delta_parts. rewrite app_assoc, !do_all_app.
    assert (forall f o s, (forall s, do_part (f ""%string) s = ([], s)) ->
      do_option (fun x => do_part (f x)) o s = do_all do_part (text_part f o) s) as Ht.
    { intros f [x|] t Hf; [|done]. cbn [do_option text_part]. destruct (String.eqb_spec x "") as [->|_]; [apply Hf|].
      cbn [do_all]. by rewrite then_do_nil. }
    rewrite <- (Ht PReason) by done.
    erewrite (then_do_ext _ (do_all do_part (text_part PText _))) by (intros t; symmetry; by apply (Ht PText)).
    apply then_do_ext. intros t. destruct (rdp_tool_calls d); [|done]. cbn [do_option do_all]. by rewrite then_do_nil. }
  destruct (rcp_delta c) as [d|]; cbn [do_option]; [rewrite Hd|]; apply then_do_ext; intros t; destruct (rcp_finish_reason c); try done;
    cbn [do_option do_all]; by rewrite then_do_nil.
Qed.

Lemma choices_parts cs s : do_all process_choice cs s = do_all do_part (cs ≫= choice_parts) s.
Proof.
  revert s. induction cs as [|c cs IH]; intros s; [done|]. rewrite bind_cons, do_all_app. cbn [do_all].
  rewrite process_choice_parts. by apply then_do_ext.
Qed.

(** Items of this phase and of later ones are not done. *)
Definition open_to (n : nat) (s : OpenAIToResponsesSseStream) : Prop :=
  (n = 0%nat -> rs_reasoning_done s = false) /\ ((n <= 1)%nat -> rs_text_done s = false) /\ ((n <= 2)%nat -> calls_open s).

Lemma closed_calls_open s : calls_open s -> calls_open (then_do (close_reasoning s) close_text).2.
Proof. by destruct s as [i m st c [ri|] [] ra rid [ti|] [] ta mid tcs n u]. Qed.

Lemma calls_all_open l s : calls_open s -> calls_open (do_all tool_call_delta l s).2.
Proof.
  revert s. induction l as [|tc l IH]; intros s H; [done|]. cbn [do_all]. unfold then_do.
  apply (tool_call_delta_opens tc) in H. destruct (tool_call_delta tc s) as [e1 s1]. specialize (IH s1 H). by destruct (do_all _ l s1).
Qed.

Lemma part_opens n p s : (n <= phase p)%nat -> open_to n s -> open_to (phase p) (do_part p s).2.
Proof.
  intros Hn (Hr & Ht & Hc). destruct p as [d|d|l|]; cbn [phase do_part] in *.
  - unfold reasoning_delta, open_to, calls_open in *. assert (n = 0%nat) as -> by lia.
    destruct (d =? "")%string; [done|]. destruct (rs_reasoning_output_index s); destruct s; cbn in *; split_and!; auto.
  - unfold text_delta, open_to, calls_open in *. destruct (d =? "")%string; [split_and!; [done|intros; apply Ht; lia|intros; apply Hc; lia]|].
    specialize (Ht ltac:(lia)). specialize (Hc ltac:(lia)).
    destruct s as [i m st c [ri|] [] ra rid [ti|] [] ta mid tcs k u]; cbn in *; by split_and!.
  - split_and!; [done|lia|]. intros _. specialize (Hc ltac:(lia)). unfold then_do at 1. apply closed_calls_open in Hc.
    destruct (then_do (close_reasoning s) close_text) as [e1 s1]. apply (calls_all_open l) in Hc. cbn [snd] in Hc. by destruct (do_all _ l s1).
  - split_and!; lia.
Qed.

Lemma calls_good l s c : tracks s c -> rs_has_started s = true -> calls_open s -> good (do_all tool_call_delta l s) c.
Proof.
  revert s c. induction l as [|tc l IH]; intros s c T St Ho; [by apply good_nil|]. cbn [do_all].
  apply good_then_at; [by apply tool_call_delta_good|]. intros c' T' S'. apply IH; [done|done|by apply tool_call_delta_opens].
Qed.

Lemma part_good n p s c : (n <= phase p)%nat -> open_to n s -> tracks s c -> rs_has_started s = true -> good (do_part p s) c.
Proof.
  intros Hn (Hr & Ht & Hc) T St. destruct p as [d|d|l|]; cbn [phase do_part] in *.
  - apply reasoning_delta_good; [done|done|apply Hr; lia].
  - apply text_delta_good; [done|done|apply Ht; lia].
  - apply good_then_at; [apply good_then; auto with responses; by apply keeps_close_reasoning|].
    intros c' T' S'. apply calls_good; [done|done|]. apply closed_calls_open, Hc. lia.
  - repeat apply good_then; auto with responses.
Qed.

(** What a part adds. *)
Lemma append_is_empty a b : a +:+ b = ""%string <-> a = ""%string /\ b = ""%string.
Proof. split; [|by intros [-> ->]]. destruct a; [done|done]. Qed.

Lemma hear_found idx id name args l calls t : Forall2 call_as l calls -> find (fun t => stc_tool_index t =? idx) l = Some t ->
  Forall2 call_as (push_arguments idx args l) (hear idx id name args calls).
Proof.
  intros H Hf. induction H as [|tc [j [[id' name'] args']] l calls [H1 (ci & H2 & H3)] Hl IH]; [done|]. cbn in *. subst j.
  destruct (stc_tool_index tc =? idx).
  - destruct tc. cbn in *. simplify_eq. constructor; [|done]. split; [done|]. by eexists.
  - constructor; [|by apply IH]. split; [done|]. by exists ci.
Qed.

Lemma hear_new idx id name l calls oi ci : Forall2 call_as l calls -> find (fun t => stc_tool_index t =? idx) l = None ->
  (id <> ""%string -> ci = id) -> Forall2 call_as (l ++ [mkStreamCall idx oi ci name "" false]) (hear idx id name "" calls).
Proof.
  intros H Hf Hid. induction H as [|tc [j [[id' name'] args']] l calls [H1 H2] Hl IH]; cbn in *.
  - constructor; [|constructor]. split; [done|]. by exists ci.
  - subst j. destruct (stc_tool_index tc =? idx); [done|]. constructor; [by split|]. by apply IH.
Qed.

Lemma hear_twice idx id name a id' name' b calls : hear idx id' name' b (hear idx id name a calls) = hear idx id name (a +:+ b) calls.
Proof.
  induction calls as [|[j [[i n] x]] calls IH]; cbn; [by rewrite Z.eqb_refl|]. destruct (j =? idx) eqn:E; cbn; rewrite E; [by rewrite append_assoc|].
  by rewrite IH.
Qed.

Lemma open_call_heard tc s calls : Forall2 call_as (rs_tool_calls s) calls ->
  let '(e, oi, ci, s') := open_call tc s in
  Forall2 call_as (rs_tool_calls s') (hear (default 0 (rtp_index tc)) (default ""%string (rtp_id tc)) (default ""%string (rtp_function tc ≫= rfp_name)) "" calls) /\
  exists t, find (fun t => stc_tool_index t =? default 0 (rtp_index tc)) (rs_tool_calls s') = Some t.
Proof.
  intros H. unfold open_call. destruct (find _ (rs_tool_calls s)) as [t|] eqn:E.
  - split; [|by exists t]. assert (push_arguments (default 0 (rtp_index tc)) "" (rs_tool_calls s) = rs_tool_calls s) as <-; [|by eapply hear_found].
    generalize (rs_tool_calls s). intros l. induction l as [|[] l IH]; cbn; [done|]. by rewrite append_empty, IH; destruct (_ =? _).
  - destruct s. cbn in *. split; [|eexists; apply find_none_app; [done|apply Z.eqb_refl]]. apply hear_new; [done|done|].
    intros Hid. by rewrite (proj2 (String.eqb_neq _ _) Hid).
Qed.

Lemma tool_call_heard tc s h : heard s h -> heard (tool_call_delta tc s).2 (mkHeard (hd_reasoning h) (hd_text h) (hear_call (hd_calls h) tc)).
Proof.
  intros [Hr Ht Hri Hti Hc]. pose proof (open_call_heard tc s _ Hc) as H. unfold tool_call_delta.
  assert (let s' := (open_call tc s).2 in rs_accumulated_reasoning s' = rs_accumulated_reasoning s /\ rs_accumulated_text s' = rs_accumulated_text s
    /\ rs_reasoning_output_index s' = rs_reasoning_output_index s /\ rs_text_output_index s' = rs_text_output_index s) as (E1 & E2 & E3 & E4)
    by (unfold open_call; destruct (find _ _); by destruct s).
  destruct (open_call tc s) as [[[e oi] ci] s1]. destruct H as [Hc1 [t Ht1]]. cbn [snd] in *. rewrite <- E1 in Hr. rewrite <- E2 in Ht.
  rewrite <- E3 in Hri. rewrite <- E4 in Hti. unfold hear_call.
  destruct (rtp_function tc ≫= rfp_arguments) as [args|] eqn:Ea; cbn [default]; [|by constructor].
  destruct (String.eqb_spec args "") as [->|_]; [by constructor|]. destruct s1. cbn in *. constructor; try done. cbn.
  change args with ("" +:+ args)%string at 2. rewrite <- (hear_twice _ _ _ "" ""%string ""%string). by eapply hear_found.
Qed.

Lemma calls_heard l s h : heard s h -> heard (do_all tool_call_delta l s).2 (mkHeard (hd_reasoning h) (hd_text h) (foldl hear_call (hd_calls h) l)).
Proof.
  revert s h. induction l as [|tc l IH]; intros s h H; [by destruct h|]. cbn [do_all foldl]. unfold then_do.
  apply (tool_call_heard tc) in H. destruct (tool_call_delta tc s) as [e1 s1]. apply IH in H. cbn [snd] in *. by destruct (do_all _ l s1).
Qed.

Lemma part_heard p s h : heard s h -> heard (do_part p s).2 (hear_part h p).
Proof.
  intros H. destruct p as [d|d|l|]; cbn [do_part hear_part].
  - unfold reasoning_delta. destruct H as [Hr Ht Hri Hti Hc]. destruct (String.eqb_spec d "") as [->|Hd]; [rewrite append_empty; by constructor|].
    destruct (rs_reasoning_output_index s); destruct s; cbn in *; constructor; cbn; try done; try (by rewrite Hr);
      rewrite append_is_empty; split; [done|by intros [_ ?]|done|by intros [_ ?]].
  - unfold text_delta. destruct (String.eqb_spec d "") as [->|Hd]; [destruct H; rewrite append_empty; by constructor|].
    apply silent_close_reasoning in H. unfold then_do. destruct (close_reasoning s) as [e1 s1]. destruct H as [Hr Ht Hri Hti Hc]. cbn [snd] in *.
    destruct (rs_text_output_index s1); destruct s1; cbn in *; constructor; cbn; try done; try (by rewrite Ht);
      rewrite append_is_empty; split; [done|by intros [_ ?]|done|by intros [_ ?]].
  - assert (silent (fun s => then_do (close_reasoning s) close_text)) as Hs by auto with responses.
    apply Hs in H. unfold then_do at 1. destruct (then_do (close_reasoning s) close_text) as [e1 s1]. apply (calls_heard l) in H. cbn [snd] in *.
    by destruct (do_all _ l s1).
  - assert (silent (fun s => then_do (then_do (close_reasoning s) close_text) close_tool_calls)) as Hs by auto with responses. by apply Hs.
Qed.

Lemma part_completed p s : rs_has_completed (do_part p s).2 = rs_has_completed s.
Proof.
  assert (forall l s, rs_has_completed (do_all tool_call_delta l s).2 = rs_has_completed s) as Hl.
  { clear. induction l as [|tc l IH]; intros s; [done|]. cbn [do_all]. unfold then_do.
    assert (rs_has_completed (tool_call_delta tc s).2 = rs_has_completed s) as <-.
    { unfold tool_call_delta, open_call. destruct (find _ (rs_tool_calls s)); destruct (rtp_function tc ≫= rfp_arguments) as [args|];
        try destruct (args =? "")%string; by destruct s. }
    destruct (tool_call_delta tc s) as [e1 s1]. specialize (IH s1). by destruct (do_all _ l s1). }
  destruct p as [d|d|l|]; cbn [do_part].
  - unfold reasoning_delta. destruct (d =? "")%string; [done|]. destruct (rs_reasoning_output_index s); by destruct s.
  - unfold text_delta. destruct (d =? "")%string; [done|]. by destruct s as [i m st c [ri|] [] ra rid [ti|] [] ta mid tcs n u].
  - unfold then_do at 1. assert (rs_has_completed (then_do (close_reasoning s) close_text).2 = rs_has_completed s) as <-
      by (by destruct s as [i m st c [ri|] [] ra rid [ti|] [] ta mid tcs n u]).
    destruct (then_do (close_reasoning s) close_text) as [e1 s1]. specialize (Hl l s1). by destruct (do_all _ l s1).
  - by destruct s as [i m st c [ri|] [] ra rid [ti|] [] ta mid tcs n u].
Qed.

Definition end_phase (n : nat) (l : list Part) : nat := foldl (fun _ p => phase p) n l.

Lemma in_turn_app n l1 l2 : in_turn n (l1 ++ l2) = in_turn n l1 && in_turn (end_phase n l1) l2.
Proof. revert n. induction l1 as [|p l1 IH]; intros n; [done|]. cbn. by rewrite IH, andb_assoc. Qed.

(** The client follows, the items to come are open, and the state has what was heard. *)
Definition follows (n : nat) (h : Heard) (s : OpenAIToResponsesSseStream) (c : RClient) : Prop := tracks s c /\ open_to n s /\ heard s h.

Lemma parts_follow l n h s c : in_turn n l = true -> follows n h s c -> rs_has_started s = true ->
  let r := do_all do_part l s in
  exists c', foldl rclient_step (Some c) r.1 = Some c' /\ follows (end_phase n l) (foldl hear_part h l) r.2 c' /\ rs_has_started r.2 = true.
Proof.
  revert n h s c. induction l as [|p l IH]; intros n h s c Hin (T & O & H) St; [by exists c|].
  cbn [in_turn do_all end_phase foldl] in *. apply andb_true_iff in Hin as [Hn%Nat.leb_le Hin].
  destruct (part_good n p s c Hn O T St) as (c1 & E1 & T1 & S1).
  pose proof (part_opens n p s Hn O) as O1. pose proof (part_heard p s h H) as H1. unfold then_do.
  destruct (do_part p s) as [e1 s1]. cbn [fst snd] in *.
  destruct (IH (phase p) _ s1 c1 Hin (conj T1 (conj O1 H1)) S1) as (c2 & E2 & F2). unfold end_phase in F2.
  destruct (do_all do_part l s1) as [e2 s2]. exists c2. cbn [fst snd] in *. by rewrite foldl_app, E1.
Qed.

(** The id and the usage of a chunk touch no item. *)
Lemma tracks_same s s' c : tracks s c ->
  (forall o, owner_index s' o = owner_index s o /\ owner_item s' o = owner_item s o) -> rs_has_started s' = rs_has_started s ->
  rs_has_completed s' = rs_has_completed s -> rs_next_output_index s' = rs_next_output_index s -> tracks s' c.
Proof.
  intros [(os & -> & W) Hc] Ho Hst Hco Hn. split; [|by rewrite Hco]. exists os. rewrite Hst. split.
  - f_equal. apply list_fmap_ext. intros i o _. by rewrite (proj2 (Ho o)).
  - destruct W as [H1 H2 H3 H4]. constructor; [by rewrite Hn|intros o i; by rewrite (proj1 (Ho o))| |].
    + destruct (Ho OReason) as [E1 E2]. cbn in E1, E2. rewrite E1. injection E2 as _ -> ->. exact H3.
    + destruct (Ho OText) as [E1 E2]. cbn in E1, E2. rewrite E1. injection E2 as _ -> ->. exact H4.
Qed.

Lemma follows_same n h s s' c : follows n h s c ->
  s' = s \/ (exists v, s' = set_response_id v s) \/ (exists u, s' = set_usage_probe u s) -> follows n h s' c.
Proof.
  intros (T & O & H) E. split_and!.
  - apply (tracks_same s); [done|intros [| |k]|..]; destruct E as [->|[[v ->]|[u ->]]]; by destruct s.
  - destruct E as [->|[[v ->]|[u ->]]]; [done|by destruct s|by destruct s].
  - destruct H. destruct E as [->|[[v ->]|[u ->]]]; [by constructor|destruct s; by constructor|destruct s; by constructor].
Qed.

Lemma started_opens n s : open_to n s -> open_to n (ensure_started s).2.
Proof. unfold ensure_started. destruct (rs_has_started s); [done|]. by destruct s. Qed.

Lemma probe_follows v n h s c : in_turn n (probe_parts v) = true -> follows n h s c ->
  let r := process_probe v s in
  exists c', foldl rclient_step (Some c) r.1 = Some c' /\ follows (end_phase n (probe_parts v)) (foldl hear_part h (probe_parts v)) r.2 c'.
Proof.
  intros Hin F. unfold process_probe.
  set (s1 := match rsp_id v with Some id => _ | None => s end). set (s2 := match rsp_usage v with Some u => _ | None => s1 end).
  assert (follows n h s2 c) as (T & O & H).
  { apply (follows_same n h s1).
    - apply (follows_same n h s); [done|]. unfold s1. destruct (rsp_id v) as [id|]; [|by left]. destruct (starts_with _ _); eauto.
    - unfold s2. destruct (rsp_usage v); eauto. }
  clearbody s2. destruct (ensure_started_good s2 c T) as (c1 & E1 & T1 & S1).
  pose proof (started_opens n s2 O) as O1. pose proof (silent_started s2 h H) as H1. unfold then_do.
  destruct (ensure_started s2) as [e1 s3]. cbn [fst snd] in *.
  assert (do_option (do_all process_choice) (rsp_choices v) s3 = do_all do_part (probe_parts v) s3) as ->.
  { unfold probe_parts. destruct (rsp_choices v); cbn [do_option default]; [apply choices_parts|done]. }
  destruct (parts_follow (probe_parts v) n h s3 c1 Hin (conj T1 (conj O1 H1)) S1) as (c2 & E2 & F2 & _).
  destruct (do_all do_part (probe_parts v) s3) as [e2 s4]. exists c2. cbn [fst snd] in *. by rewrite foldl_app, E1.
Qed.

(** ** Lines *)

(** The payload of a data line. *)
Definition line_payload (line : str) : option str :=
  if negb (utf8_valid line) then None
  else match trim_bytes line with
       | [] => None
       | b :: rest => if (b =? 58) || bool_decide (bytes_of "event:" `prefix_of` b :: rest) then None else parse_sse_data_line (b :: rest)
       end.

Definition is_done (p : str) : bool := bool_decide (p = bytes_of "[DONE]").

Section run.
Variable error_probe : str -> option ErrorProbe.
Variable chunk_probe : str -> option ResponsesSseProbe.
Notation process_line := (process_line error_probe chunk_probe).

Definition fails (p : str) : bool := match error_probe p with Some e => is_failure e | None => false end.

(** The parts of a payload. *)
Definition payload_parts (p : str) : list Part := from_option probe_parts [] (chunk_probe p).

Lemma process_line_cases line s :
  process_line line s =
  match line_payload line with
  | Some p => if is_done p then responses_finish s else process_payload error_probe chunk_probe p s
  | None => (process_line line s)
  end /\
  (line_payload line = None -> exists es, process_line line s = (es, s) /\ forall c, foldl rclient_step (Some c) es = Some c).
Proof.
  unfold ResponsesBridge.process_line, line_payload, is_done. destruct (utf8_valid line); cbn [negb]; [|split; [done|intros _; by exists []]].
  destruct (trim_bytes line) as [|b rest]; [split; [done|intros _; by exists []]|]. destruct (b =? 58) eqn:Eb; cbn [orb].
  - split; [done|]. intros _. eexists. split; [done|]. intros c. cbn [foldl]. unfold rclient_step.
    rewrite bool_decide_eq_false_2; [by destruct (rc_ending c)|]. intros [k Hk]. apply Z.eqb_eq in Eb. subst b. vm_compute in Hk. done.
  - case_bool_decide as Hp; [split; [done|intros _; by exists []]|].
    destruct (parse_sse_data_line (b :: rest)) as [p|]; [done|]. split; [done|]. intros _. by exists [].
Qed.

Lemma failure_good p s c : tracks s c -> fails p = true ->
  exists c', foldl rclient_step (Some c) (process_payload error_probe chunk_probe p s).1 = Some c' /\ rc_ending c' = Some Failed /\
    rs_has_completed (process_payload error_probe chunk_probe p s).2 = true.
Proof.
  intros [(os & -> & W) Hc] H. unfold fails, process_payload in *. destruct (error_probe p) as [e|]; [|done]. rewrite H.
  destruct (bool_decide (erp_type e = Some "response.failed"%string)).
  - eexists. split; [|split; [|by destruct s]]; cbn [fst foldl]; unfold rclient_step; cbn [rc_ending].
    + rewrite bool_decide_eq_true_2 by (by apply prefix_app_r). done.
    + done.
  - destruct (error_parts e) as [code msg]. eexists. split; [|split; [|by destruct s]]; cbn [fst foldl]; unfold rclient_step, typed_event; cbn [rc_ending].
    + unfold rclient_event. rewrite bool_decide_eq_true_2 by done. cbn. done.
    + done.
Qed.

(** Lines of an answer that is not over. *)
Lemma lines_follow ls n h s c :
  let ps := omap line_payload ls in
  Forall (fun p => is_done p = false /\ fails p = false) ps -> in_turn n (ps ≫= payload_parts) = true -> follows n h s c ->
  exists c', foldl rclient_step (Some c) (do_all process_line ls s).1 = Some c' /\
    follows (end_phase n (ps ≫= payload_parts)) (foldl hear_part h (ps ≫= payload_parts)) (do_all process_line ls s).2 c'.
Proof.
  revert n h s c. induction ls as [|l ls IH]; intros n h s c ps Hps Hin F; [by exists c|]. unfold ps in *. clear ps.
  cbn [do_all]. unfold then_do. destruct (process_line_cases l s) as [Hs Hn]. cbn [omap list_omap] in *.
  destruct (line_payload l) as [p|].
  - apply Forall_cons in Hps as [[Hd Hf] Hps]. rewrite bind_cons in *. rewrite in_turn_app in Hin. apply andb_true_iff in Hin as [Hin1 Hin2].
    assert (process_line l s = do_option process_probe (chunk_probe p) s) as ->.
    { rewrite Hs, Hd. unfold process_payload, fails in *. destruct (error_probe p) as [e|]; [by rewrite Hf|done]. }
    assert (exists c1, foldl rclient_step (Some c) (do_option process_probe (chunk_probe p) s).1 = Some c1 /\
      follows (end_phase n (payload_parts p)) (foldl hear_part h (payload_parts p)) (do_option process_probe (chunk_probe p) s).2 c1) as (c1 & E1 & F1).
    { unfold payload_parts in *. destruct (chunk_probe p) as [v|]; cbn [do_option from_option] in *; [by apply probe_follows|by exists c]. }
    destruct (do_option process_probe (chunk_probe p) s) as [e1 s1]. cbn [fst snd] in *.
    destruct (IH _ _ s1 c1 Hps Hin2 F1) as (c2 & E2 & F2). destruct (do_all process_line ls s1) as [e2 s2]. exists c2. cbn [fst snd] in *.
    unfold end_phase in *. by rewrite !foldl_app, E1.
  - destruct Hn as (es & He & Hk); [done|]. rewrite He. destruct (IH n h s c Hps Hin F) as (c2 & E2 & F2).
    destruct (do_all process_line ls s) as [e2 s2]. exists c2. cbn [fst snd] in *. by rewrite foldl_app, Hk.
Qed.

(** Lines after the end. *)
Lemma lines_over ls s c : Forall (fun p => is_done p = true) (omap line_payload ls) -> rs_has_completed s = true ->
  foldl rclient_step (Some c) (do_all process_line ls s).1 = Some c /\ (do_all process_line ls s).2 = s.
Proof.
  intros Hd Hc. induction ls as [|l ls IH]; [done|]. cbn [do_all]. unfold then_do. destruct (process_line_cases l s) as [Hs Hn].
  cbn [omap list_omap] in *. destruct (line_payload l) as [p|].
  - apply Forall_cons in Hd as [Hd1 Hd]. rewrite Hs, Hd1. unfold responses_finish. rewrite Hc. cbn [app].
    destruct (IH Hd) as [I1 I2]. by destruct (do_all process_line ls s).
  - destruct Hn as (es & He & Hk); [done|]. rewrite He. destruct (IH Hd) as [I1 I2]. destruct (do_all process_line ls s) as [e2 s2].
    cbn [fst snd] in *. by rewrite foldl_app, Hk.
Qed.

(** The lines of a stream, chunk by chunk. *)
Fixpoint fed_lines (chunks : list str) (p : SseParser) : list str :=
  match chunks with
  | [] => []
  | c :: cs =>
      match push_bytes c p with
      | None => fed_lines cs p
      | Some p => let '(p, ls) := SseFraming.drain next_line (S (length (buffer p))) p in ls ++ fed_lines cs p
      end
  end.

Lemma loop_lines chunks p s : responses_loop error_probe chunk_probe chunks p s = do_all process_line (fed_lines chunks p) s.
Proof.
  revert p s. induction chunks as [|c cs IH]; intros p s; [done|]. cbn [responses_loop fed_lines]. unfold process_incoming_chunk.
  destruct (push_bytes c p) as [p1|]; [|rewrite IH; by destruct (do_all _ _ s)].
  destruct (SseFraming.drain next_line (S (length (buffer p1))) p1) as [p2 ls]. rewrite do_all_app. unfold then_do.
  destruct (do_all process_line ls s) as [e1 s1]. by rewrite IH.
Qed.

Lemma feed_fed chunks p p' ls : SseFraming.feed next_line chunks p = Some (p', ls) -> fed_lines chunks p = ls.
Proof.
  revert p ls. induction chunks as [|c cs IH]; intros p ls H; cbn [SseFraming.feed fed_lines] in *; [by simplify_eq|].
  destruct (push_bytes c p) as [p1|]; [|done]. destruct (SseFraming.drain next_line _ p1) as [p2 l1].
  destruct (SseFraming.feed next_line cs p2) as [[p3 l2]|] eqn:E; [|done]. simplify_eq. by rewrite (IH _ _ E).
Qed.

(** A stream whose lines and chunks fit the buffer together is read line by line. *)
Lemma fed_all chunks lines : split_lines (concat chunks) = (lines, []) ->
  Forall (fun l => Z.of_nat (length l) <= 2 ^ 21) lines -> Forall (fun c => Z.of_nat (length c) <= 2 ^ 21) chunks ->
  fed_lines chunks (parser_new MAX_SSE_LINE_BYTES) = lines.
Proof.
  intros Hs Hl Hc. destruct (feed_fits MAX_SSE_LINE_BYTES (2 ^ 21) chunks lines) as [p Hp]; [by split; vm_compute|done|done|done| |by apply (feed_fed _ _ p)].
  eapply Forall_impl; [exact Hc|]. cbn beta. intros c Hlen. unfold MAX_SSE_LINE_BYTES. lia.
Qed.

(** The end of the stream: with the sentinel or without. *)
Lemma answer_ends ls dls s c h : follows 0 h s c ->
  let ps := omap line_payload ls in
  Forall (fun p => is_done p = false /\ fails p = false) ps -> in_turn 0 (ps ≫= payload_parts) = true ->
  Forall (fun p => is_done p = true) (omap line_payload dls) ->
  ends_well (foldl hear_part h (ps ≫= payload_parts)) (then_do (do_all process_line (ls ++ dls) s) responses_finish) c.
Proof.
  intros F ps Hps Hin Hd. destruct (lines_follow ls 0 h s c Hps Hin F) as (c1 & E1 & T1 & O1 & H1). fold ps in H1.
  rewrite do_all_app. unfold then_do at 2. destruct (do_all process_line ls s) as [e1 s1]. cbn [fst snd] in *.
  assert (forall dls, Forall (fun p => is_done p = true) (omap line_payload dls) ->
    ends_well (foldl hear_part h (ps ≫= payload_parts)) (then_do (do_all process_line dls s1) responses_finish) c1) as Hend.
  { clear dls Hd. induction dls as [|l dls IH]; intros Hd.
    - destruct (finish_good s1 c1 _ T1 H1) as (c2 & out & E2 & R). exists c2, out. cbn [do_all then_do].
      by destruct (responses_finish s1).
    - cbn [do_all]. unfold then_do at 2. destruct (process_line_cases l s1) as [Hs Hn]. cbn [omap list_omap] in Hd.
      destruct (line_payload l) as [p|].
      + apply Forall_cons in Hd as [Hd1 Hd]. rewrite Hs, Hd1. destruct (finish_good s1 c1 _ T1 H1) as (c2 & out & E2 & Hc & Ho & Ha & Hco).
        destruct (responses_finish s1) as [e2 s2]. cbn [fst snd] in *. destruct (lines_over dls s2 c2 Hd Hco) as [E3 Es].
        destruct (do_all process_line dls s2) as [e3 s3]. cbn [fst snd] in *. subst s3. unfold then_do, responses_finish. rewrite Hco.
        exists c2, out. cbn [fst snd]. by rewrite app_nil_r, foldl_app, E2.
      + destruct Hn as (es & -> & Hk); [done|]. destruct (IH Hd) as (c2 & out & E2 & R). unfold then_do in *.
        destruct (do_all process_line dls s1) as [e2 s2]. destruct (responses_finish s2) as [e3 s3]. exists c2, out. cbn [fst snd] in *.
        by rewrite <- app_assoc, foldl_app, Hk. }
  destruct (Hend dls Hd) as (c2 & out & E2 & R). unfold then_do in *. destruct (do_all process_line dls s1) as [e2 s2].
  destruct (responses_finish s2) as [e3 s3]. exists c2, out. cbn [fst snd] in *. by rewrite <- app_assoc, foldl_app, E1.
Qed.

Lemma answer_fails ls l p dls s c h : follows 0 h s c ->
  let ps := omap line_payload ls in
  Forall (fun p => is_done p = false /\ fails p = false) ps -> in_turn 0 (ps ≫= payload_parts) = true ->
  line_payload l = Some p -> is_done p = false -> fails p = true -> Forall (fun p => is_done p = true) (omap line_payload dls) ->
  exists c', foldl rclient_step (Some c) (then_do (do_all process_line (ls ++ l :: dls) s) responses_finish).1 = Some c' /\
    rc_ending c' = Some Failed.
Proof.
  intros F ps Hps Hin Hl Hnd Hf Hd. destruct (lines_follow ls 0 h s c Hps Hin F) as (c1 & E1 & T1 & _ & _).
  rewrite do_all_app. cbn [do_all]. unfold then_do at 2. destruct (do_all process_line ls s) as [e1 s1]. cbn [fst snd] in *.
  destruct (process_line_cases l s1) as [Hs _]. rewrite Hl, Hnd in Hs. destruct (failure_good p s1 c1 T1 Hf) as (c2 & E2 & Hc & Hco).
  rewrite Hs. destruct (process_payload error_probe chunk_probe p s1) as [e2 s2]. cbn [fst snd] in *.
  destruct (lines_over dls s2 c2 Hd Hco) as [E3 Es]. unfold then_do. destruct (do_all process_line dls s2) as [e3 s3]. cbn [fst snd] in *. subst s3.
  unfold responses_finish. rewrite Hco. exists c2. cbn [fst]. by rewrite app_nil_r, !foldl_app, E1, E2.
Qed.
End run.

(** ** Theorem *)

Lemma new_follows id model : follows 0 (mkHeard "" "" []) (responses_new id model) rclient_new.
Proof.
  split_and!; [|repeat split; constructor|by constructor]. split; [|done]. exists []. split; [done|]. constructor; [done| |done|done].
  intros [| |k] i; cbn; [done|done|]. by rewrite !lookup_nil.
Qed.

(** The lines a list of payloads is split over. *)
Lemma omap_app_inv {A B} (f : A -> option B) l r1 r2 : omap f l = r1 ++ r2 -> exists l1 l2, l = l1 ++ l2 /\ omap f l1 = r1 /\ omap f l2 = r2.
Proof.
  destruct r2 as [|y r2]; [intros H; rewrite app_nil_r in H; exists l, []; by rewrite app_nil_r|].
  intros H. destruct (omap_split f l r1 y r2 H) as (l1 & x & l2 & -> & H1 & Hx & H2). exists l1, (x :: l2). split_and!; [done|done|].
  cbn. by rewrite Hx, H2.
Qed.

(** C30. A client of the Responses API can follow an answer whose parts come in
    turn.  Let the bytes of the stream end with a line end, with lines and
    chunks of up to 2 MiB; let its data lines be chunks without an error, perhaps
    one error, perhaps sentinels; and let the chunks bring the reasoning, then
    the text, then the calls (the fragments of several mixed at will), then the
    finish reason.  However the bytes are cut, a client that checks every event
    (the response is created once; items are numbered from 0 as they are added;
    a delta is for an item of its kind that is not done; an item is done once,
    with the text its deltas add up to; nothing follows the end) accepts them
    all.  After an error the response has failed, perhaps before it was created;
    else it is completed with every item done and listed in the output: the
    whole reasoning, the whole text and, by index, each call with the id (one is
    made up if there is none) and the name of its first fragment and with its
    own arguments. *)
Theorem responses_client_follows (error_probe : str -> option ErrorProbe) (chunk_probe : str -> option ResponsesSseProbe)
    id model chunks lines ps err dones :
  split_lines (concat chunks) = (lines, []) ->
  Forall (fun l => Z.of_nat (length l) <= 2 ^ 21) lines -> Forall (fun c => Z.of_nat (length c) <= 2 ^ 21) chunks ->
  omap line_payload lines = ps ++ option_list err ++ dones ->
  Forall (fun p => is_done p = false /\ fails error_probe p = false) ps ->
  Forall (fun p => is_done p = false /\ fails error_probe p = true) (option_list err) ->
  Forall (fun p => is_done p = true) dones ->
  let parts := ps ≫= payload_parts chunk_probe in
  in_turn 0 parts = true ->
  exists c, foldl rclient_step (Some rclient_new) (responses_run error_probe chunk_probe chunks (responses_new id model)).1 = Some c /\
    match err with
    | Some _ => rc_ending c = Some Failed
    | None => exists out, rc_ending c = Some (Completed out) /\ complete_output out c /\ answer (said parts) out
    end.
Proof.
  intros Hs Hl Hc Hp Hps He Hd parts Hin. unfold responses_run. rewrite loop_lines, (fed_all chunks lines) by done.
  apply omap_app_inv in Hp as (l1 & l2 & -> & <- & Hp2). pose proof (new_follows id model) as F. destruct err as [p|]; cbn [option_list app] in *.
  - destruct l2 as [|l l2]; [done|]. apply Forall_cons in He as [[He1 He2] _].
    destruct (omap_split line_payload (l :: l2) [] p dones Hp2) as (k1 & k & k2 & Hk & Hk1 & Hkp & Hk2). rewrite Hk, app_assoc.
    rewrite <- Hk2 in Hd. apply (answer_fails error_probe chunk_probe (l1 ++ k1) k p k2 _ _ (mkHeard "" "" [])); try done;
      rewrite omap_app, Hk1, app_nil_r; done.
  - change (omap line_payload l2 = dones) in Hp2. rewrite <- Hp2 in Hd. destruct (answer_ends error_probe chunk_probe l1 l2 _ _ _ F Hps Hin Hd) as (c & out & E & R & Ho & Ha & _).
    exists c. split; [done|]. by exists out.
Qed.

(** ** Behaviour at the edges *)

Definition no_error (_ : str) : option ErrorProbe := None.
Definition plain_answer_chunk (d : ResponsesDeltaProbe) (finish : option string) : ResponsesSseProbe := mkRProbe None (Some [mkRChoice (Some d) finish]) None.
Definition answer_frame (c : Z) : str := data_frame [123; c; 125].
Definition answer_probe (s : str) : option ResponsesSseProbe :=
  match s with
  | [123; 1; 125] => Some (plain_answer_chunk (mkRDelta None (Some "thinking"%string) None) None)
  | [123; 2; 125] => Some (plain_answer_chunk (mkRDelta (Some "answer"%string) None None) None)
  | [123; 3; 125] => Some (plain_answer_chunk (mkRDelta None None (Some [mkRToolCall (Some 0) (Some "a"%string) (Some (mkRFunction (Some "f"%string) (Some "{}"%string)))])) (Some "tool_calls"%string))
  | _ => None
  end.
Definition client_run (chunks : list str) : option RClient := foldl rclient_step (Some rclient_new) (responses_run no_error answer_probe chunks (responses_new "r" "m")).1.

(** Reasoning, text and a call, completed in this order. *)
Lemma whole_response :
  client_run [answer_frame 1; answer_frame 2; answer_frame 3; data_frame (bytes_of "[DONE]")] =
  Some (mkRClient true [mkOutItem (KReasoning "rs_r") "thinking" true; mkOutItem (KMessage "msg_r") "answer" true; mkOutItem (KCall "a" "f") "{}" true]
          (Some (Completed [(KReasoning "rs_r", "thinking"); (KMessage "msg_r", "answer"); (KCall "a" "f", "{}")]))).
Proof. vm_compute. done. Qed.

Lemma responses_client_follows_witness :
  exists c, client_run [answer_frame 1; answer_frame 2; answer_frame 3; data_frame (bytes_of "[DONE]")] = Some c /\
    exists out, rc_ending c = Some (Completed out) /\ complete_output out c /\
      answer (mkHeard "thinking" "answer" [(0, ("a", "f", "{}"))])%string out.
Proof.
  refine (responses_client_follows no_error answer_probe "r" "m" [answer_frame 1; answer_frame 2; answer_frame 3; data_frame (bytes_of "[DONE]")]
    (split_lines (concat [answer_frame 1; answer_frame 2; answer_frame 3; data_frame (bytes_of "[DONE]")])).1
    [[123; 1; 125]; [123; 2; 125]; [123; 3; 125]] None [bytes_of "[DONE]"] _ _ _ _ _ _ _ _).
  - vm_compute. done.
  - eapply bool_decide_unpack. vm_compute. exact I.
  - eapply bool_decide_unpack. vm_compute. exact I.
  - vm_compute. done.
  - repeat constructor.
  - constructor.
  - repeat constructor.
  - done.
Defined.

(** A stream that says nothing is an empty message; a last line without an end is not read. *)
Lemma unfinished_line_lost :
  client_run [bytes_of "data: " ++ [123; 2; 125]] = Some (mkRClient true [mkOutItem (KMessage "msg_r") "" true] (Some (Completed [(KMessage "msg_r", "")]))).
Proof. vm_compute. done. Qed.

Definition event_names (es : list ClientEvent) : list string := omap (fun e => match e with Event n _ => Some n | Literal _ => None end) es.

(** Reasoning that goes on after text has begun is sent for an item that was
    already done: the client rejects it. *)
Lemma late_reasoning_after_done :
  event_names (responses_run no_error answer_probe [answer_frame 1; answer_frame 2; answer_frame 1] (responses_new "r" "m")).1 =
  ["response.created"; "response.output_item.added"; "response.reasoning_text.delta"; "response.output_item.done";
   "response.output_item.added"; "response.output_text.delta"; "response.reasoning_text.delta";
   "response.output_item.done"; "response.completed"]%string.
Proof. vm_compute. done. Qed.

Lemma late_reasoning_rejected : client_run [answer_frame 1; answer_frame 2; answer_frame 1] = None.
Proof. vm_compute. done. Qed.


(** Chunks after the sentinel are still turned into events, after the response is completed. *)
Lemma events_after_completion :
  event_names (responses_run no_error answer_probe [data_frame (bytes_of "[DONE]"); answer_frame 1] (responses_new "r" "m")).1 =
  ["response.created"; "response.output_item.added"; "response.output_item.done"; "response.completed";
   "response.output_item.added"; "response.reasoning_text.delta"]%string.
Proof. vm_compute. done. Qed.
