(* ===== verification/AnthropicStream.v ===== *)
(** * An Anthropic stream as chunks

    [openproxy-pipeline/src/sse/anthropic]: the lines of an Anthropic stream
    ([parser.rs]), the bounded accumulator of a tool call ([accumulator.rs]), the
    translation of each event into a chunk ([payload.rs], [events.rs]), a whole
    message sent as one event, with the conversion of
    [translation/anthropic/response.rs] it uses, and the Anthropic branch of
    [parse_translated_sse_line] with the loop that reads a stream up to its
    last chunk.

    The JSON decoder and printer and the serde probes of an event are
    parameters. *)

From Stdlib Require Import String.
From S2P Require Import Prelude Text Bytes Framing ThinkResponse Accumulator StreamFold DevinWire DevinStream DevinAnswer EventStream KiroStream.

(** ** Lines *)

Definition MAX_SSE_EVENT_TYPE_BYTES : Z := 1024.

Definition trim_end_cr (s : str) : str :=
  reverse ((fix go s := match s with b :: s' => if b =? 13 then go s' else s | [] => [] end) (reverse s)).

Definition TAGS : list string :=
  ["message_start"; "message_delta"; "message_stop"; "content_block_start"; "content_block_delta"; "content_block_stop";
   "message"; "error"; "ping"]%string.

(** The event type of a payload without an [event:] line. *)
Definition infer_event_type (from_str : str -> option Json) (data : str) : str :=
  match from_str data with
  | None => bytes_of "unknown"
  | Some v =>
      let by_type := default ""%string (json_get "type" v ≫= as_str) in
      if bool_decide (by_type ∈ TAGS) then bytes_of by_type
      else match json_get "content" v with Some (JArr _) => bytes_of "message" | _ => bytes_of "unknown" end
  end.

(** The payload of a line, if it has one, and the current event afterwards. *)
Definition parse_anthropic_sse_stream_line (from_str : str -> option Json) (line : str) (current_event : option str)
    : option str * option str :=
  let line := trim_end_cr line in
  match line with
  | [] => (None, None)
  | _ =>
      match strip_prefix (bytes_of "event: ") line with
      | Some event_type =>
          let event_type := trim_bytes event_type in
          if MAX_SSE_EVENT_TYPE_BYTES <? Z.of_nat (length event_type) then (None, None) else (None, Some event_type)
      | None =>
          match strip_prefix (bytes_of "data: ") line with
          | Some data =>
              let event_type := match current_event with Some e => e | None => infer_event_type from_str data end in
              (Some (event_type ++ [10] ++ data), current_event)
          | None => (None, current_event)
          end
      end
  end.

(** ** Tool calls *)

Definition MAX_TOOL_ARGUMENTS_BYTES : Z := 1048576.
Definition MAX_TOOL_ID_BYTES : Z := 256.
Definition MAX_TOOL_NAME_BYTES : Z := 256.

Record AnthropicToolUseAccumulator := mkToolUse { tu_index : Z; tu_id : str; tu_name : str; tu_arguments : str }.

(** [None]: [CoreError::Parse]. *)
Definition new_with_bounds (index : Z) (id name : str) : option AnthropicToolUseAccumulator :=
  if MAX_TOOL_ID_BYTES <? Z.of_nat (length id) then None
  else if MAX_TOOL_NAME_BYTES <? Z.of_nat (length name) then None
  else Some (mkToolUse index id name []).

(** [push_arguments]; [None]: [CoreError::Parse]. *)
Definition acc_push_arguments (fragment : str) (acc : AnthropicToolUseAccumulator) : option AnthropicToolUseAccumulator :=
  if MAX_TOOL_ARGUMENTS_BYTES <? Z.of_nat (length (tu_arguments acc) + length fragment) then None
  else Some (mkToolUse (tu_index acc) (tu_id acc) (tu_name acc) (tu_arguments acc ++ fragment)).

(** ** Probes *)

Record AnthropicDeltaProbe := mkADelta {
  adp_delta_type : option str; adp_text : option str; adp_thinking : option str; adp_partial_json : option str;
  adp_estimated_tokens : option Z
}.
Definition delta_default : AnthropicDeltaProbe := mkADelta None None None None None.

Record AnthropicContentBlockProbe := mkABlock {
  abp_block_type : option str; abp_id : option str; abp_name : option str; abp_input : option Json
}.
Definition block_default : AnthropicContentBlockProbe := mkABlock None None None None.

Record AnthropicUsage := mkAUsage {
  au_input_tokens : Z; au_output_tokens : Z; au_cache_creation : option Z; au_cache_read : option Z
}.

Record AnthropicResponse := mkAResponse {
  ar_id : str; ar_content : list Json; ar_model : str; ar_stop_reason : option str; ar_usage : AnthropicUsage
}.

(** ** Chunks *)

Definition liveness : UpstreamSseChunk := mkSseChunk None JNull false None None None [] false.

Definition text_chunk (cid : str) (created : Z) (model text : str) : UpstreamSseChunk :=
  mkSseChunk None (devin_chunk_payload cid created model (JObj [("content", jstr text)]%string) JNull) false None None None [] true.

(** The fragment is taken only while the arguments stay within their bound. *)
Definition handle_anthropic_input_json_delta (cid : str) (created : Z) (model : str) (d : AnthropicDeltaProbe)
    (acc : AnthropicToolUseAccumulator) : UpstreamSseChunk * AnthropicToolUseAccumulator :=
  let new_fragment :=
    match adp_partial_json d with
    | Some partial => if Z.of_nat (length (tu_arguments acc) + length partial) <=? MAX_TOOL_ARGUMENTS_BYTES then partial else []
    | None => []
    end in
  let call := JObj [("index", JInt (tu_index acc)); ("function", JObj [("arguments", jstr new_fragment)])]%string in
  (mkSseChunk None (devin_chunk_payload cid created model (JObj [("tool_calls", JArr [call])]%string) JNull) false None None None [call] true,
   mkToolUse (tu_index acc) (tu_id acc) (tu_name acc) (tu_arguments acc ++ new_fragment)).

Definition handle_anthropic_thinking_delta (cid : str) (created : Z) (model : str) (d : AnthropicDeltaProbe) : option UpstreamSseChunk :=
  let thinking := default [] (adp_thinking d) in
  if is_empty_str thinking then
    match adp_estimated_tokens d with Some n => if 0 <? n then Some liveness else None | None => None end
  else Some (make_text_delta cid created model thinking true).

Definition handle_anthropic_text_delta (cid : str) (created : Z) (model : str) (d : AnthropicDeltaProbe) : option UpstreamSseChunk :=
  let text := default [] (adp_text d) in
  if is_empty_str text then None else Some (text_chunk cid created model text).

(** A [u32] from a [u64]. *)
Definition to_u32_opt (n : Z) : option Z := if n <=? u32_max then Some n else None.

Definition as_count (v : Json) : option Z :=
  match v with JInt n => if (0 <=? n) && (n <=? u64_max) then Some n else None | _ => None end.

Definition count_of (k : string) (u : Json) : Z := default 0 (json_get k u ≫= as_count).

Definition full_usage (u : Json) : OpenAIUsage :=
  let prompt_total := sat_add u64_max (sat_add u64_max (count_of "input_tokens" u) (count_of "cache_read_input_tokens" u))
                        (count_of "cache_creation_input_tokens" u) in
  let total := sat_add u64_max prompt_total (count_of "output_tokens" u) in
  mkUsage (to_u32 prompt_total) (to_u32 (count_of "output_tokens" u)) (to_u32 total)
    (Some (mkDetails (to_u32_opt (count_of "cache_read_input_tokens" u)))).

Definition build_anthropic_message_start_chunk (cid : str) (created : Z) (model : str) (data : Json) : UpstreamSseChunk :=
  mkSseChunk None
    (devin_chunk_payload cid created model (JObj [("role", JStr "assistant"); ("content", JStr "")]%string) JNull)
    false (full_usage <$> (json_get "message" data ≫= json_get "usage")) None None [] false.

Definition stop_to_finish (stop_reason : option string) : option string :=
  match stop_reason with
  | Some r =>
      if bool_decide (r ∈ ["end_turn"; "stop_sequence"]%string) then Some "stop"%string
      else if (r =? "max_tokens")%string then Some "length"%string
      else if bool_decide (r ∈ ["tool_use"; "tool_call"; "tool_calls"; "toolUse"; "toolCall"; "toolCalls"]%string) then Some "tool_calls"%string
      else None
  | None => None
  end.

Definition message_delta_usage (data : Json) : option OpenAIUsage :=
  let usage_block := json_get "usage" data in
  let output_tokens := default 0 ((usage_block ≫= json_get "output_tokens") ≫= as_count) in
  match usage_block ≫= json_get "input_tokens" with
  | Some _ => full_usage <$> usage_block
  | None => if 0 <? output_tokens then Some (mkUsage 0 (to_u32 output_tokens) 0 None) else None
  end.

Definition translate_anthropic_message_delta (cid : str) (created : Z) (model : str) (data : Json) : UpstreamSseChunk :=
  let reason := match json_get "delta" data ≫= json_get "stop_reason" with Some r => Some r | None => json_get "stop_reason" data end ≫= as_str in
  mkSseChunk None
    (devin_chunk_payload cid created model (JObj []) (match stop_to_finish reason with Some r => JStr r | None => JNull end))
    true (message_delta_usage data) (bytes_of <$> reason) None [] false.

(** ** A whole message *)

Definition map_finish_reason (reason : str) : string :=
  let r := of_bytes reason in
  if bool_decide (r ∈ ["end_turn"; "stop"; "stop_sequence"; "end"; "complete"]%string) then "stop"
  else if bool_decide (r ∈ ["max_tokens"; "length"]%string) then "length"
  else if bool_decide (r ∈ ["tool_use"; "tool_call"; "tool_calls"; "toolUse"; "toolCall"; "toolCalls"]%string) then "tool_calls"
  else if bool_decide (r ∈ ["content_filter"; "safety"]%string) then "content_filter"
  else "stop".

(** [b.get(k1).or_else(|| b.get(k2)).. .and_then(as_str)]. *)
Definition first_text (ks : list string) (b : Json) : str :=
  default [] (bytes_of <$> (head (omap (fun k => json_get k b) ks) ≫= as_str)).

Definition block_type (b : Json) : string := default ""%string (json_get "type" b ≫= as_str).

Definition block_text_of (b : Json) : str :=
  if (block_type b =? "text")%string then first_text ["text"; "content"]%string b else [].

Definition block_reasoning_of (b : Json) : str :=
  if bool_decide (block_type b ∈ ["thinking"; "thought"; "reasoning"]%string)
  then first_text ["thinking"; "thought"; "reasoning"; "text"]%string b else [].

Section translate.
(** [serde_json::to_string], [from_str] into a value and into the probes. *)
Variable to_string : Json -> option str.
Variable from_str : str -> option Json.
Variable delta_probe : str -> option (option AnthropicDeltaProbe).
Variable start_probe : str -> option (option AnthropicContentBlockProbe).
Variable response_probe : str -> option AnthropicResponse.
Variable error_probe : str -> option InlineErrorProbe.
Variables (cid : str) (created : Z) (model : str).

Definition block_call_of (b : Json) : option Json :=
  if (block_type b =? "tool_use")%string then
    match json_get "id" b ≫= as_str, json_get "name" b ≫= as_str, json_get "input" b with
    | Some id, Some name, Some input =>
        Some (JObj [("id", JStr id); ("type", JStr "function");
                    ("function", JObj [("name", JStr name); ("arguments", jstr (default (bytes_of "{}") (to_string input)))])]%string)
    | _, _, _ => None
    end
  else None.

(** The message, the finish reason and the usage of [anthropic_to_openai]. *)
Record OpenAIAnswer := mkAnswer {
  oa_content : option str; oa_reasoning : option str; oa_tool_calls : option (list Json);
  oa_finish_reason : option string; oa_usage : OpenAIUsage
}.

Definition anthropic_to_openai (resp : AnthropicResponse) : OpenAIAnswer :=
  let combined := ar_content resp ≫= block_text_of in
  let reasoning := ar_content resp ≫= block_reasoning_of in
  let tool_calls := omap block_call_of (ar_content resp) in
  let u := ar_usage resp in
  let prompt := sat_add u32_max (sat_add u32_max (au_input_tokens u) (default 0 (au_cache_read u))) (default 0 (au_cache_creation u)) in
  let has_tools := match tool_calls with [] => false | _ => true end in
  mkAnswer (if is_empty_str combined && has_tools then None else Some combined)
    (if is_empty_str reasoning then None else Some reasoning)
    (if has_tools then Some tool_calls else None)
    (if has_tools then Some "tool_calls"%string else map_finish_reason <$> ar_stop_reason resp)
    (mkUsage prompt (au_output_tokens u) (sat_add u32_max prompt (au_output_tokens u)) ((fun c => mkDetails (Some c)) <$> au_cache_read u)).

Definition nonempty (o : option str) : option str := match o with Some [] => None | _ => o end.

Definition insert_opt (k : string) (v : option Json) (m : list (string * Json)) : list (string * Json) :=
  match v with Some v => json_insert k v m | None => m end.

Definition translate_anthropic_full_message (resp : AnthropicResponse) : UpstreamSseChunk :=
  let openai := anthropic_to_openai resp in
  let content := nonempty (oa_content openai) in
  let delta := insert_opt "tool_calls" (JArr <$> oa_tool_calls openai)
    (insert_opt "reasoning_content" (jstr <$> oa_reasoning openai)
      (insert_opt "reasoning" (jstr <$> oa_reasoning openai)
        (insert_opt "content" (jstr <$> content) (json_insert "role" (JStr "assistant") [])))) in
  mkSseChunk None (devin_chunk_payload cid created model (JObj delta) (JStr (default "stop"%string (oa_finish_reason openai))))
    true (Some (oa_usage openai)) (ar_stop_reason resp) (oa_reasoning openai) []
    (match content, oa_reasoning openai, oa_tool_calls openai with None, None, None => false | _, _, _ => true end).

(** ** Events *)

Inductive TranslateError := ParseError | InlineError (message : str) | UpstreamInlineError (e : ParsedInlineError).

Record AnthropicState := mkAState { as_tool_use : option AnthropicToolUseAccumulator; as_tool_index : Z }.

Definition translate_anthropic_content_block_delta (data : str) (st : AnthropicState)
    : (TranslateError + option UpstreamSseChunk) * AnthropicState :=
  match delta_probe data with
  | None => (inl ParseError, st)
  | Some od =>
      let d := default delta_default od in
      let ty := default [] (adp_delta_type d) in
      if bool_decide (ty = bytes_of "input_json_delta") then
        match as_tool_use st with
        | Some acc =>
            let '(c, acc) := handle_anthropic_input_json_delta cid created model d acc in
            (inr (Some c), mkAState (Some acc) (as_tool_index st))
        | None => (inr None, st)
        end
      else if bool_decide (ty = bytes_of "thinking_delta") then (inr (handle_anthropic_thinking_delta cid created model d), st)
      else (inr (handle_anthropic_text_delta cid created model d), st)
  end.

Definition seed_arguments (input : option Json) : str :=
  match input ≫= to_string with
  | Some s => if is_empty_str s || bool_decide (s = bytes_of "{}") || (MAX_TOOL_ARGUMENTS_BYTES <? Z.of_nat (length s)) then [] else s
  | None => []
  end.

Definition translate_anthropic_content_block_start (data : str) (st : AnthropicState)
    : (TranslateError + option UpstreamSseChunk) * AnthropicState :=
  match start_probe data with
  | None => (inl ParseError, st)
  | Some ob =>
      let block := default block_default ob in
      if bool_decide (default [] (abp_block_type block) = bytes_of "tool_use") then
        let id := default [] (abp_id block) in
        let name := default [] (abp_name block) in
        let index := as_tool_index st in
        let next := wrap_add u32_max index 1 in
        match new_with_bounds index id name with
        | None => (inl ParseError, mkAState (as_tool_use st) next)
        | Some acc =>
            let acc := mkToolUse index id name (seed_arguments (abp_input block)) in
            let call := JObj [("index", JInt index); ("id", jstr id); ("type", JStr "function");
                              ("function", JObj [("name", jstr name); ("arguments", JStr "")])]%string in
            (inr (Some (mkSseChunk None (devin_chunk_payload cid created model (JObj [("tool_calls", JArr [call])]%string) JNull)
                          false None None None [call] false)), mkAState (Some acc) next)
        end
      else (inr None, st)
  end.

Definition translate_anthropic_inline_error (data : str) : TranslateError :=
  match from_str data with
  | None => ParseError
  | Some probe =>
      let field k d := default d ((json_get "error" probe ≫= json_get k) ≫= as_str) in
      InlineError (bytes_of (field "type" "error")%string ++ bytes_of ": " ++ bytes_of (field "message" "upstream error event")%string)
  end.

(** The delta of an event read as a value, without the accumulator. *)
Definition translate_anthropic_content_delta (data : Json) : option UpstreamSseChunk :=
  let delta := json_get "delta" data in
  let delta_type := default "text_delta"%string ((delta ≫= json_get "type") ≫= as_str) in
  if (delta_type =? "thinking_delta")%string then
    let thinking := default [] (bytes_of <$> ((delta ≫= json_get "thinking") ≫= as_str)) in
    if is_empty_str thinking then
      match (delta ≫= json_get "estimated_tokens") ≫= as_count with Some n => if 0 <? n then Some liveness else None | None => None end
    else Some (make_text_delta cid created model thinking true)
  else
    match bytes_of <$> ((delta ≫= json_get "text") ≫= as_str) with
    | Some text => if is_empty_str text then None else Some (text_chunk cid created model text)
    | None => None
    end.

Definition translate_anthropic_sse_payload (payload : str) : TranslateError + option UpstreamSseChunk :=
  match split_once 10 payload with
  | None => inr None
  | Some (event_type, data) =>
      if bool_decide (event_type = bytes_of "ping") || bool_decide (event_type = bytes_of "message_stop") then inr None
      else match from_str data with
           | None => inl ParseError
           | Some v =>
               if bool_decide (event_type = bytes_of "message_start") then inr (Some (build_anthropic_message_start_chunk cid created model v))
               else if bool_decide (event_type = bytes_of "content_block_delta") then inr (translate_anthropic_content_delta v)
               else if bool_decide (event_type = bytes_of "message_delta") then inr (Some (translate_anthropic_message_delta cid created model v))
               else inr None
           end
  end.

Definition translate_anthropic_sse_event (payload : str) (st : AnthropicState)
    : (TranslateError + option UpstreamSseChunk) * AnthropicState :=
  match split_once 10 payload with
  | None => (inr None, st)
  | Some (event_type, data) =>
      if bool_decide (event_type = bytes_of "ping") then (inr None, st)
      else if bool_decide (event_type = bytes_of "content_block_delta") then translate_anthropic_content_block_delta data st
      else if bool_decide (event_type = bytes_of "content_block_start") then translate_anthropic_content_block_start data st
      else if bool_decide (event_type = bytes_of "content_block_stop") then (inr None, mkAState None (as_tool_index st))
      else if bool_decide (event_type = bytes_of "message") then
        (match response_probe data with Some r => inr (Some (translate_anthropic_full_message r)) | None => inl ParseError end, st)
      else if bool_decide (event_type = bytes_of "error") then (inl (translate_anthropic_inline_error data), st)
      else (translate_anthropic_sse_payload (event_type ++ [10] ++ data), st)
  end.

(** ** Lines of a stream *)

Inductive DecodedLine := LineBlank | LineSkipped | LineText (line : str).

(** What is recorded of the line is left out. *)
Definition decode_and_record_line (line_bytes : str) : DecodedLine :=
  if utf8_valid line_bytes then
    match trim_end_crlf line_bytes with
    | [] => LineBlank
    | b :: l => if b =? 58 then LineSkipped else LineText (b :: l)
    end
  else LineSkipped.

Definition inline_payload (line : str) : str :=
  trim_bytes (match strip_prefix (bytes_of "data: ") line with
              | Some s => s
              | None => default line (strip_prefix (bytes_of "data:") line)
              end).

(** The loop over the lines, up to the last chunk or an error: [Some None] when
    the last chunk was reached. *)
Fixpoint anthropic_lines (lines : list str) (current_event : option str) (st : AnthropicState)
    : list UpstreamSseChunk * option (option TranslateError) :=
  match lines with
  | [] => ([], None)
  | line_bytes :: lines' =>
      match decode_and_record_line line_bytes with
      | LineBlank => anthropic_lines lines' None st
      | LineSkipped => anthropic_lines lines' current_event st
      | LineText line =>
          match parse_inline_sse_error error_probe (inline_payload line) with
          | Some e => ([], Some (Some (UpstreamInlineError e)))
          | None =>
              match parse_anthropic_sse_stream_line from_str line current_event with
              | (None, e) => anthropic_lines lines' e st
              | (Some payload, e) =>
                  match translate_anthropic_sse_event payload st with
                  | (inl err, _) => ([], Some (Some err))
                  | (inr None, st) => anthropic_lines lines' e st
                  | (inr (Some c), st) =>
                      if sse_done c then ([c], Some None)
                      else let '(cs, r) := anthropic_lines lines' e st in (c :: cs, r)
                  end
              end
          end
      end
  end.
End translate.

(** ** Specification: the events of a message *)

(** A block and the fragments it is sent in. *)
Inductive SentBlock := SText (fragments : list str) | SThinking (fragments : list str) | STool (id name : str) (fragments : list str).

Inductive Sent :=
  | SentStart (v : Json)
  | SentPing
  | SentBlockStart (b : AnthropicContentBlockProbe)
  | SentDelta (d : AnthropicDeltaProbe)
  | SentBlockStop
  | SentStop (v : Json).

Definition sent_name (e : Sent) : str :=
  bytes_of match e with
           | SentStart _ => "message_start" | SentPing => "ping" | SentBlockStart _ => "content_block_start"
           | SentDelta _ => "content_block_delta" | SentBlockStop => "content_block_stop" | SentStop _ => "message_delta"
           end%string.

Definition tagged (ty : string) : AnthropicContentBlockProbe := mkABlock (Some (bytes_of ty)) None None None.

Definition fragment_events (d : str -> AnthropicDeltaProbe) (fs : list str) : list Sent := (fun f => SentDelta (d f)) <$> fs.
Definition text_delta_of (f : str) : AnthropicDeltaProbe := mkADelta (Some (bytes_of "text_delta")) (Some f) None None None.
Definition thinking_delta_of (f : str) : AnthropicDeltaProbe := mkADelta (Some (bytes_of "thinking_delta")) None (Some f) None None.
Definition json_delta_of (f : str) : AnthropicDeltaProbe := mkADelta (Some (bytes_of "input_json_delta")) None None (Some f) None.

Definition block_sent (b : SentBlock) : list Sent :=
  match b with
  | SText fs => SentBlockStart (tagged "text")
      :: fragment_events text_delta_of fs ++ [SentBlockStop]
  | SThinking fs => SentBlockStart (tagged "thinking")
      :: fragment_events thinking_delta_of fs ++ [SentBlockStop]
  | STool id name fs => SentBlockStart (mkABlock (Some (bytes_of "tool_use")) (Some id) (Some name) (Some (JObj [])))
      :: fragment_events json_delta_of fs ++ [SentBlockStop]
  end.

(** Within the bounds of the accumulator, and text. *)
Definition block_ok (b : SentBlock) : Prop :=
  match b with
  | SText fs | SThinking fs => Forall byte_list fs
  | STool id name fs =>
      Forall byte_list (id :: name :: fs) /\ Z.of_nat (length id) <= MAX_TOOL_ID_BYTES /\ Z.of_nat (length name) <= MAX_TOOL_NAME_BYTES /\
      Z.of_nat (length (concat fs)) <= MAX_TOOL_ARGUMENTS_BYTES
  end.

Definition sent_text (b : SentBlock) : str := match b with SText fs => concat fs | _ => [] end.
Definition sent_thinking (b : SentBlock) : str := match b with SThinking fs => concat fs | _ => [] end.
Definition sent_call (b : SentBlock) : option (str * str * str) := match b with STool id name fs => Some (id, name, concat fs) | _ => None end.

Lemma trim_end_cr_id s : 13 ∉ s -> trim_end_cr s = s.
Proof.
  intros H. unfold trim_end_cr. destruct (reverse s) as [|b r] eqn:E.
  - by rewrite <- (reverse_involutive s), E.
  - destruct (Z.eqb_spec b 13) as [->|Hb]; [|by rewrite <- E, reverse_involutive].
    exfalso. apply H. apply elem_of_reverse. rewrite E. by left.
Qed.

Lemma trim_end_crlf_id s : 13 ∉ s -> 10 ∉ s -> trim_end_crlf s = s.
Proof.
  intros H13 H10. destruct (last s) as [b|] eqn:E; [|by apply last_None in E as ->].
  assert (b ∈ s) as Hb by (by apply last_Some_elem_of). apply (trim_end_id _ b E). unfold is_crlf.
  rewrite !(proj2 (Z.eqb_neq _ _)); [done|..]; by intros ->.
Qed.

Lemma data_prefix_plain : 13 ∉ bytes_of "data: " /\ 10 ∉ bytes_of "data: ".
Proof. vm_compute. set_solver. Qed.

Section exact.
Variable to_string : Json -> option str.
Variable from_str : str -> option Json.
Variable delta_probe : str -> option (option AnthropicDeltaProbe).
Variable start_probe : str -> option (option AnthropicContentBlockProbe).
Variable response_probe : str -> option AnthropicResponse.
Variable error_probe : str -> option InlineErrorProbe.
Variables (cid : str) (created : Z) (model : str).

(** The JSON text of each event, and that it is read as written. *)
Variable data : Sent -> str.
Variable prefix : option (Z * Z).

Definition event_reads (e : Sent) : Prop :=
  (13 ∉ data e /\ 10 ∉ data e /\ utf8_valid (data e) = true /\ parse_inline_sse_error error_probe (trim_bytes (data e)) = None) /\
  match e with
  | SentDelta d => delta_probe (data e) = Some (Some d)
  | SentBlockStart b => start_probe (data e) = Some (Some b)
  | SentStart v | SentStop v => from_str (data e) = Some v
  | SentPing | SentBlockStop => True
  end.

(** An event on the wire. *)
Definition event_lines (e : Sent) : list str := [bytes_of "event: " ++ sent_name e; bytes_of "data: " ++ data e; []].

Notation translate := (translate_anthropic_sse_event to_string from_str delta_probe start_probe response_probe cid created model).
Notation read_lines := (anthropic_lines to_string from_str delta_probe start_probe response_probe error_probe cid created model).

Lemma event_line e cur :
  decode_and_record_line (bytes_of "event: " ++ sent_name e) = LineText (bytes_of "event: " ++ sent_name e) /\
  parse_inline_sse_error error_probe (inline_payload (bytes_of "event: " ++ sent_name e)) = None /\
  parse_anthropic_sse_stream_line from_str (bytes_of "event: " ++ sent_name e) cur = (None, Some (sent_name e)).
Proof using Type. destruct e; split_and!; vm_compute; reflexivity. Qed.

Lemma data_line_reads s name : 13 ∉ s -> 10 ∉ s -> utf8_valid s = true ->
  decode_and_record_line (bytes_of "data: " ++ s) = LineText (bytes_of "data: " ++ s) /\
  inline_payload (bytes_of "data: " ++ s) = trim_bytes s /\
  parse_anthropic_sse_stream_line from_str (bytes_of "data: " ++ s) (Some name) = (Some (name ++ [10] ++ s), Some name).
Proof using Type.
  intros Hr Hn Hs. split; [|split].
  - unfold decode_and_record_line. rewrite utf8_valid_app, Hs by done. rewrite trim_end_crlf_id; [done|..];
      rewrite not_elem_of_app; split; (done || apply data_prefix_plain).
  - done.
  - unfold parse_anthropic_sse_stream_line.
    rewrite trim_end_cr_id by (rewrite not_elem_of_app; split; [apply data_prefix_plain|done]).
    assert (strip_prefix (bytes_of "event: ") (bytes_of "data: " ++ s) = None) as -> by done.
    rewrite (proj2 (strip_prefix_spec _ _ s)) by done. done.
Qed.

(** The client after some events, what is left to read, and where the stream
    ended; [o] is the usage of the stream so far. *)
Definition client_with (o : option OpenAIUsage) (ls : list str) (st : AnthropicState) (a : Assembled)
    : (option OpenAIUsage * Assembled) * option (option TranslateError) :=
  let '(cs, r) := read_lines ls None st in (foldl (deliver prefix) (o, a) cs, r).

Lemma client_reads e ls st o a oc st' :
  event_reads e -> translate (sent_name e ++ [10] ++ data e) st = (inr oc, st') ->
  client_with o (event_lines e ++ ls) st a =
  match oc with
  | Some c => let oa := deliver prefix (o, a) c in
              if sse_done c then (oa, Some None) else client_with (fst oa) ls st' (snd oa)
  | None => client_with o ls st' a
  end.
Proof using Type.
  intros [(H13 & H10 & Hu & Hi) _] Ht. destruct (event_line e None) as (E1 & E2 & E3).
  destruct (data_line_reads (data e) (sent_name e) H13 H10 Hu) as (D1 & D2 & D3).
  unfold client_with, event_lines. cbn [app anthropic_lines]. rewrite E1, E2, E3, D1, D2, Hi, D3, Ht.
  destruct oc as [c|]; [|done]. destruct (sse_done c); [done|]. cbn [anthropic_lines].
  change (decode_and_record_line []) with LineBlank. cbn beta iota zeta. rewrite <- surjective_pairing.
  by destruct (read_lines ls None st') as [cs r].
Qed.

Lemma sent_splits e : split_once 10 (sent_name e ++ [10] ++ data e) = Some (sent_name e, data e).
Proof using Type. by destruct e. Qed.

(** What each event is read as. *)
Definition sent_result (e : Sent) (st : AnthropicState) : (TranslateError + option UpstreamSseChunk) * AnthropicState :=
  match e with
  | SentStart v => (inr (Some (build_anthropic_message_start_chunk cid created model v)), st)
  | SentPing => (inr None, st)
  | SentBlockStart _ => translate_anthropic_content_block_start to_string start_probe cid created model (data e) st
  | SentDelta _ => translate_anthropic_content_block_delta delta_probe cid created model (data e) st
  | SentBlockStop => (inr None, mkAState None (as_tool_index st))
  | SentStop v => (inr (Some (translate_anthropic_message_delta cid created model v)), st)
  end.

Lemma translate_sent e st : event_reads e -> translate (sent_name e ++ [10] ++ data e) st = sent_result e st.
Proof using Type.
  intros [_ He]. unfold translate_anthropic_sse_event. rewrite sent_splits.
  destruct e as [v| | | | |v]; [|done|done|done|done|]; unfold translate_anthropic_sse_payload; cbn [sent_result].
  - rewrite (sent_splits (SentStart v)), He. done.
  - rewrite (sent_splits (SentStop v)), He. done.
Qed.

(** ** The client along a message *)

Definition with_text (t : str) (a : Assembled) : Assembled :=
  mkAssembled (as_text a ++ t) (as_thinking a) (as_calls a) (as_usage a) (as_finish a).
Definition with_thinking (t : str) (a : Assembled) : Assembled :=
  mkAssembled (as_text a) (as_thinking a ++ t) (as_calls a) (as_usage a) (as_finish a).

Section usage.
Variable o : option OpenAIUsage.
Notation client := (client_with o).

Lemma client_quiet e ls st a st' : event_reads e -> sent_result e st = (inr None, st') ->
  client (event_lines e ++ ls) st a = client ls st' a.
Proof using Type. intros He Hr. by rewrite (client_reads e ls st o a None st') by (done || by rewrite translate_sent). Qed.

(** A chunk that says nothing of the usage is sent as it is. *)
Definition plain_chunk (c : UpstreamSseChunk) : Prop :=
  sse_done c = false /\ is_liveness c = false /\ sse_usage c = None.

Lemma client_chunk e ls st a c st' : event_reads e -> sent_result e st = (inr (Some c), st') -> plain_chunk c ->
  client (event_lines e ++ ls) st a = client ls st' (assemble_chunk a c).
Proof using Type.
  intros He Hr (Hd & Hl & Hu). rewrite (client_reads e ls st o a (Some c) st') by (done || by rewrite translate_sent).
  unfold deliver, sent_chunk. cbn [fst snd]. by rewrite Hd, Hl, Hu.
Qed.


Definition wire (evs : list Sent) : list str := evs ≫= event_lines.

Section fragments.
Variable d : str -> AnthropicDeltaProbe.
Variable upd : str -> Assembled -> Assembled.
Hypothesis upd_nil : forall a, upd [] a = a.
Hypothesis upd_app : forall s t a, upd t (upd s a) = upd (s ++ t) a.
Hypothesis upd_step : forall f ls st a, byte_list f -> event_reads (SentDelta (d f)) ->
  client (event_lines (SentDelta (d f)) ++ ls) st a = client ls st (upd f a).

Lemma client_fragments fs ls st a : Forall byte_list fs -> Forall event_reads (fragment_events d fs) ->
  client (wire (fragment_events d fs) ++ ls) st a = client ls st (upd (concat fs) a).
Proof using upd_app upd_nil upd_step.
  revert a. induction fs as [|f fs IH]; intros a Hb He; [by rewrite upd_nil|].
  apply Forall_cons in Hb as [Hf Hb]. apply Forall_cons in He as [He1 He].
  unfold wire, fragment_events. rewrite fmap_cons, bind_cons, <- app_assoc, upd_step by done.
  fold (fragment_events d fs). fold (wire (fragment_events d fs)). by rewrite IH, upd_app by done.
Qed.
End fragments.


Ltac read_delta Hd := cbn [sent_result]; unfold translate_anthropic_content_block_delta; rewrite Hd; done.

Lemma client_text fs ls st a : Forall byte_list fs -> Forall event_reads (fragment_events text_delta_of fs) ->
  client (wire (fragment_events text_delta_of fs) ++ ls) st a = client ls st (with_text (concat fs) a).
Proof using Type.
  apply client_fragments.
  - intros []. unfold with_text. cbn. by rewrite app_nil_r.
  - intros s t []. unfold with_text. cbn. by rewrite app_assoc.
  - intros f l s b Hf He. pose proof He as [_ Hd]. destruct f as [|x f].
    + rewrite (client_quiet _ _ _ _ s); [|done|read_delta Hd]. unfold with_text. destruct b. cbn. by rewrite app_nil_r.
    + rewrite (client_chunk _ _ _ _ (text_chunk cid created model (x :: f)) s); [|done|read_delta Hd|done].
      f_equal. unfold with_text, assemble_chunk, text_chunk, jstr. cbn -[bytes_of of_bytes].
      rewrite bytes_of_of_bytes by done. by rewrite app_nil_r.
Qed.

Lemma client_thinking fs ls st a : Forall byte_list fs -> Forall event_reads (fragment_events thinking_delta_of fs) ->
  client (wire (fragment_events thinking_delta_of fs) ++ ls) st a = client ls st (with_thinking (concat fs) a).
Proof using Type.
  apply client_fragments.
  - intros []. unfold with_thinking. cbn. by rewrite app_nil_r.
  - intros s t []. unfold with_thinking. cbn. by rewrite app_assoc.
  - intros f l s b Hf He. pose proof He as [_ Hd]. destruct f as [|x f].
    + rewrite (client_quiet _ _ _ _ s); [|done|read_delta Hd]. unfold with_thinking. destruct b. cbn. by rewrite app_nil_r.
    + rewrite (client_chunk _ _ _ _ (make_text_delta cid created model (x :: f) true) s); [|done|read_delta Hd|done].
      f_equal. unfold with_thinking, assemble_chunk, make_text_delta, jstr. cbn -[bytes_of of_bytes].
      rewrite bytes_of_of_bytes by done. change (bytes_of "") with (@nil Z). by rewrite !app_nil_r.
Qed.

(** The fragments of a call extend its arguments. *)
Lemma client_arguments fs ls X id name args n a :
  Forall byte_list fs -> Forall event_reads (fragment_events json_delta_of fs) ->
  Z.of_nat (length (args ++ concat fs)) <= MAX_TOOL_ARGUMENTS_BYTES -> as_calls a = number 0 (X ++ [(id, name, args)]) ->
  exists args', client (wire (fragment_events json_delta_of fs) ++ ls)
    (mkAState (Some (mkToolUse (Z.of_nat (length X)) id name args)) n) a
  = client ls (mkAState (Some args') n) (with_calls (fun _ => number 0 (X ++ [(id, name, args ++ concat fs)])) a).
Proof using Type.
  revert a args. induction fs as [|f fs IH]; intros a args Hb He Hl Ha.
  { eexists. unfold with_calls. cbn. rewrite app_nil_r, <- Ha. by destruct a. }
  apply Forall_cons in Hb as [Hf Hb]. apply Forall_cons in He as [He1 He]. pose proof He1 as [_ Hd].
  unfold wire, fragment_events. rewrite fmap_cons, bind_cons, <- app_assoc.
  fold (fragment_events json_delta_of fs). fold (wire (fragment_events json_delta_of fs)).
  cbn [concat] in Hl |- *. rewrite (app_assoc args f) in Hl |- *.
  assert (Z.of_nat (length args + length f) <= MAX_TOOL_ARGUMENTS_BYTES) as Hl' by (rewrite !length_app in Hl; lia).
  set (c := (handle_anthropic_input_json_delta cid created model (json_delta_of f)
              (mkToolUse (Z.of_nat (length X)) id name args)).1).
  assert (assemble_chunk a c = with_calls (fun _ => number 0 (X ++ [(id, name, args ++ f)])) a) as Hc.
  { unfold c, handle_anthropic_input_json_delta. cbn [tu_arguments adp_partial_json json_delta_of].
    rewrite (proj2 (Z.leb_le _ _)) by done. unfold assemble_chunk, with_calls, jstr. cbn -[entry_update bytes_of of_bytes].
    rewrite bytes_of_of_bytes, !app_nil_r, Ha by done. f_equal.
    etransitivity; [apply (entry_update_number 0 _ (length X)); rewrite length_app; cbn; lia|].
    rewrite length_app, (proj2 (Nat.ltb_lt _ _)) by (cbn; lia). rewrite alter_app_r_alt, Nat.sub_diag by lia. done. }
  edestruct (IH (assemble_chunk a c) (args ++ f)) as [args' E]; [done|done|done|by rewrite Hc|].
  exists args'. rewrite (client_chunk (SentDelta (json_delta_of f)) _ _ _ c (mkAState (Some (mkToolUse (Z.of_nat (length X)) id name (args ++ f))) n)); [|done| |done].
  - rewrite E, Hc. done.
  - cbn [sent_result]. unfold translate_anthropic_content_block_delta. rewrite Hd. cbn -[handle_anthropic_input_json_delta].
    unfold c, handle_anthropic_input_json_delta. cbn [tu_arguments adp_partial_json json_delta_of tu_index tu_id tu_name].
    by rewrite (proj2 (Z.leb_le _ _)).
Qed.

(** A block: its text, its thinking or its call is added. *)
Definition with_block (X : list (str * str * str)) (b : SentBlock) (a : Assembled) : Assembled :=
  mkAssembled (as_text a ++ sent_text b) (as_thinking a ++ sent_thinking b) (number 0 (X ++ option_list (sent_call b))) (as_usage a) (as_finish a).

Lemma client_opening X id name ls a u :
  Z.of_nat (length X) < u32_max -> as_calls a = number 0 X -> block_ok (STool id name []) -> to_string (JObj []) = Some (bytes_of "{}") ->
  event_reads (SentBlockStart (mkABlock (Some (bytes_of "tool_use")) (Some id) (Some name) (Some (JObj [])))) ->
  client (event_lines (SentBlockStart (mkABlock (Some (bytes_of "tool_use")) (Some id) (Some name) (Some (JObj [])))) ++ ls)
    (mkAState u (Z.of_nat (length X))) a
  = client ls (mkAState (Some (mkToolUse (Z.of_nat (length X)) id name [])) (Z.of_nat (length X) + 1))
      (with_calls (fun _ => number 0 (X ++ [(id, name, [])])) a).
Proof using Type.
  intros HX Ha (Hb & Hi & Hn & _) Hs He. pose proof He as [_ Hp]. apply Forall_cons in Hb as [Bi Hb]. apply Forall_cons in Hb as [Bn _].
  assert (new_with_bounds (Z.of_nat (length X)) id name = Some (mkToolUse (Z.of_nat (length X)) id name [])) as Hnew.
  { unfold new_with_bounds. by rewrite !(proj2 (Z.ltb_ge _ _)). }
  assert (wrap_add u32_max (Z.of_nat (length X)) 1 = Z.of_nat (length X) + 1) as Hw
    by (unfold wrap_add, u32_max in *; rewrite Z.mod_small; lia).
  erewrite client_chunk; [|done| |].
  2: { cbn [sent_result]. unfold translate_anthropic_content_block_start. rewrite Hp. cbn [default abp_block_type].
       rewrite bool_decide_true by done. cbv zeta. cbn [as_tool_index].
       change (default [] (abp_id _)) with id. change (default [] (abp_name _)) with name. rewrite Hnew.
       unfold seed_arguments. change (abp_input _ ≫= to_string) with (to_string (JObj [])). rewrite Hs, Hw. reflexivity. }
  2: done.
  f_equal. unfold assemble_chunk, with_calls, jstr. cbn -[entry_update bytes_of of_bytes].
  rewrite !bytes_of_of_bytes, !app_nil_r, Ha by done. f_equal.
  etransitivity; [apply (entry_update_number 0 X (length X)); lia|]. rewrite (proj2 (Nat.ltb_ge _ _)) by lia. done.
Qed.

Lemma wire_app l k : wire (l ++ k) = wire l ++ wire k.
Proof using Type. apply bind_app. Qed.

Lemma client_block X b ls u a :
  block_ok b -> Forall event_reads (block_sent b) -> to_string (JObj []) = Some (bytes_of "{}") ->
  Z.of_nat (length X) < u32_max \/ sent_call b = None -> as_calls a = number 0 X ->
  client (wire (block_sent b) ++ ls) (mkAState u (Z.of_nat (length X))) a
  = client ls (mkAState None (Z.of_nat (length (X ++ option_list (sent_call b))))) (with_block X b a).
Proof using Type.
  intros Hok He Hs HX Ha.
  assert (event_reads SentBlockStop) as Hstop.
  { rewrite Forall_forall in He. apply He. destruct b; cbn; right; apply elem_of_app; right; by left. }
  assert (forall v n a', client (wire [SentBlockStop] ++ ls) (mkAState v n) a' = client ls (mkAState None n) a') as Hend.
  { intros v n a'. unfold wire. cbn [mbind list_bind]. rewrite app_nil_r. by apply client_quiet. }
  destruct b as [fs|fs|id name fs]; cbn [block_sent] in *; change (wire (?x :: ?l)) with (event_lines x ++ wire l);
    
    rewrite <- app_assoc, wire_app, <- app_assoc; apply Forall_cons in He as [He1 He]; pose proof He1 as [_ Hp];
    apply Forall_app in He as [He _].
  - rewrite (client_quiet _ _ _ _ (mkAState u (Z.of_nat (length X)))); [|done|].
    2: { cbn [sent_result]. unfold translate_anthropic_content_block_start. by rewrite Hp. }
    rewrite client_text, Hend by done. unfold with_text, with_block. cbn. by rewrite !app_nil_r, <- Ha.
  - rewrite (client_quiet _ _ _ _ (mkAState u (Z.of_nat (length X)))); [|done|].
    2: { cbn [sent_result]. unfold translate_anthropic_content_block_start. by rewrite Hp. }
    rewrite client_thinking, Hend by done. unfold with_thinking, with_block. cbn. by rewrite !app_nil_r, <- Ha.
  - destruct HX as [HX|HX]; [|done]. destruct Hok as (Hb & Hi & Hn & Hl). pose proof Hb as Hb'.
    apply Forall_cons in Hb' as [Bi Hb']. apply Forall_cons in Hb' as [Bn Bf].
    rewrite client_opening; [|done|done| |done|done].
    2: { split; [by repeat constructor|]. split; [done|]. split; [done|]. unfold MAX_TOOL_ARGUMENTS_BYTES. cbn. lia. }
    edestruct (client_arguments fs (wire [SentBlockStop] ++ ls) X id name []) as [args E]; [done|done|done| |].
    2: { rewrite E, Hend. unfold with_calls, with_block. cbn. rewrite !app_nil_r, length_app. cbn. f_equal. f_equal. lia. }
    done.
Qed.

Lemma client_blocks bs X ls u a :
  Forall block_ok bs -> Forall event_reads (bs ≫= block_sent) -> to_string (JObj []) = Some (bytes_of "{}") ->
  Z.of_nat (length (X ++ omap sent_call bs)) <= u32_max -> as_calls a = number 0 X ->
  exists st, client (wire (bs ≫= block_sent) ++ ls) (mkAState u (Z.of_nat (length X))) a
  = client ls st (mkAssembled (as_text a ++ (bs ≫= sent_text)) (as_thinking a ++ (bs ≫= sent_thinking))
                    (number 0 (X ++ omap sent_call bs)) (as_usage a) (as_finish a)).
Proof using Type.
  revert X u a. induction bs as [|b bs IH]; intros X u a Hok He Hs HX Ha.
  { eexists. cbn. rewrite !app_nil_r, <- Ha. by destruct a. }
  apply Forall_cons in Hok as [Hb Hok]. rewrite bind_cons in He |- *. apply Forall_app in He as [He1 He].
  assert (X ++ omap sent_call (b :: bs) = (X ++ option_list (sent_call b)) ++ omap sent_call bs) as Hc.
  { rewrite <- app_assoc. f_equal. cbn. by destruct (sent_call b). }
  rewrite Hc in HX |- *. rewrite wire_app, <- app_assoc, client_block; [|done|done|done| |done].
  2: { destruct (sent_call b); [left|by right]. rewrite !length_app in HX. cbn in HX. lia. }
  edestruct (IH (X ++ option_list (sent_call b)) None (with_block X b a)) as [st E]; [done|done|done|done|done|].
  exists st. rewrite E. cbn. by rewrite !app_assoc.
Qed.

End usage.

Definition is_ping (e : Sent) : bool := match e with SentPing => true | _ => false end.

(** Pings change nothing, wherever they come. *)
Lemma client_pings o evs ls st a : Forall event_reads evs ->
  client_with o (wire evs ++ ls) st a = client_with o (wire (filter (fun e => is_ping e = false) evs) ++ ls) st a.
Proof using Type.
  intros He. revert o st a. induction evs as [|e evs IH]; intros o st a; [done|]. apply Forall_cons in He as [He1 He].
  change (wire (e :: evs)) with (event_lines e ++ wire evs). rewrite <- app_assoc.
  destruct (is_ping e) eqn:Hp.
  - rewrite filter_cons_False by (by rewrite Hp). destruct e; try discriminate Hp. rewrite (client_quiet _ _ _ _ _ st) by done. by apply IH.
  - rewrite filter_cons_True by done. change (wire (e :: ?l)) with (event_lines e ++ wire l). rewrite <- app_assoc.
    specialize (IH He). pose proof (translate_sent e st He1) as Ht.
    destruct (sent_result e st) as [[err|oc] st'] eqn:E.
    + destruct He1 as [(H13 & H10 & Hu & Hi) _]. destruct (event_line e None) as (E1 & E2 & E3).
      destruct (data_line_reads (data e) (sent_name e) H13 H10 Hu) as (D1 & D2 & D3).
      unfold client_with, event_lines. cbn [app anthropic_lines]. by rewrite E1, E2, E3, D1, D2, Hi, D3, Ht.
    + rewrite !(client_reads e _ st o a oc st') by done. destruct oc as [c|]; [cbn zeta; destruct (sse_done c); [done|]|]; apply IH.
Qed.

Definition stop_reason_of (v : Json) : option string :=
  match json_get "delta" v ≫= json_get "stop_reason" with Some r => Some r | None => json_get "stop_reason" v end ≫= as_str.

Definition message_usage (v : Json) : option OpenAIUsage := full_usage <$> (json_get "message" v ≫= json_get "usage").

Lemma client_message bs v0 v1 ls u :
  Forall block_ok bs -> Forall event_reads (SentStart v0 :: (bs ≫= block_sent) ++ [SentStop v1]) ->
  to_string (JObj []) = Some (bytes_of "{}") -> Z.of_nat (length (omap sent_call bs)) <= u32_max ->
  let used := merged_usage prefix None (option_list (message_usage v0) ++ option_list (message_delta_usage v1)) in
  client_with None (wire (SentStart v0 :: (bs ≫= block_sent) ++ [SentStop v1]) ++ ls) (mkAState u 0) assembled_start
  = ((used, mkAssembled (bs ≫= sent_text) (bs ≫= sent_thinking) (number 0 (omap sent_call bs))
       (usage_value <$> used) (stop_to_finish (stop_reason_of v1))), Some None).
Proof using Type.
  intros Hok He Hs HX used. apply Forall_cons in He as [He0 He]. apply Forall_app in He as [He He1]. apply Forall_inv in He1.
  change (wire (SentStart v0 :: ?l)) with (event_lines (SentStart v0) ++ wire l). rewrite <- app_assoc, wire_app, <- app_assoc.
  rewrite (client_reads (SentStart v0) _ _ _ _ (Some (build_anthropic_message_start_chunk cid created model v0)) (mkAState u 0))
    by (done || by rewrite translate_sent).
  set (a0 := assemble_chunk assembled_start (build_anthropic_message_start_chunk cid created model v0)).
  change (deliver prefix (None, assembled_start) (build_anthropic_message_start_chunk cid created model v0))
    with (sync_usage prefix (message_usage v0) None, a0).
  cbn zeta. cbn [sse_done build_anthropic_message_start_chunk fst snd].
  edestruct (client_blocks (sync_usage prefix (message_usage v0) None) bs [] (wire [SentStop v1] ++ ls) u a0)
    as [st E]; [done|done|done|done|done|].
  change (Z.of_nat (length [])) with 0 in E. rewrite E. unfold wire. cbn [mbind list_bind]. rewrite app_nil_r.
  erewrite client_reads; [|done|by rewrite translate_sent]. cbn zeta. cbn [sse_done translate_anthropic_message_delta].
  unfold deliver, sent_chunk. cbn [sse_done translate_anthropic_message_delta sse_usage sse_payload fst snd].
  assert (sync_usage prefix (message_delta_usage v1) (sync_usage prefix (message_usage v0) None) = used) as ->.
  { unfold used, merged_usage. by destruct (message_usage v0), (message_delta_usage v1). }
  unfold a0, stop_reason_of.
  destruct used as [x|]; [rewrite attach_usage_payload|cbn [attach_usage]]; cbn -[bytes_of stop_to_finish number usage_value];
    change (bytes_of "") with (@nil Z); rewrite !app_nil_r; cbn [app]; by destruct (stop_to_finish _).
Qed.
End exact.

(** C27. An Anthropic stream reaches the client whole.  Take a message of blocks
    of text, thinking and tool calls, each in any number of fragments, the
    arguments of a call all in its fragments and within 1 MiB, its id and name
    within 256 bytes, with pings anywhere.  The payloads its events become, as
    sent before the normalizer, give the client exactly those blocks: the text
    and the thinking joined in order, every call numbered in the order it was
    opened with its id, its name and its whole arguments, the finish reason of
    the stop event, and in the last payload the usage of the start and the stop
    event merged. The stream is over there, without an error, and nothing after
    it is read. (Arguments in the opening event are not sent:
    [inline_input_not_sent].) *)
Theorem anthropic_stream_exact (to_string : Json -> option str) (from_str : str -> option Json)
    (delta_probe : str -> option (option AnthropicDeltaProbe)) (start_probe : str -> option (option AnthropicContentBlockProbe))
    (response_probe : str -> option AnthropicResponse) (error_probe : str -> option InlineErrorProbe) (cid : str) (created : Z) (model : str) (data : Sent -> str)
    (prefix : option (Z * Z)) (bs : list SentBlock) (v0 v1 : Json) (evs : list Sent) (rest : list str) :
  Forall (event_reads from_str delta_probe start_probe error_probe data) evs -> to_string (JObj []) = Some (bytes_of "{}") ->
  Forall block_ok bs -> Z.of_nat (length (omap sent_call bs)) <= u32_max ->
  filter (fun e => is_ping e = false) evs = SentStart v0 :: (bs ≫= block_sent) ++ [SentStop v1] ->
  let '(chunks, ended) := anthropic_lines to_string from_str delta_probe start_probe response_probe error_probe cid created model
                            ((evs ≫= event_lines data) ++ rest) None (mkAState None 0) in
  ended = Some None /\
  foldl assemble_payload assembled_start (sent_payloads prefix None chunks) =
  mkAssembled (bs ≫= sent_text) (bs ≫= sent_thinking) (number 0 (omap sent_call bs))
    (usage_value <$> merged_usage prefix None (option_list (message_usage v0) ++ option_list (message_delta_usage v1)))
    (stop_to_finish (stop_reason_of v1)).
Proof.
  intros He Hs Hok HX Hf.
  pose proof (client_message to_string from_str delta_probe start_probe response_probe error_probe cid created model data prefix bs v0 v1 rest None Hok) as H.
  pose proof (client_pings to_string from_str delta_probe start_probe response_probe error_probe cid created model data prefix None evs rest (mkAState None 0) assembled_start He) as P.
  rewrite Hf in P. cbn zeta in H. rewrite H in P; [| |done|done].
  - unfold client_with, wire in P. destruct (anthropic_lines _ _ _ _ _ _ _ _ _ _ _) as [cs r].
    injection P as P ->. split; [done|]. by rewrite sent_delivered, P.
  - rewrite <- Hf. apply Forall_forall. intros e [_ Hin]%list_elem_of_filter. rewrite Forall_forall in He. by apply He.
Qed.

(** A message with a text and a call, its pieces named by letters. *)
Definition example_blocks : list SentBlock := [SText [bytes_of "Hi"; bytes_of "!"]; STool (bytes_of "t1") (bytes_of "f") [bytes_of "{"; bytes_of "}"]].
Definition example_stop : Json := JObj [("delta", JObj [("stop_reason", JStr "tool_use")]); ("usage", JObj [("output_tokens", JInt 7)])]%string.

Definition example_data (e : Sent) : str :=
  bytes_of match e with
           | SentStart _ => "s" | SentPing => "p" | SentBlockStop => "e" | SentStop _ => "m"
           | SentBlockStart b => match abp_id b with Some _ => "C" | None => "T" end
           | SentDelta d => match adp_text d, adp_partial_json d with
                            | Some [33], _ => "b" | Some _, _ => "a" | None, Some [123] => "c" | _, _ => "d"
                            end
           end%string.

Definition example_value (s : str) : option Json :=
  if bool_decide (s = bytes_of "s") then Some (JObj []) else if bool_decide (s = bytes_of "m") then Some example_stop else None.

Definition example_delta (s : str) : option (option AnthropicDeltaProbe) :=
  Some (Some (if bool_decide (s = bytes_of "a") then text_delta_of (bytes_of "Hi")
              else if bool_decide (s = bytes_of "b") then text_delta_of (bytes_of "!")
              else if bool_decide (s = bytes_of "c") then json_delta_of (bytes_of "{") else json_delta_of (bytes_of "}"))).

Definition example_start (s : str) : option (option AnthropicContentBlockProbe) :=
  Some (Some (if bool_decide (s = bytes_of "T") then tagged "text"
              else mkABlock (Some (bytes_of "tool_use")) (Some (bytes_of "t1")) (Some (bytes_of "f")) (Some (JObj [])))).

Definition example_events : list Sent := SentStart (JObj []) :: SentPing :: (example_blocks ≫= block_sent) ++ [SentStop example_stop].

Lemma anthropic_stream_exact_witness :
  let '(chunks, ended) := anthropic_lines (fun _ => Some (bytes_of "{}")) example_value example_delta example_start (fun _ => None) (fun _ => None)
                            (bytes_of "c") 0 (bytes_of "m") ((example_events ≫= event_lines example_data) ++ []) None (mkAState None 0) in
  ended = Some None /\
  foldl assemble_payload assembled_start (sent_payloads None None chunks) =
  mkAssembled (example_blocks ≫= sent_text) (example_blocks ≫= sent_thinking) (number 0 (omap sent_call example_blocks))
    (usage_value <$> merged_usage None None (option_list (message_usage (JObj [])) ++ option_list (message_delta_usage example_stop)))
    (stop_to_finish (stop_reason_of example_stop)).
Proof.
  apply (anthropic_stream_exact (fun _ => Some (bytes_of "{}")) example_value example_delta example_start (fun _ => None) (fun _ => None)
           (bytes_of "c") 0 (bytes_of "m") example_data None example_blocks (JObj []) example_stop example_events []).
  - unfold example_events. cbn [example_blocks mbind list_bind block_sent fragment_events fmap list_fmap app].
    repeat (apply Forall_cons; split; [split; [split_and!; [apply (bool_decide_unpack _); vm_compute; exact I|apply (bool_decide_unpack _); vm_compute; exact I|
      reflexivity|reflexivity]|reflexivity || exact I]|]).
    apply Forall_nil_2.
  - reflexivity.
  - apply Forall_cons_2; [|apply Forall_cons_2; [|apply Forall_nil_2]].
    + apply Forall_cons_2; [apply bytes_of_ok|apply Forall_cons_2; [apply bytes_of_ok|apply Forall_nil_2]].
    + split; [|vm_compute; repeat split; discriminate].
      do 4 (apply Forall_cons_2; [apply bytes_of_ok|]). apply Forall_nil_2.
  - vm_compute. discriminate.
  - reflexivity.
Defined.

(** ** Divergences *)

Definition without_input (b : AnthropicContentBlockProbe) : AnthropicContentBlockProbe :=
  mkABlock (abp_block_type b) (abp_id b) (abp_name b) None.

(** The arguments a block opens with are kept in the accumulator, and sent to
    no one: the chunk is the one of a block without them. *)
Lemma inline_input_not_sent to_string start_probe cid created model data st :
  fst (translate_anthropic_content_block_start to_string start_probe cid created model data st) =
  fst (translate_anthropic_content_block_start to_string (fun s => option_map (option_map without_input) (start_probe s)) cid created model data st).
Proof.
  unfold translate_anthropic_content_block_start. destruct (start_probe data) as [[b|]|]; cbn -[new_with_bounds bool_decide]; [|done..].
  destruct (bool_decide _); [|done]. by destruct (new_with_bounds _ _ _).
Qed.

(** A stop reason the table does not know has a finish reason when the answer
    is whole, and none when it is streamed. *)
Lemma unknown_stop_reason : stop_to_finish (Some "refusal"%string) = None /\ map_finish_reason (bytes_of "refusal") = "stop"%string.
Proof. by vm_compute. Qed.

(** The calls of a whole message carry no index. *)
Lemma whole_message_calls_unnumbered to_string b call : block_call_of to_string b = Some call -> json_get "index" call = None.
Proof.
  unfold block_call_of. destruct (_ =? _)%string; [|done]. destruct (json_get "id" b ≫= as_str), (json_get "name" b ≫= as_str), (json_get "input" b);
    intros H; by simplify_eq.
Qed.
