(* ===== verification/InlineTools.v ===== *)
(** * Tool calls written into the text of a stream

    [openproxy-pipeline/src/inline_tools/stream.rs]: models that write their
    tool calls as tags into the text.  The extractor watches the deltas of a
    stream, holds back what may be the beginning of a tag or lies within one,
    and turns each block its parsers understand into structured calls.

    The two parsers are instances of the trait [InlineToolParser]; what is shown
    here holds for any.  Each attempt to parse is numbered, since the ids of the
    calls are drawn afresh.  The JSON decoder and printer are parameters. *)

From Stdlib Require Import String.
From S2P Require Import Prelude Text Bytes ThinkResponse DeltaScan ModelIds StreamFold DevinWire DevinStream EventStream KiroStream DevinRequest.

(** ** Parsers *)

Record ParsedToolCall := mkParsed { ptc_id : str; ptc_name : str; ptc_arguments : str }.

(** The trait, with its promise: [Some] comes with at least one call. *)
Class InlineToolParser := {
  parse_block : nat -> str -> option (list ParsedToolCall);
  parse_block_some : forall n s calls, parse_block n s = Some calls -> calls <> []
}.

(** ** Tags *)

(** The bar of the DeepSeek tags, U+FF5C. *)
Definition BAR : str := [239; 189; 156].
Definition DSML2 : str := BAR ++ BAR ++ bytes_of "DSML" ++ BAR ++ BAR.
Definition DSML1 : str := BAR ++ bytes_of "DSML" ++ BAR.
Definition opening (tag : str) : str := [60] ++ tag.
Definition closing_tag (tag : str) : str := bytes_of "</" ++ tag ++ [62].
Definition tag_pair (tag : str) : str * str := (opening tag, closing_tag tag).

Definition TOOL_TAG_CANDIDATES : list (str * str) :=
  (tag_pair <$> (bytes_of <$> ["tool_call"; "tool_calls"; "function_calls"; "tools"; "tool"]%string))
  ++ [(opening (DSML2 ++ bytes_of " calls>"), closing_tag (DSML2 ++ bytes_of " calls")); tag_pair (DSML2 ++ bytes_of " calls");
      (opening (DSML1 ++ bytes_of " calls>"), closing_tag (DSML1 ++ bytes_of " calls")); tag_pair (DSML1 ++ bytes_of " calls");
      tag_pair (DSML2 ++ bytes_of " invoke"); tag_pair (DSML1 ++ bytes_of " invoke")]
  ++ (tag_pair <$> (bytes_of <$> ["invoke"; "function_call"; "function"; "call"; "action"]%string)).

Definition MAX_TOOL_BUFFER_BYTES : Z := 262144.
Definition TOOL_CALLS_MARKER : str := bytes_of "[TOOL_CALLS]".

Definition find_ignore_case (haystack needle : str) : option nat :=
  match needle with [] => Some 0%nat | _ => needle_position needle haystack end.

Fixpoint byte_position (b : Z) (s : str) : option nat :=
  match s with [] => None | x :: s' => if x =? b then Some 0%nat else S <$> byte_position b s' end.

Fixpoint byte_rposition (b : Z) (s : str) : option nat :=
  match s with
  | [] => None
  | x :: s' => match byte_rposition b s' with Some k => Some (S k) | None => if x =? b then Some 0%nat else None end
  end.

Definition is_boundary (next : option Z) : bool :=
  match next with Some b => is_ascii_whitespace b || (b =? 62) || (b =? 47) || (b =? 61) | None => true end.

(** The first occurrence of a tag that ends at a boundary. *)
Fixpoint find_open (fuel : nat) (input open : str) (cursor : nat) : option nat :=
  match fuel with
  | O => None
  | S fuel =>
      match find_ignore_case (drop cursor input) open with
      | None => None
      | Some pos =>
          let abs_pos := (cursor + pos)%nat in
          if is_boundary (input !! (abs_pos + length open)%nat) then Some abs_pos else find_open fuel input open (S abs_pos)
      end
  end.

Definition earlier (input : str) (earliest : option (nat * nat * str)) (tag : str * str) : option (nat * nat * str) :=
  match find_open (S (length input)) input tag.1 0 with
  | None => earliest
  | Some abs_pos =>
      match byte_position 62 (drop abs_pos input) with
      | None => earliest
      | Some tag_end =>
          if match earliest with Some (p, _, _) => (abs_pos <? p)%nat | None => true end
          then Some (abs_pos, S (abs_pos + tag_end), tag.2) else earliest
      end
  end.

Definition find_earliest_tool_tag (input : str) : option (nat * nat * str) :=
  let earliest := (fun pos => (pos, (pos + length TOOL_CALLS_MARKER)%nat, [93])) <$> find_ignore_case input TOOL_CALLS_MARKER in
  foldl (earlier input) earliest TOOL_TAG_CANDIDATES.

(** The end of the first of some closing tags. *)
Fixpoint find_first_end (buffer : str) (tags : list str) : option nat :=
  match tags with
  | [] => None
  | t :: tags' => match find_ignore_case buffer t with Some pos => Some (pos + length t)%nat | None => find_first_end buffer tags' end
  end.

Definition alternatives (expected_close : str) (what : string) : list str :=
  if contains_bytes (bytes_of what ++ [62]) expected_close
  then [closing_tag (DSML2 ++ [32] ++ bytes_of what); closing_tag (DSML1 ++ [32] ++ bytes_of what); closing_tag (bytes_of what)]
  else [].

Definition find_close_tag_in_buffer (buffer expected_close : str) : option nat :=
  if bool_decide (expected_close = [93]) then
    match byte_rposition 93 buffer with
    | Some pos => Some (S pos)
    | None => S <$> byte_rposition 125 buffer
    end
  else find_first_end buffer (expected_close :: alternatives expected_close "calls" ++ alternatives expected_close "invoke").

Definition partial_boundary (next : option Z) : bool :=
  match next with Some b => is_ascii_whitespace b || (b =? 47) || (b =? 62) | None => true end.

Definition may_become (suffix : str) : bool :=
  let suffix_lower := lower <$> suffix in
  existsb (fun tag =>
    let open_lower := lower <$> tag.1 in
    if has_prefix suffix_lower open_lower then true
    else has_prefix open_lower suffix_lower && partial_boundary (suffix !! length tag.1)) TOOL_TAG_CANDIDATES
  || (let marker := bytes_of "[tool_calls]" in has_prefix suffix_lower marker || has_prefix marker suffix_lower).

Definition extract_trailing_partial_tag_prefix (s : str) : str * str :=
  let candidate_start :=
    match byte_rposition 60 s, byte_rposition 91 s with
    | Some a, Some b => Some (a `max` b)%nat
    | Some a, None => Some a
    | None, o => o
    end in
  match candidate_start with
  | Some start =>
      let suffix := drop start s in
      if negb (bool_decide (62 ∈ suffix)) && negb (bool_decide (93 ∈ suffix)) && (Z.of_nat (length suffix) <=? 1024) && may_become suffix
      then (take start s, suffix) else (s, [])
  | None => (s, [])
  end.

Definition ends_with_whitespace (s : str) : bool := (0 <? ws_len_rev (reverse s))%nat.
Definition starts_with_whitespace (s : str) : bool := (0 <? ws_len s)%nat.

Definition append_clean_text (clean part : str) : str :=
  if ends_with_whitespace clean && starts_with_whitespace part then clean ++ trim_start part else clean ++ part.

Definition trim_end (s : str) : str := reverse (trim_by ws_len_rev (length s) (reverse s)).

Definition is_self_closing (open_tag : str) : bool := bool_decide (last (trim_end (take (length open_tag - 1) open_tag)) = Some 47).

(** ** Blocks *)

Fixpoint strip_open (tags : list (str * str)) (trimmed : str) : str :=
  match tags with
  | [] => trimmed
  | (open, _) :: tags' =>
      match find_ignore_case trimmed open, byte_position 62 trimmed with
      | Some 0%nat, Some gt_pos => trim_bytes (drop (S gt_pos) trimmed)
      | _, _ => strip_open tags' trimmed
      end
  end.

Fixpoint strip_close (tags : list (str * str)) (trimmed : str) : str :=
  match tags with
  | [] => trimmed
  | (_, close) :: tags' =>
      match find_ignore_case trimmed close with
      | Some pos => trim_bytes (take pos trimmed)
      | None => strip_close tags' trimmed
      end
  end.

Definition strip_tool_call_tags (s : str) : str :=
  let trimmed := trim_bytes s in
  let trimmed :=
    match find_ignore_case trimmed TOOL_CALLS_MARKER with
    | Some 0%nat => trim_bytes (drop (length TOOL_CALLS_MARKER) trimmed)
    | _ => trimmed
    end in
  strip_close TOOL_TAG_CANDIDATES (strip_open TOOL_TAG_CANDIDATES trimmed).

Section extractor.
(** [MiniMaxXmlParser] and [HermesJsonParser]. *)
Context (xml_parser json_parser : InlineToolParser).

Definition parse_tool_block (n : nat) (block : str) : option (list ParsedToolCall) :=
  let trimmed := trim_bytes block in
  match trimmed with
  | [] => None
  | _ =>
      match @parse_block xml_parser n trimmed with
      | Some calls => Some calls
      | None => @parse_block json_parser n (strip_tool_call_tags trimmed)
      end
  end.

(** ** The extractor *)

Record InlineToolStreamExtractor := mkExtractor {
  ie_inside_tool_call : bool; ie_expected_close_tag : option str; ie_tool_buffer : str; ie_partial_tag_buffer : str;
  ie_emitted_tool_call : bool; ie_tool_call_index : Z
}.

Definition extractor_new : InlineToolStreamExtractor := mkExtractor false None [] [] false 0.

(** What a chunk adds: the text left, the calls found, whether one was, and the
    attempts made so far. *)
Record Harvest := mkHarvest { hv_text : str; hv_calls : list ParsedToolCall; hv_emitted : bool; hv_attempts : nat }.

(** A block is parsed, or stays text. *)
Definition harvest_block (append : str -> str -> str) (block : str) (h : Harvest) : Harvest :=
  match parse_tool_block (hv_attempts h) block with
  | Some calls => mkHarvest (hv_text h) (hv_calls h ++ calls) true (S (hv_attempts h))
  | None => mkHarvest (append (hv_text h) block) (hv_calls h) (hv_emitted h) (S (hv_attempts h))
  end.

Definition harvest_text (part : str) (h : Harvest) : Harvest :=
  mkHarvest (append_clean_text (hv_text h) part) (hv_calls h) (hv_emitted h) (hv_attempts h).

(** Where the text of a chunk ends: within a block, or on a partial tag. *)
Inductive Remaining := Within (close_tag buffer : str) | Held (partial : str).

(** The [while cursor < text_to_process.len()] loop, on what is left. *)
Fixpoint scan_text (fuel : nat) (slice : str) (h : Harvest) : Harvest * Remaining :=
  match fuel with
  | O => (h, Held [])
  | S fuel =>
      match slice with
      | [] => (h, Held [])
      | _ =>
          match find_earliest_tool_tag slice with
          | Some (open_start, open_end, close_tag) =>
              let h := if (0 <? open_start)%nat then harvest_text (take open_start slice) h else h in
              let open_tag_slice := take (open_end - open_start) (drop open_start slice) in
              if is_self_closing open_tag_slice then
                scan_text fuel (drop open_end slice) (harvest_block append_clean_text open_tag_slice h)
              else
                match find_close_tag_in_buffer (drop open_end slice) close_tag with
                | Some close_pos =>
                    let full_tool_end := (open_end + close_pos)%nat in
                    scan_text fuel (drop full_tool_end slice)
                      (harvest_block append_clean_text (take (full_tool_end - open_start) (drop open_start slice)) h)
                | None => (h, Within close_tag (drop open_start slice))
                end
          | None =>
              let '(safe, partial) := extract_trailing_partial_tag_prefix slice in
              (match safe with [] => h | _ => harvest_text safe h end, Held partial)
          end
      end
  end.

(** The content of one delta: [None] when it is all held_text back. *)
Definition take_content (content : str) (attempts : nat) (s : InlineToolStreamExtractor)
    : (option Harvest * nat) * InlineToolStreamExtractor :=
  let '(mkExtractor inside close_tag buffer partial emitted index) := s in
  let full_content := partial ++ content in
  let h0 := mkHarvest [] [] emitted attempts in
  let finish close0 buffer0 h text :=
    let '(h, r) := scan_text (S (length text)) text h in
    match r with
    | Within close buf => ((Some h, hv_attempts h), mkExtractor true (Some close) (buffer0 ++ buf) [] (hv_emitted h) index)
    | Held p => ((Some h, hv_attempts h), mkExtractor false close0 buffer0 p (hv_emitted h) index)
    end in
  if inside then
    let buffer := buffer ++ full_content in
    if MAX_TOOL_BUFFER_BYTES <? Z.of_nat (length buffer)
    then finish None [] (mkHarvest buffer [] emitted attempts) []
    else
      match find_close_tag_in_buffer buffer (default (closing_tag (bytes_of "tool_call")) close_tag) with
      | Some close_pos => finish None [] (harvest_block app (take close_pos buffer) h0) (drop close_pos buffer)
      | None => ((None, attempts), mkExtractor true close_tag buffer [] emitted index)
      end
  else finish close_tag buffer h0 full_content.

(** ** Chunks *)

Inductive StreamAction := Passthrough | Mutate (payload : str) | Skip | Done.

(** [serde_json::from_str] and [to_string]. *)
Variable from_str : str -> option Json.
Variable to_string : Json -> option str.

Definition FINISH_TARGETS : list (str * str) :=
  (fun c => (quoted "finish_reason" ++ bytes_of c.1 ++ quoted c.2, quoted "finish_reason" ++ bytes_of c.1 ++ quoted "tool_calls"))
  <$> [(":", "stop"); (": ", "stop"); (":", "end_turn"); (": ", "end_turn")]%string.

Fixpoint replace_finish (targets : list (str * str)) (payload : str) : option str :=
  match targets with
  | [] => None
  | (from, to) :: targets' =>
      match find_sub from payload with
      | Some pos => Some (take pos payload ++ to ++ drop (pos + length from) payload)
      | None => replace_finish targets' payload
      end
  end.

(** [Value::pointer], of the tokens used here. *)
Definition pointer_step (v : Json) (token : string) : option Json :=
  match v with
  | JObj m => assoc_get token m
  | JArr l => if (token =? "0")%string then head l else None
  | _ => None
  end.
Definition pointer (tokens : list string) (v : Json) : option Json := foldl (fun o t => o ≫= fun v => pointer_step v t) (Some v) tokens.

Definition first_of (v : Json) : option Json := match v with JArr (c :: _) => Some c | _ => None end.
Definition first_choice_of (v : Json) : option Json := json_get "choices" v ≫= first_of.

(** Assignments through the references of the code: to the first choice, to a
    field of an object. *)
Definition put (k : string) (x v : Json) : Json := match v with JObj m => JObj (json_insert k x m) | _ => v end.
Definition json_remove (k : string) (m : list (string * Json)) : list (string * Json) := filter (fun kv => kv.1 <> k) m.

Definition with_choice (f : Json -> Json) (v : Json) : Json :=
  match json_get "choices" v with
  | Some (JArr (c :: l)) => put "choices" (JArr (f c :: l)) v
  | _ => v
  end.
Definition with_delta (f : Json -> Json) (choice : Json) : Json :=
  match json_get "delta" choice with Some d => put "delta" (f d) choice | None => choice end.

Definition call_value (index : Z) (c : ParsedToolCall) : Json :=
  JObj [("function", JObj [("arguments", jstr (ptc_arguments c)); ("name", jstr (ptc_name c))]);
        ("id", jstr (ptc_id c)); ("index", JInt index); ("type", JStr "function")]%string.

Definition build_tool_calls_value (index : Z) (calls : list ParsedToolCall) : list Json * Z :=
  (imap (fun i c => call_value (wrap_add u32_max index (Z.of_nat i)) c) calls, wrap_add u32_max index (Z.of_nat (length calls))).

Definition set_index (index : Z) (s : InlineToolStreamExtractor) : InlineToolStreamExtractor :=
  let '(mkExtractor i c b p e _) := s in mkExtractor i c b p e index.

Definition mutated (v : Json) : StreamAction := match to_string v with Some s => Mutate s | None => Passthrough end.

(** The delta of a chunk in which calls were found. *)
Definition calls_delta (clean : str) (calls : list Json) (delta : Json) : Json :=
  match delta with
  | JObj m =>
      let trimmed := trim_bytes clean in
      let m := match trimmed with [] => json_remove "content" m | _ => json_insert "content" (jstr trimmed) m end in
      JObj (json_insert "tool_calls" (JArr calls) m)
  | _ => delta
  end.

Definition finish_if_present (choice : Json) : Json :=
  match json_get "finish_reason" choice with Some _ => put "finish_reason" (JStr "tool_calls") choice | None => choice end.

Definition inline_process_chunk (payload : str) (attempts : nat) (s : InlineToolStreamExtractor)
    : (StreamAction * nat) * InlineToolStreamExtractor :=
  if negb (ie_inside_tool_call s) && bool_decide (ie_tool_buffer s = []) && bool_decide (ie_partial_tag_buffer s = [])
     && negb (bool_decide (60 ∈ payload)) && negb (contains_bytes TOOL_CALLS_MARKER payload)
  then
    (match (if ie_emitted_tool_call s then replace_finish FINISH_TARGETS payload else None) with
     | Some res => Mutate res
     | None => Passthrough
     end, attempts, s)
  else
    match from_str payload with
    | None => (Passthrough, attempts, s)
    | Some v =>
        let is_stop :=
          match (first_choice_of v ≫= json_get "finish_reason") ≫= as_str with
          | Some fr => bool_decide (fr ∈ ["stop"; "end_turn"]%string)
          | None => false
          end in
        let has_content_delta := bool_decide (is_Some (pointer ["choices"; "0"; "delta"; "content"]%string v ≫= as_str)) in
        let stop_early :=
          if is_stop && ie_emitted_tool_call s && negb has_content_delta
          then to_string (with_choice (put "finish_reason" (JStr "tool_calls")) v) else None in
        match stop_early with
        | Some m => (Mutate m, attempts, s)
        | None =>
            match (first_choice_of v ≫= json_get "delta") ≫= fun d => json_get "content" d ≫= as_str with
            | None => (Passthrough, attempts, s)
            | Some content =>
                let '(o, attempts, s) := take_content (bytes_of content) attempts s in
                match o with
                | None => (Skip, attempts, s)
                | Some h =>
                    match hv_calls h with
                    | _ :: _ =>
                        let '(calls, index) := build_tool_calls_value (ie_tool_call_index s) (hv_calls h) in
                        (mutated (with_choice (fun c => finish_if_present (with_delta (calls_delta (hv_text h) calls) c)) v), attempts,
                         set_index index s)
                    | [] =>
                        if ie_inside_tool_call s || negb (bool_decide (ie_partial_tag_buffer s = [])) then
                          (match hv_text h with
                           | [] => Skip
                           | _ => mutated (with_choice (with_delta (put "content" (jstr (hv_text h)))) v)
                           end, attempts, s)
                        else if is_stop && ie_emitted_tool_call s then
                          (mutated (with_choice (put "finish_reason" (JStr "tool_calls")) v), attempts, s)
                        else if bool_decide (hv_text h = bytes_of content) then (Passthrough, attempts, s)
                        else (mutated (with_choice (with_delta (put "content" (jstr (hv_text h)))) v), attempts, s)
                    end
                end
            end
        end
    end.

Definition residual_chunk (delta finish_reason : Json) : Json :=
  JObj [("choices", JArr [JObj [("delta", delta); ("finish_reason", finish_reason); ("index", JInt 0)]])]%string.

Definition finalize (attempts : nat) (s : InlineToolStreamExtractor) : option str * InlineToolStreamExtractor :=
  let '(mkExtractor _ _ buffer partial emitted index) := s in
  let residual := partial ++ buffer in
  match trim_bytes residual with
  | [] => (None, mkExtractor false None [] [] emitted index)
  | _ =>
      match parse_tool_block attempts residual with
      | Some calls =>
          let '(l, index) := build_tool_calls_value index calls in
          (to_string (residual_chunk (JObj [("tool_calls", JArr l)]%string) (JStr "tool_calls")), mkExtractor false None [] [] true index)
      | None => (to_string (residual_chunk (JObj [("content", jstr residual)]%string) JNull), mkExtractor false None [] [] emitted index)
      end
  end.

(** ** Specification *)

(** What a client gets of a stream: the payloads passed on, then the residual. *)
Definition passed_on (payload : str) (a : StreamAction) : option str :=
  match a with Passthrough => Some payload | Mutate m => Some m | Skip | Done => None end.

Fixpoint inline_run (payloads : list str) (attempts : nat) (s : InlineToolStreamExtractor) : list str :=
  match payloads with
  | [] => option_list (finalize attempts s).1
  | p :: ps => let '(a, attempts, s) := inline_process_chunk p attempts s in option_list (passed_on p a) ++ inline_run ps attempts s
  end.

Definition delta_of (v : Json) : option Json := first_choice_of v ≫= json_get "delta".
Definition content_of (v : Json) : option string := delta_of v ≫= fun d => json_get "content" d ≫= as_str.
Definition calls_in (v : Json) : list Json := match delta_of v ≫= json_get "tool_calls" with Some (JArr l) => l | _ => [] end.

Definition read_text (p : str) : str := default [] (bytes_of <$> (from_str p ≫= content_of)).
Definition read_calls (p : str) : list Json := default [] (calls_in <$> from_str p).
End extractor.

(** A character of white space may be dropped at the beginning or at the end of
    any part of a text, nothing else. *)
Definition but_last_ws (s : str) : str := reverse (drop (ws_len_rev (reverse s)) (reverse s)).
Inductive drop1 : str -> str -> Prop :=
  | drop_front a s b : drop1 (a ++ s ++ b) (a ++ drop (ws_len s) s ++ b)
  | drop_back a s b : drop1 (a ++ s ++ b) (a ++ but_last_ws s ++ b).
Definition drops : str -> str -> Prop := rtc drop1.

#[export] Instance drops_preorder : PreOrder drops := _.

Lemma drops_context a b s t : drops s t -> drops (a ++ s ++ b) (a ++ t ++ b).
Proof.
  induction 1 as [|s1 s2 s3 [x w y|x w y] _ IH]; [done|..]; (etransitivity; [|exact IH]); apply rtc_once;
    rewrite <- !app_assoc, !(app_assoc a x); constructor.
Qed.

Lemma drops_app s1 t1 s2 t2 : drops s1 t1 -> drops s2 t2 -> drops (s1 ++ s2) (t1 ++ t2).
Proof.
  intros H1 H2. transitivity (t1 ++ s2); [by apply (drops_context [] s2)|].
  pose proof (drops_context t1 [] s2 t2 H2) as H. by rewrite !app_nil_r in H.
Qed.

Lemma drops_bytes s t : drops s t -> byte_list s -> byte_list t.
Proof.
  unfold byte_list, but_last_ws. induction 1 as [|s1 s2 s3 [x w y|x w y] _ IH]; intros H; [done|..]; apply IH; rewrite !Forall_app in *;
    destruct H as (? & ? & ?); split_and!; auto using Forall_drop.
  apply Forall_reverse, Forall_drop, Forall_reverse. done.
Qed.

Lemma drops_trim_start_by fuel s : drops s (trim_by ws_len fuel s).
Proof.
  revert s. induction fuel as [|fuel IH]; intros s; [done|]. cbn [trim_by]. destruct (ws_len s) as [|n] eqn:E; [done|].
  etransitivity; [|apply IH]. apply rtc_once. pose proof (drop_front [] s []) as H. by rewrite E, !app_nil_r in H.
Qed.

Lemma drops_trim_end_by fuel s : drops (reverse s) (reverse (trim_by ws_len_rev fuel s)).
Proof.
  revert s. induction fuel as [|fuel IH]; intros s; [done|]. cbn [trim_by]. destruct (ws_len_rev s) as [|n] eqn:E; [done|].
  etransitivity; [|apply IH]. apply rtc_once. pose proof (drop_back [] (reverse s) []) as H. unfold but_last_ws in H.
  by rewrite reverse_involutive, E, !app_nil_r in H.
Qed.

Lemma drops_trim s : drops s (trim_bytes s).
Proof.
  unfold trim_bytes. etransitivity; [apply (drops_trim_start_by (length s))|].
  set (t := trim_by ws_len (length s) s). cbv zeta. rewrite <- (reverse_involutive t) at 1. apply drops_trim_end_by.
Qed.

Lemma append_clean_spec clean part : exists d, append_clean_text clean part = clean ++ d /\ drops part d.
Proof.
  unfold append_clean_text. destruct (_ && _); [exists (trim_start part)|exists part]; (split; [done|]); [apply drops_trim_start_by|done].
Qed.

(** ** Positions *)

Lemma needle_position_bound needle s pos : needle_position needle s = Some pos -> (pos + length needle <= length s)%nat.
Proof.
  revert pos. induction s as [|b s IH]; intros pos; cbn [needle_position]; destruct (_ <? _)%nat eqn:El; [done| |done|];
    apply Nat.ltb_ge in El; case_match; intros H'; simplify_eq; cbn in *; [lia|lia|].
  destruct (needle_position needle s) as [k|]; [|done]. injection H' as <-. specialize (IH k eq_refl). lia.
Qed.

Lemma find_ic_bound haystack needle pos : find_ignore_case haystack needle = Some pos -> (pos + length needle <= length haystack)%nat.
Proof. unfold find_ignore_case. destruct needle; [intros [= <-]; cbn; lia|apply needle_position_bound]. Qed.

Lemma find_byte_bound b s pos : byte_position b s = Some pos -> (pos < length s)%nat.
Proof.
  revert pos. induction s as [|x s IH]; intros pos; cbn; [done|]. case_match; [intros [= <-]; lia|].
  destruct (byte_position b s) as [k|]; [|done]. intros [= <-]. specialize (IH k eq_refl). lia.
Qed.

Lemma rfind_byte_bound b s pos : byte_rposition b s = Some pos -> (pos < length s)%nat.
Proof.
  revert pos. induction s as [|x s IH]; intros pos; cbn; [done|]. destruct (byte_rposition b s) as [k|].
  - intros [= <-]. specialize (IH k eq_refl). lia.
  - case_match; [|done]. intros [= <-]. lia.
Qed.

Definition tag_within (input : str) (o : option (nat * nat * str)) : Prop :=
  match o with Some (open_start, open_end, _) => (open_start < open_end <= length input)%nat | None => True end.

Lemma earliest_within input : tag_within input (find_earliest_tool_tag input).
Proof.
  unfold find_earliest_tool_tag.
  assert (forall l o, tag_within input o -> tag_within input (foldl (earlier input) o l)) as H.
  { induction l as [|t l IH]; intros o Ho; cbn [foldl]; [done|]. apply IH. unfold earlier.
    destruct (find_open _ _ _ _) as [a|]; [|done]. destruct (byte_position _ _) as [e|] eqn:E; [|done].
    apply find_byte_bound in E. rewrite length_drop in E. case_match; [|done]. cbn. lia. }
  apply H. destruct (find_ignore_case _ _) as [pos|] eqn:E; cbn -[TOOL_CALLS_MARKER]; [|done].
  apply find_ic_bound in E. assert (length TOOL_CALLS_MARKER = 12%nat) as L by done. rewrite L in *. lia.
Qed.

Lemma close_within buffer close pos : find_close_tag_in_buffer buffer close = Some pos -> (pos <= length buffer)%nat.
Proof.
  unfold find_close_tag_in_buffer. case_match.
  - destruct (byte_rposition 93 buffer) eqn:E1; [|destruct (byte_rposition 125 buffer) eqn:E2; [|done]]; intros [= <-];
      [apply rfind_byte_bound in E1|apply rfind_byte_bound in E2]; lia.
  - generalize (close :: alternatives close "calls" ++ alternatives close "invoke"). clear. intros l. induction l as [|t l IH]; cbn; [done|].
    destruct (find_ignore_case buffer t) eqn:E; [intros [= <-]; by apply find_ic_bound in E|done].
Qed.

Lemma trailing_split s safe partial : extract_trailing_partial_tag_prefix s = (safe, partial) -> s = safe ++ partial.
Proof.
  unfold extract_trailing_partial_tag_prefix. repeat case_match; intros [= <- <-]; by rewrite ?take_drop, ?app_nil_r.
Qed.

(** ** A block in the text *)

Definition OPEN_TAG : str := opening (bytes_of "tool_call") ++ [62].
Definition CLOSE_TAG : str := closing_tag (bytes_of "tool_call").
Definition tool_block (body : str) : str := OPEN_TAG ++ body ++ CLOSE_TAG.

(** The block ends at its closing tag, not before. *)
Definition closes_once (body : str) : Prop := find_ignore_case (body ++ CLOSE_TAG) CLOSE_TAG = Some (length body).

Lemma needle_short needle s : (length s < length needle)%nat -> needle_position needle s = None.
Proof. intros H. destruct s; cbn [needle_position]; by rewrite (proj2 (Nat.ltb_lt _ _)). Qed.

Lemma needle_skip needle b s :
  eq_ignore_ascii_case (take (length needle) (b :: s)) needle = false -> needle_position needle (b :: s) = S <$> needle_position needle s.
Proof.
  intros H. cbn [needle_position]. destruct (_ <? _)%nat eqn:E; [|by rewrite H]. apply Nat.ltb_lt in E.
  rewrite needle_short; [done|]. cbn in E. lia.
Qed.

Lemma needle_app needle s t k : needle_position needle s = Some k -> needle_position needle (s ++ t) = Some k.
Proof.
  revert k. induction s as [|b s IH]; intros k; cbn [needle_position].
  - destruct (_ <? _)%nat eqn:E; [done|]. apply Nat.ltb_ge in E. destruct needle as [|x needle]; [|cbn in E; lia]. cbn. intros [= <-].
    by destruct t.
  - destruct (_ <? _)%nat eqn:E; [done|]. apply Nat.ltb_ge in E. cbn [app needle_position].
    rewrite (proj2 (Nat.ltb_ge _ _)) by (cbn in *; rewrite length_app; lia).
    change (b :: s ++ t) with ((b :: s) ++ t). rewrite take_app_le by done. case_match; [done|].
    destruct (needle_position needle s) as [j|]; [|done]. intros [= <-]. by rewrite (IH j).
Qed.

Lemma needle_head b needle s k : needle_position (b :: needle) s = Some k -> exists x, s !! k = Some x /\ lower x = lower b.
Proof.
  revert k. induction s as [|y s IH]; intros k; cbn [needle_position]; [done|]. case_match; [done|]. case_match eqn:E.
  - intros [= <-]. exists y. split; [done|]. cbn in E. apply andb_true_iff in E as [E _]. by apply Z.eqb_eq.
  - destruct (needle_position (b :: needle) s) as [j|]; [|done]. intros [= <-]. cbn. by apply IH.
Qed.

Lemma lower_bracket x b : lower x = lower b -> b = 60 \/ b = 91 -> x = b.
Proof. unfold lower. intros H [-> | ->]; cbn in H; case_match eqn:E; [apply andb_true_iff in E as [?%Z.leb_le ?%Z.leb_le]; lia|done|apply andb_true_iff in E as [?%Z.leb_le ?%Z.leb_le]; lia|done]. Qed.

Lemma find_open_head fuel input open cursor abs_pos rest :
  open = 60 :: rest -> find_open fuel input open cursor = Some abs_pos -> input !! abs_pos = Some 60.
Proof.
  intros ->. revert cursor. induction fuel as [|fuel IH]; intros cursor; cbn [find_open]; [done|].
  destruct (find_ignore_case _ _) as [pos|] eqn:E; [|done]. case_match; [|apply IH]. intros [= <-].
  apply needle_head in E as (x & Hx & Hl). rewrite lookup_drop in Hx. by rewrite Hx, (lower_bracket x 60 Hl) by (by left).
Qed.

(** Text in which no tag can begin. *)
Definition plain_text (s : str) : Prop := 60 ∉ s /\ 91 ∉ s.

Lemma not_in_plain (x : Z) pre k rest : x ∉ pre -> (pre ++ rest) !! k = Some x -> (length pre <= k)%nat.
Proof.
  intros Hx Hk. destruct (decide (k < length pre)%nat) as [Hl|]; [|lia]. rewrite lookup_app_l in Hk by done.
  destruct Hx. by eapply list_elem_of_lookup_2.
Qed.

Lemma find_byte_none b s : b ∉ s -> byte_position b s = None.
Proof.
  induction s as [|x s IH]; [done|]. rewrite not_elem_of_cons. intros [H1 H2]. cbn. rewrite (proj2 (Z.eqb_neq _ _)) by done. by rewrite IH.
Qed.

Lemma rfind_byte_none b s : b ∉ s -> byte_rposition b s = None.
Proof.
  induction s as [|x s IH]; [done|]. rewrite not_elem_of_cons. intros [H1 H2]. cbn. rewrite IH by done. by rewrite (proj2 (Z.eqb_neq _ _)).
Qed.

Lemma rfind_byte_app b s t k : byte_rposition b t = Some k -> byte_rposition b (s ++ t) = Some (length s + k)%nat.
Proof. intros H. induction s as [|x s IH]; [done|]. cbn. by rewrite IH. Qed.

Lemma tags_open : Forall (fun t : str * str => exists rest, t.1 = 60 :: rest) TOOL_TAG_CANDIDATES.
Proof. repeat (constructor; [eexists; reflexivity|]). constructor. Qed.

(** A text that ends within an opening tag has no tag yet... *)
Lemma no_tag_yet pre q : plain_text pre -> 62 ∉ q -> 91 ∉ q -> find_earliest_tool_tag (pre ++ q) = None.
Proof.
  intros [H60 H91] Hq Hb. unfold find_earliest_tool_tag.
  destruct (find_ignore_case (pre ++ q) TOOL_CALLS_MARKER) as [k|] eqn:E.
  { apply needle_head in E as (x & Hx & Hl). rewrite (lower_bracket x 91 Hl) in Hx by (by right).
    apply list_elem_of_lookup_2, elem_of_app in Hx. tauto. }
  cbn [fmap option_fmap option_map]. pose proof tags_open as Ht. induction Ht as [|t l [rest Hr] _ IH]; cbn [foldl]; [done|].
  assert (earlier (pre ++ q) None t = None) as ->; [|done]. unfold earlier.
  destruct (find_open _ _ _ _) as [a|] eqn:Ea; [|done]. apply (find_open_head _ _ _ _ _ rest) in Ea; [|done].
  pose proof (not_in_plain 60 pre a q H60 Ea) as Hl. rewrite find_byte_none; [done|].
  rewrite drop_app_ge by done. intros Hin. apply Hq. rewrite <- (take_drop (a - length pre) q). apply elem_of_app. by right.
Qed.

(** ... and the part of it is held_text back. *)
Lemma tag_held_back pre k : plain_text pre -> (k < length OPEN_TAG)%nat ->
  extract_trailing_partial_tag_prefix (pre ++ take k OPEN_TAG) = (pre, take k OPEN_TAG).
Proof.
  intros [H60 H91] Hk. unfold extract_trailing_partial_tag_prefix.
  assert (byte_rposition 91 (pre ++ take k OPEN_TAG) = None) as ->.
  { apply rfind_byte_none. rewrite not_elem_of_app. split; [done|]. intros H. apply elem_of_take in H as (i & Hi & _).
    apply list_elem_of_lookup_2 in Hi. revert Hi. vm_compute. set_solver. }
  destruct k as [|k]; [cbn [take]; by rewrite app_nil_r, rfind_byte_none|].
  assert (byte_rposition 60 (take (S k) OPEN_TAG) = Some 0%nat /\ bool_decide (62 ∈ take (S k) OPEN_TAG) = false /\
    bool_decide (93 ∈ take (S k) OPEN_TAG) = false /\ Z.of_nat (length (take (S k) OPEN_TAG)) <=? 1024 = true /\
    may_become (take (S k) OPEN_TAG) = true) as (R & B1 & B2 & L & M).
  { do 10 (destruct k as [|k]; [split_and!; by vm_compute|]). vm_compute in Hk. lia. }
  rewrite (rfind_byte_app _ _ _ _ R), Nat.add_0_r. rewrite drop_app_length, B1, B2, L, M. cbn [negb andb]. by rewrite take_app_length.
Qed.

Lemma tags_split : exists l, TOOL_TAG_CANDIDATES = tag_pair (bytes_of "tool_call") :: l.
Proof. eexists. reflexivity. Qed.

Lemma open_tag_at x : (OPEN_TAG ++ x) !! 10%nat = Some 62 /\ byte_position 62 (OPEN_TAG ++ x) = Some 10%nat /\ (OPEN_TAG ++ x) !! 0%nat = Some 60 /\
  needle_position (opening (bytes_of "tool_call")) (OPEN_TAG ++ x) = Some 0%nat.
Proof. by split_and!. Qed.

Lemma open_lengths : length (opening (bytes_of "tool_call")) = 10%nat /\ length OPEN_TAG = 11%nat /\ length CLOSE_TAG = 12%nat.
Proof. by split_and!. Qed.

Lemma find_ic_tag input tag : find_ignore_case input (opening tag) = needle_position (opening tag) input.
Proof. done. Qed.

Lemma open_after_plain pre x tag : 60 ∉ pre -> needle_position (opening tag) x = Some 0%nat -> needle_position (opening tag) (pre ++ x) = Some (length pre).
Proof.
  intros H60 Hx. induction pre as [|b pre IH]; [done|]. rewrite not_elem_of_cons in H60. destruct H60 as [Hb Hp].
  cbn [app]. rewrite needle_skip, IH; [done|done|]. cbn -[lower]. rewrite (proj2 (Z.eqb_neq _ _)); [done|].
  intros Hl. apply Hb. symmetry. apply (lower_bracket b 60 Hl). by left.
Qed.

(** Of two tags the one that is there first wins. *)
Lemma later_tag input pos o t rest : t.1 = 60 :: rest -> (forall k, input !! k = Some 60 -> (pos <= k)%nat) ->
  match o with Some (p, _, _) => p = pos | None => False end -> earlier input o t = o.
Proof.
  intros Hr Hk Ho. unfold earlier. destruct o as [[[p e] c]|]; [|done]. subst p.
  destruct (find_open _ _ _ _) as [a|] eqn:Ea; [|done]. apply (find_open_head _ _ _ _ _ rest) in Ea; [|done].
  destruct (byte_position _ _); [|done]. by rewrite (proj2 (Nat.ltb_ge _ _)) by auto.
Qed.

Lemma opening_wins pre x e0 : plain_text pre -> match e0 with Some (p, _, _) => (length pre < p)%nat | None => True end ->
  earlier (pre ++ OPEN_TAG ++ x) e0 (tag_pair (bytes_of "tool_call")) = Some (length pre, (length pre + length OPEN_TAG)%nat, CLOSE_TAG).
Proof.
  intros [H60 H91] H0. destruct (open_tag_at x) as (A1 & A2 & A3 & A4). destruct open_lengths as (L1 & L2 & L3).
  unfold earlier. cbn [find_open tag_pair fst snd]. rewrite drop_0, find_ic_tag, (open_after_plain pre _ _ H60 A4). cbn [Nat.add].
  rewrite L1, lookup_app_r by lia. replace (length pre + 10 - length pre)%nat with 10%nat by lia. rewrite A1. cbn [is_boundary].
  replace (is_ascii_whitespace 62 || (62 =? 62) || (62 =? 47) || (62 =? 61)) with true by done. rewrite drop_app_length, A2, L2.
  replace (match e0 with Some (p, _, _) => (length pre <? p)%nat | None => true end) with true
    by (destruct e0 as [[[p ?] ?]|]; [symmetry; by apply Nat.ltb_lt|done]).
  unfold CLOSE_TAG. do 3 f_equal. lia.
Qed.

(** The tag of the block is found first. *)
Lemma tag_found pre x : plain_text pre ->
  find_earliest_tool_tag (pre ++ OPEN_TAG ++ x) = Some (length pre, (length pre + length OPEN_TAG)%nat, CLOSE_TAG).
Proof.
  intros Hp. pose proof Hp as [H60 H91]. unfold find_earliest_tool_tag.
  set (e0 := _ <$> find_ignore_case (pre ++ OPEN_TAG ++ x) TOOL_CALLS_MARKER).
  assert (match e0 with Some (p, _, _) => (length pre < p)%nat | None => True end) as H0.
  { unfold e0. destruct (find_ignore_case _ TOOL_CALLS_MARKER) as [k|] eqn:E; cbn; [|done].
    apply needle_head in E as (y & Hy & Hl). rewrite (lower_bracket y 91 Hl) in Hy by (by right).
    pose proof (not_in_plain 91 pre k _ H91 Hy). destruct (decide (k = length pre)) as [->|]; [|lia].
    rewrite lookup_app_r, Nat.sub_diag in Hy by lia. destruct (open_tag_at x) as (_ & _ & A3 & _). by rewrite A3 in Hy. }
  destruct tags_split as [l Hl]. pose proof tags_open as Ht. rewrite Hl in Ht |- *. apply Forall_inv_tail in Ht.
  cbn [foldl]. rewrite opening_wins by done. clear H0 Hl e0. induction Ht as [|t l [rest Hr] _ IH]; cbn [foldl]; [done|].
  rewrite (later_tag _ (length pre) _ t rest); [done|done| |done]. intros k Hk. by eapply (not_in_plain 60 pre k).
Qed.

Lemma close_after_open x : needle_position CLOSE_TAG (OPEN_TAG ++ x) = (fun k => 11 + k)%nat <$> needle_position CLOSE_TAG x.
Proof.
  change (OPEN_TAG ++ x) with (60 :: 116 :: 111 :: 111 :: 108 :: 95 :: 99 :: 97 :: 108 :: 108 :: 62 :: x).
  rewrite !needle_skip by reflexivity. by destruct (needle_position CLOSE_TAG x).
Qed.

Lemma find_close_block buffer : find_close_tag_in_buffer buffer CLOSE_TAG = (fun k => k + 12)%nat <$> needle_position CLOSE_TAG buffer.
Proof.
  unfold find_close_tag_in_buffer. replace (bool_decide (CLOSE_TAG = [93])) with false by done.
  replace (alternatives CLOSE_TAG "calls") with (@nil str) by done. replace (alternatives CLOSE_TAG "invoke") with (@nil str) by done.
  cbn [find_first_end app]. change (find_ignore_case buffer CLOSE_TAG) with (needle_position CLOSE_TAG buffer).
  destruct (needle_position CLOSE_TAG buffer); [|done]. cbn [fmap option_fmap option_map]. by destruct open_lengths as (_ & _ & ->).
Qed.

Lemma close_whole body post : closes_once body -> find_close_tag_in_buffer (body ++ CLOSE_TAG ++ post) CLOSE_TAG = Some (length body + 12)%nat.
Proof.
  intros H. rewrite find_close_block, app_assoc.
  change (find_ignore_case (body ++ CLOSE_TAG) CLOSE_TAG) with (needle_position CLOSE_TAG (body ++ CLOSE_TAG)) in H.
  by rewrite (needle_app _ _ post _ H).
Qed.

Lemma close_part body r t : closes_once body -> body ++ CLOSE_TAG = r ++ t -> t <> [] -> needle_position CLOSE_TAG r = None.
Proof.
  intros H E Ht. destruct (needle_position CLOSE_TAG r) as [k|] eqn:Ek; [|done]. exfalso.
  pose proof (needle_position_bound _ _ _ Ek) as Hb. apply (needle_app _ _ t) in Ek. rewrite <- E in Ek.
  assert (Some k = Some (length body)) as [= ->] by (rewrite <- Ek; exact H).
  apply (f_equal length) in E. rewrite !length_app in E. destruct t as [|t0 t]; [done|].
  change (length (t0 :: t)) with (S (length t)) in E. lia.
Qed.

(** A block that is being gathered: its closing tag is there, or not yet. *)
Lemma block_in_buffer body y more post : closes_once body -> y ++ more = body ++ CLOSE_TAG ++ post ->
  (exists z, y = body ++ CLOSE_TAG ++ z /\ find_close_tag_in_buffer (OPEN_TAG ++ y) CLOSE_TAG = Some (length (tool_block body))) \/
  ((length y < length body + 12)%nat /\ find_close_tag_in_buffer (OPEN_TAG ++ y) CLOSE_TAG = None).
Proof.
  intros Hb E. destruct open_lengths as (_ & L1 & L2). rewrite find_close_block, close_after_open. rewrite app_assoc in E.
  assert (forall z, needle_position CLOSE_TAG ((body ++ CLOSE_TAG) ++ z) = Some (length body)) as Hn.
  { intros z. apply needle_app. exact Hb. }
  assert (forall z, y = (body ++ CLOSE_TAG) ++ z -> exists z, y = body ++ CLOSE_TAG ++ z /\
    (fun k => k + 12)%nat <$> ((fun k => 11 + k)%nat <$> needle_position CLOSE_TAG y) = Some (length (tool_block body))) as Hw.
  { intros z ->. exists z. rewrite <- app_assoc at 1. split; [done|]. rewrite Hn. cbn [fmap option_fmap option_map]. f_equal.
    unfold tool_block. rewrite !length_app. lia. }
  apply app_eq_inv in E as [(z & -> & _)|(t & E & _)]; [left; by eapply Hw|]. destruct t as [|c t].
  - rewrite app_nil_r in E. left. apply (Hw []). by rewrite app_nil_r.
  - right. split; [|by rewrite (close_part body y (c :: t))]. apply (f_equal length) in E. rewrite !length_app, L2 in E.
    change (length (c :: t)) with (S (length t)) in E. lia.
Qed.

(** ** Conservation *)

Inductive StreamPiece := PText (t : str) | PBlock (b : str) (calls : list ParsedToolCall).

Definition piece_raw (p : StreamPiece) : str := match p with PText t => t | PBlock b _ => b end.
Definition text_of_piece (p : StreamPiece) : str := match p with PText t => t | PBlock _ _ => [] end.
Definition piece_calls (p : StreamPiece) : list ParsedToolCall := match p with PText _ => [] | PBlock _ calls => calls end.

Section conservation.
Context (xml_parser json_parser : InlineToolParser).

(** A block is one the parsers understood, and its calls are those they found. *)
Definition piece_ok (p : StreamPiece) : Prop :=
  match p with PText _ => True | PBlock b calls => calls <> [] /\ exists n, parse_tool_block xml_parser json_parser n b = Some calls end.

Lemma parse_tool_block_some n b calls : parse_tool_block xml_parser json_parser n b = Some calls -> calls <> [].
Proof using Type.
  unfold parse_tool_block. case_match; [done|]. destruct (@parse_block xml_parser n _) eqn:E.
  - intros [= <-]. by eapply (@parse_block_some xml_parser).
  - apply (@parse_block_some json_parser).
Qed.

(** [h'] is [h] after the pieces. *)
Definition gathers (ps : list StreamPiece) (h h' : Harvest) : Prop :=
  Forall piece_ok ps /\ hv_calls h' = hv_calls h ++ (ps ≫= piece_calls) /\
  exists d, hv_text h' = hv_text h ++ d /\ drops (ps ≫= text_of_piece) d.

Lemma gathers_nil h : gathers [] h h.
Proof using Type. split_and!; [done|by rewrite app_nil_r|]. exists []. by rewrite app_nil_r. Qed.

Lemma gathers_app ps1 ps2 h1 h2 h3 : gathers ps1 h1 h2 -> gathers ps2 h2 h3 -> gathers (ps1 ++ ps2) h1 h3.
Proof using Type.
  intros (O1 & C1 & d1 & T1 & D1) (O2 & C2 & d2 & T2 & D2). split_and!.
  - by apply Forall_app.
  - by rewrite C2, C1, bind_app, app_assoc.
  - exists (d1 ++ d2). rewrite T2, T1, bind_app, app_assoc. split; [done|by apply drops_app].
Qed.

Lemma gathers_text part h : gathers [PText part] h (harvest_text part h).
Proof using Type.
  destruct (append_clean_spec (hv_text h) part) as (d & E & D). split_and!; [by repeat constructor|cbn; by rewrite app_nil_r|].
  exists d. cbn. rewrite app_nil_r. done.
Qed.

Lemma gathers_block append b h :
  (forall clean part, exists d, append clean part = clean ++ d /\ drops part d) ->
  exists p, piece_raw p = b /\ gathers [p] h (harvest_block xml_parser json_parser append b h) /\
    (parse_tool_block xml_parser json_parser (hv_attempts h) b <> None -> exists calls, p = PBlock b calls).
Proof using Type.
  intros Ha. unfold harvest_block. destruct (parse_tool_block _ _ _ b) as [calls|] eqn:E.
  - exists (PBlock b calls). split; [done|]. split; [|eauto]. split_and!.
    + repeat constructor; [by eapply parse_tool_block_some|eauto].
    + cbn. by rewrite app_nil_r.
    + exists []. cbn. by rewrite app_nil_r.
  - exists (PText b). split; [done|]. split; [|done]. destruct (Ha (hv_text h) b) as (d & Ed & D). split_and!; [by repeat constructor|cbn; by rewrite app_nil_r|].
    exists d. cbn. by rewrite app_nil_r.
Qed.

Definition rest_of (r : Remaining) : str := match r with Within _ b => b | Held p => p end.

(** The block of a call, after a text without brackets, which the parsers
    understand whenever they are asked. *)
Record written (pre body : str) : Prop := {
  wr_pre : plain_text pre;
  wr_body : closes_once body;
  wr_parsed : forall n, parse_tool_block xml_parser json_parser n (tool_block body) <> None
}.

(** The pieces have it. *)
Definition found (pre body : str) (ps : list StreamPiece) : Prop :=
  exists ps1 calls ps2, ps = ps1 ++ PBlock (tool_block body) calls :: ps2 /\ (ps1 ≫= piece_raw) = pre.

(** The scan takes a text apart, and its fuel is enough. *)
Lemma scan_spec fuel slice h h' r :
  (length slice < fuel)%nat -> scan_text xml_parser json_parser fuel slice h = (h', r) ->
  exists ps, slice = (ps ≫= piece_raw) ++ rest_of r /\ gathers ps h h' /\
    (forall pre body post, written pre body -> slice = pre ++ tool_block body ++ post -> found pre body ps).
Proof using Type.
  revert slice h. induction fuel as [|fuel IH]; intros slice h Hf; [lia|]. cbn [scan_text].
  destruct slice as [|b0 slice0] eqn:Es; [|rewrite <- Es in *; clear b0 slice0 Es].
  { intros [= <- <-]. exists []. split; [done|]. split; [apply gathers_nil|]. intros pre body post _ H. symmetry in H. apply app_eq_nil in H as [_ H].
    unfold tool_block in H. by apply app_eq_nil in H as [H _]. }
  pose proof (earliest_within slice) as Ht. destruct (find_earliest_tool_tag slice) as [[[os oe] close]|] eqn:Hft.
  - cbn in Ht. set (h1 := if (0 <? os)%nat then _ else h).
    assert (exists ps, (ps ≫= piece_raw) = take os slice /\ gathers ps h h1) as (ps1 & R1 & G1).
    { unfold h1. destruct os; cbn; [exists []; split; [done|apply gathers_nil]|]. exists [PText (take (S os) slice)].
      split; [cbn; by rewrite app_nil_r|apply gathers_text]. }
    assert (forall e, (oe <= e <= length slice)%nat ->
      scan_text xml_parser json_parser fuel (drop e slice)
        (harvest_block xml_parser json_parser append_clean_text (take (e - os) (drop os slice)) h1) = (h', r) ->
      (forall pre body post, written pre body -> slice = pre ++ tool_block body ++ post -> os = length pre /\ e = (os + length (tool_block body))%nat) ->
      exists ps, slice = (ps ≫= piece_raw) ++ rest_of r /\ gathers ps h h' /\
        (forall pre body post, written pre body -> slice = pre ++ tool_block body ++ post -> found pre body ps)) as Hgo.
    { intros e He Hs Hw. apply IH in Hs as (ps2 & R2 & G2 & _); [|rewrite length_drop; lia].
      destruct (gathers_block append_clean_text (take (e - os) (drop os slice)) h1 append_clean_spec) as (p & Rp & Gp & Hp).
      exists (ps1 ++ [p] ++ ps2). split; [|split; [by eapply gathers_app, gathers_app|]].
      2: { intros pre body post W E. destruct (Hw pre body post W E) as [-> ->]. rewrite E in Hp, R1.
           rewrite drop_app_length, Nat.add_sub_swap, Nat.sub_diag, Nat.add_0_l, take_app_length in Hp by lia.
           destruct Hp as [calls ->]; [apply W|]. exists ps1, calls, ps2. split; [done|]. by rewrite R1, take_app_length. }
      rewrite !bind_app, R1. cbn. rewrite Rp, app_nil_r, <- !app_assoc, <- R2.
      rewrite <- (take_drop os slice) at 1. f_equal. rewrite <- (take_drop (e - os) (drop os slice)) at 1. f_equal.
      rewrite drop_drop. f_equal. lia. }
    assert (forall pre body post, written pre body -> slice = pre ++ tool_block body ++ post ->
      os = length pre /\ oe = (os + length OPEN_TAG)%nat /\ take (oe - os) (drop os slice) = OPEN_TAG /\
      find_close_tag_in_buffer (drop oe slice) close = Some (length body + 12)%nat) as Hblock.
    { intros pre body post W E. unfold tool_block in E. rewrite <- !app_assoc in E. rewrite E, (tag_found pre _ (wr_pre _ _ W)) in Hft.
      injection Hft as Eo Ee Ec. change 11%nat with (length OPEN_TAG) in Ee. rewrite <- Eo, <- Ee, <- Ec, E, drop_app_length.
      replace (length pre + length OPEN_TAG - length pre)%nat with (length OPEN_TAG) by lia.
      rewrite take_app_length, (app_assoc pre OPEN_TAG), <- length_app, drop_app_length. split_and!; [done|by rewrite length_app|done|].
      apply close_whole, W. }
    case_match eqn:Eself.
    + intros Hs. apply (Hgo oe); [lia|done|]. intros pre body post W E. exfalso. destruct (Hblock pre body post W E) as (_ & _ & Ho & _).
      rewrite Ho in Eself. done.
    + destruct (find_close_tag_in_buffer _ _) as [cp|] eqn:Ec.
      * intros Hs. pose proof (close_within _ _ _ Ec) as Hc. rewrite length_drop in Hc. apply (Hgo (oe + cp)%nat); [lia|done|].
        intros pre body post W E. destruct (Hblock pre body post W E) as (-> & -> & _ & [= ->]). split; [done|].
        unfold tool_block. rewrite !length_app. destruct open_lengths as (_ & _ & ->). lia.
      * intros [= <- <-]. exists ps1. split; [cbn; by rewrite R1, take_drop|]. split; [done|]. intros pre body post W E.
        by destruct (Hblock pre body post W E) as (_ & _ & _ & ?).
  - destruct (extract_trailing_partial_tag_prefix slice) as [safe partial] eqn:E. apply trailing_split in E. intros [= <- <-].
    assert (forall pre body post ps, written pre body -> slice = pre ++ tool_block body ++ post -> found pre body ps) as Hno.
    { intros pre body post ps W E'. unfold tool_block in E'. rewrite <- !app_assoc in E'. by rewrite E', (tag_found pre _ (wr_pre _ _ W)) in Hft. }
    destruct safe as [|b0 safe]; [exists []; split; [done|]; split; [apply gathers_nil|]; eauto|].
    exists [PText (b0 :: safe)]. split; [cbn; by rewrite app_nil_r|]. split; [apply gathers_text|]. eauto.
Qed.

(** Where the scan of a text stops before the block is whole. *)
Lemma scan_partial pre k h : plain_text pre -> (k < length OPEN_TAG)%nat -> exists h',
  scan_text xml_parser json_parser (S (length (pre ++ take k OPEN_TAG))) (pre ++ take k OPEN_TAG) h = (h', Held (take k OPEN_TAG)).
Proof using Type.
  intros Hp Hk. cbn [scan_text]. destruct (pre ++ take k OPEN_TAG) as [|b l] eqn:E.
  { apply app_eq_nil in E as [_ ->]. eauto. }
  rewrite <- E, no_tag_yet, tag_held_back; [eauto|done|done|done|..];
    intros H; apply elem_of_take in H as (i & Hi & Hlt); do 11 (destruct i as [|i]; [vm_compute in Hi; first [discriminate Hi|vm_compute in Hk; lia]|]);
    vm_compute in Hi; discriminate Hi.
Qed.

Lemma scan_within pre x body t h : plain_text pre -> closes_once body -> body ++ CLOSE_TAG = x ++ t -> t <> [] -> exists h',
  scan_text xml_parser json_parser (S (length (pre ++ OPEN_TAG ++ x))) (pre ++ OPEN_TAG ++ x) h = (h', Within CLOSE_TAG (OPEN_TAG ++ x)).
Proof using Type.
  intros Hp Hb E Ht. cbn [scan_text]. destruct (pre ++ OPEN_TAG ++ x) as [|b l] eqn:El.
  { apply app_eq_nil in El as [_ El]. by apply app_eq_nil in El as [El _]. }
  rewrite <- El, tag_found by done. cbn zeta. rewrite drop_app_length.
  replace (length pre + length OPEN_TAG - length pre)%nat with (length OPEN_TAG) by lia. rewrite take_app_length.
  replace (is_self_closing OPEN_TAG) with false by done.
  rewrite (app_assoc pre OPEN_TAG), <- length_app, drop_app_length, find_close_block, (close_part body x t) by done. eauto.
Qed.

Lemma scan_ends slice h h' r pre body post more :
  written pre body -> slice ++ more = pre ++ tool_block body ++ post -> scan_text xml_parser json_parser (S (length slice)) slice h = (h', r) ->
  (exists post1, slice = pre ++ tool_block body ++ post1) \/
  (exists k pre1 pre2, pre = pre1 ++ pre2 /\ slice = pre1 ++ take k OPEN_TAG /\ (k < length OPEN_TAG)%nat /\ r = Held (take k OPEN_TAG)) \/
  (exists x, slice = pre ++ OPEN_TAG ++ x /\ r = Within CLOSE_TAG (OPEN_TAG ++ x) /\ (length x < length body + 12)%nat).
Proof using Type.
  intros [[H60 H91] Hb _] E Hs. apply app_eq_inv in E as [(k & -> & E)|(k & -> & _)].
  2: { right. left. exists 0%nat, slice, k. rewrite not_elem_of_app in H60, H91.
       destruct (scan_partial slice 0 h) as [h1 H1]; [split; [apply H60|apply H91]|vm_compute; lia|]. cbn [take] in H1. rewrite app_nil_r in H1. rewrite H1 in Hs.
       injection Hs as <- <-. split_and!; [done|by rewrite app_nil_r|vm_compute; lia|done]. }
  unfold tool_block in E. rewrite <- !app_assoc in E. apply app_eq_inv in E as [(k' & E1 & _)|(x & -> & E)].
  - destruct k' as [|c k'].
    + rewrite app_nil_r in E1. subst k. right. right. exists []. rewrite app_nil_r.
      destruct (scan_within pre [] body (body ++ CLOSE_TAG) h) as [h1 H1]; [by split|done|done|by intros [_ ?]%app_eq_nil|].
      rewrite app_nil_r in H1. rewrite H1 in Hs. injection Hs as <- <-. split_and!; [done|done|cbn; lia].
    + right. left. exists (length k), pre, []. assert (take (length k) OPEN_TAG = k) as Ek by (rewrite E1; apply take_app_length).
      assert (length k < length OPEN_TAG)%nat as Hl by (rewrite E1, length_app; cbn; lia).
      destruct (scan_partial pre (length k) h) as [h1 H1]; [by split|done|]. rewrite Ek in H1. rewrite H1 in Hs. injection Hs as <- <-.
      rewrite Ek, app_nil_r. by split_and!.
  - rewrite app_assoc in E. apply app_eq_inv in E as [(t & E & _)|(post1 & -> & _)].
    2: { left. exists post1. unfold tool_block. by rewrite <- !app_assoc. }
    destruct t as [|c t].
    + rewrite app_nil_r in E. subst x. left. exists []. unfold tool_block. by rewrite app_nil_r.
    + right. right. exists x. destruct (scan_within pre x body (c :: t) h) as [h1 H1]; [by split|done|done|done|].
      rewrite H1 in Hs. injection Hs as <- <-. split_and!; [done|done|].
      apply (f_equal length) in E. rewrite !length_app in E. destruct open_lengths as (_ & _ & L). rewrite L in E. cbn in E. lia.
Qed.

(** ** One delta *)

Definition held_text (s : InlineToolStreamExtractor) : str := ie_partial_tag_buffer s ++ ie_tool_buffer s.

Definition extractor_inv (s : InlineToolStreamExtractor) : Prop :=
  if ie_inside_tool_call s then ie_partial_tag_buffer s = [] else ie_tool_buffer s = [].

(** Before the block is whole: its opening tag is not, or it is being gathered. *)
Definition phase (pre body : str) (s : InlineToolStreamExtractor) : Prop :=
  if ie_inside_tool_call s
  then pre = [] /\ ie_expected_close_tag s = Some CLOSE_TAG /\
       exists x, ie_tool_buffer s = OPEN_TAG ++ x /\ (length x < length body + 12)%nat
  else (length (ie_partial_tag_buffer s) < length OPEN_TAG)%nat.

Definition progress (content : str) (s s' : InlineToolStreamExtractor) (ps : list StreamPiece) : Prop :=
  forall pre body post more, written pre body -> phase pre body s ->
  Z.of_nat (length (tool_block body) + length content) <= MAX_TOOL_BUFFER_BYTES ->
  held_text s ++ content ++ more = pre ++ tool_block body ++ post ->
  found pre body ps \/ exists pre2, pre = (ps ≫= piece_raw) ++ pre2 /\ phase pre2 body s'.

Lemma written_rest pre1 pre2 body : written (pre1 ++ pre2) body -> written pre2 body.
Proof using Type.
  intros [[H1 H2] ? ?]. rewrite not_elem_of_app in H1, H2. split; [split; tauto|done..].
Qed.

(** The end of [take_content], after some pieces [ps0]. *)
Definition finish_delta (index : Z) (close0 : option str) (h : Harvest) (text : str) : (option Harvest * nat) * InlineToolStreamExtractor :=
  let '(h, r) := scan_text xml_parser json_parser (S (length text)) text h in
  match r with
  | Within close buf => ((Some h, hv_attempts h), mkExtractor true (Some close) ([] ++ buf) [] (hv_emitted h) index)
  | Held p => ((Some h, hv_attempts h), mkExtractor false close0 [] p (hv_emitted h) index)
  end.

Lemma finish_content_spec index close0 h text o n' s' ps0 h0 :
  gathers ps0 h0 h -> finish_delta index close0 h text = (o, n', s') ->
  extractor_inv s' /\ ie_tool_call_index s' = index /\
  exists h1 ps, o = Some h1 /\ gathers (ps0 ++ ps) h0 h1 /\ text = (ps ≫= piece_raw) ++ held_text s' /\
    forall pre body post more, written pre body -> text ++ more = pre ++ tool_block body ++ post ->
      found pre body ps \/ exists pre2, pre = (ps ≫= piece_raw) ++ pre2 /\ phase pre2 body s'.
Proof using Type.
  intros G0 E. unfold finish_delta in E. destruct (scan_text _ _ _ text h) as [h1 r] eqn:Es.
  pose proof Es as Es'. apply scan_spec in Es as (ps & R & G & F); [|lia].
  assert (exists s1, s1 = s' /\ o = Some h1 /\ extractor_inv s1 /\ ie_tool_call_index s1 = index /\ held_text s1 = rest_of r) as (s1 & <- & -> & I & X & Hh).
  { destruct r as [c b|p]; injection E as <- <- <-; eexists; (split; [reflexivity|]); unfold held_text; cbn; by rewrite ?app_nil_r. }
  split; [done|]. split; [done|]. exists h1, ps. rewrite Hh. split_and!; [done|by eapply gathers_app|done|].
  intros pre body post more W Em. destruct (scan_ends text h h1 r pre body post more W Em Es') as
    [(post1 & Ep)|[(k & pre1 & pre2 & Epre & Et & Hk & ->)|(x & Et & -> & Hx)]].
  - left. by eapply F.
  - right. cbn in R. exists pre2. injection E as <- <-. split.
    + rewrite Epre. f_equal. rewrite Et in R. by apply app_inv_tail in R.
    + unfold phase. cbn [ie_inside_tool_call ie_partial_tag_buffer]. rewrite length_take. lia.
  - right. cbn in R. exists []. injection E as <- <-. rewrite app_nil_r. split.
    + rewrite Et in R. by apply app_inv_tail in R.
    + unfold phase. cbn. split_and!; [done|done|]. by exists x.
Qed.

Lemma take_content_spec content n s o n' s' :
  extractor_inv s -> take_content xml_parser json_parser content n s = (o, n', s') ->
  extractor_inv s' /\ ie_tool_call_index s' = ie_tool_call_index s /\
  exists ps, held_text s ++ content = (ps ≫= piece_raw) ++ held_text s' /\ progress content s s' ps /\
    match o with
    | Some h => exists h0, hv_text h0 = [] /\ hv_calls h0 = [] /\ gathers ps h0 h
    | None => ps = []
    end.
Proof using Type.
  destruct s as [inside close buffer partial emitted index]. unfold extractor_inv at 1, progress, held_text at 1 3, phase at 1, take_content.
  cbn [ie_inside_tool_call ie_partial_tag_buffer ie_tool_buffer ie_tool_call_index ie_expected_close_tag]. intros Hinv.
  set (h0 := mkHarvest [] [] emitted n). destruct inside; subst; cbn [app].
  - destruct (_ <? _) eqn:Ebig.
    + intros E. change (finish_delta index None (mkHarvest (buffer ++ content) [] emitted n) [] = (o, n', s')) in E.
      apply (finish_content_spec _ _ _ _ _ _ _ [PText (buffer ++ content)] h0) in E as (I & X & h1 & ps & -> & G & R & F).
      2: { split_and!; [by repeat constructor|done|]. exists (buffer ++ content). cbn. by rewrite app_nil_r. }
      split; [done|]. split; [done|]. exists ([PText (buffer ++ content)] ++ ps). split; [cbn; by rewrite <- app_assoc, <- R, app_nil_r|].
      split; [|by exists h0]. intros pre body post more W (-> & _ & x & -> & Hx) Hsz _. exfalso. apply Z.ltb_lt in Ebig.
      unfold tool_block in Hsz. rewrite !length_app in *. destruct open_lengths as (_ & _ & L). lia.
    + destruct (find_close_tag_in_buffer _ _) as [cp|] eqn:Ec.
      * destruct (gathers_block app (take cp (buffer ++ content)) h0) as (p & Rp & Gp & Hp).
        { intros clean part. by exists part. }
        intros E. change (finish_delta index None (harvest_block xml_parser json_parser app (take cp (buffer ++ content)) h0) (drop cp (buffer ++ content)) = (o, n', s')) in E.
        apply (finish_content_spec _ _ _ _ _ _ _ [p] h0 Gp) in E as (I & X & h1 & ps & -> & G & R & F).
        split; [done|]. split; [done|]. exists ([p] ++ ps). split; [cbn; by rewrite Rp, <- app_assoc, <- R, take_drop|].
        split; [|by exists h0]. intros pre body post more W (-> & -> & x & -> & Hx) _ Em. left. cbn [default from_option id] in Ec.
        unfold tool_block in Em. rewrite <- !app_assoc in Em. rewrite <- app_assoc in Ec. rewrite app_nil_l in Em. apply app_inv_head in Em. rewrite app_assoc in Em.
        destruct (block_in_buffer body (x ++ content) more post (wr_body _ _ W) Em) as [(z & Ez & Ef)|[_ Ef]]; rewrite Ef in Ec; [|done].
        assert (cp = length (tool_block body)) as -> by congruence. rewrite <- app_assoc, Ez in Hp. replace (OPEN_TAG ++ body ++ CLOSE_TAG ++ z) with (tool_block body ++ z) in Hp
          by (unfold tool_block; by rewrite <- !app_assoc).
        rewrite take_app_length in Hp. destruct Hp as [calls ->]; [apply W|]. by exists [], calls, ps.
      * intros [= <- <- <-]. split; [done|]. split; [done|]. exists []. split; [done|]. split; [|done].
        intros pre body post more W (-> & -> & x & -> & Hx) _ Em. right. exists []. split; [done|]. cbn [default from_option id] in Ec.
        unfold tool_block in Em. rewrite <- !app_assoc in Em. rewrite <- app_assoc in Ec. rewrite app_nil_l in Em. apply app_inv_head in Em. rewrite app_assoc in Em.
        destruct (block_in_buffer body (x ++ content) more post (wr_body _ _ W) Em) as [(z & _ & Ef)|[Hl _]]; [by rewrite Ef in Ec|].
        unfold phase. cbn [ie_inside_tool_call ie_expected_close_tag ie_tool_buffer]. split; [done|]. split; [done|].
        exists (x ++ content). split; [by rewrite app_assoc|done].
  - intros E. change (finish_delta index close h0 (partial ++ content) = (o, n', s')) in E.
    apply (finish_content_spec _ _ _ _ _ _ _ [] h0 (gathers_nil _)) in E as (I & X & h1 & ps & -> & G & R & F).
    split; [done|]. split; [done|]. exists ps. rewrite app_nil_r. split; [done|]. split; [|by exists h0].
    intros pre body post more W _ _ Em. eapply F; [done|]. by rewrite <- app_assoc.
Qed.

(** ** Reading what was written *)

Lemma json_get_put k x v y k0 : json_get k0 v = Some y -> json_get k (put k x v) = Some x.
Proof using Type. destruct v; try done. intros _. apply json_get_insert. Qed.

Lemma json_get_put_ne k k0 x v : k <> k0 -> json_get k0 (put k x v) = json_get k0 v.
Proof using Type. intros H. destruct v; try done. by apply json_get_insert_ne. Qed.

Lemma json_get_remove_ne k k0 m : k <> k0 -> assoc_get k0 (json_remove k m) = assoc_get k0 m.
Proof using Type.
  intros H. induction m as [|[k1 v1] m IH]; [done|]. unfold json_remove in *. destruct (decide (k1 = k)) as [->|Hk].
  - rewrite filter_cons_False by (cbn; tauto). rewrite IH. cbn. destruct (String.eqb_spec k k0); [done|]. done.
  - rewrite filter_cons_True by done. cbn. by rewrite IH.
Qed.

Lemma json_get_remove k m : assoc_get k (json_remove k m) = None.
Proof using Type.
  induction m as [|[k1 v1] m IH]; [done|]. unfold json_remove in *. destruct (decide (k1 = k)) as [->|Hk].
  - by rewrite filter_cons_False by (cbn; tauto).
  - rewrite filter_cons_True by done. cbn. by destruct (String.eqb_spec k1 k).
Qed.

Lemma first_choice_with f v c : first_choice_of v = Some c -> first_choice_of (with_choice f v) = Some (f c).
Proof using Type.
  unfold first_choice_of, with_choice. destruct (json_get "choices" v) as [x|] eqn:E; [|done]. destruct x as [| | | | |l|]; try done.
  destruct l as [|c0 l]; [done|]. cbn. intros [= ->]. by rewrite (json_get_put _ _ _ _ _ E).
Qed.

Lemma delta_with f v c d : first_choice_of v = Some c -> json_get "delta" (f c) = Some d -> delta_of (with_choice f v) = Some d.
Proof using Type. intros Hc Hd. unfold delta_of. by rewrite (first_choice_with f v c Hc). Qed.

Lemma delta_with_delta g c d : json_get "delta" c = Some d -> json_get "delta" (with_delta g c) = Some (g d).
Proof using Type. intros E. unfold with_delta. rewrite E. by apply (json_get_put _ _ _ d "delta"). Qed.

Lemma delta_finish c : json_get "delta" (finish_if_present c) = json_get "delta" c.
Proof using Type. unfold finish_if_present. case_match; [|done]. by apply json_get_put_ne. Qed.

(** ** One chunk *)

Variable from_str : str -> option Json.
Variable to_string : Json -> option str.

(** What is printed is read back.  Values serde_json does not have (keys out of
    order or twice, text that is not UTF-8) are the model's alone: how they are
    printed is free. *)
Definition json_reads_back : Prop := forall v, exists s, to_string v = Some s /\ from_str s = Some v.

Definition stops (v : Json) : bool :=
  match (first_choice_of v ≫= json_get "finish_reason") ≫= as_str with
  | Some fr => bool_decide (fr ∈ ["stop"; "end_turn"]%string)
  | None => false
  end.

(** A chunk without calls of its own, whose finish chunk has no content, and in
    whose text the finish reason can be replaced without touching the rest. *)
Definition inline_chunk_ok (p : str) : Prop :=
  (exists v, from_str p = Some v /\ calls_in v = [] /\ (stops v = true -> content_of v = None)) /\
  (forall res, replace_finish FINISH_TARGETS p = Some res ->
     read_text from_str res = read_text from_str p /\ read_calls from_str res = read_calls from_str p).

Lemma mutated_read v : json_reads_back -> exists m, mutated to_string v = Mutate m /\
  read_text from_str m = default [] (bytes_of <$> content_of v) /\ read_calls from_str m = calls_in v.
Proof using Type.
  intros H. destruct (H v) as (m & E1 & E2). exists m. unfold mutated, read_text, read_calls. by rewrite E1, E2.
Qed.

(** What the client reads of a chunk whose delta was replaced. *)
Lemma content_put v c d t : first_choice_of v = Some c -> json_get "delta" c = Some d -> json_get "content" d <> None -> byte_list t ->
  let v' := with_choice (with_delta (put "content" (jstr t))) v in
  bytes_of <$> content_of v' = Some t /\ calls_in v' = calls_in v.
Proof using Type.
  intros Hc Hd Hx Ht. cbn zeta. destruct (json_get "content" d) as [x|] eqn:E; [|done].
  pose proof (delta_with (with_delta (put "content" (jstr t))) v c _ Hc (delta_with_delta _ _ _ Hd)) as Hn.
  unfold content_of, calls_in. rewrite Hn. unfold delta_of. rewrite Hc. cbn [mbind option_bind]. rewrite Hd. cbn [mbind option_bind].
  rewrite (json_get_put _ _ _ _ _ E), json_get_put_ne by done. split; [|done]. cbn -[bytes_of of_bytes]. by rewrite bytes_of_of_bytes.
Qed.

Lemma content_calls v c d t calls : first_choice_of v = Some c -> json_get "delta" c = Some d -> json_get "content" d <> None -> byte_list t ->
  let v' := with_choice (fun c => finish_if_present (with_delta (calls_delta t calls) c)) v in
  default [] (bytes_of <$> content_of v') = trim_bytes t /\ calls_in v' = calls.
Proof using Type.
  intros Hc Hd Hx Ht. cbn zeta. destruct d as [| | | | | |m]; try done.
  pose proof (delta_with (fun c => finish_if_present (with_delta (calls_delta t calls) c)) v c _ Hc
    (eq_trans (delta_finish _) (delta_with_delta _ _ _ Hd))) as Hn.
  unfold content_of, calls_in. rewrite Hn. cbn [mbind option_bind calls_delta json_get].
  rewrite json_get_insert, json_get_insert_ne by done. split; [|done].
  destruct (trim_bytes t) as [|b t0] eqn:E; [by rewrite json_get_remove|]. rewrite json_get_insert. cbn -[bytes_of of_bytes].
  rewrite bytes_of_of_bytes; [done|]. rewrite <- E. eapply drops_bytes; [apply drops_trim|done].
Qed.

(** The brackets of the text are in the chunk as they are, not escaped. *)
Definition brackets_visible (p : str) : Prop := 60 ∈ read_text from_str p -> 60 ∈ p.

Lemma progress_still s : progress [] s s [].
Proof using Type. intros pre body post more _ Hph _ _. right. by exists pre. Qed.

Lemma progress_plain t s : 60 ∉ t -> held_text s = [] -> ie_inside_tool_call s = false -> progress t s s [PText t].
Proof using Type.
  intros Ht Hh Hin pre body post more W Hph _ E. right. rewrite Hh, app_nil_l in E. cbn. rewrite app_nil_r.
  assert (forall pre', phase pre body s -> phase pre' body s) as Hany by (intros pre'; unfold phase; by rewrite Hin).
  apply app_eq_inv in E as [(k & -> & E)|(k & -> & _)]; [|exists k; auto].
  destruct k as [|b k]; [exists []; rewrite !app_nil_r; auto|]. exfalso. apply Ht, elem_of_app. right.
  destruct (open_tag_at (body ++ CLOSE_TAG ++ post)) as (_ & _ & A & _). unfold tool_block in E. rewrite <- !app_assoc in E.
  rewrite E in A. injection A as ->. by left.
Qed.

(** What a chunk does: its text joins what is held_text back, is taken apart, and the
    client reads the text and the calls of the pieces. *)
Definition chunk_effect (p : str) (a : StreamAction) (s s' : InlineToolStreamExtractor) (ps : list StreamPiece) : Prop :=
  Forall piece_ok ps /\ held_text s ++ read_text from_str p = (ps ≫= piece_raw) ++ held_text s' /\
  drops (ps ≫= text_of_piece) (default [] (read_text from_str <$> passed_on p a)) /\
  default [] (read_calls from_str <$> passed_on p a) = (build_tool_calls_value (ie_tool_call_index s) (ps ≫= piece_calls)).1 /\
  ie_tool_call_index s' = (build_tool_calls_value (ie_tool_call_index s) (ps ≫= piece_calls)).2 /\
  (brackets_visible p -> progress (read_text from_str p) s s' ps).

Definition extractor_ok (s : InlineToolStreamExtractor) : Prop :=
  extractor_inv s /\ byte_list (held_text s) /\ 0 <= ie_tool_call_index s <= u32_max.

Lemma no_calls_index s : 0 <= ie_tool_call_index s <= u32_max -> build_tool_calls_value (ie_tool_call_index s) [] = ([], ie_tool_call_index s).
Proof using Type. intros H. unfold build_tool_calls_value, wrap_add, u32_max in *. cbn. f_equal. rewrite Z.mod_small; lia. Qed.

Lemma effect_whole p a s : 60 ∉ p -> extractor_ok s -> held_text s = [] -> ie_inside_tool_call s = false ->
  (exists m, passed_on p a = Some m /\ read_text from_str m = read_text from_str p /\ read_calls from_str m = []) ->
  chunk_effect p a s s [PText (read_text from_str p)].
Proof using Type.
  intros Hp (_ & _ & Hi) Hh Hin (m & Em & Et & Ec). unfold chunk_effect. rewrite Hh, Em. cbn [mbind list_bind piece_raw text_of_piece piece_calls].
  rewrite no_calls_index by done. cbn. rewrite !app_nil_r, Et, Ec. split_and!; try done; [by repeat constructor|].
  intros Hv. apply progress_plain; [|done|done]. intros Hin'. by apply Hp, Hv.
Qed.

Lemma effect_none p a s s' : progress (read_text from_str p) s s' [] -> extractor_ok s -> held_text s ++ read_text from_str p = held_text s' -> ie_tool_call_index s' = ie_tool_call_index s ->
  default [] (read_text from_str <$> passed_on p a) = [] -> default [] (read_calls from_str <$> passed_on p a) = [] ->
  chunk_effect p a s s' [].
Proof using Type.
  intros Hpr (_ & _ & Hi) Hh Hx Et Ec. unfold chunk_effect. cbn [mbind list_bind]. rewrite no_calls_index, Et, Ec by done. by split_and!.
Qed.

Lemma effect_silent p s : extractor_ok s -> read_text from_str p = [] -> read_calls from_str p = [] -> chunk_effect p Passthrough s s [].
Proof using Type. intros Hs Et Ec. apply effect_none; cbn; rewrite ?Et, ?app_nil_r; try done. apply progress_still. Qed.

Lemma read_text_none p v : from_str p = Some v -> content_of v = None -> read_text from_str p = [].
Proof using Type. intros Ep Ev. unfold read_text. rewrite Ep. cbn. by rewrite Ev. Qed.

Notation process := (inline_process_chunk xml_parser json_parser from_str to_string).

(** The finish reason of a chunk changes nothing the client reads of its delta. *)
Lemma finish_read v x : first_choice_of v = Some x ->
  content_of (with_choice (put "finish_reason" (JStr "tool_calls")) v) = content_of v /\
  calls_in (with_choice (put "finish_reason" (JStr "tool_calls")) v) = calls_in v.
Proof using Type.
  intros Hc. unfold content_of, calls_in, delta_of. rewrite (first_choice_with _ _ _ Hc), Hc. cbn [mbind option_bind].
  by rewrite json_get_put_ne.
Qed.

Lemma build_index_range index calls : 0 <= (build_tool_calls_value index calls).2 <= u32_max.
Proof using Type. cbn. unfold wrap_add, u32_max. pose proof (Z.mod_pos_bound (index + Z.of_nat (length calls)) (4294967295 + 1)). lia. Qed.

Lemma held_bytes s p ps s' : byte_list (held_text s) -> held_text s ++ read_text from_str p = (ps ≫= piece_raw) ++ held_text s' ->
  byte_list (held_text s') /\ byte_list (ps ≫= piece_raw).
Proof using Type.
  intros Hs E. assert (byte_list (held_text s ++ read_text from_str p)) as H.
  { apply Forall_app. split; [done|]. unfold read_text. destruct (from_str p ≫= content_of) as [c|]; cbn; [apply bytes_of_ok|constructor]. }
  rewrite E in H. unfold byte_list in *. rewrite Forall_app in H. tauto.
Qed.

Lemma piece_text_bytes ps : byte_list (ps ≫= piece_raw) -> byte_list (ps ≫= text_of_piece).
Proof using Type.
  unfold byte_list. induction ps as [|q ps IH]; cbn; [done|]. rewrite !Forall_app. intros [H1 H2]. split; [|auto]. by destruct q.
Qed.

(** The content of a chunk, once it has been taken apart. *)
Lemma content_effect p v c d content n s o n' s' :
  from_str p = Some v -> first_choice_of v = Some c -> json_get "delta" c = Some d ->
  json_get "content" d ≫= as_str = Some content -> extractor_ok s ->
  take_content xml_parser json_parser (bytes_of content) n s = (o, n', s') ->
  exists ps, extractor_ok s' /\ ie_tool_call_index s' = ie_tool_call_index s /\ Forall piece_ok ps /\
    held_text s ++ read_text from_str p = (ps ≫= piece_raw) ++ held_text s' /\ read_text from_str p = bytes_of content /\
    progress (read_text from_str p) s s' ps /\
    match o with
    | Some h => drops (ps ≫= text_of_piece) (hv_text h) /\ hv_calls h = (ps ≫= piece_calls) /\ byte_list (hv_text h)
    | None => ps = []
    end.
Proof using Type.
  intros Ep Hc Hd Hx (Hi & Hb & Hk) Ht. apply take_content_spec in Ht as (I & X & ps & R & P & G); [|done].
  assert (read_text from_str p = bytes_of content) as Er.
  { unfold read_text, content_of, delta_of. rewrite Ep. cbn [mbind option_bind]. rewrite Hc. cbn [mbind option_bind]. rewrite Hd. cbn [mbind option_bind].
    by rewrite Hx. }
  rewrite <- Er in R, P. destruct (held_bytes s p ps s' Hb R) as [B1 B2].
  exists ps. split; [split_and!; [done|done|lia..]|]. split; [done|]. destruct o as [h|].
  - destruct G as (h0 & T0 & C0 & O & C & t & T & D). rewrite T0 in T. rewrite C0 in C. cbn in C, T. rewrite T. split_and!; try done.
    eapply drops_bytes; [done|]. by apply piece_text_bytes.
  - subst ps. by split_and!.
Qed.

(** No calls: the client reads [t] for the text of the pieces. *)
Lemma effect_text p a s s' ps t :
  progress (read_text from_str p) s s' ps -> extractor_ok s -> ie_tool_call_index s' = ie_tool_call_index s -> Forall piece_ok ps ->
  held_text s ++ read_text from_str p = (ps ≫= piece_raw) ++ held_text s' -> (ps ≫= piece_calls) = [] -> drops (ps ≫= text_of_piece) t ->
  default [] (read_text from_str <$> passed_on p a) = t -> default [] (read_calls from_str <$> passed_on p a) = [] ->
  chunk_effect p a s s' ps.
Proof using Type.
  intros P (_ & _ & Hi) Hx O R C D Et Ec. unfold chunk_effect. rewrite C, no_calls_index, Et, Ec by done. by split_and!.
Qed.

Lemma chunk_spec p n s a n' s' :
  json_reads_back -> inline_chunk_ok p -> extractor_ok s -> process p n s = (a, n', s') -> extractor_ok s' /\ exists ps, chunk_effect p a s s' ps.
Proof using Type.
  intros Hj Hp Hs E. pose proof Hp as [(v & Ep & Hn & Hstop) Hrep]. pose proof Hs as (Hi & Hb & Hk).
  assert (read_calls from_str p = []) as Hcalls by (unfold read_calls; by rewrite Ep).
  unfold inline_process_chunk in E. destruct (negb _ && _ && _ && _ && _) eqn:Efast.
  { (* nothing held_text back, and no tag in sight *)
    rewrite !andb_true_iff in Efast. destruct Efast as ((((E0 & E1) & E2) & E3) & _). apply bool_decide_eq_true in E1, E2.
    apply negb_true_iff in E0, E3. apply bool_decide_eq_false in E3.
    injection E as <- <- <-. split; [done|]. exists [PText (read_text from_str p)]. apply effect_whole; [done|done|unfold held_text; by rewrite E1, E2|done|].
    destruct (if ie_emitted_tool_call s then _ else _) as [res|] eqn:Er; [|by exists p].
    exists res. destruct (ie_emitted_tool_call s); [|done]. destruct (Hrep res Er) as [-> ->]. done. }
  rewrite Ep in E. fold (stops v) in E. destruct (first_choice_of v) as [c|] eqn:Hc.
  2: { assert (stops v = false) as Hst by (unfold stops; by rewrite Hc). rewrite Hst in E. cbn in E. injection E as <- <- <-. split; [done|].
       exists []. apply effect_silent; [done| |done]. apply (read_text_none _ _ Ep). unfold content_of, delta_of. by rewrite Hc. }
  destruct (if stops v && _ && _ then _ else _) as [m|] eqn:Est.
  { destruct (stops v) eqn:Hst; [|done]. destruct (_ && _) in Est; [|done]. injection E as <- <- <-. split; [done|]. exists [].
    destruct (Hj (with_choice (put "finish_reason" (JStr "tool_calls")) v)) as (m' & M1 & M2). rewrite M1 in Est. injection Est as ->.
    destruct (finish_read v c Hc) as [F1 F2]. specialize (Hstop eq_refl).
    apply effect_none; [rewrite (read_text_none _ _ Ep) by done; apply progress_still|done|by rewrite (read_text_none _ _ Ep), app_nil_r|done|..]; cbn [passed_on fmap option_fmap option_map default from_option].
    - by rewrite (read_text_none _ _ M2) by (by rewrite F1).
    - unfold read_calls. rewrite M2. cbn. by rewrite F2. }
  cbn [mbind option_bind] in E. destruct (json_get "delta" c) as [d|] eqn:Hd; cbn [mbind option_bind] in E.
  2: { injection E as <- <- <-. split; [done|]. exists []. apply effect_silent; [done| |done]. apply (read_text_none _ _ Ep).
       unfold content_of, delta_of. rewrite Hc. cbn. by rewrite Hd. }
  destruct (json_get "content" d ≫= as_str) as [content|] eqn:Hx.
  2: { injection E as <- <- <-. split; [done|]. exists []. apply effect_silent; [done| |done]. apply (read_text_none _ _ Ep).
       unfold content_of, delta_of. rewrite Hc. cbn. rewrite Hd. cbn. by rewrite Hx. }
  assert (stops v = false) as Hst.
  { destruct (stops v) eqn:Hst; [|done]. specialize (Hstop eq_refl). unfold content_of, delta_of in Hstop. rewrite Hc in Hstop. cbn in Hstop.
    rewrite Hd in Hstop. cbn in Hstop. by rewrite Hx in Hstop. }
  rewrite Hst in E. cbn [andb] in E. destruct (take_content _ _ _ n s) as [[o n1] s1] eqn:Et.
  destruct (content_effect p v c d content n s o n1 s1 Ep Hc Hd Hx Hs Et) as (ps & S1 & X & O & R & Er & P & G).
  destruct o as [h|].
  2: { injection E as <- <- <-. subst ps. split; [done|]. exists []. apply effect_none; [done|done|by rewrite R|done..]. }
  destruct G as (D & C & B).
  assert (json_get "content" d <> None) as Hx' by (intros Hx'; by rewrite Hx' in Hx).
  assert (forall t, byte_list t -> exists m, mutated to_string (with_choice (with_delta (put "content" (jstr t))) v) = Mutate m /\
    read_text from_str m = t /\ read_calls from_str m = []) as Hput.
  { intros t Bt. destruct (content_put v c d t Hc Hd Hx' Bt) as [P1 P2].
    destruct (mutated_read (with_choice (with_delta (put "content" (jstr t))) v) Hj) as (m & M1 & M2 & M3). exists m.
    rewrite M2, M3, P1, P2, Hn. done. }
  destruct (hv_calls h) as [|c0 calls] eqn:Eh.
  - destruct (ie_inside_tool_call s1 || _); [|destruct (bool_decide (hv_text h = bytes_of content)) eqn:Eb].
    + injection E as <- <- <-. split; [done|]. exists ps. destruct (hv_text h) as [|b0 t] eqn:Eh'; [by apply (effect_text _ _ _ _ _ [])|].
      destruct (Hput (b0 :: t) B) as (m & M1 & M2 & M3). apply (effect_text _ _ _ _ _ (b0 :: t)); rewrite ?M1; done.
    + injection E as <- <- <-. split; [done|]. exists ps. apply bool_decide_eq_true in Eb. apply (effect_text _ _ _ _ _ (hv_text h)); try done.
      cbn. by rewrite Er, Eb.
    + injection E as <- <- <-. split; [done|]. exists ps. destruct (Hput (hv_text h) B) as (m & M1 & M2 & M3).
      apply (effect_text _ _ _ _ _ (hv_text h)); rewrite ?M1; done.
  - destruct (build_tool_calls_value (ie_tool_call_index s1) (c0 :: calls)) as [l index] eqn:Eb. injection E as <- <- <-.
    assert (0 <= index <= u32_max) as Hr by (pose proof (build_index_range (ie_tool_call_index s1) (c0 :: calls)) as H; by rewrite Eb in H).
    split. { destruct S1 as (? & ? & ?). destruct s1. split_and!; [done|done|apply Hr..]. }
    exists ps. destruct (content_calls v c d (hv_text h) l Hc Hd Hx' B) as [P1 P2].
    destruct (mutated_read (with_choice (fun c => finish_if_present (with_delta (calls_delta (hv_text h) l) c)) v) Hj) as (m & M1 & M2 & M3).
    unfold chunk_effect. rewrite M1, <- C, <- X, Eb. cbn [passed_on fmap option_fmap option_map default from_option fst snd].
    rewrite M2, M3, P1, P2. split_and!; [done| |etransitivity; [exact D|apply drops_trim]|done|by destruct s1|].
    + rewrite R. f_equal. by destruct s1.
    + intros _ pre body post more W Hph Hsz Em. destruct (P pre body post more W Hph Hsz Em) as [Hf|(pre2 & Hp2 & Hph2)]; [by left|].
      right. exists pre2. split; [done|]. by destruct s1.
Qed.

(** ** A whole stream *)

Lemma build_app index l k :
  (build_tool_calls_value index (l ++ k)).1
    = (build_tool_calls_value index l).1 ++ (build_tool_calls_value (build_tool_calls_value index l).2 k).1 /\
  (build_tool_calls_value index (l ++ k)).2 = (build_tool_calls_value (build_tool_calls_value index l).2 k).2.
Proof using Type.
  unfold build_tool_calls_value, wrap_add. cbn [fst snd]. rewrite imap_app, length_app, Nat2Z.inj_add, Z.add_assoc. split; [|by rewrite Z.add_mod_idemp_l].
  f_equal. apply imap_ext. intros i c _. cbn. f_equal. by rewrite Nat2Z.inj_add, Z.add_assoc, Z.add_mod_idemp_l.
Qed.

Lemma finalize_spec n s o s' : json_reads_back -> extractor_ok s -> finalize xml_parser json_parser to_string n s = (o, s') ->
  exists ps, Forall piece_ok ps /\ held_text s = (ps ≫= piece_raw) /\ drops (ps ≫= text_of_piece) (option_list o ≫= read_text from_str) /\
    option_list o ≫= read_calls from_str = (build_tool_calls_value (ie_tool_call_index s) (ps ≫= piece_calls)).1.
Proof using Type.
  intros Hj (_ & Hb & Hk) E. destruct s as [i c buffer partial emitted index]. unfold held_text in *. cbn [finalize ie_partial_tag_buffer ie_tool_buffer ie_tool_call_index] in *.
  destruct (trim_bytes (partial ++ buffer)) as [|b t] eqn:Et.
  { injection E as <- <-. exists [PText (partial ++ buffer)]. cbn. rewrite !app_nil_r. split_and!; [by repeat constructor|done| |done].
    pose proof (drops_trim (partial ++ buffer)) as H. by rewrite Et in H. }
  destruct (parse_tool_block _ _ n (partial ++ buffer)) as [calls|] eqn:Ep.
  - destruct (build_tool_calls_value index calls) as [l x] eqn:Eb. injection E as <- <-.
    destruct (Hj (residual_chunk (JObj [("tool_calls", JArr l)]%string) (JStr "tool_calls"))) as (m & -> & M). exists [PBlock (partial ++ buffer) calls]. change (option_list (Some m)) with [m]. cbn [mbind list_bind piece_raw text_of_piece piece_calls].
    rewrite !app_nil_r, Eb. unfold read_text, read_calls. rewrite M. split_and!; [|done|done|done].
    repeat constructor; [by eapply parse_tool_block_some|eauto].
  - injection E as <- <-.
    destruct (Hj (residual_chunk (JObj [("content", jstr (partial ++ buffer))]%string) JNull)) as (m & -> & M). exists [PText (partial ++ buffer)].
    change (option_list (Some m)) with [m]. cbn [mbind list_bind piece_raw text_of_piece piece_calls]. rewrite !app_nil_r. unfold read_text, read_calls. rewrite M.
    split_and!; [by repeat constructor|done| |done]. cbn -[bytes_of of_bytes]. by rewrite bytes_of_of_bytes.
Qed.

Lemma found_left pre body l k : found pre body l -> found pre body (l ++ k).
Proof using Type. intros (ps1 & calls & ps2 & -> & R). exists ps1, calls, (ps2 ++ k). by rewrite <- app_assoc. Qed.

Lemma found_right pre body l k : found pre body k -> found ((l ≫= piece_raw) ++ pre) body (l ++ k).
Proof using Type. intros (ps1 & calls & ps2 & -> & <-). exists (l ++ ps1), calls, ps2. by rewrite bind_app, <- app_assoc. Qed.

(** Before the block is whole it cannot have been read to its end. *)
Lemma phase_short pre body post s : extractor_inv s -> phase pre body s -> held_text s <> pre ++ tool_block body ++ post.
Proof using Type.
  intros Hi Hph E. apply (f_equal length) in E. unfold tool_block in E. destruct open_lengths as (_ & L1 & L2). unfold extractor_inv, phase, held_text in *.
  destruct (ie_inside_tool_call s); rewrite Hi, !length_app in E.
  - destruct Hph as (_ & _ & x & Hx & Hl). rewrite Hx, length_app, L1, L2 in E. cbn in E. lia.
  - rewrite L1 in *. change (length []) with 0%nat in E. lia.
Qed.

Definition fits (body p : str) : Prop :=
  Z.of_nat (length (tool_block body) + length (read_text from_str p)) <= MAX_TOOL_BUFFER_BYTES.

Lemma run_spec ps n s : json_reads_back -> Forall inline_chunk_ok ps -> extractor_ok s ->
  let out := inline_run xml_parser json_parser from_str to_string ps n s in
  exists l, Forall piece_ok l /\ held_text s ++ (ps ≫= read_text from_str) = (l ≫= piece_raw) /\
    drops (l ≫= text_of_piece) (out ≫= read_text from_str) /\
    out ≫= read_calls from_str = (build_tool_calls_value (ie_tool_call_index s) (l ≫= piece_calls)).1 /\
    (forall pre body post, written pre body -> phase pre body s -> Forall brackets_visible ps -> Forall (fits body) ps ->
       held_text s ++ (ps ≫= read_text from_str) = pre ++ tool_block body ++ post -> found pre body l).
Proof using Type.
  intros Hj Hps. revert n s. induction Hps as [|p ps Hp _ IH]; intros n s Hs; cbn zeta; cbn [inline_run].
  - destruct (finalize _ _ _ n s) as [o s'] eqn:E. destruct (finalize_spec n s o s' Hj Hs E) as (l & O & R & D & C).
    exists l. cbn [mbind list_bind]. rewrite app_nil_r. split_and!; try done. intros pre body post _ Hph _ _ Eh. exfalso.
    by eapply phase_short; [apply Hs|..].
  - destruct (process p n s) as [[a n1] s1] eqn:E. destruct (chunk_spec p n s a n1 s1 Hj Hp Hs E) as (S1 & l1 & O1 & R1 & D1 & C1 & X1 & P1).
    destruct (IH n1 s1 S1) as (l2 & O2 & R2 & D2 & C2 & F2). exists (l1 ++ l2). rewrite !bind_app, bind_cons.
    assert (forall {B} (f : str -> list B), option_list (passed_on p a) ≫= f = default [] (f <$> passed_on p a)) as Ho.
    { intros B f. destruct (passed_on p a); cbn; [by rewrite app_nil_r|done]. }
    rewrite !Ho. split_and!.
    + by apply Forall_app.
    + by rewrite app_assoc, R1, <- app_assoc, R2.
    + by apply drops_app.
    + rewrite C1, C2, X1. symmetry. apply build_app.
    + intros pre body post W Hph Hv Hf Eh. apply Forall_cons in Hv as [Hv1 Hv]. apply Forall_cons in Hf as [Hf1 Hf].
      destruct (P1 Hv1 pre body post _ W Hph Hf1 Eh) as [H|(pre2 & -> & Hph2)]; [by apply found_left|].
      apply found_right, (F2 pre2 body post); [by eapply written_rest|done|done|done|].
      rewrite app_assoc, R1, <- !app_assoc in Eh. by apply app_inv_head in Eh.
Qed.
End conservation.


(** ** A decoder and a printer *)

(** Values as trees of strings and numbers, and from there as one number. *)
Fixpoint to_tree (v : Json) : gen_tree (string + Z) :=
  match v with
  | JNull => GenNode 0 []
  | JBool b => GenNode (if b then 1 else 2) []
  | JInt n => GenNode 3 [GenLeaf (inr n)]
  | JFloat r => GenNode 4 [GenLeaf (inl r)]
  | JStr s => GenNode 5 [GenLeaf (inl s)]
  | JArr l => GenNode 6 (map to_tree l)
  | JObj m => GenNode 7 (map (fun kv => GenNode 8 [GenLeaf (inl kv.1); to_tree kv.2]) m)
  end.

Fixpoint of_tree (t : gen_tree (string + Z)) : Json :=
  match t with
  | GenNode 1 [] => JBool true
  | GenNode 2 [] => JBool false
  | GenNode 3 [GenLeaf (inr n)] => JInt n
  | GenNode 4 [GenLeaf (inl r)] => JFloat r
  | GenNode 5 [GenLeaf (inl s)] => JStr s
  | GenNode 6 l => JArr (map of_tree l)
  | GenNode 7 l => JObj (map (fun t => match t with GenNode 8 [GenLeaf (inl k); v] => (k, of_tree v) | _ => (""%string, JNull) end) l)
  | _ => JNull
  end.

Lemma of_to_tree v : of_tree (to_tree v) = v.
Proof.
  revert v. fix IH 1. intros [|b|n|r|s|l|m]; [reflexivity|destruct b; reflexivity|reflexivity|reflexivity|reflexivity|..]; cbn; f_equal.
  - induction l as [|x l IHl]; [reflexivity|]. cbn. rewrite IH, IHl. reflexivity.
  - induction m as [|[k x] m IHm]; [reflexivity|]. cbn. rewrite IH, IHm. reflexivity.
Qed.

(** Printed with a bracket, so that none is hidden. *)
Definition example_print (v : Json) : option str := Some [Z.pos (encode (to_tree v)); 60].
Definition example_read (s : str) : option Json :=
  match s with [Z.pos p; 60] => of_tree <$> decode p | _ => None end.

Lemma example_reads_back : json_reads_back example_read example_print.
Proof. intros v. eexists. split; [done|]. unfold example_read. rewrite decode_encode. cbn. by rewrite of_to_tree. Qed.

(** A block cut within its opening tag, and a parser that takes every block. *)
#[refine] Instance example_parser : InlineToolParser := {| parse_block _ s := Some [mkParsed (bytes_of "id") (bytes_of "f") s] |}.
Proof. by intros _ s calls [= <-]. Defined.

Definition example_chunk (content : string) : Json :=
  JObj [("choices", JArr [JObj [("delta", JObj [("content", JStr content)])]])]%string.
Definition example_payloads : list str :=
  omap example_print [example_chunk "Hi <tool"; example_chunk "_call>{}</tool_call> bye"]%string.

Lemma example_chunk_ok v : calls_in v = [] -> stops v = false -> inline_chunk_ok example_read (default [] (example_print v)).
Proof.
  intros H1 H2. destruct (example_reads_back v) as (p & E1 & E2). split.
  - exists v. rewrite E1. split_and!; [done|done|]. by rewrite H2.
  - intros res Hr. exfalso. rewrite E1 in Hr. injection E1 as <-. cbn [default from_option id] in Hr.
    assert (forall l s, Forall (fun t : str * str => 2 < length t.1)%nat l -> length s = 2%nat -> replace_finish l s = None) as Hn.
    { intros l s Hl Hs. induction Hl as [|[from to] l Hf _ IH]; [done|]. cbn. destruct (find_sub from s) as [k|] eqn:Ek; [|done].
      apply find_sub_length in Ek. cbn in Hf. lia. }
    rewrite Hn in Hr; [done| |done]. repeat constructor; cbn; lia.
Qed.


(** ** At the edges *)

(** A finish chunk with content, after a call, keeps its own content: what was
    held_text back before it is neither in it nor held_text any longer. *)
Lemma finish_chunk_loses_held_text from_str to_string p n :
  let v := JObj [("choices", JArr [JObj [("delta", JObj [("content", JStr "3")]); ("finish_reason", JStr "stop")]])]%string in
  from_str p = Some v ->
  let '(a, _, s) := inline_process_chunk example_parser example_parser from_str to_string p n (mkExtractor false None [] (bytes_of "<") true 1) in
  a = mutated to_string (with_choice (put "finish_reason" (JStr "tool_calls")) v) /\ held_text s = [].
Proof. intros v E. unfold inline_process_chunk. rewrite E. vm_compute. done. Qed.

(** A chunk without a bracket of its own is passed on, whatever its content is
    once decoded. *)
Lemma escaped_brackets_unseen xml_parser json_parser from_str to_string p n :
  60 ∉ p -> contains_bytes TOOL_CALLS_MARKER p = false ->
  inline_process_chunk xml_parser json_parser from_str to_string p n extractor_new = ((Passthrough, n), extractor_new).
Proof. intros H1 H2. unfold inline_process_chunk. cbn -[TOOL_CALLS_MARKER]. by rewrite H2, bool_decide_false. Qed.

(** A finish reason of null, in the middle of a stream, is overwritten too. *)
Lemma null_finish_reason_overwritten : json_get "finish_reason" (finish_if_present (JObj [("finish_reason", JNull)]%string)) = Some (JStr "tool_calls").
Proof. done. Qed.

(** A list of calls is taken to end with the last bracket so far: with the one
    of an inner list, if the chunk was cut after it. *)
Lemma marker_block_ends_early : find_close_tag_in_buffer (bytes_of "[{name:f,arguments:[1]") [93] = Some 22%nat.
Proof. by vm_compute. Qed.
