(* ===== verification/InlineParsers.v ===== *)
(** * The JSON parser of inline tool calls

    [openproxy-pipeline/src/inline_tools/hermes_json.rs] and [types.rs]: the
    parser for calls written as JSON objects, an instance of the trait the
    extractor of [InlineTools] uses, and that it understands the blocks the
    extractor finds.

    The stream deserializer of serde_json is a parameter (the values it yields
    up to the first error), as are the printer and the ids drawn for calls that
    have none. *)

From Stdlib Require Import String.
From S2P Require Import Prelude Text Bytes ThinkResponse DeltaScan ModelIds StreamFold DevinWire DevinStream DevinRequest InlineTools AnthropicBridge.

(** [ParsedToolCall::to_openai_value]. *)
Definition to_openai_value (c : ParsedToolCall) : Json :=
  JObj [("function", JObj [("arguments", jstr (ptc_arguments c)); ("name", jstr (ptc_name c))]);
        ("id", jstr (ptc_id c)); ("type", JStr "function")]%string.

Definition strip_markdown_codeblock (s : str) : str :=
  let trimmed := trim_bytes s in
  match strip_prefix (bytes_of "```") trimmed with
  | Some rest =>
      let after_lang := match byte_position 10 rest with Some newline_idx => drop (S newline_idx) rest | None => rest end in
      match strip_suffix (bytes_of "```") after_lang with
      | Some content => trim_bytes content
      | None => trimmed
      end
  | None => trimmed
  end.

Section hermes.
(** [Deserializer::from_str(..).into_iter().flatten()], [Value::to_string], and
    the ids of the calls of one block. *)
Context (values_of : str -> list Json) (to_string : Json -> str) (fresh_id : nat -> nat -> str).

Definition reserved (k : string) : bool :=
  existsb (fun r => eq_ignore_ascii_case (bytes_of k) (bytes_of r)) ["name"; "id"; "call_id"; "type"; "function"]%string.

(** The call of a value; [id] is the one it is given if it has none. *)
Definition parse_single_json_tool_call (id : str) (val : Json) : option ParsedToolCall :=
  match val with
  | JObj obj =>
      let name := assoc_get "name" obj ≫= as_str in
      let args_val := or_opt (or_opt (assoc_get "arguments" obj) (assoc_get "parameters" obj)) (assoc_get "input" obj) in
      let '(name, args_val) :=
        match name, assoc_get "function" obj with
        | None, Some (JObj func) =>
            (assoc_get "name" func ≫= as_str,
             or_opt args_val (or_opt (assoc_get "arguments" func) (assoc_get "parameters" func)))
        | _, _ => (name, args_val)
        end in
      match name with
      | None => None
      | Some name =>
          match trim_bytes (bytes_of name) with
          | [] => None
          | name =>
              let id := default id (bytes_of <$> (or_opt (assoc_get "id" obj) (assoc_get "call_id" obj) ≫= as_str)) in
              let remaining := filter (fun kv => reserved kv.1 = false) obj in
              let effective := or_opt args_val (match remaining with [] => None | _ => Some (JObj remaining) end) in
              Some (mkParsed id name
                (match effective with Some (JStr s) => bytes_of s | Some v => to_string v | None => bytes_of "{}" end))
          end
      end
  | _ => None
  end.

(** The calls of a value: itself, or the elements of an array. *)
Definition push_call (n : nat) (calls : list ParsedToolCall) (v : Json) : list ParsedToolCall :=
  match parse_single_json_tool_call (fresh_id n (length calls)) v with Some c => calls ++ [c] | None => calls end.

Definition push_item (n : nat) (calls : list ParsedToolCall) (item : Json) : list ParsedToolCall :=
  match parse_single_json_tool_call (fresh_id n (length calls)) item with
  | Some c => calls ++ [c]
  | None => match item with JArr arr => foldl (push_call n) calls arr | _ => calls end
  end.

Definition hermes_parse_block (n : nat) (block : str) : option (list ParsedToolCall) :=
  match foldl (push_item n) [] (values_of (strip_markdown_codeblock (trim_bytes block))) with
  | [] => None
  | calls => Some calls
  end.

#[refine, export] Instance HermesJsonParser : InlineToolParser := {| parse_block := hermes_parse_block |}.
Proof. intros n s calls. unfold hermes_parse_block. by destruct (foldl _ _ _); intros [= <-]. Defined.

(** ** Blocks of the extractor *)

Lemma trim_plain_ends a s b : ws_len (a :: s ++ [b]) = 0%nat -> ws_len_rev (b :: reverse (a :: s)) = 0%nat -> trim_bytes (a :: s ++ [b]) = a :: s ++ [b].
Proof using Type.
  intros H1 H2. unfold trim_bytes. rewrite (trim_by_stop ws_len) by done. cbv zeta.
  change (a :: s ++ [b]) with ((a :: s) ++ [b]) at 2. rewrite reverse_snoc, (trim_by_stop ws_len_rev) by done.
  by rewrite reverse_cons, reverse_involutive.
Qed.

Lemma ws_len_rev_gt r : ws_len_rev (62 :: r) = 0%nat.
Proof using Type.
  assert (forall x : Z, (ws_len [x; 62%Z] =? 2)%nat = false) as H2 by (intros x; unfold ws_len; repeat case_match; done).
  assert (forall x y : Z, (ws_len [x; y; 62%Z] =? 3)%nat = false) as H3 by (intros x y; unfold ws_len; repeat case_match; done).
  destruct r as [|b2 [|b1 r]]; cbn -[ws_len Nat.eqb]; [done|by rewrite H2|by rewrite H2, H3].
Qed.

Lemma trim_closed a s : ws_len (a :: s ++ [62]) = 0%nat -> trim_bytes (a :: s ++ [62]) = a :: s ++ [62].
Proof using Type. intros H. apply trim_plain_ends; [done|apply ws_len_rev_gt]. Qed.

Lemma trim_block body : trim_bytes (tool_block body) = tool_block body.
Proof using Type.
  change (tool_block body) with (60 :: (bytes_of "tool_call>" ++ body ++ bytes_of "</tool_call>")).
  replace (bytes_of "tool_call>" ++ body ++ bytes_of "</tool_call>") with ((bytes_of "tool_call>" ++ body ++ bytes_of "</tool_call") ++ [62])
    by (by rewrite <- !app_assoc).
  by apply trim_closed.
Qed.

Lemma strip_open_block x : strip_open TOOL_TAG_CANDIDATES (OPEN_TAG ++ x) = trim_bytes x.
Proof using Type.
  destruct tags_split as [l ->]. destruct (open_tag_at x) as (_ & A2 & _ & A4). cbn [strip_open tag_pair]. by rewrite find_ic_tag, A4, A2.
Qed.

Lemma strip_close_block body : closes_once body -> strip_close TOOL_TAG_CANDIDATES (body ++ CLOSE_TAG) = trim_bytes body.
Proof using Type.
  intros H. destruct tags_split as [l ->]. cbn [strip_close tag_pair]. fold CLOSE_TAG. rewrite H. by rewrite take_app_length.
Qed.

(** The body of a block, if it is an object. *)
Lemma block_body p : closes_once (123 :: p ++ [125]) -> strip_tool_call_tags (tool_block (123 :: p ++ [125])) = 123 :: p ++ [125].
Proof using Type.
  intros Hb. unfold strip_tool_call_tags. rewrite trim_block. cbv zeta.
  assert (strip_close TOOL_TAG_CANDIDATES (strip_open TOOL_TAG_CANDIDATES (tool_block (123 :: p ++ [125]))) = 123 :: p ++ [125]) as Hs.
  { unfold tool_block. rewrite strip_open_block.
    replace (trim_bytes ((123 :: p ++ [125]) ++ CLOSE_TAG)) with ((123 :: p ++ [125]) ++ CLOSE_TAG).
    2: { change CLOSE_TAG with (bytes_of "</tool_call" ++ [62]). rewrite (app_assoc (123 :: p ++ [125])). symmetry. by apply (trim_closed 123). }
    rewrite strip_close_block by done. apply trim_plain_ends; [done|apply ws_len_rev_brace]. }
  destruct (find_ignore_case _ TOOL_CALLS_MARKER) as [k|] eqn:E; [|done].
  apply needle_head in E as (y & Hy & Hl). rewrite (lower_bracket y 91 Hl) in Hy by (by right). by destruct k.
Qed.

Lemma no_codeblock p : strip_markdown_codeblock (trim_bytes (123 :: p ++ [125])) = 123 :: p ++ [125].
Proof using Type.
  assert (trim_bytes (123 :: p ++ [125]) = 123 :: p ++ [125]) as E by (apply trim_plain_ends; [done|apply ws_len_rev_brace]).
  unfold strip_markdown_codeblock. rewrite !E. done.
Qed.

(** A call written as a JSON object in [<tool_call>] tags: the block the
    extractor finds is understood, and the call is the one that was written. *)
Lemma hermes_block_understood xml_parser n p name args :
  closes_once (123 :: p ++ [125]) -> @parse_block xml_parser n (tool_block (123 :: p ++ [125])) = None ->
  values_of (123 :: p ++ [125]) = [JObj [("arguments", JObj args); ("name", JStr name)]%string] -> trim_bytes (bytes_of name) <> [] ->
  parse_tool_block xml_parser HermesJsonParser n (tool_block (123 :: p ++ [125])) =
  Some [mkParsed (fresh_id n 0) (trim_bytes (bytes_of name)) (to_string (JObj args))].
Proof using Type.
  intros Hb Hx Hv Hn. unfold parse_tool_block. rewrite trim_block. cbv zeta. rewrite Hx, block_body by done.
  change (tool_block _) with (60 :: tail (tool_block (123 :: p ++ [125]))). cbn [parse_block HermesJsonParser]. unfold hermes_parse_block.
  rewrite no_codeblock, Hv. cbn [foldl push_item]. unfold push_item. cbn -[trim_bytes bytes_of].
  by destruct (trim_bytes (bytes_of name)).
Qed.
End hermes.
